(* ===== verification/_CoqProject ===== *)
-Q . S2P
Prelude.v
Effects.v
Cid.v
Framing.v
TcpChannel.v
Payloads.v
Admissibility.v
PacketNumber.v
ReplayWindow.v
PacketHeader.v
Keys.v
QspSession.v
QspSafety.v
QspDelivery.v
ClientHello.v
Classifier.v
IpPacket.v
UdpIo.v
Config.v
Backoff.v
Registry.v
ServerState.v
ServerSession.v
ServerSafety.v
ServerRun.v
ServerLiveness.v
QuicFront.v
TcpAdmission.v
TcpFront.v
TunPath.v
SessionManager.v
Supervision.v
Auth.v
ServerAuth.v
ClientAuth.v
AddClient.v
AuthExchange.v
ClientState.v
ClientSession.v
ClientSafety.v
ClientRun.v
ClientRuntime.v
Pairing.v
RouteRules.v
NetworkWatcher.v
VpnStatus.v
VpnService.v
NativeSession.v
Discovery.v
Programs.v
ConfigTools.v
InitServer.v
VpnPlan.v
PlatformServices.v
ProfileStore.v
ProfileEditor.v
ProfileController.v
Logs.v
ConnectionTest.v
