(* ===== verification/Prelude.v ===== *)
(** * SLT: a verification development

    SLT is a VPN that hides behind an HTTPS site: clients connect over TLS on
    the port of the web server, authenticate, and may then move their packets
    from TCP to UDP packets that look like QUIC (UDP-QSP).  This library
    models its server, its client, the protocol they share and the tools
    around them, and proves what makes each of them correct.

    ** Parts of the program and files of the library

    The shared crate [slt-core]:
    - [Cid] connection identifiers; [Framing], [Payloads], [Admissibility] the
      messages ([proto/]): layout, the seventeen payload formats, who may send
      what and when; [TcpChannel] messages over a TLS stream.
    - [PacketNumber], [PacketHeader], [Keys], [ReplayWindow], [QspSession] the
      UDP-QSP packets ([crypto/udp_qsp/]); [QspSafety] and [QspDelivery] have
      the theorems on whole sessions.
    - [ClientHello], [Classifier] the token in the TLS ClientHello and the
      classification of streams and datagrams; [IpPacket] addresses and source
      check; [UdpIo] the batching UDP socket; [Config] the configuration.
    The server [slt-server]:
    - [Registry] the routing maps; [ServerState], [ServerSession] the state and
      all handlers of a client session ([sessions/]); [ServerSafety] their
      invariant, [ServerRun] and [ServerLiveness] what holds of whole runs.
    - [QuicFront] the UDP port with its NAT ([quic.rs]); [TcpAdmission],
      [TcpFront] the TCP port ([tcp/]); [TunPath] the TUN device with its
      reader and writer tasks; [SessionManager], [Auth], [ServerAuth] the
      authentication and the sessions of each client ([auth/]); [Supervision]
      the shutdown of the whole ([server_runtime/supervision.rs]).
    The client [slt-client]:
    - [Backoff], [ClientAuth] connecting and authenticating; [ClientState],
      [ClientSession] the state and all handlers of a session
      ([runtime/session/]); [ClientSafety] their invariant, [ClientRun] whole
      runs; [ClientRuntime] the reconnecting runtime and its TUN tasks;
      [Discovery] the QUIC connection that gives a session its connection IDs
      ([transport/quic_discovery.rs]).
    Both ends together:
    - [AuthExchange] client against server over one TLS connection; [Pairing]
      the UDP-QSP sessions that a registration creates on both sides.
    Around them:
    - [AddClient] enrolling a client ([slt-cli]).
    - The Android app: [RouteRules] the route rules of a profile;
      [NetworkWatcher] the changes of the underlying network
      ([NetworkChangeWatcher.kt]); [VpnStatus] the status shown, as a reducer of
      the events of the native client ([VpnStatus.kt]); [VpnService] the
      service that owns the TUN device, its supervisor of native clients and
      how those are started ([SltVpnService.kt], [NativeSessionSupervisor.kt],
      [slt-client/src/android/session.rs]).
    [Prelude] (this file) has results, bytes, integers and their lemmas and
    automation; [Effects] the monad of stateful asynchronous code.

    A packet from a client arrives at [TcpFront] or [QuicFront], which hand a
    claimed connection to [ServerAuth] and a datagram, by the connection ID in
    [Registry], to its session.  [ServerAuth] asks [SessionManager] for a
    session, [ServerSession] runs it, and gives packets to [TunPath], whose
    reader finds the session of an answer in [Registry] again.  On the client
    [ClientRuntime] connects with [ClientAuth] and runs [ClientSession], which
    registers what [Discovery] has found.  On Android the whole client runtime
    is a native session that [VpnService] starts and stops; its events arrive
    in any order with commands, timers and calls of [NetworkWatcher].

    ** How the code is modelled

    Definitions keep the names of the source; a doc comment names the function
    where the name differs.  Pure functions are functions into [res]: a value,
    an error, or a panic, so that indexing, slicing and arithmetic that can
    fail do so in the model.  Bytes are [list Z]; integers are [Z] with the
    wrap, saturation or check of the source written out; durations and
    instants are nanoseconds.  Stateful code is in the monad of [Effects],
    which also has the outcome that a future is dropped at an await point;
    handlers are verified with its weakest preconditions.  Sockets, TLS
    streams, clocks, random numbers and other tasks are environments: functions
    from the number of a question to its answer, over which all theorems
    quantify.  Tasks that share state are step relations or sequences of
    critical sections, and theorems hold of all interleavings.

    Code that is not in the repository is a class of operations with a class of
    the laws its documentation states, and an instance in a witness that shows
    that the laws can hold: BoringSSL ([Keys.Boring]), Ed25519
    ([Auth.Ed25519]), the LRU cache ([QuicFront.Lru]), tun-rs
    ([TunPath.TunRs]), quiche ([Discovery.Quiche]), TOML ([AddClient.Toml])
    and the JVM ([RouteRules.Jvm]).

    ** What the theorems show

    - UDP-QSP: no number is delivered twice or used twice for protection,
      whatever arrives; between two ends packets are delivered with their
      payload across key updates; the ring of the replay window is a set.
    - Server and client sessions: every run returns and cleans up; packets to
      the TUN device carry the assigned source; the TCP stream stays framed;
      the move to UDP follows the handshake; datagrams go to authenticated
      peers; idle sessions close.
    - Authentication: exactly the configured clients with the right signature
      are let in, an exchange between the two ends succeeds, a client has at
      most one session, failures leave nothing behind.
    - Front doors: streams are claimed exactly when they carry the token; the
      limits on connections and NAT entries hold under interference, every
      connection and datagram is accounted for.
    - TUN path and supervision: packets keep their order and reach the session
      that owns the address; a shutdown that completes leaves nothing running.
    - Registry: three maps that refine one directory.
    - Codecs: payloads, frames and streams are inverted exactly.
    - Discovery: it ends, uses protected sockets only, and its identifiers are
      what the theorems on client sessions assume of them.
    - Android: once authenticated the VPN keeps its TUN device until it is
      stopped, apart from one exception that the theorem states; nothing is
      left behind by any order of events; the network watcher reports exactly
      the settled changes.
    - Tools: adding a client is safe against failures of the files, route rules
      mean the same before and after normalisation and survive a round trip.
    Some theorems prove what the code gets wrong: packet numbers that are
    completed wrongly inside the replay window
    ([PacketNumber.reconstruct_sent_iff]), reader tasks that outlive their NAT
    entry ([QuicFront.nat_readers_leak]), connections lost while the acceptor
    looks at them ([TcpFront.claim_lost_while_probed]).

    ** Bounds and fuel

    Loops that are not structural carry a number of turns.  Where the source
    loop ends by itself the number is computed from the state and proved to be
    enough: the output length for HKDF, the distance in intervals for key
    rotation ([rotate_fuel]), the bytes buffered for parsing loops (every
    message has at least a header), the time left for classification
    ([classify_fuel]), the packets left to send ([qc_left]).  The handshake
    loop of [Discovery] ends by its deadline: more turns than nanoseconds in
    it are enough for a clock that advances.  Loops that serve events for ever (sessions, front
    doors, readers, the runtime) run over a list of events or for a number of
    turns that theorems quantify over.  No theorem takes running out of turns
    for a result.

    ** Not modelled

    TLS, QUIC and the kernel: they are libraries, and the code only sets them
    up ([crypto/mod.rs], [tls_material.rs]).
    Metrics and logging, on which nothing depends, except for counters that a
    theorem is about.  The bytes copied by the TCP proxy.  The map of
    [udp_qsp.rs], which nothing uses, and the socket traits of the tests.
    Process setup and the command-line tools other than adding a client, which
    are terminal and network I/O.  Of the Android app the user interface, the
    profile store, the notifications, the DNS and socket services and the JNI
    layer.  Tests. *)

From Stdlib Require Import Ascii String.
From stdpp Require Import base tactics option list numbers.
From Stdlib Require Import ZArith Lia.

#[global] Open Scope Z_scope.

(** ** Results of Rust code

    A fallible Rust function returns [Ok] or [Err]; indexing, slicing and
    [copy_from_slice] can also panic, which is the third outcome.  Theorems
    that a function never returns [Panic] are theorems about the absence of
    out-of-range accesses. *)
Inductive res (E A : Type) : Type :=
  | Ok (a : A)
  | Err (e : E)
  | Panic.
Arguments Ok {E A} _.
Arguments Err {E A} _.
Arguments Panic {E A}.

#[global] Instance res_mret {E} : MRet (res E) := λ A a, Ok a.
#[global] Instance res_mbind {E} : MBind (res E) := λ A B f m,
  match m with Ok a => f a | Err e => Err e | Panic => Panic end.

(** [Result::map_err] *)
Definition map_err {E F A} (f : E → F) (m : res E A) : res F A :=
  match m with Ok a => Ok a | Err e => Err (f e) | Panic => Panic end.

(** [Result::map] *)
Definition map_ok {E A B} (f : A → B) (m : res E A) : res E B :=
  match m with Ok a => Ok (f a) | Err e => Err e | Panic => Panic end.

(** [Option::ok_or] *)
Definition ok_or {E A} (o : option A) (e : E) : res E A :=
  match o with Some a => Ok a | None => Err e end.

(** [Result::ok]; a panic is not a value and stays one *)
Definition res_ok {E F A} (m : res E A) : res F (option A) :=
  match m with Ok a => Ok (Some a) | Err _ => Ok None | Panic => Panic end.

Definition is_panic {E A} (m : res E A) : bool :=
  match m with Panic => true | _ => false end.

(** ** Byte strings *)
Abbreviation bytes := (list Z).

(** [x as uN] and the ranges of the unsigned types *)
Definition u8_ok (x : Z) : Prop := 0 ≤ x < 256.
Definition u16_ok (x : Z) : Prop := 0 ≤ x < 65536.
Definition u64_ok (x : Z) : Prop := 0 ≤ x < 18446744073709551616.
Definition u64_max : Z := 18446744073709551615.

#[global] Instance u8_ok_dec x : Decision (u8_ok x).
Proof. unfold u8_ok. apply _. Defined.
#[global] Instance u16_ok_dec x : Decision (u16_ok x).
Proof. unfold u16_ok. apply _. Defined.
#[global] Instance u64_ok_dec x : Decision (u64_ok x).
Proof. unfold u64_ok. apply _. Defined.

Definition bytes_ok (l : bytes) : Prop := Forall u8_ok l.
#[global] Instance bytes_ok_dec l : Decision (bytes_ok l).
Proof. unfold bytes_ok. apply _. Defined.

(** A Rust array [[u8; n]]: [n] bytes. *)
Definition array_ok (n : Z) (l : bytes) : Prop :=
  Z.of_nat (length l) = n ∧ bytes_ok l.
#[global] Instance array_ok_dec n l : Decision (array_ok n l).
Proof. unfold array_ok. apply _. Defined.

Definition zlen {A} (l : list A) : Z := Z.of_nat (length l).

(** [l[i]] *)
Definition index {E} (l : bytes) (i : Z) : res E Z :=
  if (0 <=? i) && (i <? zlen l) then Ok (nth (Z.to_nat i) l 0) else Panic.

(** The elements of [l[a..b]] when the range is valid. *)
Definition sub {A} (l : list A) (a b : Z) : list A :=
  take (Z.to_nat (b - a)) (drop (Z.to_nat a) l).

(** [l[a..b]] *)
Definition slice {E} (l : bytes) (a b : Z) : res E bytes :=
  if (0 <=? a) && (a <=? b) && (b <=? zlen l) then Ok (sub l a b) else Panic.

(** [l.get(a..b)] *)
Definition get_range (l : bytes) (a b : Z) : option bytes :=
  if (0 <=? a) && (a <=? b) && (b <=? zlen l) then Some (sub l a b) else None.

(** [l.get(i)] *)
Definition get_at (l : bytes) (i : Z) : option Z :=
  if (0 <=? i) && (i <? zlen l) then Some (nth (Z.to_nat i) l 0) else None.

(** [let mut a = [0u8; n]; a.copy_from_slice(src)]: panics unless the lengths
    agree. *)
Definition copy_array {E} (n : Z) (src : bytes) : res E bytes :=
  if zlen src =? n then Ok src else Panic.

(** [<[u8; n]>::try_from(slice)] *)
Definition try_array (n : Z) (src : bytes) : option bytes :=
  if zlen src =? n then Some src else None.

(** A byte string literal [b"..."] *)
Definition bytes_of_string (s : string) : bytes :=
  List.map (λ a, Z.of_nat (nat_of_ascii a)) (list_ascii_of_string s).

Definition zeros (n : Z) : bytes := replicate (Z.to_nat n) 0.

(** ** Unsigned 64-bit arithmetic, at its width *)
Definition checked_add64 (a b : Z) : option Z :=
  if a + b <=? u64_max then Some (a + b) else None.
Definition saturating_add64 (a b : Z) : Z := Z.min (a + b) u64_max.
Definition saturating_sub (a b : Z) : Z := Z.max 0 (a - b).
Definition abs_diff (a b : Z) : Z := Z.abs (a - b).

(** ** Big-endian integers *)
Fixpoint to_be (n : nat) (x : Z) : bytes :=
  match n with
  | O => []
  | S n => to_be n (x / 256) ++ [x mod 256]
  end.

Definition from_be (l : bytes) : Z := foldl (λ acc b, acc * 256 + b) 0 l.

#[global] Arguments to_be : simpl never.
#[global] Arguments from_be : simpl never.
#[global] Arguments zlen : simpl never.
#[global] Arguments sub : simpl never.
#[global] Arguments index : simpl never.
#[global] Arguments slice : simpl never.
#[global] Arguments copy_array : simpl never.
#[global] Arguments zeros : simpl never.

(** ** Automation *)
Create HintDb slt.
Create Rewrite HintDb slt.

(** Equations of the result monad. *)
#[global] Instance Ok_inj {E A} : Inj (=) (=) (@Ok E A).
Proof. congruence. Qed.

Lemma bind_ok {E A B} (m : res E A) (f : A → res E B) b :
  (m ≫= f) = Ok b ↔ ∃ a, m = Ok a ∧ f a = Ok b.
Proof. destruct m; split; try (intros (? & ? & ?)); naive_solver. Qed.

Lemma bind_not_panic {E A B} (m : res E A) (f : A → res E B) :
  m ≠ Panic → (∀ a, m = Ok a → f a ≠ Panic) → (m ≫= f) ≠ Panic.
Proof. destruct m; naive_solver. Qed.

Lemma map_err_ok {E F A} (g : E → F) (m : res E A) a :
  map_err g m = Ok a ↔ m = Ok a.
Proof. destruct m; naive_solver. Qed.

Lemma map_err_not_panic {E F A} (g : E → F) (m : res E A) :
  map_err g m ≠ Panic ↔ m ≠ Panic.
Proof. destruct m; naive_solver. Qed.

Lemma map_ok_not_panic {E A B} (g : A → B) (m : res E A) :
  map_ok g m ≠ Panic ↔ m ≠ Panic.
Proof. destruct m; naive_solver. Qed.

(** [res_inv H] takes a hypothesis [(x ← m; k) = Ok b] apart. *)
Ltac res_inv H :=
  repeat (apply bind_ok in H as (? & ? & H)).

(** Reduce binds of known results. *)
Ltac res_simpl := cbn [mbind res_mbind mret res_mret ok_or map_err map_ok res_ok].

Tactic Notation "res_simpl" "in" hyp(H) :=
  cbn [mbind res_mbind mret res_mret ok_or map_err map_ok res_ok] in H.

(** Split every boolean test of the goal and the hypotheses, with the
    arithmetic fact it decides. *)
Ltac split_tests :=
  repeat match goal with
  | |- context [Z.eqb ?a ?b] => destruct (Z.eqb_spec a b)
  | |- context [Z.ltb ?a ?b] => destruct (Z.ltb_spec a b)
  | |- context [Z.leb ?a ?b] => destruct (Z.leb_spec a b)
  end.
Ltac split_tests_in H :=
  repeat match type of H with
  | context [Z.eqb ?a ?b] => destruct (Z.eqb_spec a b)
  | context [Z.ltb ?a ?b] => destruct (Z.ltb_spec a b)
  | context [Z.leb ?a ?b] => destruct (Z.leb_spec a b)
  end.

(** Lengths: push [length] through the list operations, then [lia]. *)
Ltac len_tac :=
  unfold zlen, sub in *; simpl in *;
  repeat (rewrite ?length_app, ?length_take, ?length_drop, ?length_replicate,
            ?length_map, ?length_cons in *);
  simpl in *; lia.

(** ** Lengths and slices *)
Lemma zlen_cons {A} (x : A) l : zlen (x :: l) = 1 + zlen l.
Proof. unfold zlen; simpl length; lia. Qed.
Lemma zlen_app {A} (l k : list A) : zlen (l ++ k) = zlen l + zlen k.
Proof. unfold zlen. rewrite length_app. lia. Qed.
Lemma zlen_one {A} (x : A) : zlen [x] = 1.
Proof. done. Qed.
Lemma zlen_nonneg {A} (l : list A) : 0 ≤ zlen l.
Proof. unfold zlen. lia. Qed.
(** Joining a multiple of [2^k] with a number below [2^k] is an addition. *)
Lemma lor_aligned a t k :
  0 ≤ k → 0 ≤ t < 2 ^ k → a mod 2 ^ k = 0 → Z.lor a t = a + t.
Proof.
  intros Hk Ht Ha. rewrite <- Z.add_lor_land.
  assert (Z.land a t = 0) as ->; [|lia].
  apply Z.bits_inj'. intros i Hi. rewrite Z.land_spec, Z.bits_0.
  destruct (Z.ltb_spec i k).
  - rewrite <- (Z.mod_pow2_bits_low a k i), Ha, Z.bits_0 by lia. done.
  - rewrite <- (Z.mod_small t (2 ^ k)), Z.mod_pow2_bits_high, andb_false_r by lia. done.
Qed.

Lemma elem_of_List_filter {A} (f : A → bool) (l : list A) x : x ∈ List.filter f l ↔ x ∈ l ∧ f x = true.
Proof. by rewrite list_elem_of_In, filter_In, <- list_elem_of_In. Qed.

Lemma to_be_S n x : to_be (S n) x = to_be n (x / 256) ++ [x mod 256].
Proof. done. Qed.
Lemma zlen_to_be n x : zlen (to_be n x) = Z.of_nat n.
Proof.
  revert x. induction n as [|n IH]; intros x; [done|].
  rewrite to_be_S, zlen_app, IH, zlen_one. lia.
Qed.
Lemma zlen_zeros n : 0 ≤ n → zlen (zeros n) = n.
Proof. unfold zlen, zeros. rewrite length_replicate. lia. Qed.
Lemma zlen_sub {A} (l : list A) a b :
  0 ≤ a → a ≤ b → b ≤ zlen l → zlen (sub l a b) = b - a.
Proof. unfold zlen, sub. rewrite length_take, length_drop. lia. Qed.
#[export] Hint Rewrite @zlen_cons @zlen_app @zlen_to_be : slt.

(** Compute the lengths in the goal. *)
Ltac zl := autorewrite with slt; change (zlen (@nil Z)) with 0.
Tactic Notation "zl" "in" hyp(H) :=
  autorewrite with slt in H; change (zlen (@nil Z)) with 0 in H.

Lemma sub_app_l {A} (l k : list A) a b :
  0 ≤ a → a ≤ b → b ≤ zlen l → sub (l ++ k) a b = sub l a b.
Proof.
  unfold sub, zlen. intros. rewrite drop_app_le by lia.
  rewrite take_app_le; [done|]. rewrite length_drop. lia.
Qed.

Lemma sub_app_r {A} (l k : list A) a b :
  zlen l ≤ a → a ≤ b → sub (l ++ k) a b = sub k (a - zlen l) (b - zlen l).
Proof.
  unfold sub, zlen. intros. rewrite drop_app_ge by lia.
  f_equal; [|f_equal]; lia.
Qed.

Lemma sub_all {A} (l : list A) a b :
  a = 0 → b = zlen l → sub l a b = l.
Proof.
  intros -> ->. unfold sub, zlen. rewrite drop_0, take_ge; [done|lia].
Qed.

Lemma sub_split {A} (l : list A) a :
  0 ≤ a → a ≤ zlen l → l = sub l 0 a ++ sub l a (zlen l).
Proof.
  intros. unfold sub, zlen in *. rewrite drop_0.
  rewrite (take_ge (drop _ _)) by (rewrite length_drop; lia).
  replace (Z.to_nat (a - 0)) with (Z.to_nat a) by lia.
  by rewrite take_drop.
Qed.

Lemma sub_concat {A} (l : list A) a b c :
  0 ≤ a → a ≤ b → b ≤ c → c ≤ zlen l → sub l a c = sub l a b ++ sub l b c.
Proof.
  intros. unfold sub, zlen in *.
  rewrite <- (take_drop (Z.to_nat (b - a)) (take _ (drop _ l))).
  rewrite take_take, Nat.min_l by lia. f_equal.
  rewrite skipn_firstn_comm, drop_drop. f_equal; [lia|]. f_equal; lia.
Qed.

Lemma nth_app_zlen (l k : bytes) (i : Z) :
  zlen l ≤ i → nth (Z.to_nat i) (l ++ k) 0 = nth (Z.to_nat (i - zlen l)) k 0.
Proof.
  unfold zlen. intros. rewrite app_nth2 by lia. f_equal. lia.
Qed.

Lemma nth_Z0 (x : Z) l : nth (Z.to_nat 0) (x :: l) 0 = x.
Proof. done. Qed.

(** A slice that is read one byte at a time. *)
Lemma sub_cons (l : bytes) a b :
  0 ≤ a → a < b → b ≤ zlen l →
  sub l a b = nth (Z.to_nat a) l 0 :: sub l (a + 1) b.
Proof.
  intros. unfold sub, zlen in *.
  rewrite (drop_S l (nth (Z.to_nat a) l 0) (Z.to_nat a)).
  2: { destruct (lookup_lt_is_Some_2 l (Z.to_nat a)) as [x Hx]; [lia|].
       by rewrite nth_lookup, Hx. }
  replace (Z.to_nat (b - a)) with (S (Z.to_nat (b - (a + 1)))) by lia.
  simpl. do 2 f_equal. f_equal. lia.
Qed.

Lemma sub_nil {A} (l : list A) a : sub l a a = [].
Proof. unfold sub. by rewrite Z.sub_diag. Qed.

Lemma nth_app_l (l k : bytes) i :
  0 ≤ i < zlen l → nth (Z.to_nat i) (l ++ k) 0 = nth (Z.to_nat i) l 0.
Proof. unfold zlen. intros. rewrite app_nth1 by lia. done. Qed.

(** Locate a slice or an element of a concatenation of fields whose lengths
    [lia] can compute. *)
Ltac fields :=
  repeat first
    [ rewrite sub_all by (zl; lia)
    | rewrite sub_app_r by (zl; lia)
    | rewrite sub_app_l by (zl; lia) ].

(** The checked accessors on valid positions. *)
Lemma index_ok {E} (l : bytes) i :
  0 ≤ i → i < zlen l → @index E l i = Ok (nth (Z.to_nat i) l 0).
Proof. intros. unfold index. split_tests; simpl; try done; lia. Qed.

Lemma slice_ok {E} (l : bytes) a b :
  0 ≤ a → a ≤ b → b ≤ zlen l → @slice E l a b = Ok (sub l a b).
Proof. intros. unfold slice. split_tests; simpl; try done; lia. Qed.

Lemma copy_array_ok {E} n (l : bytes) : zlen l = n → @copy_array E n l = Ok l.
Proof. intros <-. unfold copy_array. by rewrite Z.eqb_refl. Qed.

Lemma get_range_Some l a b k :
  get_range l a b = Some k ↔ (0 ≤ a ∧ a ≤ b ∧ b ≤ zlen l) ∧ k = sub l a b.
Proof. unfold get_range. split_tests; simpl; split; intros; destruct_and?; simplify_eq; lia || done. Qed.

Lemma get_at_Some l i x :
  get_at l i = Some x ↔ (0 ≤ i ∧ i < zlen l) ∧ x = nth (Z.to_nat i) l 0.
Proof. unfold get_at. split_tests; simpl; split; intros; destruct_and?; simplify_eq; lia || done. Qed.

Lemma get_range_ok l a b : 0 ≤ a → a ≤ b → b ≤ zlen l → get_range l a b = Some (sub l a b).
Proof. intros. by apply get_range_Some. Qed.
Lemma get_at_ok l i : 0 ≤ i → i < zlen l → get_at l i = Some (nth (Z.to_nat i) l 0).
Proof. intros. by apply get_at_Some. Qed.
Lemma slice_not_panic {E} (l : bytes) a b :
  0 ≤ a → a ≤ b → b ≤ zlen l → @slice E l a b ≠ Panic.
Proof. intros. by rewrite slice_ok. Qed.
Lemma index_not_panic {E} (l : bytes) i : 0 ≤ i → i < zlen l → @index E l i ≠ Panic.
Proof. intros. by rewrite index_ok. Qed.
Lemma copy_array_not_panic {E} n (l : bytes) : zlen l = n → @copy_array E n l ≠ Panic.
Proof. intros. by rewrite copy_array_ok. Qed.
Lemma ok_or_not_panic {E A} (o : option A) (e : E) : ok_or o e ≠ Panic.
Proof. by destruct o. Qed.
Lemma slice_inv {E} (l : bytes) a b r :
  @slice E l a b = Ok r → 0 ≤ a ∧ a ≤ b ∧ b ≤ zlen l ∧ r = sub l a b.
Proof. unfold slice. intros H. split_tests_in H; simpl in H; simplify_eq. done. Qed.

(** Goals [m ≠ Panic] by the structure of [m]; the range conditions of the
    accesses are left to [lia]. *)
Ltac no_panic_step :=
  match goal with
  | |- (if ?c then _ else _) ≠ Panic => destruct c eqn:?
  | |- (_ ≫= _) ≠ Panic => apply bind_not_panic; [|intros ? ?]
  | |- map_err _ _ ≠ Panic => apply map_err_not_panic
  | |- map_ok _ _ ≠ Panic => apply map_ok_not_panic
  | |- ok_or _ _ ≠ Panic => apply ok_or_not_panic
  | |- Ok _ ≠ Panic => discriminate
  | |- Err _ ≠ Panic => discriminate
  | |- slice _ _ _ ≠ Panic => apply slice_not_panic
  | |- index _ _ ≠ Panic => apply index_not_panic
  | |- copy_array _ _ ≠ Panic => apply copy_array_not_panic
  | H : slice _ _ _ = Ok _ |- _ => apply slice_inv in H as (? & ? & ? & ->)
  | |- zlen (sub _ _ _) = _ => rewrite zlen_sub
  end.
Ltac no_panic := repeat no_panic_step; try lia.

(** Closed decidable goals, by evaluation. *)
Ltac decided := refine (bool_decide_unpack _ _); vm_compute; exact I.

(** ** Byte ranges *)
Lemma bytes_ok_app l k : bytes_ok (l ++ k) ↔ bytes_ok l ∧ bytes_ok k.
Proof. apply Forall_app. Qed.

Lemma bytes_ok_sub l a b : bytes_ok l → bytes_ok (sub l a b).
Proof. intros. by apply Forall_take, Forall_drop. Qed.

Lemma bytes_ok_zeros n : bytes_ok (zeros n).
Proof. apply Forall_replicate. unfold u8_ok. lia. Qed.

Lemma bytes_ok_nth l i : bytes_ok l → u8_ok (nth i l 0).
Proof.
  intros H. rewrite nth_lookup. destruct (l !! i) eqn:E; simpl.
  - by eapply Forall_lookup_1 in E; [|exact H].
  - unfold u8_ok. lia.
Qed.

Lemma bytes_ok_to_be n x : bytes_ok (to_be n x).
Proof.
  revert x. induction n as [|n IH]; intros x; [constructor|].
  rewrite to_be_S.
  apply bytes_ok_app. split; [apply IH|]. constructor; [|constructor].
  unfold u8_ok. apply Z.mod_pos_bound. lia.
Qed.
#[export] Hint Resolve bytes_ok_sub bytes_ok_zeros bytes_ok_nth bytes_ok_to_be : slt.

(** ** Big-endian round trips *)
Lemma from_be_app l b : from_be (l ++ [b]) = from_be l * 256 + b.
Proof. unfold from_be. by rewrite foldl_app. Qed.

Lemma from_be_to_be n x : 0 ≤ x < 256 ^ Z.of_nat n → from_be (to_be n x) = x.
Proof.
  revert x. induction n as [|n IH]; intros x Hx.
  - change (256 ^ Z.of_nat 0) with 1 in Hx. change (from_be _) with 0. lia.
  - rewrite to_be_S, from_be_app, IH.
    + pose proof (Z.div_mod x 256). lia.
    + rewrite Nat2Z.inj_succ, Z.pow_succ_r in Hx by lia.
      split; [apply Z.div_pos; lia|]. apply Z.div_lt_upper_bound; lia.
Qed.

Lemma from_be_to_be8 x : u64_ok x → from_be (to_be 8 x) = x.
Proof. apply (from_be_to_be 8). Qed.

Lemma from_be_to_be2 x : u16_ok x → from_be (to_be 2 x) = x.
Proof. apply (from_be_to_be 2). Qed.

Lemma to_be_from_be l : bytes_ok l → to_be (length l) (from_be l) = l.
Proof.
  induction l as [|b l IH] using rev_ind; intros H; [done|].
  apply bytes_ok_app in H as [Hl Hb]. inversion Hb as [|? ? Hb' _]; subst.
  rewrite length_app, Nat.add_comm. cbn [length Nat.add].
  rewrite to_be_S, from_be_app.
  unfold u8_ok in Hb'. f_equal.
  - rewrite Z.div_add_l, Z.div_small, Z.add_0_r by lia. by apply IH.
  - f_equal. rewrite Z.add_comm, Z.mod_add, Z.mod_small; lia.
Qed.

Lemma to_be_from_be' n l :
  bytes_ok l → zlen l = Z.of_nat n → to_be n (from_be l) = l.
Proof.
  intros H Hn. replace n with (length l) by (unfold zlen in Hn; lia).
  by apply to_be_from_be.
Qed.

Lemma from_be_bound l : bytes_ok l → 0 ≤ from_be l < 256 ^ zlen l.
Proof.
  induction l as [|b l IH] using rev_ind; intros H.
  { change (256 ^ zlen []) with 1. unfold from_be. simpl. lia. }
  apply bytes_ok_app in H as [Hl Hb]. inversion Hb as [|? ? Hb' _]; subst.
  pose proof (zlen_nonneg l).
  rewrite from_be_app, zlen_app, zlen_one, Z.pow_add_r by lia.
  specialize (IH Hl). unfold u8_ok in Hb'.
  change (256 ^ 1) with 256.
  generalize dependent (256 ^ zlen l). intros. lia.
Qed.

(** An integer read from eight (two) consecutive bytes. *)
Lemma be8_field b i j :
  bytes_ok b → 0 ≤ i → j = i + 8 → j ≤ zlen b →
  u64_ok (from_be (sub b i j)) ∧ to_be 8 (from_be (sub b i j)) = sub b i j.
Proof.
  intros Hb Hi -> Hj. assert (zlen (sub b i (i + 8)) = 8) as L by (rewrite zlen_sub; lia).
  split; [|apply to_be_from_be'; auto with slt].
  pose proof (from_be_bound (sub b i (i + 8)) ltac:(auto with slt)) as B. rewrite L in B. exact B.
Qed.

Lemma be2_field b i j :
  bytes_ok b → 0 ≤ i → j = i + 2 → j ≤ zlen b →
  u16_ok (from_be (sub b i j)) ∧ to_be 2 (from_be (sub b i j)) = sub b i j.
Proof.
  intros Hb Hi -> Hj. assert (zlen (sub b i (i + 2)) = 2) as L by (rewrite zlen_sub; lia).
  split; [|apply to_be_from_be'; auto with slt].
  pose proof (from_be_bound (sub b i (i + 2)) ltac:(auto with slt)) as B. rewrite L in B. exact B.
Qed.

(** ** Wire enumerations

    The interface of the [#[repr(u8)]] enums that derive [IntoPrimitive] and
    [TryFromPrimitive]. *)
Class WireEnum (A : Type) := {
  to_u8 : A → Z;
  try_from_u8 : Z → option A;
  try_from_to_u8 : ∀ a, try_from_u8 (to_u8 a) = Some a;
  to_u8_try_from : ∀ z a, try_from_u8 z = Some a → to_u8 a = z;
  to_u8_ok : ∀ a, u8_ok (to_u8 a);
}.

#[global] Arguments to_u8 : simpl never.
#[global] Arguments try_from_u8 : simpl never.

(** Discharges the three laws for an enum given by its table. *)
Ltac wire_enum f g :=
  refine {| to_u8 := f; try_from_u8 := g |};
  [ by intros []
  | intros z a; unfold g;
    repeat match goal with |- context [decide (z = ?n)] => destruct (decide (z = n)); [by intros; simplify_eq|] end;
    done
  | intros []; unfold u8_ok; simpl; lia ].

(** ** I/O errors

    The [io::ErrorKind]s the program constructs or receives; an error of the
    operating system is [OtherIo] with its code. *)
Inductive IoError :=
  | ConnectionAborted | ConnectionRefused | ConnectionReset | PermissionDenied | TimedOut
  | BrokenPipe | NotConnected | NetworkUnreachable | WouldBlock | InvalidInput | InvalidData | OtherIo (code : Z).

#[global] Instance IoError_eq_dec : EqDecision IoError.
Proof. solve_decision. Defined.

(** Kinds that are only reported. *)
Definition NotFound : IoError := OtherIo 0.
Definition Interrupted : IoError := OtherIo (-1).
Definition OtherKind : IoError := OtherIo (-2).

(** [io::Result<A>] as the environment returns it. *)
Abbreviation io_result A := (A + IoError)%type (only parsing).
Definition of_io {A} (r : io_result A) : res IoError A :=
  match r with inl a => Ok a | inr e => Err e end.
