(* ===== verification/Effects.v ===== *)
(** * Stateful asynchronous code

    The monad of the session handlers of server and client.  A handler
    changes the session and ends in one of four ways: it returns, it returns
    an error ([?] in the source), it panics, or its future is dropped at an
    await point (a [select!] or a timeout).  Weakest preconditions give one
    condition for each of the first, second and last; a panic satisfies none. *)

From stdpp Require Import base tactics option list numbers.
From S2P Require Import Prelude.

Inductive outcome (E A : Type) :=
  | ORet (a : A)
  | OErr (e : E)
  | OPanic
  | OCancel.
Arguments ORet {E A} a.
Arguments OErr {E A} e.
Arguments OPanic {E A}.
Arguments OCancel {E A}.

(** A handler on a session of type [St] with errors of type [E]. *)
Definition eff (St E A : Type) : Type := St → St * outcome E A.

Section Effects.
Context {St E : Type}.

#[global] Instance M_ret : MRet (eff St E) := λ A a s, (s, ORet a).
#[global] Instance M_bind : MBind (eff St E) := λ A B k m s,
  match m s with
  | (s, ORet a) => k a s
  | (s, OErr e) => (s, OErr e)
  | (s, OPanic) => (s, OPanic)
  | (s, OCancel) => (s, OCancel)
  end.

Definition get : eff St E St := λ s, (s, ORet s).
Definition modify (f : St → St) : eff St E unit := λ s, (f s, ORet tt).
Definition fail {A} (e : E) : eff St E A := λ s, (s, OErr e).
Definition panic {A} : eff St E A := λ s, (s, OPanic).
Definition dropped {A} : eff St E A := λ s, (s, OCancel).

(** [expr?] with the conversion of the error. *)
Definition try {X A} (f : X → E) (m : res X A) : eff St E A := λ s,
  match m with
  | Ok a => (s, ORet a)
  | Err e => (s, OErr (f e))
  | Panic => (s, OPanic)
  end.

(** [let result = m.await; f; result] *)
Definition then_always {A} (m : eff St E A) (f : St → St) : eff St E A := λ s,
  match m s with
  | (s, ORet a) => (f s, ORet a)
  | (s, OErr e) => (f s, OErr e)
  | (s, OPanic) => (s, OPanic)
  | (s, OCancel) => (s, OCancel)
  end.

(** The value of [m.await], errors included. *)
Definition result {A} (m : eff St E A) : eff St E (res E A) := λ s,
  match m s with
  | (s, ORet a) => (s, ORet (Ok a))
  | (s, OErr e) => (s, ORet (Err e))
  | (s, OPanic) => (s, OPanic)
  | (s, OCancel) => (s, OCancel)
  end.

(** [time::timeout(.., m).await]: [None] when the time was up. *)
Definition timeout {A} (m : eff St E A) : eff St E (option (res E A)) := λ s,
  match m s with
  | (s, ORet a) => (s, ORet (Some (Ok a)))
  | (s, OErr e) => (s, ORet (Some (Err e)))
  | (s, OPanic) => (s, OPanic)
  | (s, OCancel) => (s, ORet None)
  end.

(** ** Weakest preconditions *)
Definition wp {A} (m : eff St E A) (Q : A → St → Prop) (X : E → St → Prop) (C : St → Prop) (s : St) : Prop :=
  match m s with
  | (s', ORet a) => Q a s'
  | (s', OErr e) => X e s'
  | (s', OCancel) => C s'
  | (_, OPanic) => False
  end.

Implicit Types (X : E → St → Prop) (C : St → Prop) (s : St).

Lemma wp_bind {A A'} (m : eff St E A) (k : A → eff St E A') Q X C s :
  wp m (λ a s', wp (k a) Q X C s') X C s → wp (m ≫= k) Q X C s.
Proof. unfold wp, mbind, M_bind. by destruct (m s) as [s' [a|e| |] ]. Qed.

Lemma wp_mono {A} (m : eff St E A) (Q Q' : A → St → Prop) X C s :
  wp m Q X C s → (∀ a s', Q a s' → Q' a s') → wp m Q' X C s.
Proof. unfold wp. destruct (m s) as [s' [a|e| |] ]; auto. Qed.

Lemma wp_weaken {A} (m : eff St E A) (Q Q' : A → St → Prop) X X' C C' s :
  wp m Q X C s → (∀ a s', Q a s' → Q' a s') → (∀ e s', X e s' → X' e s') → (∀ s', C s' → C' s') → wp m Q' X' C' s.
Proof. unfold wp. destruct (m s) as [s' [a|e| |] ]; auto. Qed.

Lemma wp_ret {A} (a : A) (Q : A → St → Prop) X C s : Q a s → wp (mret a) Q X C s.
Proof. done. Qed.

Lemma wp_get (Q : St → St → Prop) X C s : Q s s → wp get Q X C s.
Proof. done. Qed.

Lemma wp_modify f (Q : unit → St → Prop) X C s : Q tt (f s) → wp (modify f) Q X C s.
Proof. done. Qed.

Lemma wp_try {Y A} (f : Y → E) (r : res Y A) (Q : A → St → Prop) X C s :
  r ≠ Panic → (∀ a, r = Ok a → Q a s) → (∀ e, r = Err e → X (f e) s) → wp (try f r) Q X C s.
Proof. intros Hp Hq He. unfold wp, try. destruct r; auto. Qed.

Lemma wp_timeout {A} (m : eff St E A) (Q : option (res E A) → St → Prop) X C s :
  wp m (λ a s', Q (Some (Ok a)) s') (λ e s', Q (Some (Err e)) s') (λ s', Q None s') s → wp (timeout m) Q X C s.
Proof. unfold wp, timeout. by destruct (m s) as [s' [a|e| |] ]. Qed.

Lemma wp_result {A} (m : eff St E A) (Q : res E A → St → Prop) X C s :
  wp m (λ a s', Q (Ok a) s') (λ e s', Q (Err e) s') C s → wp (result m) Q X C s.
Proof. unfold wp, result. by destruct (m s) as [s' [a|e| |] ]. Qed.

Lemma wp_then_always {A} (m : eff St E A) f (Q : A → St → Prop) X C s :
  wp m (λ a s', Q a (f s')) (λ e s', X e (f s')) C s → wp (then_always m f) Q X C s.
Proof. unfold wp, then_always. by destruct (m s) as [s' [a|e| |] ]. Qed.

(** ** Code that is not cut off: every future that [m] waits for completes. *)
Definition uncut {A} (m : eff St E A) : Prop := ∀ s, (m s).2 ≠ OCancel.

Lemma uncut_ret {A} (a : A) : uncut (mret a).
Proof. done. Qed.
Lemma uncut_get : uncut get.
Proof. done. Qed.
Lemma uncut_modify f : uncut (modify f).
Proof. done. Qed.
Lemma uncut_fail {A} e : uncut (fail (A := A) e).
Proof. done. Qed.
Lemma uncut_panic {A} : uncut (panic (A := A)).
Proof. done. Qed.
Lemma uncut_try {Y A} f (r : res Y A) : uncut (try f r).
Proof. intros s. unfold try. by destruct r. Qed.

Lemma uncut_bind {A A'} (m : eff St E A) (k : A → eff St E A') : uncut m → (∀ a, uncut (k a)) → uncut (m ≫= k).
Proof.
  intros Hm Hk s. specialize (Hm s). unfold mbind, M_bind. destruct (m s) as [s' [a|e| |] ]; try done. apply Hk.
Qed.

Lemma uncut_result {A} (m : eff St E A) : uncut m → uncut (result m).
Proof. intros Hm s. specialize (Hm s). unfold result. by destruct (m s) as [s' [a|e| |] ]. Qed.

Lemma uncut_then_always {A} (m : eff St E A) f : uncut m → uncut (then_always m f).
Proof. intros Hm s. specialize (Hm s). unfold then_always. by destruct (m s) as [s' [a|e| |] ]. Qed.
End Effects.

Create HintDb uncut.
#[export] Hint Resolve uncut_ret uncut_get uncut_modify uncut_fail uncut_panic uncut_try
  uncut_result uncut_then_always : uncut.

(** Take [m] apart along its binds and its cases. *)
Ltac uncut :=
  repeat first
    [ progress cbv beta zeta
    | solve [eauto with uncut]
    | apply uncut_bind; [|intros ?]
    | apply uncut_then_always | apply uncut_result
    | match goal with |- uncut (match ?x with _ => _ end) => destruct x end ].
