(* ===== verification/Cid.v ===== *)
(** * Connection identifiers ([slt-core/src/types/cid.rs])

    A CID is a length byte and a zero-padded 20-byte array.  The file gives
    the constructors and accessors, the invariant [Cid_ok] of every CID the
    constructors build, and that the accessors invert them. *)

From stdpp Require Import base tactics option list numbers.
From Stdlib Require Import ZArith Lia.
From S2P Require Import Prelude.

Definition MAX_DCID_LEN : Z := 20.
Definition QUIC_DCID_PREFIX_LEN : Z := 20.

(** [struct CidPrefix([u8; QUIC_DCID_PREFIX_LEN])] *)
Abbreviation CidPrefix := bytes (only parsing).

Record Cid := mkCid { cid_len : Z; cid_bytes : bytes }.

Inductive CidError :=
  | InvalidLen (n : Z)
  | TooShortForPrefix (n : Z).

#[global] Instance Cid_eq_dec : EqDecision Cid.
Proof. solve_decision. Defined.

(** [Cid::new]; the conversion of the length to [u8] cannot fail after the
    first test, and its error arm is kept. *)
Definition Cid_new (b : bytes) : res CidError Cid :=
  if zlen b >? MAX_DCID_LEN then Err (InvalidLen (zlen b))
  else
    let out := b ++ drop (length b) (zeros MAX_DCID_LEN) in
    if zlen b <=? 255 then Ok (mkCid (zlen b) out) else Err (InvalidLen (zlen b)).

Definition Cid_as_slice (c : Cid) : res CidError bytes := slice (cid_bytes c) 0 (cid_len c).

Definition Cid_prefix (c : Cid) : res CidError CidPrefix :=
  if cid_len c <? QUIC_DCID_PREFIX_LEN then Err (TooShortForPrefix (cid_len c))
  else
    b ← slice (cid_bytes c) 0 QUIC_DCID_PREFIX_LEN;
    copy_array QUIC_DCID_PREFIX_LEN b.

Definition Cid_is_empty (c : Cid) : bool := cid_len c =? 0.

(** [impl From<[u8; MAX_DCID_LEN]> for Cid] *)
Definition Cid_from_array (b : bytes) : res CidError Cid :=
  out ← copy_array MAX_DCID_LEN b; Ok (mkCid MAX_DCID_LEN out).

(** ** The invariant of CIDs *)
Definition Cid_ok (c : Cid) : Prop :=
  0 ≤ cid_len c ≤ MAX_DCID_LEN ∧ array_ok MAX_DCID_LEN (cid_bytes c) ∧
  sub (cid_bytes c) (cid_len c) MAX_DCID_LEN = zeros (MAX_DCID_LEN - cid_len c).

#[global] Instance Cid_ok_dec c : Decision (Cid_ok c).
Proof. unfold Cid_ok. apply _. Defined.

(** The bytes of a well-formed CID, without the outcome wrapper. *)
Definition cid_slice (c : Cid) : bytes := sub (cid_bytes c) 0 (cid_len c).

Lemma Cid_as_slice_ok c : Cid_ok c → Cid_as_slice c = Ok (cid_slice c).
Proof.
  intros (? & (Hl & _) & _). unfold Cid_as_slice, cid_slice.
  apply slice_ok; unfold zlen; lia.
Qed.

Lemma zlen_cid_slice c : Cid_ok c → zlen (cid_slice c) = cid_len c.
Proof.
  intros (? & (Hl & _) & _). unfold cid_slice. rewrite zlen_sub; unfold zlen; lia.
Qed.

Lemma bytes_ok_cid_slice c : Cid_ok c → bytes_ok (cid_slice c).
Proof. intros (_ & (_ & H) & _). unfold cid_slice. auto with slt. Qed.

Lemma drop_zeros k n : drop k (zeros n) = zeros (n - Z.of_nat k).
Proof. unfold zeros. rewrite drop_replicate. f_equal. lia. Qed.

Lemma Cid_new_ok b :
  bytes_ok b → zlen b ≤ MAX_DCID_LEN →
  ∃ c, Cid_new b = Ok c ∧ Cid_ok c ∧ cid_len c = zlen b ∧ cid_slice c = b.
Proof.
  intros Hb Hl. unfold Cid_new. unfold MAX_DCID_LEN in *.
  rewrite Z.gtb_ltb. split_tests; try lia.
  pose proof (zlen_nonneg b) as Hp.
  eexists. split; [done|]. unfold Cid_ok, MAX_DCID_LEN, cid_slice, array_ok.
  rewrite drop_zeros. fold (zlen b). cbn [cid_len cid_bytes].
  assert (zlen (zeros (20 - zlen b)) = 20 - zlen b) as Hz by (apply zlen_zeros; lia).
  split_and!; try lia; try done.
  - fold (zlen (b ++ zeros (20 - zlen b))). rewrite zlen_app, Hz. lia.
  - apply bytes_ok_app. auto with slt.
  - rewrite sub_app_r by lia. apply sub_all; lia.
  - rewrite sub_app_l by lia. apply sub_all; lia.
Qed.

Lemma Cid_new_inv b c : Cid_new b = Ok c → zlen b ≤ MAX_DCID_LEN.
Proof.
  unfold Cid_new. rewrite Z.gtb_ltb. intros H. split_tests_in H; simplify_eq; lia.
Qed.

(** A CID is determined by the bytes it stands for. *)
Lemma Cid_slice_inj c d : Cid_ok c → Cid_ok d → cid_slice c = cid_slice d → c = d.
Proof.
  intros Hc Hd Heq.
  pose proof (zlen_cid_slice _ Hc) as Lc. pose proof (zlen_cid_slice _ Hd) as Ld.
  rewrite Heq in Lc. assert (cid_len c = cid_len d) as El by lia.
  destruct Hc as (Rc & (Bc & _) & Zc), Hd as (Rd & (Bd & _) & Zd).
  destruct c as [lc bc], d as [ld bd]. unfold cid_slice, zlen in *. simpl in *. subst ld.
  f_equal.
  rewrite (sub_split bc lc), (sub_split bd lc) by (unfold zlen; lia).
  f_equal; [done|]. unfold zlen. rewrite Bc, Bd. congruence.
Qed.

(** [Cid::new] accepts exactly the byte
    strings of at most 20 bytes, and [as_slice] gives them back. *)
Lemma Cid_new_as_slice b :
  bytes_ok b →
  (zlen b ≤ MAX_DCID_LEN ∧ ∃ c, Cid_new b = Ok c ∧ Cid_as_slice c = Ok b) ∨
  (zlen b > MAX_DCID_LEN ∧ Cid_new b = Err (InvalidLen (zlen b))).
Proof.
  intros Hb. destruct (Z_le_gt_dec (zlen b) MAX_DCID_LEN) as [H|H]; [left|right].
  - split; [done|]. destruct (Cid_new_ok b Hb H) as (c & E & Hc & _ & Hs).
    exists c. split; [done|]. by rewrite Cid_as_slice_ok, Hs.
  - split; [done|]. unfold Cid_new. rewrite Z.gtb_ltb.
    destruct (Z.ltb_spec MAX_DCID_LEN (zlen b)); [done|lia].
Qed.

Lemma Cid_prefix_ok c : Cid_ok c → cid_len c = 20 → Cid_prefix c = Ok (cid_bytes c).
Proof.
  intros (? & (Hl & _) & _) E. unfold Cid_prefix, QUIC_DCID_PREFIX_LEN. rewrite E.
  assert (zlen (cid_bytes c) = 20) as L by (unfold zlen; done).
  simpl. rewrite slice_ok by lia. cbn. rewrite sub_all by lia.
  by apply copy_array_ok.
Qed.
