(* ===== verification/Framing.v ===== *)
(** * Message types, frames and messages
      ([slt-core/src/proto/types.rs], [framing.rs], [message.rs])

    A frame is a type byte, a big-endian 32-bit length and the payload.  The
    file models the encoder and the decoders of frames and messages, and
    proves that they are inverse to each other, that decoding never reads out
    of range, and that a decision taken on a buffer is not changed by the
    bytes that arrive after it. *)

From stdpp Require Import base tactics option list numbers.
From Stdlib Require Import ZArith Lia.
From S2P Require Import Prelude Cid.

Inductive MessageType :=
  | TAuth | TAuthOk | TAuthFail | TRegisterCid | TRegisterOk | TRegisterFail
  | TPing | TPong | TClose | TData | TUpgradeProbe | TUpgradeProbeAck
  | TUdpReady | TSwitchToUdp | TSwitchAck | TFallbackToTcp | TFallbackOk
  | TSwitchOk.

#[global] Instance MessageType_eq_dec : EqDecision MessageType.
Proof. solve_decision. Defined.

Definition MessageType_to_u8 (t : MessageType) : Z :=
  match t with
  | TAuth => 0x01 | TAuthOk => 0x02 | TAuthFail => 0x03
  | TRegisterCid => 0x04 | TRegisterOk => 0x05 | TRegisterFail => 0x06
  | TPing => 0x07 | TPong => 0x08 | TClose => 0x09 | TData => 0x0a
  | TUpgradeProbe => 0x0b | TUpgradeProbeAck => 0x0c | TUdpReady => 0x0d
  | TSwitchToUdp => 0x0e | TSwitchAck => 0x0f | TFallbackToTcp => 0x10
  | TFallbackOk => 0x11 | TSwitchOk => 0x12
  end.

Definition MessageType_try_from (z : Z) : option MessageType :=
  if decide (z = 0x01) then Some TAuth else
  if decide (z = 0x02) then Some TAuthOk else
  if decide (z = 0x03) then Some TAuthFail else
  if decide (z = 0x04) then Some TRegisterCid else
  if decide (z = 0x05) then Some TRegisterOk else
  if decide (z = 0x06) then Some TRegisterFail else
  if decide (z = 0x07) then Some TPing else
  if decide (z = 0x08) then Some TPong else
  if decide (z = 0x09) then Some TClose else
  if decide (z = 0x0a) then Some TData else
  if decide (z = 0x0b) then Some TUpgradeProbe else
  if decide (z = 0x0c) then Some TUpgradeProbeAck else
  if decide (z = 0x0d) then Some TUdpReady else
  if decide (z = 0x0e) then Some TSwitchToUdp else
  if decide (z = 0x0f) then Some TSwitchAck else
  if decide (z = 0x10) then Some TFallbackToTcp else
  if decide (z = 0x11) then Some TFallbackOk else
  if decide (z = 0x12) then Some TSwitchOk else None.

#[global] Instance MessageType_wire : WireEnum MessageType.
Proof. wire_enum MessageType_to_u8 MessageType_try_from. Defined.

Definition HEADER_LEN : Z := 5.

Record Frame := mkFrame { frame_ty : MessageType; frame_payload : bytes }.

Inductive FrameError :=
  | UnknownType (b : Z)
  | LengthTooLarge (len max : Z)
  | LengthOverflow (len : Z).

#[global] Instance FrameError_eq_dec : EqDecision FrameError.
Proof. solve_decision. Defined.

(** [decode_frame]: [Ok None] when the buffer does not hold a full frame. *)
Definition decode_frame (buf : bytes) (max_len : Z) : res FrameError (option (Frame * Z)) :=
  if zlen buf <? HEADER_LEN then Ok None else
  b0 ← index buf 0;
  ty ← ok_or (try_from_u8 b0) (UnknownType b0);
  b1 ← index buf 1; b2 ← index buf 2; b3 ← index buf 3; b4 ← index buf 4;
  let len := from_be [b1; b2; b3; b4] in
  if len >? max_len then Err (LengthTooLarge len max_len) else
  let total_len := HEADER_LEN + len in
  if zlen buf <? total_len then Ok None else
  payload ← slice buf HEADER_LEN total_len;
  Ok (Some (mkFrame ty payload, total_len)).

(** [encode_frame] appends to [out]; on the error it leaves [out] alone. *)
Definition encode_frame (ty : MessageType) (payload out : bytes) : res FrameError bytes :=
  let len := zlen payload in
  if len >? 4294967295 then Err (LengthOverflow len)
  else Ok (out ++ [to_u8 ty] ++ to_be 4 len ++ payload).

Inductive Message :=
  | MAuth (payload : bytes) | MAuthOk (payload : bytes) | MAuthFail (payload : bytes)
  | MRegisterCid (payload : bytes) | MRegisterOk (payload : bytes)
  | MRegisterFail (payload : bytes) | MPing (payload : bytes) | MPong (payload : bytes)
  | MClose (payload : bytes) | MData (packet : bytes)
  | MUpgradeProbe (payload : bytes) | MUpgradeProbeAck (payload : bytes)
  | MUdpReady (payload : bytes) | MSwitchToUdp (payload : bytes)
  | MSwitchAck (payload : bytes) | MFallbackToTcp (payload : bytes)
  | MFallbackOk (payload : bytes) | MSwitchOk (payload : bytes).

#[global] Instance Message_eq_dec : EqDecision Message.
Proof. solve_decision. Defined.

Definition Message_ty (m : Message) : MessageType :=
  match m with
  | MAuth _ => TAuth | MAuthOk _ => TAuthOk | MAuthFail _ => TAuthFail
  | MRegisterCid _ => TRegisterCid | MRegisterOk _ => TRegisterOk
  | MRegisterFail _ => TRegisterFail | MPing _ => TPing | MPong _ => TPong
  | MClose _ => TClose | MData _ => TData | MUpgradeProbe _ => TUpgradeProbe
  | MUpgradeProbeAck _ => TUpgradeProbeAck | MUdpReady _ => TUdpReady
  | MSwitchToUdp _ => TSwitchToUdp | MSwitchAck _ => TSwitchAck
  | MFallbackToTcp _ => TFallbackToTcp | MFallbackOk _ => TFallbackOk
  | MSwitchOk _ => TSwitchOk
  end.

Definition Message_payload (m : Message) : bytes :=
  match m with
  | MData packet => packet
  | MAuth p | MAuthOk p | MAuthFail p | MRegisterCid p | MRegisterOk p
  | MRegisterFail p | MPing p | MPong p | MClose p | MUpgradeProbe p
  | MUpgradeProbeAck p | MUdpReady p | MSwitchToUdp p | MSwitchAck p
  | MFallbackToTcp p | MFallbackOk p | MSwitchOk p => p
  end.

Definition Message_from_frame (f : Frame) : Message :=
  let p := frame_payload f in
  match frame_ty f with
  | TAuth => MAuth p | TAuthOk => MAuthOk p | TAuthFail => MAuthFail p
  | TRegisterCid => MRegisterCid p | TRegisterOk => MRegisterOk p
  | TRegisterFail => MRegisterFail p | TPing => MPing p | TPong => MPong p
  | TClose => MClose p | TData => MData p | TUpgradeProbe => MUpgradeProbe p
  | TUpgradeProbeAck => MUpgradeProbeAck p | TUdpReady => MUdpReady p
  | TSwitchToUdp => MSwitchToUdp p | TSwitchAck => MSwitchAck p
  | TFallbackToTcp => MFallbackToTcp p | TFallbackOk => MFallbackOk p
  | TSwitchOk => MSwitchOk p
  end.

Definition Frame_from_message (m : Message) : Frame :=
  mkFrame (Message_ty m) (Message_payload m).

Record MessageLimits := mkLimits { max_frame_len : Z; max_data_len : Z }.

Definition UDP_QSP_TRAFFIC_SECRET_LEN : Z := 32.
Definition MAX_CONTROL_FRAME_LEN : Z :=
  1 + MAX_DCID_LEN + 1 + MAX_DCID_LEN + 1 + (UDP_QSP_TRAFFIC_SECRET_LEN * 2) + 8 + 8 + 1.

Definition MessageLimits_from_mtu (mtu : Z) : MessageLimits :=
  let max_data_len := mtu in
  let max_frame_len := Z.max max_data_len MAX_CONTROL_FRAME_LEN in
  mkLimits max_frame_len max_data_len.

Inductive MessageError :=
  | MEFrame (e : FrameError)
  | DataTooLarge (len max : Z).

Definition decode_message (buf : bytes) (limits : MessageLimits)
    : res MessageError (option (Message * Z)) :=
  r ← map_err MEFrame (decode_frame buf (max_frame_len limits));
  match r with
  | None => Ok None
  | Some (frame, consumed) =>
      if bool_decide (frame_ty frame = TData)
         && (zlen (frame_payload frame) >? max_data_len limits)
      then Err (DataTooLarge (zlen (frame_payload frame)) (max_data_len limits))
      else Ok (Some (Message_from_frame frame, consumed))
  end.

Definition decode_padded_message (buf : bytes) (limits : MessageLimits)
    : res MessageError (option (Message * bytes)) :=
  r ← decode_message buf limits;
  match r with
  | None => Ok None
  | Some (message, consumed) =>
      frame_bytes ← slice buf 0 consumed; Ok (Some (message, frame_bytes))
  end.

Definition encode_message (m : Message) (out : bytes) : res FrameError bytes :=
  encode_frame (Message_ty m) (Message_payload m) out.

(** [OwnedMessageBuf]: a frame type with the bytes of the whole frame. *)
Record OwnedMessageBuf := mkOwned { owned_ty : MessageType; owned_buf : bytes }.

Definition OwnedMessageBuf_message (o : OwnedMessageBuf) : res FrameError Message :=
  payload ← slice (owned_buf o) HEADER_LEN (zlen (owned_buf o));
  Ok (Message_from_frame (mkFrame (owned_ty o) payload)).

(** ** Shape of the decoder *)

(** What the decoder does once the five header bytes are there. *)
Definition decode_body (b0 len : Z) (rest : bytes) (max_len : Z)
    : res FrameError (option (Frame * Z)) :=
  match try_from_u8 b0 with
  | None => Err (UnknownType b0)
  | Some ty =>
      if len >? max_len then Err (LengthTooLarge len max_len) else
      if zlen rest <? len then Ok None else
      Ok (Some (mkFrame ty (sub rest 0 len), HEADER_LEN + len))
  end.

Lemma decode_frame_short buf max :
  zlen buf < HEADER_LEN → decode_frame buf max = Ok None.
Proof. intros H. unfold decode_frame. by rewrite (proj2 (Z.ltb_lt _ _) H). Qed.

Lemma decode_frame_header b0 b1 b2 b3 b4 rest max :
  0 ≤ from_be [b1; b2; b3; b4] →
  decode_frame (b0 :: b1 :: b2 :: b3 :: b4 :: rest) max =
  decode_body b0 (from_be [b1; b2; b3; b4]) rest max.
Proof.
  intros Hlen. set (len := from_be [b1; b2; b3; b4]) in *.
  pose proof (zlen_nonneg rest) as Hr.
  assert (zlen (b0 :: b1 :: b2 :: b3 :: b4 :: rest) = 5 + zlen rest) as L by (zl; lia).
  unfold decode_frame, decode_body. rewrite L. unfold HEADER_LEN.
  destruct (Z.ltb_spec (5 + zlen rest) 5); [lia|].
  rewrite !index_ok by lia. res_simpl.
  change (nth (Z.to_nat 0) (b0 :: _) 0) with b0.
  destruct (try_from_u8 b0); res_simpl; [|done].
  change (from_be _) with len. rewrite !Z.gtb_ltb. destruct (Z.ltb_spec max len); [done|].
  destruct (Z.ltb_spec (5 + zlen rest) (5 + len)), (Z.ltb_spec (zlen rest) len);
    try lia; [done|].
  rewrite slice_ok by lia. res_simpl.
  do 3 f_equal. change (b0 :: b1 :: b2 :: b3 :: b4 :: rest) with ([b0; b1; b2; b3; b4] ++ rest).
  rewrite sub_app_r by (zl; lia). f_equal. zl. f_equal; lia.
Qed.

Lemma header_cases (buf : bytes) :
  zlen buf < HEADER_LEN ∨ ∃ b0 b1 b2 b3 b4 rest, buf = b0 :: b1 :: b2 :: b3 :: b4 :: rest.
Proof.
  unfold HEADER_LEN.
  do 5 (destruct buf as [|? buf]; [left; unfold zlen; simpl; lia|]). right. by do 6 eexists.
Qed.

Lemma header_len_ok b0 b1 b2 b3 b4 rest :
  bytes_ok (b0 :: b1 :: b2 :: b3 :: b4 :: rest) →
  0 ≤ from_be [b1; b2; b3; b4] < 2 ^ 32 ∧ u8_ok b0 ∧ bytes_ok [b1; b2; b3; b4] ∧ bytes_ok rest.
Proof.
  intros H. change (bytes_ok ([b0] ++ [b1; b2; b3; b4] ++ rest)) in H.
  rewrite !bytes_ok_app in H. destruct H as (H0 & H1 & H2).
  pose proof (from_be_bound _ H1) as Hb. change (256 ^ _) with (2 ^ 32) in Hb.
  inversion H0; subst. split_and!; done || lia.
Qed.

Lemma to_be4_header n :
  ∃ b1 b2 b3 b4, to_be 4 n = [b1; b2; b3; b4].
Proof. rewrite !to_be_S. by do 4 eexists. Qed.

(** The decoder on an encoded frame followed by anything. *)
Lemma decode_frame_encoded ty payload rest max :
  zlen payload ≤ 4294967295 → zlen payload ≤ max →
  decode_frame ([to_u8 ty] ++ to_be 4 (zlen payload) ++ payload ++ rest) max =
  Ok (Some (mkFrame ty payload, HEADER_LEN + zlen payload)).
Proof.
  intros Hu Hm. pose proof (zlen_nonneg payload) as Hp. pose proof (zlen_nonneg rest).
  destruct (to_be4_header (zlen payload)) as (b1 & b2 & b3 & b4 & Eb).
  pose proof (from_be_to_be 4 (zlen payload)) as Hf. rewrite Eb in *. specialize (Hf ltac:(lia)).
  cbn [app]. rewrite decode_frame_header by lia. rewrite Hf. unfold decode_body.
  rewrite try_from_to_u8, Z.gtb_ltb, zlen_app.
  destruct (Z.ltb_spec max (zlen payload)); [lia|].
  destruct (Z.ltb_spec (zlen payload + zlen rest) (zlen payload)); [lia|].
  by rewrite sub_app_l, sub_all by lia.
Qed.

(** ** Theorems *)

(** The frame encoder and decoder are inverse: what [encode_frame] appends to
    a buffer decodes to the frame again, and the decoder consumes exactly the
    appended bytes, whatever follows them. *)
Theorem decode_encode_frame ty payload out out' rest max :
  encode_frame ty payload out = Ok out' → zlen payload ≤ max →
  decode_frame (drop (length out) out' ++ rest) max =
  Ok (Some (mkFrame ty payload, zlen out' - zlen out)).
Proof.
  unfold encode_frame. rewrite Z.gtb_ltb. intros H Hm. split_tests_in H; [done|].
  apply (inj Ok) in H as <-. rewrite drop_app_length, <- !app_assoc.
  rewrite decode_frame_encoded by lia. do 3 f_equal. zl. unfold HEADER_LEN. lia.
Qed.

Lemma decode_frame_inv buf max f n :
  bytes_ok buf → decode_frame buf max = Ok (Some (f, n)) →
  n = HEADER_LEN + zlen (frame_payload f) ∧ zlen (frame_payload f) ≤ max ∧
  zlen (frame_payload f) ≤ 4294967295 ∧
  buf = ([to_u8 (frame_ty f)] ++ to_be 4 (zlen (frame_payload f)) ++ frame_payload f)
        ++ sub buf n (zlen buf) ∧ n ≤ zlen buf.
Proof.
  intros Hb. destruct (header_cases buf) as [Hs|(b0 & b1 & b2 & b3 & b4 & rest & ->)].
  { by rewrite decode_frame_short. }
  destruct (header_len_ok _ _ _ _ _ _ Hb) as ([Hl1 Hl2] & H0 & H1 & H2).
  rewrite decode_frame_header by lia. unfold decode_body. rewrite Z.gtb_ltb.
  destruct (try_from_u8 b0) as [ty|] eqn:Ety; [|done].
  set (len := from_be [b1; b2; b3; b4]) in *. intros H. split_tests_in H; try done.
  injection H as <- <-. cbn [frame_ty frame_payload]. rewrite zlen_sub by lia.
  unfold HEADER_LEN.
  replace (len - 0) with len by lia. split_and!; try lia.
  - apply to_u8_try_from in Ety. rewrite Ety.
    replace (to_be 4 len) with [b1; b2; b3; b4] by (symmetry; by apply to_be_from_be').
    change (b0 :: b1 :: b2 :: b3 :: b4 :: rest) with ([b0; b1; b2; b3; b4] ++ rest).
    rewrite sub_app_r by (zl; lia). cbn [app]. do 5 f_equal.
    rewrite (sub_split rest len) at 1 by lia. f_equal. f_equal; zl; lia.
  - zl. lia.
Qed.

(** The decoder accepts only canonical encodings: a decoded frame re-encodes
    to exactly the bytes that were consumed, its payload respects the limit,
    and the unconsumed rest is untouched. *)
Theorem decode_frame_canonical buf max f n :
  bytes_ok buf → decode_frame buf max = Ok (Some (f, n)) →
  encode_frame (frame_ty f) (frame_payload f) [] = Ok (sub buf 0 n) ∧
  buf = sub buf 0 n ++ sub buf n (zlen buf) ∧ zlen (frame_payload f) ≤ max.
Proof.
  intros Hb H. destruct (decode_frame_inv _ _ _ _ Hb H) as (Hn & Hm & Hu & Heq & Hle).
  assert (0 ≤ n) by (pose proof (zlen_nonneg (frame_payload f)); unfold HEADER_LEN in *; lia).
  split_and!; [|by apply sub_split|done].
  unfold encode_frame. rewrite Z.gtb_ltb. split_tests; [lia|].
  f_equal. rewrite Heq at 1. rewrite sub_app_l; [|lia|lia|zl; unfold HEADER_LEN in *; lia].
  rewrite sub_all; [done|done|]. zl. unfold HEADER_LEN in *. lia.
Qed.

(** Decoding a frame from any byte string returns: no index or slice is out of
    range. *)
Lemma decode_frame_no_panic buf max : bytes_ok buf → decode_frame buf max ≠ Panic.
Proof.
  intros Hb. destruct (header_cases buf) as [Hs|(b0 & b1 & b2 & b3 & b4 & rest & ->)].
  { by rewrite decode_frame_short. }
  destruct (header_len_ok _ _ _ _ _ _ Hb) as ([Hl1 Hl2] & _).
  rewrite decode_frame_header by lia. unfold decode_body. rewrite Z.gtb_ltb.
  destruct (try_from_u8 b0); [|done]. by split_tests.
Qed.

(** A stream decoder may only commit to what later bytes cannot change: once
    the decoder has reported a frame or an error, appending bytes does not
    change the report. *)
Theorem decode_frame_prefix_stable buf more max :
  bytes_ok buf → decode_frame buf max ≠ Ok None →
  decode_frame (buf ++ more) max = decode_frame buf max.
Proof.
  intros Hb. destruct (header_cases buf) as [Hs|(b0 & b1 & b2 & b3 & b4 & rest & ->)].
  { by rewrite decode_frame_short. }
  destruct (header_len_ok _ _ _ _ _ _ Hb) as ([Hl1 Hl2] & _).
  cbn [app]. rewrite !decode_frame_header by lia. unfold decode_body. rewrite zlen_app, !Z.gtb_ltb.
  destruct (try_from_u8 b0); [|done]. pose proof (zlen_nonneg more).
  split_tests; try done; try lia. intros _. by rewrite sub_app_l by lia.
Qed.

(** An incomplete buffer is a proper prefix of a frame: [Ok None] is answered
    exactly when the header is missing or the header is valid, admissible and
    announces more payload than has arrived. *)
Lemma decode_frame_incomplete buf max :
  bytes_ok buf →
  decode_frame buf max = Ok None ↔
  zlen buf < HEADER_LEN ∨
  ∃ ty len, try_from_u8 (nth 0 buf 0) = Some (ty : MessageType) ∧
    len = from_be (sub buf 1 5) ∧ len ≤ max ∧ zlen buf < HEADER_LEN + len.
Proof.
  intros Hb. destruct (header_cases buf) as [Hs|(b0 & b1 & b2 & b3 & b4 & rest & ->)].
  { rewrite decode_frame_short by done. split; [by left|done]. }
  destruct (header_len_ok _ _ _ _ _ _ Hb) as ([Hl1 Hl2] & _).
  rewrite decode_frame_header by lia. unfold decode_body, HEADER_LEN. rewrite Z.gtb_ltb.
  change (sub (b0 :: b1 :: b2 :: b3 :: b4 :: rest) 1 5) with [b1; b2; b3; b4].
  pose proof (zlen_nonneg rest). zl. cbn [nth]. split.
  - destruct (try_from_u8 b0) as [ty|]; [|done]. intros H'. split_tests_in H'; try done.
    right. exists ty, (from_be [b1; b2; b3; b4]). split_and!; done || lia.
  - intros [?|(ty & len & -> & -> & ? & ?)]; [lia|]. split_tests; done || lia.
Qed.

Lemma Message_from_frame_from m : Message_from_frame (Frame_from_message m) = m.
Proof. by destruct m. Qed.
Lemma Frame_from_message_from f : Frame_from_message (Message_from_frame f) = f.
Proof. by destruct f as [[] ?]. Qed.
Lemma Message_from_frame_payload f : Message_payload (Message_from_frame f) = frame_payload f.
Proof. by destruct f as [[] ?]. Qed.
Lemma Message_from_frame_ty f : Message_ty (Message_from_frame f) = frame_ty f.
Proof. by destruct f as [[] ?]. Qed.

(** The length of a message is admissible for the limits. *)
Definition message_fits (limits : MessageLimits) (m : Message) : Prop :=
  zlen (Message_payload m) ≤ max_frame_len limits ∧
  zlen (Message_payload m) ≤ 4294967295 ∧
  (Message_ty m = TData → zlen (Message_payload m) ≤ max_data_len limits).

#[global] Instance message_fits_dec limits m : Decision (message_fits limits m).
Proof. unfold message_fits. apply _. Defined.

(** The bytes of a message on the wire. *)
Definition wire_message (m : Message) : bytes :=
  [to_u8 (Message_ty m)] ++ to_be 4 (zlen (Message_payload m)) ++ Message_payload m.

Lemma zlen_wire_message m : zlen (wire_message m) = HEADER_LEN + zlen (Message_payload m).
Proof. unfold wire_message, HEADER_LEN. zl. lia. Qed.

Lemma encode_message_wire m out :
  zlen (Message_payload m) ≤ 4294967295 → encode_message m out = Ok (out ++ wire_message m).
Proof.
  intros. unfold encode_message, encode_frame, wire_message. rewrite Z.gtb_ltb.
  split_tests; done || lia.
Qed.

Lemma decode_message_wire m rest limits :
  message_fits limits m →
  decode_message (wire_message m ++ rest) limits = Ok (Some (m, zlen (wire_message m))).
Proof.
  intros (Hf & Hu & Hd). unfold decode_message, wire_message. rewrite <- !app_assoc.
  rewrite decode_frame_encoded by done. res_simpl. cbn [frame_ty frame_payload].
  rewrite Z.gtb_ltb. fold (Frame_from_message m).
  destruct (bool_decide (Message_ty m = TData)) eqn:E; cbn [andb].
  - apply bool_decide_eq_true_1 in E. specialize (Hd E).
    destruct (Z.ltb_spec (max_data_len limits) (zlen (Message_payload m))); [lia|].
    rewrite Message_from_frame_from. do 3 f_equal. zl. unfold HEADER_LEN. lia.
  - rewrite Message_from_frame_from. do 3 f_equal. zl. unfold HEADER_LEN. lia.
Qed.

(** A message within the limits survives the wire: decoding the encoded
    message, followed by arbitrary padding, gives the message back and
    delimits exactly its own bytes. *)
Theorem decode_padded_message_encoded m padding limits wire :
  encode_message m [] = Ok wire → message_fits limits m →
  decode_padded_message (wire ++ padding) limits = Ok (Some (m, wire)).
Proof.
  intros He Hm. rewrite encode_message_wire in He by apply Hm.
  apply (inj Ok) in He as <-. cbn [app]. unfold decode_padded_message.
  rewrite decode_message_wire by done. res_simpl.
  pose proof (zlen_nonneg padding). pose proof (zlen_nonneg (wire_message m)).
  rewrite slice_ok by (zl; lia). res_simpl. by rewrite sub_app_l, sub_all by lia.
Qed.

Lemma decode_message_no_panic buf limits : bytes_ok buf → decode_message buf limits ≠ Panic.
Proof.
  intros Hb. unfold decode_message. apply bind_not_panic.
  - rewrite map_err_not_panic. by apply decode_frame_no_panic.
  - intros [[f n]|] _; [|done]. by destruct (_ && _).
Qed.

(** Every message that [decode_message] accepts respects both limits. *)
Lemma decode_message_inv buf limits m n :
  bytes_ok buf → decode_message buf limits = Ok (Some (m, n)) →
  message_fits limits m ∧ sub buf 0 n = wire_message m.
Proof.
  intros Hb H. unfold decode_message in H. apply bind_ok in H as (r & Hr & H).
  apply map_err_ok in Hr. destruct r as [[f k]|]; [|done].
  destruct (decode_frame_inv _ _ _ _ Hb Hr) as (Hn & Hm & Hu & Heq & Hle).
  destruct (_ && _) eqn:E; [done|]. injection H as <- <-.
  unfold message_fits. rewrite Message_from_frame_payload, Message_from_frame_ty.
  split_and!; try done.
  - intros Ht. rewrite bool_decide_true in E by done. simpl in E.
    rewrite Z.gtb_ltb in E. apply Z.ltb_ge in E. done.
  - unfold wire_message. rewrite Message_from_frame_payload, Message_from_frame_ty.
    rewrite Heq. rewrite sub_app_l, sub_all; zl; unfold HEADER_LEN in *;
      try (pose proof (zlen_nonneg (frame_payload f))); lia || done.
Qed.

Lemma decode_message_consumed buf limits m n :
  bytes_ok buf → decode_message buf limits = Ok (Some (m, n)) → 0 ≤ n ≤ zlen buf.
Proof.
  intros Hb H. unfold decode_message in H. apply bind_ok in H as (r & Hr & H).
  apply map_err_ok in Hr. destruct r as [[f k]|]; [|done].
  destruct (decode_frame_inv _ _ _ _ Hb Hr) as (Hn & _ & _ & _ & Hle).
  destruct (_ && _); [done|]. injection H as _ <-. pose proof (zlen_nonneg (frame_payload f)). unfold HEADER_LEN in *. lia.
Qed.

(** Decoding a padded packet never panics, whatever its bytes. *)
Lemma decode_padded_cases buf limits :
  bytes_ok buf →
  decode_padded_message buf limits ≠ Panic ∧
  ∀ m b, decode_padded_message buf limits = Ok (Some (m, b)) → bytes_ok (Message_payload m).
Proof.
  intros Hb. unfold decode_padded_message. split.
  - apply bind_not_panic; [by apply decode_message_no_panic|]. intros [ [m n]|] E; [|done].
    rewrite slice_ok by (pose proof (decode_message_consumed _ _ _ _ Hb E); lia). done.
  - intros m b H. apply bind_ok in H as ([ [m' n]|] & E & H); [|done].
    apply bind_ok in H as (b' & _ & [= -> _]).
    destruct (decode_message_inv _ _ _ _ Hb E) as [_ Hs].
    assert (bytes_ok (wire_message m)) as Hw by (rewrite <- Hs; by apply bytes_ok_sub).
    apply bytes_ok_app in Hw as [_ [_ ?]%bytes_ok_app]. done.
Qed.

(** The frame bytes are the encoding of the message. *)
Lemma decode_padded_frame buf limits m b :
  bytes_ok buf → decode_padded_message buf limits = Ok (Some (m, b)) → b = wire_message m.
Proof.
  intros Hb H. apply bind_ok in H as ([ [m' n]|] & E & H); [|done].
  pose proof (decode_message_consumed _ _ _ _ Hb E). rewrite slice_ok in H by lia. apply (inj Ok) in H as [= -> <-].
  by apply (decode_message_inv _ _ _ _ Hb E).
Qed.

(** Limits computed from an MTU accept every DATA packet up to the MTU and
    every control payload up to [MAX_CONTROL_FRAME_LEN]. *)
Lemma from_mtu_accepts mtu m :
  u16_ok mtu →
  (if decide (Message_ty m = TData) then zlen (Message_payload m) ≤ mtu
   else zlen (Message_payload m) ≤ MAX_CONTROL_FRAME_LEN) →
  ∀ rest, decode_message (wire_message m ++ rest) (MessageLimits_from_mtu mtu) =
          Ok (Some (m, zlen (wire_message m))).
Proof.
  intros Hu H rest. apply decode_message_wire.
  unfold message_fits, MessageLimits_from_mtu, u16_ok in *. cbn [max_frame_len max_data_len].
  assert (MAX_CONTROL_FRAME_LEN = 124) as Hc by done.
  case_decide; split_and!; try lia; done.
Qed.

Lemma wire_message_ok m : bytes_ok (Message_payload m) → bytes_ok (wire_message m).
Proof.
  intros Hb. unfold wire_message. apply bytes_ok_app. split; [constructor; [apply to_u8_ok|constructor]|].
  apply bytes_ok_app. auto with slt.
Qed.

(** Messages whose length is no concern, and that consist of bytes. *)
Definition short (m : Message) : Prop := bytes_ok (Message_payload m) ∧ zlen (Message_payload m) ≤ 2 ^ 30.

(** Payloads that are identifiers. *)
Lemma short_u64 (m : Message) x : Message_payload m = to_be 8 x → short m.
Proof. intros E. unfold short. rewrite E. split; [auto with slt|]. by rewrite zlen_to_be. Qed.
