(* ===== verification/TcpChannel.v ===== *)
(** * The framed TCP channel ([slt-core/src/transport/tcp.rs])

    [TcpChannel] buffers the plaintext of a TLS stream and cuts messages out
    of it, and encodes outbound messages after giving the key updater a turn.
    The TLS stream itself is outside: what it reads is the argument of
    [read_more], and the outcomes of a key update and of [write_all] are
    arguments of [write_message].  The main theorem is that a peer's message
    sequence is recovered from the byte stream however the transport cuts it
    into reads. *)

From stdpp Require Import base tactics option list numbers.
From Stdlib Require Import ZArith Lia.
From S2P Require Import Prelude Cid Framing.

(** ** TLS key updates every N messages *)
Record IntervalKeyUpdater := mkUpdater {
  ku_interval : Z;
  ku_until_update : Z;
  ku_request_peer_update : bool;
}.

Definition IntervalKeyUpdater_new (interval : Z) : IntervalKeyUpdater :=
  mkUpdater interval interval false.

Definition with_peer_response_requested (k : IntervalKeyUpdater) (b : bool) : IntervalKeyUpdater :=
  mkUpdater (ku_interval k) (ku_until_update k) b.

Definition TCP_TLS_KEY_UPDATE_INTERVAL_MESSAGES : Z := Z.shiftl 1 21.
Definition TCP_TLS_KEY_UPDATE_REQUEST_PEER_RESPONSE : bool := false.

Definition default_interval_key_updater : IntervalKeyUpdater :=
  with_peer_response_requested
    (IntervalKeyUpdater_new TCP_TLS_KEY_UPDATE_INTERVAL_MESSAGES)
    TCP_TLS_KEY_UPDATE_REQUEST_PEER_RESPONSE.

(** [request_tls_key_update]: [rc] is what [SSL_key_update] returns. *)
Definition request_tls_key_update (rc : Z) : res IoError unit :=
  if rc =? 1 then Ok () else Err (OtherIo rc).

(** [maybe_request_key_update]; the boolean says whether TLS was asked. *)
Definition maybe_request_key_update (k : IntervalKeyUpdater) (rc : Z)
    : res IoError unit * IntervalKeyUpdater * bool :=
  if ku_until_update k >? 1 then
    (Ok (), mkUpdater (ku_interval k) (ku_until_update k - 1) (ku_request_peer_update k), false)
  else
    match request_tls_key_update rc with
    | Ok _ => (Ok (), mkUpdater (ku_interval k) (ku_interval k) (ku_request_peer_update k), true)
    | Err e => (Err e, k, true)
    | Panic => (Panic, k, true)
    end.

(** ** The channel *)

(** [chan_sent] stands for the bytes handed to the TLS stream so far. *)
Record TcpChannel := mkChannel {
  chan_sent : bytes;
  chan_key_updater : IntervalKeyUpdater;
  chan_read_buf : bytes;
  chan_write_buf : bytes;
}.

Definition TcpChannel_with_state (k : IntervalKeyUpdater) (read_buf : bytes) : TcpChannel :=
  mkChannel [] k read_buf [].

Definition has_buffered_input (c : TcpChannel) : bool :=
  negb (bool_decide (chan_read_buf c = [])).

(** [read_more]: TLS delivered [chunk]. *)
Definition read_more (c : TcpChannel) (chunk : bytes) : TcpChannel :=
  mkChannel (chan_sent c) (chan_key_updater c) (chan_read_buf c ++ chunk) (chan_write_buf c).

(** [pop_message_buf]; the second component is [read_buf] afterwards. *)
Definition pop_message_buf (read_buf : bytes) (limits : MessageLimits)
    : res MessageError (option OwnedMessageBuf) * bytes :=
  match decode_frame read_buf (max_frame_len limits) with
  | Err e => (Err (MEFrame e), read_buf)
  | Panic => (Panic, read_buf)
  | Ok None => (Ok None, read_buf)
  | Ok (Some (frame, consumed)) =>
      if bool_decide (frame_ty frame = TData)
         && (zlen (frame_payload frame) >? max_data_len limits)
      then (Err (DataTooLarge (zlen (frame_payload frame)) (max_data_len limits)), read_buf)
      else
        let rest := drop (Z.to_nat consumed) read_buf in
        let buf := take (Z.to_nat consumed) read_buf in
        (Ok (Some (mkOwned (frame_ty frame) buf)), rest)
  end.

Definition try_pop_message (c : TcpChannel) (limits : MessageLimits)
    : res MessageError (option OwnedMessageBuf) * TcpChannel :=
  let '(r, rest) := pop_message_buf (chan_read_buf c) limits in
  (r, mkChannel (chan_sent c) (chan_key_updater c) rest (chan_write_buf c)).

Inductive TcpWriteError :=
  | TWFrame (e : FrameError)
  | TWIo (e : IoError).

(** Outcome of [write_all]: all bytes, or an error after the first [n]. *)
Inductive WriteOutcome := WroteAll | WriteFailed (n : nat) (e : IoError).

Definition write_message (c : TcpChannel) (m : Message) (rc : Z) (w : WriteOutcome)
    : res TcpWriteError unit * TcpChannel :=
  let '(r, k, _) := maybe_request_key_update (chan_key_updater c) rc in
  match r with
  | Err e => (Err (TWIo e), mkChannel (chan_sent c) k (chan_read_buf c) (chan_write_buf c))
  | Panic => (Panic, mkChannel (chan_sent c) k (chan_read_buf c) (chan_write_buf c))
  | Ok _ =>
      match encode_message m [] with
      | Err e => (Err (TWFrame e), mkChannel (chan_sent c) k (chan_read_buf c) [])
      | Panic => (Panic, mkChannel (chan_sent c) k (chan_read_buf c) [])
      | Ok buf =>
          match w with
          | WroteAll => (Ok (), mkChannel (chan_sent c ++ buf) k (chan_read_buf c) buf)
          | WriteFailed n e =>
              (Err (TWIo e), mkChannel (chan_sent c ++ take n buf) k (chan_read_buf c) buf)
          end
      end
  end.

(** How far a write got that its caller limits in time: it finished, the
    limit ended it, or its future was dropped, the latter two after [n] bytes
    of the frame. *)
Inductive TcpProgress := Finished (w : WriteOutcome) | TimedOutAfter (n : nat) | DroppedAfter (n : nat).

(** ** Reading a stream

    The readers of the program call [read_more] once and then pop until
    [Ok None].  Every pop consumes at least a header, so popping
    [length read_buf] times is enough. *)
Fixpoint drain (fuel : nat) (read_buf : bytes) (limits : MessageLimits)
    : res MessageError (list Message) * bytes :=
  match fuel with
  | O => (Ok [], read_buf)
  | S fuel =>
      match pop_message_buf read_buf limits with
      | (Ok None, b) => (Ok [], b)
      | (Err e, b) => (Err e, b)
      | (Panic, b) => (Panic, b)
      | (Ok (Some o), b) =>
          match OwnedMessageBuf_message o with
          | Ok m =>
              let '(r, b') := drain fuel b limits in
              (map_ok (cons m) r, b')
          | _ => (Panic, b)
          end
      end
  end.

Definition drain_all (read_buf : bytes) (limits : MessageLimits) :=
  drain (S (length read_buf)) read_buf limits.

(** Feed the reads one after the other, draining after each. *)
Fixpoint feed (read_buf : bytes) (chunks : list bytes) (limits : MessageLimits)
    : res MessageError (list Message) * bytes :=
  match chunks with
  | [] => (Ok [], read_buf)
  | c :: chunks =>
      match drain_all (read_buf ++ c) limits with
      | (Ok ms, b) =>
          let '(r, b') := feed b chunks limits in (map_ok (app ms) r, b')
      | (Err e, b) => (Err e, b)
      | (Panic, b) => (Panic, b)
      end
  end.

Definition wire_stream (ms : list Message) : bytes := concat (map wire_message ms).

Lemma wire_stream_cons m ms : wire_stream (m :: ms) = wire_message m ++ wire_stream ms.
Proof. done. Qed.

Lemma pop_wire m rest limits :
  message_fits limits m →
  pop_message_buf (wire_message m ++ rest) limits =
    (Ok (Some (mkOwned (Message_ty m) (wire_message m))), rest).
Proof.
  intros Hm. pose proof (decode_message_wire m rest limits Hm) as Hd.
  unfold decode_message in Hd. apply bind_ok in Hd as ([[f n]|] & Hf & Hd); [|done].
  apply map_err_ok in Hf. unfold pop_message_buf. rewrite Hf.
  destruct (_ && _); [done|]. injection Hd as <- ->.
  rewrite Message_from_frame_ty. f_equal; [do 3 f_equal|].
  - apply take_app_length'. unfold zlen. lia.
  - apply drop_app_length'. unfold zlen. lia.
Qed.

Lemma owned_wire m :
  OwnedMessageBuf_message (mkOwned (Message_ty m) (wire_message m)) = Ok m.
Proof.
  unfold OwnedMessageBuf_message. cbn [owned_buf owned_ty].
  pose proof (zlen_nonneg (Message_payload m)). rewrite zlen_wire_message. unfold HEADER_LEN.
  rewrite slice_ok by (rewrite ?zlen_wire_message; unfold HEADER_LEN; lia). res_simpl.
  unfold wire_message. rewrite app_assoc, sub_app_r by (zl; lia). rewrite sub_all by (zl; lia).
  f_equal. apply Message_from_frame_from.
Qed.

Lemma pop_strict_prefix m buf q limits :
  message_fits limits m → wire_message m = buf ++ q → q ≠ [] →
  pop_message_buf buf limits = (Ok None, buf).
Proof.
  intros (Hf & Hu & _) Hw Hq. unfold pop_message_buf.
  enough (decode_frame buf (max_frame_len limits) = Ok None) as -> by done.
  destruct (header_cases buf) as [?|(b0 & b1 & b2 & b3 & b4 & rest & ->)];
    [by apply decode_frame_short|].
  pose proof (zlen_nonneg (Message_payload m)).
  pose proof (f_equal zlen Hw) as Hl. rewrite zlen_wire_message in Hl. zl in Hl.
  unfold wire_message in Hw.
  destruct (to_be4_header (zlen (Message_payload m))) as (c1 & c2 & c3 & c4 & Ec).
  pose proof (from_be_to_be 4 (zlen (Message_payload m)) ltac:(lia)) as Hb. rewrite Ec in *.
  injection Hw as <- <- <- <- <- Hp. rewrite decode_frame_header by lia.
  unfold decode_body. rewrite try_from_to_u8, Hb, Z.gtb_ltb.
  assert (0 < zlen q) by (destruct q; [done|]; zl; pose proof (zlen_nonneg q); lia).
  unfold HEADER_LEN in *. split_tests; done || lia.
Qed.

(** Draining a prefix [buf] of a stream of admissible messages gives the
    messages that are complete in it and keeps the rest. *)
Lemma drain_prefix fuel ms buf more limits :
  (length buf < fuel)%nat → Forall (message_fits limits) ms →
  buf ++ more = wire_stream ms →
  ∃ ms1 ms2 b, ms = ms1 ++ ms2 ∧ drain fuel buf limits = (Ok ms1, b) ∧
    b ++ more = wire_stream ms2 ∧ (more = [] → ms2 = []).
Proof.
  revert ms buf. induction fuel as [|fuel IH]; intros ms buf Hfuel Hms Heq; [lia|].
  destruct Hms as [|m ms Hm Hms].
  { apply app_nil in Heq as [-> ->]. by exists [], [], []. }
  rewrite wire_stream_cons in Heq.
  assert (∃ k, (buf = wire_message m ++ k ∧ k ++ more = wire_stream ms) ∨
              (k ≠ [] ∧ wire_message m = buf ++ k ∧ more = k ++ wire_stream ms))
    as [k [(-> & Hk)|(Hne & Hk & ->)]].
  { pose proof Heq as Hb. apply app_eq_inv in Hb as [(k & -> & Hr)|(k & Hr & ->)].
    - exists k. by left.
    - destruct (decide (k = [])) as [->|]; [|exists k; by right].
      exists []. left. rewrite app_nil_r in *. done. }
  - destruct (IH ms k) as (ms1 & ms2 & b & -> & Hd & Hb & Hnil); [|done|done|].
    { rewrite length_app in Hfuel. pose proof (zlen_wire_message m).
      pose proof (zlen_nonneg (Message_payload m)). unfold zlen, HEADER_LEN in *. lia. }
    exists (m :: ms1), ms2, b. split_and!; try done.
    cbn [drain]. by rewrite pop_wire, owned_wire, Hd by done.
  - exists [], (m :: ms), buf. split_and!; try done.
    + cbn [drain]. by rewrite (pop_strict_prefix m buf k).
    + intros E. by apply app_nil in E as [-> _].
Qed.

Lemma feed_prefix ms buf chunks limits :
  Forall (message_fits limits) ms → buf ++ concat chunks = wire_stream ms →
  (chunks = [] → ms = []) → feed buf chunks limits = (Ok ms, []).
Proof.
  revert ms buf. induction chunks as [|c cs IH]; intros ms buf Hms Heq Hnil.
  { rewrite (Hnil eq_refl) in *. simpl in Heq. rewrite app_nil_r in Heq. by rewrite Heq. }
  simpl in Heq. rewrite app_assoc in Heq. cbn [feed]. unfold drain_all.
  destruct (drain_prefix (S (length (buf ++ c))) ms (buf ++ c) (concat cs) limits)
    as (ms1 & ms2 & b & -> & -> & Hb & Hn); [lia|done|done|].
  apply Forall_app in Hms as [_ Hms2].
  rewrite (IH ms2 b Hms2 Hb); [done|]. intros ->. by apply Hn.
Qed.

(** ** Theorems *)

(** Stream reassembly: whatever way the transport cuts the byte stream of a
    sequence of admissible messages into reads, the channel delivers exactly
    that sequence, in order, and keeps no residue.  (The messages are those
    that [write_message] put on the stream, see [write_messages_stream].) *)
Lemma feed_recovers_messages ms chunks limits :
  Forall (message_fits limits) ms → concat chunks = wire_stream ms →
  feed [] chunks limits = (Ok ms, []).
Proof.
  intros Hms Heq. apply feed_prefix; [done|done|]. intros ->.
  simpl in Heq. destruct ms as [|m ms]; [done|]. symmetry in Heq.
  rewrite wire_stream_cons in Heq. apply app_nil in Heq as [Hm _].
  unfold wire_message in Hm. by apply app_nil in Hm as [? _].
Qed.

(** Popping never panics and, when it returns a message, removes exactly the
    bytes of that message from the front of the buffer; otherwise the buffer
    is unchanged. *)
Lemma pop_message_buf_cases read_buf limits :
  bytes_ok read_buf →
  match pop_message_buf read_buf limits with
  | (Ok (Some o), rest) =>
      ∃ m, OwnedMessageBuf_message o = Ok m ∧ message_fits limits m ∧
        read_buf = wire_message m ++ rest
  | (Ok None, rest) => rest = read_buf
  | (Err _, rest) => rest = read_buf
  | (Panic, _) => False
  end.
Proof.
  intros Hb. unfold pop_message_buf.
  destruct (decode_frame read_buf (max_frame_len limits)) as [[[f n]|]|e|] eqn:E; try done.
  2: by eapply decode_frame_no_panic.
  destruct (_ && _) eqn:Ed; [done|].
  assert (decode_message read_buf limits = Ok (Some (Message_from_frame f, n))) as Hm.
  { unfold decode_message. rewrite E. res_simpl. by rewrite Ed. }
  destruct (decode_frame_inv _ _ _ _ Hb E) as (Hn & _ & _ & _ & Hle).
  destruct (decode_message_inv _ _ _ _ Hb Hm) as [Hfit Hw].
  assert (take (Z.to_nat n) read_buf = wire_message (Message_from_frame f)) as Ht.
  { rewrite <- Hw. unfold sub. rewrite drop_0. f_equal. lia. }
  exists (Message_from_frame f). split_and!; [|done|].
  - rewrite Ht, <- (Message_from_frame_ty f). apply owned_wire.
  - rewrite <- Ht. by rewrite take_drop.
Qed.

(** ** Writing *)

(** Successive successful writes. *)
Fixpoint write_messages (c : TcpChannel) (ms : list Message) : res TcpWriteError unit * TcpChannel :=
  match ms with
  | [] => (Ok (), c)
  | m :: ms =>
      match write_message c m 1 WroteAll with
      | (Ok _, c) => write_messages c ms
      | r => r
      end
  end.

Lemma write_message_ok c m :
  zlen (Message_payload m) ≤ 4294967295 →
  ∃ c', write_message c m 1 WroteAll = (Ok (), c') ∧
    chan_sent c' = chan_sent c ++ wire_message m ∧ chan_read_buf c' = chan_read_buf c.
Proof.
  intros Hm. unfold write_message, maybe_request_key_update, request_tls_key_update.
  rewrite encode_message_wire by done.
  destruct (_ >? 1); simpl; eexists; split; done.
Qed.

(** When no write fails, the channel puts on the stream the encodings of the
    messages in order and nothing else, key updates notwithstanding. *)
Lemma write_messages_stream c ms :
  Forall (λ m, zlen (Message_payload m) ≤ 4294967295) ms →
  ∃ c', write_messages c ms = (Ok (), c') ∧ chan_sent c' = chan_sent c ++ wire_stream ms.
Proof.
  intros H. revert c. induction H as [|m ms Hm _ IH]; intros c.
  { exists c. split; [done|]. unfold wire_stream. simpl. by rewrite app_nil_r. }
  destruct (write_message_ok c m Hm) as (c1 & E & Hs & _). cbn [write_messages]. rewrite E.
  destruct (IH c1) as (c2 & -> & Hc2). exists c2. split; [done|].
  by rewrite Hc2, Hs, <- app_assoc, wire_stream_cons.
Qed.

(** The key updates asked for during [n] successful messages. *)
Fixpoint updates (k : IntervalKeyUpdater) (n : nat) : Z * IntervalKeyUpdater :=
  match n with
  | O => (0, k)
  | S n =>
      let '(_, k, asked) := maybe_request_key_update k 1 in
      let '(c, k) := updates k n in
      ((if asked : bool then 1 else 0) + c, k)
  end.

Lemma updates_count k n :
  1 ≤ ku_until_update k ≤ ku_interval k →
  (updates k n).1 = (Z.of_nat n + ku_interval k - ku_until_update k) / ku_interval k.
Proof.
  revert k. induction n as [|n IH]; intros k Hk; cbn [updates].
  - symmetry. apply Z.div_small. lia.
  - unfold maybe_request_key_update. rewrite Z.gtb_ltb.
    destruct (Z.ltb_spec 1 (ku_until_update k)); cbn -[updates Z.of_nat].
    + set (k1 := mkUpdater _ _ _). specialize (IH k1). simpl in IH.
      destruct (updates k1 n) as [c k2]. cbn [fst] in *. rewrite IH by lia.
      rewrite Z.add_0_l. f_equal. lia.
    + set (k1 := mkUpdater _ _ _). specialize (IH k1). simpl in IH.
      destruct (updates k1 n) as [c k2]. cbn [fst] in *. rewrite IH by lia.
      assert (ku_until_update k = 1) as -> by lia.
      replace (Z.of_nat (S n) + ku_interval k - 1) with (Z.of_nat n + 1 * ku_interval k) by lia.
      rewrite Z.div_add by lia. replace (Z.of_nat n + ku_interval k - ku_interval k) with (Z.of_nat n) by lia.
      lia.
Qed.

(** A fresh updater asks TLS for a key update exactly once every [interval]
    messages. *)
Theorem key_updates_per_interval interval n :
  1 ≤ interval → (updates (IntervalKeyUpdater_new interval) n).1 = Z.of_nat n / interval.
Proof.
  intros H. rewrite updates_count by (simpl; lia). simpl. f_equal. lia.
Qed.

(** C22: The TCP channel delivers what was written: when a channel writes
    messages that fit the limits (TLS key updates in between), then a peer
    that reads the bytes in pieces of any size gets exactly these messages, in
    order, with nothing left over. *)
Theorem tcp_channel_delivery c ms limits :
  Forall (message_fits limits) ms →
  ∃ c', write_messages c ms = (Ok (), c') ∧
    ∀ chunks, chan_sent c' = chan_sent c ++ concat chunks → feed [] chunks limits = (Ok ms, []).
Proof.
  intros Hms. destruct (write_messages_stream c ms) as (c' & E & Hs).
  { eapply Forall_impl; [|exact Hms]. by intros m (_ & ? & _). }
  exists c'. split; [done|]. intros chunks Hc. rewrite Hs in Hc. apply app_inv_head in Hc.
  by apply feed_recovers_messages.
Qed.

(** ** Witnesses *)
Lemma tcp_channel_delivery_witness :
  let c := TcpChannel_with_state (IntervalKeyUpdater_new 1) [] in
  let ms := [MPing (zeros 8); MData [1; 2; 3]] in
  ∃ c', write_messages c ms = (Ok (), c') ∧
    ∀ chunks, chan_sent c' = chan_sent c ++ concat chunks →
      feed [] chunks (MessageLimits_from_mtu 1500) = (Ok ms, []).
Proof.
  apply (tcp_channel_delivery (TcpChannel_with_state (IntervalKeyUpdater_new 1) [])
    [MPing (zeros 8); MData [1; 2; 3]] (MessageLimits_from_mtu 1500)).
  repeat (constructor; [decided|]). constructor.
Defined.

Lemma wire_stream_one m : wire_stream [m] = wire_message m.
Proof. apply app_nil_r. Qed.

Lemma wire_stream_app ms ms' : wire_stream (ms ++ ms') = wire_stream ms ++ wire_stream ms'.
Proof. unfold wire_stream. by rewrite map_app, concat_app. Qed.

Lemma write_message_cases c m rc w :
  zlen (Message_payload m) ≤ 4294967295 →
  let '(r, c') := write_message c m rc w in
  chan_read_buf c' = chan_read_buf c ∧
  match r with
  | Ok _ => chan_sent c' = chan_sent c ++ wire_message m
  | Err _ => ∃ n, chan_sent c' = chan_sent c ++ take n (wire_message m)
  | Panic => False
  end.
Proof.
  intros Hm. unfold write_message. rewrite encode_message_wire by done. cbn [app].
  assert (∃ r k u, maybe_request_key_update (chan_key_updater c) rc = (r, k, u) ∧ r ≠ Panic) as (r & k & u & -> & Hr).
  { unfold maybe_request_key_update, request_tls_key_update. destruct (_ >? _); [|destruct (rc =? 1)];
      (do 3 eexists; split; [reflexivity|done]). }
  destruct r as [?|e|]; [|split; [done|]; exists 0%nat; by rewrite take_0, app_nil_r|done].
  destruct w as [|n e]; cbn; (split; [done|]); [done|by exists n].
Qed.
