(* ===== verification/Payloads.v ===== *)
(** * Message payloads ([slt-core/src/proto/payloads/])

    One record, [decode] and [encode] per payload, translated field by field,
    and the error and code enumerations they use.  The interface
    [PayloadCodec] states what a payload type promises to the code that uses
    it: [encode] then [decode] is the identity, [decode] accepts only the
    canonical encoding, and [decode] never panics.  Every payload type is an
    instance. *)

From stdpp Require Import base tactics option list numbers.
From Stdlib Require Import ZArith Lia.
From S2P Require Import Prelude Cid Framing.

Inductive PayloadError :=
  | LengthMismatch (expected actual : Z)
  | LengthTooShort (min actual : Z)
  | InvalidClientToServerCidLen (n : Z)
  | InvalidServerToClientCidLen (n : Z)
  | InvalidCipher (b : Z)
  | InvalidAuthFailCode (b : Z)
  | InvalidRegisterFailCode (b : Z)
  | InvalidCloseCode (b : Z)
  | InvalidKeyPhase (b : Z).

#[global] Instance PayloadError_eq_dec : EqDecision PayloadError.
Proof. solve_decision. Defined.

(** ** Authentication payloads ([payloads/auth.rs]) *)
Definition AUTH_CHALLENGE_LEN : Z := 32.
Definition AUTH_SIGNATURE_LEN : Z := 64.
Definition AUTH_PAYLOAD_LEN : Z := 16 + 4 + 2 + AUTH_CHALLENGE_LEN + AUTH_SIGNATURE_LEN.

Inductive AuthFailCode :=
  | AFUnknown | AFUnknownClient | AFDisabled | AFBadSignature | AFIpMismatch
  | AFChallengeInvalid | AFMtuMismatch.

Definition AuthFailCode_to_u8 (c : AuthFailCode) : Z :=
  match c with
  | AFUnknown => 0x00 | AFUnknownClient => 0x01 | AFDisabled => 0x02
  | AFBadSignature => 0x03 | AFIpMismatch => 0x04 | AFChallengeInvalid => 0x05
  | AFMtuMismatch => 0x06
  end.
Definition AuthFailCode_try_from (z : Z) : option AuthFailCode :=
  if decide (z = 0x00) then Some AFUnknown else
  if decide (z = 0x01) then Some AFUnknownClient else
  if decide (z = 0x02) then Some AFDisabled else
  if decide (z = 0x03) then Some AFBadSignature else
  if decide (z = 0x04) then Some AFIpMismatch else
  if decide (z = 0x05) then Some AFChallengeInvalid else
  if decide (z = 0x06) then Some AFMtuMismatch else None.
#[global] Instance AuthFailCode_wire : WireEnum AuthFailCode.
Proof. wire_enum AuthFailCode_to_u8 AuthFailCode_try_from. Defined.
#[global] Instance AuthFailCode_eq_dec : EqDecision AuthFailCode.
Proof. solve_decision. Defined.

(** [ClientId([u8; 16])] and [Ipv4Addr] (four octets). *)
Abbreviation ClientId := bytes (only parsing).
Abbreviation Ipv4Addr := bytes (only parsing).

Record AuthPayload := mkAuth {
  auth_client_id : ClientId;
  auth_assigned_ipv4 : Ipv4Addr;
  auth_tun_mtu : Z;
  auth_challenge : bytes;
  auth_signature : bytes;
}.

Definition AuthPayload_decode (payload : bytes) : res PayloadError AuthPayload :=
  if negb (zlen payload =? AUTH_PAYLOAD_LEN)
  then Err (LengthMismatch AUTH_PAYLOAD_LEN (zlen payload)) else
  s ← slice payload 0 16;
  client_id ← copy_array 16 s;
  p16 ← index payload 16; p17 ← index payload 17;
  p18 ← index payload 18; p19 ← index payload 19;
  let assigned_ipv4 := [p16; p17; p18; p19] in
  p20 ← index payload 20; p21 ← index payload 21;
  let tun_mtu := from_be [p20; p21] in
  c ← slice payload 22 (22 + AUTH_CHALLENGE_LEN);
  challenge ← copy_array AUTH_CHALLENGE_LEN c;
  s ← slice payload (22 + AUTH_CHALLENGE_LEN) (22 + AUTH_CHALLENGE_LEN + AUTH_SIGNATURE_LEN);
  signature ← copy_array AUTH_SIGNATURE_LEN s;
  Ok (mkAuth client_id assigned_ipv4 tun_mtu challenge signature).

Definition AuthPayload_encode (p : AuthPayload) (out : bytes) : bytes :=
  out ++ auth_client_id p ++ auth_assigned_ipv4 p ++ to_be 2 (auth_tun_mtu p)
      ++ auth_challenge p ++ auth_signature p.

Inductive AuthOkPayload := mkAuthOk.

Definition AuthOkPayload_decode (payload : bytes) : res PayloadError AuthOkPayload :=
  if negb (bool_decide (payload = [])) then Err (LengthMismatch 0 (zlen payload)) else Ok mkAuthOk.

Definition AuthOkPayload_encode (p : AuthOkPayload) (out : bytes) : bytes := out.

(** A payload that is one code byte. *)
Definition decode_code {A} `{WireEnum A} (mk_err : Z → PayloadError) (len : Z) (payload : bytes)
    : res PayloadError A :=
  if negb (zlen payload =? len) then Err (LengthMismatch len (zlen payload)) else
  b ← index payload 0;
  ok_or (try_from_u8 b) (mk_err b).
Definition encode_code {A} `{WireEnum A} (c : A) (out : bytes) : bytes := out ++ [to_u8 c].

Record AuthFailPayload := mkAuthFail { af_code : AuthFailCode }.
Definition AuthFailPayload_decode (payload : bytes) : res PayloadError AuthFailPayload :=
  map_ok mkAuthFail (decode_code InvalidAuthFailCode 1 payload).
Definition AuthFailPayload_encode (p : AuthFailPayload) (out : bytes) : bytes :=
  encode_code (af_code p) out.

(** ** Control payloads ([payloads/control.rs]) *)
Definition PING_PAYLOAD_LEN : Z := 8.
Definition FALLBACK_ID_PAYLOAD_LEN : Z := 8.
Definition CLOSE_PAYLOAD_LEN : Z := 1.

Inductive CloseCode := CCNormal | CCAuthTimeout | CCIdleTimeout | CCProtocolError | CCServerRestart.

Definition CloseCode_to_u8 (c : CloseCode) : Z :=
  match c with
  | CCNormal => 0x00 | CCAuthTimeout => 0x01 | CCIdleTimeout => 0x02
  | CCProtocolError => 0x03 | CCServerRestart => 0x04
  end.
Definition CloseCode_try_from (z : Z) : option CloseCode :=
  if decide (z = 0x00) then Some CCNormal else
  if decide (z = 0x01) then Some CCAuthTimeout else
  if decide (z = 0x02) then Some CCIdleTimeout else
  if decide (z = 0x03) then Some CCProtocolError else
  if decide (z = 0x04) then Some CCServerRestart else None.
#[global] Instance CloseCode_wire : WireEnum CloseCode.
Proof. wire_enum CloseCode_to_u8 CloseCode_try_from. Defined.
#[global] Instance CloseCode_eq_dec : EqDecision CloseCode.
Proof. solve_decision. Defined.

(** A payload that is one big-endian [u64], copied into an array: the source
    writes this decoder out for each of the payloads that use it. *)
Definition decode_u64 (len : Z) (payload : bytes) : res PayloadError Z :=
  if negb (zlen payload =? len) then Err (LengthMismatch len (zlen payload)) else
  b ← copy_array 8 payload; Ok (from_be b).
Definition encode_u64 (x : Z) (out : bytes) : bytes := out ++ to_be 8 x.

Record FallbackToTcpPayload := mkFallbackToTcp { ftt_fallback_id : Z }.
Definition FallbackToTcpPayload_decode (payload : bytes) : res PayloadError FallbackToTcpPayload :=
  map_ok mkFallbackToTcp (decode_u64 FALLBACK_ID_PAYLOAD_LEN payload).
Definition FallbackToTcpPayload_encode (p : FallbackToTcpPayload) (out : bytes) : bytes :=
  encode_u64 (ftt_fallback_id p) out.

Record FallbackOkPayload := mkFallbackOk { fok_fallback_id : Z }.
Definition FallbackOkPayload_decode (payload : bytes) : res PayloadError FallbackOkPayload :=
  map_ok mkFallbackOk (decode_u64 FALLBACK_ID_PAYLOAD_LEN payload).
Definition FallbackOkPayload_encode (p : FallbackOkPayload) (out : bytes) : bytes :=
  encode_u64 (fok_fallback_id p) out.

(** PING and PONG read the eight bytes of the nonce by index. *)
Definition decode_nonce (payload : bytes) : res PayloadError Z :=
  if negb (zlen payload =? PING_PAYLOAD_LEN)
  then Err (LengthMismatch PING_PAYLOAD_LEN (zlen payload)) else
  p0 ← index payload 0; p1 ← index payload 1; p2 ← index payload 2; p3 ← index payload 3;
  p4 ← index payload 4; p5 ← index payload 5; p6 ← index payload 6; p7 ← index payload 7;
  Ok (from_be [p0; p1; p2; p3; p4; p5; p6; p7]).

Record PingPayload := mkPing { ping_nonce : Z }.
Definition PingPayload_decode (payload : bytes) : res PayloadError PingPayload :=
  map_ok mkPing (decode_nonce payload).
Definition PingPayload_encode (p : PingPayload) (out : bytes) : bytes :=
  encode_u64 (ping_nonce p) out.

Record PongPayload := mkPong { pong_nonce : Z }.
Definition PongPayload_decode (payload : bytes) : res PayloadError PongPayload :=
  map_ok mkPong (decode_nonce payload).
Definition PongPayload_encode (p : PongPayload) (out : bytes) : bytes :=
  encode_u64 (pong_nonce p) out.

Record ClosePayload := mkClose { close_code : CloseCode }.
Definition ClosePayload_decode (payload : bytes) : res PayloadError ClosePayload :=
  map_ok mkClose (decode_code InvalidCloseCode CLOSE_PAYLOAD_LEN payload).
Definition ClosePayload_encode (p : ClosePayload) (out : bytes) : bytes :=
  encode_code (close_code p) out.

(** ** Upgrade payloads ([payloads/upgrade.rs]) *)
Definition UPGRADE_ID_PAYLOAD_LEN : Z := 8.
Definition UPGRADE_PROBE_PAYLOAD_LEN : Z := 16.

Record UpgradeProbePayload := mkProbe { probe_upgrade_id : Z; probe_nonce : Z }.

Definition decode_probe {A} (mk : Z → Z → A) (payload : bytes) : res PayloadError A :=
  let mismatch := LengthMismatch UPGRADE_PROBE_PAYLOAD_LEN (zlen payload) in
  if negb (zlen payload =? UPGRADE_PROBE_PAYLOAD_LEN) then Err mismatch else
  s ← slice payload 0 UPGRADE_ID_PAYLOAD_LEN;
  id ← ok_or (try_array 8 s) mismatch;
  s ← slice payload UPGRADE_ID_PAYLOAD_LEN (zlen payload);
  nonce ← ok_or (try_array 8 s) mismatch;
  Ok (mk (from_be id) (from_be nonce)).
Definition UpgradeProbePayload_decode (payload : bytes) : res PayloadError UpgradeProbePayload :=
  decode_probe mkProbe payload.
Definition UpgradeProbePayload_encode (p : UpgradeProbePayload) (out : bytes) : bytes :=
  out ++ to_be 8 (probe_upgrade_id p) ++ to_be 8 (probe_nonce p).

Record UpgradeProbeAckPayload := mkProbeAck { ack_upgrade_id : Z; ack_nonce : Z }.
Definition UpgradeProbeAckPayload_decode (payload : bytes)
    : res PayloadError UpgradeProbeAckPayload :=
  decode_probe mkProbeAck payload.
Definition UpgradeProbeAckPayload_encode (p : UpgradeProbeAckPayload) (out : bytes) : bytes :=
  out ++ to_be 8 (ack_upgrade_id p) ++ to_be 8 (ack_nonce p).

(** [UdpReady], [SwitchToUdp] and [SwitchAck] convert with [try_into]. *)
Definition decode_upgrade_id (payload : bytes) : res PayloadError Z :=
  let mismatch := LengthMismatch UPGRADE_ID_PAYLOAD_LEN (zlen payload) in
  if negb (zlen payload =? UPGRADE_ID_PAYLOAD_LEN) then Err mismatch else
  b ← ok_or (try_array 8 payload) mismatch;
  Ok (from_be b).

Record UdpReadyPayload := mkUdpReady { ready_upgrade_id : Z }.
Definition UdpReadyPayload_decode (payload : bytes) : res PayloadError UdpReadyPayload :=
  map_ok mkUdpReady (decode_upgrade_id payload).
Definition UdpReadyPayload_encode (p : UdpReadyPayload) (out : bytes) : bytes :=
  encode_u64 (ready_upgrade_id p) out.

Record SwitchToUdpPayload := mkSwitchToUdp { switch_upgrade_id : Z }.
Definition SwitchToUdpPayload_decode (payload : bytes) : res PayloadError SwitchToUdpPayload :=
  map_ok mkSwitchToUdp (decode_upgrade_id payload).
Definition SwitchToUdpPayload_encode (p : SwitchToUdpPayload) (out : bytes) : bytes :=
  encode_u64 (switch_upgrade_id p) out.

Record SwitchAckPayload := mkSwitchAck { switch_ack_upgrade_id : Z }.
Definition SwitchAckPayload_decode (payload : bytes) : res PayloadError SwitchAckPayload :=
  map_ok mkSwitchAck (decode_upgrade_id payload).
Definition SwitchAckPayload_encode (p : SwitchAckPayload) (out : bytes) : bytes :=
  encode_u64 (switch_ack_upgrade_id p) out.

(** [SWITCH_OK] copies into an array like the fallback payloads. *)
Record SwitchOkPayload := mkSwitchOk { switch_ok_upgrade_id : Z }.
Definition SwitchOkPayload_decode (payload : bytes) : res PayloadError SwitchOkPayload :=
  map_ok mkSwitchOk (decode_u64 UPGRADE_ID_PAYLOAD_LEN payload).
Definition SwitchOkPayload_encode (p : SwitchOkPayload) (out : bytes) : bytes :=
  encode_u64 (switch_ok_upgrade_id p) out.

(** ** Registration payloads ([payloads/registration.rs]) *)
Definition HP_KEY_LEN : Z := 16.
Definition AEAD_KEY_LEN : Z := 16.
Definition CHACHA20_POLY1305_KEY_LEN : Z := 32.
Definition AEAD_IV_LEN : Z := 12.

Inductive CipherSuite := Aes128Gcm | ChaCha20Poly1305.
Definition CipherSuite_to_u8 (c : CipherSuite) : Z :=
  match c with Aes128Gcm => 0x01 | ChaCha20Poly1305 => 0x02 end.
Definition CipherSuite_try_from (z : Z) : option CipherSuite :=
  if decide (z = 0x01) then Some Aes128Gcm else
  if decide (z = 0x02) then Some ChaCha20Poly1305 else None.
#[global] Instance CipherSuite_wire : WireEnum CipherSuite.
Proof. wire_enum CipherSuite_to_u8 CipherSuite_try_from. Defined.
#[global] Instance CipherSuite_eq_dec : EqDecision CipherSuite.
Proof. solve_decision. Defined.

Definition CipherSuite_hp_key_len (c : CipherSuite) : Z :=
  match c with Aes128Gcm => HP_KEY_LEN | ChaCha20Poly1305 => CHACHA20_POLY1305_KEY_LEN end.
Definition CipherSuite_aead_key_len (c : CipherSuite) : Z :=
  match c with Aes128Gcm => AEAD_KEY_LEN | ChaCha20Poly1305 => CHACHA20_POLY1305_KEY_LEN end.
Definition CipherSuite_iv_len (c : CipherSuite) : Z := AEAD_IV_LEN.

Inductive RegisterFailCode :=
  | RFUnknown | RFNotAuthenticated | RFInvalidCipher | RFInvalidCid | RFInvalidKeys.
Definition RegisterFailCode_to_u8 (c : RegisterFailCode) : Z :=
  match c with
  | RFUnknown => 0x00 | RFNotAuthenticated => 0x01 | RFInvalidCipher => 0x02
  | RFInvalidCid => 0x03 | RFInvalidKeys => 0x04
  end.
Definition RegisterFailCode_try_from (z : Z) : option RegisterFailCode :=
  if decide (z = 0x00) then Some RFUnknown else
  if decide (z = 0x01) then Some RFNotAuthenticated else
  if decide (z = 0x02) then Some RFInvalidCipher else
  if decide (z = 0x03) then Some RFInvalidCid else
  if decide (z = 0x04) then Some RFInvalidKeys else None.
#[global] Instance RegisterFailCode_wire : WireEnum RegisterFailCode.
Proof. wire_enum RegisterFailCode_to_u8 RegisterFailCode_try_from. Defined.
#[global] Instance RegisterFailCode_eq_dec : EqDecision RegisterFailCode.
Proof. solve_decision. Defined.

Record RegisterCidPayload := mkRegister {
  reg_client_to_server_cid : Cid;
  reg_server_to_client_cid : Cid;
  reg_cipher : CipherSuite;
  reg_secret_tx : bytes;
  reg_secret_rx : bytes;
  reg_pn_start : Z;
  reg_pn_start_rx : Z;
  reg_key_phase : bool;
}.

Definition encoded_len_for (c2s_cid_len s2c_cid_len : Z) (_ : CipherSuite) : Z :=
  1 + c2s_cid_len + 1 + s2c_cid_len + 1 + (UDP_QSP_TRAFFIC_SECRET_LEN * 2) + 8 + 8 + 1.

(** [read_secret] and [read_u64] return the value and the offset after it. *)
Definition read_secret (payload : bytes) (offset : Z) : res PayloadError (bytes * Z) :=
  s ← slice payload offset (offset + UDP_QSP_TRAFFIC_SECRET_LEN);
  out ← copy_array UDP_QSP_TRAFFIC_SECRET_LEN s;
  Ok (out, offset + UDP_QSP_TRAFFIC_SECRET_LEN).
Definition read_u64 (payload : bytes) (offset : Z) : res PayloadError (Z * Z) :=
  s ← slice payload offset (offset + 8);
  b ← copy_array 8 s;
  Ok (from_be b, offset + 8).

Definition RegisterCidPayload_decode (payload : bytes) : res PayloadError RegisterCidPayload :=
  if bool_decide (payload = []) then Err (LengthTooShort 1 (zlen payload)) else
  c2s_cid_len ← index payload 0;
  if negb (c2s_cid_len =? MAX_DCID_LEN) then Err (InvalidClientToServerCidLen c2s_cid_len) else
  let s2c_cid_len_offset := 1 + c2s_cid_len in
  if zlen payload <? s2c_cid_len_offset + 1
  then Err (LengthTooShort (s2c_cid_len_offset + 1) (zlen payload)) else
  s2c_cid_len ← index payload s2c_cid_len_offset;
  if s2c_cid_len >? MAX_DCID_LEN then Err (InvalidServerToClientCidLen s2c_cid_len) else
  let cipher_offset := s2c_cid_len_offset + 1 + s2c_cid_len in
  if zlen payload <? cipher_offset + 1
  then Err (LengthTooShort (cipher_offset + 1) (zlen payload)) else
  cb ← index payload cipher_offset;
  cipher ← ok_or (try_from_u8 cb) (InvalidCipher cb);
  let expected_len := encoded_len_for c2s_cid_len s2c_cid_len cipher in
  if negb (zlen payload =? expected_len) then Err (LengthMismatch expected_len (zlen payload)) else
  let offset := 1 in
  s ← slice payload offset (offset + c2s_cid_len);
  client_to_server_cid ← map_err (λ _, InvalidClientToServerCidLen c2s_cid_len) (Cid_new s);
  let offset := offset + c2s_cid_len + 1 in
  s ← slice payload offset (offset + s2c_cid_len);
  server_to_client_cid ← map_err (λ _, InvalidServerToClientCidLen s2c_cid_len) (Cid_new s);
  let offset := offset + s2c_cid_len + 1 in
  '(secret_tx, offset) ← read_secret payload offset;
  '(secret_rx, offset) ← read_secret payload offset;
  '(pn_start, offset) ← read_u64 payload offset;
  '(pn_start_rx, offset) ← read_u64 payload offset;
  kp ← index payload offset;
  key_phase ← (if kp =? 0 then Ok false else if kp =? 1 then Ok true else Err (InvalidKeyPhase kp));
  Ok (mkRegister client_to_server_cid server_to_client_cid cipher secret_tx secret_rx
        pn_start pn_start_rx key_phase).

Definition RegisterCidPayload_encoded_len (p : RegisterCidPayload) : Z :=
  encoded_len_for (cid_len (reg_client_to_server_cid p)) (cid_len (reg_server_to_client_cid p))
    (reg_cipher p).

(** [Cid::as_slice] has no error; its outcome is lifted to this error type. *)
Definition cid_bytes_of (c : Cid) : res PayloadError bytes :=
  map_err (λ _, InvalidClientToServerCidLen (cid_len c)) (Cid_as_slice c).

Definition RegisterCidPayload_encode (p : RegisterCidPayload) (out : bytes) : res PayloadError bytes :=
  if negb (cid_len (reg_client_to_server_cid p) =? MAX_DCID_LEN)
  then Err (InvalidClientToServerCidLen (cid_len (reg_client_to_server_cid p))) else
  c2s ← cid_bytes_of (reg_client_to_server_cid p);
  s2c ← cid_bytes_of (reg_server_to_client_cid p);
  Ok (out ++ [cid_len (reg_client_to_server_cid p)] ++ c2s
          ++ [cid_len (reg_server_to_client_cid p)] ++ s2c
          ++ [to_u8 (reg_cipher p)] ++ reg_secret_tx p ++ reg_secret_rx p
          ++ to_be 8 (reg_pn_start p) ++ to_be 8 (reg_pn_start_rx p)
          ++ [if reg_key_phase p then 1 else 0]).

Record RegisterOkPayload := mkRegisterOk { rok_client_to_server_cid : Cid }.

Definition RegisterOkPayload_decode (payload : bytes) : res PayloadError RegisterOkPayload :=
  if bool_decide (payload = []) then Err (LengthTooShort 1 (zlen payload)) else
  n ← index payload 0;
  if negb (n =? MAX_DCID_LEN) then Err (InvalidClientToServerCidLen n) else
  let expected_len := 1 + n in
  if negb (zlen payload =? expected_len) then Err (LengthMismatch expected_len (zlen payload)) else
  s ← slice payload 1 (1 + n);
  c ← map_err (λ _, InvalidClientToServerCidLen n) (Cid_new s);
  Ok (mkRegisterOk c).

Definition RegisterOkPayload_encode (p : RegisterOkPayload) (out : bytes) : res PayloadError bytes :=
  let c := rok_client_to_server_cid p in
  if negb (cid_len c =? MAX_DCID_LEN) then Err (InvalidClientToServerCidLen (cid_len c)) else
  s ← cid_bytes_of c;
  Ok (out ++ [cid_len c] ++ s).

Record RegisterFailPayload := mkRegisterFail { rf_code : RegisterFailCode }.
Definition RegisterFailPayload_decode (payload : bytes) : res PayloadError RegisterFailPayload :=
  map_ok mkRegisterFail (decode_code InvalidRegisterFailCode 1 payload).
Definition RegisterFailPayload_encode (p : RegisterFailPayload) (out : bytes) : bytes :=
  encode_code (rf_code p) out.

(** ** The codec interface *)
Class PayloadCodec (A : Type) := {
  pc_decode : bytes → res PayloadError A;
  pc_encode : A → bytes → res PayloadError bytes;
  pc_wf : A → Prop;
  (** encoding a well-formed payload appends bytes and cannot fail *)
  pc_encode_appends : ∀ a, pc_wf a →
    ∃ b, bytes_ok b ∧ ∀ out, pc_encode a out = Ok (out ++ b);
  pc_roundtrip : ∀ a b, pc_wf a → pc_encode a [] = Ok b → pc_decode b = Ok a;
  pc_canonical : ∀ a b, bytes_ok b → pc_decode b = Ok a → pc_wf a ∧ pc_encode a [] = Ok b;
  pc_no_panic : ∀ b, bytes_ok b → pc_decode b ≠ Panic;
}.

(** ** One identifier or nonce *)
Lemma decode_u64_ok payload x :
  bytes_ok payload → decode_u64 8 payload = Ok x ↔ u64_ok x ∧ payload = to_be 8 x.
Proof.
  intros Hb. unfold decode_u64. split.
  - split_tests; cbn [negb]; [|done]. rewrite copy_array_ok by done. res_simpl.
    intros Hx. apply (inj Ok) in Hx as <-. split.
    + pose proof (from_be_bound _ Hb) as Hf. rewrite e in Hf. exact Hf.
    + symmetry. by apply to_be_from_be'.
  - intros [Hx ->]. rewrite zlen_to_be. change (Z.of_nat 8 =? 8) with true. cbn [negb].
    rewrite copy_array_ok by (by rewrite zlen_to_be). res_simpl.
    by rewrite from_be_to_be8.
Qed.

Lemma decode_u64_no_panic payload : decode_u64 8 payload ≠ Panic.
Proof.
  unfold decode_u64. split_tests; cbn [negb]; [|done]. by rewrite copy_array_ok.
Qed.

(** The three ways the source reads the eight bytes agree. *)
Lemma decode_nonce_u64 payload : decode_nonce payload = decode_u64 8 payload.
Proof.
  unfold decode_nonce, decode_u64, PING_PAYLOAD_LEN. split_tests; cbn [negb]; [|done].
  rewrite !index_ok, copy_array_ok by lia. res_simpl. unfold zlen in *.
  do 9 (destruct payload as [|? payload]; try (simpl in *; lia)). done.
Qed.

Lemma decode_upgrade_id_u64 payload : decode_upgrade_id payload = decode_u64 8 payload.
Proof.
  unfold decode_upgrade_id, decode_u64, UPGRADE_ID_PAYLOAD_LEN, try_array, copy_array.
  by split_tests.
Qed.

Definition codec_u64 {A} (mk : Z → A) (fld : A → Z) (dec : bytes → res PayloadError Z)
    (Hfm : ∀ x, fld (mk x) = x) (Hmf : ∀ a, mk (fld a) = a)
    (Hdec : ∀ p, dec p = decode_u64 8 p) : PayloadCodec A.
Proof.
  refine {| pc_decode p := map_ok mk (dec p);
            pc_encode a out := Ok (encode_u64 (fld a) out);
            pc_wf a := u64_ok (fld a) |}.
  - intros a Ha. exists (to_be 8 (fld a)). split; [auto with slt|done].
  - intros a b Ha Hb. apply (inj Ok) in Hb as <-. unfold encode_u64. cbn [app]. rewrite Hdec.
    rewrite (proj2 (decode_u64_ok _ (fld a) (bytes_ok_to_be _ _)) (conj Ha eq_refl)).
    simpl. by rewrite Hmf.
  - intros a b Hb H. rewrite Hdec in H. destruct (decode_u64 8 b) as [x| |] eqn:Ex; try done.
    simpl in H. apply (inj Ok) in H as <-. rewrite Hfm.
    apply decode_u64_ok in Ex as [Hx ->]; done.
  - intros b _. rewrite Hdec. apply map_ok_not_panic, decode_u64_no_panic.
Defined.

Ltac u64_codec mk fld dec lem :=
  refine (codec_u64 mk fld dec _ _ _);
  [done|by intros []|intros p; rewrite ?lem; done].

#[global] Instance FallbackToTcp_codec : PayloadCodec FallbackToTcpPayload.
Proof. u64_codec mkFallbackToTcp ftt_fallback_id (decode_u64 FALLBACK_ID_PAYLOAD_LEN) decode_nonce_u64. Defined.
#[global] Instance FallbackOk_codec : PayloadCodec FallbackOkPayload.
Proof. u64_codec mkFallbackOk fok_fallback_id (decode_u64 FALLBACK_ID_PAYLOAD_LEN) decode_nonce_u64. Defined.
#[global] Instance Ping_codec : PayloadCodec PingPayload.
Proof. u64_codec mkPing ping_nonce decode_nonce decode_nonce_u64. Defined.
#[global] Instance Pong_codec : PayloadCodec PongPayload.
Proof. u64_codec mkPong pong_nonce decode_nonce decode_nonce_u64. Defined.
#[global] Instance UdpReady_codec : PayloadCodec UdpReadyPayload.
Proof. u64_codec mkUdpReady ready_upgrade_id decode_upgrade_id decode_upgrade_id_u64. Defined.
#[global] Instance SwitchToUdp_codec : PayloadCodec SwitchToUdpPayload.
Proof. u64_codec mkSwitchToUdp switch_upgrade_id decode_upgrade_id decode_upgrade_id_u64. Defined.
#[global] Instance SwitchAck_codec : PayloadCodec SwitchAckPayload.
Proof. u64_codec mkSwitchAck switch_ack_upgrade_id decode_upgrade_id decode_upgrade_id_u64. Defined.
#[global] Instance SwitchOk_codec : PayloadCodec SwitchOkPayload.
Proof. u64_codec mkSwitchOk switch_ok_upgrade_id (decode_u64 UPGRADE_ID_PAYLOAD_LEN) decode_nonce_u64. Defined.

(** ** One code byte *)
Definition codec_code {A C} `{WireEnum C} (mk : C → A) (fld : A → C) (mk_err : Z → PayloadError)
    (Hfm : ∀ x, fld (mk x) = x) (Hmf : ∀ a, mk (fld a) = a) : PayloadCodec A.
Proof.
  refine {| pc_decode p := map_ok mk (decode_code mk_err 1 p);
            pc_encode a out := Ok (encode_code (fld a) out);
            pc_wf a := True |}.
  - intros a _. exists [to_u8 (fld a)]. split; [|done].
    constructor; [apply to_u8_ok|constructor].
  - intros a b _ Hb. apply (inj Ok) in Hb as <-. unfold encode_code, decode_code. simpl app.
    rewrite zlen_one, Z.eqb_refl. cbn [negb]. rewrite index_ok by (rewrite ?zlen_one; lia).
    res_simpl. rewrite nth_Z0, try_from_to_u8. res_simpl. by rewrite Hmf.
  - intros a b Hb Hd. split; [done|]. unfold decode_code in Hd.
    destruct (Z.eqb_spec (zlen b) 1) as [Hl|]; [|done].
    destruct b as [|x [|y b]]; [done| |zl in Hl; pose proof (zlen_nonneg b); lia].
    cbn [negb] in Hd. rewrite index_ok in Hd by (rewrite ?zlen_one; lia). res_simpl in Hd.
    rewrite nth_Z0 in Hd. destruct (try_from_u8 x) as [c|] eqn:Ec; [|done]. apply (inj Ok) in Hd as <-.
    rewrite Hfm. unfold encode_code. by rewrite (to_u8_try_from _ _ Ec).
  - intros b _. apply map_ok_not_panic. unfold decode_code. split_tests; cbn [negb]; [|done].
    rewrite index_ok by lia. res_simpl. by destruct (try_from_u8 _).
Defined.

#[global] Instance AuthFail_codec : PayloadCodec AuthFailPayload.
Proof. by refine (codec_code mkAuthFail af_code InvalidAuthFailCode _ _); [|intros []]. Defined.
#[global] Instance Close_codec : PayloadCodec ClosePayload.
Proof. by refine (codec_code mkClose close_code InvalidCloseCode _ _); [|intros []]. Defined.
#[global] Instance RegisterFail_codec : PayloadCodec RegisterFailPayload.
Proof. by refine (codec_code mkRegisterFail rf_code InvalidRegisterFailCode _ _); [|intros []]. Defined.

#[global] Instance AuthOk_codec : PayloadCodec AuthOkPayload.
Proof.
  refine {| pc_decode := AuthOkPayload_decode; pc_encode p out := Ok (AuthOkPayload_encode p out);
            pc_wf _ := True |}.
  - intros [] _. exists []. split; [constructor|]. intros out. by rewrite app_nil_r.
  - intros [] b _ Hb. by apply (inj Ok) in Hb as <-.
  - intros [] b _ H. split; [done|]. unfold AuthOkPayload_decode in H.
    by destruct (decide (b = [])) as [->|Hne]; [|rewrite bool_decide_false in H].
  - intros b _. unfold AuthOkPayload_decode. by destruct (negb _).
Defined.

(** ** Probe and acknowledgement *)
Definition codec_probe {A} (mk : Z → Z → A) (f g : A → Z)
    (Hf : ∀ x y, f (mk x y) = x) (Hg : ∀ x y, g (mk x y) = y) (Hmk : ∀ a, mk (f a) (g a) = a)
    : PayloadCodec A.
Proof.
  refine {| pc_decode := decode_probe mk;
            pc_encode a out := Ok (out ++ to_be 8 (f a) ++ to_be 8 (g a));
            pc_wf a := u64_ok (f a) ∧ u64_ok (g a) |}.
  - intros a _. exists (to_be 8 (f a) ++ to_be 8 (g a)). split; [|done].
    apply bytes_ok_app. auto with slt.
  - intros a b [H1 H2] Hb. apply (inj Ok) in Hb as <-. cbn [app].
    unfold decode_probe, UPGRADE_PROBE_PAYLOAD_LEN, UPGRADE_ID_PAYLOAD_LEN. zl.
    change (Z.of_nat 8 + Z.of_nat 8) with 16. change (16 =? 16) with true. cbn [negb].
    rewrite !slice_ok by (zl; lia). res_simpl. fields. unfold try_array. rewrite !zlen_to_be.
    change (Z.of_nat 8 =? 8) with true. res_simpl.
    by rewrite !from_be_to_be8, Hmk by done.
  - intros a b Hb H. unfold decode_probe, UPGRADE_PROBE_PAYLOAD_LEN, UPGRADE_ID_PAYLOAD_LEN in H.
    destruct (Z.eqb_spec (zlen b) 16) as [E|]; [|done]. cbn [negb] in H. rewrite E in H.
    rewrite !slice_ok in H by lia. res_simpl in H. unfold try_array in H.
    rewrite !zlen_sub in H by lia. change (8 - 0 =? 8) with true in H.
    change (16 - 8 =? 8) with true in H. res_simpl in H. apply (inj Ok) in H as <-.
    rewrite Hf, Hg. cbn [app].
    destruct (be8_field b 0 8) as [? ->]; try done; try lia.
    destruct (be8_field b 8 16) as [? ->]; try done; try lia.
    split; [done|]. by rewrite <- sub_concat, sub_all by lia.
  - intros b Hb. unfold decode_probe, UPGRADE_PROBE_PAYLOAD_LEN, UPGRADE_ID_PAYLOAD_LEN.
    destruct (Z.eqb_spec (zlen b) 16) as [E|]; [|done]. cbn [negb]. no_panic.
Defined.

#[global] Instance UpgradeProbe_codec : PayloadCodec UpgradeProbePayload.
Proof. by refine (codec_probe mkProbe probe_upgrade_id probe_nonce _ _ _); [| |intros []]. Defined.
#[global] Instance UpgradeProbeAck_codec : PayloadCodec UpgradeProbeAckPayload.
Proof. by refine (codec_probe mkProbeAck ack_upgrade_id ack_nonce _ _ _); [| |intros []]. Defined.

(** ** The authentication payload *)
Lemma AuthPayload_decode_fields b :
  zlen b = 118 →
  AuthPayload_decode b =
    Ok (mkAuth (sub b 0 16) (sub b 16 20) (from_be (sub b 20 22)) (sub b 22 54) (sub b 54 118)).
Proof.
  intros L. unfold AuthPayload_decode, AUTH_PAYLOAD_LEN, AUTH_CHALLENGE_LEN, AUTH_SIGNATURE_LEN.
  rewrite L. change (118 =? _) with true. cbn [negb].
  rewrite !slice_ok, !index_ok by lia. res_simpl.
  rewrite !copy_array_ok by (rewrite zlen_sub by lia; lia). res_simpl.
  change (22 + 32) with 54. change (54 + 64) with 118.
  rewrite (sub_cons b 16 20), (sub_cons b (16 + 1)), (sub_cons b (16 + 1 + 1)),
    (sub_cons b (16 + 1 + 1 + 1)), (sub_cons b 20 22), (sub_cons b (20 + 1)) by lia.
  by rewrite !Z.add_1_r.
Qed.

Lemma AuthPayload_decode_len b :
  zlen b ≠ 118 → AuthPayload_decode b = Err (LengthMismatch AUTH_PAYLOAD_LEN (zlen b)).
Proof.
  intros L. unfold AuthPayload_decode. by destruct (Z.eqb_spec (zlen b) AUTH_PAYLOAD_LEN).
Qed.

#[global] Instance Auth_codec : PayloadCodec AuthPayload.
Proof.
  refine {| pc_decode := AuthPayload_decode; pc_encode p out := Ok (AuthPayload_encode p out);
            pc_wf p := array_ok 16 (auth_client_id p) ∧ array_ok 4 (auth_assigned_ipv4 p)
              ∧ u16_ok (auth_tun_mtu p) ∧ array_ok AUTH_CHALLENGE_LEN (auth_challenge p)
              ∧ array_ok AUTH_SIGNATURE_LEN (auth_signature p) |}.
  - intros [i a m c s] ([? ?] & [? ?] & ? & [? ?] & [? ?]). cbn [auth_client_id auth_assigned_ipv4 auth_challenge auth_signature] in *.
    eexists. split; [|done]. rewrite !bytes_ok_app. auto with slt.
  - intros [i a m c s] b ([Hi ?] & [Ha ?] & Hm & [Hc ?] & [Hs ?]) Hb. unfold AuthPayload_encode in Hb.
    cbn [auth_client_id auth_assigned_ipv4 auth_tun_mtu auth_challenge auth_signature app] in *.
    fold (zlen i) in Hi. fold (zlen a) in Ha. fold (zlen c) in Hc. fold (zlen s) in Hs.
    unfold AUTH_CHALLENGE_LEN, AUTH_SIGNATURE_LEN in *.
    apply (inj Ok) in Hb as <-. rewrite AuthPayload_decode_fields by (zl; lia).
    fields. by rewrite from_be_to_be2.
  - intros a b Hb H. destruct (Z.eqb_spec (zlen b) 118) as [L|L].
    2: by rewrite AuthPayload_decode_len in H.
    rewrite AuthPayload_decode_fields in H by done. apply (inj Ok) in H as <-.
    unfold AuthPayload_encode, array_ok. cbn [auth_client_id auth_assigned_ipv4 auth_tun_mtu auth_challenge auth_signature app].
    destruct (be2_field b 20 22) as [Hm ->]; try done; try lia. split.
    + repeat match goal with |- context [Z.of_nat (length ?l)] => fold (zlen l) end.
      rewrite !zlen_sub by lia. split_and!; auto with slt.
    + by rewrite <- !sub_concat, sub_all by lia.
  - intros b _. destruct (Z.eqb_spec (zlen b) 118) as [L|L]; [by rewrite AuthPayload_decode_fields|].
    by rewrite AuthPayload_decode_len.
Defined.

(** ** Registration payloads *)
Lemma cid_bytes_of_ok c : Cid_ok c → cid_bytes_of c = Ok (cid_slice c).
Proof. intros Hc. unfold cid_bytes_of. by rewrite Cid_as_slice_ok. Qed.

(** [Cid::new] on a slice that is the encoding of a CID. *)
Lemma Cid_new_slice c : Cid_ok c → Cid_new (cid_slice c) = Ok c.
Proof.
  intros Hc. destruct (Cid_new_ok (cid_slice c)) as (d & E & Hd & _ & Hs).
  - by apply bytes_ok_cid_slice.
  - rewrite zlen_cid_slice by done. apply Hc.
  - rewrite E. f_equal. by apply Cid_slice_inj.
Qed.

Lemma RegisterOkPayload_decode_inv b p :
  bytes_ok b → RegisterOkPayload_decode b = Ok p →
  Cid_ok (rok_client_to_server_cid p) ∧ cid_len (rok_client_to_server_cid p) = 20 ∧
  b = 20 :: cid_slice (rok_client_to_server_cid p).
Proof.
  intros Hb H. unfold RegisterOkPayload_decode, MAX_DCID_LEN in H.
  destruct b as [|n b]; [done|]. rewrite bool_decide_false in H by done.
  assert (zlen (n :: b) = 1 + zlen b) as L by apply zlen_cons. pose proof (zlen_nonneg b).
  rewrite index_ok in H by lia. res_simpl in H. rewrite nth_Z0 in H.
  destruct (Z.eqb_spec n 20) as [->|]; [|done]. cbn [negb] in H.
  destruct (Z.eqb_spec (zlen (20 :: b)) (1 + 20)) as [E|]; [|done]. cbn [negb] in H.
  rewrite slice_ok in H by lia. res_simpl in H.
  inversion Hb as [|? ? _ Hb']; subst.
  replace (sub (20 :: b) 1 (1 + 20)) with b in H.
  2: { change (20 :: b) with ([20] ++ b). by rewrite sub_app_r, sub_all by (zl; lia). }
  destruct (Cid_new_ok b Hb') as (c & Ec & Hc & Hcl & Hs); [unfold MAX_DCID_LEN; lia|].
  rewrite Ec in H. res_simpl in H. apply (inj Ok) in H as <-. cbn [rok_client_to_server_cid].
  split_and!; [done|lia|by rewrite Hs].
Qed.

#[global] Instance RegisterOk_codec : PayloadCodec RegisterOkPayload.
Proof.
  refine {| pc_decode := RegisterOkPayload_decode; pc_encode := RegisterOkPayload_encode;
            pc_wf p := Cid_ok (rok_client_to_server_cid p)
                       ∧ cid_len (rok_client_to_server_cid p) = MAX_DCID_LEN |}.
  - intros [c] [Hc Hl]. cbn [rok_client_to_server_cid] in *. exists ([cid_len c] ++ cid_slice c). split.
    + apply bytes_ok_app. split; [|by apply bytes_ok_cid_slice]. rewrite Hl. by apply Forall_singleton.
    + intros out. unfold RegisterOkPayload_encode. cbn [rok_client_to_server_cid].
      rewrite (proj2 (Z.eqb_eq _ _) Hl). cbn [negb]. by rewrite cid_bytes_of_ok.
  - intros [c] b [Hc Hl] Hb. cbn [rok_client_to_server_cid] in *.
    unfold RegisterOkPayload_encode in Hb. cbn [rok_client_to_server_cid] in Hb.
    rewrite (proj2 (Z.eqb_eq _ _) Hl), cid_bytes_of_ok in Hb by done. res_simpl in Hb. cbn [negb] in Hb.
    apply (inj Ok) in Hb as <-. pose proof (zlen_cid_slice _ Hc) as L. unfold MAX_DCID_LEN in *.
    unfold RegisterOkPayload_decode, MAX_DCID_LEN. cbn [app]. rewrite bool_decide_false by done.
    rewrite index_ok by (zl; lia). res_simpl. rewrite nth_Z0, Hl, Z.eqb_refl. cbn [negb]. zl.
    rewrite L, Hl, Z.eqb_refl. cbn [negb]. rewrite slice_ok by (zl; lia). res_simpl.
    change (20 :: cid_slice c) with ([20] ++ cid_slice c). fields.
    by rewrite Cid_new_slice.
  - intros p b Hb H. apply RegisterOkPayload_decode_inv in H as (Hc & Hl & ->); [|done].
    split; [done|]. unfold RegisterOkPayload_encode. rewrite cid_bytes_of_ok by done.
    unfold MAX_DCID_LEN. rewrite Hl, Z.eqb_refl. done.
  - intros b Hb. unfold RegisterOkPayload_decode.
    destruct b as [|n b]; [done|]. rewrite bool_decide_false by done.
    pose proof (zlen_nonneg b). zl. unfold MAX_DCID_LEN.
    rewrite index_ok by (zl; lia). res_simpl. rewrite nth_Z0.
    destruct (Z.eqb_spec n 20) as [->|]; [|done]. cbn [negb].
    no_panic. all: try (zl; lia). unfold Cid_new. by repeat case_match.
Defined.

Definition RegisterCid_wf (p : RegisterCidPayload) : Prop :=
  Cid_ok (reg_client_to_server_cid p) ∧ cid_len (reg_client_to_server_cid p) = MAX_DCID_LEN ∧
  Cid_ok (reg_server_to_client_cid p) ∧
  array_ok UDP_QSP_TRAFFIC_SECRET_LEN (reg_secret_tx p) ∧
  array_ok UDP_QSP_TRAFFIC_SECRET_LEN (reg_secret_rx p) ∧
  u64_ok (reg_pn_start p) ∧ u64_ok (reg_pn_start_rx p).

(** The encoding of a well-formed registration. *)
Definition register_wire (p : RegisterCidPayload) : bytes :=
  [20] ++ cid_slice (reg_client_to_server_cid p)
       ++ [cid_len (reg_server_to_client_cid p)] ++ cid_slice (reg_server_to_client_cid p)
       ++ [to_u8 (reg_cipher p)] ++ reg_secret_tx p ++ reg_secret_rx p
       ++ to_be 8 (reg_pn_start p) ++ to_be 8 (reg_pn_start_rx p)
       ++ [if reg_key_phase p then 1 else 0].

Lemma RegisterCid_encode_wire p out :
  RegisterCid_wf p → RegisterCidPayload_encode p out = Ok (out ++ register_wire p).
Proof.
  intros (Hc & Hl & Hd & _). unfold RegisterCidPayload_encode, register_wire.
  rewrite Hl, !cid_bytes_of_ok by done. unfold MAX_DCID_LEN. rewrite Z.eqb_refl. done.
Qed.

Lemma register_wire_bytes p : RegisterCid_wf p → bytes_ok (register_wire p).
Proof.
  intros (Hc & Hl & Hd & [_ Ht] & [_ Hr] & _). unfold register_wire. rewrite !bytes_ok_app.
  assert (cid_len (reg_server_to_client_cid p) ≤ 20 ∧ 0 ≤ cid_len (reg_server_to_client_cid p))
    by (destruct Hd as [Hd _]; unfold MAX_DCID_LEN in Hd; lia).
  split_and!; auto using bytes_ok_cid_slice with slt;
    apply Forall_singleton; try apply to_u8_ok; unfold u8_ok; try lia.
  destruct (reg_key_phase p); lia.
Qed.

(** The fields of an accepted registration, by position. *)
Lemma read_secret_ok b o :
  0 ≤ o → o + 32 ≤ zlen b → read_secret b o = Ok (sub b o (o + 32), o + 32).
Proof.
  intros. unfold read_secret, UDP_QSP_TRAFFIC_SECRET_LEN. rewrite slice_ok by lia. res_simpl.
  by rewrite copy_array_ok by (rewrite zlen_sub; lia).
Qed.
Lemma read_u64_ok b o :
  0 ≤ o → o + 8 ≤ zlen b → read_u64 b o = Ok (from_be (sub b o (o + 8)), o + 8).
Proof.
  intros. unfold read_u64. rewrite slice_ok by lia. res_simpl.
  by rewrite copy_array_ok by (rewrite zlen_sub; lia).
Qed.

(** The checks a buffer has to pass before its fields are read: the two CID
    lengths, the cipher byte and the total length. *)
Definition register_shape (b : bytes) (n : Z) (k : CipherSuite) (c d : Cid) : Prop :=
  zlen b = 104 + n ∧ 0 ≤ n ≤ 20 ∧ nth 0 b 0 = 20 ∧ nth 21 b 0 = n ∧
  try_from_u8 (nth (Z.to_nat (22 + n)) b 0) = Some k ∧
  Cid_new (sub b 1 21) = Ok c ∧ Cid_new (sub b 22 (22 + n)) = Ok d.

Lemma RegisterCid_decode_fields b n k c d :
  register_shape b n k c d →
  RegisterCidPayload_decode b =
    (key_phase ← (let kp := nth (Z.to_nat (103 + n)) b 0 in
       if kp =? 0 then Ok false else if kp =? 1 then Ok true else Err (InvalidKeyPhase kp));
     Ok (mkRegister c d k (sub b (23 + n) (55 + n)) (sub b (55 + n) (87 + n))
           (from_be (sub b (87 + n) (95 + n))) (from_be (sub b (95 + n) (103 + n))) key_phase)).
Proof.
  intros (L & Hn & H0 & H21 & Hk & Hc & Hd). unfold RegisterCidPayload_decode.
  rewrite bool_decide_false by (intros ->; change (zlen []) with 0 in L; lia).
  rewrite index_ok by lia. res_simpl. change (nth (Z.to_nat 0) b 0) with (nth 0 b 0). rewrite H0.
  unfold MAX_DCID_LEN. rewrite Z.eqb_refl. cbn [negb].
  destruct (Z.ltb_spec (zlen b) (1 + 20 + 1)); [lia|].
  rewrite index_ok by lia. res_simpl. change (nth (Z.to_nat (1 + 20)) b 0) with (nth 21 b 0).
  rewrite H21, Z.gtb_ltb. destruct (Z.ltb_spec 20 n); [lia|].
  destruct (Z.ltb_spec (zlen b) (1 + 20 + 1 + n + 1)); [lia|].
  rewrite index_ok by lia. res_simpl. change (1 + 20 + 1 + n) with (22 + n). rewrite Hk. res_simpl.
  unfold encoded_len_for, UDP_QSP_TRAFFIC_SECRET_LEN.
  destruct (Z.eqb_spec (zlen b) (1 + 20 + 1 + n + 1 + 32 * 2 + 8 + 8 + 1)); [|lia]. cbn [negb].
  change (1 + 20) with 21. change (21 + 1) with 22.
  rewrite (slice_ok b 1 21) by lia. res_simpl. rewrite Hc. res_simpl.
  rewrite (slice_ok b 22) by lia. res_simpl. rewrite Hd. res_simpl.
  do 2 (rewrite read_secret_ok by lia; res_simpl).
  do 2 (rewrite read_u64_ok by lia; res_simpl). rewrite index_ok by lia. res_simpl.
  replace (22 + n + 1) with (23 + n) by lia. replace (23 + n + 32) with (55 + n) by lia.
  replace (55 + n + 32) with (87 + n) by lia. replace (87 + n + 8) with (95 + n) by lia.
  by replace (95 + n + 8) with (103 + n) by lia.
Qed.

Lemma RegisterCid_decode_cases b :
  bytes_ok b →
  (∃ e, RegisterCidPayload_decode b = Err e) ∨ ∃ n k c d, register_shape b n k c d.
Proof.
  intros Hb. unfold RegisterCidPayload_decode, MAX_DCID_LEN.
  destruct b as [|b0 b']; [left; eexists; done|]. rewrite bool_decide_false by done.
  pose proof (zlen_nonneg b') as P. assert (zlen (b0 :: b') = 1 + zlen b') as L by apply zlen_cons.
  revert L Hb. generalize (b0 :: b') as b. intros b L Hb.
  rewrite index_ok by lia. res_simpl. destruct (Z.eqb_spec (nth (Z.to_nat 0) b 0) 20) as [E0|];
    cbn [negb]; [rewrite E0|by eauto].
  destruct (Z.ltb_spec (zlen b) (1 + 20 + 1)); [by eauto|].
  rewrite index_ok by lia. res_simpl. pose proof (bytes_ok_nth b (Z.to_nat (1 + 20)) Hb) as Hn.
  remember (nth (Z.to_nat (1 + 20)) b 0) as n eqn:E21. unfold u8_ok in Hn. rewrite Z.gtb_ltb.
  destruct (Z.ltb_spec 20 n); [by eauto|].
  destruct (Z.ltb_spec (zlen b) (1 + 20 + 1 + n + 1)); [by eauto|].
  rewrite index_ok by lia. res_simpl.
  destruct (try_from_u8 (nth (Z.to_nat (1 + 20 + 1 + n)) b 0)) as [k|] eqn:Ek; res_simpl; [|by eauto].
  unfold encoded_len_for, UDP_QSP_TRAFFIC_SECRET_LEN.
  destruct (Z.eqb_spec (zlen b) (1 + 20 + 1 + n + 1 + 32 * 2 + 8 + 8 + 1)) as [E|];
    cbn [negb]; [|by eauto]. right.
  destruct (Cid_new_ok (sub b 1 21)) as (c & Hc & _);
    [auto with slt|rewrite zlen_sub by lia; unfold MAX_DCID_LEN; lia|].
  destruct (Cid_new_ok (sub b 22 (22 + n))) as (d & Hd & _);
    [auto with slt|rewrite zlen_sub by lia; unfold MAX_DCID_LEN; lia|].
  exists n, k, c, d. unfold register_shape. split_and!; done || lia.
Qed.

(** The encoding of a well-formed registration has the shape that is read. *)
Lemma register_wire_shape p :
  RegisterCid_wf p →
  register_shape (register_wire p) (cid_len (reg_server_to_client_cid p)) (reg_cipher p)
    (reg_client_to_server_cid p) (reg_server_to_client_cid p).
Proof.
  intros (Hc & Hl & Hd & [Lt Ht] & [Lr Hr] & _). unfold MAX_DCID_LEN, UDP_QSP_TRAFFIC_SECRET_LEN in *.
  pose proof (zlen_cid_slice _ Hc) as Lc. pose proof (zlen_cid_slice _ Hd) as Ld. rewrite Hl in Lc.
  pose proof Hd as [Rd _]. unfold MAX_DCID_LEN in Rd.
  fold (zlen (reg_secret_tx p)) in Lt. fold (zlen (reg_secret_rx p)) in Lr.
  unfold register_shape, register_wire. split_and!; try lia.
  - zl. lia.
  - done.
  - change 21%nat with (Z.to_nat 21). rewrite !nth_app_zlen by (zl; lia). zl. rewrite Lc. done.
  - rewrite !nth_app_zlen by (zl; lia). zl. rewrite Lc, Ld.
    replace (22 + _ - _ - 20 - _ - _) with 0 by lia. apply try_from_to_u8.
  - fields. by apply Cid_new_slice.
  - fields. by apply Cid_new_slice.
Qed.

Lemma RegisterCid_decode_wire p :
  RegisterCid_wf p → RegisterCidPayload_decode (register_wire p) = Ok p.
Proof.
  intros Hw. rewrite (RegisterCid_decode_fields _ _ _ _ _ (register_wire_shape p Hw)).
  destruct Hw as (Hc & Hl & Hd & [Lt Ht] & [Lr Hr] & Hp & Hq).
  unfold MAX_DCID_LEN, UDP_QSP_TRAFFIC_SECRET_LEN in *.
  pose proof (zlen_cid_slice _ Hc) as Lc. pose proof (zlen_cid_slice _ Hd) as Ld. rewrite Hl in Lc.
  pose proof Hd as [Rd _]. unfold MAX_DCID_LEN in Rd.
  fold (zlen (reg_secret_tx p)) in Lt. fold (zlen (reg_secret_rx p)) in Lr.
  unfold register_wire. rewrite !nth_app_zlen by (zl; lia). zl. rewrite Lc, Ld, Lt, Lr.
  replace (103 + _ - _ - _ - _ - _ - _ - _ - _ - _ - _) with 0 by lia.
  fields. rewrite !from_be_to_be8 by done. rewrite nth_Z0.
  destruct p as [? ? ? ? ? ? ? []]; done.
Qed.

(** A buffer of the right length is the concatenation of its fields. *)
Lemma register_concat b n :
  zlen b = 104 + n → 0 ≤ n →
  b = [nth 0 b 0] ++ sub b 1 21 ++ [nth 21 b 0] ++ sub b 22 (22 + n)
      ++ [nth (Z.to_nat (22 + n)) b 0] ++ sub b (23 + n) (55 + n) ++ sub b (55 + n) (87 + n)
      ++ sub b (87 + n) (95 + n) ++ sub b (95 + n) (103 + n) ++ [nth (Z.to_nat (103 + n)) b 0].
Proof.
  intros L Hn. rewrite <- (sub_all b 0 (104 + n)) at 1 by lia. cbn [app].
  rewrite (sub_cons b 0) by lia. f_equal. rewrite (sub_concat b (0 + 1) 21) by lia. f_equal.
  rewrite (sub_cons b 21) by lia. f_equal.
  rewrite (sub_concat b (21 + 1) (22 + n)) by lia. f_equal.
  rewrite (sub_cons b (22 + n)) by lia. f_equal.
  rewrite (sub_concat b _ (55 + n)) by lia. f_equal; [f_equal; lia|].
  rewrite (sub_concat b _ (87 + n)), (sub_concat b (87 + n) (95 + n)),
    (sub_concat b (95 + n) (103 + n)) by lia. do 3 f_equal.
  rewrite (sub_cons b (103 + n)) by lia. f_equal.
  replace (103 + n + 1) with (104 + n) by lia. apply sub_nil.
Qed.

Lemma RegisterCid_decode_inv b p :
  bytes_ok b → RegisterCidPayload_decode b = Ok p → RegisterCid_wf p ∧ b = register_wire p.
Proof.
  intros Hb H. destruct (RegisterCid_decode_cases b Hb) as [[e E]|(n & k & c & d & S)]; [congruence|].
  rewrite (RegisterCid_decode_fields _ _ _ _ _ S) in H. apply bind_ok in H as (kp & Hkp & H).
  apply (inj Ok) in H as <-. destruct S as (L & Rn & H0 & H21 & Hk & Hc & Hd).
  destruct (Cid_new_ok (sub b 1 21)) as (c' & Ec & Hc' & Lc & Sc);
    [auto with slt|by apply Cid_new_inv in Hc|].
  destruct (Cid_new_ok (sub b 22 (22 + n))) as (d' & Ed & Hd' & Ld & Sd);
    [auto with slt|by apply Cid_new_inv in Hd|].
  rewrite Ec in Hc. apply (inj Ok) in Hc as ->. rewrite Ed in Hd. apply (inj Ok) in Hd as ->.
  rewrite zlen_sub in Lc, Ld by lia.
  destruct (be8_field b (87 + n) (95 + n)) as [Bp Ep]; try done; try lia.
  destruct (be8_field b (95 + n) (103 + n)) as [Bq Eq]; try done; try lia. split.
  - unfold RegisterCid_wf, MAX_DCID_LEN, UDP_QSP_TRAFFIC_SECRET_LEN, array_ok. cbn.
    repeat match goal with |- context [Z.of_nat (length ?l)] => fold (zlen l) end.
    rewrite !zlen_sub by lia. split_and!; auto with slt; lia.
  - unfold register_wire. cbn. rewrite Sc, Sd, Ep, Eq, (to_u8_try_from _ _ Hk).
    replace (cid_len d) with n by lia.
    assert ((if kp then 1 else 0) = nth (Z.to_nat (103 + n)) b 0) as ->.
    { cbv zeta in Hkp. split_tests_in Hkp; by simplify_eq. }
    rewrite (register_concat b n) at 1 by lia. by rewrite H0, H21.
Qed.

#[global] Instance RegisterCid_codec : PayloadCodec RegisterCidPayload.
Proof.
  refine {| pc_decode := RegisterCidPayload_decode; pc_encode := RegisterCidPayload_encode;
            pc_wf := RegisterCid_wf |}.
  - intros p Hp. exists (register_wire p). split; [by apply register_wire_bytes|].
    intros out. by apply RegisterCid_encode_wire.
  - intros p b Hp Hb. rewrite RegisterCid_encode_wire in Hb by done. apply (inj Ok) in Hb as <-.
    by apply RegisterCid_decode_wire.
  - intros p b Hb H. apply RegisterCid_decode_inv in H as [Hp ->]; [|done].
    split; [done|]. by apply RegisterCid_encode_wire.
  - intros b Hb. destruct (RegisterCid_decode_cases b Hb) as [[e ->]|(n & k & c & d & S)]; [done|].
    rewrite (RegisterCid_decode_fields _ _ _ _ _ S). no_panic. all: simpl; by repeat case_match.
Defined.

(** ** Theorems *)

(** A decoder and an encoder of a payload type are exact for the well-formed
    values [wf]: a byte string decodes to a value exactly when it is the
    encoding of that value, which is then well-formed; no input panics. *)
Definition exact {A} (dec : bytes → res PayloadError A) (enc : A → bytes → res PayloadError bytes) (wf : A → Prop) : Prop :=
  ∀ b, bytes_ok b → dec b ≠ Panic ∧ ∀ a, dec b = Ok a ↔ wf a ∧ enc a [] = Ok b.

Lemma codec_exact A (C : PayloadCodec A) : exact pc_decode pc_encode pc_wf.
Proof.
  intros b Hb. split; [by apply pc_no_panic|]. intros a. split; [by apply pc_canonical|].
  intros [Hw He]. by apply pc_roundtrip.
Qed.

(** C40: The payload formats are exact, the sixteen with a fixed layout and
    REGISTER_CID with its two connection IDs of variable length: decoding
    inverts encoding on all field values of the right width, accepts nothing
    that is not such an encoding, and does not panic on any input. *)
Theorem payloads_exact :
  exact RegisterCidPayload_decode RegisterCidPayload_encode RegisterCid_wf ∧
  exact AuthPayload_decode (λ p out, Ok (AuthPayload_encode p out))
    (λ p, array_ok 16 (auth_client_id p) ∧ array_ok 4 (auth_assigned_ipv4 p) ∧ u16_ok (auth_tun_mtu p) ∧
          array_ok AUTH_CHALLENGE_LEN (auth_challenge p) ∧ array_ok AUTH_SIGNATURE_LEN (auth_signature p)) ∧
  exact AuthOkPayload_decode (λ p out, Ok (AuthOkPayload_encode p out)) (λ _, True) ∧
  exact AuthFailPayload_decode (λ p out, Ok (AuthFailPayload_encode p out)) (λ _, True) ∧
  exact RegisterOkPayload_decode RegisterOkPayload_encode
    (λ p, Cid_ok (rok_client_to_server_cid p) ∧ cid_len (rok_client_to_server_cid p) = MAX_DCID_LEN) ∧
  exact RegisterFailPayload_decode (λ p out, Ok (RegisterFailPayload_encode p out)) (λ _, True) ∧
  exact ClosePayload_decode (λ p out, Ok (ClosePayload_encode p out)) (λ _, True) ∧
  exact PingPayload_decode (λ p out, Ok (PingPayload_encode p out)) (λ p, u64_ok (ping_nonce p)) ∧
  exact PongPayload_decode (λ p out, Ok (PongPayload_encode p out)) (λ p, u64_ok (pong_nonce p)) ∧
  exact FallbackToTcpPayload_decode (λ p out, Ok (FallbackToTcpPayload_encode p out)) (λ p, u64_ok (ftt_fallback_id p)) ∧
  exact FallbackOkPayload_decode (λ p out, Ok (FallbackOkPayload_encode p out)) (λ p, u64_ok (fok_fallback_id p)) ∧
  exact UdpReadyPayload_decode (λ p out, Ok (UdpReadyPayload_encode p out)) (λ p, u64_ok (ready_upgrade_id p)) ∧
  exact SwitchToUdpPayload_decode (λ p out, Ok (SwitchToUdpPayload_encode p out)) (λ p, u64_ok (switch_upgrade_id p)) ∧
  exact SwitchAckPayload_decode (λ p out, Ok (SwitchAckPayload_encode p out)) (λ p, u64_ok (switch_ack_upgrade_id p)) ∧
  exact SwitchOkPayload_decode (λ p out, Ok (SwitchOkPayload_encode p out)) (λ p, u64_ok (switch_ok_upgrade_id p)) ∧
  exact UpgradeProbePayload_decode (λ p out, Ok (UpgradeProbePayload_encode p out))
    (λ p, u64_ok (probe_upgrade_id p) ∧ u64_ok (probe_nonce p)) ∧
  exact UpgradeProbeAckPayload_decode (λ p out, Ok (UpgradeProbeAckPayload_encode p out))
    (λ p, u64_ok (ack_upgrade_id p) ∧ u64_ok (ack_nonce p)).
Proof.
  split_and!.
  - apply (codec_exact _ RegisterCid_codec).
  - apply (codec_exact _ Auth_codec).
  - apply (codec_exact _ AuthOk_codec).
  - apply (codec_exact _ AuthFail_codec).
  - apply (codec_exact _ RegisterOk_codec).
  - apply (codec_exact _ RegisterFail_codec).
  - apply (codec_exact _ Close_codec).
  - apply (codec_exact _ Ping_codec).
  - apply (codec_exact _ Pong_codec).
  - apply (codec_exact _ FallbackToTcp_codec).
  - apply (codec_exact _ FallbackOk_codec).
  - apply (codec_exact _ UdpReady_codec).
  - apply (codec_exact _ SwitchToUdp_codec).
  - apply (codec_exact _ SwitchAck_codec).
  - apply (codec_exact _ SwitchOk_codec).
  - apply (codec_exact _ UpgradeProbe_codec).
  - apply (codec_exact _ UpgradeProbeAck_codec).
Qed.

(** The REGISTER_CID payload, with its two connection IDs of variable
    length, is exact too: a byte string decodes to a registration exactly when
    it is the encoding of that registration, the first CID has 20 bytes, the
    second at most 20, and the secrets and packet numbers have their width.
    No input panics, and encoding such a registration does not fail. *)
Theorem register_cid_exact b p :
  bytes_ok b →
  RegisterCidPayload_decode b ≠ Panic ∧
  (RegisterCidPayload_decode b = Ok p ↔ RegisterCid_wf p ∧ RegisterCidPayload_encode p [] = Ok b) ∧
  (RegisterCid_wf p → ∀ out, ∃ wire, RegisterCidPayload_encode p out = Ok (out ++ wire) ∧
     zlen wire = RegisterCidPayload_encoded_len p ∧ zlen wire ≤ MAX_CONTROL_FRAME_LEN).
Proof.
  intros Hb. split_and!.
  - by apply (codec_exact _ RegisterCid_codec).
  - by apply (codec_exact _ RegisterCid_codec).
  - intros Hp out. exists (register_wire p). split; [by apply RegisterCid_encode_wire|].
    destruct (register_wire_shape p Hp) as (L & Hn & _). rewrite L.
    destruct Hp as (_ & Hl & _). unfold RegisterCidPayload_encoded_len, encoded_len_for.
    rewrite Hl. change MAX_CONTROL_FRAME_LEN with 124. change MAX_DCID_LEN with 20.
    change UDP_QSP_TRAFFIC_SECRET_LEN with 32. lia.
Qed.

