(* ===== verification/Admissibility.v ===== *)
(** * Admissibility of messages ([slt-core/src/proto/admissibility.rs])

    The checks both endpoints run on every inbound message before a handler
    sees it: direction, authentication phase, transport, and the layout of
    the fixed-size payloads.  The main theorem characterises the accepted
    messages: the three tables allow the type, and the payload is the
    canonical encoding of a well-formed value of the type's payload. *)

From stdpp Require Import base tactics option list numbers.
From Stdlib Require Import ZArith Lia.
From S2P Require Import Prelude Cid Framing Payloads.

Inductive MessageSender := SClient | SServer.
Inductive ProtocolPhase := Authentication | Established.
Inductive MessageTransport := Tcp | UdpQsp.

#[global] Instance MessageSender_eq_dec : EqDecision MessageSender.
Proof. solve_decision. Defined.
#[global] Instance ProtocolPhase_eq_dec : EqDecision ProtocolPhase.
Proof. solve_decision. Defined.
#[global] Instance MessageTransport_eq_dec : EqDecision MessageTransport.
Proof. solve_decision. Defined.

Record MessageContext := mkContext {
  ctx_sender : MessageSender;
  ctx_phase : ProtocolPhase;
  ctx_transport : MessageTransport;
}.

Inductive MessageValidationError :=
  | InvalidDirection (t : MessageType) (sender : MessageSender)
  | InvalidPhase (t : MessageType) (phase : ProtocolPhase)
  | InvalidTransport (t : MessageType) (transport : MessageTransport)
  | InvalidPayload (t : MessageType) (source : PayloadError).

#[global] Instance MessageValidationError_eq_dec : EqDecision MessageValidationError.
Proof. solve_decision. Defined.

Definition MessageValidationError_message_type (e : MessageValidationError) : MessageType :=
  match e with
  | InvalidDirection t _ | InvalidPhase t _ | InvalidTransport t _ | InvalidPayload t _ => t
  end.

Definition is_valid_direction (t : MessageType) (sender : MessageSender) : bool :=
  match sender with
  | SClient =>
      match t with
      | TAuth | TRegisterCid | TPing | TPong | TClose | TData | TUpgradeProbe | TUdpReady
      | TSwitchAck | TFallbackToTcp | TFallbackOk => true
      | _ => false
      end
  | SServer =>
      match t with
      | TAuthOk | TAuthFail | TRegisterOk | TRegisterFail | TPing | TPong | TClose | TData
      | TUpgradeProbeAck | TSwitchToUdp | TFallbackToTcp | TFallbackOk | TSwitchOk => true
      | _ => false
      end
  end.

Definition is_valid_phase (t : MessageType) (phase : ProtocolPhase) : bool :=
  match phase with
  | Authentication =>
      match t with TAuth | TAuthOk | TAuthFail | TPing | TPong | TClose => true | _ => false end
  | Established =>
      negb (match t with TAuth | TAuthOk | TAuthFail => true | _ => false end)
  end.

Definition is_valid_transport (t : MessageType) (transport : MessageTransport) : bool :=
  match transport with
  | Tcp => negb (match t with TUpgradeProbe | TUpgradeProbeAck => true | _ => false end)
  | UdpQsp =>
      match t with
      | TPing | TPong | TClose | TData | TUpgradeProbe | TUpgradeProbeAck => true
      | _ => false
      end
  end.

Definition validate_message_type (t : MessageType) (c : MessageContext)
    : res MessageValidationError unit :=
  if negb (is_valid_direction t (ctx_sender c)) then Err (InvalidDirection t (ctx_sender c)) else
  if negb (is_valid_phase t (ctx_phase c)) then Err (InvalidPhase t (ctx_phase c)) else
  if negb (is_valid_transport t (ctx_transport c)) then Err (InvalidTransport t (ctx_transport c))
  else Ok tt.

(** [.map(|_| ())] *)
Definition forget {E A} (m : res E A) : res E unit := map_ok (λ _, tt) m.

Definition validate_fixed_payload (m : Message) : res MessageValidationError unit :=
  let t := Message_ty m in
  let wrap := map_err (InvalidPayload t) in
  match m with
  | MAuth p => wrap (forget (AuthPayload_decode p))
  | MAuthOk p => wrap (forget (AuthOkPayload_decode p))
  | MAuthFail p => wrap (forget (AuthFailPayload_decode p))
  | MRegisterCid _ | MData _ => Ok tt
  | MRegisterOk p => wrap (forget (RegisterOkPayload_decode p))
  | MRegisterFail p => wrap (forget (RegisterFailPayload_decode p))
  | MPing p => wrap (forget (PingPayload_decode p))
  | MPong p => wrap (forget (PongPayload_decode p))
  | MClose p => wrap (forget (ClosePayload_decode p))
  | MUpgradeProbe p => wrap (forget (UpgradeProbePayload_decode p))
  | MUpgradeProbeAck p => wrap (forget (UpgradeProbeAckPayload_decode p))
  | MUdpReady p => wrap (forget (UdpReadyPayload_decode p))
  | MSwitchToUdp p => wrap (forget (SwitchToUdpPayload_decode p))
  | MSwitchAck p => wrap (forget (SwitchAckPayload_decode p))
  | MFallbackToTcp p => wrap (forget (FallbackToTcpPayload_decode p))
  | MFallbackOk p => wrap (forget (FallbackOkPayload_decode p))
  | MSwitchOk p => wrap (forget (SwitchOkPayload_decode p))
  end.

Definition validate_message (m : Message) (c : MessageContext) : res MessageValidationError unit :=
  _ ← validate_message_type (Message_ty m) c;
  validate_fixed_payload m.

(** ** What is accepted *)

(** [p] is the encoding of a well-formed value of payload type [A]. *)
Definition encodes (A : Type) `{PayloadCodec A} (p : bytes) : Prop :=
  ∃ a : A, pc_wf a ∧ pc_encode a [] = Ok p.

(** The payloads the protocol defines, by message type; [REGISTER_CID] and
    [DATA] are left to their handlers. *)
Definition canonical_payload (m : Message) : Prop :=
  match m with
  | MAuth p => encodes AuthPayload p
  | MAuthOk p => encodes AuthOkPayload p
  | MAuthFail p => encodes AuthFailPayload p
  | MRegisterCid _ | MData _ => True
  | MRegisterOk p => encodes RegisterOkPayload p
  | MRegisterFail p => encodes RegisterFailPayload p
  | MPing p => encodes PingPayload p
  | MPong p => encodes PongPayload p
  | MClose p => encodes ClosePayload p
  | MUpgradeProbe p => encodes UpgradeProbePayload p
  | MUpgradeProbeAck p => encodes UpgradeProbeAckPayload p
  | MUdpReady p => encodes UdpReadyPayload p
  | MSwitchToUdp p => encodes SwitchToUdpPayload p
  | MSwitchAck p => encodes SwitchAckPayload p
  | MFallbackToTcp p => encodes FallbackToTcpPayload p
  | MFallbackOk p => encodes FallbackOkPayload p
  | MSwitchOk p => encodes SwitchOkPayload p
  end.

(** The types the context admits. *)
Definition admissible (t : MessageType) (c : MessageContext) : Prop :=
  is_valid_direction t (ctx_sender c) = true ∧ is_valid_phase t (ctx_phase c) = true ∧
  is_valid_transport t (ctx_transport c) = true.

Lemma validate_message_type_ok t c : validate_message_type t c = Ok tt ↔ admissible t c.
Proof.
  unfold validate_message_type, admissible.
  destruct (is_valid_direction _ _), (is_valid_phase _ _), (is_valid_transport _ _); naive_solver.
Qed.

Lemma decode_encodes (A : Type) `{PayloadCodec A} p (f : PayloadError → MessageValidationError) :
  bytes_ok p → map_err f (forget (pc_decode (A := A) p)) = Ok tt ↔ encodes A p.
Proof.
  intros Hp. unfold encodes, forget. rewrite map_err_ok. split.
  - intros E. destruct (pc_decode p) as [a| |] eqn:Ea; try done.
    exists a. by apply pc_canonical.
  - intros (a & Hw & He). by rewrite (pc_roundtrip a p Hw He).
Qed.

Lemma encodes_decodes (A : Type) `{PayloadCodec A} p : encodes A p → ∃ a, pc_decode p = Ok a ∧ pc_wf a ∧ pc_encode a [] = Ok p.
Proof. intros (a & Hw & He). exists a. by rewrite (pc_roundtrip a p Hw He). Qed.

Lemma validate_fixed_payload_ok m :
  bytes_ok (Message_payload m) → validate_fixed_payload m = Ok tt ↔ canonical_payload m.
Proof.
  intros Hm. destruct m; cbn [Message_payload] in Hm; try done;
    cbn [validate_fixed_payload canonical_payload];
    match goal with |- _ ↔ encodes ?A ?p => exact (decode_encodes A p _ Hm) end.
Qed.

Lemma validate_fixed_payload_no_panic m :
  bytes_ok (Message_payload m) → validate_fixed_payload m ≠ Panic.
Proof.
  intros Hm. destruct m; cbn [Message_payload] in Hm; try done; cbn [validate_fixed_payload];
    apply map_err_not_panic, map_ok_not_panic;
    first [ exact (pc_no_panic (A := AuthPayload) _ Hm)
          | exact (pc_no_panic (A := AuthOkPayload) _ Hm)
          | exact (pc_no_panic (A := AuthFailPayload) _ Hm)
          | exact (pc_no_panic (A := RegisterOkPayload) _ Hm)
          | exact (pc_no_panic (A := RegisterFailPayload) _ Hm)
          | exact (pc_no_panic (A := PingPayload) _ Hm)
          | exact (pc_no_panic (A := PongPayload) _ Hm)
          | exact (pc_no_panic (A := ClosePayload) _ Hm)
          | exact (pc_no_panic (A := UpgradeProbePayload) _ Hm)
          | exact (pc_no_panic (A := UpgradeProbeAckPayload) _ Hm)
          | exact (pc_no_panic (A := UdpReadyPayload) _ Hm)
          | exact (pc_no_panic (A := SwitchToUdpPayload) _ Hm)
          | exact (pc_no_panic (A := SwitchAckPayload) _ Hm)
          | exact (pc_no_panic (A := FallbackToTcpPayload) _ Hm)
          | exact (pc_no_panic (A := FallbackOkPayload) _ Hm)
          | exact (pc_no_panic (A := SwitchOkPayload) _ Hm) ].
Qed.

Lemma validate_message_ok m c :
  bytes_ok (Message_payload m) →
  validate_message m c = Ok tt ↔ admissible (Message_ty m) c ∧ canonical_payload m.
Proof.
  intros Hm. unfold validate_message. rewrite bind_ok, <- validate_message_type_ok.
  rewrite <- validate_fixed_payload_ok by done. split.
  - intros ([] & ? & ?). done.
  - intros [? ?]. by exists tt.
Qed.

Lemma validate_message_no_panic m c :
  bytes_ok (Message_payload m) → validate_message m c ≠ Panic.
Proof.
  intros Hm. unfold validate_message. apply bind_not_panic.
  - unfold validate_message_type. no_panic.
  - intros [] _. by apply validate_fixed_payload_no_panic.
Qed.

Lemma validate_fixed_payload_err m e :
  validate_fixed_payload m = Err e → ∃ source, e = InvalidPayload (Message_ty m) source.
Proof.
  assert (∀ t (r : res PayloadError unit), map_err (InvalidPayload t) r = Err e →
            ∃ source, e = InvalidPayload t source) as Hw.
  { intros t r H. destruct r; simpl in H; simplify_eq. by eexists. }
  destruct m; cbn [validate_fixed_payload Message_ty]; intros H; try done; by apply Hw in H.
Qed.

(** ** Theorems *)

(** [validate_message] is decided by the protocol's tables: it never
    panics, it accepts a message exactly when the sender may send its type in
    this phase over this transport and the payload is the encoding of a value
    of the type's payload, and otherwise the error names the type of the
    message and the first check that failed. *)
Theorem validate_message_spec m c :
  bytes_ok (Message_payload m) →
  match validate_message m c with
  | Ok _ => admissible (Message_ty m) c ∧ canonical_payload m
  | Err e =>
      MessageValidationError_message_type e = Message_ty m ∧
      match e with
      | InvalidDirection _ _ => is_valid_direction (Message_ty m) (ctx_sender c) = false
      | InvalidPhase _ _ =>
          is_valid_direction (Message_ty m) (ctx_sender c) = true ∧
          is_valid_phase (Message_ty m) (ctx_phase c) = false
      | InvalidTransport _ _ =>
          is_valid_direction (Message_ty m) (ctx_sender c) = true ∧
          is_valid_phase (Message_ty m) (ctx_phase c) = true ∧
          is_valid_transport (Message_ty m) (ctx_transport c) = false
      | InvalidPayload _ _ => admissible (Message_ty m) c ∧ ¬ canonical_payload m
      end
  | Panic => False
  end.
Proof.
  intros Hm. pose proof (validate_message_ok m c Hm) as Hok.
  pose proof (validate_message_no_panic m c Hm) as Hnp.
  destruct (validate_message m c) as [[]|e|] eqn:E; [by apply Hok| |done].
  unfold validate_message, validate_message_type in E. unfold admissible in *.
  destruct (is_valid_direction _ _); cbn [negb] in E; [|res_simpl in E; by simplify_eq].
  destruct (is_valid_phase _ _); cbn [negb] in E; [|res_simpl in E; by simplify_eq].
  destruct (is_valid_transport _ _); cbn [negb] in E; [|res_simpl in E; by simplify_eq].
  res_simpl in E. destruct (validate_fixed_payload_err _ _ E) as [source ->].
  split_and!; try done. intros Hc. naive_solver.
Qed.

