(* ===== verification/PacketNumber.v ===== *)
(** * Packet numbers ([slt-core/src/crypto/udp_qsp/pn.rs])

    The sender truncates a 64-bit packet number to one to four bytes, the
    receiver completes it from the number it expects next.  The theorems say
    for which distances between the two numbers the completion is right. *)

From stdpp Require Import base tactics option list numbers.
From Stdlib Require Import ZArith Lia.
From S2P Require Import Prelude.

Definition MAX_WIRE_PN_LEN : Z := 4.

Definition packet_number_len (pn : Z) : Z :=
  if pn <=? 0xff then 1 else
  if pn <=? 0xffff then 2 else
  if pn <=? 0xffffff then 3 else 4.

(** [!x] on [u64] *)
Definition not64 (x : Z) : Z := Z.lxor u64_max x.

Definition reconstruct_packet_number (truncated_pn expected_pn pn_len : Z) : Z :=
  if (pn_len =? 0) || (pn_len >? MAX_WIRE_PN_LEN) then truncated_pn else
  let pn_window := Z.shiftl 1 (pn_len * 8) in
  let pn_half_window := pn_window / 2 in
  let pn_mask := pn_window - 1 in
  let candidate := Z.lor (Z.land expected_pn (not64 pn_mask)) truncated_pn in
  let candidate :=
    match checked_add64 candidate pn_half_window with
    | Some sum =>
        if sum <=? expected_pn then
          match checked_add64 candidate pn_window with
          | Some advanced => advanced
          | None => candidate
          end
        else candidate
    | None => candidate
    end in
  match checked_add64 expected_pn pn_half_window with
  | Some expected_limit =>
      if (candidate >? expected_limit) && (candidate >=? pn_window)
      then candidate - pn_window else candidate
  | None => candidate
  end.

(** The bytes of the wire: the last [pn_len] of the big-endian encoding. *)
Definition truncate_pn (pn : Z) : Z := pn mod 256 ^ packet_number_len pn.

Lemma packet_number_len_range pn : 1 ≤ packet_number_len pn ≤ 4.
Proof. unfold packet_number_len. split_tests; lia. Qed.

(** A number below [2^32] is sent in full. *)
Lemma truncate_pn_small pn : 0 ≤ pn < 2 ^ 32 → truncate_pn pn = pn.
Proof.
  intros. unfold truncate_pn, packet_number_len. split_tests; apply Z.mod_small; simpl; lia.
Qed.

(** ** Bits *)
Lemma pn_window_pow n : 0 ≤ n → Z.shiftl 1 (n * 8) = 256 ^ n.
Proof.
  intros. rewrite Z.shiftl_1_l, Z.mul_comm, Z.pow_mul_r by lia. done.
Qed.

(** [e & !(w - 1)] rounds [e] down to a multiple of [w]. *)
Lemma land_not64_mask e k :
  u64_ok e → 0 ≤ k ≤ 64 → Z.land e (not64 (2 ^ k - 1)) = e - e mod 2 ^ k.
Proof.
  intros He Hk. unfold not64, u64_max. change 18446744073709551615 with (Z.ones 64).
  replace (2 ^ k - 1) with (Z.ones k) by (rewrite Z.ones_equiv; lia).
  assert (Z.land e (Z.lxor (Z.ones 64) (Z.ones k)) = Z.ldiff e (Z.ones k)) as ->.
  { apply Z.bits_inj'. intros i Hi.
    rewrite Z.land_spec, Z.lxor_spec, Z.ldiff_spec, !Z.testbit_ones_nonneg by lia.
    destruct (Z.ltb_spec i 64); [by destruct (i <? k), (Z.testbit e i)|].
    rewrite (Z.bits_above_log2 e i); [done| |].
    - unfold u64_ok in He. lia.
    - destruct (Z.eq_dec e 0) as [->|]; [simpl; lia|].
      apply Z.log2_lt_pow2; [unfold u64_ok in He; lia|].
      unfold u64_ok in He. assert (2 ^ 64 ≤ 2 ^ i) by (apply Z.pow_le_mono_r; lia). lia. }
  rewrite Z.ldiff_ones_r by lia. rewrite Z.shiftl_mul_pow2, Z.shiftr_div_pow2 by lia.
  pose proof (Z.div_mod e (2 ^ k)). lia.
Qed.

Lemma candidate_eq e t n :
  u64_ok e → 1 ≤ n ≤ 4 → 0 ≤ t < 256 ^ n →
  Z.lor (Z.land e (not64 (256 ^ n - 1))) t = e - e mod 256 ^ n + t.
Proof.
  intros He Hn Ht. change 256 with (2 ^ 8) in *. rewrite <- !Z.pow_mul_r in * by lia.
  rewrite land_not64_mask by (done || lia). apply (lor_aligned _ _ (8 * n)); [lia|done|].
  rewrite Zminus_mod, Z.mod_mod, Z.sub_diag by (apply Z.pow_nonzero; lia). done.
Qed.

(** ** Correctness *)

(** The arithmetic of the two corrections. *)
Lemma reconstruct_arith pn e w :
  (w = 256 ∨ w = 65536 ∨ w = 16777216 ∨ w = 4294967296) →
  u64_ok pn → u64_ok e → e - w / 2 < pn → (pn ≤ e + w / 2 ∨ pn < w) →
  ∀ q r m, e = w * q + r → 0 ≤ r < w → m = pn mod w →
  let c := e - r + m in
  let c := if (c + w / 2 <=? u64_max) && (c + w / 2 <=? e)
           then (if c + w <=? u64_max then c + w else c) else c in
  (if (e + w / 2 <=? u64_max) && ((c >? e + w / 2) && (c >=? w)) then c - w else c) = pn.
Proof.
  intros Hw Hp He Hlo Hhi q r m Eq Hr Hm. unfold u64_ok, u64_max in *.
  pose proof (Z.div_mod pn w ltac:(lia)) as D. pose proof (Z.mod_pos_bound pn w ltac:(lia)) as B.
  rewrite <- Hm in *. cbv zeta. rewrite Z.gtb_ltb, Z.geb_leb.
  destruct Hw as [-> | [-> | [-> | -> ] ] ]; cbn [Z.div Z.div_eucl Z.pos_div_eucl] in *;
    change (256 / 2) with 128 in *; change (65536 / 2) with 32768 in *;
    change (16777216 / 2) with 8388608 in *; change (4294967296 / 2) with 2147483648 in *;
    split_tests; cbn [andb] in *; lia.
Qed.

Lemma window_cases n :
  1 ≤ n ≤ 4 → 256 ^ n = 256 ∨ 256 ^ n = 65536 ∨ 256 ^ n = 16777216 ∨ 256 ^ n = 4294967296.
Proof.
  intros Hn. assert (n = 1 ∨ n = 2 ∨ n = 3 ∨ n = 4) as Hc by lia.
  destruct Hc as [-> | [-> | [-> | -> ] ] ]; simpl; lia.
Qed.

(** The code without its bit operations and checked additions. *)
Lemma reconstruct_eq t e n :
  1 ≤ n ≤ 4 → u64_ok e → 0 ≤ t < 256 ^ n →
  reconstruct_packet_number t e n =
    (let w := 256 ^ n in
     let c := e - e mod w + t in
     let c := if (c + w / 2 <=? u64_max) && (c + w / 2 <=? e)
              then (if c + w <=? u64_max then c + w else c) else c in
     if (e + w / 2 <=? u64_max) && ((c >? e + w / 2) && (c >=? w)) then c - w else c).
Proof.
  intros Hn He Ht. unfold reconstruct_packet_number, MAX_WIRE_PN_LEN.
  rewrite Z.gtb_ltb. destruct (Z.eqb_spec n 0), (Z.ltb_spec 4 n); try lia. cbn [orb].
  rewrite pn_window_pow by lia. rewrite candidate_eq by done. cbv zeta. unfold checked_add64.
  generalize (e - e mod 256 ^ n + t) as c. intros c.
  destruct (c + 256 ^ n / 2 <=? u64_max), (c + 256 ^ n / 2 <=? e); cbn [andb];
    destruct (c + 256 ^ n <=? u64_max), (e + 256 ^ n / 2 <=? u64_max); cbn [andb]; done.
Qed.

Lemma reconstruct_window pn e n :
  1 ≤ n ≤ 4 → u64_ok pn → u64_ok e →
  e - 256 ^ n / 2 < pn → (pn ≤ e + 256 ^ n / 2 ∨ pn < 256 ^ n) →
  reconstruct_packet_number (pn mod 256 ^ n) e n = pn.
Proof.
  intros Hn Hp He Hlo Hhi. pose proof (window_cases n Hn) as Hw.
  assert (0 < 256 ^ n) as Hpos by lia.
  rewrite reconstruct_eq by (done || by apply Z.mod_pos_bound).
  exact (reconstruct_arith pn e (256 ^ n) Hw Hp He Hlo Hhi (e / 256 ^ n) (e mod 256 ^ n) _
    (Z.div_mod e (256 ^ n) ltac:(lia)) (Z.mod_pos_bound e (256 ^ n) Hpos) eq_refl).
Qed.

(** What a receiver makes of a packet the sender numbered [pn]: right when
    the packet is not late by a half window of the sender's length. *)
Lemma reconstruct_sent pn e :
  u64_ok pn → u64_ok e →
  e < pn + 256 ^ packet_number_len pn / 2 → pn ≤ e + 2 ^ 31 ∨ pn < 2 ^ 32 →
  reconstruct_packet_number (truncate_pn pn) e (packet_number_len pn) = pn.
Proof.
  intros Hp He Hlo Hhi. apply reconstruct_window; try done; try lia.
  { apply packet_number_len_range. }
  clear Hlo. unfold packet_number_len, u64_ok in *.
  change (2 ^ 31) with (256 ^ 4 / 2) in Hhi. change (2 ^ 32) with (256 ^ 4) in Hhi.
  split_tests; [right; simpl; lia..|exact Hhi].
Qed.

(** ** Theorems *)
Lemma reconstruct_closest_arith e t w x :
  (w = 256 ∨ w = 65536 ∨ w = 16777216 ∨ w = 4294967296) →
  u64_ok e → u64_ok x → 0 ≤ t < w →
  ∀ q r k, e = w * q + r → 0 ≤ r < w → x = w * k + t →
  let c := e - r + t in
  let c := if (c + w / 2 <=? u64_max) && (c + w / 2 <=? e)
           then (if c + w <=? u64_max then c + w else c) else c in
  let p := if (e + w / 2 <=? u64_max) && ((c >? e + w / 2) && (c >=? w)) then c - w else c in
  (∃ j, p = w * j + t) ∧ u64_ok p ∧ Z.abs (p - e) ≤ Z.abs (x - e).
Proof.
  intros Hw He Hx Ht q r k Eq Hr Ek. unfold u64_ok, u64_max in *. cbv zeta. rewrite Z.gtb_ltb, Z.geb_leb.
  destruct Hw as [-> | [-> | [-> | -> ] ] ];
    change (256 / 2) with 128; change (65536 / 2) with 32768;
    change (16777216 / 2) with 8388608; change (4294967296 / 2) with 2147483648;
    split_tests; cbn [andb] in *; (split; [exists q + exists (q + 1) + exists (q - 1); lia|lia]).
Qed.

(** The completion of a truncated packet number is the one of RFC 9000,
    Appendix A: of all 64-bit numbers that end in the received bytes, the
    result is one that is closest to the expected number, also at both ends of
    the number space. *)
Theorem reconstruct_closest t e n :
  1 ≤ n ≤ MAX_WIRE_PN_LEN → u64_ok e → 0 ≤ t < 256 ^ n →
  let p := reconstruct_packet_number t e n in
  u64_ok p ∧ p mod 256 ^ n = t ∧
  ∀ x, u64_ok x → x mod 256 ^ n = t → Z.abs (p - e) ≤ Z.abs (x - e).
Proof.
  intros Hn He Ht p. unfold MAX_WIRE_PN_LEN in Hn. pose proof (window_cases n Hn) as Hw.
  assert (0 < 256 ^ n) as Hpos by lia.
  assert (∀ x, u64_ok x → x mod 256 ^ n = t →
    (∃ j, p = 256 ^ n * j + t) ∧ u64_ok p ∧ Z.abs (p - e) ≤ Z.abs (x - e)) as Hc.
  { intros x Hx Ex. unfold p. rewrite reconstruct_eq by done.
    apply (reconstruct_closest_arith e t (256 ^ n) x Hw He Hx Ht (e / 256 ^ n) (e mod 256 ^ n) (x / 256 ^ n)).
    - apply Z.div_mod. lia.
    - by apply Z.mod_pos_bound.
    - rewrite (Z.div_mod x (256 ^ n)) at 1 by lia. by rewrite Ex. }
  destruct (Hc t) as ((j & Ej) & Hu & _); [unfold u64_ok; lia|by apply Z.mod_small|].
  split_and!; [done| |intros x Hx Ex; by apply Hc].
  rewrite Ej, Z.mul_comm, Z.add_comm, Z.mod_add by lia. by apply Z.mod_small.
Qed.

(** The completed number is less than a half window behind the expected one,
    and at most a half window ahead of it unless it is in the first window. *)
Lemma reconstruct_range t e n :
  1 ≤ n ≤ 4 → 0 ≤ e ≤ 2 ^ 63 → 0 ≤ t < 256 ^ n →
  let p := reconstruct_packet_number t e n in
  e - 256 ^ n / 2 < p ∧ (p ≤ e + 256 ^ n / 2 ∨ p < 256 ^ n).
Proof.
  intros Hn He Ht p. unfold p. rewrite reconstruct_eq by (unfold u64_ok; (done || lia)). cbv zeta.
  pose proof (Z.div_mod e (256 ^ n) ltac:(lia)) as D. pose proof (Z.mod_pos_bound e (256 ^ n) ltac:(lia)) as B.
  revert D B. generalize (e / 256 ^ n) (e mod 256 ^ n). intros q r D B. unfold u64_max. rewrite Z.gtb_ltb, Z.geb_leb.
  destruct (window_cases n Hn) as [E|[E|[E|E] ] ]; rewrite E in *;
    change (256 / 2) with 128; change (65536 / 2) with 32768;
    change (16777216 / 2) with 8388608; change (4294967296 / 2) with 2147483648;
    split_tests; cbn [andb] in *; lia.
Qed.

(** Which packets are completed to the number they were sent with.  The
    length of a number on the wire depends on the number alone, so the
    tolerance for late packets does too: it is half of [256 ^ length], which
    is 128 for the first 256 packets, less than the 1024 numbers the replay
    window remembers. *)
Theorem reconstruct_sent_iff pn e :
  u64_ok pn → 0 ≤ e ≤ 2 ^ 63 →
  reconstruct_packet_number (truncate_pn pn) e (packet_number_len pn) = pn ↔
  e < pn + 256 ^ packet_number_len pn / 2 ∧ (pn ≤ e + 2 ^ 31 ∨ pn < 2 ^ 32).
Proof.
  intros Hp He. split; [|intros []; apply reconstruct_sent; try done; unfold u64_ok; lia].
  intros E. pose proof (packet_number_len_range pn) as Hn.
  assert (0 ≤ truncate_pn pn < 256 ^ packet_number_len pn) as Ht by (apply Z.mod_pos_bound; lia).
  destruct (reconstruct_range _ e _ Hn He Ht) as [Hlo Hhi]. rewrite E in Hlo, Hhi. split; [lia|].
  clear E Hlo Ht Hn. unfold packet_number_len, u64_ok in *.
  revert Hhi. change (2 ^ 31) with (256 ^ 4 / 2). change (2 ^ 32) with (256 ^ 4).
  split_tests; [right; simpl; lia..|done].
Qed.

(** Packet 0 after 128 others is completed to 256, in time it is not. *)
Lemma reconstruct_sent_iff_witness :
  reconstruct_packet_number (truncate_pn 0) 128 (packet_number_len 0) = 256 ∧
  (reconstruct_packet_number (truncate_pn 0) 127 (packet_number_len 0) = 0 ↔
   127 < 0 + 256 ^ packet_number_len 0 / 2 ∧ (0 ≤ 127 + 2 ^ 31 ∨ 0 < 2 ^ 32)).
Proof. split; [reflexivity|]. apply (reconstruct_sent_iff 0 127); decided. Defined.
