(* ===== verification/ReplayWindow.v ===== *)
(** * Replay protection ([slt-core/src/crypto/udp_qsp/session.rs], [ReplayWindow])

    The implementation is a ring of 1024 bits in sixteen 64-bit words; the
    specification is the set of packet numbers accepted so far.  The two are
    related by [repr], every operation preserves the relation and the two
    sides decide the same way, so that no packet number is ever accepted
    twice, and a fresh number inside the window is always accepted. *)

From stdpp Require Import base tactics option list numbers gmap sets.
From Stdlib Require Import ZArith Lia.
From S2P Require Import Prelude PacketNumber.

Definition PN_REPLAY_WINDOW : Z := 1024.
Definition WINDOW_WORD_BITS : Z := 64.
Definition WINDOW_WORDS : Z := PN_REPLAY_WINDOW / WINDOW_WORD_BITS.

Inductive ReplayError := Replay | TooOld.

#[global] Instance ReplayError_eq_dec : EqDecision ReplayError.
Proof. solve_decision. Defined.

Record ReplayWindow := mkWindow {
  rw_largest_pn : option Z;
  rw_initial_expected : Z;
  rw_bits : list Z;
}.

Definition ReplayWindow_new (initial_expected : Z) : ReplayWindow :=
  mkWindow None initial_expected (replicate (Z.to_nat WINDOW_WORDS) 0).

Definition ReplayWindow_expected_pn (w : ReplayWindow) : Z :=
  match rw_largest_pn w with
  | None => rw_initial_expected w
  | Some pn => saturating_add64 pn 1
  end.

Definition bit_position (pn : Z) : Z * Z :=
  let idx := pn mod PN_REPLAY_WINDOW in
  (idx / WINDOW_WORD_BITS, Z.shiftl 1 (idx mod WINDOW_WORD_BITS)).

(** [self.bits[word]]: an index out of range panics. *)
Definition is_set (bits : list Z) (pn : Z) : res ReplayError bool :=
  let '(word, mask) := bit_position pn in
  w ← index bits word;
  Ok (negb (Z.land w mask =? 0)).

Definition update_word (bits : list Z) (word : Z) (f : Z → Z) : res ReplayError (list Z) :=
  w ← index bits word;
  Ok (<[Z.to_nat word := f w]> bits).

Definition set_bit (bits : list Z) (pn : Z) : res ReplayError (list Z) :=
  let '(word, mask) := bit_position pn in
  update_word bits word (λ w, Z.lor w mask).

Definition clear_bit (bits : list Z) (pn : Z) : res ReplayError (list Z) :=
  let '(word, mask) := bit_position pn in
  update_word bits word (λ w, Z.land w (not64 mask)).

(** [for old_pn in start..end { self.clear_bit(old_pn) }] *)
Fixpoint clear_from (n : nat) (start : Z) (bits : list Z) : res ReplayError (list Z) :=
  match n with
  | O => Ok bits
  | S n => bits ← clear_bit bits start; clear_from n (start + 1) bits
  end.

Definition clear_range (start stop : Z) (bits : list Z) : res ReplayError (list Z) :=
  clear_from (Z.to_nat (stop - start)) start bits.

(** [self.bits.fill(0)] *)
Definition fill_zero (bits : list Z) : list Z := replicate (length bits) 0.

(** [check_and_update]: the new window, or the error (the window is left
    alone). *)
Definition check_and_update (w : ReplayWindow) (pn : Z) : res ReplayError ReplayWindow :=
  match rw_largest_pn w with
  | None =>
      if pn <? rw_initial_expected w then Err TooOld else
      bits ← set_bit (fill_zero (rw_bits w)) pn;
      Ok (mkWindow (Some pn) (rw_initial_expected w) bits)
  | Some largest =>
      if pn >? largest then
        let delta := pn - largest in
        bits ← (if delta >=? PN_REPLAY_WINDOW then Ok (fill_zero (rw_bits w)) else
                let window := PN_REPLAY_WINDOW - 1 in
                let old_start := saturating_sub largest window in
                let new_start := saturating_sub pn window in
                if new_start >? old_start then clear_range old_start new_start (rw_bits w)
                else Ok (rw_bits w));
        bits ← set_bit bits pn;
        Ok (mkWindow (Some pn) (rw_initial_expected w) bits)
      else
        let delta := largest - pn in
        if delta >=? PN_REPLAY_WINDOW then Err TooOld else
        seen ← is_set (rw_bits w) pn;
        if (seen : bool) then Err Replay else
        bits ← set_bit (rw_bits w) pn;
        Ok (mkWindow (Some largest) (rw_initial_expected w) bits)
  end.

(** ** The ring of bits *)

(** Slot [i] of the ring. *)
Definition slot (bits : list Z) (i : Z) : bool :=
  Z.testbit (nth (Z.to_nat (i / 64)) bits 0) (i mod 64).

Definition bits_wf (bits : list Z) : Prop := zlen bits = 16.

Lemma slot_position pn i :
  0 ≤ i < 1024 → 0 ≤ pn mod 1024 < 1024 →
  (i =? pn mod 1024) = (i / 64 =? pn mod 1024 / 64) && (i mod 64 =? pn mod 1024 mod 64).
Proof.
  intros Hi Hp. pose proof (Z.div_mod i 64 ltac:(lia)) as Di.
  pose proof (Z.div_mod (pn mod 1024) 64 ltac:(lia)) as Dp. split_tests; simpl; try done; congruence || lia.
Qed.

Lemma testbit_mask b j : 0 ≤ b < 64 → 0 ≤ j < 64 → Z.testbit (Z.shiftl 1 b) j = (j =? b).
Proof.
  intros Hb Hj. rewrite Z.shiftl_1_l, Z.pow2_bits_eqb by lia. apply Z.eqb_sym.
Qed.

Lemma testbit_not64 m j : 0 ≤ j < 64 → Z.testbit (not64 m) j = negb (Z.testbit m j).
Proof.
  intros Hj. unfold not64, u64_max. change 18446744073709551615 with (Z.ones 64).
  rewrite Z.lxor_spec, Z.ones_spec_low by lia. apply xorb_true_l.
Qed.

(** A word update changes the slots of one word, bit by bit. *)
Lemma update_word_slot bits word f g :
  bits_wf bits → 0 ≤ word < 16 →
  (∀ w j, 0 ≤ j < 64 → Z.testbit (f w) j = g j (Z.testbit w j)) →
  ∃ bits', update_word bits word f = Ok bits' ∧ bits_wf bits' ∧
    ∀ i, 0 ≤ i < 1024 →
      slot bits' i = if i / 64 =? word then g (i mod 64) (slot bits i) else slot bits i.
Proof.
  unfold bits_wf. intros Hb Hw Hf. unfold update_word. rewrite index_ok by lia. res_simpl.
  eexists. split; [done|]. split; [unfold zlen in *; by rewrite length_insert|].
  intros i Hi. unfold slot. rewrite !nth_lookup.
  pose proof (Z.mod_pos_bound i 64 ltac:(lia)).
  assert (0 ≤ i / 64 < 16) by (split; [apply Z.div_pos|apply Z.div_lt_upper_bound]; lia).
  destruct (Z.eqb_spec (i / 64) word) as [<-|Hne].
  - rewrite list_lookup_insert_eq by (unfold zlen in Hb; lia). simpl. by rewrite Hf.
  - by rewrite list_lookup_insert_ne by lia.
Qed.

Ltac position pn :=
  unfold bit_position, PN_REPLAY_WINDOW, WINDOW_WORD_BITS;
  pose proof (Z.mod_pos_bound pn 1024 ltac:(lia));
  pose proof (Z.mod_pos_bound (pn mod 1024) 64 ltac:(lia));
  assert (0 ≤ pn mod 1024 / 64 < 16)
    by (split; [apply Z.div_pos|apply Z.div_lt_upper_bound]; lia).

Lemma set_bit_slot bits pn :
  bits_wf bits →
  ∃ bits', set_bit bits pn = Ok bits' ∧ bits_wf bits' ∧
    ∀ i, 0 ≤ i < 1024 → slot bits' i = (i =? pn mod 1024) || slot bits i.
Proof.
  intros Hb. unfold set_bit. position pn.
  destruct (update_word_slot bits (pn mod 1024 / 64)
    (λ w, Z.lor w (Z.shiftl 1 (pn mod 1024 mod 64))) (λ j b, b || (j =? pn mod 1024 mod 64)))
    as (bits' & E & Hw & Hs); [done..| |].
  { intros w j Hj. by rewrite Z.lor_spec, testbit_mask by lia. }
  exists bits'. split_and!; [done..|]. intros i Hi. rewrite Hs, slot_position by lia.
  destruct (_ =? _), (_ =? _), (slot bits i); done.
Qed.

Lemma clear_bit_slot bits pn :
  bits_wf bits →
  ∃ bits', clear_bit bits pn = Ok bits' ∧ bits_wf bits' ∧
    ∀ i, 0 ≤ i < 1024 → slot bits' i = negb (i =? pn mod 1024) && slot bits i.
Proof.
  intros Hb. unfold clear_bit. position pn.
  destruct (update_word_slot bits (pn mod 1024 / 64)
    (λ w, Z.land w (not64 (Z.shiftl 1 (pn mod 1024 mod 64))))
    (λ j b, b && negb (j =? pn mod 1024 mod 64))) as (bits' & E & Hw & Hs); [done..| |].
  { intros w j Hj. by rewrite Z.land_spec, testbit_not64, testbit_mask by lia. }
  exists bits'. split_and!; [done..|]. intros i Hi. rewrite Hs, slot_position by lia.
  destruct (_ =? _), (_ =? _), (slot bits i); done.
Qed.

Lemma is_set_slot bits pn : bits_wf bits → is_set bits pn = Ok (slot bits (pn mod 1024)).
Proof.
  unfold bits_wf. intros Hb. unfold is_set. position pn. rewrite index_ok by lia. res_simpl.
  f_equal. unfold slot. generalize (nth (Z.to_nat (pn mod 1024 / 64)) bits 0) as w. intros w.
  rewrite Z.shiftl_1_l. destruct (Z.testbit w (pn mod 1024 mod 64)) eqn:E.
  - apply negb_true_iff, Z.eqb_neq. intros Hz.
    apply (f_equal (λ x, Z.testbit x (pn mod 1024 mod 64))) in Hz. revert Hz.
    rewrite Z.land_spec, E, Z.pow2_bits_true, Z.bits_0 by lia. done.
  - apply negb_false_iff, Z.eqb_eq, Z.bits_inj'. intros j Hj.
    rewrite Z.land_spec, Z.pow2_bits_eqb, Z.bits_0 by lia.
    destruct (Z.eqb_spec (pn mod 1024 mod 64) j) as [<-|]; [by rewrite E|by rewrite andb_false_r].
Qed.

(** Clearing a run of packet numbers clears their slots and no other. *)
Lemma clear_from_slot n start bits :
  bits_wf bits →
  ∃ bits', clear_from n start bits = Ok bits' ∧ bits_wf bits' ∧
    ∀ i, 0 ≤ i < 1024 →
      slot bits' i = true ↔
        slot bits i = true ∧ ∀ p, start ≤ p < start + Z.of_nat n → p mod 1024 ≠ i.
Proof.
  revert start bits. induction n as [|n IH]; intros start bits Hb; cbn [clear_from].
  { exists bits. split_and!; [done..|]. intros i Hi. split; [|by intros []].
    intros H. split; [done|]. intros; lia. }
  destruct (clear_bit_slot bits start Hb) as (b1 & -> & Hb1 & S1). res_simpl.
  destruct (IH (start + 1) b1 Hb1) as (b2 & -> & Hb2 & S2). exists b2. split_and!; [done..|].
  intros i Hi. rewrite S2, S1, andb_true_iff, negb_true_iff, Z.eqb_neq by done. split.
  - intros [[Hne Hs] Hr]. split; [done|]. intros p Hp.
    destruct (Z.eq_dec p start) as [->|]; [congruence|]. apply Hr. lia.
  - intros [Hs Hr]. split_and!; [|done|].
    + intros ->. apply (Hr start); [lia|done].
    + intros p Hp. apply Hr. lia.
Qed.

Lemma fill_zero_slot bits i : bits_wf bits → bits_wf (fill_zero bits) ∧ slot (fill_zero bits) i = false.
Proof.
  unfold bits_wf, fill_zero, zlen. intros Hb. rewrite length_replicate. split; [done|].
  unfold slot. rewrite nth_lookup. destruct (replicate _ _ !! _) as [x|] eqn:E; simpl.
  - apply lookup_replicate in E as [-> _]. apply Z.bits_0.
  - apply Z.bits_0.
Qed.

(** ** The specification: the set of accepted numbers *)
Record spec := mkSpec {
  sp_initial : Z;
  sp_largest : option Z;
  sp_accepted : gset Z;
}.

Definition spec_new (initial : Z) : spec := mkSpec initial None ∅.

Definition spec_check (s : spec) (pn : Z) : res ReplayError spec :=
  match sp_largest s with
  | None =>
      if decide (pn < sp_initial s) then Err TooOld
      else Ok (mkSpec (sp_initial s) (Some pn) {[ pn ]})
  | Some largest =>
      if decide (pn + 1024 ≤ largest) then Err TooOld else
      if decide (pn ∈ sp_accepted s) then Err Replay else
      Ok (mkSpec (sp_initial s) (Some (Z.max largest pn)) ({[ pn ]} ∪ sp_accepted s))
  end.

(** The accepted numbers are packet numbers, and the largest is the maximum
    of the set. *)
Definition spec_ok (s : spec) : Prop :=
  0 ≤ sp_initial s ∧
  (∀ p, p ∈ sp_accepted s → 0 ≤ p) ∧
  match sp_largest s with
  | None => sp_accepted s = ∅
  | Some l => l ∈ sp_accepted s ∧ ∀ p, p ∈ sp_accepted s → p ≤ l
  end.

(** The representation relation: a slot of the ring is set exactly when the
    number of the current window that falls on it has been accepted. *)
Definition repr (w : ReplayWindow) (s : spec) : Prop :=
  bits_wf (rw_bits w) ∧ rw_initial_expected w = sp_initial s ∧ rw_largest_pn w = sp_largest s ∧
  ∀ l, sp_largest s = Some l →
    ∀ p, l - 1024 < p ≤ l → slot (rw_bits w) (p mod 1024) = true ↔ p ∈ sp_accepted s.

Lemma spec_check_ok s pn s' : spec_ok s → 0 ≤ pn → spec_check s pn = Ok s' → spec_ok s'.
Proof.
  unfold spec_check, spec_ok. intros (Hi & Hnn & Hl) Hpn H. destruct s as [init [l|] acc]; simpl in *.
  - repeat case_decide; simplify_eq; simpl. destruct Hl as [Hin Hmax]. split_and!; [done|set_solver| |].
    + destruct (Z.max_spec l pn) as [[_ ->]|[_ ->]]; set_solver.
    + intros p [->%elem_of_singleton|Hp]%elem_of_union; [lia|]. specialize (Hmax p Hp). lia.
  - case_decide; simplify_eq; simpl. split_and!; set_solver by lia.
Qed.

(** Two numbers of one window that fall on the same slot are equal. *)
Lemma window_inj l p q :
  l - 1024 < p ≤ l → l - 1024 < q ≤ l → p mod 1024 = q mod 1024 → p = q.
Proof.
  intros Hp Hq E. pose proof (Z.div_mod p 1024 ltac:(lia)). pose proof (Z.div_mod q 1024 ltac:(lia)).
  lia.
Qed.

(** The ring represents the set [acc] on the window that ends at [l]. *)
Definition ring (bits : list Z) (l : Z) (acc : gset Z) : Prop :=
  bits_wf bits ∧ ∀ p, l - 1024 < p ≤ l → slot bits (p mod 1024) = true ↔ p ∈ acc.

Lemma set_bit_ring bits l acc pn :
  ring bits l acc → l - 1024 < pn ≤ l →
  ∃ bits', set_bit bits pn = Ok bits' ∧ ring bits' l ({[ pn ]} ∪ acc).
Proof.
  intros [Hb Hr] Hpn. destruct (set_bit_slot bits pn Hb) as (b' & E & Hb' & Hs).
  exists b'. split; [done|]. split; [done|]. intros p Hp.
  rewrite Hs, orb_true_iff, Z.eqb_eq, Hr, elem_of_union, elem_of_singleton
    by (done || apply Z.mod_pos_bound; lia).
  split; intros [H|H]; auto; [left; by eapply window_inj|left; by subst].
Qed.

Lemma fill_zero_ring bits l acc :
  bits_wf bits → (∀ p, p ∈ acc → p ≤ l - 1024) → ring (fill_zero bits) l acc.
Proof.
  intros Hb Ha. split; [by apply (fill_zero_slot bits 0)|]. intros p Hp.
  rewrite (proj2 (fill_zero_slot bits _ Hb)). split; [done|]. intros Hin. specialize (Ha p Hin). lia.
Qed.

(** Moving the window forward by less than its size. *)
Lemma clear_range_ring bits l pn acc :
  ring bits l acc → (∀ p, p ∈ acc → 0 ≤ p ≤ l) → l < pn < l + 1024 →
  ∃ bits',
    (if saturating_sub pn 1023 >? saturating_sub l 1023
     then clear_range (saturating_sub l 1023) (saturating_sub pn 1023) bits
     else Ok bits) = Ok bits' ∧ ring bits' pn acc.
Proof.
  intros [Hb Hr] Hacc Hpn. unfold saturating_sub, clear_range. rewrite Z.gtb_ltb.
  assert (∀ p, l < p ≤ pn → p - 1024 < 0 → slot bits (p mod 1024) = false) as Hneg.
  { intros p Hp Hlt. replace p with (p - 1024 + 1 * 1024) by lia. rewrite Z.mod_add by lia.
    destruct (slot bits _) eqn:E; [|done]. apply Hr in E; [|lia]. apply Hacc in E. lia. }
  assert (∀ b', bits_wf b' → (∀ i, 0 ≤ i < 1024 → slot b' i = true ↔ slot bits i = true ∧
      ∀ p, Z.max 0 (l - 1023) ≤ p < Z.max 0 (pn - 1023) → p mod 1024 ≠ i) → ring b' pn acc) as Hmain.
  { intros b' Hb' Hs. split; [done|]. intros p Hp.
    rewrite Hs by (apply Z.mod_pos_bound; lia). split.
    - intros [Hset Hcl]. destruct (Z_le_gt_dec p l); [apply Hr; [lia|done]|]. exfalso.
      destruct (Z_lt_le_dec (p - 1024) 0) as [Hlt|Hge]; [by rewrite Hneg in Hset by lia|].
      apply (Hcl (p - 1024)); [lia|]. replace p with (p - 1024 + 1 * 1024) at 2 by lia.
      by rewrite Z.mod_add.
    - intros Hin. pose proof (Hacc p Hin). split; [apply Hr; [lia|done]|]. intros q Hq E.
      assert (q = p) as -> by (eapply (window_inj l); [lia..|done]). lia. }
  destruct (Z.ltb_spec (Z.max 0 (l - 1023)) (Z.max 0 (pn - 1023))) as [Hlt|Hge].
  - destruct (clear_from_slot (Z.to_nat (Z.max 0 (pn - 1023) - Z.max 0 (l - 1023)))
      (Z.max 0 (l - 1023)) bits Hb) as (b' & E & Hb' & Hs).
    exists b'. split; [done|]. apply Hmain; [done|]. intros i Hi. rewrite Hs by done.
    by replace (Z.max 0 (l - 1023) + _) with (Z.max 0 (pn - 1023)) by lia.
  - exists bits. split; [done|]. apply Hmain; [done|]. intros i Hi. split; [|by intros []].
    intros H. split; [done|]. intros; lia.
Qed.

Lemma ring_repr bits l acc init :
  ring bits l acc → repr (mkWindow (Some l) init bits) (mkSpec init (Some l) acc).
Proof. intros [Hb Hr]. split_and!; try done. simpl. intros ? [= <-]. done. Qed.

Definition agree {A B E} (R : A → B → Prop) (x : res E A) (y : res E B) : Prop :=
  match x, y with
  | Ok a, Ok b => R a b
  | Err e, Err f => e = f
  | _, _ => False
  end.

(** Case by case, the implementation decides like the specification. *)
Lemma check_and_update_refines w s pn :
  spec_ok s → repr w s → 0 ≤ pn → agree repr (check_and_update w pn) (spec_check s pn).
Proof.
  intros (Hi0 & Hnn & Hmax) (Hb & Hi & Hl & Hr) Hpn.
  destruct w as [lw iw bits], s as [init lg acc]; simpl in *; subst iw lw.
  unfold check_and_update, spec_check. cbn [rw_largest_pn rw_initial_expected rw_bits sp_largest sp_initial sp_accepted].
  destruct lg as [l|].
  - destruct Hmax as [Hin Hmax]. unfold PN_REPLAY_WINDOW. rewrite Z.gtb_ltb, !Z.geb_leb.
    assert (ring bits l acc) as R by (split; [done|]; by apply Hr).
    destruct (Z.ltb_spec l pn) as [Hgt|Hle].
    + rewrite decide_False, decide_False by (first [lia|intros Hp; specialize (Hmax _ Hp); lia]).
      rewrite Z.max_r by lia. destruct (Z.leb_spec 1024 (pn - l)) as [Hd|Hd].
      * res_simpl. destruct (set_bit_ring (fill_zero bits) pn acc pn) as (b' & -> & R'); [|lia|by apply ring_repr].
        apply fill_zero_ring; [done|]. intros p Hp. specialize (Hmax p Hp). lia.
      * change (1024 - 1) with 1023.
        destruct (clear_range_ring bits l pn acc R) as (b1 & -> & R1); [intros p Hp; split; auto|lia|].
        res_simpl. destruct (set_bit_ring b1 pn acc pn R1) as (b' & -> & R'); [lia|by apply ring_repr].
    + destruct (Z.leb_spec 1024 (l - pn)) as [Ho|Ho]; [by rewrite decide_True by lia|].
      rewrite decide_False by lia. rewrite is_set_slot by done. res_simpl. rewrite Z.max_l by lia.
      destruct (slot bits (pn mod 1024)) eqn:Es.
      * rewrite decide_True by (apply (proj2 R); [lia|done]). done.
      * rewrite decide_False by (intros Hp; apply (proj2 R) in Hp; [congruence|lia]).
        destruct (set_bit_ring bits l acc pn R) as (b' & -> & R'); [lia|by apply ring_repr].
  - destruct (Z.ltb_spec pn init); [by rewrite decide_True|]. rewrite decide_False by lia. subst acc.
    destruct (set_bit_ring (fill_zero bits) pn ∅ pn) as (b' & -> & R'); [|lia|].
    + apply fill_zero_ring; [done|set_solver].
    + res_simpl. rewrite union_empty_r_L in R'. by apply ring_repr.
Qed.

(** ** Sequences of packets

    A session offers packet numbers one after the other; a refused number
    leaves the window as it was. *)
Section Runs.
  Context {S : Type} (check : S → Z → res ReplayError S).

Definition offer (s : S) (pn : Z) : S :=
  match check s pn with Ok s' => s' | _ => s end.

Fixpoint outcomes (s : S) (pns : list Z) : list (res ReplayError unit) :=
  match pns with
  | [] => []
  | pn :: pns => map_ok (λ _, tt) (check s pn) :: outcomes (offer s pn) pns
  end.

Fixpoint accepted (s : S) (pns : list Z) : list Z :=
  match pns with
  | [] => []
  | pn :: pns =>
      match check s pn with
      | Ok s' => pn :: accepted s' pns
      | _ => accepted s pns
      end
  end.
End Runs.

Lemma repr_new init : 0 ≤ init → repr (ReplayWindow_new init) (spec_new init) ∧ spec_ok (spec_new init).
Proof.
  intros Hi. split; [|unfold spec_ok; simpl; split_and!; [done|set_solver|done] ].
  unfold repr. simpl. split_and!; try done.
Qed.

Lemma runs_agree pns w s :
  spec_ok s → repr w s → Forall (λ p, 0 ≤ p) pns →
  outcomes check_and_update w pns = outcomes spec_check s pns ∧
  accepted check_and_update w pns = accepted spec_check s pns.
Proof.
  intros Hok Hr Hp. revert w s Hok Hr. induction Hp as [|pn pns Hpn _ IH]; intros w s Hok Hr; [done|].
  pose proof (check_and_update_refines w s pn Hok Hr Hpn) as A.
  cbn [outcomes accepted]. unfold offer.
  destruct (check_and_update w pn) as [w'| |] eqn:Ew, (spec_check s pn) as [s'| |] eqn:Es;
    simpl in A; try done.
  - destruct (IH w' s') as [-> ->]; [by eapply spec_check_ok|done|done].
  - subst. destruct (IH w s Hok Hr) as [-> ->]. done.
Qed.

Lemma spec_accepted_fresh pns s :
  spec_ok s → Forall (λ p, 0 ≤ p) pns →
  NoDup (accepted spec_check s pns) ∧ ∀ p, p ∈ accepted spec_check s pns → p ∉ sp_accepted s.
Proof.
  intros Hok Hp. revert s Hok. induction Hp as [|pn pns Hpn _ IH]; intros s Hok.
  { simpl. split; [constructor|]. by intros p Hp%elem_of_nil. }
  cbn [accepted]. destruct (spec_check s pn) as [s'| |] eqn:E; [|by apply IH..].
  destruct (IH s' ltac:(by eapply spec_check_ok)) as [Hnd Hfr].
  assert (pn ∉ sp_accepted s ∧ sp_accepted s' = {[ pn ]} ∪ sp_accepted s) as [Hnew Hacc].
  { destruct Hok as (_ & _ & Hok). unfold spec_check in E.
    destruct s as [i [l|] a]; simpl in *; repeat case_decide; simplify_eq; simpl; [done|].
    rewrite union_empty_r_L. set_solver. }
  split; [constructor; [|done]|].
  - intros Hin. apply Hfr in Hin. set_solver.
  - intros p [->|Hin]%elem_of_cons; [done|]. apply Hfr in Hin. set_solver.
Qed.

(** ** Theorems *)

(** C27: The ring of 1024 bits implements the set of accepted numbers: offered
    any sequence of packet numbers, a fresh window answers each one (accepted,
    replayed, too old) as the specification that remembers every accepted
    number does, and it accepts no number twice. *)
Theorem replay_window_refines_set initial pns :
  0 ≤ initial → Forall (λ p, 0 ≤ p) pns →
  outcomes check_and_update (ReplayWindow_new initial) pns = outcomes spec_check (spec_new initial) pns ∧
  NoDup (accepted check_and_update (ReplayWindow_new initial) pns).
Proof.
  intros Hi Hp. destruct (repr_new initial Hi) as [Hr Hok].
  destruct (runs_agree pns _ _ Hok Hr Hp) as [-> ->]. split; [done|]. by apply spec_accepted_fresh.
Qed.

Lemma replay_window_refines_set_witness :
  let pns := [4; 3; 1030; 7; 1030; 6; 5000; 3977; 3976; 3977] in
  outcomes check_and_update (ReplayWindow_new 3) pns =
    [Ok (); Ok (); Ok (); Ok (); Err Replay; Err TooOld; Ok (); Ok (); Err TooOld; Err Replay] ∧
  (outcomes check_and_update (ReplayWindow_new 3) pns = outcomes spec_check (spec_new 3) pns ∧
   NoDup (accepted check_and_update (ReplayWindow_new 3) pns)).
Proof.
  split; [vm_compute; reflexivity|].
  apply (replay_window_refines_set 3 [4; 3; 1030; 7; 1030; 6; 5000; 3977; 3976; 3977]); [lia|].
  repeat (constructor; [lia|]). constructor.
Defined.
