(* ===== verification/PacketHeader.v ===== *)
(** * UDP-QSP packet headers ([slt-core/src/crypto/udp_qsp/packet.rs])

    A packet starts with one byte of flags, the connection ID and the
    truncated packet number; the flags and the number are masked with bytes
    derived from a sample of the ciphertext.  The file models building,
    masking and parsing headers and proves that parsing a masked header gives
    back its fields, and that no access is out of range. *)

From stdpp Require Import base tactics option list numbers.
From Stdlib Require Import ZArith Lia.
From S2P Require Import Prelude PacketNumber.

Definition HP_MASK_LEN : Z := 5.
Definition HP_SAMPLE_LEN : Z := 16.
Definition AEAD_TAG_LEN : Z := 16.

Inductive QspCryptoError :=
  | UnsupportedCipher | PacketTooShort | InvalidHeader | InvalidPacketNumber | CryptoFail
  | InvalidCid.

#[global] Instance QspCryptoError_eq_dec : EqDecision QspCryptoError.
Proof. solve_decision. Defined.

Definition FIXED_BIT : Z := 0x40.
Definition KEY_PHASE_BIT : Z := 0x04.
Definition RESERVED_MASK : Z := 0x18.
Definition PN_LEN_MASK : Z := 0x03.

Record BuiltHeader := mkBuilt { bh_pn_len : Z; bh_pn_offset : Z }.

Record ParsedHeader := mkParsed {
  ph_pn : Z;
  ph_pn_len : Z;
  ph_key_phase : bool;
  ph_header : bytes;
}.

Definition build_header (dcid : bytes) (pn : Z) (key_phase : bool) (out : bytes)
    : res QspCryptoError (BuiltHeader * bytes) :=
  let pn_len := packet_number_len pn in
  if (pn_len =? 0) || (pn_len >? MAX_WIRE_PN_LEN) then Err InvalidPacketNumber else
  let pn_offset := 1 + zlen dcid in
  let first := Z.lor FIXED_BIT (Z.land (pn_len - 1) PN_LEN_MASK) in
  let first := if key_phase then Z.lor first KEY_PHASE_BIT else first in
  tail ← slice (to_be 8 pn) (8 - pn_len) 8;
  Ok (mkBuilt pn_len pn_offset, out ++ [first] ++ dcid ++ tail).

(** [packet[pn_offset + i] ^ mask[1 + i]] for [i] in [i .. i + n] *)
Fixpoint unmask_pn (n : nat) (i : Z) (packet : bytes) (pn_offset : Z) (mask : bytes)
    : res QspCryptoError bytes :=
  match n with
  | O => Ok []
  | S n =>
      b ← index packet (pn_offset + i);
      m ← index mask (1 + i);
      rest ← unmask_pn n (i + 1) packet pn_offset mask;
      Ok (Z.lxor b m :: rest)
  end.

Definition parse_header (dcid_len : Z) (packet mask : bytes) : res QspCryptoError ParsedHeader :=
  let pn_offset := 1 + dcid_len in
  p0 ← index packet 0;
  m0 ← index mask 0;
  let first := Z.lxor p0 (Z.land m0 0x1f) in
  if (Z.land first FIXED_BIT =? 0) || negb (Z.land first 0x80 =? 0) then Err InvalidHeader else
  if negb (Z.land first RESERVED_MASK =? 0) then Err InvalidHeader else
  let pn_len := Z.land first PN_LEN_MASK + 1 in
  if (pn_len =? 0) || (pn_len >? MAX_WIRE_PN_LEN) then Err InvalidPacketNumber else
  if zlen packet <? pn_offset + pn_len + AEAD_TAG_LEN then Err PacketTooShort else
  number ← unmask_pn (Z.to_nat pn_len) 0 packet pn_offset mask;
  let pn_bytes := zeros (MAX_WIRE_PN_LEN - pn_len) ++ number in
  let pn := from_be pn_bytes in
  let key_phase := negb (Z.land first KEY_PHASE_BIT =? 0) in
  cid ← slice packet 1 pn_offset;
  tail ← slice pn_bytes (MAX_WIRE_PN_LEN - pn_len) MAX_WIRE_PN_LEN;
  Ok (mkParsed pn pn_len key_phase ([first] ++ cid ++ tail)).

(** [packet[i] ^= x] *)
Definition xor_at (packet : bytes) (i x : Z) : res QspCryptoError bytes :=
  b ← index packet i; Ok (<[Z.to_nat i := Z.lxor b x]> packet).

Fixpoint mask_pn (n : nat) (i : Z) (packet : bytes) (pn_offset : Z) (mask : bytes)
    : res QspCryptoError bytes :=
  match n with
  | O => Ok packet
  | S n =>
      m ← index mask (1 + i);
      packet ← xor_at packet (pn_offset + i) m;
      mask_pn n (i + 1) packet pn_offset mask
  end.

Definition apply_header_protection (packet : bytes) (pn_offset pn_len : Z) (mask : bytes)
    : res QspCryptoError bytes :=
  if (pn_len =? 0) || (pn_len >? MAX_WIRE_PN_LEN) then Err InvalidPacketNumber else
  if zlen packet <? pn_offset + pn_len then Err PacketTooShort else
  m0 ← index mask 0;
  packet ← xor_at packet 0 (Z.land m0 0x1f);
  mask_pn (Z.to_nat pn_len) 0 packet pn_offset mask.

Definition sample_offset (dcid_len : Z) : Z := 1 + dcid_len + 4.

Definition require_hp_sample (packet : bytes) (dcid_len : Z) : res QspCryptoError unit :=
  let offset := sample_offset dcid_len in
  if zlen packet <? offset + HP_SAMPLE_LEN then Err PacketTooShort else Ok tt.

Definition hp_sample_range (dcid_len : Z) : Z * Z :=
  let offset := sample_offset dcid_len in (offset, offset + HP_SAMPLE_LEN).

(** ** Flags *)
Definition first_byte (pn_len : Z) (key_phase : bool) : Z :=
  let first := Z.lor FIXED_BIT (Z.land (pn_len - 1) PN_LEN_MASK) in
  if key_phase then Z.lor first KEY_PHASE_BIT else first.

(** The header of a packet, before masking. *)
Definition plain_header (dcid : bytes) (pn : Z) (key_phase : bool) : bytes :=
  [first_byte (packet_number_len pn) key_phase] ++ dcid
    ++ to_be (Z.to_nat (packet_number_len pn)) pn.

Ltac pn_len_cases pn :=
  let H := fresh in
  assert (packet_number_len pn = 1 ∨ packet_number_len pn = 2 ∨ packet_number_len pn = 3
          ∨ packet_number_len pn = 4) as H by (pose proof (packet_number_len_range pn); lia);
  destruct H as [H|[H|[H|H] ] ]; rewrite H in *.

Lemma sub_to_be8 pn k : 1 ≤ k ≤ 4 → sub (to_be 8 pn) (8 - k) 8 = to_be (Z.to_nat k) pn.
Proof.
  intros Hk. assert (k = 1 ∨ k = 2 ∨ k = 3 ∨ k = 4) as H by lia.
  destruct H as [->|[->|[->| ->] ] ]; done.
Qed.

Lemma build_header_ok dcid pn kp out :
  build_header dcid pn kp out =
    Ok (mkBuilt (packet_number_len pn) (1 + zlen dcid), out ++ plain_header dcid pn kp).
Proof.
  unfold build_header, plain_header, MAX_WIRE_PN_LEN. pose proof (packet_number_len_range pn) as R.
  rewrite Z.gtb_ltb. destruct (Z.eqb_spec (packet_number_len pn) 0); [lia|].
  destruct (Z.ltb_spec 4 (packet_number_len pn)); [lia|]. cbn [orb].
  rewrite slice_ok by (zl; lia). res_simpl. by rewrite sub_to_be8.
Qed.

(** What the parser reads off an unmasked first byte. *)
Lemma first_byte_fields n kp :
  1 ≤ n ≤ 4 →
  let f := first_byte n kp in
  (Z.land f FIXED_BIT =? 0) = false ∧ (Z.land f 0x80 =? 0) = true ∧
  (Z.land f RESERVED_MASK =? 0) = true ∧ Z.land f PN_LEN_MASK + 1 = n ∧
  negb (Z.land f KEY_PHASE_BIT =? 0) = kp ∧ u8_ok f.
Proof.
  intros Hn. assert (n = 1 ∨ n = 2 ∨ n = 3 ∨ n = 4) as H by lia.
  destruct H as [->|[->|[->| ->] ] ], kp; vm_compute; intuition congruence.
Qed.

(** ** Masking and unmasking the packet number *)

(** The number [num], at its place in a packet, xored with the mask bytes
    from position [1 + i] on. *)
Definition xor_mask (num mask : bytes) (i : Z) : bytes :=
  zip_with Z.lxor num (drop (Z.to_nat (1 + i)) mask).

Lemma xor_mask_cons b num mask i :
  0 ≤ i → 1 + i < zlen mask →
  xor_mask (b :: num) mask i = Z.lxor b (nth (Z.to_nat (1 + i)) mask 0) :: xor_mask num mask (i + 1).
Proof.
  intros Hi Hl. unfold xor_mask, zlen in *.
  rewrite (drop_S mask (nth (Z.to_nat (1 + i)) mask 0) (Z.to_nat (1 + i))).
  2: { destruct (lookup_lt_is_Some_2 mask (Z.to_nat (1 + i))) as [x Hx]; [lia|].
       by rewrite nth_lookup, Hx. }
  simpl. do 2 f_equal. f_equal. lia.
Qed.

Lemma zlen_xor_mask num mask i :
  0 ≤ i → 1 + i + zlen num ≤ zlen mask → zlen (xor_mask num mask i) = zlen num.
Proof. unfold xor_mask, zlen. intros. rewrite length_zip_with, length_drop. lia. Qed.

Lemma xor_at_app pre b rest i x :
  zlen pre = i → xor_at (pre ++ b :: rest) i x = Ok (pre ++ Z.lxor b x :: rest).
Proof.
  intros <-. pose proof (zlen_nonneg rest). pose proof (zlen_nonneg pre).
  unfold xor_at. rewrite index_ok by (zl; lia). res_simpl.
  rewrite nth_app_zlen, Z.sub_diag, nth_Z0 by lia. f_equal.
  replace (Z.to_nat (zlen pre)) with (length pre + 0)%nat by (unfold zlen; lia).
  by rewrite insert_app_r.
Qed.

Lemma mask_pn_app num pre rest off mask i :
  zlen pre = off + i → 0 ≤ i → 1 + i + zlen num ≤ zlen mask →
  mask_pn (length num) i (pre ++ num ++ rest) off mask = Ok (pre ++ xor_mask num mask i ++ rest).
Proof.
  revert pre i. induction num as [|b num IH]; intros pre i Hp Hi Hm; cbn [length mask_pn].
  { done. }
  rewrite zlen_cons in Hm. pose proof (zlen_nonneg num).
  rewrite index_ok by lia. res_simpl. cbn [app]. rewrite xor_at_app by done. res_simpl.
  change (?a ++ ?x :: ?l) with (a ++ [x] ++ l). rewrite app_assoc, IH by (rewrite ?zlen_app, ?zlen_one; lia).
  rewrite xor_mask_cons by lia. by rewrite <- app_assoc.
Qed.

Lemma unmask_pn_app num pre rest off mask i :
  zlen pre = off + i → 0 ≤ i → 1 + i + zlen num ≤ zlen mask →
  unmask_pn (length num) i (pre ++ num ++ rest) off mask = Ok (xor_mask num mask i).
Proof.
  revert pre i. induction num as [|b num IH]; intros pre i Hp Hi Hm; cbn [length unmask_pn].
  { done. }
  rewrite zlen_cons in Hm. pose proof (zlen_nonneg num). pose proof (zlen_nonneg rest).
  pose proof (zlen_nonneg pre).
  rewrite !index_ok by (zl; lia). res_simpl. rewrite <- Hp.
  rewrite nth_app_zlen, Z.sub_diag by lia. cbn [app]. rewrite nth_Z0.
  change (?a ++ ?x :: ?l) with (a ++ [x] ++ l).
  rewrite app_assoc, IH by (rewrite ?zlen_app, ?zlen_one; lia). res_simpl.
  by rewrite xor_mask_cons by lia.
Qed.

(** Masking twice gives the number back. *)
Lemma xor_mask_twice num mask i :
  0 ≤ i → 1 + i + zlen num ≤ zlen mask → xor_mask (xor_mask num mask i) mask i = num.
Proof.
  revert i. induction num as [|b num IH]; intros i Hi Hm; [done|].
  rewrite zlen_cons in Hm. pose proof (zlen_nonneg num).
  rewrite xor_mask_cons by lia. rewrite xor_mask_cons, IH by lia.
  by rewrite Z.lxor_assoc, Z.lxor_nilpotent, Z.lxor_0_r.
Qed.

(** A masked packet: flags, connection ID, number, and the protected part. *)
Lemma apply_header_protection_app f dcid num rest mask :
  1 ≤ zlen num ≤ 4 → zlen mask = HP_MASK_LEN →
  apply_header_protection ([f] ++ dcid ++ num ++ rest) (1 + zlen dcid) (zlen num) mask =
    Ok ([Z.lxor f (Z.land (nth 0 mask 0) 0x1f)] ++ dcid ++ xor_mask num mask 0 ++ rest).
Proof.
  unfold HP_MASK_LEN. intros Hn Hm. unfold apply_header_protection, MAX_WIRE_PN_LEN.
  pose proof (zlen_nonneg rest). pose proof (zlen_nonneg dcid).
  rewrite Z.gtb_ltb. destruct (Z.eqb_spec (zlen num) 0), (Z.ltb_spec 4 (zlen num)); try lia. cbn [orb].
  zl. destruct (Z.ltb_spec (1 + 0 + (zlen dcid + (zlen num + zlen rest))) (1 + zlen dcid + zlen num)); [lia|].
  rewrite index_ok by lia. res_simpl.
  pose proof (xor_at_app [] f (dcid ++ num ++ rest) 0
    (Z.land (nth (Z.to_nat 0) mask 0) 31) eq_refl) as X.
  cbn [app] in X |- *. rewrite X. res_simpl.
  change (?x :: dcid ++ ?l) with ([x] ++ dcid ++ l).
  rewrite app_assoc. replace (Z.to_nat (zlen num)) with (length num) by (unfold zlen; lia).
  rewrite mask_pn_app by (zl; lia). by rewrite <- app_assoc.
Qed.

(** ** Parsing *)
Lemma from_be_to_be_mod n x : 0 ≤ x → from_be (to_be n x) = x mod 256 ^ Z.of_nat n.
Proof.
  revert x. induction n as [|n IH]; intros x Hx.
  - change (256 ^ Z.of_nat 0) with 1. by rewrite Z.mod_1_r.
  - rewrite to_be_S, from_be_app, IH by (apply Z.div_pos; lia).
    rewrite Nat2Z.inj_succ, Z.pow_succ_r, (Z.rem_mul_r x 256) by (try apply Z.pow_pos_nonneg; lia). lia.
Qed.

Lemma from_be_zeros k l : from_be (zeros k ++ l) = from_be l.
Proof.
  unfold from_be, zeros. rewrite foldl_app. f_equal. induction (Z.to_nat k) as [|m IH]; [done|].
  simpl. done.
Qed.

Lemma parse_header_masked dcid pn kp rest mask :
  0 ≤ pn → AEAD_TAG_LEN ≤ zlen rest → zlen mask = HP_MASK_LEN →
  parse_header (zlen dcid)
    ([Z.lxor (first_byte (packet_number_len pn) kp) (Z.land (nth 0 mask 0) 0x1f)] ++ dcid
       ++ xor_mask (to_be (Z.to_nat (packet_number_len pn)) pn) mask 0 ++ rest) mask =
  Ok (mkParsed (truncate_pn pn) (packet_number_len pn) kp (plain_header dcid pn kp)).
Proof.
  unfold AEAD_TAG_LEN, HP_MASK_LEN. intros Hpn Hr Hm.
  pose proof (packet_number_len_range pn) as R. pose proof (zlen_nonneg dcid).
  set (n := packet_number_len pn) in *. set (num := to_be (Z.to_nat n) pn).
  assert (zlen num = n) as Ln by (unfold num; rewrite zlen_to_be; lia).
  assert (zlen (xor_mask num mask 0) = n) as Lx by (rewrite zlen_xor_mask; lia).
  unfold parse_header, MAX_WIRE_PN_LEN, AEAD_TAG_LEN.
  rewrite !index_ok by (zl; lia). res_simpl. cbn [app]. rewrite nth_Z0.
  change (nth (Z.to_nat 0) mask 0) with (nth 0 mask 0).
  rewrite Z.lxor_assoc, Z.lxor_nilpotent, Z.lxor_0_r.
  destruct (first_byte_fields n kp R) as (-> & -> & -> & -> & -> & _). cbn [orb negb].
  rewrite Z.gtb_ltb. destruct (Z.eqb_spec n 0), (Z.ltb_spec 4 n); try lia. cbn [orb]. zl.
  destruct (Z.ltb_spec (1 + (zlen dcid + (zlen (xor_mask num mask 0) + zlen rest))) (1 + zlen dcid + n + 16));
    [lia|].
  change (?x :: dcid ++ ?l) with ([x] ++ dcid ++ l). rewrite app_assoc.
  replace (Z.to_nat n) with (length (xor_mask num mask 0)) by (unfold zlen in Lx; lia).
  rewrite unmask_pn_app by (zl; lia). res_simpl. rewrite xor_mask_twice by lia.
  rewrite <- app_assoc. rewrite (slice_ok _ 1) by (zl; lia). res_simpl.
  rewrite slice_ok by (zl; rewrite ?zlen_zeros by lia; lia). res_simpl.
  unfold plain_header. fold n. fold num. f_equal. f_equal.
  - rewrite from_be_zeros. unfold num, truncate_pn. rewrite from_be_to_be_mod by done.
    fold n. by rewrite Z2Nat.id by lia.
  - rewrite (sub_app_r [_]) by (zl; lia). rewrite sub_app_l, sub_all by (zl; lia).
    rewrite (sub_app_r (zeros _)), sub_all by (rewrite ?zlen_zeros by lia; lia). done.
Qed.

Lemma unmask_pn_no_panic n i packet off mask :
  0 ≤ i → 0 ≤ off → off + i + Z.of_nat n ≤ zlen packet → 1 + i + Z.of_nat n ≤ zlen mask →
  unmask_pn n i packet off mask ≠ Panic ∧
  ∀ l, unmask_pn n i packet off mask = Ok l → zlen l = Z.of_nat n.
Proof.
  revert i. induction n as [|n IH]; intros i Hi Ho Hp Hm; cbn [unmask_pn].
  { split; [done|]. by intros l [= <-]. }
  destruct (IH (i + 1)) as [Hn Hl]; [lia..|]. rewrite !index_ok by lia. res_simpl.
  destruct (unmask_pn n (i + 1) packet off mask) as [l| |]; res_simpl; [|done..].
  split; [done|]. intros k [= <-]. zl. rewrite (Hl l) by done. lia.
Qed.

Lemma parse_header_no_panic dcid_len packet mask :
  0 ≤ dcid_len → 1 ≤ zlen packet → zlen mask = HP_MASK_LEN →
  parse_header dcid_len packet mask ≠ Panic.
Proof.
  unfold HP_MASK_LEN. intros Hd Hp Hm. unfold parse_header, MAX_WIRE_PN_LEN, AEAD_TAG_LEN, PN_LEN_MASK.
  rewrite !index_ok by lia. res_simpl. generalize (Z.lxor (nth (Z.to_nat 0) packet 0)
    (Z.land (nth (Z.to_nat 0) mask 0) 31)) as first. intros first.
  assert (0 ≤ Z.land first 3 < 4) as B.
  { change 3 with (Z.ones 2). rewrite Z.land_ones by lia. apply Z.mod_pos_bound. lia. }
  rewrite Z.gtb_ltb. destruct (_ || _); [done|]. destruct (negb _); [done|]. destruct (_ || _); [done|].
  destruct (Z.ltb_spec (zlen packet) (1 + dcid_len + (Z.land first 3 + 1) + 16)); [done|].
  destruct (unmask_pn_no_panic (Z.to_nat (Z.land first 3 + 1)) 0 packet (1 + dcid_len) mask)
    as [Hn Hl]; [lia..|].
  destruct (unmask_pn _ _ _ _ _) as [l| |]; res_simpl; [|done..].
  rewrite (slice_ok packet) by lia. res_simpl. specialize (Hl l eq_refl).
  by rewrite slice_ok by (zl; rewrite ?zlen_zeros by lia; lia).
Qed.
