(* ===== verification/Keys.v ===== *)
(** * Packet protection keys ([slt-core/src/crypto/udp_qsp/keys/])

    TLS 1.3 key derivation ([derivation.rs]), the two directions of a key
    pair and their generations ([schedule.rs]), the wrappers around the
    cryptographic library ([backend.rs]) and the protection and opening of
    whole packets ([mod.rs]).

    The library itself (BoringSSL) is a parameter: [Boring] lists the
    functions the code calls, [BoringLaws] what their documentation promises
    about lengths and about opening what has been sealed. *)

From Stdlib Require Import Ascii String.
From stdpp Require Import base tactics option list numbers.
From Stdlib Require Import ZArith Lia.
From S2P Require Import Prelude Cid Framing Payloads PacketNumber PacketHeader.

Inductive AeadKind := AeadAes128Gcm | AeadChaCha20Poly1305.
Inductive HeaderProtectionKind := HpAes128 | HpChaCha20.

Class Boring := {
  (** [AES_KEY] and [EVP_AEAD_CTX] *)
  AES_KEY : Type;
  EVP_AEAD_CTX : Type;
  hmac_sha256 : bytes → bytes → option bytes;
  AES_set_encrypt_key : bytes → option AES_KEY;
  AES_encrypt : bytes → AES_KEY → bytes;
  (** input, key, nonce, counter *)
  CRYPTO_chacha_20 : bytes → bytes → bytes → Z → bytes;
  (** algorithm, key, tag length; also fails when there is no descriptor *)
  EVP_AEAD_CTX_new : AeadKind → bytes → Z → option EVP_AEAD_CTX;
  (** context, room in the output, nonce, input, associated data *)
  EVP_AEAD_CTX_seal : EVP_AEAD_CTX → Z → bytes → bytes → bytes → option bytes;
  EVP_AEAD_CTX_open : EVP_AEAD_CTX → Z → bytes → bytes → bytes → option bytes;
}.

Class BoringLaws (B : Boring) := {
  hmac_sha256_len : ∀ k m d, hmac_sha256 k m = Some d → array_ok 32 d;
  AES_encrypt_len : ∀ k s, zlen s = 16 → array_ok 16 (AES_encrypt s k);
  chacha_len : ∀ i k n c, bytes_ok i → array_ok (zlen i) (CRYPTO_chacha_20 i k n c);
  (** sealing succeeds when the output has room for the tag *)
  seal_total : ∀ c n pt ad room,
    zlen n = 12 → zlen pt + AEAD_TAG_LEN ≤ room → zlen pt < 2 ^ 32 →
    ∃ ct, EVP_AEAD_CTX_seal c room n pt ad = Some ct;
  seal_len : ∀ c n pt ad room ct,
    bytes_ok pt → EVP_AEAD_CTX_seal c room n pt ad = Some ct → array_ok (zlen pt + AEAD_TAG_LEN) ct;
  (** what has been sealed opens, under the same context, nonce and data *)
  open_seal : ∀ c n pt ad room room' ct,
    EVP_AEAD_CTX_seal c room n pt ad = Some ct → zlen pt ≤ room' →
    EVP_AEAD_CTX_open c room' n ct ad = Some pt;
  (** the plaintext of bytes is bytes *)
  open_bytes : ∀ c n ct ad room pt,
    bytes_ok ct → EVP_AEAD_CTX_open c room n ct ad = Some pt → bytes_ok pt;
}.

(** The calls that only fail for lack of memory, when they do not. *)
Class BoringTotal (B : Boring) := {
  hmac_sha256_total : ∀ k m, is_Some (hmac_sha256 k m);
  AES_set_encrypt_key_total : ∀ k, zlen k = 16 → is_Some (AES_set_encrypt_key k);
  EVP_AEAD_CTX_new_total : ∀ a k,
    zlen k = match a with AeadAes128Gcm => 16 | AeadChaCha20Poly1305 => 32 end →
    is_Some (EVP_AEAD_CTX_new a k AEAD_TAG_LEN);
}.

(** ** Key derivation ([derivation.rs]) *)
Section Keys.
Context `{B : Boring}.

Definition TLS13_LABEL_PREFIX : bytes := bytes_of_string "tls13 ".
Definition QUIC_KEY_LABEL : bytes := bytes_of_string "quic key".
Definition QUIC_IV_LABEL : bytes := bytes_of_string "quic iv".
Definition QUIC_HP_LABEL : bytes := bytes_of_string "quic hp".
Definition QUIC_KU_LABEL : bytes := bytes_of_string "quic ku".

(** The loop of [hkdf_expand_sha256_vec].  [prev] is the last block (nothing
    at first).  The counter is a [u8] that starts at
    one and whose increment is checked, so 255 iterations are the most the
    loop makes: [fuel] never runs out ([hkdf_expand_spec]). *)
Fixpoint expand_loop (fuel : nat) (prk info out prev : bytes) (counter len : Z)
    : res QspCryptoError bytes :=
  if negb (zlen out <? len) then Ok out else
  match fuel with
  | O => Panic
  | S fuel =>
      block ← ok_or (hmac_sha256 prk (prev ++ info ++ [counter])) CryptoFail;
      let take := Z.min (len - zlen out) (zlen block) in
      used ← slice block 0 take;
      let out := out ++ used in
      counter ← (if counter + 1 <=? 255 then Ok (counter + 1) else Err CryptoFail);
      expand_loop fuel prk info out block counter len
  end.

Definition hkdf_expand_sha256_vec (prk info : bytes) (len : Z) : res QspCryptoError bytes :=
  if len =? 0 then Ok [] else expand_loop 255 prk info [] [] 1 len.

(** [u16::try_from], [u8::try_from] *)
Definition try_uint (max x : Z) : res QspCryptoError Z :=
  if x <=? max then Ok x else Err CryptoFail.

Definition hkdf_label (output_len : Z) (label context : bytes) : bytes :=
  to_be 2 output_len ++ [zlen TLS13_LABEL_PREFIX + zlen label] ++ TLS13_LABEL_PREFIX ++ label
    ++ [zlen context] ++ context.

Definition hkdf_expand_label_sha256 (secret label context : bytes) (len : Z)
    : res QspCryptoError bytes :=
  output_len ← try_uint 65535 len;
  full_label_len ← try_uint 255 (zlen TLS13_LABEL_PREFIX + zlen label);
  context_len ← try_uint 255 (zlen context);
  hkdf_expand_sha256_vec secret (hkdf_label output_len label context) len.

Definition derive_header_protection_key (secret : bytes) (key_len : Z) : res QspCryptoError bytes :=
  hkdf_expand_label_sha256 secret QUIC_HP_LABEL [] key_len.

Record PacketMaterial := mkMaterial { pm_key : bytes; pm_iv : bytes }.

Definition derive_packet_material (secret : bytes) (key_len iv_len : Z)
    : res QspCryptoError PacketMaterial :=
  key ← hkdf_expand_label_sha256 secret QUIC_KEY_LABEL [] key_len;
  iv ← hkdf_expand_label_sha256 secret QUIC_IV_LABEL [] iv_len;
  Ok (mkMaterial key iv).

Definition derive_next_secret (secret : bytes) : res QspCryptoError bytes :=
  s ← hkdf_expand_label_sha256 secret QUIC_KU_LABEL [] UDP_QSP_TRAFFIC_SECRET_LEN;
  ok_or (try_array UDP_QSP_TRAFFIC_SECRET_LEN s) CryptoFail.

(** ** Backend ([backend.rs]) *)
Definition AeadKind_key_len (k : AeadKind) : Z :=
  match k with
  | AeadAes128Gcm => AEAD_KEY_LEN
  | AeadChaCha20Poly1305 => CHACHA20_POLY1305_KEY_LEN
  end.
Definition HeaderProtectionKind_key_len (k : HeaderProtectionKind) : Z :=
  match k with HpAes128 => HP_KEY_LEN | HpChaCha20 => CHACHA20_POLY1305_KEY_LEN end.

Record CipherConfig := mkConfig {
  cc_hp : HeaderProtectionKind;
  cc_aead : AeadKind;
  cc_iv_len : Z;
}.

Definition CipherConfig_for_suite (cipher : CipherSuite) : CipherConfig :=
  match cipher with
  | Aes128Gcm => mkConfig HpAes128 AeadAes128Gcm AEAD_IV_LEN
  | ChaCha20Poly1305 => mkConfig HpChaCha20 AeadChaCha20Poly1305 AEAD_IV_LEN
  end.

Inductive HeaderProtectionKey :=
  | KAes128 (key : bytes) (encrypt_key : AES_KEY)
  | KChaCha20 (key : bytes).

Definition HeaderProtectionKey_new (kind : HeaderProtectionKind) (key : bytes)
    : res QspCryptoError HeaderProtectionKey :=
  if negb (zlen key =? HeaderProtectionKind_key_len kind) then Err CryptoFail else
  match kind with
  | HpAes128 =>
      encrypt_key ← ok_or (AES_set_encrypt_key key) CryptoFail;
      Ok (KAes128 key encrypt_key)
  | HpChaCha20 => Ok (KChaCha20 key)
  end.

(** [u32::from_le_bytes] *)
Definition from_le (l : bytes) : Z := from_be (rev l).

Definition HeaderProtectionKey_mask (k : HeaderProtectionKey) (sample : bytes)
    : res QspCryptoError bytes :=
  if negb (zlen sample =? HP_SAMPLE_LEN) then Err PacketTooShort else
  match k with
  | KAes128 _ encrypt_key =>
      s ← slice (AES_encrypt sample encrypt_key) 0 HP_MASK_LEN;
      copy_array HP_MASK_LEN s
  | KChaCha20 key =>
      s ← slice sample 0 4;
      c ← ok_or (try_array 4 s) PacketTooShort;
      nonce ← slice sample 4 (zlen sample);
      Ok (CRYPTO_chacha_20 (zeros HP_MASK_LEN) key nonce (from_le c))
  end.

Definition HeaderProtectionKey_try_clone (k : HeaderProtectionKey)
    : res QspCryptoError HeaderProtectionKey :=
  match k with
  | KAes128 key _ => HeaderProtectionKey_new HpAes128 key
  | KChaCha20 key => HeaderProtectionKey_new HpChaCha20 key
  end.

Definition AeadContext_new (aead : AeadKind) (key : bytes) : res QspCryptoError EVP_AEAD_CTX :=
  if negb (zlen key =? AeadKind_key_len aead) then Err CryptoFail else
  ok_or (EVP_AEAD_CTX_new aead key AEAD_TAG_LEN) CryptoFail.

(** [seal] and [open] write into a buffer of [room] bytes and return what has
    been written. *)
Definition AeadContext_seal (c : EVP_AEAD_CTX) (nonce ad plaintext : bytes) (room : Z)
    : res QspCryptoError bytes :=
  ok_or (EVP_AEAD_CTX_seal c room nonce plaintext ad) CryptoFail.
Definition AeadContext_open (c : EVP_AEAD_CTX) (nonce ad ciphertext : bytes) (room : Z)
    : res QspCryptoError bytes :=
  ok_or (EVP_AEAD_CTX_open c room nonce ciphertext ad) CryptoFail.

Record PacketKey := mkPacketKey {
  pk_key : bytes;
  pk_iv : bytes;
  pk_aead : AeadKind;
  pk_ctx : EVP_AEAD_CTX;
}.

Definition PacketKey_new (key iv : bytes) (aead : AeadKind) : res QspCryptoError PacketKey :=
  if negb (zlen iv =? AEAD_IV_LEN) then Err CryptoFail else
  iv ← ok_or (try_array AEAD_IV_LEN iv) CryptoFail;
  ctx ← AeadContext_new aead key;
  Ok (mkPacketKey key iv aead ctx).

(** The IV with its last eight bytes xored with the packet number. *)
Definition make_nonce (iv : bytes) (counter : Z) : bytes :=
  take 4 iv ++ zip_with Z.lxor (drop 4 iv) (to_be 8 counter).

Definition PacketKey_seal_into (k : PacketKey) (pn ad_len : Z) (plaintext out : bytes)
    : res QspCryptoError bytes :=
  let nonce := make_nonce (pk_iv k) pn in
  let max_out_len := zlen plaintext + AEAD_TAG_LEN in
  ad ← slice out 0 ad_len;
  produced ← AeadContext_seal (pk_ctx k) nonce ad plaintext max_out_len;
  Ok (out ++ produced).

Definition PacketKey_open_into (k : PacketKey) (pn : Z) (ad ciphertext : bytes)
    : res QspCryptoError bytes :=
  if zlen ciphertext <? AEAD_TAG_LEN then Err PacketTooShort else
  AeadContext_open (pk_ctx k) (make_nonce (pk_iv k) pn) ad ciphertext (zlen ciphertext).

Definition PacketKey_try_clone (k : PacketKey) : res QspCryptoError PacketKey :=
  PacketKey_new (pk_key k) (pk_iv k) (pk_aead k).

(** ** One direction ([schedule.rs]) *)
Record DirectionKeys := mkDirection {
  dk_secret : bytes;
  dk_hp : HeaderProtectionKey;
  dk_aead : PacketKey;
}.

Definition DirectionKeys_from_secret (secret : bytes) (config : CipherConfig)
    : res QspCryptoError DirectionKeys :=
  secret ← ok_or (try_array UDP_QSP_TRAFFIC_SECRET_LEN secret) CryptoFail;
  hp_key ← derive_header_protection_key secret (HeaderProtectionKind_key_len (cc_hp config));
  packet ← derive_packet_material secret (AeadKind_key_len (cc_aead config)) (cc_iv_len config);
  hp ← HeaderProtectionKey_new (cc_hp config) hp_key;
  aead ← PacketKey_new (pm_key packet) (pm_iv packet) (cc_aead config);
  Ok (mkDirection secret hp aead).

Definition DirectionKeys_next_generation (d : DirectionKeys) (config : CipherConfig)
    : res QspCryptoError DirectionKeys :=
  secret ← derive_next_secret (dk_secret d);
  hp ← HeaderProtectionKey_try_clone (dk_hp d);
  packet ← derive_packet_material secret (AeadKind_key_len (cc_aead config)) (cc_iv_len config);
  aead ← PacketKey_new (pm_key packet) (pm_iv packet) (cc_aead config);
  Ok (mkDirection secret hp aead).

Definition DirectionKeys_try_clone (d : DirectionKeys) : res QspCryptoError DirectionKeys :=
  hp ← HeaderProtectionKey_try_clone (dk_hp d);
  aead ← PacketKey_try_clone (dk_aead d);
  Ok (mkDirection (dk_secret d) hp aead).

(** ** Key pairs and packets ([keys/mod.rs]) *)
Record UdpQspKeys := mkKeys {
  qk_cipher : CipherSuite;
  qk_tx : DirectionKeys;
  qk_rx : DirectionKeys;
}.

Definition UdpQspKeys_new (cipher : CipherSuite) (secret_tx secret_rx : bytes)
    : res QspCryptoError UdpQspKeys :=
  let config := CipherConfig_for_suite cipher in
  tx ← DirectionKeys_from_secret secret_tx config;
  rx ← DirectionKeys_from_secret secret_rx config;
  Ok (mkKeys cipher tx rx).

Definition UdpQspKeys_from_register (p : RegisterCidPayload) : res QspCryptoError UdpQspKeys :=
  UdpQspKeys_new (reg_cipher p) (reg_secret_tx p) (reg_secret_rx p).

Definition UdpQspKeys_try_clone (k : UdpQspKeys) : res QspCryptoError UdpQspKeys :=
  tx ← DirectionKeys_try_clone (qk_tx k);
  rx ← DirectionKeys_try_clone (qk_rx k);
  Ok (mkKeys (qk_cipher k) tx rx).

Definition with_next_tx_keys (k : UdpQspKeys) : res QspCryptoError UdpQspKeys :=
  let config := CipherConfig_for_suite (qk_cipher k) in
  tx ← DirectionKeys_next_generation (qk_tx k) config;
  rx ← DirectionKeys_try_clone (qk_rx k);
  Ok (mkKeys (qk_cipher k) tx rx).

Definition with_next_rx_keys (k : UdpQspKeys) : res QspCryptoError UdpQspKeys :=
  let config := CipherConfig_for_suite (qk_cipher k) in
  tx ← DirectionKeys_try_clone (qk_tx k);
  rx ← DirectionKeys_next_generation (qk_rx k) config;
  Ok (mkKeys (qk_cipher k) tx rx).

(** [protect_into]: the packet that ends up in the buffer. *)
Definition protect_into (k : UdpQspKeys) (dcid : bytes) (pn : Z) (key_phase : bool)
    (plaintext : bytes) : res QspCryptoError bytes :=
  let pn_len := packet_number_len pn in
  let header_len := 1 + zlen dcid + pn_len in
  let min_cipher_len := saturating_sub (snd (hp_sample_range (zlen dcid))) header_len in
  let pad_len := saturating_sub min_cipher_len (zlen plaintext + AEAD_TAG_LEN) in
  '(header, out) ← build_header dcid pn key_phase [];
  let header_len := zlen out in
  let padded := if pad_len =? 0 then plaintext else plaintext ++ zeros pad_len in
  out ← PacketKey_seal_into (dk_aead (qk_tx k)) pn header_len padded out;
  _ ← require_hp_sample out (zlen dcid);
  let '(a, b) := hp_sample_range (zlen dcid) in
  sample ← slice out a b;
  mask ← HeaderProtectionKey_mask (dk_hp (qk_tx k)) sample;
  apply_header_protection out (bh_pn_offset header) (bh_pn_len header) mask.

(** The packet, its metadata and the plaintext left in the buffer. *)
Record OpenedPacket := mkOpened {
  op_pn : Z;
  op_pn_len : Z;
  op_key_phase : bool;
  op_payload : bytes;
}.

Definition open_into_inner (rx : DirectionKeys) (dcid_len : Z) (packet : bytes) (expected_pn : Z)
    : res QspCryptoError OpenedPacket :=
  _ ← require_hp_sample packet dcid_len;
  let '(a, b) := hp_sample_range dcid_len in
  sample ← slice packet a b;
  mask ← HeaderProtectionKey_mask (dk_hp rx) sample;
  parsed ← parse_header dcid_len packet mask;
  if zlen packet <? zlen (ph_header parsed) + AEAD_TAG_LEN then Err PacketTooShort else
  let pn := reconstruct_packet_number (ph_pn parsed) expected_pn (ph_pn_len parsed) in
  ciphertext ← slice packet (zlen (ph_header parsed)) (zlen packet);
  out ← PacketKey_open_into (dk_aead rx) pn (ph_header parsed) ciphertext;
  Ok (mkOpened pn (ph_pn_len parsed) (ph_key_phase parsed) out).

Definition open_into (k : UdpQspKeys) (dcid_len : Z) (packet : bytes) (expected_pn : Z)
    : res QspCryptoError OpenedPacket :=
  open_into_inner (qk_rx k) dcid_len packet expected_pn.

(** ** HKDF-Expand is the one of RFC 5869

    [hkdf_T h info n] is the RFC's [T(n)] and [hkdf_okm] the concatenation of
    the first blocks, for the keyed hash [h]. *)
Fixpoint hkdf_T (h : bytes → bytes) (info : bytes) (n : nat) : bytes :=
  match n with
  | O => []
  | S k => h (hkdf_T h info k ++ info ++ [Z.of_nat n])
  end.

Fixpoint hkdf_okm (h : bytes → bytes) (info : bytes) (n : nat) : bytes :=
  match n with
  | O => []
  | S k => hkdf_okm h info k ++ hkdf_T h info n
  end.

Section Hkdf.
Context (prk info : bytes) (h : bytes → bytes).
Hypothesis Hh : ∀ m, hmac_sha256 prk m = Some (h m).
Hypothesis Hlen : ∀ m, zlen (h m) = 32.

Lemma zlen_okm n : zlen (hkdf_okm h info n) = 32 * Z.of_nat n.
Proof. induction n as [|n IH]; [done|]. cbn [hkdf_okm hkdf_T]. rewrite zlen_app, IH, Hlen. lia. Qed.

Lemma okm_prefix n m : (n ≤ m)%nat → hkdf_okm h info n `prefix_of` hkdf_okm h info m.
Proof.
  induction 1 as [|m _ IH]; [done|]. cbn [hkdf_okm]. by apply prefix_app_r.
Qed.

Lemma take_okm n m (len : Z) :
  0 ≤ len ≤ 32 * Z.of_nat n → (n ≤ m)%nat →
  take (Z.to_nat len) (hkdf_okm h info n) = take (Z.to_nat len) (hkdf_okm h info m).
Proof.
  intros Hl Hnm. destruct (okm_prefix n m Hnm) as [k ->]. pose proof (zlen_okm n) as L.
  unfold zlen in L. rewrite take_app_le; [done|lia].
Qed.

Lemma expand_loop_spec fuel n len :
  (fuel + n = 255)%nat → 0 ≤ len → (n = 0%nat ∨ 32 * (Z.of_nat n - 1) < len) → (n < 255)%nat →
  expand_loop fuel prk info (take (Z.to_nat len) (hkdf_okm h info n)) (hkdf_T h info n)
    (Z.of_nat n + 1) len =
  if len <=? 32 * 254 then Ok (take (Z.to_nat len) (hkdf_okm h info 254)) else Err CryptoFail.
Proof.
  revert n. induction fuel as [|fuel IH]; intros n Hf Hl Hn Hlt; [lia|]. cbn [expand_loop].
  pose proof (zlen_okm n) as Lo.
  destruct (Z_le_gt_dec len (32 * Z.of_nat n)) as [Hdone|Hmore].
  { assert (zlen (take (Z.to_nat len) (hkdf_okm h info n)) = len) as ->
      by (unfold zlen in *; rewrite length_take; lia).
    rewrite Z.ltb_irrefl. cbn [negb]. destruct (Z.leb_spec len (32 * 254)); [|lia].
    f_equal. apply take_okm; lia. }
  rewrite (take_ge (hkdf_okm h info n)) by (unfold zlen in Lo; lia). rewrite Lo.
  destruct (Z.ltb_spec (32 * Z.of_nat n) len); [|lia]. cbn [negb]. rewrite Hh. res_simpl.
  rewrite Hlen. rewrite slice_ok by (rewrite ?Hlen; lia). res_simpl.
  replace (h (hkdf_T h info n ++ info ++ [Z.of_nat n + 1])) with (hkdf_T h info (S n))
    by (cbn [hkdf_T]; do 4 f_equal; lia).
  assert (hkdf_okm h info n ++ sub (hkdf_T h info (S n)) 0 (Z.min (len - 32 * Z.of_nat n) 32) =
          take (Z.to_nat len) (hkdf_okm h info (S n))) as ->.
  { cbn [hkdf_okm]. unfold zlen in Lo. rewrite take_app_ge by lia. f_equal. unfold sub.
    rewrite drop_0. assert (zlen (hkdf_T h info (S n)) = 32) as L by apply Hlen. unfold zlen in L.
    destruct (Z_le_gt_dec (len - 32 * Z.of_nat n) 32).
    - f_equal. lia.
    - rewrite !take_ge by lia. done. }
  destruct (Z.leb_spec (Z.of_nat n + 1 + 1) 255) as [Hc|Hc]; res_simpl.
  - replace (Z.of_nat n + 1 + 1) with (Z.of_nat (S n) + 1) by lia. apply IH; lia.
  - destruct (Z.leb_spec len (32 * 254)); [lia|done].
Qed.

Lemma hkdf_expand_spec len :
  0 ≤ len →
  hkdf_expand_sha256_vec prk info len =
  if len <=? 32 * 254 then Ok (take (Z.to_nat len) (hkdf_okm h info 254)) else Err CryptoFail.
Proof.
  intros Hl. unfold hkdf_expand_sha256_vec. destruct (Z.eqb_spec len 0) as [->|]; [done|].
  rewrite <- (expand_loop_spec 255 0 len) by lia.
  cbn [hkdf_okm hkdf_T]. by rewrite take_nil.
Qed.
End Hkdf.

(** ** Well-formed keys: the ones the constructors make *)
Definition hp_wf (k : HeaderProtectionKey) : Prop :=
  match k with
  | KAes128 key sched => zlen key = 16 ∧ AES_set_encrypt_key key = Some sched
  | KChaCha20 key => zlen key = 32
  end.
Definition pk_wf (k : PacketKey) : Prop :=
  zlen (pk_iv k) = 12 ∧ zlen (pk_key k) = AeadKind_key_len (pk_aead k) ∧
  EVP_AEAD_CTX_new (pk_aead k) (pk_key k) AEAD_TAG_LEN = Some (pk_ctx k).
Definition dk_wf (d : DirectionKeys) : Prop :=
  zlen (dk_secret d) = UDP_QSP_TRAFFIC_SECRET_LEN ∧ hp_wf (dk_hp d) ∧ pk_wf (dk_aead d).
Definition keys_wf (k : UdpQspKeys) : Prop := dk_wf (qk_tx k) ∧ dk_wf (qk_rx k).

Lemma HeaderProtectionKey_new_wf kind key k : HeaderProtectionKey_new kind key = Ok k → hp_wf k.
Proof.
  unfold HeaderProtectionKey_new. intros H.
  destruct (Z.eqb_spec (zlen key) (HeaderProtectionKind_key_len kind)) as [E|]; [|done].
  cbn [negb] in H. destruct kind; [|by simplify_eq].
  destruct (AES_set_encrypt_key key) eqn:Ek; res_simpl in H; simplify_eq. done.
Qed.

Lemma hp_clone k : hp_wf k → HeaderProtectionKey_try_clone k = Ok k.
Proof.
  destruct k as [key sched|key]; simpl; unfold HeaderProtectionKey_new.
  - intros [E Es]. simpl. unfold HP_KEY_LEN. rewrite E, Es. done.
  - intros E. simpl. unfold CHACHA20_POLY1305_KEY_LEN. by rewrite E.
Qed.

Lemma PacketKey_new_wf key iv aead k : PacketKey_new key iv aead = Ok k → pk_wf k.
Proof.
  unfold PacketKey_new, AeadContext_new, AEAD_IV_LEN, try_array. intros H.
  destruct (Z.eqb_spec (zlen iv) 12) as [Ei|]; [|done]. cbn [negb] in H. res_simpl in H.
  destruct (Z.eqb_spec (zlen key) (AeadKind_key_len aead)) as [Ek|]; [|done]. cbn [negb] in H.
  destruct (EVP_AEAD_CTX_new _ _ _) eqn:Ec; res_simpl in H; simplify_eq. done.
Qed.

Lemma pk_clone k : pk_wf k → PacketKey_try_clone k = Ok k.
Proof.
  destruct k as [key iv aead ctx]. intros (Ei & Ek & Ec). simpl in *.
  unfold PacketKey_try_clone, PacketKey_new, AeadContext_new, AEAD_IV_LEN, try_array.
  cbn [pk_key pk_iv pk_aead].
  rewrite Ei. simpl. rewrite Ek, Z.eqb_refl. cbn [negb]. by rewrite Ec.
Qed.

Lemma dk_clone d : dk_wf d → DirectionKeys_try_clone d = Ok d.
Proof.
  intros (_ & Hh & Hp). unfold DirectionKeys_try_clone. rewrite hp_clone, pk_clone by done.
  by destruct d.
Qed.

Lemma try_array_inv n (l k : bytes) : try_array n l = Some k → k = l ∧ zlen l = n.
Proof. unfold try_array. destruct (Z.eqb_spec (zlen l) n); naive_solver. Qed.

Lemma DirectionKeys_from_secret_wf secret config d :
  DirectionKeys_from_secret secret config = Ok d → dk_wf d ∧ dk_secret d = secret.
Proof.
  unfold DirectionKeys_from_secret. intros H. res_inv H. simplify_eq.
  destruct (try_array _ secret) as [s|] eqn:Es; simplify_eq/=.
  apply try_array_inv in Es as [-> E]. split; [|done]. unfold dk_wf. cbn [dk_secret dk_hp dk_aead].
  split_and!; [done|by eapply HeaderProtectionKey_new_wf|by eapply PacketKey_new_wf].
Qed.

Lemma DirectionKeys_next_generation_wf d config d' :
  dk_wf d → DirectionKeys_next_generation d config = Ok d' → dk_wf d' ∧ dk_hp d' = dk_hp d.
Proof.
  intros (_ & Hh & _). unfold DirectionKeys_next_generation. rewrite hp_clone by done.
  intros H. res_inv H. simplify_eq. unfold derive_next_secret in *.
  destruct (hkdf_expand_label_sha256 _ _ _ _) as [s| |]; simplify_eq/=.
  destruct (try_array _ s) as [s'|] eqn:Es; simplify_eq/=. apply try_array_inv in Es as [-> E].
  split; [|done]. unfold dk_wf. cbn [dk_secret dk_hp dk_aead]. split_and!; [done|done|by eapply PacketKey_new_wf].
Qed.

Lemma UdpQspKeys_new_wf cipher tx rx k : UdpQspKeys_new cipher tx rx = Ok k → keys_wf k.
Proof.
  unfold UdpQspKeys_new. intros H. res_inv H. simplify_eq.
  split; by eapply DirectionKeys_from_secret_wf.
Qed.

(** Rotating one direction keeps the other one, the header-protection keys
    and well-formedness. *)
Lemma with_next_tx_keys_ok k k' :
  keys_wf k → with_next_tx_keys k = Ok k' →
  keys_wf k' ∧ qk_rx k' = qk_rx k ∧ dk_hp (qk_tx k') = dk_hp (qk_tx k) ∧ qk_cipher k' = qk_cipher k ∧
  DirectionKeys_next_generation (qk_tx k) (CipherConfig_for_suite (qk_cipher k)) = Ok (qk_tx k').
Proof.
  intros [Ht Hr]. unfold with_next_tx_keys. rewrite dk_clone by done. intros H. res_inv H. simplify_eq.
  match goal with E : DirectionKeys_next_generation _ _ = Ok _ |- _ =>
    destruct (DirectionKeys_next_generation_wf _ _ _ Ht E) as [? ?] end.
  unfold keys_wf. cbn [qk_cipher qk_tx qk_rx]. by split_and!.
Qed.

Lemma with_next_rx_keys_ok k k' :
  keys_wf k → with_next_rx_keys k = Ok k' →
  keys_wf k' ∧ qk_tx k' = qk_tx k ∧ dk_hp (qk_rx k') = dk_hp (qk_rx k) ∧ qk_cipher k' = qk_cipher k ∧
  DirectionKeys_next_generation (qk_rx k) (CipherConfig_for_suite (qk_cipher k)) = Ok (qk_rx k').
Proof.
  intros [Ht Hr]. unfold with_next_rx_keys. rewrite dk_clone by done. intros H. res_inv H. simplify_eq.
  match goal with E : DirectionKeys_next_generation _ _ = Ok _ |- _ =>
    destruct (DirectionKeys_next_generation_wf _ _ _ Hr E) as [? ?] end.
  unfold keys_wf. cbn [qk_cipher qk_tx qk_rx]. by split_and!.
Qed.

(** ** Protecting a packet *)
Section Packets.
Context {L : BoringLaws B}.

Lemma mask_ok k sample :
  zlen sample = 16 → ∃ m, HeaderProtectionKey_mask k sample = Ok m ∧ zlen m = HP_MASK_LEN.
Proof.
  intros Hs. unfold HeaderProtectionKey_mask, HP_SAMPLE_LEN, HP_MASK_LEN. rewrite Hs. cbn [negb].
  change (16 =? 16) with true. cbn [negb]. destruct k as [key sched|key].
  - destruct (AES_encrypt_len sched sample Hs) as [El _].
    fold (zlen (AES_encrypt sample sched)) in El. rewrite slice_ok by lia. res_simpl.
    rewrite copy_array_ok by (rewrite zlen_sub; lia). eexists. split; [done|]. rewrite zlen_sub; lia.
  - rewrite (slice_ok sample 0), (slice_ok sample 4) by lia. res_simpl. unfold try_array.
    rewrite zlen_sub by lia. change (4 - 0 =? 4) with true. res_simpl.
    eexists. split; [done|]. by destruct (chacha_len (zeros 5) key (sub sample 4 16)
      (from_le (sub sample 0 4)) (bytes_ok_zeros 5)) as [E _].
Qed.

(** The plaintext a packet carries: padded so that a sample can be taken. *)
Definition pad_len (pn : Z) (plaintext : bytes) : Z :=
  Z.max 0 (4 - packet_number_len pn - zlen plaintext).

Lemma zlen_make_nonce iv pn : zlen iv = 12 → zlen (make_nonce iv pn) = 12.
Proof.
  intros E. unfold make_nonce. rewrite zlen_app.
  pose proof (zlen_to_be 8 pn) as Lb. unfold zlen in *.
  rewrite length_take, length_zip_with, length_drop. lia.
Qed.

(** Packet numbers give distinct nonces under one IV. *)
Lemma make_nonce_inj iv pn pn' :
  zlen iv = 12 → u64_ok pn → u64_ok pn' → make_nonce iv pn = make_nonce iv pn' → pn = pn'.
Proof.
  intros E Hp Hp' H. unfold make_nonce in H. apply app_inj_1 in H as [_ H]; [|done].
  assert (to_be 8 pn = to_be 8 pn') as Eb.
  { pose proof (zlen_to_be 8 pn) as L1. pose proof (zlen_to_be 8 pn') as L2. unfold zlen in *.
    revert H. generalize dependent (to_be 8 pn). generalize dependent (to_be 8 pn'). intros l2 L2 l1 L1.
    assert (length (drop 4 iv) = 8%nat) as Ld by (rewrite length_drop; lia). revert Ld.
    generalize (drop 4 iv) as v. intros v Ld H.
    assert (length l1 = length v ∧ length l2 = length v) as [El1 El2] by lia.
    clear -H El1 El2. revert l1 l2 El1 El2 H.
    induction v as [|x v IH]; intros [|a l1] [|b l2] E1 E2 H; simplify_eq/=; [done|].
    f_equal; [|by apply IH].
    rewrite <- (Z.lxor_0_l a), <- (Z.lxor_0_l b), <- (Z.lxor_nilpotent x), !Z.lxor_assoc. congruence. }
  rewrite <- (from_be_to_be8 pn), <- (from_be_to_be8 pn'), Eb by done. done.
Qed.

(** The shape of a protected packet: the masked header and the ciphertext.
    The mask is the one of the sample, which the masking does not touch. *)
Definition packet_of (dcid : bytes) (pn : Z) (kp : bool) (mask ct : bytes) : bytes :=
  [Z.lxor (first_byte (packet_number_len pn) kp) (Z.land (nth 0 mask 0) 0x1f)] ++ dcid
    ++ xor_mask (to_be (Z.to_nat (packet_number_len pn)) pn) mask 0 ++ ct.

Definition sample_of (pn : Z) (ct : bytes) : bytes :=
  sub ct (4 - packet_number_len pn) (20 - packet_number_len pn).

Lemma sample_plain dcid pn kp ct :
  20 - packet_number_len pn ≤ zlen ct →
  sub (plain_header dcid pn kp ++ ct) (1 + zlen dcid + 4) (1 + zlen dcid + 4 + 16) = sample_of pn ct.
Proof.
  intros Hc. pose proof (packet_number_len_range pn). pose proof (zlen_nonneg dcid).
  assert (zlen (plain_header dcid pn kp) = 1 + zlen dcid + packet_number_len pn) as Lh
    by (unfold plain_header; zl; lia).
  rewrite sub_app_r by lia. unfold sample_of. f_equal; lia.
Qed.

Lemma sample_packet dcid pn kp mask ct :
  zlen mask = 5 → 20 - packet_number_len pn ≤ zlen ct →
  sub (packet_of dcid pn kp mask ct) (1 + zlen dcid + 4) (1 + zlen dcid + 4 + 16) = sample_of pn ct ∧
  zlen (packet_of dcid pn kp mask ct) = 1 + zlen dcid + packet_number_len pn + zlen ct.
Proof.
  intros Hm Hc. pose proof (packet_number_len_range pn). pose proof (zlen_nonneg dcid).
  unfold packet_of.
  assert (zlen (xor_mask (to_be (Z.to_nat (packet_number_len pn)) pn) mask 0) = packet_number_len pn)
    as Lx by (rewrite zlen_xor_mask; zl; lia).
  split; [|zl; lia]. rewrite !sub_app_r by (zl; lia). zl. rewrite Lx. unfold sample_of. f_equal; lia.
Qed.

Lemma padded_eq pn (plaintext : bytes) :
  (if pad_len pn plaintext =? 0 then plaintext else plaintext ++ zeros (pad_len pn plaintext)) =
  plaintext ++ zeros (pad_len pn plaintext).
Proof.
  destruct (Z.eqb_spec (pad_len pn plaintext) 0) as [->|]; [|done]. by rewrite app_nil_r.
Qed.

(** Protection always succeeds, and the packet is the masked header followed
    by the sealed, padded plaintext. *)
Lemma protect_into_ok k dcid pn kp plaintext :
  pk_wf (dk_aead (qk_tx k)) → bytes_ok plaintext → zlen plaintext < 2 ^ 31 →
  ∃ mask ct,
    protect_into k dcid pn kp plaintext = Ok (packet_of dcid pn kp mask ct) ∧
    EVP_AEAD_CTX_seal (pk_ctx (dk_aead (qk_tx k))) (zlen plaintext + pad_len pn plaintext + 16)
      (make_nonce (pk_iv (dk_aead (qk_tx k))) pn) (plaintext ++ zeros (pad_len pn plaintext))
      (plain_header dcid pn kp) = Some ct ∧
    HeaderProtectionKey_mask (dk_hp (qk_tx k)) (sample_of pn ct) = Ok mask ∧
    zlen mask = HP_MASK_LEN ∧ zlen ct = zlen plaintext + pad_len pn plaintext + 16.
Proof.
  intros (Hiv & _) Hb Hl. pose proof (packet_number_len_range pn) as R.
  pose proof (zlen_nonneg dcid). pose proof (zlen_nonneg plaintext).
  set (padded := plaintext ++ zeros (pad_len pn plaintext)).
  assert (0 ≤ pad_len pn plaintext ≤ 4) as Hpad by (unfold pad_len; lia).
  assert (zlen padded = zlen plaintext + pad_len pn plaintext) as Lp
    by (unfold padded; rewrite zlen_app, zlen_zeros; lia).
  destruct (seal_total (pk_ctx (dk_aead (qk_tx k))) (make_nonce (pk_iv (dk_aead (qk_tx k))) pn) padded
    (plain_header dcid pn kp) (zlen plaintext + pad_len pn plaintext + 16)) as [ct Hct].
  { by apply zlen_make_nonce. } { unfold AEAD_TAG_LEN. lia. } { lia. }
  assert (array_ok (zlen padded + AEAD_TAG_LEN) ct) as [Lc _].
  { eapply seal_len; [|exact Hct]. apply bytes_ok_app. auto with slt. }
  fold (zlen ct) in Lc. unfold AEAD_TAG_LEN in Lc.
  destruct (mask_ok (dk_hp (qk_tx k)) (sample_of pn ct)) as (mask & Hmask & Lm).
  { unfold sample_of. rewrite zlen_sub by (unfold pad_len in *; lia). lia. }
  exists mask, ct. split_and!; try done; try lia.
  unfold protect_into, hp_sample_range, sample_offset, HP_SAMPLE_LEN, AEAD_TAG_LEN.
  rewrite build_header_ok. res_simpl. cbn [app snd bh_pn_offset bh_pn_len].
  assert (saturating_sub (saturating_sub (1 + zlen dcid + 4 + 16) (1 + zlen dcid + packet_number_len pn))
            (zlen plaintext + 16) = pad_len pn plaintext) as -> by (unfold saturating_sub, pad_len; lia).
  rewrite padded_eq. fold padded. unfold PacketKey_seal_into, AeadContext_seal, AEAD_TAG_LEN.
  pose proof (zlen_nonneg (plain_header dcid pn kp)). rewrite slice_ok by lia. res_simpl.
  rewrite sub_all by lia. rewrite Lp, Hct. res_simpl.
  assert (zlen (plain_header dcid pn kp) = 1 + zlen dcid + packet_number_len pn) as Lh
    by (unfold plain_header; zl; lia).
  unfold require_hp_sample, sample_offset, HP_SAMPLE_LEN.
  destruct (Z.ltb_spec (zlen (plain_header dcid pn kp ++ ct)) (1 + zlen dcid + 4 + 16)) as [Hlt|_].
  { rewrite zlen_app in Hlt. unfold pad_len in *. lia. }
  res_simpl. rewrite slice_ok by (rewrite ?zlen_app; unfold pad_len in *; lia). res_simpl.
  rewrite sample_plain by (unfold pad_len in *; lia). rewrite Hmask. res_simpl.
  unfold plain_header, packet_of. rewrite <- !app_assoc.
  rewrite <- apply_header_protection_app by (done || zl; lia). f_equal. zl. lia.
Qed.

(** What a receiver with the right header-protection key does with a
    protected packet: it reads the header and tries the AEAD. *)
Lemma open_packet_of rx dcid pn kp mask ct expected :
  0 ≤ pn → zlen mask = HP_MASK_LEN → 20 - packet_number_len pn ≤ zlen ct →
  HeaderProtectionKey_mask (dk_hp rx) (sample_of pn ct) = Ok mask →
  open_into_inner rx (zlen dcid) (packet_of dcid pn kp mask ct) expected =
    (let pn' := reconstruct_packet_number (truncate_pn pn) expected (packet_number_len pn) in
     out ← PacketKey_open_into (dk_aead rx) pn' (plain_header dcid pn kp) ct;
     Ok (mkOpened pn' (packet_number_len pn) kp out)).
Proof.
  intros Hpn Lm Hct Hmask. pose proof (packet_number_len_range pn) as R. pose proof (zlen_nonneg dcid).
  assert (16 ≤ zlen ct) as Hct16 by lia.
  destruct (sample_packet dcid pn kp mask ct Lm Hct) as [Hs Lpkt].
  unfold open_into_inner, require_hp_sample, hp_sample_range, sample_offset, HP_SAMPLE_LEN.
  destruct (Z.ltb_spec (zlen (packet_of dcid pn kp mask ct)) (1 + zlen dcid + 4 + 16)); [lia|].
  res_simpl. rewrite slice_ok by lia. res_simpl. rewrite Hs, Hmask. res_simpl.
  pose proof (parse_header_masked dcid pn kp ct mask ltac:(lia) Hct16 Lm) as P.
  change (parse_header (zlen dcid) (packet_of dcid pn kp mask ct) mask =
    Ok (mkParsed (truncate_pn pn) (packet_number_len pn) kp (plain_header dcid pn kp))) in P.
  rewrite P. res_simpl. clear P. cbn [ph_header ph_pn ph_pn_len ph_key_phase].
  assert (zlen (plain_header dcid pn kp) = 1 + zlen dcid + packet_number_len pn) as Lh
    by (unfold plain_header; zl; lia).
  unfold AEAD_TAG_LEN. rewrite Lpkt, Lh.
  destruct (Z.ltb_spec (1 + zlen dcid + packet_number_len pn + zlen ct)
    (1 + zlen dcid + packet_number_len pn + 16)); [lia|].
  rewrite slice_ok by lia. res_simpl.
  assert (sub (packet_of dcid pn kp mask ct) (1 + zlen dcid + packet_number_len pn)
    (1 + zlen dcid + packet_number_len pn + zlen ct) = ct) as ->; [|done].
  unfold packet_of.
  assert (zlen (xor_mask (to_be (Z.to_nat (packet_number_len pn)) pn) mask 0) = packet_number_len pn)
    as Lx by (rewrite zlen_xor_mask; unfold HP_MASK_LEN in *; zl; lia).
  rewrite !sub_app_r by (zl; lia). apply sub_all; zl; lia.
Qed.

(** Opening a protected packet with the matching direction gives its number,
    its phase and its padded plaintext. *)
Lemma open_protected k rx dcid pn kp plaintext expected packet :
  pk_wf (dk_aead (qk_tx k)) → bytes_ok plaintext → zlen plaintext < 2 ^ 31 → u64_ok pn →
  dk_hp rx = dk_hp (qk_tx k) → dk_aead rx = dk_aead (qk_tx k) →
  protect_into k dcid pn kp plaintext = Ok packet →
  reconstruct_packet_number (truncate_pn pn) expected (packet_number_len pn) = pn →
  open_into_inner rx (zlen dcid) packet expected =
    Ok (mkOpened pn (packet_number_len pn) kp (plaintext ++ zeros (pad_len pn plaintext))).
Proof.
  intros Hk Hb Hl [Hpn _] Hhp Haead Hprot Hrec. pose proof (zlen_nonneg plaintext).
  destruct (protect_into_ok k dcid pn kp plaintext Hk Hb Hl) as (mask & ct & E & Hseal & Hmask & Lm & Lc).
  rewrite E in Hprot. apply (inj Ok) in Hprot as <-. pose proof (packet_number_len_range pn) as R.
  rewrite open_packet_of by (done || (by rewrite Hhp) || unfold pad_len in *; lia).
  cbv zeta. rewrite Hrec. unfold PacketKey_open_into, AEAD_TAG_LEN, AeadContext_open. rewrite Haead.
  destruct (Z.ltb_spec (zlen ct) 16); [unfold pad_len in *; lia|].
  erewrite open_seal; [done|exact Hseal|]. rewrite zlen_app, zlen_zeros by (unfold pad_len; lia). lia.
Qed.

(** With the right header-protection key the phase bit is read correctly,
    even when the packet keys are those of another generation. *)
Lemma open_phase k rx dcid pn kp plaintext expected packet o :
  pk_wf (dk_aead (qk_tx k)) → bytes_ok plaintext → zlen plaintext < 2 ^ 31 → 0 ≤ pn →
  dk_hp rx = dk_hp (qk_tx k) →
  protect_into k dcid pn kp plaintext = Ok packet →
  open_into_inner rx (zlen dcid) packet expected = Ok o → op_key_phase o = kp.
Proof.
  intros Hk Hb Hl Hpn Hhp Hprot Ho. pose proof (zlen_nonneg plaintext).
  destruct (protect_into_ok k dcid pn kp plaintext Hk Hb Hl) as (mask & ct & E & _ & Hmask & Lm & Lc).
  rewrite E in Hprot. apply (inj Ok) in Hprot as <-. pose proof (packet_number_len_range pn) as R.
  rewrite open_packet_of in Ho by (done || (by rewrite Hhp) || unfold pad_len in *; lia).
  cbv zeta in Ho. apply bind_ok in Ho as (out & _ & Ho). by apply (inj Ok) in Ho as <-.
Qed.

(** Opening never reads out of range, whatever the packet. *)
Lemma open_no_panic rx dcid_len packet expected :
  0 ≤ dcid_len → open_into_inner rx dcid_len packet expected ≠ Panic.
Proof.
  intros Hd. unfold open_into_inner, require_hp_sample, hp_sample_range, sample_offset, HP_SAMPLE_LEN.
  destruct (Z.ltb_spec (zlen packet) (1 + dcid_len + 4 + 16)); [done|]. res_simpl.
  rewrite slice_ok by lia. res_simpl.
  destruct (mask_ok (dk_hp rx) (sub packet (1 + dcid_len + 4) (1 + dcid_len + 4 + 16)))
    as (m & -> & Lm); [rewrite zlen_sub; lia|]. res_simpl.
  apply bind_not_panic; [by apply parse_header_no_panic; lia|]. intros parsed _.
  unfold AEAD_TAG_LEN. pose proof (zlen_nonneg (ph_header parsed)).
  destruct (Z.ltb_spec (zlen packet) (zlen (ph_header parsed) + 16)); [done|].
  rewrite slice_ok by lia. res_simpl. unfold PacketKey_open_into, AeadContext_open. no_panic.
Qed.
End Packets.

(** ** Derivation succeeds *)
Section Total.
Context {L : BoringLaws B} {T : BoringTotal B}.

Lemma hkdf_expand_total prk info len :
  0 ≤ len ≤ 32 * 254 → ∃ out, hkdf_expand_sha256_vec prk info len = Ok out ∧ zlen out = len.
Proof.
  intros Hl. pose (h := λ m, default [] (hmac_sha256 prk m)).
  assert (∀ m, hmac_sha256 prk m = Some (h m)) as Hh.
  { intros m. unfold h. by destruct (hmac_sha256_total prk m) as [d ->]. }
  assert (∀ m, zlen (h m) = 32) as Hlen by (intros m; apply (hmac_sha256_len prk m _ (Hh m))).
  rewrite (hkdf_expand_spec prk info h Hh Hlen) by lia. rewrite (proj2 (Z.leb_le _ _)) by lia.
  eexists. split; [done|]. pose proof (zlen_okm info h Hlen 254) as Lo. unfold zlen in *.
  rewrite length_take. lia.
Qed.

Lemma hkdf_expand_label_total secret label len :
  0 ≤ len ≤ 32 * 254 → zlen label ≤ 249 →
  ∃ out, hkdf_expand_label_sha256 secret label [] len = Ok out ∧ zlen out = len.
Proof.
  intros Hl Hlab. unfold hkdf_expand_label_sha256, try_uint.
  change (zlen TLS13_LABEL_PREFIX) with 6. change (zlen []) with 0.
  rewrite !(proj2 (Z.leb_le _ _)) by lia. res_simpl. by apply hkdf_expand_total.
Qed.

Lemma derive_packet_material_total secret klen :
  0 ≤ klen ≤ 32 →
  ∃ m, derive_packet_material secret klen AEAD_IV_LEN = Ok m ∧ zlen (pm_key m) = klen ∧
       zlen (pm_iv m) = AEAD_IV_LEN.
Proof.
  intros Hk. unfold derive_packet_material, AEAD_IV_LEN.
  destruct (hkdf_expand_label_total secret QUIC_KEY_LABEL klen) as (key & -> & Lk); [lia|done|].
  destruct (hkdf_expand_label_total secret QUIC_IV_LABEL 12) as (iv & -> & Li); [lia|done|].
  by eexists.
Qed.

Lemma PacketKey_new_total key iv aead :
  zlen iv = AEAD_IV_LEN → zlen key = AeadKind_key_len aead → ∃ k, PacketKey_new key iv aead = Ok k.
Proof.
  intros Ei Ek. unfold PacketKey_new, AeadContext_new, try_array. rewrite Ei, Ek, !Z.eqb_refl.
  cbn [negb]. res_simpl. destruct (EVP_AEAD_CTX_new_total aead key) as [c ->]; [by rewrite Ek; destruct aead|].
  by eexists.
Qed.

Lemma DirectionKeys_from_secret_total secret cipher :
  zlen secret = UDP_QSP_TRAFFIC_SECRET_LEN →
  ∃ d, DirectionKeys_from_secret secret (CipherConfig_for_suite cipher) = Ok d.
Proof.
  intros Es. unfold DirectionKeys_from_secret, try_array. rewrite Es, Z.eqb_refl. res_simpl.
  set (config := CipherConfig_for_suite cipher).
  unfold derive_header_protection_key.
  destruct (hkdf_expand_label_total secret QUIC_HP_LABEL (HeaderProtectionKind_key_len (cc_hp config)))
    as (hk & -> & Lh); [by destruct cipher|done|]. res_simpl.
  destruct (derive_packet_material_total secret (AeadKind_key_len (cc_aead config)))
    as (m & Em & Lk & Li); [by destruct cipher|].
  replace (cc_iv_len config) with AEAD_IV_LEN by (by destruct cipher). rewrite Em. res_simpl.
  assert (∃ hp, HeaderProtectionKey_new (cc_hp config) hk = Ok hp) as [hp ->].
  { unfold HeaderProtectionKey_new. rewrite Lh, Z.eqb_refl. cbn [negb].
    destruct (cc_hp config); [|by eexists].
    destruct (AES_set_encrypt_key_total hk) as [s ->]; [done|]. by eexists. }
  res_simpl. destruct (PacketKey_new_total (pm_key m) (pm_iv m) (cc_aead config)) as [pk ->]; [done..|].
  by eexists.
Qed.

Lemma UdpQspKeys_new_total cipher tx rx :
  zlen tx = UDP_QSP_TRAFFIC_SECRET_LEN → zlen rx = UDP_QSP_TRAFFIC_SECRET_LEN →
  ∃ k, UdpQspKeys_new cipher tx rx = Ok k.
Proof.
  intros Et Er. unfold UdpQspKeys_new.
  destruct (DirectionKeys_from_secret_total tx cipher Et) as [t ->].
  destruct (DirectionKeys_from_secret_total rx cipher Er) as [r ->]. by eexists.
Qed.

Lemma DirectionKeys_next_generation_total d cipher :
  dk_wf d → ∃ d', DirectionKeys_next_generation d (CipherConfig_for_suite cipher) = Ok d'.
Proof.
  intros (_ & Hh & _). unfold DirectionKeys_next_generation, derive_next_secret.
  destruct (hkdf_expand_label_total (dk_secret d) QUIC_KU_LABEL UDP_QSP_TRAFFIC_SECRET_LEN)
    as (s & -> & Ls); [done|done|]. res_simpl. unfold try_array. rewrite Ls, Z.eqb_refl. res_simpl.
  rewrite hp_clone by done. res_simpl. set (config := CipherConfig_for_suite cipher).
  destruct (derive_packet_material_total s (AeadKind_key_len (cc_aead config)))
    as (m & Em & Lk & Li); [by destruct cipher|].
  replace (cc_iv_len config) with AEAD_IV_LEN by (by destruct cipher). rewrite Em. res_simpl.
  destruct (PacketKey_new_total (pm_key m) (pm_iv m) (cc_aead config)) as [pk ->]; [done..|]. by eexists.
Qed.

Lemma with_next_tx_keys_total k : keys_wf k → ∃ k', with_next_tx_keys k = Ok k'.
Proof.
  intros [Ht Hr]. unfold with_next_tx_keys.
  destruct (DirectionKeys_next_generation_total (qk_tx k) (qk_cipher k) Ht) as [t ->].
  rewrite dk_clone by done. by eexists.
Qed.
Lemma with_next_rx_keys_total k : keys_wf k → ∃ k', with_next_rx_keys k = Ok k'.
Proof.
  intros [Ht Hr]. unfold with_next_rx_keys.
  destruct (DirectionKeys_next_generation_total (qk_rx k) (qk_cipher k) Hr) as [r ->].
  rewrite dk_clone by done. by eexists.
Qed.
End Total.

(** ** Theorems *)

(** Key derivation follows the RFCs.  [hkdf_expand_label_sha256] is
    HKDF-Expand-Label of RFC 8446, 7.1: HKDF-Expand (RFC 5869, 2.3) of the
    structure HkdfLabel with the label "tls13 " + label, for every secret,
    label of at most 249 bytes, context of at most 255 bytes and output of up
    to 254 blocks; otherwise it is an error, never a panic.  [h] is the HMAC
    with the secret as its key. *)
Theorem hkdf_expand_label_rfc (secret label context : bytes) (h : bytes → bytes) (len : Z) :
  (∀ m, hmac_sha256 secret m = Some (h m)) → (∀ m, zlen (h m) = 32) → 0 ≤ len →
  hkdf_expand_label_sha256 secret label context len =
    if (6 + zlen label <=? 255) && (zlen context <=? 255) && (len <=? 32 * 254) then
      Ok (take (Z.to_nat len)
        (hkdf_okm h (to_be 2 len ++ [6 + zlen label] ++ bytes_of_string "tls13 " ++ label ++
                     [zlen context] ++ context) 254))
    else Err CryptoFail.
Proof.
  intros Hh Hl Hlen. unfold hkdf_expand_label_sha256, try_uint. change (zlen TLS13_LABEL_PREFIX) with 6.
  destruct (Z.leb_spec len 65535) as [Hs|Hs]; res_simpl.
  2: { rewrite (proj2 (Z.leb_gt len (32 * 254))) by lia. by rewrite andb_false_r. }
  destruct (6 + zlen label <=? 255); res_simpl; [|done].
  destruct (zlen context <=? 255); res_simpl; [|done]. cbn [andb].
  by rewrite (hkdf_expand_spec secret _ h Hh Hl) by done.
Qed.

(** One packet: what one endpoint protects, the other opens.  With keys
    derived from the same two secrets in opposite roles, protecting a payload
    under any packet number succeeds, and opening gives the number, the phase
    bit and the payload back (with the zero padding that fills short packets),
    as long as the number is not further from the expected one than the
    truncation allows. *)
Theorem protect_open_roundtrip {L : BoringLaws B} cipher a b ks kr (dcid plaintext : bytes) pn kp expected :
  UdpQspKeys_new cipher a b = Ok ks → UdpQspKeys_new cipher b a = Ok kr →
  bytes_ok plaintext → zlen plaintext < 2 ^ 31 → u64_ok pn → u64_ok expected →
  expected < pn + 256 ^ packet_number_len pn / 2 → pn ≤ expected + 2 ^ 31 ∨ pn < 2 ^ 32 →
  ∃ packet, protect_into ks dcid pn kp plaintext = Ok packet ∧
    open_into kr (zlen dcid) packet expected =
      Ok (mkOpened pn (packet_number_len pn) kp (plaintext ++ zeros (pad_len pn plaintext))).
Proof.
  intros Hs Hr Hb Hl Hpn He Hlo Hhi. pose proof (UdpQspKeys_new_wf _ _ _ _ Hs) as [(_ & _ & Hk) _].
  destruct (protect_into_ok ks dcid pn kp plaintext Hk Hb Hl) as (mask & ct & E & _).
  eexists. split; [exact E|]. unfold UdpQspKeys_new in Hs, Hr. res_inv Hs. res_inv Hr. simplify_eq.
  eapply open_protected; try done; [cbn [qk_tx qk_rx]; congruence..|]. by apply reconstruct_sent.
Qed.

End Keys.

(** ** An instance

    A library that keeps the laws, so that the hypotheses above can be
    satisfied and the definitions evaluated: "sealing" appends a checksum of
    the key, the nonce, the data and the plaintext. *)
Module Checksum.
Definition tag (key nonce ad pt : bytes) : bytes :=
  to_be 16 (from_be key + 3 * from_be nonce + 5 * from_be ad + 7 * from_be pt + zlen pt).

Definition seal (key : bytes) (room : Z) (nonce pt ad : bytes) : option bytes :=
  if zlen pt + AEAD_TAG_LEN <=? room then Some (pt ++ tag key nonce ad pt) else None.

Definition open (key : bytes) (room : Z) (nonce ct ad : bytes) : option bytes :=
  let n := zlen ct - AEAD_TAG_LEN in
  if (0 <=? n) && (n <=? room) && bool_decide (sub ct n (zlen ct) = tag key nonce ad (sub ct 0 n))
  then Some (sub ct 0 n) else None.

#[export] Instance boring : Boring := {|
  AES_KEY := bytes;
  EVP_AEAD_CTX := bytes;
  hmac_sha256 k m := Some (to_be 32 (31 * from_be k + 17 * from_be m + zlen m));
  AES_set_encrypt_key k := Some k;
  AES_encrypt s k := to_be 16 (from_be s + 3 * from_be k + 1);
  CRYPTO_chacha_20 i k n c := to_be (length i) (from_be k + from_be n + c);
  EVP_AEAD_CTX_new _ k _ := Some k;
  EVP_AEAD_CTX_seal c room n pt ad := seal c room n pt ad;
  EVP_AEAD_CTX_open c room n ct ad := open c room n ct ad;
|}.

Lemma array_ok_to_be n x : array_ok (Z.of_nat n) (to_be n x).
Proof. split; [apply zlen_to_be|auto with slt]. Qed.

#[export] Instance laws : BoringLaws boring.
Proof.
  constructor; cbn [hmac_sha256 AES_encrypt CRYPTO_chacha_20 EVP_AEAD_CTX_seal EVP_AEAD_CTX_open boring].
  - intros k m d [= <-]. apply (array_ok_to_be 32).
  - intros k s _. apply (array_ok_to_be 16).
  - intros i k n c _. apply array_ok_to_be.
  - intros c n pt ad room _ Hr _. unfold seal. rewrite (proj2 (Z.leb_le _ _) Hr). by eexists.
  - intros c n pt ad room ct Hpt H. unfold seal in H. case_match; simplify_eq. split.
    + fold (zlen (pt ++ tag c n ad pt)). rewrite zlen_app. unfold tag. by rewrite zlen_to_be.
    + apply bytes_ok_app. unfold tag. auto with slt.
  - intros c n pt ad room room' ct H Hr. unfold seal in H. case_match; simplify_eq. unfold open.
    pose proof (zlen_nonneg pt).
    assert (zlen (pt ++ tag c n ad pt) = zlen pt + 16) as El
      by (rewrite zlen_app; unfold tag; by rewrite zlen_to_be).
    rewrite El. unfold AEAD_TAG_LEN. replace (zlen pt + 16 - 16) with (zlen pt) by lia.
    assert (zlen (tag c n ad pt) = 16) as Et by apply zlen_to_be.
    rewrite (sub_app_l _ _ 0), (sub_all pt), (sub_app_r _ _ (zlen pt)), (sub_all (tag c n ad pt))
      by lia.
    rewrite !(proj2 (Z.leb_le _ _)), bool_decide_true by (done || lia). done.
  - intros c n ct ad room pt Hct H. unfold open in H. case_match; simplify_eq. auto with slt.
Qed.

#[export] Instance total : BoringTotal boring.
Proof. constructor; intros; by eexists. Qed.

(** Keys of two endpoints that share the secrets [1 1 1 ..] and [2 2 2 ..]. *)
Definition secret (x : Z) : bytes := replicate 32 x.
Definition keys_ab : UdpQspKeys.
Proof.
  let r := eval vm_compute in (UdpQspKeys_new Aes128Gcm (secret 1) (secret 2)) in
  match r with Ok ?k => exact k end.
Defined.
Definition keys_ba : UdpQspKeys.
Proof.
  let r := eval vm_compute in (UdpQspKeys_new Aes128Gcm (secret 2) (secret 1)) in
  match r with Ok ?k => exact k end.
Defined.

Lemma keys_ab_new : UdpQspKeys_new Aes128Gcm (secret 1) (secret 2) = Ok keys_ab.
Proof. vm_cast_no_check (@eq_refl (res QspCryptoError UdpQspKeys) (Ok keys_ab)). Qed.
Lemma keys_ba_new : UdpQspKeys_new Aes128Gcm (secret 2) (secret 1) = Ok keys_ba.
Proof. vm_cast_no_check (@eq_refl (res QspCryptoError UdpQspKeys) (Ok keys_ba)). Qed.

Definition demo_cid : Cid := mkCid 4 ([1; 2; 3; 4] ++ zeros 16).
End Checksum.
