(* ===== verification/QspSession.v ===== *)
(** * UDP-QSP sessions ([slt-core/src/crypto/udp_qsp/session.rs])

    A session numbers and protects outgoing packets, rotates its keys every
    2^21 packets, opens incoming packets with the current, the previous or
    the next receive keys, and filters replays.  The operations return the
    new session with their outcome, because the code keeps what it has changed
    before an error.

    Rotation of the transmit keys terminates, and the keys and the phase bit
    of a packet are a function of its number.  [QspSafety] has the behaviour
    under arbitrary traffic, [QspDelivery] the behaviour of two sessions that
    share their secrets. *)

From stdpp Require Import base tactics option list numbers gmap sets.
From Stdlib Require Import ZArith Lia.
From S2P Require Import Prelude Cid Framing Payloads PacketNumber ReplayWindow PacketHeader Keys.

Definition KEY_UPDATE_INTERVAL : Z := Z.shiftl 1 21.
Definition KEY_UPDATE_LATE_MARGIN : Z := PN_REPLAY_WINDOW * 8.

Definition MIN_KEY_UPDATE_DETECTION_PN : Z :=
  saturating_sub KEY_UPDATE_INTERVAL KEY_UPDATE_LATE_MARGIN.
Definition MIN_KEY_UPDATE_RECONSTRUCTION_HALF_WINDOW : Z :=
  Z.shiftl 1 (packet_number_len MIN_KEY_UPDATE_DETECTION_PN * 8 - 1).

Inductive QspSessionError :=
  | QIo (e : IoError)
  | QCrypto (e : QspCryptoError)
  | QReplay
  | QTooOld
  | PacketNumberOverflow.

#[global] Instance QspSessionError_eq_dec : EqDecision QspSessionError.
Proof. solve_decision. Defined.

Record RekeyPolicy := mkPolicy { rp_interval : Z; rp_late_margin : Z }.
Definition RekeyPolicy_defaults : RekeyPolicy :=
  mkPolicy KEY_UPDATE_INTERVAL KEY_UPDATE_LATE_MARGIN.

Definition pn_distance (a b : Z) : Z := abs_diff a b.

Definition next_rekey_after (pn interval : Z) : option Z :=
  if interval =? 0 then None else
  let rem := pn mod interval in
  let step := if rem =? 0 then interval else interval - rem in
  checked_add64 pn step.

Section Session.
Context `{B : Boring}.

Record PreviousRxKeys := mkPrevious { prev_keys : UdpQspKeys; prev_valid_until_pn : Z }.

(** The buffers of the source only carry a value from one call to the next
    line and are left out; the I/O backend is an argument of [send].  The last
    field is not a field of the source: it records the packet numbers that
    were passed to [protect_into], the latest first.  No operation reads it. *)
Record QuicQspSession := mkSession {
  qs_scid : Cid;
  qs_dcid : Cid;
  qs_keys : UdpQspKeys;
  qs_tx_key_phase : bool;
  qs_rx_key_phase : bool;
  qs_next_pn : Z;
  qs_tx_next_rekey_pn : option Z;
  qs_rx_next_rekey_pn : option Z;
  qs_previous_rx : option PreviousRxKeys;
  qs_rekey_policy : RekeyPolicy;
  qs_replay_window : ReplayWindow;
  qs_protected : list Z;
}.

Definition QuicQspSession_new (scid dcid : Cid) (keys : UdpQspKeys) (send_pn recv_expected_pn : Z)
    (key_phase : bool) : QuicQspSession :=
  mkSession scid dcid keys key_phase key_phase send_pn
    (next_rekey_after send_pn (rp_interval RekeyPolicy_defaults))
    (next_rekey_after recv_expected_pn (rp_interval RekeyPolicy_defaults))
    None RekeyPolicy_defaults (ReplayWindow_new recv_expected_pn) [].

Definition expected_pn (s : QuicQspSession) : Z := ReplayWindow_expected_pn (qs_replay_window s).

(** Field updates. *)
Definition set_tx (s : QuicQspSession) (keys : UdpQspKeys) (phase : bool) (next : option Z) :=
  mkSession (qs_scid s) (qs_dcid s) keys phase (qs_rx_key_phase s) (qs_next_pn s) next
    (qs_rx_next_rekey_pn s) (qs_previous_rx s) (qs_rekey_policy s) (qs_replay_window s) (qs_protected s).
Definition set_next_pn (s : QuicQspSession) (pn : Z) :=
  mkSession (qs_scid s) (qs_dcid s) (qs_keys s) (qs_tx_key_phase s) (qs_rx_key_phase s) pn
    (qs_tx_next_rekey_pn s) (qs_rx_next_rekey_pn s) (qs_previous_rx s) (qs_rekey_policy s)
    (qs_replay_window s) (qs_protected s).
Definition set_rx (s : QuicQspSession) (keys : UdpQspKeys) (phase : bool) (next : option Z)
    (previous : option PreviousRxKeys) :=
  mkSession (qs_scid s) (qs_dcid s) keys (qs_tx_key_phase s) phase (qs_next_pn s)
    (qs_tx_next_rekey_pn s) next previous (qs_rekey_policy s) (qs_replay_window s) (qs_protected s).
Definition set_previous (s : QuicQspSession) (previous : option PreviousRxKeys) :=
  set_rx s (qs_keys s) (qs_rx_key_phase s) (qs_rx_next_rekey_pn s) previous.
Definition set_window (s : QuicQspSession) (w : ReplayWindow) :=
  mkSession (qs_scid s) (qs_dcid s) (qs_keys s) (qs_tx_key_phase s) (qs_rx_key_phase s)
    (qs_next_pn s) (qs_tx_next_rekey_pn s) (qs_rx_next_rekey_pn s) (qs_previous_rx s)
    (qs_rekey_policy s) w (qs_protected s).
Definition note_protected (s : QuicQspSession) (pn : Z) :=
  mkSession (qs_scid s) (qs_dcid s) (qs_keys s) (qs_tx_key_phase s) (qs_rx_key_phase s) (qs_next_pn s)
    (qs_tx_next_rekey_pn s) (qs_rx_next_rekey_pn s) (qs_previous_rx s) (qs_rekey_policy s)
    (qs_replay_window s) (pn :: qs_protected s).

(** ** Sending *)

(** [maybe_rotate_tx_keys].  Every iteration moves the threshold by the
    interval, so [rotate_fuel] iterations reach past [pn]. *)
Fixpoint rotate_loop (fuel : nat) (s : QuicQspSession) (pn : Z)
    : QuicQspSession * res QspSessionError unit :=
  match qs_tx_next_rekey_pn s with
  | None => (s, Ok tt)
  | Some threshold =>
      if pn <? threshold then (s, Ok tt) else
      match fuel with
      | O => (s, Panic)
      | S fuel =>
          match with_next_tx_keys (qs_keys s) with
          | Ok keys =>
              rotate_loop fuel
                (set_tx s keys (negb (qs_tx_key_phase s))
                   (next_rekey_after threshold (rp_interval (qs_rekey_policy s)))) pn
          | Err e => (s, Err (QCrypto e))
          | Panic => (s, Panic)
          end
      end
  end.

Definition rotate_fuel (s : QuicQspSession) (pn : Z) : nat :=
  match qs_tx_next_rekey_pn s with
  | None => O
  | Some threshold =>
      let interval := rp_interval (qs_rekey_policy s) in
      Z.to_nat (pn / interval - threshold / interval + 1)
  end.

Definition maybe_rotate_tx_keys (s : QuicQspSession) (pn : Z)
    : QuicQspSession * res QspSessionError unit :=
  rotate_loop (rotate_fuel s pn) s pn.

(** The bytes of the destination connection ID. *)
Definition dcid_bytes (s : QuicQspSession) : res QspSessionError bytes :=
  map_err (λ _, QCrypto InvalidCid) (Cid_as_slice (qs_dcid s)).

(** The call of [protect_into] in [send], which leaves its packet number in
    the record. *)
Definition protect_packet (s : QuicQspSession) (dcid : bytes) (pn : Z) (payload : bytes)
    : QuicQspSession * res QspSessionError bytes :=
  (note_protected s pn,
   map_err QCrypto (protect_into (qs_keys s) dcid pn (qs_tx_key_phase s) payload)).

(** [send]; [io] is the outcome of the backend on the protected packet.  The
    result carries the packet that has been handed to the backend. *)
Definition send (s : QuicQspSession) (payload : bytes) (io : bytes → option IoError)
    : QuicQspSession * res QspSessionError bytes :=
  let pn := qs_next_pn s in
  match maybe_rotate_tx_keys s pn with
  | (s, Ok _) =>
      match checked_add64 pn 1 with
      | None => (s, Err PacketNumberOverflow)
      | Some next =>
          let s := set_next_pn s next in
          match dcid_bytes s with
          | Ok dcid =>
              let '(s, protected) := protect_packet s dcid pn payload in
              (s, packet ← protected;
                  match io packet with None => Ok packet | Some e => Err (QIo e) end)
          | Err e => (s, Err e)
          | Panic => (s, Panic)
          end
      end
  | (s, Err e) => (s, Err e)
  | (s, Panic) => (s, Panic)
  end.

(** ** Receiving *)
Definition maybe_confirm_previous_rx_keys (s : QuicQspSession) (expected : Z) : QuicQspSession :=
  match qs_previous_rx s with
  | Some prev => if expected >? prev_valid_until_pn prev then set_previous s None else s
  | None => s
  end.

Definition can_try_previous (s : QuicQspSession) (expected : Z) : bool :=
  match qs_previous_rx s with
  | Some prev => expected <=? prev_valid_until_pn prev
  | None => false
  end.

Definition should_try_candidate (s : QuicQspSession) (expected : Z) : bool :=
  match qs_previous_rx s with
  | Some _ => false
  | None =>
      match qs_rx_next_rekey_pn s with
      | None => false
      | Some threshold => pn_distance expected threshold <=? rp_late_margin (qs_rekey_policy s)
      end
  end.

Definition derive_candidate_rx_keys (s : QuicQspSession) : res QspSessionError (option UdpQspKeys) :=
  match qs_rx_next_rekey_pn s with
  | None => Ok None
  | Some _ => map_ok Some (map_err QCrypto (with_next_rx_keys (qs_keys s)))
  end.

Definition promote_candidate_rx_keys (s : QuicQspSession) (candidate : UdpQspKeys)
    : QuicQspSession * res QspSessionError unit :=
  let threshold := default (expected_pn s) (qs_rx_next_rekey_pn s) in
  let valid_until := saturating_add64 threshold PN_REPLAY_WINDOW in
  match UdpQspKeys_try_clone (qs_keys s) with
  | Ok old =>
      (set_rx s candidate (negb (qs_rx_key_phase s))
         (next_rekey_after threshold (rp_interval (qs_rekey_policy s)))
         (Some (mkPrevious old valid_until)), Ok tt)
  | Err e => (s, Err (QCrypto e))
  | Panic => (s, Panic)
  end.

Definition accept_opened (s : QuicQspSession) (o : OpenedPacket)
    : QuicQspSession * res QspSessionError OpenedPacket :=
  match check_and_update (qs_replay_window s) (op_pn o) with
  | Ok w => (set_window s w, Ok o)
  | Err Replay => (s, Err QReplay)
  | Err TooOld => (s, Err QTooOld)
  | Panic => (s, Panic)
  end.

(** [open_into(..).ok()] of a key pair, kept when [keep] holds of the phase. *)
Definition try_open (s : QuicQspSession) (keys : UdpQspKeys) (packet : bytes) (expected : Z)
    (keep : bool → bool) : res QspSessionError (option OpenedPacket) :=
  o ← res_ok (open_into keys (cid_len (qs_scid s)) packet expected);
  Ok (match o with
      | Some o => if keep (op_key_phase o) then Some o else None
      | None => None
      end).

(** The last of the three attempts of [open_packet]. *)
Definition open_candidate (s : QuicQspSession) (packet : bytes) (expected : Z)
    : QuicQspSession * res QspSessionError OpenedPacket :=
  if should_try_candidate s expected then
    match derive_candidate_rx_keys s with
    | Ok (Some candidate) =>
        match try_open s candidate packet expected (λ kp, negb (eqb kp (qs_rx_key_phase s))) with
        | Ok (Some o) =>
            match promote_candidate_rx_keys s candidate with
            | (s, Ok _) => accept_opened s o
            | (s, Err e) => (s, Err e)
            | (s, Panic) => (s, Panic)
            end
        | Ok None => (s, Err (QCrypto CryptoFail))
        | Err e => (s, Err e)
        | Panic => (s, Panic)
        end
    | Ok None => (s, Err (QCrypto CryptoFail))
    | Err e => (s, Err e)
    | Panic => (s, Panic)
    end
  else (s, Err (QCrypto CryptoFail)).

(** The second attempt, with the keys of the previous phase. *)
Definition open_previous (s : QuicQspSession) (packet : bytes) (expected : Z)
    : res QspSessionError (option OpenedPacket) :=
  if can_try_previous s expected then
    match qs_previous_rx s with
    | Some previous =>
        try_open s (prev_keys previous) packet expected (λ kp, negb (eqb kp (qs_rx_key_phase s)))
    | None => Ok None
    end
  else Ok None.

Definition open_packet (s : QuicQspSession) (packet : bytes)
    : QuicQspSession * res QspSessionError OpenedPacket :=
  let expected := expected_pn s in
  let s := maybe_confirm_previous_rx_keys s expected in
  match try_open s (qs_keys s) packet expected (λ kp, eqb kp (qs_rx_key_phase s)) with
  | Ok (Some o) => accept_opened s o
  | Ok None =>
      match open_previous s packet expected with
      | Ok (Some o) => accept_opened s o
      | Ok None => open_candidate s packet expected
      | Err e => (s, Err e)
      | Panic => (s, Panic)
      end
  | Err e => (s, Err e)
  | Panic => (s, Panic)
  end.

(** ** Generations

    The keys of a direction after [n] updates, and the generation a packet
    number belongs to: the number of multiples of the interval passed since
    the first number of the session. *)
Definition next_gen (cipher : CipherSuite) (d : DirectionKeys) : DirectionKeys :=
  match DirectionKeys_next_generation d (CipherConfig_for_suite cipher) with
  | Ok d' => d'
  | _ => d
  end.
Definition generation (cipher : CipherSuite) (d : DirectionKeys) (n : nat) : DirectionKeys :=
  Nat.iter n (next_gen cipher) d.

Definition gen_of (start pn : Z) : nat := Z.to_nat (pn / KEY_UPDATE_INTERVAL - start / KEY_UPDATE_INTERVAL).
Definition phase_of (kp0 : bool) (start pn : Z) : bool := xorb kp0 (Nat.odd (gen_of start pn)).

(** The first number of generation [j] (of [j >= 1]). *)
Definition gen_start (start : Z) (j : nat) : Z :=
  (start / KEY_UPDATE_INTERVAL + Z.of_nat j) * KEY_UPDATE_INTERVAL.

(** A threshold, when it is a packet number. *)
Definition threshold (t : Z) : option Z := if t <=? u64_max then Some t else None.

Lemma interval_eq : KEY_UPDATE_INTERVAL = 2097152.
Proof. done. Qed.

Lemma next_rekey_spec pn :
  0 ≤ pn → next_rekey_after pn KEY_UPDATE_INTERVAL = threshold ((pn / KEY_UPDATE_INTERVAL + 1) * KEY_UPDATE_INTERVAL).
Proof.
  intros Hp. unfold next_rekey_after, checked_add64, threshold. rewrite !interval_eq.
  change (2097152 =? 0) with false. cbv iota.
  pose proof (Z.div_mod pn 2097152 ltac:(lia)) as D.
  pose proof (Z.mod_pos_bound pn 2097152 ltac:(lia)) as M.
  assert (pn + (if pn mod 2097152 =? 0 then 2097152 else 2097152 - pn mod 2097152) =
          (pn / 2097152 + 1) * 2097152) as -> by (split_tests; lia).
  done.
Qed.

(** Generations and thresholds. *)
Lemma gen_of_iff start pn j :
  0 ≤ start ≤ pn →
  gen_of start pn = j ↔ gen_start start j ≤ pn < gen_start start (S j).
Proof.
  intros Hp. unfold gen_of, gen_start. rewrite !interval_eq.
  pose proof (Z.div_mod pn 2097152 ltac:(lia)) as D.
  pose proof (Z.mod_pos_bound pn 2097152 ltac:(lia)) as M.
  assert (start / 2097152 ≤ pn / 2097152) by (apply Z.div_le_mono; lia). lia.
Qed.

Lemma gen_start_S start j : gen_start start (S j) = gen_start start j + 2097152.
Proof. unfold gen_start. rewrite !interval_eq. lia. Qed.

Lemma gen_of_start start : 0 ≤ start → gen_of start start = 0%nat.
Proof. intros. unfold gen_of. lia. Qed.

Lemma gen_of_mono start p q : 0 ≤ start ≤ p → p ≤ q → (gen_of start p ≤ gen_of start q)%nat.
Proof.
  intros Hp Hq. unfold gen_of. rewrite !interval_eq.
  assert (p / 2097152 ≤ q / 2097152) by (apply Z.div_le_mono; lia). lia.
Qed.

(** The threshold after the current generation of [m]. *)
Lemma threshold_gen start m :
  0 ≤ start ≤ m →
  (m / KEY_UPDATE_INTERVAL + 1) * KEY_UPDATE_INTERVAL = gen_start start (S (gen_of start m)).
Proof.
  intros Hm. unfold gen_start, gen_of. rewrite !interval_eq.
  assert (start / 2097152 ≤ m / 2097152) by (apply Z.div_le_mono; lia). lia.
Qed.

Section Generations.
Context {L : BoringLaws B} {T : BoringTotal B}.

Lemma generation_ok cipher d n :
  dk_wf d →
  dk_wf (generation cipher d n) ∧ dk_hp (generation cipher d n) = dk_hp d ∧
  DirectionKeys_next_generation (generation cipher d n) (CipherConfig_for_suite cipher) =
    Ok (generation cipher d (S n)).
Proof.
  intros Hd.
  assert (∀ d, dk_wf d → DirectionKeys_next_generation d (CipherConfig_for_suite cipher) =
            Ok (next_gen cipher d) ∧ dk_wf (next_gen cipher d) ∧ dk_hp (next_gen cipher d) = dk_hp d) as Hn.
  { intros e He. unfold next_gen. destruct (DirectionKeys_next_generation_total e cipher He) as [e' E].
    rewrite E. split; [done|]. by apply (DirectionKeys_next_generation_wf e _ _ He E). }
  induction n as [|n (Hw & Hh & _)]; simpl.
  - split_and!; [done|done|by apply Hn].
  - destruct (Hn _ Hw) as (_ & Hw' & Hh'). split_and!; [done|congruence|by apply Hn].
Qed.

(** ** The sender *)

(** The packet a session that started at [start] with phase [kp0] and keys
    [k0] makes of a payload, as a function of the packet number alone. *)
Definition sealed (k0 : UdpQspKeys) (dcid : bytes) (start : Z) (kp0 : bool) (pn : Z) (payload : bytes)
    : res QspCryptoError bytes :=
  protect_into (mkKeys (qk_cipher k0) (generation (qk_cipher k0) (qk_tx k0) (gen_of start pn)) (qk_rx k0))
    dcid pn (phase_of kp0 start pn) payload.

(** The transmit side of [s] is the one of packet number [m]. *)
Definition tx_at (k0 : UdpQspKeys) (start : Z) (kp0 : bool) (m : Z) (s : QuicQspSession) : Prop :=
  keys_wf (qs_keys s) ∧ qk_cipher (qs_keys s) = qk_cipher k0 ∧
  qk_tx (qs_keys s) = generation (qk_cipher k0) (qk_tx k0) (gen_of start m) ∧
  qs_tx_key_phase s = phase_of kp0 start m ∧ qs_rekey_policy s = RekeyPolicy_defaults ∧
  qs_tx_next_rekey_pn s = threshold (gen_start start (S (gen_of start m))) ∧ 0 ≤ start ≤ m.

Lemma gen_of_step start m :
  0 ≤ start ≤ m →
  (m + 1 < gen_start start (S (gen_of start m)) ∧ gen_of start (m + 1) = gen_of start m) ∨
  (m + 1 = gen_start start (S (gen_of start m)) ∧ gen_of start (m + 1) = S (gen_of start m)).
Proof.
  intros Hm. pose proof (proj1 (gen_of_iff start m _ Hm) eq_refl) as [Hlo Hhi].
  destruct (Z_lt_le_dec (m + 1) (gen_start start (S (gen_of start m)))) as [Hlt|Hge]; [left|right].
  - split; [done|]. apply gen_of_iff; lia.
  - split; [lia|]. apply gen_of_iff; [lia|]. rewrite (gen_start_S _ (S _)). lia.
Qed.

Lemma phase_of_next kp0 start p q :
  gen_of start q = S (gen_of start p) → phase_of kp0 start q = negb (phase_of kp0 start p).
Proof.
  intros E. unfold phase_of. rewrite E, Nat.odd_succ, <- Nat.negb_odd. by destruct kp0, (Nat.odd _).
Qed.

Lemma rotate_stop fuel s pn :
  (∀ t, qs_tx_next_rekey_pn s = Some t → pn < t) → rotate_loop fuel s pn = (s, Ok tt).
Proof.
  intros H. destruct fuel; simpl; destruct (qs_tx_next_rekey_pn s) as [t|] eqn:E; try done;
    by rewrite (proj2 (Z.ltb_lt _ _) (H t eq_refl)).
Qed.

Lemma rotate_once fuel s pn t k' :
  qs_tx_next_rekey_pn s = Some t → t ≤ pn → with_next_tx_keys (qs_keys s) = Ok k' →
  rotate_loop (S fuel) s pn =
  rotate_loop fuel (set_tx s k' (negb (qs_tx_key_phase s))
    (next_rekey_after t (rp_interval (qs_rekey_policy s)))) pn.
Proof.
  intros Et Hle Ek. cbn [rotate_loop]. rewrite Et, Ek. by rewrite (proj2 (Z.ltb_ge _ _) Hle).
Qed.

(** Rotation brings the transmit side to the number that is sent next. *)
Lemma rotate_tx k0 start kp0 m s pn :
  dk_wf (qk_tx k0) → tx_at k0 start kp0 m s → u64_ok pn → pn = m ∨ pn = m + 1 →
  ∃ keys phase next, maybe_rotate_tx_keys s pn = (set_tx s keys phase next, Ok tt) ∧
    tx_at k0 start kp0 pn (set_tx s keys phase next) ∧ qk_rx keys = qk_rx (qs_keys s).
Proof.
  intros Hd (Hw & Hc & Ht & Hph & Hpol & Hn & Hm) Hpn Hstep. unfold u64_ok in Hpn.
  assert (0 ≤ start ≤ pn) as Hspn by lia.
  assert ((pn < gen_start start (S (gen_of start m)) ∧ gen_of start pn = gen_of start m) ∨
          (pn = gen_start start (S (gen_of start m)) ∧ gen_of start pn = S (gen_of start m))) as Hcase.
  { destruct Hstep as [->| ->]; [left; split; [|done]; by apply gen_of_iff|by apply gen_of_step]. }
  unfold maybe_rotate_tx_keys. destruct Hcase as [[Hlt Hg]|[Heq Hg]].
  - exists (qs_keys s), (qs_tx_key_phase s), (qs_tx_next_rekey_pn s).
    assert (set_tx s (qs_keys s) (qs_tx_key_phase s) (qs_tx_next_rekey_pn s) = s) as -> by (by destruct s).
    split_and!; [|unfold tx_at, phase_of; by rewrite Hg|done].
    apply rotate_stop. rewrite Hn. unfold threshold. intros t. case_match; intros; by simplify_eq.
  - destruct (with_next_tx_keys_total (qs_keys s) Hw) as [k' Ek].
    destruct (with_next_tx_keys_ok _ _ Hw Ek) as (Hw' & Hrx & _ & Hc' & Hgen).
    rewrite Hc, Ht in Hgen. destruct (generation_ok (qk_cipher k0) (qk_tx k0) (gen_of start m) Hd)
      as (_ & _ & Hgen'). rewrite Hgen' in Hgen. apply (inj Ok) in Hgen.
    exists k', (negb (qs_tx_key_phase s)), (next_rekey_after pn (rp_interval (qs_rekey_policy s))).
    unfold rotate_fuel, threshold in *. rewrite <- Heq in Hn.
    rewrite (proj2 (Z.leb_le _ _)) in Hn by (unfold u64_max; lia). rewrite Hn, Z.sub_diag, Hpol.
    change (Z.to_nat _) with 1%nat. rewrite (rotate_once 0 s pn pn k' Hn ltac:(lia) Ek), Hpol. cbn [rp_interval RekeyPolicy_defaults]. rewrite next_rekey_spec by lia.
    rewrite (threshold_gen start pn Hspn), Hg.
    assert (pn < gen_start start (S (S (gen_of start m)))) as Hlt by (rewrite gen_start_S; lia).
    split_and!; [|unfold tx_at|done].
    + apply rotate_stop. unfold threshold. cbn [qs_tx_next_rekey_pn set_tx]. intros t.
      case_match; intros; by simplify_eq.
    + cbn [qs_keys qs_tx_key_phase qs_rekey_policy qs_tx_next_rekey_pn set_tx]. rewrite Hg.
      split_and!; try done; try lia; [congruence|]. rewrite Hph. symmetry. by apply phase_of_next.
Qed.

(** The loop ends for every policy and every number, past the number. *)
Lemma rotate_loop_terminates fuel s pn :
  keys_wf (qs_keys s) → 0 ≤ rp_interval (qs_rekey_policy s) →
  (∀ t, qs_tx_next_rekey_pn s = Some t → 0 ≤ t ∧
     pn / rp_interval (qs_rekey_policy s) - t / rp_interval (qs_rekey_policy s) + 1 ≤ Z.of_nat fuel) →
  ∃ s', rotate_loop fuel s pn = (s', Ok tt) ∧ (∀ t, qs_tx_next_rekey_pn s' = Some t → pn < t).
Proof.
  revert s. induction fuel as [|fuel IH]; intros s Hw Hi Hf.
  - exists s. destruct (qs_tx_next_rekey_pn s) as [t|] eqn:Et; [|split; [by apply rotate_stop; rewrite Et|done] ].
    destruct (Hf t eq_refl) as [Ht Hle].
    destruct (Z_lt_le_dec pn t) as [Hlt|Hge]; [split; [apply rotate_stop; rewrite Et|]; intros; by simplify_eq|].
    exfalso. destruct (Z.eq_dec (rp_interval (qs_rekey_policy s)) 0) as [E|Hne];
      [rewrite E, !Z.div_0_r in Hle; lia|].
    assert (t / rp_interval (qs_rekey_policy s) ≤ pn / rp_interval (qs_rekey_policy s))
      by (apply Z.div_le_mono; lia). lia.
  - destruct (qs_tx_next_rekey_pn s) as [t|] eqn:Et;
      [|exists s; split; [by apply rotate_stop; rewrite Et|by rewrite Et] ].
    destruct (Hf t eq_refl) as [Ht Hle]. destruct (Z_lt_le_dec pn t) as [Hlt|Hge].
    { exists s. rewrite Et. split; [apply rotate_stop; rewrite Et|]; intros; by simplify_eq. }
    destruct (with_next_tx_keys_total _ Hw) as [k' Ek]. rewrite (rotate_once fuel s pn t k' Et Hge Ek).
    apply IH; [by eapply with_next_tx_keys_ok|done|].
    cbn [qs_tx_next_rekey_pn set_tx qs_rekey_policy]. intros t'.
    unfold next_rekey_after, checked_add64.
    destruct (Z.eqb_spec (rp_interval (qs_rekey_policy s)) 0) as [E|Hne]; [done|].
    set (i := rp_interval (qs_rekey_policy s)) in *. intros Hs. case_match; simplify_eq.
    pose proof (Z.div_mod t i ltac:(lia)) as D. pose proof (Z.mod_pos_bound t i ltac:(lia)) as M.
    assert (t + (if t mod i =? 0 then i else i - t mod i) = (t / i + 1) * i) as -> by (split_tests; lia).
    rewrite Z.div_mul by lia. assert (0 ≤ t / i) by (apply Z.div_pos; lia). split; [nia|lia].
Qed.

Lemma maybe_rotate_terminates s pn :
  keys_wf (qs_keys s) → 0 ≤ rp_interval (qs_rekey_policy s) →
  (∀ t, qs_tx_next_rekey_pn s = Some t → 0 ≤ t) →
  ∃ s', maybe_rotate_tx_keys s pn = (s', Ok tt) ∧ (∀ t, qs_tx_next_rekey_pn s' = Some t → pn < t).
Proof.
  intros Hw Hi Ht. apply rotate_loop_terminates; [done|done|]. intros t E. split; [by apply Ht|].
  unfold rotate_fuel. rewrite E. lia.
Qed.

(** ** Sequences of sends *)

(** One payload after the other; the results in order.  [io] gives the
    outcome of the backend for each packet. *)
Fixpoint send_all (s : QuicQspSession) (payloads : list bytes) (io : bytes → option IoError)
    : QuicQspSession * list (res QspSessionError bytes) :=
  match payloads with
  | [] => (s, [])
  | p :: ps =>
      let '(s, r) := send s p io in
      let '(s, rs) := send_all s ps io in
      (s, r :: rs)
  end.

(** What the session returns for packet number [pn]. *)
Definition sent (k0 : UdpQspKeys) (dcid : bytes) (start : Z) (kp0 : bool) (io : bytes → option IoError)
    (pn : Z) (payload : bytes) : res QspSessionError bytes :=
  packet ← map_err QCrypto (sealed k0 dcid start kp0 pn payload);
  match io packet with None => Ok packet | Some e => Err (QIo e) end.

Lemma protect_into_tx k k' dcid pn kp payload :
  qk_tx k = qk_tx k' → protect_into k dcid pn kp payload = protect_into k' dcid pn kp payload.
Proof. intros E. unfold protect_into. by rewrite E. Qed.

Lemma send_sealed k0 start kp0 m s pn payload io :
  dk_wf (qk_tx k0) → tx_at k0 start kp0 m s → qs_next_pn s = pn → pn = m ∨ pn = m + 1 →
  pn < u64_max → Cid_ok (qs_dcid s) →
  ∃ s', send s payload io = (s', sent k0 (cid_slice (qs_dcid s)) start kp0 io pn payload) ∧
    tx_at k0 start kp0 pn s' ∧ qs_next_pn s' = pn + 1 ∧ qs_dcid s' = qs_dcid s.
Proof.
  intros Hd Hat Hnext Hstep Hmax Hcid. unfold u64_max in Hmax.
  assert (u64_ok pn) as Hpn by (unfold u64_ok; destruct Hat as (_ & _ & _ & _ & _ & _ & ?); lia).
  destruct (rotate_tx k0 start kp0 m s pn Hd Hat Hpn Hstep) as (keys & phase & next & E & Hat' & _).
  unfold send. rewrite Hnext, E. unfold checked_add64, u64_max.
  rewrite (proj2 (Z.leb_le _ _)) by lia. unfold dcid_bytes. cbn [qs_dcid set_next_pn set_tx].
  rewrite Cid_as_slice_ok by done. res_simpl. unfold protect_packet. eexists. split; [f_equal|].
  - unfold sent, sealed. cbn [set_next_pn set_tx qs_keys qs_tx_key_phase].
    destruct Hat' as (_ & _ & Ht & Hp & _). cbn [qs_keys qs_tx_key_phase set_tx] in Ht, Hp. rewrite Hp.
    by rewrite (protect_into_tx keys
      (mkKeys (qk_cipher k0) (generation (qk_cipher k0) (qk_tx k0) (gen_of start pn)) (qk_rx k0)) _ _ _ _ Ht).
  - by split_and!.
Qed.

Fixpoint sent_from (k0 : UdpQspKeys) (dcid : bytes) (start : Z) (kp0 : bool) (io : bytes → option IoError)
    (pn : Z) (payloads : list bytes) : list (res QspSessionError bytes) :=
  match payloads with
  | [] => []
  | p :: ps => sent k0 dcid start kp0 io pn p :: sent_from k0 dcid start kp0 io (pn + 1) ps
  end.

Lemma send_all_sealed k0 start kp0 m s pn payloads io :
  dk_wf (qk_tx k0) → tx_at k0 start kp0 m s → qs_next_pn s = pn → pn = m ∨ pn = m + 1 →
  pn + zlen payloads ≤ u64_max → Cid_ok (qs_dcid s) →
  snd (send_all s payloads io) = sent_from k0 (cid_slice (qs_dcid s)) start kp0 io pn payloads.
Proof.
  intros Hd. revert s m pn. induction payloads as [|p ps IH]; intros s m pn Hat Hn Hs Hmax Hc; [done|].
  rewrite zlen_cons in Hmax. pose proof (zlen_nonneg ps). cbn [send_all sent_from].
  destruct (send_sealed k0 start kp0 m s pn p io Hd Hat Hn Hs ltac:(lia) Hc) as (s' & -> & Hat' & Hn' & Ec).
  rewrite <- Ec in Hc. specialize (IH s' pn (pn + 1) Hat' Hn' ltac:(by right) ltac:(lia) Hc).
  destruct (send_all s' ps io) as [s'' rs]. cbn [snd] in *. by rewrite IH, Ec.
Qed.

Lemma tx_at_new scid dcid k0 send_pn recv kp0 :
  keys_wf k0 → u64_ok send_pn →
  tx_at k0 send_pn kp0 send_pn (QuicQspSession_new scid dcid k0 send_pn recv kp0).
Proof.
  intros Hk Hp. unfold u64_ok in Hp. unfold tx_at, QuicQspSession_new.
  cbn [qs_keys qs_tx_key_phase qs_rekey_policy qs_tx_next_rekey_pn RekeyPolicy_defaults rp_interval].
  unfold phase_of. rewrite next_rekey_spec by lia. rewrite (threshold_gen send_pn) by lia.
  rewrite gen_of_start by lia. split_and!; try done; try lia; by destruct kp0.
Qed.

(** ** Theorems *)

(** The key schedule of a sender: the packet a session makes of its
    [i]-th payload is a function of its number [n = send_pn + i] alone: it is
    protected with the keys of generation [n / 2^21 - send_pn / 2^21] and
    carries the initial phase bit flipped that many times, whatever the
    backend did with the packets before it. *)
Theorem send_key_schedule cipher a b keys scid dcid send_pn recv_pn kp payloads io :
  UdpQspKeys_new cipher a b = Ok keys → Cid_ok dcid → u64_ok send_pn →
  send_pn + zlen payloads ≤ u64_max →
  snd (send_all (QuicQspSession_new scid dcid keys send_pn recv_pn kp) payloads io) =
    sent_from keys (cid_slice dcid) send_pn kp io send_pn payloads.
Proof.
  intros Hk Hd Hp Hmax. pose proof (UdpQspKeys_new_wf _ _ _ _ Hk) as Hw.
  apply (send_all_sealed keys send_pn kp send_pn); try done; [apply Hw|by apply tx_at_new|by left].
Qed.
End Generations.

End Session.

(** The bounds the code asserts at compile time: near every key update the
    packet numbers on the wire are long enough to tell late packets apart. *)
Lemma key_update_window_sufficient :
  MIN_KEY_UPDATE_RECONSTRUCTION_HALF_WINDOW > KEY_UPDATE_LATE_MARGIN.
Proof. reflexivity. Qed.
