(* ===== verification/QspSafety.v ===== *)
(** * UDP-QSP sessions under arbitrary traffic
    ([slt-core/src/crypto/udp_qsp/session.rs])

    The network delivers anything: forged, corrupted, replayed and reordered
    packets, between any sends of the session itself.  The theorems here hold
    of every such sequence of events: the session never panics, never hands a
    packet number to its owner twice, and never protects two packets with the
    same number. *)

From stdpp Require Import base tactics option list numbers gmap sets.
From Stdlib Require Import ZArith Lia Sorted.
From S2P Require Import Prelude Cid Framing Payloads PacketNumber ReplayWindow PacketHeader Keys QspSession.

(** ** The number of an opened packet is a packet number *)
Lemma reconstruct_nonneg t e n : 0 ≤ t → 0 ≤ e → 0 ≤ reconstruct_packet_number t e n.
Proof.
  intros Ht He. unfold reconstruct_packet_number. case_match; [done|].
  set (w := Z.shiftl 1 (n * 8)). cbv zeta.
  assert (0 ≤ w) as Hw by (apply Z.shiftl_nonneg; lia).
  assert (0 ≤ Z.lor (Z.land e (not64 (w - 1))) t) as Hc.
  { apply Z.lor_nonneg. split; [|done]. apply Z.land_nonneg. by left. }
  revert Hc. generalize (Z.lor (Z.land e (not64 (w - 1))) t) as c. intros c Hc. unfold checked_add64.
  destruct (c + w / 2 <=? u64_max), (c + w / 2 <=? e), (c + w <=? u64_max), (e + w / 2 <=? u64_max);
    cbv beta iota zeta; rewrite ?Z.gtb_ltb, ?Z.geb_leb;
    try (match goal with |- context [if ?b then _ else _] => destruct b eqn:E end);
    try lia; apply andb_true_iff in E as [_ E]; apply Z.leb_le in E; lia.
Qed.

Lemma from_be_nonneg l : Forall (λ b, 0 ≤ b) l → 0 ≤ from_be l.
Proof.
  intros H. unfold from_be. assert (0 ≤ 0) as Ha by done. revert Ha. generalize 0 at 2 4 as a.
  induction H as [|b l Hb _ IH]; intros a Ha; [done|]. simpl. apply IH. lia.
Qed.

Lemma index_nonneg {E} (l : bytes) i b : bytes_ok l → @index E l i = Ok b → 0 ≤ b.
Proof.
  intros Hl H. unfold index in H. case_match; [|done]. apply (inj Ok) in H as <-.
  pose proof (bytes_ok_nth l (Z.to_nat i) Hl) as [? _]. done.
Qed.

Lemma unmask_pn_nonneg n i packet off mask num :
  bytes_ok packet → bytes_ok mask → unmask_pn n i packet off mask = Ok num → Forall (λ b, 0 ≤ b) num.
Proof.
  intros Hp Hm. revert i num. induction n as [|n IH]; intros i num H; simpl in H.
  { apply (inj Ok) in H as <-. constructor. }
  res_inv H. simplify_eq. constructor; [|by eapply IH].
  apply Z.lxor_nonneg. split; intros _; (eapply index_nonneg; [|eassumption]; done).
Qed.

Lemma parse_header_pn_nonneg dcid_len packet mask parsed :
  bytes_ok packet → bytes_ok mask → parse_header dcid_len packet mask = Ok parsed → 0 ≤ ph_pn parsed.
Proof.
  intros Hp Hm. unfold parse_header. cbv zeta. intros H. apply bind_ok in H as (p0 & _ & H).
  apply bind_ok in H as (m0 & _ & H). do 4 (case_match; [done|]). res_inv H. simplify_eq. cbn [ph_pn].
  rewrite from_be_zeros. apply from_be_nonneg. eapply unmask_pn_nonneg; [exact Hp|exact Hm|eassumption].
Qed.

Section Safety.
Context `{B : Boring} {L : BoringLaws B}.

Lemma mask_bytes k sample m :
  zlen sample = 16 → HeaderProtectionKey_mask k sample = Ok m → bytes_ok m.
Proof.
  intros Hs. unfold HeaderProtectionKey_mask. destruct (negb _); [done|]. destruct k as [key sched|key].
  - intros H. apply bind_ok in H as (x & Hx & H). apply slice_inv in Hx as (_ & _ & _ & ->).
    unfold copy_array in H. destruct (_ =? _); [|done]. apply (inj Ok) in H as <-.
    apply bytes_ok_sub. by destruct (AES_encrypt_len sched sample Hs).
  - intros H. res_inv H. apply (inj Ok) in H as <-.
    match goal with |- bytes_ok (CRYPTO_chacha_20 ?i ?k ?n ?c) =>
      by destruct (chacha_len i k n c (bytes_ok_zeros 5)) end.
Qed.

(** What comes out of the AEAD: a packet number and bytes. *)
Definition opened_ok (o : OpenedPacket) : Prop := 0 ≤ op_pn o ∧ bytes_ok (op_payload o).

Lemma open_opened_ok rx dcid_len packet expected o :
  0 ≤ dcid_len → bytes_ok packet → 0 ≤ expected →
  open_into_inner rx dcid_len packet expected = Ok o → opened_ok o.
Proof.
  intros Hd Hp He. unfold open_into_inner, hp_sample_range, sample_offset, HP_SAMPLE_LEN. intros H.
  apply bind_ok in H as ([] & _ & H). apply bind_ok in H as (sample & Hs & H).
  apply slice_inv in Hs as (? & ? & ? & ->). apply bind_ok in H as (mask & Hm & H).
  apply bind_ok in H as (parsed & Hh & H). case_match; [done|]. apply bind_ok in H as (ct & Hc & H).
  apply bind_ok in H as (out & Ho & H). apply (inj Ok) in H as <-. apply slice_inv in Hc as (_ & _ & _ & ->).
  split; cbn [op_pn op_payload].
  2: { unfold PacketKey_open_into, AeadContext_open in Ho. case_match; [done|].
       destruct (EVP_AEAD_CTX_open _ _ _ _ _) eqn:E; simplify_eq/=. eapply open_bytes; [|exact E]. auto with slt. }
  apply reconstruct_nonneg; [|done]. eapply parse_header_pn_nonneg; [done| |done].
  eapply mask_bytes; [|done]. rewrite zlen_sub; lia.
Qed.

(** ** The invariant of a session *)
Record session_ok (sp : spec) (s : QuicQspSession) : Prop := mkSessionOk {
  so_scid : Cid_ok (qs_scid s);
  so_dcid : Cid_ok (qs_dcid s);
  so_keys : keys_wf (qs_keys s);
  so_window : repr (qs_replay_window s) sp;
  so_spec : spec_ok sp;
  so_interval : 0 ≤ rp_interval (qs_rekey_policy s);
  so_threshold : ∀ t, qs_tx_next_rekey_pn s = Some t → 0 ≤ t;
  so_next : 0 ≤ qs_next_pn s ≤ u64_max;
}.

(** [s'] differs from [s] on the receive side at most, window apart. *)
Definition same_tx (s s' : QuicQspSession) : Prop :=
  qs_scid s' = qs_scid s ∧ qs_dcid s' = qs_dcid s ∧ qs_rekey_policy s' = qs_rekey_policy s ∧
  qs_tx_next_rekey_pn s' = qs_tx_next_rekey_pn s ∧ qs_next_pn s' = qs_next_pn s ∧
  qs_tx_key_phase s' = qs_tx_key_phase s ∧ qk_tx (qs_keys s') = qk_tx (qs_keys s) ∧
  qs_protected s' = qs_protected s.

Lemma session_ok_rx sp sp' s s' :
  session_ok sp s → same_tx s s' → keys_wf (qs_keys s') → repr (qs_replay_window s') sp' → spec_ok sp' →
  session_ok sp' s'.
Proof.
  intros [] (E1 & E2 & E3 & E4 & E5 & _) Hk Hr Hs. constructor; rewrite ?E1, ?E2, ?E3, ?E4, ?E5; done.
Qed.

Lemma session_expected sp s : session_ok sp s → 0 ≤ expected_pn s.
Proof.
  intros [_ _ _ (_ & Hi & Hl & _) (Hs0 & Hnn & Hmax) _ _ _].
  unfold expected_pn, ReplayWindow_expected_pn, saturating_add64. rewrite Hi, Hl.
  destruct (sp_largest sp) as [l|]; [|done]. destruct Hmax as [Hin _]. specialize (Hnn l Hin).
  unfold u64_max. lia.
Qed.

(** What one received packet does: the packet is handed over once the window
    has recorded its number, otherwise the window is as before. *)
Definition received (sp : spec) (s s' : QuicQspSession) (r : res QspSessionError OpenedPacket) : Prop :=
  same_tx s s' ∧
  match r with
  | Ok o => opened_ok o ∧ ∃ sp', spec_check sp (op_pn o) = Ok sp' ∧ session_ok sp' s'
  | Err _ => session_ok sp s'
  | Panic => False
  end.

Lemma accept_received sp s s' o :
  session_ok sp s' → same_tx s s' → opened_ok o →
  received sp s (accept_opened s' o).1 (accept_opened s' o).2.
Proof.
  intros Hok Htx Ho. unfold accept_opened. pose proof Hok as [_ _ Hk Hr Hs _ _ _].
  pose proof (check_and_update_refines _ _ _ Hs Hr (proj1 Ho)) as A.
  destruct (check_and_update (qs_replay_window s') (op_pn o)) as [w|[]|],
    (spec_check sp (op_pn o)) as [sp'|[]|] eqn:E; try done; cbn [fst snd]; (split; [done|]); try done.
  split; [done|]. exists sp'. split; [done|].
  eapply session_ok_rx; [exact Hok|by repeat split|done|done|destruct Ho; by eapply spec_check_ok].
Qed.

Lemma res_ok_cases {E F A} (m : res E A) :
  m ≠ Panic → ∃ o, @res_ok E F A m = Ok o ∧ ∀ a, o = Some a → m = Ok a.
Proof. intros H. destruct m as [a|e|]; [exists (Some a)|exists None|done]; (split; [done|]); naive_solver. Qed.

(** Trying a key pair never panics, and what it yields has been opened. *)
Lemma try_open_ok sp s keys packet keep :
  session_ok sp s → bytes_ok packet →
  ∃ o, try_open s keys packet (expected_pn s) keep = Ok o ∧ ∀ a, o = Some a → opened_ok a.
Proof.
  intros Hok Hp. pose proof (session_expected _ _ Hok) as He. destruct Hok as [[[Hc _] _] _ _ _ _ _ _ _].
  unfold try_open, open_into.
  destruct (res_ok_cases (F := QspSessionError) (open_into_inner (qk_rx keys) (cid_len (qs_scid s)) packet (expected_pn s)))
    as (o & -> & Ho); [by apply open_no_panic|]. res_simpl. eexists. split; [done|].
  destruct o as [o|]; [|done]. intros a. case_match; [|done]. intros [= <-].
  eapply open_opened_ok; [exact Hc|exact Hp|exact He|by apply Ho].
Qed.

Context {T : BoringTotal B}.

Lemma keys_clone k : keys_wf k → UdpQspKeys_try_clone k = Ok k.
Proof. intros [Ht Hr]. unfold UdpQspKeys_try_clone. rewrite !dk_clone by done. by destruct k. Qed.

Lemma open_candidate_received sp s s0 packet :
  session_ok sp s → same_tx s0 s → bytes_ok packet →
  received sp s0 (open_candidate s packet (expected_pn s)).1 (open_candidate s packet (expected_pn s)).2.
Proof.
  intros Hok Htx Hp. unfold open_candidate. destruct (should_try_candidate _ _); [|by split].
  unfold derive_candidate_rx_keys. destruct (qs_rx_next_rekey_pn s) as [t|] eqn:Et; [|by split].
  pose proof (so_keys _ _ Hok) as Hk. destruct (with_next_rx_keys_total _ Hk) as [k' Ek]. rewrite Ek.
  destruct (with_next_rx_keys_ok _ _ Hk Ek) as (Hk' & Etx & _). res_simpl.
  destruct (try_open_ok sp s k' packet (λ kp, negb (eqb kp (qs_rx_key_phase s))) Hok Hp) as (o & -> & Ho).
  destruct o as [o|]; [|by split]. unfold promote_candidate_rx_keys. rewrite keys_clone by done.
  destruct Htx as (? & ? & ? & ? & ? & ? & ? & ?).
  apply accept_received; [|by repeat split; try done; cbn; congruence|by apply Ho].
  eapply session_ok_rx; [exact Hok|by repeat split|done|apply Hok|apply Hok].
Qed.

Lemma open_packet_received sp s packet :
  session_ok sp s → bytes_ok packet →
  received sp s (open_packet s packet).1 (open_packet s packet).2.
Proof.
  intros Hok Hp. unfold open_packet.
  set (s1 := maybe_confirm_previous_rx_keys s (expected_pn s)).
  assert (same_tx s s1 ∧ session_ok sp s1 ∧ expected_pn s1 = expected_pn s) as (Htx & Hok1 & E1).
  { assert (same_tx s s1 ∧ qs_keys s1 = qs_keys s ∧ qs_replay_window s1 = qs_replay_window s)
      as (Htx & Ek & Ew).
    { unfold s1, maybe_confirm_previous_rx_keys. destruct (qs_previous_rx s); [case_match|]; by repeat split. }
    split_and!; [done| |unfold expected_pn; by rewrite Ew].
    eapply session_ok_rx; [exact Hok|done|rewrite Ek|rewrite Ew|]; apply Hok. }
  cbv zeta. rewrite <- E1.
  destruct (try_open_ok sp s1 (qs_keys s1) packet (λ kp, eqb kp (qs_rx_key_phase s1)) Hok1 Hp) as (o & -> & Ho).
  destruct o as [o|]; [apply accept_received; auto|].
  assert (∃ o, open_previous s1 packet (expected_pn s1) = Ok o ∧ ∀ a, o = Some a → opened_ok a)
    as (o & -> & Ho').
  { unfold open_previous. case_match; [|by exists None]. destruct (qs_previous_rx s1); [|by exists None].
    by eapply try_open_ok. }
  destruct o as [o|]; [apply accept_received; auto|]. by apply open_candidate_received.
Qed.

(** ** Sending *)
Lemma rotate_loop_keeps fuel s pn :
  keys_wf (qs_keys s) → 
  let s' := (rotate_loop fuel s pn).1 in
  keys_wf (qs_keys s') ∧ qs_scid s' = qs_scid s ∧ qs_dcid s' = qs_dcid s ∧
  qs_replay_window s' = qs_replay_window s ∧ qs_rekey_policy s' = qs_rekey_policy s ∧
  qs_next_pn s' = qs_next_pn s ∧ qs_protected s' = qs_protected s.
Proof.
  revert s. induction fuel as [|fuel IH]; intros s Hk; simpl; repeat case_match; try done.
  match goal with E : with_next_tx_keys _ = Ok _ |- _ => destruct (with_next_tx_keys_ok _ _ Hk E) as [Hk' _] end.
  match goal with |- context [rotate_loop fuel ?x pn] =>
    destruct (IH x) as (-> & -> & -> & -> & -> & -> & ->) || specialize (IH x Hk') end. done.
Qed.

(** A send keeps the invariant and does not panic; the packet it hands to the
    backend is protected with the number the session was at. *)
Lemma send_ok sp s payload io :
  session_ok sp s → bytes_ok payload → zlen payload < 2 ^ 31 →
  let s' := (send s payload io).1 in
  session_ok sp s' ∧
  (qs_next_pn s' = qs_next_pn s ∧ qs_protected s' = qs_protected s ∧
   (send s payload io).2 = Err PacketNumberOverflow ∨
   qs_next_pn s' = qs_next_pn s + 1 ∧ qs_next_pn s < u64_max ∧
   qs_protected s' = qs_next_pn s :: qs_protected s ∧
   ∃ packet, protect_into (qs_keys s') (cid_slice (qs_dcid s)) (qs_next_pn s) (qs_tx_key_phase s') payload = Ok packet ∧
     (send s payload io).2 = match io packet with None => Ok packet | Some e => Err (QIo e) end).
Proof.
  intros Hok Hb Hl. pose proof Hok as [Hsc Hdc Hk Hw Hs Hi Ht Hn]. unfold send.
  destruct (maybe_rotate_terminates s (qs_next_pn s) Hk Hi Ht) as (s1 & E & Ht1).
  pose proof (rotate_loop_keeps (rotate_fuel s (qs_next_pn s)) s (qs_next_pn s) Hk) as K. cbv zeta in K.
  unfold maybe_rotate_tx_keys in *. rewrite E in *. cbn [fst] in K.
  destruct K as (Hk1 & E1 & E2 & E3 & E4 & E5 & E6).
  assert (session_ok sp s1) as Hok1.
  { constructor; rewrite ?E1, ?E2, ?E3, ?E4, ?E5; try done. intros t Et. specialize (Ht1 t Et). lia. }
  unfold checked_add64. destruct (Z.leb_spec (qs_next_pn s + 1) u64_max); cbn [fst snd]; [|by split; [|left] ].
  unfold dcid_bytes. cbn [qs_dcid set_next_pn]. rewrite E2, Cid_as_slice_ok by done. res_simpl.
  unfold protect_packet. cbn [fst snd].
  split; [by destruct Hok1; constructor; try done; cbn; lia|]. right.
  split_and!; [done|lia|by cbn [qs_protected note_protected set_next_pn]; rewrite E6|].
  cbn [qs_keys set_next_pn note_protected qs_tx_key_phase].
  destruct (protect_into_ok (qs_keys s1) (cid_slice (qs_dcid s)) (qs_next_pn s) (qs_tx_key_phase s1) payload)
    as (mask & ct & -> & _); [apply Hk1|done|done|]. by eexists.
Qed.

(** ** Sequences of events *)
Inductive event :=
  | ESend (payload : bytes) (io : bytes → option IoError)
  | ERecv (packet : bytes).

(** The outcome of an event. *)
Inductive report :=
  | Sent (r : res QspSessionError bytes)
  | Received (r : res QspSessionError OpenedPacket).

Definition step (s : QuicQspSession) (e : event) : QuicQspSession * report :=
  match e with
  | ESend payload io => let '(s', r) := send s payload io in (s', Sent r)
  | ERecv packet => let '(s', r) := open_packet s packet in (s', Received r)
  end.

Fixpoint run (s : QuicQspSession) (es : list event) : list report :=
  match es with
  | [] => []
  | e :: es => let '(s, r) := step s e in r :: run s es
  end.

(** The session after the events. *)
Definition after (s : QuicQspSession) (es : list event) : QuicQspSession :=
  fold_left (λ s e, (step s e).1) es s.

Definition event_ok (e : event) : Prop :=
  match e with
  | ESend payload _ => bytes_ok payload ∧ zlen payload < 2 ^ 31
  | ERecv packet => bytes_ok packet
  end.

Definition panicked (r : report) : Prop := r = Received Panic ∨ r = Sent Panic.
Definition delivered (r : report) : option Z :=
  match r with Received (Ok o) => Some (op_pn o) | _ => None end.

(** A packet was handed to the backend, which took it or failed. *)
Definition handed_over (r : report) : bool :=
  match r with Sent (Ok _) | Sent (Err (QIo _)) => true | _ => false end.

(** The packets numbered [used], the latest first, were protected in
    increasing order from [start], and the session is past them. *)
Definition numbered (start next : Z) (used : list Z) : Prop :=
  start ≤ next ∧ StronglySorted Z.gt used ∧ Forall (λ p, start ≤ p < next) used.

Lemma numbered_cons start next used :
  numbered start next used → numbered start (next + 1) (next :: used).
Proof.
  intros (Hle & Hs & Hf). split_and!; [lia| |].
  - constructor; [done|]. eapply Forall_impl; [exact Hf|]. simpl. lia.
  - constructor; [lia|]. eapply Forall_impl; [exact Hf|]. simpl. lia.
Qed.

Lemma spec_check_fresh sp pn sp' :
  spec_ok sp → spec_check sp pn = Ok sp' →
  (pn ∉ sp_accepted sp) ∧ sp_accepted sp' = {[ pn ]} ∪ sp_accepted sp.
Proof.
  intros (_ & _ & Hok) E. unfold spec_check in E.
  destruct sp as [i [l|] a]; simpl in *; repeat case_decide; simplify_eq; simpl; [done|].
  rewrite union_empty_r_L. set_solver.
Qed.

Lemma run_safe sp s es start :
  session_ok sp s → Forall event_ok es → numbered start (qs_next_pn s) (qs_protected s) →
  let log := run s es in
  let s' := after s es in
  Forall (λ r, ¬ panicked r) log ∧
  NoDup (omap delivered log) ∧ (∀ p, p ∈ omap delivered log → (p ∉ sp_accepted sp)) ∧
  numbered start (qs_next_pn s') (qs_protected s') ∧ qs_next_pn s' ≤ u64_max ∧
  length (qs_protected s') = (length (List.filter handed_over log) + length (qs_protected s))%nat.
Proof.
  intros Hok Hes. revert sp s Hok.
  induction Hes as [|e es He _ IH]; intros sp s Hok Hnum; cbn [run after fold_left].
  { split_and!; try constructor; try done; [by intros p Hp%elem_of_nil|apply Hnum..|apply Hok]. }
  destruct e as [payload io|packet]; cbn [step].
  - destruct He as [Hb Hl]. destruct (send_ok sp s payload io Hok Hb Hl) as [Hok' Hr].
    destruct (send s payload io) as [s' r]. cbn [fst snd] in *.
    change (fold_left _ es s') with (after s' es).
    assert (numbered start (qs_next_pn s') (qs_protected s')) as Hnum'.
    { destruct Hr as [(-> & -> & _)|(-> & _ & -> & _)]; [done|by apply numbered_cons]. }
    destruct (IH sp s' Hok' Hnum') as (Hp & Hnd & Hf & Hss & Hlo & Hlen).
    cbn [omap list_omap delivered List.filter].
    destruct Hr as [(_ & E & ->)|(_ & _ & E & packet & _ & ->)]; rewrite E in Hlen;
      (split_and!; [constructor; [intros [?|?]; repeat case_match; congruence|done]|done..|]).
    + done.
    + cbn [length] in Hlen. destruct (io packet); cbn [handed_over length]; lia.
  - pose proof (open_packet_received sp s packet Hok He) as Hr.
    destruct (open_packet s packet) as [s' r]. cbn [fst snd] in *.
    change (fold_left _ es s') with (after s' es).
    destruct Hr as ((_ & _ & _ & _ & En & _ & _ & Ep) & Hr). rewrite <- En, <- Ep in *.
    cbn [omap list_omap delivered List.filter handed_over].
    destruct r as [o|e|]; [|  |done].
    + destruct Hr as (Ho & sp' & Hc & Hok').
      destruct (IH sp' s' Hok' Hnum) as (Hp & Hnd & Hf & Hss & Hlo & Hlen).
      destruct (spec_check_fresh _ _ _ (so_spec _ _ Hok) Hc) as [Hnew Hacc]. rewrite Hacc in *.
      split_and!; try done.
      * constructor; [|done]. intros [?|?]; congruence.
      * constructor; [|done]. intros Hin. apply Hf in Hin. set_solver.
      * intros p [->|Hin]%elem_of_cons; [done|]. apply Hf in Hin. set_solver.
    + destruct (IH sp s' Hr Hnum) as (Hp & Hnd & Hf & Hss & Hlo & Hlen).
      split_and!; try done. constructor; [|done]. intros [?|?]; congruence.
Qed.

Lemma session_ok_new cipher a b keys scid dcid send_pn recv_pn kp :
  UdpQspKeys_new cipher a b = Ok keys → Cid_ok scid → Cid_ok dcid → u64_ok send_pn → u64_ok recv_pn →
  session_ok (spec_new recv_pn) (QuicQspSession_new scid dcid keys send_pn recv_pn kp).
Proof.
  intros Hk Hs Hd [Hp Hp'] [Hr _]. destruct (repr_new recv_pn Hr) as [Hw Hsp].
  constructor; cbn [qs_scid qs_dcid qs_keys qs_replay_window qs_rekey_policy qs_tx_next_rekey_pn qs_next_pn
    QuicQspSession_new RekeyPolicy_defaults rp_interval]; try done.
  - by eapply UdpQspKeys_new_wf.
  - intros t. rewrite next_rekey_spec by done. unfold threshold. case_match; [|done]. intros [= <-].
    assert (0 ≤ send_pn / KEY_UPDATE_INTERVAL) by (apply Z.div_pos; [done|by rewrite interval_eq]).
    rewrite interval_eq in *. lia.
  - unfold u64_max. lia.
Qed.
End Safety.

(** ** Theorems *)

(** C1: No packet of a UDP-QSP session is delivered twice.  Whatever arrives
    (forged, corrupted, replayed, reordered packets) and whatever the session
    sends in between, receiving and sending do not panic and the numbers of
    the packets that are handed over are pairwise distinct. *)
Theorem session_no_replay `{B : Boring} {L : BoringLaws B} {T : BoringTotal B}
    cipher a b keys scid dcid send_pn recv_pn kp es :
  UdpQspKeys_new cipher a b = Ok keys → Cid_ok scid → Cid_ok dcid → u64_ok send_pn → u64_ok recv_pn →
  Forall event_ok es →
  let log := run (QuicQspSession_new scid dcid keys send_pn recv_pn kp) es in
  Forall (λ r, ¬ panicked r) log ∧ NoDup (omap delivered log).
Proof.
  intros Hk Hs Hd Hp Hr Hes. pose proof (session_ok_new _ _ _ _ _ _ _ _ kp Hk Hs Hd Hp Hr) as Hok.
  by destruct (run_safe _ _ _ send_pn Hok Hes) as (? & ? & _); [repeat constructor|].
Qed.

(** C2: No AEAD nonce is used twice.  The numbers a session passes to
    [protect_into] increase strictly from its first number, failed sends,
    arbitrary received packets and key updates notwithstanding, and so the
    nonces that any IV makes of them are pairwise distinct; the last number
    is never wrapped around.  There is one number for every packet that was
    handed to the backend, whether the backend took it or failed. *)
Theorem session_no_nonce_reuse `{B : Boring} {L : BoringLaws B} {T : BoringTotal B}
    cipher a b keys scid dcid send_pn recv_pn kp es iv :
  UdpQspKeys_new cipher a b = Ok keys → Cid_ok scid → Cid_ok dcid → u64_ok send_pn → u64_ok recv_pn →
  Forall event_ok es → zlen iv = AEAD_IV_LEN →
  let s := QuicQspSession_new scid dcid keys send_pn recv_pn kp in
  let used := qs_protected (after s es) in
  StronglySorted Z.gt used ∧ Forall (λ p, send_pn ≤ p < u64_max) used ∧
  NoDup (map (make_nonce iv) used) ∧
  length used = length (List.filter handed_over (run s es)).
Proof.
  intros Hk Hs Hd Hp Hr Hes Hiv s used. pose proof (session_ok_new _ _ _ _ _ _ _ _ kp Hk Hs Hd Hp Hr) as Hok.
  destruct (run_safe _ _ _ send_pn Hok Hes) as (_ & _ & _ & (_ & Hss & Hlo) & Hmax & Hlen);
    [repeat constructor; done|]. fold s used in Hss, Hlo, Hmax, Hlen.
  assert (Forall (λ p, send_pn ≤ p < u64_max) used) as Hlo'.
  { eapply Forall_impl; [exact Hlo|]. simpl. lia. }
  split_and!; [done|done| |rewrite Hlen; cbn; lia].
  clear Hlen Hlo. clearbody used. destruct Hp as [Hp _]. induction Hss as [|p used _ IH Hlt]; [constructor|].
  apply Forall_cons in Hlo' as [Hp0 Hlo]. cbn [map]. constructor; [|by apply IH].
  intros (q & Heq & Hq)%list_elem_of_fmap. rewrite Forall_forall in Hlt, Hlo.
  specialize (Hlt q Hq). specialize (Hlo q Hq). unfold u64_max in *.
  apply make_nonce_inj in Heq; [lia|done|split; lia|split; lia].
Qed.

(** ** Witnesses: the checksum library, one packet that is replayed *)
Section Witnesses.
Import Checksum.

Definition demo_packet : bytes :=
  match (send (QuicQspSession_new demo_cid demo_cid keys_ab 5 9 false) [7; 7; 7] (λ _, None)).2 with
  | Ok p => p
  | _ => []
  end.
Definition demo_events : list event :=
  [ERecv demo_packet; ESend [8] (λ _, None); ERecv demo_packet; ERecv [0];
   ESend [8] (λ _, Some TimedOut); ERecv (<[20%nat:=0]> demo_packet); ESend [9; 9] (λ _, None)].

Lemma demo_events_ok : Forall event_ok demo_events.
Proof. repeat (constructor; [cbn [event_ok]; first [decided|split; decided]|]). constructor. Qed.

Lemma session_no_replay_witness :
  let log := run (QuicQspSession_new demo_cid demo_cid keys_ba 9 5 false) demo_events in
  omap delivered log = [5] ∧ (Forall (λ r, ¬ panicked r) log ∧ NoDup (omap delivered log)).
Proof.
  split; [vm_compute; reflexivity|].
  apply (session_no_replay Aes128Gcm (secret 2) (secret 1) keys_ba demo_cid demo_cid 9 5 false demo_events
    keys_ba_new); [decided|decided|decided|decided|apply demo_events_ok].
Defined.

Lemma session_no_nonce_reuse_witness :
  let s := QuicQspSession_new demo_cid demo_cid keys_ba 2097151 5 false in
  let used := qs_protected (after s demo_events) in
  used = [2097153; 2097152; 2097151] ∧
  (StronglySorted Z.gt used ∧ Forall (λ p, 2097151 ≤ p < u64_max) used ∧
   NoDup (map (make_nonce (zeros 12)) used) ∧
   length used = length (List.filter handed_over (run s demo_events))).
Proof.
  split; [vm_compute; reflexivity|].
  apply (session_no_nonce_reuse Aes128Gcm (secret 2) (secret 1) keys_ba demo_cid demo_cid 2097151 5 false
    demo_events (zeros 12) keys_ba_new); [decided|decided|decided|decided|apply demo_events_ok|reflexivity].
Defined.
End Witnesses.
