(* ===== verification/QspDelivery.v ===== *)
(** * Delivery over UDP-QSP

    The receive side of a session ([session.rs], [open_packet]) against the
    packets of a sender with the same secrets: the invariant that relates the
    receiver to the set of numbers it has accepted, and the proof that each
    fresh packet within the bounds is opened to the payload that was sent,
    also when it belongs to the previous or to the next key generation. *)

From stdpp Require Import base tactics option list numbers gmap sets.
From Stdlib Require Import ZArith Lia.
From S2P Require Import Prelude Cid Framing Payloads PacketNumber ReplayWindow PacketHeader Keys QspSession.

Section Delivery.
Context `{B : Boring} {L : BoringLaws B} {T : BoringTotal B}.

(** The sender's keys, the connection ID it sends to, the first packet number
    and the first key phase. *)
Context (ks : UdpQspKeys) (cid : Cid) (start : Z) (kp0 : bool).
Hypothesis Hks : dk_wf (qk_tx ks).
Hypothesis Hcid : Cid_ok cid.
Hypothesis Hstart : u64_ok start.

Definition gen_keys (g : nat) : DirectionKeys := generation (qk_cipher ks) (qk_tx ks) g.

(** What the receiver expects, from the specification of its window. *)
Definition spec_expected (sp : spec) : Z :=
  match sp_largest sp with None => sp_initial sp | Some l => l + 1 end.

Record recv_core (g : nat) (sp : spec) (s : QuicQspSession) : Prop := mkRecvCore {
  ri_scid : qs_scid s = cid;
  ri_keys : keys_wf (qs_keys s);
  ri_cipher : qk_cipher (qs_keys s) = qk_cipher ks;
  ri_rx : qk_rx (qs_keys s) = gen_keys g;
  ri_phase : qs_rx_key_phase s = xorb kp0 (Nat.odd g);
  ri_policy : qs_rekey_policy s = RekeyPolicy_defaults;
  ri_next : qs_rx_next_rekey_pn s = threshold (gen_start start (S g));
  ri_window : repr (qs_replay_window s) sp;
  ri_spec : spec_ok sp;
  ri_initial : sp_initial sp = start;
  (** only numbers of the generations so far have been accepted *)
  ri_accepted : ∀ p, p ∈ sp_accepted sp → start ≤ p < u64_max ∧ (gen_of start p ≤ g)%nat;
  (** the previous keys are dropped only when their packets are too old *)
  ri_previous :
    match qs_previous_rx s with
    | None => g = 0%nat ∨ gen_start start g + 1024 < spec_expected sp
    | Some prev => g ≠ 0%nat ∧ qk_rx (prev_keys prev) = gen_keys (pred g) ∧
        prev_valid_until_pn prev = saturating_add64 (gen_start start g) 1024
    end;
}.

(** The receiver is at generation [g] because a packet of it has arrived. *)
Definition gen_seen (g : nat) (acc : gset Z) : Prop := g = 0%nat ∨ ∃ q, q ∈ acc ∧ gen_of start q = g.

Definition recv_inv (g : nat) (sp : spec) (s : QuicQspSession) : Prop :=
  recv_core g sp s ∧ gen_seen g (sp_accepted sp).

Definition opened (pn : Z) (payload : bytes) : OpenedPacket :=
  mkOpened pn (packet_number_len pn) (phase_of kp0 start pn) (payload ++ zeros (pad_len pn payload)).

Lemma expected_spec g sp s :
  recv_core g sp s → expected_pn s = spec_expected sp ∧ start ≤ spec_expected sp ≤ u64_max.
Proof.
  intros H. destruct (ri_window _ _ _ H) as (_ & Hi & Hl & _). pose proof (ri_initial _ _ _ H) as Hin.
  destruct (ri_spec _ _ _ H) as (_ & _ & Hmax). unfold expected_pn, ReplayWindow_expected_pn, spec_expected.
  rewrite Hl, Hi, Hin. unfold u64_ok, u64_max in *. destruct (sp_largest sp) as [l|]; [|lia].
  destruct Hmax as [Hm _]. destruct (ri_accepted _ _ _ H l Hm) as [Hb _].
  unfold saturating_add64, u64_max in *. lia.
Qed.

(** The expected number stays below the next generation, and past the start
    of the current one. *)
Lemma expected_bounds g sp s :
  recv_inv g sp s →
  spec_expected sp ≤ gen_start start (S g) ∧ (g = 0%nat ∨ gen_start start g < spec_expected sp).
Proof.
  intros [H Hseen]. pose proof (ri_spec _ _ _ H) as (_ & _ & Hmax). pose proof (ri_initial _ _ _ H) as Hin.
  pose proof Hstart as [Hs0 _].
  unfold spec_expected. destruct (sp_largest sp) as [l|] eqn:El.
  - destruct Hmax as [Hm Hle]. destruct (ri_accepted _ _ _ H l Hm) as [Hb Hg].
    pose proof (proj1 (gen_of_iff start l _ ltac:(lia)) eq_refl) as [_ Hhi].
    split.
    + rewrite gen_start_S in Hhi |- *. unfold gen_start in *. rewrite interval_eq in *. lia.
    + destruct Hseen as [?|(q & Hq & Eq)]; [by left|right].
      specialize (Hle q Hq). destruct (ri_accepted _ _ _ H q Hq) as [Hbq _].
      pose proof (proj1 (gen_of_iff start q g ltac:(lia)) Eq). lia.
  - rewrite Hin. split.
    + pose proof (proj1 (gen_of_iff start start 0 ltac:(lia)) (gen_of_start start (proj1 Hstart))) as [_ Hhi].
      rewrite gen_start_S in Hhi |- *. unfold gen_start in *. rewrite interval_eq in *. lia.
    + destruct Hseen as [?|(q & Hq & _)]; [by left|]. exfalso. rewrite Hmax in Hq. set_solver.
Qed.

(** Dropping keys that are no longer needed keeps the invariant. *)
Lemma confirm_core g sp s :
  recv_core g sp s →
  let s' := maybe_confirm_previous_rx_keys s (expected_pn s) in
  recv_core g sp s' ∧ expected_pn s' = expected_pn s ∧
  ∀ prev, qs_previous_rx s' = Some prev → expected_pn s ≤ prev_valid_until_pn prev.
Proof.
  intros H s'. destruct (expected_spec _ _ _ H) as [He Hr]. rewrite He.
  unfold s', maybe_confirm_previous_rx_keys. rewrite He.
  destruct (qs_previous_rx s) as [prev|] eqn:Ep; [|split_and!; [done|done|by rewrite Ep] ].
  rewrite Z.gtb_ltb. destruct (Z.ltb_spec (prev_valid_until_pn prev) (spec_expected sp)) as [Hlt|Hge].
  - split_and!; [|done|done]. destruct H. rewrite Ep in ri_previous0.
    destruct ri_previous0 as (Hg & _ & Hv). constructor; try done. cbn. right.
    rewrite Hv in Hlt. unfold saturating_add64 in Hlt. lia.
  - split_and!; [done|done|]. rewrite Ep. intros ? [= <-]. done.
Qed.

(** Accepting a number the specification accepts. *)
Lemma spec_check_facts sp pn sp' :
  spec_ok sp → spec_check sp pn = Ok sp' →
  sp_initial sp' = sp_initial sp ∧ sp_accepted sp' = {[ pn ]} ∪ sp_accepted sp ∧
  spec_expected sp ≤ spec_expected sp'.
Proof.
  intros (_ & _ & Hl) H. unfold spec_check, spec_expected in *.
  destruct sp as [i [l|] a]; simpl in *; repeat case_decide; simplify_eq; simpl; split_and!; try done; try lia.
  by rewrite union_empty_r_L.
Qed.

Lemma accept_core g sp s sp' pn payload :
  recv_core g sp s → start ≤ pn < u64_max → (gen_of start pn ≤ g)%nat → spec_check sp pn = Ok sp' →
  gen_seen g ({[ pn ]} ∪ sp_accepted sp) →
  ∃ s', accept_opened s (opened pn payload) = (s', Ok (opened pn payload)) ∧ recv_inv g sp' s'.
Proof.
  intros H Hpn Hg Hchk Hseen. pose proof Hstart as [Hs0 _].
  destruct (spec_check_facts _ _ _ (ri_spec _ _ _ H) Hchk) as (Hi & Ha & He).
  pose proof (check_and_update_refines _ _ pn (ri_spec _ _ _ H) (ri_window _ _ _ H) ltac:(lia)) as A.
  rewrite Hchk in A. unfold accept_opened. cbn [op_pn opened].
  destruct (check_and_update (qs_replay_window s) pn) as [w|e|]; simpl in A; try done.
  eexists. split; [done|]. split; [|by rewrite Ha].
  pose proof (spec_check_ok sp pn sp' (ri_spec _ _ _ H) ltac:(lia) Hchk) as Hok.
  destruct H. constructor; try done.
  - congruence.
  - rewrite Ha. intros p [->%elem_of_singleton|Hp]%elem_of_union; [done|by apply ri_accepted0].
  - cbn [qs_previous_rx set_window]. destruct (qs_previous_rx s); [done|].
    destruct ri_previous0; [by left|right; lia].
Qed.

(** ** One packet *)

(** A packet of the sender, opened with the keys of generation [j]. *)
Section Packet.
Context (pn : Z) (payload packet : bytes) (expected : Z).
Hypothesis Hpn : start ≤ pn < u64_max.
Hypothesis Hpayload : bytes_ok payload ∧ zlen payload < 2 ^ 31.
Hypothesis Hsealed : sealed ks (cid_slice cid) start kp0 pn payload = Ok packet.
Hypothesis Hrec : reconstruct_packet_number (truncate_pn pn) expected (packet_number_len pn) = pn.

Lemma try_open_match s keys keep :
  qs_scid s = cid → qk_rx keys = gen_keys (gen_of start pn) → keep (phase_of kp0 start pn) = true →
  try_open s keys packet expected keep = Ok (Some (opened pn payload)).
Proof.
  intros Es Ek Hkeep. unfold try_open, open_into, u64_ok, u64_max in *. rewrite Es, <- zlen_cid_slice by done.
  destruct Hpayload as [Hb Hl]. pose proof Hstart as Hs.
  destruct (generation_ok (qk_cipher ks) (qk_tx ks) (gen_of start pn) Hks) as ((_ & _ & Hw) & _).
  unfold sealed in Hsealed.
  rewrite (open_protected _ _ _ pn (phase_of kp0 start pn) payload expected packet) with (7 := Hsealed);
    try done; try (by rewrite Ek); [|split; lia].
  res_simpl. cbn [op_key_phase]. by rewrite Hkeep.
Qed.

Lemma try_open_other s keys j keep :
  qs_scid s = cid → qk_rx keys = gen_keys j → keep (phase_of kp0 start pn) = false →
  try_open s keys packet expected keep = Ok None.
Proof.
  intros Es Ek Hkeep. unfold try_open, open_into. rewrite Es, <- zlen_cid_slice by done.
  destruct Hpayload as [Hb Hl]. pose proof Hstart as Hs. unfold u64_ok in Hs.
  destruct (generation_ok (qk_cipher ks) (qk_tx ks) (gen_of start pn) Hks) as ((_ & _ & Hw) & Hh & _).
  destruct (generation_ok (qk_cipher ks) (qk_tx ks) j Hks) as (_ & Hh' & _).
  destruct (open_into_inner (qk_rx keys) (zlen (cid_slice cid)) packet expected) as [o|e|] eqn:Eo; res_simpl.
  - unfold sealed in Hsealed.
    assert (op_key_phase o = phase_of kp0 start pn) as ->; [|by rewrite Hkeep].
    eapply open_phase with (6 := Hsealed); [done..|lia| |exact Eo].
    rewrite Ek. unfold gen_keys. cbn [qk_tx]. congruence.
  - done.
  - by apply open_no_panic in Eo; [|apply zlen_nonneg].
Qed.
End Packet.

(** Which generations a fresh packet within the bounds can belong to. *)
Lemma gen_cases g sp s pn sp' :
  recv_inv g sp s → start ≤ pn → spec_check sp pn = Ok sp' → pn ≤ spec_expected sp + 8192 →
  gen_of start pn = g ∨ (S (gen_of start pn) = g ∧ spec_expected sp ≤ gen_start start g + 1023) ∨
  (gen_of start pn = S g ∧ gen_start start (S g) ≤ pn ∧
   gen_start start (S g) ≤ spec_expected sp + 8192 ∧ spec_expected sp ≤ gen_start start (S g)).
Proof.
  intros [H Hseen] Hpn Hchk Hnear. pose proof Hstart as [Hs0 _].
  destruct (expected_bounds _ _ _ (conj H Hseen)) as [Hhi Hlo].
  pose proof (proj1 (gen_of_iff start pn _ ltac:(lia)) eq_refl) as [G1 G2].
  assert (spec_expected sp ≤ pn + 1024) as Hwin.
  { unfold spec_check in Hchk. unfold spec_expected.
    destruct (ri_spec _ _ _ H) as (_ & _ & Hmax). destruct (sp_largest sp); repeat case_decide; simplify_eq; lia. }
  rewrite gen_start_S in G2, Hhi |- *. unfold gen_start in *. rewrite interval_eq in *.
  destruct Hlo as [->|Hlo]; lia.
Qed.

(** A packet of the previous generation: the previous keys are still there. *)
Lemma previous_kept g sp s :
  recv_core g sp s → g ≠ 0%nat → spec_expected sp ≤ gen_start start g + 1023 →
  ∃ prev, qs_previous_rx s = Some prev ∧ qk_rx (prev_keys prev) = gen_keys (pred g).
Proof.
  intros H Hg Hold. pose proof (ri_previous _ _ _ H) as Hp.
  destruct (qs_previous_rx s) as [prev|]; [|lia]. destruct Hp as (_ & Hk & _). by exists prev.
Qed.

(** A packet of the next generation: the candidate keys are tried. *)
Lemma candidate_tried g sp s :
  recv_core g sp s → (∀ prev, qs_previous_rx s = Some prev → spec_expected sp ≤ prev_valid_until_pn prev) →
  gen_start start (S g) < u64_max → gen_start start (S g) ≤ spec_expected sp + 8192 →
  spec_expected sp ≤ gen_start start (S g) →
  qs_previous_rx s = None ∧ qs_rx_next_rekey_pn s = Some (gen_start start (S g)) ∧
  should_try_candidate s (spec_expected sp) = true.
Proof.
  intros H Hprev Hmax Hn1 Hn2. pose proof (ri_previous _ _ _ H) as Hp.
  assert (qs_previous_rx s = None) as Enone.
  { destruct (qs_previous_rx s) as [prev|] eqn:E; [|done]. exfalso.
    destruct Hp as (_ & _ & Hv). specialize (Hprev prev eq_refl). rewrite Hv in Hprev.
    unfold saturating_add64 in Hprev. rewrite gen_start_S in Hn1. lia. }
  assert (qs_rx_next_rekey_pn s = Some (gen_start start (S g))) as Enext.
  { rewrite (ri_next _ _ _ H). unfold threshold. by rewrite (proj2 (Z.leb_le _ _)) by lia. }
  split_and!; [done|done|]. unfold should_try_candidate. rewrite Enone, Enext, (ri_policy _ _ _ H).
  unfold pn_distance, abs_diff. cbn [rp_late_margin RekeyPolicy_defaults].
  change KEY_UPDATE_LATE_MARGIN with 8192. apply Z.leb_le. lia.
Qed.

(** Promoting the candidate moves the receiver to the next generation. *)
Lemma promote_core g sp s candidate :
  recv_core g sp s → gen_start start (S g) < u64_max →
  with_next_rx_keys (qs_keys s) = Ok candidate →
  ∃ s', promote_candidate_rx_keys s candidate = (s', Ok tt) ∧ recv_core (S g) sp s'.
Proof.
  intros H Hmax Hc. pose proof (ri_keys _ _ _ H) as Hw. unfold promote_candidate_rx_keys.
  assert (UdpQspKeys_try_clone (qs_keys s) = Ok (qs_keys s)) as ->.
  { unfold UdpQspKeys_try_clone. destruct Hw as [Ht Hr]. rewrite !dk_clone by done. by destruct (qs_keys s). }
  destruct (with_next_rx_keys_ok _ _ Hw Hc) as (Hw' & _ & _ & Hcc & Hgen).
  rewrite (ri_next _ _ _ H). unfold threshold. rewrite (proj2 (Z.leb_le _ _)) by lia.
  cbn [default]. unfold id. rewrite (ri_policy _ _ _ H). cbn [rp_interval RekeyPolicy_defaults].
  eexists. split; [done|].
  rewrite (ri_cipher _ _ _ H), (ri_rx _ _ _ H) in Hgen.
  destruct (generation_ok (qk_cipher ks) (qk_tx ks) g Hks) as (_ & _ & Hgen').
  unfold gen_keys in Hgen. rewrite Hgen' in Hgen. apply (inj Ok) in Hgen.
  assert (0 ≤ gen_start start (S g)) as Hnn.
  { unfold gen_start. rewrite interval_eq. pose proof Hstart as [Hs0 _].
    assert (0 ≤ start / 2097152) by (apply Z.div_pos; lia). lia. }
  destruct H. constructor;
    cbn [qs_scid qs_keys qs_rx_key_phase qs_rekey_policy qs_rx_next_rekey_pn qs_replay_window
         qs_previous_rx set_rx prev_keys prev_valid_until_pn]; try done.
  - congruence.
  - rewrite ri_phase0, Nat.odd_succ, <- Nat.negb_odd. by destruct kp0, (Nat.odd g).
  - rewrite next_rekey_spec by lia. f_equal. unfold gen_start.
    rewrite interval_eq. rewrite Z.div_mul by lia. lia.
  - intros p Hp. destruct (ri_accepted0 p Hp). split; [done|lia].
Qed.

Lemma deliver g sp s pn payload packet sp' :
  recv_inv g sp s → start ≤ pn < u64_max → bytes_ok payload ∧ zlen payload < 2 ^ 31 →
  sealed ks (cid_slice cid) start kp0 pn payload = Ok packet →
  spec_check sp pn = Ok sp' → pn ≤ spec_expected sp + 8192 →
  reconstruct_packet_number (truncate_pn pn) (spec_expected sp) (packet_number_len pn) = pn →
  ∃ s' g', open_packet s packet = (s', Ok (opened pn payload)) ∧ recv_inv g' sp' s'.
Proof.
  intros Hinv Hpn Hpl Hsl Hchk Hnear Hrec. pose proof (gen_cases g sp s pn sp' Hinv ltac:(lia) Hchk Hnear) as Hcase.
  destruct Hinv as [H Hseen]. destruct (expected_spec _ _ _ H) as [He _].
  destruct (confirm_core _ _ _ H) as (H0 & He0 & Hprev). unfold open_packet.
  set (s0 := maybe_confirm_previous_rx_keys s (expected_pn s)) in *. rewrite He in *. clear H.
  assert (∀ k, gen_of start pn = S k ∨ S (gen_of start pn) = k →
            eqb (phase_of kp0 start pn) (xorb kp0 (Nat.odd k)) = false) as Hne.
  { intros k [E|E]; [|subst k]; unfold phase_of; rewrite ?E, Nat.odd_succ, <- Nat.negb_odd;
      by destruct kp0, (Nat.odd _). }
  assert (gen_seen g ({[ pn ]} ∪ sp_accepted sp)) as Hseen'
    by (destruct Hseen as [?|(q & ? & ?)]; [by left|right; exists q; set_solver]).
  destruct Hcase as [Hg|[[Hg Hold]|(Hg & Hge & Hn1 & Hn2)] ].
  - rewrite (try_open_match pn payload packet _ Hpn Hpl Hsl Hrec s0); [|apply (ri_scid _ _ _ H0)| |].
    + destruct (accept_core g sp s0 sp' pn payload) as (s' & -> & Hinv'); [done|done|lia|done|done|by eauto].
    + rewrite Hg. apply (ri_rx _ _ _ H0).
    + rewrite (ri_phase _ _ _ H0). unfold phase_of. rewrite Hg. apply eqb_reflx.
  - rewrite (try_open_other pn payload packet _ Hpn Hpl Hsl s0 _ g);
      [|apply (ri_scid _ _ _ H0)|apply (ri_rx _ _ _ H0)|rewrite (ri_phase _ _ _ H0); auto].
    destruct (previous_kept g sp s0 H0 ltac:(lia) Hold) as (prev & Ep & Ek).
    unfold open_previous, can_try_previous. rewrite Ep, (proj2 (Z.leb_le _ _) (Hprev _ Ep)).
    rewrite (try_open_match pn payload packet _ Hpn Hpl Hsl Hrec s0); [|apply (ri_scid _ _ _ H0)| |].
    + destruct (accept_core g sp s0 sp' pn payload) as (s' & -> & Hinv'); [done|done|lia|done|done|by eauto].
    + rewrite Ek. f_equal. lia.
    + rewrite (ri_phase _ _ _ H0), Hne by auto. done.
  - rewrite (try_open_other pn payload packet _ Hpn Hpl Hsl s0 _ g);
      [|apply (ri_scid _ _ _ H0)|apply (ri_rx _ _ _ H0)|rewrite (ri_phase _ _ _ H0); auto].
    destruct (candidate_tried g sp s0 H0 Hprev) as (Enone & Enext & Htry); [lia..|].
    unfold open_previous, can_try_previous. rewrite Enone. unfold open_candidate, derive_candidate_rx_keys.
    rewrite Htry, Enext. destruct (with_next_rx_keys_total _ (ri_keys _ _ _ H0)) as [c Hc].
    rewrite Hc. res_simpl. destruct (with_next_rx_keys_ok _ _ (ri_keys _ _ _ H0) Hc) as (_ & _ & _ & _ & Hgen).
    destruct (generation_ok (qk_cipher ks) (qk_tx ks) g Hks) as (_ & _ & Hgen').
    rewrite (ri_cipher _ _ _ H0), (ri_rx _ _ _ H0) in Hgen. unfold gen_keys in Hgen.
    rewrite Hgen' in Hgen. apply (inj Ok) in Hgen.
    rewrite (try_open_match pn payload packet _ Hpn Hpl Hsl Hrec s0); [|apply (ri_scid _ _ _ H0)| |].
    + destruct (promote_core g sp s0 c H0 ltac:(lia) Hc) as (s1 & -> & H1).
      destruct (accept_core (S g) sp s1 sp' pn payload) as (s' & -> & Hinv');
        [done|done|lia|done|right; exists pn; set_solver|by eauto].
    + unfold gen_keys. by rewrite Hg.
    + rewrite (ri_phase _ _ _ H0), Hne by auto. done.
Qed.

(** ** Sequences of packets *)

(** The largest number of [seen], or the one before the first. *)
Definition top (seen : list Z) : Z := foldr Z.max (start - 1) seen.

(** A packet the receiver has to accept after those in [seen]: it is fresh,
    at most 1023 behind the largest and at most 8192 ahead of the next, and a
    number below 256, which is sent in one byte, is at most 126 behind. *)
Definition in_bounds (seen : list Z) (pn : Z) : Prop :=
  (pn ∉ seen) ∧ start ≤ pn < u64_max ∧ top seen - 1024 < pn ≤ top seen + 8193 ∧
  (pn ≤ 255 → top seen < pn + 127).

Fixpoint schedule_ok (seen pns : list Z) : Prop :=
  match pns with
  | [] => True
  | pn :: pns => in_bounds seen pn ∧ schedule_ok (pn :: seen) pns
  end.

#[global] Instance in_bounds_dec seen pn : Decision (in_bounds seen pn).
Proof. unfold in_bounds. apply _. Defined.
#[global] Instance schedule_ok_dec seen pns : Decision (schedule_ok seen pns).
Proof. revert seen. induction pns as [|pn pns IH]; intros seen; simpl; apply _. Defined.

Definition spec_of (seen : list Z) : spec :=
  mkSpec start (match seen with [] => None | _ => Some (top seen) end) (list_to_set seen).

Lemma spec_expected_of seen : spec_expected (spec_of seen) = top seen + 1.
Proof. unfold spec_expected, spec_of. destruct seen; cbn [sp_largest sp_initial top foldr]; lia. Qed.

Lemma spec_check_bounds seen pn :
  in_bounds seen pn → spec_check (spec_of seen) pn = Ok (spec_of (pn :: seen)).
Proof.
  intros (Hf & Hpn & Hw & _). unfold spec_check, spec_of. cbn [sp_largest sp_initial sp_accepted].
  destruct seen as [|q seen].
  - rewrite decide_False by lia. cbn [top foldr list_to_set]. rewrite Z.max_l by lia.
    by rewrite union_empty_r_L.
  - rewrite decide_False by lia. rewrite decide_False by (rewrite elem_of_list_to_set; done).
    f_equal. f_equal. f_equal. change (top (pn :: q :: seen)) with (Z.max pn (top (q :: seen))). lia.
Qed.

(** The completion of the number is right within the bounds. *)
Lemma bounds_reconstruct seen pn :
  start - 1 ≤ top seen < u64_max → in_bounds seen pn →
  reconstruct_packet_number (truncate_pn pn) (top seen + 1) (packet_number_len pn) = pn.
Proof.
  intros Ht (_ & Hpn & Hw & H255). pose proof Hstart as [Hs0 _]. unfold u64_max in *.
  apply reconstruct_sent; [split; lia|split; lia| |lia].
  unfold packet_number_len. destruct (Z.leb_spec pn 0xff) as [Hs|Hs].
  - change (256 ^ 1 / 2) with 128. specialize (H255 Hs). lia.
  - split_tests; [change (256 ^ 2 / 2) with 32768|change (256 ^ 3 / 2) with 8388608|
      change (256 ^ 4 / 2) with 2147483648]; lia.
Qed.

Fixpoint recv_all (s : QuicQspSession) (packets : list bytes)
    : QuicQspSession * list (res QspSessionError OpenedPacket) :=
  match packets with
  | [] => (s, [])
  | p :: ps =>
      let '(s, r) := open_packet s p in
      let '(s, rs) := recv_all s ps in
      (s, r :: rs)
  end.

Lemma top_bound seen : Forall (λ p, start ≤ p < u64_max) seen → start - 1 ≤ top seen < u64_max.
Proof.
  intros H. pose proof Hstart as [Hs0 Hs1]. unfold top, u64_max in *.
  induction H as [|p seen Hp _ IH]; simpl; lia.
Qed.

(** Packets of the sender, delivered in any order within the bounds. *)
Lemma deliver_all seen g s (ds : list (Z * bytes)) packets :
  Forall (λ p, start ≤ p < u64_max) seen → recv_inv g (spec_of seen) s →
  schedule_ok seen (ds.*1) → Forall (λ d, bytes_ok d.2 ∧ zlen d.2 < 2 ^ 31) ds →
  Forall2 (λ d p, sealed ks (cid_slice cid) start kp0 d.1 d.2 = Ok p) ds packets →
  snd (recv_all s packets) = map (λ d, Ok (opened d.1 d.2)) ds.
Proof.
  intros Hseen Hinv Hsch Hpl Hp. revert seen g s Hseen Hinv Hsch Hpl.
  induction Hp as [|[pn payload] p ds ps Hsl _ IH]; intros seen g s Hseen Hinv Hsch Hpl; [done|].
  destruct Hsch as [Hb Hsch]. apply Forall_cons in Hpl as [Hpl Hpls]. cbn [recv_all map fst snd] in *.
  pose proof (top_bound seen Hseen) as Ht.
  destruct (deliver g (spec_of seen) s pn payload p (spec_of (pn :: seen))) as (s' & g' & -> & Hinv').
  - done.
  - apply Hb.
  - done.
  - done.
  - by apply spec_check_bounds.
  - rewrite spec_expected_of. destruct Hb as (_ & _ & ? & _). lia.
  - rewrite spec_expected_of. by apply bounds_reconstruct.
  - specialize (IH (pn :: seen) g' s'). destruct (recv_all s' ps) as [s'' rs]. cbn [snd] in *.
    f_equal. apply IH; try done. constructor; [apply Hb|done].
Qed.

(** A fresh receiver. *)
Lemma recv_inv_new kr dcid send_pn :
  keys_wf kr → qk_rx kr = qk_tx ks → qk_cipher kr = qk_cipher ks →
  recv_inv 0 (spec_of []) (QuicQspSession_new cid dcid kr send_pn start kp0).
Proof.
  intros Hw Hrx Hc. pose proof Hstart as [Hs0 Hs1].
  destruct (repr_new start Hs0) as [Hr Hok]. split; [|by left].
  constructor; cbn [qs_scid qs_keys qs_rx_key_phase qs_rekey_policy qs_rx_next_rekey_pn qs_replay_window
         qs_previous_rx QuicQspSession_new]; try done.
  - by destruct kp0.
  - cbn [rp_interval RekeyPolicy_defaults]. rewrite next_rekey_spec by done.
    by rewrite (threshold_gen start), gen_of_start by lia.
  - by left.
Qed.
End Delivery.

Section Claims.
Context `{B : Boring} {L : BoringLaws B} {T : BoringTotal B}.

Lemma sent_from_lookup k0 dcid start kp0 io pn payloads i :
  sent_from k0 dcid start kp0 io pn payloads !! i =
  (λ p, sent k0 dcid start kp0 io (pn + Z.of_nat i) p) <$> payloads !! i.
Proof.
  revert pn i. induction payloads as [|p ps IH]; intros pn [|i]; try done.
  - cbn. by rewrite Z.add_0_r.
  - cbn [sent_from lookup list_lookup]. rewrite IH. cbn.
    destruct (ps !! i); cbn; [|done]. do 2 f_equal. lia.
Qed.

(** Both endpoints derive the two directions from the same secrets. *)
Lemma mirrored_keys cipher a b ks kr :
  UdpQspKeys_new cipher a b = Ok ks → UdpQspKeys_new cipher b a = Ok kr →
  keys_wf ks ∧ keys_wf kr ∧ qk_rx kr = qk_tx ks ∧ qk_cipher kr = qk_cipher ks.
Proof.
  intros Hs Hr. pose proof (UdpQspKeys_new_wf _ _ _ _ Hs). pose proof (UdpQspKeys_new_wf _ _ _ _ Hr).
  unfold UdpQspKeys_new in *. res_inv Hs. res_inv Hr. simplify_eq.
  split_and!; [done|done|cbn [qk_rx qk_tx]; congruence|done].
Qed.

Lemma sealed_ok ks dcid start kp0 pn payload :
  dk_wf (qk_tx ks) → bytes_ok payload → zlen payload < 2 ^ 31 →
  ∃ packet, sealed ks dcid start kp0 pn payload = Ok packet.
Proof.
  intros Hk Hb Hl. unfold sealed.
  destruct (generation_ok (qk_cipher ks) (qk_tx ks) (gen_of start pn) Hk) as ((_ & _ & Hw) & _).
  edestruct protect_into_ok as (mask & ct & E & _); [|exact Hb|exact Hl|by eexists]. done.
Qed.

(** What [sender] protects from its first packet [start] on, [receiver] opens
    to the payloads, in any order and with any losses within the bounds of
    [schedule_ok]. *)
Definition delivers (start : Z) (kp0 : bool) (sender receiver : QuicQspSession) : Prop :=
  ∀ payloads, start + zlen payloads ≤ u64_max → Forall (λ p, bytes_ok p ∧ zlen p < 2 ^ 31) payloads →
    let outs := snd (send_all sender payloads (λ _, None)) in
    (∀ i p, payloads !! i = Some p → ∃ packet, outs !! i = Some (Ok packet)) ∧
    ∀ (ds : list nat) packets,
      Forall2 (λ i p, outs !! i = Some (Ok p)) ds packets →
      schedule_ok start [] (map (λ i, start + Z.of_nat i) ds) →
      snd (recv_all receiver packets) =
        map (λ i, Ok (opened start kp0 (start + Z.of_nat i) (payloads !!! i))) ds.

Lemma mirrored_deliver cipher a b ks kr cid scid dcid start kp0 recv_pn send_pn :
  UdpQspKeys_new cipher a b = Ok ks → UdpQspKeys_new cipher b a = Ok kr → Cid_ok cid → u64_ok start →
  delivers start kp0 (QuicQspSession_new scid cid ks start recv_pn kp0) (QuicQspSession_new cid dcid kr send_pn start kp0).
Proof.
  intros Hs Hr Hcid Hstart payloads Hmax Hpl outs. set (sender := QuicQspSession_new scid _ _ _ _ _) in outs.
  set (receiver := QuicQspSession_new cid _ _ _ _ _).
  destruct (mirrored_keys _ _ _ _ _ Hs Hr) as ([Hst Hsr] & Hkr & Hrx & Hc).
  assert (outs = sent_from ks (cid_slice cid) start kp0 (λ _, None) start payloads) as Eouts.
  { unfold outs, sender. apply (send_all_sealed ks start kp0 start); try done; [by apply tx_at_new|by left]. }
  assert (∀ i p, payloads !! i = Some p →
    ∃ packet, sealed ks (cid_slice cid) start kp0 (start + Z.of_nat i) p = Ok packet ∧
              outs !! i = Some (Ok packet)) as Hout.
  { intros i p Hi. rewrite Eouts, sent_from_lookup, Hi. destruct (Forall_lookup_1 _ _ _ _ Hpl Hi).
    destruct (sealed_ok ks (cid_slice cid) start kp0 (start + Z.of_nat i) p) as [packet E]; [done..|].
    exists packet. split; [done|]. simpl. unfold sent. by rewrite E. }
  split; [intros i p Hi; destruct (Hout i p Hi) as (packet & _ & ?); by exists packet|].
  intros ds packets Hds Hsch.
  pose proof (deliver_all ks cid start kp0 Hst Hcid Hstart [] 0 receiver
    (map (λ i, (start + Z.of_nat i, payloads !!! i)) ds) packets) as D.
  rewrite D; [by rewrite map_map|constructor|by apply recv_inv_new|by rewrite <- list_fmap_compose|..].
  - apply Forall_forall. intros [pn p] Hin. apply list_elem_of_fmap in Hin as (i & [= -> ->] & Hin).
    apply list_elem_of_lookup in Hin as [j Hj]. destruct (Forall2_lookup_l _ _ _ _ _ Hds Hj) as (q & _ & Hq).
    destruct (payloads !! i) as [p|] eqn:Ei; [|by rewrite Eouts, sent_from_lookup, Ei in Hq].
    rewrite (list_lookup_total_correct _ _ _ Ei). by apply (Forall_lookup_1 _ _ _ _ Hpl Ei).
  - apply Forall2_fmap_l. eapply Forall2_impl; [exact Hds|]. intros i q Hq. unfold compose. cbn [fst snd].
    destruct (payloads !! i) as [p|] eqn:Ei; [|by rewrite Eouts, sent_from_lookup, Ei in Hq].
    rewrite (list_lookup_total_correct _ _ _ Ei). destruct (Hout i p Ei) as (packet & E & Ho).
    cbv beta in Hq. rewrite Ho in Hq. by simplify_eq.
Qed.

(** C3: Delivery across key updates.  Two sessions that share their secrets
    in opposite roles: every payload the one sends becomes a packet, and the
    other opens the packets to the payloads that were sent, each with its
    number and phase bit, in any order and with any losses within the bounds
    of [schedule_ok] (not a replay, at most 1023 behind the newest number and
    8192 ahead of it, at most 126 behind for numbers that fit one byte), over
    any number of key updates, and although the receiver sees nothing but the
    packets. *)
Theorem udp_qsp_delivery cipher a b ks kr cid scid dcid start kp0 recv_pn send_pn payloads :
  UdpQspKeys_new cipher a b = Ok ks → UdpQspKeys_new cipher b a = Ok kr →
  Cid_ok cid → u64_ok start → start + zlen payloads ≤ u64_max →
  Forall (λ p, bytes_ok p ∧ zlen p < 2 ^ 31) payloads →
  let sender := QuicQspSession_new scid cid ks start recv_pn kp0 in
  let receiver := QuicQspSession_new cid dcid kr send_pn start kp0 in
  let outs := snd (send_all sender payloads (λ _, None)) in
  (∀ i p, payloads !! i = Some p → ∃ packet, outs !! i = Some (Ok packet)) ∧
  ∀ (ds : list nat) packets,
    Forall2 (λ i p, outs !! i = Some (Ok p)) ds packets →
    schedule_ok start [] (map (λ i, start + Z.of_nat i) ds) →
    snd (recv_all receiver packets) =
      map (λ i, Ok (opened start kp0 (start + Z.of_nat i) (payloads !!! i))) ds.
Proof. intros Hs Hr Hcid Hstart Hmax Hpl. by eapply mirrored_deliver. Qed.
End Claims.

(** ** Witness: four packets around the first key update, two swapped *)
Section Witnesses.
Import Checksum.

Definition demo_payloads : list bytes := [[1]; [2]; [3]; [4; 5; 6]].
Definition demo_outs : list (res QspSessionError bytes) :=
  snd (send_all (QuicQspSession_new demo_cid demo_cid keys_ab 2097150 0 false) demo_payloads (λ _, None)).
Definition demo_packets : list bytes.
Proof.
  let r := eval vm_compute in
    (omap (λ i, match demo_outs !! i with Some (Ok p) => Some p | _ => None end) [0; 2; 1; 3]%nat) in
  exact r.
Defined.

Lemma udp_qsp_delivery_witness :
  length demo_packets = 4%nat ∧
  snd (recv_all (QuicQspSession_new demo_cid demo_cid keys_ba 0 2097150 false) demo_packets) =
    map (λ i, Ok (opened 2097150 false (2097150 + Z.of_nat i) (demo_payloads !!! i))) [0; 2; 1; 3]%nat.
Proof.
  split; [reflexivity|].
  refine (proj2 (udp_qsp_delivery Aes128Gcm (secret 1) (secret 2) keys_ab keys_ba demo_cid demo_cid demo_cid
    2097150 false 0 0 demo_payloads keys_ab_new keys_ba_new _ _ _ _) [0; 2; 1; 3]%nat demo_packets _ _);
    [decided|decided|decided| | |decided].
  - repeat (constructor; [split; decided|]). constructor.
  - repeat (constructor; [vm_compute; reflexivity|]). constructor.
Defined.
End Witnesses.
