(* ===== verification/ClientHello.v ===== *)
(** * TCP claim tokens ([slt-core/src/crypto/client_hello.rs])

    A client marks its TLS ClientHello with a token in the 32 bytes of
    [legacy_session_id]: a MAC over half of the random, and a MAC over the
    whole message with the token zeroed.  The file models the layout check,
    the computation and the verification of the token, and proves that a
    message whose token has been filled in verifies. *)

From Stdlib Require Import Ascii String.
From stdpp Require Import base tactics option list numbers.
From Stdlib Require Import ZArith Lia.
From S2P Require Import Prelude PacketHeader Keys.

Definition HANDSHAKE_TYPE_CLIENT_HELLO : Z := 0x01.
Definition LEGACY_SESSION_ID_LEN : Z := 32.
Definition TOKEN_PART_LEN : Z := LEGACY_SESSION_ID_LEN / 2.
Definition RANDOM_PREFIX_LEN : Z := 16.
Definition MAX_TCP_CLIENT_HELLO_WIRE_LEN : Z := 8 * 1024.

Definition CANDIDATE_LABEL : bytes := bytes_of_string "slt-tcp-candidate-v2".
Definition CLAIM_LABEL : bytes := bytes_of_string "slt-tcp-claim-v2".
Definition CANDIDATE_INPUT_LEN : Z := zlen CANDIDATE_LABEL + RANDOM_PREFIX_LEN.
Definition ZERO_SESSION_ID : bytes := zeros LEGACY_SESSION_ID_LEN.

Inductive Malformed :=
  | MissingHandshakeHeader | NotAClientHello | HandshakeLengthMismatch | MissingRandom
  | MissingSessionIdLength | SessionIdNot32 | TruncatedSessionId.

Inductive ClientHelloError :=
  | InvalidSessionIdLength (expected actual : Z)
  | MalformedClientHello (m : Malformed)
  | HmacFailed.

Record ClientHelloLayout := mkLayout { cl_random : bytes; cl_session_id_start : Z }.

(** The 24-bit length of a handshake header, [(b1 << 16) | (b2 << 8) | b3] *)
Definition u24 (b1 b2 b3 : Z) : Z := Z.lor (Z.lor (Z.shiftl b1 16) (Z.shiftl b2 8)) b3.

Definition client_hello_layout (client_hello : bytes) : res ClientHelloError ClientHelloLayout :=
  header ← ok_or (get_range client_hello 0 4) (MalformedClientHello MissingHandshakeHeader);
  h0 ← index header 0;
  if negb (h0 =? HANDSHAKE_TYPE_CLIENT_HELLO) then Err (MalformedClientHello NotAClientHello) else
  h1 ← index header 1; h2 ← index header 2; h3 ← index header 3;
  (* the sum of 4 and a 24-bit length does not overflow a [usize] *)
  let message_len := 4 + u24 h1 h2 h3 in
  if negb (zlen client_hello =? message_len) then Err (MalformedClientHello HandshakeLengthMismatch) else
  let random_start := 4 + 2 in
  let random_end := random_start + 32 in
  random_bytes ← ok_or (get_range client_hello random_start random_end)
    (MalformedClientHello MissingRandom);
  session_id_len ← ok_or (get_at client_hello random_end)
    (MalformedClientHello MissingSessionIdLength);
  if negb (session_id_len =? LEGACY_SESSION_ID_LEN) then Err (MalformedClientHello SessionIdNot32) else
  let session_id_start := random_end + 1 in
  let session_id_end := session_id_start + LEGACY_SESSION_ID_LEN in
  _ ← ok_or (get_range client_hello session_id_start session_id_end)
    (MalformedClientHello TruncatedSessionId);
  random ← copy_array 32 random_bytes;
  Ok (mkLayout random session_id_start).

(** ** The layout *)
Lemma client_hello_layout_inv ch lay :
  client_hello_layout ch = Ok lay → lay = mkLayout (sub ch 6 38) 39 ∧ 71 ≤ zlen ch.
Proof.
  unfold client_hello_layout, LEGACY_SESSION_ID_LEN. intros H.
  apply bind_ok in H as (hd & _ & H). apply bind_ok in H as (h0 & _ & H).
  destruct (negb (h0 =? _)); [done|]. do 3 apply bind_ok in H as (? & _ & H).
  destruct (negb (zlen ch =? _)); [done|]. apply bind_ok in H as (rb & Hrb & H).
  apply bind_ok in H as (sl & _ & H). destruct (negb (sl =? 32)); [done|].
  apply bind_ok in H as (sid & Hsid & H). apply bind_ok in H as (r & Hr & H). apply (inj Ok) in H as <-.
  destruct (get_range ch (4 + 2) _) as [rb'|] eqn:E1; simplify_eq/=.
  destruct (get_range ch (4 + 2 + 32 + 1) _) as [sid'|] eqn:E2; simplify_eq/=.
  apply get_range_Some in E1 as [_ ->]. apply get_range_Some in E2 as [(_ & _ & ?) _].
  unfold copy_array in Hr. case_match; simplify_eq. split; [done|lia].
Qed.

(** The checks of the layout, in terms of the bytes. *)
Lemma client_hello_layout_ok ch :
  71 ≤ zlen ch →
  client_hello_layout ch =
    (if negb (nth 0 ch 0 =? 1) then Err (MalformedClientHello NotAClientHello) else
     if negb (zlen ch =? 4 + u24 (nth 1 ch 0) (nth 2 ch 0) (nth 3 ch 0))
     then Err (MalformedClientHello HandshakeLengthMismatch) else
     if negb (nth 38 ch 0 =? 32) then Err (MalformedClientHello SessionIdNot32) else
     Ok (mkLayout (sub ch 6 38) 39)).
Proof.
  intros L. unfold client_hello_layout, LEGACY_SESSION_ID_LEN, HANDSHAKE_TYPE_CLIENT_HELLO.
  rewrite !get_range_ok, !get_at_ok by lia. res_simpl.
  rewrite !index_ok by (rewrite ?zlen_sub; lia). res_simpl.
  rewrite copy_array_ok by (rewrite zlen_sub; lia). res_simpl.
  assert (∀ i, (i < 4)%nat → nth i (sub ch 0 4) 0 = nth i ch 0) as Hi.
  { intros i Hi. unfold sub. rewrite drop_0. rewrite !nth_lookup, lookup_take_lt by lia. done. }
  change (Z.to_nat 0) with 0%nat. change (Z.to_nat 1) with 1%nat. change (Z.to_nat 2) with 2%nat.
  change (Z.to_nat 3) with 3%nat. by rewrite !Hi by lia.
Qed.

(** The layout does not look at the session ID. *)
Lemma client_hello_layout_sid pre sid sid' post :
  zlen pre = 39 → zlen sid = 32 → zlen sid' = 32 →
  client_hello_layout (pre ++ sid ++ post) = client_hello_layout (pre ++ sid' ++ post).
Proof.
  intros Lp Ls Ls'. pose proof (zlen_nonneg post).
  assert (zlen (pre ++ sid ++ post) = 71 + zlen post) as L1 by (zl; lia).
  assert (zlen (pre ++ sid' ++ post) = 71 + zlen post) as L2 by (zl; lia).
  unfold client_hello_layout, LEGACY_SESSION_ID_LEN. cbv zeta.
  rewrite !get_range_ok, !get_at_ok by lia. res_simpl.
  rewrite !(sub_app_l pre) by lia. rewrite !(nth_app_l pre) by lia. by rewrite L1, L2.
Qed.

Section Tokens.
Context `{B : Boring}.

(** The first half of a MAC. *)
Definition truncate_mac (mac : bytes) : res ClientHelloError bytes :=
  s ← slice mac 0 TOKEN_PART_LEN;
  copy_array TOKEN_PART_LEN s.

(** [secret] is the 32 bytes of the [SharedSecret]. *)
Definition candidate_session_id_tag (random secret : bytes) : res ClientHelloError bytes :=
  prefix ← slice random 0 RANDOM_PREFIX_LEN;
  prefix ← copy_array RANDOM_PREFIX_LEN prefix;
  mac ← ok_or (hmac_sha256 secret (CANDIDATE_LABEL ++ prefix)) HmacFailed;
  truncate_mac mac.

Definition truncated_hmac (secret label : bytes) (parts : list bytes) : res ClientHelloError bytes :=
  mac ← ok_or (hmac_sha256 secret (label ++ concat parts)) HmacFailed;
  truncate_mac mac.

Definition complete_claim_tag (client_hello : bytes) (layout : ClientHelloLayout) (secret : bytes)
    : res ClientHelloError bytes :=
  let session_id_end := cl_session_id_start layout + LEGACY_SESSION_ID_LEN in
  before ← slice client_hello 0 (cl_session_id_start layout);
  after ← slice client_hello session_id_end (zlen client_hello);
  truncated_hmac secret CLAIM_LABEL [before; ZERO_SESSION_ID; after].

(** [memcmp::eq] compares byte strings of equal length and panics otherwise. *)
Definition memcmp_eq (a b : bytes) : res ClientHelloError bool :=
  if zlen a =? zlen b then Ok (bool_decide (a = b)) else Panic.

Definition verify_legacy_session_id (client_hello secret : bytes) : res ClientHelloError bool :=
  layout ← client_hello_layout client_hello;
  let start := cl_session_id_start layout in
  session_id ← slice client_hello start (start + LEGACY_SESSION_ID_LEN);
  candidate ← candidate_session_id_tag (cl_random layout) secret;
  claim ← complete_claim_tag client_hello layout secret;
  first ← slice session_id 0 TOKEN_PART_LEN;
  second ← slice session_id TOKEN_PART_LEN (zlen session_id);
  ok ← memcmp_eq first candidate;
  if (ok : bool) then memcmp_eq second claim else Ok false.

(** The session ID that [fill_legacy_session_id] leaves in the buffer. *)
Definition fill_legacy_session_id (client_hello session_id secret : bytes)
    : res ClientHelloError bytes :=
  if negb (zlen session_id =? LEGACY_SESSION_ID_LEN)
  then Err (InvalidSessionIdLength LEGACY_SESSION_ID_LEN (zlen session_id)) else
  layout ← client_hello_layout client_hello;
  candidate ← candidate_session_id_tag (cl_random layout) secret;
  first ← slice session_id 0 TOKEN_PART_LEN;
  same ← memcmp_eq first candidate;
  if (same : bool) then Ok session_id else
  claim ← complete_claim_tag client_hello layout secret;
  Ok (candidate ++ claim).

(** ** Filling and verifying *)
Context {L : BoringLaws B}.

(** A message with its session ID replaced. *)
Definition with_session_id (ch sid : bytes) : bytes := sub ch 0 39 ++ sid ++ sub ch 71 (zlen ch).

Lemma truncate_mac_len mac t : truncate_mac mac = Ok t → zlen t = 16.
Proof.
  unfold truncate_mac, TOKEN_PART_LEN, copy_array. intros H. apply bind_ok in H as (s & _ & H).
  destruct (Z.eqb_spec (zlen s) (LEGACY_SESSION_ID_LEN / 2)) as [E|]; simplify_eq. by rewrite E.
Qed.

Lemma hmac_truncate secret m mac :
  hmac_sha256 secret m = Some mac → ∃ t, truncate_mac mac = Ok t ∧ zlen t = 16.
Proof.
  intros H. destruct (hmac_sha256_len _ _ _ H) as [El _]. fold (zlen mac) in El.
  unfold truncate_mac. change TOKEN_PART_LEN with 16. rewrite slice_ok by lia. res_simpl.
  rewrite copy_array_ok by (rewrite zlen_sub; lia). eexists. split; [done|]. rewrite zlen_sub; lia.
Qed.

Lemma candidate_tag_no_panic random secret :
  zlen random = 32 →
  (∃ t, candidate_session_id_tag random secret = Ok t ∧ zlen t = 16) ∨
  candidate_session_id_tag random secret = Err HmacFailed.
Proof.
  intros Lr. unfold candidate_session_id_tag, RANDOM_PREFIX_LEN. rewrite slice_ok by lia. res_simpl.
  rewrite copy_array_ok by (rewrite zlen_sub; lia). res_simpl.
  destruct (hmac_sha256 _ _) as [mac|] eqn:E; res_simpl; [left|by right]. by eapply hmac_truncate.
Qed.

Lemma claim_tag_no_panic ch random secret :
  71 ≤ zlen ch →
  (∃ t, complete_claim_tag ch (mkLayout random 39) secret = Ok t ∧ zlen t = 16) ∨
  complete_claim_tag ch (mkLayout random 39) secret = Err HmacFailed.
Proof.
  intros Lc. unfold complete_claim_tag, truncated_hmac, LEGACY_SESSION_ID_LEN. cbn [cl_session_id_start].
  rewrite !slice_ok by lia. res_simpl.
  destruct (hmac_sha256 _ _) as [mac|] eqn:E; res_simpl; [left|by right]. by eapply hmac_truncate.
Qed.

Lemma memcmp_eq_ok a b : zlen a = zlen b → memcmp_eq a b = Ok (bool_decide (a = b)).
Proof. intros E. unfold memcmp_eq. by rewrite E, Z.eqb_refl. Qed.

(** What the verification computes on a message with session ID [a ++ b]. *)
Lemma verify_token pre a b post secret lay cand claim :
  zlen pre = 39 → zlen a = 16 → zlen b = 16 →
  client_hello_layout (pre ++ (a ++ b) ++ post) = Ok lay →
  candidate_session_id_tag (cl_random lay) secret = Ok cand → zlen cand = 16 →
  complete_claim_tag (pre ++ (a ++ b) ++ post) lay secret = Ok claim → zlen claim = 16 →
  verify_legacy_session_id (pre ++ (a ++ b) ++ post) secret =
    Ok (bool_decide (a = cand) && bool_decide (b = claim)).
Proof.
  intros Lp La Lb Hlay Hcand Lcand Hclaim Lclaim. pose proof (zlen_nonneg post).
  unfold verify_legacy_session_id. rewrite Hlay. res_simpl.
  pose proof (client_hello_layout_inv _ _ Hlay) as [El _].
  assert (cl_session_id_start lay = 39) as -> by (by rewrite El).
  unfold LEGACY_SESSION_ID_LEN. rewrite (slice_ok _ 39) by (zl; lia). res_simpl.
  rewrite Hcand, Hclaim. res_simpl.
  assert (sub (pre ++ (a ++ b) ++ post) 39 (39 + 32) = a ++ b) as ->.
  { rewrite sub_app_r by lia. rewrite sub_app_l by (zl; lia). apply sub_all; zl; lia. }
  change TOKEN_PART_LEN with 16. rewrite !slice_ok by (zl; lia). res_simpl.
  assert (sub (a ++ b) 0 16 = a) as -> by (rewrite sub_app_l, sub_all by lia; done).
  assert (sub (a ++ b) 16 (zlen (a ++ b)) = b) as -> by (rewrite sub_app_r, sub_all by (zl; lia); done).
  rewrite !memcmp_eq_ok by lia. res_simpl. by destruct (bool_decide (a = cand)).
Qed.

(** What a message that verifies is made of. *)
Lemma verify_true_inv ch secret :
  verify_legacy_session_id ch secret = Ok true →
  71 ≤ zlen ch ∧ nth 0 ch 0 = 1 ∧ zlen ch = 4 + u24 (nth 1 ch 0) (nth 2 ch 0) (nth 3 ch 0) ∧
  nth 38 ch 0 = 32 ∧ candidate_session_id_tag (sub ch 6 38) secret = Ok (sub ch 39 55).
Proof.
  unfold verify_legacy_session_id. intros H. apply bind_ok in H as (lay & Hlay & H).
  destruct (client_hello_layout_inv _ _ Hlay) as [-> Lc]. rewrite client_hello_layout_ok in Hlay by done.
  destruct (Z.eqb_spec (nth 0 ch 0) 1); [|done]. cbn [negb] in Hlay.
  destruct (Z.eqb_spec (zlen ch) (4 + u24 (nth 1 ch 0) (nth 2 ch 0) (nth 3 ch 0))); [|done].
  cbn [negb] in Hlay. destruct (Z.eqb_spec (nth 38 ch 0) 32); [|done]. clear Hlay.
  cbn [cl_session_id_start cl_random] in H. unfold LEGACY_SESSION_ID_LEN in H.
  rewrite (slice_ok ch) in H by lia. res_simpl in H. apply bind_ok in H as (cand & Hc & H).
  apply bind_ok in H as (claim & _ & H). change TOKEN_PART_LEN with 16 in H.
  assert (zlen (sub ch 39 (39 + 32)) = 32) as Ls by (rewrite zlen_sub; lia).
  rewrite (slice_ok _ 0), (slice_ok _ 16) in H by lia. res_simpl in H.
  apply bind_ok in H as (ok & Hok & H). unfold memcmp_eq in Hok.
  destruct (zlen (sub (sub ch 39 (39 + 32)) 0 16) =? zlen cand); [|done]. apply (inj Ok) in Hok as <-. split_and!; try done. rewrite Hc. f_equal.
  destruct (decide (sub (sub ch 39 (39 + 32)) 0 16 = cand)) as [Heq|Hne];
    [|by rewrite bool_decide_false in H].
  rewrite <- Heq. unfold sub. by rewrite drop_0, take_take.
Qed.

(** The claim tag does not depend on the session ID. *)
Lemma complete_claim_tag_sid pre sid sid' post random secret :
  zlen pre = 39 → zlen sid = 32 → zlen sid' = 32 →
  complete_claim_tag (pre ++ sid ++ post) (mkLayout random 39) secret =
  complete_claim_tag (pre ++ sid' ++ post) (mkLayout random 39) secret.
Proof.
  intros Lp Ls Ls'. pose proof (zlen_nonneg post). unfold complete_claim_tag, LEGACY_SESSION_ID_LEN.
  cbn [cl_session_id_start]. rewrite !slice_ok by (zl; lia). res_simpl.
  assert (∀ x, zlen x = 32 → sub (pre ++ x ++ post) 0 39 = pre ∧
    sub (pre ++ x ++ post) (39 + 32) (zlen (pre ++ x ++ post)) = post) as Hf.
  { intros x Lx. split; [by rewrite sub_app_l, sub_all by lia|].
    rewrite sub_app_r, sub_app_r by (zl; lia). apply sub_all; zl; lia. }
  destruct (Hf sid Ls) as [-> ->], (Hf sid' Ls') as [-> ->]. done.
Qed.

Lemma with_session_id_app (ch : bytes) :
  71 ≤ zlen ch → ch = sub ch 0 39 ++ sub ch 39 71 ++ sub ch 71 (zlen ch).
Proof. intros. rewrite <- !sub_concat, sub_all by lia. done. Qed.

(** [fill_legacy_session_id] returns the buffer it was given when it starts
    with the candidate tag already, or else a token that verifies in its
    place. *)
Lemma fill_verifies (ch sid secret : bytes) lay :
  client_hello_layout ch = Ok lay → zlen sid = 32 →
  match fill_legacy_session_id ch sid secret with
  | Ok sid' =>
      zlen sid' = 32 ∧
      ((sid' = sid ∧ candidate_session_id_tag (cl_random lay) secret = Ok (sub sid 0 16)) ∨
       verify_legacy_session_id (with_session_id ch sid') secret = Ok true)
  | Err e => e = HmacFailed
  | Panic => False
  end.
Proof.
  intros Hlay Ls. pose proof (client_hello_layout_inv _ _ Hlay) as [-> Lc]. cbn [cl_random].
  unfold fill_legacy_session_id, LEGACY_SESSION_ID_LEN. rewrite Ls. change (32 =? 32) with true. cbn [negb].
  rewrite Hlay. res_simpl. cbn [cl_random].
  destruct (candidate_tag_no_panic (sub ch 6 38) secret) as [(cand & Ec & Lcand)| ->];
    [rewrite zlen_sub; lia| |done].
  rewrite Ec. res_simpl. change TOKEN_PART_LEN with 16. rewrite slice_ok by lia. res_simpl.
  rewrite memcmp_eq_ok by (rewrite zlen_sub; lia). res_simpl.
  destruct (decide (sub sid 0 16 = cand)) as [Es|Hne].
  { rewrite bool_decide_true by done. split; [done|]. left. by rewrite Es. }
  rewrite bool_decide_false by done.
  destruct (claim_tag_no_panic ch (sub ch 6 38) secret Lc) as [(claim & Et & Lt)| ->]; [|done].
  rewrite Et. res_simpl. split; [zl; lia|]. right. unfold with_session_id.
  pose proof (with_session_id_app ch Lc) as Ech.
  set (pre := sub ch 0 39) in *. set (post := sub ch 71 (zlen ch)) in *. set (old := sub ch 39 71) in *.
  assert (zlen pre = 39) as Lp by (unfold pre; rewrite zlen_sub; lia).
  assert (zlen old = 32) as Lo by (unfold old; rewrite zlen_sub; lia).
  erewrite (verify_token pre cand claim post secret _ cand claim); try done.
  - by rewrite !bool_decide_true.
  - rewrite (client_hello_layout_sid pre _ old) by (zl; lia). rewrite <- Ech. exact Hlay.
  - done.
  - rewrite (complete_claim_tag_sid pre _ old) by (zl; lia). by rewrite <- Ech.
Qed.

End Tokens.
