(* ===== verification/Classifier.v ===== *)
(** * The front door ([slt-core/src/classifier.rs])

    The server shares its ports with an HTTPS site.  The classifier decides
    from the first bytes of a TCP stream whether they are an SLT ClientHello,
    and from a datagram whether it is QUIC and for which connection.

    [deframe] is the specification of the record layer: the handshake bytes
    of a stream, each with its position.  The readers of the source are shown
    to read that stream, and then: a stream is claimed only if its ClientHello
    carries a valid token, a decision does not change when more bytes arrive,
    and no read is out of range. *)

From stdpp Require Import base tactics option list numbers.
From Stdlib Require Import ZArith Lia.
From S2P Require Import Prelude Cid PacketHeader Keys ClientHello.

Inductive Verdict := Claim | Pass | Drop | Incomplete.
#[global] Instance Verdict_eq_dec : EqDecision Verdict.
Proof. solve_decision. Defined.

Inductive QuicVerdict := QDrop | QPass | QShort (dcid_prefix : bytes).
#[global] Instance QuicVerdict_eq_dec : EqDecision QuicVerdict.
Proof. solve_decision. Defined.

Definition TLS_HANDSHAKE_CONTENT_TYPE : Z := 0x16.
Definition TLS_RECORD_HEADER_LEN : Z := 5.

Definition classify_quic_datagram (input : bytes) : res unit QuicVerdict :=
  if bool_decide (input = []) then Ok QDrop else
  first ← index input 0;
  let header_form_long := negb (Z.land first 0x80 =? 0) in
  let fixed_bit := negb (Z.land first 0x40 =? 0) in
  if negb fixed_bit then Ok QDrop else
  if header_form_long then Ok QPass else
  if zlen input <? 1 + QUIC_DCID_PREFIX_LEN then Ok QDrop else
  s ← slice input 1 (QUIC_DCID_PREFIX_LEN + 1);
  dcid_bytes ← copy_array QUIC_DCID_PREFIX_LEN s;
  Ok (QShort dcid_bytes).

(** ** The readers

    The buffer is fixed; a reader is its position and what is left of the
    current record.  An error is the verdict that is returned early. *)
Record RecordReader := mkReader { rr_pos : Z; rr_remaining : Z }.

Definition RecordReader_new : RecordReader := mkReader 0 0.

Definition next_record (buf : bytes) (r : RecordReader) : res Verdict RecordReader :=
  let pos := rr_pos r in
  if pos + 5 >? zlen buf then Err Incomplete else
  content_type ← index buf pos;
  if negb (content_type =? TLS_HANDSHAKE_CONTENT_TYPE) then Err Pass else
  hi ← index buf (pos + 3);
  lo ← index buf (pos + 4);
  Ok (mkReader (pos + 5) (from_be [hi; lo])).

(** The loop of [RecordReader::read_exact]: [need] bytes are missing.  Every
    iteration moves the position, so the length of the buffer bounds it. *)
Fixpoint read_loop (fuel : nat) (buf : bytes) (r : RecordReader) (need : Z) (out : bytes)
    : res Verdict (bytes * RecordReader) :=
  if negb (0 <? need) then Ok (out, r) else
  match fuel with
  | O => Panic
  | S fuel =>
      r ← (if rr_remaining r =? 0 then next_record buf r else Ok r);
      let available := saturating_sub (zlen buf) (rr_pos r) in
      if available =? 0 then Err Incomplete else
      let take := Z.min (Z.min (rr_remaining r) need) available in
      s ← slice buf (rr_pos r) (rr_pos r + take);
      read_loop fuel buf (mkReader (rr_pos r + take) (rr_remaining r - take)) (need - take) (out ++ s)
  end.

Definition RecordReader_read_exact (buf : bytes) (r : RecordReader) (n : Z)
    : res Verdict (bytes * RecordReader) :=
  read_loop (S (length buf)) buf r n [].

Record HandshakeReader := mkHs { hr_record : RecordReader; hr_remaining : Z }.

Definition HandshakeReader_read_exact (buf : bytes) (h : HandshakeReader) (n : Z)
    : res Verdict (bytes * HandshakeReader) :=
  if n >? hr_remaining h then Err Pass else
  '(out, r) ← RecordReader_read_exact buf (hr_record h) n;
  Ok (out, mkHs r (hr_remaining h - n)).

(** The loop of [read_remaining_into], in chunks of 256 bytes. *)
Fixpoint remaining_loop (fuel : nat) (buf : bytes) (h : HandshakeReader) (output : bytes)
    : res Verdict (bytes * HandshakeReader) :=
  if negb (0 <? hr_remaining h) then Ok (output, h) else
  match fuel with
  | O => Panic
  | S fuel =>
      let len := Z.min (hr_remaining h) 256 in
      '(chunk, h) ← HandshakeReader_read_exact buf h len;
      remaining_loop fuel buf h (output ++ chunk)
  end.

Definition read_remaining_into (buf : bytes) (h : HandshakeReader) (output : bytes)
    : res Verdict (bytes * HandshakeReader) :=
  remaining_loop (Z.to_nat (hr_remaining h / 256 + 1)) buf h output.

Section Classify.
Context `{B : Boring}.

(** The decision on a complete ClientHello. *)
Definition decide_claim (client_hello secret : bytes) : res Verdict Verdict :=
  match verify_legacy_session_id client_hello secret with
  | Ok true => Ok Claim
  | Ok false | Err _ => Ok Pass
  | Panic => Panic
  end.

Definition classify_within_limit (input secret : bytes) : res Verdict Verdict :=
  '(hd, record) ← RecordReader_read_exact input RecordReader_new 4;
  h0 ← index hd 0;
  if negb (h0 =? HANDSHAKE_TYPE_CLIENT_HELLO) then Err Pass else
  h1 ← index hd 1; h2 ← index hd 2; h3 ← index hd 3;
  let hs_len := u24 h1 h2 h3 in
  let minimum_wire_len := TLS_RECORD_HEADER_LEN + 4 + hs_len in
  if minimum_wire_len >? MAX_TCP_CLIENT_HELLO_WIRE_LEN then Err Pass else
  '(legacy_version, hs) ← HandshakeReader_read_exact input (mkHs record hs_len) 2;
  '(random, hs) ← HandshakeReader_read_exact input hs 32;
  '(session_id_len, hs) ← HandshakeReader_read_exact input hs 1;
  n ← index session_id_len 0;
  if negb (n =? LEGACY_SESSION_ID_LEN) then Err Pass else
  '(session_id, hs) ← HandshakeReader_read_exact input hs LEGACY_SESSION_ID_LEN;
  candidate ← map_err (λ _, Pass) (candidate_session_id_tag random secret);
  prefix ← slice session_id 0 TOKEN_PART_LEN;
  same ← map_err (λ _, Pass) (memcmp_eq prefix candidate);
  if negb (same : bool) then Err Pass else
  '(client_hello, hs) ← read_remaining_into input hs
    (hd ++ legacy_version ++ random ++ session_id_len ++ session_id);
  if rr_pos (hr_record hs) >? MAX_TCP_CLIENT_HELLO_WIRE_LEN then Err Pass else
  decide_claim client_hello secret.

Definition classify_tcp_client_hello (input secret : bytes) : res unit Verdict :=
  match classify_within_limit input secret with
  | Ok v | Err v =>
      if bool_decide (v = Incomplete) && (zlen input >=? MAX_TCP_CLIENT_HELLO_WIRE_LEN)
      then Ok Pass else Ok v
  | Panic => Panic
  end.

End Classify.

(** ** The record layer as a stream

    The handshake bytes that [l] holds when [rem] bytes of a record are left,
    each with the position after it ([pos] is the position of [l]), and why
    the stream ends: a record of another type, or no more data. *)
Fixpoint deframe (l : bytes) (rem pos : Z) : list (Z * Z) * Verdict :=
  if rem =? 0 then
    match l with
    | t :: _ :: _ :: hi :: lo :: l =>
        if t =? TLS_HANDSHAKE_CONTENT_TYPE then deframe l (from_be [hi; lo]) (pos + 5) else ([], Pass)
    | _ => ([], Incomplete)
    end
  else
    match l with
    | x :: l => let '(xs, v) := deframe l (rem - 1) (pos + 1) in ((x, pos + 1) :: xs, v)
    | [] => ([], Incomplete)
    end.

(** The equations of [deframe], and its induction principle. *)
Lemma deframe_short l pos : (length l < 5)%nat → deframe l 0 pos = ([], Incomplete).
Proof. intros H. by destruct l as [|? [|? [|? [|? [|? ?] ] ] ] ]; [..|simpl in H; lia]. Qed.
Lemma deframe_record t a b hi lo l pos :
  deframe (t :: a :: b :: hi :: lo :: l) 0 pos =
  if t =? TLS_HANDSHAKE_CONTENT_TYPE then deframe l (from_be [hi; lo]) (pos + 5) else ([], Pass).
Proof. done. Qed.
Lemma deframe_byte x l rem pos :
  rem ≠ 0 → deframe (x :: l) rem pos =
    ((x, pos + 1) :: (deframe l (rem - 1) (pos + 1)).1, (deframe l (rem - 1) (pos + 1)).2).
Proof.
  intros H. cbn [deframe]. rewrite (proj2 (Z.eqb_neq _ _) H). by destruct (deframe l _ _).
Qed.
Lemma deframe_nil rem pos : deframe [] rem pos = ([], Incomplete).
Proof. simpl. by destruct (rem =? 0). Qed.

Lemma deframe_ind (P : bytes → Z → Z → Prop) :
  (∀ l pos, (length l < 5)%nat → P l 0 pos) →
  (∀ t a b hi lo l pos, P l (from_be [hi; lo]) (pos + 5) → P (t :: a :: b :: hi :: lo :: l) 0 pos) →
  (∀ rem pos, rem ≠ 0 → P [] rem pos) →
  (∀ x l rem pos, rem ≠ 0 → P l (rem - 1) (pos + 1) → P (x :: l) rem pos) →
  ∀ l rem pos, P l rem pos.
Proof.
  intros Hshort Hrec Hnil Hbyte l. assert (∃ n, (length l ≤ n)%nat) as [n Hn] by (by exists (length l)).
  revert l Hn. induction n as [|n IH]; intros l Hn rem pos; destruct (Z.eq_dec rem 0) as [->|Hr].
  - destruct l; [|simpl in Hn; lia]. apply Hshort. simpl. lia.
  - destruct l; [|simpl in Hn; lia]. by apply Hnil.
  - destruct l as [|t [|a [|b [|hi [|lo l] ] ] ] ]; try (apply Hshort; simpl; lia).
    apply Hrec, IH. simpl in Hn. lia.
  - destruct l as [|x l]; [by apply Hnil|]. apply Hbyte; [done|]. apply IH. simpl in Hn. lia.
Qed.

(** The first [k] bytes of [l], at positions [pos + 1], [pos + 2], ... *)
Fixpoint run (k : nat) (l : bytes) (pos : Z) : list (Z * Z) :=
  match k, l with
  | S k, x :: l => (x, pos + 1) :: run k l (pos + 1)
  | _, _ => []
  end.

Lemma run_fst k l pos : (run k l pos).*1 = take k l.
Proof. revert l pos. induction k as [|k IH]; intros [|x l] pos; try done. simpl. by rewrite IH. Qed.

Lemma length_run k l pos : (k ≤ length l)%nat → length (run k l pos) = k.
Proof.
  revert l pos. induction k as [|k IH]; intros [|x l] pos Hk; simpl in *; try done; try lia.
  rewrite IH; lia.
Qed.

(** The position after the last byte of [l]. *)
Definition last_pos (d : Z) (l : list (Z * Z)) : Z := foldl (λ _ x, x.2) d l.

Lemma last_pos_app d l k : last_pos d (l ++ k) = last_pos (last_pos d l) k.
Proof. apply foldl_app. Qed.

Lemma last_pos_run k l pos : (k ≤ length l)%nat → last_pos pos (run k l pos) = pos + Z.of_nat k.
Proof.
  revert l pos. induction k as [|k IH]; intros [|x l] pos Hk; simpl in *; try lia.
  change (last_pos pos ((x, pos + 1) :: run k l (pos + 1))) with (last_pos (pos + 1) (run k l (pos + 1))).
  rewrite IH; lia.
Qed.

(** Bytes of the current record. *)
Lemma deframe_run k l rem pos :
  Z.of_nat k ≤ rem → (k ≤ length l)%nat →
  deframe l rem pos =
    (run k l pos ++ (deframe (drop k l) (rem - Z.of_nat k) (pos + Z.of_nat k)).1,
     (deframe (drop k l) (rem - Z.of_nat k) (pos + Z.of_nat k)).2).
Proof.
  revert l rem pos. induction k as [|k IH]; intros l rem pos Hr Hl.
  - rewrite Z.sub_0_r, Z.add_0_r, drop_0. simpl. by destruct (deframe l rem pos).
  - destruct l as [|x l]; simpl in Hl; [lia|]. cbn [deframe].
    destruct (Z.eqb_spec rem 0); [lia|]. rewrite (IH l) by lia. cbn [run drop app fst snd].
    replace (rem - 1 - Z.of_nat k) with (rem - Z.of_nat (S k)) by lia.
    by replace (pos + 1 + Z.of_nat k) with (pos + Z.of_nat (S k)) by lia.
Qed.

(** The stream that a reader has before it. *)
Definition stream (buf : bytes) (r : RecordReader) : list (Z * Z) * Verdict :=
  deframe (drop (Z.to_nat (rr_pos r)) buf) (rr_remaining r) (rr_pos r).

Definition reader_ok (buf : bytes) (r : RecordReader) : Prop :=
  0 ≤ rr_pos r ≤ zlen buf ∧ 0 ≤ rr_remaining r.

(** [next_record] is the step of [deframe] at a record header. *)
Lemma next_record_stream buf r :
  bytes_ok buf → reader_ok buf r → rr_remaining r = 0 →
  match next_record buf r with
  | Ok r' => stream buf r = stream buf r' ∧ reader_ok buf r' ∧ rr_pos r' = rr_pos r + 5
  | Err v => stream buf r = ([], v)
  | Panic => False
  end.
Proof.
  intros Hb [Hp _] Hr. unfold next_record, stream. rewrite Hr, Z.gtb_ltb.
  assert (zlen (drop (Z.to_nat (rr_pos r)) buf) = zlen buf - rr_pos r) as Ld
    by (unfold zlen in *; rewrite length_drop; lia).
  destruct (Z.ltb_spec (zlen buf) (rr_pos r + 5)) as [Hs|Hs].
  { destruct (drop _ buf) as [|? [|? [|? [|? [|? ?] ] ] ] ]; try done. exfalso. zl in Ld.
    pose proof (zlen_nonneg l). lia. }
  rewrite !index_ok by lia. res_simpl.
  assert (drop (Z.to_nat (rr_pos r)) buf =
    nth (Z.to_nat (rr_pos r)) buf 0 :: nth (Z.to_nat (rr_pos r + 1)) buf 0 ::
    nth (Z.to_nat (rr_pos r + 2)) buf 0 :: nth (Z.to_nat (rr_pos r + 3)) buf 0 ::
    nth (Z.to_nat (rr_pos r + 4)) buf 0 :: drop (Z.to_nat (rr_pos r + 5)) buf) as ->.
  { assert (∀ i, 0 ≤ i < zlen buf → drop (Z.to_nat i) buf = nth (Z.to_nat i) buf 0 :: drop (Z.to_nat (i + 1)) buf) as Hd.
    { intros i Hi. rewrite (drop_S buf (nth (Z.to_nat i) buf 0) (Z.to_nat i)).
      - do 2 f_equal. lia.
      - unfold zlen in Hi. destruct (lookup_lt_is_Some_2 buf (Z.to_nat i)) as [x Hx]; [lia|].
        by rewrite nth_lookup, Hx. }
    rewrite (Hd (rr_pos r)), (Hd (rr_pos r + 1)), (Hd (rr_pos r + 1 + 1)), (Hd (rr_pos r + 1 + 1 + 1)),
      (Hd (rr_pos r + 1 + 1 + 1 + 1)) by lia.
    by rewrite <- !Z.add_assoc. }
  cbn [deframe]. change (0 =? 0) with true. cbv iota.
  destruct (nth (Z.to_nat (rr_pos r)) buf 0 =? TLS_HANDSHAKE_CONTENT_TYPE); cbn [negb]; [|done].
  unfold reader_ok. cbn [rr_pos rr_remaining]. split_and!; try done; try lia.
  apply (from_be_bound [_; _]). repeat constructor; apply bytes_ok_nth; done.
Qed.

(** [read_exact] takes the first bytes of the stream. *)
Definition reads (buf : bytes) (r : RecordReader) (n : Z) (out : bytes)
    (result : res Verdict (bytes * RecordReader)) : Prop :=
  let '(l, v) := stream buf r in
  if n <=? zlen l
  then ∃ r', result = Ok (out ++ (take (Z.to_nat n) l).*1, r') ∧
         stream buf r' = (drop (Z.to_nat n) l, v) ∧ reader_ok buf r' ∧
         rr_pos r' = last_pos (rr_pos r) (take (Z.to_nat n) l)
  else result = Err v.

(** Before a read: the next record is opened if the current one is used up. *)
Lemma ready_stream buf r :
  bytes_ok buf → reader_ok buf r →
  match (if rr_remaining r =? 0 then next_record buf r else Ok r) with
  | Ok r1 => stream buf r = stream buf r1 ∧ reader_ok buf r1 ∧ rr_pos r ≤ rr_pos r1 ∧
             (rr_remaining r1 = 0 → rr_pos r < rr_pos r1)
  | Err v => stream buf r = ([], v)
  | Panic => False
  end.
Proof.
  intros Hb Hok. destruct (Z.eqb_spec (rr_remaining r) 0) as [E|Hne].
  - pose proof (next_record_stream buf r Hb Hok E) as N. destruct (next_record buf r) as [r1|v|]; try done.
    destruct N as (? & ? & ?). split_and!; done || lia.
  - split_and!; done || lia.
Qed.

Lemma last_pos_nonempty d d' l : l ≠ [] → last_pos d l = last_pos d' l.
Proof. by destruct l. Qed.

(** [k] bytes of the current record. *)
Lemma stream_chunk buf r k :
  reader_ok buf r → 0 ≤ k ≤ rr_remaining r → k ≤ zlen buf - rr_pos r →
  let r' := mkReader (rr_pos r + k) (rr_remaining r - k) in
  let h := run (Z.to_nat k) (drop (Z.to_nat (rr_pos r)) buf) (rr_pos r) in
  stream buf r = (h ++ (stream buf r').1, (stream buf r').2) ∧
  zlen h = k ∧ h.*1 = sub buf (rr_pos r) (rr_pos r + k) ∧ (k ≠ 0 → ∀ d, last_pos d h = rr_pos r + k).
Proof.
  intros [Hp Hr] Hk Ha r' h.
  assert (Z.to_nat k ≤ length (drop (Z.to_nat (rr_pos r)) buf))%nat as Hlk
    by (rewrite length_drop; unfold zlen in *; lia).
  split_and!.
  - unfold stream, h, r'. rewrite (deframe_run (Z.to_nat k)) by lia. rewrite drop_drop.
    cbn [rr_pos rr_remaining]. rewrite Z2Nat.id by lia.
    by replace (Z.to_nat (rr_pos r) + Z.to_nat k)%nat with (Z.to_nat (rr_pos r + k)) by lia.
  - unfold zlen, h. rewrite length_run by done. lia.
  - unfold h. rewrite run_fst. unfold sub. f_equal. lia.
  - intros Hne d. rewrite (last_pos_nonempty d (rr_pos r)).
    + unfold h. rewrite last_pos_run by done. lia.
    + intros Eh. apply (f_equal length) in Eh. unfold h in Eh. rewrite length_run in Eh by done.
      simpl in Eh. lia.
Qed.

Lemma read_loop_stream fuel buf r need out :
  bytes_ok buf → reader_ok buf r → zlen buf - rr_pos r < Z.of_nat fuel → 0 ≤ need →
  reads buf r need out (read_loop fuel buf r need out).
Proof.
  intros Hb. revert r need out. induction fuel as [|fuel IH]; intros r need out Hok Hf Hn.
  { destruct Hok. lia. }
  unfold reads. cbn [read_loop]. destruct (Z.ltb_spec 0 need) as [Hpos|Hz]; cbn [negb].
  2: { assert (need = 0) as -> by lia. destruct (stream buf r) as [l v] eqn:Es.
       pose proof (zlen_nonneg l). rewrite (proj2 (Z.leb_le _ _)) by lia.
       exists r. simpl. by rewrite app_nil_r. }
  pose proof (ready_stream buf r Hb Hok) as R.
  destruct (if rr_remaining r =? 0 then next_record buf r else Ok r) as [r1|v|]; [| |done]; res_simpl.
  2: { rewrite R, (proj2 (Z.leb_gt _ _)); [done|]. change (zlen (@nil (Z * Z))) with 0. lia. }
  destruct R as (-> & Hok1 & Hp1 & Hadv). unfold saturating_sub. pose proof Hok1 as [Hr1 Hrem1].
  destruct (Z.eqb_spec (Z.max 0 (zlen buf - rr_pos r1)) 0) as [Ha|Ha].
  { unfold stream. rewrite (drop_ge buf) by (unfold zlen in *; lia). rewrite deframe_nil.
    rewrite (proj2 (Z.leb_gt _ _)); [done|]. change (zlen (@nil (Z * Z))) with 0. lia. }
  set (k := Z.min (Z.min (rr_remaining r1) need) (Z.max 0 (zlen buf - rr_pos r1))).
  rewrite slice_ok by lia. res_simpl.
  destruct (stream_chunk buf r1 k Hok1 ltac:(lia) ltac:(lia)) as (-> & Lh & Eh & Hlast).
  set (r2 := mkReader (rr_pos r1 + k) (rr_remaining r1 - k)) in *.
  set (h := run (Z.to_nat k) (drop (Z.to_nat (rr_pos r1)) buf) (rr_pos r1)) in *.
  assert (reader_ok buf r2) as Hok2 by (unfold reader_ok, r2; simpl; lia).
  specialize (IH r2 (need - k) (out ++ sub buf (rr_pos r1) (rr_pos r1 + k)) Hok2
    ltac:(unfold r2; simpl; lia) ltac:(lia)).
  unfold reads in IH. destruct (stream buf r2) as [l2 v2]. cbn [fst snd].
  rewrite zlen_app, Lh. destruct (Z.leb_spec (need - k) (zlen l2)) as [Hle|Hgt];
    [|by rewrite (proj2 (Z.leb_gt _ _)) by lia].
  destruct IH as (r' & E & Es' & Hok' & Hp'). rewrite (proj2 (Z.leb_le _ _)) by lia.
  exists r'. unfold zlen in Lh. rewrite E, take_app_ge, drop_app_ge by lia.
  replace (Z.to_nat need - length h)%nat with (Z.to_nat (need - k)) by lia. split_and!; try done.
  - by rewrite fmap_app, <- app_assoc, Eh.
  - rewrite Hp', last_pos_app. destruct (Z.eq_dec k 0) as [Ek|Hk].
    + apply last_pos_nonempty. intros Ht. apply (f_equal length) in Ht.
      rewrite length_take in Ht. unfold zlen in Hle. simpl in Ht. lia.
    + by rewrite Hlast.
Qed.

Lemma read_exact_stream buf r n :
  bytes_ok buf → reader_ok buf r → 0 ≤ n → reads buf r n [] (RecordReader_read_exact buf r n).
Proof.
  intros Hb Hok Hn. apply read_loop_stream; try done. destruct Hok. unfold zlen in *. lia.
Qed.

(** ** The classifier on a stream

    The same decisions, taken on the list of handshake bytes. *)
Definition take_bytes (v : Verdict) (l : list (Z * Z)) (n : Z) : res Verdict (bytes * list (Z * Z)) :=
  if n <=? zlen l then Ok ((take (Z.to_nat n) l).*1, drop (Z.to_nat n) l) else Err v.

Definition take_hs (v : Verdict) (l : list (Z * Z)) (remaining n : Z)
    : res Verdict (bytes * list (Z * Z)) :=
  if n >? remaining then Err Pass else take_bytes v l n.

Section Stream.
Context `{B : Boring}.

Definition classify_stream (l : list (Z * Z)) (v : Verdict) (secret : bytes) : res Verdict Verdict :=
  '(hd, l1) ← take_bytes v l 4;
  h0 ← index hd 0;
  if negb (h0 =? HANDSHAKE_TYPE_CLIENT_HELLO) then Err Pass else
  h1 ← index hd 1; h2 ← index hd 2; h3 ← index hd 3;
  let hs_len := u24 h1 h2 h3 in
  if TLS_RECORD_HEADER_LEN + 4 + hs_len >? MAX_TCP_CLIENT_HELLO_WIRE_LEN then Err Pass else
  '(legacy_version, l2) ← take_hs v l1 hs_len 2;
  '(random, l3) ← take_hs v l2 (hs_len - 2) 32;
  '(session_id_len, l4) ← take_hs v l3 (hs_len - 2 - 32) 1;
  n ← index session_id_len 0;
  if negb (n =? LEGACY_SESSION_ID_LEN) then Err Pass else
  '(session_id, l5) ← take_hs v l4 (hs_len - 2 - 32 - 1) LEGACY_SESSION_ID_LEN;
  candidate ← map_err (λ _, Pass) (candidate_session_id_tag random secret);
  prefix ← slice session_id 0 TOKEN_PART_LEN;
  same ← map_err (λ _, Pass) (memcmp_eq prefix candidate);
  if negb (same : bool) then Err Pass else
  '(rest, l6) ← take_bytes v l5 (hs_len - 2 - 32 - 1 - LEGACY_SESSION_ID_LEN);
  if last_pos 0 (take (Z.to_nat (4 + hs_len)) l) >? MAX_TCP_CLIENT_HELLO_WIRE_LEN then Err Pass else
  decide_claim ((hd ++ legacy_version ++ random ++ session_id_len ++ session_id) ++ rest) secret.

(** A reader that has consumed [done] of the stream of [buf]. *)
Definition at_stream (buf : bytes) (done rest : list (Z * Z)) (v : Verdict) (r : RecordReader) : Prop :=
  stream buf r = (rest, v) ∧ reader_ok buf r ∧ rr_pos r = last_pos 0 done.

Lemma read_at buf done rest v r n (k : bytes * RecordReader → res Verdict Verdict)
    (k' : bytes * list (Z * Z) → res Verdict Verdict) :
  bytes_ok buf → at_stream buf done rest v r → 0 ≤ n →
  (∀ r', n ≤ zlen rest →
     at_stream buf (done ++ take (Z.to_nat n) rest) (drop (Z.to_nat n) rest) v r' →
     k ((take (Z.to_nat n) rest).*1, r') = k' ((take (Z.to_nat n) rest).*1, drop (Z.to_nat n) rest)) →
  (RecordReader_read_exact buf r n ≫= k) = (take_bytes v rest n ≫= k').
Proof.
  intros Hb (Hs & Hok & Hp) Hn Hk. pose proof (read_exact_stream buf r n Hb Hok Hn) as R.
  unfold reads in R. rewrite Hs in R. unfold take_bytes. destruct (Z.leb_spec n (zlen rest)); [|by rewrite R].
  destruct R as (r' & -> & Hs' & Hok' & Hp'). res_simpl. apply Hk; [done|].
  split_and!; [done|done|]. by rewrite last_pos_app, <- Hp.
Qed.

Lemma hs_read_at buf done rest v r rem n (k : bytes * HandshakeReader → res Verdict Verdict)
    (k' : bytes * list (Z * Z) → res Verdict Verdict) :
  bytes_ok buf → at_stream buf done rest v r → 0 ≤ n →
  (∀ r', n ≤ zlen rest → n ≤ rem →
     at_stream buf (done ++ take (Z.to_nat n) rest) (drop (Z.to_nat n) rest) v r' →
     k ((take (Z.to_nat n) rest).*1, mkHs r' (rem - n)) =
     k' ((take (Z.to_nat n) rest).*1, drop (Z.to_nat n) rest)) →
  (HandshakeReader_read_exact buf (mkHs r rem) n ≫= k) = (take_hs v rest rem n ≫= k').
Proof.
  intros Hb (Hs & Hok & Hp) Hn Hk. pose proof (read_exact_stream buf r n Hb Hok Hn) as R.
  unfold reads in R. rewrite Hs in R. unfold HandshakeReader_read_exact, take_hs, take_bytes.
  cbn [hr_record hr_remaining]. rewrite Z.gtb_ltb. destruct (Z.ltb_spec rem n); [done|].
  destruct (Z.leb_spec n (zlen rest)); [|by rewrite R].
  destruct R as (r' & -> & Hs' & Hok' & Hp'). res_simpl. apply Hk; [done|done|].
  split_and!; [done|done|]. by rewrite last_pos_app, <- Hp.
Qed.

Lemma take_chunk {A} (l : list A) n m :
  0 ≤ n ≤ m →
  take (Z.to_nat n) l ++ take (Z.to_nat (m - n)) (drop (Z.to_nat n) l) = take (Z.to_nat m) l.
Proof.
  intros. replace (Z.to_nat m) with (Z.to_nat n + Z.to_nat (m - n))%nat by lia.
  by rewrite <- take_take_drop.
Qed.

(** Reading the remainder in chunks is one read. *)
Lemma remaining_loop_at fuel buf done rest v r rem out :
  bytes_ok buf → at_stream buf done rest v r → 0 ≤ rem → rem / 256 < Z.of_nat fuel →
  if rem <=? zlen rest
  then ∃ r', remaining_loop fuel buf (mkHs r rem) out = Ok (out ++ (take (Z.to_nat rem) rest).*1, mkHs r' 0) ∧
         at_stream buf (done ++ take (Z.to_nat rem) rest) (drop (Z.to_nat rem) rest) v r'
  else remaining_loop fuel buf (mkHs r rem) out = Err v.
Proof.
  intros Hb. revert done rest r rem out. induction fuel as [|fuel IH]; intros done rest r rem out Hat Hr Hf.
  { assert (0 ≤ rem / 256) by (apply Z.div_pos; lia). lia. }
  pose proof (zlen_nonneg rest). cbn [remaining_loop hr_remaining].
  destruct (Z.ltb_spec 0 rem) as [Hpos|Hz]; cbn [negb].
  2: { assert (rem = 0) as -> by lia. rewrite (proj2 (Z.leb_le _ _)) by lia. exists r. simpl.
       by rewrite !app_nil_r. }
  destruct Hat as (Hs & Hok & Hp).
  pose proof (read_exact_stream buf r (Z.min rem 256) Hb Hok ltac:(lia)) as R. unfold reads in R. rewrite Hs in R.
  unfold HandshakeReader_read_exact. cbn [hr_record hr_remaining]. rewrite Z.gtb_ltb.
  destruct (Z.ltb_spec rem (Z.min rem 256)); [lia|].
  destruct (Z.leb_spec (Z.min rem 256) (zlen rest)) as [Hle|Hgt].
  2: { rewrite R. res_simpl. by rewrite (proj2 (Z.leb_gt _ _)) by lia. }
  destruct R as (r1 & -> & Hs1 & Hok1 & Hp1). res_simpl. cbn [app].
  set (n := Z.min rem 256) in *. set (done1 := done ++ take (Z.to_nat n) rest).
  assert (at_stream buf done1 (drop (Z.to_nat n) rest) v r1) as Hat1.
  { split_and!; [done|done|]. unfold done1. by rewrite last_pos_app, <- Hp. }
  destruct (Z.eq_dec rem n) as [E|Hne].
  { (* the last chunk *)
    unfold done1 in Hat1. rewrite <- E in Hat1 |- *. rewrite Z.sub_diag, (proj2 (Z.leb_le _ _)) by lia.
    exists r1. by destruct fuel. }
  assert (n = 256) as En by lia.
  specialize (IH done1 (drop (Z.to_nat n) rest) r1 (rem - n) (out ++ (take (Z.to_nat n) rest).*1) Hat1
    ltac:(lia)).
  assert (zlen (drop (Z.to_nat n) rest) = zlen rest - n) as Ld
    by (unfold zlen in *; rewrite length_drop; lia).
  rewrite Ld in IH. assert ((rem - n) / 256 < Z.of_nat fuel) as Hf'.
  { replace (rem - n) with (rem + (-1) * 256) by lia. rewrite Z.div_add by lia. lia. }
  specialize (IH Hf'). destruct (Z.leb_spec (rem - n) (zlen rest - n)).
  - rewrite (proj2 (Z.leb_le _ _)) by lia. destruct IH as (r' & -> & Hat'). exists r'.
    rewrite drop_drop in Hat'. unfold done1 in Hat'. rewrite <- app_assoc in Hat'.
    replace (Z.to_nat n + Z.to_nat (rem - n))%nat with (Z.to_nat rem) in Hat' by lia.
    rewrite take_chunk in Hat' by lia. split; [|done]. by rewrite <- app_assoc, <- fmap_app, take_chunk by lia.
  - by rewrite (proj2 (Z.leb_gt _ _)) by lia.
Qed.

Lemma take_step {A} (l : list A) a b :
  0 ≤ a → 0 ≤ b → take (Z.to_nat a) l ++ take (Z.to_nat b) (drop (Z.to_nat a) l) = take (Z.to_nat (a + b)) l.
Proof. intros. rewrite <- (take_chunk l a (a + b)) by lia. by replace (a + b - a) with b by lia. Qed.
Lemma drop_step {A} (l : list A) a b :
  0 ≤ a → 0 ≤ b → drop (Z.to_nat b) (drop (Z.to_nat a) l) = drop (Z.to_nat (a + b)) l.
Proof. intros. rewrite drop_drop. f_equal. lia. Qed.

Lemma bind_ext {E A C} (m : res E A) (f g : A → res E C) :
  (∀ a, m = Ok a → f a = g a) → (m ≫= f) = (m ≫= g).
Proof. destruct m; simpl; auto. Qed.

(** The bytes of a read are bytes. *)
Lemma u24_nonneg b1 b2 b3 : 0 ≤ b1 → 0 ≤ b2 → 0 ≤ b3 → 0 ≤ u24 b1 b2 b3.
Proof.
  intros. unfold u24. apply Z.lor_nonneg. split; [apply Z.lor_nonneg; split|done];
    apply Z.shiftl_nonneg; lia.
Qed.

Lemma deframe_bytes l rem pos : bytes_ok l → bytes_ok (deframe l rem pos).1.*1.
Proof.
  induction l, rem, pos as [l pos Hs|t a b hi lo l pos IH|rem pos Hr|x l rem pos Hr IH] using deframe_ind; intros Hl.
  - rewrite deframe_short by done. constructor.
  - rewrite deframe_record. case_match; [|constructor]. apply IH.
    by do 5 (apply Forall_cons_1 in Hl as [_ Hl]).
  - rewrite deframe_nil. constructor.
  - rewrite deframe_byte by done. apply Forall_cons_1 in Hl as [Hx Hl]. constructor; [done|]. by apply IH.
Qed.

Lemma classify_stream_eq input secret :
  bytes_ok input →
  classify_within_limit input secret =
    classify_stream (deframe input 0 0).1 (deframe input 0 0).2 secret.
Proof.
  intros Hb. pose proof (deframe_bytes input 0 0 Hb) as Hbl.
  destruct (deframe input 0 0) as [l v] eqn:El. cbn [fst snd] in *.
  assert (at_stream input [] l v RecordReader_new) as H0.
  { split_and!; [by unfold stream; simpl; rewrite drop_0|split; simpl; [pose proof (zlen_nonneg input)|]; lia|done]. }
  unfold classify_within_limit, classify_stream.
  eapply read_at; [done|exact H0|lia|]. intros r1 _ H1. cbv beta iota.
  apply bind_ext. intros h0 _. destruct (negb (h0 =? _)); [done|].
  apply bind_ext. intros h1 E1. apply bind_ext. intros h2 E2. apply bind_ext. intros h3 E3.
  cbv zeta. destruct (_ >? MAX_TCP_CLIENT_HELLO_WIRE_LEN); [done|].
  assert (0 ≤ u24 h1 h2 h3) as Hu.
  { assert (∀ i x, @index Verdict ((take (Z.to_nat 4) l).*1) i = Ok x → 0 ≤ x) as Hi.
    { intros i x. unfold index. case_match; [|done]. intros [= <-].
      apply bytes_ok_nth. rewrite fmap_take. by apply Forall_take. }
    apply u24_nonneg; by eapply Hi. }
  generalize dependent (u24 h1 h2 h3). intros hs_len Hu.
  eapply hs_read_at; [done|exact H1|lia|]. intros r2 _ _ H2. cbv beta iota.
  eapply hs_read_at; [done|exact H2|lia|]. intros r3 _ _ H3. cbv beta iota.
  eapply hs_read_at; [done|exact H3|lia|]. intros r4 _ _ H4. cbv beta iota.
  apply bind_ext. intros n _. destruct (negb (n =? _)); [done|].
  eapply hs_read_at; [done|exact H4|done|]. intros r5 _ Hrem H5. cbv beta iota.
  apply bind_ext. intros cand _. apply bind_ext. intros prefix _. apply bind_ext. intros same _.
  destruct (negb same); [done|]. unfold read_remaining_into. cbn [hr_remaining].
  unfold LEGACY_SESSION_ID_LEN in *. set (rem := hs_len - 2 - 32 - 1 - 32) in *.
  pose proof (remaining_loop_at (Z.to_nat (rem / 256 + 1)) _ _ _ _ _ rem
    ((take (Z.to_nat 4) l).*1 ++ (take (Z.to_nat 2) (drop (Z.to_nat 4) l)).*1 ++
     (take (Z.to_nat 32) (drop (Z.to_nat 2) (drop (Z.to_nat 4) l))).*1 ++
     (take (Z.to_nat 1) (drop (Z.to_nat 32) (drop (Z.to_nat 2) (drop (Z.to_nat 4) l)))).*1 ++
     (take (Z.to_nat 32) (drop (Z.to_nat 1) (drop (Z.to_nat 32) (drop (Z.to_nat 2) (drop (Z.to_nat 4) l))))).*1)
    Hb H5 ltac:(lia) ltac:(lia)) as R.
  unfold take_bytes. destruct (rem <=? _); [|by rewrite R]. destruct R as (r6 & -> & _ & _ & Hpos).
  res_simpl. cbn [hr_record]. rewrite Hpos. cbn [app].
  rewrite !drop_step, <- !app_assoc, !app_assoc, !take_step by lia.
  by replace (4 + 2 + 32 + 1 + 32 + rem) with (4 + hs_len) by lia.
Qed.

(** ** What is claimed *)

(** The bytes of the message, by position. *)
Lemma sub_fst_take (l : list (Z * Z)) n a b :
  0 ≤ a ≤ b → b ≤ n → sub ((take (Z.to_nat n) l).*1) a b = (take (Z.to_nat (b - a)) (drop (Z.to_nat a) l)).*1.
Proof.
  intros Hab Hn. unfold sub. rewrite <- fmap_drop, <- fmap_take. f_equal.
  rewrite skipn_firstn_comm, take_take. f_equal. lia.
Qed.

Lemma index_sub {E} (m : bytes) a b i :
  0 ≤ a → a ≤ b → b ≤ zlen m → 0 ≤ i < b - a →
  @index E (sub m a b) i = Ok (nth (Z.to_nat (a + i)) m 0).
Proof.
  intros. rewrite index_ok by (rewrite ?zlen_sub; lia). f_equal. unfold sub, zlen in *.
  rewrite !nth_lookup, lookup_take_lt, lookup_drop by lia. do 2 f_equal. lia.
Qed.

(** The decisions of the classifier, on a stream that holds a whole message
    [m] of length [4 + hs_len]. *)
Lemma classify_stream_message l v secret n :
  71 ≤ n ≤ zlen l →
  let m := (take (Z.to_nat n) l).*1 in
  nth 0 m 0 = 1 → n = 4 + u24 (nth 1 m 0) (nth 2 m 0) (nth 3 m 0) → nth 38 m 0 = 32 →
  5 + n ≤ 8192 →
  classify_stream l v secret =
    (candidate ← map_err (λ _, Pass) (candidate_session_id_tag (sub m 6 38) secret);
     same ← map_err (λ _, Pass) (memcmp_eq (sub m 39 55) candidate);
     if negb (same : bool) then Err Pass else
     if last_pos 0 (take (Z.to_nat n) l) >? MAX_TCP_CLIENT_HELLO_WIRE_LEN then Err Pass else
     decide_claim m secret).
Proof.
  intros Hn m H0 Hu H38 Hmax.
  assert (zlen m = n) as Lm by (unfold m, zlen in *; rewrite length_fmap, length_take; lia).
  assert (∀ a b, 0 ≤ a ≤ b → b ≤ n →
    (take (Z.to_nat (b - a)) (drop (Z.to_nat a) l)).*1 = sub m a b) as Hsub
    by (intros; unfold m; by rewrite sub_fst_take by lia).
  assert (∀ k, zlen (drop (Z.to_nat k) l) = Z.max 0 (zlen l - Z.max 0 k)) as Ld
    by (intros; unfold zlen; rewrite length_drop; lia).
  unfold classify_stream, take_hs, take_bytes, TLS_RECORD_HEADER_LEN, MAX_TCP_CLIENT_HELLO_WIRE_LEN,
    LEGACY_SESSION_ID_LEN, HANDSHAKE_TYPE_CLIENT_HELLO.
  rewrite (proj2 (Z.leb_le 4 _)) by lia. res_simpl.
  pose proof (Hsub 0 4 ltac:(lia) ltac:(lia)) as E4. rewrite drop_0 in E4. change (4 - 0) with 4 in E4.
  rewrite E4. rewrite !index_sub by lia. res_simpl.
  change (Z.to_nat (0 + 0)) with 0%nat. change (Z.to_nat (0 + 1)) with 1%nat.
  change (Z.to_nat (0 + 2)) with 2%nat. change (Z.to_nat (0 + 3)) with 3%nat.
  rewrite H0. change (1 =? 1) with true. cbn [negb].
  remember (u24 (nth 1 m 0) (nth 2 m 0) (nth 3 m 0)) as hs eqn:Ehs. clear Ehs.
  assert (∀ a b, b <= a → (b >? a) = false) as Hgt by (intros; rewrite Z.gtb_ltb; by apply Z.ltb_ge).
  rewrite (Hgt (8 * 1024)), (Hgt hs 2), (Hgt (hs - 2) 32), (Hgt (hs - 2 - 32) 1),
    (Hgt (hs - 2 - 32 - 1) 32) by lia.
  rewrite (proj2 (Z.leb_le 2 _)) by (rewrite Ld; lia). res_simpl. rewrite !drop_step by lia.
  rewrite (proj2 (Z.leb_le 32 _)) by (rewrite Ld; lia). res_simpl. rewrite !drop_step by lia.
  rewrite (proj2 (Z.leb_le 1 _)) by (rewrite Ld; lia). res_simpl. rewrite !drop_step by lia.
  pose proof (Hsub 4 6 ltac:(lia) ltac:(lia)) as E6. pose proof (Hsub 6 38 ltac:(lia) ltac:(lia)) as E38.
  pose proof (Hsub 38 39 ltac:(lia) ltac:(lia)) as E39. pose proof (Hsub 39 71 ltac:(lia) ltac:(lia)) as E71.
  pose proof (Hsub 71 n ltac:(lia) ltac:(lia)) as En.
  change (6 - 4) with 2 in E6. change (38 - 6) with 32 in E38. change (39 - 38) with 1 in E39.
  change (71 - 39) with 32 in E71.
  change (4 + 2) with 6. change (6 + 32) with 38. change (38 + 1) with 39.
  rewrite E6, E38, E39. rewrite index_sub by lia. res_simpl. change (Z.to_nat (38 + 0)) with 38%nat.
  rewrite H38. change (32 =? 32) with true. cbn [negb].
  rewrite (proj2 (Z.leb_le 32 _)) by (rewrite Ld; lia). res_simpl. rewrite !drop_step by lia.
  change (39 + 32) with 71. rewrite E71. apply bind_ext. intros cand _. change TOKEN_PART_LEN with 16.
  rewrite slice_ok by (rewrite ?zlen_sub; lia). res_simpl.
  assert (sub (sub m 39 71) 0 16 = sub m 39 55) as -> by (unfold sub; by rewrite drop_0, take_take).
  apply bind_ext. intros same _. destruct (negb same); [done|].
  rewrite (proj2 (Z.leb_le (hs - 2 - 32 - 1 - 32) _)) by (rewrite Ld; lia). res_simpl.
  replace (hs - 2 - 32 - 1 - 32) with (n - 71) by lia. rewrite En. rewrite <- Hu.
  destruct (_ >? _); [done|]. f_equal. rewrite <- !sub_concat by lia. apply sub_all; lia.
Qed.

Lemma take_bytes_ok v l n out rest :
  take_bytes v l n = Ok (out, rest) →
  n ≤ zlen l ∧ out = (take (Z.to_nat n) l).*1 ∧ rest = drop (Z.to_nat n) l.
Proof. unfold take_bytes. destruct (Z.leb_spec n (zlen l)); [|done]. intros [= <- <-]. done. Qed.

Lemma take_hs_ok v l rem n out rest :
  take_hs v l rem n = Ok (out, rest) →
  n ≤ rem ∧ n ≤ zlen l ∧ out = (take (Z.to_nat n) l).*1 ∧ rest = drop (Z.to_nat n) l.
Proof.
  unfold take_hs. rewrite Z.gtb_ltb. destruct (Z.ltb_spec rem n); [done|].
  intros (? & ? & ?)%take_bytes_ok. done.
Qed.

Lemma index_inv {E} (l : bytes) i x : @index E l i = Ok x → 0 ≤ i < zlen l ∧ x = nth (Z.to_nat i) l 0.
Proof. unfold index. split_tests; simpl; intros; simplify_eq; done. Qed.

(** Only a whole message gets a decision. *)
Lemma classify_stream_claim_inv l v secret :
  classify_stream l v secret = Ok Claim →
  ∃ n, 71 ≤ n ≤ zlen l ∧ 5 + n ≤ 8192 ∧
    let m := (take (Z.to_nat n) l).*1 in
    nth 0 m 0 = 1 ∧ n = 4 + u24 (nth 1 m 0) (nth 2 m 0) (nth 3 m 0) ∧ nth 38 m 0 = 32.
Proof.
  unfold classify_stream, TLS_RECORD_HEADER_LEN, MAX_TCP_CLIENT_HELLO_WIRE_LEN, LEGACY_SESSION_ID_LEN,
    HANDSHAKE_TYPE_CLIENT_HELLO. intros H.
  apply bind_ok in H as ([hd l1] & (L4 & -> & ->)%take_bytes_ok & H).
  apply bind_ok in H as (h0 & [_ ->]%index_inv & H).
  destruct (Z.eqb_spec (nth (Z.to_nat 0) (take (Z.to_nat 4) l).*1 0) 1) as [E0|]; [|done]. cbn [negb] in H.
  apply bind_ok in H as (h1 & [_ ->]%index_inv & H). apply bind_ok in H as (h2 & [_ ->]%index_inv & H).
  apply bind_ok in H as (h3 & [_ ->]%index_inv & H).
  match type of H with context [u24 ?a ?b ?c] => remember (u24 a b c) as hs eqn:Ehs end.
  cbv zeta in H. rewrite Z.gtb_ltb in H. destruct (Z.ltb_spec (8 * 1024) (5 + 4 + hs)) as [|Hmax]; [done|].
  apply bind_ok in H as ([ver l2] & (K1 & J1 & -> & ->)%take_hs_ok & H).
  apply bind_ok in H as ([random l3] & (K2 & J2 & -> & ->)%take_hs_ok & H).
  apply bind_ok in H as ([sl l4] & (K3 & J3 & -> & ->)%take_hs_ok & H).
  apply bind_ok in H as (n & [_ ->]%index_inv & H).
  match type of H with context [negb (?x =? 32)] => destruct (Z.eqb_spec x 32) as [E38|]; [|done] end.
  cbn [negb] in H. apply bind_ok in H as ([sid l5] & (K4 & J4 & -> & ->)%take_hs_ok & H).
  apply bind_ok in H as (cand & _ & H). apply bind_ok in H as (pre & _ & H).
  apply bind_ok in H as (same & _ & H). destruct (negb same); [done|].
  apply bind_ok in H as ([rest l6] & (Hr & -> & ->)%take_bytes_ok & H). clear H.
  rewrite !drop_step in * by lia. exists (4 + hs).
  change (Z.to_nat (4 + (2 + (32 + (1 + 32))))) with (Z.to_nat 71) in Hr.
  change (Z.to_nat (4 + (2 + (32 + 1)))) with (Z.to_nat 39) in J4.
  assert (∀ k, 0 ≤ k → zlen (drop (Z.to_nat k) l) = Z.max 0 (zlen l - k)) as Ld
    by (intros; unfold zlen; rewrite length_drop; lia).
  rewrite Ld in Hr, J4 by lia. assert (71 ≤ 4 + hs ≤ zlen l) as Hn by (pose proof (zlen_nonneg l); lia).
  assert (∀ i k, (i < Z.to_nat k)%nat → k ≤ 4 + hs →
    nth i (take (Z.to_nat k) l).*1 0 = nth i (take (Z.to_nat (4 + hs)) l).*1 0) as Hnth.
  { intros i k Hi Hk. rewrite !nth_lookup, !list_lookup_fmap, !lookup_take_lt by lia. done. }
  split_and!; [lia|lia|lia|..].
  - rewrite <- E0. symmetry. apply (Hnth 0%nat 4); lia.
  - rewrite (Hnth _ 4), (Hnth _ 4), (Hnth _ 4) in Ehs by lia. by f_equal.
  - rewrite <- E38. change (Z.to_nat 0) with 0%nat. rewrite !nth_lookup, !list_lookup_fmap, !lookup_take_lt by lia.
    rewrite lookup_drop. do 3 f_equal.
Qed.

(** ** The possible outcomes *)
Section Outcomes.
Context {L : BoringLaws B}.

Definition outcome (v : Verdict) (r : res Verdict Verdict) : Prop :=
  r = Ok Claim ∨ r = Ok Pass ∨ r = Err Pass ∨ r = Err v.

Lemma outcome_take v l n k :
  0 ≤ n → (∀ out rest, zlen out = n → outcome v (k (out, rest))) → outcome v (take_bytes v l n ≫= k).
Proof.
  intros Hn Hk. unfold take_bytes. destruct (Z.leb_spec n (zlen l)); res_simpl; [|by right; right; right].
  apply Hk. unfold zlen in *. rewrite length_fmap, length_take. lia.
Qed.

Lemma outcome_take_hs v l rem n k :
  0 ≤ n → (n ≤ rem → ∀ out rest, zlen out = n → outcome v (k (out, rest))) →
  outcome v (take_hs v l rem n ≫= k).
Proof.
  intros Hn Hk. unfold take_hs. rewrite Z.gtb_ltb. destruct (Z.ltb_spec rem n); [by right; right; left|].
  by apply outcome_take; [|apply Hk].
Qed.

Lemma outcome_index v (l : bytes) i (k : Z → res Verdict Verdict) :
  0 ≤ i < zlen l → (∀ x, outcome v (k x)) → outcome v (index l i ≫= k).
Proof. intros Hi Hk. rewrite index_ok by lia. apply Hk. Qed.

(** Verification of any byte string gives an answer. *)
Lemma verify_no_panic ch secret : verify_legacy_session_id ch secret ≠ Panic.
Proof.
  unfold verify_legacy_session_id. apply bind_not_panic.
  { unfold client_hello_layout. unfold LEGACY_SESSION_ID_LEN.
    apply bind_not_panic; [apply ok_or_not_panic|]. intros hd Hhd.
    destruct (get_range ch 0 4) as [h|] eqn:E; simplify_eq/=. apply get_range_Some in E as [? ->].
    rewrite !index_ok by (rewrite ?zlen_sub; lia). res_simpl. no_panic.
    destruct (get_range ch (4 + 2) _) as [rb|] eqn:E2; simplify_eq/=.
    apply get_range_Some in E2 as [? ->]. rewrite zlen_sub; lia. }
  intros lay Hlay. destruct (client_hello_layout_inv _ _ Hlay) as [-> Lc].
  cbn [cl_session_id_start cl_random]. unfold LEGACY_SESSION_ID_LEN.
  rewrite slice_ok by lia. res_simpl.
  destruct (candidate_tag_no_panic (sub ch 6 38) secret) as [(c & -> & Lcand)| ->];
    [rewrite zlen_sub; lia| |done]. res_simpl.
  destruct (claim_tag_no_panic ch (sub ch 6 38) secret Lc) as [(t & -> & Lt)| ->]; [|done]. res_simpl.
  assert (zlen (sub ch 39 (39 + 32)) = 32) as Ls by (rewrite zlen_sub; lia).
  change TOKEN_PART_LEN with 16. rewrite !slice_ok by lia. res_simpl.
  rewrite (memcmp_eq_ok _ c), (memcmp_eq_ok _ t) by (rewrite zlen_sub; lia). res_simpl.
  by destruct (bool_decide _).
Qed.

Lemma classify_stream_outcome l v secret : outcome v (classify_stream l v secret).
Proof.
  unfold classify_stream, LEGACY_SESSION_ID_LEN.
  apply outcome_take; [lia|]. intros hd l1 Lh. apply outcome_index; [lia|]. intros h0.
  destruct (negb _); [by right; right; left|]. do 3 (apply outcome_index; [lia|]; intros ?).
  cbv zeta. destruct (_ >? _); [by right; right; left|].
  apply outcome_take_hs; [lia|]. intros _ ver l2 _. apply outcome_take_hs; [lia|]. intros _ random l3 Lr.
  apply outcome_take_hs; [lia|]. intros _ sl l4 Lsl. apply outcome_index; [lia|]. intros n.
  destruct (negb _); [by right; right; left|]. apply outcome_take_hs; [lia|]. intros Hrem sid l5 Ls.
  destruct (candidate_tag_no_panic random secret Lr) as [(c & -> & Lc)| ->]; res_simpl;
    [|by right; right; left].
  change TOKEN_PART_LEN with 16. rewrite slice_ok by lia. res_simpl.
  rewrite memcmp_eq_ok by (rewrite zlen_sub; lia). res_simpl.
  destruct (negb _); [by right; right; left|]. apply outcome_take; [lia|]. intros rest l6 _.
  destruct (_ >? _); [by right; right; left|]. unfold decide_claim.
  pose proof (verify_no_panic ((hd ++ ver ++ random ++ sl ++ sid) ++ rest) secret) as Hv.
  destruct (verify_legacy_session_id _ _) as [[]| |]; [by left|by right; left|by right; left|done].
Qed.

(** ** More bytes *)
Lemma take_bytes_ext l l' v' n :
  take_bytes Incomplete l n = Err Incomplete ∨
  ∃ out rest, take_bytes Incomplete l n = Ok (out, rest) ∧
    take_bytes v' (l ++ l') n = Ok (out, rest ++ l') ∧ n ≤ zlen l ∧ rest = drop (Z.to_nat n) l.
Proof.
  unfold take_bytes. destruct (Z.leb_spec n (zlen l)); [right|by left].
  pose proof (zlen_nonneg l'). rewrite zlen_app. rewrite (proj2 (Z.leb_le _ _)) by lia.
  unfold zlen in *. do 2 eexists. split_and!; [done| |lia|done]. by rewrite take_app_le, drop_app_le by lia.
Qed.

Definition settled (r r' : res Verdict Verdict) : Prop := r = Err Incomplete ∨ r' = r.

Lemma settled_take l l' v' n k k' :
  (∀ out rest, n ≤ zlen l → rest = drop (Z.to_nat n) l → settled (k (out, rest)) (k' (out, rest ++ l'))) →
  settled (take_bytes Incomplete l n ≫= k) (take_bytes v' (l ++ l') n ≫= k').
Proof.
  intros Hk. destruct (take_bytes_ext l l' v' n) as [->|(out & rest & -> & -> & Hn & Hr)]; [by left|].
  by apply Hk.
Qed.

Lemma settled_take_hs l l' v' rem n k k' :
  (∀ out rest, n ≤ rem → n ≤ zlen l → rest = drop (Z.to_nat n) l →
     settled (k (out, rest)) (k' (out, rest ++ l'))) →
  settled (take_hs Incomplete l rem n ≫= k) (take_hs v' (l ++ l') rem n ≫= k').
Proof.
  intros Hk. unfold take_hs. rewrite Z.gtb_ltb. destruct (Z.ltb_spec rem n); [by right|].
  apply settled_take. auto.
Qed.

Lemma settled_bind {A} (m : res Verdict A) k k' :
  (∀ a, settled (k a) (k' a)) → settled (m ≫= k) (m ≫= k').
Proof. intros Hk. destruct m; [by apply Hk|by right|by right]. Qed.

Lemma classify_stream_ext l l' v' secret :
  settled (classify_stream l Incomplete secret) (classify_stream (l ++ l') v' secret).
Proof.
  unfold classify_stream, LEGACY_SESSION_ID_LEN.
  apply settled_take. intros hd l1 L4 E1. apply settled_bind. intros h0.
  destruct (negb _); [by right|]. do 3 (apply settled_bind; intros ?).
  cbv zeta. destruct (_ >? _); [by right|]. generalize (u24 a a0 a1) as hs. intros hs.
  apply settled_take_hs. intros ver l2 _ _ E2. apply settled_take_hs. intros random l3 _ _ E3.
  apply settled_take_hs. intros sl l4 _ _ E4. apply settled_bind. intros n.
  destruct (negb _); [by right|]. apply settled_take_hs. intros sid l5 Hrem H5 E5.
  do 3 (apply settled_bind; intros ?). destruct (negb _); [by right|].
  apply settled_take. intros rest l6 H6 _. subst l5 l4 l3 l2 l1. rewrite !drop_step in * by lia.
  right. assert (Z.to_nat (4 + hs) ≤ length l)%nat as Hlen.
  { unfold zlen in *. rewrite length_drop in *. lia. }
  by rewrite take_app_le.
Qed.

(** Positions are past the start, and at most the end, of the buffer. *)
Lemma deframe_pos l rem pos : Forall (λ x, pos < x.2 ≤ pos + zlen l) (deframe l rem pos).1.
Proof.
  induction l, rem, pos as [l pos Hs|t a b hi lo l pos IH|rem pos Hr|x l rem pos Hr IH] using deframe_ind.
  - rewrite deframe_short by done. constructor.
  - rewrite deframe_record. case_match; [|constructor].
    eapply Forall_impl; [|exact IH]. intros ? ?. simpl in *. zl. lia.
  - rewrite deframe_nil. constructor.
  - rewrite deframe_byte by done. pose proof (zlen_nonneg l). constructor; [simpl; zl; lia|].
    eapply Forall_impl; [|exact IH]. intros ? ?. simpl in *. zl. lia.
Qed.

(** A longer buffer continues the stream, with positions past the end of the
    shorter one, unless the stream has ended at a foreign record. *)
Lemma deframe_ext p q rem pos :
  ((deframe p rem pos).2 = Incomplete ∧
   ∃ l' v', deframe (p ++ q) rem pos = ((deframe p rem pos).1 ++ l', v') ∧
     Forall (λ x, pos + zlen p < x.2) l') ∨
  ((deframe p rem pos).2 = Pass ∧ deframe (p ++ q) rem pos = deframe p rem pos).
Proof.
  induction p, rem, pos as [l pos Hs|t a b hi lo l pos IH|rem pos Hr|x l rem pos Hr IH] using deframe_ind.
  - left. rewrite deframe_short by done. split; [done|]. exists (deframe (l ++ q) 0 pos).1, (deframe (l ++ q) 0 pos).2.
    split; [by destruct (deframe _ _ _)|].
    destruct (le_lt_dec 5 (length (l ++ q))) as [Hge|Hlt]; [|rewrite deframe_short by done; constructor].
    destruct (l ++ q) as [|t [|a [|b [|hi [|lo r] ] ] ] ] eqn:E; try (simpl in Hge; lia).
    rewrite deframe_record. case_match; [|constructor].
    eapply Forall_impl; [|apply deframe_pos]. intros ? ?. unfold zlen. simpl in *. lia.
  - cbn [app]. rewrite !deframe_record. case_match; [|by right].
    destruct IH as [[Hv (l' & v' & -> & Hf)]|[Hv ->] ]; [left|by right]. split; [done|].
    exists l', v'. split; [done|]. eapply Forall_impl; [|exact Hf]. intros ? ?. simpl in *. zl. lia.
  - left. rewrite deframe_nil. split; [done|]. cbn [app fst].
    exists (deframe q rem pos).1, (deframe q rem pos).2. split; [by destruct (deframe _ _ _)|].
    change (zlen []) with 0. eapply Forall_impl; [|apply deframe_pos]. intros ? ?. simpl in *. lia.
  - cbn [app]. rewrite !deframe_byte by done. cbn [fst snd].
    destruct IH as [[Hv (l' & v' & -> & Hf)]|[Hv ->] ]; [left|by right]. split; [done|].
    exists l', v'. split; [done|]. eapply Forall_impl; [|exact Hf]. intros ? ?. simpl in *. zl. lia.
Qed.

(** The [n]-th handshake byte is at least a record header into the buffer. *)
Lemma last_pos_lower l rem pos n d :
  (1 ≤ n ≤ length (deframe l rem pos).1)%nat →
  pos + Z.of_nat n + (if rem =? 0 then 5 else 0) ≤ last_pos d (take n (deframe l rem pos).1).
Proof.
  revert n d.
  induction l, rem, pos as [l pos Hs|t a b hi lo l pos IH|rem pos Hr|x l rem pos Hr IH] using deframe_ind;
    intros n d.
  - rewrite deframe_short by done. simpl. lia.
  - rewrite deframe_record. destruct (t =? TLS_HANDSHAKE_CONTENT_TYPE); [|simpl; lia].
    intros Hn. specialize (IH n d Hn).
    change (0 =? 0) with true. cbv iota. destruct (_ =? 0); lia.
  - rewrite deframe_nil. simpl. lia.
  - rewrite deframe_byte by done. rewrite (proj2 (Z.eqb_neq _ _) Hr). cbn [fst]. intros Hn.
    destruct n as [|[|n] ]; [lia|simpl; lia|]. cbn [take].
    change (last_pos d ((x, pos + 1) :: ?k)) with (last_pos (pos + 1) k). simpl in Hn.
    specialize (IH (S n) (pos + 1) ltac:(lia)). destruct (rem - 1 =? 0); lia.
Qed.

Lemma last_pos_upper (l : list (Z * Z)) d b : d ≤ b → Forall (λ x, x.2 ≤ b) l → last_pos d l ≤ b.
Proof. intros Hd H. revert d Hd. induction H as [|x l Hx _ IH]; intros d Hd; [done|]. by apply IH. Qed.

(** The first [n] handshake bytes of the buffer are a message with a valid
    token, which ends within the limit. *)
Definition claimed (input secret : bytes) (n : Z) : Prop :=
  let l := (deframe input 0 0).1 in
  0 ≤ n ≤ zlen l ∧ verify_legacy_session_id ((take (Z.to_nat n) l).*1) secret = Ok true ∧
  last_pos 0 (take (Z.to_nat n) l) ≤ MAX_TCP_CLIENT_HELLO_WIRE_LEN.

Lemma classify_stream_claim input v secret :
  classify_stream (deframe input 0 0).1 v secret = Ok Claim ↔ ∃ n, claimed input secret n.
Proof.
  unfold claimed. split.
  - intros H. set (l := (deframe input 0 0).1) in *. cbv zeta.
    destruct (classify_stream_claim_inv l v secret H) as (n & Hn & Hmax & H0 & Hu & H38). cbv zeta in *.
    exists n. rewrite (classify_stream_message l v secret n Hn H0 Hu H38 Hmax) in H.
    apply bind_ok in H as (cand & _ & H). apply bind_ok in H as (same & _ & H). destruct (negb same); [done|].
    rewrite Z.gtb_ltb in H. destruct (Z.ltb_spec MAX_TCP_CLIENT_HELLO_WIRE_LEN (last_pos 0 (take (Z.to_nat n) l)));
      [done|]. split_and!; [lia|lia| |done]. unfold decide_claim in H.
    by destruct (verify_legacy_session_id _ _) as [[]| |].
  - intros (n & Hn & Hv & Hp). cbv zeta in *.
    destruct (verify_true_inv _ _ Hv) as (L71 & H0 & Hlen & H38 & Hcand).
    assert (zlen (take (Z.to_nat n) (deframe input 0 0).1).*1 = n) as Lm
      by (unfold zlen in *; rewrite length_fmap, length_take; lia).
    rewrite Lm in Hlen, L71. unfold MAX_TCP_CLIENT_HELLO_WIRE_LEN in *.
    pose proof (last_pos_lower input 0 0 (Z.to_nat n) 0) as Hlow. change (0 =? 0) with true in Hlow.
    cbv iota in Hlow. specialize (Hlow ltac:(unfold zlen in *; lia)).
    rewrite (classify_stream_message (deframe input 0 0).1 v secret n ltac:(lia) H0 Hlen H38 ltac:(lia)).
    rewrite Hcand. res_simpl. rewrite memcmp_eq_ok by done. res_simpl. rewrite bool_decide_true by done.
    cbn [negb]. rewrite Z.gtb_ltb. unfold MAX_TCP_CLIENT_HELLO_WIRE_LEN.
    rewrite (proj2 (Z.ltb_ge _ _)) by lia. unfold decide_claim. by rewrite Hv.
Qed.
End Outcomes.
End Stream.

(** ** Theorems *)
Section Theorems.
Context `{B : Boring} {L : BoringLaws B}.

Lemma classify_outcome input secret :
  bytes_ok input →
  classify_within_limit input secret = Ok Claim ∨ classify_within_limit input secret = Ok Pass ∨
  classify_within_limit input secret = Err Pass ∨
  (classify_within_limit input secret = Err Incomplete ∧ (deframe input 0 0).2 = Incomplete).
Proof.
  intros Hb. rewrite classify_stream_eq by done.
  destruct (classify_stream_outcome (deframe input 0 0).1 (deframe input 0 0).2 secret) as [?|[?|[?|E] ] ]; auto.
  destruct (deframe_ext input [] 0 0) as [[Hv _]|[Hv _] ]; rewrite Hv in *; auto.
Qed.

Lemma last_pos_above (l : list (Z * Z)) d b : l ≠ [] → Forall (λ x, b < x.2) l → b < last_pos d l.
Proof.
  intros Hne H. revert d Hne. induction H as [|x l Hx H IH]; intros d Hne; [done|].
  destruct l as [|y l]; [done|]. by apply IH.
Qed.

(** A claim is visible in the first 8 KiB. *)
Lemma claimed_within p q secret n :
  MAX_TCP_CLIENT_HELLO_WIRE_LEN ≤ zlen p → claimed (p ++ q) secret n → claimed p secret n.
Proof.
  intros Hp (Hn & Hv & Hpos). unfold claimed. cbv zeta in *.
  destruct (deframe_ext p q 0 0) as [[Hi (l' & v' & Eq & Hf)]|[Hi Eq] ]; rewrite Eq in *; cbn [fst] in *; [|done].
  rewrite zlen_app in Hn. pose proof (zlen_nonneg (deframe p 0 0).1) as Hnn.
  destruct (Z_le_gt_dec n (zlen (deframe p 0 0).1)) as [Hle|Hgt].
  - rewrite take_app_le in * by (unfold zlen in *; lia). split_and!; done || lia.
  - exfalso. unfold zlen in Hgt, Hn. rewrite take_app_ge, last_pos_app in Hpos by lia.
    revert Hpos. apply Z.lt_nge. eapply Z.le_lt_trans; [exact Hp|]. apply last_pos_above.
    + intros Hnil. apply (f_equal length) in Hnil. rewrite length_take in Hnil. simpl in Hnil. lia.
    + by apply Forall_take.
Qed.

(** The classifier of TCP streams never reads out of range, never asks
    for more than 8 KiB and never says [Drop]. *)
Theorem classify_total input secret :
  bytes_ok input →
  classify_tcp_client_hello input secret = Ok Claim ∨ classify_tcp_client_hello input secret = Ok Pass ∨
  (classify_tcp_client_hello input secret = Ok Incomplete ∧ zlen input < MAX_TCP_CLIENT_HELLO_WIRE_LEN).
Proof.
  intros Hb. unfold classify_tcp_client_hello.
  destruct (classify_outcome input secret Hb) as [->|[->|[->|[-> _] ] ] ];
    rewrite ?bool_decide_false by done; auto.
  rewrite bool_decide_true by done. rewrite Z.geb_leb. cbn [andb].
  destruct (Z.leb_spec MAX_TCP_CLIENT_HELLO_WIRE_LEN (zlen input)); auto.
Qed.

(** C24: A stream is claimed exactly when the handshake bytes it carries start
    with a ClientHello whose token verifies, and that ends within the first
    8 KiB of the stream. *)
Theorem classify_claim_iff input secret :
  bytes_ok input →
  classify_tcp_client_hello input secret = Ok Claim ↔ ∃ n, claimed input secret n.
Proof.
  intros Hb. rewrite <- (classify_stream_claim input (deframe input 0 0).2), <- classify_stream_eq by done.
  unfold classify_tcp_client_hello.
  destruct (classify_outcome input secret Hb) as [->|[->|[->|[-> _] ] ] ];
    rewrite ?bool_decide_false by done; try done.
  split; [|done]. by case_match.
Qed.

(** A verdict other than [Incomplete] does not change when more bytes of
    the stream arrive, so it does not depend on how the stream was cut into
    reads. *)
Theorem classify_stable p q secret v :
  bytes_ok (p ++ q) → classify_tcp_client_hello p secret = Ok v → v ≠ Incomplete →
  classify_tcp_client_hello (p ++ q) secret = Ok v.
Proof.
  intros Hpq Hc Hne. assert (bytes_ok p) as Hp by (by apply bytes_ok_app in Hpq as [? _]).
  pose proof (zlen_nonneg q) as Hq.
  assert (settled (classify_within_limit p secret) (classify_within_limit (p ++ q) secret)) as Hset.
  { rewrite !classify_stream_eq by done.
    destruct (deframe_ext p q 0 0) as [[-> (l' & v' & -> & _)]|[Hv ->] ]; [|by right].
    apply classify_stream_ext. }
  unfold classify_tcp_client_hello in *. destruct Hset as [E| ->].
  - (* undecided after 8 KiB *)
    rewrite E, bool_decide_true, Z.geb_leb in Hc by done. cbn [andb] in Hc.
    destruct (Z.leb_spec MAX_TCP_CLIENT_HELLO_WIRE_LEN (zlen p)) as [Hge|]; simplify_eq.
    destruct (classify_outcome (p ++ q) secret Hpq) as [Hcl|[->|[->|[-> _] ] ] ];
      rewrite ?bool_decide_false by done; try done.
    + exfalso. rewrite classify_stream_eq, classify_stream_claim in Hcl by done.
      destruct Hcl as [n Hn]. rewrite classify_stream_eq in E by done.
      rewrite (proj2 (classify_stream_claim p (deframe p 0 0).2 secret)) in E; [done|].
      exists n. by apply (claimed_within p q).
    + rewrite bool_decide_true, Z.geb_leb by done. rewrite (proj2 (Z.leb_le _ _)) by (zl; lia). done.
  - destruct (classify_outcome p secret Hp) as [Ec|[Ec|[Ec|[Ec _] ] ] ]; rewrite Ec in *;
      rewrite ?bool_decide_false in * by done; try done.
    rewrite bool_decide_true in * by done. rewrite Z.geb_leb in *. cbn [andb] in *.
    destruct (Z.leb_spec MAX_TCP_CLIENT_HELLO_WIRE_LEN (zlen p)); simplify_eq.
    by rewrite (proj2 (Z.leb_le _ _)) by (zl; lia).
Qed.

(** ** The client's side *)

(** A TLS record of the handshake type: version and payload. *)
Definition record_wire (r : Z * Z * bytes) : bytes :=
  [TLS_HANDSHAKE_CONTENT_TYPE; r.1.1; r.1.2] ++ to_be 2 (zlen r.2) ++ r.2.

Lemma deframe_record_wire r rest pos :
  zlen r.2 ≤ 65535 →
  deframe (record_wire r ++ rest) 0 pos =
    (run (length r.2) r.2 (pos + 5) ++ (deframe rest 0 (pos + 5 + zlen r.2)).1,
     (deframe rest 0 (pos + 5 + zlen r.2)).2).
Proof.
  destruct r as [[v1 v2] p]. cbn [fst snd]. intros Hp. pose proof (zlen_nonneg p).
  assert (∃ hi lo, to_be 2 (zlen p) = [hi; lo]) as (hi & lo & Eb) by (do 2 eexists; done).
  assert (from_be [hi; lo] = zlen p) as Ef by (rewrite <- Eb; apply from_be_to_be2; unfold u16_ok; lia).
  unfold record_wire. cbn [fst snd]. rewrite Eb. cbn [app]. rewrite deframe_record, Ef.
  change (TLS_HANDSHAKE_CONTENT_TYPE =? TLS_HANDSHAKE_CONTENT_TYPE) with true. cbv iota.
  rewrite (deframe_run (length p) (p ++ rest)) by (rewrite ?length_app; unfold zlen; lia).
  fold (zlen p). rewrite Z.sub_diag, drop_app_length. f_equal. f_equal.
  clear. generalize (pos + 5) as k. induction p as [|x p IH]; intros k; [done|]. simpl. by rewrite IH.
Qed.

Lemma deframe_records rs pos :
  Forall (λ r, zlen r.2 ≤ 65535) rs →
  (deframe (concat (map record_wire rs)) 0 pos).1.*1 = concat (map snd rs).
Proof.
  intros H. revert pos. induction H as [|r rs Hr _ IH]; intros pos; [done|].
  cbn [map concat]. rewrite deframe_record_wire by done. cbn [fst].
  rewrite fmap_app, run_fst, IH, firstn_all. done.
Qed.

(** A ClientHello with a valid token is claimed, however it is split into
    TLS records, when the records fit in 8 KiB. *)
Lemma client_hello_claimed rs ch extra secret :
  Forall (λ r, zlen r.2 ≤ 65535) rs → bytes_ok (concat (map record_wire rs)) →
  concat (map snd rs) = ch ++ extra → verify_legacy_session_id ch secret = Ok true →
  zlen (concat (map record_wire rs)) ≤ MAX_TCP_CLIENT_HELLO_WIRE_LEN →
  classify_tcp_client_hello (concat (map record_wire rs)) secret = Ok Claim.
Proof.
  intros Hrs Hb Ech Hv Hmax. set (wire := concat (map record_wire rs)) in *.
  unfold classify_tcp_client_hello. rewrite classify_stream_eq by done.
  rewrite (proj2 (classify_stream_claim wire (deframe wire 0 0).2 secret)); [by rewrite bool_decide_false|].
  pose proof (deframe_records rs 0 Hrs) as Ed. fold wire in Ed. rewrite Ech in Ed.
  exists (zlen ch). unfold claimed. cbv zeta. pose proof (zlen_nonneg ch).
  assert (zlen (deframe wire 0 0).1 = zlen ch + zlen extra) as Ll.
  { rewrite <- zlen_app, <- Ed. unfold zlen. by rewrite length_fmap. }
  pose proof (zlen_nonneg extra). split_and!; [lia|lia| |].
  - rewrite fmap_take, Ed. unfold zlen. rewrite Nat2Z.id, take_app_length. done.
  - eapply Z.le_trans; [|exact Hmax]. apply last_pos_upper; [apply zlen_nonneg|].
    apply Forall_take. eapply Forall_impl; [|apply deframe_pos]. intros ? ?. simpl in *. lia.
Qed.

(** A client is recognised.  When the client puts the token that
    [fill_legacy_session_id] computes into its ClientHello, the server claims
    the connection, however TLS splits the message into records, whatever
    follows it, provided the records end within 8 KiB.  The client's buffer
    must not start with the candidate tag by accident, since it is then left
    alone. *)
Theorem client_recognised ch sid sid' secret lay rs extra :
  client_hello_layout ch = Ok lay → zlen sid = LEGACY_SESSION_ID_LEN →
  candidate_session_id_tag (cl_random lay) secret ≠ Ok (sub sid 0 16) →
  fill_legacy_session_id ch sid secret = Ok sid' →
  concat (map snd rs) = with_session_id ch sid' ++ extra →
  Forall (λ r, zlen r.2 ≤ 65535) rs → bytes_ok (concat (map record_wire rs)) →
  zlen (concat (map record_wire rs)) ≤ MAX_TCP_CLIENT_HELLO_WIRE_LEN →
  classify_tcp_client_hello (concat (map record_wire rs)) secret = Ok Claim.
Proof.
  intros Hlay Hsid Hcand Hfill Ech Hrs Hb Hmax. pose proof (fill_verifies ch sid secret lay Hlay Hsid) as Hv.
  rewrite Hfill in Hv. destruct Hv as (_ & [[_ Hc]|Hv]); [done|].
  by apply (client_hello_claimed rs (with_session_id ch sid') extra).
Qed.
End Theorems.

(** ** Witnesses: a small ClientHello in three records *)
Section Witnesses.
Import Checksum.

Definition demo_hello : bytes :=
  [1; 0; 0; 70; 3; 3] ++ replicate 32 7 ++ [32] ++ zeros 32 ++ [9; 9; 9].
Definition demo_token : bytes :=
  match fill_legacy_session_id demo_hello (zeros 32) (secret 5) with Ok t => t | _ => [] end.
Definition demo_signed : bytes := with_session_id demo_hello demo_token.
Definition demo_records : list (Z * Z * bytes) :=
  [(3, 1, sub demo_signed 0 1); (3, 1, sub demo_signed 1 50); (3, 3, []);
   (3, 3, sub demo_signed 50 (zlen demo_signed) ++ [8; 8])].
Definition demo_wire : bytes := concat (map record_wire demo_records).

Lemma client_recognised_witness : classify_tcp_client_hello demo_wire (secret 5) = Ok Claim.
Proof.
  apply (client_recognised demo_hello (zeros 32) demo_token (secret 5) (mkLayout (replicate 32 7) 39)
    demo_records [8; 8]); [vm_compute; reflexivity..| |vm_compute; reflexivity|vm_compute; reflexivity| | |].
  - vm_compute. discriminate.
  - repeat (constructor; [decided|]). constructor.
  - decided.
  - decided.
Defined.

Lemma classify_claim_iff_witness :
  classify_tcp_client_hello demo_wire (secret 5) = Ok Claim ∧ ∃ n, claimed demo_wire (secret 5) n.
Proof.
  split; [vm_compute; reflexivity|].
  apply (classify_claim_iff demo_wire (secret 5)); [decided|vm_compute; reflexivity].
Defined.

End Witnesses.
