(* ===== verification/IpPacket.v ===== *)
(** * IPv4 addresses of packets ([slt-core/src/packet.rs]) and the source check
    of the router ([slt-server/src/router.rs])

    The server forwards a client's packet to its TUN device only when the
    packet carries the address that was assigned to the client as its source. *)

From stdpp Require Import base tactics option list numbers.
From Stdlib Require Import ZArith Lia.
From S2P Require Import Prelude.

Definition IPV4_MIN_HEADER_LEN : Z := 20.
Definition IPV4_ADDR_LEN : Z := 4.
Definition IPV4_SRC_ADDR_OFFSET : Z := 12.
Definition IPV4_DST_ADDR_OFFSET : Z := 16.

(** [Ipv4Addr] is its four octets. *)
Abbreviation Ipv4Addr := bytes (only parsing).

(** [extract_addr]; the indexing [packet[0]] is checked, so the result is the
    [Option] of the source or a panic. *)
Definition extract_addr (packet : bytes) (offset : Z) : res unit (option Ipv4Addr) :=
  if zlen packet <? IPV4_MIN_HEADER_LEN then Ok None else
  b0 ← index packet 0;
  let version := Z.shiftr b0 4 in
  if negb (version =? 4) then Ok None else
  let ihl := Z.land b0 0x0f * 4 in
  if (ihl <? IPV4_MIN_HEADER_LEN) || (zlen packet <? ihl) then Ok None else
  Ok (octets ← get_range packet offset (offset + IPV4_ADDR_LEN); try_array IPV4_ADDR_LEN octets).

Definition extract_src_ipv4 (packet : bytes) : res unit (option Ipv4Addr) :=
  extract_addr packet IPV4_SRC_ADDR_OFFSET.
Definition extract_dst_ipv4 (packet : bytes) : res unit (option Ipv4Addr) :=
  extract_addr packet IPV4_DST_ADDR_OFFSET.

(** [PacketRouter]; a session is represented by its assigned address. *)
Definition validate_src_ipv4 (assigned src_ip : Ipv4Addr) : bool := bool_decide (assigned = src_ip).

Definition validate_packet_src (assigned : Ipv4Addr) (packet : bytes) : res unit bool :=
  src ← extract_src_ipv4 packet;
  Ok (match src with
      | None => false
      | Some src_ip => validate_src_ipv4 assigned src_ip
      end).

(** ** What is extracted *)

(** The packet starts with an IPv4 header: version 4, a header length of five
    to fifteen words, and as many bytes. *)
Definition ipv4_header (packet : bytes) : Prop :=
  ∃ ihl, 5 ≤ ihl ≤ 15 ∧ nth 0 packet 0 = 64 + ihl ∧ ihl * 4 ≤ zlen packet.

Lemma version_ihl b :
  u8_ok b → Z.shiftr b 4 = b / 16 ∧ Z.land b 0x0f = b mod 16.
Proof.
  intros Hb. split; [by rewrite Z.shiftr_div_pow2 by lia|].
  change 0x0f with (Z.ones 4). by rewrite Z.land_ones by lia.
Qed.

Lemma extract_addr_spec packet offset :
  bytes_ok packet → 0 ≤ offset ≤ 16 →
  (ipv4_header packet ∧ extract_addr packet offset = Ok (Some (sub packet offset (offset + 4)))) ∨
  (¬ ipv4_header packet ∧ extract_addr packet offset = Ok None).
Proof.
  intros Hb Ho. unfold extract_addr, IPV4_MIN_HEADER_LEN, IPV4_ADDR_LEN, ipv4_header.
  destruct (Z.ltb_spec (zlen packet) 20) as [Hs|Hs].
  { right. split; [|done]. intros (ihl & ? & _ & ?). lia. }
  rewrite index_ok by lia. res_simpl. change (nth (Z.to_nat 0) packet 0) with (nth 0 packet 0).
  pose proof (bytes_ok_nth packet 0 Hb) as H0. destruct (version_ihl _ H0) as [-> ->].
  unfold u8_ok in H0. set (b := nth 0 packet 0) in *.
  pose proof (Z.div_mod b 16 ltac:(lia)) as D. pose proof (Z.mod_pos_bound b 16 ltac:(lia)) as M.
  destruct (Z.eqb_spec (b / 16) 4) as [Hv|Hv]; cbn [negb].
  2: { right. split; [|done]. intros (ihl & Hi & Hb0 & _). apply Hv.
       rewrite Hb0. symmetry. apply (Z.div_unique _ _ _ ihl); lia. }
  destruct (Z.ltb_spec (b mod 16 * 4) 20); cbn [orb].
  { right. split; [|done]. intros (ihl & Hi & Hb0 & _). lia. }
  destruct (Z.ltb_spec (zlen packet) (b mod 16 * 4)); cbn [orb].
  { right. split; [|done]. intros (ihl & Hi & Hb0 & ?). lia. }
  left. split; [exists (b mod 16); lia|].
  rewrite get_range_ok by lia. cbn [mbind option_bind]. unfold try_array.
  by rewrite zlen_sub, (proj2 (Z.eqb_eq _ _)) by lia.
Qed.

Lemma validate_packet_src_ok assigned packet :
  bytes_ok packet →
  ∃ ok, validate_packet_src assigned packet = Ok ok ∧
    (ok = true ↔ ipv4_header packet ∧ sub packet 12 16 = assigned).
Proof.
  intros Hb. unfold validate_packet_src, extract_src_ipv4, validate_src_ipv4, IPV4_SRC_ADDR_OFFSET.
  destruct (extract_addr_spec packet 12 Hb ltac:(lia)) as [[Hh ->]|[Hh ->] ]; res_simpl; eexists; (split; [done|]).
  - rewrite bool_decide_eq_true. naive_solver.
  - split; [done|]. naive_solver.
Qed.

(** ** Theorem *)

(** The source check admits exactly the packets that start with an IPv4
    header (version 4, header length of at least 20 bytes, all of it present)
    whose source field is the assigned address; it never reads out of range. *)
Theorem source_check_spec assigned packet :
  bytes_ok packet →
  (validate_packet_src assigned packet = Ok true ↔ ipv4_header packet ∧ sub packet 12 16 = assigned) ∧
  (validate_packet_src assigned packet = Ok true ∨ validate_packet_src assigned packet = Ok false).
Proof.
  intros Hb. destruct (validate_packet_src_ok assigned packet Hb) as (ok & -> & <-).
  destruct ok; naive_solver.
Qed.

