(* ===== verification/UdpIo.v ===== *)
(** * The UDP backends ([slt-core/src/transport/mod.rs] and
    [slt-core/src/transport/udp_qsp_io.rs])

    [UdpQspIo] collects packets of one size in a slab and hands them to the
    kernel in one transmit (GSO); the kernel cuts the slab into datagrams.  On
    receive the kernel may coalesce datagrams (GRO), which are split again and
    filtered by peer.  The theorems say that batching is invisible: the
    datagrams on the wire are the packets that were sent, in order, and the
    slab stays within what one transmit can carry.

    The sockets are the environment: a [Transmit] is either sent or fails. *)

From stdpp Require Import base tactics option list numbers.
From Stdlib Require Import ZArith Lia.
From S2P Require Import Prelude.

(** ** Splitting coalesced buffers *)

(** [(0..len).step_by(stride)] yields the multiples of [stride] below [len]. *)
Definition gro_datagram_ranges (len stride : Z) : list (Z * Z) :=
  let stride := Z.max stride 1 in
  (λ k, (k * stride, Z.min (k * stride + stride) len)) <$> seqZ 0 ((len + stride - 1) / stride).

(** ** [UdpQspIo] *)
Definition MAX_DATAGRAM : Z := 1500.
Definition MAX_UDP_GSO_PAYLOAD : Z := 65535.

(** Socket addresses are only compared. *)
Abbreviation SocketAddr := Z (only parsing).

Record Transmit := mkTransmit {
  tr_destination : SocketAddr;
  tr_contents : bytes;
  tr_segment_size : option Z;
}.

Record RecvMeta := mkMeta { meta_addr : SocketAddr; meta_len : Z; meta_stride : Z }.

(** [io_wire] is what the kernel has been given so far; [io_max_gso] is
    [state.max_gso_segments()]; the receive queue is created with the first
    batch, an absent one behaves as an empty one. *)
Record UdpQspIo := mkUdpIo {
  io_peer : SocketAddr;
  io_send_buf : bytes;
  io_send_segment_size : option Z;
  io_send_segments : Z;
  io_recv_queue : list bytes;
  io_max_gso : Z;
  io_wire : list Transmit;
}.

Definition UdpQspIo_new (max_gso : Z) (peer : SocketAddr) : UdpQspIo :=
  mkUdpIo peer [] None 0 [] max_gso [].

Definition io_set_peer (io : UdpQspIo) (peer : SocketAddr) : UdpQspIo :=
  mkUdpIo peer (io_send_buf io) (io_send_segment_size io) (io_send_segments io)
    (io_recv_queue io) (io_max_gso io) (io_wire io).

Definition set_slab (io : UdpQspIo) (buf : bytes) (size : option Z) (segments : Z) : UdpQspIo :=
  mkUdpIo (io_peer io) buf size segments (io_recv_queue io) (io_max_gso io) (io_wire io).

Definition clear_send_slab (io : UdpQspIo) : UdpQspIo := set_slab io [] None 0.

(** [flush_pending]; [try_send] is the final outcome of the socket for the
    transmit, once it did not block. *)
Definition flush_pending (io : UdpQspIo) (try_send : Transmit → option IoError)
    : UdpQspIo * res IoError unit :=
  if io_send_segments io =? 0 then (io, Ok tt) else
  let segment_size := if io_send_segments io >? 1 then io_send_segment_size io else None in
  let transmit := mkTransmit (io_peer io) (io_send_buf io) segment_size in
  match try_send transmit with
  | None =>
      (clear_send_slab (mkUdpIo (io_peer io) (io_send_buf io) (io_send_segment_size io)
         (io_send_segments io) (io_recv_queue io) (io_max_gso io) (io_wire io ++ [transmit])), Ok tt)
  | Some e => (io, Err e)
  end.

Definition max_gso_segments_for_size (socket_max_segments segment_size : Z) : Z :=
  let socket_max_segments := if socket_max_segments =? 0 then 1 else socket_max_segments in
  let payload_max_segments := MAX_UDP_GSO_PAYLOAD / segment_size in
  if payload_max_segments <? socket_max_segments then payload_max_segments else socket_max_segments.

Definition must_flush_before_append (io : UdpQspIo) (segment_size max_segments : Z) : bool :=
  if io_send_segments io =? 0 then false else
  negb (bool_decide (io_send_segment_size io = Some segment_size))
    || (io_send_segments io >=? max_segments).

Definition send_packet (io : UdpQspIo) (packet : bytes) (try_send : Transmit → option IoError)
    : UdpQspIo * res IoError unit :=
  let segment_size := zlen packet in
  if segment_size =? 0 then (io, Err InvalidInput) else
  if segment_size >? MAX_UDP_GSO_PAYLOAD then (io, Err InvalidInput) else
  let max_segments := max_gso_segments_for_size (io_max_gso io) segment_size in
  let '(io, r) := if must_flush_before_append io segment_size max_segments
                  then flush_pending io try_send else (io, Ok tt) in
  match r with
  | Ok _ =>
      let size := if io_send_segments io =? 0 then Some segment_size else io_send_segment_size io in
      let io := set_slab io (io_send_buf io ++ packet) size (io_send_segments io + 1) in
      if io_send_segments io >=? max_segments then flush_pending io try_send else (io, Ok tt)
  | Err e => (io, Err e)
  | Panic => (io, Panic)
  end.

Definition io_has_pending_flush (io : UdpQspIo) : bool := negb (io_send_segments io =? 0).

Definition discard_pending_send (io : UdpQspIo) : UdpQspIo * Z :=
  (clear_send_slab io, io_send_segments io).

(** *** Receiving *)
Fixpoint queue_ranges (buf : bytes) (ranges : list (Z * Z)) : res IoError (list bytes) :=
  match ranges with
  | [] => Ok []
  | (off, stop) :: ranges =>
      d ← slice buf off stop;
      ds ← queue_ranges buf ranges;
      Ok (d :: ds)
  end.

(** One batch: the metadata of each buffer and the buffer. *)
Fixpoint queue_peer_datagrams (peer : SocketAddr) (batch : list (RecvMeta * bytes))
    : res IoError (list bytes) :=
  match batch with
  | [] => Ok []
  | (meta, buf) :: batch =>
      here ← (if meta_addr meta =? peer
              then queue_ranges buf (gro_datagram_ranges (meta_len meta) (meta_stride meta))
              else Ok []);
      rest ← queue_peer_datagrams peer batch;
      Ok (here ++ rest)
  end.

Definition set_recv_queue (io : UdpQspIo) (queue : list bytes) : UdpQspIo :=
  mkUdpIo (io_peer io) (io_send_buf io) (io_send_segment_size io) (io_send_segments io) queue
    (io_max_gso io) (io_wire io).

(** [recv_packet] into a buffer of [room] bytes.  [batches] is what the socket
    will deliver; the datagram and the batches that are left are returned,
    [None] when the socket has nothing more. *)
Fixpoint recv_packet (io : UdpQspIo) (room : Z) (batches : list (list (RecvMeta * bytes)))
    : UdpQspIo * res IoError (option bytes) * list (list (RecvMeta * bytes)) :=
  match io_recv_queue io with
  | datagram :: queue =>
      let io := set_recv_queue io queue in
      if zlen datagram >? room then (io, Err InvalidData, batches) else (io, Ok (Some datagram), batches)
  | [] =>
      match batches with
      | [] => (io, Ok None, [])
      | batch :: batches =>
          match queue_peer_datagrams (io_peer io) batch with
          | Ok ds => recv_packet (set_recv_queue io ds) room batches
          | Err e => (io, Err e, batches)
          | Panic => (io, Panic, batches)
          end
      end
  end.

(** ** [PlainUdpQspIo] *)
Definition plain_send_packet (peer : SocketAddr) (packet : bytes) (send_to : Transmit → option IoError)
    : res IoError Transmit :=
  if bool_decide (packet = []) then Err InvalidInput else
  if zlen packet >? MAX_DATAGRAM then Err InvalidInput else
  let t := mkTransmit peer packet None in
  match send_to t with None => Ok t | Some e => Err e end.

(** ** Splitting is cutting *)
Definition split (stride : Z) (buf : bytes) : list bytes :=
  (λ r, sub buf r.1 r.2) <$> gro_datagram_ranges (zlen buf) stride.

Lemma ranges_step len s :
  0 < s ≤ len →
  gro_datagram_ranges len s =
    (0, s) :: ((λ r, (r.1 + s, r.2 + s)) <$> gro_datagram_ranges (len - s) s).
Proof.
  intros Hs. unfold gro_datagram_ranges. rewrite Z.max_l by lia. set (n := (len - s + s - 1) / s).
  assert ((len + s - 1) / s = n + 1) as ->.
  { unfold n. replace (len + s - 1) with (len - s + s - 1 + 1 * s) by lia. apply Z.div_add. lia. }
  assert (0 ≤ n) by (apply Z.div_pos; lia).
  rewrite seqZ_cons by lia. rewrite fmap_cons. f_equal; [f_equal; lia|].
  replace (Z.pred (n + 1)) with n by lia. change (Z.succ 0) with (1 + 0).
  rewrite <- (fmap_add_seqZ 1 0 n), <- !list_fmap_compose. apply list_fmap_ext.
  intros _ k _. unfold compose. cbn [fst snd]. f_equal; lia.
Qed.

Lemma split_app p rest : 0 < zlen p → split (zlen p) (p ++ rest) = p :: split (zlen p) rest.
Proof.
  intros Hp. pose proof (zlen_nonneg rest). unfold split. rewrite zlen_app, ranges_step by lia.
  replace (zlen p + zlen rest - zlen p) with (zlen rest) by lia. rewrite fmap_cons. cbn [fst snd].
  rewrite sub_app_l, sub_all by lia. f_equal. rewrite <- list_fmap_compose.
  apply list_fmap_ext. intros i [a b] Hi. unfold compose. cbn [fst snd].
  unfold gro_datagram_ranges in Hi. apply list_lookup_fmap_Some in Hi as (k & [= -> ->] & Hk).
  apply lookup_seqZ in Hk as [-> Hk]. assert (0 ≤ (0 + Z.of_nat i) * Z.max (zlen p) 1) by lia.
  rewrite sub_app_r; [f_equal; lia|lia|].
  pose proof (Z.div_mod (zlen rest + Z.max (zlen p) 1 - 1) (Z.max (zlen p) 1) ltac:(lia)).
  pose proof (Z.mod_pos_bound (zlen rest + Z.max (zlen p) 1 - 1) (Z.max (zlen p) 1) ltac:(lia)). nia.
Qed.

Lemma split_nil s : split s [] = [].
Proof.
  unfold split, gro_datagram_ranges. change (zlen []) with 0. rewrite Z.div_small by lia. done.
Qed.

Lemma split_short s buf : buf ≠ [] → zlen buf ≤ s → split s buf = [buf].
Proof.
  intros Hne Hs. assert (0 < zlen buf) by (destruct buf; [done|]; zl; pose proof (zlen_nonneg buf); lia).
  unfold split, gro_datagram_ranges. rewrite Z.max_l by lia.
  assert ((zlen buf + s - 1) / s = 1) as -> by (symmetry; apply (Z.div_unique _ _ _ (zlen buf - 1)); lia).
  change (seqZ 0 1) with [0]. cbn [fmap list_fmap fst snd]. by rewrite Z.min_r, sub_all by lia.
Qed.

(** Packets of one size are recovered from their concatenation. *)
Lemma split_concat s ps : 0 < s → Forall (λ p, zlen p = s) ps → split s (concat ps) = ps.
Proof.
  intros Hs H. induction H as [|p ps Hp _ IH]; [apply split_nil|]. simpl. rewrite <- Hp in *.
  by rewrite split_app, IH by lia.
Qed.

(** Every buffer is cut into its pieces, without loss. *)
Lemma split_cuts s buf :
  0 < s →
  concat (split s buf) = buf ∧ Forall (λ p, 0 < zlen p ≤ s) (split s buf).
Proof.
  intros Hs. remember (length buf) as n eqn:Hn. revert buf Hn.
  induction n as [n IH] using lt_wf_ind. intros buf ->.
  destruct (decide (buf = [])) as [->|Hne]; [rewrite split_nil; split; [done|constructor]|].
  assert (0 < zlen buf) by (destruct buf; [done|]; zl; pose proof (zlen_nonneg buf); lia).
  destruct (Z_le_gt_dec (zlen buf) s) as [Hle|Hgt].
  { rewrite split_short by done. simpl. rewrite app_nil_r. split; [done|]. repeat constructor; lia. }
  assert (zlen (take (Z.to_nat s) buf) = s) as L by (unfold zlen in *; rewrite length_take; lia).
  rewrite <- (take_drop (Z.to_nat s) buf).
  replace (split s (take (Z.to_nat s) buf ++ drop (Z.to_nat s) buf))
    with (take (Z.to_nat s) buf :: split s (drop (Z.to_nat s) buf))
    by (rewrite <- L at 2 4; rewrite split_app, L by lia; done).
  destruct (IH (length (drop (Z.to_nat s) buf))) with (buf := drop (Z.to_nat s) buf) as [E F].
  - rewrite length_drop. unfold zlen in *. lia.
  - done.
  - simpl. rewrite E. split; [done|]. constructor; [lia|done].
Qed.

(** ** Batching *)

(** The datagrams the kernel makes of a transmit. *)
Definition datagrams (t : Transmit) : list bytes :=
  match tr_segment_size t with
  | None => [tr_contents t]
  | Some s => split s (tr_contents t)
  end.

Definition sent_datagrams (io : UdpQspIo) : list bytes := concat (map datagrams (io_wire io)).

(** A transmit the kernel can take: at most 64 KiB and no more segments than
    the socket allows. *)
Definition transmit_ok (max_gso : Z) (t : Transmit) : Prop :=
  zlen (tr_contents t) ≤ MAX_UDP_GSO_PAYLOAD ∧ zlen (datagrams t) ≤ Z.max 1 max_gso.

(** The slab holds the packets [ps]. *)
Definition slab_ok (io : UdpQspIo) (ps : list bytes) : Prop :=
  io_send_buf io = concat ps ∧ io_send_segments io = zlen ps ∧
  (ps = [] ∧ io_send_segment_size io = None ∨
   ∃ s, ps ≠ [] ∧ io_send_segment_size io = Some s ∧ 0 < s ∧ Forall (λ p, zlen p = s) ps ∧
     s * zlen ps ≤ MAX_UDP_GSO_PAYLOAD ∧ zlen ps ≤ Z.max 1 (io_max_gso io)).

Lemma zlen_concat s (ps : list bytes) : Forall (λ p, zlen p = s) ps → zlen (concat ps) = s * zlen ps.
Proof.
  induction 1 as [|p ps Hp _ IH]; [unfold zlen; simpl; lia|].
  simpl. rewrite zlen_app, zlen_cons, IH, Hp. lia.
Qed.

Lemma flush_spec io ps f :
  slab_ok io ps →
  let '(io', r) := flush_pending io f in
  io_peer io' = io_peer io ∧ io_max_gso io' = io_max_gso io ∧
  match r with
  | Ok _ => slab_ok io' [] ∧ ∃ ts, io_wire io' = io_wire io ++ ts ∧ concat (map datagrams ts) = ps ∧
      Forall (λ t, tr_destination t = io_peer io ∧ transmit_ok (io_max_gso io) t) ts
  | Err e => io' = io ∧ ∃ t, f t = Some e
  | Panic => False
  end.
Proof.
  intros (Hb & Hn & Hs). unfold flush_pending. rewrite Hn.
  destruct (Z.eqb_spec (zlen ps) 0) as [E|Hne].
  { destruct ps; [|zl in E; pose proof (zlen_nonneg ps); lia]. split_and!; try done.
    exists []. by rewrite app_nil_r. }
  destruct Hs as [[-> _]|(s & Hps & Hsz & Hpos & Huni & Hmax & Hseg)]; [done|].
  rewrite Hb, Hsz. set (t := mkTransmit _ _ _). destruct (f t) as [e|] eqn:Ef; [by eauto 6|].
  split; [done|]. split; [done|]. split; [split_and!; [done|done|by left]|]. exists [t].
  assert (datagrams t = ps) as Hd.
  { unfold t, datagrams. cbn [tr_segment_size tr_contents]. rewrite Z.gtb_ltb.
    destruct (Z.ltb_spec 1 (zlen ps)); [by apply split_concat|].
    destruct ps as [|p [|q ps]]; [done| |zl in H; pose proof (zlen_nonneg ps); lia].
    simpl. by rewrite app_nil_r. }
  split_and!; [done|simpl; by rewrite app_nil_r|]. repeat constructor; [|by rewrite Hd].
  cbn [tr_contents t]. by rewrite (zlen_concat s).
Qed.

Lemma max_segments_bound g s :
  0 ≤ g → 0 < s ≤ MAX_UDP_GSO_PAYLOAD →
  1 ≤ max_gso_segments_for_size g s ≤ Z.max 1 g ∧ s * max_gso_segments_for_size g s ≤ MAX_UDP_GSO_PAYLOAD.
Proof.
  unfold max_gso_segments_for_size, MAX_UDP_GSO_PAYLOAD. intros Hg Hs.
  assert (1 ≤ 65535 / s) by (apply Z.div_le_lower_bound; lia).
  pose proof (Z.mul_div_le 65535 s ltac:(lia)). split_tests; split; try lia; nia.
Qed.

(** Appending to a slab that has room. *)
Lemma append_spec io ps p :
  slab_ok io ps → 0 < zlen p ≤ MAX_UDP_GSO_PAYLOAD → 0 ≤ io_max_gso io →
  let m := max_gso_segments_for_size (io_max_gso io) (zlen p) in
  (ps ≠ [] → io_send_segment_size io = Some (zlen p) ∧ zlen ps < m) →
  let size := if io_send_segments io =? 0 then Some (zlen p) else io_send_segment_size io in
  slab_ok (set_slab io (io_send_buf io ++ p) size (io_send_segments io + 1)) (ps ++ [p]).
Proof.
  intros (Hb & Hn & Hs) Hp Hg m Hroom. destruct (max_segments_bound (io_max_gso io) (zlen p) Hg Hp) as [Hm1 Hm2].
  fold m in Hm1, Hm2. pose proof (zlen_nonneg ps). unfold slab_ok. cbn [io_send_buf io_send_segments io_send_segment_size set_slab io_max_gso].
  rewrite Hb, Hn, concat_app, zlen_app, zlen_one. simpl. rewrite app_nil_r. split_and!; [done|done|right].
  exists (zlen p). destruct Hs as [[-> _]|(s & Hne & Hsz & _ & Huni & _)].
  - change (@zlen bytes []) with 0. simpl. split_and!; try done; try lia. by repeat constructor.
  - destruct (Hroom Hne) as [E Hlt]. rewrite Hsz in E. simplify_eq.
    destruct (Z.eqb_spec (zlen ps) 0) as [E0|_]; [destruct ps; [done|zl in E0; pose proof (zlen_nonneg ps); lia]|].
    split_and!; try done; try lia.
    + by destruct ps.
    + apply Forall_app. split; [done|]. by repeat constructor.
    + nia.
Qed.

(** Transmits [ts] have left for the peer, and the slab now holds [ps]. *)
Definition moved (io io' : UdpQspIo) (ts : list Transmit) (ps : list bytes) : Prop :=
  io_peer io' = io_peer io ∧ io_max_gso io' = io_max_gso io ∧ slab_ok io' ps ∧
  io_wire io' = io_wire io ++ ts ∧
  Forall (λ t, tr_destination t = io_peer io ∧ transmit_ok (io_max_gso io) t) ts.

Lemma moved_trans io1 io2 io3 ts ts' ps ps' :
  moved io1 io2 ts ps → moved io2 io3 ts' ps' → moved io1 io3 (ts ++ ts') ps'.
Proof.
  intros (Ep & Em & _ & Ew & Ht) (Ep' & Em' & Hs & Ew' & Ht'). unfold moved.
  rewrite Ep', Em', Ew', Ew, Ep, Em, app_assoc in *. split_and!; try done. by apply Forall_app.
Qed.

(** The flush before the packet is appended. *)
Lemma prepare_spec io ps (p : bytes) f :
  let m := max_gso_segments_for_size (io_max_gso io) (zlen p) in
  slab_ok io ps →
  let '(io', r) := if must_flush_before_append io (zlen p) m then flush_pending io f else (io, Ok ()) in
  ∃ ts ps', moved io io' ts ps' ∧ concat (map datagrams ts) ++ ps' = ps ∧
    match r with
    | Ok _ => ps' ≠ [] → io_send_segment_size io' = Some (zlen p) ∧ zlen ps' < m
    | Err e => ∃ t, f t = Some e
    | Panic => False
    end.
Proof.
  intros m Hok.
  assert (moved io io [] ps) as Hid by (unfold moved; rewrite app_nil_r; by repeat split; try apply Hok).
  destruct (must_flush_before_append io (zlen p) m) eqn:Em.
  - pose proof (flush_spec io ps f Hok) as Hf. destruct (flush_pending io f) as [io1 [[]|e|] ];
      destruct Hf as (E1 & E2 & Hf); [|destruct Hf as [-> Hf]|done].
    + destruct Hf as (Hok1 & ts & Ew & Ed & Ht). exists ts, []. unfold moved. rewrite app_nil_r.
      by split_and!.
    + by exists [], ps.
  - exists [], ps. split_and!; try done.
    intros Hne. unfold must_flush_before_append in Em. destruct Hok as (_ & Hn & _). rewrite Hn in Em.
    destruct (Z.eqb_spec (zlen ps) 0) as [E0|_];
      [destruct ps; [done|zl in E0; pose proof (zlen_nonneg ps); lia]|].
    apply orb_false_iff in Em as [E1 E2]. rewrite Z.geb_leb in E2. apply Z.leb_gt in E2.
    split; [|done]. by apply negb_false_iff, bool_decide_eq_true in E1.
Qed.

(** What one send does. *)
Lemma send_packet_spec io ps p f :
  slab_ok io ps → 0 < zlen p ≤ MAX_UDP_GSO_PAYLOAD → 0 ≤ io_max_gso io →
  let '(io', r) := send_packet io p f in
  ∃ ts ps', moved io io' ts ps' ∧
    match r with
    | Ok _ => concat (map datagrams ts) ++ ps' = ps ++ [p]
    | Err e => (∃ t, f t = Some e) ∧
        (concat (map datagrams ts) ++ ps' = ps ∨ concat (map datagrams ts) ++ ps' = ps ++ [p])
    | Panic => False
    end.
Proof.
  intros Hok Hp Hg. unfold send_packet. rewrite !Z.gtb_ltb.
  destruct (Z.eqb_spec (zlen p) 0); [lia|]. destruct (Z.ltb_spec MAX_UDP_GSO_PAYLOAD (zlen p)); [lia|].
  pose proof (prepare_spec io ps p f Hok) as Hfirst. cbv zeta in Hfirst |- *.
  set (m := max_gso_segments_for_size (io_max_gso io) (zlen p)) in *.
  destruct (if must_flush_before_append io (zlen p) m then _ else _) as [io1 [[]|e|] ];
    destruct Hfirst as (ts1 & ps1 & Hm1 & Ed1 & Hr1); [| |done].
  2: { exists ts1, ps1. split_and!; try done. by left. }
  pose proof Hm1 as (_ & E2 & Hok1 & _). rewrite <- E2 in Hg.
  pose proof (append_spec io1 ps1 p Hok1 Hp Hg) as Ha. rewrite E2 in Ha. specialize (Ha Hr1). cbv zeta in Ha.
  set (io2 := set_slab io1 _ _ _) in *. assert (moved io io2 ts1 (ps1 ++ [p])) as Hm2
    by (destruct Hm1 as (? & ? & ? & ? & ?); by repeat split; try apply Ha).
  destruct (io_send_segments io2 >=? m); [|exists ts1, (ps1 ++ [p]); by rewrite app_assoc, Ed1].
  pose proof (flush_spec io2 (ps1 ++ [p]) f Ha) as Hf.
  destruct (flush_pending io2 f) as [io3 [[]|e|] ]; destruct Hf as (E3 & E4 & Hf); [| |done].
  - destruct Hf as (Hok3 & ts & Ew & Ed & Ht). exists (ts1 ++ ts), []. split.
    + eapply moved_trans; [exact Hm2|]. by split_and!.
    + by rewrite map_app, concat_app, Ed, app_nil_r, app_assoc, Ed1.
  - destruct Hf as [-> Hf]. exists ts1, (ps1 ++ [p]). split_and!; try done. right. by rewrite app_assoc, Ed1.
Qed.

(** ** Theorems *)

(** Packets one after the other, then a flush. *)
Fixpoint send_packets (io : UdpQspIo) (packets : list bytes) (try_send : Transmit → option IoError)
    : UdpQspIo * res IoError unit :=
  match packets with
  | [] => flush_pending io try_send
  | p :: packets =>
      match send_packet io p try_send with
      | (io, Ok _) => send_packets io packets try_send
      | r => r
      end
  end.

Lemma send_packets_spec io ps packets :
  slab_ok io ps → 0 ≤ io_max_gso io → Forall (λ p, 0 < zlen p ≤ MAX_UDP_GSO_PAYLOAD) packets →
  let '(io', r) := send_packets io packets (λ _, None) in
  r = Ok tt ∧ ∃ ts, moved io io' ts [] ∧ concat (map datagrams ts) = ps ++ packets.
Proof.
  intros Hok Hg H. revert io ps Hok Hg. induction H as [|p packets Hp _ IH]; intros io ps Hok Hg; cbn [send_packets].
  - pose proof (flush_spec io ps (λ _, None) Hok) as Hf.
    destruct (flush_pending io (λ _, None)) as [io' [[]|e|] ]; destruct Hf as (? & ? & Hf); [|naive_solver|done].
    destruct Hf as (Hok' & ts & Ew & Ed & Ht). split; [done|]. exists ts. rewrite app_nil_r. by split_and!.
  - pose proof (send_packet_spec io ps p (λ _, None) Hok Hp Hg) as Hs.
    destruct (send_packet io p (λ _, None)) as [io1 [[]|e|] ];
      destruct Hs as (ts1 & ps1 & Hm1 & Hr); [|naive_solver|done].
    pose proof Hm1 as (_ & Em & Hok1 & _). rewrite <- Em in Hg. specialize (IH io1 ps1 Hok1 Hg).
    destruct (send_packets io1 packets (λ _, None)) as [io2 r]. destruct IH as (-> & ts & Hm & Ed).
    split; [done|]. exists (ts1 ++ ts). split; [by eapply moved_trans|].
    rewrite map_app, concat_app, Ed, app_assoc, Hr, <- app_assoc. done.
Qed.

(** Batching is invisible on the wire.  When the socket takes every
    transmit, the datagrams that leave a fresh backend are the packets it was
    given, one each and in order, all to the peer; no transmit is larger than
    64 KiB or has more segments than the socket allows, and nothing is left in
    the slab. *)
Theorem batching_transparent max_gso peer packets :
  0 ≤ max_gso → Forall (λ p, 0 < zlen p ≤ MAX_UDP_GSO_PAYLOAD) packets →
  let '(io, r) := send_packets (UdpQspIo_new max_gso peer) packets (λ _, None) in
  r = Ok tt ∧ sent_datagrams io = packets ∧ io_has_pending_flush io = false ∧
  Forall (λ t, tr_destination t = peer ∧ transmit_ok max_gso t) (io_wire io).
Proof.
  intros Hg Hp. assert (slab_ok (UdpQspIo_new max_gso peer) []) as Hok by (split_and!; try done; by left).
  pose proof (send_packets_spec _ [] packets Hok Hg Hp) as Hs.
  destruct (send_packets _ _ _) as [io r]. destruct Hs as (-> & ts & (_ & _ & (_ & Hn & _) & Ew & Ht) & Ed).
  unfold sent_datagrams, io_has_pending_flush. rewrite Ew, Hn. done.
Qed.

(** ** Receiving *)

(** What the kernel coalesces: datagrams of one size, the last one possibly
    shorter. *)
Definition coalesced (s : Z) (ds : list bytes) : Prop :=
  0 < s ∧ ∃ full last, ds = full ++ [last] ∧ Forall (λ d, zlen d = s) full ∧ 0 < zlen last ≤ s.

Lemma split_coalesced s ds : coalesced s ds → split s (concat ds) = ds.
Proof.
  intros (Hs & full & last & -> & Hf & Hl).
  induction Hf as [|d full Hd _ IH]; cbn [app concat].
  - rewrite app_nil_r. apply split_short; [intros ->; unfold zlen in Hl; simpl in Hl; lia|lia].
  - rewrite <- Hd in *. by rewrite split_app, IH by lia.
Qed.

Lemma queue_ranges_ok buf ranges :
  Forall (λ r, 0 ≤ r.1 ∧ r.1 ≤ r.2 ∧ r.2 ≤ zlen buf) ranges →
  queue_ranges buf ranges = Ok ((λ r, sub buf r.1 r.2) <$> ranges).
Proof.
  induction 1 as [|[a b] ranges Hr _ IH]; [done|]. cbn [queue_ranges fst snd] in *.
  rewrite slice_ok by lia. res_simpl. by rewrite IH.
Qed.

Lemma ranges_within len s :
  0 ≤ len → Forall (λ r, 0 ≤ r.1 ∧ r.1 ≤ r.2 ∧ r.2 ≤ len) (gro_datagram_ranges len s).
Proof.
  intros Hl. apply Forall_fmap, Forall_seqZ. intros k Hk. cbn.
  pose proof (Z.div_mod (len + Z.max s 1 - 1) (Z.max s 1) ltac:(lia)).
  pose proof (Z.mod_pos_bound (len + Z.max s 1 - 1) (Z.max s 1) ltac:(lia)). nia.
Qed.

(** A buffer that holds [ds] and then junk. *)
Lemma queue_ranges_coalesced s ds junk :
  coalesced s ds →
  queue_ranges (concat ds ++ junk) (gro_datagram_ranges (zlen (concat ds)) s) = Ok ds.
Proof.
  intros Hc. pose proof (zlen_nonneg (concat ds)). pose proof (zlen_nonneg junk).
  pose proof (ranges_within (zlen (concat ds)) s ltac:(lia)) as Hr.
  rewrite queue_ranges_ok.
  2: { eapply Forall_impl; [|exact Hr]. intros r. cbn. rewrite zlen_app. lia. }
  f_equal. etrans; [|exact (split_coalesced s ds Hc)]. unfold split. apply list_fmap_ext.
  intros i [a b] Hi. apply (Forall_lookup_1 _ _ _ _ Hr) in Hi. cbn in *. apply sub_app_l; lia.
Qed.

(** One receive buffer: where it came from, the stride, the datagrams it
    holds and the junk behind them. *)
Record arrival := mkArrival { arr_addr : Z; arr_stride : Z; arr_datagrams : list bytes; arr_junk : bytes }.

Definition arrival_entry (a : arrival) : RecvMeta * bytes :=
  (mkMeta (arr_addr a) (zlen (concat (arr_datagrams a))) (arr_stride a),
   concat (arr_datagrams a) ++ arr_junk a).

(** Splitting on receive undoes the kernel's coalescing: of a batch of
    buffers, each with coalesced datagrams of some peer, the session is given
    exactly the datagrams of its own peer, in order; no slice is out of
    range. *)
Theorem receive_splits_coalesced peer (batch : list arrival) :
  Forall (λ a, coalesced (arr_stride a) (arr_datagrams a)) batch →
  queue_peer_datagrams peer (map arrival_entry batch) =
    Ok (concat (map (λ a, if decide (arr_addr a = peer) then arr_datagrams a else []) batch)).
Proof.
  induction 1 as [|a batch Ha _ IH]; [done|]. cbn [map queue_peer_datagrams concat].
  unfold arrival_entry at 1. cbn [meta_addr meta_len meta_stride].
  destruct (Z.eqb_spec (arr_addr a) peer) as [E|E].
  - rewrite queue_ranges_coalesced by done. res_simpl. rewrite IH. res_simpl. by rewrite decide_True.
  - res_simpl. rewrite IH. res_simpl. by rewrite decide_False.
Qed.

(** ** What backends do to the wire *)

(** A backend sends to its peer only; a flush with nothing to send is nothing. *)
Definition io_step (io io' : UdpQspIo) : Prop :=
  io_peer io' = io_peer io ∧
  ∃ ts, io_wire io' = io_wire io ++ ts ∧ Forall (λ t, tr_destination t = io_peer io) ts.

Lemma io_step_refl io : io_step io io.
Proof. split; [done|]. exists []. by rewrite app_nil_r. Qed.

Lemma io_step_trans io1 io2 io3 : io_step io1 io2 → io_step io2 io3 → io_step io1 io3.
Proof.
  intros [E1 (t1 & W1 & F1)] [E2 (t2 & W2 & F2)]. split; [congruence|]. exists (t1 ++ t2).
  rewrite W2, W1, app_assoc. split; [done|]. apply Forall_app. by rewrite E1 in F2.
Qed.

Lemma flush_pending_step io socket :
  io_step io (flush_pending io socket).1 ∧ (flush_pending io socket).2 ≠ Panic ∧
  (io_send_segments io = 0 → (flush_pending io socket).1 = io).
Proof.
  unfold flush_pending. destruct (Z.eqb_spec (io_send_segments io) 0); cbn; [by split_and!; [apply io_step_refl|..] |].
  destruct (socket _); cbn; split_and!; try done; [apply io_step_refl|].
  split; [done|]. eexists [_]. split; [done|]. by constructor.
Qed.

Lemma send_packet_step io packet socket :
  io_step io (send_packet io packet socket).1 ∧ (send_packet io packet socket).2 ≠ Panic.
Proof.
  unfold send_packet. case_match; [by split; [apply io_step_refl|] |].
  case_match; [by split; [apply io_step_refl|] |].
  match goal with |- context [if ?b then flush_pending io socket else _] => set (flush := b) end.
  assert (io_step io (if flush then flush_pending io socket else (io, Ok tt)).1 ∧
    (if flush then flush_pending io socket else (io, Ok tt)).2 ≠ Panic) as [H1 H2].
  { destruct flush; [|by split; [apply io_step_refl|] ]. destruct (flush_pending_step io socket) as (? & ? & _). done. }
  destruct (if flush then _ else _) as [io1 r]. cbn [fst snd] in *. destruct r as [?|e|]; [|done|done].
  set (io2 := set_slab _ _ _ _). assert (io_step io io2) as H3 by (apply (io_step_trans _ io1); [done|apply (io_step_refl io1)]).
  case_match; [|by split]. destruct (flush_pending_step io2 socket) as (? & ? & _).
  split; [by eapply io_step_trans|done].
Qed.
