(* ===== verification/Config.v ===== *)
(** * Configuration ([slt-core/src/config/], [slt-core/src/types/*_config.rs])

    The parsed configuration of client and server and its semantic checks;
    parsing TOML is outside.  A configuration is accepted exactly when it
    satisfies a declarative specification, and an accepted one leaves room for
    the largest packet in an Ethernet frame.

    Durations are nanoseconds, strings are their bytes. *)

From stdpp Require Import base tactics option list numbers gmap sets strings.
From Stdlib Require Import ZArith Lia.
From S2P Require Import Prelude Cid Framing Payloads PacketNumber ReplayWindow PacketHeader Keys QspSession QspSafety IpPacket.

Definition from_millis (ms : Z) : Z := ms * 1000000.
Definition from_secs (s : Z) : Z := from_millis (s * 1000).
Definition from_mins (m : Z) : Z := from_secs (m * 60).
Definition as_millis (d : Z) : Z := d / 1000000.

(** ** mod.rs *)
Definition MAX_TIMEOUT : Z := from_mins 60.
Definition MIN_INTERVAL : Z := from_millis 1.
Definition ETHERNET_IP_MTU : Z := 1500.
Definition MAX_TUN_MTU : Z := 1406.

Inductive ConfigError :=
  | InvalidTunMtu (tun_mtu max_tun_mtu : Z)
  | InvalidPingInterval (ping_min ping_max : Z)
  | InvalidReconnectInterval (reconnect_min reconnect_max : Z)
  | IntervalTooSmall (field : string) (value min : Z)
  | EmptyHostname
  | ZeroPort (field : string)
  | EmptyTunName
  | InvalidTunPrefix (tun_prefix : Z)
  | ClientTunIpMismatch (tun_ipv4 assigned_ipv4 : Ipv4Addr)
  | ClientOutsideTunSubnet (assigned_ipv4 tun_ipv4 : Ipv4Addr) (tun_prefix : Z)
  | ClientUsesTunAddress (assigned_ipv4 : Ipv4Addr)
  | DuplicateClientId (client_id : bytes)
  | DuplicateAssignedIpv4 (assigned_ipv4 : Ipv4Addr)
  | ZeroSessionQueueSize
  | ZeroMaxAuthInflight
  | ZeroTcpConnectionCap
  | ZeroUdpNatMaxEntries
  | EmptyUdpQspAllowedCiphers
  | RequireUdpNeedsUpgrade
  | ZeroTimeout (field : string)
  | TimeoutTooLarge (field : string) (value max : Z).

Abbreviation checked := (res ConfigError unit) (only parsing).

(** [if bad { return Err(e) }] *)
Definition reject_if (bad : bool) (e : ConfigError) : checked := if bad then Err e else Ok tt.

(** ** defaults.rs *)
Definition DEFAULT_TUN_MTU : Z := 1186.
Definition DEFAULT_SESSION_QUEUE_SIZE : Z := 1024.
Definition DEFAULT_MAX_AUTH_INFLIGHT : Z := 128.
Definition DEFAULT_UDP_NAT_MAX_ENTRIES : Z := 1024.
Definition DEFAULT_PING_MIN : Z := from_secs 10.
Definition DEFAULT_PING_MAX : Z := from_secs 30.
Definition DEFAULT_AUTH_TIMEOUT : Z := from_secs 10.
Definition DEFAULT_TCP_WRITE_TIMEOUT : Z := from_secs 10.
Definition DEFAULT_IDLE_TIMEOUT : Z := from_mins 5.
Definition DEFAULT_UDP_LIVENESS_TIMEOUT : Z := from_secs 90.
Definition DEFAULT_METRICS_INTERVAL : Z := from_mins 5.
Definition DEFAULT_TCP_CLASSIFICATION_TIMEOUT : Z := from_mins 1.
Definition DEFAULT_REGISTER_TIMEOUT : Z := from_secs 10.
Definition DEFAULT_QUIC_DISCOVERY_TIMEOUT : Z := from_secs 15.
Definition DEFAULT_RECONNECT_MIN : Z := from_millis 200.
Definition DEFAULT_RECONNECT_MAX : Z := from_secs 5.

(** ** validate.rs *)
Definition validate_interval (field : string) (value : Z) : checked :=
  reject_if (value <? MIN_INTERVAL) (IntervalTooSmall field value MIN_INTERVAL).

Definition validate_timeout (field : string) (value : Z) : checked :=
  _ ← reject_if (value =? 0) (ZeroTimeout field);
  reject_if (value >? MAX_TIMEOUT) (TimeoutTooLarge field value MAX_TIMEOUT).

Definition validate_ping_interval (ping_min ping_max : Z) : checked :=
  _ ← validate_interval "ping_min" ping_min;
  _ ← validate_interval "ping_max" ping_max;
  reject_if (ping_min >? ping_max) (InvalidPingInterval ping_min ping_max).

(** ** tun_config.rs *)
Record TunConfig := mkTunConfig {
  tun_name : bytes;
  tun_mtu : Z;
  tun_ipv4 : Ipv4Addr;
  tun_prefix : Z;
}.

Definition TunConfig_default : TunConfig := mkTunConfig (bytes_of_string "tun0") DEFAULT_TUN_MTU [10; 10; 0; 1] 24.

Definition TunConfig_validate (c : TunConfig) : checked :=
  _ ← reject_if (bool_decide (tun_name c = [])) EmptyTunName;
  _ ← reject_if ((tun_mtu c =? 0) || (tun_mtu c >? MAX_TUN_MTU)) (InvalidTunMtu (tun_mtu c) MAX_TUN_MTU);
  reject_if ((tun_prefix c =? 0) || (tun_prefix c >? 32)) (InvalidTunPrefix (tun_prefix c)).

(** [u32::MAX << n] drops the bits beyond 32. *)
Definition ipv4_network_bits (addr : Ipv4Addr) (prefix : Z) : Z :=
  let bits := from_be addr in
  let mask := if prefix =? 0 then 0
              else if prefix <=? 32 then (Z.shiftl (2 ^ 32 - 1) (32 - prefix)) mod 2 ^ 32
              else 2 ^ 32 - 1 in
  Z.land bits mask.

Definition contains_ipv4 (c : TunConfig) (addr : Ipv4Addr) : bool :=
  ipv4_network_bits addr (tun_prefix c) =? ipv4_network_bits (tun_ipv4 c) (tun_prefix c).

(** ** client_config.rs *)

(** [IpAddr] of the override is only handed on. *)
Record ClientNetworkConfig := mkClientNetwork { hostname : bytes; port : Z; ip_override : option bytes }.

Definition ClientNetworkConfig_validate (c : ClientNetworkConfig) : checked :=
  _ ← reject_if (bool_decide (hostname c = [])) EmptyHostname;
  reject_if (port c =? 0) (ZeroPort "network.port").

Record ClientIdentity := mkIdentity {
  client_id : bytes;
  shared_secret : bytes;
  assigned_ipv4 : Ipv4Addr;
  privkey_ed25519 : bytes;
}.

Inductive ClientUdpQspCipher := CAuto | CAes128Gcm | CChaCha20Poly1305.

#[global] Instance ClientUdpQspCipher_eq_dec : EqDecision ClientUdpQspCipher.
Proof. solve_decision. Defined.

Definition ClientUdpQspCipher_select (c : ClientUdpQspCipher) (aes_gcm_accelerated : bool) : CipherSuite :=
  match c with
  | CAuto => if aes_gcm_accelerated then Aes128Gcm else ChaCha20Poly1305
  | CChaCha20Poly1305 => ChaCha20Poly1305
  | CAes128Gcm => Aes128Gcm
  end.

Record ClientTimingConfig := mkClientTiming {
  ct_ping_min : Z;
  ct_ping_max : Z;
  ct_auth_timeout : Z;
  ct_tcp_write_timeout : Z;
  ct_register_timeout : Z;
  ct_quic_discovery_timeout : Z;
  ct_udp_liveness_timeout : Z;
  ct_idle_timeout : Z;
  ct_metrics_interval : Z;
  ct_reconnect_min : Z;
  ct_reconnect_max : Z;
}.

Definition ClientTimingConfig_default : ClientTimingConfig :=
  mkClientTiming DEFAULT_PING_MIN DEFAULT_PING_MAX DEFAULT_AUTH_TIMEOUT DEFAULT_TCP_WRITE_TIMEOUT
    DEFAULT_REGISTER_TIMEOUT DEFAULT_QUIC_DISCOVERY_TIMEOUT DEFAULT_UDP_LIVENESS_TIMEOUT
    DEFAULT_IDLE_TIMEOUT DEFAULT_METRICS_INTERVAL DEFAULT_RECONNECT_MIN DEFAULT_RECONNECT_MAX.

Definition ClientTimingConfig_validate (c : ClientTimingConfig) : checked :=
  _ ← validate_ping_interval (ct_ping_min c) (ct_ping_max c);
  _ ← validate_interval "reconnect_min" (ct_reconnect_min c);
  _ ← validate_interval "reconnect_max" (ct_reconnect_max c);
  _ ← reject_if (ct_reconnect_min c >? ct_reconnect_max c)
        (InvalidReconnectInterval (ct_reconnect_min c) (ct_reconnect_max c));
  _ ← validate_timeout "auth_timeout" (ct_auth_timeout c);
  _ ← validate_timeout "tcp_write_timeout" (ct_tcp_write_timeout c);
  _ ← validate_timeout "register_timeout" (ct_register_timeout c);
  _ ← validate_timeout "quic_discovery_timeout" (ct_quic_discovery_timeout c);
  _ ← validate_timeout "udp_liveness_timeout" (ct_udp_liveness_timeout c);
  _ ← validate_timeout "idle_timeout" (ct_idle_timeout c);
  validate_timeout "metrics_interval" (ct_metrics_interval c).

(** ** client.rs; the TLS material is only handed on to the TLS library. *)
Record ClientConfig := mkClientConfig {
  cc_network : ClientNetworkConfig;
  cc_identity : ClientIdentity;
  cc_tun : TunConfig;
  cc_cipher : ClientUdpQspCipher;
  cc_enable_upgrade : bool;
  cc_require_udp : bool;
  cc_timing : ClientTimingConfig;
}.

Definition ClientConfig_validate (c : ClientConfig) : checked :=
  _ ← ClientNetworkConfig_validate (cc_network c);
  _ ← TunConfig_validate (cc_tun c);
  _ ← reject_if (negb (bool_decide (tun_ipv4 (cc_tun c) = assigned_ipv4 (cc_identity c))))
        (ClientTunIpMismatch (tun_ipv4 (cc_tun c)) (assigned_ipv4 (cc_identity c)));
  _ ← ClientTimingConfig_validate (cc_timing c);
  reject_if (cc_require_udp c && negb (cc_enable_upgrade c)) RequireUdpNeedsUpgrade.

(** ** server_config.rs; of a [SocketAddr] the checks look at the port. *)
Record ServerNetworkConfig := mkServerNetwork {
  listen_tcp_port : Z;
  listen_udp_port : Z;
  nginx_tcp_upstream_port : Z;
  nginx_udp_upstream_port : Z;
}.

Definition ServerNetworkConfig_validate (c : ServerNetworkConfig) : checked :=
  _ ← reject_if (listen_tcp_port c =? 0) (ZeroPort "network.listen_tcp");
  _ ← reject_if (listen_udp_port c =? 0) (ZeroPort "network.listen_udp");
  _ ← reject_if (nginx_tcp_upstream_port c =? 0) (ZeroPort "network.nginx_tcp_upstream");
  reject_if (nginx_udp_upstream_port c =? 0) (ZeroPort "network.nginx_udp_upstream").

Record ServerClient := mkServerClient {
  sc_client_id : bytes;
  sc_pubkey_ed25519 : bytes;
  sc_assigned_ipv4 : Ipv4Addr;
  sc_enabled : bool;
}.

Inductive ServerUdpQspCipher := SAes128Gcm | SChaCha20Poly1305.
Definition ServerUdpQspCipher_suite (c : ServerUdpQspCipher) : CipherSuite :=
  match c with SAes128Gcm => Aes128Gcm | SChaCha20Poly1305 => ChaCha20Poly1305 end.

Definition ServerUdpQspConfig_validate (allowed_ciphers : list ServerUdpQspCipher) : checked :=
  reject_if (match allowed_ciphers with [] => true | _ => false end) EmptyUdpQspAllowedCiphers.
Definition ServerUdpQspConfig_allows (allowed_ciphers : list ServerUdpQspCipher) (cipher : CipherSuite) : bool :=
  existsb (λ allowed, bool_decide (ServerUdpQspCipher_suite allowed = cipher)) allowed_ciphers.

Record ServerTimingConfig := mkServerTiming {
  st_ping_min : Z;
  st_ping_max : Z;
  st_auth_timeout : Z;
  st_tcp_write_timeout : Z;
  st_udp_liveness_timeout : Z;
  st_idle_timeout : Z;
  st_metrics_interval : Z;
  st_tcp_classification_timeout : Z;
}.

Definition ServerTimingConfig_default : ServerTimingConfig :=
  mkServerTiming DEFAULT_PING_MIN DEFAULT_PING_MAX DEFAULT_AUTH_TIMEOUT DEFAULT_TCP_WRITE_TIMEOUT
    DEFAULT_UDP_LIVENESS_TIMEOUT DEFAULT_IDLE_TIMEOUT DEFAULT_METRICS_INTERVAL
    DEFAULT_TCP_CLASSIFICATION_TIMEOUT.

Definition ServerTimingConfig_validate (c : ServerTimingConfig) : checked :=
  _ ← validate_ping_interval (st_ping_min c) (st_ping_max c);
  _ ← validate_timeout "auth_timeout" (st_auth_timeout c);
  _ ← validate_timeout "tcp_write_timeout" (st_tcp_write_timeout c);
  _ ← validate_timeout "udp_liveness_timeout" (st_udp_liveness_timeout c);
  _ ← validate_timeout "idle_timeout" (st_idle_timeout c);
  _ ← validate_timeout "metrics_interval" (st_metrics_interval c);
  validate_timeout "tcp_classification_timeout" (st_tcp_classification_timeout c).

(** ** server.rs *)
Definition DEFAULT_TCP_CONNECTIONS_PER_WORKER : Z := 512.

(** [parallelism]: [thread::available_parallelism()], [None] on error. *)
Definition default_tcp_connection_cap (parallelism : option Z) : Z :=
  Z.min (default 1 parallelism * DEFAULT_TCP_CONNECTIONS_PER_WORKER) u64_max.

Record ServerConfig := mkServerConfig {
  sv_server_secret : bytes;
  sv_network : ServerNetworkConfig;
  sv_tun : TunConfig;
  sv_timing : ServerTimingConfig;
  sv_allowed_ciphers : list ServerUdpQspCipher;
  sv_udp_nat_max_entries : Z;
  sv_session_queue_size : Z;
  sv_max_auth_inflight : Z;
  sv_tcp_connection_cap : Z;
  sv_clients : list ServerClient;
}.

(** The loop over the clients with the two sets of what was seen. *)
Fixpoint validate_clients (tun : TunConfig) (clients : list ServerClient) (ids ips : gset bytes) : checked :=
  match clients with
  | [] => Ok tt
  | client :: clients =>
      let ip := sc_assigned_ipv4 client in
      _ ← reject_if (bool_decide (ip = tun_ipv4 tun)) (ClientUsesTunAddress ip);
      _ ← reject_if (negb (contains_ipv4 tun ip)) (ClientOutsideTunSubnet ip (tun_ipv4 tun) (tun_prefix tun));
      _ ← reject_if (bool_decide (sc_client_id client ∈ ids)) (DuplicateClientId (sc_client_id client));
      _ ← reject_if (bool_decide (ip ∈ ips)) (DuplicateAssignedIpv4 ip);
      validate_clients tun clients ({[sc_client_id client]} ∪ ids) ({[ip]} ∪ ips)
  end.

Definition ServerConfig_validate (c : ServerConfig) : checked :=
  _ ← ServerNetworkConfig_validate (sv_network c);
  _ ← TunConfig_validate (sv_tun c);
  _ ← validate_clients (sv_tun c) (sv_clients c) ∅ ∅;
  _ ← ServerTimingConfig_validate (sv_timing c);
  _ ← ServerUdpQspConfig_validate (sv_allowed_ciphers c);
  _ ← reject_if (sv_session_queue_size c =? 0) ZeroSessionQueueSize;
  _ ← reject_if (sv_max_auth_inflight c =? 0) ZeroMaxAuthInflight;
  _ ← reject_if (sv_tcp_connection_cap c =? 0) ZeroTcpConnectionCap;
  reject_if (sv_udp_nat_max_entries c =? 0) ZeroUdpNatMaxEntries.

(** ** What the checks accept *)

(** Checks in sequence succeed together. *)
Lemma checked_bind (m k : checked) : (_ ← m; k) = Ok tt ↔ m = Ok tt ∧ k = Ok tt.
Proof. destruct m as [[]|e|]; res_simpl; naive_solver. Qed.

Lemma reject_if_ok bad e : reject_if bad e = Ok tt ↔ bad = false.
Proof. destruct bad; naive_solver. Qed.

Definition interval_ok (d : Z) : Prop := MIN_INTERVAL ≤ d.
Definition timeout_ok (d : Z) : Prop := d ≠ 0 ∧ d ≤ MAX_TIMEOUT.

Lemma validate_interval_ok field d : validate_interval field d = Ok tt ↔ interval_ok d.
Proof. unfold validate_interval, interval_ok. rewrite reject_if_ok. lia. Qed.

Lemma validate_timeout_ok field d : validate_timeout field d = Ok tt ↔ timeout_ok d.
Proof. unfold validate_timeout, timeout_ok. rewrite checked_bind, !reject_if_ok. lia. Qed.

Lemma validate_ping_ok lo hi : validate_ping_interval lo hi = Ok tt ↔ interval_ok lo ∧ lo ≤ hi.
Proof.
  unfold validate_ping_interval. rewrite !checked_bind, !validate_interval_ok, reject_if_ok.
  unfold interval_ok. lia.
Qed.

Record tun_ok (c : TunConfig) : Prop := mkTunOk {
  tk_name : tun_name c ≠ [];
  tk_mtu : tun_mtu c ≠ 0 ∧ tun_mtu c ≤ MAX_TUN_MTU;
  tk_prefix : tun_prefix c ≠ 0 ∧ tun_prefix c ≤ 32;
}.

Lemma TunConfig_validate_ok c : TunConfig_validate c = Ok tt ↔ tun_ok c.
Proof.
  unfold TunConfig_validate. rewrite !checked_bind, !reject_if_ok, bool_decide_eq_false, !orb_false_iff.
  split; [intros (? & ? & ?); constructor; try done; lia|]. intros [? ? ?]. split_and!; try done; lia.
Qed.

(** *** Subnets *)

(** Addresses as numbers. *)
Definition addr_ok (a : Ipv4Addr) : Prop := bytes_ok a ∧ zlen a = 4.

Lemma addr_range a : addr_ok a → 0 ≤ from_be a < 2 ^ 32.
Proof. intros [Hb Hl]. pose proof (from_be_bound a Hb) as H. rewrite Hl in H. lia. Qed.

(** The mask has ones in the first [p] bits. *)
Lemma network_mask p : 1 ≤ p ≤ 32 → (Z.shiftl (2 ^ 32 - 1) (32 - p)) mod 2 ^ 32 = Z.shiftl (Z.ones p) (32 - p).
Proof.
  intros Hp. rewrite !Z.shiftl_mul_pow2 by lia. rewrite Z.ones_equiv.
  assert (2 ^ 32 = 2 ^ p * 2 ^ (32 - p)) as E by (rewrite <- Z.pow_add_r by lia; f_equal; lia).
  assert (0 < 2 ^ (32 - p)) by lia. assert (2 ≤ 2 ^ p) by (change 2 with (2 ^ 1) at 1; apply Z.pow_le_mono_r; lia).
  symmetry. apply (Z.mod_unique _ _ (2 ^ (32 - p) - 1)); [left|]; rewrite E; nia.
Qed.

Lemma network_bits a p :
  addr_ok a → 1 ≤ p ≤ 32 → ipv4_network_bits a p = Z.shiftl (Z.shiftr (from_be a) (32 - p)) (32 - p).
Proof.
  intros Ha%addr_range Hp. unfold ipv4_network_bits.
  rewrite (proj2 (Z.eqb_neq p 0)), (proj2 (Z.leb_le p 32)), network_mask by lia.
  apply Z.bits_inj'. intros i Hi. rewrite Z.land_spec, !Z.shiftl_spec by lia.
  destruct (Z.ltb_spec i (32 - p)).
  { by rewrite !(Z.testbit_neg_r _ (i - (32 - p))), andb_false_r by lia. }
  rewrite Z.shiftr_spec by lia. replace (i - (32 - p) + (32 - p)) with i by lia.
  rewrite Z.testbit_ones_nonneg by lia. destruct (Z.ltb_spec (i - (32 - p)) p); [apply andb_true_r|].
  rewrite andb_false_r. assert (2 ^ 32 ≤ 2 ^ i) by (apply Z.pow_le_mono_r; lia).
  rewrite Z.testbit_eqb, Z.div_small by lia. done.
Qed.

(** Two addresses are in one subnet when they agree up to the host part. *)
Definition same_subnet (p : Z) (a b : Ipv4Addr) : Prop := from_be a / 2 ^ (32 - p) = from_be b / 2 ^ (32 - p).

Lemma contains_ipv4_iff c a :
  tun_ok c → 0 ≤ tun_prefix c → addr_ok (tun_ipv4 c) → addr_ok a →
  contains_ipv4 c a = true ↔ same_subnet (tun_prefix c) a (tun_ipv4 c).
Proof.
  intros [_ _ Hp] H0 Ht Ha. unfold contains_ipv4, same_subnet. rewrite Z.eqb_eq, !network_bits by (done || lia).
  rewrite !Z.shiftl_mul_pow2, !Z.shiftr_div_pow2 by lia. split; [|by intros ->].
  apply Z.mul_cancel_r. lia.
Qed.

(** *** Clients *)

(** The client of a configuration with TUN settings [tun] and no other client. *)
Definition client_ok (tun : TunConfig) (c : ServerClient) : Prop :=
  sc_assigned_ipv4 c ≠ tun_ipv4 tun ∧ contains_ipv4 tun (sc_assigned_ipv4 c) = true.

Lemma validate_clients_ok tun clients ids ips :
  validate_clients tun clients ids ips = Ok tt ↔
  Forall (client_ok tun) clients ∧
  (NoDup (map sc_client_id clients) ∧ Forall (λ c, sc_client_id c ∉ ids) clients) ∧
  (NoDup (map sc_assigned_ipv4 clients) ∧ Forall (λ c, sc_assigned_ipv4 c ∉ ips) clients).
Proof.
  revert ids ips. induction clients as [|c clients IH]; intros ids ips; cbn [validate_clients map].
  { repeat split; constructor. }
  rewrite !checked_bind, !reject_if_ok, !bool_decide_eq_false, negb_false_iff, IH.
  rewrite !NoDup_cons, !Forall_cons, !Forall_forall. unfold client_ok.
  setoid_rewrite list_elem_of_In. setoid_rewrite in_map_iff. setoid_rewrite not_elem_of_union.
  setoid_rewrite not_elem_of_singleton. split.
  - intros (? & ? & ? & ? & ? & (? & Hid) & ? & Hip). split_and!; try done.
    + intros (c' & E & Hin). by destruct (Hid c' Hin).
    + intros c' Hin. by apply Hid.
    + intros (c' & E & Hin). by destruct (Hip c' Hin).
    + intros c' Hin. by apply Hip.
  - intros (((? & ?) & ?) & ((Hid & ?) & ? & ?) & (Hip & ?) & ? & ?).
    split_and!; try done; intros c' Hin; (split; [|auto]); intros E; [apply Hid|apply Hip]; eauto.
Qed.

Record server_timing_ok (c : ServerTimingConfig) : Prop := mkServerTimingOk {
  sto_ping : interval_ok (st_ping_min c) ∧ st_ping_min c ≤ st_ping_max c;
  sto_timeouts : Forall timeout_ok [st_auth_timeout c; st_tcp_write_timeout c; st_udp_liveness_timeout c;
    st_idle_timeout c; st_metrics_interval c; st_tcp_classification_timeout c];
}.

Lemma ServerTimingConfig_validate_ok c : ServerTimingConfig_validate c = Ok tt ↔ server_timing_ok c.
Proof.
  unfold ServerTimingConfig_validate. rewrite !checked_bind, validate_ping_ok, !validate_timeout_ok.
  split; [intros (? & ? & ? & ? & ? & ? & ?); constructor; [done|by rewrite !Forall_cons, Forall_nil]|].
  intros [? H]. rewrite !Forall_cons in H. naive_solver.
Qed.

(** What a server configuration has to satisfy. *)
Record server_config_ok (c : ServerConfig) : Prop := mkServerConfigOk {
  sco_ports : Forall (λ p, p ≠ 0) [listen_tcp_port (sv_network c); listen_udp_port (sv_network c);
    nginx_tcp_upstream_port (sv_network c); nginx_udp_upstream_port (sv_network c)];
  sco_tun : tun_ok (sv_tun c);
  sco_subnet : ∀ k, k ∈ sv_clients c →
    sc_assigned_ipv4 k ≠ tun_ipv4 (sv_tun c) ∧
    same_subnet (tun_prefix (sv_tun c)) (sc_assigned_ipv4 k) (tun_ipv4 (sv_tun c));
  sco_ids : NoDup (map sc_client_id (sv_clients c));
  sco_ips : NoDup (map sc_assigned_ipv4 (sv_clients c));
  sco_timing : server_timing_ok (sv_timing c);
  sco_ciphers : sv_allowed_ciphers c ≠ [];
  sco_sizes : Forall (λ n, n ≠ 0) [sv_session_queue_size c; sv_max_auth_inflight c; sv_tcp_connection_cap c;
    sv_udp_nat_max_entries c];
}.

(** The addresses and the prefix have their types. *)
Definition server_addrs_ok (c : ServerConfig) : Prop :=
  0 ≤ tun_prefix (sv_tun c) ∧ addr_ok (tun_ipv4 (sv_tun c)) ∧
  Forall (λ k, addr_ok (sc_assigned_ipv4 k)) (sv_clients c).

Lemma network_validate_ok c :
  ServerNetworkConfig_validate c = Ok tt ↔
  Forall (λ p, p ≠ 0) [listen_tcp_port c; listen_udp_port c; nginx_tcp_upstream_port c; nginx_udp_upstream_port c].
Proof.
  unfold ServerNetworkConfig_validate. rewrite !checked_bind, !reject_if_ok, !Z.eqb_neq, !Forall_cons, Forall_nil.
  naive_solver.
Qed.

Lemma clients_subnet c :
  server_addrs_ok c → tun_ok (sv_tun c) →
  Forall (client_ok (sv_tun c)) (sv_clients c) ↔
  ∀ k, k ∈ sv_clients c → sc_assigned_ipv4 k ≠ tun_ipv4 (sv_tun c) ∧
    same_subnet (tun_prefix (sv_tun c)) (sc_assigned_ipv4 k) (tun_ipv4 (sv_tun c)).
Proof.
  intros (Hp & Ht & Ha) Hok. rewrite Forall_forall in *. unfold client_ok.
  split; intros H k Hk; specialize (H k Hk); (rewrite contains_ipv4_iff in * by auto); done.
Qed.

(** A server configuration is accepted exactly when its ports, sizes and
    cipher list are not empty, its TUN settings and times are in range, and
    its clients have distinct identifiers and distinct addresses, all in the
    TUN subnet and none of them the server's own. *)
Theorem server_config_accepted_iff c :
  server_addrs_ok c → ServerConfig_validate c = Ok tt ↔ server_config_ok c.
Proof.
  intros Ha. unfold ServerConfig_validate, ServerUdpQspConfig_validate.
  rewrite !checked_bind, !reject_if_ok, network_validate_ok, TunConfig_validate_ok, validate_clients_ok,
    ServerTimingConfig_validate_ok, !Z.eqb_neq. split.
  - intros (Hp & Ht & (Hc & [Hid _] & [Hip _]) & Htm & Hcs & ? & ? & ? & ?). constructor; try done.
    + by apply clients_subnet.
    + by destruct (sv_allowed_ciphers c).
    + by rewrite !Forall_cons, Forall_nil.
  - intros [Hp Ht Hc Hid Hip Htm Hcs Hn]. rewrite !Forall_cons, Forall_nil in Hn.
    split_and!; try done; try apply Hn; [by apply clients_subnet|apply Forall_true; set_solver..|].
    by destruct (sv_allowed_ciphers c).
Qed.

(** *** The client *)
Record client_timing_ok (c : ClientTimingConfig) : Prop := mkClientTimingOk {
  cto_ping : interval_ok (ct_ping_min c) ∧ ct_ping_min c ≤ ct_ping_max c;
  cto_reconnect : interval_ok (ct_reconnect_min c) ∧ ct_reconnect_min c ≤ ct_reconnect_max c;
  cto_timeouts : Forall timeout_ok [ct_auth_timeout c; ct_tcp_write_timeout c; ct_register_timeout c;
    ct_quic_discovery_timeout c; ct_udp_liveness_timeout c; ct_idle_timeout c; ct_metrics_interval c];
}.

Lemma ClientTimingConfig_validate_ok c : ClientTimingConfig_validate c = Ok tt ↔ client_timing_ok c.
Proof.
  unfold ClientTimingConfig_validate.
  rewrite !checked_bind, validate_ping_ok, !validate_interval_ok, reject_if_ok, !validate_timeout_ok. split.
  - intros (? & Hi & ? & ? & ? & ? & ? & ? & ? & ? & ?). constructor; [done|unfold interval_ok in *; lia|].
    by rewrite !Forall_cons, Forall_nil.
  - intros [? [Hi ?] Hts]. rewrite !Forall_cons in Hts. unfold interval_ok in *. split_and!; try naive_solver; lia.
Qed.

(** A client accepts a UDP requirement only together with the upgrade. *)
Lemma ClientConfig_validate_ok c :
  ClientConfig_validate c = Ok tt →
  tun_ok (cc_tun c) ∧ client_timing_ok (cc_timing c) ∧ tun_ipv4 (cc_tun c) = assigned_ipv4 (cc_identity c) ∧
  (cc_require_udp c = true → cc_enable_upgrade c = true).
Proof.
  unfold ClientConfig_validate.
  rewrite !checked_bind, !reject_if_ok, TunConfig_validate_ok, ClientTimingConfig_validate_ok, negb_false_iff,
    bool_decide_eq_true. intros (_ & ? & ? & ? & H). split_and!; try done. by destruct (cc_require_udp c), (cc_enable_upgrade c).
Qed.

(** ** The transport envelope *)
Section Envelope.
Context `{B : Boring} {L : BoringLaws B} {T : BoringTotal B}.

(** An IPv6 header and a UDP header. *)
Definition OUTER_IPV6_UDP_HEADER_LEN : Z := 40 + 8.

(** The MTU cap keeps its promise: under an accepted TUN configuration a
    packet of up to the TUN MTU, framed as DATA and protected by a session
    with any connection ID and packet number, makes a UDP datagram that fits
    an Ethernet frame even behind IPv6; sending fails only when the packet
    numbers are exhausted. *)
Theorem tun_packet_fits_ethernet tun sp s packet :
  TunConfig_validate tun = Ok tt → session_ok sp s → bytes_ok packet → zlen packet ≤ tun_mtu tun →
  match (send s (wire_message (MData packet)) (λ _, None)).2 with
  | Ok datagram => OUTER_IPV6_UDP_HEADER_LEN + zlen datagram ≤ ETHERNET_IP_MTU
  | Err e => e = PacketNumberOverflow
  | Panic => False
  end.
Proof.
  intros [_ [_ Hm] _]%TunConfig_validate_ok Hs Hb Hl. unfold MAX_TUN_MTU in Hm.
  assert (bytes_ok (wire_message (MData packet))) as Hb'.
  { apply bytes_ok_app. split; [constructor; [apply to_u8_ok|constructor]|]. apply bytes_ok_app. auto with slt. }
  pose proof (zlen_wire_message (MData packet)) as Lw. cbn [Message_payload] in Lw. unfold HEADER_LEN in Lw.
  destruct (send_ok sp s (wire_message (MData packet)) (λ _, None) Hs Hb' ltac:(lia)) as [Hs' [(_ & _ & ->)|(_ & _ & _ & d & Hd & ->)] ]; [done|].
  destruct (so_keys _ _ Hs') as [ (_ & _ & Hk) _].
  destruct (protect_into_ok _ (cid_slice (qs_dcid s)) (qs_next_pn s) (qs_tx_key_phase (send s (wire_message (MData packet)) (λ _, None)).1)
    (wire_message (MData packet)) Hk Hb' ltac:(lia)) as (mask & ct & E & _ & _ & Lm & Lc).
  rewrite E in Hd. apply (inj Ok) in Hd as <-.
  pose proof (packet_number_len_range (qs_next_pn s)) as Hpn.
  assert (pad_len (qs_next_pn s) (wire_message (MData packet)) = 0) as Ep.
  { unfold pad_len. pose proof (zlen_nonneg packet). lia. }
  assert (20 - packet_number_len (qs_next_pn s) ≤ zlen ct) as Lct by (pose proof (zlen_nonneg packet); lia).
  rewrite Ep in Lc. rewrite (proj2 (sample_packet _ _ _ _ _ Lm Lct)).
  destruct (so_dcid _ _ Hs) as ([Hc0 Hc] & [Ha _] & _). unfold cid_slice. rewrite zlen_sub by (unfold zlen; lia).
  unfold OUTER_IPV6_UDP_HEADER_LEN, ETHERNET_IP_MTU. unfold MAX_DCID_LEN in *. lia.
Qed.
End Envelope.
