(* ===== verification/Backoff.v ===== *)
(** * Reconnect backoff ([slt-client/src/runtime/mod.rs])

    The delays between reconnects, discovery attempts, registrations and
    probes: they double up to a maximum and carry equal jitter.  Durations are
    nanoseconds, as in [Config]. *)

From stdpp Require Import base tactics option list numbers.
From Stdlib Require Import ZArith Lia.
From S2P Require Import Prelude Config.

Record ReconnectBackoff := mkBackoff { bo_base : Z; bo_max : Z; bo_current : Z }.

Definition ReconnectBackoff_new (base max : Z) : ReconnectBackoff := mkBackoff base max base.

Definition ReconnectBackoff_reset (b : ReconnectBackoff) : ReconnectBackoff :=
  mkBackoff (bo_base b) (bo_max b) (bo_base b).

(** [Duration::MAX], and [Duration::checked_mul(2)]. *)
Definition DURATION_MAX : Z := u64_max * 1000000000 + 999999999.
Definition checked_double (d : Z) : option Z := if 2 * d <=? DURATION_MAX then Some (2 * d) else None.

(** [u64::try_from(d.as_millis()).unwrap_or(u64::MAX)] *)
Definition millis_u64 (d : Z) : Z := Z.min (as_millis d) u64_max.

(** [next_delay]; [random] is the generator, [fastrand::u64(0..=half)] its
    value cut to the range. *)
Definition next_delay (b : ReconnectBackoff) (random : Z) : ReconnectBackoff * Z :=
  let cap := bo_current b in
  let next := default (bo_max b) (checked_double cap) in
  let b := mkBackoff (bo_base b) (bo_max b) (Z.min next (bo_max b)) in
  let cap_ms := millis_u64 cap in
  let half := cap_ms / 2 in
  let jitter := if half >? 0 then random mod (half + 1) else 0 in
  (b, from_millis (saturating_add64 (saturating_sub cap_ms half) jitter)).

(** ** Delays in sequence *)
Fixpoint delays (b : ReconnectBackoff) (randoms : list Z) : list Z :=
  match randoms with
  | [] => []
  | random :: randoms => let '(b, d) := next_delay b random in d :: delays b randoms
  end.

(** The cap of the [n]-th delay. *)
Definition cap_at (base max : Z) (n : nat) : Z := Z.min (base * 2 ^ Z.of_nat n) max.

Lemma next_delay_current b random :
  0 ≤ bo_current b → bo_max b ≤ DURATION_MAX →
  (next_delay b random).1 = mkBackoff (bo_base b) (bo_max b) (Z.min (2 * bo_current b) (bo_max b)).
Proof.
  intros Hc Hm. unfold next_delay, checked_double. cbn [fst]. f_equal.
  destruct (Z.leb_spec (2 * bo_current b) DURATION_MAX); cbn; lia.
Qed.

Lemma cap_at_S base max n : 0 ≤ base → base ≤ max → Z.min (2 * cap_at base max n) max = cap_at base max (S n).
Proof.
  intros Hb Hm. unfold cap_at. rewrite Nat2Z.inj_succ, Z.pow_succ_r by lia.
  set (x := 2 ^ Z.of_nat n). assert (0 < x) by (apply Z.pow_pos_nonneg; lia). nia.
Qed.

(** One delay: between the upper half and the whole of the cap. *)
Lemma next_delay_bounds b random :
  0 ≤ bo_current b →
  let cap_ms := millis_u64 (bo_current b) in
  from_millis (cap_ms - cap_ms / 2) ≤ (next_delay b random).2 ≤ from_millis cap_ms.
Proof.
  intros Hc cap_ms. unfold next_delay. cbn [snd]. fold cap_ms.
  assert (0 ≤ cap_ms ≤ u64_max) as Hm.
  { assert (0 ≤ as_millis (bo_current b)) by (apply Z.div_pos; lia). unfold cap_ms, millis_u64, u64_max. lia. }
  pose proof (Z.div_mod cap_ms 2 ltac:(lia)). pose proof (Z.mod_pos_bound cap_ms 2 ltac:(lia)).
  set (half := cap_ms / 2) in *. set (jitter := if half >? 0 then _ else _).
  assert (0 ≤ jitter ≤ half) as Hj.
  { unfold jitter. destruct (Z.gtb_spec half 0); [|lia]. pose proof (Z.mod_pos_bound random (half + 1)). lia. }
  unfold saturating_add64, saturating_sub, from_millis. lia.
Qed.

(** The [n]-th delay after a reset lies between half and all of
    [base * 2^n], cut to the maximum (in whole milliseconds), whatever the
    random generator yields; for accepted settings it is at least a
    millisecond. *)
Theorem backoff_delays base max randoms n d :
  interval_ok base → base ≤ max → max ≤ DURATION_MAX →
  delays (ReconnectBackoff_new base max) randoms !! n = Some d →
  let cap_ms := millis_u64 (cap_at base max n) in
  from_millis (cap_ms - cap_ms / 2) ≤ d ≤ from_millis cap_ms ∧ MIN_INTERVAL ≤ d.
Proof.
  intros Hb Hm Hx. unfold interval_ok, MIN_INTERVAL, from_millis in Hb.
  assert (∀ k b, b = mkBackoff base max (cap_at base max k) → delays b randoms !! n = Some d →
    let cap_ms := millis_u64 (cap_at base max (k + n)) in
    from_millis (cap_ms - cap_ms / 2) ≤ d ≤ from_millis cap_ms) as H.
  { revert n. induction randoms as [|r randoms IH]; intros n k b -> H; [done|]. cbn [delays] in H.
    assert (0 ≤ cap_at base max k) as Hk by (unfold cap_at; lia).
    pose proof (next_delay_bounds (mkBackoff base max (cap_at base max k)) r Hk) as Hd.
    pose proof (next_delay_current (mkBackoff base max (cap_at base max k)) r Hk Hx) as Hc.
    destruct (next_delay _ r) as [b' d']. cbn [fst snd bo_base bo_max bo_current] in *.
    destruct n as [|n]; simplify_eq/=; [by rewrite Nat.add_0_r|].
    replace (k + S n)%nat with (S k + n)%nat by lia. refine (IH n (S k) _ _ H). f_equal. apply cap_at_S; lia. }
  intros Hn. specialize (H 0%nat (ReconnectBackoff_new base max)).
  assert (base * 2 ^ Z.of_nat 0 = base) as E by (simpl; lia).
  rewrite Nat.add_0_l in H. assert (ReconnectBackoff_new base max = mkBackoff base max (cap_at base max 0)) as E0.
  { unfold ReconnectBackoff_new, cap_at. f_equal. lia. }
  specialize (H E0 Hn). split; [exact H|]. destruct H as [Hlo _].
  assert (base ≤ cap_at base max n) as Hcap.
  { unfold cap_at. assert (1 ≤ 2 ^ Z.of_nat n) by (pose proof (Z.pow_pos_nonneg 2 (Z.of_nat n)); lia). nia. }
  assert (1 ≤ millis_u64 (cap_at base max n)) as H1.
  { unfold millis_u64, as_millis, u64_max. assert (1 ≤ cap_at base max n / 1000000) by (apply Z.div_le_lower_bound; lia). lia. }
  pose proof (Z.div_mod (millis_u64 (cap_at base max n)) 2). pose proof (Z.mod_pos_bound (millis_u64 (cap_at base max n)) 2).
  unfold MIN_INTERVAL, from_millis in *. lia.
Qed.

