(* ===== verification/Registry.v ===== *)
(** * The session registry ([slt-server/src/registry.rs])

    Three maps that are updated together: the active session of each client,
    the session that owns an IPv4 address, and the session that owns a
    connection ID prefix.  Every operation holds the write lock for its whole
    body, so an execution is a sequence of operations.

    The specification is a directory of active sessions, each with its address
    and the set of prefixes it owns; the theorem is that the three maps always
    answer as this directory does. *)

From stdpp Require Import base tactics option list numbers gmap sets.
From Stdlib Require Import ZArith Lia.
From S2P Require Import Prelude Cid IpPacket.

(** A client is its 16-byte identifier; the sending half of a session's event
    channel is the identity of the channel. *)
Abbreviation ClientId := bytes (only parsing).
Abbreviation SessionTx := Z (only parsing).

Inductive CidInsertError :=
  | PrefixCollision (prefix : CidPrefix)
  | StaleSession (client_id : ClientId) (session_id : Z) (active_session_id : option Z).

Record CidRoute := mkRoute { cr_session_id : Z; cr_tx : SessionTx }.

Record SessionHandle := mkHandle {
  sh_session_id : Z;
  sh_client_id : ClientId;
  sh_assigned_ipv4 : Ipv4Addr;
  sh_tx : SessionTx;
}.

Record Registry := mkRegistry {
  next_session_id : Z;
  sessions : gmap bytes SessionHandle;
  ip_routes : gmap bytes SessionHandle;
  cid_routes : gmap bytes CidRoute;
}.

Definition SessionRegistry_new : Registry := mkRegistry 1 ∅ ∅ ∅.

(** [cid_routes.retain(|_, route| route.session_id != session_id)] *)
Definition drop_cids (session_id : Z) (routes : gmap bytes CidRoute) : gmap bytes CidRoute :=
  filter (λ kv, cr_session_id kv.2 ≠ session_id) routes.

Definition register_session (r : Registry) (client_id : ClientId) (assigned_ipv4 : Ipv4Addr) (tx : SessionTx)
    : Registry * SessionHandle :=
  let session_id := next_session_id r in
  let handle := mkHandle session_id client_id assigned_ipv4 tx in
  let old := sessions r !! client_id in
  let '(ips, cids) :=
    match old with
    | Some old_handle =>
        ((if bool_decide (sh_assigned_ipv4 old_handle = assigned_ipv4) then ip_routes r
          else delete (sh_assigned_ipv4 old_handle) (ip_routes r)),
         drop_cids (sh_session_id old_handle) (cid_routes r))
    | None => (ip_routes r, cid_routes r)
    end in
  (mkRegistry (saturating_add64 session_id 1) (<[client_id := handle]> (sessions r))
     (<[assigned_ipv4 := handle]> ips) cids, handle).

(** [.is_some_and(|handle| handle.session_id == session_id)] *)
Definition owned_by (h : option SessionHandle) (session_id : Z) : bool :=
  match h with Some h => sh_session_id h =? session_id | None => false end.

Definition remove_session (r : Registry) (session_id : Z) (client_id : ClientId) (assigned_ipv4 : Ipv4Addr)
    : Registry :=
  mkRegistry (next_session_id r)
    (if owned_by (sessions r !! client_id) session_id then delete client_id (sessions r) else sessions r)
    (if owned_by (ip_routes r !! assigned_ipv4) session_id
     then delete assigned_ipv4 (ip_routes r) else ip_routes r)
    (drop_cids session_id (cid_routes r)).

Definition insert_cid (r : Registry) (client_id : ClientId) (session_id : Z) (prefix : CidPrefix) (tx : SessionTx)
    : Registry * res CidInsertError unit :=
  let active_session_id := sh_session_id <$> sessions r !! client_id in
  if negb (bool_decide (active_session_id = Some session_id))
  then (r, Err (StaleSession client_id session_id active_session_id)) else
  match cid_routes r !! prefix with
  | Some route =>
      if negb (cr_session_id route =? session_id) then (r, Err (PrefixCollision prefix))
      else (mkRegistry (next_session_id r) (sessions r) (ip_routes r)
              (<[prefix := mkRoute session_id tx]> (cid_routes r)), Ok tt)
  | None =>
      (mkRegistry (next_session_id r) (sessions r) (ip_routes r)
         (<[prefix := mkRoute session_id tx]> (cid_routes r)), Ok tt)
  end.

Definition remove_cids_for_session (r : Registry) (session_id : Z) : Registry :=
  mkRegistry (next_session_id r) (sessions r) (ip_routes r) (drop_cids session_id (cid_routes r)).

Definition remove_cids_for_session_except (r : Registry) (session_id : Z) (keep_prefix : CidPrefix)
    : Registry :=
  mkRegistry (next_session_id r) (sessions r) (ip_routes r)
    (filter (λ kv, cr_session_id kv.2 ≠ session_id ∨ kv.1 = keep_prefix) (cid_routes r)).

Definition lookup_cid (r : Registry) (prefix : CidPrefix) : option SessionTx :=
  cr_tx <$> cid_routes r !! prefix.
Definition lookup_ip (r : Registry) (ip : Ipv4Addr) : option SessionTx :=
  sh_tx <$> ip_routes r !! ip.
Definition has_cid (r : Registry) (prefix : CidPrefix) : bool :=
  bool_decide (is_Some (cid_routes r !! prefix)).

(** ** The specification: a directory of active sessions *)
Record entry := mkEntry { e_id : Z; e_ip : Ipv4Addr; e_tx : SessionTx; e_cids : gset bytes }.

Abbreviation directory := (gmap bytes entry).

Definition with_cids (e : entry) (cids : gset bytes) : entry := mkEntry (e_id e) (e_ip e) (e_tx e) cids.

(** Change the entry of a client, when its session is the given one. *)
Definition update (d : directory) (c : ClientId) (session_id : Z) (f : entry → option entry) : directory :=
  match d !! c with
  | Some e => if decide (e_id e = session_id) then
                match f e with Some e' => <[c := e']> d | None => delete c d end
              else d
  | None => d
  end.

(** Whether another session owns the prefix. *)
Definition taken (d : directory) (c : ClientId) (prefix : CidPrefix) : Prop :=
  map_Exists (λ c' e, c' ≠ c ∧ prefix ∈ e_cids e) d.

Definition spec_insert (d : directory) (c : ClientId) (session_id : Z) (prefix : CidPrefix)
    : directory * res CidInsertError unit :=
  let active := e_id <$> d !! c in
  if decide (active ≠ Some session_id) then (d, Err (StaleSession c session_id active)) else
  if decide (taken d c prefix) then (d, Err (PrefixCollision prefix)) else
  (update d c session_id (λ e, Some (with_cids e ({[ prefix ]} ∪ e_cids e))), Ok tt).

(** ** Executions

    Sessions act with the handle that registering them returned; an operation
    names the handle by its position.  [assigned] is the configuration: every
    client has its own address. *)
Inductive op :=
  | ORegister (c : ClientId) (tx : SessionTx)
  | ORemove (i : nat)
  | OInsert (i : nat) (prefix : CidPrefix)
  | ORemoveCids (i : nat)
  | ORemoveCidsExcept (i : nat) (keep : CidPrefix).

Section Executions.
Context (assigned : bytes → bytes).

Record state := mkState { st_registry : Registry; st_issued : list SessionHandle }.

Definition step (s : state) (o : op) : state * res CidInsertError unit :=
  let '(mkState r issued) := s in
  match o with
  | ORegister c tx =>
      let '(r, h) := register_session r c (assigned c) tx in (mkState r (issued ++ [h]), Ok tt)
  | ORemove i =>
      match issued !! i with
      | Some h => (mkState (remove_session r (sh_session_id h) (sh_client_id h) (sh_assigned_ipv4 h)) issued, Ok tt)
      | None => (s, Ok tt)
      end
  | OInsert i p =>
      match issued !! i with
      | Some h => let '(r, out) := insert_cid r (sh_client_id h) (sh_session_id h) p (sh_tx h) in
                  (mkState r issued, out)
      | None => (s, Ok tt)
      end
  | ORemoveCids i =>
      match issued !! i with
      | Some h => (mkState (remove_cids_for_session r (sh_session_id h)) issued, Ok tt)
      | None => (s, Ok tt)
      end
  | ORemoveCidsExcept i keep =>
      match issued !! i with
      | Some h => (mkState (remove_cids_for_session_except r (sh_session_id h) keep) issued, Ok tt)
      | None => (s, Ok tt)
      end
  end.

Record spec_state := mkSpecState { sp_next : Z; sp_dir : directory; sp_issued : list SessionHandle }.

Definition spec_step (s : spec_state) (o : op) : spec_state * res CidInsertError unit :=
  let '(mkSpecState n d issued) := s in
  match o with
  | ORegister c tx =>
      (mkSpecState (n + 1) (<[c := mkEntry n (assigned c) tx ∅]> d)
         (issued ++ [mkHandle n c (assigned c) tx]), Ok tt)
  | ORemove i =>
      match issued !! i with
      | Some h => (mkSpecState n (update d (sh_client_id h) (sh_session_id h) (λ _, None)) issued, Ok tt)
      | None => (s, Ok tt)
      end
  | OInsert i p =>
      match issued !! i with
      | Some h => let '(d, out) := spec_insert d (sh_client_id h) (sh_session_id h) p in
                  (mkSpecState n d issued, out)
      | None => (s, Ok tt)
      end
  | ORemoveCids i =>
      match issued !! i with
      | Some h => (mkSpecState n (update d (sh_client_id h) (sh_session_id h)
                     (λ e, Some (with_cids e ∅))) issued, Ok tt)
      | None => (s, Ok tt)
      end
  | ORemoveCidsExcept i keep =>
      match issued !! i with
      | Some h => (mkSpecState n (update d (sh_client_id h) (sh_session_id h)
                     (λ e, Some (with_cids e (e_cids e ∩ {[ keep ]})))) issued, Ok tt)
      | None => (s, Ok tt)
      end
  end.

Fixpoint run {S} (step : S → op → S * res CidInsertError unit) (s : S) (os : list op)
    : S * list (res CidInsertError unit) :=
  match os with
  | [] => (s, [])
  | o :: os =>
      let '(s, r) := step s o in
      let '(s, rs) := run step s os in
      (s, r :: rs)
  end.

(** ** The representation *)
Definition handle_of (c : ClientId) (e : entry) : SessionHandle := mkHandle (e_id e) c (e_ip e) (e_tx e).

Record dir_ok (n : Z) (d : directory) (issued : list SessionHandle) : Prop := mkDirOk {
  do_next : 1 ≤ n;
  do_id : ∀ c e, d !! c = Some e → e_id e < n;
  do_ip : ∀ c e, d !! c = Some e → e_ip e = assigned c;
  do_inj : ∀ c e c' e', d !! c = Some e → d !! c' = Some e' → e_id e = e_id e' → c = c';
  do_cids : ∀ c e c' e' p, d !! c = Some e → d !! c' = Some e' → p ∈ e_cids e → p ∈ e_cids e' → c = c';
  do_issued : ∀ h, h ∈ issued → sh_session_id h < n ∧ sh_assigned_ipv4 h = assigned (sh_client_id h) ∧
    ∀ c e, d !! c = Some e → e_id e = sh_session_id h → c = sh_client_id h ∧ e_tx e = sh_tx h;
}.

Record represents (r : Registry) (n : Z) (d : directory) : Prop := mkRepresents {
  rp_next : next_session_id r = n;
  rp_sessions : ∀ c, sessions r !! c = handle_of c <$> d !! c;
  rp_ips : ∀ ip h, ip_routes r !! ip = Some h ↔ ∃ c e, d !! c = Some e ∧ e_ip e = ip ∧ h = handle_of c e;
  rp_cids : ∀ p route, cid_routes r !! p = Some route ↔
    ∃ c e, d !! c = Some e ∧ p ∈ e_cids e ∧ route = mkRoute (e_id e) (e_tx e);
}.

Context {assigned_inj : Inj (=) (=) assigned}.

Lemma lookup_drop_cids sid routes p route :
  drop_cids sid routes !! p = Some route ↔ routes !! p = Some route ∧ cr_session_id route ≠ sid.
Proof. unfold drop_cids. rewrite map_lookup_filter_Some. done. Qed.

(** The entry a handle speaks for, if it is still there. *)
Lemma update_cases d c sid f :
  (∃ e, d !! c = Some e ∧ e_id e = sid ∧
     update d c sid f = match f e with Some e' => <[c := e']> d | None => delete c d end) ∨
  ((∀ e, d !! c = Some e → e_id e ≠ sid) ∧ update d c sid f = d).
Proof.
  unfold update. destruct (d !! c) as [e|] eqn:E; [|right; naive_solver].
  case_decide; [left; by exists e|right; naive_solver].
Qed.

(** *** Registration *)
Lemma register_ok n d issued c tx :
  dir_ok n d issued →
  dir_ok (n + 1) (<[c := mkEntry n (assigned c) tx ∅]> d) (issued ++ [mkHandle n c (assigned c) tx]).
Proof.
  intros [Hn Hid Hip Hinj Hcids His]. constructor.
  - lia.
  - intros c' e [[<- <-]|[_ He] ]%lookup_insert_Some; simpl; [lia|]. specialize (Hid c' e He). lia.
  - intros c' e [[<- <-]|[_ He] ]%lookup_insert_Some; [done|]. by apply Hip.
  - intros c1 e1 c2 e2 [[<- <-]|[_ H1] ]%lookup_insert_Some [[<- <-]|[_ H2] ]%lookup_insert_Some; simpl;
      intros E; try done; [specialize (Hid _ _ H2); lia|specialize (Hid _ _ H1); lia|by eapply Hinj].
  - intros c1 e1 c2 e2 p [[<- <-]|[_ H1] ]%lookup_insert_Some [[<- <-]|[_ H2] ]%lookup_insert_Some; simpl;
      [set_solver..|]. by eapply Hcids.
  - intros h [Hh|Hh%list_elem_of_singleton]%elem_of_app; simpl.
    + destruct (His h Hh) as (Hlt & Hip' & Hown). split_and!; [lia|done|].
      intros c' e [[<- <-]|[_ He] ]%lookup_insert_Some; simpl; [lia|]. by apply Hown.
    + subst h. simpl. split_and!; [lia|done|]. intros c' e [[<- <-]|[_ He] ]%lookup_insert_Some; simpl; [done|].
      intros E. specialize (Hid _ _ He). lia.
Qed.

(** The address of a client leads to its new session, others are as before. *)
Lemma register_ips (ips : gmap bytes SessionHandle) r n d issued c tx :
  let e := mkEntry n (assigned c) tx ∅ in
  represents r n d → dir_ok n d issued →
  (∀ ip x, ip ≠ assigned c → ips !! ip = Some x ↔ ip_routes r !! ip = Some x) →
  ∀ ip x, <[assigned c := handle_of c e]> ips !! ip = Some x ↔
    ∃ c' e', <[c := e]> d !! c' = Some e' ∧ e_ip e' = ip ∧ x = handle_of c' e'.
Proof.
  intros e [_ _ Ri _] [_ _ Hip _ _ _] Hsame ip x. destruct (decide (ip = assigned c)) as [->|Hne].
  - rewrite lookup_insert_eq. split.
    + intros [= <-]. exists c, e. split_and!; try done. apply lookup_insert_eq.
    + intros (c' & e' & [[<- <-]|[Hc He] ]%lookup_insert_Some & Ei & ->); [done|].
      rewrite (Hip _ _ He) in Ei. apply (inj assigned) in Ei. congruence.
  - rewrite lookup_insert_ne, Hsame, Ri by congruence. split.
    + intros (c' & e' & He & Ei & ->). exists c', e'. split_and!; try done.
      rewrite lookup_insert_ne; [done|]. intros <-. rewrite (Hip _ _ He) in Ei. congruence.
    + intros (c' & e' & [[<- <-]|[Hc He] ]%lookup_insert_Some & Ei & ->); [simpl in Ei; congruence|eauto].
Qed.

(** A new session owns no prefix. *)
Lemma register_cids (cids : gmap bytes CidRoute) (n : Z) (d : directory) (c : bytes) (tx : Z) :
  let e := mkEntry n (assigned c) tx ∅ in
  (∀ p x, cids !! p = Some x ↔
     ∃ c' e', c' ≠ c ∧ d !! c' = Some e' ∧ p ∈ e_cids e' ∧ x = mkRoute (e_id e') (e_tx e')) →
  ∀ p x, cids !! p = Some x ↔
    ∃ c' e', <[c := e]> d !! c' = Some e' ∧ p ∈ e_cids e' ∧ x = mkRoute (e_id e') (e_tx e').
Proof.
  intros e Hsame p x. rewrite Hsame. split.
  - intros (c' & e' & Hc & He & Hp & ->). exists c', e'. by rewrite lookup_insert_ne by done.
  - intros (c' & e' & [[<- <-]|[Hc He] ]%lookup_insert_Some & Hp & ->); [simpl in Hp; set_solver|].
    exists c', e'. by split_and!.
Qed.

Lemma register_represents r n d issued c tx :
  let e := mkEntry n (assigned c) tx ∅ in
  represents r n d → dir_ok n d issued → n < u64_max →
  represents (register_session r c (assigned c) tx).1 (n + 1) (<[c := e]> d) ∧
  (register_session r c (assigned c) tx).2 = handle_of c e.
Proof.
  intros e0 Hrep Hok Hmax. pose proof Hrep as [Rn Rs Ri Rc]. pose proof Hok as [Hn Hid Hip Hinj Hcids His].
  unfold register_session. rewrite Rn, Rs. change (mkHandle n c (assigned c) tx) with (handle_of c e0).
  assert (∀ c', <[c := handle_of c e0]> (sessions r) !! c' = handle_of c' <$> <[c := e0]> d !! c') as Hs.
  { intros c'. destruct (decide (c' = c)) as [->|]; [by rewrite !lookup_insert_eq|]. by rewrite !lookup_insert_ne. }
  assert (saturating_add64 n 1 = n + 1) as En by (unfold saturating_add64; lia).
  destruct (d !! c) as [e|] eqn:Ec; cbn [fmap option_fmap option_map].
  - cbn [sh_assigned_ipv4 sh_session_id handle_of]. rewrite bool_decide_true by (by apply Hip). split; [|done].
    constructor; cbn [fst next_session_id sessions ip_routes cid_routes]; [done|done|by eapply register_ips|].
    apply register_cids. intros p x. rewrite lookup_drop_cids, Rc. split.
    + intros [(c' & e' & He' & Hp & ->) Hx]. exists c', e'. split_and!; try done. intros ->. simpl in Hx. congruence.
    + intros (c' & e' & Hc & He' & Hp & ->). split; [eauto|]. simpl. intros E. by apply Hc, (Hinj _ _ _ _ He' Ec).
  - split; [|done].
    constructor; cbn [fst next_session_id sessions ip_routes cid_routes]; [done|done|by eapply register_ips|].
    apply register_cids. intros p x. rewrite Rc. split.
    + intros (c' & e' & He' & Hp & ->). exists c', e'. split_and!; try done. congruence.
    + intros (c' & e' & Hc & He' & Hp & ->). eauto.
Qed.

(** *** Prefixes *)
Definition with_routes (r : Registry) (cids : gmap bytes CidRoute) : Registry :=
  mkRegistry (next_session_id r) (sessions r) (ip_routes r) cids.

Lemma cids_ok (n : Z) (d : directory) (issued : list SessionHandle) (c : bytes) (e : entry)
    (cs : gset bytes) :
  dir_ok n d issued → d !! c = Some e →
  (∀ p c' e', p ∈ cs → c' ≠ c → d !! c' = Some e' → (p ∉ e_cids e')) →
  dir_ok n (<[c := with_cids e cs]> d) issued.
Proof.
  intros [Hn Hid Hip Hinj Hcids His] Hc Hfree. constructor; [done|..].
  - intros c' e' [[<- <-]|[_ He] ]%lookup_insert_Some; simpl; eauto.
  - intros c' e' [[<- <-]|[_ He] ]%lookup_insert_Some; simpl; eauto.
  - intros c1 e1 c2 e2 [[<- <-]|[_ H1] ]%lookup_insert_Some [[<- <-]|[_ H2] ]%lookup_insert_Some E; simpl in *; eauto.
  - intros c1 e1 c2 e2 p [[<- <-]|[N1 H1] ]%lookup_insert_Some [[<- <-]|[N2 H2] ]%lookup_insert_Some; simpl;
      [done| | |by eapply Hcids].
    + intros Hp Hp2. exfalso. by eapply (Hfree p c2 e2).
    + intros Hp Hp2. exfalso. by eapply (Hfree p c1 e1).
  - intros h Hh. destruct (His h Hh) as (Hlt & Hi & Hown). split_and!; [done|done|].
    intros c' e' [[<- <-]|[_ He] ]%lookup_insert_Some; simpl; eauto.
Qed.

Lemma cids_represents (r : Registry) (n : Z) (d : directory) (issued : list SessionHandle) (c : bytes) (e : entry)
    (cs : gset bytes) (cids : gmap bytes CidRoute) :
  represents r n d → dir_ok n d issued → d !! c = Some e →
  (∀ p x, cids !! p = Some x ↔ (p ∈ cs ∧ x = mkRoute (e_id e) (e_tx e)) ∨
     (cid_routes r !! p = Some x ∧ cr_session_id x ≠ e_id e)) →
  represents (with_routes r cids) n (<[c := with_cids e cs]> d).
Proof.
  intros [Rn Rs Ri Rc] [_ _ _ Hinj _ _] Hc Hcids. constructor; cbn; [done|..].
  - intros c'. rewrite Rs. destruct (decide (c' = c)) as [->|]; [by rewrite lookup_insert_eq, Hc|].
    by rewrite lookup_insert_ne.
  - intros ip h. rewrite Ri. split.
    + intros (c' & e' & He & Ei & ->). destruct (decide (c' = c)) as [->|].
      * exists c, (with_cids e cs). rewrite lookup_insert_eq. simplify_eq. done.
      * exists c', e'. by rewrite lookup_insert_ne.
    + intros (c' & e' & [[<- <-]|[_ He] ]%lookup_insert_Some & Ei & ->); [by exists c, e|by exists c', e'].
  - intros p x. rewrite Hcids, Rc. split.
    + intros [[Hp ->]|[(c' & e' & He & Hp & ->) Hx] ].
      * exists c, (with_cids e cs). rewrite lookup_insert_eq. done.
      * exists c', e'. rewrite lookup_insert_ne; [done|]. intros <-. simpl in Hx. congruence.
    + intros (c' & e' & [[<- <-]|[Nc He] ]%lookup_insert_Some & Hp & ->); [by left|right].
      split; [by exists c', e'|]. simpl. intros E. by apply Nc, eq_sym, (Hinj _ _ _ _ He Hc).
Qed.

(** A handle whose session is gone owns nothing. *)
Lemma stale_handle (n : Z) (d : directory) (issued : list SessionHandle) h :
  dir_ok n d issued → h ∈ issued →
  (∀ e, d !! sh_client_id h = Some e → e_id e ≠ sh_session_id h) →
  ∀ c e, d !! c = Some e → e_id e ≠ sh_session_id h.
Proof. intros [_ _ _ _ _ His] Hh Hst c e He E. destruct (His h Hh) as (_ & _ & Ho). destruct (Ho c e He E) as [-> _]. naive_solver. Qed.

Lemma same_routes (r : Registry) (n : Z) (d : directory) (cids : gmap bytes CidRoute) :
  represents r n d → (∀ p x, cids !! p = Some x ↔ cid_routes r !! p = Some x) →
  represents (with_routes r cids) n d.
Proof. intros [Rn Rs Ri Rc] Hs. constructor; cbn; try done. intros p x. by rewrite Hs. Qed.

Lemma route_owner (r : Registry) (n : Z) (d : directory) (p : bytes) x :
  represents r n d → cid_routes r !! p = Some x → ∃ c e, d !! c = Some e ∧ cr_session_id x = e_id e.
Proof. intros [_ _ _ Rc] (c & e & ? & _ & ->)%Rc. by exists c, e. Qed.

(** Removing prefixes of a session, all or all but one. *)
Lemma remove_cids_refines (r : Registry) (n : Z) (d : directory) (issued : list SessionHandle) (h : SessionHandle)
    (keep : bytes → Prop) (cs : entry → gset bytes)
    (cids : gmap bytes CidRoute) :
  represents r n d → dir_ok n d issued → h ∈ issued →
  (∀ p x, cids !! p = Some x ↔ cid_routes r !! p = Some x ∧ (cr_session_id x ≠ sh_session_id h ∨ keep p)) →
  (∀ e p, p ∈ cs e ↔ p ∈ e_cids e ∧ keep p) →
  let d' := update d (sh_client_id h) (sh_session_id h) (λ e, Some (with_cids e (cs e))) in
  represents (with_routes r cids) n d' ∧ dir_ok n d' issued.
Proof.
  intros Hrep Hok Hh Hcids Hcs d'. unfold d'.
  destruct (update_cases d (sh_client_id h) (sh_session_id h) (λ e, Some (with_cids e (cs e))))
    as [(e & He & Eid & ->)|[Hst ->] ].
  - split.
    + eapply cids_represents; [done|done|done|]. intros p x. rewrite Hcids, (Hcs e), Eid.
      pose proof Hrep as [_ _ _ Rc]. split.
      * intros [Hx [?|Hk] ]; [by right|]. destruct (decide (cr_session_id x = sh_session_id h)) as [E|]; [left|by right].
        apply Rc in Hx as (c & e' & He' & Hp & ->). cbn in E.
        destruct (do_inj _ _ _ Hok _ _ _ _ He He' ltac:(congruence)). simplify_eq. by rewrite E.
      * intros [[[Hp Hk] ->]|[Hx Hne] ]; [|by split; [|left] ]. split; [|by right]. apply Rc. exists (sh_client_id h), e.
        by rewrite Eid.
    + eapply cids_ok; [done|done|]. intros p c' e' [Hp _]%(Hcs e) Hne He' Hp'.
      by apply Hne, (do_cids _ _ _ Hok _ _ _ _ p He' He).
  - split; [|done]. apply same_routes; [done|]. intros p x. rewrite Hcids. split; [naive_solver|].
    intros Hx. split; [done|left]. destruct (route_owner _ _ _ _ _ Hrep Hx) as (c & e & He & ->).
    by eapply stale_handle.
Qed.

(** A prefix is taken when the map routes it to another session. *)
Lemma taken_iff (r : Registry) (n : Z) (d : directory) (issued : list SessionHandle) (c : bytes) (e : entry) (p : bytes) :
  represents r n d → dir_ok n d issued → d !! c = Some e →
  taken d c p ↔ ∃ x, cid_routes r !! p = Some x ∧ cr_session_id x ≠ e_id e.
Proof.
  intros [_ _ _ Rc] Hok He. unfold taken, map_Exists. split.
  - intros (c' & e' & He' & Hne & Hp). eexists. rewrite Rc. split; [by exists c', e'|]. cbn.
    intros E. by apply Hne, (do_inj _ _ _ Hok _ _ _ _ He' He).
  - intros (x & (c' & e' & He' & Hp & ->)%Rc & Hx). exists c', e'. split_and!; try done.
    intros ->. cbn in Hx. congruence.
Qed.

Lemma insert_free (r : Registry) (n : Z) (d : directory) (issued : list SessionHandle) (c : bytes) (e : entry) (p : bytes) :
  represents r n d → dir_ok n d issued → d !! c = Some e → ¬ taken d c p →
  let d' := <[c := with_cids e ({[ p ]} ∪ e_cids e)]> d in
  represents (with_routes r (<[p := mkRoute (e_id e) (e_tx e)]> (cid_routes r))) n d' ∧ dir_ok n d' issued.
Proof.
  intros Hrep Hok He Hfree. pose proof Hrep as [_ _ _ Rc]. split.
  - eapply cids_represents; [done..|]. intros q x. rewrite lookup_insert_Some. split.
    + intros [[<- <-]|[Hq Hx] ]; [left; set_solver|].
      destruct (decide (cr_session_id x = e_id e)) as [E|]; [left|by right].
      apply Rc in Hx as (c' & e' & He' & Hp & ->). cbn in E.
      destruct (do_inj _ _ _ Hok _ _ _ _ He He' ltac:(congruence)). simplify_eq. set_solver.
    + intros [[Hq ->]|[Hx Hne] ].
      * destruct (decide (p = q)) as [->|]; [by left|right]. split; [done|]. apply Rc.
        exists c, e. split_and!; set_solver.
      * destruct (decide (p = q)) as [<-|]; [|by right]. exfalso. apply Hfree. rewrite taken_iff by done. by exists x.
  - eapply cids_ok; [done..|]. intros q c' e' Hq Hne He' Hq'. apply elem_of_union in Hq as [->%elem_of_singleton|Hq].
    + apply Hfree. by exists c', e'.
    + by apply Hne, (do_cids _ _ _ Hok _ _ _ _ q He' He).
Qed.

Lemma insert_refines (r : Registry) (n : Z) (d : directory) (issued : list SessionHandle) (h : SessionHandle) (p : bytes) :
  represents r n d → dir_ok n d issued → h ∈ issued →
  let '(r', out) := insert_cid r (sh_client_id h) (sh_session_id h) p (sh_tx h) in
  let '(d', out') := spec_insert d (sh_client_id h) (sh_session_id h) p in
  out = out' ∧ represents r' n d' ∧ dir_ok n d' issued.
Proof.
  intros Hrep Hok Hh. pose proof Hrep as [_ Rs _ Rc]. unfold insert_cid, spec_insert, update. rewrite Rs.
  destruct (d !! sh_client_id h) as [e|] eqn:He; cbn [fmap option_fmap option_map sh_session_id handle_of].
  2: { by rewrite bool_decide_false, decide_True. }
  destruct (decide (e_id e = sh_session_id h)) as [Eid|Hne].
  2: { rewrite bool_decide_false, decide_True by congruence. done. }
  rewrite bool_decide_true, (decide_False (P := _ ≠ _)) by (try congruence; intros []; congruence). cbn [negb].
  destruct (do_issued _ _ _ Hok h Hh) as (_ & _ & Hown). destruct (Hown _ _ He Eid) as [_ <-]. rewrite <- Eid.
  pose proof (taken_iff r n d issued _ e p Hrep Hok He) as Htaken.
  pose proof (insert_free r n d issued _ e p Hrep Hok He) as Hins. cbv zeta in Hins.
  destruct (cid_routes r !! p) as [x|] eqn:Ex.
  - destruct (Z.eqb_spec (cr_session_id x) (e_id e)); cbn [negb].
    + rewrite decide_False by naive_solver. split; [done|]. apply Hins. naive_solver.
    + rewrite decide_True by naive_solver. done.
  - rewrite decide_False by naive_solver. split; [done|]. apply Hins. naive_solver.
Qed.

Lemma remove_refines (r : Registry) (n : Z) (d : directory) (issued : list SessionHandle) (h : SessionHandle) :
  represents r n d → dir_ok n d issued → h ∈ issued →
  let d' := update d (sh_client_id h) (sh_session_id h) (λ _, None) in
  represents (remove_session r (sh_session_id h) (sh_client_id h) (sh_assigned_ipv4 h)) n d' ∧ dir_ok n d' issued.
Proof.
  intros Hrep Hok Hh d'. pose proof Hrep as [Rn Rs Ri Rc]. pose proof Hok as [Hn Hid Hip Hinj Hcids His].
  destruct (His h Hh) as (_ & Ehip & Hown). unfold d', remove_session. rewrite Rs, Ehip.
  destruct (update_cases d (sh_client_id h) (sh_session_id h) (λ _, None)) as [(e & He & Eid & ->)|[Hst ->] ].
  - rewrite He. cbn [fmap option_fmap option_map owned_by sh_session_id handle_of].
    rewrite (proj2 (Z.eqb_eq _ _) Eid).
    assert (ip_routes r !! assigned (sh_client_id h) = Some (handle_of (sh_client_id h) e)) as Eip
      by (apply Ri; exists (sh_client_id h), e; split_and!; try done; by apply Hip).
    rewrite Eip. cbn [owned_by sh_session_id handle_of]. rewrite (proj2 (Z.eqb_eq _ _) Eid). split.
    + constructor; cbn; [done|..].
      * intros c. destruct (decide (c = sh_client_id h)) as [->|]; [by rewrite !lookup_delete_eq|].
        by rewrite !lookup_delete_ne.
      * intros ip x. rewrite lookup_delete_Some, Ri. split.
        -- intros [Hne (c & e' & He' & Ei & ->)]. exists c, e'. rewrite lookup_delete_Some. split_and!; try done.
           intros <-. rewrite (Hip _ _ He') in Ei. congruence.
        -- intros (c & e' & [Hne He']%lookup_delete_Some & Ei & ->). split; [|by exists c, e'].
           intros <-. rewrite (Hip _ _ He') in Ei. by apply (inj assigned) in Ei.
      * intros p x. rewrite lookup_drop_cids, Rc. split.
        -- intros [(c & e' & He' & Hp & ->) Hx]. exists c, e'. rewrite lookup_delete_Some. split_and!; try done.
           intros <-. cbn in Hx. congruence.
        -- intros (c & e' & [Hne He']%lookup_delete_Some & Hp & ->). split; [by exists c, e'|]. cbn. rewrite <- Eid.
           intros E. by apply Hne, (Hinj _ _ _ _ He He').
    + constructor; try done; setoid_rewrite lookup_delete_Some; naive_solver.
  - split; [|done].
    assert (owned_by (handle_of (sh_client_id h) <$> d !! sh_client_id h) (sh_session_id h) = false) as ->.
    { destruct (d !! sh_client_id h) as [e|] eqn:He; [|done]. apply Z.eqb_neq. by apply Hst. }
    assert (owned_by (ip_routes r !! assigned (sh_client_id h)) (sh_session_id h) = false) as ->.
    { destruct (ip_routes r !! _) as [x|] eqn:Ex; [|done]. apply Ri in Ex as (c & e & He & Ei & ->). apply Z.eqb_neq.
      by eapply (stale_handle n d issued h). }
    apply same_routes; [done|]. intros p x. rewrite lookup_drop_cids. split; [naive_solver|]. intros Hx.
    split; [done|]. destruct (route_owner _ _ _ _ _ Hrep Hx) as (c & e & He & ->). by eapply stale_handle.
Qed.

(** ** Every execution *)
Definition related (s : state) (sp : spec_state) : Prop :=
  st_issued s = sp_issued sp ∧ represents (st_registry s) (sp_next sp) (sp_dir sp) ∧
  dir_ok (sp_next sp) (sp_dir sp) (sp_issued sp).

Ltac related := refine (conj eq_refl (conj (conj eq_refl (conj _ _)) _)); cbn; [try done..|lia].

Lemma step_refines s sp o :
  related s sp → sp_next sp < u64_max →
  (step s o).2 = (spec_step sp o).2 ∧ related (step s o).1 (spec_step sp o).1 ∧
  sp_next (spec_step sp o).1 ≤ sp_next sp + 1.
Proof.
  destruct s as [r issued], sp as [n d issued']. intros (Ei & Hrep & Hok) Hmax. cbn in *. subst issued'.
  destruct o as [c tx|i|i p|i|i p]; cbn [step spec_step].
  - pose proof (register_represents r n d issued c tx Hrep Hok Hmax) as [Hr Eh].
    destruct (register_session r c (assigned c) tx) as [r' h']. cbn in *. subst h'. related.
    by apply register_ok.
  - destruct (issued !! i) as [h|] eqn:Hh; cbn; [|by related].
    destruct (remove_refines r n d issued h Hrep Hok) as [? ?]; [by eapply list_elem_of_lookup_2|].
    by related.
  - destruct (issued !! i) as [h|] eqn:Hh; cbn; [|by related].
    pose proof (insert_refines r n d issued h p Hrep Hok ltac:(by eapply list_elem_of_lookup_2)) as Hi.
    destruct (insert_cid _ _ _ _ _) as [r' out], (spec_insert _ _ _ _) as [d' out']. destruct Hi as (-> & ? & ?). cbn.
    by related.
  - destruct (issued !! i) as [h|] eqn:Hh; cbn; [|by related].
    destruct (remove_cids_refines r n d issued h (λ _, False) (λ _, ∅) (drop_cids (sh_session_id h) (cid_routes r)))
      as [? ?]; [done|done|by eapply list_elem_of_lookup_2| |set_solver|by related].
    intros q x. rewrite lookup_drop_cids. naive_solver.
  - destruct (issued !! i) as [h|] eqn:Hh; cbn; [|by related].
    destruct (remove_cids_refines r n d issued h (λ q, q = p) (λ e, e_cids e ∩ {[ p ]})
      (filter (λ kv, cr_session_id kv.2 ≠ sh_session_id h ∨ kv.1 = p) (cid_routes r)))
      as [? ?]; [done|done|by eapply list_elem_of_lookup_2| |set_solver|by related].
    intros q x. by rewrite map_lookup_filter_Some.
Qed.

Lemma run_refines s sp os :
  related s sp → sp_next sp + zlen os ≤ u64_max →
  (run step s os).2 = (run spec_step sp os).2 ∧ related (run step s os).1 (run spec_step sp os).1.
Proof.
  revert s sp. induction os as [|o os IH]; intros s sp Hrel Hmax; [done|]. rewrite zlen_cons in Hmax.
  pose proof (zlen_nonneg os). destruct (step_refines s sp o Hrel ltac:(lia)) as (Eo & Hrel' & Hn).
  cbn [run]. destruct (step s o) as [s' r], (spec_step sp o) as [sp' r']. cbn in *. subst r'.
  destruct (IH s' sp' Hrel' ltac:(lia)) as [E Hrel2].
  destruct (run step s' os) as [s2 rs], (run spec_step sp' os) as [sp2 rs']. cbn in *. by subst.
Qed.
End Executions.

(** An address leads to the active session of the client it is assigned to. *)
Lemma registry_routes (assigned : bytes → bytes) (os : list op) ip tx :
  Inj (=) (=) assigned → zlen os < u64_max →
  lookup_ip (st_registry (run (step assigned) (mkState SessionRegistry_new []) os).1) ip = Some tx ↔
  ∃ c e, sp_dir (run (spec_step assigned) (mkSpecState 1 ∅ []) os).1 !! c = Some e ∧ assigned c = ip ∧ e_tx e = tx.
Proof.
  intros Hinj Hmax. unfold u64_max in *.
  destruct (run_refines assigned (mkState SessionRegistry_new []) (mkSpecState 1 ∅ []) os) as [_ (_ & [_ _ Ri _] & Hok)].
  { split_and!; [done| |]; constructor; cbn; try done; set_solver by lia. }
  { cbn. unfold u64_max. lia. }
  unfold lookup_ip. rewrite fmap_Some. split.
  - intros (h & (c & e & He & Ei & ->)%Ri & ->). exists c, e. split_and!; [done| |done]. rewrite <- Ei. symmetry. by eapply do_ip.
  - intros (c & e & He & <- & <-). exists (handle_of c e). split; [|done]. apply Ri. exists c, e. split_and!; try done. by eapply do_ip.
Qed.

(** ** Theorem *)

(** C28: The registry implements the directory of active sessions.  For every
    sequence of registrations, removals and prefix updates, in which sessions
    act with the handles they were given and every client has its own address:
    each operation answers as on the directory; the address of a client leads
    to its latest session if that has not been removed, and nowhere otherwise;
    a prefix leads to the active session that owns it, and nowhere
    otherwise. *)
Theorem registry_refines_directory (assigned : bytes → bytes) (os : list op) :
  Inj (=) (=) assigned → zlen os < u64_max →
  let s := run (step assigned) (mkState SessionRegistry_new []) os in
  let sp := run (spec_step assigned) (mkSpecState 1 ∅ []) os in
  s.2 = sp.2 ∧
  (∀ c, lookup_ip (st_registry s.1) (assigned c) = e_tx <$> sp_dir sp.1 !! c) ∧
  (∀ p tx, lookup_cid (st_registry s.1) p = Some tx ↔
     ∃ c e, sp_dir sp.1 !! c = Some e ∧ p ∈ e_cids e ∧ e_tx e = tx).
Proof.
  intros Hinj Hmax s sp. unfold u64_max in *.
  destruct (run_refines assigned (mkState SessionRegistry_new []) (mkSpecState 1 ∅ []) os) as [E (_ & [_ _ Ri Rc] & Hok)].
  { split_and!; [done| |]; constructor; cbn; try done; set_solver by lia. }
  { cbn. unfold u64_max. lia. }
  fold s sp in E, Ri, Rc, Hok. split_and!; [done|..].
  - intros c. unfold lookup_ip. destruct (sp_dir sp.1 !! c) as [e|] eqn:He; cbn.
    + erewrite (proj2 (Ri (assigned c) (handle_of c e))); [done|]. exists c, e. split_and!; try done. by eapply do_ip.
    + destruct (ip_routes _ !! _) as [h|] eqn:Eh; [|done]. apply Ri in Eh as (c' & e & He' & Ei & ->).
      rewrite (do_ip _ _ _ _ Hok _ _ He') in Ei. apply (inj assigned) in Ei. congruence.
  - intros p tx. unfold lookup_cid. rewrite fmap_Some. split.
    + intros (x & (c & e & ? & ? & ->)%Rc & ->). by exists c, e.
    + intros (c & e & ? & ? & <-). exists (mkRoute (e_id e) (e_tx e)). split; [|done]. apply Rc. by exists c, e.
Qed.

Lemma registry_refines_directory_witness :
  let assigned (c : bytes) := 10 :: c in
  let os := [ORegister [1] 100; ORegister [2] 200; OInsert 0 [7]; OInsert 1 [7]; OInsert 1 [8];
             ORegister [1] 101; OInsert 0 [9]; OInsert 2 [7]; ORemove 0; ORemoveCidsExcept 1 [5]] in
  let s := run (step assigned) (mkState SessionRegistry_new []) os in
  let sp := run (spec_step assigned) (mkSpecState 1 ∅ []) os in
  s.2 = [Ok tt; Ok tt; Ok tt; Err (PrefixCollision [7]); Ok tt; Ok tt;
         Err (StaleSession [1] 1 (Some 3)); Ok tt; Ok tt; Ok tt] ∧
  (s.2 = sp.2 ∧ (∀ c, lookup_ip (st_registry s.1) (assigned c) = e_tx <$> sp_dir sp.1 !! c) ∧
   (∀ p tx, lookup_cid (st_registry s.1) p = Some tx ↔
      ∃ c e, sp_dir sp.1 !! c = Some e ∧ p ∈ e_cids e ∧ e_tx e = tx)).
Proof.
  split; [vm_compute; reflexivity|].
  apply (registry_refines_directory (λ c, 10 :: c)
    [ORegister [1] 100; ORegister [2] 200; OInsert 0 [7]; OInsert 1 [7]; OInsert 1 [8];
     ORegister [1] 101; OInsert 0 [9]; OInsert 2 [7]; ORemove 0; ORemoveCidsExcept 1 [5]]);
    [by intros ? ? [= ->]|decided].
Defined.
