(* ===== verification/ServerState.v ===== *)
(** * The state of a server session ([slt-server/src/sessions/mod.rs],
    [types.rs], [error.rs])

    The data of a client session; its handlers are written in the monad of
    [Effects].

    Everything outside the session is an [Env] that answers its questions one
    after the other, the [n]-th question with the value at [n]: the clock, the
    random generator, the TLS stream, the UDP socket, the TUN device, and what
    the other sessions have done to the shared registry since the last look. *)

From stdpp Require Import base tactics option list numbers gmap sets.
From Stdlib Require Import ZArith Lia.
From S2P Require Import Prelude Effects Cid Framing TcpChannel Payloads Admissibility ReplayWindow Keys QspSession IpPacket UdpIo Registry.

(** ** Errors *)
Inductive UdpQspError :=
  | UQsp (e : QspSessionError)
  | UIo (e : IoError)
  | UFrame (e : FrameError)
  | UMessage (e : MessageError).

Inductive SessionError :=
  | ProtocolViolation
  | Connection (source : IoError)
  | SUdpQsp (e : UdpQspError)
  | SIo (e : IoError)
  | SFrame (e : FrameError)
  | SMessage (e : MessageError)
  | SPayload (e : PayloadError)
  | PayloadEncode (e : PayloadError).

Definition SessionError_from_validation (err : MessageValidationError) : SessionError :=
  match err with
  | InvalidPayload _ source => SPayload source
  | InvalidDirection _ _ | InvalidPhase _ _ | InvalidTransport _ _ => ProtocolViolation
  end.

Definition is_peer_protocol_error (e : SessionError) : bool :=
  match e with ProtocolViolation | SMessage _ | SPayload _ => true | _ => false end.

(** ** Types *)
Inductive SessionShutdownReason := Takeover | ServerRestart.

Definition SessionShutdownReason_close_code (r : SessionShutdownReason) : CloseCode :=
  match r with Takeover => CCNormal | ServerRestart => CCServerRestart end.

Inductive ActiveTransport := ActiveTcp | ActiveUdpQsp.

#[global] Instance ActiveTransport_eq_dec : EqDecision ActiveTransport.
Proof. solve_decision. Defined.

Record UdpClaim := mkClaim {
  claim_peer : SocketAddr;
  claim_dcid_prefix : CidPrefix;
  claim_payload : bytes;
}.

Inductive SessionEvent :=
  | EUdp (claim : UdpClaim)
  | ETunPacket (packet : bytes).

Inductive SessionControl := Continue | Close.

#[global] Instance SessionControl_eq_dec : EqDecision SessionControl.
Proof. solve_decision. Defined.

(** Durations and instants are milliseconds. *)
Record SessionTimeouts := mkTimeouts {
  ping_min : Z;
  ping_max : Z;
  udp_liveness_timeout : Z;
  idle_timeout : Z;
  tcp_write_timeout : Z;
}.

Inductive TunPacketSendOutcome := TunAccepted | TunDropped (len : Z) | TunClosed.

Record UdpUpgradeState := mkUpgrade {
  upgrade_id : option Z;
  probe_seen : bool;
  ready_seen : bool;
  switch_to_udp_sent : bool;
  stale_upgrade_ids : list Z;
}.

Definition UdpUpgradeState_default : UdpUpgradeState := mkUpgrade None false false false [].

(** The counters a session increments. *)
Inductive Metric :=
  | MTransportTcpToUdp | MTransportUdpToTcp
  | MDisconnectClose | MDisconnectError | MDisconnectIdleTimeout | MDisconnectShutdown
  | MTlsKeyUpdateRequested | MTlsKeyUpdateApplied
  | MDecryptFailReplay | MDecryptFailTooOld | MDecryptFailCrypto | MDecryptFailOther
  | MRxKeyPhaseTransition | MTxKeyPhaseTransition | MUdpLivenessTimeout.

(** ** The environment *)

Inductive TunAnswer := TunOutcome (o : TunPacketSendOutcome) | TunFailed (e : IoError) | TunPending.

Record Env := mkEnv {
  env_now : nat → Z;
  env_random : nat → Z;
  (** what [SSL_key_update] returns, and the write *)
  env_tcp : nat → Z * TcpProgress;
  (** the socket; [WouldBlock]: it was still blocked when the future that
      waits for it was dropped *)
  env_udp : nat → Transmit → option IoError;
  env_tun : nat → TunAnswer;
  (** [udp_io_factory.create]: [max_gso_segments] of the new socket *)
  env_create : nat → io_result Z;
  env_registry : nat → Registry → Registry;
}.

(** ** The session *)

(** What a session takes in and gives out, for the theorems; nothing in the
    program reads it. *)
Inductive action :=
  | ACount (m : Metric)
  | ATcpRecv (m : Message)
  | AUdpRecv (peer : SocketAddr) (pn : Z)
  | AUdpMessage (m : Message)
  | ATcpSent (m : Message)
  | ATun (packet : bytes)
  | ARegistered
  | ASwitched (t : ActiveTransport).

(** The fields [new] sets once and for all. *)
Record SessionConfig := mkSessionConfig {
  c_client_id : bytes;
  c_assigned_ipv4 : Ipv4Addr;
  c_session_id : Z;
  c_tx : Z;
  c_limits : MessageLimits;
  c_timeouts : SessionTimeouts;
  c_allowed_ciphers : list CipherSuite;
}.

(** [ServerUdpQspConfig::allows] *)
Definition allows (c : SessionConfig) (cipher : CipherSuite) : bool :=
  existsb (λ allowed, bool_decide (allowed = cipher)) (c_allowed_ciphers c).

Section State.
Context `{B : Boring}.

(** The fields that change.  The UDP session owns its socket backend.  The two
    scratch buffers of the source carry nothing from one call to the next.
    [ss_tick] counts the questions asked, [ss_past_wire] has the transmits of
    backends that are gone, [ss_trace] the actions, newest first. *)
Record Session := mkSess {
  ss_last_activity : Z;
  ss_active_transport : ActiveTransport;
  ss_udp_session : option (QuicQspSession * UdpQspIo);
  ss_udp_peer_packet_number : option Z;
  ss_last_authenticated_udp_activity : option Z;
  ss_udp_upgrade : UdpUpgradeState;
  ss_tcp : TcpChannel;
  ss_tcp_alive : bool;
  ss_tcp_write_interrupted : bool;
  ss_pending_tcp_fallback : option Z;
  ss_last_peer_fallback_id : option Z;
  ss_shutdown : bool;
  ss_registry : Registry.Registry;
  ss_tick : nat;
  ss_past_wire : list Transmit;
  ss_trace : list action;
}.

(** Field updates. *)
Definition with_last_activity (x : Z) (s : Session) : Session :=
  mkSess x (ss_active_transport s) (ss_udp_session s) (ss_udp_peer_packet_number s)
    (ss_last_authenticated_udp_activity s) (ss_udp_upgrade s) (ss_tcp s) (ss_tcp_alive s)
    (ss_tcp_write_interrupted s) (ss_pending_tcp_fallback s) (ss_last_peer_fallback_id s)
    (ss_shutdown s) (ss_registry s) (ss_tick s) (ss_past_wire s) (ss_trace s).
Definition with_active_transport (x : ActiveTransport) (s : Session) : Session :=
  mkSess (ss_last_activity s) x (ss_udp_session s) (ss_udp_peer_packet_number s)
    (ss_last_authenticated_udp_activity s) (ss_udp_upgrade s) (ss_tcp s) (ss_tcp_alive s)
    (ss_tcp_write_interrupted s) (ss_pending_tcp_fallback s) (ss_last_peer_fallback_id s)
    (ss_shutdown s) (ss_registry s) (ss_tick s) (ss_past_wire s) (ss_trace s).
Definition with_udp_session (x : option (QuicQspSession * UdpQspIo)) (s : Session) : Session :=
  mkSess (ss_last_activity s) (ss_active_transport s) x (ss_udp_peer_packet_number s)
    (ss_last_authenticated_udp_activity s) (ss_udp_upgrade s) (ss_tcp s) (ss_tcp_alive s)
    (ss_tcp_write_interrupted s) (ss_pending_tcp_fallback s) (ss_last_peer_fallback_id s)
    (ss_shutdown s) (ss_registry s) (ss_tick s) (ss_past_wire s) (ss_trace s).
Definition with_udp_peer_packet_number (x : option Z) (s : Session) : Session :=
  mkSess (ss_last_activity s) (ss_active_transport s) (ss_udp_session s) x
    (ss_last_authenticated_udp_activity s) (ss_udp_upgrade s) (ss_tcp s) (ss_tcp_alive s)
    (ss_tcp_write_interrupted s) (ss_pending_tcp_fallback s) (ss_last_peer_fallback_id s)
    (ss_shutdown s) (ss_registry s) (ss_tick s) (ss_past_wire s) (ss_trace s).
Definition with_last_authenticated_udp_activity (x : option Z) (s : Session) : Session :=
  mkSess (ss_last_activity s) (ss_active_transport s) (ss_udp_session s) (ss_udp_peer_packet_number s) x
    (ss_udp_upgrade s) (ss_tcp s) (ss_tcp_alive s) (ss_tcp_write_interrupted s)
    (ss_pending_tcp_fallback s) (ss_last_peer_fallback_id s) (ss_shutdown s) (ss_registry s)
    (ss_tick s) (ss_past_wire s) (ss_trace s).
Definition with_udp_upgrade (x : UdpUpgradeState) (s : Session) : Session :=
  mkSess (ss_last_activity s) (ss_active_transport s) (ss_udp_session s) (ss_udp_peer_packet_number s)
    (ss_last_authenticated_udp_activity s) x (ss_tcp s) (ss_tcp_alive s)
    (ss_tcp_write_interrupted s) (ss_pending_tcp_fallback s) (ss_last_peer_fallback_id s)
    (ss_shutdown s) (ss_registry s) (ss_tick s) (ss_past_wire s) (ss_trace s).
Definition with_tcp (x : TcpChannel) (s : Session) : Session :=
  mkSess (ss_last_activity s) (ss_active_transport s) (ss_udp_session s) (ss_udp_peer_packet_number s)
    (ss_last_authenticated_udp_activity s) (ss_udp_upgrade s) x (ss_tcp_alive s)
    (ss_tcp_write_interrupted s) (ss_pending_tcp_fallback s) (ss_last_peer_fallback_id s)
    (ss_shutdown s) (ss_registry s) (ss_tick s) (ss_past_wire s) (ss_trace s).
Definition with_tcp_alive (x : bool) (s : Session) : Session :=
  mkSess (ss_last_activity s) (ss_active_transport s) (ss_udp_session s) (ss_udp_peer_packet_number s)
    (ss_last_authenticated_udp_activity s) (ss_udp_upgrade s) (ss_tcp s) x
    (ss_tcp_write_interrupted s) (ss_pending_tcp_fallback s) (ss_last_peer_fallback_id s)
    (ss_shutdown s) (ss_registry s) (ss_tick s) (ss_past_wire s) (ss_trace s).
Definition with_tcp_write_interrupted (x : bool) (s : Session) : Session :=
  mkSess (ss_last_activity s) (ss_active_transport s) (ss_udp_session s) (ss_udp_peer_packet_number s)
    (ss_last_authenticated_udp_activity s) (ss_udp_upgrade s) (ss_tcp s) (ss_tcp_alive s) x
    (ss_pending_tcp_fallback s) (ss_last_peer_fallback_id s) (ss_shutdown s) (ss_registry s)
    (ss_tick s) (ss_past_wire s) (ss_trace s).
Definition with_pending_tcp_fallback (x : option Z) (s : Session) : Session :=
  mkSess (ss_last_activity s) (ss_active_transport s) (ss_udp_session s) (ss_udp_peer_packet_number s)
    (ss_last_authenticated_udp_activity s) (ss_udp_upgrade s) (ss_tcp s) (ss_tcp_alive s)
    (ss_tcp_write_interrupted s) x (ss_last_peer_fallback_id s) (ss_shutdown s) (ss_registry s)
    (ss_tick s) (ss_past_wire s) (ss_trace s).
Definition with_last_peer_fallback_id (x : option Z) (s : Session) : Session :=
  mkSess (ss_last_activity s) (ss_active_transport s) (ss_udp_session s) (ss_udp_peer_packet_number s)
    (ss_last_authenticated_udp_activity s) (ss_udp_upgrade s) (ss_tcp s) (ss_tcp_alive s)
    (ss_tcp_write_interrupted s) (ss_pending_tcp_fallback s) x (ss_shutdown s) (ss_registry s)
    (ss_tick s) (ss_past_wire s) (ss_trace s).
Definition with_shutdown (x : bool) (s : Session) : Session :=
  mkSess (ss_last_activity s) (ss_active_transport s) (ss_udp_session s) (ss_udp_peer_packet_number s)
    (ss_last_authenticated_udp_activity s) (ss_udp_upgrade s) (ss_tcp s) (ss_tcp_alive s)
    (ss_tcp_write_interrupted s) (ss_pending_tcp_fallback s) (ss_last_peer_fallback_id s) x
    (ss_registry s) (ss_tick s) (ss_past_wire s) (ss_trace s).
Definition with_registry (x : Registry.Registry) (s : Session) : Session :=
  mkSess (ss_last_activity s) (ss_active_transport s) (ss_udp_session s) (ss_udp_peer_packet_number s)
    (ss_last_authenticated_udp_activity s) (ss_udp_upgrade s) (ss_tcp s) (ss_tcp_alive s)
    (ss_tcp_write_interrupted s) (ss_pending_tcp_fallback s) (ss_last_peer_fallback_id s)
    (ss_shutdown s) x (ss_tick s) (ss_past_wire s) (ss_trace s).
Definition with_tick (x : nat) (s : Session) : Session :=
  mkSess (ss_last_activity s) (ss_active_transport s) (ss_udp_session s) (ss_udp_peer_packet_number s)
    (ss_last_authenticated_udp_activity s) (ss_udp_upgrade s) (ss_tcp s) (ss_tcp_alive s)
    (ss_tcp_write_interrupted s) (ss_pending_tcp_fallback s) (ss_last_peer_fallback_id s)
    (ss_shutdown s) (ss_registry s) x (ss_past_wire s) (ss_trace s).
Definition with_past_wire (x : list Transmit) (s : Session) : Session :=
  mkSess (ss_last_activity s) (ss_active_transport s) (ss_udp_session s) (ss_udp_peer_packet_number s)
    (ss_last_authenticated_udp_activity s) (ss_udp_upgrade s) (ss_tcp s) (ss_tcp_alive s)
    (ss_tcp_write_interrupted s) (ss_pending_tcp_fallback s) (ss_last_peer_fallback_id s)
    (ss_shutdown s) (ss_registry s) (ss_tick s) x (ss_trace s).
Definition with_trace (x : list action) (s : Session) : Session :=
  mkSess (ss_last_activity s) (ss_active_transport s) (ss_udp_session s) (ss_udp_peer_packet_number s)
    (ss_last_authenticated_udp_activity s) (ss_udp_upgrade s) (ss_tcp s) (ss_tcp_alive s)
    (ss_tcp_write_interrupted s) (ss_pending_tcp_fallback s) (ss_last_peer_fallback_id s)
    (ss_shutdown s) (ss_registry s) (ss_tick s) (ss_past_wire s) x.

Definition log (a : action) (s : Session) : Session := with_trace (a :: ss_trace s) s.

(** All transmits so far. *)
Definition wire (s : Session) : list Transmit :=
  ss_past_wire s ++ match ss_udp_session s with Some (_, io) => io_wire io | None => [] end.

(** [self.udp_session = udp], which drops the backend of the old one. *)
Definition replace_udp_session (udp : option (QuicQspSession * UdpQspIo)) (s : Session) : Session :=
  with_past_wire (wire s) (with_udp_session udp s).

Definition ClientSession_new (tcp : TcpChannel) (registry : Registry) (now : Z) : Session :=
  mkSess now ActiveTcp None None None UdpUpgradeState_default tcp true false None None true registry 0 [] [].

(** ** The monad *)
Abbreviation M := (eff Session SessionError).

(** The next answer of the environment. *)
Definition ask {A} (f : nat → A) : M A := λ s, (with_tick (S (ss_tick s)) s, ORet (f (ss_tick s))).

Definition count (m : Metric) : M unit := modify (log (ACount m)).
End State.

Abbreviation M := (eff Session SessionError).
