(* ===== verification/ServerSession.v ===== *)
(** * The server side of a client session ([slt-server/src/sessions/])

    The handlers of a session, its event loop and its termination: egress and
    recovery from UDP failures ([egress.rs]), registration of connection IDs
    ([register.rs]), the upgrade to UDP ([upgrade.rs]), messages over TCP
    ([tcp.rs]) and UDP ([udp.rs]), timers, event loop, shutdown
    ([lifecycle.rs]).  [ServerState] has the state and the monad,
    [ServerSafety] the invariants and theorems. *)

From stdpp Require Import base tactics option list numbers gmap sets.
From Stdlib Require Import ZArith Lia.
From S2P Require Import Prelude Effects Cid Framing TcpChannel Payloads Admissibility PacketNumber ReplayWindow PacketHeader Keys QspSession IpPacket UdpIo Registry ServerState.

Section Session.
Context `{B : Boring} (env : Env) (cfg : SessionConfig).

(** ** mod.rs *)

(** [PacketRouter::validate_packet_src] of this session. *)
Definition should_forward_packet_to_tun (packet : bytes) : M bool :=
  try (λ _, ProtocolViolation) (validate_packet_src (c_assigned_ipv4 cfg) packet).

Definition handle_tun_packet_send_outcome (o : TunPacketSendOutcome) : M unit :=
  match o with
  | TunAccepted => mret tt
  | TunDropped _ => mret tt
  | TunClosed => fail (SIo BrokenPipe)
  end.

(** [self.tun.accept_packet(packet).await?] *)
Definition accept_packet (packet : bytes) : M TunPacketSendOutcome :=
  _ ← modify (log (ATun packet));
  answer ← ask (env_tun env);
  match answer with
  | TunOutcome o => mret o
  | TunFailed e => fail (SIo e)
  | TunPending => dropped
  end.

(** [Message::Data], the same over both transports. *)
Definition forward_data (packet : bytes) : M SessionControl :=
  ok ← should_forward_packet_to_tun packet;
  _ ← (if (ok : bool) then
         o ← accept_packet packet;
         handle_tun_packet_send_outcome o
       else mret tt);
  mret Continue.

Definition pong_payload_for_ping (payload : bytes) : M bytes :=
  ping ← try SPayload (PingPayload_decode payload);
  mret (to_be 8 (ping_nonce ping)).

Definition peer_close_control (increment_disconnect_close : bool) : M SessionControl :=
  _ ← (if increment_disconnect_close then count MDisconnectClose else mret tt);
  mret Close.

Definition note_authenticated_udp_activity (received_at : Z) : M unit :=
  modify (λ s, with_last_authenticated_udp_activity (Some received_at)
                 (with_last_activity received_at s)).

Definition note_activity (received_at : Z) : M unit := modify (with_last_activity received_at).

Definition adopt_udp_peer_if_newer (peer : SocketAddr) (packet_number : Z) : M unit :=
  s ← get;
  if match ss_udp_peer_packet_number s with
     | Some current => packet_number <=? current
     | None => false
     end
  then mret tt else
  match ss_udp_session s with
  | Some (session, io) =>
      modify (λ s, with_udp_peer_packet_number (Some packet_number)
                     (with_udp_session (Some (session, io_set_peer io peer)) s))
  | None => mret tt
  end.

Definition set_active_transport (transport : ActiveTransport) : M unit :=
  s ← get;
  if bool_decide (ss_active_transport s = transport) then mret tt else
  _ ← match ss_active_transport s, transport with
      | ActiveTcp, ActiveUdpQsp => count MTransportTcpToUdp
      | ActiveUdpQsp, ActiveTcp =>
          _ ← modify (λ s, match ss_udp_session s with
                           | Some (session, io) =>
                               with_udp_session (Some (session, (discard_pending_send io).1)) s
                           | None => s
                           end);
          count MTransportUdpToTcp
      | _, _ => mret tt
      end;
  modify (λ s, log (ASwitched transport) (with_active_transport transport s)).

Definition cleanup : M unit :=
  others ← ask (env_registry env);
  modify (λ s, with_registry
    (remove_session (others (ss_registry s)) (c_session_id cfg) (c_client_id cfg) (c_assigned_ipv4 cfg)) s).

(** ** egress.rs *)
Inductive UdpFailureRecovery := RetryMessageOnTcp | SignalTcpFallback | RetireOnly.

(** The counters of [SessionKeyUpdater::maybe_request_key_update]. *)
Definition count_key_update (k : IntervalKeyUpdater) (rc : Z) (s : Session) : Session :=
  if ku_until_update k =? 1 then
    let s := log (ACount MTlsKeyUpdateRequested) s in
    match (maybe_request_key_update k rc).1.1 with
    | Ok _ => log (ACount MTlsKeyUpdateApplied) s
    | _ => s
    end
  else s.

Definition send_tcp_message_inner (m : Message) : M unit :=
  s ← get;
  '(rc, progress) ← ask (env_tcp env);
  let w := match progress with Finished w => w | TimedOutAfter n | DroppedAfter n => WriteFailed n TimedOut end in
  let '(r, channel) := write_message (ss_tcp s) m rc w in
  _ ← modify (λ s', count_key_update (chan_key_updater (ss_tcp s)) rc (with_tcp channel s'));
  match r with
  | Ok _ => modify (log (ATcpSent m))
  | Err (TWFrame frame) => fail (SFrame frame)
  | Err (TWIo source) =>
      match progress with
      | DroppedAfter _ => if bool_decide (source = TimedOut) then dropped else fail (Connection source)
      | _ => fail (Connection source)
      end
  | Panic => panic
  end.

Definition send_tcp_message (m : Message) : M unit :=
  s ← get;
  if ss_tcp_write_interrupted s then fail (Connection ConnectionAborted) else
  _ ← modify (with_tcp_write_interrupted true);
  then_always (send_tcp_message_inner m) (with_tcp_write_interrupted false).

(** [session.flush()] on a session and its backend. *)
Definition flush_udp_session : M (res IoError unit) :=
  s ← get;
  match ss_udp_session s with
  | None => mret (Ok tt)
  | Some (session, io) =>
      socket ← ask (env_udp env);
      let '(io, r) := flush_pending io socket in
      _ ← modify (with_udp_session (Some (session, io)));
      match r with
      | Err WouldBlock => dropped
      | Panic => panic
      | r => mret r
      end
  end.

(** [session.send] protects the packet and hands it to the backend. *)
Definition queue_udp_message (m : Message) : M (res UdpQspError unit) :=
  s ← get;
  match ss_udp_session s with
  | None => mret (Ok tt)
  | Some (session, io) =>
      match encode_message m [] with
      | Err e => mret (Err (UFrame e))
      | Panic => panic
      | Ok buf =>
          let tx_phase_before := qs_tx_key_phase session in
          match send session buf (λ _, None) with
          | (session, Err e) =>
              _ ← modify (with_udp_session (Some (session, io)));
              mret (Err (UQsp e))
          | (session, Panic) => panic
          | (session, Ok packet) =>
              socket ← ask (env_udp env);
              let '(io, r) := send_packet io packet socket in
              _ ← modify (with_udp_session (Some (session, io)));
              match r with
              | Ok _ =>
                  _ ← (if eqb (qs_tx_key_phase session) tx_phase_before then mret tt
                       else count MTxKeyPhaseTransition);
                  mret (Ok tt)
              | Err WouldBlock => dropped
              | Err e => mret (Err (UQsp (QIo e)))
              | Panic => panic
              end
          end
      end
  end.

Definition reset_udp_upgrade_state : M unit := modify (with_udp_upgrade UdpUpgradeState_default).

Definition retire_udp_transport : M unit :=
  others ← ask (env_registry env);
  _ ← modify (λ s, with_registry (remove_cids_for_session (others (ss_registry s)) (c_session_id cfg)) s);
  _ ← modify (replace_udp_session None);
  _ ← modify (with_udp_peer_packet_number None);
  _ ← modify (with_last_authenticated_udp_activity None);
  reset_udp_upgrade_state.

Definition send_tcp_fallback_request : M unit :=
  s ← get;
  match ss_pending_tcp_fallback s with
  | Some _ => mret tt
  | None =>
      fallback_id ← ask (env_random env);
      let buf := FallbackToTcpPayload_encode (mkFallbackToTcp fallback_id) [] in
      _ ← send_tcp_message (MFallbackToTcp buf);
      modify (with_pending_tcp_fallback (Some fallback_id))
  end.

Definition apply_udp_failure_recovery (message : option Message) (recovery : UdpFailureRecovery)
    (fallback_error : SessionError) : M unit :=
  s ← get;
  if negb (ss_tcp_alive s) then fail fallback_error else
  _ ← set_active_transport ActiveTcp;
  match recovery with
  | RetryMessageOnTcp =>
      _ ← send_tcp_fallback_request;
      match message with
      | None => mret tt
      | Some message => send_tcp_message message
      end
  | SignalTcpFallback => send_tcp_fallback_request
  | RetireOnly => mret tt
  end.

Definition recover_from_udp_send_error (message : Message) (recovery : UdpFailureRecovery) (err : UdpQspError)
    : M unit :=
  match err with
  | UQsp _ | UIo _ =>
      _ ← retire_udp_transport;
      apply_udp_failure_recovery (Some message) recovery (SUdpQsp err)
  | _ => fail (SUdpQsp err)
  end.

Definition recover_from_udp_flush_error (message : option Message) (recovery : UdpFailureRecovery)
    (source : IoError) : M unit :=
  _ ← retire_udp_transport;
  apply_udp_failure_recovery message recovery (SUdpQsp (UIo source)).

Definition send_udp_message (message : Message) (recovery : UdpFailureRecovery) : M unit :=
  r ← queue_udp_message message;
  match r with
  | Ok _ => mret tt
  | Err err => recover_from_udp_send_error message recovery err
  | Panic => panic
  end.

Definition send_udp_message_and_flush (message : Message) (recovery : UdpFailureRecovery) : M unit :=
  _ ← send_udp_message message recovery;
  r ← flush_udp_session;
  match r with
  | Ok _ => mret tt
  | Err source => recover_from_udp_flush_error (Some message) recovery source
  | Panic => panic
  end.

Definition flush_pending_udp_session_best_effort : M unit :=
  s ← get;
  match ss_udp_session s with
  | None => mret tt
  | Some (_, io) =>
      if negb (io_has_pending_flush io) then mret tt else
      _ ← timeout flush_udp_session;
      mret tt
  end.

Definition has_pending_udp_flush (s : Session) : bool :=
  bool_decide (ss_active_transport s = ActiveUdpQsp) &&
  match ss_udp_session s with Some (_, io) => io_has_pending_flush io | None => false end.

Definition encode_close_payload (code : CloseCode) : bytes := ClosePayload_encode (mkClose code) [].

Definition send_close_over_tcp (code : CloseCode) : M unit :=
  s ← get;
  if negb (ss_tcp_alive s) || ss_tcp_write_interrupted s then fail (Connection NotConnected) else
  send_tcp_message (MClose (encode_close_payload code)).

Definition send_close_over_udp (code : CloseCode) : M unit :=
  s ← get;
  if bool_decide (ss_udp_session s = None) then fail (Connection NotConnected) else
  r ← queue_udp_message (MClose (encode_close_payload code));
  _ ← try SUdpQsp r;
  r ← flush_udp_session;
  try (λ source, SUdpQsp (UIo source)) r.

Definition send_close (code : CloseCode) : M unit :=
  s ← get;
  if ss_tcp_alive s && negb (ss_tcp_write_interrupted s) then send_close_over_tcp code
  else send_close_over_udp code.

(** ** register.rs *)
Definition register_decode_fail_code (err : PayloadError) : RegisterFailCode :=
  match err with
  | InvalidCipher _ => RFInvalidCipher
  | LengthMismatch _ _ | InvalidKeyPhase _ => RFInvalidKeys
  | LengthTooShort _ _ | InvalidClientToServerCidLen _ | InvalidServerToClientCidLen _
  | InvalidAuthFailCode _ | InvalidRegisterFailCode _ | InvalidCloseCode _ => RFInvalidCid
  end.

Definition crypto_fail_code (err : QspCryptoError) : RegisterFailCode :=
  match err with
  | UnsupportedCipher => RFInvalidCipher
  | PacketTooShort | InvalidHeader | InvalidPacketNumber | CryptoFail | InvalidCid => RFInvalidKeys
  end.

Definition send_register_fail (code : RegisterFailCode) : M unit :=
  send_tcp_message (MRegisterFail (RegisterFailPayload_encode (mkRegisterFail code) [])).

(** [send_register_fail(code).await?; return Ok(Continue)] *)
Definition reject_registration (code : RegisterFailCode) : M SessionControl :=
  _ ← send_register_fail code;
  mret Continue.

(** [SocketAddr::from(([0, 0, 0, 0], 0))] *)
Definition placeholder_peer : SocketAddr := 0.

(** The part of [handle_register_cid] after the registry took the prefix. *)
Definition install_udp_session (register : RegisterCidPayload) (keys : UdpQspKeys) (dcid_prefix : CidPrefix)
    : M SessionControl :=
  others ← ask (env_registry env);
  _ ← modify (λ s, with_registry
        (remove_cids_for_session_except (others (ss_registry s)) (c_session_id cfg) dcid_prefix) s);
  created ← ask (env_create env);
  max_gso ← try Connection (of_io created);
  let io := UdpQspIo_new max_gso placeholder_peer in
  let udp := QuicQspSession_new (reg_client_to_server_cid register) (reg_server_to_client_cid register) keys
               (reg_pn_start register) (reg_pn_start_rx register) (reg_key_phase register) in
  _ ← modify (λ s, log ARegistered (replace_udp_session (Some (udp, io)) s));
  _ ← modify (with_udp_peer_packet_number None);
  _ ← modify (with_last_authenticated_udp_activity None);
  _ ← reset_udp_upgrade_state;
  ok_buf ← try PayloadEncode (RegisterOkPayload_encode (mkRegisterOk (reg_client_to_server_cid register)) []);
  _ ← send_tcp_message (MRegisterOk ok_buf);
  mret Continue.

Definition handle_register_cid (payload : bytes) : M SessionControl :=
  match RegisterCidPayload_decode payload with
  | Panic => panic
  | Err err => reject_registration (register_decode_fail_code err)
  | Ok register =>
      if negb (allows cfg (reg_cipher register)) then reject_registration RFInvalidCipher else
      match UdpQspKeys_from_register register with
      | Panic => panic
      | Err err => reject_registration (crypto_fail_code err)
      | Ok keys =>
          match Cid_prefix (reg_client_to_server_cid register) with
          | Panic => panic
          | Err _ => reject_registration RFInvalidCid
          | Ok dcid_prefix =>
              others ← ask (env_registry env);
              s ← get;
              let '(registry, inserted) :=
                insert_cid (others (ss_registry s)) (c_client_id cfg) (c_session_id cfg) dcid_prefix (c_tx cfg) in
              _ ← modify (with_registry registry);
              match inserted with
              | Ok _ => install_udp_session register keys dcid_prefix
              | Err (PrefixCollision _) => reject_registration RFInvalidCid
              | Err (StaleSession _ _ _) => reject_registration RFInvalidCid
              | Panic => panic
              end
          end
      end
  end.

(** ** upgrade.rs *)
Definition MAX_STALE_UPGRADE_IDS : Z := 16.

Definition reset_attempt (u : UdpUpgradeState) : UdpUpgradeState :=
  mkUpgrade None false false false (stale_upgrade_ids u).

Definition reset_udp_upgrade_attempt_preserving_history : M unit :=
  modify (λ s, with_udp_upgrade (reset_attempt (ss_udp_upgrade s)) s).

(** The queue after [remember_stale_upgrade_id]. *)
Definition remember_stale (ids : list Z) (id : Z) : list Z :=
  if bool_decide (id ∈ ids) then ids else
  (if zlen ids >=? MAX_STALE_UPGRADE_IDS then drop 1 ids else ids) ++ [id].

Definition remember_stale_upgrade_id (id : Z) : M unit :=
  modify (λ s, let u := ss_udp_upgrade s in
    with_udp_upgrade (mkUpgrade (upgrade_id u) (probe_seen u) (ready_seen u) (switch_to_udp_sent u)
                        (remember_stale (stale_upgrade_ids u) id)) s).

Definition set_upgrade_id (id : option Z) : M unit :=
  modify (λ s, let u := ss_udp_upgrade s in
    with_udp_upgrade (mkUpgrade id (probe_seen u) (ready_seen u) (switch_to_udp_sent u) (stale_upgrade_ids u)) s).
Definition set_probe_seen : M unit :=
  modify (λ s, let u := ss_udp_upgrade s in
    with_udp_upgrade (mkUpgrade (upgrade_id u) true (ready_seen u) (switch_to_udp_sent u) (stale_upgrade_ids u)) s).
Definition set_ready_seen : M unit :=
  modify (λ s, let u := ss_udp_upgrade s in
    with_udp_upgrade (mkUpgrade (upgrade_id u) (probe_seen u) true (switch_to_udp_sent u) (stale_upgrade_ids u)) s).
Definition set_switch_to_udp_sent : M unit :=
  modify (λ s, let u := ss_udp_upgrade s in
    with_udp_upgrade (mkUpgrade (upgrade_id u) (probe_seen u) (ready_seen u) true (stale_upgrade_ids u)) s).

(** The [source] string of [note_upgrade_id] is ["upgrade_probe"] or
    ["udp_ready"]. *)
Inductive UpgradeSource := FromProbe | FromReady.

Definition note_upgrade_id (id : Z) (source : UpgradeSource) : M bool :=
  s ← get;
  let u := ss_udp_upgrade s in
  let from_probe := match source with FromProbe => true | FromReady => false end in
  if from_probe && bool_decide (id ∈ stale_upgrade_ids u) then mret false else
  match upgrade_id u with
  | Some existing =>
      if existing =? id then mret true else
      if from_probe then
        _ ← remember_stale_upgrade_id existing;
        _ ← reset_udp_upgrade_attempt_preserving_history;
        _ ← set_upgrade_id (Some id);
        mret true
      else mret false
  | None =>
      _ ← set_upgrade_id (Some id);
      mret true
  end.

Definition maybe_send_switch_to_udp : M unit :=
  s ← get;
  let u := ss_udp_upgrade s in
  if switch_to_udp_sent u || negb (probe_seen u) || negb (ready_seen u) then mret tt else
  match upgrade_id u with
  | None => mret tt
  | Some id =>
      _ ← send_tcp_message (MSwitchToUdp (SwitchToUdpPayload_encode (mkSwitchToUdp id) []));
      set_switch_to_udp_sent
  end.

Definition handle_upgrade_probe (payload : bytes) : M SessionControl :=
  probe ← try SPayload (UpgradeProbePayload_decode payload);
  noted ← note_upgrade_id (probe_upgrade_id probe) FromProbe;
  if negb noted then mret Continue else
  _ ← set_probe_seen;
  let ack := UpgradeProbeAckPayload_encode (mkProbeAck (probe_upgrade_id probe) (probe_nonce probe)) [] in
  _ ← send_udp_message_and_flush (MUpgradeProbeAck ack) RetireOnly;
  _ ← maybe_send_switch_to_udp;
  mret Continue.

Definition handle_udp_ready (payload : bytes) : M SessionControl :=
  ready ← try SPayload (UdpReadyPayload_decode payload);
  noted ← note_upgrade_id (ready_upgrade_id ready) FromReady;
  if negb noted then mret Continue else
  _ ← set_ready_seen;
  _ ← maybe_send_switch_to_udp;
  mret Continue.

Definition handle_switch_ack (payload : bytes) : M SessionControl :=
  ack ← try SPayload (SwitchAckPayload_decode payload);
  let id := switch_ack_upgrade_id ack in
  s ← get;
  match upgrade_id (ss_udp_upgrade s) with
  | None => mret Continue
  | Some expected_upgrade_id =>
      if negb (expected_upgrade_id =? id) then mret Continue else
      if negb (switch_to_udp_sent (ss_udp_upgrade s)) then mret Continue else
      _ ← set_active_transport ActiveUdpQsp;
      _ ← send_tcp_message (MSwitchOk (SwitchOkPayload_encode (mkSwitchOk id) []));
      _ ← remember_stale_upgrade_id id;
      _ ← reset_udp_upgrade_attempt_preserving_history;
      mret Continue
  end.

(** ** tcp.rs *)
Definition handle_fallback_to_tcp (payload : bytes) : M SessionControl :=
  request ← try SPayload (FallbackToTcpPayload_decode payload);
  let id := ftt_fallback_id request in
  s ← get;
  let is_duplicate := bool_decide (ss_last_peer_fallback_id s = Some id) in
  _ ← (if is_duplicate then mret tt else
       _ ← set_active_transport ActiveTcp;
       _ ← reset_udp_upgrade_state;
       modify (with_last_peer_fallback_id (Some id)));
  _ ← send_tcp_message (MFallbackOk (FallbackOkPayload_encode (mkFallbackOk id) []));
  mret Continue.

Definition handle_fallback_ok (payload : bytes) : M SessionControl :=
  ok ← try SPayload (FallbackOkPayload_decode payload);
  s ← get;
  _ ← (if bool_decide (ss_pending_tcp_fallback s = Some (fok_fallback_id ok))
       then modify (with_pending_tcp_fallback None) else mret tt);
  mret Continue.

Definition tcp_context : MessageContext := mkContext SClient Established Tcp.
Definition udp_context : MessageContext := mkContext SClient Established UdpQsp.

Definition handle_tcp_message (message : Message) : M SessionControl :=
  _ ← modify (log (ATcpRecv message));
  _ ← try SessionError_from_validation (validate_message message tcp_context);
  match message with
  | MAuth _ | MAuthOk _ | MAuthFail _ | MRegisterOk _ | MRegisterFail _ | MUpgradeProbe _
  | MUpgradeProbeAck _ | MSwitchToUdp _ | MSwitchOk _ => panic
  | MUdpReady payload => handle_udp_ready payload
  | MSwitchAck payload => handle_switch_ack payload
  | MData packet => forward_data packet
  | MPing payload =>
      pong ← pong_payload_for_ping payload;
      _ ← send_tcp_message (MPong pong);
      mret Continue
  | MPong payload =>
      _ ← try SPayload (PongPayload_decode payload);
      mret Continue
  | MClose payload =>
      _ ← try SPayload (ClosePayload_decode payload);
      peer_close_control true
  | MRegisterCid payload =>
      s ← get;
      if bool_decide (ss_active_transport s = ActiveUdpQsp) then fail ProtocolViolation
      else handle_register_cid payload
  | MFallbackToTcp payload => handle_fallback_to_tcp payload
  | MFallbackOk payload => handle_fallback_ok payload
  end.

(** The loop of [handle_tcp_read].  Every message takes a header out of the
    read buffer, which nothing fills in the meantime. *)
Fixpoint read_messages (fuel : nat) : M SessionControl :=
  match fuel with
  | O => panic
  | S fuel =>
      s ← get;
      let '(popped, channel) := try_pop_message (ss_tcp s) (c_limits cfg) in
      _ ← modify (with_tcp channel);
      msg_buf ← try SMessage popped;
      match msg_buf with
      | None => mret Continue
      | Some msg_buf =>
          received_at ← ask (env_now env);
          message ← try SFrame (OwnedMessageBuf_message msg_buf);
          control ← handle_tcp_message message;
          _ ← note_activity received_at;
          if bool_decide (control = Close) then mret Close else read_messages fuel
      end
  end.

Definition handle_tcp_read : M SessionControl :=
  s ← get;
  read_messages (S (length (chan_read_buf (ss_tcp s)))).

(** ** udp.rs *)

(** The packet number and the plaintext, or [None] for a dropped packet. *)
Definition open_udp_packet (payload : bytes) : M (option (Z * bytes)) :=
  s ← get;
  match ss_udp_session s with
  | None => mret None
  | Some (session, io) =>
      let rx_phase_before := qs_rx_key_phase session in
      let '(session, r) := open_packet session payload in
      _ ← modify (with_udp_session (Some (session, io)));
      match r with
      | Ok opened =>
          _ ← (if eqb (qs_rx_key_phase session) rx_phase_before then mret tt
               else count MRxKeyPhaseTransition);
          mret (Some (op_pn opened, op_payload opened))
      | Err QReplay => _ ← count MDecryptFailReplay; mret None
      | Err QTooOld => _ ← count MDecryptFailTooOld; mret None
      | Err (QCrypto _) => _ ← count MDecryptFailCrypto; mret None
      | Err _ => _ ← count MDecryptFailOther; mret None
      | Panic => panic
      end
  end.

Definition decode_udp_message (payload : bytes) : M Message :=
  decoded ← try SMessage (decode_padded_message payload (c_limits cfg));
  match decoded with
  | Some (message, _) => mret message
  | None => fail ProtocolViolation
  end.

Definition dispatch_udp_message (message : Message) : M SessionControl :=
  match message with
  | MPing payload =>
      pong ← pong_payload_for_ping payload;
      _ ← send_udp_message_and_flush (MPong pong) SignalTcpFallback;
      mret Continue
  | MPong payload =>
      _ ← try SPayload (PongPayload_decode payload);
      mret Continue
  | MData packet => forward_data packet
  | MUpgradeProbe payload => handle_upgrade_probe payload
  | MClose payload =>
      _ ← try SPayload (ClosePayload_decode payload);
      peer_close_control false
  | MAuth _ | MAuthOk _ | MAuthFail _ | MRegisterCid _ | MRegisterOk _ | MRegisterFail _
  | MUpgradeProbeAck _ | MUdpReady _ | MSwitchToUdp _ | MSwitchAck _ | MSwitchOk _
  | MFallbackToTcp _ | MFallbackOk _ => panic
  end.

Definition handle_udp_claim (claim : UdpClaim) : M SessionControl :=
  opened ← open_udp_packet (claim_payload claim);
  match opened with
  | None => mret Continue
  | Some (packet_number, payload) =>
      _ ← modify (log (AUdpRecv (claim_peer claim) packet_number));
      _ ← adopt_udp_peer_if_newer (claim_peer claim) packet_number;
      message ← decode_udp_message payload;
      _ ← try SessionError_from_validation (validate_message message udp_context);
      _ ← modify (log (AUdpMessage message));
      received_at ← ask (env_now env);
      control ← dispatch_udp_message message;
      _ ← note_authenticated_udp_activity received_at;
      mret control
  end.

(** ** lifecycle.rs *)
Definition handle_tun_packet (packet : bytes) : M SessionControl :=
  if zlen packet >? max_data_len (c_limits cfg) then mret Continue else
  s ← get;
  _ ← match ss_active_transport s with
      | ActiveTcp => send_tcp_message (MData packet)
      | ActiveUdpQsp => send_udp_message (MData packet) RetryMessageOnTcp
      end;
  mret Continue.

Inductive SessionTimer := TPingTimer | TUdpLiveness | TIdle.

Definition next_session_timer (s : Session) (next_ping_at : Z) : Z * SessionTimer :=
  let idle_deadline := ss_last_activity s + idle_timeout (c_timeouts cfg) in
  let '(timer_at, timer) :=
    if idle_deadline <=? next_ping_at then (idle_deadline, TIdle) else (next_ping_at, TPingTimer) in
  if bool_decide (ss_active_transport s = ActiveUdpQsp) && ss_tcp_alive s then
    match ss_last_authenticated_udp_activity s with
    | Some last_authenticated =>
        let udp_liveness_deadline := last_authenticated + udp_liveness_timeout (c_timeouts cfg) in
        if udp_liveness_deadline <? timer_at then (udp_liveness_deadline, TUdpLiveness) else (timer_at, timer)
    | None => (timer_at, timer)
    end
  else (timer_at, timer).

(** [max - min] of durations panics when it is negative; [fastrand::u64(0..=n)]
    is the random number cut to the range. *)
Definition schedule_next_ping : M Z :=
  let min := ping_min (c_timeouts cfg) in
  let max := ping_max (c_timeouts cfg) in
  if max <? min then panic else
  let range_ms := max - min in
  jitter ← (if range_ms >? 0 then r ← ask (env_random env); mret (r mod (range_ms + 1)) else mret 0);
  now ← ask (env_now env);
  mret (now + min + jitter).

Definition handle_ping_tick : M unit :=
  nonce ← ask (env_random env);
  let buf := PingPayload_encode (mkPing nonce) [] in
  s ← get;
  match ss_active_transport s with
  | ActiveTcp => send_tcp_message (MPing buf)
  | ActiveUdpQsp => send_udp_message_and_flush (MPing buf) RetryMessageOnTcp
  end.

Definition handle_udp_liveness_timeout : M SessionControl :=
  s ← get;
  if negb (bool_decide (ss_active_transport s = ActiveUdpQsp)) || negb (ss_tcp_alive s) then mret Continue else
  _ ← count MUdpLivenessTimeout;
  _ ← set_active_transport ActiveTcp;
  _ ← retire_udp_transport;
  _ ← send_tcp_fallback_request;
  mret Continue.

(** Also the new time of the next ping. *)
Definition handle_session_timer (timer : SessionTimer) (next_ping_at : Z) : M (SessionControl * Z) :=
  match timer with
  | TPingTimer =>
      _ ← handle_ping_tick;
      next_ping_at ← schedule_next_ping;
      mret (Continue, next_ping_at)
  | TUdpLiveness => control ← handle_udp_liveness_timeout; mret (control, next_ping_at)
  | TIdle =>
      _ ← count MDisconnectIdleTimeout;
      _ ← result (send_close CCIdleTimeout);
      mret (Close, next_ping_at)
  end.

Definition handle_event (event : SessionEvent) : M SessionControl :=
  match event with
  | ETunPacket packet => handle_tun_packet packet
  | EUdp claim => handle_udp_claim claim
  end.

Definition event_extends_udp_batch (s : Session) (event : SessionEvent) : bool :=
  bool_decide (ss_active_transport s = ActiveUdpQsp) &&
  match event with
  | ETunPacket packet => zlen packet <=? max_data_len (c_limits cfg)
  | EUdp _ => false
  end.

Definition handle_tcp_read_result (r : io_result bytes) : M SessionControl :=
  chunk ← try Connection (of_io r);
  if negb (zlen chunk =? 0) then handle_tcp_read else
  s ← get;
  if bool_decide (ss_active_transport s = ActiveUdpQsp) then
    _ ← modify (with_tcp_alive false);
    mret Continue
  else
    _ ← count MDisconnectClose;
    mret Close.

Inductive SessionWork :=
  | WTcpRead (r : io_result bytes)
  | WEvent (event : SessionEvent)
  | WUdpFlush (r : res IoError unit)
  | WTimer.

(** What is ready when the loop waits: the shutdown signal, or what the TLS
    stream, the event channel and the UDP socket have to offer.  [tcp_first]
    is the choice of the unbiased [select!]. *)
Inductive Ready :=
  | Shutdown
  | Offer (tcp : option (io_result bytes)) (event : option SessionEvent)
      (socket : Transmit → option IoError) (tcp_first : bool).

(** The [session_work] branch: events first, then a flush that completes. *)
Definition session_work (s : Session) (can_receive_event should_flush_udp : bool) (event : option SessionEvent)
    (socket : Transmit → option IoError) : option (M SessionWork) :=
  match (if can_receive_event then event else None) with
  | Some event => Some (mret (WEvent event))
  | None =>
      if should_flush_udp then
        match ss_udp_session s with
        | None => Some (mret (WUdpFlush (Ok tt)))
        | Some (session, io) =>
            match flush_pending io socket with
            | (_, Err WouldBlock) => None
            | (io, r) => Some (_ ← modify (with_udp_session (Some (session, io))); mret (WUdpFlush r))
            end
        end
      else None
  end.

Definition tcp_work (s : Session) (tcp : option (io_result bytes)) : option (M SessionWork) :=
  match (if ss_tcp_alive s then tcp else None) with
  | Some (inl chunk) => Some (_ ← modify (λ s, with_tcp (read_more (ss_tcp s) chunk) s); mret (WTcpRead (inl chunk)))
  | Some r => Some (mret (WTcpRead r))
  | None => None
  end.

Definition wait_for_work (can_receive_event should_flush_udp : bool) (ready : Ready) : M SessionWork :=
  match ready with
  | Shutdown => dropped
  | Offer tcp event socket tcp_first =>
      s ← get;
      match tcp_work s tcp, session_work s can_receive_event should_flush_udp event socket with
      | Some t, Some w => if tcp_first then t else w
      | Some t, None => t
      | None, Some w => w
      | None, None => mret WTimer
      end
  end.

(** The locals of [run_inner]. *)
Record LoopState := mkLoop { next_ping_at : Z; flush_before_next_event : bool }.

(** What the loop does with the work: control and new locals. *)
Definition handle_work (work : SessionWork) (timer : SessionTimer) (should_flush_udp : bool) (l : LoopState)
    : M (SessionControl * LoopState) :=
  match work with
  | WTcpRead r => control ← handle_tcp_read_result r; mret (control, l)
  | WEvent event =>
      s ← get;
      let extends_udp_batch := event_extends_udp_batch s event in
      control ← handle_event event;
      s ← get;
      mret (control, mkLoop (next_ping_at l)
                       (should_flush_udp && negb extends_udp_batch && has_pending_udp_flush s))
  | WUdpFlush r =>
      _ ← match r with
          | Err source => recover_from_udp_flush_error None SignalTcpFallback source
          | Ok _ => mret tt
          | Panic => panic
          end;
      mret (Continue, mkLoop (next_ping_at l) false)
  | WTimer =>
      '(control, next) ← handle_session_timer timer (next_ping_at l);
      mret (control, mkLoop next (flush_before_next_event l))
  end.

(** One iteration of the loop: [None] when the session is closed. *)
Definition iteration (l : LoopState) (ready : Ready) : M (option LoopState) :=
  s ← get;
  control ← (if ss_tcp_alive s && has_buffered_input (ss_tcp s) then handle_tcp_read else mret Continue);
  if bool_decide (control = Close) then mret None else
  s ← get;
  let should_flush_udp := has_pending_udp_flush s in
  let l := mkLoop (next_ping_at l) (flush_before_next_event l && should_flush_udp) in
  let '(timer_at, timer) := next_session_timer s (next_ping_at l) in
  now ← ask (env_now env);
  '(control, l) ←
    (if timer_at <=? now then
       '(control, next) ← handle_session_timer timer (next_ping_at l);
       mret (control, mkLoop next (flush_before_next_event l))
     else
       work ← wait_for_work (negb (flush_before_next_event l)) should_flush_udp ready;
       handle_work work timer should_flush_udp l);
  mret (if bool_decide (control = Close) then None else Some l).

(** [run_inner] on what is ready in each iteration.  After the last one the
    shutdown signal arrives. *)
Fixpoint run_loop (l : LoopState) (readies : list Ready) : M unit :=
  match readies with
  | [] => dropped
  | ready :: readies =>
      next ← iteration l ready;
      match next with
      | None => mret tt
      | Some l => run_loop l readies
      end
  end.

Definition run_inner (readies : list Ready) : M unit :=
  next_ping_at ← schedule_next_ping;
  run_loop (mkLoop next_ping_at false) readies.

Definition send_close_best_effort (close_code : CloseCode) : M unit :=
  s ← get;
  let tcp_available := ss_tcp_alive s && negb (ss_tcp_write_interrupted s) in
  sent ← (if tcp_available then
            r ← timeout (send_close_over_tcp close_code);
            mret (match r with Some (Ok _) => true | _ => false end)
          else mret false);
  if (sent : bool) then mret tt else
  s ← get;
  if bool_decide (ss_udp_session s = None) then mret tt else
  _ ← timeout (send_close_over_udp close_code);
  mret tt.

Definition handle_managed_shutdown (reason : SessionShutdownReason) : M unit :=
  _ ← count MDisconnectShutdown;
  send_close_best_effort (SessionShutdownReason_close_code reason).

(** [select!] of the shutdown signal and the loop: [None] when the loop was
    dropped because the signal arrived. *)
Definition run_until_shutdown (readies : list Ready) : M (option (res SessionError unit)) :=
  timeout (run_inner readies).

(** [signal]: the reason, or [None] when its sender is gone. *)
Definition run (signal : option SessionShutdownReason) (readies : list Ready) : M (res SessionError unit) :=
  s ← get;
  let unavailable := Err (SIo BrokenPipe) in
  r ← (if ss_shutdown s then
         _ ← modify (with_shutdown false);
         completed ← run_until_shutdown readies;
         match completed, signal with
         | Some r, _ => mret r
         | None, Some reason => _ ← handle_managed_shutdown reason; mret (Ok tt)
         | None, None => mret unavailable
         end
       else mret unavailable);
  _ ← (match r with
       | Err e => if is_peer_protocol_error e then send_close_best_effort CCProtocolError else mret tt
       | _ => mret tt
       end);
  _ ← flush_pending_udp_session_best_effort;
  _ ← (match r with Err _ => count MDisconnectError | _ => mret tt end);
  _ ← cleanup;
  mret r.
End Session.
