(* ===== verification/ServerSafety.v ===== *)
(** * Safety of server sessions ([slt-server/src/sessions/])

    An invariant of the session that every handler keeps, whatever the peer
    sends and however TLS, the sockets, the TUN device and the other sessions
    behave, and the theorems that follow from it: no panic, only packets with
    the assigned source reach the TUN device, the TCP stream stays framed, the
    switch to UDP follows the handshake, replies go to authenticated peers. *)

From stdpp Require Import base tactics option list numbers gmap sets.
From Stdlib Require Import ZArith Lia.
From S2P Require Import Prelude Effects Cid Framing TcpChannel Payloads Admissibility PacketNumber ReplayWindow PacketHeader Keys QspSession QspSafety IpPacket UdpIo Registry ServerState ServerSession.

(** ** Traces *)

(** The actions since the last registration, newest first. *)
Fixpoint since (tr : list action) : list action :=
  match tr with
  | [] => []
  | ARegistered :: _ => []
  | a :: tr => a :: since tr
  end.

(** The authenticated packets since then: source and number. *)
Definition claims (tr : list action) : list (Z * Z) :=
  omap (λ a, match a with AUdpRecv peer pn => Some (peer, pn) | _ => None end) (since tr).

(** The messages written to TCP in full, oldest first. *)
Definition tcp_messages (tr : list action) : list Message :=
  reverse (omap (λ a, match a with ATcpSent m => Some m | _ => None end) tr).

Definition probe_in (id : Z) (tr : list action) : Prop :=
  ∃ p pr, AUdpMessage (MUpgradeProbe p) ∈ since tr ∧
    UpgradeProbePayload_decode p = Ok pr ∧ probe_upgrade_id pr = id.
Definition ready_in (id : Z) (tr : list action) : Prop :=
  ∃ p r, ATcpRecv (MUdpReady p) ∈ since tr ∧ UdpReadyPayload_decode p = Ok r ∧ ready_upgrade_id r = id.

Definition switch_to_udp (id : Z) : Message := MSwitchToUdp (SwitchToUdpPayload_encode (mkSwitchToUdp id) []).

(** [tr] asked the client to switch, after its probe and its ready message
    for the same attempt; [a] is what happened since. *)
Definition asked_to_switch (id : Z) (a tr : list action) : Prop :=
  ∃ b, tr = a ++ ATcpSent (switch_to_udp id) :: b ∧ (ARegistered ∉ a) ∧ probe_in id b ∧ ready_in id b.

(** The client acknowledged that. *)
Definition committed (tr : list action) : Prop :=
  ∃ id a p ack, asked_to_switch id a tr ∧ ATcpRecv (MSwitchAck p) ∈ a ∧
    SwitchAckPayload_decode p = Ok ack ∧ switch_ack_upgrade_id ack = id.

#[global] Arguments since : simpl never.
#[global] Arguments claims : simpl never.
#[global] Arguments tcp_messages : simpl never.

(** Actions that neither the peer rules nor the switch rules look at. *)
Definition plain (a : action) : Prop :=
  match a with
  | ACount _ | ATcpRecv _ | ATcpSent _ | AUdpMessage _ | ASwitched ActiveTcp => True
  | _ => False
  end.

Lemma since_plain a tr : plain a → since (a :: tr) = a :: since tr.
Proof. by destruct a. Qed.

Lemma claims_plain a tr : plain a → claims (a :: tr) = claims tr.
Proof. by destruct a. Qed.

Lemma since_weaken x a tr : a ≠ ARegistered → x ∈ since tr → x ∈ since (a :: tr).
Proof. intros Ha Hx. destruct a; try done; cbn [since]; by right. Qed.

Lemma probe_in_weaken id a tr : a ≠ ARegistered → probe_in id tr → probe_in id (a :: tr).
Proof. intros Ha (p & pr & Hin & H). exists p, pr. split; [by apply since_weaken|done]. Qed.

Lemma ready_in_weaken id a tr : a ≠ ARegistered → ready_in id tr → ready_in id (a :: tr).
Proof. intros Ha (p & pr & Hin & H). exists p, pr. split; [by apply since_weaken|done]. Qed.

Lemma asked_weaken id a x tr :
  x ≠ ARegistered → asked_to_switch id a tr → asked_to_switch id (x :: a) (x :: tr).
Proof.
  intros Hx (b & -> & Ha & H). exists b. split; [done|]. split; [|done].
  intros [?|?]%elem_of_cons; [congruence|done].
Qed.

Lemma claims_recv x tr : x ∈ claims tr → AUdpRecv x.1 x.2 ∈ tr.
Proof.
  unfold claims. rewrite list_elem_of_omap. intros (a & Ha & E). destruct a; try done. simplify_eq. cbn.
  induction tr as [|y tr IH]; [done|].
  assert (y = ARegistered ∨ since (y :: tr) = y :: since tr) as [->|E] by (destruct y; auto).
  - by apply elem_of_nil in Ha.
  - rewrite E in Ha. apply elem_of_cons in Ha as [->|Ha]; [by left|right; by apply IH].
Qed.

Lemma tcp_messages_sent m tr : tcp_messages (ATcpSent m :: tr) = tcp_messages tr ++ [m].
Proof. unfold tcp_messages. cbn [omap list_omap]. apply reverse_cons. Qed.

Lemma tcp_messages_other a tr : (∀ m, a ≠ ATcpSent m) → tcp_messages (a :: tr) = tcp_messages tr.
Proof. intros Ha. unfold tcp_messages. destruct a; try done. by destruct (Ha m). Qed.

Lemma wp_ask `{B : Boring} {A} (f : nat → A) (Q : A → Session → Prop) E C s :
  (∀ a, Q a (with_tick (S (ss_tick s)) s)) → wp (ask f) Q E C s.
Proof. intros H. apply H. Qed.

(** ** The invariant *)
Section Invariant.
Context `{B : Boring} {L : BoringLaws B} {T : BoringTotal B} (env : Env) (cfg : SessionConfig).

(** Nothing but messages was written to TCP. *)
Definition clean (s : Session) : Prop :=
  chan_sent (ss_tcp s) = wire_stream (tcp_messages (ss_trace s)).

(** The last one may be cut off. *)
Definition framed (s : Session) : Prop :=
  ∃ m n, chan_sent (ss_tcp s) = wire_stream (tcp_messages (ss_trace s)) ++ take n (wire_message m).

Record core_ok (s : Session) : Prop := mkCoreOk {
  co_udp : ∀ q io, ss_udp_session s = Some (q, io) → ∃ sp, session_ok sp q;
  co_buf : bytes_ok (chan_read_buf (ss_tcp s));
  co_tun : ∀ p, ATun p ∈ ss_trace s → ipv4_header p ∧ sub p 12 16 = c_assigned_ipv4 cfg;
  co_framed : framed s;
}.

(** Peers: transmits go to the source of an authenticated packet, and the
    backend is set to the source of the packet with the highest number since
    the registration. *)
Record trace_ok (s : Session) : Prop := mkTraceOk {
  to_wire : ∀ t, t ∈ wire s → ∃ pn, AUdpRecv (tr_destination t) pn ∈ ss_trace s;
  to_peer : ∀ q io, ss_udp_session s = Some (q, io) →
    match ss_udp_peer_packet_number s with
    | None => claims (ss_trace s) = [] ∧ io_send_segments io = 0 ∧ io_peer io = placeholder_peer
    | Some n => (io_peer io, n) ∈ claims (ss_trace s) ∧ ∀ c, c ∈ claims (ss_trace s) → c.2 ≤ n
    end;
  to_switch : ∀ a b, ss_trace s = a ++ ASwitched ActiveUdpQsp :: b → committed b;
}.

(** The flags of the upgrade record what was received and sent. *)
Record upgrade_ok (s : Session) : Prop := mkUpgradeOk {
  uo_stale : NoDup (stale_upgrade_ids (ss_udp_upgrade s)) ∧ zlen (stale_upgrade_ids (ss_udp_upgrade s)) ≤ 16;
  uo_probe : probe_seen (ss_udp_upgrade s) = true →
    is_Some (ss_udp_session s) ∧ is_Some (ss_udp_peer_packet_number s) ∧
    ∃ id, upgrade_id (ss_udp_upgrade s) = Some id ∧ probe_in id (ss_trace s);
  uo_ready : ready_seen (ss_udp_upgrade s) = true →
    ∃ id, upgrade_id (ss_udp_upgrade s) = Some id ∧ ready_in id (ss_trace s);
  uo_sent : switch_to_udp_sent (ss_udp_upgrade s) = true →
    probe_seen (ss_udp_upgrade s) = true ∧
    ∃ id a, upgrade_id (ss_udp_upgrade s) = Some id ∧ asked_to_switch id a (ss_trace s);
}.

Record weak (s : Session) : Prop := mkWeak {
  we_core : core_ok s;
  we_trace : trace_ok s;
  we_upgrade : upgrade_ok s;
  we_clean : clean s;
  we_free : ss_tcp_write_interrupted s = false;
}.

(** UDP is preferred only with a session, a peer and a liveness deadline, and
    TCP only while its stream is open. *)
Definition active_ok (s : Session) : Prop :=
  match ss_active_transport s with
  | ActiveUdpQsp =>
      is_Some (ss_udp_session s) ∧ is_Some (ss_udp_peer_packet_number s) ∧
      is_Some (ss_last_authenticated_udp_activity s)
  | ActiveTcp => ss_tcp_alive s = true
  end.

Definition good (s : Session) : Prop := weak s ∧ active_ok s.

(** Between events, a seen probe has set the liveness deadline. *)
Definition armed (s : Session) : Prop :=
  probe_seen (ss_udp_upgrade s) = true → is_Some (ss_last_authenticated_udp_activity s).

Definition err_ok (e : SessionError) (s : Session) : Prop :=
  core_ok s ∧ trace_ok s ∧ (is_peer_protocol_error e = true → clean s).
Definition drop_ok (s : Session) : Prop :=
  core_ok s ∧ trace_ok s ∧ (ss_tcp_write_interrupted s = false → clean s).

(** What only the input changes: the stream and the time of the last message. *)
Definition input (s : Session) : bytes * bool * Z :=
  (chan_read_buf (ss_tcp s), ss_tcp_alive s, ss_last_activity s).

(** What a handler leaves behind. *)
Definition keeps (s s' : Session) : Prop :=
  good s' ∧ (armed s → armed s') ∧ input s' = input s.

Abbreviation ok m Q s := (wp m Q err_ok drop_ok s).

Lemma keeps_refl s : good s → keeps s s.
Proof. by split. Qed.

Lemma keeps_trans s1 s2 s3 : keeps s1 s2 → keeps s2 s3 → keeps s1 s3.
Proof. intros (_ & Ha & Hb) (Hg & Ha' & Hb'). split_and!; [done|auto|congruence]. Qed.

Lemma clean_framed s : clean s → framed s.
Proof. intros H. exists (MData []), 0%nat. rewrite H, take_0. by rewrite app_nil_r. Qed.

Lemma weak_err e s : weak s → err_ok e s.
Proof. intros []. by split_and!. Qed.

Lemma weak_drop s : weak s → drop_ok s.
Proof. intros []. by split_and!. Qed.

Lemma good_err e s : good s → err_ok e s.
Proof. intros [H _]. by apply weak_err. Qed.

Lemma good_drop s : good s → drop_ok s.
Proof. intros [H _]. by apply weak_drop. Qed.

(** *** Logging *)
Lemma trace_log a s : plain a → trace_ok s → trace_ok (log a s).
Proof.
  intros Ha [Hw Hp Hs]. constructor; cbn.
  - intros t Ht. destruct (Hw t Ht) as [pn H]. exists pn. by right.
  - intros q io E. rewrite claims_plain by done. by apply (Hp q io).
  - intros x b E. destruct x as [|y x]; simplify_eq/=; [by destruct Ha|]. by eapply Hs.
Qed.

Lemma upgrade_log a s : a ≠ ARegistered → upgrade_ok s → upgrade_ok (log a s).
Proof.
  intros Ha [Hst Hp Hr Hs]. constructor; cbn; [done|..].
  - intros H. destruct (Hp H) as (? & ? & id & ? & ?). split_and!; try done. exists id. eauto using probe_in_weaken.
  - intros H. destruct (Hr H) as (id & ? & ?). exists id. eauto using ready_in_weaken.
  - intros H. destruct (Hs H) as (? & id & x & ? & ?). split; [done|]. exists id, (a :: x). eauto using asked_weaken.
Qed.

Lemma core_log a s : plain a → (∀ m, a ≠ ATcpSent m) → core_ok s → core_ok (log a s).
Proof.
  intros Ha Hm [Hu Hb Ht (m & n & Hf)]. constructor; cbn; try done.
  - intros p [<-|H]%elem_of_cons; [done|by apply Ht].
  - exists m, n. cbn. by rewrite tcp_messages_other.
Qed.

Lemma clean_log a s : (∀ m, a ≠ ATcpSent m) → clean s → clean (log a s).
Proof. intros Hm H. unfold clean in *. cbn. by rewrite tcp_messages_other. Qed.

Lemma weak_log a s : plain a → (∀ m, a ≠ ATcpSent m) → weak s → weak (log a s).
Proof.
  intros Ha Hm []. constructor; [by apply core_log|by apply trace_log| |by apply clean_log|done].
  apply upgrade_log; [by intros ->|done].
Qed.

Lemma good_log a s : plain a → (∀ m, a ≠ ATcpSent m) → good s → good (log a s).
Proof. intros Ha Hm [H1 H2]. split; [by apply weak_log|exact H2]. Qed.

(** [s'] differs from [s] in what was written to TCP at most. *)
Record same (s s' : Session) : Prop := mkSame {
  sa_active : ss_active_transport s' = ss_active_transport s;
  sa_udp : ss_udp_session s' = ss_udp_session s;
  sa_peer : ss_udp_peer_packet_number s' = ss_udp_peer_packet_number s;
  sa_last : ss_last_authenticated_udp_activity s' = ss_last_authenticated_udp_activity s;
  sa_upgrade : ss_udp_upgrade s' = ss_udp_upgrade s;
  sa_alive : ss_tcp_alive s' = ss_tcp_alive s;
  sa_past : ss_past_wire s' = ss_past_wire s;
  sa_buf : chan_read_buf (ss_tcp s') = chan_read_buf (ss_tcp s);
  sa_activity : ss_last_activity s' = ss_last_activity s;
}.

Lemma same_trace new s s' :
  Forall plain new → same s s' → ss_trace s' = new ++ ss_trace s → trace_ok s → trace_ok s'.
Proof.
  intros Hn [_ Eu Ep _ _ _ Ew _ _] Et Hs.
  assert (trace_ok (with_trace (new ++ ss_trace s) s)) as [H1 H2 H3].
  { clear s' Eu Ep Ew Et. induction Hn as [|a new Ha _ IH]; [by destruct s|]. exact (trace_log a _ Ha IH). }
  constructor; unfold wire; rewrite ?Eu, ?Ep, ?Ew, ?Et; done.
Qed.

Lemma same_upgrade new s s' :
  Forall plain new → same s s' → ss_trace s' = new ++ ss_trace s → upgrade_ok s → upgrade_ok s'.
Proof.
  intros Hn [_ Eu Ep _ Eg _ _ _ _] Et Hs.
  assert (upgrade_ok (with_trace (new ++ ss_trace s) s)) as [H1 H2 H3 H4].
  { clear s' Eu Ep Eg Et. induction Hn as [|a new Ha _ IH]; [by destruct s|].
    refine (upgrade_log a _ _ IH). by intros ->. }
  constructor; rewrite ?Eu, ?Ep, ?Eg, ?Et; done.
Qed.

Lemma same_keeps s s' : same s s' → good s' → keeps s s'.
Proof. intros [] Hg. split_and!; [done|unfold armed; by rewrite sa_last0, sa_upgrade0|unfold input; congruence]. Qed.

(** The invariant does not look at the clock, the registry, the fallback
    identifiers and the shutdown receiver. *)
Lemma core_alike s s' :
  core_ok s → ss_udp_session s' = ss_udp_session s → ss_tcp s' = ss_tcp s → ss_trace s' = ss_trace s → core_ok s'.
Proof. intros [? ? ? Hf] E1 E2 E3. constructor; unfold framed in *; rewrite ?E1, ?E2, ?E3; done. Qed.

Lemma weak_alike s s' :
  weak s → ss_udp_session s' = ss_udp_session s →
  ss_udp_peer_packet_number s' = ss_udp_peer_packet_number s → ss_udp_upgrade s' = ss_udp_upgrade s →
  ss_past_wire s' = ss_past_wire s → ss_tcp s' = ss_tcp s →
  ss_tcp_write_interrupted s' = ss_tcp_write_interrupted s → ss_trace s' = ss_trace s → weak s'.
Proof.
  intros [Hc [] [] Hcl Hf] E1 E2 E3 E4 E5 E6 E7.
  constructor; [by eapply core_alike|constructor..| |by rewrite E6]; unfold clean, wire in *;
    rewrite ?E1, ?E2, ?E3, ?E4, ?E5, ?E7; done.
Qed.

Lemma good_alike s s' :
  good s → ss_udp_session s' = ss_udp_session s →
  ss_udp_peer_packet_number s' = ss_udp_peer_packet_number s → ss_udp_upgrade s' = ss_udp_upgrade s →
  ss_past_wire s' = ss_past_wire s → ss_tcp s' = ss_tcp s →
  ss_tcp_write_interrupted s' = ss_tcp_write_interrupted s → ss_trace s' = ss_trace s →
  ss_active_transport s' = ss_active_transport s →
  ss_last_authenticated_udp_activity s' = ss_last_authenticated_udp_activity s →
  ss_tcp_alive s' = ss_tcp_alive s → good s'.
Proof.
  intros [Hw Ha] E1 E2 E3 E4 E5 E6 E7 E8 E9 E10. split; [by eapply weak_alike|].
  unfold active_ok. by rewrite E1, E2, E8, E9, E10.
Qed.

(** *** Writing to TCP *)
Lemma count_key_update_log k rc s :
  ∃ new, Forall plain new ∧ tcp_messages (new ++ ss_trace s) = tcp_messages (ss_trace s) ∧
    (∀ p, ATun p ∈ new → False) ∧ count_key_update k rc s = with_trace (new ++ ss_trace s) s.
Proof.
  assert (∀ new, Forall (λ a, ∃ m, a = ACount m) new →
    Forall plain new ∧ tcp_messages (new ++ ss_trace s) = tcp_messages (ss_trace s) ∧ (∀ p, ATun p ∈ new → False)) as H.
  { intros new Hn. split_and!.
    - eapply Forall_impl; [exact Hn|]. by intros a [m ->].
    - induction Hn as [|a new [m ->] _ IH]; [done|]. cbn [app]. by rewrite tcp_messages_other.
    - intros p Hp. rewrite Forall_forall in Hn. by destruct (Hn _ Hp). }
  unfold count_key_update.
  destruct (ku_until_update k =? 1); [destruct (maybe_request_key_update k rc).1.1|].
  - exists [ACount MTlsKeyUpdateApplied; ACount MTlsKeyUpdateRequested].
    split_and!; [apply H; repeat constructor; by eexists..|done].
  - exists [ACount MTlsKeyUpdateRequested]. split_and!; [apply H; repeat constructor; by eexists..|done].
  - exists [ACount MTlsKeyUpdateRequested]. split_and!; [apply H; repeat constructor; by eexists..|done].
  - exists []. split_and!; [apply H; constructor..|by destruct s].
Qed.

Lemma core_written new s s' :
  core_ok s → Forall plain new → (∀ p, ATun p ∈ new → False) → same s s' →
  ss_trace s' = new ++ ss_trace s → framed s' → core_ok s'.
Proof.
  intros [Hu Hb Ht _] Hn Hno [_ Eu _ _ _ _ _ Eb _] Et Hf. constructor; rewrite ?Eu, ?Eb, ?Et; try done.
  intros p [H|H]%elem_of_app; [by destruct (Hno p)|by apply Ht].
Qed.

(** On a failure part of the message may be in the stream; nothing follows it. *)
Lemma send_tcp_failed m new c' e s s' :
  core_ok s → trace_ok s → clean s → Forall plain new → (∀ p, ATun p ∈ new → False) →
  tcp_messages (new ++ ss_trace s) = tcp_messages (ss_trace s) → same s s' → ss_trace s' = new ++ ss_trace s →
  chan_sent (ss_tcp s') = chan_sent c' → (∃ n, chan_sent c' = chan_sent (ss_tcp s) ++ take n (wire_message m)) →
  is_peer_protocol_error e = false → err_ok e s' ∧ (ss_tcp_write_interrupted s' = true → drop_ok s').
Proof.
  intros Hc Ht Hcl Hn Hno Em Hs Et Es [n Hs'] He.
  assert (core_ok s') as Hc'. { eapply core_written; try done. exists m, n. by rewrite Es, Hs', Et, Em, Hcl. }
  assert (trace_ok s') as Ht' by (by eapply same_trace).
  split; [split_and!; try done; congruence|]. intros Hi. split_and!; try done; congruence.
Qed.

Lemma send_tcp_raw m (Q : unit → Session → Prop) s :
  core_ok s → trace_ok s → clean s → ss_tcp_write_interrupted s = false → short m →
  (∀ s' new, Forall plain new → ss_trace s' = ATcpSent m :: new ++ ss_trace s → same s s' →
     core_ok s' → trace_ok s' → clean s' → ss_tcp_write_interrupted s' = false → Q tt s') →
  ok (send_tcp_message env m) Q s.
Proof.
  intros Hc Ht Hcl Hf [_ Hm'] HQ. unfold send_tcp_message.
  assert (zlen (Message_payload m) ≤ 4294967295) as Hm by lia. clear Hm'. apply wp_bind, wp_get. rewrite Hf.
  apply wp_bind, wp_modify, wp_then_always. unfold send_tcp_message_inner. apply wp_bind, wp_get.
  apply wp_bind, wp_ask. intros [rc progress]. set (w := match progress with Finished w => w | _ => _ end).
  cbn [ss_tcp with_tcp_write_interrupted].
  pose proof (write_message_cases (ss_tcp s) m rc w Hm) as Hw. destruct (write_message (ss_tcp s) m rc w) as [r c'].
  destruct Hw as [Eb Hr]. apply wp_bind, wp_modify.
  match goal with |- context [count_key_update ?k rc ?s0] =>
    destruct (count_key_update_log k rc s0) as (new & Hn & Em & Hno & ->) end.
  cbn [ss_trace with_tcp with_tick with_tcp_write_interrupted] in *.
  pose proof (λ e s', send_tcp_failed m new c' e s s' Hc Ht Hcl Hn Hno Em) as Herr.
  destruct r as [u|[frame|source]|]; [|apply Herr; by try constructor| |done].
  - apply wp_modify. match goal with |- Q _ ?x => set (s' := x) end.
    assert (same s s') as Hsame by (by constructor).
    assert (Forall plain (ATcpSent m :: new)) as Hn' by (by constructor).
    assert (clean s') as Hcl'.
    { unfold clean. cbn. by rewrite tcp_messages_sent, wire_stream_app, Em, <- Hcl, Hr, <- wire_stream_one. }
    apply (HQ s' new); try done.
    + eapply (core_written (ATcpSent m :: new)); try done; [|by apply clean_framed].
      intros p [?|?]%elem_of_cons; [done|by eapply Hno].
    + by eapply (same_trace (ATcpSent m :: new)).
  - destruct progress; try (apply Herr; by try constructor).
    case_bool_decide; [|apply Herr; by try constructor].
    apply (Herr (Connection TimedOut)); by try constructor.
Qed.

Lemma send_tcp_ok m Q s :
  good s → short m →
  (∀ s' new, Forall plain new → ss_trace s' = ATcpSent m :: new ++ ss_trace s → same s s' → good s' → Q tt s') →
  ok (send_tcp_message env m) Q s.
Proof.
  intros [ [Hc Ht Hg Hcl Hf] Ha] Hm HQ. apply send_tcp_raw; try done.
  intros s' new Hn Et Hs Hc' Ht' Hcl' Hf'. apply (HQ s' new); try done. split; [constructor; try done|].
  - apply (same_upgrade (ATcpSent m :: new) s); [by constructor|done|done|done].
  - pose proof Hs as []. unfold active_ok in *. by rewrite sa_active0, sa_udp0, sa_peer0, sa_last0, sa_alive0.
Qed.

Lemma send_tcp_keeps m s :
  good s → short m → ok (send_tcp_message env m) (λ _ s', keeps s s') s.
Proof. intros Hg Hm. apply send_tcp_ok; [done|done|]. intros s' new _ _ Hs Hg'. by apply same_keeps. Qed.

(** *** The UDP backend *)

(** The session with another UDP state, and some counters incremented. *)
Definition moved_to (s : Session) (q : QuicQspSession) (io : UdpQspIo) (s' : Session) : Prop :=
  ∃ t new, Forall (λ a, ∃ m, a = ACount m) new ∧
    s' = with_trace (new ++ ss_trace s) (with_tick t (with_udp_session (Some (q, io)) s)).

Lemma moved_facts s q io s' :
  moved_to s q io s' →
  ss_udp_session s' = Some (q, io) ∧ ss_udp_peer_packet_number s' = ss_udp_peer_packet_number s ∧
  ss_active_transport s' = ss_active_transport s ∧ ss_udp_upgrade s' = ss_udp_upgrade s ∧
  ss_last_authenticated_udp_activity s' = ss_last_authenticated_udp_activity s ∧
  ss_tcp s' = ss_tcp s ∧ ss_tcp_alive s' = ss_tcp_alive s ∧ ss_last_activity s' = ss_last_activity s ∧
  ss_tcp_write_interrupted s' = ss_tcp_write_interrupted s ∧
  claims (ss_trace s') = claims (ss_trace s).
Proof.
  intros (t & new & Hn & ->). split_and!; try done. cbn.
  induction Hn as [|a new [m ->] _ IH]; [done|]. cbn [app]. by rewrite claims_plain.
Qed.

Lemma weak_counted new s : Forall (λ a, ∃ m, a = ACount m) new → weak s → weak (with_trace (new ++ ss_trace s) s).
Proof.
  intros Hn Hs. induction Hn as [|a new [m ->] _ IH]; [by destruct s|]. by apply (weak_log (ACount m)) in IH.
Qed.

Lemma core_counted new s : Forall (λ a, ∃ m, a = ACount m) new → core_ok s → core_ok (with_trace (new ++ ss_trace s) s).
Proof.
  intros Hn Hs. induction Hn as [|a new [m ->] _ IH]; [by destruct s|]. by apply (core_log (ACount m)) in IH.
Qed.

Lemma core_moved s q io sp s' : core_ok s → session_ok sp q → moved_to s q io s' → core_ok s'.
Proof.
  intros Hc Hq (t & new & Hn & ->).
  apply (core_counted new (with_tick t (with_udp_session (Some (q, io)) s)) Hn).
  destruct Hc as [_ Hb Ht Hf]. constructor; try done. cbn. intros ? ? [= <- <-]. eauto.
Qed.

(** A backend that had nothing to send did not send. *)
Definition idle (io io' : UdpQspIo) : Prop :=
  io_send_segments io = 0 → io_send_segments io' = 0 ∧ io_wire io' = io_wire io.

Lemma weak_moved s q io q' io' sp s' :
  weak s → ss_udp_session s = Some (q, io) → session_ok sp q' → io_step io io' →
  (ss_udp_peer_packet_number s = None → idle io io') → moved_to s q' io' s' → weak s'.
Proof.
  intros [Hc Ht Hg Hcl Hf] Eu Hq [Ep (ts & Ew & Hts)] Hq0 Hm. pose proof Hm as (t & new & Hn & ->).
  apply (weak_counted new (with_tick t (with_udp_session (Some (q', io')) s)) Hn).
  constructor; [| | |done|done].
  - eapply core_moved; [done|done|]. exists t, []. split; [done|]. by destruct s.
  - destruct Ht as [Hw Hp Hs]. specialize (Hp _ _ Eu). constructor; cbn; [|intros ? ? [= <- <-]|done].
    + unfold wire in *. cbn. rewrite Eu in Hw. rewrite Ew. intros x Hx. rewrite app_assoc in Hx.
      apply elem_of_app in Hx as [Hx|Hx]; [by apply Hw|]. rewrite Forall_forall in Hts. rewrite (Hts x Hx).
      destruct (ss_udp_peer_packet_number s) as [n|]; [|].
      * exists n. by apply (claims_recv (_, n)), Hp.
      * destruct (Hq0 eq_refl (proj1 (proj2 Hp))) as [_ Ew']. rewrite Ew' in Ew. apply (f_equal length) in Ew. rewrite length_app in Ew.
        destruct ts; [by apply elem_of_nil in Hx|simpl in Ew; lia].
    + destruct (ss_udp_peer_packet_number s); [by rewrite Ep|]. destruct Hp as (? & Hz & ?).
      split_and!; [done|by apply Hq0|congruence].
  - destruct Hg as [? Hp ? ?]. constructor; try done. cbn. intros H. destruct (Hp H) as (_ & ? & ?). by split_and!.
Qed.

Lemma keeps_moved s q io q' io' sp s' :
  good s → ss_udp_session s = Some (q, io) → session_ok sp q' → io_step io io' →
  (ss_udp_peer_packet_number s = None → idle io io') → moved_to s q' io' s' → keeps s s'.
Proof.
  intros [Hw Ha] Eu Hq Hio Hq0 Hm. pose proof (moved_facts _ _ _ _ Hm) as (E1 & E2 & E3 & E4 & E5 & E6 & E7 & E8 & _).
  split_and!; [split; [by eapply weak_moved|]|unfold armed; by rewrite E4, E5|unfold input; by rewrite E6, E7, E8].
  unfold active_ok in *. rewrite E1, E2, E3, E5, E7. destruct (ss_active_transport s); [done|]. by destruct Ha as (_ & ? & ?).
Qed.

Lemma flush_udp_raw (Q : res IoError unit → Session → Prop) E C s :
  (ss_udp_session s = None → Q (Ok tt) s) →
  (∀ q io io' s' r, ss_udp_session s = Some (q, io) → io_step io io' → (io_send_segments io = 0 → io' = io) →
     moved_to s q io' s' → r ≠ Panic → Q r s' ∧ C s') →
  wp (flush_udp_session env) Q E C s.
Proof.
  intros H1 H2. unfold flush_udp_session. apply wp_bind, wp_get.
  destruct (ss_udp_session s) as [ [q io]|] eqn:Eu; [|by apply wp_ret, H1].
  apply wp_bind, wp_ask. intros socket. destruct (flush_pending_step io socket) as (Hs & Hp & H0).
  destruct (flush_pending io socket) as [io' r]. cbn [fst snd] in *. apply wp_bind, wp_modify.
  match goal with |- wp _ _ _ _ ?x => assert (moved_to s q io' x) as Hm by (eexists _, []; split; [done|by destruct s]) end.
  destruct (H2 q io io' _ r eq_refl Hs H0 Hm Hp) as [HQ HC].
  destruct r as [?|[]|]; done.
Qed.

Lemma queue_udp_raw m (Q : res UdpQspError unit → Session → Prop) E C s :
  core_ok s → bytes_ok (Message_payload m) → zlen (Message_payload m) ≤ 2 ^ 30 →
  (ss_udp_session s = None → Q (Ok tt) s) →
  (∀ q io q' io' sp s' r, ss_udp_session s = Some (q, io) → session_ok sp q' → io_step io io' →
     moved_to s q' io' s' → r ≠ Panic → Q r s' ∧ C s') →
  wp (queue_udp_message env m) Q E C s.
Proof.
  intros Hc Hb Hl H1 H2. unfold queue_udp_message. apply wp_bind, wp_get.
  destruct (ss_udp_session s) as [ [q io]|] eqn:Eu; [|by apply wp_ret, H1].
  rewrite encode_message_wire by lia. cbn [app]. destruct (co_udp _ Hc _ _ Eu) as [sp Hq].
  assert (bytes_ok (wire_message m) ∧ zlen (wire_message m) < 2 ^ 31) as [Hb' Hl'].
  { rewrite zlen_wire_message. unfold HEADER_LEN. split; [|lia]. by apply wire_message_ok. }
  destruct (send_ok sp q (wire_message m) (λ _, None) Hq Hb' Hl') as [Hq' Hr].
  destruct (send q (wire_message m) (λ _, None)) as [q' r]. cbn [fst snd] in *.
  assert (r ≠ Panic) as Hrp by (destruct Hr as [(_ & _ & ->)|(_ & _ & _ & ? & _ & ->)]; done). clear Hr.
  destruct r as [packet|e|]; [| |done].
  - apply wp_bind, wp_ask. intros socket. destruct (send_packet_step io packet socket) as [Hs Hp].
    destruct (send_packet io packet socket) as [io' r]. cbn [fst snd] in *. apply wp_bind, wp_modify.
    match goal with |- wp _ _ _ _ ?x => set (s1 := x) end.
    assert (∀ new, Forall (λ a, ∃ m, a = ACount m) new → moved_to s q' io' (with_trace (new ++ ss_trace s1) s1)) as Hm.
    { intros new Hn. by exists (S (ss_tick s)), new. }
    assert (∀ r, r ≠ Panic → Q r s1 ∧ C s1) as HQC.
    { intros r' Hr'. eapply (H2 _ _ _ _ _ _ r'); try done. pose proof (Hm [] (Forall_nil_2 _)) as Hm0. by destruct s. }
    destruct r as [?|e|]; [| |done].
    + destruct (eqb _ _).
      * refine (proj1 (HQC (Ok tt) _)); done.
      * refine (proj1 (H2 q io q' io' sp (log (ACount MTxKeyPhaseTransition) s1) (Ok tt) eq_refl Hq' Hs _ _)); [|done].
        apply (Hm [_]). repeat constructor. by eexists.
    + destruct e; first [exact (proj2 (HQC (Ok tt) ltac:(done)))|refine (proj1 (HQC _ _)); done].
  - apply wp_bind, wp_modify, wp_ret. eapply H2; [done|done|apply io_step_refl| |done].
    exists (ss_tick s), []. split; [done|]. by destruct s.
Qed.

Lemma flush_udp_keeps s : good s → ok (flush_udp_session env) (λ r s', r ≠ Panic ∧ keeps s s') s.
Proof.
  intros Hg. apply flush_udp_raw; [intros _; by split; [|apply keeps_refl] |].
  intros q io io' s' r Eu Hs H0 Hm Hr. destruct (co_udp _ (we_core _ (proj1 Hg)) _ _ Eu) as [sp Hq].
  assert (keeps s s') as Hk. { eapply keeps_moved; try done. intros _ H. by rewrite H0. }
  split; [done|]. apply good_drop, Hk.
Qed.

(** Before the first authenticated packet there is no one to send to. *)
Definition peered (s : Session) : Prop :=
  is_Some (ss_udp_session s) → is_Some (ss_udp_peer_packet_number s).

Lemma queue_udp_keeps m s :
  good s → peered s → short m → ok (queue_udp_message env m) (λ r s', r ≠ Panic ∧ keeps s s') s.
Proof.
  intros Hg Hp [Hb Hl]. apply queue_udp_raw; [apply Hg|done|done|intros _; by split; [|apply keeps_refl] |].
  intros q io q' io' sp s' r Eu Hq Hs Hm Hr.
  assert (keeps s s') as Hk. { eapply keeps_moved; try done. intros H. by destruct (Hp ltac:(by rewrite Eu)); congruence. }
  split; [done|]. apply good_drop, Hk.
Qed.

(** *** Giving up UDP *)
Definition fresh_upgrade (s : Session) : Prop := ss_udp_upgrade s = UdpUpgradeState_default.

Lemma upgrade_fresh s : fresh_upgrade s → upgrade_ok s.
Proof. intros H. constructor; rewrite H; cbn; try done. split; [constructor|done]. Qed.

Lemma retire_ok (Q : unit → Session → Prop) s :
  weak s →
  (∀ s', weak s' → fresh_upgrade s' → ss_udp_session s' = None → ss_active_transport s' = ss_active_transport s →
     input s' = input s → Q tt s') →
  ok (retire_udp_transport env cfg) Q s.
Proof.
  intros [ [Hu Hb Ht Hf] [Hw _ Hs] _ Hcl Hi] HQ. apply HQ; try done. constructor; try done.
  - constructor; [|done|exact Hs]. cbn. intros t. unfold wire. cbn. rewrite app_nil_r. apply Hw.
  - by apply upgrade_fresh.
Qed.

Lemma set_active_tcp_ok (Q : unit → Session → Prop) s :
  weak s → ss_tcp_alive s = true →
  (∀ s', good s' → ss_udp_upgrade s' = ss_udp_upgrade s →
     ss_last_authenticated_udp_activity s' = ss_last_authenticated_udp_activity s →
     ss_active_transport s' = ActiveTcp → input s' = input s → Q tt s') →
  ok (set_active_transport ActiveTcp) Q s.
Proof.
  intros Hw Hal HQ. unfold set_active_transport. apply wp_bind, wp_get. case_bool_decide as Ha.
  { apply wp_ret, HQ; try done. split; [done|]. unfold active_ok. by rewrite Ha. }
  destruct (ss_active_transport s); [done|]. apply wp_bind, wp_bind, wp_modify, wp_modify, wp_modify.
  match goal with |- context [log (ACount _) ?x] => set (s1 := x) end.
  assert (weak s1 ∧ ss_udp_upgrade s1 = ss_udp_upgrade s ∧ 
    ss_last_authenticated_udp_activity s1 = ss_last_authenticated_udp_activity s ∧
    input s1 = input s) as (Hw1 & E1 & E2 & E3).
  { unfold s1. destruct (ss_udp_session s) as [ [q io]|] eqn:Eu; [|done]. split; [|done].
    destruct (co_udp _ (we_core _ Hw) _ _ Eu) as [sp Hq].
    apply (weak_moved s q io q (clear_send_slab io) sp); try done; [apply (io_step_refl io)|].
    exists (ss_tick s), []. split; [done|]. by destruct s. }
  apply HQ; try done. split; [|unfold input in E3; cbn; congruence].
  apply (weak_log (ACount MTransportUdpToTcp)) in Hw1; [|done|done].
  apply (weak_log (ASwitched ActiveTcp)) in Hw1; [|done|done]. by apply (weak_alike _ _ Hw1).
Qed.

Lemma fallback_request_ok s :
  good s →
  ok (send_tcp_fallback_request env) (λ _ s', keeps s s' ∧ ss_active_transport s' = ss_active_transport s) s.
Proof.
  intros Hg. unfold send_tcp_fallback_request. apply wp_bind, wp_get.
  destruct (ss_pending_tcp_fallback s); [by apply wp_ret; split; [apply keeps_refl|] |].
  apply wp_bind, wp_ask. intros id. apply wp_bind. set (s1 := with_tick (S (ss_tick s)) s).
  apply send_tcp_ok; [by apply (good_alike s)|by apply (short_u64 _ id)|].
  intros s' new _ _ Hs Hg'. destruct (same_keeps _ _ Hs Hg') as (_ & Ha & Ei). apply wp_modify.
  split; [|apply Hs]. split_and!; [by apply (good_alike s')|exact Ha|exact Ei].
Qed.

Lemma fallback_request_keeps s :
  good s → ok (send_tcp_fallback_request env) (λ _ s', keeps s s') s.
Proof. intros Hg. eapply wp_mono; [by apply fallback_request_ok|]. by intros _ s' [? _]. Qed.

Lemma apply_recovery_ok message recovery e s :
  weak s → fresh_upgrade s → is_peer_protocol_error e = false → (∀ m, message = Some m → short m) →
  ok (apply_udp_failure_recovery env message recovery e)
    (λ _ s', good s' ∧ armed s' ∧ input s' = input s) s.
Proof.
  intros Hw Hu He Hm. unfold apply_udp_failure_recovery. apply wp_bind, wp_get.
  destruct (ss_tcp_alive s) eqn:Eal; cbn [negb]; [|by apply weak_err].
  apply wp_bind, set_active_tcp_ok; [done|done|]. intros s1 Hg1 E1 _ _ Eb.
  assert (armed s1) as Ha1. { unfold armed. by rewrite E1, Hu. }
  destruct recovery; [|eapply wp_mono; [by apply fallback_request_keeps|]|by apply wp_ret].
  - apply wp_bind. eapply wp_mono; [by apply fallback_request_keeps|]. cbv beta. intros _ s2 (Hg2 & Ha2 & Eb2).
    destruct message as [m|]; [|apply wp_ret; split_and!; [done|auto|congruence] ].
    eapply wp_mono; [apply send_tcp_keeps; by auto|]. cbv beta. intros _ s3 (Hg3 & Ha3 & Eb3). split_and!; [done|auto|congruence].
  - cbv beta. intros _ s2 (Hg2 & Ha2 & Eb2). split_and!; [done|auto|congruence].
Qed.

Lemma recover_flush_keeps message recovery source s :
  good s → (∀ m, message = Some m → short m) →
  ok (recover_from_udp_flush_error env cfg message recovery source) (λ _ s', keeps s s') s.
Proof.
  intros Hg Hm. apply wp_bind, retire_ok; [apply Hg|]. intros s1 Hw1 Hf1 _ _ Eb1.
  eapply wp_mono; [by apply apply_recovery_ok|]. cbv beta. intros _ s2 (? & ? & Eb2). split_and!; [done|done|congruence].
Qed.

Lemma recover_send_keeps m recovery e s :
  good s → short m → ok (recover_from_udp_send_error env cfg m recovery e) (λ _ s', keeps s s') s.
Proof.
  intros Hg Hm. unfold recover_from_udp_send_error. destruct e; try by apply good_err.
  all: apply wp_bind, retire_ok; [apply Hg|]; intros s1 Hw1 Hf1 _ _ Eb1.
  all: eapply wp_mono; [apply apply_recovery_ok; try done; by intros ? [= <-]|].
  all: cbv beta; intros _ s2 (? & ? & Eb2); split_and!; [done|done|congruence].
Qed.

Lemma send_udp_keeps m recovery s :
  good s → peered s → short m → ok (send_udp_message env cfg m recovery) (λ _ s', keeps s s') s.
Proof.
  intros Hg Hp Hm. apply wp_bind. eapply wp_mono; [by apply queue_udp_keeps|]. cbv beta. intros r s1 [Hr Hk].
  destruct r as [?|e|]; [by apply wp_ret| |done].
  eapply wp_mono; [apply recover_send_keeps; [apply Hk|done] |]. cbv beta. intros _ s2. by apply keeps_trans.
Qed.

Lemma send_udp_and_flush_keeps m recovery s :
  good s → peered s → short m → ok (send_udp_message_and_flush env cfg m recovery) (λ _ s', keeps s s') s.
Proof.
  intros Hg Hp Hm. apply wp_bind. eapply wp_mono; [by apply send_udp_keeps|]. cbv beta. intros _ s1 Hk1.
  apply wp_bind. eapply wp_mono; [apply flush_udp_keeps, Hk1|]. cbv beta. intros r s2 [Hr Hk2].
  destruct r as [?|e|]; [apply wp_ret; by eapply keeps_trans| |done].
  eapply wp_mono; [apply recover_flush_keeps; [apply Hk2|by intros ? [= <-] ] |]. cbv beta. intros _ s3 Hk3.
  eapply keeps_trans; [done|]. by eapply keeps_trans.
Qed.

(** *** The upgrade *)
Lemma remember_stale_ok ids id :
  NoDup ids → zlen ids ≤ 16 → NoDup (remember_stale ids id) ∧ zlen (remember_stale ids id) ≤ 16.
Proof.
  intros Hnd Hl. unfold remember_stale, MAX_STALE_UPGRADE_IDS. case_bool_decide as Hin; [done|].
  assert (∀ l, NoDup l → zlen l < 16 → (id ∉ l) → NoDup (l ++ [id]) ∧ zlen (l ++ [id]) ≤ 16) as H.
  { intros l Hl1 Hl2 Hl3. rewrite zlen_app. change (zlen [id]) with 1. split; [|lia].
    apply NoDup_app. split_and!; [done| |apply NoDup_singleton]. by intros x Hx ->%list_elem_of_singleton. }
  rewrite Z.geb_leb. destruct (Z.leb_spec 16 (zlen ids)); [|by apply H; try lia].
  destruct ids as [|x ids]; [done|]. rewrite zlen_cons in *. apply NoDup_cons in Hnd as [? ?].
  change (drop 1 (x :: ids)) with ids. apply H; [done|lia|set_solver].
Qed.

Lemma good_upgrade u s : good s → upgrade_ok (with_udp_upgrade u s) → good (with_udp_upgrade u s).
Proof.
  intros [ [Hc [] _ Hcl Hf] Ha] Hu. split; [|exact Ha].
  constructor; [by apply (core_alike s)|by constructor|done|done|done].
Qed.

Lemma with_same_upgrade s : with_udp_upgrade (ss_udp_upgrade s) s = s.
Proof. by destruct s. Qed.

Lemma note_upgrade_ok id source (Q : bool → Session → Prop) s :
  good s → Q false s →
  (∀ u, upgrade_id u = Some id → (probe_seen u = true → probe_seen (ss_udp_upgrade s) = true) →
     good (with_udp_upgrade u s) → Q true (with_udp_upgrade u s)) →
  ok (note_upgrade_id id source) Q s.
Proof.
  intros Hg Hf Ht. pose proof Hg as [ [_ _ [ [Hnd Hl] Hp Hr Hs] _ _] _].
  unfold note_upgrade_id. apply wp_bind, wp_get. destruct (_ && _); [by apply wp_ret|].
  destruct (upgrade_id (ss_udp_upgrade s)) as [existing|] eqn:Eid.
  - destruct (Z.eqb_spec existing id) as [->|].
    { apply wp_ret. rewrite <- (with_same_upgrade s). apply Ht; [done|done|]. by rewrite with_same_upgrade. }
    destruct source; [|by apply wp_ret]. do 3 apply wp_bind, wp_modify. apply wp_ret.
    apply (Ht (mkUpgrade (Some id) false false false (remember_stale (stale_upgrade_ids (ss_udp_upgrade s)) existing))); try done.
    apply good_upgrade; [done|]. constructor; try done. by apply remember_stale_ok.
  - apply wp_bind, wp_modify, wp_ret. apply Ht; [done|done|]. apply good_upgrade; [done|]. constructor; cbn; [done|..].
    + intros H. destruct (Hp H) as (_ & _ & ? & ? & _). done.
    + intros H. by destruct (Hr H) as (? & ? & _).
    + intros H. by destruct (Hs H) as (_ & ? & ? & ? & _).
Qed.

Lemma probe_in_app id new tr : Forall plain new → probe_in id tr → probe_in id (new ++ tr).
Proof. intros Hn H. induction Hn as [|a new Ha _ IH]; [done|]. apply probe_in_weaken; [by intros ->|done]. Qed.

Lemma ready_in_app id new tr : Forall plain new → ready_in id tr → ready_in id (new ++ tr).
Proof. intros Hn H. induction Hn as [|a new Ha _ IH]; [done|]. apply ready_in_weaken; [by intros ->|done]. Qed.

Lemma maybe_switch_keeps s : good s → ok (maybe_send_switch_to_udp env) (λ _ s', keeps s s') s.
Proof.
  intros Hg. pose proof Hg as [ [_ _ [Hst Hp Hr Hs] _ _] _].
  unfold maybe_send_switch_to_udp. apply wp_bind, wp_get.
  destruct (switch_to_udp_sent (ss_udp_upgrade s)) eqn:Es, (probe_seen (ss_udp_upgrade s)) eqn:Ep,
    (ready_seen (ss_udp_upgrade s)) eqn:Er; cbn [orb negb]; try (by apply wp_ret, keeps_refl).
  destruct (upgrade_id (ss_udp_upgrade s)) as [id|] eqn:Eid; [|by apply wp_ret, keeps_refl].
  destruct (Hp eq_refl) as (Hu & Hn & ? & [= <-] & Hpr). destruct (Hr eq_refl) as (? & [= <-] & Hre).
  apply wp_bind, send_tcp_ok; [done|by apply (short_u64 _ id)|]. intros s1 new Hnew Et Hsame Hg1.
  pose proof Hsame as [_ E1 E2 E3 E4 _ _ _ _]. apply wp_modify. split_and!.
  - apply good_upgrade; [done|]. constructor; cbn; rewrite ?E1, ?E2, ?E4, ?Et; cbn; [done|..].
    + intros _. split_and!; try done. exists id. split; [done|]. apply probe_in_weaken; [done|]. by apply probe_in_app.
    + intros _. exists id. split; [done|]. apply ready_in_weaken; [done|]. by apply ready_in_app.
    + intros _. split; [done|]. exists id, []. split; [done|]. exists (new ++ ss_trace s).
      split_and!; [done|by apply not_elem_of_nil|by apply probe_in_app|by apply ready_in_app].
  - unfold armed. cbn. by rewrite E3, E4.
  - apply (same_keeps _ _ Hsame Hg1).
Qed.

Lemma handle_upgrade_probe_ok payload s :
  good s → bytes_ok payload → is_Some (ss_udp_session s) → is_Some (ss_udp_peer_packet_number s) →
  AUdpMessage (MUpgradeProbe payload) ∈ since (ss_trace s) →
  ok (handle_upgrade_probe env cfg payload)
    (λ _ s', good s' ∧ input s' = input s) s.
Proof.
  intros Hg Hb Hu Hp Hin. unfold handle_upgrade_probe. apply wp_bind, wp_try.
  { exact (pc_no_panic (A := UpgradeProbePayload) _ Hb). }
  2: { intros e _. by apply good_err. }
  intros probe Ed. apply wp_bind, note_upgrade_ok; [done|by apply wp_ret|].
  intros u Eid _ Hg1. cbn [negb]. apply wp_bind, wp_modify. cbn [ss_udp_upgrade with_udp_upgrade].
  match goal with |- wp _ _ _ _ ?x => set (s2 := x) end.
  assert (good s2) as Hg2.
  { pose proof Hg1 as [ [_ _ [Hst _ Hr Hs] _ _] _]. cbn in *.
    change s2 with (with_udp_upgrade (ss_udp_upgrade s2) (with_udp_upgrade u s)).
    apply good_upgrade; [done|]. constructor; cbn; [done| |done|intros H; split; [done|by apply Hs] ].
    intros _. split_and!; [done|done|]. exists (probe_upgrade_id probe). split; [done|]. by exists payload, probe. }
  apply wp_bind. eapply wp_mono.
  - apply send_udp_and_flush_keeps; [exact Hg2|by intros _|].
    unfold short. cbn [Message_payload]. unfold UpgradeProbeAckPayload_encode. cbn [app].
    split; [apply bytes_ok_app; auto with slt|]. rewrite zlen_app, !zlen_to_be. done.
  - cbv beta. intros _ s3 Hk3. apply wp_bind. eapply wp_mono; [apply maybe_switch_keeps, Hk3|]. cbv beta. intros _ s4 Hk4.
    apply wp_ret. destruct (keeps_trans _ _ _ Hk3 Hk4) as (? & _ & E). by split.
Qed.

Lemma handle_udp_ready_keeps payload s :
  good s → bytes_ok payload → ATcpRecv (MUdpReady payload) ∈ since (ss_trace s) →
  ok (handle_udp_ready env payload) (λ _ s', keeps s s') s.
Proof.
  intros Hg Hb Hin. unfold handle_udp_ready. apply wp_bind, wp_try.
  { exact (pc_no_panic (A := UdpReadyPayload) _ Hb). }
  2: { intros e _. by apply good_err. }
  intros ready Ed. apply wp_bind, note_upgrade_ok; [done|by apply wp_ret, keeps_refl|].
  intros u Eid Hpu Hg1. cbn [negb]. apply wp_bind, wp_modify. cbn [ss_udp_upgrade with_udp_upgrade].
  match goal with |- wp _ _ _ _ ?x => set (s2 := x) end.
  assert (good s2) as Hg2.
  { pose proof Hg1 as [ [_ _ [Hst Hp _ Hs] _ _] _]. cbn in *.
    change s2 with (with_udp_upgrade (ss_udp_upgrade s2) (with_udp_upgrade u s)).
    apply good_upgrade; [done|]. constructor; cbn; [done|done| |done].
    intros _. exists (ready_upgrade_id ready). split; [done|]. by exists payload, ready. }
  apply wp_bind. eapply wp_mono; [by apply maybe_switch_keeps|]. cbv beta. intros _ s3 Hk3. apply wp_ret.
  eapply keeps_trans; [|exact Hk3]. split_and!; [done| |done]. unfold armed. cbn. auto.
Qed.

Lemma set_active_udp_ok (Q : unit → Session → Prop) s :
  good s → is_Some (ss_udp_session s) → is_Some (ss_udp_peer_packet_number s) →
  is_Some (ss_last_authenticated_udp_activity s) → committed (ACount MTransportTcpToUdp :: ss_trace s) →
  (∀ s', good s' → ss_udp_upgrade s' = ss_udp_upgrade s →
     ss_last_authenticated_udp_activity s' = ss_last_authenticated_udp_activity s →
     input s' = input s → Q tt s') →
  ok (set_active_transport ActiveUdpQsp) Q s.
Proof.
  intros Hg Hu Hp Hl Hc HQ. unfold set_active_transport. apply wp_bind, wp_get. case_bool_decide as Ha.
  { by apply wp_ret, HQ. }
  destruct (ss_active_transport s); [|done]. apply wp_bind, wp_modify, wp_modify. apply HQ; try done.
  apply (good_log (ACount MTransportTcpToUdp)) in Hg; [|done|done].
  destruct Hg as [ [Hco [Hw Hpe Hs] Hup Hcl Hf] _]. split; [|done]. constructor; [| | |done|done].
  - destruct Hco as [? ? Ht (m & n & Hfr)]. constructor; try done.
    + intros p [?|H]%elem_of_cons; [done|by apply Ht].
    + exists m, n. exact Hfr.
  - constructor; cbn.
    + intros t Ht. destruct (Hw t Ht) as [pn H]. exists pn. by right.
    + exact Hpe.
    + intros [|x a] b E; simplify_eq/=; [exact Hc|by eapply Hs].
  - by apply (upgrade_log (ASwitched ActiveUdpQsp)) in Hup; [destruct Hup|].
Qed.

Lemma handle_switch_ack_keeps payload s tr :
  good s → armed s → bytes_ok payload → ss_trace s = ATcpRecv (MSwitchAck payload) :: tr →
  ok (handle_switch_ack env payload) (λ _ s', keeps s s') s.
Proof.
  intros Hg Ha Hb Et. unfold handle_switch_ack. apply wp_bind, wp_try.
  { exact (pc_no_panic (A := SwitchAckPayload) _ Hb). }
  2: { intros e _. by apply good_err. }
  intros ack Ed. apply wp_bind, wp_get.
  destruct (upgrade_id (ss_udp_upgrade s)) as [id|] eqn:Eid; [|by apply wp_ret, keeps_refl].
  destruct (Z.eqb_spec id (switch_ack_upgrade_id ack)) as [Eack|]; cbn [negb]; [|by apply wp_ret, keeps_refl].
  destruct (switch_to_udp_sent (ss_udp_upgrade s)) eqn:Es; cbn [negb]; [|by apply wp_ret, keeps_refl].
  pose proof Hg as [ [_ _ [ [Hnd Hlen] Hp _ Hs] _ _] _]. destruct (Hs Es) as (Hpr & id' & a & Eid' & Hask).
  destruct (Hp Hpr) as (Hu & Hpe & _). assert (id' = id) as -> by congruence.
  apply wp_bind, set_active_udp_ok; [done|done|done|by apply Ha| |].
  { exists id, (ACount MTransportTcpToUdp :: a), payload, ack. split_and!; [by apply asked_weaken| |done|done].
    right. destruct Hask as (b & Et' & _). rewrite Et in Et'. destruct a as [|x a]; simplify_eq/=. by left. }
  intros s1 Hg1 Eu1 El1 Eb1. apply wp_bind. eapply wp_mono; [apply send_tcp_keeps; [done|by apply (short_u64 _ (switch_ack_upgrade_id ack))] |].
  cbv beta. intros _ s2 (Hg2 & Ha2 & Eb2). do 2 apply wp_bind, wp_modify. apply wp_ret. split_and!.
  - match goal with |- good ?x => set (s3 := x) end.
    change s3 with (with_udp_upgrade (ss_udp_upgrade s3) s2) || (replace s3 with (with_udp_upgrade (ss_udp_upgrade s3) s2) by done).
    apply good_upgrade; [done|]. constructor; try done. cbn. destruct Hg2 as [ [_ _ [ [? ?] _ _ _] _ _] _].
    by apply remember_stale_ok.
  - by intros _.
  - exact (eq_trans Eb2 Eb1).
Qed.

Lemma handle_fallback_to_tcp_keeps payload s :
  good s → bytes_ok payload → ss_tcp_alive s = true → ok (handle_fallback_to_tcp env payload) (λ _ s', keeps s s') s.
Proof.
  intros Hg Hb Hal. unfold handle_fallback_to_tcp. apply wp_bind, wp_try.
  { exact (pc_no_panic (A := FallbackToTcpPayload) _ Hb). }
  2: { intros e _. by apply good_err. }
  intros request _. apply wp_bind, wp_get. apply wp_bind.
  apply (wp_mono _ (λ _ s', keeps s s')).
  - case_bool_decide; [by apply wp_ret, keeps_refl|]. apply wp_bind, set_active_tcp_ok; [apply Hg|done|].
    intros s1 Hg1 _ _ _ Eb. apply wp_bind, wp_modify, wp_modify. split_and!; [|by intros _|done].
    apply (good_alike (with_udp_upgrade UdpUpgradeState_default s1)); try done.
    apply good_upgrade; [done|]. by apply upgrade_fresh.
  - intros _ s1 Hk1. apply wp_bind. eapply wp_mono.
    + apply send_tcp_keeps; [apply Hk1|by apply (short_u64 _ (ftt_fallback_id request))].
    + cbv beta. intros _ s2 Hk2. apply wp_ret. by eapply keeps_trans.
Qed.

Lemma handle_fallback_ok_keeps payload s :
  good s → bytes_ok payload → ok (handle_fallback_ok payload) (λ _ s', keeps s s') s.
Proof.
  intros Hg Hb. unfold handle_fallback_ok. apply wp_bind, wp_try.
  { exact (pc_no_panic (A := FallbackOkPayload) _ Hb). }
  2: { intros e _. by apply good_err. }
  intros ok _. apply wp_bind, wp_get, wp_bind. case_bool_decide; [apply wp_modify|]; apply wp_ret; [|by apply keeps_refl].
  split_and!; [by apply (good_alike s)|done|done].
Qed.

(** *** TUN *)
Lemma log_tun_good packet s :
  good s → ipv4_header packet → sub packet 12 16 = c_assigned_ipv4 cfg → good (log (ATun packet) s).
Proof.
  intros [ [ [Hu Hb Ht (m & n & Hf)] [Hw Hp Hs] Hup Hcl Hi] Ha] Hh Hv. split; [|exact Ha].
  constructor; [| | |done|done].
  - constructor; try done; [|by exists m, n]. intros p [[= <-]|H]%elem_of_cons; [done|by apply Ht].
  - constructor; cbn; [|exact Hp|].
    + intros t Ht'. destruct (Hw t Ht') as [pn H]. exists pn. by right.
    + intros [|x a] b E; simplify_eq/=. by eapply Hs.
  - by apply (upgrade_log (ATun packet)) in Hup; [destruct Hup|].
Qed.

Lemma forward_data_keeps packet s :
  good s → bytes_ok packet → ok (forward_data env cfg packet) (λ _ s', keeps s s') s.
Proof.
  intros Hg Hb. unfold forward_data. destruct (validate_packet_src_ok (c_assigned_ipv4 cfg) packet Hb) as (b & Ev & Hv).
  apply wp_bind. unfold should_forward_packet_to_tun. rewrite Ev. apply wp_try; [done| |done]. intros ? [= <-].
  destruct b; [|by apply wp_bind, wp_ret, wp_ret, keeps_refl].
  destruct (proj1 Hv eq_refl) as [Hh Hsrc]. pose proof (log_tun_good _ _ Hg Hh Hsrc) as Hg1. apply wp_bind, wp_bind, wp_bind, wp_modify, wp_bind, wp_ask.
  match goal with |- ∀ a, wp _ _ _ _ ?x => assert (keeps s x) as Hk end.
  { split_and!; [by apply (good_alike _ _ Hg1)|done|done]. }
  intros [o|e|]; [|by apply good_err, Hk|by apply good_drop, Hk].
  apply wp_ret. destruct o; [by apply wp_ret|by apply wp_ret|]. by apply good_err, Hk.
Qed.

(** *** Registration *)
Lemma short_register_fail code : short (MRegisterFail (RegisterFailPayload_encode (mkRegisterFail code) [])).
Proof. split; [|done]. cbn. constructor; [apply to_u8_ok|constructor]. Qed.

Lemma reject_keeps code s : good s → ok (reject_registration env code) (λ _ s', keeps s s') s.
Proof.
  intros Hg. unfold reject_registration. apply wp_bind. eapply wp_mono.
  - apply send_tcp_keeps; [done|apply short_register_fail].
  - cbv beta. intros _ s' Hk. by apply wp_ret.
Qed.

(** A new UDP session, with no peer and no upgrade yet. *)
Lemma good_installed q io sp s s' :
  weak s → session_ok sp q → io_wire io = [] → io_send_segments io = 0 ∧ io_peer io = placeholder_peer →
  ss_active_transport s' = ActiveTcp → ss_udp_session s' = Some (q, io) → ss_past_wire s' = wire s →
  ss_udp_peer_packet_number s' = None → ss_udp_upgrade s' = UdpUpgradeState_default → ss_tcp s' = ss_tcp s →
  ss_tcp_write_interrupted s' = ss_tcp_write_interrupted s → ss_trace s' = ARegistered :: ss_trace s → ss_tcp_alive s' = true → good s'.
Proof.
  intros [ [Hu Hb Ht (m & n & Hf)] [Hw _ Hs] _ Hcl Hi] Hq Ew Es Ea Eu Epw Ep Eg Et Ei Etr Eal.
  split; [|unfold active_ok; by rewrite Ea].
  constructor; [| |by apply upgrade_fresh| |by rewrite Ei].
  - constructor; rewrite ?Eu, ?Et, ?Etr; try done.
    + intros ? ? [= <- <-]. by exists sp.
    + intros p [?|H]%elem_of_cons; [done|by apply Ht].
    + exists m, n. by rewrite Et, Etr, tcp_messages_other.
  - constructor; rewrite ?Eu, ?Ep, ?Etr.
    + unfold wire at 1. rewrite Epw, Eu, Ew, app_nil_r. intros t H. destruct (Hw t H) as [pn ?]. exists pn. by right.
    + by intros ? ? [= <- <-].
    + intros [|x a] b E; simplify_eq/=. by eapply Hs.
  - unfold clean. by rewrite Et, Etr, tcp_messages_other.
Qed.

Lemma register_ok_encoded cid :
  Cid_ok cid → cid_len cid = MAX_DCID_LEN →
  ∃ b, RegisterOkPayload_encode (mkRegisterOk cid) [] = Ok b ∧ short (MRegisterOk b).
Proof.
  intros Hc Hcl. set (ok := mkRegisterOk cid). assert (pc_wf ok) as Hw by done.
  destruct (pc_encode_appends (A := RegisterOkPayload) ok Hw) as (b & Hb & Eb).
  specialize (Eb []). change (RegisterOkPayload_encode ok [] = Ok b) in Eb. exists b. split; [done|].
  split; [done|]. cbn [Message_payload]. unfold RegisterOkPayload_encode in Eb. cbn [rok_client_to_server_cid ok] in Eb.
  rewrite Hcl, Z.eqb_refl, cid_bytes_of_ok in Eb by done. res_simpl in Eb. cbn [negb] in Eb.
  apply (inj Ok) in Eb as <-. cbn [app]. rewrite zlen_cons, zlen_cid_slice, Hcl by done. done.
Qed.

Lemma install_keeps register keys prefix s :
  good s → ss_active_transport s = ActiveTcp → RegisterCid_wf register →
  UdpQspKeys_from_register register = Ok keys →
  ok (install_udp_session env cfg register keys prefix) (λ _ s', keeps s s') s.
Proof.
  intros Hg Ha (Hc & Hcl & Hd & _ & _ & Hp & Hr) Hk. unfold install_udp_session.
  apply wp_bind, wp_ask. intros others. apply wp_bind, wp_modify, wp_bind, wp_ask. intros created. apply wp_bind.
  match goal with |- wp _ _ _ _ ?x => set (s1 := x) end.
  assert (good s1) as Hg1 by (by apply (good_alike s)).
  destruct created as [max_gso|e]; [|by apply good_err]. apply wp_try; [done| |done]. intros ? [= <-].
  set (q := QuicQspSession_new _ _ _ _ _ _). do 4 apply wp_bind, wp_modify.
  match goal with |- wp _ _ _ _ ?x => set (s2 := x) end.
  assert (good s2) as Hg2.
  { eapply (good_installed q (UdpQspIo_new max_gso placeholder_peer) (spec_new (reg_pn_start_rx register)) s1); try done.
    - apply Hg1.
    - by eapply session_ok_new.
    - destruct Hg as [_ Hac]. unfold active_ok in Hac. by rewrite Ha in Hac. }
  assert (keeps s s2) as Hk2 by (by split_and!).
  destruct (register_ok_encoded (reg_client_to_server_cid register) Hc Hcl) as (b & -> & Hb).
  apply wp_bind, wp_try; [done| |done]. intros ? [= <-].
  apply wp_bind. eapply wp_mono; [by apply send_tcp_keeps|].
  cbv beta. intros _ s3 Hk3. apply wp_ret. by eapply keeps_trans.
Qed.

Lemma insert_cid_no_panic r c sid p tx : (insert_cid r c sid p tx).2 ≠ Panic.
Proof. unfold insert_cid. by repeat case_match. Qed.

Lemma handle_register_cid_keeps payload s :
  good s → bytes_ok payload → ss_active_transport s = ActiveTcp →
  ok (handle_register_cid env cfg payload) (λ _ s', keeps s s') s.
Proof.
  intros Hg Hb Ha. unfold handle_register_cid.
  pose proof (pc_no_panic (A := RegisterCidPayload) _ Hb) as Hnp. cbn [pc_decode RegisterCid_codec] in Hnp.
  destruct (RegisterCidPayload_decode payload) as [register|e|] eqn:Ed; [|by apply reject_keeps|done].
  destruct (RegisterCid_decode_inv payload register Hb Ed) as [Hwf _].
  destruct (allows cfg (reg_cipher register)); cbn [negb]; [|by apply reject_keeps].
  pose proof Hwf as (Hc & Hl & _ & [Ht _] & [Hr _] & _).
  destruct (UdpQspKeys_new_total (reg_cipher register) (reg_secret_tx register) (reg_secret_rx register) Ht Hr) as [keys Hk].
  change (UdpQspKeys_from_register register = Ok keys) in Hk. rewrite Hk, Cid_prefix_ok by done.
  apply wp_bind, wp_ask. intros others. apply wp_bind, wp_get.
  match goal with |- context [insert_cid ?a ?b ?c ?d ?e] =>
    pose proof (insert_cid_no_panic a b c d e) as Hi; destruct (insert_cid a b c d e) as [r inserted] end.
  apply wp_bind, wp_modify. match goal with |- wp _ _ _ _ ?x => assert (good x) as Hg1 by (by apply (good_alike s)) end.
  destruct inserted as [?|[]|]; [|exact (reject_keeps _ _ Hg1)..|done].
  exact (install_keeps _ _ _ _ Hg1 Ha Hwf Hk).
Qed.

(** *** Messages over TCP *)
Lemma pong_ok payload (Q : bytes → Session → Prop) s :
  good s → bytes_ok payload → (∀ x, Q (to_be 8 x) s) → ok (pong_payload_for_ping payload) Q s.
Proof.
  intros Hg Hb HQ. apply wp_bind, wp_try; [exact (pc_no_panic (A := PingPayload) _ Hb)| |].
  - intros ping _. apply wp_ret, HQ.
  - intros e _. by apply good_err.
Qed.

(** [Message::Pong] is only decoded. *)
Lemma pong_received_ok payload (Q : SessionControl → Session → Prop) s :
  good s → bytes_ok payload → Q Continue s →
  ok (_ ← try SPayload (PongPayload_decode payload); mret Continue) Q s.
Proof.
  intros Hg Hb HQ. apply wp_bind, wp_try; [exact (pc_no_panic (A := PongPayload) _ Hb)|by intros|].
  intros e _. by apply good_err.
Qed.

Lemma close_received_ok payload b (Q : SessionControl → Session → Prop) s :
  good s → bytes_ok payload → (∀ s', keeps s s' → Q Close s') →
  ok (_ ← try SPayload (ClosePayload_decode payload); peer_close_control b) Q s.
Proof.
  intros Hg Hb HQ. apply wp_bind, wp_try; [exact (pc_no_panic (A := ClosePayload) _ Hb)| |].
  - intros close _. apply wp_bind. destruct b; [apply wp_modify|]; apply wp_ret; apply HQ; [|by apply keeps_refl].
    split_and!; [by apply (good_log (ACount _))|done|done].
  - intros e _. by apply good_err.
Qed.

Lemma handle_tcp_message_keeps m s :
  good s → armed s → ss_tcp_alive s = true → bytes_ok (Message_payload m) →
  ok (handle_tcp_message env cfg m) (λ _ s', keeps s s') s.
Proof.
  intros Hg Ha Hal Hb. unfold handle_tcp_message. apply wp_bind, wp_modify.
  apply (good_log (ATcpRecv m)) in Hg; [|done|done].
  apply wp_bind, wp_try; [by apply validate_message_no_panic| |intros e _; by apply good_err].
  intros [] Hv. apply validate_message_ok in Hv as [(Hd & Hp & Ht) _]; [|done].
  destruct m; try done; cbn [Message_payload] in Hb.
  - apply wp_bind, wp_get. case_bool_decide as E; [by apply good_err|].
    refine (handle_register_cid_keeps _ _ Hg Hb _). cbn in *. by destruct (ss_active_transport s).
  - apply wp_bind, pong_ok; [done|done|]. intros x. apply wp_bind. eapply wp_mono.
    + apply send_tcp_keeps; [done|by apply (short_u64 _ x)].
    + cbv beta. intros _ s' Hk. apply wp_ret. exact Hk.
  - by apply pong_received_ok; [| |apply (keeps_refl (log _ s))].
  - by apply close_received_ok.
  - exact (forward_data_keeps _ _ Hg Hb).
  - refine (handle_udp_ready_keeps _ _ Hg Hb _). cbn. rewrite since_plain by done. by left.
  - exact (handle_switch_ack_keeps _ _ _ Hg Ha Hb eq_refl).
  - exact (handle_fallback_to_tcp_keeps _ _ Hg Hb Hal).
  - exact (handle_fallback_ok_keeps _ _ Hg Hb).
Qed.

(** Only the read buffer changes. *)
Lemma good_buffer c s :
  good s → bytes_ok (chan_read_buf c) → chan_sent c = chan_sent (ss_tcp s) → good (with_tcp c s).
Proof.
  intros [ [ [? ? ? (m & n & Hf)] [] [] Hcl ?] Ha] Hb Es. split; [|done].
  constructor; [|by constructor|by constructor| |done].
  - constructor; try done. exists m, n. cbn. by rewrite Es.
  - unfold clean. cbn. by rewrite Es.
Qed.

Lemma read_messages_ok fuel s :
  good s → armed s → ss_tcp_alive s = true → (length (chan_read_buf (ss_tcp s)) < fuel)%nat →
  ok (read_messages env cfg fuel) (λ _ s', good s' ∧ armed s') s.
Proof.
  revert s. induction fuel as [|fuel IH]; intros s Hg Ha Hal Hl; [lia|]. cbn [read_messages].
  apply wp_bind, wp_get. unfold try_pop_message.
  pose proof (co_buf _ (we_core _ (proj1 Hg))) as Hb.
  pose proof (pop_message_buf_cases (chan_read_buf (ss_tcp s)) (c_limits cfg) Hb) as Hpop.
  destruct (pop_message_buf (chan_read_buf (ss_tcp s)) (c_limits cfg)) as [r rest].
  apply wp_bind, wp_modify. match goal with |- wp _ _ _ _ ?x => set (s1 := x) end.
  assert (bytes_ok rest) as Hbr.
  { destruct r as [ [o|]|e|]; [|by subst rest..|done]. destruct Hpop as (m & _ & _ & E). rewrite E in Hb.
    by apply bytes_ok_app in Hb as [_ ?]. }
  assert (good s1) as Hg1 by (by apply good_buffer).
  destruct r as [ [o|]|e|]; [| |by apply good_err|done]; apply wp_bind, wp_ret; [|by apply wp_ret].
  destruct Hpop as (m & Em & _ & E). apply wp_bind, wp_ask. intros received_at. apply wp_bind. rewrite Em. apply wp_ret.
  rewrite E in Hb, Hl. apply bytes_ok_app in Hb as [Hbm _].
  apply wp_bind. eapply wp_mono.
  - apply handle_tcp_message_keeps; [by apply (good_alike s1)|exact Ha|exact Hal|].
    unfold wire_message in Hbm. rewrite !bytes_ok_app in Hbm. apply Hbm.
  - cbv beta. intros control s2 (Hg2 & Ha2 & [= Eb2 Eal2 _]). apply wp_bind, wp_modify.
    assert (good (with_last_activity received_at s2)) as Hg3 by (by apply (good_alike s2)).
    case_bool_decide; [apply wp_ret; split; [done|by apply Ha2] |].
    apply IH; [done|by apply Ha2|cbn in *; congruence|]. cbn in *. rewrite Eb2. rewrite length_app in Hl.
    pose proof (zlen_wire_message m) as Hw. pose proof (zlen_nonneg (Message_payload m)).
    unfold zlen, HEADER_LEN in *. lia.
Qed.

Lemma handle_tcp_read_ok s :
  good s → armed s → ss_tcp_alive s = true → ok (handle_tcp_read env cfg) (λ _ s', good s' ∧ armed s') s.
Proof. intros Hg Ha Hal. apply wp_bind, wp_get, read_messages_ok; [done|done|done|lia]. Qed.

(** *** Messages over UDP *)
Lemma open_udp_packet_ok payload (Q : option (Z * bytes) → Session → Prop) s :
  good s → bytes_ok payload →
  (∀ s', keeps s s' → Q None s') →
  (∀ pn plain s', keeps s s' → is_Some (ss_udp_session s') → bytes_ok plain → Q (Some (pn, plain)) s') →
  ok (open_udp_packet payload) Q s.
Proof.
  intros Hg Hb H1 H2. unfold open_udp_packet. apply wp_bind, wp_get.
  destruct (ss_udp_session s) as [ [q io]|] eqn:Eu; [|by apply wp_ret, H1, keeps_refl].
  destruct (co_udp _ (we_core _ (proj1 Hg)) _ _ Eu) as [sp Hq].
  pose proof (open_packet_received sp q payload Hq Hb) as [_ Hr].
  destruct (open_packet q payload) as [q' r]. cbn [fst snd] in Hr. apply wp_bind, wp_modify.
  match goal with |- wp _ _ _ _ ?x => set (s1 := x) end.
  assert (∀ sp' new, session_ok sp' q' → Forall (λ a, ∃ m, a = ACount m) new →
    keeps s (with_trace (new ++ ss_trace s1) s1)) as Hk.
  { intros sp' new Hq' Hn. eapply (keeps_moved s q io q' io); [done|done|exact Hq'|apply io_step_refl|by intros _|].
    exists (ss_tick s), new. split; [done|]. by destruct s. }
  assert (∀ m, Forall (λ a, ∃ m, a = ACount m) [ACount m]) as Hc by (intros m; repeat constructor; by eexists).
  destruct r as [o|e|]; [| |done].
  - destruct Hr as ([_ Ho] & sp' & _ & Hq'). apply wp_bind. destruct (eqb _ _).
    + apply wp_ret, wp_ret, H2; [|by eexists|done]. specialize (Hk sp' [] Hq'). destruct s. by apply Hk.
    + apply wp_modify, wp_ret, H2; [by apply (Hk sp' [_])|by eexists|done].
  - destruct e; apply wp_bind, wp_modify, wp_ret, H1, (Hk sp [_]); done.
Qed.

(** An authenticated packet moves the peer when its number is the highest. *)
Lemma adopt_ok peer pn (Q : unit → Session → Prop) s :
  good s → is_Some (ss_udp_session s) →
  (∀ s', keeps s s' → is_Some (ss_udp_session s') → is_Some (ss_udp_peer_packet_number s') → Q tt s') →
  ok (adopt_udp_peer_if_newer peer pn) Q (log (AUdpRecv peer pn) s).
Proof.
  intros Hg [ [q io] Eu] HQ.
  pose proof Hg as [ [ [Hu Hb Ht (m & n & Hf)] [Hw Hp Hs] Hup Hcl Hi] Ha]. specialize (Hp _ _ Eu).
  apply (upgrade_log (AUdpRecv peer pn)) in Hup; [|done].
  assert (∀ io' k, io_wire io' = io_wire io → (io_peer io', k) ∈ (peer, pn) :: claims (ss_trace s) →
    (∀ c, c ∈ (peer, pn) :: claims (ss_trace s) → c.2 ≤ k) →
    let s' := with_udp_peer_packet_number (Some k) (with_udp_session (Some (q, io')) (log (AUdpRecv peer pn) s)) in
    keeps s s') as Hk.
  { intros io' k Ew Hin Hmax s'. split_and!; [split; [constructor|]|done|done].
    - constructor; cbn; try done.
      + intros ? ? [= <- <-]. by eapply Hu.
      + intros p [?|H]%elem_of_cons; [done|by apply Ht].
      + exists m, n. cbn. by rewrite tcp_messages_other.
    - constructor; cbn.
      + unfold wire in *. cbn. rewrite Eu in Hw. rewrite Ew. intros t H. destruct (Hw t H) as [x ?]. exists x. by right.
      + by intros ? ? [= <- <-].
      + intros [|x a] b E; simplify_eq/=. by eapply Hs.
    - destruct Hup as [? Hpr ? ?]. constructor; try done. cbn. intros H. destruct (Hpr H) as (_ & _ & ?). by split_and!.
    - unfold clean. cbn. by rewrite tcp_messages_other.
    - done.
    - unfold active_ok in *. cbn. destruct (ss_active_transport s); [done|]. by destruct Ha as (_ & _ & ?). }
  unfold adopt_udp_peer_if_newer. apply wp_bind, wp_get. cbn [ss_udp_peer_packet_number ss_udp_session log with_trace].
  destruct (ss_udp_peer_packet_number s) as [cur|] eqn:Ep; [destruct (Z.leb_spec pn cur)|]; rewrite ?Eu.
  - destruct Hp as [Hin Hmax]. apply wp_ret, HQ; [|cbn; by rewrite Eu|cbn; by rewrite Ep].
    assert (log (AUdpRecv peer pn) s =
      with_udp_peer_packet_number (Some cur) (with_udp_session (Some (q, io)) (log (AUdpRecv peer pn) s))) as ->
      by (destruct s; cbn in *; by subst).
    apply Hk; [done|by right|]. intros c [->|Hc]%elem_of_cons; [done|by apply Hmax].
  - destruct Hp as [Hin Hmax]. apply wp_modify, HQ; [|by eexists|by eexists]. apply Hk; [done|by left|].
    intros c [->|Hc]%elem_of_cons; [done|]. specialize (Hmax _ Hc). lia.
  - destruct Hp as [Hno _]. apply wp_modify, HQ; [|by eexists|by eexists]. apply Hk; [done|by left|].
    intros c [->|Hc]%elem_of_cons; [done|]. rewrite Hno in Hc. by apply elem_of_nil in Hc.
Qed.

Lemma decode_udp_message_ok payload (Q : Message → Session → Prop) s :
  good s → bytes_ok payload → (∀ m, bytes_ok (Message_payload m) → Q m s) → ok (decode_udp_message cfg payload) Q s.
Proof.
  intros Hg Hb HQ. destruct (decode_padded_cases payload (c_limits cfg) Hb) as [Hp Hm].
  apply wp_bind, wp_try; [done| |intros e _; by apply good_err].
  intros [ [m b]|] E; [|by apply good_err]. apply wp_ret, HQ. by eapply Hm.
Qed.

Lemma dispatch_udp_ok m s :
  good s → is_Some (ss_udp_session s) → is_Some (ss_udp_peer_packet_number s) →
  AUdpMessage m ∈ since (ss_trace s) → validate_message m udp_context = Ok tt → bytes_ok (Message_payload m) →
  ok (dispatch_udp_message env cfg m) (λ _ s', good s' ∧ input s' = input s) s.
Proof.
  intros Hg Hu Hp Hin Hv Hb. apply validate_message_ok in Hv as [(Hd & _ & Ht) _]; [|done].
  destruct m; try done; cbn [Message_payload] in Hb.
  - apply wp_bind, pong_ok; [done|done|]. intros x. apply wp_bind. eapply wp_mono.
    + apply send_udp_and_flush_keeps; [done|by intros _|by apply (short_u64 _ x)].
    + cbv beta. intros _ s' (? & _ & ?). by apply wp_ret.
  - by apply pong_received_ok.
  - apply close_received_ok; [done|done|]. by intros s' (? & _ & ?).
  - eapply wp_mono; [by apply forward_data_keeps|]. by intros _ s' (? & _ & ?).
  - by apply handle_upgrade_probe_ok.
Qed.

Lemma handle_udp_claim_ok claim s :
  good s → armed s → bytes_ok (claim_payload claim) →
  ok (handle_udp_claim env cfg claim) (λ _ s', good s' ∧ armed s') s.
Proof.
  intros Hg Ha Hb. apply wp_bind, open_udp_packet_ok; [done|done|intros s1 (? & Ha1 & _); apply wp_ret; by auto|].
  intros pn plain s1 Hk1 Hu1 Hbp. apply wp_bind, wp_modify. apply wp_bind, adopt_ok; [apply Hk1|done|].
  intros s2 (Hg2 & _) Hu2 Hp2. apply wp_bind, decode_udp_message_ok; [done|done|]. intros m Hbm.
  apply wp_bind, wp_try; [by apply validate_message_no_panic| |intros e _; by apply good_err].
  intros [] Hv. apply wp_bind, wp_modify, wp_bind, wp_ask. intros received_at. apply wp_bind.
  apply (good_log (AUdpMessage m)) in Hg2; [|done|done].
  eapply wp_mono.
  - apply dispatch_udp_ok; try done; [by apply (good_alike _ _ Hg2)|]. cbn. rewrite since_plain by done. by left.
  - cbv beta. intros control s3 [ [Hw3 Ha3] _]. apply wp_bind, wp_modify, wp_ret. split; [|intros _; by eexists].
    split; [by apply (weak_alike s3)|]. unfold active_ok in *. cbn. destruct (ss_active_transport s3); [done|].
    destruct Ha3 as (? & ? & _). by split_and!.
Qed.

(** *** TUN packets and timers *)
Definition limits_ok : Prop := max_data_len (c_limits cfg) ≤ 2 ^ 30.
Definition pings_ok : Prop := ping_min (c_timeouts cfg) ≤ ping_max (c_timeouts cfg).

Lemma good_active s :
  good s → ss_active_transport s = ActiveUdpQsp → is_Some (ss_udp_session s) ∧ peered s.
Proof. intros [_ Ha] E. unfold active_ok in Ha. rewrite E in Ha. destruct Ha as (Hs & Hp & _). exact (conj Hs (λ _, Hp)). Qed.

Lemma handle_tun_packet_ok packet s :
  limits_ok → good s → bytes_ok packet → ok (handle_tun_packet env cfg packet) (λ _ s', keeps s s') s.
Proof.
  intros Hl Hg Hb. unfold handle_tun_packet. rewrite Z.gtb_ltb.
  destruct (Z.ltb_spec (max_data_len (c_limits cfg)) (zlen packet)); [by apply wp_ret, keeps_refl|].
  assert (short (MData packet)) as Hs by (split; [done|cbn; unfold limits_ok in Hl; lia]).
  apply wp_bind, wp_get, wp_bind. destruct (ss_active_transport s) eqn:Ea.
  - eapply wp_mono; [by apply send_tcp_keeps|]. cbv beta. intros _ s' Hk. by apply wp_ret.
  - eapply wp_mono; [by apply send_udp_keeps; [|apply good_active|] |]. cbv beta. intros _ s' Hk. by apply wp_ret.
Qed.

Lemma handle_ping_tick_ok s : good s → ok (handle_ping_tick env cfg) (λ _ s', keeps s s') s.
Proof.
  intros Hg. apply wp_bind, wp_ask. intros nonce. apply wp_bind, wp_get.
  match goal with |- wp _ _ _ _ ?x => assert (good x) as Hg1 by (by apply (good_alike s)) end.
  assert (short (MPing (PingPayload_encode (mkPing nonce) []))) as Hs by (by apply (short_u64 _ nonce)).
  destruct (ss_active_transport _) eqn:Ea.
  - exact (send_tcp_keeps _ _ Hg1 Hs).
  - exact (send_udp_and_flush_keeps _ _ _ Hg1 (proj2 (good_active _ Hg1 Ea)) Hs).
Qed.

Lemma schedule_ok (Q : Z → Session → Prop) s :
  pings_ok → (∀ at_ k t, env_now env k + ping_min (c_timeouts cfg) ≤ at_ → Q at_ (with_tick t s)) →
  ok (schedule_next_ping env cfg) Q s.
Proof.
  intros Hp HQ. unfold schedule_next_ping, pings_ok in *.
  set (lo := ping_min (c_timeouts cfg)) in *. set (hi := ping_max (c_timeouts cfg)) in *.
  destruct (Z.ltb_spec hi lo); [lia|]. apply wp_bind. destruct (Z.gtb_spec (hi - lo) 0).
  - pose proof (Z.mod_pos_bound (env_random env (ss_tick s)) (hi - lo + 1) ltac:(lia)).
    apply (HQ (env_now env (S (ss_tick s)) + lo + env_random env (ss_tick s) mod (hi - lo + 1)) (S (ss_tick s))
      (S (S (ss_tick s)))). lia.
  - apply (HQ (env_now env (ss_tick s) + lo + 0) (ss_tick s) (S (ss_tick s))). lia.
Qed.

Lemma handle_udp_liveness_ok s :
  good s → armed s →
  ok (handle_udp_liveness_timeout env cfg)
    (λ _ s', good s' ∧ armed s' ∧ input s' = input s ∧ (ss_tcp_alive s = true → ss_active_transport s' = ActiveTcp)) s.
Proof.
  intros Hg Ha. unfold handle_udp_liveness_timeout. apply wp_bind, wp_get.
  destruct (ss_tcp_alive s) eqn:Eal; [|rewrite orb_true_r; apply wp_ret; by split_and!].
  case_bool_decide as Et0; cbn [negb orb].
  2: { apply wp_ret. split_and!; try done. intros _. by destruct (ss_active_transport s). }
  apply wp_bind, wp_modify. apply (good_log (ACount MUdpLivenessTimeout)) in Hg; [|done|done].
  apply wp_bind, set_active_tcp_ok; [apply Hg|done|]. intros s1 [Hw1 Hac1] _ _ Et Ei1.
  apply wp_bind, retire_ok; [done|]. intros s2 Hw2 Hf2 _ Et2 Ei2. pose proof (eq_trans Ei2 Ei1) as Ei.
  assert (good s2) as Hg2.
  { split; [done|]. unfold active_ok. rewrite Et2, Et. injection Ei as _ E1 _. by rewrite E1. }
  apply wp_bind. eapply wp_mono; [by apply fallback_request_ok|]. cbv beta. intros _ s3 ((Hg3 & Ha3 & Ei3) & Et3).
  apply wp_ret. split_and!; [done| |by rewrite Ei3|intros _; by rewrite Et3, Et2]. apply Ha3. unfold armed. by rewrite Hf2.
Qed.

(** *** The loop *)
Definition done_ok (s : Session) : Prop := core_ok s ∧ trace_ok s.

Lemma good_done s : good s → done_ok s.
Proof. intros [ [] _]. by split. Qed.

(** What a step of the loop leaves: the invariant while it goes on. *)
Definition after (control : SessionControl) (s : Session) : Prop :=
  match control with Continue => good s ∧ armed s | Close => done_ok s end.

Lemma after_keeps control s s' : armed s → keeps s s' → after control s'.
Proof. intros Ha (Hg & Ha' & _). destruct control; [split; auto|by apply good_done]. Qed.

Lemma after_good control s : good s → armed s → after control s.
Proof. intros Hg Ha. destruct control; [done|by apply good_done]. Qed.

Lemma short_close code : short (MClose (encode_close_payload code)).
Proof. split; [|done]. cbn. constructor; [apply to_u8_ok|constructor]. Qed.

Lemma send_close_over_udp_ok code s :
  good s → peered s → ok (send_close_over_udp env code) (λ _ s', done_ok s') s.
Proof.
  intros Hg Hp. unfold send_close_over_udp. apply wp_bind, wp_get. case_bool_decide; [by apply good_err|].
  apply wp_bind. eapply wp_mono; [apply queue_udp_keeps; [done|done|apply short_close] |].
  cbv beta. intros r s1 [Hr (Hg1 & _)]. apply wp_bind, wp_try; [done| |intros; by apply good_err].
  intros _ _. apply wp_bind. eapply wp_mono; [by apply flush_udp_keeps|].
  cbv beta. intros r' s2 [Hr' (Hg2 & _)]. apply wp_try; [done| |intros; by apply good_err]. intros _ _. by apply good_done.
Qed.

Lemma send_close_ok code s : good s → ok (send_close env code) (λ _ s', done_ok s') s.
Proof.
  intros Hg. pose proof Hg as [Hw Ha]. unfold send_close. apply wp_bind, wp_get.
  rewrite (we_free _ Hw), andb_true_r. destruct (ss_tcp_alive s) eqn:Eal.
  - unfold send_close_over_tcp. apply wp_bind, wp_get. rewrite Eal, (we_free _ Hw). cbn [negb orb].
    eapply wp_mono; [apply send_tcp_keeps; [done|apply short_close] |]. cbv beta. intros _ s' (? & _). by apply good_done.
  - apply send_close_over_udp_ok; [done|]. apply good_active; [done|]. unfold active_ok in Ha.
    destruct (ss_active_transport s); [congruence|done].
Qed.

Lemma handle_session_timer_ok timer next s :
  pings_ok → good s → armed s → ok (handle_session_timer env cfg timer next) (λ r s', after r.1 s') s.
Proof.
  intros Hp Hg Ha. destruct timer; cbn [handle_session_timer].
  - apply wp_bind. eapply wp_mono; [by apply handle_ping_tick_ok|]. cbv beta. intros _ s1 (Hg1 & Ha1 & _).
    apply wp_bind, schedule_ok; [done|]. intros at_ k t _. apply wp_ret. split; [by apply (good_alike s1)|exact (Ha1 Ha)].
  - apply wp_bind. eapply wp_mono; [by apply handle_udp_liveness_ok|]. cbv beta. intros control s1 (Hg1 & Ha1 & _).
    apply wp_ret. by apply after_good.
  - apply wp_bind, wp_modify, wp_bind, wp_result. apply (good_log (ACount MDisconnectIdleTimeout)) in Hg; [|done|done].
    eapply wp_weaken; [by apply send_close_ok|..|done]; cbv beta; intros ? s'; [done|].
    intros (? & ? & _). apply wp_ret. by split.
Qed.

(** Input is bytes. *)
Definition event_ok (event : SessionEvent) : Prop :=
  match event with ETunPacket packet => bytes_ok packet | EUdp claim => bytes_ok (claim_payload claim) end.
Definition chunk_ok (r : io_result bytes) : Prop := match r with inl chunk => bytes_ok chunk | inr _ => True end.
Definition ready_ok (ready : Ready) : Prop :=
  match ready with
  | Shutdown => True
  | Offer tcp event _ _ => (∀ r, tcp = Some r → chunk_ok r) ∧ (∀ e, event = Some e → event_ok e)
  end.

Definition work_ok (work : SessionWork) (s : Session) : Prop :=
  match work with
  | WTcpRead _ => ss_tcp_alive s = true
  | WEvent event => event_ok event
  | WUdpFlush r => r ≠ Panic
  | WTimer => True
  end.

Lemma handle_event_ok event s :
  limits_ok → good s → armed s → event_ok event → ok (handle_event env cfg event) (λ c s', after c s') s.
Proof.
  intros Hl Hg Ha He. destruct event as [claim|packet]; cbn [handle_event].
  - eapply wp_mono; [by apply handle_udp_claim_ok|]. cbv beta. intros c s' [? ?]. by apply after_good.
  - eapply wp_mono; [by apply handle_tun_packet_ok|]. cbv beta. intros c s' Hk. by eapply after_keeps.
Qed.

Lemma handle_tcp_read_result_ok r s :
  good s → armed s → ss_tcp_alive s = true → ok (handle_tcp_read_result env cfg r) (λ c s', after c s') s.
Proof.
  intros Hg Ha Hal. unfold handle_tcp_read_result. apply wp_bind, wp_try; [by destruct r| |intros; by apply good_err].
  intros chunk _. destruct (negb _).
  { eapply wp_mono; [by apply handle_tcp_read_ok|]. cbv beta. intros c s' [? ?]. by apply after_good. }
  apply wp_bind, wp_get. case_bool_decide as E; apply wp_bind, wp_modify, wp_ret.
  - split; [|exact Ha]. destruct Hg as [Hw Hac]. split; [by apply (weak_alike s)|]. unfold active_ok in *. cbn. by rewrite E in *.
  - apply good_done. by apply (good_log (ACount MDisconnectClose)).
Qed.

Lemma wait_ok can_receive should_flush ready s :
  good s → armed s → ready_ok ready →
  ok (wait_for_work can_receive should_flush ready) (λ w s', good s' ∧ armed s' ∧ work_ok w s') s.
Proof.
  intros Hg Ha Hr. destruct ready as [|tcp event socket first]; [by apply good_drop|]. destruct Hr as [Ht He].
  apply wp_bind, wp_get. set (P := λ (o : option (M SessionWork)), ∀ m, o = Some m →
    ok m (λ w s', good s' ∧ armed s' ∧ work_ok w s') s).
  assert (P (tcp_work s tcp)) as H1.
  { unfold tcp_work. intros m. destruct (ss_tcp_alive s) eqn:Eal; [|done]. destruct tcp as [ [chunk|e]|]; intros [= <-].
    - apply wp_bind, wp_modify, wp_ret. split_and!; [|exact Ha|exact Eal]. apply good_buffer; [done| |done]. cbn.
      apply bytes_ok_app. split; [apply Hg|by apply (Ht _ eq_refl)].
    - by apply wp_ret. }
  assert (P (session_work s can_receive should_flush event socket)) as H2.
  { unfold session_work. intros m. destruct (if can_receive then event else None) as [e|] eqn:Ee.
    { intros [= <-]. apply wp_ret. split_and!; [done|done|]. destruct can_receive; [|done]. by apply He. }
    destruct should_flush; [|done]. destruct (ss_udp_session s) as [ [q io]|] eqn:Eu; [|by intros [= <-]; apply wp_ret].
    destruct (flush_pending_step io socket) as (Hs & Hp & H0). destruct (flush_pending io socket) as [io' r] eqn:Ef.
    cbn [fst snd] in *. destruct (co_udp _ (we_core _ (proj1 Hg)) _ _ Eu) as [sp Hq].
    assert (keeps s (with_udp_session (Some (q, io')) s)) as (Hg1 & Ha1 & _).
    { eapply (keeps_moved s q io q io'); [done|done|exact Hq|done|intros _ H; by rewrite H0|].
      exists (ss_tick s), []. split; [done|]. by destruct s. }
    assert (m = (_ ← modify (with_udp_session (Some (q, io'))); mret (WUdpFlush r)) →
      ok m (λ w s', good s' ∧ armed s' ∧ work_ok w s') s) as Hm.
    { intros ->. apply wp_bind, wp_modify, wp_ret. split_and!; [done|by apply Ha1|done]. }
    destruct r as [u|e|]; [intros [= <-]; by apply Hm| |done]. destruct e; intros [= <-]; by apply Hm. }
  destruct (tcp_work s tcp) as [t|], (session_work s can_receive should_flush event socket) as [w|];
    [destruct first; [by apply H1|by apply H2]|by apply H1|by apply H2|by apply wp_ret].
Qed.

Lemma handle_work_ok work timer should_flush l s :
  limits_ok → pings_ok → good s → armed s → work_ok work s →
  ok (handle_work env cfg work timer should_flush l) (λ r s', after r.1 s') s.
Proof.
  intros Hl Hp Hg Ha Hw. destruct work as [r|event|r|]; cbn [handle_work].
  - apply wp_bind. eapply wp_mono; [by apply handle_tcp_read_result_ok|]. cbv beta. intros c s' Hc. by apply wp_ret.
  - apply wp_bind, wp_get, wp_bind. eapply wp_mono; [by apply handle_event_ok|]. cbv beta. intros c s' Hc.
    by apply wp_bind, wp_get, wp_ret.
  - apply wp_bind. destruct r as [u|e|]; [by apply wp_ret, wp_ret| |done].
    eapply wp_mono; [by apply recover_flush_keeps|]. cbv beta. intros _ s' Hk. apply wp_ret. by eapply (after_keeps Continue).
  - apply wp_bind. eapply wp_mono; [by apply handle_session_timer_ok|]. cbv beta. intros [c next] s' Hc. by apply wp_ret.
Qed.

(** The session after an iteration. *)
Definition after_iteration (next : option LoopState) (s : Session) : Prop :=
  match next with Some _ => good s ∧ armed s | None => done_ok s end.

Lemma iteration_ok l ready s :
  limits_ok → pings_ok → good s → armed s → ready_ok ready →
  ok (iteration env cfg l ready) after_iteration s.
Proof.
  intros Hl Hp Hg Ha Hr. unfold iteration. apply wp_bind, wp_get, wp_bind.
  apply (wp_mono _ (λ _ s', good s' ∧ armed s')).
  { destruct (ss_tcp_alive s) eqn:Eal; cbn [andb]; [|by apply wp_ret].
    destruct (has_buffered_input _); [by apply handle_tcp_read_ok|by apply wp_ret]. }
  intros c0 s1 [Hg1 Ha1]. case_bool_decide; [by apply wp_ret, good_done|]. apply wp_bind, wp_get.
  destruct (next_session_timer cfg s1 _) as [timer_at timer]. apply wp_bind, wp_ask. intros now. apply wp_bind.
  match goal with |- wp _ _ _ _ ?x => assert (good x) as Hg2 by (by apply (good_alike s1)) end.
  apply (wp_mono _ (λ r s', after r.1 s')).
  - destruct (timer_at <=? now).
    + apply wp_bind. eapply wp_mono; [by apply handle_session_timer_ok|]. cbv beta. intros [c next] s' Hc. by apply wp_ret.
    + apply wp_bind. eapply wp_mono; [by apply wait_ok|]. cbv beta. intros w s' (? & ? & ?). by apply handle_work_ok.
  - intros [c l'] s' Hc. apply wp_ret. by destruct c.
Qed.

Lemma run_loop_ok readies l s :
  limits_ok → pings_ok → good s → armed s → Forall ready_ok readies →
  ok (run_loop env cfg l readies) (λ _ s', done_ok s') s.
Proof.
  intros Hl Hp Hg Ha Hr. revert l s Hg Ha. induction Hr as [|ready readies Hr _ IH]; intros l s Hg Ha; cbn [run_loop].
  { by apply good_drop. }
  apply wp_bind. eapply wp_mono; [by apply iteration_ok|]. cbv beta. intros [l'|] s' Hi; [|by apply wp_ret].
  destruct Hi as [? ?]. by apply IH.
Qed.

Lemma run_inner_ok readies s :
  limits_ok → pings_ok → good s → armed s → Forall ready_ok readies →
  ok (run_inner env cfg readies) (λ _ s', done_ok s') s.
Proof.
  intros Hl Hp Hg Ha Hr. apply wp_bind, schedule_ok; [done|]. intros at_ k t _.
  apply run_loop_ok; try done. by apply (good_alike s).
Qed.

(** *** A new session *)
Lemma session_new_good channel registry now :
  chan_sent channel = [] → bytes_ok (chan_read_buf channel) →
  let s := ClientSession_new channel registry now in good s ∧ armed s.
Proof.
  intros Es Hb s. split; [|done]. split; [constructor|done]; try done.
  - constructor; [done|done|by intros p ?%elem_of_nil|]. exists (MData []), 0%nat. by rewrite take_0.
  - constructor; [by intros t ?%elem_of_nil|done|by intros [|x a] b E].
  - by apply upgrade_fresh.
Qed.

(** *** Closing *)

(** Where datagrams may go: to the source of an authenticated packet, or to
    the unspecified address of a session that has none. *)
Definition known (s : Session) (a : SocketAddr) : Prop :=
  a = placeholder_peer ∨ ∃ pn, AUdpRecv a pn ∈ ss_trace s.

Record closing (s : Session) : Prop := mkClosing {
  cl_core : core_ok s;
  cl_switch : ∀ a b, ss_trace s = a ++ ASwitched ActiveUdpQsp :: b → committed b;
  cl_wire : ∀ t, t ∈ wire s → known s (tr_destination t);
  cl_peer : ∀ q io, ss_udp_session s = Some (q, io) → known s (io_peer io);
}.

Lemma done_closing s : core_ok s → trace_ok s → closing s.
Proof.
  intros Hc [Hw Hp Hs]. constructor; [done|done|intros t Ht; right; by apply Hw|].
  intros q io Eu. specialize (Hp _ _ Eu). destruct (ss_udp_peer_packet_number s) as [n|].
  - right. exists n. by apply (claims_recv (_, n)), Hp.
  - left. apply Hp.
Qed.

Lemma closing_moved s q io q' io' sp s' :
  closing s → ss_udp_session s = Some (q, io) → session_ok sp q' → io_step io io' → moved_to s q' io' s' → closing s'.
Proof.
  intros [Hc Hs Hw Hp] Eu Hq [Ep (ts & Ew & Hts)] Hm.
  assert (core_ok s') as Hc' by (by eapply core_moved). destruct Hm as (t & new & Hn & ->).
  assert (∀ a, known s a → known (with_trace (new ++ ss_trace s) (with_tick t (with_udp_session (Some (q', io')) s))) a) as Hk.
  { intros a [->|[pn H] ]; [by left|]. right. exists pn. cbn. apply elem_of_app. by right. }
  constructor; [done|..].
  - cbn. clear - Hn Hs. induction Hn as [|x new [m ->] _ IH]; [done|]. intros [|y a] b E; simplify_eq/=. by eapply IH.
  - intros x. unfold wire in *. cbn [ss_past_wire ss_udp_session with_trace with_tick with_udp_session]. rewrite Eu in Hw.
    rewrite Ew, app_assoc. intros [H|H]%elem_of_app; [by apply Hk, Hw|]. rewrite Forall_forall in Hts. rewrite (Hts x H).
    by eapply Hk, Hp.
  - cbn. intros ? ? [= <- <-]. rewrite Ep. by eapply Hk, Hp.
Qed.

Lemma closing_udp code s :
  closing s → wp (send_close_over_udp env code) (λ _, closing) (λ _, closing) closing s.
Proof.
  intros Hc. unfold send_close_over_udp. apply wp_bind, wp_get. case_bool_decide; [exact Hc|].
  apply wp_bind, queue_udp_raw; [apply Hc|apply short_close|apply short_close|done|].
  intros q io q' io' sp s1 r Eu Hq Hs Hm Hr. assert (closing s1) as Hc1 by (by eapply closing_moved).
  split; [|done]. apply wp_bind, wp_try; [done| |by intros]. intros _ _. apply wp_bind, flush_udp_raw.
  - intros _. by apply wp_try.
  - intros q1 io1 io1' s2 r1 Eu1 Hs1 _ Hm1 Hr1. destruct (co_udp _ (cl_core _ Hc1) _ _ Eu1) as [sp1 Hq1].
    assert (closing s2) as Hc2 by (by eapply closing_moved). split; [|done]. by apply wp_try.
Qed.

Lemma close_best_effort_ok code (Q : unit → Session → Prop) E C s :
  core_ok s → trace_ok s → (ss_tcp_write_interrupted s = false → clean s) →
  (∀ s', closing s' → Q tt s') → wp (send_close_best_effort env code) Q E C s.
Proof.
  intros Hc Ht Hcl HQ. unfold send_close_best_effort. apply wp_bind, wp_get, wp_bind.
  apply (wp_mono _ (λ _ s', core_ok s' ∧ trace_ok s')).
  - destruct (ss_tcp_alive s) eqn:Eal, (ss_tcp_write_interrupted s) eqn:Ei; cbn [andb negb]; try by apply wp_ret.
    apply wp_bind, wp_timeout. apply (wp_weaken _ (λ _, done_ok) _ err_ok _ drop_ok).
    + unfold send_close_over_tcp. apply wp_bind, wp_get. rewrite Eal, Ei. cbn [negb orb].
      apply send_tcp_raw; [done|done|by apply Hcl|done|apply short_close|]. by split.
    + intros _ s' [? ?]. by apply wp_ret.
    + intros e s' (? & ? & _). by apply wp_ret.
    + intros s' (? & ? & _). by apply wp_ret.
  - intros sent s1 [Hc1 Ht1]. pose proof (done_closing _ Hc1 Ht1) as Hd.
    destruct sent; [by apply wp_ret, HQ|]. apply wp_bind, wp_get. case_bool_decide; [by apply wp_ret, HQ|].
    apply wp_bind, wp_timeout. eapply wp_weaken; [by apply (closing_udp code)|..]; by intros; apply wp_ret, HQ.
Qed.

Lemma flush_best_effort_ok (Q : unit → Session → Prop) E C s :
  closing s → (∀ s', closing s' → Q tt s') → wp (flush_pending_udp_session_best_effort env) Q E C s.
Proof.
  intros Hc HQ. unfold flush_pending_udp_session_best_effort. apply wp_bind, wp_get.
  destruct (ss_udp_session s) as [ [q io]|] eqn:Eu; [|by apply wp_ret, HQ].
  destruct (negb _); [by apply wp_ret, HQ|]. apply wp_bind, wp_timeout, flush_udp_raw; [congruence|].
  intros q1 io1 io1' s2 r1 Eu1 Hs1 _ Hm1 Hr1. destruct (co_udp _ (cl_core _ Hc) _ _ Eu1) as [sp1 Hq1].
  assert (closing s2) as Hc2 by (by eapply closing_moved). split; apply wp_ret, HQ; done.
Qed.

Lemma closing_alike s s' :
  closing s → ss_udp_session s' = ss_udp_session s → ss_past_wire s' = ss_past_wire s → ss_tcp s' = ss_tcp s →
  ss_trace s' = ss_trace s → closing s'.
Proof.
  intros [Hc Hs Hw Hp] E1 E2 E3 E4.
  constructor; [by apply (core_alike s)|..]; unfold wire, known in *; rewrite ?E1, ?E2, ?E4; done.
Qed.

Lemma closing_log a s : plain a → (∀ m, a ≠ ATcpSent m) → closing s → closing (log a s).
Proof.
  intros Ha Hm [Hc Hs Hw Hp]. assert (∀ x, known s x → known (log a s) x) as Hk.
  { intros x [->|[pn H] ]; [by left|]. right. exists pn. by right. }
  constructor; [by apply core_log| |intros t H; by apply Hk, Hw|intros q io H; by eapply Hk, Hp].
  intros [|y x] b E; simplify_eq/=; [done|]. by eapply Hs.
Qed.

(** No route of the session is left. *)
Definition unrouted (s : Session) : Prop :=
  (∀ p route, cid_routes (ss_registry s) !! p = Some route → cr_session_id route ≠ c_session_id cfg) ∧
  owned_by (sessions (ss_registry s) !! c_client_id cfg) (c_session_id cfg) = false ∧
  owned_by (ip_routes (ss_registry s) !! c_assigned_ipv4 cfg) (c_session_id cfg) = false.

Lemma owned_by_removed (m : gmap bytes SessionHandle) k session_id :
  owned_by ((if owned_by (m !! k) session_id then delete k m else m) !! k) session_id = false.
Proof. destruct (owned_by (m !! k) session_id) eqn:E; [|done]. by rewrite lookup_delete_eq. Qed.

Lemma cleanup_ok (Q : unit → Session → Prop) E C s :
  closing s → (∀ s', closing s' → unrouted s' → Q tt s') → wp (cleanup env cfg) Q E C s.
Proof.
  intros Hc HQ. unfold cleanup. apply wp_bind, wp_ask. intros others. apply wp_modify.
  apply HQ; [by apply (closing_alike s)|]. unfold unrouted. cbn. split_and!.
  - intros p route. rewrite lookup_drop_cids. by intros [_ ?].
  - apply owned_by_removed.
  - apply owned_by_removed.
Qed.

(** The session when its loop has ended: after a protocol error of the peer
    another message may follow on TCP. *)
Definition ended (r : res SessionError unit) (s : Session) : Prop :=
  r ≠ Panic ∧ closing s ∧
  ∀ e, r = Err e → is_peer_protocol_error e = true → core_ok s ∧ trace_ok s ∧ clean s.

Lemma ended_quiet r s :
  (∀ e, r = Err e → is_peer_protocol_error e = false) → r ≠ Panic → closing s → ended r s.
Proof. intros He Hr Hc. split_and!; [done|done|]. intros e Ee. by rewrite (He e Ee). Qed.

Lemma run_until_end signal readies (Q : res SessionError unit → Session → Prop) E C s :
  limits_ok → pings_ok → good s → armed s → Forall ready_ok readies →
  (∀ r s', ended r s' → Q r s') →
  wp (completed ← run_until_shutdown env cfg readies;
      match completed, signal with
      | Some r, _ => mret r
      | None, Some reason => _ ← handle_managed_shutdown env reason; mret (Ok tt)
      | None, None => mret (Err (SIo BrokenPipe))
      end) Q E C s.
Proof.
  intros Hl Hp Hg Ha Hr HQ. apply wp_bind, wp_timeout. eapply wp_weaken; [by apply run_inner_ok|..]; cbv beta.
  - intros u s' [? ?]. apply wp_ret, HQ, ended_quiet; [done|done|by apply done_closing].
  - intros e s' (? & ? & ?). apply wp_ret, HQ. split_and!; [done|by apply done_closing|]. by intros ? [= <-] ?; auto.
  - intros s' (? & ? & Hcl). destruct signal as [reason|].
    + apply wp_bind, wp_bind, wp_modify, close_best_effort_ok; [by apply core_log|by apply trace_log| |].
      { intros H'. apply clean_log; [done|]. by apply Hcl. }
      intros s2 Hc2. by apply wp_ret, HQ, ended_quiet.
    + apply wp_ret, HQ, ended_quiet; [by intros ? [= <-]|done|by apply done_closing].
Qed.

Lemma run_ok signal readies (Q : res SessionError unit → Session → Prop) E C s :
  limits_ok → pings_ok → good s → armed s → Forall ready_ok readies →
  (∀ r s', r ≠ Panic → closing s' → unrouted s' → Q r s') → wp (run env cfg signal readies) Q E C s.
Proof.
  intros Hl Hp Hg Ha Hr HQ. unfold run. apply wp_bind, wp_get, wp_bind. apply (wp_mono _ ended).
  - destruct (ss_shutdown s).
    + apply wp_bind, wp_modify, run_until_end; try done. by apply (good_alike s).
    + apply wp_ret, ended_quiet; [by intros ? [= <-]|done|]. destruct Hg as [ [] _]. by apply done_closing.
  - intros r s1 (Hr1 & Hc1 & He1). apply wp_bind. apply (wp_mono _ (λ _ s', closing s')).
    + destruct r as [u|e|]; [by apply wp_ret| |by apply wp_ret]. destruct (is_peer_protocol_error e) eqn:Ee; [|by apply wp_ret].
      destruct (He1 e eq_refl Ee) as (? & ? & ?). by apply close_best_effort_ok.
    + intros _ s2 Hc2. apply wp_bind, flush_best_effort_ok; [done|]. intros s3 Hc3. apply wp_bind.
      apply (wp_mono _ (λ _ s', closing s')).
      { destruct r; [by apply wp_ret|apply wp_modify; by apply closing_log|by apply wp_ret]. }
      intros _ s4 Hc4. apply wp_bind, cleanup_ok; [done|]. intros s5 Hc5 Hu5. apply wp_ret. by apply HQ.
Qed.
End Invariant.
