(* ===== verification/ServerRun.v ===== *)
(** * Runs of a server session ([ClientSession::run])

    What holds of every run of a session, from [ClientSession::new] to the
    cleanup, whatever the peer sends and however TLS, the sockets, the TUN
    device and the other sessions behave. *)

From stdpp Require Import base tactics option list numbers gmap sets.
From Stdlib Require Import ZArith Lia.
From S2P Require Import Prelude Effects Cid Framing TcpChannel Payloads Admissibility Keys QspSession QspSafety IpPacket UdpIo Registry ServerState ServerSession ServerSafety.

Section Runs.
Context `{B : Boring} {L : BoringLaws B} {T : BoringTotal B} (env : Env) (cfg : SessionConfig).

(** A session whose stream was authenticated, with what the client already
    sent after that in [read_buf]. *)
Definition session_start (updater : IntervalKeyUpdater) (read_buf : bytes) (registry : Registry) (now : Z) : Session :=
  ClientSession_new (TcpChannel_with_state updater read_buf) registry now.

(** What every run may assume: DATA frames below 1 GiB, an ordered ping
    interval, and bytes for input. *)
Definition run_assumptions (read_buf : bytes) (readies : list Ready) : Prop :=
  limits_ok cfg ∧ pings_ok cfg ∧ bytes_ok read_buf ∧ Forall ready_ok readies.

Lemma start_good updater read_buf registry now :
  bytes_ok read_buf →
  good cfg (session_start updater read_buf registry now) ∧ armed (session_start updater read_buf registry now).
Proof. intros Hb. by apply session_new_good. Qed.

Lemma run_end signal updater read_buf registry now readies :
  run_assumptions read_buf readies →
  ∃ s r, run env cfg signal readies (session_start updater read_buf registry now) = (s, ORet r) ∧
    r ≠ Panic ∧ closing cfg s ∧ unrouted cfg s.
Proof.
  intros (Hl & Hp & Hb & Hr). destruct (start_good updater read_buf registry now Hb) as [Hg Ha].
  pose proof (run_ok env cfg signal readies (λ r s', r ≠ Panic ∧ closing cfg s' ∧ unrouted cfg s')
    (λ _ _, False) (λ _, False) _ Hl Hp Hg Ha Hr ltac:(done)) as H.
  unfold wp in H. destruct (run _ _ _ _ _) as [s [r|e| |] ]; [|done..]. by exists s, r.
Qed.

Lemma run_inner_end updater read_buf registry now readies :
  run_assumptions read_buf readies →
  done_ok cfg (fst (run_inner env cfg readies (session_start updater read_buf registry now))).
Proof.
  intros (Hl & Hp & Hb & Hr). destruct (start_good updater read_buf registry now Hb) as [Hg Ha].
  pose proof (run_inner_ok env cfg readies _ Hl Hp Hg Ha Hr) as H. unfold wp in H.
  destruct (run_inner _ _ _ _) as [s [r|e| |] ]; [done|split; apply H|done|split; apply H].
Qed.

(** C4: Every run of a session returns, with a result or a session error and
    never with a panic, whatever arrives on TCP, UDP and TUN and however
    writes fail, time out or are cut off by the shutdown; afterwards the
    registry has no CID, client or address route of the session. *)
Theorem session_returns_and_cleans_up signal updater read_buf registry now readies :
  run_assumptions read_buf readies →
  ∃ s r, run env cfg signal readies (session_start updater read_buf registry now) = (s, ORet r) ∧ r ≠ Panic ∧
    (∀ p route, cid_routes (ss_registry s) !! p = Some route → cr_session_id route ≠ c_session_id cfg) ∧
    owned_by (sessions (ss_registry s) !! c_client_id cfg) (c_session_id cfg) = false ∧
    owned_by (ip_routes (ss_registry s) !! c_assigned_ipv4 cfg) (c_session_id cfg) = false.
Proof.
  intros H. destruct (run_end signal updater read_buf registry now readies H) as (s & r & E & Hr & _ & Hu).
  by exists s, r.
Qed.

(** C5: Everything a session hands to the TUN device is an IPv4 packet whose
    source is the address assigned to the client. *)
Theorem session_tun_source signal updater read_buf registry now readies packet :
  run_assumptions read_buf readies →
  ATun packet ∈ ss_trace (fst (run env cfg signal readies (session_start updater read_buf registry now))) →
  ipv4_header packet ∧ sub packet 12 16 = c_assigned_ipv4 cfg.
Proof.
  intros H. destruct (run_end signal updater read_buf registry now readies H) as (s & r & -> & _ & Hc & _).
  apply (co_tun _ _ (cl_core _ _ Hc)).
Qed.

(** C6: The bytes a session writes to its TCP stream are whole messages, the
    ones it reports as sent, in order; at most one message is cut off, and
    then nothing follows it, not even the CLOSE of the shutdown. *)
Theorem session_tcp_framed signal updater read_buf registry now readies :
  run_assumptions read_buf readies →
  let s := fst (run env cfg signal readies (session_start updater read_buf registry now)) in
  ∃ m n, chan_sent (ss_tcp s) = wire_stream (tcp_messages (ss_trace s)) ++ take n (wire_message m).
Proof.
  intros H. destruct (run_end signal updater read_buf registry now readies H) as (s & r & -> & _ & Hc & _).
  apply (co_framed _ _ (cl_core _ _ Hc)).
Qed.

(** C7: A session switches to UDP only when the handshake of one upgrade
    attempt is complete: since the last registration of a CID it received a
    probe over UDP and a ready message over TCP with the same identifier,
    then asked the client to switch, and then got the acknowledgement. *)
Theorem session_upgrade_handshake signal updater read_buf registry now readies newer older :
  run_assumptions read_buf readies →
  ss_trace (fst (run env cfg signal readies (session_start updater read_buf registry now))) =
    newer ++ ASwitched ActiveUdpQsp :: older →
  committed older.
Proof.
  intros H. destruct (run_end signal updater read_buf registry now readies H) as (s & r & -> & _ & Hc & _).
  apply (cl_switch _ _ Hc).
Qed.

(** While the loop of a session runs, datagrams go only to addresses an
    authenticated packet came from, and the peer of the UDP session is the
    source of the packet with the highest number since the registration, so
    that a replayed or late packet cannot divert the traffic.  A close on
    shutdown may also go to the unspecified address the peer starts with. *)
Theorem session_udp_destinations signal updater read_buf registry now readies :
  run_assumptions read_buf readies →
  let start := session_start updater read_buf registry now in
  let s := fst (run_inner env cfg readies start) in
  let s' := fst (run env cfg signal readies start) in
  (∀ t, t ∈ wire s → ∃ pn, AUdpRecv (tr_destination t) pn ∈ ss_trace s) ∧
  (∀ q io n, ss_udp_session s = Some (q, io) → ss_udp_peer_packet_number s = Some n →
     (io_peer io, n) ∈ claims (ss_trace s) ∧ ∀ c, c ∈ claims (ss_trace s) → c.2 ≤ n) ∧
  (∀ t, t ∈ wire s' → tr_destination t = placeholder_peer ∨ ∃ pn, AUdpRecv (tr_destination t) pn ∈ ss_trace s').
Proof.
  intros H start s s'. destruct (run_inner_end updater read_buf registry now readies H) as [_ [Hw Hp _] ].
  destruct (run_end signal updater read_buf registry now readies H) as (s1 & r & E & _ & Hc & _).
  split; [exact Hw|]. split.
  - intros q io n Eu En. specialize (Hp q io Eu). fold start in Hp. fold s in Hp. by rewrite En in Hp.
  - unfold s', start. rewrite E. apply (cl_wire _ _ Hc).
Qed.
End Runs.

(** ** Witness: registration, upgrade, data both ways, shutdown *)
Module Demo.
Import Checksum.

Definition ip : bytes := [10; 0; 0; 2].
Definition cfg : SessionConfig :=
  mkSessionConfig [7] ip 1 5 (MessageLimits_from_mtu 1400) (mkTimeouts 1000 2000 5000 60000 10000) [Aes128Gcm].
(** Every write succeeds, a millisecond passes with every question. *)
Definition env : Env :=
  mkEnv Z.of_nat (λ _, 3) (λ _, (1, Finished WroteAll)) (λ _ _, None) (λ _, TunOutcome TunAccepted) (λ _, inl 1)
    (λ _ r, r).
Definition registry : Registry := fst (register_session SessionRegistry_new [7] ip 5).
Definition full_cid : Cid := mkCid 20 (replicate 20 6).
Definition register : RegisterCidPayload := mkRegister full_cid demo_cid Aes128Gcm (secret 1) (secret 2) 0 0 false.
Definition register_bytes : bytes.
Proof.
  let r := eval vm_compute in (RegisterCidPayload_encode register []) in match r with Ok ?b => exact b end.
Defined.
Definition packet_out : bytes := [0x45] ++ zeros 11 ++ ip ++ [10; 0; 0; 1].
Definition packet_in : bytes := [0x45] ++ zeros 11 ++ [10; 0; 0; 1] ++ ip.

(** What the client protects: a probe and a packet. *)
Definition client_packets : list bytes.
Proof.
  let r := eval vm_compute in
    (omap (λ r, match r with Ok p => Some p | _ => None end)
      (snd (send_all (QuicQspSession_new demo_cid full_cid keys_ba 0 0 false)
        [wire_message (MUpgradeProbe (UpgradeProbePayload_encode (mkProbe 9 1) [])); wire_message (MData packet_out)]
        (λ _, None)))) in
  exact r.
Defined.

Definition tcp_in (m : Message) : Ready := Offer (Some (inl (wire_message m))) None (λ _, None) true.
Definition event_in (e : SessionEvent) : Ready := Offer None (Some e) (λ _, None) false.
Definition udp_in (peer : SocketAddr) (i : nat) : Ready :=
  event_in (EUdp (mkClaim peer (replicate 20 6) (client_packets !!! i))).
Definition readies : list Ready :=
  [tcp_in (MRegisterCid register_bytes); udp_in 42 0; tcp_in (MUdpReady (to_be 8 9)); tcp_in (MSwitchAck (to_be 8 9));
   udp_in 43 1; event_in (ETunPacket packet_in)].
Definition start : Session := session_start (IntervalKeyUpdater_new 100) [] registry 0.
Definition trace : list action.
Proof.
  let r := eval vm_compute in (ss_trace (fst (run env cfg (Some Takeover) readies start))) in exact r.
Defined.

Lemma trace_run : ss_trace (fst (run env cfg (Some Takeover) readies start)) = trace.
Proof. vm_cast_no_check (eq_refl trace). Qed.

Lemma tcp_in_ok m : bytes_ok (wire_message m) → ready_ok (tcp_in m).
Proof. intros H. split; [by intros r [= <-]|done]. Qed.

Lemma event_in_ok e : event_ok e → ready_ok (event_in e).
Proof. intros H. split; [done|by intros r [= <-] ]. Qed.

Lemma assumptions : run_assumptions cfg [] readies.
Proof.
  split; [decided|]. split; [decided|]. split; [decided|].
  repeat (constructor; [first [apply tcp_in_ok; decided|apply event_in_ok; cbn [event_ok claim_payload]; decided]|]).
  constructor.
Qed.
End Demo.

Section Witnesses.
Import Checksum.

Lemma session_returns_and_cleans_up_witness :
  ∃ s r, run Demo.env Demo.cfg (Some Takeover) Demo.readies Demo.start = (s, ORet r) ∧ r ≠ Panic ∧
    (∀ p route, cid_routes (ss_registry s) !! p = Some route → cr_session_id route ≠ 1) ∧
    owned_by (sessions (ss_registry s) !! [7]) 1 = false ∧ owned_by (ip_routes (ss_registry s) !! Demo.ip) 1 = false.
Proof.
  exact (session_returns_and_cleans_up Demo.env Demo.cfg (Some Takeover) (IntervalKeyUpdater_new 100) [] Demo.registry 0
    Demo.readies Demo.assumptions).
Defined.

Lemma session_tun_source_witness :
  ATun Demo.packet_out ∈ Demo.trace ∧ ipv4_header Demo.packet_out ∧ sub Demo.packet_out 12 16 = Demo.ip.
Proof.
  assert (ATun Demo.packet_out ∈ Demo.trace) as H by (do 2 right; left).
  split; [exact H|]. rewrite <- Demo.trace_run in H.
  exact (session_tun_source Demo.env Demo.cfg (Some Takeover) (IntervalKeyUpdater_new 100) [] Demo.registry 0
    Demo.readies Demo.packet_out Demo.assumptions H).
Defined.

Lemma session_tcp_framed_witness :
  let s := fst (run Demo.env Demo.cfg (Some Takeover) Demo.readies Demo.start) in
  length (tcp_messages (ss_trace s)) = 4%nat ∧
  ∃ m n, chan_sent (ss_tcp s) = wire_stream (tcp_messages (ss_trace s)) ++ take n (wire_message m).
Proof.
  split; [rewrite Demo.trace_run; reflexivity|].
  exact (session_tcp_framed Demo.env Demo.cfg (Some Takeover) (IntervalKeyUpdater_new 100) [] Demo.registry 0
    Demo.readies Demo.assumptions).
Defined.

Lemma session_upgrade_handshake_witness :
  ss_trace (fst (run Demo.env Demo.cfg (Some Takeover) Demo.readies Demo.start)) =
    take 6 Demo.trace ++ ASwitched ActiveUdpQsp :: drop 7 Demo.trace ∧ committed (drop 7 Demo.trace).
Proof.
  split; [exact Demo.trace_run|].
  exact (session_upgrade_handshake Demo.env Demo.cfg (Some Takeover) (IntervalKeyUpdater_new 100) [] Demo.registry 0
    Demo.readies (take 6 Demo.trace) (drop 7 Demo.trace) Demo.assumptions Demo.trace_run).
Defined.

Lemma session_udp_destinations_witness :
  let s := fst (run Demo.env Demo.cfg (Some Takeover) Demo.readies Demo.start) in
  map tr_destination (wire s) = [42; 43] ∧
  ∀ t, t ∈ wire s → tr_destination t = placeholder_peer ∨ ∃ pn, AUdpRecv (tr_destination t) pn ∈ ss_trace s.
Proof.
  split; [vm_cast_no_check (eq_refl [42; 43])|].
  exact (proj2 (proj2 (session_udp_destinations Demo.env Demo.cfg (Some Takeover) (IntervalKeyUpdater_new 100) []
    Demo.registry 0 Demo.readies Demo.assumptions))).
Defined.
End Witnesses.
