(* ===== verification/ServerLiveness.v ===== *)
(** * Progress of server sessions

    An idle session closes after at most three turns of its loop, whatever the
    peer does meanwhile, and a packet from the TUN device is carried by one of
    the transports, also when UDP fails on it. *)

From stdpp Require Import base tactics option list numbers gmap sets.
From Stdlib Require Import ZArith Lia.
From S2P Require Import Prelude Effects Cid Framing TcpChannel Payloads Admissibility Keys QspSession QspSafety IpPacket UdpIo Registry ServerState ServerSession ServerSafety ServerRun.

Lemma uncut_ask `{B : Boring} {A} (f : nat → A) : uncut (ask f).
Proof. done. Qed.
Lemma uncut_count `{B : Boring} m : uncut (count m).
Proof. done. Qed.
#[export] Hint Resolve uncut_ask uncut_count : uncut.

(** ** An environment that does not stall *)
Section Progress.
Context `{B : Boring} {L : BoringLaws B} {T : BoringTotal B} (env : Env) (cfg : SessionConfig).

(** No write is dropped half-way and the socket does not stay blocked. *)
Definition responsive : Prop :=
  (∀ k rc n, env_tcp env k ≠ (rc, DroppedAfter n)) ∧ (∀ k t, env_udp env k t ≠ Some WouldBlock).

Hypothesis Henv : responsive.

Lemma send_tcp_inner_uncut m : uncut (send_tcp_message_inner env m).
Proof.
  intros s. unfold send_tcp_message_inner, mbind, M_bind, get, ask. cbn [ss_tick].
  destruct (env_tcp env (ss_tick s)) as [rc p] eqn:E. destruct (write_message _ _ _ _) as [r c].
  destruct r as [u|[f|e]|]; try done. destruct p; try done. by destruct (proj1 Henv _ _ _ E).
Qed.

Lemma send_tcp_uncut m : uncut (send_tcp_message env m).
Proof. pose proof (send_tcp_inner_uncut m). unfold send_tcp_message. uncut. Qed.

Lemma flush_no_block io k : (flush_pending io (env_udp env k)).2 ≠ Err WouldBlock.
Proof.
  unfold flush_pending. destruct (_ =? 0); [done|]. destruct (env_udp env k _) as [e|] eqn:E; [|done]. cbn.
  intros [= ->]. by apply Henv in E.
Qed.

Lemma send_packet_no_block io packet k : (send_packet io packet (env_udp env k)).2 ≠ Err WouldBlock.
Proof.
  unfold send_packet. destruct (_ =? 0); [done|]. destruct (_ >? _); [done|].
  assert (∀ b io', (if b : bool then flush_pending io' (env_udp env k) else (io', Ok tt)).2 ≠ Err WouldBlock) as H.
  { intros [] io'; [apply flush_no_block|done]. }
  pose proof (H (must_flush_before_append io (zlen packet) (max_gso_segments_for_size (io_max_gso io) (zlen packet))) io) as H1.
  destruct (if must_flush_before_append _ _ _ then _ else _) as [io1 [u|e|] ]; [apply H|done|done].
Qed.

Lemma flush_udp_uncut : uncut (flush_udp_session env).
Proof.
  intros s. unfold flush_udp_session, mbind, M_bind, get. cbn. destruct (ss_udp_session s) as [ [q io]|]; [|done]. cbn.
  pose proof (flush_no_block io (ss_tick s)) as H. destruct (flush_pending _ _) as [io' [u|[]|] ]; done.
Qed.

Lemma queue_udp_uncut m : uncut (queue_udp_message env m).
Proof.
  intros s. unfold queue_udp_message, mbind, M_bind, get. cbn. destruct (ss_udp_session s) as [ [q io]|]; [|done].
  destruct (encode_message m []) as [b|e|]; try done. destruct (send q b _) as [q' [p|e|] ]; try done. cbn.
  pose proof (send_packet_no_block io p (ss_tick s)) as H. destruct (send_packet _ _ _) as [io' [u|[]|] ]; try done.
  cbn. by destruct (eqb _ _).
Qed.

#[local] Hint Resolve send_tcp_uncut flush_udp_uncut queue_udp_uncut : uncut.

Lemma fallback_request_uncut : uncut (send_tcp_fallback_request env).
Proof. unfold send_tcp_fallback_request. uncut. Qed.

Lemma set_active_uncut t : uncut (set_active_transport t).
Proof. unfold set_active_transport. uncut. Qed.
#[local] Hint Resolve fallback_request_uncut set_active_uncut : uncut.

Lemma retire_uncut : uncut (retire_udp_transport env cfg).
Proof. unfold retire_udp_transport, reset_udp_upgrade_state. uncut. Qed.
#[local] Hint Resolve retire_uncut : uncut.

Lemma recover_flush_uncut m r e : uncut (recover_from_udp_flush_error env cfg m r e).
Proof. unfold recover_from_udp_flush_error, apply_udp_failure_recovery. uncut. Qed.

Lemma recover_send_uncut m r e : uncut (recover_from_udp_send_error env cfg m r e).
Proof. unfold recover_from_udp_send_error, apply_udp_failure_recovery. uncut. Qed.
#[local] Hint Resolve recover_flush_uncut recover_send_uncut : uncut.

Lemma send_udp_uncut m r : uncut (send_udp_message env cfg m r).
Proof. unfold send_udp_message. uncut. Qed.
#[local] Hint Resolve send_udp_uncut : uncut.

Lemma handle_session_timer_uncut timer next : uncut (handle_session_timer env cfg timer next).
Proof.
  unfold handle_session_timer, handle_ping_tick, schedule_next_ping, handle_udp_liveness_timeout, send_close,
    send_close_over_tcp, send_close_over_udp, send_udp_message_and_flush. uncut.
Qed.

(** ** Idle sessions *)

(** A turn of the loop when a timer is due: nothing that arrives matters. *)
Definition timer_turn (l : LoopState) : M (option LoopState) :=
  s ← get;
  let l := mkLoop (next_ping_at l) (flush_before_next_event l && has_pending_udp_flush s) in
  _ ← ask (env_now env);
  '(control, next) ← handle_session_timer env cfg (next_session_timer cfg s (next_ping_at l)).2 (next_ping_at l);
  mret (if bool_decide (control = Close) then None else Some (mkLoop next (flush_before_next_event l))).

Definition idle_deadline (s : Session) : Z := ss_last_activity s + idle_timeout (c_timeouts cfg).

(** Which timer is next. *)
Lemma next_timer_cases s next :
  match next_session_timer cfg s next with
  | (at_, TIdle) => at_ = idle_deadline s
  | (at_, TPingTimer) => at_ = next ∧ next < idle_deadline s
  | (at_, TUdpLiveness) => at_ ≤ idle_deadline s ∧ ss_active_transport s = ActiveUdpQsp ∧ ss_tcp_alive s = true
  end.
Proof.
  unfold next_session_timer, idle_deadline. cbv zeta.
  destruct (Z.leb_spec (ss_last_activity s + idle_timeout (c_timeouts cfg)) next);
    case_bool_decide; destruct (ss_tcp_alive s); cbn [andb]; try done;
    destruct (ss_last_authenticated_udp_activity s); try done;
    match goal with |- context [?a <? ?b] => destruct (Z.ltb_spec a b) end; try done;
    split_and!; try done; lia.
Qed.

Lemma timer_at_most_idle s next : (next_session_timer cfg s next).1 ≤ idle_deadline s.
Proof. pose proof (next_timer_cases s next) as H. destruct (next_session_timer cfg s next) as [at_ [] ]; cbn; lia. Qed.

(** The deadline is past from now on, and no input is left to read. *)
Definition expired (s : Session) : Prop :=
  chan_read_buf (ss_tcp s) = [] ∧ ∀ k, idle_deadline s ≤ env_now env k.

Lemma expired_input s s' : input s' = input s → expired s → expired s'.
Proof. intros [= Eb _ El]. unfold expired, idle_deadline. by rewrite Eb, El. Qed.

Lemma iteration_expired l ready s : expired s → iteration env cfg l ready s = timer_turn l s.
Proof.
  intros [Hb Hd]. unfold iteration, timer_turn, has_buffered_input. unfold mbind, M_bind, get, mret, M_ret, ask.
  rewrite Hb, bool_decide_true, andb_false_r by done. cbn [negb]. rewrite bool_decide_false by done.
  cbn [next_ping_at flush_before_next_event].
  pose proof (timer_at_most_idle s (next_ping_at l)) as Ht.
  destruct (next_session_timer cfg s (next_ping_at l)) as [timer_at timer]. cbn [fst snd] in *.
  rewrite (proj2 (Z.leb_le _ _)) by (specialize (Hd (ss_tick s)); lia).
  destruct (handle_session_timer env cfg timer (next_ping_at l) _) as [s' [ [c n]|e| |] ]; done.
Qed.

(** Pings and liveness timeouts that may come before the idle timeout. *)
Definition turns_left (next_ping_at : Z) (s : Session) : nat :=
  (if idle_deadline s <=? next_ping_at then 0 else 1) +
  (if bool_decide (ss_active_transport s = ActiveUdpQsp) && ss_tcp_alive s then 1 else 0).

Definition turn_ok (next_ping_at : Z) (s : Session) (r : SessionControl * Z) (s' : Session) : Prop :=
  r.1 = Close ∨
  good cfg s' ∧ armed s' ∧ input s' = input s ∧ (turns_left r.2 s' < turns_left next_ping_at s)%nat.

Hypothesis Hping : pings_ok cfg.
Hypothesis Hmin : 0 ≤ ping_min (c_timeouts cfg).

Lemma idle_turn next s :
  good cfg s → wp (handle_session_timer env cfg TIdle next) (turn_ok next s) (err_ok cfg) (drop_ok cfg) s.
Proof.
  intros Hg. cbn [handle_session_timer]. apply wp_bind, wp_modify, wp_bind, wp_result.
  apply (good_log cfg (ACount MDisconnectIdleTimeout)) in Hg; [|done|done].
  eapply wp_weaken; [by apply send_close_ok|..|done]; intros ? s' _; apply wp_ret; by left.
Qed.

Lemma turns_left_input next s s' :
  input s' = input s →
  turns_left next s' = ((if (idle_deadline s <=? next)%Z then 0 else 1) +
    (if bool_decide (ss_active_transport s' = ActiveUdpQsp) && ss_tcp_alive s then 1 else 0))%nat.
Proof. intros [= _ Eal El]. unfold turns_left, idle_deadline. by rewrite Eal, El. Qed.

Lemma liveness_turn next s :
  good cfg s → armed s → ss_active_transport s = ActiveUdpQsp → ss_tcp_alive s = true →
  wp (handle_session_timer env cfg TUdpLiveness next) (turn_ok next s) (err_ok cfg) (drop_ok cfg) s.
Proof.
  intros Hg Ha Et Eal. cbn [handle_session_timer]. apply wp_bind. eapply wp_mono; [by apply handle_udp_liveness_ok|].
  cbv beta. intros c s' (Hg' & Ha' & Ei & Et'). apply wp_ret. right. refine (conj Hg' (conj Ha' (conj Ei _))).
  rewrite (turns_left_input _ s s' Ei), (turns_left_input _ s s eq_refl), (Et' Eal), Et, Eal.
  rewrite (bool_decide_true (ActiveUdpQsp = ActiveUdpQsp)), (bool_decide_false (ActiveTcp = ActiveUdpQsp)) by done. cbn. lia.
Qed.

(** A ping does not bring UDP back. *)
Lemma ping_tick_ok s :
  good cfg s →
  wp (handle_ping_tick env cfg)
    (λ _ s', keeps cfg s s' ∧ (ss_active_transport s = ActiveTcp → ss_active_transport s' = ActiveTcp))
    (err_ok cfg) (drop_ok cfg) s.
Proof.
  intros Hg. destruct (ss_active_transport s) eqn:Ea.
  - apply wp_bind, wp_ask. intros nonce. apply wp_bind, wp_get. cbn [ss_active_transport with_tick]. rewrite Ea.
    apply send_tcp_ok; [by apply (good_alike _ s)|by apply (short_u64 _ nonce)|].
    intros s' new _ _ Hs Hg'. split; [exact (same_keeps cfg _ s' Hs Hg')|]. intros _. rewrite (sa_active _ _ Hs). exact Ea.
  - eapply wp_mono; [by apply handle_ping_tick_ok|]. cbv beta. by intros _ s' Hk.
Qed.

Lemma ping_turn next s :
  good cfg s → armed s → expired s → next < idle_deadline s →
  wp (handle_session_timer env cfg TPingTimer next) (turn_ok next s) (err_ok cfg) (drop_ok cfg) s.
Proof.
  intros Hg Ha [_ Hd] Hn. cbn [handle_session_timer]. apply wp_bind. eapply wp_mono; [by apply ping_tick_ok|].
  cbv beta. intros _ s1 ((Hg1 & Ha1 & Ei1) & Et1). apply wp_bind, schedule_ok; [done|]. intros at_ k t Hat.
  apply wp_ret. right. specialize (Hd k). refine (conj _ (conj (Ha1 Ha) (conj Ei1 _))); [by apply (good_alike _ s1)|].
  cbn [snd]. rewrite (turns_left_input at_ s (with_tick t s1) Ei1), (turns_left_input _ s s eq_refl). cbn [ss_active_transport with_tick].
  rewrite (proj2 (Z.leb_le _ _)), (proj2 (Z.leb_gt _ _)) by lia.
  destruct (ss_active_transport s) eqn:Ea; [rewrite (Et1 eq_refl), (bool_decide_false (ActiveTcp = ActiveUdpQsp)) by done; cbn; lia|].
  rewrite (bool_decide_true (ActiveUdpQsp = ActiveUdpQsp)) by done. destruct (bool_decide _), (ss_tcp_alive s); cbn; lia.
Qed.

Lemma timer_turn_ok l s :
  good cfg s → armed s → expired s →
  wp (timer_turn l) (λ next s', ∀ l', next = Some l' → good cfg s' ∧ armed s' ∧ expired s' ∧
      (turns_left (next_ping_at l') s' < turns_left (next_ping_at l) s)%nat) (err_ok cfg) (drop_ok cfg) s.
Proof.
  intros Hg Ha He. unfold timer_turn. apply wp_bind, wp_get. cbn [next_ping_at flush_before_next_event].
  apply wp_bind, wp_ask. intros now. apply wp_bind. set (s1 := with_tick (S (ss_tick s)) s).
  assert (good cfg s1) as Hg1 by (by apply (good_alike _ s)).
  apply (wp_mono _ (turn_ok (next_ping_at l) s1)).
  - pose proof (next_timer_cases s (next_ping_at l)) as Ht.
    destruct (next_session_timer cfg s (next_ping_at l)) as [at_ [] ]; cbn [snd].
    + exact (ping_turn (next_ping_at l) s1 Hg1 Ha He (proj2 Ht)).
    + destruct Ht as (_ & ? & ?). exact (liveness_turn _ s1 Hg1 Ha ltac:(assumption) ltac:(assumption)).
    + by apply idle_turn.
  - intros [c n] s' [E|(Hg' & Ha' & Ei & Hlt)]; cbn [fst snd] in *; apply wp_ret; intros l'.
    + rewrite E. by rewrite bool_decide_true.
    + case_bool_decide; [done|]. intros [= <-]. refine (conj Hg' (conj Ha' (conj (expired_input _ _ Ei He) Hlt))).
Qed.

(** A loop that has only timers to handle ends within [turns_left] turns. *)
Lemma run_loop_expired l s readies :
  good cfg s → armed s → expired s → (turns_left (next_ping_at l) s < length readies)%nat →
  ∃ s', run_loop env cfg l readies s = (s', ORet tt) ∨ ∃ e, run_loop env cfg l readies s = (s', OErr e).
Proof.
  revert l s. induction readies as [|ready readies IH]; intros l s Hg Ha He Hlen; cbn in Hlen; [lia|].
  cbn [run_loop]. unfold mbind at 1 2, M_bind at 1 2. rewrite !iteration_expired by done.
  pose proof (timer_turn_ok l s Hg Ha He) as H. unfold wp in H.
  assert (uncut (timer_turn l)) as Hu.
  { pose proof handle_session_timer_uncut. unfold timer_turn. uncut. }
  specialize (Hu s). destruct (timer_turn l s) as [s' [ [l'|]|e| |] ]; cbn [snd] in *; try done.
  - destruct (H l' eq_refl) as (Hg' & Ha' & He' & Hlt). apply IH; try done. lia.
  - exists s'. by left.
  - exists s'. right. by exists e.
Qed.

Lemma turns_left_two next s : (turns_left next s ≤ 2)%nat.
Proof. unfold turns_left. destruct (_ <=? _), (_ && _); lia. Qed.
End Progress.

(** ** Packets from the TUN device *)
Section Carried.
Context `{B : Boring} {L : BoringLaws B} {T : BoringTotal B} (env : Env) (cfg : SessionConfig).

(** [m] is the last thing written to TCP. *)
Definition just_sent (m : Message) (s : Session) : Prop := ∃ tr, ss_trace s = ATcpSent m :: tr.

(** The connection is lost: a TCP write failed, or TCP was closed before. *)
Definition lost (alive : bool) (e : SessionError) (_ : Session) : Prop :=
  (∃ source, e = Connection source) ∨ alive = false.

Lemma send_tcp_sent alive m s :
  short m → wp (send_tcp_message env m)
    (λ _ s', just_sent m s' ∧ ss_active_transport s' = ss_active_transport s ∧ ss_udp_session s' = ss_udp_session s)
    (lost alive) (λ _, True) s.
Proof.
  intros [_ Hl]. unfold send_tcp_message. apply wp_bind, wp_get.
  destruct (ss_tcp_write_interrupted s); [left; by eexists|]. apply wp_bind, wp_modify, wp_then_always.
  apply wp_bind, wp_get, wp_bind, wp_ask. intros [rc progress]. set (w := match progress with Finished w => w | _ => _ end).
  cbn [ss_tcp with_tcp_write_interrupted].
  assert (∀ f, (write_message (ss_tcp s) m rc w).1 ≠ Err (TWFrame f)) as Hf.
  { intros f. unfold write_message. destruct (maybe_request_key_update _ _) as [ [ [u|e|] k] n]; try done.
    rewrite encode_message_wire by lia. by destruct w. }
  pose proof (write_message_cases (ss_tcp s) m rc w ltac:(lia)) as Hw. destruct (write_message (ss_tcp s) m rc w) as [r c'].
  destruct Hw as [_ Hr]. cbn [fst] in Hf. apply wp_bind, wp_modify.
  match goal with |- context [count_key_update ?k rc ?s0] =>
    destruct (count_key_update_log k rc s0) as (new & _ & _ & _ & ->) end.
  destruct r as [u|[f|e]|]; [|by destruct (Hf f)| |done].
  - apply wp_modify. split; [by eexists|done].
  - destruct progress; [left; by eexists..|]. case_bool_decide; [done|]. left. by eexists.
Qed.

Lemma fallback_request_sent alive s :
  wp (send_tcp_fallback_request env) (λ _ s', ss_active_transport s' = ss_active_transport s) (lost alive) (λ _, True) s.
Proof.
  unfold send_tcp_fallback_request. apply wp_bind, wp_get. destruct (ss_pending_tcp_fallback s); [by apply wp_ret|].
  apply wp_bind, wp_ask. intros id. apply wp_bind. eapply wp_mono; [apply send_tcp_sent; by apply (short_u64 _ id)|].
  cbv beta. intros _ s' (_ & E & _). by apply wp_modify.
Qed.

Lemma retry_on_tcp m e s :
  short m →
  wp (apply_udp_failure_recovery env (Some m) RetryMessageOnTcp e)
    (λ _ s', just_sent m s' ∧ ss_active_transport s' = ActiveTcp) (lost (ss_tcp_alive s)) (λ _, True) s.
Proof.
  intros Hm. unfold apply_udp_failure_recovery. apply wp_bind, wp_get.
  destruct (ss_tcp_alive s) eqn:Eal; cbn [negb]; [|by right].
  apply wp_bind. apply (wp_mono _ (λ _ s', ss_active_transport s' = ActiveTcp)).
  { unfold set_active_transport. apply wp_bind, wp_get. case_bool_decide as Ea; [by apply wp_ret|].
    destruct (ss_active_transport s); [done|]. unfold wp. cbn. by destruct (ss_udp_session s) as [ []|]. }
  intros _ s1 E1. apply wp_bind. eapply wp_mono; [apply fallback_request_sent|]. cbv beta. intros _ s2 E2.
  eapply wp_mono; [by apply send_tcp_sent|]. cbv beta. intros _ s3 (? & E3 & _). split; [done|]. congruence.
Qed.

(** The UDP session took the packet: it is protected and in the hands of the
    backend. *)
Definition queued (m : Message) (s s' : Session) : Prop :=
  ∃ q io q' datagram socket io', ss_udp_session s = Some (q, io) ∧ send q (wire_message m) (λ _, None) = (q', Ok datagram) ∧
    send_packet io datagram socket = (io', Ok tt) ∧ ss_udp_session s' = Some (q', io').

Lemma queue_queued m s :
  good cfg s → is_Some (ss_udp_session s) → short m →
  wp (queue_udp_message env m)
    (λ r s', match r with
             | Ok _ => queued m s s' ∧ ss_active_transport s' = ss_active_transport s
             | Err e => (∃ x, e = UQsp x) ∧ ss_tcp_alive s' = ss_tcp_alive s
             | Panic => False
             end) (λ _ _, False) (λ _, True) s.
Proof.
  intros Hg [ [q io] Eu] [Hb Hl]. destruct (co_udp _ _ (we_core _ _ (proj1 Hg)) _ _ Eu) as [sp Hq].
  unfold queue_udp_message. apply wp_bind, wp_get. rewrite Eu, encode_message_wire by lia. cbn [app].
  assert (bytes_ok (wire_message m) ∧ zlen (wire_message m) < 2 ^ 31) as [Hb' Hl'].
  { rewrite zlen_wire_message. unfold HEADER_LEN. split; [|lia]. by apply wire_message_ok. }
  destruct (send_ok sp q (wire_message m) (λ _, None) Hq Hb' Hl') as [_ Hr].
  destruct (send q (wire_message m) (λ _, None)) as [q' r] eqn:Es. cbn [fst snd] in Hr.
  destruct r as [datagram|e|]; [| |by destruct Hr as [(_ & _ & ?)|(_ & _ & _ & ? & _ & ?)] ].
  - apply wp_bind, wp_ask. intros socket. destruct (send_packet io datagram socket) as [io' r] eqn:Ep.
    assert (r ≠ Panic) as Hp. { pose proof (proj2 (send_packet_step io datagram socket)) as H. by rewrite Ep in H. }
    apply wp_bind, wp_modify. destruct r as [ []|e|]; [| |done].
    + apply wp_bind. destruct (eqb _ _); [apply wp_ret|apply wp_modify]; apply wp_ret; (split; [|done]);
        by exists q, io, q', datagram, socket, io'.
    + destruct e; first [exact I|apply wp_ret; split; [by eexists|done] ].
  - apply wp_bind, wp_modify, wp_ret. split; [by eexists|done].
Qed.

(** A packet from the TUN device is not lost to a failing transport: a
    packet within the size limit is either in the hands of the UDP backend or
    is the last message written to TCP, also when UDP fails on it and the
    session falls back to TCP; the session gives up with an error only when a
    TCP write fails or TCP is already closed, and it never panics. *)
Theorem tun_packet_carried packet s :
  limits_ok cfg → good cfg s → bytes_ok packet → zlen packet ≤ max_data_len (c_limits cfg) →
  match handle_tun_packet env cfg packet s with
  | (s', ORet control) => control = Continue ∧
      match ss_active_transport s' with
      | ActiveTcp => just_sent (MData packet) s'
      | ActiveUdpQsp => queued (MData packet) s s'
      end
  | (s', OErr e) => (∃ source, e = Connection source) ∨ ss_tcp_alive s = false
  | (_, OPanic) => False
  | (_, OCancel) => True
  end.
Proof.
  intros Hl Hg Hb Hlen. unfold limits_ok in Hl.
  assert (short (MData packet)) as Hs by (split; [done|cbn; lia]).
  change (wp (handle_tun_packet env cfg packet)
    (λ control s', control = Continue ∧ match ss_active_transport s' with
       | ActiveTcp => just_sent (MData packet) s' | ActiveUdpQsp => queued (MData packet) s s' end)
    (lost (ss_tcp_alive s)) (λ _, True) s).
  unfold handle_tun_packet. rewrite Z.gtb_ltb, (proj2 (Z.ltb_ge _ _)) by done.
  apply wp_bind, wp_get, wp_bind. destruct (ss_active_transport s) eqn:Ea.
  - eapply wp_mono; [by apply send_tcp_sent|]. cbv beta. intros _ s' (Hj & E & _). apply wp_ret. by rewrite E, Ea.
  - destruct (good_active _ _ Hg Ea) as [Hu _]. apply wp_bind.
    eapply wp_weaken; [by apply queue_queued|..|done]; cbv beta; [|done].
    intros [u|e|] s1 H1; [destruct H1 as [Hq E]; apply wp_ret, wp_ret; by rewrite E, Ea| |done].
    destruct H1 as ([x ->] & Eal). cbn [recover_from_udp_send_error]. apply wp_bind.
    apply (wp_mono _ (λ _ s', ss_tcp_alive s' = ss_tcp_alive s)); [exact Eal|]. intros _ s2 E2. rewrite <- E2.
    eapply wp_mono; [by apply retry_on_tcp|]. cbv beta. intros _ s3 [? E3]. apply wp_ret. by rewrite E3.
Qed.

(** An idle session closes.  Once [idle_timeout] has passed since the
    last message and nothing is left to read, the loop ends after at most
    three turns (a ping, a liveness timeout, the idle timeout), with success
    or with the error of a failed write, whatever input the turns are offered
    and although none of them waits; [responsive] says that no write is
    dropped and the socket does not stay blocked. *)
Theorem idle_session_closes l s r1 r2 r3 rest :
  responsive env → pings_ok cfg → 0 ≤ ping_min (c_timeouts cfg) → good cfg s → armed s →
  chan_read_buf (ss_tcp s) = [] → (∀ k, ss_last_activity s + idle_timeout (c_timeouts cfg) ≤ env_now env k) →
  ∃ s', run_loop env cfg l (r1 :: r2 :: r3 :: rest) s = (s', ORet tt) ∨
    ∃ e, run_loop env cfg l (r1 :: r2 :: r3 :: rest) s = (s', OErr e).
Proof.
  intros Henv Hp H0 Hg Ha Hb Hd. apply run_loop_expired; try done.
  pose proof (turns_left_two cfg (next_ping_at l) s). cbn [length]. lia.
Qed.
End Carried.

(** ** Witnesses *)
Section Witnesses.
Import Checksum.

(** A minute after the start. *)
Definition late_env : Env :=
  mkEnv (λ k, 60000 + Z.of_nat k) (λ _, 3) (λ _, (1, Finished WroteAll)) (λ _ _, None) (λ _, TunOutcome TunAccepted)
    (λ _, inl 1) (λ _ r, r).

Lemma idle_session_closes_witness :
  ∃ s', run_loop late_env Demo.cfg (mkLoop 1500 false) [Shutdown; Shutdown; Shutdown] Demo.start = (s', ORet tt) ∨
    ∃ e, run_loop late_env Demo.cfg (mkLoop 1500 false) [Shutdown; Shutdown; Shutdown] Demo.start = (s', OErr e).
Proof.
  apply (idle_session_closes late_env Demo.cfg (mkLoop 1500 false) Demo.start Shutdown Shutdown Shutdown []).
  - by split.
  - decided.
  - decided.
  - apply start_good. decided.
  - apply (start_good Demo.cfg (IntervalKeyUpdater_new 100) [] Demo.registry 0). decided.
  - reflexivity.
  - intros k. cbn. lia.
Defined.
End Witnesses.
