(* ===== verification/QuicFront.v ===== *)
(** * The QUIC front door ([slt-server/src/quic.rs])

    Datagrams that arrive on the public UDP port belong to a session, when a
    session has registered the prefix of their connection ID, or else to the
    web server behind.  For the latter the front door is a NAT: every peer
    has a socket of its own to the web server and a task that reads from it,
    in a table of bounded size.

    [LruCache] (crate lru) is the class [Lru] with what its documentation
    says; sockets, clock, registry and session queues are the answers of the
    environment to each datagram. *)

From Stdlib Require Import Ascii String.
From stdpp Require Import base tactics option list numbers gmap sets.
From Stdlib Require Import ZArith Lia.
From S2P Require Import Prelude Cid PacketNumber PacketHeader Keys Classifier UdpIo Config Registry ServerState.

(** ** The table of peers *)

(** A socket to the web server and the task that reads from it are made
    together: [pe_socket] names both, by the number of sockets made before. *)
Record PeerEntry := mkPeer { pe_socket : Z; pe_last_seen : Z; pe_token : Z }.

(** [LruCache<SocketAddr, PeerEntry>]; [lru_entries] is the iteration, the most
    recently used entry first. *)
Class Lru := {
  LruCache : Type;
  lru_new : Z → LruCache;
  lru_cap : LruCache → Z;
  lru_entries : LruCache → list (SocketAddr * PeerEntry);
  (** [get_mut] and the update of the entry it returns *)
  lru_get_mut : LruCache → SocketAddr → (PeerEntry → PeerEntry) → LruCache * option PeerEntry;
  lru_pop : LruCache → SocketAddr → LruCache * option PeerEntry;
  lru_put : LruCache → SocketAddr → PeerEntry → LruCache * option PeerEntry;
}.

(** The value of a key, and the entries without the key. *)
Fixpoint assoc (k : SocketAddr) (l : list (SocketAddr * PeerEntry)) : option PeerEntry :=
  match l with
  | [] => None
  | (k', v) :: l => if k' =? k then Some v else assoc k l
  end.
Definition without (k : SocketAddr) (l : list (SocketAddr * PeerEntry)) : list (SocketAddr * PeerEntry) :=
  List.filter (λ e, negb (e.1 =? k)) l.

(** The documented behaviour: [get_mut] and [put] make the entry the most
    recently used one; [put] returns the old value of the same key, and drops
    the least recently used entry when a new key does not fit. *)
Class LruLaws (C : Lru) := {
  lru_new_entries : ∀ n, lru_entries (lru_new n) = [];
  lru_new_cap : ∀ n, lru_cap (lru_new n) = n;
  lru_get_mut_spec : ∀ c k f,
    lru_cap (lru_get_mut c k f).1 = lru_cap c ∧ (lru_get_mut c k f).2 = assoc k (lru_entries c) ∧
    lru_entries (lru_get_mut c k f).1 =
      match assoc k (lru_entries c) with
      | Some v => (k, f v) :: without k (lru_entries c)
      | None => lru_entries c
      end;
  lru_pop_spec : ∀ c k,
    lru_cap (lru_pop c k).1 = lru_cap c ∧ (lru_pop c k).2 = assoc k (lru_entries c) ∧
    lru_entries (lru_pop c k).1 = without k (lru_entries c);
  lru_put_spec : ∀ c k v,
    lru_cap (lru_put c k v).1 = lru_cap c ∧ (lru_put c k v).2 = assoc k (lru_entries c) ∧
    lru_entries (lru_put c k v).1 =
      (k, v) :: match assoc k (lru_entries c) with
                | Some _ => without k (lru_entries c)
                | None => take (Z.to_nat (lru_cap c - 1)) (lru_entries c)
                end;
}.

(** ** The state *)
Record FrontMetrics := mkFrontMetrics {
  fm_udp_accepted : Z;
  fm_dropped : Z;
  fm_passed : Z;
  fm_claimed : Z;
  fm_udp_claim_channel_full_drops : Z;
  fm_udp_upstream_setup_failure_drops : Z;
  fm_upstream_send_failures : Z;
}.

(** What leaves the front door: claims for sessions, sockets to the web server
    opened on behalf of a peer, datagrams to the web server, and datagrams of
    the web server to a peer. *)
Inductive front_action :=
  | FClaimed (tx : SessionTx) (claim : UdpClaim) (queued : bool)
  | FOpened (socket : Z) (peer : SocketAddr)
  | FForwarded (socket : Z) (peer : SocketAddr) (payload : bytes) (sent : bool)
  | FReply (socket : Z) (peer : SocketAddr) (data : bytes) (sent : bool).

(** [QUIC_BUF_LEN], the buffer of a reader task. *)
Definition QUIC_BUF_LEN : Z := 2 * 1024.

Section Front.
Context {C : Lru}.

(** [fr_readers]: the reader tasks that run, with the peer they send to and
    their token; [fr_done]: the channel of [done_tx] and [done_rx], oldest
    first; [fr_opened]: how many sockets were made. *)
Record Front := mkFront {
  fr_peers : LruCache;
  fr_done : list (SocketAddr * Z);
  fr_next_token : Z;
  fr_opened : Z;
  fr_readers : gmap Z (SocketAddr * Z);
  fr_metrics : FrontMetrics;
  fr_trace : list front_action;
}.

Definition put_peers (c : LruCache) (s : Front) : Front :=
  mkFront c (fr_done s) (fr_next_token s) (fr_opened s) (fr_readers s) (fr_metrics s) (fr_trace s).
Definition put_done (d : list (SocketAddr * Z)) (s : Front) : Front :=
  mkFront (fr_peers s) d (fr_next_token s) (fr_opened s) (fr_readers s) (fr_metrics s) (fr_trace s).
Definition put_next_token (n : Z) (s : Front) : Front :=
  mkFront (fr_peers s) (fr_done s) n (fr_opened s) (fr_readers s) (fr_metrics s) (fr_trace s).
Definition put_opened (n : Z) (s : Front) : Front :=
  mkFront (fr_peers s) (fr_done s) (fr_next_token s) n (fr_readers s) (fr_metrics s) (fr_trace s).
Definition put_readers (r : gmap Z (SocketAddr * Z)) (s : Front) : Front :=
  mkFront (fr_peers s) (fr_done s) (fr_next_token s) (fr_opened s) r (fr_metrics s) (fr_trace s).
Definition count (f : FrontMetrics → FrontMetrics) (s : Front) : Front :=
  mkFront (fr_peers s) (fr_done s) (fr_next_token s) (fr_opened s) (fr_readers s) (f (fr_metrics s)) (fr_trace s).
Definition flog (a : front_action) (s : Front) : Front :=
  mkFront (fr_peers s) (fr_done s) (fr_next_token s) (fr_opened s) (fr_readers s) (fr_metrics s) (a :: fr_trace s).

Definition inc_udp_accepted (m : FrontMetrics) : FrontMetrics :=
  mkFrontMetrics (fm_udp_accepted m + 1) (fm_dropped m) (fm_passed m) (fm_claimed m)
    (fm_udp_claim_channel_full_drops m) (fm_udp_upstream_setup_failure_drops m) (fm_upstream_send_failures m).
Definition inc_dropped (m : FrontMetrics) : FrontMetrics :=
  mkFrontMetrics (fm_udp_accepted m) (fm_dropped m + 1) (fm_passed m) (fm_claimed m)
    (fm_udp_claim_channel_full_drops m) (fm_udp_upstream_setup_failure_drops m) (fm_upstream_send_failures m).
Definition inc_passed (m : FrontMetrics) : FrontMetrics :=
  mkFrontMetrics (fm_udp_accepted m) (fm_dropped m) (fm_passed m + 1) (fm_claimed m)
    (fm_udp_claim_channel_full_drops m) (fm_udp_upstream_setup_failure_drops m) (fm_upstream_send_failures m).
Definition inc_claimed (m : FrontMetrics) : FrontMetrics :=
  mkFrontMetrics (fm_udp_accepted m) (fm_dropped m) (fm_passed m) (fm_claimed m + 1)
    (fm_udp_claim_channel_full_drops m) (fm_udp_upstream_setup_failure_drops m) (fm_upstream_send_failures m).
Definition inc_udp_claim_channel_full_drops (m : FrontMetrics) : FrontMetrics :=
  mkFrontMetrics (fm_udp_accepted m) (fm_dropped m) (fm_passed m) (fm_claimed m)
    (fm_udp_claim_channel_full_drops m + 1) (fm_udp_upstream_setup_failure_drops m) (fm_upstream_send_failures m).
Definition inc_udp_upstream_setup_failure_drops (m : FrontMetrics) : FrontMetrics :=
  mkFrontMetrics (fm_udp_accepted m) (fm_dropped m) (fm_passed m) (fm_claimed m)
    (fm_udp_claim_channel_full_drops m) (fm_udp_upstream_setup_failure_drops m + 1) (fm_upstream_send_failures m).
Definition inc_upstream_send_failures (m : FrontMetrics) : FrontMetrics :=
  mkFrontMetrics (fm_udp_accepted m) (fm_dropped m) (fm_passed m) (fm_claimed m)
    (fm_udp_claim_channel_full_drops m) (fm_udp_upstream_setup_failure_drops m) (fm_upstream_send_failures m + 1).

(** [QuicEndpoint::bind]: the bound of the table and the timeout it runs with.
    [sockets] is the outcome of binding and duplicating the socket. *)
Definition QuicEndpoint_bind (config : ServerConfig) (sockets : io_result unit) : res IoError (Z * Z) :=
  if sv_udp_nat_max_entries config =? 0 then Err InvalidInput else
  if st_idle_timeout (sv_timing config) =? 0 then Err InvalidInput else
  match sockets with
  | inr e => Err e
  | inl _ => Ok (sv_udp_nat_max_entries config, st_idle_timeout (sv_timing config))
  end.

(** [QuicNatState::new] *)
Definition Front_new (lru_size : Z) : Front :=
  mkFront (lru_new lru_size) [] 0 0 ∅ (mkFrontMetrics 0 0 0 0 0 0 0) [].

(** ** [QuicNatState] *)

(** [entry.task.abort()] *)
Definition abort (entry : PeerEntry) (s : Front) : Front :=
  put_readers (delete (pe_socket entry) (fr_readers s)) s.

Definition handle_reader_done (peer : SocketAddr) (token : Z) (s : Front) : Front :=
  match lru_pop (fr_peers s) peer with
  | (peers, None) => put_peers peers s
  | (peers, Some entry) =>
      if pe_token entry =? token then put_peers peers s
      else put_peers (lru_put peers peer entry).1 s
  end.

(** [Instant::duration_since] is zero when the other instant is later. *)
Definition is_stale (now idle_timeout : Z) (entry : PeerEntry) : bool :=
  idle_timeout <=? Z.max 0 (now - pe_last_seen entry).

(** The second loop of [sweep_idle]. *)
Fixpoint evict_all (stale : list SocketAddr) (s : Front) : Front :=
  match stale with
  | [] => s
  | peer :: stale =>
      let '(peers, popped) := lru_pop (fr_peers s) peer in
      let s := put_peers peers s in
      evict_all stale (match popped with Some entry => abort entry s | None => s end)
  end.

Definition sweep_idle (now idle_timeout : Z) (s : Front) : Front :=
  evict_all (fst <$> List.filter (λ e, is_stale now idle_timeout e.2) (lru_entries (fr_peers s))) s.

(** [spawn_upstream_reader]: the task of the socket just made. *)
Definition spawn_upstream_reader (socket : Z) (peer : SocketAddr) (token : Z) (s : Front) : Front :=
  put_readers (<[socket := (peer, token)]> (fr_readers s)) s.

(** [create] is the outcome of [create_connected]. *)
Definition get_or_create_upstream (now : Z) (create : io_result unit) (peer : SocketAddr) (s : Front)
    : Front * res IoError Z :=
  match lru_get_mut (fr_peers s) peer (λ e, mkPeer (pe_socket e) now (pe_token e)) with
  | (peers, Some entry) => (put_peers peers s, Ok (pe_socket entry))
  | (peers, None) =>
      let s := put_peers peers s in
      match create with
      | inr e => (s, Err e)
      | inl _ =>
          let socket := fr_opened s in
          let s := flog (FOpened socket peer) (put_opened (socket + 1) s) in
          let token := fr_next_token s in
          let s := put_next_token ((token + 1) mod 2 ^ 64) s in
          let s := spawn_upstream_reader socket peer token s in
          let '(peers, evicted) := lru_put (fr_peers s) peer (mkPeer socket now token) in
          let s := put_peers peers s in
          (match evicted with Some entry => abort entry s | None => s end, Ok socket)
      end
  end.

(** ** [QuicEndpoint] *)

(** What happens around one datagram: the clock, the registry, whether the
    queue of the session takes it, and the socket to the web server. *)
Record Answer := mkAnswer {
  an_now : Z;
  an_registry : Registry;
  an_queue : bool;
  an_create : io_result unit;
  an_send : io_result Z;
}.

Definition forward_to_upstream (a : Answer) (peer : SocketAddr) (payload : bytes) (s : Front) : Front :=
  let s := count inc_passed s in
  match get_or_create_upstream (an_now a) (an_create a) peer s with
  | (s, Ok socket) =>
      match an_send a with
      | inl _ => flog (FForwarded socket peer payload true) s
      | inr _ => flog (FForwarded socket peer payload false) (count inc_upstream_send_failures s)
      end
  | (s, _) => count inc_udp_upstream_setup_failure_drops s
  end.

Definition handle_datagram (a : Answer) (peer : SocketAddr) (payload : bytes) (s : Front) : res unit Front :=
  verdict ← classify_quic_datagram payload;
  Ok (match verdict with
      | QDrop => count inc_dropped s
      | QPass => forward_to_upstream a peer payload s
      | QShort dcid_prefix =>
          match lookup_cid (an_registry a) dcid_prefix with
          | Some tx =>
              let s := count inc_claimed s in
              let claim := mkClaim peer dcid_prefix payload in
              if an_queue a then flog (FClaimed tx claim true) s
              else flog (FClaimed tx claim false) (count inc_udp_claim_channel_full_drops s)
          | None => forward_to_upstream a peer payload s
          end
      end).

(** The datagrams of one buffer; [env] answers the i-th datagram of the run. *)
Fixpoint dispatch_ranges (env : Z → Answer) (peer : SocketAddr) (buf : bytes) (ranges : list (Z * Z)) (s : Front)
    : res unit Front :=
  match ranges with
  | [] => Ok s
  | (off, end_) :: ranges =>
      payload ← slice buf off end_;
      let s := count inc_udp_accepted s in
      s ← handle_datagram (env (fm_udp_accepted (fr_metrics s))) peer payload s;
      dispatch_ranges env peer buf ranges s
  end.

(** [dispatch_recv_batch] on the buffers that [recv] filled. *)
Fixpoint dispatch_recv_batch (env : Z → Answer) (batch : list (RecvMeta * bytes)) (s : Front) : res unit Front :=
  match batch with
  | [] => Ok s
  | (meta, buf) :: batch =>
      s ← dispatch_ranges env (meta_addr meta) buf (gro_datagram_ranges (meta_len meta) (meta_stride meta)) s;
      dispatch_recv_batch env batch s
  end.

(** What is ready in an iteration of [run], and, between the iterations, what
    the reader tasks do: [ReaderRecv] is a datagram of the web server with the
    outcome of [send_to], [ReaderEnds] a failed [recv]. *)
Inductive FrontEvent :=
  | Cancelled
  | DoneReady
  | SweepTick (now : Z)
  | BatchReady (batch : list (RecvMeta * bytes))
  | WouldBlocked
  | RecvFailed (e : IoError)
  | ReaderRecv (socket : Z) (data : bytes) (sent : bool)
  | ReaderEnds (socket : Z).

Definition reader_recv (socket : Z) (data : bytes) (sent : bool) (s : Front) : Front :=
  match fr_readers s !! socket with
  | Some (peer, _) =>
      let data := take (Z.to_nat QUIC_BUF_LEN) data in
      if bool_decide (data = []) then s else flog (FReply socket peer data sent) s
  | None => s
  end.

Definition reader_ends (socket : Z) (s : Front) : Front :=
  match fr_readers s !! socket with
  | Some (peer, token) => put_done (fr_done s ++ [(peer, token)]) (put_readers (delete socket (fr_readers s)) s)
  | None => s
  end.

(** One iteration; the second component is the result of [run] when it returns. *)
Definition front_step (idle_timeout : Z) (env : Z → Answer) (e : FrontEvent) (s : Front)
    : res unit (Front * option (io_result unit)) :=
  match e with
  | Cancelled => Ok (s, Some (inl tt))
  | DoneReady =>
      match fr_done s with
      | [] => Ok (s, None)
      | (peer, token) :: done => Ok (handle_reader_done peer token (put_done done s), None)
      end
  | SweepTick now => Ok (sweep_idle now idle_timeout s, None)
  | BatchReady batch => s ← dispatch_recv_batch env batch s; Ok (s, None)
  | WouldBlocked => Ok (s, None)
  | RecvFailed e => Ok (s, Some (inr e))
  | ReaderRecv socket data sent => Ok (reader_recv socket data sent s, None)
  | ReaderEnds socket => Ok (reader_ends socket s, None)
  end.

(** [run], until it returns or the events end. *)
Fixpoint QuicEndpoint_run (idle_timeout : Z) (env : Z → Answer) (events : list FrontEvent) (s : Front)
    : res unit (Front * option (io_result unit)) :=
  match events with
  | [] => Ok (s, None)
  | e :: events =>
      '(s, returned) ← front_step idle_timeout env e s;
      match returned with
      | Some r => Ok (s, Some r)
      | None => QuicEndpoint_run idle_timeout env events s
      end
  end.
End Front.

(** ** Which datagrams are short-header packets *)
Definition short_for (payload prefix : bytes) : Prop :=
  ∃ first rest, payload = [first] ++ prefix ++ rest ∧ zlen prefix = QUIC_DCID_PREFIX_LEN ∧
    Z.land first 0x40 ≠ 0 ∧ Z.land first 0x80 = 0.

Lemma classify_quic_spec payload :
  ∃ v, classify_quic_datagram payload = Ok v ∧ ∀ prefix, v = QShort prefix ↔ short_for payload prefix.
Proof.
  unfold classify_quic_datagram, short_for, QUIC_DCID_PREFIX_LEN.
  destruct payload as [|first l]; cbn [bool_decide decide_rel].
  { eexists. split; [done|]. split; [done|]. by intros (? & ? & ? & _). }
  rewrite bool_decide_false by done. rewrite index_ok by (rewrite ?zlen_cons; pose proof (zlen_nonneg l); lia).
  res_simpl. change (nth (Z.to_nat 0) (first :: l) 0) with first.
  destruct (Z.eqb_spec (Z.land first 64) 0) as [Hf|Hf]; cbn [negb].
  { eexists. split; [done|]. split; [done|]. intros (? & ? & [= -> _] & _ & ? & _). done. }
  destruct (Z.eqb_spec (Z.land first 128) 0) as [Hl|Hl]; cbn [negb].
  2: { eexists. split; [done|]. split; [done|]. intros (? & ? & [= -> _] & _ & _ & ?). done. }
  rewrite zlen_cons. destruct (Z.ltb_spec (1 + zlen l) (1 + 20)) as [Hs|Hs].
  { eexists. split; [done|]. split; [done|]. intros (? & rest & [= _ ->] & ? & _).
    rewrite zlen_app in Hs. pose proof (zlen_nonneg rest). lia. }
  rewrite slice_ok by (rewrite ?zlen_cons; lia). res_simpl. change (first :: l) with ([first] ++ l).
  rewrite sub_app_r by (rewrite ?zlen_one; lia). rewrite zlen_one. change (1 - 1) with 0. change (20 + 1 - 1) with 20.
  unfold copy_array. rewrite zlen_sub by lia. cbn -[sub]. eexists. split; [done|].
  intros prefix. split.
  - intros [= <-]. exists first, (sub l 20 (zlen l)). split_and!; try done; [|by rewrite zlen_sub by lia].
    cbn [app]. f_equal. apply sub_split; lia.
  - intros (f & rest & [= <- ->] & Hp & _). f_equal. rewrite sub_app_l by lia. by rewrite sub_all by lia.
Qed.

Lemma short_for_inj payload p q : short_for payload p → short_for payload q → p = q.
Proof.
  intros (f & r & -> & Hp & _) (f' & r' & E & Hq & _). injection E as -> E. unfold zlen in *.
  eapply (f_equal (take (length p))) in E. rewrite take_app_length in E.
  rewrite E. rewrite take_app_length'; [done|lia].
Qed.

Lemma land_lxor_other a b c d : Z.land c d = 0 → Z.land (Z.lxor a (Z.land b c)) d = Z.land a d.
Proof.
  intros H. apply Z.bits_inj'. intros n Hn. rewrite !Z.land_spec, Z.lxor_spec, Z.land_spec.
  pose proof (f_equal (λ x, Z.testbit x n) H) as Hb. cbn beta in Hb. rewrite Z.land_spec, Z.bits_0 in Hb.
  destruct (Z.testbit a n), (Z.testbit b n), (Z.testbit c n), (Z.testbit d n); done.
Qed.

(** Every packet a session protects is one, for its connection ID. *)
Lemma protected_short `{B : Boring} {L : BoringLaws B} k dcid pn kp plaintext :
  pk_wf (dk_aead (qk_tx k)) → bytes_ok plaintext → zlen plaintext < 2 ^ 31 → zlen dcid = QUIC_DCID_PREFIX_LEN →
  ∃ packet, protect_into k dcid pn kp plaintext = Ok packet ∧ short_for packet dcid.
Proof.
  intros Hw Hb Hl Hd. destruct (protect_into_ok k dcid pn kp plaintext Hw Hb Hl) as (mask & ct & -> & _).
  eexists. split; [done|]. unfold packet_of, short_for.
  destruct (first_byte_fields (packet_number_len pn) kp (packet_number_len_range pn)) as (H1 & H2 & _).
  do 2 eexists. split_and!; [done|done|..]; rewrite land_lxor_other by done; [by apply Z.eqb_neq|by apply Z.eqb_eq].
Qed.

(** ** Entries *)
Lemma assoc_elem k l v : assoc k l = Some v → (k, v) ∈ l.
Proof.
  induction l as [|[k' v'] l IH]; [done|]. cbn. destruct (Z.eqb_spec k' k) as [->|].
  - intros [= ->]. by left.
  - right. auto.
Qed.
Lemma assoc_none k l : assoc k l = None ↔ k ∉ l.*1.
Proof.
  induction l as [|[k' v'] l IH]; cbn; [set_solver|]. destruct (Z.eqb_spec k' k) as [->|Hk]; [set_solver|].
  rewrite IH. set_solver.
Qed.
Lemma assoc_nodup k l v : NoDup l.*1 → (k, v) ∈ l → assoc k l = Some v.
Proof.
  induction l as [|[k' v'] l IH]; cbn; [set_solver|]. intros [Hn Hd]%NoDup_cons [[= -> ->]|H]%elem_of_cons.
  - by rewrite Z.eqb_refl.
  - destruct (Z.eqb_spec k' k) as [->|]; [|auto]. destruct Hn. apply list_elem_of_fmap. by exists (k, v).
Qed.
Lemma elem_of_without k l e : e ∈ without k l ↔ e ∈ l ∧ e.1 ≠ k.
Proof.
  unfold without. rewrite !list_elem_of_In, filter_In, negb_true_iff, Z.eqb_neq. done.
Qed.
Lemma sublist_filter {A} (f : A → bool) (l : list A) : sublist (List.filter f l) l.
Proof. induction l as [|x l IH]; cbn; [done|]. destruct (f x); by constructor. Qed.
Lemma without_sublist k l : sublist (without k l) l.
Proof. apply sublist_filter. Qed.
Lemma length_without k l v : assoc k l = Some v → (length (without k l) < length l)%nat.
Proof.
  induction l as [|[k' v'] l IH]; [done|]. cbn. destruct (Z.eqb_spec k' k); cbn.
  - intros _. pose proof (sublist_length _ _ (without_sublist k l)). unfold without in *. lia.
  - intros H. apply IH in H. unfold without in *. lia.
Qed.

(** ** The invariant *)
Section Invariant.
Context {C : Lru} {CL : LruLaws C}.

Abbreviation entries s := (lru_entries (fr_peers s)).

(** The table: one entry per peer, no more than the bound, and each entry
    holds a socket that was opened for its peer. *)
Definition table_ok (cap : Z) (tr : list front_action) (c : LruCache) : Prop :=
  lru_cap c = cap ∧ NoDup (lru_entries c).*1 ∧ zlen (lru_entries c) ≤ cap ∧
  ∀ p e, (p, e) ∈ lru_entries c → FOpened (pe_socket e) p ∈ tr.

(** The sockets: each was opened once, for one peer, and what is sent on it or
    read from it is of that peer. *)
Definition sockets_ok (s : Front) : Prop :=
  (∀ k p, FOpened k p ∈ fr_trace s → k < fr_opened s) ∧
  (∀ k p q, FOpened k p ∈ fr_trace s → FOpened k q ∈ fr_trace s → p = q) ∧
  (∀ k p t, fr_readers s !! k = Some (p, t) → FOpened k p ∈ fr_trace s) ∧
  (∀ k p d b, FForwarded k p d b ∈ fr_trace s ∨ FReply k p d b ∈ fr_trace s → FOpened k p ∈ fr_trace s).

(** How many actions of the trace satisfy [f]. *)
Definition num (f : front_action → bool) (tr : list front_action) : Z := zlen (List.filter f tr).
Definition is_claim (a : front_action) : bool := match a with FClaimed _ _ _ => true | _ => false end.
Definition is_lost_claim (a : front_action) : bool := match a with FClaimed _ _ false => true | _ => false end.
Definition is_forward (a : front_action) : bool := match a with FForwarded _ _ _ _ => true | _ => false end.
Definition is_lost_forward (a : front_action) : bool := match a with FForwarded _ _ _ false => true | _ => false end.

(** The metrics count what happened: [n] datagrams arrived, [pending] of them are accepted and not
    yet routed, [passing] are passed and not yet sent. *)
Definition accounts (n pending passing : Z) (s : Front) : Prop :=
  let m := fr_metrics s in
  fm_udp_accepted m = n ∧ fm_dropped m + fm_passed m + fm_claimed m + pending = n ∧
  fm_claimed m = num is_claim (fr_trace s) ∧
  fm_udp_claim_channel_full_drops m = num is_lost_claim (fr_trace s) ∧
  fm_passed m = num is_forward (fr_trace s) + fm_udp_upstream_setup_failure_drops m + passing ∧
  fm_upstream_send_failures m = num is_lost_forward (fr_trace s).

Definition net_inv (cap : Z) (s : Front) : Prop := table_ok cap (fr_trace s) (fr_peers s) ∧ sockets_ok s.

Lemma table_mono cap tr tr' c : (∀ a, a ∈ tr → a ∈ tr') → table_ok cap tr c → table_ok cap tr' c.
Proof. intros Hs (Hc & Hn & Hl & He). split_and!; eauto. Qed.

Lemma table_new cap : 0 ≤ cap → table_ok cap [] (lru_new cap).
Proof.
  intros. unfold table_ok. rewrite lru_new_cap, lru_new_entries. split_and!; [done|constructor|done|set_solver].
Qed.

Lemma table_sub cap tr c c' :
  lru_cap c' = lru_cap c → sublist (lru_entries c') (lru_entries c) → table_ok cap tr c → table_ok cap tr c'.
Proof.
  intros Ec Hs (Hc & Hn & Hl & He). split_and!; [congruence|..].
  - eapply sublist_NoDup; [exact Hn|by apply fmap_sublist].
  - apply sublist_length in Hs. unfold zlen in *. lia.
  - intros p e Hp. apply He. by eapply elem_of_sublist.
Qed.

Lemma table_cons cap tr c c' p e l :
  lru_cap c' = lru_cap c → lru_entries c' = (p, e) :: l → sublist l (lru_entries c) → p ∉ l.*1 →
  zlen l < cap → FOpened (pe_socket e) p ∈ tr → table_ok cap tr c → table_ok cap tr c'.
Proof.
  intros Ec El Hs Hp Hlt Ho (Hc & Hn & Hl & He). unfold table_ok. rewrite El. split_and!; [congruence|..].
  - cbn. constructor; [done|]. eapply sublist_NoDup; [exact Hn|by apply fmap_sublist].
  - rewrite zlen_cons. lia.
  - intros q e' [[= -> ->]|H]%elem_of_cons; [done|]. apply He.
    by eapply elem_of_sublist.
Qed.

Lemma table_pop cap tr c p : table_ok cap tr c → table_ok cap tr (lru_pop c p).1.
Proof.
  intros H. destruct (lru_pop_spec c p) as (Hc & _ & He). eapply table_sub; [done| |done].
  rewrite He. apply without_sublist.
Qed.

Lemma not_without k l : k ∉ (without k l).*1.
Proof. intros (e & -> & [_ H]%elem_of_without)%list_elem_of_fmap. done. Qed.

Lemma table_put cap tr c p e :
  0 < cap → FOpened (pe_socket e) p ∈ tr → table_ok cap tr c → table_ok cap tr (lru_put c p e).1.
Proof.
  intros Hcap Ho H. destruct (lru_put_spec c p e) as (Hc & _ & He). pose proof H as (Hk & _ & Hl & _).
  destruct (assoc p (lru_entries c)) as [v|] eqn:Ha.
  - eapply table_cons; [done|exact He| |apply not_without| |done|done]; [apply without_sublist|].
    apply length_without in Ha. unfold zlen in *. lia.
  - eapply table_cons; [done|exact He|apply sublist_take| | |done|done].
    + apply assoc_none in Ha. intros Hin. apply Ha.
      eapply elem_of_sublist; [exact Hin|apply fmap_sublist, sublist_take].
    + unfold zlen. rewrite length_take, Hk. lia.
Qed.

Lemma table_get cap tr c p f :
  (∀ e, pe_socket (f e) = pe_socket e) → table_ok cap tr c → table_ok cap tr (lru_get_mut c p f).1.
Proof.
  intros Hf H. destruct (lru_get_mut_spec c p f) as (Hc & _ & He).
  destruct (assoc p (lru_entries c)) as [v|] eqn:Ha; [|eapply table_sub; [done| |done]; by rewrite He].
  pose proof H as (_ & _ & Hl & Ho).
  eapply table_cons; [done|exact He|apply without_sublist|apply not_without| | |done].
  - apply length_without in Ha. unfold zlen in *. lia.
  - rewrite Hf. apply Ho. by apply assoc_elem.
Qed.

(** What [get_or_create_upstream] does, on its three branches. *)
Definition with_table (s : Front) (l : list (SocketAddr * PeerEntry)) (s' : Front) : Prop :=
  ∃ c, s' = put_peers c s ∧ lru_cap c = lru_cap (fr_peers s) ∧ lru_entries c = l.

Definition opened_for (now : Z) (peer : SocketAddr) (s : Front) : Front :=
  mkFront (fr_peers s) (fr_done s) ((fr_next_token s + 1) mod 2 ^ 64) (fr_opened s + 1)
    (<[fr_opened s := (peer, fr_next_token s)]> (fr_readers s)) (fr_metrics s)
    (FOpened (fr_opened s) peer :: fr_trace s).

Lemma get_or_create_spec now create peer s :
  let '(s', r) := get_or_create_upstream now create peer s in
  match assoc peer (entries s), create with
  | Some e, _ =>
      r = Ok (pe_socket e) ∧
      with_table s ((peer, mkPeer (pe_socket e) now (pe_token e)) :: without peer (entries s)) s'
  | None, inr err => r = Err err ∧ with_table s (entries s) s'
  | None, inl _ =>
      r = Ok (fr_opened s) ∧
      with_table (opened_for now peer s)
        ((peer, mkPeer (fr_opened s) now (fr_next_token s)) :: take (Z.to_nat (lru_cap (fr_peers s) - 1)) (entries s)) s'
  end.
Proof.
  unfold get_or_create_upstream, with_table.
  destruct (lru_get_mut_spec (fr_peers s) peer (λ e, mkPeer (pe_socket e) now (pe_token e))) as (Hc & H2 & He).
  destruct (lru_get_mut _ _ _) as [c popped]. cbn [fst snd] in *. subst popped.
  destruct (assoc peer (entries s)) as [e|] eqn:Ha; [split; [done|]; by exists c|].
  destruct create as [u|err]; [|split; [done|]; by exists c].
  cbn [fr_peers fr_opened fr_next_token fr_readers fr_done fr_metrics fr_trace
    put_peers put_opened put_next_token put_readers flog spawn_upstream_reader].
  destruct (lru_put_spec c peer (mkPeer (fr_opened s) now (fr_next_token s))) as (Hc' & H2' & He').
  destruct (lru_put _ _ _) as [c' evicted]. cbn [fst snd] in *. rewrite He, Ha in *. subst evicted.
  split; [done|]. exists c'. rewrite Hc in *. done.
Qed.

(** States that differ in the table and the queue alone, or have lost readers. *)
Lemma sockets_less s s' :
  fr_trace s' = fr_trace s → fr_opened s' = fr_opened s → fr_readers s' ⊆ fr_readers s → sockets_ok s → sockets_ok s'.
Proof.
  unfold sockets_ok. intros -> -> Hr (H1 & H2 & H3 & H4). split_and!; try done.
  intros k p t Hk. eapply H3. by eapply lookup_weaken.
Qed.

Lemma sockets_opened now p s : sockets_ok s → sockets_ok (opened_for now p s).
Proof.
  intros (H1 & H2 & H3 & H4). unfold sockets_ok, opened_for. cbn [fr_trace fr_opened fr_readers]. split_and!.
  - intros k q [[= -> ->]|Hk]%elem_of_cons; [lia|]. apply H1 in Hk. lia.
  - intros k q q' [[= -> ->]|Hk]%elem_of_cons [E|Hk']%elem_of_cons; try (by simplify_eq); [..|eauto].
    + apply H1 in Hk'. lia.
    + injection E as -> ->. apply H1 in Hk. lia.
  - intros k q t [[<- [= <- <-]]|[? Hk]]%lookup_insert_Some; [by left|]. right. eauto.
  - intros k q d b H. right. apply (H4 k q d b). set_solver.
Qed.

Lemma sockets_log a s :
  match a with
  | FClaimed _ _ _ => True
  | FOpened _ _ => False
  | FForwarded k p _ _ | FReply k p _ _ => FOpened k p ∈ fr_trace s
  end → sockets_ok s → sockets_ok (flog a s).
Proof.
  intros Ha (H1 & H2 & H3 & H4). unfold sockets_ok, flog. cbn [fr_trace fr_opened fr_readers].
  assert (∀ k p, FOpened k p ∈ a :: fr_trace s → FOpened k p ∈ fr_trace s) as Hold.
  { intros k p [<-|H]%elem_of_cons; done. }
  split_and!; eauto.
  - intros k p t H. right. eauto.
  - intros k p d b [[<-|H]%elem_of_cons|[<-|H]%elem_of_cons]; right; eauto.
Qed.

Lemma num_cons f a tr : num f (a :: tr) = (if f a then 1 else 0) + num f tr.
Proof. unfold num. cbn. destruct (f a); rewrite ?zlen_cons; lia. Qed.

(** The metrics of traces that differ in sockets opened and replies only. *)
Lemma accounts_same n pending passing s s' :
  fr_metrics s' = fr_metrics s →
  (∀ f, (∀ k p, f (FOpened k p) = false) → (∀ k p d b, f (FReply k p d b) = false) →
    num f (fr_trace s') = num f (fr_trace s)) →
  accounts n pending passing s → accounts n pending passing s'.
Proof. intros E H. unfold accounts. by rewrite E, !H. Qed.

Lemma get_or_create_inv cap now create p s :
  0 < cap → net_inv cap s →
  let '(s', r) := get_or_create_upstream now create p s in
  net_inv cap s' ∧ (∀ n pending passing, accounts n pending passing s → accounts n pending passing s') ∧
  match r with Ok k => FOpened k p ∈ fr_trace s' | Err _ => True | Panic => False end.
Proof.
  intros Hcap [Ht Hs]. pose proof (get_or_create_spec now create p s) as H.
  destruct (get_or_create_upstream _ _ _ _) as [s' r].
  pose proof Ht as (Hk & Hn & Hl & Ho).
  destruct (assoc p (entries s)) as [e|] eqn:He.
  - destruct H as (-> & c & -> & Hc & Hce).
    assert (FOpened (pe_socket e) p ∈ fr_trace s) by (by apply Ho, assoc_elem).
    split_and!; [|done|done]. split; [|by apply (sockets_less s)].
    eapply table_cons; [exact Hc|exact Hce|apply without_sublist|apply not_without| |done|done].
    apply length_without in He. unfold zlen in *. lia.
  - destruct create as [u|err].
    + destruct H as (-> & c & -> & Hc & Hce). cbn [fr_trace put_peers opened_for].
      split_and!; [|intros ???; apply (accounts_same _ _ _ s); [done|]|by left]; [split|].
      * eapply table_cons; [exact Hc|exact Hce|apply sublist_take| | |by left|by eapply table_mono; [|done]; set_solver].
        -- apply assoc_none in He. intros Hin. apply He.
           eapply elem_of_sublist; [exact Hin|apply fmap_sublist, sublist_take].
        -- unfold zlen. rewrite length_take, Hk. lia.
      * apply (sockets_less (opened_for now p s)); try done. by apply sockets_opened.
      * intros f Hf _. cbn [fr_trace put_peers opened_for]. by rewrite num_cons, Hf.
    + destruct H as (-> & c & -> & Hc & Hce). split_and!; [|done|done].
      split; [|by apply (sockets_less s)]. eapply table_sub; [exact Hc| |done]. cbn [put_peers fr_peers]. by rewrite Hce.
Qed.

(** ** Routing *)
Lemma net_count cap f s : net_inv cap s → net_inv cap (count f s).
Proof. intros [Ht Hs]. split; [done|by apply (sockets_less s)]. Qed.

Lemma net_log cap a s :
  match a with
  | FClaimed _ _ _ => True
  | FOpened _ _ => False
  | FForwarded k p _ _ | FReply k p _ _ => FOpened k p ∈ fr_trace s
  end → net_inv cap s → net_inv cap (flog a s).
Proof.
  intros Ha [Ht Hs]. split; [|by apply sockets_log]. eapply table_mono; [|exact Ht]. set_solver.
Qed.

Ltac by_accounts :=
  unfold accounts in *; cbn [fr_metrics fr_trace flog count fm_udp_accepted fm_dropped fm_passed fm_claimed
    fm_udp_claim_channel_full_drops fm_udp_upstream_setup_failure_drops fm_upstream_send_failures
    inc_udp_accepted inc_dropped inc_passed inc_claimed inc_udp_claim_channel_full_drops
    inc_udp_upstream_setup_failure_drops inc_upstream_send_failures] in *;
  rewrite ?num_cons; cbn [is_claim is_lost_claim is_forward is_lost_forward]; lia.

Lemma forward_inv cap n pending a p payload s :
  0 < cap → net_inv cap s → accounts n pending 0 s →
  net_inv cap (forward_to_upstream a p payload s) ∧ accounts n (pending - 1) 0 (forward_to_upstream a p payload s).
Proof.
  intros Hcap Hn Ha. unfold forward_to_upstream.
  pose proof (get_or_create_inv cap (an_now a) (an_create a) p (count inc_passed s) Hcap
    (net_count _ _ _ Hn)) as Hinv.
  destruct (get_or_create_upstream _ _ _ _) as [s' [k|e|] ]; destruct Hinv as (Hn' & Ha' & Hk); [| |done];
    specialize (Ha' n (pending - 1) 1 ltac:(by_accounts)).
  - destruct (an_send a); (split; [by repeat (apply net_log || apply net_count)|by_accounts]).
  - split; [by apply net_count|by_accounts].
Qed.

Lemma datagram_inv cap n pending a p payload s :
  0 < cap → net_inv cap s → accounts n pending 0 s →
  ∃ s', handle_datagram a p payload s = Ok s' ∧ net_inv cap s' ∧ accounts n (pending - 1) 0 s'.
Proof.
  intros Hcap Hn Ha. unfold handle_datagram. destruct (classify_quic_spec payload) as (v & -> & _). res_simpl.
  eexists. split; [done|]. destruct v as [| |prefix].
  - split; [by apply net_count|by_accounts].
  - by apply forward_inv.
  - destruct (lookup_cid _ _) as [tx|]; [|by apply forward_inv].
    destruct (an_queue a); (split; [by repeat (apply net_log || apply net_count)|by_accounts]).
Qed.

Lemma dispatch_ranges_inv cap n env p buf ranges s :
  0 < cap → Forall (λ r, 0 ≤ r.1 ∧ r.1 ≤ r.2 ∧ r.2 ≤ zlen buf) ranges → net_inv cap s → accounts n 0 0 s →
  ∃ s', dispatch_ranges env p buf ranges s = Ok s' ∧ net_inv cap s' ∧ accounts (n + zlen ranges) 0 0 s'.
Proof.
  intros Hcap Hr. revert n s. induction Hr as [|[off end_] ranges Hr _ IH]; intros n s Hn Ha; cbn [dispatch_ranges].
  { exists s. rewrite Z.add_0_r. done. }
  cbn [fst snd] in Hr. rewrite slice_ok by lia. res_simpl.
  destruct (datagram_inv cap (n + 1) 1 (env (fm_udp_accepted (fr_metrics (count inc_udp_accepted s)))) p
    (sub buf off end_) (count inc_udp_accepted s) Hcap (net_count _ _ _ Hn)) as (s1 & -> & Hn1 & Ha1); [by_accounts|].
  res_simpl. destruct (IH (n + 1) s1 Hn1 Ha1) as (s2 & -> & Hn2 & Ha2). exists s2.
  rewrite zlen_cons, Z.add_assoc. done.
Qed.

(** The datagrams of a batch, and what [recv] guarantees of it. *)
Definition batch_datagrams (batch : list (RecvMeta * bytes)) : Z :=
  Z.of_nat (sum_list_with (λ e, length (gro_datagram_ranges (meta_len e.1) (meta_stride e.1))) batch).
Definition batch_ok (batch : list (RecvMeta * bytes)) : Prop :=
  Forall (λ e, 0 ≤ meta_len e.1 ≤ zlen e.2) batch.

Lemma dispatch_batch_inv cap n env batch s :
  0 < cap → batch_ok batch → net_inv cap s → accounts n 0 0 s →
  ∃ s', dispatch_recv_batch env batch s = Ok s' ∧ net_inv cap s' ∧ accounts (n + batch_datagrams batch) 0 0 s'.
Proof.
  intros Hcap Hb. revert n s. induction Hb as [|[meta buf] batch Hb _ IH]; intros n s Hn Ha; cbn [dispatch_recv_batch].
  { exists s. by rewrite Z.add_0_r. }
  cbn [fst snd] in Hb.
  destruct (dispatch_ranges_inv cap n env (meta_addr meta) buf
    (gro_datagram_ranges (meta_len meta) (meta_stride meta)) s Hcap) as (s1 & -> & Hn1 & Ha1); [|done|done|].
  { eapply Forall_impl; [apply ranges_within; lia|]. cbn. intros. lia. }
  res_simpl. destruct (IH _ s1 Hn1 Ha1) as (s2 & -> & Hn2 & Ha2). exists s2. split_and!; [done|done|].
  unfold batch_datagrams, zlen in *. cbn [sum_list_with fst]. by rewrite Nat2Z.inj_add, Z.add_assoc.
Qed.

(** ** The table shrinks *)
Lemma reader_done_inv cap p token s : 0 < cap → net_inv cap s → net_inv cap (handle_reader_done p token s).
Proof.
  intros Hcap [Ht Hs]. unfold handle_reader_done.
  pose proof (table_pop _ _ _ p Ht) as Ht'. destruct (lru_pop_spec (fr_peers s) p) as (_ & H2 & _).
  destruct (lru_pop _ _) as [c [e|] ]; cbn [fst snd] in *.
  - destruct (pe_token e =? token); (split; [|by apply (sockets_less s)]); [done|].
    apply table_put; [done| |done]. destruct Ht as (_ & _ & _ & Ho). apply Ho. by apply assoc_elem.
  - split; [done|by apply (sockets_less s)].
Qed.

(** One eviction of [sweep_idle]. *)
Definition evict (q : SocketAddr) (s : Front) : Front :=
  let '(peers, popped) := lru_pop (fr_peers s) q in
  let s := put_peers peers s in
  match popped with Some entry => abort entry s | None => s end.

Lemma evict_all_cons q stale s : evict_all (q :: stale) s = evict_all stale (evict q s).
Proof. unfold evict. cbn [evict_all]. by destruct (lru_pop _ _). Qed.

(** [s'] is [s] without the peers of which [f] holds, and without their readers. *)
Definition evicted (f : SocketAddr * PeerEntry → bool) (s s' : Front) : Prop :=
  lru_cap (fr_peers s') = lru_cap (fr_peers s) ∧
  entries s' = List.filter (λ e, negb (f e)) (entries s) ∧
  fr_trace s' = fr_trace s ∧ fr_opened s' = fr_opened s ∧ fr_metrics s' = fr_metrics s ∧
  fr_readers s' ⊆ fr_readers s ∧
  (∀ e, e ∈ entries s → f e = true → fr_readers s' !! pe_socket e.2 = None) ∧
  (∀ k, (∀ e, e ∈ entries s → f e = true → pe_socket e.2 ≠ k) → fr_readers s' !! k = fr_readers s !! k).

Lemma evict_spec q s : NoDup (entries s).*1 → evicted (λ e, e.1 =? q) s (evict q s).
Proof.
  intros Hn. unfold evict, evicted. destruct (lru_pop_spec (fr_peers s) q) as (Hc & H2 & He).
  destruct (lru_pop _ _) as [c popped]; cbn [fst snd] in *. subst popped.
  destruct (assoc q (entries s)) as [e|] eqn:Ha.
  - cbn [abort put_readers put_peers fr_peers fr_trace fr_opened fr_metrics fr_readers].
    split_and!; try done; [apply delete_subseteq|..].
    + intros [p e'] Hp E%Z.eqb_eq. cbn in *. subst p. apply assoc_nodup in Hp; [|done]. simplify_eq.
      apply lookup_delete_eq.
    + intros k Hk. rewrite lookup_delete_ne; [done|]. apply (Hk (q, e)); [by apply assoc_elem|apply Z.eqb_refl].
  - split_and!; try done. intros [p e'] Hp E%Z.eqb_eq. cbn in *. subst p. apply assoc_none in Ha. destruct Ha.
    apply list_elem_of_fmap. by exists (q, e').
Qed.

Lemma filter_filter {A} (f g : A → bool) l :
  List.filter f (List.filter g l) = List.filter (λ x, f x && g x) l.
Proof. induction l as [|x l IH]; [done|]. cbn. destruct (g x); cbn; rewrite ?andb_true_r, ?andb_false_r, IH; done. Qed.

Lemma evicted_trans f g s1 s2 s3 : evicted f s1 s2 → evicted g s2 s3 → evicted (λ e, f e || g e) s1 s3.
Proof.
  intros (C1 & E1 & T1 & O1 & M1 & R1 & F1 & G1) (C2 & E2 & T2 & O2 & M2 & R2 & F2 & G2).
  assert (∀ e, e ∈ entries s2 ↔ e ∈ entries s1 ∧ f e = false) as Hin.
  { intros e. by rewrite E1, !list_elem_of_In, filter_In, negb_true_iff. }
  split_and!; try congruence.
  - rewrite E2, E1, filter_filter. apply filter_ext. intros e. by destruct (f e), (g e).
  - by etrans.
  - intros e He [Hf|Hg]%orb_true_iff.
    + eapply lookup_weaken_None; [by eapply F1|done].
    + destruct (f e) eqn:Hf; [|by apply F2; [apply Hin|] ]. eapply lookup_weaken_None; [by eapply F1|done].
  - intros k Hk. rewrite G2, G1; [done|..]; intros e He Hf.
    + apply Hk; [done|]. by rewrite Hf.
    + apply Hin in He as [He _]. apply Hk; [done|]. by rewrite Hf, orb_true_r.
Qed.

Lemma evicted_ext f g s s' : (∀ e, e ∈ entries s → f e = g e) → evicted f s s' → evicted g s s'.
Proof.
  intros Hfg (C1 & E1 & T1 & O1 & M1 & R1 & F1 & G1). split_and!; try done.
  - rewrite E1. apply filter_ext_in. intros e He%list_elem_of_In. by rewrite Hfg.
  - intros e He Hg. apply F1; [done|]. by rewrite Hfg.
  - intros k Hk. apply G1. intros e He Hf. apply Hk; [done|]. by rewrite <- Hfg.
Qed.

Lemma evict_all_spec stale s :
  NoDup (entries s).*1 → evicted (λ e, bool_decide (e.1 ∈ stale)) s (evict_all stale s).
Proof.
  revert s. induction stale as [|q stale IH]; intros s Hn.
  { split_and!; try done. cbn [evict_all]. induction (entries s) as [|x l IHl]; [done|]. cbn. f_equal.
    apply IHl. by apply NoDup_cons in Hn as [_ ?]. }
  rewrite evict_all_cons. pose proof (evict_spec q s Hn) as Hq.
  eapply evicted_ext; [|eapply evicted_trans; [exact Hq|apply IH] ].
  - intros e _. cbn. destruct (Z.eqb_spec e.1 q) as [->|Hne]; cbn.
    + symmetry. apply bool_decide_true. by left.
    + apply bool_decide_ext. set_solver.
  - destruct Hq as (_ & -> & _). eapply sublist_NoDup; [exact Hn|apply fmap_sublist, sublist_filter].
Qed.

Lemma sweep_idle_spec now idle_timeout s :
  NoDup (entries s).*1 → evicted (λ e, is_stale now idle_timeout e.2) s (sweep_idle now idle_timeout s).
Proof.
  intros Hn. eapply evicted_ext; [|by apply evict_all_spec]. intros [p e] He. cbn.
  destruct (is_stale now idle_timeout e) eqn:Hs.
  - apply bool_decide_true, list_elem_of_fmap. exists (p, e). split; [done|].
    apply list_elem_of_In, filter_In. split; [by apply list_elem_of_In|done].
  - apply bool_decide_false. intros ([p' e'] & [= ->] & [Hin%list_elem_of_In Hst]%list_elem_of_In%filter_In)%list_elem_of_fmap.
    apply assoc_nodup in Hin, He; [|done..]. cbn in *. simplify_eq. congruence.
Qed.

Lemma sweep_inv cap now idle_timeout s : net_inv cap s → net_inv cap (sweep_idle now idle_timeout s).
Proof.
  intros [Ht Hs]. pose proof Ht as (_ & Hn & _).
  destruct (sweep_idle_spec now idle_timeout s Hn) as (C1 & E1 & T1 & O1 & M1 & R1 & _).
  split; [|by apply (sockets_less s)]. rewrite T1. eapply table_sub; [done| |done]. rewrite E1. apply sublist_filter.
Qed.

(** Forwarding claims nothing. *)
Lemma forward_claims_nothing a p payload s tx claim q :
  FClaimed tx claim q ∈ fr_trace (forward_to_upstream a p payload s) → FClaimed tx claim q ∈ fr_trace s.
Proof.
  unfold forward_to_upstream.
  pose proof (get_or_create_spec (an_now a) (an_create a) p (count inc_passed s)) as H.
  destruct (get_or_create_upstream _ _ _ _) as [s' r].
  assert (FClaimed tx claim q ∈ fr_trace s' → FClaimed tx claim q ∈ fr_trace s) as Hs'.
  { destruct (assoc _ _), (an_create a); destruct H as (_ & c & -> & _); cbn; set_solver. }
  intros Hin. apply Hs'. destruct r as [k|e|]; [|done..]. destruct (an_send a); cbn in Hin; set_solver.
Qed.

(** What [handle_datagram] hands to sessions. *)
Lemma handle_datagram_claims a peer payload s :
  ∃ s', handle_datagram a peer payload s = Ok s' ∧
    (∀ prefix tx, short_for payload prefix → lookup_cid (an_registry a) prefix = Some tx →
       fr_trace s' = FClaimed tx (mkClaim peer prefix payload) (an_queue a) :: fr_trace s ∧
       fr_peers s' = fr_peers s ∧ fr_readers s' = fr_readers s ∧ fr_done s' = fr_done s) ∧
    (∀ tx claim q, FClaimed tx claim q ∈ fr_trace s' → FClaimed tx claim q ∈ fr_trace s ∨
       ∃ prefix, short_for payload prefix ∧ lookup_cid (an_registry a) prefix = Some tx ∧
         claim = mkClaim peer prefix payload ∧ q = an_queue a).
Proof.
  unfold handle_datagram. destruct (classify_quic_spec payload) as (v & -> & Hv). res_simpl.
  eexists. split; [done|]. destruct v as [| |prefix].
  - split; [|by left]. intros prefix tx Hp. by apply Hv in Hp.
  - split; [intros prefix tx Hp; by apply Hv in Hp|]. intros tx claim q H. left. by eapply forward_claims_nothing.
  - pose proof (proj1 (Hv prefix) eq_refl) as Hp.
    destruct (lookup_cid (an_registry a) prefix) as [tx|] eqn:Hl.
    + split.
      * intros prefix' tx' Hp' Hl'. rewrite (short_for_inj _ _ _ Hp' Hp) in *. simplify_eq. by destruct (an_queue a).
      * intros tx' claim q Hin. destruct (an_queue a); apply elem_of_cons in Hin as [[= -> -> ->]|Hin]; eauto 10.
    + split; [|intros tx claim q H; left; by eapply forward_claims_nothing].
      intros prefix' tx' Hp' Hl'. rewrite (short_for_inj _ _ _ Hp' Hp) in *. congruence.
Qed.

(** ** Runs *)
Definition event_ok (e : FrontEvent) : Prop := match e with BatchReady batch => batch_ok batch | _ => True end.

(** The datagrams that arrived before [run] returned. *)
Fixpoint arrived (events : list FrontEvent) : Z :=
  match events with
  | [] | Cancelled :: _ | RecvFailed _ :: _ => 0
  | BatchReady batch :: events => batch_datagrams batch + arrived events
  | _ :: events => arrived events
  end.

Lemma reader_recv_inv cap n k data sent s :
  net_inv cap s → accounts n 0 0 s → net_inv cap (reader_recv k data sent s) ∧ accounts n 0 0 (reader_recv k data sent s).
Proof.
  intros Hn Ha. unfold reader_recv. destruct (fr_readers s !! k) as [[p t]|] eqn:Hk; [|done].
  case_bool_decide; [done|]. split; [|by_accounts]. apply net_log; [|done].
  destruct Hn as [_ (_ & _ & H3 & _)]. by eapply H3.
Qed.

Lemma reader_ends_inv cap n k s :
  net_inv cap s → accounts n 0 0 s → net_inv cap (reader_ends k s) ∧ accounts n 0 0 (reader_ends k s).
Proof.
  intros [Ht Hs] Ha. unfold reader_ends. destruct (fr_readers s !! k) as [[p t]|]; [|done].
  split; [|done]. split; [done|]. apply (sockets_less s); [done..|apply delete_subseteq|done].
Qed.

Lemma sweep_metrics cap now idle_timeout s :
  net_inv cap s → fr_metrics (sweep_idle now idle_timeout s) = fr_metrics s ∧ fr_trace (sweep_idle now idle_timeout s) = fr_trace s.
Proof.
  intros [(_ & Hn & _) _]. destruct (sweep_idle_spec now idle_timeout s Hn) as (_ & _ & ? & _ & ? & _). done.
Qed.

Lemma reader_done_same p token s :
  fr_metrics (handle_reader_done p token s) = fr_metrics s ∧ fr_trace (handle_reader_done p token s) = fr_trace s.
Proof. unfold handle_reader_done. destruct (lru_pop _ _) as [c [e|] ]; [|done]. by destruct (pe_token e =? token). Qed.

Lemma front_step_inv cap n idle_timeout env e s :
  0 < cap → event_ok e → net_inv cap s → accounts n 0 0 s →
  ∃ s' r, front_step idle_timeout env e s = Ok (s', r) ∧ net_inv cap s' ∧
    accounts (n + match e with BatchReady batch => batch_datagrams batch | _ => 0 end) 0 0 s' ∧
    (is_Some r ↔ match e with Cancelled | RecvFailed _ => True | _ => False end).
Proof.
  intros Hcap He Hn Ha. assert (∀ A, is_Some (@None A) ↔ False) as HN by (intros A; split; [intros [? [=]]|done]).
  assert (∀ A (x : A), is_Some (Some x) ↔ True) as HS by (intros A x; split; [done|by eexists]).
  destruct e as [| |now|batch| |err|k data sent|k]; cbn [front_step event_ok] in *; rewrite ?Z.add_0_r.
  1,5,6: do 2 eexists; split_and!; [done..|first [apply HS|apply HN] ].
  - destruct (fr_done s) as [|[p t] l] eqn:Hd; do 2 eexists; (split; [done|]); [by split_and!; [| |apply HN]|].
    destruct (reader_done_same p t (put_done l s)) as [E1 E2]. split_and!; [| |apply HN].
    + apply reader_done_inv; [done|]. destruct Hn as [Ht Hs]. split; [done|by apply (sockets_less s)].
    + unfold accounts. rewrite E1, E2. by apply Ha.
  - do 2 eexists. destruct (sweep_metrics cap now idle_timeout s Hn) as [E1 E2]. split_and!; [done|by apply sweep_inv| |apply HN].
    unfold accounts. rewrite E1, E2. by apply Ha.
  - destruct (dispatch_batch_inv cap n env batch s Hcap He Hn Ha) as (s' & -> & Hn' & Ha'). res_simpl.
    do 2 eexists. by split_and!; [| | |apply HN].
  - destruct (reader_recv_inv cap n k data sent s Hn Ha). do 2 eexists. by split_and!; [| | |apply HN].
  - destruct (reader_ends_inv cap n k s Hn Ha). do 2 eexists. by split_and!; [| | |apply HN].
Qed.

Lemma front_run_inv cap n idle_timeout env events s :
  0 < cap → Forall event_ok events → net_inv cap s → accounts n 0 0 s →
  ∃ s' r, QuicEndpoint_run idle_timeout env events s = Ok (s', r) ∧ net_inv cap s' ∧ accounts (n + arrived events) 0 0 s'.
Proof.
  intros Hcap He. revert n s. induction He as [|e events He _ IH]; intros n s Hn Ha; cbn [QuicEndpoint_run].
  { exists s, None. by rewrite Z.add_0_r. }
  destruct (front_step_inv cap n idle_timeout env e s Hcap He Hn Ha) as (s1 & r & -> & Hn1 & Ha1 & Hr). res_simpl.
  destruct r as [r|].
  - exists s1, (Some r). split_and!; [done|done|]. pose proof (proj1 Hr ltac:(by eexists)). by destruct e.
  - destruct (IH _ s1 Hn1 Ha1) as (s2 & r & -> & Hn2 & Ha2). exists s2, r. split_and!; [done|done|].
    destruct e; cbn [arrived]; rewrite ?Z.add_0_r in *; try done; try (by destruct (proj2 Hr I) as [? [=] ]).
    by rewrite Z.add_assoc.
Qed.

Lemma front_new_inv cap : 0 ≤ cap → net_inv cap (Front_new cap) ∧ accounts 0 0 0 (Front_new cap).
Proof.
  intros Hc. split; [|done]. split; [by apply table_new|]. unfold sockets_ok, Front_new. cbn [fr_trace fr_readers].
  split_and!; set_solver.
Qed.

(** ** Theorems *)

(** C25: The front door keeps peers apart.  From a configuration that [bind]
    accepts, every run of the loop, over any sequence of batches, timer ticks,
    reader steps and errors, proceeds without panic; the NAT table never holds
    more peers than configured nor a peer twice; whatever the web server sends
    on a socket goes to the one peer whose datagrams were forwarded on it; and
    every datagram that arrived is counted once, as dropped, as claimed for a
    session, or as passed on, where a pass is a datagram sent or a counted
    failure. *)
Theorem quic_front_isolates config sockets cap idle_timeout env events :
  0 ≤ sv_udp_nat_max_entries config → QuicEndpoint_bind config sockets = Ok (cap, idle_timeout) →
  Forall event_ok events →
  ∃ s r, QuicEndpoint_run idle_timeout env events (Front_new cap) = Ok (s, r) ∧
    NoDup (entries s).*1 ∧ zlen (entries s) ≤ sv_udp_nat_max_entries config ∧
    (∀ k p d b q d' b', FForwarded k p d b ∈ fr_trace s →
       FForwarded k q d' b' ∈ fr_trace s ∨ FReply k q d' b' ∈ fr_trace s → p = q) ∧
    accounts (arrived events) 0 0 s.
Proof.
  unfold QuicEndpoint_bind. intros H0 Hb He. destruct (Z.eqb_spec (sv_udp_nat_max_entries config) 0); [done|].
  destruct (_ =? 0); [done|]. destruct sockets; [|done]. injection Hb as <- _.
  destruct (front_new_inv (sv_udp_nat_max_entries config) H0) as [Hn Ha].
  destruct (front_run_inv (sv_udp_nat_max_entries config) 0 idle_timeout env events _ ltac:(lia) He Hn Ha)
    as (s & r & Hr & [(_ & Hd & Hl & _) (_ & H2 & _ & H4)] & Ha').
  exists s, r. split_and!; try done. intros k p d b q d' b' Hf Hq.
  eapply H2; eapply H4; [by left|exact Hq].
Qed.

(** Sessions get their packets and nothing else.  A packet protected by a
    UDP session for the connection ID under which a session is registered is
    handed to the queue of that session, whole and with the address it came
    from, and the NAT is not touched; and whatever else is handed to a session
    is a short-header datagram that begins with a connection ID registered
    for this session at that moment. *)
Theorem session_packet_claimed `{B : Boring} {L : BoringLaws B} (k : UdpQspKeys) dcid pn kp plaintext tx a peer :
  keys_wf k → bytes_ok plaintext → zlen plaintext < 2 ^ 31 → zlen dcid = QUIC_DCID_PREFIX_LEN →
  lookup_cid (an_registry a) dcid = Some tx →
  (∃ packet, protect_into k dcid pn kp plaintext = Ok packet ∧
     ∀ s, ∃ s', handle_datagram a peer packet s = Ok s' ∧
       fr_trace s' = FClaimed tx (mkClaim peer dcid packet) (an_queue a) :: fr_trace s ∧
       fr_peers s' = fr_peers s ∧ fr_readers s' = fr_readers s ∧ fr_done s' = fr_done s) ∧
  (∀ payload s, ∃ s', handle_datagram a peer payload s = Ok s' ∧
     ∀ tx' claim q, FClaimed tx' claim q ∈ fr_trace s' → FClaimed tx' claim q ∈ fr_trace s ∨
       ∃ prefix, short_for payload prefix ∧ lookup_cid (an_registry a) prefix = Some tx' ∧
         claim = mkClaim peer prefix payload ∧ q = an_queue a).
Proof.
  intros [(_ & _ & Hw) _] Hb Hl Hd Htx. split.
  - destruct (protected_short k dcid pn kp plaintext Hw Hb Hl Hd) as (packet & Hpk & Hp).
    exists packet. split; [done|]. intros s.
    destruct (handle_datagram_claims a peer packet s) as (s' & Hs' & H & _). exists s'. split; [done|]. by apply H.
  - intros payload s. destruct (handle_datagram_claims a peer payload s) as (s' & Hs' & _ & H). by exists s'.
Qed.

(** The idle sweep.  In every state the loop reaches, [sweep_idle] removes
    exactly the peers that were idle for the timeout, keeps the others with
    their entries as they are, stops the reader of each peer it removes, and
    stops no other reader. *)
Theorem idle_sweep_exact cap idle_timeout env events s r now :
  0 < cap → 0 < idle_timeout → Forall event_ok events →
  QuicEndpoint_run idle_timeout env events (Front_new cap) = Ok (s, r) →
  let s' := sweep_idle now idle_timeout s in
  (∀ p e, (p, e) ∈ entries s' ↔ (p, e) ∈ entries s ∧ now < pe_last_seen e + idle_timeout) ∧
  (∀ p e, (p, e) ∈ entries s → pe_last_seen e + idle_timeout ≤ now → fr_readers s' !! pe_socket e = None) ∧
  (∀ p e, (p, e) ∈ entries s → now < pe_last_seen e + idle_timeout →
     fr_readers s' !! pe_socket e = fr_readers s !! pe_socket e) ∧
  (∀ k, (∀ p e, (p, e) ∈ entries s → pe_socket e ≠ k) → fr_readers s' !! k = fr_readers s !! k).
Proof.
  intros Hcap Hidle He Hr s'. destruct (front_new_inv cap ltac:(lia)) as [Hn Ha].
  destruct (front_run_inv cap 0 idle_timeout env events _ Hcap He Hn Ha)
    as (s0 & r0 & Hr0 & [(_ & Hd & _ & Ho) (_ & H2 & _)] & _).
  rewrite Hr in Hr0. injection Hr0 as <- _.
  assert (∀ e, is_stale now idle_timeout e = true ↔ pe_last_seen e + idle_timeout ≤ now) as Hst.
  { intros e. unfold is_stale. rewrite Z.leb_le. lia. }
  destruct (sweep_idle_spec now idle_timeout s Hd) as (_ & E1 & _ & _ & _ & _ & F1 & G1). fold s' in E1, F1, G1.
  split_and!.
  - intros p e. rewrite E1, !list_elem_of_In, filter_In, negb_true_iff, <- not_true_iff_false. cbn. rewrite Hst.
    by rewrite Z.nle_gt.
  - intros p e Hp Hl. apply (F1 (p, e)); [done|]. by apply Hst.
  - intros p e Hp Hl. apply G1. intros [q e'] Hq Hs%Hst E. cbn in *.
    assert (p = q) as <- by (eapply H2; [by apply Ho|rewrite <- E; by apply Ho]).
    apply assoc_nodup in Hp, Hq; [|done..]. simplify_eq. lia.
  - intros k Hk. apply G1. intros [p e] Hp _. by apply (Hk p).
Qed.

(** ** Readers the table has forgotten *)

(** One long-header datagram of each of the peers [from .. from + n - 1]. *)
Fixpoint scan (from : Z) (n : nat) : list FrontEvent :=
  match n with
  | O => []
  | S n => BatchReady [(mkMeta from 1 1, [0xc0])] :: scan (from + 1) n
  end.
Definition quiet : Answer := mkAnswer 0 SessionRegistry_new true (inl tt) (inl 1).

(** After [n] peers: the table knows the latest of them, all are read for. *)
Definition scanned (cap n : Z) (s : Front) : Prop :=
  net_inv cap s ∧ (∀ p, p ∈ (entries s).*1 → p < n) ∧ fr_opened s = n ∧
  (∀ k, is_Some (fr_readers s !! k) ↔ 0 ≤ k < n).

Lemma scan_step cap n idle_timeout s :
  0 < cap → 0 ≤ n → scanned cap n s →
  ∃ s', front_step idle_timeout (λ _, quiet) (BatchReady [(mkMeta n 1 1, [0xc0])]) s = Ok (s', None) ∧
    scanned cap (n + 1) s'.
Proof.
  intros Hcap Hn (Hi & Hk & Ho & Hr). cbn [front_step dispatch_recv_batch meta_addr meta_len meta_stride].
  change (gro_datagram_ranges 1 1) with [(0, 1)]. cbn [dispatch_ranges].
  change (slice [192] 0 1) with (@Ok unit _ [192]). res_simpl. unfold handle_datagram.
  change (classify_quic_datagram [192]) with (@Ok unit _ QPass). res_simpl. eexists. split; [done|].
  unfold forward_to_upstream. cbn [quiet an_now an_create an_send].
  set (s0 := count inc_passed (count inc_udp_accepted s)).
  assert (net_inv cap s0) as Hi0 by (by apply net_count, net_count).
  pose proof (get_or_create_spec 0 (inl tt) n s0) as Hg.
  assert (assoc n (entries s0) = None) as Ha by (apply assoc_none; intros H%Hk; lia). rewrite Ha in Hg.
  destruct (get_or_create_upstream 0 (inl tt) n s0) as [s1 r] eqn:Eg. destruct Hg as (-> & c & Es & Hc & He).
  change (fr_opened s0) with (fr_opened s) in *.
  pose proof (get_or_create_inv cap 0 (inl tt) n s0 Hcap Hi0) as Hinv. rewrite Eg in Hinv.
  destruct Hinv as (Hi1 & _ & Hf). split_and!; [by apply net_log|..]; subst s1.
  - intros p. change (p ∈ (lru_entries c).*1 → p < n + 1). rewrite He. cbn [fmap list_fmap fst].
    intros [->|Hp]%elem_of_cons; [lia|]. assert (p < n); [|lia]. apply Hk.
    eapply elem_of_sublist; [exact Hp|apply fmap_sublist, sublist_take].
  - cbn. lia.
  - intros k. change (is_Some (<[fr_opened s := (n, fr_next_token s)]> (fr_readers s) !! k) ↔ 0 ≤ k < n + 1).
    rewrite Ho. destruct (decide (k = n)) as [->|Hkn].
    + rewrite lookup_insert_eq. split; [lia|by eexists].
    + rewrite lookup_insert_ne by done. rewrite Hr. lia.
Qed.

Lemma scan_run cap idle_timeout m n s :
  0 < cap → 0 ≤ n → scanned cap n s →
  ∃ s', QuicEndpoint_run idle_timeout (λ _, quiet) (scan n m) s = Ok (s', None) ∧ scanned cap (n + Z.of_nat m) s'.
Proof.
  intros Hcap. revert n s. induction m as [|m IH]; intros n s Hn Hs; cbn [scan QuicEndpoint_run].
  { exists s. by rewrite Z.add_0_r. }
  destruct (scan_step cap n idle_timeout s Hcap Hn Hs) as (s1 & -> & Hs1). res_simpl.
  destruct (IH (n + 1) s1 ltac:(lia) Hs1) as (s2 & -> & Hs2). exists s2. split; [done|].
  by replace (n + Z.of_nat (S m)) with (n + 1 + Z.of_nat m) by lia.
Qed.

Lemma scan_ok from n : Forall event_ok (scan from n) ∧ arrived (scan from n) = Z.of_nat n.
Proof.
  revert from. induction n as [|n IH]; intros from; [done|]. destruct (IH (from + 1)) as [H1 H2]. cbn [scan arrived].
  rewrite H2. split; [|change (batch_datagrams _) with 1; lia]. constructor; [|done].
  constructor; [|done]. cbn. unfold zlen. cbn. lia.
Qed.

Lemma size_from (m : gmap Z (SocketAddr * Z)) (l : list Z) (n : nat) :
  (∀ k, 0 ≤ k < Z.of_nat n → k ∉ l → is_Some (m !! k)) → (n ≤ size m + length l)%nat.
Proof.
  intros H. rewrite <- size_dom. unfold size, set_size.
  assert (seqZ 0 (Z.of_nat n) ⊆+ elements (dom m) ++ l) as Hsub%submseteq_length.
  { apply NoDup_submseteq; [apply NoDup_seqZ|]. intros k Hk%elem_of_seqZ.
    rewrite elem_of_app, elem_of_elements, elem_of_dom. destruct (decide (k ∈ l)); [by right|]. left. apply H; [lia|done]. }
  rewrite length_app, length_seqZ, Nat2Z.id in Hsub. cbn. lia.
Qed.

(** Timer ticks stop the readers of entries only. *)
Lemma sweeps_run idle_timeout env nows s :
  NoDup (entries s).*1 →
  ∃ s', QuicEndpoint_run idle_timeout env (SweepTick <$> nows) s = Ok (s', None) ∧
    ∀ k, (∀ x, x ∈ entries s → pe_socket x.2 ≠ k) → fr_readers s' !! k = fr_readers s !! k.
Proof.
  revert s. induction nows as [|now nows IH]; intros s Hn; cbn [fmap list_fmap QuicEndpoint_run front_step].
  { by exists s. }
  res_simpl. destruct (sweep_idle_spec now idle_timeout s Hn) as (_ & E1 & _ & _ & _ & _ & _ & G1).
  destruct (IH (sweep_idle now idle_timeout s)) as (s' & Hr & Hs').
  { rewrite E1. eapply sublist_NoDup; [exact Hn|apply fmap_sublist, sublist_filter]. }
  exists s'. split; [exact Hr|]. intros k Hk. rewrite Hs', G1; [done|intros x Hx _; by apply Hk|].
  intros x Hx. apply Hk. rewrite E1, list_elem_of_In, filter_In in Hx. apply list_elem_of_In, Hx.
Qed.

(** The bound of the NAT table does not bound the reader tasks.
    [LruCache::put] returns the previous entry of the same key only, so the
    entry a full table drops is not aborted: after one datagram from each of
    [n] addresses the table holds at most [cap] entries while [n] tasks and
    sockets are alive, and whatever ticks of the idle timer follow, all but
    [cap] of them stay. *)
Theorem nat_readers_leak cap idle_timeout (n : nat) :
  0 < cap →
  ∃ env events s, Forall event_ok events ∧ arrived events = Z.of_nat n ∧
    QuicEndpoint_run idle_timeout env events (Front_new cap) = Ok (s, None) ∧
    zlen (entries s) ≤ cap ∧ (n ≤ size (fr_readers s))%nat ∧
    ∀ nows, ∃ s', QuicEndpoint_run idle_timeout env (SweepTick <$> nows) s = Ok (s', None) ∧
      Z.of_nat n ≤ Z.of_nat (size (fr_readers s')) + cap.
Proof.
  intros Hcap. destruct (front_new_inv cap ltac:(lia)) as [Hn _].
  destruct (scan_run cap idle_timeout n 0 (Front_new cap)) as (s & Hr & [(_ & Hd & Hl & _) _] & _ & _ & Hrd); [done|done|..].
  { split_and!; [done| |done|].
    - intros p. cbn. rewrite lru_new_entries. set_solver.
    - intros k. cbn. rewrite lookup_empty. split; [by intros [? [=]]|lia]. }
  exists (λ _, quiet), (scan 0 n), s. split_and!; try done.
  - apply scan_ok.
  - apply scan_ok.
  - pose proof (size_from (fr_readers s) [] n) as Hsz. cbn in Hsz. rewrite Nat.add_0_r in Hsz. apply Hsz.
    intros k Hk _. apply Hrd. lia.
  - intros nows. destruct (sweeps_run idle_timeout (λ _, quiet) nows s Hd) as (s' & Hs' & Hk'). exists s'.
    split; [exact Hs'|].
    pose proof (size_from (fr_readers s') (pe_socket ∘ snd <$> entries s) n) as Hsz. rewrite length_fmap in Hsz.
    unfold zlen in Hl. enough (n ≤ size (fr_readers s') + length (entries s))%nat by lia. apply Hsz.
    intros k Hk Hnot. rewrite Hk'; [apply Hrd; lia|]. intros x Hx E. apply Hnot. apply list_elem_of_fmap. by exists x.
Qed.
End Invariant.

(** ** Witnesses *)

(** A cache that keeps its entries in a list. *)
Module LruList.
Record cache := mkCache { cap : Z; items : list (SocketAddr * PeerEntry) }.
#[export] Instance lru : Lru := {|
  LruCache := cache;
  lru_new n := mkCache n [];
  lru_cap := cap;
  lru_entries := items;
  lru_get_mut c k f :=
    match assoc k (items c) with
    | Some v => (mkCache (cap c) ((k, f v) :: without k (items c)), Some v)
    | None => (c, None)
    end;
  lru_pop c k := (mkCache (cap c) (without k (items c)), assoc k (items c));
  lru_put c k v :=
    match assoc k (items c) with
    | Some old => (mkCache (cap c) ((k, v) :: without k (items c)), Some old)
    | None => (mkCache (cap c) ((k, v) :: take (Z.to_nat (cap c - 1)) (items c)), None)
    end;
|}.
#[export] Instance lru_laws : LruLaws lru.
Proof.
  split; intros; cbn; try done; by destruct (assoc k (items c)).
Qed.
End LruList.

Module FrontDemo.
Import LruList.
Definition config : ServerConfig :=
  mkServerConfig [] (mkServerNetwork 443 443 80 80) (mkTunConfig (bytes_of_string "tun0"%string) 1186 [10; 10; 0; 1] 24)
    ServerTimingConfig_default [SAes128Gcm] 1 1 1 1 [].
(** Two peers take turns in a table of one entry; the first is answered on its
    socket, then the second goes idle. *)
Definition events : list FrontEvent :=
  [BatchReady [(mkMeta 7 2 1, [0xc0; 0xc1])]; ReaderRecv 0 [1; 2] true; BatchReady [(mkMeta 8 1 1, [0xc0])];
   ReaderRecv 1 [3] false; ReaderEnds 0; DoneReady; SweepTick (10 ^ 15); Cancelled; BatchReady [(mkMeta 7 1 1, [0xc0])] ].
Definition dcid : bytes := repeat 9 20.
(** The registry after a session registered [dcid]. *)
Definition registry : Registry :=
  let '(r, _) := register_session SessionRegistry_new [1] [10; 10; 0; 2] 5 in (insert_cid r [1] 1 dcid 5).1.
Definition answer : Answer := mkAnswer 0 registry true (inl tt) (inl 1).
End FrontDemo.

Section FrontWitnesses.
Import Checksum LruList FrontDemo.

Lemma quic_front_isolates_witness :
  ∃ s r, QuicEndpoint_run (st_idle_timeout ServerTimingConfig_default) (λ _, quiet) events (Front_new 1) = Ok (s, r) ∧
    zlen (lru_entries (fr_peers s)) ≤ 1 ∧ accounts 3 0 0 s.
Proof.
  destruct (quic_front_isolates config (inl tt) 1 (st_idle_timeout ServerTimingConfig_default) (λ _, quiet) events)
    as (s & r & H & _ & Hl & _ & Ha); [decided|vm_compute; reflexivity| |].
  { repeat constructor; decided. }
  exists s, r. exact (conj H (conj Hl Ha)).
Defined.

Lemma nat_readers_leak_witness :
  ∃ env events s, Forall event_ok events ∧ arrived events = 3 ∧
    QuicEndpoint_run 5 env events (Front_new 1) = Ok (s, None) ∧ zlen (lru_entries (fr_peers s)) ≤ 1 ∧
    (3 ≤ size (fr_readers s))%nat.
Proof.
  destruct (nat_readers_leak 1 5 3) as (env & events & s & H1 & H2 & H3 & H4 & H5 & _); [decided|].
  exists env, events, s. exact (conj H1 (conj H2 (conj H3 (conj H4 H5)))).
Defined.
End FrontWitnesses.
