(* ===== verification/TcpAdmission.v ===== *)
(** * Admission of TCP connections ([slt-server/src/tcp/admission.rs])

    At most [cap] connections are classified or proxied at a time, each
    holding a permit.  Connections that have not sent anything yet are kept in
    a list, oldest first, linked through a hash map; when the server is full
    the acceptor makes room by taking the permit of one that is still empty.

    Acceptor and connection tasks run concurrently.  Every section of the code
    under the lock, and every access to a [released] flag outside of it, is
    one function here; [sys_step] interleaves them. *)

From stdpp Require Import base tactics option list numbers gmap sets.
From Stdlib Require Import ZArith Lia.
From S2P Require Import Prelude.

Definition EMPTY_EVICTION_SCAN_LIMIT : nat := 32.
Definition EMPTY_EVICTION_SCAN_PASSES : nat := 2.

(** ** State

    Permits are numbered as they are made; the number stands for what a permit
    shares with its entry: the [cancel] token, the [released] flag and the
    stream.  The [id] of a permit is a [u64] and wraps around. *)
Record NoDataAdmission := mkNode {
  nd_permit : Z;
  nd_prev : option Z;
  nd_next : option Z;
}.

Record TcpAdmissionPermit := mkPermit { pm_id : Z; pm_num : Z }.

(** [TcpAdmissionState], and outside of the lock the flags and tokens that are
    set, the number of permits made, and the stream to which the acceptor holds
    a strong reference. *)
Record TcpAdmission := mkAdmission {
  ad_active : Z;
  ad_next_id : Z;
  ad_no_data : gmap Z NoDataAdmission;
  ad_no_data_head : option Z;
  ad_no_data_tail : option Z;
  ad_made : Z;
  ad_released : gset Z;
  ad_cancelled : gset Z;
  ad_probed : option Z;
}.

Definition TcpAdmission_new : TcpAdmission := mkAdmission 0 0 ∅ None None 0 ∅ ∅ None.

Definition put_active (n : Z) (a : TcpAdmission) : TcpAdmission :=
  mkAdmission n (ad_next_id a) (ad_no_data a) (ad_no_data_head a) (ad_no_data_tail a) (ad_made a) (ad_released a)
    (ad_cancelled a) (ad_probed a).
Definition put_no_data (m : gmap Z NoDataAdmission) (head tail : option Z) (a : TcpAdmission) : TcpAdmission :=
  mkAdmission (ad_active a) (ad_next_id a) m head tail (ad_made a) (ad_released a) (ad_cancelled a) (ad_probed a).
(** [released.store(true)] and [cancel.cancel()] *)
Definition release (n : Z) (a : TcpAdmission) : TcpAdmission :=
  mkAdmission (ad_active a) (ad_next_id a) (ad_no_data a) (ad_no_data_head a) (ad_no_data_tail a) (ad_made a)
    ({[ n ]} ∪ ad_released a) (ad_cancelled a) (ad_probed a).
Definition cancel (n : Z) (a : TcpAdmission) : TcpAdmission :=
  mkAdmission (ad_active a) (ad_next_id a) (ad_no_data a) (ad_no_data_head a) (ad_no_data_tail a) (ad_made a)
    (ad_released a) ({[ n ]} ∪ ad_cancelled a) (ad_probed a).
(** [Weak::upgrade] by the acceptor, and the drop of what it returned. *)
Definition hold (p : option Z) (a : TcpAdmission) : TcpAdmission :=
  mkAdmission (ad_active a) (ad_next_id a) (ad_no_data a) (ad_no_data_head a) (ad_no_data_tail a) (ad_made a)
    (ad_released a) (ad_cancelled a) p.
Definition released (a : TcpAdmission) (n : Z) : bool := bool_decide (n ∈ ad_released a).

(** ** The list *)
Definition set_next (next : option Z) (e : NoDataAdmission) : NoDataAdmission := mkNode (nd_permit e) (nd_prev e) next.
Definition set_prev (prev : option Z) (e : NoDataAdmission) : NoDataAdmission := mkNode (nd_permit e) prev (nd_next e).

Definition insert_no_data_locked (id permit : Z) (a : TcpAdmission) : TcpAdmission :=
  let entry := mkNode permit (ad_no_data_tail a) None in
  let '(m, head) :=
    match ad_no_data_tail a with
    | Some tail => (alter (set_next (Some id)) tail (ad_no_data a), ad_no_data_head a)
    | None => (ad_no_data a, Some id)
    end in
  put_no_data (<[id := entry]> m) head (Some id) a.

Definition remove_no_data_locked (id : Z) (a : TcpAdmission) : TcpAdmission * option NoDataAdmission :=
  match ad_no_data a !! id with
  | None => (a, None)
  | Some entry =>
      let m := delete id (ad_no_data a) in
      let '(m, head) :=
        match nd_prev entry with
        | Some prev => (alter (set_next (nd_next entry)) prev m, ad_no_data_head a)
        | None => (m, nd_next entry)
        end in
      let '(m, tail) :=
        match nd_next entry with
        | Some next => (alter (set_prev (nd_prev entry)) next m, ad_no_data_tail a)
        | None => (m, nd_prev entry)
        end in
      (put_no_data m head tail a, Some entry)
  end.

(** ** Acceptor *)
Definition admit_locked (a : TcpAdmission) : TcpAdmission * TcpAdmissionPermit :=
  (mkAdmission (ad_active a + 1) ((ad_next_id a + 1) mod 2 ^ 64) (ad_no_data a) (ad_no_data_head a) (ad_no_data_tail a)
     (ad_made a + 1) (ad_released a) (ad_cancelled a) (ad_probed a),
   mkPermit (ad_next_id a) (ad_made a)).

Definition admit_if_under_cap (cap : Z) (a : TcpAdmission) : TcpAdmission * option TcpAdmissionPermit :=
  if ad_active a <? cap then let '(a, permit) := admit_locked a in (a, Some permit) else (a, None).

(** The [while] of [eviction_candidates]; [room] is what is left of the limit. *)
Fixpoint collect (m : gmap Z NoDataAdmission) (id : option Z) (room : nat) : list (Z * NoDataAdmission) :=
  match room, id with
  | S room, Some current =>
      match m !! current with
      | Some entry => (current, entry) :: collect m (nd_next entry) room
      | None => []
      end
  | _, _ => []
  end.

Definition eviction_candidates (cap : Z) (a : TcpAdmission) : list (Z * NoDataAdmission) :=
  if ad_active a <? cap then [] else collect (ad_no_data a) (ad_no_data_head a) EMPTY_EVICTION_SCAN_LIMIT.

(** The token to cancel, named by its permit. *)
Definition try_evict_empty (cap id : Z) (a : TcpAdmission) : TcpAdmission * option Z :=
  if ad_active a <? cap then (a, None) else
  match remove_no_data_locked id a with
  | (a, None) => (a, None)
  | (a, Some entry) =>
      if released a (nd_permit entry) then (a, None)
      else (put_active (saturating_sub (ad_active a) 1) (release (nd_permit entry) a), Some (nd_permit entry))
  end.

Definition remove_stale_no_data (id : Z) (a : TcpAdmission) : TcpAdmission := (remove_no_data_locked id a).1.

(** ** Tasks *)
Definition is_released (p : TcpAdmissionPermit) (a : TcpAdmission) : bool := released a (pm_num p).

Definition mark_data_seen (p : TcpAdmissionPermit) (a : TcpAdmission) : TcpAdmission * bool :=
  if released a (pm_num p) then (a, false) else ((remove_no_data_locked (pm_id p) a).1, true).

(** [mark_no_data_if_empty], from taking the lock on. *)
Definition mark_no_data (p : TcpAdmissionPermit) (a : TcpAdmission) : TcpAdmission * bool :=
  if released a (pm_num p) then (a, false) else
  match ad_no_data a !! pm_id p with
  | Some _ => (a, true)
  | None => (insert_no_data_locked (pm_id p) (pm_num p) a, true)
  end.

(** [Drop]: the swap, which says whether the permit was released before, and
    the section under the lock. *)
Definition drop_swap (p : TcpAdmissionPermit) (a : TcpAdmission) : TcpAdmission * bool :=
  (release (pm_num p) a, released a (pm_num p)).
Definition drop_locked (p : TcpAdmissionPermit) (a : TcpAdmission) : TcpAdmission :=
  (remove_no_data_locked (pm_id p) (put_active (saturating_sub (ad_active a) 1) a)).1.

(** A permit is still with the acceptor, held by its connection task, or the
    task is between the swap and the lock of dropping it. *)
Inductive task_pc := Fresh | Held | Dropping.

(** The tasks by the number of their permit. *)
Record Sys := mkSys { sy_adm : TcpAdmission; sy_tasks : gmap Z (TcpAdmissionPermit * task_pc) }.

Definition Sys_new : Sys := mkSys TcpAdmission_new ∅.

(** ** [admit_or_evict_empty]

    [others t] is what the connection tasks do before the [t]-th time the
    acceptor takes the lock or looks at a stream, and [stream t n] what it finds
    then: [None] when the stream of permit [n] is gone, otherwise whether it is
    without data. *)
Section Acceptor.
Context (cap : Z) (others : Z → Sys → Sys) (stream : Z → Z → option bool).

Definition Acceptor : Type := Sys * Z.

(** A section under the lock. *)
Definition locked {A} (f : TcpAdmission → TcpAdmission * A) (s : Acceptor) : Acceptor * A :=
  let '(s, t) := s in
  let s := others t s in
  let '(a, r) := f (sy_adm s) in
  ((mkSys a (sy_tasks s), t + 1), r).

Definition try_admit (s : Acceptor) : Acceptor * option TcpAdmissionPermit :=
  let '((s, t), r) := locked (admit_if_under_cap cap) s in
  match r with
  | Some p => ((mkSys (sy_adm s) (<[pm_num p := (p, Fresh)]> (sy_tasks s)), t), Some p)
  | None => ((s, t), None)
  end.

(** [NoDataAdmission::is_empty]: the tasks go on while the acceptor holds the
    stream. *)
Definition is_empty (n : Z) (s : Acceptor) : Acceptor * bool :=
  let '(s, t) := s in
  match stream t n with
  | None => ((s, t), false)
  | Some no_data =>
      let s := others t (mkSys (hold (Some n) (sy_adm s)) (sy_tasks s)) in
      ((mkSys (hold None (sy_adm s)) (sy_tasks s), t + 1), no_data)
  end.

(** The loop over the candidates: the token to cancel, and whether an entry was
    removed as stale. *)
Fixpoint scan_candidates (candidates : list (Z * NoDataAdmission)) (removed_stale : bool) (s : Acceptor) : Acceptor * (option Z * bool) :=
  match candidates with
  | [] => (s, (None, removed_stale))
  | (id, entry) :: candidates =>
      let '(s, empty) := is_empty (nd_permit entry) s in
      if (empty : bool) then
        let '(s, evicted) := locked (try_evict_empty cap id) s in
        match evicted with
        | Some token => (s, (Some token, removed_stale))
        | None => scan_candidates candidates removed_stale s
        end
      else
        let '(s, _) := locked (λ a, (remove_stale_no_data id a, tt)) s in
        scan_candidates candidates true s
  end.

Fixpoint passes (n : nat) (s : Acceptor) : Acceptor * (option Z * option TcpAdmissionPermit) :=
  match n with
  | O => (s, (None, None))
  | S n =>
      let '(s, candidates) := locked (λ a, (a, eviction_candidates cap a)) s in
      let '(s, (evict_cancel, removed_stale)) := scan_candidates candidates false s in
      if bool_decide (is_Some evict_cancel) || negb removed_stale then (s, (evict_cancel, None)) else
      let '(s, permit) := try_admit s in
      match permit with
      | Some p => (s, (None, Some p))
      | None => passes n s
      end
  end.

Record TcpAdmissionAttempt := mkAttempt { at_permit : option TcpAdmissionPermit; at_evicted_empty : bool }.

Definition admit_or_evict_empty (s : Acceptor) : Acceptor * TcpAdmissionAttempt :=
  let '(s, permit) := try_admit s in
  let '(s, (evict_cancel, permit)) :=
    match permit with
    | Some p => (s, (None, Some p))
    | None =>
        let '(s, (evict_cancel, permit)) := passes EMPTY_EVICTION_SCAN_PASSES s in
        match permit with
        | Some p => (s, (evict_cancel, Some p))
        | None => let '(s, permit) := try_admit s in (s, (evict_cancel, permit))
        end
    end in
  let s :=
    match evict_cancel with
    | Some token => (mkSys (cancel token (sy_adm s.1)) (sy_tasks s.1), s.2)
    | None => s
    end in
  (s, mkAttempt permit (bool_decide (is_Some evict_cancel))).
End Acceptor.

(** ** The list refines a queue

    [node_at prev l id] is the node of [id] in the list [l] of identifiers and
    permits, when [prev] comes before the first. *)
Fixpoint node_at (prev : option Z) (l : list (Z * Z)) (id : Z) : option NoDataAdmission :=
  match l with
  | [] => None
  | (k, p) :: l => if k =? id then Some (mkNode p prev (fst <$> head l)) else node_at (Some k) l id
  end.

Definition first_of (l : list (Z * Z)) : option Z := fst <$> head l.
(** The last identifier, or the one before the list. *)
Definition last_of (prev : option Z) (l : list (Z * Z)) : option Z :=
  match last l with Some e => Some e.1 | None => prev end.

Record queue_of (a : TcpAdmission) (l : list (Z * Z)) : Prop := mkQueueOf {
  qo_nodup : NoDup l.*1;
  qo_head : ad_no_data_head a = first_of l;
  qo_tail : ad_no_data_tail a = last_of None l;
  qo_nodes : ∀ id, ad_no_data a !! id = node_at None l id;
}.

Lemma node_at_none prev l id : node_at prev l id = None ↔ id ∉ l.*1.
Proof.
  revert prev. induction l as [|[k p] l IH]; intros prev; cbn; [set_solver|].
  destruct (Z.eqb_spec k id) as [->|]; [set_solver|]. rewrite IH. set_solver.
Qed.

Lemma node_at_split prev l id e :
  node_at prev l id = Some e →
  ∃ l1 l2, l = l1 ++ (id, nd_permit e) :: l2 ∧ nd_prev e = last_of prev l1 ∧ nd_next e = first_of l2 ∧ id ∉ l1.*1.
Proof.
  revert prev. induction l as [|[k p] l IH]; intros prev; cbn; [done|].
  destruct (Z.eqb_spec k id) as [->|Hk].
  - intros [= <-]. exists [], l. cbn. split_and!; [done|done|done|set_solver].
  - intros (l1 & l2 & -> & Hp & Hn & Hi)%IH. exists ((k, p) :: l1), l2. split_and!; [done| |done|set_solver].
    rewrite Hp. unfold last_of. rewrite last_cons. by destruct (last l1).
Qed.

Lemma last_of_cons prev k p l : last_of prev ((k, p) :: l) = last_of (Some k) l.
Proof. unfold last_of. rewrite last_cons. by destruct (last l). Qed.

Lemma last_of_elem prev l k : last_of prev l = Some k → k ∈ l.*1 ∨ prev = Some k.
Proof.
  unfold last_of. destruct (last l) as [[k' p]|] eqn:E; [|by right]. intros [= <-]. left.
  apply last_Some in E as [l' ->]. rewrite fmap_app. set_solver.
Qed.

(** Adding at the end. *)
Lemma node_at_snoc prev l id p k :
  NoDup l.*1 → id ∉ l.*1 →
  node_at prev (l ++ [(id, p)]) k =
    if k =? id then Some (mkNode p (last_of prev l) None)
    else if bool_decide (last_of None l = Some k) then set_next (Some id) <$> node_at prev l k
    else node_at prev l k.
Proof.
  revert prev. induction l as [|[k' p'] l IH]; intros prev Hn Hi.
  { cbn. rewrite Z.eqb_sym. by destruct (k =? id). }
  rewrite fmap_cons in Hn. cbn [app node_at]. apply NoDup_cons in Hn as [Hk' Hn]. rewrite fmap_cons in Hi. cbn [fst] in *. rewrite !last_of_cons.
  destruct (Z.eqb_spec k' k) as [->|Hne].
  - destruct (Z.eqb_spec k id) as [E|_]; [subst; set_solver|].
    destruct l as [|[k2 p2] l]; cbn [app head fmap option_fmap option_map fst].
    + cbn. by rewrite bool_decide_true.
    + rewrite bool_decide_false; [done|]. rewrite last_of_cons. intros [H|[= ->]]%last_of_elem; set_solver.
  - rewrite IH by set_solver. destruct (k =? id); [done|].
    destruct l as [|[k2 p2] l]; [cbn; rewrite !bool_decide_false by (cbn; congruence); done|].
    by rewrite !last_of_cons.
Qed.

(** Removing the middle. *)
Lemma node_at_remove prev l1 id p l2 k :
  NoDup (l1 ++ (id, p) :: l2).*1 → k ≠ id →
  node_at prev (l1 ++ l2) k =
    let e := node_at prev (l1 ++ (id, p) :: l2) k in
    let e := if bool_decide (last_of None l1 = Some k) then set_next (first_of l2) <$> e else e in
    if bool_decide (first_of l2 = Some k) then set_prev (last_of prev l1) <$> e else e.
Proof.
  revert prev. induction l1 as [|[k' p'] l1 IH]; intros prev Hn Hk.
  - cbn [app node_at]. destruct (Z.eqb_spec id k); [done|]. cbn zeta.
    destruct l2 as [|[k2 p2] l2]; [done|]. cbn [node_at first_of head fmap option_fmap option_map fst last_of last].
    rewrite (bool_decide_false (None = Some k)) by done.
    destruct (Z.eqb_spec k2 k) as [->|Hne].
    + by rewrite bool_decide_true.
    + by rewrite bool_decide_false by congruence.
  - rewrite <- app_comm_cons, fmap_cons in Hn. cbn [app node_at]. apply NoDup_cons in Hn as [Hk' Hn]. cbn [fst] in *. rewrite !last_of_cons.
    assert (k' ∉ l1.*1 ∧ k' ∉ l2.*1) as [H1 H2].
    { rewrite fmap_app in Hk'. set_solver. }
    destruct (Z.eqb_spec k' k) as [->|Hne].
    + cbn zeta. rewrite (bool_decide_false (first_of l2 = Some k)).
      2: { destruct l2 as [|[k2 p2] l2]; cbn; [done|]. intros [= ->]. set_solver. }
      destruct l1 as [|[k2 p2] l1]; [by cbn; rewrite bool_decide_true|].
      rewrite bool_decide_false; [done|]. rewrite last_of_cons. intros [H|[= ->]]%last_of_elem; set_solver.
    + rewrite IH by done. cbn zeta.
      destruct l1 as [|[k2 p2] l1]; [|by rewrite !last_of_cons].
      by rewrite (bool_decide_false (last_of (Some k') [] = Some k)) by (cbn; congruence).
Qed.

(** The queue without [id]. *)
Definition dequeue (id : Z) (l : list (Z * Z)) : list (Z * Z) := List.filter (λ e, negb (e.1 =? id)) l.

Lemma dequeue_absent id l : id ∉ l.*1 → dequeue id l = l.
Proof.
  induction l as [|[k p] l IH]; [done|]. rewrite fmap_cons. cbn. intros H.
  destruct (Z.eqb_spec k id) as [->|]; [set_solver|]. cbn. f_equal. apply IH. set_solver.
Qed.

Lemma dequeue_split l1 id p l2 : NoDup (l1 ++ (id, p) :: l2).*1 → dequeue id (l1 ++ (id, p) :: l2) = l1 ++ l2.
Proof.
  rewrite fmap_app, fmap_cons. cbn [fst]. intros (_ & H1 & [H2 _]%NoDup_cons)%NoDup_app.
  unfold dequeue. rewrite List.filter_app. cbn. rewrite Z.eqb_refl. cbn.
  fold (dequeue id l1) (dequeue id l2). rewrite !dequeue_absent; [done|done|set_solver].
Qed.

Lemma dequeue_elem id l e : e ∈ dequeue id l ↔ e ∈ l ∧ e.1 ≠ id.
Proof. unfold dequeue. rewrite !list_elem_of_In, filter_In, negb_true_iff, Z.eqb_neq. done. Qed.

Lemma node_at_elem prev l id p : NoDup l.*1 → (id, p) ∈ l → nd_permit <$> node_at prev l id = Some p.
Proof.
  revert prev. induction l as [|[k q] l IH]; intros prev Hn Hin; [set_solver|].
  rewrite fmap_cons in Hn. apply NoDup_cons in Hn as [Hk Hn]. cbn [node_at fst] in *.
  destruct (Z.eqb_spec k id) as [E|Hne].
  - apply elem_of_cons in Hin as [[= _ ->]|Hin]; [done|]. destruct Hk. apply list_elem_of_fmap. exists (id, p). by subst.
  - apply IH; [done|]. apply elem_of_cons in Hin as [[= -> _]|Hin]; done.
Qed.

Lemma queue_elem a l id p : queue_of a l → (id, p) ∈ l ↔ nd_permit <$> ad_no_data a !! id = Some p.
Proof.
  intros [Hn _ _ Hm]. rewrite Hm. split; [by apply node_at_elem|].
  destruct (node_at None l id) as [e|] eqn:He; [|done]. intros [= <-].
  apply node_at_split in He as (k1 & k2 & -> & _). set_solver.
Qed.

Lemma queue_absent a l id : queue_of a l → ad_no_data a !! id = None ↔ id ∉ l.*1.
Proof. intros [_ _ _ Hm]. rewrite Hm. apply node_at_none. Qed.

Lemma queue_new : queue_of TcpAdmission_new [].
Proof. by split; [constructor|..]. Qed.

(** Appending. *)
Lemma queue_insert a l id p :
  queue_of a l → ad_no_data a !! id = None → queue_of (insert_no_data_locked id p a) (l ++ [(id, p)]).
Proof.
  intros Hq Ha. pose proof (proj1 (queue_absent a l id Hq) Ha) as Hi. destruct Hq as [Hn Hh Ht Hm].
  unfold insert_no_data_locked. rewrite Ht.
  assert (last_of None (l ++ [(id, p)]) = Some id) as Hl by (unfold last_of; by rewrite last_snoc).
  assert (NoDup (l ++ [(id, p)]).*1) as Hn'.
  { rewrite fmap_app. apply NoDup_app. split_and!; [done|set_solver|]. by apply NoDup_singleton. }
  destruct l as [|[k q] l'] eqn:El.
  { split; [done..|]. intros k. cbn. rewrite Z.eqb_sym. destruct (Z.eqb_spec k id) as [->|].
    - apply lookup_insert_eq.
    - rewrite lookup_insert_ne by done. apply Hm. }
  rewrite <- El in *. assert (∃ t, last_of None l = Some t) as [t Et].
  { subst l. rewrite last_of_cons. unfold last_of. destruct (last l'); eauto. }
  rewrite Et. split; [done|by subst l|done|]. intros k'. cbn [ad_no_data put_no_data].
  rewrite node_at_snoc by done. rewrite Et. destruct (Z.eqb_spec k' id) as [->|Hne]; [apply lookup_insert_eq|].
  rewrite lookup_insert_ne by done. destruct (decide (t = k')) as [->|Hk].
  - rewrite bool_decide_true, lookup_alter_eq, Hm by done. done.
  - rewrite bool_decide_false, lookup_alter_ne, Hm by congruence. done.
Qed.

(** Removing. *)
Lemma last_of_app prev l1 l2 : last_of prev (l1 ++ l2) = last_of (last_of prev l1) l2.
Proof. revert prev. induction l1 as [|[k p] l1 IH]; intros prev; [done|]. by rewrite <- app_comm_cons, !last_of_cons. Qed.

Lemma last_of_some l k : last_of (Some k) l = match last_of None l with Some t => Some t | None => Some k end.
Proof. unfold last_of. by destruct (last l). Qed.

Lemma first_of_last l : first_of l = None → l = [].
Proof. by destruct l. Qed.

Lemma last_of_none l : last_of None l = None → l = [].
Proof. unfold last_of. destruct (last l) eqn:E; [done|]. by apply last_None in E. Qed.

(** An update at an optional key. *)
Definition alter_opt (f : NoDataAdmission → NoDataAdmission) (o : option Z) (m : gmap Z NoDataAdmission) :=
  match o with Some k => alter f k m | None => m end.

Lemma lookup_alter_opt f o m k :
  alter_opt f o m !! k = if bool_decide (o = Some k) then f <$> m !! k else m !! k.
Proof.
  destruct o as [i|]; cbn; [|done]. case_bool_decide as H.
  - injection H as ->. apply lookup_alter_eq.
  - apply lookup_alter_ne. congruence.
Qed.

Lemma queue_remove a l id :
  queue_of a l →
  ∃ m h t, remove_no_data_locked id a = (put_no_data m h t a, ad_no_data a !! id) ∧
    queue_of (put_no_data m h t a) (dequeue id l).
Proof.
  intros Hq. unfold remove_no_data_locked. destruct (ad_no_data a !! id) as [e|] eqn:He.
  2: { exists (ad_no_data a), (ad_no_data_head a), (ad_no_data_tail a). split; [by destruct a|].
       rewrite dequeue_absent by (by apply (queue_absent a)). by destruct Hq. }
  destruct Hq as [Hn Hh Ht Hm]. rewrite Hm in He.
  apply node_at_split in He as (l1 & l2 & -> & Hp & Hx & _). rewrite Hp, Hx. rewrite dequeue_split by done.
  assert (NoDup (l1 ++ l2).*1 ∧ id ∉ (l1 ++ l2).*1) as [Hn' Hid].
  { rewrite fmap_app, fmap_cons in Hn. rewrite fmap_app. apply NoDup_app in Hn as (? & H & [? ?]%NoDup_cons).
    split; [apply NoDup_app; split_and!; [done|set_solver|done]|set_solver]. }
  exists (alter_opt (set_prev (last_of None l1)) (first_of l2)
           (alter_opt (set_next (first_of l2)) (last_of None l1) (delete id (ad_no_data a)))),
    (first_of (l1 ++ l2)), (last_of None (l1 ++ l2)). split.
  - rewrite last_of_app in *. cbn [last_of] in Ht. rewrite last_of_cons in Ht.
    assert (first_of (l1 ++ (id, nd_permit e) :: l2) = match last_of None l1 with Some _ => first_of l1 | None => Some id end) as E1.
    { destruct l1 as [|[k p] l1]; [done|]. rewrite last_of_cons, last_of_some. by destruct (last_of None l1). }
    assert (first_of (l1 ++ l2) = match last_of None l1 with Some _ => first_of l1 | None => first_of l2 end) as E2.
    { destruct l1 as [|[k p] l1]; [done|]. rewrite last_of_cons, last_of_some. by destruct (last_of None l1). }
    rewrite Hh, Ht, E1, E2. destruct l2 as [|[k2 p2] l2].
    + by destruct (last_of None l1).
    + rewrite !last_of_cons. by destruct (last_of None l1).
  - split; [done..|]. intros k. cbn [ad_no_data put_no_data]. rewrite !lookup_alter_opt.
    destruct (decide (k = id)) as [->|Hk].
    + rewrite lookup_delete_eq, (proj2 (node_at_none None (l1 ++ l2) id) Hid).
      by destruct (bool_decide _), (bool_decide _).
    + rewrite lookup_delete_ne, Hm by done. symmetry. by apply node_at_remove.
Qed.

(** Collecting reads off the front of the queue. *)
Lemma node_at_here prev l1 k p l2 :
  k ∉ l1.*1 → node_at prev (l1 ++ (k, p) :: l2) k = Some (mkNode p (last_of prev l1) (first_of l2)).
Proof.
  revert prev. induction l1 as [|[k' p'] l1 IH]; intros prev Hk; cbn [app node_at].
  - by rewrite Z.eqb_refl.
  - rewrite fmap_cons in Hk. cbn [fst] in Hk. destruct (Z.eqb_spec k' k) as [->|]; [set_solver|].
    rewrite IH by set_solver. by rewrite last_of_cons.
Qed.

Definition id_permit (e : Z * NoDataAdmission) : Z * Z := (e.1, nd_permit e.2).

Lemma collect_queue a l1 l2 n :
  queue_of a (l1 ++ l2) → id_permit <$> collect (ad_no_data a) (first_of l2) n = take n l2.
Proof.
  revert l1 l2. induction n as [|n IH]; intros l1 l2 Hq; [done|].
  destruct l2 as [|[k p] l2]; [done|]. cbn [collect first_of head fmap option_fmap option_map fst].
  pose proof Hq as [Hn _ _ ->]. rewrite node_at_here.
  - cbn [fmap list_fmap nd_next take]. f_equal. apply (IH (l1 ++ [(k, p)])). by rewrite <- app_assoc.
  - rewrite fmap_app, fmap_cons in Hn. apply NoDup_app in Hn as (_ & H & _). intros Hk. apply (H _ Hk). left.
Qed.

Lemma candidates_queue cap a l :
  queue_of a l → cap ≤ ad_active a → id_permit <$> eviction_candidates cap a = take EMPTY_EVICTION_SCAN_LIMIT l.
Proof.
  intros Hq Hc. unfold eviction_candidates. destruct (Z.ltb_spec (ad_active a) cap); [lia|].
  rewrite (qo_head _ _ Hq). by apply (collect_queue a []).
Qed.

(** ** Interleavings *)

(** [sys_step cap who] is a step of the acceptor ([None]) or of the task of a
    permit. *)
Inductive sys_step (cap : Z) : option Z → Sys → Sys → Prop :=
  | step_admit a a' p T :
      admit_if_under_cap cap a = (a', Some p) →
      sys_step cap None (mkSys a T) (mkSys a' (<[pm_num p := (p, Fresh)]> T))
  | step_evict a id T : sys_step cap None (mkSys a T) (mkSys (try_evict_empty cap id a).1 T)
  | step_stale a id T : sys_step cap None (mkSys a T) (mkSys (remove_stale_no_data id a) T)
  | step_hold a p T : sys_step cap None (mkSys a T) (mkSys (hold p a) T)
  | step_cancel a n T : sys_step cap None (mkSys a T) (mkSys (cancel n a) T)
  | step_register a T n p :
      T !! n = Some (p, Fresh) → sys_step cap None (mkSys a T) (mkSys (mark_no_data p a).1 T)
  | step_register_data a T n p :
      T !! n = Some (p, Fresh) → sys_step cap None (mkSys a T) (mkSys (mark_data_seen p a).1 T)
  | step_spawn a T n p : T !! n = Some (p, Fresh) → sys_step cap None (mkSys a T) (mkSys a (<[n := (p, Held)]> T))
  | step_mark_no_data a T n p :
      T !! n = Some (p, Held) → sys_step cap (Some n) (mkSys a T) (mkSys (mark_no_data p a).1 T)
  | step_mark_data_seen a T n p :
      T !! n = Some (p, Held) → sys_step cap (Some n) (mkSys a T) (mkSys (mark_data_seen p a).1 T)
  | step_drop_swap a a' was T n p :
      T !! n = Some (p, Held) → drop_swap p a = (a', was) →
      sys_step cap (Some n) (mkSys a T) (mkSys a' (if was then delete n T else <[n := (p, Dropping)]> T))
  | step_drop_locked a T n p :
      T !! n = Some (p, Dropping) → sys_step cap (Some n) (mkSys a T) (mkSys (drop_locked p a) (delete n T)).

Definition any_step (cap : Z) (s s' : Sys) : Prop := ∃ who, sys_step cap who s s'.
(** A step that the task of permit [n] does not take. *)
Definition other_step (cap n : Z) (s s' : Sys) : Prop := ∃ who, who ≠ Some n ∧ sys_step cap who s s'.

(** The permits that count: held and not taken away, or about to be given back. *)
Definition counts (rel : gset Z) (x : Z * (TcpAdmissionPermit * task_pc)) : Prop :=
  match x.2.2 with Dropping => True | _ => x.1 ∉ rel end.
#[global] Instance counts_dec rel x : Decision (counts rel x).
Proof. unfold counts. destruct (x.2.2); apply _. Defined.

Definition slots (s : Sys) : gset Z := dom (filter (counts (ad_released (sy_adm s))) (sy_tasks s)).

Record adm_inv (cap : Z) (s : Sys) : Prop := mkAdmInv {
  ai_ids : ad_next_id (sy_adm s) = ad_made (sy_adm s) mod 2 ^ 64;
  ai_tasks : ∀ n p pc, sy_tasks s !! n = Some (p, pc) →
    p = mkPermit (n mod 2 ^ 64) n ∧ n < ad_made (sy_adm s) ∧ (pc = Dropping → n ∈ ad_released (sy_adm s));
  ai_released : ∀ n, n ∈ ad_released (sy_adm s) → n < ad_made (sy_adm s);
  ai_queue : ∃ l, queue_of (sy_adm s) l ∧
    ∀ id n, (id, n) ∈ l → id = n mod 2 ^ 64 ∧
      ∃ p pc, sy_tasks s !! n = Some (p, pc) ∧ (pc ≠ Dropping → n ∉ ad_released (sy_adm s));
  ai_active : ad_active (sy_adm s) = Z.of_nat (size (slots s));
  ai_cap : ad_active (sy_adm s) ≤ cap;
}.

Lemma elem_of_slots s n :
  n ∈ slots s ↔ ∃ p pc, sy_tasks s !! n = Some (p, pc) ∧ (pc ≠ Dropping → n ∉ ad_released (sy_adm s)).
Proof.
  unfold slots. rewrite elem_of_dom. split.
  - intros [[p pc] [H1 H2]%map_lookup_filter_Some]. exists p, pc. split; [done|]. intros Hpc. unfold counts in H2. by destruct pc.
  - intros (p & pc & H1 & H2). exists (p, pc). apply map_lookup_filter_Some. split; [done|].
    unfold counts. cbn. destruct pc; try (by apply H2); done.
Qed.

Lemma slots_ext s s' : (∀ n, n ∈ slots s' ↔ n ∈ slots s) → size (slots s') = size (slots s).
Proof. intros H. f_equal. by apply set_eq. Qed.

Lemma slots_less s s' n :
  n ∈ slots s → (∀ k, k ∈ slots s' ↔ k ∈ slots s ∧ k ≠ n) → Z.of_nat (size (slots s')) = Z.of_nat (size (slots s)) - 1.
Proof.
  intros Hn H. assert (slots s = {[ n ]} ∪ slots s') as ->.
  { apply set_eq. intros k. rewrite elem_of_union, elem_of_singleton, H. destruct (decide (k = n)) as [->|]; naive_solver. }
  rewrite size_union by set_solver. rewrite size_singleton. lia.
Qed.

(** Steps that only shorten the queue. *)
Lemma inv_remove cap a T id : adm_inv cap (mkSys a T) → adm_inv cap (mkSys (remove_no_data_locked id a).1 T).
Proof.
  intros [Hi Ht Hr (l & Hq & Hl) Ha Hc]. destruct (queue_remove a l id Hq) as (m & h & t & -> & Hq').
  split; try done. exists (dequeue id l). split; [done|]. intros id' n [H _]%dequeue_elem. by apply Hl.
Qed.

(** Taking a permit away from its owner, or giving it back. *)
Lemma inv_release cap a T n :
  adm_inv cap (mkSys a T) → n ∈ slots (mkSys a T) → n ∉ ad_released a →
  (∀ id e, ad_no_data a !! id = Some e → nd_permit e ≠ n) →
  adm_inv cap (mkSys (put_active (saturating_sub (ad_active a) 1) (release n a)) T).
Proof.
  intros [Hi Ht Hr (l & Hq & Hl) Ha Hc] Hn Hrel Hno. cbn [sy_adm sy_tasks] in *.
  pose proof Hn as (p & pc & Hp & _)%elem_of_slots. cbn [sy_adm sy_tasks] in Hp.
  assert (∀ k, k ∈ slots (mkSys (put_active (saturating_sub (ad_active a) 1) (release n a)) T) ↔
    k ∈ slots (mkSys a T) ∧ k ≠ n) as Hs.
  { intros k. rewrite !elem_of_slots. cbn [sy_adm sy_tasks put_active release ad_released]. split.
    - intros (q & pc' & Hk & Hh). split; [exists q, pc'; split; [done|set_solver]|].
      intros ->. simplify_eq. destruct pc; [set_solver..|]. apply Hrel. by apply (Ht n p Dropping).
    - intros [(q & pc' & Hk & Hh) Hne]. exists q, pc'. split; [done|]. set_solver. }
  pose proof (slots_less _ _ n Hn Hs) as Hz.
  assert (0 < ad_active a) as Hpos.
  { rewrite Ha. enough (size (slots (mkSys a T)) ≠ 0%nat) by lia. intros E%size_empty_inv. set_solver. }
  split; cbn [sy_adm sy_tasks put_active release ad_released ad_active ad_made ad_next_id]; [done|..].
  - intros k q pc' Hk. destruct (Ht k q pc' Hk) as (? & ? & ?). split_and!; [done|done|set_solver].
  - intros k [->%elem_of_singleton|Hk]%elem_of_union; [by eapply Ht|auto].
  - exists l. split; [by destruct Hq|]. intros id k Hk. destruct (Hl id k Hk) as [-> (q & pc' & Hq' & Hh)].
    split; [done|]. exists q, pc'. split; [done|]. intros E. apply not_elem_of_union. split; [|auto].
    apply not_elem_of_singleton. intros ->. apply (queue_elem a l) in Hk; [|done].
    destruct (ad_no_data a !! (n mod 2 ^ 64)) as [e|] eqn:He; [|done].
    injection Hk as Hk. by apply (Hno _ e He).
  - rewrite Hz. unfold saturating_sub. lia.
  - unfold saturating_sub. lia.
Qed.

Lemma inv_admit cap a a' p T :
  admit_if_under_cap cap a = (a', Some p) → adm_inv cap (mkSys a T) → adm_inv cap (mkSys a' (<[pm_num p := (p, Fresh)]> T)).
Proof.
  unfold admit_if_under_cap, admit_locked. destruct (Z.ltb_spec (ad_active a) cap) as [Hlt|]; [|done].
  intros [= <- <-] [Hi Ht Hr (l & Hq & Hl) Ha Hc]. cbn [sy_adm sy_tasks pm_num pm_id] in *.
  assert (T !! ad_made a = None) as HT.
  { destruct (T !! ad_made a) as [[q pc]|] eqn:E; [|done]. destruct (Ht _ _ _ E) as (_ & ? & _). lia. }
  set (a' := mkAdmission _ _ _ _ _ _ _ _ _).
  assert (slots (mkSys a' (<[ad_made a := (mkPermit (ad_next_id a) (ad_made a), Fresh)]> T)) =
    {[ ad_made a ]} ∪ slots (mkSys a T)) as Hs.
  { apply set_eq. intros k. rewrite elem_of_union, elem_of_singleton, !elem_of_slots.
    cbn [sy_adm sy_tasks a' ad_released]. destruct (decide (k = ad_made a)) as [->|Hk].
    - rewrite lookup_insert_eq. split; [by left|]. intros _. eexists _, Fresh. split; [done|]. intros _ H%Hr. lia.
    - rewrite lookup_insert_ne by done. naive_solver. }
  split; cbn [sy_adm sy_tasks a' ad_next_id ad_made ad_released ad_active].
  - rewrite Hi. by rewrite Zplus_mod_idemp_l.
  - intros n q pc [[<- [= <- <-]]|[_ Hn]]%lookup_insert_Some.
    + split_and!; [by rewrite Hi|lia|done].
    + destruct (Ht n q pc Hn) as (? & ? & ?). split_and!; [done|lia|done].
  - intros n H%Hr. lia.
  - exists l. split; [by destruct Hq|]. intros id n Hn. destruct (Hl id n Hn) as [-> (q & pc & Hq' & Hh)].
    split; [done|]. exists q, pc. split; [|done]. rewrite lookup_insert_ne; [done|congruence].
  - rewrite Hs, size_union, size_singleton, Ha by (apply disjoint_singleton_l; rewrite elem_of_slots; cbn; naive_solver). lia.
  - lia.
Qed.

Lemma inv_evict cap a id T : adm_inv cap (mkSys a T) → adm_inv cap (mkSys (try_evict_empty cap id a).1 T).
Proof.
  intros Hinv. pose proof (inv_remove cap a T id Hinv) as Hinv'. unfold try_evict_empty.
  destruct (ad_active a <? cap); [done|].
  pose proof (ai_queue _ _ Hinv) as (l & Hq & Hl). cbn [sy_adm sy_tasks] in *.
  destruct (queue_remove a l id Hq) as (m & h & t & E & Hq'). rewrite E in *. cbn [fst] in *.
  destruct (ad_no_data a !! id) as [e|] eqn:He; [|done].
  unfold released. case_bool_decide as Hrel; [done|]. cbn [fst].
  assert ((id, nd_permit e) ∈ l) as Hin by (apply (queue_elem a); [done|by rewrite He]).
  destruct (Hl _ _ Hin) as [-> (p & pc & Hp & Hh)].
  apply inv_release; [done| |done|].
  - apply elem_of_slots. by exists p, pc.
  - intros id' e' He' Hpm. assert ((id', nd_permit e) ∈ dequeue (nd_permit e mod 2 ^ 64) l) as [H1 H2]%dequeue_elem.
    { apply (queue_elem (put_no_data m h t a)); [done|]. by rewrite He', <- Hpm. }
    by apply Hl in H1 as [-> _].
Qed.

Lemma inv_mark_no_data cap a T n p pc :
  T !! n = Some (p, pc) → pc ≠ Dropping → adm_inv cap (mkSys a T) → adm_inv cap (mkSys (mark_no_data p a).1 T).
Proof.
  intros Hn Hpc Hinv. unfold mark_no_data, released. case_bool_decide as Hrel; [done|].
  destruct (ad_no_data a !! pm_id p) eqn:He; [done|]. destruct Hinv as [Hi Ht Hr (l & Hq & Hl) Ha Hc].
  destruct (Ht _ _ _ Hn) as (-> & _ & _). cbn [fst sy_adm sy_tasks pm_id pm_num] in *.
  pose proof (queue_insert a l (n mod 2 ^ 64) n Hq He) as Hq'.
  assert (∃ m h t, insert_no_data_locked (n mod 2 ^ 64) n a = put_no_data m h t a) as (m & h & t & E).
  { unfold insert_no_data_locked. destruct (ad_no_data_tail a); eauto. }
  rewrite E in *. split; try done. exists (l ++ [(n mod 2 ^ 64, n)]). split; [done|].
  intros id k [Hk|[= -> ->]%list_elem_of_singleton]%elem_of_app; [by apply Hl|]. split; [done|]. by eexists _, pc.
Qed.

Lemma inv_drop_swap cap a a' was T n p :
  T !! n = Some (p, Held) → drop_swap p a = (a', was) → adm_inv cap (mkSys a T) →
  adm_inv cap (mkSys a' (if was then delete n T else <[n := (p, Dropping)]> T)).
Proof.
  intros Hn [= <- <-] [Hi Ht Hr (l & Hq & Hl) Ha Hc]. destruct (Ht _ _ _ Hn) as (-> & Hlt & _).
  cbn [sy_adm sy_tasks pm_num] in *. unfold released. case_bool_decide as Hrel.
  - assert (release n a = a) as -> by (destruct a; unfold release; cbn; f_equal; set_solver).
    split; cbn [sy_adm sy_tasks]; try done.
    + intros k q pc [_ Hk]%lookup_delete_Some. by apply Ht.
    + exists l. split; [done|]. intros id k Hk. destruct (Hl id k Hk) as [-> (q & pc & Hq' & Hh)]. split; [done|].
      exists q, pc. split; [|done]. rewrite lookup_delete_ne; [done|]. intros ->. simplify_eq. by destruct Hh.
    + rewrite Ha. f_equal. symmetry. apply slots_ext. intros k. rewrite !elem_of_slots. cbn [sy_adm sy_tasks].
      destruct (decide (k = n)) as [->|]; [rewrite lookup_delete_eq; naive_solver|by rewrite lookup_delete_ne].
  - split; cbn [sy_adm sy_tasks release ad_released ad_active ad_made ad_next_id]; try done.
    + intros k q pc [[<- [= <- <-]]|[Hne Hk]]%lookup_insert_Some; [split_and!; [done|done|set_solver]|].
      destruct (Ht k q pc Hk) as (? & ? & ?). split_and!; [done|done|set_solver].
    + intros k [->%elem_of_singleton|Hk]%elem_of_union; auto.
    + exists l. split; [by destruct Hq|]. intros id k Hk. destruct (Hl id k Hk) as [-> (q & pc & Hq' & Hh)].
      split; [done|]. destruct (decide (k = n)) as [->|Hne].
      * rewrite lookup_insert_eq. by eexists _, Dropping.
      * rewrite lookup_insert_ne by done. exists q, pc. split; [done|]. set_solver.
    + rewrite Ha. f_equal. symmetry. apply slots_ext. intros k. rewrite !elem_of_slots.
      cbn [sy_adm sy_tasks release ad_released]. destruct (decide (k = n)) as [->|].
      * rewrite lookup_insert_eq. naive_solver.
      * rewrite lookup_insert_ne by done. set_solver.
Qed.

Lemma inv_drop_locked cap a T n p :
  T !! n = Some (p, Dropping) → adm_inv cap (mkSys a T) → adm_inv cap (mkSys (drop_locked p a) (delete n T)).
Proof.
  intros Hn [Hi Ht Hr (l & Hq & Hl) Ha Hc]. destruct (Ht _ _ _ Hn) as (-> & Hlt & Hrel).
  unfold drop_locked. cbn [sy_adm sy_tasks pm_id] in *. set (b := put_active _ a).
  assert (queue_of b l) as Hqb by (by destruct Hq).
  destruct (queue_remove b l (n mod 2 ^ 64) Hqb) as (m & h & t & -> & Hq'). cbn [fst].
  assert (n ∈ slots (mkSys a T)) as Hin by (apply elem_of_slots; by eexists _, Dropping).
  assert (∀ k, k ∈ slots (mkSys (put_no_data m h t b) (delete n T)) ↔ k ∈ slots (mkSys a T) ∧ k ≠ n) as Hs.
  { intros k. rewrite !elem_of_slots. cbn [sy_adm sy_tasks put_no_data b put_active ad_released].
    destruct (decide (k = n)) as [->|]; [rewrite lookup_delete_eq; naive_solver|rewrite lookup_delete_ne; naive_solver]. }
  pose proof (slots_less _ _ n Hin Hs) as Hz.
  assert (0 < ad_active a) as Hpos.
  { rewrite Ha. enough (size (slots (mkSys a T)) ≠ 0%nat) by lia. intros E%size_empty_inv. set_solver. }
  split; cbn [sy_adm sy_tasks put_no_data b put_active ad_released ad_active ad_made ad_next_id]; try done.
  - intros k q pc [_ Hk]%lookup_delete_Some. by apply Ht.
  - exists (dequeue (n mod 2 ^ 64) l). split; [done|]. intros id k [Hk Hne]%dequeue_elem. cbn [fst] in Hne.
    destruct (Hl id k Hk) as [-> (q & pc & Hq'' & Hh)]. split; [done|]. exists q, pc. split; [|done].
    rewrite lookup_delete_ne; [done|]. congruence.
  - rewrite Hz. unfold saturating_sub. lia.
  - unfold saturating_sub. lia.
Qed.

Lemma inv_spawn cap a T n p :
  T !! n = Some (p, Fresh) → adm_inv cap (mkSys a T) → adm_inv cap (mkSys a (<[n := (p, Held)]> T)).
Proof.
  intros Hn [Hi Ht Hr (l & Hq & Hl) Ha Hc]. cbn [sy_adm sy_tasks] in *.
  assert (∀ k q pc, <[n := (p, Held)]> T !! k = Some (q, pc) → ∃ pc', T !! k = Some (q, pc') ∧ (pc = Dropping ↔ pc' = Dropping)) as Hk.
  { intros k q pc [[<- [= <- <-]]|[_ Hk]]%lookup_insert_Some; [by exists Fresh|by exists pc]. }
  assert (∀ k q pc, T !! k = Some (q, pc) → ∃ pc', <[n := (p, Held)]> T !! k = Some (q, pc') ∧ (pc = Dropping ↔ pc' = Dropping)) as Hk'.
  { intros k q pc H. destruct (decide (k = n)) as [->|].
    - simplify_eq. rewrite lookup_insert_eq. by exists Held.
    - rewrite lookup_insert_ne by done. by exists pc. }
  split; cbn [sy_adm sy_tasks]; try done.
  - intros k q pc (pc' & H & E)%Hk. destruct (Ht k q pc' H) as (? & ? & ?). split_and!; naive_solver.
  - exists l. split; [done|]. intros id k Hin. destruct (Hl id k Hin) as [-> (q & pc & H & Hh)]. split; [done|].
    destruct (Hk' k q pc H) as (pc' & H' & E). exists q, pc'. split; [done|]. naive_solver.
  - rewrite Ha. f_equal. symmetry. apply slots_ext. intros k. rewrite !elem_of_slots. cbn [sy_adm sy_tasks]. split.
    + intros (q & pc & (pc' & H & E)%Hk & Hh). exists q, pc'. split; [done|]. naive_solver.
    + intros (q & pc & (pc' & H & E)%Hk' & Hh). exists q, pc'. split; [done|]. naive_solver.
Qed.

Lemma adm_inv_step cap s s' : any_step cap s s' → adm_inv cap s → adm_inv cap s'.
Proof.
  assert (∀ a T p, adm_inv cap (mkSys a T) → adm_inv cap (mkSys (mark_data_seen p a).1 T)) as Hseen.
  { intros a T p Hinv. unfold mark_data_seen. destruct (released a (pm_num p)); [done|]. by apply inv_remove. }
  intros [who Hs]. destruct Hs; intros Hinv; eauto using inv_admit, inv_evict, inv_remove, inv_drop_swap, inv_drop_locked, inv_spawn.
  - by destruct Hinv as [? ? ? (l & [] & ?) ? ?]; split; eauto using mkQueueOf.
  - by destruct Hinv as [? ? ? (l & [] & ?) ? ?]; split; eauto using mkQueueOf.
  - by eapply inv_mark_no_data.
  - by eapply inv_mark_no_data.
Qed.

Lemma adm_inv_new cap : 0 ≤ cap → adm_inv cap Sys_new.
Proof.
  intros. split; try done. exists []. split; [apply queue_new|set_solver].
Qed.

Lemma adm_inv_reachable cap s : 0 ≤ cap → rtc (any_step cap) Sys_new s → adm_inv cap s.
Proof.
  intros Hc. apply (rtc_ind_r (λ s, adm_inv cap s)); eauto using adm_inv_new, adm_inv_step.
Qed.

(** The acceptor takes steps of the system, whatever the tasks do in between. *)
Section Guarantee.
Context (cap : Z) (others : Z → Sys → Sys) (stream : Z → Z → option bool).
Context (others_ok : ∀ t s, rtc (any_step cap) s (others t s)).

Lemma locked_steps {A} (f : TcpAdmission → TcpAdmission * A) s :
  (∀ a T, rtc (any_step cap) (mkSys a T) (mkSys (f a).1 T)) → rtc (any_step cap) s.1 (locked others f s).1.1.
Proof.
  intros Hf. destruct s as [s t]. unfold locked. cbn. pose proof (others_ok t s) as Ho.
  specialize (Hf (sy_adm (others t s)) (sy_tasks (others t s))).
  destruct (f (sy_adm (others t s))) as [a r] eqn:E. cbn in *.
  etrans; [exact Ho|]. by destruct (others t s).
Qed.

Lemma admit_steps s : rtc (any_step cap) s.1 (try_admit cap others s).1.1.
Proof.
  destruct s as [s t]. unfold try_admit, locked. cbn. pose proof (others_ok t s) as Ho.
  destruct (admit_if_under_cap cap (sy_adm (others t s))) as [a [p|] ] eqn:E; cbn; etrans; [exact Ho| |exact Ho|].
  - apply rtc_once. exists None. destruct (others t s) as [a0 T]. by apply step_admit.
  - destruct (others t s) as [a0 T]. unfold admit_if_under_cap in E. cbn in *. destruct (_ <? _); by simplify_eq.
Qed.

Lemma is_empty_steps n s : rtc (any_step cap) s.1 (is_empty others stream n s).1.1.
Proof.
  destruct s as [[a T] t]. unfold is_empty. destruct (stream t n); [|done]. cbn [fst sy_adm sy_tasks].
  eapply rtc_l; [exists None; apply (step_hold cap a (Some n) T)|]. etrans; [apply (others_ok t)|]. apply rtc_once.
  exists None. destruct (others t _) as [a' T']. apply step_hold.
Qed.

Lemma scan_steps candidates r s : rtc (any_step cap) s.1 (scan_candidates cap others stream candidates r s).1.1.
Proof.
  revert r s. induction candidates as [|[id e] candidates IH]; intros r s0; cbn [scan_candidates]; [done|].
  pose proof (is_empty_steps (nd_permit e) s0) as H0. destruct (is_empty others stream (nd_permit e) s0) as [s [] ];
    cbn [fst] in H0; (etrans; [exact H0|]).
  - pose proof (locked_steps (try_evict_empty cap id) s (λ a T, rtc_once _ _ (ex_intro _ None (step_evict cap a id T)))) as H.
    destruct (locked others (try_evict_empty cap id) s) as [s' [tok|] ]; [done|]. etrans; [exact H|apply IH].
  - pose proof (locked_steps (λ a, (remove_stale_no_data id a, tt)) s (λ a T, rtc_once _ _ (ex_intro _ None (step_stale cap a id T)))) as H.
    destruct (locked others _ s) as [s' u]. etrans; [exact H|apply IH].
Qed.

Lemma passes_steps n s : rtc (any_step cap) s.1 (passes cap others stream n s).1.1.
Proof.
  revert s. induction n as [|n IH]; intros s; cbn [passes]; [done|].
  pose proof (locked_steps (λ a, (a, eviction_candidates cap a)) s ltac:(done)) as H1.
  destruct (locked others _ s) as [s1 candidates]. pose proof (scan_steps candidates false s1) as H2.
  destruct (scan_candidates _ _ _ _ _ s1) as [s2 [tok r] ]. cbn [fst] in *. destruct (_ || _); [by etrans|].
  pose proof (admit_steps s2) as H3. destruct (try_admit cap others s2) as [s3 [p|] ]; cbn [fst] in *.
  - by repeat (etrans; [eassumption|]).
  - etrans; [exact H1|]. etrans; [exact H2|]. etrans; [exact H3|apply IH].
Qed.

Lemma admit_or_evict_steps s : rtc (any_step cap) s.1 (admit_or_evict_empty cap others stream s).1.1.
Proof.
  unfold admit_or_evict_empty. pose proof (admit_steps s) as H1. destruct (try_admit cap others s) as [s1 [p|] ]; [done|].
  pose proof (passes_steps EMPTY_EVICTION_SCAN_PASSES s1) as H2.
  destruct (passes _ _ _ _ s1) as [s2 [tok p] ]. cbn [fst] in *.
  assert (∀ s3 : Acceptor, rtc (any_step cap) s2.1 s3.1 →
    rtc (any_step cap) s.1 (match tok with Some token => (mkSys (cancel token (sy_adm s3.1)) (sy_tasks s3.1), s3.2) | None => s3 end).1)
    as Hend.
  { intros s3 H3. etrans; [exact H1|]. etrans; [exact H2|]. etrans; [exact H3|]. destruct tok; [|done].
    apply rtc_once. exists None. destruct s3 as [[a T] t]. apply step_cancel. }
  destruct p as [p|]; [by apply Hend|]. pose proof (admit_steps s2) as H3.
  destruct (try_admit cap others s2) as [s3 p]. by apply Hend.
Qed.
End Guarantee.

(** ** The acceptor alone *)
Section Alone.
Context (cap : Z) (look : Z → option bool).

Abbreviation alone := (λ (_ : Z) (s : Sys), s).
Abbreviation probe := (λ (_ : Z) (n : Z), look n).
(** The connection of permit [n] is open and silent. *)
Definition silent (n : Z) : bool := bool_decide (look n = Some true).
Abbreviation em := silent.

Lemma is_empty_alone a T t n :
  ad_probed a = None → ∃ t', is_empty alone probe n (mkSys a T, t) = ((mkSys a T, t'), em n).
Proof.
  intros Hp. unfold is_empty, silent. destruct (look n) as [[]|].
  - exists (t + 1). rewrite bool_decide_true by done. repeat f_equal. destruct a; cbn in *. by subst.
  - exists (t + 1). rewrite bool_decide_false by done. repeat f_equal. destruct a; cbn in *. by subst.
  - exists t. by rewrite bool_decide_false.
Qed.

(** [a'] is [a] with the queue [l]. *)
Definition requeued (a : TcpAdmission) (l : list (Z * Z)) (a' : TcpAdmission) : Prop :=
  queue_of a' l ∧ ∃ m h t, a' = put_no_data m h t a.

Lemma requeued_refl a l : queue_of a l → requeued a l a.
Proof. split; [done|]. exists (ad_no_data a), (ad_no_data_head a), (ad_no_data_tail a). by destruct a. Qed.

Lemma requeued_trans a l1 a1 l2 a2 : requeued a l1 a1 → requeued a1 l2 a2 → requeued a l2 a2.
Proof. intros [_ (m & h & t & ->)] [H (m' & h' & t' & ->)]. split; [done|]. by exists m', h', t'. Qed.

Lemma dequeue_head id n l a : queue_of a ((id, n) :: l) → dequeue id ((id, n) :: l) = l.
Proof. intros [Hn _ _ _]. by apply (dequeue_split []). Qed.

Lemma stale_alone a id n l :
  queue_of a ((id, n) :: l) → requeued a l (remove_stale_no_data id a).
Proof.
  intros Hq. destruct (queue_remove a _ id Hq) as (m & h & t & E & Hq'). unfold remove_stale_no_data. rewrite E.
  rewrite (dequeue_head id n l a Hq) in Hq'. split; [done|]. by exists m, h, t.
Qed.

(** [a'] is [a] with the permit [n] taken away. *)
Definition taken (n : Z) (a : TcpAdmission) : TcpAdmission := put_active (ad_active a - 1) (release n a).

Lemma evict_alone a id n l :
  queue_of a ((id, n) :: l) → cap ≤ ad_active a → 0 < ad_active a → n ∉ ad_released a →
  ∃ a', requeued a l a' ∧ try_evict_empty cap id a = (taken n a', Some n).
Proof.
  intros Hq Hc Hp Hn. destruct (queue_remove a _ id Hq) as (m & h & t & E & Hq'). unfold try_evict_empty.
  destruct (Z.ltb_spec (ad_active a) cap); [lia|]. rewrite E.
  pose proof (proj1 (queue_elem a _ id n Hq) ltac:(left)) as He.
  destruct (ad_no_data a !! id) as [e|]; [|done]. injection He as He. rewrite He.
  unfold released. rewrite bool_decide_false by done. rewrite (dequeue_head id n l a Hq) in Hq'.
  exists (put_no_data m h t a). split; [split; [done|by exists m, h, t]|].
  unfold taken. cbn [put_no_data ad_active]. by replace (saturating_sub (ad_active a) 1) with (ad_active a - 1) by (unfold saturating_sub; lia).
Qed.

(** A scan takes the permit of the first empty candidate, and takes those
    before it off the queue. *)
Lemma scan_alone candidates l a T r t :
  queue_of a ((id_permit <$> candidates) ++ l) → cap ≤ ad_active a → (∀ e, e ∈ candidates → 0 < ad_active a) → ad_probed a = None →
  Forall (λ e, e.2 ∉ ad_released a) (id_permit <$> candidates) →
  ∃ s', (scan_candidates cap alone probe candidates r (mkSys a T, t)).1.1 = s' ∧ sy_tasks s' = T ∧
  ((∃ c1 id n c2 a' r', id_permit <$> candidates = c1 ++ (id, n) :: c2 ∧ Forall (λ e, em e.2 = false) c1 ∧ em n = true ∧
      requeued a (c2 ++ l) a' ∧ sy_adm s' = taken n a' ∧
      (scan_candidates cap alone probe candidates r (mkSys a T, t)).2 = (Some n, r')) ∨
   (Forall (λ e, em e.2 = false) (id_permit <$> candidates) ∧ requeued a l (sy_adm s') ∧
      (scan_candidates cap alone probe candidates r (mkSys a T, t)).2 =
        (None, r || negb (bool_decide (candidates = []))))).
Proof.
  revert a r t. induction candidates as [|[id e] candidates IH]; intros a r t Hq Hc Hp Hpr Hrel.
  { eexists. split; [done|]. split; [done|]. right. split_and!; [constructor|by apply requeued_refl|]. by destruct r. }
  rewrite fmap_cons in *. apply Forall_cons_1 in Hrel as [Hn Hrel]. cbn [id_permit fst snd] in *.
  cbn [scan_candidates snd]. destruct (is_empty_alone a T t (nd_permit e) Hpr) as [t1 ->].
  destruct (em (nd_permit e)) eqn:Hem.
  - destruct (evict_alone a id (nd_permit e) _ Hq Hc (Hp (id, e) ltac:(left)) Hn) as (a' & Hr & E). unfold locked. cbn [sy_adm sy_tasks]. rewrite E.
    eexists. split; [done|]. split; [done|]. left.
    exists [], id, (nd_permit e), (id_permit <$> candidates), a', r. split_and!; done.
  - pose proof (stale_alone a id (nd_permit e) _ Hq) as Hr. unfold locked. cbn [sy_adm sy_tasks].
    destruct Hr as [Hq' (m & h & tl & Ea)].
    destruct (IH (remove_stale_no_data id a) true (t1 + 1) Hq') as (s' & <- & HT & Hcase);
      [by rewrite Ea|rewrite Ea; intros e' He'; apply (Hp e'); by right|by rewrite Ea|by rewrite Ea|].
    eexists. split; [done|]. split; [done|].
    assert (∀ l' a', requeued (remove_stale_no_data id a) l' a' → requeued a l' a') as Htr.
    { intros l' a'. apply requeued_trans with (l1 := (id_permit <$> candidates) ++ l). split; [done|]. by exists m, h, tl. }
    destruct Hcase as [(c1 & id' & n & c2 & a' & r' & E & Hc1 & Hn' & Hr' & Hs & Ho)|(Hall & Hr' & Ho)]; [left|right].
    + exists ((id, nd_permit e) :: c1), id', n, c2, a', r'. rewrite E. split_and!; auto.
    + split_and!; [by constructor|auto|]. rewrite Ho. by destruct r.
Qed.

Lemma admit_full a T t : cap ≤ ad_active a → try_admit cap alone (mkSys a T, t) = ((mkSys a T, t + 1), None).
Proof.
  intros Hc. unfold try_admit, locked, admit_if_under_cap. cbn [sy_adm sy_tasks].
  by destruct (Z.ltb_spec (ad_active a) cap); [lia|].
Qed.

Lemma admit_room a T t :
  ad_active a < cap →
  ∃ a', admit_locked a = (a', mkPermit (ad_next_id a) (ad_made a)) ∧
    try_admit cap alone (mkSys a T, t) =
      ((mkSys a' (<[ad_made a := (mkPermit (ad_next_id a) (ad_made a), Fresh)]> T), t + 1),
       Some (mkPermit (ad_next_id a) (ad_made a))).
Proof.
  intros Hc. eexists. split; [done|]. unfold try_admit, locked, admit_if_under_cap. cbn [sy_adm sy_tasks].
  by destruct (Z.ltb_spec (ad_active a) cap); [|lia].
Qed.

(** What the passes leave: the permit of the first empty entry within reach is
    taken, or all entries within reach are off the queue. *)
Definition passed (reach : nat) (a : TcpAdmission) (l : list (Z * Z)) (a' : TcpAdmission) (token : option Z) : Prop :=
  (∃ l1 id n l2 b, l = l1 ++ (id, n) :: l2 ∧ (length l1 < reach)%nat ∧ Forall (λ e, em e.2 = false) l1 ∧ em n = true ∧
     requeued a l2 b ∧ a' = taken n b ∧ token = Some n) ∨
  (Forall (λ e, em e.2 = false) (take reach l) ∧ requeued a (drop reach l) a' ∧ token = None).

Lemma passes_alone k a T t l :
  queue_of a l → cap ≤ ad_active a → (∀ e, e ∈ l → 0 < ad_active a) → ad_probed a = None → Forall (λ e, e.2 ∉ ad_released a) l →
  ∃ a' t' token, passes cap alone probe k (mkSys a T, t) = ((mkSys a' T, t'), (token, None)) ∧
    passed (k * EMPTY_EVICTION_SCAN_LIMIT) a l a' token.
Proof.
  revert a t l. induction k as [|k IH]; intros a t l Hq Hc Hp Hpr Hrel.
  { exists a, t, None. split; [done|]. right. split_and!; [constructor|by apply requeued_refl|done]. }
  cbn [passes]. unfold locked. cbn [sy_adm sy_tasks]. set (cs := eviction_candidates cap a).
  assert (id_permit <$> cs = take EMPTY_EVICTION_SCAN_LIMIT l) as Ecs by (by apply candidates_queue).
  rewrite <- (take_drop EMPTY_EVICTION_SCAN_LIMIT l), <- Ecs in Hq.
  destruct (scan_alone cs (drop EMPTY_EVICTION_SCAN_LIMIT l) a T false (t + 1) Hq Hc) as (s' & E1 & HT & Hcase).
  { intros e He. apply (Hp (id_permit e)). eapply elem_of_sublist; [|apply (sublist_take l EMPTY_EVICTION_SCAN_LIMIT)].
    rewrite <- Ecs. by apply list_elem_of_fmap_2. }
  { done. }
  { rewrite Ecs. by apply Forall_take. }
  destruct (scan_candidates cap alone probe cs false _) as [[s1 t1] out]. cbn [fst snd] in *. subst s1.
  destruct s' as [a' T']. cbn [sy_adm sy_tasks] in *. subst T'. rewrite Ecs in *.
  assert (EMPTY_EVICTION_SCAN_LIMIT = 32%nat) as E32 by done.
  destruct Hcase as [(c1 & id & n & c2 & b & r' & El & Hc1 & Hn & Hr & -> & ->)|(Hall & Hr & ->)].
  - rewrite bool_decide_true by (by eexists). cbn [orb]. exists (taken n b), t1, (Some n). split; [done|]. left.
    exists c1, id, n, (c2 ++ drop EMPTY_EVICTION_SCAN_LIMIT l), b. split_and!; try done.
    + by rewrite app_comm_cons, app_assoc, <- El, take_drop.
    + assert (length c1 < length (take EMPTY_EVICTION_SCAN_LIMIT l))%nat by (rewrite El, length_app; cbn; lia).
      rewrite length_take in *. lia.
  - rewrite bool_decide_false by (by intros [? [=]]). cbn [orb].
    destruct (decide (cs = [])) as [Ee|Hne].
    + rewrite bool_decide_true by done. cbn [negb]. exists a', t1, None. split; [done|]. right.
      assert (l = []) as -> by (rewrite Ee in Ecs; rewrite E32 in Ecs; by destruct l).
      rewrite take_nil, drop_nil in *. split_and!; [constructor|done|done].
    + rewrite bool_decide_false by done. cbn [negb]. pose proof Hr as [Hq' (m & h & tl & ->)].
      rewrite admit_full by done.
      destruct (IH _ (t1 + 1) _ Hq' Hc) as (b & t2 & token & -> & Hb); [|done|by apply Forall_drop|].
      { intros e He. apply (Hp e). eapply elem_of_sublist; [exact He|apply sublist_drop]. }
      exists b, t2, token. split; [done|].
      destruct Hb as [(l1 & id & n & l2 & b' & El & Hl & Hl1 & Hn & Hr' & -> & ->)|(Hl & Hr' & ->)]; [left|right].
      * exists (take EMPTY_EVICTION_SCAN_LIMIT l ++ l1), id, n, l2, b'. split_and!; try done.
        -- by rewrite <- app_assoc, <- El, take_drop.
        -- rewrite length_app, length_take. lia.
        -- by apply Forall_app.
      * split_and!; [|rewrite drop_drop in Hr'; exact (requeued_trans _ _ _ _ _ Hr Hr')|done].
        change (S k * EMPTY_EVICTION_SCAN_LIMIT)%nat with (EMPTY_EVICTION_SCAN_LIMIT + k * EMPTY_EVICTION_SCAN_LIMIT)%nat.
        rewrite <- take_take_drop. by apply Forall_app.
Qed.
End Alone.

(** What the slots become. *)
Lemma slots_rel a b T : ad_released a = ad_released b → slots (mkSys a T) = slots (mkSys b T).
Proof. unfold slots. by intros E; cbn; rewrite E. Qed.

Lemma slots_admitted a T n p :
  T !! n = None → n ∉ ad_released a → slots (mkSys a (<[n := (p, Fresh)]> T)) = {[ n ]} ∪ slots (mkSys a T).
Proof.
  intros HT Hr. apply set_eq. intros k. rewrite elem_of_union, elem_of_singleton, !elem_of_slots. cbn [sy_adm sy_tasks].
  destruct (decide (k = n)) as [->|]; [|rewrite lookup_insert_ne by done; naive_solver].
  rewrite lookup_insert_eq. naive_solver.
Qed.

Lemma slots_taken a T n :
  (∀ p, T !! n ≠ Some (p, Dropping)) → slots (mkSys (taken n a) T) = slots (mkSys a T) ∖ {[ n ]}.
Proof.
  intros HT. apply set_eq. intros k. rewrite elem_of_difference, not_elem_of_singleton, !elem_of_slots.
  cbn [sy_adm sy_tasks taken put_active release ad_released]. split.
  - intros (p & pc & Hk & Hh). split; [exists p, pc; split; [done|set_solver]|].
    intros ->. destruct pc; [set_solver..|]. by destruct (HT p).
  - intros [(p & pc & Hk & Hh) Hne]. exists p, pc. split; [done|set_solver].
Qed.

Section AcceptorResult.
Context (cap : Z) (look : Z → option bool) (a : TcpAdmission) (T : gmap Z (TcpAdmissionPermit * task_pc)) (l : list (Z * Z)).
Context (Hinv : adm_inv cap (mkSys a T)) (Hq : queue_of a l) (Hdrop : ∀ n p, T !! n ≠ Some (p, Dropping)).
Context (Hprobed : ad_probed a = None).
Abbreviation em := (silent look).

Lemma made_fresh : T !! ad_made a = None ∧ ad_made a ∉ ad_released a.
Proof using Hinv.
  clear Hdrop Hprobed look. destruct Hinv as [_ Ht Hr _ _ _]. cbn [sy_adm sy_tasks] in *. split.
  - destruct (T !! ad_made a) as [[p pc]|] eqn:E; [|done]. destruct (Ht _ _ _ E) as (_ & ? & _). lia.
  - intros H%Hr. lia.
Qed.

(** Two lists that represent the same state are the same. *)
Lemma queue_entries e : e ∈ l → e.2 ∉ ad_released a ∧ 0 < ad_active a.
Proof using Hinv Hq Hdrop.
  clear Hprobed look. intros He. destruct e as [id n]. pose proof Hinv as [_ _ _ (l' & Hq' & Hl') Ha _]. cbn [sy_adm sy_tasks snd] in *.
  assert ((id, n) ∈ l') as Hin by (apply (queue_elem a l'); [done|]; by apply (queue_elem a l)).
  destruct (Hl' _ _ Hin) as [_ (p & pc & Hp & Hh)].
  assert (pc ≠ Dropping) as Hpc by (intros ->; by destruct (Hdrop n p)). split; [auto|].
  assert (n ∈ slots (mkSys a T)) as Hs by (apply elem_of_slots; by exists p, pc).
  rewrite Ha. enough (size (slots (mkSys a T)) ≠ 0%nat) by lia. intros E%size_empty_inv. set_solver.
Qed.

Lemma admission_room t :
  ad_active a < cap →
  ∃ s t', admit_or_evict_empty cap (λ _ s, s) (λ _ n, look n) (mkSys a T, t) =
      ((s, t'), mkAttempt (Some (mkPermit (ad_next_id a) (ad_made a))) false) ∧
    queue_of (sy_adm s) l ∧ slots s = {[ ad_made a ]} ∪ slots (mkSys a T).
Proof using look Hinv Hq.
  intros Hc. unfold admit_or_evict_empty. destruct (admit_room cap a T t Hc) as (a' & E & ->).
  destruct made_fresh as [HT Hr]. injection E as <-. do 2 eexists. split; [done|]. split; [by destruct Hq|].
  rewrite slots_admitted by done. f_equal.
Qed.

Lemma admission_full t :
  ad_active a = cap →
  ∃ s t' r, admit_or_evict_empty cap (λ _ s, s) (λ _ n, look n) (mkSys a T, t) = ((s, t'), r) ∧
  ((∃ l1 id n l2, l = l1 ++ (id, n) :: l2 ∧ (length l1 < 64)%nat ∧ Forall (λ e, em e.2 = false) l1 ∧ em n = true ∧
      r = mkAttempt (Some (mkPermit (ad_next_id a) (ad_made a))) true ∧ queue_of (sy_adm s) l2 ∧
      ad_cancelled (sy_adm s) = {[ n ]} ∪ ad_cancelled a ∧
      slots s = {[ ad_made a ]} ∪ slots (mkSys a T) ∖ {[ n ]}) ∨
   (Forall (λ e, em e.2 = false) (take 64 l) ∧ r = mkAttempt None false ∧ queue_of (sy_adm s) (drop 64 l) ∧
      slots s = slots (mkSys a T))).
Proof using look Hinv Hq Hdrop Hprobed.
  intros Hc. unfold admit_or_evict_empty. rewrite admit_full by lia.
  destruct (passes_alone cap look EMPTY_EVICTION_SCAN_PASSES a T (t + 1) l Hq ltac:(lia)) as (a' & t' & token & -> & Hp).
  { intros e He. exact (proj2 (queue_entries e He)). }
  { done. }
  { apply List.Forall_forall. intros e He%list_elem_of_In. exact (proj1 (queue_entries e He)). }
  change (EMPTY_EVICTION_SCAN_PASSES * EMPTY_EVICTION_SCAN_LIMIT)%nat with 64%nat in Hp.
  destruct Hp as [(l1 & id & n & l2 & b & El & Hl1 & Hem & Hn & [Hqb (m & h & tl & ->)] & -> & ->)|(Hem & [Hqb (m & h & tl & ->)] & ->)].
  - destruct (admit_room cap (taken n (put_no_data m h tl a)) T t') as (c & E & ->); [cbn; lia|].
    destruct made_fresh as [HT Hr]. injection E as <-. do 3 eexists. split; [done|]. left.
    exists l1, id, n, l2. split_and!; try done; [by destruct Hqb|].
    cbn [ad_made ad_next_id taken put_active release put_no_data cancel sy_adm sy_tasks fst].
    assert (ad_made a ≠ n) as Hne.
    { assert ((id, n) ∈ l) as [_ Hpos]%queue_entries by (rewrite El; set_solver). intros <-.
      assert ((id, ad_made a) ∈ l) as Hin by (rewrite El; set_solver).
      pose proof Hinv as [_ _ _ (l' & Hq' & Hl') _ _]. cbn [sy_adm sy_tasks] in *.
      apply (queue_elem a l) in Hin; [|done]. apply (queue_elem a l') in Hin; [|done].
      apply Hl' in Hin as [_ (p & pc & Hp & _)]. congruence. }
    etrans; [apply slots_admitted; [done|cbn; set_solver]|]. f_equal.
    etrans; [apply (slots_rel _ (taken n a)); done|]. by apply slots_taken.
  - rewrite admit_full by (cbn; lia). do 3 eexists. split; [done|]. right. split_and!; try done.
Qed.
End AcceptorResult.

(** The first silent entry is determined. *)
Lemma first_unique (em : Z → bool) (l1 : list (Z * Z)) id n l2 (k1 : list (Z * Z)) id' n' k2 :
  l1 ++ (id, n) :: l2 = k1 ++ (id', n') :: k2 → Forall (λ e, em e.2 = false) l1 → em n = true →
  Forall (λ e, em e.2 = false) k1 → em n' = true → l1 = k1 ∧ n = n' ∧ l2 = k2.
Proof.
  revert k1. induction l1 as [|[i x] l1 IH]; intros [|[j y] k1] E Hl Hn Hk Hn'; cbn in E; simplify_eq.
  - done.
  - apply Forall_cons_1 in Hk as [Hk _]. cbn in Hk. congruence.
  - apply Forall_cons_1 in Hl as [Hl _]. cbn in Hl. congruence.
  - apply Forall_cons_1 in Hl as [_ Hl]. apply Forall_cons_1 in Hk as [_ Hk].
    edestruct (IH k1) as (-> & -> & ->); done.
Qed.

(** ** Theorems *)


(** What the acceptor does for a new connection, when no task interferes:
    with room it admits it.  At the limit it looks at the queue of silent
    connections, oldest first and at most 64 of them, and ends the first one
    that is still silent, in whose place the new connection is admitted; those
    before it are taken off the queue.  Only when none of the 64 is silent the
    new connection is refused. *)
Theorem admission_evicts_oldest_silent cap look a T l :
  adm_inv cap (mkSys a T) → queue_of a l → (∀ n p, T !! n ≠ Some (p, Dropping)) → ad_probed a = None →
  let '((s, _), r) := admit_or_evict_empty cap (λ _ s, s) (λ _ n, look n) (mkSys a T, 0) in
  let p := mkPermit (ad_next_id a) (ad_made a) in
  (ad_active a < cap → r = mkAttempt (Some p) false ∧ queue_of (sy_adm s) l ∧ slots s = {[ pm_num p ]} ∪ slots (mkSys a T)) ∧
  (∀ (l1 : list (Z * Z)) id n l2, ad_active a = cap → l = l1 ++ (id, n) :: l2 → (length l1 < 64)%nat → Forall (λ e, silent look e.2 = false) l1 →
     silent look n = true →
     r = mkAttempt (Some p) true ∧ queue_of (sy_adm s) l2 ∧ ad_cancelled (sy_adm s) = {[ n ]} ∪ ad_cancelled a ∧
     slots s = {[ pm_num p ]} ∪ slots (mkSys a T) ∖ {[ n ]}) ∧
  (ad_active a = cap → Forall (λ e, silent look e.2 = false) (take 64 l) →
     r = mkAttempt None false ∧ queue_of (sy_adm s) (drop 64 l) ∧ slots s = slots (mkSys a T)).
Proof.
  intros Hinv Hq Hdrop Hpr. destruct (decide (ad_active a < cap)) as [Hlt|Hge].
  { destruct (admission_room cap look a T l Hinv Hq 0 Hlt) as (s & t' & -> & H1 & H2).
    split_and!; [done| |]; intros; lia. }
  assert (ad_active a ≤ cap) as Hle by apply Hinv.
  destruct (admission_full cap look a T l Hinv Hq Hdrop Hpr 0 ltac:(lia)) as (s & t' & r & -> & Hcase).
  split_and!; [lia|..].
  - intros l1 id n l2 _ El Hlen Hl1 Hn.
    destruct Hcase as [(k1 & id' & n' & k2 & Ek & _ & Hk1 & Hn' & H)|(Hall & _)].
    + destruct (first_unique (silent look) l1 id n l2 k1 id' n' k2) as (-> & -> & ->); [by rewrite <- El|done..].
    + exfalso. rewrite El, take_app_ge in Hall by lia. apply Forall_app in Hall as [_ Hall].
      destruct (64 - length l1)%nat eqn:E; [lia|]. cbn in Hall. apply Forall_cons_1 in Hall as [Hf _]. cbn in Hf. congruence.
  - intros _ Hall. destruct Hcase as [(k1 & id' & n' & k2 & Ek & Hlen & _ & Hn' & H)|(_ & H)]; [|done].
    exfalso. rewrite Ek, take_app_ge in Hall by lia. apply Forall_app in Hall as [_ Hall].
    destruct (64 - length k1)%nat eqn:E; [lia|]. cbn in Hall. apply Forall_cons_1 in Hall as [Hf _]. cbn in Hf. congruence.
Qed.

(** ** Witnesses *)
Module AdmissionDemo.
(** A limit of two, two silent connections that registered. *)
Definition run (s : Acceptor) : Acceptor := (admit_or_evict_empty 2 (λ _ s, s) (λ _ _, Some true) s).1.
Definition one : Sys := (run (Sys_new, 0)).1.
Definition two : Sys :=
  let a := (mark_no_data (mkPermit 0 0) (sy_adm one)).1 in (run (mkSys a (sy_tasks one), 0)).1.
Definition full : Sys := mkSys (mark_no_data (mkPermit 1 1) (sy_adm two)).1 (sy_tasks two).

Lemma full_reachable : rtc (any_step 2) Sys_new full.
Proof.
  assert (∀ s, rtc (any_step 2) s.1 (run s).1) as Hrun by (intros s; by apply admit_or_evict_steps).
  etrans; [apply (Hrun (Sys_new, 0))|]. fold one.
  eapply rtc_l; [exists None; apply (step_register 2 (sy_adm one) (sy_tasks one) 0 (mkPermit 0 0)); vm_compute; reflexivity|].
  etrans; [apply (Hrun (mkSys (mark_no_data (mkPermit 0 0) (sy_adm one)).1 (sy_tasks one), 0))|]. fold two.
  apply rtc_once. exists None. apply (step_register 2 (sy_adm two) (sy_tasks two) 1 (mkPermit 1 1)). vm_compute. reflexivity.
Qed.
End AdmissionDemo.

Section AdmissionWitnesses.
Import AdmissionDemo.


End AdmissionWitnesses.
