(* ===== verification/TcpFront.v ===== *)
(** * The TCP front door ([slt-server/src/tcp/{mod,classification,stream_io}.rs])

    A connection that got a permit is classified by a task of its own, which
    peeks at the stream until the classifier decides or the time is up, and
    is then handed to the VPN server, proxied to the web server, or dropped.
    Over the limit a connection is taken only when a complete claim has
    already arrived.

    Tasks and acceptor share the state of TcpAdmission.v; what the others do
    between two steps of a program, what arrives and how time passes are the
    answers of its environment.  Times are in nanoseconds. *)

From stdpp Require Import base tactics option list numbers gmap sets.
From Stdlib Require Import ZArith Lia.
From S2P Require Import Prelude Effects Keys ClientHello Classifier UdpIo Config TcpAdmission.

Definition PEEK_LEN : Z := MAX_TCP_CLIENT_HELLO_WIRE_LEN.
Definition CLASSIFY_RETRY_DELAY : Z := from_millis 5.
Definition CLASSIFY_STABLE_RETRY_MAX_DELAY : Z := from_secs 1.

Inductive ClassificationOutcome := OutVerdict (v : Verdict) | Evicted.

(** What a task does with its connection. *)
Inductive tcp_action :=
  | TClaimed
  | TPassed (proxy : io_result unit)
  | TDropped
  | TTimeout.

(** [stream_has_no_buffered_data], of the result of a peek for one byte. *)
Definition no_buffered_data (r : io_result Z) : bool :=
  match r with inl n => n =? 0 | inr e => bool_decide (e = WouldBlock) end.

(** The delay before the next look at an incomplete ClientHello. *)
Definition next_incomplete_retry_delay (last : option Z) (delay bytes_peeked : Z) : option Z * Z * Z :=
  if bool_decide (last = Some bytes_peeked) then
    let delay := Z.min (delay * 2) CLASSIFY_STABLE_RETRY_MAX_DELAY in (last, delay, delay)
  else (Some bytes_peeked, CLASSIFY_RETRY_DELAY, CLASSIFY_RETRY_DELAY).

(** How the wait of [peek_with_deadline] for data ends, unless the task is told
    to end first. *)
Inductive PeekEnd := PeekData (buf : bytes) | PeekErr (e : IoError) | PeekTimeout.

(** ** Environment of a task *)
Record TaskEnv := mkTaskEnv {
  te_others : Z → Sys → Sys;
  te_lag : Z → N;
  te_buffered : Z → io_result Z;
  te_peek : Z → PeekEnd;
  te_notices : Z → bool;
  te_proxy : Z → io_result unit;
}.

(** [tk_tick] numbers the questions to the environment. *)
Record Task := mkTask { tk_sys : Sys; tk_clock : Z; tk_tick : Z; tk_trace : list tcp_action }.

Section Task.
Context `{B : Boring} (env : TaskEnv).

Abbreviation M := (eff Task IoError).

Definition ask {A} (f : Z → A) : M A := λ s,
  (mkTask (tk_sys s) (tk_clock s) (tk_tick s + 1) (tk_trace s), ORet (f (tk_tick s))).
Definition log (a : tcp_action) : M unit :=
  modify (λ s, mkTask (tk_sys s) (tk_clock s) (tk_tick s) (a :: tk_trace s)).

(** A section under the lock, or an access to a flag. *)
Definition atomic {A} (f : Sys → Sys * A) : M A := λ s,
  let '(sys, r) := f (te_others env (tk_tick s) (tk_sys s)) in
  (mkTask sys (tk_clock s) (tk_tick s + 1) (tk_trace s), ORet r).
Definition on_adm {A} (f : TcpAdmission → TcpAdmission * A) : M A :=
  atomic (λ s, let '(a, r) := f (sy_adm s) in (mkSys a (sy_tasks s), r)).
Definition look {A} (f : TcpAdmission → A) : M A := on_adm (λ a, (a, f a)).

(** [Instant::now] and [sleep]. *)
Definition now : M Z := λ s,
  let t := tk_clock s + Z.of_N (te_lag env (tk_tick s)) in
  (mkTask (tk_sys s) t (tk_tick s + 1) (tk_trace s), ORet t).
Definition sleep (wait : Z) : M unit :=
  modify (λ s, mkTask (tk_sys s) (tk_clock s + wait) (tk_tick s) (tk_trace s)).

Definition mark_no_data_if_empty (permit : TcpAdmissionPermit) : M bool :=
  r ← ask (te_buffered env);
  if no_buffered_data r then on_adm (mark_no_data permit) else on_adm (mark_data_seen permit).

(** The branch of a [select!] on [permit.cancel.cancelled()]: it may be taken
    once the token is cancelled. *)
Definition told (permit : TcpAdmissionPermit) : M bool :=
  c ← look (λ a, bool_decide (pm_num permit ∈ ad_cancelled a));
  b ← ask (te_notices env);
  mret (c && b).

(** [Err outcome] as in the source's [io::Result<Result<usize, _>>]. *)
Definition peek_with_deadline (permit : TcpAdmissionPermit) : M (bytes + ClassificationOutcome) :=
  t ← told permit;
  if (t : bool) then mret (inr Evicted) else
  p ← ask (te_peek env);
  match p with
  | PeekData buf => mret (inl (take (Z.to_nat PEEK_LEN) buf))
  | PeekErr e => fail e
  | PeekTimeout => mret (inr (OutVerdict Incomplete))
  end.

(** A turn of [classify_stream_inner] from the peeked bytes on: the outcome, or
    the values of [last_incomplete_len] and [incomplete_retry_delay] for the
    next turn. *)
Definition examine (permit : TcpAdmissionPermit) (server_secret : bytes) (deadline : Z) (data_seen : bool)
    (last_incomplete_len : option Z) (incomplete_retry_delay : Z) (buf : bytes)
    : M (ClassificationOutcome + option Z * Z) :=
  r ← look (is_released permit);
  if (r : bool) then mret (inl Evicted) else
  let n := zlen buf in
  if n =? 0 then mret (inl (OutVerdict Drop)) else
  seen ← (if data_seen then mret true else on_adm (mark_data_seen permit));
  if negb seen then mret (inl Evicted) else
  match classify_tcp_client_hello buf server_secret with
  | Ok Incomplete =>
      let '(last, delay, retry_delay) := next_incomplete_retry_delay last_incomplete_len incomplete_retry_delay n in
      t ← now;
      let wait := Z.min retry_delay (saturating_sub deadline t) in
      if wait =? 0 then mret (inr (last, delay)) else
      c ← told permit;
      if (c : bool) then mret (inl Evicted) else
      _ ← sleep wait;
      mret (inr (last, delay))
  | Ok verdict => mret (inl (OutVerdict verdict))
  | _ => panic
  end.

(** The loop of [classify_stream_inner] for an admitted stream; [None] when the
    fuel is used up. *)
Fixpoint classify_loop (fuel : nat) (permit : TcpAdmissionPermit) (server_secret : bytes) (deadline : Z)
    (data_seen : bool) (last_incomplete_len : option Z) (incomplete_retry_delay : Z) : M (option ClassificationOutcome) :=
  match fuel with
  | O => mret None
  | S fuel =>
      r ← look (is_released permit);
      if (r : bool) then mret (Some Evicted) else
      t ← now;
      if deadline <=? t then mret (Some (OutVerdict Incomplete)) else
      marked ← (if data_seen then mret true else mark_no_data_if_empty permit);
      if negb marked then mret (Some Evicted) else
      p ← peek_with_deadline permit;
      match p with
      | inr outcome => mret (Some outcome)
      | inl buf =>
          e ← examine permit server_secret deadline data_seen last_incomplete_len incomplete_retry_delay buf;
          match e with
          | inl outcome => mret (Some outcome)
          | inr (last, delay) => classify_loop fuel permit server_secret deadline true last delay
          end
      end
  end.

(** Enough turns: each but the last two waits for [CLASSIFY_RETRY_DELAY]. *)
Definition classify_fuel (classification_timeout : Z) : nat :=
  Z.to_nat (classification_timeout / CLASSIFY_RETRY_DELAY) + 3.

Definition classify_admitted_stream (permit : TcpAdmissionPermit) (server_secret : bytes) (classification_timeout : Z)
    : M (option ClassificationOutcome) :=
  t ← now;
  classify_loop (classify_fuel classification_timeout) permit server_secret (t + classification_timeout) false None
    CLASSIFY_RETRY_DELAY.

(** ** After the classification *)

(** [drop(permit)] *)
Definition drop_permit (permit : TcpAdmissionPermit) : M unit :=
  was ← atomic (λ s,
    let '(a, was) := drop_swap permit (sy_adm s) in
    (mkSys a (if was then delete (pm_num permit) (sy_tasks s) else <[pm_num permit := (permit, Dropping)]> (sy_tasks s)), was));
  if (was : bool) then mret tt else
  atomic (λ s, (mkSys (drop_locked permit (sy_adm s)) (delete (pm_num permit) (sy_tasks s)), tt)).

(** [Arc::into_inner]: the stream, unless the acceptor holds it as well. *)
Definition into_inner (permit : TcpAdmissionPermit) : M bool :=
  look (λ a, negb (bool_decide (ad_probed a = Some (pm_num permit)))).

Definition handle_claimed_stream (permit : TcpAdmissionPermit) : M unit :=
  own ← into_inner permit;
  if (own : bool) then
    _ ← drop_permit permit;
    log TClaimed
  else
    _ ← log TDropped;
    drop_permit permit.

Definition handle_pass_stream (permit : TcpAdmissionPermit) : M unit :=
  own ← into_inner permit;
  if (own : bool) then
    p ← ask (te_proxy env);
    log (TPassed p)
  else log TDropped.

(** The body of [spawn_classification_task]; the permit is dropped at its end
    unless it was before. *)
Definition classification_task (permit : TcpAdmissionPermit) (server_secret : bytes) (classification_timeout : Z) : M unit :=
  outcome ← result (classify_admitted_stream permit server_secret classification_timeout);
  match outcome with
  | Ok (Some (OutVerdict Claim)) => handle_claimed_stream permit
  | Ok (Some (OutVerdict Pass)) => _ ← handle_pass_stream permit; drop_permit permit
  | Ok (Some (OutVerdict Drop)) => _ ← log TDropped; drop_permit permit
  | Ok (Some (OutVerdict Incomplete)) => _ ← log TTimeout; _ ← log TDropped; drop_permit permit
  | Ok (Some Evicted) => drop_permit permit
  | Err _ => _ ← log TDropped; drop_permit permit
  | Ok None | Panic => panic
  end.
End Task.

(** ** The acceptor *)

(** An accepted connection: its address, and what a peek for the whole buffer
    and a peek for one byte return. *)
Record Incoming := mkIncoming {
  in_addr : SocketAddr;
  in_peek : io_result bytes;
  in_buffered : io_result Z;
}.

Inductive door_action :=
  | DSpawned (addr : SocketAddr) (permit : TcpAdmissionPermit)
  | DAborted (addr : SocketAddr)
  | DFastClaim (addr : SocketAddr) (seen : bytes)
  | DCapDrop (addr : SocketAddr).

Record DoorMetrics := mkDoorMetrics {
  dm_tcp_accepted : Z;
  dm_tcp_empty_classification_evictions : Z;
  dm_tcp_frontdoor_cap_drops : Z;
  dm_dropped : Z;
  dm_claimed : Z;
}.
Definition inc_tcp_accepted (m : DoorMetrics) : DoorMetrics :=
  mkDoorMetrics (dm_tcp_accepted m + 1) (dm_tcp_empty_classification_evictions m) (dm_tcp_frontdoor_cap_drops m)
    (dm_dropped m) (dm_claimed m).
Definition inc_tcp_empty_classification_evictions (m : DoorMetrics) : DoorMetrics :=
  mkDoorMetrics (dm_tcp_accepted m) (dm_tcp_empty_classification_evictions m + 1) (dm_tcp_frontdoor_cap_drops m)
    (dm_dropped m) (dm_claimed m).
Definition inc_tcp_frontdoor_cap_drops (m : DoorMetrics) : DoorMetrics :=
  mkDoorMetrics (dm_tcp_accepted m) (dm_tcp_empty_classification_evictions m) (dm_tcp_frontdoor_cap_drops m + 1)
    (dm_dropped m) (dm_claimed m).
Definition inc_tcp_dropped (m : DoorMetrics) : DoorMetrics :=
  mkDoorMetrics (dm_tcp_accepted m) (dm_tcp_empty_classification_evictions m) (dm_tcp_frontdoor_cap_drops m)
    (dm_dropped m + 1) (dm_claimed m).
Definition inc_tcp_claimed (m : DoorMetrics) : DoorMetrics :=
  mkDoorMetrics (dm_tcp_accepted m) (dm_tcp_empty_classification_evictions m) (dm_tcp_frontdoor_cap_drops m)
    (dm_dropped m) (dm_claimed m + 1).

Record Door := mkDoor { dr_acc : Acceptor; dr_metrics : DoorMetrics; dr_trace : list door_action }.

Definition Door_new : Door := mkDoor (Sys_new, 0) (mkDoorMetrics 0 0 0 0 0) [].

Definition door_count (f : DoorMetrics → DoorMetrics) (d : Door) : Door := mkDoor (dr_acc d) (f (dr_metrics d)) (dr_trace d).
Definition door_log (x : door_action) (d : Door) : Door := mkDoor (dr_acc d) (dr_metrics d) (x :: dr_trace d).
Definition put_acc (a : Acceptor) (d : Door) : Door := mkDoor a (dr_metrics d) (dr_trace d).

Section Door.
Context `{B : Boring} (others : Z → Sys → Sys) (stream : Z → Z → option bool).

Definition classify_stream_fast (server_secret : bytes) (peek : io_result bytes) : res IoError Verdict :=
  match peek with
  | inl buf =>
      let buf := take (Z.to_nat PEEK_LEN) buf in
      if zlen buf =? 0 then Ok Drop else
      match classify_tcp_client_hello buf server_secret with Ok v => Ok v | _ => Panic end
  | inr e => if bool_decide (e = WouldBlock) then Ok Incomplete else Err e
  end.

Definition handle_over_cap_stream (server_secret : bytes) (conn : Incoming) (d : Door) : res unit Door :=
  match classify_stream_fast server_secret (in_peek conn) with
  | Ok Claim =>
      let seen := match in_peek conn with inl buf => buf | inr _ => [] end in
      Ok (door_log (DFastClaim (in_addr conn) seen) (door_count inc_tcp_claimed d))
  | Ok _ | Err _ =>
      Ok (door_log (DCapDrop (in_addr conn)) (door_count inc_tcp_dropped (door_count inc_tcp_frontdoor_cap_drops d)))
  | Panic => Panic
  end.

(** The drop of a permit by the acceptor itself. *)
Definition acceptor_drop (permit : TcpAdmissionPermit) (s : Acceptor) : Acceptor :=
  let n := pm_num permit in
  let '((s, t), was) := locked others (drop_swap permit) s in
  if (was : bool) then (mkSys (sy_adm s) (delete n (sy_tasks s)), t) else
  let '((s, t), _) := locked others (λ a, (drop_locked permit a, tt)) (s, t) in
  (mkSys (sy_adm s) (delete n (sy_tasks s)), t).

(** [tokio::spawn] of the classification task: the permit is the task's. *)
Definition spawn_task (permit : TcpAdmissionPermit) (s : Acceptor) : Acceptor :=
  (mkSys (sy_adm s.1) (<[pm_num permit := (permit, Held)]> (sy_tasks s.1)), s.2).

(** One turn of the loop of [TcpFrontDoor::run]. *)
Definition accept_connection (cap : Z) (server_secret : bytes) (conn : Incoming) (d : Door) : res unit Door :=
  let d := door_count inc_tcp_accepted d in
  let '(s, attempt) := admit_or_evict_empty cap others stream (dr_acc d) in
  let d := put_acc s d in
  let d := if at_evicted_empty attempt then door_count inc_tcp_dropped (door_count inc_tcp_empty_classification_evictions d) else d in
  match at_permit attempt with
  | None => handle_over_cap_stream server_secret conn d
  | Some permit =>
      let '(s, marked) :=
        locked others (if no_buffered_data (in_buffered conn) then mark_no_data permit else mark_data_seen permit) (dr_acc d) in
      if negb marked then Ok (door_log (DAborted (in_addr conn)) (put_acc (acceptor_drop permit s) d))
      else Ok (door_log (DSpawned (in_addr conn) permit) (put_acc (spawn_task permit s) d))
  end.

Inductive DoorEvent := DCancelled | DAccepted (conn : Incoming) | DAcceptFailed (e : IoError).

(** [TcpFrontDoor::run], until it returns or the events end. *)
Fixpoint TcpFrontDoor_run (cap : Z) (server_secret : bytes) (events : list DoorEvent) (d : Door)
    : res unit (Door * option (io_result unit)) :=
  match events with
  | [] => Ok (d, None)
  | DCancelled :: _ => Ok (d, Some (inl tt))
  | DAcceptFailed e :: _ => Ok (d, Some (inr e))
  | DAccepted conn :: events =>
      d ← accept_connection cap server_secret conn d;
      TcpFrontDoor_run cap server_secret events d
  end.
End Door.

(** ** One task among others *)
Lemma other_any cap n s s' : rtc (other_step cap n) s s' → rtc (any_step cap) s s'.
Proof. intros H. eapply rtc_subrel; [|exact H]. intros x y (who & _ & Hs). by exists who. Qed.

(** The others leave the permit of a task alone. *)
Lemma other_task cap n s s' x :
  adm_inv cap s → rtc (other_step cap n) s s' → x.2 ≠ Fresh → sy_tasks s !! n = Some x → sy_tasks s' !! n = Some x.
Proof.
  intros Hinv H Hpc. induction H as [s|s s1 s2 Hs Hr IH]; [done|]. intros Hx. apply IH.
  { destruct Hs as (who & _ & Hs). by eapply adm_inv_step; [exists who|]. }
  clear IH Hr. destruct Hs as (who & Hw & Hs). destruct Hs; cbn [sy_tasks] in *; try done.
  - unfold admit_if_under_cap, admit_locked in H. destruct (_ <? _); [|done]. injection H as <- <-. cbn [pm_num].
    rewrite lookup_insert_ne; [done|]. destruct x as [q pc]. destruct Hinv as [_ Ht _ _ _ _].
    destruct (Ht _ _ _ Hx) as (_ & Hlt & _). cbn in Hlt. lia.
  - rewrite lookup_insert_ne; [done|]. intros ->. by simplify_eq.
  - destruct was; [rewrite lookup_delete_ne|rewrite lookup_insert_ne]; congruence.
  - rewrite lookup_delete_ne; congruence.
Qed.

Section TaskSpec.
Context `{B : Boring} {L : BoringLaws B} (env : TaskEnv) (cap n : Z) (permit : TcpAdmissionPermit) (S0 : Sys).
Context (Hinv : adm_inv cap S0) (Hnum : pm_num permit = n).
Context (Hothers : ∀ t s, rtc (other_step cap n) s (te_others env t s)).
(** The bytes the peer sends. *)
Context (stream : bytes) (Hstream : bytes_ok stream).
Context (Hpeek : ∀ t buf, te_peek env t = PeekData buf → buf `prefix_of` stream).

Definition owns (pc : task_pc) (s : Task) : Prop :=
  rtc (any_step cap) S0 (tk_sys s) ∧ sy_tasks (tk_sys s) !! n = Some (permit, pc).

Lemma reach_inv s : rtc (any_step cap) S0 s → adm_inv cap s.
Proof using Hinv.
  clear Hothers Hpeek. apply (rtc_ind_r (λ s, adm_inv cap s)); eauto using adm_inv_step.
Qed.

(** [s'] differs from [s] in the shared state, the clock and the counter. *)
Definition later (s s' : Task) : Prop := tk_clock s ≤ tk_clock s' ∧ tk_trace s' = tk_trace s.

Lemma later_trans s1 s2 s3 : later s1 s2 → later s2 s3 → later s1 s3.
Proof. intros [? E1] [? E2]. split; [lia|congruence]. Qed.

Lemma wp_atomic {A} (f : Sys → Sys * A) pc Q X (D : Task → Prop) s :
  owns pc s → pc ≠ Fresh →
  (∀ sys, rtc (any_step cap) S0 sys → sy_tasks sys !! n = Some (permit, pc) →
     Q (f sys).2 (mkTask (f sys).1 (tk_clock s) (tk_tick s + 1) (tk_trace s))) →
  wp (atomic env f) Q X D s.
Proof using Hinv Hothers.
  intros [Hr Ht] Hpc HQ. unfold wp, atomic. pose proof (Hothers (tk_tick s) (tk_sys s)) as Ho.
  specialize (HQ (te_others env (tk_tick s) (tk_sys s))).
  destruct (f (te_others env (tk_tick s) (tk_sys s))) as [sys r]. apply HQ.
  - etrans; [exact Hr|]. by eapply other_any.
  - by eapply other_task; [apply reach_inv|..].
Qed.

(** A step of the task on the admission state. *)
Lemma wp_on_adm {A} (f : TcpAdmission → TcpAdmission * A) Q X (D : Task → Prop) s :
  owns Held s → (∀ a T, T !! n = Some (permit, Held) → rtc (any_step cap) (mkSys a T) (mkSys (f a).1 T)) →
  (∀ a s', owns Held s' → later s s' → sy_adm (tk_sys s') = (f a).1 → Q (f a).2 s') → wp (on_adm env f) Q X D s.
Proof using Hinv Hothers.
  intros Ho Hf HQ. unfold on_adm. eapply wp_atomic; [done|done|]. intros [a T] Hr Ht. cbn [sy_adm sy_tasks] in *.
  specialize (HQ a). specialize (Hf a T Ht). destruct (f a) as [a' r]. apply HQ; [|done..].
  split; [|done]. cbn [tk_sys]. by etrans.
Qed.

Lemma wp_look {A} (f : TcpAdmission → A) Q X (D : Task → Prop) s :
  owns Held s → (∀ s', owns Held s' → later s s' → Q (f (sy_adm (tk_sys s'))) s') → wp (look env f) Q X D s.
Proof using Hinv Hothers.
  intros Ho HQ. unfold look. apply wp_on_adm; [done|done|]. intros a s' Ho' Hl E. cbn in E. subst a. by apply HQ.
Qed.

Lemma wp_task_ask {A} (f : Z → A) Q X (D : Task → Prop) s :
  owns Held s → (∀ t s', owns Held s' → later s s' → sy_adm (tk_sys s') = sy_adm (tk_sys s) → Q (f t) s') →
  wp (ask f) Q X D s.
Proof. intros Ho HQ. by apply HQ. Qed.

Lemma wp_now Q X (D : Task → Prop) s :
  owns Held s → (∀ s', owns Held s' → later s s' → Q (tk_clock s') s') → wp (now env) Q X D s.
Proof.
  intros Ho HQ. unfold wp, now. cbv zeta.
  apply (HQ (mkTask (tk_sys s) (tk_clock s + Z.of_N (te_lag env (tk_tick s))) (tk_tick s + 1) (tk_trace s))); [done|].
  split; cbn; [lia|done].
Qed.

Lemma mark_steps a T :
  T !! n = Some (permit, Held) →
  rtc (any_step cap) (mkSys a T) (mkSys (mark_no_data permit a).1 T) ∧
  rtc (any_step cap) (mkSys a T) (mkSys (mark_data_seen permit a).1 T).
Proof.
  intros HT. split; apply rtc_once; exists (Some n); [by eapply step_mark_no_data|by eapply step_mark_data_seen].
Qed.

(** When a mark is refused the permit was taken away. *)
Definition lost (s : Task) : Prop :=
  n ∈ ad_released (sy_adm (tk_sys s)) ∨ n ∈ ad_cancelled (sy_adm (tk_sys s)).

Lemma wp_mark (seen : bool) Q X (D : Task → Prop) s :
  owns Held s → (∀ b s', owns Held s' → later s s' → (b = false → lost s') → Q b s') →
  wp (on_adm env (if seen then mark_data_seen permit else mark_no_data permit)) Q X D s.
Proof using Hinv Hothers Hnum.
  intros Ho HQ. apply wp_on_adm; [done|..].
  - intros a T HT. by destruct seen; apply mark_steps.
  - intros a s' Ho' Hl E. apply HQ; [done..|]. intros Hb. left. rewrite E. revert Hb.
    unfold mark_data_seen, mark_no_data, released. rewrite Hnum.
    destruct seen; case_bool_decide; try done. by destruct (ad_no_data a !! pm_id permit).
Qed.

Lemma wp_mark_no_data_if_empty Q X (D : Task → Prop) s :
  owns Held s → (∀ b s', owns Held s' → later s s' → (b = false → lost s') → Q b s') →
  wp (mark_no_data_if_empty env permit) Q X D s.
Proof using Hinv Hothers Hnum.
  intros Ho HQ. unfold mark_no_data_if_empty. apply wp_bind, wp_task_ask; [done|]. intros t s1 Ho1 Hl1 _.
  destruct (no_buffered_data _); [apply (wp_mark false)|apply (wp_mark true)]; try done;
    intros b s2 Ho2 Hl2 Hb; apply HQ; eauto using later_trans.
Qed.

Lemma wp_told Q X (D : Task → Prop) s :
  owns Held s → (∀ b s', owns Held s' → later s s' → (b = true → lost s') → Q b s') →
  wp (told env permit) Q X D s.
Proof using Hinv Hothers Hnum.
  intros Ho HQ. unfold told. apply wp_bind, wp_look; [done|]. intros s1 Ho1 Hl1.
  apply wp_bind, wp_task_ask; [done|]. intros t s2 Ho2 Hl2 E2. apply wp_ret, HQ; eauto using later_trans.
  intros [H%bool_decide_eq_true _]%andb_true_iff. right. rewrite E2. by rewrite Hnum in H.
Qed.

(** What an outcome says of the bytes the peer sends. *)
Definition outcome_ok (server_secret : bytes) (deadline : Z) (o : ClassificationOutcome) (s : Task) : Prop :=
  match o with
  | Evicted => lost s
  | OutVerdict Drop => ∃ t, te_peek env t = PeekData []
  | OutVerdict Incomplete => deadline ≤ tk_clock s ∨ ∃ t, te_peek env t = PeekTimeout
  | OutVerdict v => classify_tcp_client_hello stream server_secret = Ok v
  end.

Definition classified (server_secret : bytes) (deadline : Z) (s : Task) (o : option ClassificationOutcome) (s' : Task) : Prop :=
  ∃ out, o = Some out ∧ owns Held s' ∧ later s s' ∧ outcome_ok server_secret deadline out s'.
Definition unreadable (s : Task) (e : IoError) (s' : Task) : Prop :=
  owns Held s' ∧ later s s' ∧ ∃ t, te_peek env t = PeekErr e.

Lemma classified_later secret deadline s1 s2 o s3 :
  later s1 s2 → classified secret deadline s2 o s3 → classified secret deadline s1 o s3.
Proof. intros H (out & ? & ? & ? & ?). exists out. eauto using later_trans. Qed.
Lemma unreadable_later s1 s2 e s3 : later s1 s2 → unreadable s2 e s3 → unreadable s1 e s3.
Proof. intros H (? & ? & ?). split_and!; eauto using later_trans. Qed.

Lemma wp_peek Q (D : Task → Prop) s :
  owns Held s →
  (∀ buf s', owns Held s' → later s s' → buf `prefix_of` stream → (buf = [] → ∃ t, te_peek env t = PeekData []) →
     Q (inl buf) s') →
  (∀ s', owns Held s' → later s s' → lost s' → Q (inr Evicted) s') →
  (∀ s' t, owns Held s' → later s s' → te_peek env t = PeekTimeout → Q (inr (OutVerdict Incomplete)) s') →
  wp (peek_with_deadline env permit) Q (unreadable s) D s.
Proof using Hinv Hothers Hnum Hpeek.
  intros Ho Hdata Hev Hto. unfold peek_with_deadline. apply wp_bind, wp_told; [done|]. intros b s1 Ho1 Hl1 Hb.
  destruct b; [by apply wp_ret, Hev; auto|]. apply wp_bind. unfold wp, ask at 1. cbn [tk_sys tk_tick].
  set (s2 := mkTask _ _ _ _). assert (owns Held s2 ∧ later s s2) as [Ho2 Hl2] by (split; [done|by destruct Hl1]).
  destruct (te_peek env (tk_tick s1)) as [buf|e|] eqn:E; cbn.
  - apply Hdata; [done..| |].
    + eapply transitivity; [|by eapply Hpeek]. exists (drop (Z.to_nat PEEK_LEN) buf). by rewrite take_drop.
    + intros Hnil. exists (tk_tick s1). rewrite E. f_equal. destruct buf; [done|].
      exfalso. change (Z.to_nat PEEK_LEN) with (S (Z.to_nat (PEEK_LEN - 1))) in Hnil. done.
  - split_and!; [done..|]. by eexists.
  - by eapply Hto.
Qed.

Lemma verdict_stream buf secret v :
  buf `prefix_of` stream → classify_tcp_client_hello buf secret = Ok v → v ≠ Incomplete →
  classify_tcp_client_hello stream secret = Ok v.
Proof using L Hstream.
  intros [rest E] Hc Hv. rewrite E. apply classify_stable; [by rewrite <- E|done..].
Qed.

Lemma retry_delay_bounds last delay k :
  CLASSIFY_RETRY_DELAY ≤ delay →
  let '(_, delay', retry) := next_incomplete_retry_delay last delay k in
  CLASSIFY_RETRY_DELAY ≤ delay' ∧ CLASSIFY_RETRY_DELAY ≤ retry.
Proof.
  unfold next_incomplete_retry_delay, CLASSIFY_RETRY_DELAY, CLASSIFY_STABLE_RETRY_MAX_DELAY, from_secs, from_millis.
  intros. case_bool_decide; lia.
Qed.

Lemma wp_sleep wait Q X (D : Task → Prop) s :
  owns Held s → 0 ≤ wait → (∀ s', owns Held s' → later s s' → tk_clock s' = tk_clock s + wait → Q tt s') → wp (sleep wait) Q X D s.
Proof. intros Ho Hw HQ. apply wp_modify, HQ; [done| |done]. split; cbn; [lia|done]. Qed.

Lemma released_lost s : is_released permit (sy_adm (tk_sys s)) = true → lost s.
Proof using Hnum. unfold is_released, released. rewrite Hnum. intros H%bool_decide_eq_true. by left. Qed.

(** A turn ends the classification, or brings the deadline closer. *)
Definition examined (secret : bytes) (deadline : Z) (s : Task) (e : ClassificationOutcome + option Z * Z) (s' : Task) : Prop :=
  owns Held s' ∧ later s s' ∧
  match e with
  | inl out => outcome_ok secret deadline out s'
  | inr (_, delay) => CLASSIFY_RETRY_DELAY ≤ delay ∧
      (deadline ≤ tk_clock s' ∨ tk_clock s + CLASSIFY_RETRY_DELAY ≤ tk_clock s')
  end.

Lemma wp_wait secret deadline delay retry last s X :
  owns Held s → CLASSIFY_RETRY_DELAY ≤ delay → CLASSIFY_RETRY_DELAY ≤ retry →
  wp (t ← now env;
      let wait := Z.min retry (saturating_sub deadline t) in
      if wait =? 0 then mret (inr (last, delay)) else
      c ← told env permit;
      if (c : bool) then mret (inl Evicted) else
      _ ← sleep wait;
      mret (inr (last, delay))) (examined secret deadline s) X (λ _, False) s.
Proof using Hinv Hnum Hothers.
  assert (0 < CLASSIFY_RETRY_DELAY) as HR by done.
  intros Ho Hd Hr. apply wp_bind, wp_now; [done|]. intros s1 Ho1 Hl1. cbv zeta. unfold saturating_sub.
  destruct (Z.eqb_spec (Z.min retry (Z.max 0 (deadline - tk_clock s1))) 0) as [E|E].
  { apply wp_ret. split_and!; [done..|]. left. lia. }
  apply wp_bind, wp_told; [done|]. intros c s2 Ho2 Hl2 Hc. destruct c.
  { apply wp_ret. split_and!; [done|by eauto using later_trans|]. by apply Hc. }
  apply wp_bind, wp_sleep; [done|lia|]. intros s3 Ho3 Hl3 Ec. apply wp_ret.
  split_and!; [done|by eauto using later_trans|done|]. destruct Hl1, Hl2. lia.
Qed.

Lemma wp_examine secret deadline seen last delay buf s X :
  owns Held s → CLASSIFY_RETRY_DELAY ≤ delay → buf `prefix_of` stream → (buf = [] → ∃ t, te_peek env t = PeekData []) →
  wp (examine env permit secret deadline seen last delay buf) (examined secret deadline s) X (λ _, False) s.
Proof using L Hinv Hnum Hothers Hstream.
  intros Ho Hd Hb Hnil. unfold examine. apply wp_bind, wp_look; [done|]. intros s1 Ho1 Hl1.
  destruct (is_released permit _) eqn:Hr1; [apply wp_ret; split_and!; [done..|by apply released_lost]|].
  cbv zeta. destruct (Z.eqb_spec (zlen buf) 0) as [E|_].
  { apply wp_ret. split_and!; [done..|]. apply Hnil. by destruct buf. }
  apply wp_bind. eapply (wp_mono _ (λ b s', owns Held s' ∧ later s1 s' ∧ (b = false → lost s'))).
  { destruct seen; [apply wp_ret; split_and!; [done|by split|done]|]. by apply (wp_mark true). }
  intros b s2 (Ho2 & Hl2 & Hb2). assert (later s s2) as Hl by eauto using later_trans.
  destruct b; cbn [negb]; [|apply wp_ret; split_and!; [done|done|by apply Hb2] ].
  assert (bytes_ok buf) as Hbuf by (destruct Hb as [rest E]; rewrite E in Hstream; by apply bytes_ok_app in Hstream as [? _]).
  destruct (classify_total buf secret Hbuf) as [Ec|[Ec|[Ec _] ] ]; rewrite Ec;
    [apply wp_ret; split_and!; [done..|]; by apply (verdict_stream buf) ..|].
  pose proof (retry_delay_bounds last delay (zlen buf) Hd) as Hrd.
  destruct (next_incomplete_retry_delay last delay (zlen buf)) as [[last' delay'] retry]. destruct Hrd as [Hd' Hr'].
  eapply wp_mono; [by apply wp_wait|]. intros e s3 (Ho3 & Hl3 & He). split_and!; [done|by eauto using later_trans|].
  destruct e as [out|[? ?] ]; [done|]. destruct He as [? ?], Hl. split; [done|lia].
Qed.

(** The fuel covers the time that is left. *)
Definition fuel_ok (fuel : nat) (deadline : Z) (s : Task) : Prop :=
  (0 < fuel)%nat ∧ deadline - tk_clock s ≤ (Z.of_nat fuel - 1) * CLASSIFY_RETRY_DELAY.

Lemma classify_loop_spec fuel secret deadline seen last delay s :
  owns Held s → CLASSIFY_RETRY_DELAY ≤ delay → fuel_ok fuel deadline s →
  wp (classify_loop env fuel permit secret deadline seen last delay) (classified secret deadline s) (unreadable s)
    (λ _, False) s.
Proof using L Hinv Hnum Hothers Hstream Hpeek.
  assert (0 < CLASSIFY_RETRY_DELAY) as HR by done.
  revert seen last delay s. induction fuel as [|fuel IH]; intros seen last delay s Ho Hd [Hf Ht]; [lia|].
  cbn [classify_loop]. assert (∀ s' out, owns Held s' → later s s' → outcome_ok secret deadline out s' →
    wp (mret (Some out)) (classified secret deadline s) (unreadable s) (λ _, False) s') as Hret.
  { intros s' out ???. apply wp_ret. by exists out. }
  apply wp_bind, wp_look; [done|]. intros s1 Ho1 Hl1.
  destruct (is_released permit _) eqn:Hr1; [by apply Hret; [..|apply released_lost]|].
  apply wp_bind, wp_now; [done|]. intros s2 Ho2 Hl2. assert (later s s2) as Hl by eauto using later_trans.
  destruct (Z.leb_spec deadline (tk_clock s2)) as [Hle|Hgt]; [apply Hret; [done..|]; by left|].
  apply wp_bind. eapply (wp_mono _ (λ b s', owns Held s' ∧ later s2 s' ∧ (b = false → lost s'))).
  { destruct seen; [apply wp_ret; split_and!; [done|by split|done]|]. by apply wp_mark_no_data_if_empty. }
  intros b s3 (Ho3 & Hl3 & Hb3). assert (later s s3) as Hls3 by eauto using later_trans.
  destruct b; cbn [negb]; [|by apply Hret; [..|apply Hb3] ].
  apply wp_bind. eapply wp_weaken; [apply (wp_peek (λ p s', owns Held s' ∧ later s3 s' ∧ match p with
    | inr out => outcome_ok secret deadline out s'
    | inl buf => buf `prefix_of` stream ∧ (buf = [] → ∃ t, te_peek env t = PeekData []) end) (λ _, False)); [done|..]| | |].
  1,2: by intros; split_and!.
  { intros s' t ???. split_and!; [done..|]. right. by exists t. }
  2: { intros e s'. by apply unreadable_later. }
  2: done.
  intros p s4 (Ho4 & Hl4 & Hp). assert (later s s4) as Hls4 by eauto using later_trans.
  destruct p as [buf|out]; [|by apply Hret]. destruct Hp as [Hpre Hnil].
  apply wp_bind. eapply wp_mono; [by apply wp_examine|]. intros e s5 (Ho5 & Hl5 & He).
  assert (later s s5) as Hls5 by eauto using later_trans.
  destruct e as [out|[last' delay'] ]; [by apply Hret|]. destruct He as [Hd' Hc].
  eapply wp_weaken; [apply (IH true last' delay' s5); [done..|]| | |done].
  - destruct Hl as [? _], Hl3 as [? _], Hl4 as [? _]. rewrite Nat2Z.inj_succ in Ht.
    assert (0 < Z.of_nat fuel) by nia. split; [lia|]. destruct Hc; nia.
  - intros o s6. by apply classified_later.
  - intros e s6. by apply unreadable_later.
Qed.

Lemma classify_admitted_spec secret timeout s :
  owns Held s → 0 ≤ timeout →
  wp (classify_admitted_stream env permit secret timeout)
    (λ o s', ∃ deadline, tk_clock s + timeout ≤ deadline ∧ classified secret deadline s o s') (unreadable s) (λ _, False) s.
Proof using L Hinv Hnum Hothers Hstream Hpeek.
  intros Ho Ht. unfold classify_admitted_stream. apply wp_bind, wp_now; [done|]. intros s1 Ho1 Hl1.
  eapply wp_weaken; [apply classify_loop_spec; [done|done|]| | |done].
  - split; [unfold classify_fuel; lia|]. unfold classify_fuel.
    assert (0 < CLASSIFY_RETRY_DELAY) as HR by done.
    pose proof (Z.div_mod timeout CLASSIFY_RETRY_DELAY ltac:(lia)) as E.
    pose proof (Z.mod_pos_bound timeout CLASSIFY_RETRY_DELAY HR). pose proof (Z.div_pos timeout _ Ht HR).
    rewrite Nat2Z.inj_add, Z2Nat.id by lia. nia.
  - intros o s2 Hc. exists (tk_clock s1 + timeout). destruct Hl1. split; [lia|]. by eapply classified_later.
  - intros e s2. by apply unreadable_later.
Qed.

(** The task has given its permit back. *)
Definition gone (s s' : Task) : Prop :=
  rtc (any_step cap) S0 (tk_sys s') ∧ sy_tasks (tk_sys s') !! n = None ∧ later s s'.

Lemma wp_drop_permit Q X (D : Task → Prop) s :
  owns Held s → (∀ s', gone s s' → Q tt s') → wp (drop_permit env permit) Q X D s.
Proof using Hinv Hnum Hothers.
  intros Ho HQ. unfold drop_permit. apply wp_bind. eapply wp_atomic; [done|done|]. intros [a T] Hr HT.
  cbn [sy_adm sy_tasks] in *. rewrite Hnum.
  pose proof (λ a' was, step_drop_swap cap a a' was T n permit HT) as Hstep.
  destruct (drop_swap permit a) as [a' was]. specialize (Hstep a' was eq_refl). cbn [fst snd].
  assert (rtc (any_step cap) S0 (mkSys a' (if was then delete n T else <[n := (permit, Dropping)]> T))) as Hr1.
  { eapply rtc_r; [exact Hr|]. by exists (Some n). }
  destruct was.
  { apply wp_ret, HQ. split_and!; [done|apply lookup_delete_eq|by split]. }
  eapply (wp_atomic _ Dropping); [split; [done|apply lookup_insert_eq]|done|]. intros [b T'] Hr2 HT2. cbn [fst snd tk_clock tk_trace].
  apply HQ. split_and!; [|apply lookup_delete_eq|by split]. eapply rtc_r; [exact Hr2|]. exists (Some n).
  by apply step_drop_locked.
Qed.

(** The acceptor held the stream when the task wanted it for itself. *)
Definition held_elsewhere : Prop := ∃ sys, rtc (any_step cap) S0 sys ∧ ad_probed (sy_adm sys) = Some n.

Lemma wp_into_inner Q X (D : Task → Prop) s :
  owns Held s → (∀ b s', owns Held s' → later s s' → (b = false → held_elsewhere) → Q b s') →
  wp (into_inner env permit) Q X D s.
Proof using Hinv Hnum Hothers.
  intros Ho HQ. apply wp_look; [done|]. intros s' Ho' Hl. apply HQ; [done..|]. rewrite Hnum.
  intros H%negb_false_iff%bool_decide_eq_true. exists (tk_sys s'). by destruct Ho'.
Qed.

(** What the actions of a task say, newest first. *)
Definition accounted (secret : bytes) (timeout : Z) (s : Task) (acts : list tcp_action) (s' : Task) : Prop :=
  match acts with
  | [TClaimed] => classify_tcp_client_hello stream secret = Ok Claim
  | [TPassed _] => classify_tcp_client_hello stream secret = Ok Pass
  | [TDropped] => (∃ t, te_peek env t = PeekData []) ∨ (∃ t e, te_peek env t = PeekErr e) ∨ held_elsewhere
  | [TDropped; TTimeout] => tk_clock s + timeout ≤ tk_clock s' ∨ ∃ t, te_peek env t = PeekTimeout
  | [] => ∃ s1, owns Held s1 ∧ lost s1
  | _ => False
  end.

Definition task_done (secret : bytes) (timeout : Z) (s s' : Task) : Prop :=
  rtc (any_step cap) S0 (tk_sys s') ∧ sy_tasks (tk_sys s') !! n = None ∧
  ∃ acts, tk_trace s' = acts ++ tk_trace s ∧ accounted secret timeout s acts s'.

(** Log some actions, then drop the permit. *)
Lemma task_done_drop secret timeout s s1 acts s2 X (D : Task → Prop) :
  owns Held s2 → tk_clock s1 ≤ tk_clock s2 → tk_trace s2 = acts ++ tk_trace s →
  (∀ s', tk_clock s1 ≤ tk_clock s' → accounted secret timeout s acts s') →
  wp (drop_permit env permit) (λ _ s', task_done secret timeout s s') X D s2.
Proof using Hinv Hnum Hothers.
  intros Ho Hc Ht Ha. apply wp_drop_permit; [done|]. intros s' (Hr & HT & Hl & E). split_and!; [done..|].
  exists acts. split; [congruence|]. apply Ha. lia.
Qed.

Lemma owns_log a s : owns Held s → owns Held (mkTask (tk_sys s) (tk_clock s) (tk_tick s) (a :: tk_trace s)).
Proof. done. Qed.

Lemma wp_claimed_stream secret timeout s s1 X (D : Task → Prop) :
  owns Held s1 → later s s1 → classify_tcp_client_hello stream secret = Ok Claim →
  wp (handle_claimed_stream env permit) (λ _ s', task_done secret timeout s s') X D s1.
Proof using Hinv Hnum Hothers.
  intros Ho Hl Hc. unfold handle_claimed_stream. apply wp_bind, wp_into_inner; [done|]. intros b s2 Ho2 Hl2 Hb.
  assert (later s s2) as [? E2] by eauto using later_trans. destruct b.
  - apply wp_bind, wp_drop_permit; [done|]. intros s3 (Hr & HT & _ & E3). apply wp_modify. split_and!; [done..|].
    exists [TClaimed]. cbn. split; [congruence|done].
  - apply wp_bind, wp_modify. eapply (task_done_drop _ _ _ s2 [TDropped]); [by apply owns_log|done|cbn; congruence|].
    cbn. auto.
Qed.

Lemma wp_pass_stream secret timeout s s1 X (D : Task → Prop) :
  owns Held s1 → later s s1 → classify_tcp_client_hello stream secret = Ok Pass →
  wp (_ ← handle_pass_stream env permit; drop_permit env permit) (λ _ s', task_done secret timeout s s') X D s1.
Proof using Hinv Hnum Hothers.
  intros Ho Hl Hc. unfold handle_pass_stream. apply wp_bind, wp_bind, wp_into_inner; [done|]. intros b s2 Ho2 Hl2 Hb.
  assert (later s s2) as Hl' by eauto using later_trans. destruct b.
  - apply wp_bind, wp_task_ask; [done|]. intros t s3 Ho3 Hl3 _. apply wp_modify.
    assert (later s s3) as [? E3] by eauto using later_trans.
    eapply (task_done_drop _ _ _ s3 [TPassed (te_proxy env t)]); [by apply owns_log|done|cbn; congruence|]. cbn. auto.
  - destruct Hl' as [? E2]. apply wp_modify.
    eapply (task_done_drop _ _ _ s2 [TDropped]); [by apply owns_log|done|cbn; congruence|]. cbn. auto.
Qed.

Lemma wp_task secret timeout s :
  owns Held s → 0 ≤ timeout →
  wp (classification_task env permit secret timeout) (λ _ s', task_done secret timeout s s') (λ _ _, False) (λ _, False) s.
Proof using L Hinv Hnum Hothers Hstream Hpeek.
  intros Ho Ht. unfold classification_task. apply wp_bind, wp_result.
  eapply wp_weaken; [by apply classify_admitted_spec| | |done].
  - intros o s1 (deadline & Hd & out & -> & Ho1 & Hl1 & Hout). pose proof Hl1 as [Hc1 E1].
    destruct out as [[]|]; cbn [outcome_ok] in Hout.
    + by apply wp_claimed_stream.
    + by apply wp_pass_stream.
    + apply wp_bind, wp_modify. eapply (task_done_drop _ _ _ s1 [TDropped]); [by apply owns_log|done|cbn; congruence|].
      cbn. auto.
    + apply wp_bind, wp_modify, wp_bind, wp_modify.
      eapply (task_done_drop _ _ _ s1 [TDropped; TTimeout]); [by apply owns_log|done|cbn; congruence|].
      intros s' Hs'. cbn. destruct Hout; [left; lia|by right].
    + eapply (task_done_drop _ _ _ s1 []); [done|done|done|]. intros s' _. by exists s1.
  - intros e s1 (Ho1 & [Hc1 E1] & t & He). apply wp_bind, wp_modify.
    eapply (task_done_drop _ _ _ s1 [TDropped]); [by apply owns_log|done|cbn; congruence|]. cbn. eauto.
Qed.
End TaskSpec.

(** ** The acceptor among the tasks *)
Definition task_step (cap : Z) (s s' : Sys) : Prop := ∃ k, sys_step cap (Some k) s s'.

Lemma task_any cap s s' : rtc (task_step cap) s s' → rtc (any_step cap) s s'.
Proof. intros H. eapply rtc_subrel; [|exact H]. intros x y (k & Hs). by exists (Some k). Qed.

(** A permit that is still with the acceptor cannot be taken by tasks. *)
Lemma fresh_kept cap n p s s' :
  adm_inv cap s → rtc (task_step cap) s s' → sy_tasks s !! n = Some (p, Fresh) → n ∉ ad_released (sy_adm s) →
  sy_tasks s' !! n = Some (p, Fresh) ∧ n ∉ ad_released (sy_adm s').
Proof.
  intros Hinv H. induction H as [s|s s1 s2 Hs Hr IH]; [done|]. intros HT Hn.
  assert (sy_tasks s1 !! n = Some (p, Fresh) ∧ n ∉ ad_released (sy_adm s1)) as [HT1 Hn1].
  { destruct Hs as [k Hs]. destruct Hinv as [_ Ht _ _ _ _]. assert (∀ b id, ad_released (remove_no_data_locked id b).1 = ad_released b) as Hrem.
    { intros b id. unfold remove_no_data_locked. destruct (ad_no_data b !! id) as [e|]; [|done].
      by destruct (nd_prev e), (nd_next e). }
    inversion Hs; subst; cbn [sy_adm sy_tasks] in *; split; try done.
    - unfold mark_no_data, insert_no_data_locked. destruct (released _ _); [done|].
      destruct (_ !! pm_id _); [done|]. by destruct (ad_no_data_tail a).
    - unfold mark_data_seen. destruct (released _ _); [done|]. cbn [fst]. by rewrite Hrem.
    - destruct was; [rewrite lookup_delete_ne|rewrite lookup_insert_ne]; congruence.
    - match goal with HT' : T !! k = Some (?q, Held), E : drop_swap ?q a = _ |- _ =>
        destruct (Ht _ _ _ HT') as (-> & _); injection E as <- _ end.
      cbn. rewrite not_elem_of_union, not_elem_of_singleton. split; [congruence|done].
    - rewrite lookup_delete_ne; congruence.
    - unfold drop_locked. by rewrite Hrem. }
  apply IH; [|done..]. eapply adm_inv_step; [|done]. destruct Hs as [k Hs]. by exists (Some k).
Qed.

Section DoorSpec.
Context `{B : Boring} {L : BoringLaws B} (cap : Z) (others : Z → Sys → Sys) (stream : Z → Z → option bool).
Context (Hcap : 0 ≤ cap) (Hothers : ∀ t s, rtc (task_step cap) s (others t s)).

Abbreviation reach := (rtc (any_step cap) Sys_new).

Lemma others_any t s : rtc (any_step cap) s (others t s).
Proof using Hothers. apply task_any, Hothers. Qed.

(** A permit just made is fresh. *)
Definition fresh (p : TcpAdmissionPermit) (s : Sys) : Prop :=
  sy_tasks s !! pm_num p = Some (p, Fresh) ∧ pm_num p ∉ ad_released (sy_adm s).

Lemma admit_fresh s s' p : reach s.1 → try_admit cap others s = (s', Some p) → fresh p s'.1.
Proof using Hcap Hothers.
  destruct s as [s t]. intros Hr. unfold try_admit, locked.
  assert (adm_inv cap (others t s)) as Hinv by (apply adm_inv_reachable; [done|]; etrans; [exact Hr|apply others_any]).
  unfold admit_if_under_cap, admit_locked. destruct (_ <? _); [|done]. intros [= <- <-].
  split; cbn; [apply lookup_insert_eq|]. intros H%(ai_released _ _ Hinv). lia.
Qed.

Lemma passes_fresh k s s' tok p :
  reach s.1 → passes cap others stream k s = (s', (tok, Some p)) → tok = None ∧ fresh p s'.1.
Proof using Hcap Hothers.
  revert s. induction k as [|k IH]; intros s Hr; cbn [passes]; [done|].
  pose proof (locked_steps cap others others_any (λ a, (a, eviction_candidates cap a)) s ltac:(done)) as H1.
  destruct (locked others _ s) as [s1 candidates].
  pose proof (scan_steps cap others stream others_any candidates false s1) as H2.
  destruct (scan_candidates _ _ _ _ _ s1) as [s2 [tok' r] ]. cbn [fst] in *. destruct (_ || _); [done|].
  pose proof (admit_fresh s2) as H3. pose proof (admit_steps cap others others_any s2) as H4.
  assert (reach s2.1) as Hr2 by (etrans; [exact Hr|]; etrans; [exact H1|exact H2]).
  destruct (try_admit cap others s2) as [s3 [q|] ]; cbn [fst] in *.
  - intros [= <- <- <-]. split; [done|]. by apply H3.
  - apply IH. etrans; [exact Hr2|exact H4].
Qed.

Lemma admit_or_evict_fresh s s' r p :
  reach s.1 → admit_or_evict_empty cap others stream s = (s', r) → at_permit r = Some p → fresh p s'.1.
Proof using Hcap Hothers.
  intros Hr. unfold admit_or_evict_empty. pose proof (admit_fresh s) as H0. pose proof (admit_steps cap others others_any s) as H1.
  destruct (try_admit cap others s) as [s1 [q|] ]; cbn [fst] in *.
  { intros [= <- <-] [= <-]. cbn. by apply H0. }
  assert (reach s1.1) as Hr1 by (by etrans).
  pose proof (passes_fresh EMPTY_EVICTION_SCAN_PASSES s1) as H2.
  pose proof (passes_steps cap others stream others_any EMPTY_EVICTION_SCAN_PASSES s1) as H3.
  destruct (passes _ _ _ _ s1) as [s2 [tok [q|] ] ]; cbn [fst] in *.
  - destruct (H2 _ _ _ Hr1 eq_refl) as [-> Hf]. by intros [= <- <-] [= <-].
  - assert (reach s2.1) as Hr2 by (by etrans). pose proof (admit_fresh s2) as H4.
    destruct (try_admit cap others s2) as [s3 q]. intros [= <- <-] E. cbn in E. subst q.
    specialize (H4 s3 p Hr2 eq_refl). by destruct tok.
Qed.

(** The marking of a fresh permit succeeds. *)
Lemma mark_fresh p (seen : bool) s :
  reach s.1 → fresh p s.1 →
  ∃ s', locked others (if seen then mark_no_data p else mark_data_seen p) s = (s', true) ∧ reach (spawn_task p s').1.
Proof using Hcap Hothers.
  destruct s as [s t]. cbn [fst]. intros Hr [HT Hn].
  assert (adm_inv cap s) as Hinv by (by apply adm_inv_reachable).
  destruct (fresh_kept cap (pm_num p) p s (others t s) Hinv (Hothers t s) HT Hn) as [HT' Hn'].
  assert (reach (others t s)) as Hr' by (etrans; [exact Hr|apply others_any]).
  unfold locked. destruct (others t s) as [a T]. cbn [sy_adm sy_tasks] in *.
  destruct seen.
  - pose proof (step_register cap a T _ p HT') as Hs. unfold mark_no_data, released in *.
    rewrite bool_decide_false in * by done.
    destruct (ad_no_data a !! pm_id p); (eexists; split; [done|]); (eapply rtc_r; [|exists None; by apply step_spawn]);
      (eapply rtc_r; [exact Hr'|by exists None]).
  - pose proof (step_register_data cap a T _ p HT') as Hs. unfold mark_data_seen, released in *.
    rewrite bool_decide_false in * by done. eexists. split; [done|].
    eapply rtc_r; [|exists None; by apply step_spawn]. eapply rtc_r; [exact Hr'|by exists None].
Qed.

(** How many actions of the trace satisfy [f]. *)
Definition door_num (f : door_action → bool) (d : Door) : Z := zlen (List.filter f (dr_trace d)).
Definition is_spawned (x : door_action) : bool := match x with DSpawned _ _ => true | _ => false end.
Definition is_fast (x : door_action) : bool := match x with DFastClaim _ _ => true | _ => false end.
Definition is_cap_drop (x : door_action) : bool := match x with DCapDrop _ => true | _ => false end.

Definition door_ok (secret : bytes) (n pending : Z) (d : Door) : Prop :=
  let m := dr_metrics d in
  reach (dr_acc d).1 ∧ dm_tcp_accepted m = n ∧
  n = door_num is_spawned d + door_num is_fast d + door_num is_cap_drop d + pending ∧
  dm_claimed m = door_num is_fast d ∧ dm_tcp_frontdoor_cap_drops m = door_num is_cap_drop d ∧
  dm_dropped m = dm_tcp_frontdoor_cap_drops m + dm_tcp_empty_classification_evictions m ∧
  (∀ addr, DAborted addr ∉ dr_trace d) ∧
  (∀ addr seen, DFastClaim addr seen ∈ dr_trace d → classify_tcp_client_hello seen secret = Ok Claim).

Definition incoming_ok (conn : Incoming) : Prop := match in_peek conn with inl buf => bytes_ok buf | inr _ => True end.

Lemma fast_verdict secret conn :
  incoming_ok conn →
  match classify_stream_fast secret (in_peek conn) with
  | Ok Claim => ∃ buf, in_peek conn = inl buf ∧ classify_tcp_client_hello buf secret = Ok Claim
  | Panic => False
  | _ => True
  end.
Proof using L.
  unfold incoming_ok, classify_stream_fast. destruct (in_peek conn) as [buf|e]; [|by case_bool_decide].
  intros Hb. destruct (zlen _ =? 0); [done|].
  assert (bytes_ok (take (Z.to_nat PEEK_LEN) buf ++ drop (Z.to_nat PEEK_LEN) buf)) as Hb' by (by rewrite take_drop).
  pose proof (proj1 (proj1 (bytes_ok_app _ _) Hb')) as Ht.
  destruct (classify_total _ secret Ht) as [E|[E|[E _] ] ]; rewrite E; [|done..].
  exists buf. split; [done|]. rewrite <- (take_drop (Z.to_nat PEEK_LEN) buf). by apply classify_stable.
Qed.

Ltac door_accounts :=
  unfold door_num in *; cbn [dr_trace dr_metrics door_log door_count put_acc List.filter is_spawned is_fast is_cap_drop
    dm_tcp_accepted dm_tcp_empty_classification_evictions dm_tcp_frontdoor_cap_drops dm_dropped dm_claimed
    inc_tcp_accepted inc_tcp_empty_classification_evictions inc_tcp_frontdoor_cap_drops inc_tcp_dropped inc_tcp_claimed] in *;
  rewrite ?zlen_cons; lia.

Lemma door_log_ok secret n x d f :
  match x with
  | DSpawned _ _ => f = id
  | DAborted _ => False
  | DFastClaim _ seen => f = inc_tcp_claimed ∧ classify_tcp_client_hello seen secret = Ok Claim
  | DCapDrop _ => f = inc_tcp_dropped ∘ inc_tcp_frontdoor_cap_drops
  end → door_ok secret n 1 d → door_ok secret n 0 (door_log x (mkDoor (dr_acc d) (f (dr_metrics d)) (dr_trace d))).
Proof.
  intros Hx (Hr & H1 & H2 & H3 & H4 & H5 & H6 & H7). unfold door_ok. cbn [dr_acc door_log dr_trace dr_metrics].
  destruct x as [addr p|addr|addr seen|addr]; [|done|..].
  1: subst f; cbn [id]. 2: destruct Hx as [-> Hx]. 3: subst f; unfold compose.
  all: split_and!; [done|door_accounts..| |].
  all: try (intros ? [E|Hin]%elem_of_cons; [done|by eapply H6]).
  all: intros ? seen' [E|Hin]%elem_of_cons; [|by eapply H7]; by simplify_eq.
Qed.

Lemma accept_ok secret n conn d :
  incoming_ok conn → door_ok secret n 0 d →
  ∃ d', accept_connection others stream cap secret conn d = Ok d' ∧ door_ok secret (n + 1) 0 d'.
Proof using L Hcap Hothers.
  intros Hc Hd. pose proof Hd as (Hr & _). unfold accept_connection. cbn [dr_acc door_count].
  pose proof (admit_or_evict_steps cap others stream others_any (dr_acc d)) as Hs.
  pose proof (admit_or_evict_fresh (dr_acc d)) as Hf.
  destruct (admit_or_evict_empty cap others stream (dr_acc d)) as [s attempt]. cbn [fst] in Hs.
  assert (reach s.1) as Hr1 by (by etrans).
  set (d1 := if at_evicted_empty attempt then _ else _).
  assert (door_ok secret (n + 1) 1 d1 ∧ dr_acc d1 = s) as [Hd1 Es].
  { destruct Hd as (_ & H1 & H2 & H3 & H4 & H5 & H6 & H7). unfold d1, door_ok.
    destruct (at_evicted_empty attempt); (split; [split_and!; [done|door_accounts..|done|done]|done]). }
  destruct (at_permit attempt) as [p|] eqn:Ep.
  - specialize (Hf s attempt p Hr eq_refl Ep). rewrite Es.
    destruct (mark_fresh p (no_buffered_data (in_buffered conn)) s Hr1 Hf) as (s' & -> & Hr'). cbn [negb].
    eexists. split; [done|]. eapply (door_log_ok secret (n + 1) _ (put_acc (spawn_task p s') d1) id); [done|].
    destruct Hd1 as (_ & ?). by split.
  - unfold handle_over_cap_stream. pose proof (fast_verdict secret conn Hc) as Hv.
    assert (door_ok secret (n + 1) 0 (door_log (DCapDrop (in_addr conn))
      (door_count inc_tcp_dropped (door_count inc_tcp_frontdoor_cap_drops d1)))) as Hdrop
      by (by apply (door_log_ok secret (n + 1) (DCapDrop _) d1 (inc_tcp_dropped ∘ inc_tcp_frontdoor_cap_drops))).
    destruct (classify_stream_fast secret (in_peek conn)) as [[]|e|]; [|by eexists..|done].
    destruct Hv as (buf & -> & Hb). eexists. split; [done|]. by apply (door_log_ok secret (n + 1) _ d1 inc_tcp_claimed).
Qed.

(** The connections accepted before [run] returned. *)
Fixpoint accepted (events : list DoorEvent) : Z :=
  match events with DAccepted _ :: events => 1 + accepted events | _ => 0 end.

Lemma door_run_ok secret n events d :
  Forall (λ e, match e with DAccepted conn => incoming_ok conn | _ => True end) events → door_ok secret n 0 d →
  ∃ d' r, TcpFrontDoor_run others stream cap secret events d = Ok (d', r) ∧ door_ok secret (n + accepted events) 0 d'.
Proof using L Hcap Hothers.
  intros He. revert n d. induction He as [|e events He _ IH]; intros n d Hd.
  { exists d, None. by rewrite Z.add_0_r. }
  destruct e as [|conn|e]; cbn [TcpFrontDoor_run accepted].
  - exists d. eexists. by rewrite Z.add_0_r.
  - destruct (accept_ok secret n conn d He Hd) as (d1 & -> & Hd1). res_simpl.
    destruct (IH (n + 1) d1 Hd1) as (d2 & r & -> & Hd2). exists d2, r. by rewrite Z.add_assoc.
  - exists d. eexists. by rewrite Z.add_0_r.
Qed.
End DoorSpec.

(** ** Theorems *)

(** A classification task always ends and gives its permit back, whatever
    the peer, the clock, the acceptor and the other tasks do, as long as these
    take steps of their own; all its steps on the shared state are steps of
    the system, so the admission limit holds throughout.  It hands the
    connection to the VPN server only if the bytes the peer sends are
    classified as a claim, and proxies it only if they are classified as a
    pass, however they arrive; it says nothing only if its permit was taken;
    and it drops a connection only on a time-out, an end of the stream, a
    failed read, or because the acceptor held the stream at that moment. *)
Theorem tcp_task_spec `{B : Boring} {L : BoringLaws B} env cap permit stream secret timeout S0 clock tick :
  let n := pm_num permit in
  adm_inv cap S0 → sy_tasks S0 !! n = Some (permit, Held) →
  (∀ t s, rtc (other_step cap n) s (te_others env t s)) →
  bytes_ok stream → (∀ t buf, te_peek env t = PeekData buf → buf `prefix_of` stream) → 0 ≤ timeout →
  let s := mkTask S0 clock tick [] in
  ∃ s', classification_task env permit secret timeout s = (s', ORet tt) ∧
    rtc (any_step cap) S0 (tk_sys s') ∧ n ∉ slots (tk_sys s') ∧
    accounted env cap n permit S0 stream secret timeout s (tk_trace s') s'.
Proof.
  intros n Hinv HT Hothers Hs Hp Ht s.
  pose proof (wp_task env cap n permit S0 Hinv eq_refl Hothers stream Hs Hp secret timeout s (conj (rtc_refl _ _) HT) Ht) as H.
  unfold wp in H. destruct (classification_task env permit secret timeout s) as [s' [[]|e| |] ]; try done.
  destruct H as (Hr & Hn & acts & E & Ha). exists s'. split_and!; [done|done| |].
  - rewrite elem_of_slots, Hn. naive_solver.
  - cbn in E. rewrite app_nil_r in E. by rewrite E.
Qed.

(** The accept loop loses no connection.  Over any sequence of accepted
    connections, with tasks that do any steps of theirs in between, it does
    not panic; every accepted connection is handed to a task with a permit,
    claimed at once because what it sent already is a claim, or dropped and
    counted as over the limit, and the branch for a permit that is gone
    before its task starts is never taken; the metrics agree, and at most
    [cap] permits are out. *)
Theorem tcp_door_accounts `{B : Boring} {L : BoringLaws B} cap others stream secret events :
  0 ≤ cap → (∀ t s, rtc (task_step cap) s (others t s)) →
  Forall (λ e, match e with DAccepted conn => incoming_ok conn | _ => True end) events →
  ∃ d r, TcpFrontDoor_run others stream cap secret events Door_new = Ok (d, r) ∧
    door_ok cap secret (accepted events) 0 d ∧ Z.of_nat (size (slots (dr_acc d).1)) ≤ cap.
Proof.
  intros Hc Ho He. destruct (door_run_ok cap others stream Hc Ho secret 0 events Door_new He) as (d & r & Hd & Hok).
  { split_and!; try done; set_solver. }
  exists d, r. split_and!; [done..|]. destruct Hok as (Hr & _).
  destruct (adm_inv_reachable cap _ Hc Hr) as [_ _ _ _ Ha Hcap]. by rewrite <- Ha.
Qed.

(** A task whose peer has sent all of [sent], undisturbed. *)
Definition prompt (sent : bytes) : TaskEnv :=
  mkTaskEnv (λ _ s, s) (λ _, 0%N) (λ _, inl 1) (λ _, PeekData sent) (λ _, false) (λ _, inl tt).

(** A silent connection. *)
Definition silent_conn : Incoming := mkIncoming 7 (inr WouldBlock) (inr WouldBlock).

(** The first look of such a task decides. *)
Section Prompt.
Context `{B : Boring} (secret sent : bytes) (p : TcpAdmissionPermit).
Context (Hclaim : classify_tcp_client_hello sent secret = Ok Claim) (Hne : sent ≠ []) (Hlen : zlen sent ≤ PEEK_LEN).

Definition at_ease (s : Sys) : Prop :=
  pm_num p ∉ ad_released (sy_adm s) ∧ pm_num p ∉ ad_cancelled (sy_adm s).

(** A section of the task alone. *)
Lemma wp_alone {A} (f : TcpAdmission → TcpAdmission * A) Q X (D : Task → Prop) s :
  Q (f (sy_adm (tk_sys s))).2
    (mkTask (mkSys (f (sy_adm (tk_sys s))).1 (sy_tasks (tk_sys s))) (tk_clock s) (tk_tick s + 1) (tk_trace s)) →
  wp (on_adm (prompt sent) f) Q X D s.
Proof. unfold wp, on_adm, atomic. cbn [te_others prompt]. by destruct (f (sy_adm (tk_sys s))). Qed.

Lemma wp_told_alone Q X (D : Task → Prop) s :
  at_ease (tk_sys s) → (∀ tick, Q false (mkTask (tk_sys s) (tk_clock s) tick (tk_trace s))) → wp (told (prompt sent) p) Q X D s.
Proof.
  intros [_ Hc] HQ. unfold told. apply wp_bind, wp_alone, wp_bind. cbn [fst snd].
  rewrite bool_decide_false by done. unfold wp, ask. cbn. destruct s as [[]]. apply HQ.
Qed.

Lemma wp_peek_alone Q X (D : Task → Prop) s :
  at_ease (tk_sys s) → (∀ tick, Q (inl sent) (mkTask (tk_sys s) (tk_clock s) tick (tk_trace s))) →
  wp (peek_with_deadline (prompt sent) p) Q X D s.
Proof using Hlen.
  intros He HQ. unfold peek_with_deadline. apply wp_bind, wp_told_alone; [done|]. intros tick.
  apply wp_bind. unfold wp, ask. cbn [te_peek prompt tk_sys tk_clock tk_tick tk_trace].
  change (Q (inl (take (Z.to_nat PEEK_LEN) sent)) (mkTask (tk_sys s) (tk_clock s) (tick + 1) (tk_trace s))).
  rewrite take_ge by (unfold zlen in *; lia). apply HQ.
Qed.

Lemma wp_now_alone Q X (D : Task → Prop) s :
  (∀ tick, Q (tk_clock s) (mkTask (tk_sys s) (tk_clock s) tick (tk_trace s))) → wp (now (prompt sent)) Q X D s.
Proof. intros HQ. unfold wp, now. cbn [te_lag prompt]. change (Z.of_N 0) with 0. rewrite Z.add_0_r. apply HQ. Qed.

(** Marking takes the entry off the queue. *)
Definition unqueued (s : Sys) : Sys := mkSys (remove_no_data_locked (pm_id p) (sy_adm s)).1 (sy_tasks s).

Lemma unqueued_at_ease s : at_ease s → at_ease (unqueued s).
Proof.
  unfold at_ease, unqueued, remove_no_data_locked. cbn [sy_adm].
  destruct (ad_no_data _ !! _) as [e|]; [|done]. by destruct (nd_prev e), (nd_next e).
Qed.

Lemma wp_mark_alone Q X (D : Task → Prop) s :
  at_ease (tk_sys s) → (∀ tick, Q true (mkTask (unqueued (tk_sys s)) (tk_clock s) tick (tk_trace s))) →
  wp (on_adm (prompt sent) (mark_data_seen p)) Q X D s.
Proof.
  intros [Hr _] HQ. apply wp_alone. unfold mark_data_seen, released. rewrite bool_decide_false by done. apply HQ.
Qed.

Lemma wp_is_released_alone Q X (D : Task → Prop) s :
  at_ease (tk_sys s) → (∀ tick, Q false (mkTask (tk_sys s) (tk_clock s) tick (tk_trace s))) →
  wp (look (prompt sent) (is_released p)) Q X D s.
Proof.
  intros [Hr _] HQ. apply wp_alone. unfold is_released, released. cbn [fst snd]. rewrite bool_decide_false by done.
  destruct s as [[]]. apply HQ.
Qed.

Lemma wp_examine_alone deadline last delay Q X (D : Task → Prop) s :
  at_ease (tk_sys s) → (∀ tick, Q (inl (OutVerdict Claim)) (mkTask (unqueued (tk_sys s)) (tk_clock s) tick (tk_trace s))) →
  wp (examine (prompt sent) p secret deadline false last delay sent) Q X D s.
Proof using Hclaim Hne Hlen.
  intros He HQ. unfold examine. apply wp_bind, wp_is_released_alone; [done|]. intros t1. cbv zeta.
  destruct (Z.eqb_spec (zlen sent) 0) as [E|_]; [by destruct sent|].
  apply wp_bind, wp_mark_alone; [done|]. intros t2. cbn [negb]. rewrite Hclaim. apply wp_ret, HQ.
Qed.

Lemma prompt_claims timeout s :
  0 < timeout → at_ease (tk_sys s) →
  wp (classify_admitted_stream (prompt sent) p secret timeout)
    (λ o s', o = Some (OutVerdict Claim) ∧ tk_trace s' = tk_trace s ∧ sy_tasks (tk_sys s') = sy_tasks (tk_sys s) ∧
       ad_probed (sy_adm (tk_sys s')) = ad_probed (sy_adm (tk_sys s)) ∧ at_ease (tk_sys s')) (λ _ _, False) (λ _, False) s.
Proof using Hclaim Hne Hlen.
  intros Ht He. unfold classify_admitted_stream, classify_fuel. rewrite Nat.add_comm. cbn [Nat.add].
  apply wp_bind, wp_now_alone. intros t1. cbn [classify_loop].
  apply wp_bind, wp_is_released_alone; [done|]. intros t2. apply wp_bind, wp_now_alone. intros t3.
  cbn [tk_clock tk_sys tk_trace]. destruct (Z.leb_spec (tk_clock s + timeout) (tk_clock s)) as [|_]; [lia|].
  apply wp_bind. unfold mark_no_data_if_empty. apply wp_bind. unfold wp at 1, ask. cbn [te_buffered prompt no_buffered_data].
  change (1 =? 0) with false. cbn iota. apply wp_mark_alone; [done|]. intros t4. cbn [negb].
  apply wp_bind, wp_peek_alone; [by apply unqueued_at_ease|]. intros t5.
  apply wp_bind, wp_examine_alone; [by apply unqueued_at_ease|]. intros t6. apply wp_ret.
  assert (∀ s0, ad_probed (sy_adm (unqueued s0)) = ad_probed (sy_adm s0)) as Hp.
  { intros s0. unfold unqueued, remove_no_data_locked. destruct (ad_no_data _ !! _) as [e|]; [|done].
    by destruct (nd_prev e), (nd_next e). }
  split_and!; [done..| |by apply unqueued_at_ease, unqueued_at_ease]. cbn [tk_sys]. by rewrite !Hp.
Qed.

Lemma wp_drop_alone Q X (D : Task → Prop) s :
  (∀ s', tk_trace s' = tk_trace s → Q tt s') → wp (drop_permit (prompt sent) p) Q X D s.
Proof.
  intros HQ. unfold drop_permit. apply wp_bind. unfold wp, atomic. cbn [te_others prompt drop_swap].
  destruct (released _ _); by apply HQ.
Qed.

(** Whether the task owns the stream alone decides. *)
Lemma prompt_task timeout s :
  0 < timeout → at_ease (tk_sys s) → tk_trace s = [] →
  ∃ r, classification_task (prompt sent) p secret timeout s = (r, ORet tt) ∧
    tk_trace r = if bool_decide (ad_probed (sy_adm (tk_sys s)) = Some (pm_num p)) then [TDropped] else [TClaimed].
Proof using Hclaim Hne Hlen.
  intros Ht He Hs.
  assert (wp (classification_task (prompt sent) p secret timeout) (λ _ r, tk_trace r =
    if bool_decide (ad_probed (sy_adm (tk_sys s)) = Some (pm_num p)) then [TDropped] else [TClaimed]) (λ _ _, False) (λ _, False) s) as H.
  { unfold classification_task. apply wp_bind, wp_result. eapply wp_weaken; [by apply prompt_claims| |done|done].
    intros o s1 (-> & E1 & _ & Ep & _). unfold handle_claimed_stream, into_inner. apply wp_bind, wp_alone. cbn [fst snd].
    rewrite Ep. case_bool_decide; cbn [negb].
    - apply wp_bind, wp_modify, wp_drop_alone. intros s' ->. cbn. by rewrite E1, Hs.
    - apply wp_bind, wp_drop_alone. intros s' E. apply wp_modify. cbn. rewrite E. cbn. by rewrite E1, Hs. }
  unfold wp in H. destruct (classification_task (prompt sent) p secret timeout s) as [r [[]|e| |] ]; [|done..]. by exists r.
Qed.
End Prompt.

(** A race that loses a client.  With a limit of one and one silent
    connection admitted, the acceptor that makes room for another finds this
    connection on its list and holds its stream while it looks at it.  If the
    ClientHello of a VPN client arrives on it in this moment, the task
    classifies it as a claim and then drops the connection, because it is not
    the only owner of the stream; without the acceptor it hands the
    connection to the VPN server. *)
Theorem claim_lost_while_probed `{B : Boring} secret sent timeout :
  classify_tcp_client_hello sent secret = Ok Claim → zlen sent ≤ PEEK_LEN → 0 < timeout →
  ∃ d, TcpFrontDoor_run (λ _ s, s) (λ _ _, None) 1 secret [DAccepted silent_conn] Door_new = Ok (d, None) ∧
    let s := (dr_acc d).1 in
    let p := mkPermit 0 0 in
    let looking := mkSys (hold (Some 0) (sy_adm s)) (sy_tasks s) in
    (∀ others t, is_empty others (λ _ _, Some true) 0 (s, t) =
       let s' := others t looking in ((mkSys (hold None (sy_adm s')) (sy_tasks s'), t + 1), true)) ∧
    admit_if_under_cap 1 (sy_adm s) = (sy_adm s, None) ∧
    id_permit <$> eviction_candidates 1 (sy_adm s) = [(0, 0)] ∧
    (∃ r, classification_task (prompt sent) p secret timeout (mkTask looking 0 0 []) = (r, ORet tt) ∧ tk_trace r = [TDropped]) ∧
    (∃ r, classification_task (prompt sent) p secret timeout (mkTask s 0 0 []) = (r, ORet tt) ∧ tk_trace r = [TClaimed]).
Proof.
  intros Hc Hl Ht. assert (sent ≠ []) as Hne by (intros ->; vm_compute in Hc; done).
  eexists. split; [vm_compute; reflexivity|]. cbn zeta. split_and!; [done|vm_compute; reflexivity..| |].
  - destruct (prompt_task secret sent (mkPermit 0 0) Hc Hne Hl timeout
      (mkTask (mkSys (hold (Some 0) (mkAdmission 1 1 {[0 := mkNode 0 None None]} (Some 0) (Some 0) 1 ∅ ∅ None))
        {[0 := (mkPermit 0 0, Held)]}) 0 0 [])) as (r & Hr & E); [done|by split|done|]. by exists r.
  - destruct (prompt_task secret sent (mkPermit 0 0) Hc Hne Hl timeout
      (mkTask (mkSys (mkAdmission 1 1 {[0 := mkNode 0 None None]} (Some 0) (Some 0) 1 ∅ ∅ None)
        {[0 := (mkPermit 0 0, Held)]}) 0 0 [])) as (r & Hr & E); [done|by split|done|]. by exists r.
Qed.

(** ** Witnesses *)
Section FrontDoorWitnesses.
Import Checksum.

(** One silent connection behind the door. *)
Definition one_conn : Door :=
  match TcpFrontDoor_run (λ _ s, s) (λ _ _, None) 1 (secret 5) [DAccepted silent_conn] Door_new with
  | Ok (d, _) => d
  | _ => Door_new
  end.

Lemma one_conn_inv : adm_inv 1 (dr_acc one_conn).1.
Proof.
  destruct (door_run_ok 1 (λ _ s, s) (λ _ _, None) ltac:(lia) ltac:(done) (secret 5) 0 [DAccepted silent_conn] Door_new)
    as (d & r & E & Hr & _).
  { repeat constructor. }
  { split_and!; try done; set_solver. }
  apply adm_inv_reachable; [lia|]. unfold one_conn. rewrite E. done.
Qed.

Lemma tcp_task_spec_witness :
  ∃ s', classification_task (prompt demo_wire) (mkPermit 0 0) (secret 5) 100 (mkTask (dr_acc one_conn).1 0 0 []) = (s', ORet tt) ∧
    0 ∉ slots (tk_sys s').
Proof.
  destruct (tcp_task_spec (prompt demo_wire) 1 (mkPermit 0 0) demo_wire (secret 5) 100 (dr_acc one_conn).1 0 0)
    as (s' & H1 & _ & H2 & _).
  { exact one_conn_inv. }
  { vm_compute. reflexivity. }
  { intros t s. apply rtc_refl. }
  { decided. }
  { intros t buf [= <-]. exists []. symmetry. apply app_nil_r. }
  { lia. }
  exists s'. exact (conj H1 H2).
Defined.

Lemma claim_lost_while_probed_witness :
  ∃ d, TcpFrontDoor_run (λ _ s, s) (λ _ _, None) 1 (secret 5) [DAccepted silent_conn] Door_new = Ok (d, None) ∧
    ∃ r, classification_task (prompt demo_wire) (mkPermit 0 0) (secret 5) 100
      (mkTask (mkSys (hold (Some 0) (sy_adm (dr_acc d).1)) (sy_tasks (dr_acc d).1)) 0 0 []) = (r, ORet tt) ∧ tk_trace r = [TDropped].
Proof.
  destruct (claim_lost_while_probed (secret 5) demo_wire 100) as (d & H1 & _ & _ & _ & H2 & _);
    [vm_compute; reflexivity|vm_compute; discriminate|lia|].
  exists d. exact (conj H1 H2).
Defined.
End FrontDoorWitnesses.
