(* ===== verification/TunPath.v ===== *)
(** * The TUN device: batches, readers and writers

    Shared batches and the attach checks ([slt-core/src/transport/tun.rs]),
    the queue of the server's sessions to the writer ([slt-server/src/tun.rs]),
    the server's reader and writer tasks
    ([slt-server/src/server_runtime/tun_workers.rs]) and the client's
    ([slt-client/src/tun/desktop.rs], [slt-client/src/tun/mod.rs]).

    The device itself ([tun-rs]) is a parameter: what a read puts into the
    buffers, and what a write leaves in them.  Tasks that fill the queues, the
    cancellation and the registry are answers of an environment. *)

From stdpp Require Import base tactics option list numbers gmap.
From Stdlib Require Import ZArith Lia.
From S2P Require Import Prelude Effects Framing IpPacket Config Registry ServerState.

Definition DEFAULT_TUN_CHANNEL_SIZE : Z := 256.
Definition MAX_TUN_PACKET_SIZE : Z := 65535.

Definition tun_mtu_to_usize (mtu : Z) : res IoError Z := if mtu =? 0 then Err InvalidInput else Ok mtu.

(** The constants of [tun-rs]. *)
Class TunRs := { IDEAL_BATCH_SIZE : Z; VIRTIO_NET_HDR_LEN : Z }.
Class TunRsLaws (T : TunRs) := { batch_size_pos : 0 < IDEAL_BATCH_SIZE; hdr_len_pos : 0 < VIRTIO_NET_HDR_LEN }.

(** ** Attaching *)
Inductive TunAttachError :=
  | Attach (source : IoError)
  | Inspect (source : IoError)
  | MtuMismatch (actual expected : Z)
  | NotRunning
  | MissingIpv4 (expected : Ipv4Addr)
  | OffloadDisabled.

(** What the device answers when it is inspected. *)
Record Device := mkDevice {
  dv_mtu : io_result Z;
  dv_is_running : io_result bool;
  dv_addresses : io_result (list Ipv4Addr);
  dv_tcp_gso : bool;
}.

Definition inspect_tun {A} (answer : io_result A) : res TunAttachError A :=
  match answer with inl a => Ok a | inr e => Err (Inspect e) end.

Definition validate_async_tun_device (device : Device) (config : TunConfig) : res TunAttachError unit :=
  actual_mtu ← inspect_tun (dv_mtu device);
  if negb (actual_mtu =? tun_mtu config) then Err (MtuMismatch actual_mtu (tun_mtu config)) else
  is_running ← inspect_tun (dv_is_running device);
  if negb is_running then Err NotRunning else
  addresses ← inspect_tun (dv_addresses device);
  if negb (bool_decide (tun_ipv4 config ∈ addresses)) then Err (MissingIpv4 (tun_ipv4 config)) else
  if negb (dv_tcp_gso device) then Err OffloadDisabled else Ok tt.

Definition build_async_tun_device (built : io_result Device) (config : TunConfig) : res TunAttachError Device :=
  match built with
  | inr e => Err (Attach e)
  | inl device => _ ← validate_async_tun_device device config; Ok device
  end.

(** A device is used only as it is configured. *)
Lemma attach_iff device config :
  build_async_tun_device (inl device) config = Ok device ↔
  dv_mtu device = inl (tun_mtu config) ∧ dv_is_running device = inl true ∧ dv_tcp_gso device = true ∧
  ∃ addresses, dv_addresses device = inl addresses ∧ tun_ipv4 config ∈ addresses.
Proof.
  destruct device as [ [mtu|?] [ru|?] [addrs|?] gso]; unfold build_async_tun_device, validate_async_tun_device;
    cbn [dv_mtu dv_is_running dv_addresses dv_tcp_gso inspect_tun]; res_simpl; try (split; [done|naive_solver]).
  all: destruct (Z.eqb_spec mtu (tun_mtu config)); cbn [negb]; res_simpl; [|split; [done|naive_solver]].
  all: try (split; [done|naive_solver]).
  all: destruct ru; cbn [negb]; res_simpl; [|split; [done|naive_solver]]; try (split; [done|naive_solver]).
  case_bool_decide; cbn [negb]; res_simpl; [|split; [done|naive_solver]].
  destruct gso; cbn [negb]; res_simpl; split; naive_solver.
Qed.

(** ** Batches *)
Section Batches.
Context `{T : TunRs}.

Record LinuxRecvBatch := mkRecvBatch { split_buffers : list bytes; split_sizes : list Z }.

(** [recv_args]' first buffer is scratch space of the device. *)
Definition LinuxRecvBatch_new (mtu : Z) : res IoError LinuxRecvBatch :=
  mtu ← tun_mtu_to_usize mtu;
  let min_split_buffers := MAX_TUN_PACKET_SIZE / mtu + 1 in
  let split_buffer_count := Z.max IDEAL_BATCH_SIZE min_split_buffers in
  Ok (mkRecvBatch (replicate (Z.to_nat split_buffer_count) (zeros mtu)) (zeros split_buffer_count)).

Definition packet_len {E} (b : LinuxRecvBatch) (i : Z) : res E Z := index (split_sizes b) i.

Definition packet {E} (b : LinuxRecvBatch) (i : Z) : res E bytes :=
  size ← packet_len b i;
  match split_buffers b !! Z.to_nat i with
  | Some buf => slice buf 0 size
  | None => Panic
  end.

(** A [Vec<u8>]; what a packet may take is decided by the capacity. *)
Record Vec := mkVec { v_data : bytes; v_cap : Z }.

Record LinuxSendBatch := mkSendBatch { sb_buffers : list Vec; sb_count : Z; sb_payload_bytes : Z }.

(** [vec!] makes vectors whose capacity is their length. *)
Definition LinuxSendBatch_new : LinuxSendBatch :=
  let len := VIRTIO_NET_HDR_LEN + MAX_TUN_PACKET_SIZE in
  mkSendBatch (replicate (Z.to_nat IDEAL_BATCH_SIZE) (mkVec (zeros len) len)) 0 0.

Definition clear (b : LinuxSendBatch) : LinuxSendBatch := mkSendBatch (sb_buffers b) 0 0.
Definition is_full (b : LinuxSendBatch) : bool := sb_count b =? zlen (sb_buffers b).
Definition header_offset : Z := VIRTIO_NET_HDR_LEN.

Record PacketTooLarge := mkTooLarge { too_len : Z; too_max : Z }.

Definition max_payload_len {E} (b : LinuxSendBatch) : res E Z :=
  match sb_buffers b with
  | v :: _ => Ok (saturating_sub (v_cap v) header_offset)
  | [] => Panic
  end.

(** [Vec::resize] with zeros, within the capacity. *)
Definition resize (n : Z) (data : bytes) : bytes := take (Z.to_nat n) data ++ zeros (n - zlen data).

Definition append_packet_to_batch_buffer (buffer : Vec) (pkt : bytes) (offset : Z) : res PacketTooLarge Vec :=
  let max := saturating_sub (v_cap buffer) offset in
  if zlen pkt >? max then Err (mkTooLarge (zlen pkt) max) else
  let packet_len := offset + zlen pkt in
  let data := if negb (zlen (v_data buffer) =? packet_len) then resize packet_len (v_data buffer) else v_data buffer in
  if packet_len <=? zlen data then Ok (mkVec (take (Z.to_nat offset) data ++ pkt ++ drop (Z.to_nat packet_len) data) (v_cap buffer))
  else Panic.

Definition push_packet (b : LinuxSendBatch) (pkt : bytes) : LinuxSendBatch * res PacketTooLarge unit :=
  if is_full b then
    (b, match max_payload_len (E := PacketTooLarge) b with Ok max => Err (mkTooLarge (zlen pkt) max) | _ => Panic end)
  else
  match sb_buffers b !! Z.to_nat (sb_count b) with
  | None => (b, Panic)
  | Some buffer =>
      match append_packet_to_batch_buffer buffer pkt header_offset with
      | Ok buffer =>
          (mkSendBatch (<[Z.to_nat (sb_count b) := buffer]> (sb_buffers b)) (sb_count b + 1) (sb_payload_bytes b + zlen pkt), Ok tt)
      | Err e => (b, Err e)
      | Panic => (b, Panic)
      end
  end.

(** [queued_buffers_mut] *)
Definition queued (b : LinuxSendBatch) : list Vec := take (Z.to_nat (sb_count b)) (sb_buffers b).
Definition put_queued (vs : list Vec) (b : LinuxSendBatch) : LinuxSendBatch :=
  mkSendBatch (vs ++ drop (Z.to_nat (sb_count b)) (sb_buffers b)) (sb_count b) (sb_payload_bytes b).
End Batches.

(** ** The writer's queue *)

(** [TunSender::accept_packet]: the queue, the counter of drops, and the
    outcome; [closed] when the writer is gone. *)
Definition TunSender_accept_packet {F} (cap : Z) (closed : bool) (len : F → Z) (frame : F) (s : list F * Z)
    : (list F * Z) * TunPacketSendOutcome :=
  let '(queue, drops) := s in
  if closed then (s, TunClosed) else
  if zlen queue <? cap then ((queue ++ [frame], drops), TunAccepted) else ((queue, drops + 1), TunDropped (len frame)).

(** ** Writers: [run_writer] of the server and [run_tun_writer] of the client *)

(** What a frame of the queue holds for the device: the server queues packets,
    the client frames of which only non-empty DATA counts. *)
Definition server_payload (frame : bytes) : option bytes := Some frame.
Definition client_payload (frame : Message) : option bytes :=
  match frame with
  | MData pkt => if bool_decide (pkt = []) then None else Some pkt
  | _ => None
  end.

(** Around the i-th step: the queue after the other tasks, whether all of
    these are gone, whether the cancellation wins its [select!], and the device
    with the buffers it leaves. *)
Record WriterEnv (F : Type) := mkWriterEnv {
  we_queue : Z → list F → list F;
  we_closed : Z → bool;
  we_cancel : Z → bool;
  we_send : Z → list Vec → list Vec * io_result Z;
}.
Arguments mkWriterEnv {F} _ _ _ _.
Arguments we_queue {F} _ _ _.
Arguments we_closed {F} _ _.
Arguments we_cancel {F} _ _.
Arguments we_send {F} _ _ _.

(** The loop waits for a first frame, drains the queue, or writes. *)
Inductive writer_pc := First | Drain | Write.

(** [wr_accepted] is what the other tasks have queued and [wr_written] what was
    given to the device, the newest first, batch by batch. *)
Record Writer (F : Type) := mkWriter {
  wr_pc : writer_pc;
  wr_queue : list F;
  wr_batch : LinuxSendBatch;
  wr_tick : Z;
  wr_accepted : list F;
  wr_written : list (list bytes);
}.
Arguments mkWriter {F} _ _ _ _ _ _.
Arguments wr_pc {F} _.
Arguments wr_queue {F} _.
Arguments wr_batch {F} _.
Arguments wr_tick {F} _.
Arguments wr_accepted {F} _.
Arguments wr_written {F} _.

Section Writer.
Context `{T : TunRs} {F : Type} (payload : F → option bytes) (env : WriterEnv F).
Implicit Type s : Writer F.

Definition Writer_new : Writer F := mkWriter First [] LinuxSendBatch_new 0 [] [].

(** The other tasks between two steps. *)
Definition refill s : Writer F :=
  let queue := we_queue env (wr_tick s) (wr_queue s) in
  mkWriter (wr_pc s) queue (wr_batch s) (wr_tick s + 1) (wr_accepted s ++ drop (length (wr_queue s)) queue) (wr_written s).
Definition goto (pc : writer_pc) (queue : list F) (b : LinuxSendBatch) s : Writer F :=
  mkWriter pc queue b (wr_tick s) (wr_accepted s) (wr_written s).

(** The payloads of the queued buffers, behind the header the device fills. *)
Definition batch_packets (b : LinuxSendBatch) : list bytes := (λ v, drop (Z.to_nat header_offset) (v_data v)) <$> queued b.

(** Taking [frame] up; a packet that is too large is logged and dropped. *)
Definition take_up (frame : F) (b : LinuxSendBatch) : res unit (LinuxSendBatch * bool) :=
  match payload frame with
  | None => Ok (b, false)
  | Some pkt =>
      match push_packet b pkt with
      | (b, Ok _) => Ok (b, true)
      | (b, Err _) => Ok (b, false)
      | (_, Panic) => Panic
      end
  end.

(** One step; [Some] is the result the task returns. *)
Definition writer_step s : res unit (Writer F * option (io_result unit)) :=
  let t := wr_tick s in
  let s := refill s in
  match wr_pc s with
  | First =>
      let b := clear (wr_batch s) in
      if we_cancel env t then Ok (s, Some (inl tt)) else
      match wr_queue s with
      | [] => if we_closed env t then Ok (s, Some (inl tt)) else Ok (goto First [] b s, None)
      | frame :: queue =>
          r ← take_up frame b;
          Ok (goto (if (r.2 : bool) then Drain else First) queue r.1 s, None)
      end
  | Drain =>
      if is_full (wr_batch s) then Ok (goto Write (wr_queue s) (wr_batch s) s, None) else
      match wr_queue s with
      | [] => if we_closed env t then Ok (s, Some (inl tt)) else Ok (goto Write [] (wr_batch s) s, None)
      | frame :: queue =>
          r ← take_up frame (wr_batch s);
          Ok (goto Drain queue r.1 s, None)
      end
  | Write =>
      if we_cancel env t then Ok (s, Some (inl tt)) else
      let '(vs, sent) := we_send env t (queued (wr_batch s)) in
      let written := batch_packets (wr_batch s) in
      let s := mkWriter First (wr_queue s) (put_queued vs (wr_batch s)) (wr_tick s) (wr_accepted s) (written :: wr_written s) in
      match sent with
      | inl _ => Ok (s, None)
      | inr e => Ok (s, Some (inr e))
      end
  end.

Fixpoint writer_steps (n : nat) s : res unit (Writer F * option (io_result unit)) :=
  match n with
  | O => Ok (s, None)
  | S n =>
      r ← writer_step s;
      match r.2 with
      | Some _ => Ok r
      | None => writer_steps n r.1
      end
  end.
End Writer.

(** ** Readers: [run_reader] of the server and [run_tun_reader] of the client *)

Inductive QueueRoom := Room | Full | Closed.

(** What becomes of a packet. *)
Inductive reader_action :=
  | RHanded (t : Z) (tx : SessionTx) (pkt : bytes)
  | RFull (t : Z) (tx : SessionTx) (pkt : bytes)
  | RClosed (t : Z) (tx : SessionTx) (pkt : bytes)
  | RNoSession (t : Z) (pkt : bytes)
  | RNoAddress (t : Z) (pkt : bytes)
  | RWrongSource (t : Z) (pkt : bytes).

(** [re_recv] is the i-th read and [re_packets] what arrived for it; the others
    are asked for the i-th packet.  On the client [re_room] is the queue of the
    session, with [Full] when the cancellation ended the wait for room. *)
Record ReaderEnv := mkReaderEnv {
  re_cancel : Z → bool;
  re_recv : Z → LinuxRecvBatch → LinuxRecvBatch * io_result Z;
  re_packets : Z → list bytes;
  re_registry : Z → Registry;
  re_room : Z → SessionTx → QueueRoom;
}.

Record Reader := mkReader {
  rd_batch : LinuxRecvBatch;
  rd_reads : Z;
  rd_tick : Z;
  rd_queue_full_drops : Z;
  rd_trace : list reader_action;
}.

Section Reader.
Context `{T : TunRs} (env : ReaderEnv).
Abbreviation M := (eff Reader IoError).

Definition rd_log (a : reader_action) : M unit :=
  modify (λ s, mkReader (rd_batch s) (rd_reads s) (rd_tick s) (rd_queue_full_drops s) (a :: rd_trace s)).
Definition rd_next : M Z := λ s,
  (mkReader (rd_batch s) (rd_reads s) (rd_tick s + 1) (rd_queue_full_drops s) (rd_trace s), ORet (rd_tick s)).
Definition inc_tun_session_queue_full_drops : M unit :=
  modify (λ s, mkReader (rd_batch s) (rd_reads s) (rd_tick s) (rd_queue_full_drops s + 1) (rd_trace s)).
Definition recv_multiple : M Z := λ s,
  match re_recv env (rd_reads s) (rd_batch s) with
  | (b, inl n) => (mkReader b (rd_reads s + 1) (rd_tick s) (rd_queue_full_drops s) (rd_trace s), ORet n)
  | (b, inr e) => (mkReader b (rd_reads s) (rd_tick s) (rd_queue_full_drops s) (rd_trace s), OErr e)
  end.
(** A call that can panic but has no error. *)
Definition pure {A} (r : res unit A) : M A := try (λ _, InvalidData) r.

(** What the server does with a packet; a handler answers [true] to end the
    task with [Ok(())]. *)
Definition route_packet (pkt : bytes) : M bool :=
  t ← rd_next;
  dst ← pure (extract_dst_ipv4 pkt);
  match dst with
  | None => _ ← rd_log (RNoAddress t pkt); mret false
  | Some dst_ip =>
      match lookup_ip (re_registry env t) dst_ip with
      | Some tx =>
          match re_room env t tx with
          | Room => _ ← rd_log (RHanded t tx pkt); mret false
          | Full => _ ← inc_tun_session_queue_full_drops; _ ← rd_log (RFull t tx pkt); mret false
          | Closed => _ ← rd_log (RClosed t tx pkt); mret false
          end
      | None => _ ← rd_log (RNoSession t pkt); mret false
      end
  end.

(** What the client does with a packet; its session has the one queue. *)
Definition admit_packet (assigned_ipv4 : Ipv4Addr) (session : SessionTx) (pkt : bytes) : M bool :=
  t ← rd_next;
  src ← pure (extract_src_ipv4 pkt);
  match src with
  | None => _ ← rd_log (RNoAddress t pkt); mret false
  | Some src_ip =>
      if negb (bool_decide (src_ip = assigned_ipv4)) then _ ← rd_log (RWrongSource t pkt); mret false else
      match re_room env t session with
      | Room => _ ← rd_log (RHanded t session pkt); mret false
      | Closed => _ ← rd_log (RClosed t session pkt); mret true
      | Full => _ ← rd_log (RFull t session pkt); mret true
      end
  end.

(** The [for] over the packets of a read, [n] of them from index [i]. *)
Fixpoint for_packets (handle : bytes → M bool) (i : Z) (n : nat) : M bool :=
  match n with
  | O => mret false
  | S n =>
      s ← get;
      size ← pure (packet_len (rd_batch s) i);
      ended ← (if size =? 0 then mret false else
               pkt ← pure (packet (rd_batch s) i);
               handle pkt);
      if (ended : bool) then mret true else for_packets handle (i + 1) n
  end.

(** [fuel] turns of the loop; [false] when the task still runs. *)
Fixpoint read_loop (handle : bytes → M bool) (fuel : nat) : M bool :=
  match fuel with
  | O => mret false
  | S fuel =>
      s ← get;
      if re_cancel env (rd_reads s) then mret true else
      count ← recv_multiple;
      ended ← for_packets handle 0 (Z.to_nat count);
      if (ended : bool) then mret true else read_loop handle fuel
  end.

Definition run_reader (handle : bytes → M bool) (mtu : Z) (fuel : nat) : res IoError (Reader * outcome IoError bool) :=
  recv_batch ← LinuxRecvBatch_new mtu;
  Ok (read_loop handle fuel (mkReader recv_batch 0 0 0 [])).
End Reader.

(** ** Sending batches *)
Section SendBatch.
Context `{T : TunRs} {L : TunRsLaws T}.

(** A batch of the writer: all its buffers have room for any packet. *)
Definition batch_ok (b : LinuxSendBatch) : Prop :=
  zlen (sb_buffers b) = IDEAL_BATCH_SIZE ∧ 0 ≤ sb_count b ≤ IDEAL_BATCH_SIZE ∧
  Forall (λ v, VIRTIO_NET_HDR_LEN + MAX_TUN_PACKET_SIZE ≤ v_cap v) (sb_buffers b).

Lemma batch_new_ok : batch_ok LinuxSendBatch_new.
Proof using L.
  pose proof batch_size_pos. unfold batch_ok, LinuxSendBatch_new. cbn [sb_buffers sb_count]. split_and!; [|lia|lia|].
  - unfold zlen. rewrite length_replicate. lia.
  - by apply Forall_replicate.
Qed.

Lemma clear_ok b : batch_ok b → batch_ok (clear b).
Proof. intros (? & ? & ?). split_and!; [done|cbn; lia..|done]. Qed.

Lemma zlen_resize n data : 0 ≤ n → zlen (resize n data) = n.
Proof. intros Hn. unfold resize, zlen, zeros. rewrite length_app, length_take, length_replicate. lia. Qed.

(** Whatever the buffer held before, it holds the packet behind the header. *)
Lemma append_ok v pkt :
  VIRTIO_NET_HDR_LEN + MAX_TUN_PACKET_SIZE ≤ v_cap v → zlen pkt ≤ MAX_TUN_PACKET_SIZE →
  ∃ v', append_packet_to_batch_buffer v pkt header_offset = Ok v' ∧ v_cap v' = v_cap v ∧
    drop (Z.to_nat header_offset) (v_data v') = pkt.
Proof using L.
  intros Hc Hp. pose proof hdr_len_pos as Hh. pose proof (zlen_nonneg pkt). unfold append_packet_to_batch_buffer, header_offset, saturating_sub.
  destruct (Z.gtb_spec (zlen pkt) (Z.max 0 (v_cap v - VIRTIO_NET_HDR_LEN))) as [Hg|_]; [lia|].
  set (n := VIRTIO_NET_HDR_LEN + zlen pkt).
  set (data := if negb (zlen (v_data v) =? n) then resize n (v_data v) else v_data v).
  assert (zlen data = n) as Hd.
  { subst data. destruct (Z.eqb_spec (zlen (v_data v)) n); cbn [negb]; [done|]. apply zlen_resize. lia. }
  rewrite (proj2 (Z.leb_le _ _)) by lia. eexists. split_and!; [done..|]. cbn [v_data].
  unfold zlen in *. rewrite drop_app_length' by (rewrite length_take; lia).
  rewrite (drop_ge data) by lia. apply app_nil_r.
Qed.

Lemma push_ok b pkt :
  batch_ok b → is_full b = false → zlen pkt ≤ MAX_TUN_PACKET_SIZE →
  ∃ b', push_packet b pkt = (b', Ok tt) ∧ batch_ok b' ∧ sb_count b' = sb_count b + 1 ∧
    batch_packets b' = batch_packets b ++ [pkt].
Proof using L.
  intros (Hl & Hc & Hf) Hfull Hp. unfold push_packet. rewrite Hfull. unfold is_full in Hfull. apply Z.eqb_neq in Hfull.
  assert (Z.to_nat (sb_count b) < length (sb_buffers b))%nat as Hlt by (unfold zlen in *; lia).
  destruct (lookup_lt_is_Some_2 _ _ Hlt) as [v Hv]. rewrite Hv.
  assert (VIRTIO_NET_HDR_LEN + MAX_TUN_PACKET_SIZE ≤ v_cap v) as Hcv by (by eapply Forall_lookup_1 in Hf).
  destruct (append_ok v pkt Hcv Hp) as (v' & -> & Ec & Ed). eexists. split; [done|]. split_and!.
  - split_and!; cbn [sb_buffers sb_count]; [unfold zlen in *; rewrite length_insert; lia|lia|lia|].
    apply Forall_insert; [done|lia].
  - done.
  - unfold batch_packets, queued. cbn [sb_buffers sb_count]. replace (Z.to_nat (sb_count b + 1)) with (S (Z.to_nat (sb_count b))) by lia.
    rewrite (take_S_r _ _ v') by (by apply list_lookup_insert_eq). rewrite take_insert_ge by lia. by rewrite fmap_app; cbn; rewrite Ed.
Qed.

Lemma put_queued_ok b vs :
  batch_ok b → Forall2 (λ v v', v_cap v ≤ v_cap v') (queued b) vs → batch_ok (put_queued vs b).
Proof.
  intros (Hl & Hc & Hf) Hvs. assert (length vs = Z.to_nat (sb_count b)) as Lv.
  { rewrite <- (Forall2_length _ _ _ Hvs). unfold queued. rewrite length_take. unfold zlen in *. lia. }
  split_and!; cbn [sb_buffers sb_count put_queued]; [|lia|lia|].
  - unfold zlen in *. rewrite length_app, length_drop. lia.
  - apply Forall_app. split; [|by apply Forall_drop]. eapply Forall2_Forall_r; [exact Hvs|].
    apply (Forall_impl _ _ _ (Forall_take _ (Z.to_nat (sb_count b)) _ Hf)). intros v Hv v' Hv'. lia.
Qed.

Lemma zlen_batch_packets b : batch_ok b → zlen (batch_packets b) = sb_count b.
Proof.
  intros (Hl & Hc & _). unfold zlen in *. unfold batch_packets, queued. rewrite length_fmap, length_take. lia.
Qed.
End SendBatch.

(** ** Writers *)
Section WriterSpec.
Context `{T : TunRs} {L : TunRsLaws T} {F : Type} (payload : F → option bytes) (env : WriterEnv F).
Implicit Type s : Writer F.

(** Frames whose packet a TUN device can carry; the message limits of both
    sides, which are the MTU, ensure it. *)
Definition carriable (f : F) : Prop := ∀ pkt, payload f = Some pkt → zlen pkt ≤ MAX_TUN_PACKET_SIZE.

(** The other tasks only append, and the device does not shrink vectors. *)
Definition writer_env_ok : Prop :=
  (∀ t q, ∃ l, we_queue env t q = q ++ l ∧ Forall carriable l) ∧
  (∀ t vs, Forall2 (λ v v', v_cap v ≤ v_cap v') vs (we_send env t vs).1).

(** What the writer has taken up and not written. *)
Definition held s : list bytes := match wr_pc s with First => [] | _ => batch_packets (wr_batch s) end.
Definition written s : list bytes := concat (reverse (wr_written s)).

Record writer_inv s : Prop := mkWriterInv {
  wi_batch : batch_ok (wr_batch s);
  wi_held : wr_pc s ≠ First → 0 < sb_count (wr_batch s);
  wi_sizes : Forall (λ b, 0 < zlen b ≤ IDEAL_BATCH_SIZE) (wr_written s);
  wi_queue : Forall carriable (wr_queue s);
  wi_conserved : omap payload (wr_accepted s) = written s ++ held s ++ omap payload (wr_queue s);
}.

Lemma writer_new_inv : writer_inv Writer_new.
Proof using L. split; try done. apply batch_new_ok. Qed.

Lemma refill_inv s : writer_env_ok → writer_inv s → writer_inv (refill env s).
Proof.
  intros [Hq _] [Hb Hh Hs Hc He]. destruct (Hq (wr_tick s) (wr_queue s)) as (l & E & Hl).
  split; try done; cbn [wr_queue refill wr_accepted]; rewrite E.
  - by apply Forall_app.
  - rewrite drop_app_length, !omap_app, He. unfold written, held. cbn [wr_pc wr_batch wr_written]. by rewrite <- !app_assoc.
Qed.

(** A frame that is taken up is in the batch if it has a packet. *)
Lemma take_up_ok f b :
  batch_ok b → is_full b = false → carriable f →
  ∃ b' r, take_up payload f b = Ok (b', r) ∧ batch_ok b' ∧ sb_count b ≤ sb_count b' ∧ (r = true → 0 < sb_count b') ∧
    (r = false → payload f = None ∧ b' = b) ∧
    batch_packets b' = batch_packets b ++ omap payload [f].
Proof using L.
  intros Hb Hf Hc. unfold take_up. cbn [omap list_omap]. destruct (payload f) as [pkt|] eqn:Ep.
  - destruct (push_ok b pkt Hb Hf (Hc pkt Ep)) as (b' & -> & Hb' & Ec & E). exists b', true.
    destruct Hb as (_ & ? & _). split_and!; try done; lia.
  - exists b, false. rewrite app_nil_r. by split_and!.
Qed.

Lemma clear_not_full b : batch_ok b → is_full (clear b) = false.
Proof using L. intros (Hl & _). pose proof batch_size_pos. apply Z.eqb_neq. cbn. lia. Qed.

Lemma clear_packets b : batch_packets (clear b) = [].
Proof. done. Qed.

(** What a step may end with. *)
Definition step_ends s (r : option (io_result unit)) : Prop :=
  match r with
  | None => True
  | Some (inl _) => we_cancel env (wr_tick s) = true ∨ we_closed env (wr_tick s) = true
  | Some (inr e) => ∃ vs, (we_send env (wr_tick s) vs).2 = inr e
  end.

Lemma goto_inv pc queue b s :
  batch_ok b → (pc ≠ First → 0 < sb_count b) → Forall (λ b, 0 < zlen b ≤ IDEAL_BATCH_SIZE) (wr_written s) → Forall carriable queue →
  omap payload (wr_accepted s) = written s ++ (match pc with First => [] | _ => batch_packets b end) ++ omap payload queue →
  writer_inv (goto pc queue b s).
Proof. intros. by split. Qed.

(** A step in the state [s1] with the queue just refilled. *)
Section Step.
Variables (s s1 : Writer F).
Hypothesis Hok : writer_env_ok.
Hypothesis Hi : writer_inv s1.
Hypothesis Epc : wr_pc s1 = wr_pc s.

Lemma stop_ok e : step_ends s (Some e) → ∃ s' r, Ok (E := unit) (s1, Some e) = Ok (s', r) ∧ writer_inv s' ∧ step_ends s r.
Proof using Hi. intros He. by exists s1, (Some e). Qed.

Lemma goto_ok pc queue b :
  batch_ok b → (pc ≠ First → 0 < sb_count b) → Forall carriable queue →
  held s1 ++ omap payload (wr_queue s1) = (match pc with First => [] | _ => batch_packets b end) ++ omap payload queue →
  ∃ s' r, Ok (E := unit) (goto pc queue b s1, None) = Ok (s', r) ∧ writer_inv s' ∧ step_ends s r.
Proof using Hi.
  intros Hb Hc Hq E. eexists _, None. split_and!; [done| |done]. apply goto_inv; [done|done|apply Hi|done|].
  rewrite <- E. apply Hi.
Qed.

Lemma first_step :
  wr_pc s1 = First → ∃ s' r,
  (match wr_queue s1 with
   | [] => if we_closed env (wr_tick s) then Ok (s1, Some (inl tt)) else Ok (goto First [] (clear (wr_batch s1)) s1, None)
   | frame :: queue =>
       r ← take_up payload frame (clear (wr_batch s1));
       Ok (goto (if (r.2 : bool) then Drain else First) queue r.1 s1, None)
   end) = Ok (s', r) ∧ writer_inv s' ∧ step_ends s r.
Proof using L Hi.
  intros E1. destruct Hi as [Hb Hh Hs Hc He]. destruct (wr_queue s1) as [|f q] eqn:Eq.
  { destruct (we_closed env (wr_tick s)) eqn:Ex; [apply stop_ok; by right|].
    apply goto_ok; [by apply clear_ok|done|done|]. unfold held. by rewrite E1, Eq. }
  apply Forall_cons_1 in Hc as [Hf Hq].
  destruct (take_up_ok f (clear (wr_batch s1)) (clear_ok _ Hb) (clear_not_full _ Hb) Hf) as (b' & r & -> & Hb' & _ & Hr & Hn & Ep).
  rewrite clear_packets in Ep. res_simpl. cbn [fst snd].
  apply goto_ok; [done|by destruct r; [intros _; apply Hr|]|done|].
  unfold held. rewrite E1, Eq. change (f :: q) with ([f] ++ q). rewrite omap_app. destruct r; [by rewrite Ep|].
  destruct (Hn eq_refl) as [Hn' _]. cbn [omap list_omap]. by rewrite Hn'.
Qed.

Lemma drain_step :
  wr_pc s1 = Drain → ∃ s' r,
  (if is_full (wr_batch s1) then Ok (goto Write (wr_queue s1) (wr_batch s1) s1, None) else
   match wr_queue s1 with
   | [] => if we_closed env (wr_tick s) then Ok (s1, Some (inl tt)) else Ok (goto Write [] (wr_batch s1) s1, None)
   | frame :: queue =>
       r ← take_up payload frame (wr_batch s1);
       Ok (goto Drain queue r.1 s1, None)
   end) = Ok (s', r) ∧ writer_inv s' ∧ step_ends s r.
Proof using L Hi.
  intros E1. destruct Hi as [Hb Hh Hs Hc He]. specialize (Hh ltac:(congruence)).
  destruct (is_full (wr_batch s1)) eqn:Ef; [apply goto_ok; try done; unfold held; by rewrite E1|].
  destruct (wr_queue s1) as [|f q] eqn:Eq.
  { destruct (we_closed env (wr_tick s)) eqn:Ex; [apply stop_ok; by right|]. apply goto_ok; try done. unfold held. by rewrite E1, Eq. }
  apply Forall_cons_1 in Hc as [Hf Hq].
  destruct (take_up_ok f (wr_batch s1) Hb Ef Hf) as (b' & r & -> & Hb' & Hle & _ & _ & Ep). res_simpl. cbn [fst snd].
  apply goto_ok; [done|intros _; lia|done|]. unfold held. rewrite E1, Eq, Ep. change (f :: q) with ([f] ++ q).
  by rewrite omap_app, app_assoc.
Qed.

Lemma write_step vs sent :
  wr_pc s1 = Write → we_send env (wr_tick s) (queued (wr_batch s1)) = (vs, sent) → 
  let s' := mkWriter First (wr_queue s1) (put_queued vs (wr_batch s1)) (wr_tick s1) (wr_accepted s1)
              (batch_packets (wr_batch s1) :: wr_written s1) in
  writer_inv s'.
Proof using Hi Hok.
  intros E1 Ev. destruct Hi as [Hb Hh Hs Hc He]. specialize (Hh ltac:(congruence)).
  pose proof (proj2 Hok (wr_tick s) (queued (wr_batch s1))) as Hv. rewrite Ev in Hv. cbn [fst] in Hv.
  split; cbn [wr_batch wr_pc wr_written wr_queue wr_accepted].
  - by apply put_queued_ok.
  - done.
  - apply Forall_cons. split; [|done]. rewrite zlen_batch_packets by done. destruct Hb as (_ & ? & _). lia.
  - done.
  - rewrite He. unfold written, held. rewrite E1. cbn [wr_written wr_pc]. rewrite reverse_cons, concat_app. cbn. 
    by rewrite app_nil_r, app_assoc.
Qed.
End Step.

Lemma writer_step_inv s :
  writer_env_ok → writer_inv s →
  ∃ s' r, writer_step payload env s = Ok (s', r) ∧ writer_inv s' ∧ step_ends s r.
Proof using L.
  intros Hok Hi. pose proof (refill_inv s Hok Hi) as Hi'. unfold writer_step.
  assert (wr_pc (refill env s) = wr_pc s) as Epc by done. set (s1 := refill env s) in *. clearbody s1.
  destruct (wr_pc s1) eqn:E1.
  - destruct (we_cancel env (wr_tick s)) eqn:Ea; [apply stop_ok; [done|by left]|]. by apply first_step.
  - by apply drain_step.
  - destruct (we_cancel env (wr_tick s)) eqn:Ea; [apply stop_ok; [done|by left]|].
    destruct (we_send env (wr_tick s) (queued (wr_batch s1))) as [vs sent] eqn:Ev.
    pose proof (write_step s s1 Hok Hi' vs sent E1 Ev). destruct sent; eexists _, _; (split_and!; [done|done|]); [done|].
    cbn. eexists. by rewrite Ev.
Qed.

Lemma writer_steps_inv n s :
  writer_env_ok → writer_inv s →
  ∃ s' r, writer_steps payload env n s = Ok (s', r) ∧ writer_inv s' ∧
    match r with
    | None => True
    | Some (inl _) => ∃ t, we_cancel env t = true ∨ we_closed env t = true
    | Some (inr e) => ∃ t vs, (we_send env t vs).2 = inr e
    end.
Proof using L.
  intros Hok. revert s. induction n as [|n IH]; intros s Hi; [by exists s, None|]. cbn [writer_steps].
  destruct (writer_step_inv s Hok Hi) as (s' & r & -> & Hi' & Hr). res_simpl. cbn [fst snd].
  destruct r as [r|]; [|by apply IH]. exists s', (Some r). split_and!; [done..|]. destruct r; eexists; exact Hr.
Qed.

(** From tick [t] on the other tasks are silent and nothing goes wrong. *)
Definition quiet_from (t : Z) : Prop :=
  ∀ t', t ≤ t' → (∀ q, we_queue env t' q = q) ∧ we_closed env t' = false ∧ we_cancel env t' = false ∧
    ∀ vs, ∃ n, (we_send env t' vs).2 = inl n.

(** The steps until everything that is queued is written. *)
Definition pending s : nat :=
  3 * length (wr_queue s) + match wr_pc s with First => 0 | Drain => 2 | Write => 1 end.

Lemma quiet_step s :
  writer_env_ok → writer_inv s → quiet_from (wr_tick s) →
  ∃ s', writer_step payload env s = Ok (s', None) ∧ writer_inv s' ∧ wr_tick s' = wr_tick s + 1 ∧
    wr_accepted s' = wr_accepted s ∧ (pending s' ≤ pending s - 1)%nat.
Proof using L.
  intros Hok Hi Hq. destruct (writer_step_inv s Hok Hi) as (s' & r & Hs & Hi' & _).
  destruct (Hq (wr_tick s) ltac:(lia)) as (E1 & E2 & E3 & E4).
  enough (r = None ∧ wr_tick s' = wr_tick s + 1 ∧ wr_accepted s' = wr_accepted s ∧ (pending s' ≤ pending s - 1)%nat)
    as (-> & ?) by (by exists s').
  revert Hs. unfold writer_step. cbn [refill wr_pc wr_queue wr_batch]. rewrite E1, E2, E3. unfold pending.
  assert (refill env s = mkWriter (wr_pc s) (wr_queue s) (wr_batch s) (wr_tick s + 1) (wr_accepted s) (wr_written s)) as ->.
  { unfold refill. by rewrite E1, drop_all, app_nil_r. }
  destruct (E4 (queued (wr_batch s))) as [n En].
  destruct (wr_pc s) eqn:Ep; [destruct (wr_queue s) as [|f q] eqn:Eq|destruct (is_full _); [|destruct (wr_queue s) as [|f q] eqn:Eq]|].
  all: try (destruct (take_up payload _ _) as [ [b' r'] | |]; res_simpl; [|done..]; cbn [fst snd]).
  all: try (destruct (we_send env (wr_tick s) (queued (wr_batch s))) as [vs sent]; cbn [snd] in En; subst sent).
  all: intros [= <- <-]; cbn; rewrite ?Eq; cbn; split_and!; try done; try lia.
  destruct r'; lia.
Qed.

Lemma quiet_steps n s :
  writer_env_ok → writer_inv s → quiet_from (wr_tick s) → (pending s ≤ n)%nat →
  ∃ s', writer_steps payload env n s = Ok (s', None) ∧ written s' = omap payload (wr_accepted s).
Proof using L.
  intros Hok. revert s. induction n as [|n IH]; intros s Hi Hq Hn; cbn [writer_steps].
  - exists s. split; [done|]. unfold pending in Hn. rewrite (wi_conserved s Hi). unfold held.
    destruct (wr_pc s), (wr_queue s); cbn in Hn; try lia. by rewrite !app_nil_r.
  - destruct (quiet_step s Hok Hi Hq) as (s' & -> & Hi' & Et & Ea & Hp). res_simpl. cbn [fst snd]. rewrite <- Ea.
    apply IH; [done| |lia]. intros t Ht. apply Hq. lia.
Qed.
End WriterSpec.

(** ** Readers *)

(** The packets of a read that are not empty. *)
Definition nonempty (pkts : list bytes) : list bytes := filter (λ p, p ≠ []) pkts.

Definition batch_shape (mtu : Z) (b : LinuxRecvBatch) : Prop :=
  length (split_sizes b) = length (split_buffers b) ∧ Forall (λ buf, zlen buf = mtu) (split_buffers b).

(** The batch holds these packets. *)
Definition holds (pkts : list bytes) (b : LinuxRecvBatch) : Prop :=
  ∀ i p, pkts !! i = Some p →
    split_sizes b !! i = Some (zlen p) ∧ ∃ buf, split_buffers b !! i = Some buf ∧ p `prefix_of` buf.

(** What [recv_multiple] does to the buffers: it fills as many as it says. *)
Definition device_reads_ok (env : ReaderEnv) (mtu : Z) : Prop :=
  ∀ t b, batch_shape mtu b → let '(b', r) := re_recv env t b in
    batch_shape mtu b' ∧
    match r with inl n => n = zlen (re_packets env t) ∧ holds (re_packets env t) b' | inr _ => True end.

(** All packets of the first [n] reads. *)
Definition arrived (env : ReaderEnv) (n : Z) : list bytes := nonempty (concat (re_packets env <$> seqZ 0 n)).

Lemma arrived_succ env n : 0 ≤ n → arrived env (n + 1) = arrived env n ++ nonempty (re_packets env n).
Proof.
  intros Hn. unfold arrived, nonempty. rewrite seqZ_app by lia. cbn [seqZ]. rewrite fmap_app, concat_app, filter_app.
  f_equal. rewrite seqZ_cons by lia. cbn. by rewrite app_nil_r, Z.add_0_l.
Qed.

Lemma recv_batch_new_shape `{T : TunRs} {L : TunRsLaws T} mtu :
  0 < mtu → ∃ b, LinuxRecvBatch_new mtu = Ok b ∧ batch_shape mtu b ∧ MAX_TUN_PACKET_SIZE < zlen (split_buffers b) * mtu.
Proof.
  intros Hm. unfold LinuxRecvBatch_new, tun_mtu_to_usize. rewrite (proj2 (Z.eqb_neq _ _)) by lia. res_simpl.
  eexists. split; [done|]. pose proof (Z.div_pos MAX_TUN_PACKET_SIZE mtu ltac:(done) Hm).
  split; [split|]; cbn [split_sizes split_buffers].
  - unfold zeros. by rewrite !length_replicate.
  - apply Forall_replicate. unfold zlen, zeros. rewrite length_replicate. lia.
  - unfold zlen. rewrite length_replicate, Z2Nat.id by lia.
    pose proof (Z.div_mod MAX_TUN_PACKET_SIZE mtu ltac:(lia)). pose proof (Z.mod_pos_bound MAX_TUN_PACKET_SIZE mtu Hm).
    set (q := MAX_TUN_PACKET_SIZE / mtu) in *. enough ((q + 1) * mtu ≤ Z.max IDEAL_BATCH_SIZE (q + 1) * mtu) by lia.
    apply Z.mul_le_mono_nonneg_r; lia.
Qed.

Lemma holds_packet {E} mtu pkts b i p :
  batch_shape mtu b → holds pkts b → 0 ≤ i → pkts !! Z.to_nat i = Some p →
  packet_len (E := E) b i = Ok (zlen p) ∧ packet (E := E) b i = Ok p ∧ zlen p ≤ mtu.
Proof.
  intros [_ Hf] Hh Hi Hp. destruct (Hh _ _ Hp) as (Es & buf & Eb & [k ->]).
  pose proof (zlen_nonneg p) as H0. pose proof (zlen_nonneg k) as Hk. pose proof (lookup_lt_Some _ _ _ Es) as Hl.
  assert (packet_len (E := E) b i = Ok (zlen p)) as Hpl.
  { unfold packet_len, index. rewrite (proj2 (Z.leb_le _ _)), (proj2 (Z.ltb_lt _ _)) by (unfold zlen; lia).
    cbn. by rewrite (nth_lookup_Some _ _ _ _ Es). }
  eapply Forall_lookup_1 in Hf; [|exact Eb]. cbn beta in Hf. rewrite zlen_app in Hf. split_and!; [done| |lia].
  unfold packet. rewrite Hpl. res_simpl. rewrite Eb. unfold slice. rewrite zlen_app.
  rewrite (proj2 (Z.leb_le _ _)), (proj2 (Z.leb_le _ _)), (proj2 (Z.leb_le _ _)) by lia. cbn. f_equal.
  unfold sub. rewrite Z.sub_0_r, drop_0. unfold zlen. by rewrite Nat2Z.id, take_app_length.
Qed.

Section ReaderSpec.
Context (env : ReaderEnv) (mtu : Z) (handle : bytes → eff Reader IoError bool).
(** What the handler does: an action for the packet it is given, some of which
    are counted and some of which end the task. *)
Context (R : Z → bytes → reader_action → Prop) (counts stops : reader_action → bool).
Hypothesis Hmtu : 0 < mtu.
Hypothesis Hdev : device_reads_ok env mtu.
Hypothesis Hbytes : ∀ t, Forall bytes_ok (re_packets env t).
Hypothesis Hhandle : ∀ p s, bytes_ok p → zlen p ≤ mtu → ∃ a, R (rd_tick s) p a ∧
  handle p s = (mkReader (rd_batch s) (rd_reads s) (rd_tick s + 1) (rd_queue_full_drops s + (if counts a then 1 else 0))
                  (a :: rd_trace s), ORet (stops a)).

(** The actions [acts] are those for the packets, the first of which has
    number [t]. *)
Fixpoint handled (t : Z) (pkts : list bytes) (acts : list reader_action) : Prop :=
  match pkts, acts with
  | [], [] => True
  | p :: pkts, a :: acts => R t p a ∧ handled (t + 1) pkts acts
  | _, _ => False
  end.

Lemma handled_snoc t pkts acts p a :
  handled t pkts acts → R (t + zlen pkts) p a → handled t (pkts ++ [p]) (acts ++ [a]).
Proof.
  revert t acts. induction pkts as [|q pkts IH]; intros t [|b acts]; cbn; try done.
  - intros _. by rewrite Z.add_0_r.
  - intros [? ?] Hr. split; [done|]. apply IH; [done|]. unfold zlen in *. cbn in Hr.
    by replace (t + 1 + Z.of_nat (length pkts)) with (t + Z.of_nat (S (length pkts))) by lia.
Qed.

(** After the packets [ps]. *)
Record reader_at (ps : list bytes) (s : Reader) : Prop := mkReaderAt {
  ra_shape : batch_shape mtu (rd_batch s);
  ra_reads : 0 ≤ rd_reads s;
  ra_tick : rd_tick s = zlen ps;
  ra_handled : handled 0 ps (reverse (rd_trace s));
  ra_counted : rd_queue_full_drops s = zlen (List.filter counts (rd_trace s));
}.

Lemma for_packets_ok pkts n i ps s :
  holds pkts (rd_batch s) → Forall bytes_ok pkts → 0 ≤ i → length pkts = (Z.to_nat i + n)%nat → reader_at ps s →
  wp (for_packets handle i n) (λ ended s', rd_batch s' = rd_batch s ∧ rd_reads s' = rd_reads s ∧
    ∃ ps', reader_at (ps ++ ps') s' ∧ ps' `prefix_of` nonempty (drop (Z.to_nat i) pkts) ∧
      (if ended then ∃ a, head (rd_trace s') = Some a ∧ stops a = true else ps' = nonempty (drop (Z.to_nat i) pkts))) (λ _ _, False) (λ _, False) s.
Proof using Hhandle.
  intros Hh Hb. revert i ps s Hh. induction n as [|n IH]; intros i ps s Hh Hi Hl Hr; cbn [for_packets].
  { apply wp_ret. split_and!; [done..|]. exists []. rewrite app_nil_r, drop_ge by lia. by split_and!. }
  destruct (lookup_lt_is_Some_2 pkts (Z.to_nat i) ltac:(lia)) as [p Hp].
  destruct (holds_packet (E := unit) mtu pkts _ i p (ra_shape _ _ Hr) Hh Hi Hp) as (Hpl & Hpk & Hlen).
  rewrite (drop_S _ _ _ Hp). replace (S (Z.to_nat i)) with (Z.to_nat (i + 1)) by lia.
  apply wp_bind, wp_get, wp_bind. unfold pure. rewrite Hpl, Hpk. apply wp_ret, wp_bind.
  unfold nonempty. rewrite filter_cons. destruct (Z.eqb_spec (zlen p) 0) as [E0|E0].
  - assert (p = []) as -> by (destruct p; [done|discriminate E0]). rewrite decide_False by auto.
    apply wp_ret. apply (IH (i + 1) ps s); [done|lia|lia|done].
  - rewrite decide_True by (by intros ->). apply wp_bind, wp_ret.
    assert (bytes_ok p) as Hbp by (by eapply Forall_lookup_1 in Hb). destruct (Hhandle p s Hbp Hlen) as (a & Ha & E).
    unfold wp at 1. rewrite E. set (s1 := mkReader _ _ _ _ _).
    assert (reader_at (ps ++ [p]) s1) as Hr1.
    { destruct Hr as [Hs1 Hs2 Hs3 Hs4 Hs5]. subst s1. split; cbn [rd_batch rd_reads rd_tick rd_trace rd_queue_full_drops]; try done.
      - rewrite zlen_app, Hs3. done.
      - rewrite reverse_cons. apply handled_snoc; [done|]. by rewrite Z.add_0_l, <- Hs3.
      - cbn [List.filter]. rewrite Hs5. destruct (counts a); unfold zlen; cbn [length]; lia. }
    destruct (stops a) eqn:Es.
    + apply wp_ret. split_and!; [done..|]. exists [p]. split_and!; [done|by eexists|by exists a].
    + eapply wp_mono; [apply (IH (i + 1) (ps ++ [p]) s1); [done|lia|lia|done]|].
      intros ended s' (E1 & E2 & ps' & Hr' & [k Hk] & Hend). split_and!; [done..|]. exists (p :: ps').
      rewrite <- app_assoc in Hr'. split_and!; [done|exists k; cbn; by f_equal|]. destruct ended; [done|by f_equal].
Qed.

(** The loop handles the packets in the order they arrive, and all of them as
    long as it runs. *)
Lemma read_loop_ok fuel s :
  reader_at (arrived env (rd_reads s)) s →
  wp (read_loop env handle fuel) (λ ended s', ∃ ps, reader_at ps s' ∧ ps `prefix_of` arrived env (rd_reads s') ∧
      (ps = arrived env (rd_reads s') ∨ ∃ a, head (rd_trace s') = Some a ∧ stops a = true))
    (λ _ s', reader_at (arrived env (rd_reads s')) s') (λ _, False) s.
Proof using Hbytes Hdev Hhandle.
  revert s. induction fuel as [|fuel IH]; intros s Hr; cbn [read_loop]; [apply wp_ret; eauto|].
  apply wp_bind, wp_get. destruct (re_cancel env (rd_reads s)); [apply wp_ret; eexists; split_and!; eauto|].
  apply wp_bind. unfold wp at 1, recv_multiple. pose proof (Hdev (rd_reads s) (rd_batch s) (ra_shape _ _ Hr)) as Hd.
  destruct (re_recv env (rd_reads s) (rd_batch s)) as [b [n|e] ]; destruct Hd as (Hsh & Hn).
  2: { destruct Hr; by split. }
  destruct Hn as (-> & Hh). apply wp_bind. set (s1 := mkReader _ _ _ _ _).
  assert (reader_at (arrived env (rd_reads s)) s1) as Hr1 by (destruct Hr; split; cbn; try done; lia).
  eapply wp_weaken; [apply (for_packets_ok (re_packets env (rd_reads s)) _ 0 (arrived env (rd_reads s)) s1 Hh (Hbytes _) ltac:(lia));
    [unfold zlen; lia|exact Hr1]| |done..].
  intros ended s' (_ & E2 & ps' & Hr' & [k Hk] & Hend). rewrite drop_0 in Hk, Hend.
  assert (arrived env (rd_reads s') = arrived env (rd_reads s) ++ nonempty (re_packets env (rd_reads s))) as Ea.
  { rewrite E2. apply arrived_succ, Hr. }
  destruct ended.
  - apply wp_ret. exists (arrived env (rd_reads s) ++ ps'). split_and!; [done| |by right]. rewrite Ea, Hk, app_assoc. by eexists.
  - apply IH. by rewrite Ea, <- Hend.
Qed.
End ReaderSpec.

(** *** The server's reader *)
Section Routing.
Context (env : ReaderEnv) (mtu : Z) (assigned : bytes → Ipv4Addr) (dir : Z → gmap bytes entry).

(** A session is the one of the client that has the packet's destination. *)
Definition session_for (t : Z) (pkt : bytes) (tx : SessionTx) : Prop :=
  ∃ c e, dir t !! c = Some e ∧ assigned c = sub pkt 16 20 ∧ e_tx e = tx.

Definition routed (t : Z) (pkt : bytes) (a : reader_action) : Prop :=
  match a with
  | RHanded t' tx p => (t', p) = (t, pkt) ∧ ipv4_header pkt ∧ session_for t pkt tx ∧ re_room env t tx = Room
  | RFull t' tx p => (t', p) = (t, pkt) ∧ ipv4_header pkt ∧ session_for t pkt tx ∧ re_room env t tx = Full
  | RClosed t' tx p => (t', p) = (t, pkt) ∧ ipv4_header pkt ∧ session_for t pkt tx ∧ re_room env t tx = Closed
  | RNoSession t' p => (t', p) = (t, pkt) ∧ ipv4_header pkt ∧ ∀ tx, ¬ session_for t pkt tx
  | RNoAddress t' p => (t', p) = (t, pkt) ∧ ¬ ipv4_header pkt
  | RWrongSource _ _ => False
  end.

Definition is_queue_full (a : reader_action) : bool := match a with RFull _ _ _ => true | _ => false end.

(** The registry is always the result of some operations on a fresh one, and
    [dir] its directory of active sessions. *)
Definition registry_evolves : Prop :=
  ∀ t, ∃ os, zlen os < u64_max ∧
    re_registry env t = st_registry (run (step assigned) (mkState SessionRegistry_new []) os).1 ∧
    dir t = sp_dir (run (spec_step assigned) (mkSpecState 1 ∅ []) os).1.

Lemma route_packet_ok p s :
  Inj (=) (=) assigned → registry_evolves → bytes_ok p → ∃ a, routed (rd_tick s) p a ∧
  route_packet env p s = (mkReader (rd_batch s) (rd_reads s) (rd_tick s + 1)
    (rd_queue_full_drops s + (if is_queue_full a then 1 else 0)) (a :: rd_trace s), ORet false).
Proof.
  intros Hinj Hreg Hb. destruct s as [b rs t d tr]. cbn [rd_batch rd_reads rd_tick rd_queue_full_drops rd_trace].
  unfold route_packet, pure, extract_dst_ipv4, IPV4_DST_ADDR_OFFSET.
  unfold mbind, M_bind, rd_next. cbn [rd_batch rd_reads rd_tick rd_queue_full_drops rd_trace].
  destruct (extract_addr_spec p 16 Hb ltac:(lia)) as [ [Hh ->] | [Hh ->] ]; cbn [try].
  2: { exists (RNoAddress t p). rewrite Z.add_0_r. by split. }
  destruct (Hreg t) as (os & Hos & Er & Ed).
  assert (∀ tx, lookup_ip (re_registry env t) (sub p 16 (16 + 4)) = Some tx ↔ session_for t p tx) as Hroute.
  { intros tx. rewrite Er. unfold session_for. rewrite Ed. by apply registry_routes. }
  destruct (lookup_ip _ _) as [tx|] eqn:El.
  - assert (session_for t p tx) as Hs by (by apply Hroute). destruct (re_room env t tx) eqn:Em.
    + exists (RHanded t tx p). rewrite Z.add_0_r. by split.
    + exists (RFull t tx p). by split.
    + exists (RClosed t tx p). rewrite Z.add_0_r. by split.
  - exists (RNoSession t p). rewrite Z.add_0_r. split; [|done]. split_and!; [done..|]. intros tx Ht%Hroute. congruence.
Qed.
End Routing.

(** *** The client's reader *)
Section Admitting.
Context (env : ReaderEnv) (mtu : Z) (assigned_ipv4 : Ipv4Addr) (session : SessionTx).

Definition own_source (pkt : bytes) : Prop := validate_packet_src assigned_ipv4 pkt = Ok true.

Definition admitted (t : Z) (pkt : bytes) (a : reader_action) : Prop :=
  match a with
  | RHanded t' tx p => (t', tx, p) = (t, session, pkt) ∧ own_source pkt ∧ zlen pkt ≤ mtu
  | RFull t' tx p => (t', tx, p) = (t, session, pkt) ∧ re_room env t session = Full
  | RClosed t' tx p => (t', tx, p) = (t, session, pkt) ∧ re_room env t session = Closed
  | RNoSession _ _ => False
  | RNoAddress t' p | RWrongSource t' p => (t', p) = (t, pkt) ∧ ¬ own_source pkt
  end.

Definition ends_reader (a : reader_action) : bool := match a with RFull _ _ _ | RClosed _ _ _ => true | _ => false end.

Lemma admit_packet_ok p s :
  bytes_ok p → zlen p ≤ mtu → ∃ a, admitted (rd_tick s) p a ∧
  admit_packet env assigned_ipv4 session p s =
    (mkReader (rd_batch s) (rd_reads s) (rd_tick s + 1) (rd_queue_full_drops s + (if (λ _, false) a then 1 else 0)) (a :: rd_trace s),
     ORet (ends_reader a)).
Proof.
  intros Hb Hl. destruct s as [b rs t d tr]. cbn [rd_batch rd_reads rd_tick rd_queue_full_drops rd_trace].
  unfold admit_packet, pure, extract_src_ipv4, IPV4_SRC_ADDR_OFFSET.
  unfold mbind, M_bind, rd_next. cbn [rd_batch rd_reads rd_tick rd_queue_full_drops rd_trace]. rewrite Z.add_0_r.
  destruct (validate_packet_src_ok assigned_ipv4 p Hb) as (ok & Hv & Hok).
  destruct (extract_addr_spec p 12 Hb ltac:(lia)) as [ [Hh ->] | [Hh ->] ]; cbn [try].
  2: { exists (RNoAddress t p). split; [|done]. split; [done|]. unfold own_source. rewrite Hv. intros [= E]. naive_solver. }
  destruct (bool_decide_reflect (sub p 12 (12 + 4) = assigned_ipv4)) as [Ea|Ea]; cbn [negb].
  - assert (own_source p) as Ho by (unfold own_source; rewrite Hv; f_equal; by apply Hok).
    destruct (re_room env t session) eqn:Em.
    + by exists (RHanded t session p).
    + by exists (RFull t session p).
    + by exists (RClosed t session p).
  - exists (RWrongSource t p). split; [|done]. split; [done|]. unfold own_source. rewrite Hv. intros [= E]. naive_solver.
Qed.
End Admitting.

(** ** The queue of the server's writer *)

(** Packets offered one after the other. *)
Fixpoint offer_all (cap : Z) (packets : list bytes) (s : list bytes * Z) : list bytes * Z :=
  match packets with
  | [] => s
  | pkt :: packets => offer_all cap packets (TunSender_accept_packet cap false zlen pkt s).1
  end.

(** A full queue loses packets and counts them; it never grows beyond its
    capacity, nor does what is in it change. *)
Lemma offer_all_spec cap packets queue drops :
  zlen queue ≤ cap →
  let s := offer_all cap packets (queue, drops) in
  s.1 = queue ++ take (Z.to_nat (cap - zlen queue)) packets ∧ zlen s.1 ≤ cap ∧
  s.2 = drops + zlen (drop (Z.to_nat (cap - zlen queue)) packets).
Proof.
  revert queue drops. induction packets as [|p packets IH]; intros queue drops Hq; cbn [offer_all].
  { cbn. rewrite take_nil, drop_nil, app_nil_r. change (zlen (@nil bytes)) with 0. split_and!; [done|done|lia]. }
  unfold TunSender_accept_packet. destruct (Z.ltb_spec (zlen queue) cap) as [Hlt|Hge]; cbn [fst].
  - assert (zlen (queue ++ [p]) = zlen queue + 1) as E by (by rewrite zlen_app).
    destruct (IH (queue ++ [p]) drops ltac:(lia)) as (H1 & H2 & H3).
    replace (Z.to_nat (cap - zlen queue)) with (S (Z.to_nat (cap - zlen (queue ++ [p])))) by lia.
    cbn [firstn skipn]. cbn zeta. rewrite H1 in *. rewrite <- app_assoc in *. by split_and!.
  - destruct (IH queue (drops + 1) Hq) as (H1 & H2 & H3).
    replace (Z.to_nat (cap - zlen queue)) with 0%nat in * by lia. rewrite take_0, drop_0 in *.
    split_and!; [done|done|]. rewrite H3. unfold zlen. cbn [length]. lia.
Qed.

Lemma offer_all_appends cap packets queue drops :
  ∃ l, (offer_all cap packets (queue, drops)).1 = queue ++ l ∧ l ⊆ packets.
Proof.
  revert queue drops. induction packets as [|p packets IH]; intros queue drops; cbn [offer_all].
  { exists []. by rewrite app_nil_r. }
  unfold TunSender_accept_packet. destruct (zlen queue <? cap); cbn [fst].
  - destruct (IH (queue ++ [p]) drops) as (l & -> & Hl). exists (p :: l). rewrite <- app_assoc. set_solver.
  - destruct (IH queue (drops + 1)) as (l & -> & Hl). exists l. set_solver.
Qed.

(** ** Theorems *)

(** C23: The packets of the host reach the right sessions.  Whatever arrives at
    the TUN device and however sessions come and go, the server's reader does
    not panic and handles every packet that is not empty, in order: it hands
    it to the session of the client that has the packet's destination address
    at that moment, or, when this session's queue is full, counts and drops
    it; a packet whose destination is no client's, or that is not IPv4, is
    dropped. *)
Theorem tun_reader_routes `{T : TunRs} {L : TunRsLaws T} env mtu assigned dir fuel :
  0 < mtu → device_reads_ok env mtu → (∀ t, Forall bytes_ok (re_packets env t)) →
  Inj (=) (=) assigned → registry_evolves env assigned dir →
  ∃ s r, run_reader env (route_packet env) mtu fuel = Ok (s, r) ∧ r ≠ OPanic ∧ r ≠ OCancel ∧
    handled (routed env assigned dir) 0 (arrived env (rd_reads s)) (reverse (rd_trace s)) ∧
    rd_queue_full_drops s = zlen (List.filter is_queue_full (rd_trace s)).
Proof.
  intros Hm Hd Hb Hinj Hreg. unfold run_reader. destruct (recv_batch_new_shape mtu Hm) as (b & -> & Hsh & _). res_simpl.
  pose proof (read_loop_ok env mtu (route_packet env) (routed env assigned dir) is_queue_full (λ _, false) Hd Hb
    (λ p s Hp _, route_packet_ok env assigned dir p s Hinj Hreg Hp) fuel (mkReader b 0 0 0 [])) as H.
  specialize (H ltac:(by split)). unfold wp in H. destruct (read_loop _ _ _ _) as [s [v|e| |] ]; try done.
  - destruct H as (ps & [_ _ _ H1 H2] & _ & [->|(? & _ & ?)]); [|done]. exists s, (ORet v). by split_and!.
  - destruct H as [_ _ _ H1 H2]. exists s, (OErr e). by split_and!.
Qed.

(** The client's reader hands its session only what the server accepts.
    Whatever arrives at the TUN device it does not panic, and takes the packets
    that are not empty in order: it hands over those whose source is the
    assigned address, which are exactly those that pass the server's source
    check and are no longer than the MTU, so within the limit for DATA
    messages, and drops the others; it stops only with an error of the device,
    when it is cancelled, or when the session is gone. *)
Theorem client_reader_admits `{T : TunRs} {L : TunRsLaws T} env mtu assigned_ipv4 session fuel :
  0 < mtu → device_reads_ok env mtu → (∀ t, Forall bytes_ok (re_packets env t)) →
  ∃ s r ps, run_reader env (admit_packet env assigned_ipv4 session) mtu fuel = Ok (s, r) ∧
    r ≠ OPanic ∧ r ≠ OCancel ∧ ps `prefix_of` arrived env (rd_reads s) ∧
    handled (admitted env mtu assigned_ipv4 session) 0 ps (reverse (rd_trace s)) ∧
    (ps = arrived env (rd_reads s) ∨ ∃ a, head (rd_trace s) = Some a ∧ ends_reader a = true) ∧
    ∀ t tx p, RHanded t tx p ∈ rd_trace s → zlen p ≤ max_data_len (MessageLimits_from_mtu mtu) ∧
      validate_packet_src assigned_ipv4 p = Ok true.
Proof.
  intros Hm Hd Hb. unfold run_reader. destruct (recv_batch_new_shape mtu Hm) as (b & -> & Hsh & _). res_simpl.
  pose proof (read_loop_ok env mtu (admit_packet env assigned_ipv4 session) (admitted env mtu assigned_ipv4 session)
    (λ _, false) ends_reader Hd Hb (λ p s, admit_packet_ok env mtu assigned_ipv4 session p s) fuel (mkReader b 0 0 0 [])) as H.
  specialize (H ltac:(by split)).
  assert (∀ ps s, handled (admitted env mtu assigned_ipv4 session) 0 ps (reverse (rd_trace s)) →
    ∀ t tx p, RHanded t tx p ∈ rd_trace s → zlen p ≤ max_data_len (MessageLimits_from_mtu mtu) ∧
      validate_packet_src assigned_ipv4 p = Ok true) as Hall.
  { intros ps s Hh t tx p Hin. rewrite <- elem_of_reverse in Hin. revert Hh Hin. generalize (reverse (rd_trace s)) as l.
    generalize 0 as t0. induction ps as [|q ps IH]; intros t0 [|a l]; cbn; try done; [by intros _ ?%elem_of_nil|].
    intros [Ha Hl] [<-|Hin]%elem_of_cons; [|by eapply IH]. cbn in Ha. destruct Ha as (E & ? & ?). by simplify_eq. }
  unfold wp in H. destruct (read_loop _ _ _ _) as [s [v|e| |] ]; try done.
  - destruct H as (ps & [_ _ _ H1 H2] & H3 & H4). exists s, (ORet v), ps. split_and!; eauto; done.
  - destruct H as [_ _ _ H1 H2]. exists s, (OErr e), (arrived env (rd_reads s)). split_and!; eauto; done.
Qed.

(** Writing in batches keeps the packets.  Whenever other tasks queue packets,
    the writer does not panic; the packets queued are, in order, those given to
    the device, those in the batch it collects and those still queued, and
    no batch is empty or larger than the device takes.  Once the others are
    silent and the device works, all packets are written within three steps
    for each that is queued and two more; the task ends only with an error of
    the device, when it is cancelled, or when all senders are gone, and only
    then what is in its batch or its queue is not written. *)
Theorem tun_writer_delivers `{T : TunRs} {L : TunRsLaws T} {F} (payload : F → option bytes) env n :
  writer_env_ok payload env →
  ∃ s r, writer_steps payload env n Writer_new = Ok (s, r) ∧
    omap payload (wr_accepted s) = written s ++ held s ++ omap payload (wr_queue s) ∧
    Forall (λ b, 0 < zlen b ≤ IDEAL_BATCH_SIZE) (wr_written s) ∧
    match r with
    | None => quiet_from env (wr_tick s) → ∀ m, (3 * length (wr_queue s) + 2 ≤ m)%nat →
        ∃ s', writer_steps payload env m s = Ok (s', None) ∧ written s' = omap payload (wr_accepted s)
    | Some (inl _) => ∃ t, we_cancel env t = true ∨ we_closed env t = true
    | Some (inr e) => ∃ t vs, (we_send env t vs).2 = inr e
    end.
Proof.
  intros Hok. destruct (writer_steps_inv payload env n Writer_new Hok (writer_new_inv payload)) as (s & r & E & Hi & Hr).
  exists s, r. split_and!; [done|apply Hi|apply Hi|]. destruct r; [done|]. intros Hq m Hm.
  apply quiet_steps; [done|done|done|]. unfold pending. destruct (wr_pc s); lia.
Qed.

(** ** Witnesses *)
Module TunDemo.
#[export] Instance small : TunRs := {| IDEAL_BATCH_SIZE := 2; VIRTIO_NET_HDR_LEN := 10 |}.
#[export] Instance small_laws : TunRsLaws small.
Proof. split; done. Qed.

(** Three packets are offered at the start. *)
Definition writer_env : WriterEnv bytes :=
  mkWriterEnv (λ t q, if t =? 0 then (offer_all DEFAULT_TUN_CHANNEL_SIZE [[1]; [2; 2]; [3]] (q, 0)).1 else q)
    (λ _, false) (λ _, false) (λ _ vs, (vs, inl 0)).

(** A packet from [10.10.0.2] to [10.10.0.3], an empty and a short one. *)
Definition pkt : bytes := [0x45] ++ zeros 11 ++ [10; 10; 0; 2] ++ [10; 10; 0; 3].
Definition read : list bytes := [pkt; []; [1; 2]].
Fixpoint fill (pkts bufs : list bytes) : list bytes :=
  match pkts, bufs with
  | p :: pkts, b :: bufs => (p ++ drop (length p) b) :: fill pkts bufs
  | _, _ => bufs
  end.
(** The first read gives these packets, the next one fails. *)
Definition recv (t : Z) (b : LinuxRecvBatch) : LinuxRecvBatch * io_result Z :=
  if (t =? 0) && (3 <=? zlen (split_buffers b)) then
    (mkRecvBatch (fill read (split_buffers b)) ((zlen <$> read) ++ drop 3 (split_sizes b)), inl 3)
  else (b, inr TimedOut).
(** Two clients, of which the second has the destination. *)
Definition assigned (c : bytes) : Ipv4Addr := [10; 10; 0] ++ c.
Definition ops : list op := [ORegister [2] 100; ORegister [3] 200].
Definition reader_env : ReaderEnv :=
  mkReaderEnv (λ _, false) recv (λ t, if t =? 0 then read else [])
    (λ _, st_registry (run (step assigned) (mkState SessionRegistry_new []) ops).1) (λ _ _, Room).
Definition dir (t : Z) : gmap bytes entry := sp_dir (run (spec_step assigned) (mkSpecState 1 ∅ []) ops).1.

Lemma recv_ok : device_reads_ok reader_env 40.
Proof.
  intros t [bufs sizes] [Hl Hf]. cbn [re_recv reader_env re_packets]. unfold recv. cbn [split_buffers split_sizes] in *.
  destruct (Z.eqb_spec t 0) as [->|]; cbn [andb]; [|done].
  destruct (Z.leb_spec 3 (zlen bufs)) as [Hn|]; [|done].
  destruct bufs as [|b0 [|b1 [|b2 bufs] ] ]; try (unfold zlen in Hn; cbn in Hn; lia).
  destruct sizes as [|z0 [|z1 [|z2 sizes] ] ]; try discriminate Hl.
  apply Forall_cons_1 in Hf as [H0 Hf]. apply Forall_cons_1 in Hf as [H1 Hf]. apply Forall_cons_1 in Hf as [H2 Hf].
  change (fill read (b0 :: b1 :: b2 :: bufs)) with ((pkt ++ drop 20 b0) :: b1 :: ([1; 2] ++ drop 2 b2) :: bufs).
  change (drop 3 (z0 :: z1 :: z2 :: sizes)) with sizes.
  split_and!; [split; [cbn in *; lia|]|done|].
  - cbn [split_buffers]. repeat (apply Forall_cons; split; [|]); try done; rewrite zlen_app; unfold zlen in *; rewrite length_drop; try change (length pkt) with 20%nat; cbn [length]; lia.
  - intros [|[|[|i] ] ] p Hp; [..|discriminate Hp]; injection Hp as <-; (split; [done|]).
    + exists (pkt ++ drop 20 b0). split; [done|by eexists].
    + exists b1. split; [done|apply prefix_nil].
    + exists ([1; 2] ++ drop 2 b2). split; [done|by eexists].
Qed.

Lemma read_bytes t : Forall bytes_ok (re_packets reader_env t).
Proof. cbn. destruct (t =? 0); [|done]. repeat (constructor; [decided|]). constructor. Qed.
End TunDemo.

Section TunWitnesses.
Import TunDemo.

Lemma tun_reader_routes_witness :
  ∃ s r, run_reader reader_env (route_packet reader_env) 40 3 = Ok (s, r) ∧
    handled (routed reader_env assigned dir) 0 (arrived reader_env (rd_reads s)) (reverse (rd_trace s)).
Proof.
  destruct (tun_reader_routes reader_env 40 assigned dir 3) as (s & r & H & _ & _ & Hh & _);
    [lia|exact recv_ok|exact read_bytes|intros x y [= E]; exact E| |exists s, r; exact (conj H Hh)].
  intros t. exists ops. exact (conj eq_refl (conj eq_refl eq_refl)).
Defined.

Lemma tun_writer_delivers_witness :
  ∃ s r, writer_steps server_payload writer_env 1 Writer_new = Ok (s, r) ∧
    omap server_payload (wr_accepted s) = written s ++ held s ++ omap server_payload (wr_queue s).
Proof.
  destruct (tun_writer_delivers server_payload writer_env 1) as (s & r & H & Hc & _); [|exists s, r; exact (conj H Hc)].
  split; [|intros t vs; cbn; apply Forall_Forall2_diag, Forall_forall; intros; lia].
  intros t q. cbn [we_queue writer_env]. destruct (t =? 0); [|exists []; rewrite app_nil_r; by split].
  destruct (offer_all_appends DEFAULT_TUN_CHANNEL_SIZE [[1]; [2; 2]; [3]] q 0) as (l & E & Hl). exists l. split; [exact E|].
  apply Forall_forall. intros f Hf pkt [= <-]. specialize (Hl f Hf). rewrite !elem_of_cons in Hl.
  destruct Hl as [->|[->|[->|Hl] ] ]; [done..|]. by apply elem_of_nil in Hl.
Defined.
End TunWitnesses.
