(* ===== verification/SessionManager.v ===== *)
(** * The session manager ([slt-server/src/auth/session_manager.rs])

    The manager keeps the current session of each client and the sending half
    of its shutdown channel.  Creating a session takes the lock of the manager
    for the whole of the registration and the replacement of an older session;
    a session task cleans up the registry at the end of its run and takes the
    lock again to forget its entry; the shutdown takes all senders under the
    lock and sends after it.  An execution is a sequence of these critical
    sections and sends, in any order that the tasks allow. *)

From stdpp Require Import base tactics option list numbers gmap sets.
From Stdlib Require Import ZArith Lia.
From S2P Require Import Prelude Cid IpPacket Registry ServerState.

(** ** The manager *)

(** Whether the sender of the shutdown channel is still there. *)
Record ManagedSession := mkManaged { ms_session_id : Z; ms_shutdown : bool }.

Record SessionManagerState := mkManager {
  accepting_sessions : bool;
  mg_sessions : gmap bytes ManagedSession;
}.

Definition SessionManagerState_new : SessionManagerState := mkManager true ∅.

Definition replace_session (state : SessionManagerState) (client_id : ClientId) (session_id : Z)
    : SessionManagerState * option ManagedSession :=
  (mkManager (accepting_sessions state) (<[client_id := mkManaged session_id true]> (mg_sessions state)),
   mg_sessions state !! client_id).

Definition remove_session_if_current (state : SessionManagerState) (client_id : ClientId) (session_id : Z)
    : SessionManagerState :=
  match mg_sessions state !! client_id with
  | Some session =>
      if ms_session_id session =? session_id
      then mkManager (accepting_sessions state) (delete client_id (mg_sessions state)) else state
  | None => state
  end.

(** The part of [start_shutdown] under the lock: the sessions whose senders
    it took. *)
Definition start_shutdown (state : SessionManagerState) : SessionManagerState * list Z :=
  (mkManager false ((λ m, mkManaged (ms_session_id m) false) <$> mg_sessions state),
   omap (λ cm, if ms_shutdown cm.2 then Some (ms_session_id cm.2) else None) (map_to_list (mg_sessions state))).

(** [spawn_session_with_channel]: the handle of the new session, and the
    session that was told to make room for it. *)
Definition spawn_session_with_channel (state : SessionManagerState) (registry : Registry) (client_id : ClientId)
    (assigned_ip : Ipv4Addr) (tx : SessionTx)
    : SessionManagerState * Registry * res IoError (SessionHandle * option Z) :=
  if negb (accepting_sessions state) then (state, registry, Err ConnectionAborted) else
  let '(registry, handle) := register_session registry client_id assigned_ip tx in
  let '(state, replaced) := replace_session state client_id (sh_session_id handle) in
  let told := match replaced with
              | Some m => if ms_shutdown m then Some (ms_session_id m) else None
              | None => None
              end in
  (state, registry, Ok (handle, told)).

Definition ensure_queue_size (session_queue_size : Z) : res IoError unit :=
  if session_queue_size =? 0 then Err InvalidInput else Ok tt.

(** [create_session]; [has_channel] tells whether the caller still has the TCP
    channel, which the session takes over. *)
Definition create_session (session_queue_size : Z) (state : SessionManagerState) (registry : Registry)
    (client_id : ClientId) (assigned_ip : Ipv4Addr) (tx : SessionTx) (has_channel : bool)
    : SessionManagerState * Registry * res IoError (SessionHandle * option Z) :=
  match ensure_queue_size session_queue_size with
  | Ok _ =>
      if has_channel then spawn_session_with_channel state registry client_id assigned_ip tx
      else (state, registry, Err (OtherIo 0))
  | Err e => (state, registry, Err e)
  | Panic => (state, registry, Panic)
  end.

(** ** Executions *)

(** A session task: [tk_running] until its run has cleaned up the registry,
    [tk_told] what arrived on its shutdown channel. *)
Record Task := mkTask {
  tk_client : ClientId;
  tk_ip : Ipv4Addr;
  tk_running : bool;
  tk_told : option SessionShutdownReason;
}.

(** [sy_sends]: the sessions that [start_shutdown] has still to tell. *)
Record System := mkSystem {
  sy_state : SessionManagerState;
  sy_registry : Registry;
  sy_tasks : gmap Z Task;
  sy_sends : list Z;
}.

Definition tell (reason : SessionShutdownReason) (t : Task) : Task :=
  mkTask (tk_client t) (tk_ip t) (tk_running t) (Some reason).
Definition cleaned (t : Task) : Task := mkTask (tk_client t) (tk_ip t) false (tk_told t).

Inductive sysop :=
  | SCreate (client_id : ClientId) (assigned_ip : Ipv4Addr) (tx : SessionTx)
  | SCleanup (session_id : Z)
  | SForget (session_id : Z)
  | SInsertCid (session_id : Z) (prefix : CidPrefix) (tx : SessionTx)
  | SRemoveCids (session_id : Z)
  | SShutdown
  | SSend.

Section Executions.
Context (session_queue_size : Z).

Definition sys_step (s : System) (o : sysop) : System :=
  let '(mkSystem state registry tasks sends) := s in
  match o with
  | SCreate c ip tx =>
      let '(state, registry, r) := create_session session_queue_size state registry c ip tx true in
      match r with
      | Ok (handle, told) =>
          let tasks := match told with Some old => alter (tell Takeover) old tasks | None => tasks end in
          mkSystem state registry (<[sh_session_id handle := mkTask c ip true None]> tasks) sends
      | _ => mkSystem state registry tasks sends
      end
  | SCleanup sid =>
      match tasks !! sid with
      | Some t =>
          if tk_running t
          then mkSystem state (remove_session registry sid (tk_client t) (tk_ip t)) (<[sid := cleaned t]> tasks) sends
          else s
      | None => s
      end
  | SForget sid =>
      match tasks !! sid with
      | Some t =>
          if tk_running t then s
          else mkSystem (remove_session_if_current state (tk_client t) sid) registry (delete sid tasks) sends
      | None => s
      end
  | SInsertCid sid prefix tx =>
      match tasks !! sid with
      | Some t =>
          if tk_running t then mkSystem state (insert_cid registry (tk_client t) sid prefix tx).1 tasks sends else s
      | None => s
      end
  | SRemoveCids sid => mkSystem state (remove_cids_for_session registry sid) tasks sends
  | SShutdown => let '(state, taken) := start_shutdown state in mkSystem state registry tasks (sends ++ taken)
  | SSend =>
      match sends with
      | sid :: sends => mkSystem state registry (alter (tell ServerRestart) sid tasks) sends
      | [] => s
      end
  end.

Definition sys_start : System := mkSystem SessionManagerState_new SessionRegistry_new ∅ [].
Definition sys_run (os : list sysop) : System := foldl sys_step sys_start os.

(** ** The invariant *)

(** The session has been told to end, or is about to be. *)
Definition notified (s : System) (sid : Z) : Prop :=
  (∃ t, sy_tasks s !! sid = Some t ∧ is_Some (tk_told t)) ∨ sid ∈ sy_sends s.

(** [sid] is the current session of [c]. *)
Definition current (s : System) (c : ClientId) (sid : Z) : Prop :=
  ∃ m, mg_sessions (sy_state s) !! c = Some m ∧ ms_session_id m = sid.

Definition running (s : System) (c : ClientId) (sid : Z) : Prop :=
  ∃ t, sy_tasks s !! sid = Some t ∧ tk_client t = c ∧ tk_running t = true.

Record sys_ok (s : System) : Prop := mkSysOk {
  so_ids : ∀ sid t, sy_tasks s !! sid = Some t → sid < next_session_id (sy_registry s);
  so_sends : ∀ sid, sid ∈ sy_sends s → sid < next_session_id (sy_registry s);
  so_current : ∀ c m, mg_sessions (sy_state s) !! c = Some m →
    ∃ t, sy_tasks s !! ms_session_id m = Some t ∧ tk_client t = c;
  so_told : ∀ sid t, sy_tasks s !! sid = Some t →
    mg_sessions (sy_state s) !! tk_client t = Some (mkManaged sid true) ∨ notified s sid;
  so_registry : ∀ c sid, sh_session_id <$> sessions (sy_registry s) !! c = Some sid ↔ current s c sid ∧ running s c sid;
  so_closed : accepting_sessions (sy_state s) = false → ∀ c m, mg_sessions (sy_state s) !! c = Some m → ms_shutdown m = false;
}.

Lemma sys_start_ok : sys_ok sys_start.
Proof.
  constructor; cbn; try (intros *; rewrite ?lookup_empty; done).
  - intros sid H. by apply not_elem_of_nil in H.
  - intros c sid. rewrite lookup_empty. split; [done|]. intros [(m & H & _) _]. cbn in H. by rewrite lookup_empty in H.
Qed.

(** What telling a session changes. *)
Lemma lookup_tell reason sid (tasks : gmap Z Task) k t :
  alter (tell reason) sid tasks !! k = Some t →
  ∃ t0, tasks !! k = Some t0 ∧ tk_client t = tk_client t0 ∧ tk_running t = tk_running t0 ∧
    (k = sid ∧ tk_told t = Some reason ∨ k ≠ sid ∧ t = t0).
Proof.
  intros H. destruct (decide (k = sid)) as [->|Hne].
  - rewrite lookup_alter_eq in H. apply fmap_Some in H as (t0 & E & ->). exists t0. split_and!; try done. by left.
  - rewrite lookup_alter_ne in H by done. exists t. split_and!; try done. by right.
Qed.

Lemma tell_lookup reason sid (tasks : gmap Z Task) k t0 :
  tasks !! k = Some t0 →
  ∃ t, alter (tell reason) sid tasks !! k = Some t ∧ tk_client t = tk_client t0 ∧ tk_running t = tk_running t0 ∧
    (is_Some (tk_told t0) → is_Some (tk_told t)).
Proof.
  intros H. destruct (decide (k = sid)) as [->|Hne].
  - rewrite lookup_alter_eq, H. by exists (tell reason t0).
  - rewrite lookup_alter_ne by done. by exists t0.
Qed.

Definition with_tasks (tasks : gmap Z Task) (s : System) : System :=
  mkSystem (sy_state s) (sy_registry s) tasks (sy_sends s).

Lemma tell_running reason sid s c k :
  running (with_tasks (alter (tell reason) sid (sy_tasks s)) s) c k ↔ running s c k.
Proof.
  split; intros (t & H & Ec & Er).
  - apply lookup_tell in H as (t0 & H & E1 & E2 & _). exists t0. split_and!; congruence.
  - destruct (tell_lookup reason sid (sy_tasks s) k t H) as (t' & H' & E1 & E2 & _). exists t'. split_and!; [done|congruence..].
Qed.

Lemma tell_notified reason sid s k :
  notified s k → notified (with_tasks (alter (tell reason) sid (sy_tasks s)) s) k.
Proof.
  intros [(t & H & Ht)|H]; [left|by right].
  destruct (tell_lookup reason sid (sy_tasks s) k t H) as (t' & H' & _ & _ & Ht'). exists t'. auto.
Qed.

(** Telling a session is harmless. *)
Lemma tell_ok reason sid s : sys_ok s → sys_ok (with_tasks (alter (tell reason) sid (sy_tasks s)) s).
Proof.
  intros []. constructor; cbn; try done.
  - intros k t H. apply lookup_tell in H as (t0 & H & _). by eapply so_ids0.
  - intros c m H. destruct (so_current0 c m H) as (t & Ht & Ec).
    destruct (tell_lookup reason sid _ _ _ Ht) as (t' & H' & E1 & _). exists t'. split; [done|congruence].
  - intros k t H. apply lookup_tell in H as (t0 & H & E1 & _ & _). rewrite E1.
    destruct (so_told0 k t0 H) as [?|?]; [by left|right; by apply tell_notified].
  - intros c k. rewrite tell_running. apply so_registry0.
Qed.

Lemma told_notified reason sid t s :
  sy_tasks s !! sid = Some t → notified (with_tasks (alter (tell reason) sid (sy_tasks s)) s) sid.
Proof. intros H. left. exists (tell reason t). cbn. rewrite lookup_alter_eq, H. split; [done|by eexists]. Qed.

Lemma sys_send_ok sid rest s :
  sys_ok s → sy_sends s = sid :: rest →
  sys_ok (mkSystem (sy_state s) (sy_registry s) (alter (tell ServerRestart) sid (sy_tasks s)) rest).
Proof.
  intros Hs Es. pose proof (tell_ok ServerRestart sid s Hs) as [H1 H2 H3 H4 H5 H6]. cbn in *.
  constructor; cbn; try done.
  - intros k Hk. apply H2. rewrite Es. by right.
  - intros k t Ht. destruct (H4 k t Ht) as [?|[Hn|Hn] ]; [by left|right; by left|right]. cbn in Hn. rewrite Es in Hn.
    apply elem_of_cons in Hn as [->|Hn]; [left|by right].
    apply lookup_tell in Ht as Ht'. destruct Ht' as (t0 & H0 & _ & _ & [ [_ Et]|[? _] ]); [|done]. exists t.
    split; [done|]. rewrite Et. by eexists.
Qed.

(** A registered session: the older ones of the client have been notified. *)
Lemma create_registered s c ip tx :
  sys_ok s → accepting_sessions (sy_state s) = true → next_session_id (sy_registry s) < u64_max →
  (∀ sid t, sy_tasks s !! sid = Some t → tk_client t = c → notified s sid) →
  sys_ok (mkSystem (replace_session (sy_state s) c (next_session_id (sy_registry s))).1
            (register_session (sy_registry s) c ip tx).1
            (<[next_session_id (sy_registry s) := mkTask c ip true None]> (sy_tasks s)) (sy_sends s)).
Proof.
  intros [] Hacc Hn Hold. set (n := next_session_id (sy_registry s)) in *.
  assert (next_session_id (register_session (sy_registry s) c ip tx).1 = n + 1) as En.
  { unfold register_session. fold n. destruct (sessions (sy_registry s) !! c); cbn; unfold saturating_add64; lia. }
  assert (sessions (register_session (sy_registry s) c ip tx).1 = <[c := mkHandle n c ip tx]> (sessions (sy_registry s))) as Es.
  { unfold register_session. fold n. by destruct (sessions (sy_registry s) !! c). }
  assert (sy_tasks s !! n = None) as Hfresh.
  { destruct (sy_tasks s !! n) eqn:E; [|done]. apply so_ids0 in E. lia. }
  constructor; cbn.
  - intros sid t [ [<- _]|[_ H] ]%lookup_insert_Some; rewrite En; [lia|]. apply so_ids0 in H. lia.
  - intros sid H. rewrite En. apply so_sends0 in H. lia.
  - intros c' m [ [<- <-]|[Hne H] ]%lookup_insert_Some; cbn; [rewrite lookup_insert_eq; by eexists|].
    destruct (so_current0 c' m H) as (t & Ht & Ec). exists t. split; [|done]. rewrite lookup_insert_ne; congruence.
  - intros sid t [ [<- <-]|[Hne H] ]%lookup_insert_Some; cbn; [left; by rewrite lookup_insert_eq|].
    assert (notified s sid → notified (mkSystem (replace_session (sy_state s) c n).1 (register_session (sy_registry s) c ip tx).1
      (<[n:=mkTask c ip true None]> (sy_tasks s)) (sy_sends s)) sid) as Hmono.
    { intros [(t' & H' & ?)|?]; [left|by right]. exists t'. cbn. by rewrite lookup_insert_ne. }
    destruct (decide (tk_client t = c)) as [E|E]; [right; eauto|]. rewrite lookup_insert_ne by done.
    destruct (so_told0 sid t H) as [?|?]; [by left|right; auto].
  - intros c' sid. rewrite Es. destruct (decide (c' = c)) as [->|E].
    + rewrite lookup_insert_eq. cbn. split.
      * intros [= <-]. split; [exists (mkManaged n true); cbn; by rewrite lookup_insert_eq|].
        exists (mkTask c ip true None). cbn. by rewrite lookup_insert_eq.
      * intros [(m & H & <-) _]. cbn in H. rewrite lookup_insert_eq in H. by injection H as <-.
    + rewrite lookup_insert_ne, so_registry0 by done. unfold current, running. cbn. rewrite lookup_insert_ne by done.
      split; intros [Hc (t & Ht & ? & ?)]; (split; [done|]); exists t.
      * rewrite lookup_insert_ne; [done|congruence].
      * apply lookup_insert_Some in Ht as [ [_ <-]|[_ ?] ]; [done|done].
  - intros E. congruence.
Qed.

Lemma create_ok s c ip tx :
  sys_ok s → next_session_id (sy_registry s) < u64_max → sys_ok (sys_step s (SCreate c ip tx)).
Proof.
  intros Hs Hn. destruct s as [st r tasks sends]. cbn [sys_step]. unfold create_session, ensure_queue_size.
  destruct (session_queue_size =? 0); [done|]. unfold spawn_session_with_channel.
  destruct (accepting_sessions st) eqn:Ea; cbn [negb]; [|done].
  destruct (register_session r c ip tx) as [r' handle] eqn:Er.
  assert (handle = mkHandle (next_session_id r) c ip tx) as ->.
  { unfold register_session in Er. by destruct (sessions r !! c); simplify_eq. }
  cbn [replace_session sh_session_id].
  assert (∀ s', sys_ok s' → sy_state s' = st → sy_registry s' = r → sy_sends s' = sends →
    (∀ sid t, sy_tasks s' !! sid = Some t → tk_client t = c → notified s' sid) →
    sys_ok (mkSystem (mkManager (accepting_sessions st) (<[c := mkManaged (next_session_id r) true]> (mg_sessions st))) r'
      (<[next_session_id r := mkTask c ip true None]> (sy_tasks s')) sends)) as Hreg.
  { intros [st' r0 tasks' sends'] Hs' E1 E2 E3 Hold. cbn in E1, E2, E3. subst st' r0 sends'. pose proof (create_registered _ c ip tx Hs' Ea Hn Hold) as H.
    cbn in H. by rewrite Er in H. }
  pose proof Hs as [_ _ Hc Ht _ _]. cbn in Hc, Ht.
  destruct (mg_sessions st !! c) as [ [old []]|] eqn:Em; cbn [ms_shutdown ms_session_id].
  - destruct (Hc c _ Em) as (told & Hold & _). cbn in Hold.
    refine (Hreg (with_tasks (alter (tell Takeover) old tasks) (mkSystem st r tasks sends)) _ eq_refl eq_refl eq_refl _);
      [by apply tell_ok|].
    intros sid t H Ec. cbn in H. apply lookup_tell in H as (t0 & H & E1 & _ & _).
    destruct (Ht sid t0 H) as [Hm|Hm]; [|by apply tell_notified]. rewrite <- E1, Ec, Em in Hm. injection Hm as <-.
    by eapply told_notified.
  - refine (Hreg (mkSystem st r tasks sends) Hs eq_refl eq_refl eq_refl _). intros sid t H Ec. cbn in H.
    destruct (Ht sid t H) as [Hm|?]; [|done]. rewrite Ec, Em in Hm. by injection Hm.
  - refine (Hreg (mkSystem st r tasks sends) Hs eq_refl eq_refl eq_refl _). intros sid t H Ec. cbn in H.
    destruct (Ht sid t H) as [Hm|?]; [|done]. by rewrite Ec, Em in Hm.
Qed.

Lemma sys_cleanup_ok s sid : sys_ok s → sys_ok (sys_step s (SCleanup sid)).
Proof.
  intros Hs. destruct s as [st r tasks sends]. cbn [sys_step]. destruct (tasks !! sid) as [t|] eqn:Et; [|done].
  destruct (tk_running t) eqn:Er; [|done]. pose proof Hs as [H1 H2 H3 H4 H5 H6]. cbn in *.
  constructor; cbn; try done.
  - intros k t' [ [<- _]|[_ H] ]%lookup_insert_Some; [by apply (H1 sid t)|by apply (H1 k t')].
  - intros c m H. destruct (H3 c m H) as (t' & Ht' & Ec). destruct (decide (ms_session_id m = sid)) as [E|E].
    + rewrite E, lookup_insert_eq. exists (cleaned t). split; [done|]. rewrite E, Et in Ht'. by injection Ht' as ->.
    + rewrite lookup_insert_ne by done. by exists t'.
  - assert (∀ k, notified (mkSystem st r tasks sends) k → notified (mkSystem st
      (remove_session r sid (tk_client t) (tk_ip t)) (<[sid:=cleaned t]> tasks) sends) k) as Hmono.
    { intros k [(t' & H' & Hs')|?]; [left|by right]. cbn in *. destruct (decide (k = sid)) as [->|E].
      - exists (cleaned t). rewrite lookup_insert_eq. split; [done|]. rewrite Et in H'. by injection H' as ->.
      - exists t'. by rewrite lookup_insert_ne. }
    intros k t' [ [<- <-]|[_ H] ]%lookup_insert_Some; cbn.
    + destruct (H4 sid t Et) as [?|?]; [by left|right; auto].
    + destruct (H4 k t' H) as [?|?]; [by left|right; auto].
  - intros c k. unfold running. cbn. destruct (decide (k = sid)) as [->|E].
    + assert (¬ sh_session_id <$> (if owned_by (sessions r !! tk_client t) sid then delete (tk_client t) (sessions r)
        else sessions r) !! c = Some sid) as Hno.
      { intros H. destruct (decide (c = tk_client t)) as [->|Ec].
        - unfold owned_by in H. destruct (sessions r !! tk_client t) as [h|] eqn:Eh; [|by rewrite Eh in H].
          destruct (Z.eqb_spec (sh_session_id h) sid); [by rewrite lookup_delete_eq in H|].
          rewrite Eh in H. by injection H.
        - assert (sh_session_id <$> sessions r !! c = Some sid) as H'.
          { destruct (owned_by _ _); [by rewrite lookup_delete_ne in H|done]. }
          apply H5 in H' as [_ (t' & Ht' & Ec' & _)]. cbn in Ht'. rewrite Et in Ht'. injection Ht' as <-. congruence. }
      split; [done|]. intros [_ (t' & Ht' & _ & Hr)]. rewrite lookup_insert_eq in Ht'. by injection Ht' as <-.
    + assert (sh_session_id <$> (if owned_by (sessions r !! tk_client t) sid then delete (tk_client t) (sessions r)
        else sessions r) !! c = Some k ↔ sh_session_id <$> sessions r !! c = Some k) as ->.
      { unfold owned_by. destruct (sessions r !! tk_client t) as [h|] eqn:Eh; [|done].
        destruct (Z.eqb_spec (sh_session_id h) sid) as [Eo|]; [|done]. destruct (decide (c = tk_client t)) as [->|Ec].
        - rewrite lookup_delete_eq, Eh. cbn. split; [done|]. congruence.
        - by rewrite lookup_delete_ne. }
      rewrite H5. unfold running. cbn. by rewrite lookup_insert_ne.
Qed.

Lemma forget_ok s sid : sys_ok s → sys_ok (sys_step s (SForget sid)).
Proof.
  intros Hs. destruct s as [st r tasks sends]. cbn [sys_step]. destruct (tasks !! sid) as [t|] eqn:Et; [|done].
  destruct (tk_running t) eqn:Er; [done|]. pose proof Hs as [H1 H2 H3 H4 H5 H6]. cbn in *.
  set (st' := remove_session_if_current st (tk_client t) sid).
  assert (∀ c m, mg_sessions st' !! c = Some m ↔ mg_sessions st !! c = Some m ∧ ms_session_id m ≠ sid) as Hm.
  { intros c m. unfold st', remove_session_if_current. destruct (mg_sessions st !! tk_client t) as [m0|] eqn:E0.
    - destruct (Z.eqb_spec (ms_session_id m0) sid) as [E|E]; cbn.
      + rewrite lookup_delete_Some. split; [|intros [H Hne]; split; [congruence|done] ]. intros [Hne H]. split; [done|].
        intros Ec. destruct (H3 c m H) as (t' & Ht' & <-). congruence.
      + split; [|by intros [? _] ]. intros H. split; [done|]. intros Ec. destruct (H3 c m H) as (t' & Ht' & <-). congruence.
    - split; [|by intros [? _] ]. intros H. split; [done|]. intros Ec. destruct (H3 c m H) as (t' & Ht' & <-). congruence. }
  assert (accepting_sessions st' = accepting_sessions st) as Ea.
  { unfold st', remove_session_if_current. destruct (mg_sessions st !! _); [by destruct (_ =? _)|done]. }
  constructor; cbn.
  - intros k t' [_ H]%lookup_delete_Some. by apply (H1 k t').
  - done.
  - intros c m [H Hne]%Hm. destruct (H3 c m H) as (t' & Ht' & Ec). exists t'. by rewrite lookup_delete_ne.
  - intros k t' [Hne H]%lookup_delete_Some. destruct (H4 k t' H) as [?|[(t0 & H0 & ?)|?] ].
    + left. apply Hm. split; [done|]. cbn. congruence.
    + right; left. exists t0. cbn in *. by rewrite lookup_delete_ne.
    + by right; right.
  - intros c k. rewrite H5. unfold current, running. cbn. split; intros [(m & H & <-) (t' & Ht' & Ec & Hr)].
    + assert (ms_session_id m ≠ sid) as Hne by (intros E; congruence). split; [exists m; split; [by apply Hm|done] |].
      exists t'. by rewrite lookup_delete_ne.
    + apply Hm in H as [H Hne]. rewrite lookup_delete_ne in Ht' by done. split; [by exists m|by exists t'].
  - rewrite Ea. intros E c m [H _]%Hm. by apply (H6 E c m).
Qed.

(** Changes of the registry that keep its sessions. *)
Lemma routes_ok s r :
  sys_ok s → next_session_id r = next_session_id (sy_registry s) → sessions r = sessions (sy_registry s) →
  sys_ok (mkSystem (sy_state s) r (sy_tasks s) (sy_sends s)).
Proof. intros [] En Es. constructor; cbn; rewrite ?En, ?Es; done. Qed.

Lemma shutdown_ok s : sys_ok s → sys_ok (sys_step s SShutdown).
Proof.
  intros Hs. destruct s as [st r tasks sends]. pose proof Hs as [H1 H2 H3 H4 H5 H6]. cbn in *.
  set (taken := omap _ (map_to_list (mg_sessions st))).
  assert (∀ sid, sid ∈ taken ↔ ∃ c, mg_sessions st !! c = Some (mkManaged sid true)) as Htk.
  { intros sid. unfold taken. rewrite list_elem_of_omap. split.
    - intros ([c [k []]] & Hin & E); cbn in E; [|done]. injection E as <-. exists c. by apply elem_of_map_to_list in Hin.
    - intros [c Hc]. exists (c, mkManaged sid true). split; [by apply elem_of_map_to_list|done]. }
  constructor; cbn; try done.
  - intros sid [?|H]%elem_of_app; [by apply H2|]. apply Htk in H as [c H]. destruct (H3 c _ H) as (t & Ht & _). by eapply H1.
  - intros c m H. rewrite lookup_fmap in H. apply fmap_Some in H as (m0 & H & ->). exact (H3 c m0 H).
  - intros sid t Ht. right. destruct (H4 sid t Ht) as [H|[H|H] ]; [right|by left|right]; cbn in *; apply elem_of_app; [right|by left].
    apply Htk. by exists (tk_client t).
  - intros c sid. rewrite H5. unfold current. cbn. rewrite lookup_fmap. split; intros [(m & H & <-) ?]; (split; [|done]).
    + rewrite H. by eexists.
    + apply fmap_Some in H as (m0 & H & ->). by exists m0.
  - intros _ c m H. rewrite lookup_fmap in H. by apply fmap_Some in H as (m0 & _ & ->).
Qed.

Lemma step_ok s o : sys_ok s → next_session_id (sy_registry s) < u64_max → sys_ok (sys_step s o).
Proof.
  intros Hs Hn. destruct o as [c ip tx|sid|sid|sid p tx|sid| |].
  - by apply create_ok.
  - by apply sys_cleanup_ok.
  - by apply forget_ok.
  - destruct s as [st r tasks sends]. cbn [sys_step]. destruct (tasks !! sid) as [t|]; [|done]. destruct (tk_running t); [|done].
    apply (routes_ok (mkSystem st r tasks sends)); [done|..]; cbn; unfold insert_cid; by repeat case_match.
  - destruct s as [st r tasks sends]. by apply (routes_ok (mkSystem st r tasks sends)).
  - by apply shutdown_ok.
  - destruct s as [st r tasks sends]. cbn [sys_step]. destruct sends as [|sid sends]; [done|]. exact (sys_send_ok sid sends _ Hs eq_refl).
Qed.

Lemma step_next s o :
  next_session_id (sy_registry s) < u64_max →
  next_session_id (sy_registry (sys_step s o)) ≤ next_session_id (sy_registry s) + 1.
Proof.
  intros Hn. destruct s as [st r tasks sends]. cbn in Hn. assert (next_session_id r ≤ next_session_id r + 1) by lia.
  destruct o; cbn [sys_step]; unfold create_session, ensure_queue_size, spawn_session_with_channel, register_session, insert_cid;
    repeat (case_match; simplify_eq/=; try done); unfold saturating_add64; cbn; lia.
Qed.

Lemma sys_run_ok os : zlen os < u64_max - 1 → sys_ok (sys_run os) ∧ next_session_id (sy_registry (sys_run os)) ≤ 1 + zlen os.
Proof.
  unfold sys_run. induction os as [|o os IH] using rev_ind; [intros _; split; [apply sys_start_ok|done]|].
  rewrite zlen_app, foldl_app. cbn [foldl]. change (zlen [o]) with 1. intros H. destruct IH as [Hs Hn]; [lia|].
  split; [apply step_ok; [done|lia]|]. pose proof (step_next (foldl sys_step sys_start os) o). lia.
Qed.

End Executions.

