(* ===== verification/Supervision.v ===== *)
(** * The server's supervisor ([slt-server/src/server_runtime/supervision.rs])

    Five worker tasks run until one of them ends or the process is interrupted.
    The supervisor then stops the others, refuses new sessions and new
    authentications, and waits for everything that still runs.  Connections are
    claimed by tasks it does not know of, so an authentication may be about to
    start at any time; a tracker with a gate decides whether it still does.

    An execution is a sequence of atomic steps of the supervisor, the workers,
    the tasks that claim connections, the authentications and the sessions.
    The tracker ([tokio-util]) is the number of its tokens and whether it is
    closed; waiting for it ends when it is closed and has no token. *)

From stdpp Require Import base tactics option list numbers gmap sets relations.
From Stdlib Require Import ZArith Lia.
From S2P Require Import Prelude Registry ServerState SessionManager.

Inductive worker := WTcp | WUdp | WTunReader | WTunWriter | WMetrics.
#[export] Instance worker_eq_dec : EqDecision worker.
Proof. solve_decision. Defined.

(** [Result<io::Result<()>, JoinError>] *)
Inductive JoinError := JoinPanic | JoinCancelled.
Abbreviation join_result := (io_result unit + JoinError)%type.

Inductive ShutdownTrigger := WorkerFailed (task : worker) (result : join_result) | TrigCancelled.

(** [io::Error::other] has the kind [Other]. *)
Definition classify_task_result (result : join_result) : io_result unit :=
  match result with
  | inl (inl _) => inl tt
  | inl (inr err) => inr err
  | inr _ => inr (OtherIo 0)
  end.

Definition merge_task_result (shutdown_result : io_result unit) (result : join_result) : io_result unit :=
  let task_result := classify_task_result result in
  match shutdown_result with
  | inl _ => task_result
  | inr err => inr err
  end.

(** ** [AuthTaskTracker] *)

(** An authentication that was asked for: it holds a token of the tracker and
    is before the gate, has passed it, or runs. *)
Inductive auth_pc := Reserved | Passed | Running.

Record AuthTaskTracker := mkTracker {
  tr_accepting : bool;
  tr_closed : bool;
  tr_tasks : gmap Z auth_pc;
}.

Definition AuthTaskTracker_new : AuthTaskTracker := mkTracker true false ∅.

Definition set_auth (n : Z) (pc : option auth_pc) (tr : AuthTaskTracker) : AuthTaskTracker :=
  mkTracker (tr_accepting tr) (tr_closed tr) (partial_alter (λ _, pc) n (tr_tasks tr)).

(** [spawn]: the token is taken, then the gate is read, then the task starts;
    [None] at a refusal, which drops the token. *)
Definition spawn_reserve (n : Z) (tr : AuthTaskTracker) : AuthTaskTracker := set_auth n (Some Reserved) tr.
Definition spawn_gate (n : Z) (tr : AuthTaskTracker) : AuthTaskTracker :=
  set_auth n (if tr_accepting tr then Some Passed else None) tr.
Definition spawn_start (n : Z) (tr : AuthTaskTracker) : AuthTaskTracker := set_auth n (Some Running) tr.
Definition auth_ended (n : Z) (tr : AuthTaskTracker) : AuthTaskTracker := set_auth n None tr.

(** [close]: the two stores. *)
Definition close_gate (tr : AuthTaskTracker) : AuthTaskTracker := mkTracker false (tr_closed tr) (tr_tasks tr).
Definition close_tasks (tr : AuthTaskTracker) : AuthTaskTracker := mkTracker (tr_accepting tr) true (tr_tasks tr).

(** [wait] is over. *)
Definition wait_over (tr : AuthTaskTracker) : Prop := tr_closed tr = true ∧ tr_tasks tr = ∅.

(** ** The supervisor *)

(** What it does before it waits: [cancel.cancel()], [sessions.start_shutdown()]
    (its lock section, its sends, closing its tracker) and [auth_tasks.close()]
    (its two stores). *)
Inductive stop_action := DoCancel | DoStartShutdown | DoSends | DoCloseSessions | DoCloseGate | DoCloseAuth.
#[export] Instance stop_action_eq_dec : EqDecision stop_action.
Proof. solve_decision. Defined.

Inductive sup_pc :=
  | Selecting
  | Stopping (todo : list stop_action)
  | Joining (todo : list worker) (result : io_result unit)
  | WaitAuth (result : io_result unit)
  | WaitSessions (result : io_result unit)
  | Returned (result : io_result unit)
  | TimedOutShutdown.

Definition stop_actions (t : ShutdownTrigger) : list stop_action :=
  (match t with WorkerFailed _ _ => [DoCancel] | TrigCancelled => [] end) ++
  [DoStartShutdown; DoSends; DoCloseSessions; DoCloseGate; DoCloseAuth].

(** The order in which the workers are joined. *)
Definition workers : list worker := [WTcp; WUdp; WTunReader; WTunWriter; WMetrics].
Definition join_order (t : ShutdownTrigger) : list worker :=
  match t with
  | WorkerFailed task _ => filter (λ w, w ≠ task) workers
  | TrigCancelled => workers
  end.
Definition first_result (t : ShutdownTrigger) : io_result unit :=
  match t with
  | WorkerFailed _ result => classify_task_result result
  | TrigCancelled => inl tt
  end.
(** [join_ignoring_result] after an interrupt. *)
Definition join_one (t : ShutdownTrigger) (acc : io_result unit) (result : join_result) : io_result unit :=
  match t with
  | WorkerFailed _ _ => merge_task_result acc result
  | TrigCancelled => acc
  end.

(** [sv_log] are the critical sections of the session manager and its tasks so
    far; [sv_claimed] are connections claimed before the interrupt was seen,
    whose authentication has not been asked for. *)
Record Server := mkServer {
  sv_sup : sup_pc;
  sv_trigger : ShutdownTrigger;
  sv_ended : worker → option join_result;
  sv_cancelled : bool;
  sv_claimed : gset Z;
  sv_auth : AuthTaskTracker;
  sv_log : list sysop;
  sv_sessions_closed : bool;
}.

Definition Server_new : Server :=
  mkServer Selecting TrigCancelled (λ _, None) false ∅ AuthTaskTracker_new [] false.

Definition put_sup (pc : sup_pc) (s : Server) : Server :=
  mkServer pc (sv_trigger s) (sv_ended s) (sv_cancelled s) (sv_claimed s) (sv_auth s) (sv_log s) (sv_sessions_closed s).
Definition put_trigger (t : ShutdownTrigger) (s : Server) : Server :=
  mkServer (sv_sup s) t (sv_ended s) (sv_cancelled s) (sv_claimed s) (sv_auth s) (sv_log s) (sv_sessions_closed s).
Definition end_worker (w : worker) (r : join_result) (s : Server) : Server :=
  mkServer (sv_sup s) (sv_trigger s) (λ w', if decide (w' = w) then Some r else sv_ended s w') (sv_cancelled s) (sv_claimed s)
    (sv_auth s) (sv_log s) (sv_sessions_closed s).
Definition cancel_all (s : Server) : Server :=
  mkServer (sv_sup s) (sv_trigger s) (sv_ended s) true (sv_claimed s) (sv_auth s) (sv_log s) (sv_sessions_closed s).
Definition put_claimed (c : gset Z) (s : Server) : Server :=
  mkServer (sv_sup s) (sv_trigger s) (sv_ended s) (sv_cancelled s) c (sv_auth s) (sv_log s) (sv_sessions_closed s).
Definition put_auth (a : AuthTaskTracker) (s : Server) : Server :=
  mkServer (sv_sup s) (sv_trigger s) (sv_ended s) (sv_cancelled s) (sv_claimed s) a (sv_log s) (sv_sessions_closed s).
Definition manage (o : sysop) (s : Server) : Server :=
  mkServer (sv_sup s) (sv_trigger s) (sv_ended s) (sv_cancelled s) (sv_claimed s) (sv_auth s) (sv_log s ++ [o]) (sv_sessions_closed s).
Definition close_sessions (s : Server) : Server :=
  mkServer (sv_sup s) (sv_trigger s) (sv_ended s) (sv_cancelled s) (sv_claimed s) (sv_auth s) (sv_log s) true.

Section Supervisor.
Context (session_queue_size : Z).

Definition sessions_of (s : Server) : System := sys_run session_queue_size (sv_log s).

(** One of the actions before the waits; [None] while it is not over. *)
Definition stop_step (a : stop_action) (s : Server) : Server * bool :=
  match a with
  | DoCancel => (cancel_all s, true)
  | DoStartShutdown => (manage SShutdown s, true)
  | DoSends => match sy_sends (sessions_of s) with [] => (s, true) | _ => (manage SSend s, false) end
  | DoCloseSessions => (close_sessions s, true)
  | DoCloseGate => (put_auth (close_gate (sv_auth s)) s, true)
  | DoCloseAuth => (put_auth (close_tasks (sv_auth s)) s, true)
  end.

Inductive srv_step : Server → Server → Prop :=
  (* workers, the interrupt *)
  | SWorkerEnds s w r : sv_ended s w = None → srv_step s (end_worker w r s)
  | SCtrlC s : srv_step s (cancel_all s)
  (* a connection is claimed; its authentication *)
  | SClaim s n : sv_cancelled s = false → n ∉ sv_claimed s → tr_tasks (sv_auth s) !! n = None →
      srv_step s (put_claimed ({[ n ]} ∪ sv_claimed s) s)
  | SReserve s n : n ∈ sv_claimed s → srv_step s (put_claimed (sv_claimed s ∖ {[ n ]}) (put_auth (spawn_reserve n (sv_auth s)) s))
  | SGate s n : tr_tasks (sv_auth s) !! n = Some Reserved → srv_step s (put_auth (spawn_gate n (sv_auth s)) s)
  | SStart s n : tr_tasks (sv_auth s) !! n = Some Passed → srv_step s (put_auth (spawn_start n (sv_auth s)) s)
  | SAuthEnds s n : tr_tasks (sv_auth s) !! n = Some Running → srv_step s (put_auth (auth_ended n (sv_auth s)) s)
  | SSession s n c ip tx : tr_tasks (sv_auth s) !! n = Some Running → srv_step s (manage (SCreate c ip tx) s)
  (* sessions *)
  | STask s o : match o with SCreate _ _ _ | SShutdown | SSend => False | _ => True end → srv_step s (manage o s)
  (* the supervisor *)
  | SFailed s w r : sv_sup s = Selecting → sv_ended s w = Some r →
      srv_step s (put_trigger (WorkerFailed w r) (put_sup (Stopping (stop_actions (WorkerFailed w r))) s))
  | SInterrupted s : sv_sup s = Selecting → sv_cancelled s = true →
      srv_step s (put_trigger TrigCancelled (put_sup (Stopping (stop_actions TrigCancelled)) s))
  | SStop s a todo : sv_sup s = Stopping (a :: todo) →
      srv_step s (let '(s', over) := stop_step a s in if (over : bool) then put_sup (Stopping todo) s' else s')
  | SStopped s : sv_sup s = Stopping [] →
      srv_step s (put_sup (Joining (join_order (sv_trigger s)) (first_result (sv_trigger s))) s)
  | SJoin s w todo acc r : sv_sup s = Joining (w :: todo) acc → sv_ended s w = Some r →
      srv_step s (put_sup (Joining todo (join_one (sv_trigger s) acc r)) s)
  | SJoined s acc : sv_sup s = Joining [] acc → srv_step s (put_sup (WaitAuth acc) s)
  | SAuthDone s acc : sv_sup s = WaitAuth acc → wait_over (sv_auth s) → srv_step s (put_sup (WaitSessions acc) s)
  | SSessionsDone s acc : sv_sup s = WaitSessions acc → sv_sessions_closed s = true → sy_tasks (sessions_of s) = ∅ →
      srv_step s (put_sup (Returned acc) s)
  (* [await_graceful_shutdown] gives up *)
  | STimeout s : match sv_sup s with Selecting | Returned _ => False | _ => True end → srv_step s (put_sup TimedOutShutdown s).

(** ** What only ever changes in one direction *)

(** The authentication runs or will run. *)
Definition active (tr : AuthTaskTracker) (n : Z) : Prop := ∃ pc, tr_tasks tr !! n = Some pc ∧ pc ≠ Reserved.

Definition refusing (s : Server) : Prop := accepting_sessions (sy_state (sessions_of s)) = false.

Record mono (s s' : Server) : Prop := mkMono {
  mo_ended : ∀ w r, sv_ended s w = Some r → sv_ended s' w = Some r;
  mo_cancelled : sv_cancelled s = true → sv_cancelled s' = true;
  mo_gate : tr_accepting (sv_auth s) = false → tr_accepting (sv_auth s') = false;
  mo_closed : tr_closed (sv_auth s) = true → tr_closed (sv_auth s') = true;
  mo_sessions_closed : sv_sessions_closed s = true → sv_sessions_closed s' = true;
  mo_refusing : refusing s → refusing s';
  mo_active : tr_accepting (sv_auth s) = false → ∀ n, active (sv_auth s') n → active (sv_auth s) n;
  mo_tasks : refusing s → sy_tasks (sessions_of s) = ∅ → sy_tasks (sessions_of s') = ∅;
}.

Lemma sys_run_snoc l o : sys_run session_queue_size (l ++ [o]) = sys_step session_queue_size (sys_run session_queue_size l) o.
Proof. unfold sys_run. by rewrite foldl_app. Qed.

(** A manager that refuses sessions goes on refusing, and starts none. *)
Lemma sys_step_refusing S o :
  accepting_sessions (sy_state S) = false →
  accepting_sessions (sy_state (sys_step session_queue_size S o)) = false ∧
  (sy_tasks S = ∅ → sy_tasks (sys_step session_queue_size S o) = ∅).
Proof.
  destruct S as [st r tasks sends]. cbn [sy_state sy_tasks]. intros Hr. destruct o as [c ip tx|sid|sid|sid p tx|sid| |]; cbn [sys_step].
  - unfold create_session, ensure_queue_size, spawn_session_with_channel. rewrite Hr. by destruct (session_queue_size =? 0).
  - destruct (tasks !! sid) as [t|] eqn:Et; [|done]. destruct (tk_running t); [|done]. split; [done|].
    intros ->. by rewrite lookup_empty in Et.
  - destruct (tasks !! sid) as [t|] eqn:Et; [|done]. destruct (tk_running t); [done|]. split.
    + cbn. unfold remove_session_if_current. destruct (mg_sessions st !! _); [|done]. by destruct (_ =? _).
    + intros ->. by rewrite lookup_empty in Et.
  - destruct (tasks !! sid) as [t|]; [|done]. by destruct (tk_running t).
  - done.
  - done.
  - destruct sends; [done|]. split; [done|]. intros ->. cbn. by rewrite alter_empty.
Qed.

Lemma mono_refl s : mono s s.
Proof. by split. Qed.

Lemma mono_same s s' :
  (∀ w r, sv_ended s w = Some r → sv_ended s' w = Some r) → (sv_cancelled s = true → sv_cancelled s' = true) →
  sv_auth s' = sv_auth s → sv_log s' = sv_log s → (sv_sessions_closed s = true → sv_sessions_closed s' = true) → mono s s'.
Proof. intros. unfold refusing, sessions_of in *. split; unfold refusing, sessions_of; intros; congruence || auto. Qed.

Lemma mono_manage o s : mono s (manage o s).
Proof.
  split; try done; unfold refusing, sessions_of; cbn [sv_log manage]; rewrite sys_run_snoc; intros.
  - by apply sys_step_refusing.
  - by apply sys_step_refusing.
Qed.

Lemma mono_auth tr c s :
  (tr_accepting (sv_auth s) = false → tr_accepting tr = false) → (tr_closed (sv_auth s) = true → tr_closed tr = true) →
  (tr_accepting (sv_auth s) = false → ∀ n, active tr n → active (sv_auth s) n) →
  mono s (put_claimed c (put_auth tr s)).
Proof. by split. Qed.

(** A change of one authentication that does not get past the gate. *)
Lemma set_auth_active n pc tr :
  (∀ pc', pc = Some pc' → pc' ≠ Reserved → active tr n) → ∀ k, active (set_auth n pc tr) k → active tr k.
Proof.
  intros H k (pc' & E & Hne). unfold set_auth in E. cbn in E. destruct (decide (k = n)) as [->|Hk].
  - rewrite lookup_partial_alter_eq in E. by eapply H.
  - rewrite lookup_partial_alter_ne in E by done. by exists pc'.
Qed.

Lemma mono_set_auth n pc s :
  (tr_accepting (sv_auth s) = false → ∀ pc', pc = Some pc' → pc' ≠ Reserved → active (sv_auth s) n) →
  mono s (put_auth (set_auth n pc (sv_auth s)) s).
Proof. intros H. apply (mono_auth _ (sv_claimed s)); [done|done|]. intros Hg. by apply set_auth_active, H. Qed.

Lemma stop_step_mono a s : mono s (stop_step a s).1.
Proof.
  destruct a; cbn [stop_step fst]; try (by apply mono_same); [apply mono_manage| | |].
  - destruct (sy_sends _); [apply mono_refl|apply mono_manage].
  - by apply (mono_auth _ (sv_claimed s)).
  - by apply (mono_auth _ (sv_claimed s)).
Qed.

Lemma mono_put_sup pc s s' : mono s s' → mono s (put_sup pc s').
Proof. by intros []. Qed.

Lemma step_mono s s' : srv_step s s' → mono s s'.
Proof.
  intros H. destruct H as [s w r Hw|s|s n|s n|s n Hn|s n Hn|s n Hn|s n c ip tx|s o|s w r|s|s a todo|s|s w todo acc r|s acc|s acc|s acc|s];
    try (by apply mono_same).
  - apply mono_same; try done. intros w' r' E. cbn. destruct (decide (w' = w)) as [->|]; [congruence|done].
  - apply mono_auth; [done|done|]. intros _. apply set_auth_active. by intros pc [= <-].
  - apply mono_set_auth. unfold spawn_gate. intros ->. done.
  - apply mono_set_auth. intros _ pc [= <-] _. by exists Passed.
  - by apply mono_set_auth.
  - apply mono_manage.
  - apply mono_manage.
  - pose proof (stop_step_mono a s) as Hm. destruct (stop_step a s) as [s1 over]. destruct over; [by apply mono_put_sup|done].
Qed.

(** ** The invariant *)
Definition did (a : stop_action) (s : Server) : Prop :=
  match a with
  | DoCancel => sv_cancelled s = true
  | DoStartShutdown => refusing s
  | DoSends => True
  | DoCloseSessions => sv_sessions_closed s = true
  | DoCloseGate => tr_accepting (sv_auth s) = false
  | DoCloseAuth => tr_closed (sv_auth s) = true
  end.
Definition stopped (s : Server) : Prop := ∀ a, did a s.

Definition triggered (s : Server) : Prop :=
  match sv_trigger s with WorkerFailed w r => sv_ended s w = Some r | TrigCancelled => True end.

(** All but the workers in [todo] are joined, with this result. *)
Definition joined (s : Server) (todo : list worker) (acc : io_result unit) : Prop :=
  ∃ l : list (worker * join_result), join_order (sv_trigger s) = l.*1 ++ todo ∧
    Forall (λ x, sv_ended s x.1 = Some x.2) l ∧
    acc = foldl (λ acc x, join_one (sv_trigger s) acc x.2) (first_result (sv_trigger s)) l.

Definition no_auth (s : Server) : Prop := ∀ n, ¬ active (sv_auth s) n.
Definition no_session (s : Server) : Prop := sy_tasks (sessions_of s) = ∅.

Definition sup_ok (s : Server) : Prop :=
  match sv_sup s with
  | Selecting | TimedOutShutdown => True
  | Stopping todo => triggered s ∧ ∀ a, a ∉ todo → did a s
  | Joining todo acc => triggered s ∧ stopped s ∧ joined s todo acc
  | WaitAuth acc => triggered s ∧ stopped s ∧ joined s [] acc
  | WaitSessions acc => triggered s ∧ stopped s ∧ joined s [] acc ∧ no_auth s
  | Returned acc => triggered s ∧ stopped s ∧ joined s [] acc ∧ no_auth s ∧ no_session s
  end.

Section Stable.
Variables (s s' : Server).
Hypothesis Hm : mono s s'.

Lemma did_mono a : did a s → did a s'.
Proof using Hm. destruct Hm, a; cbn; auto. Qed.
Lemma stopped_mono : stopped s → stopped s'.
Proof using Hm. intros H a. apply did_mono, H. Qed.
Lemma no_auth_mono : stopped s → no_auth s → no_auth s'.
Proof using Hm. intros Hs H n Ha. eapply H, Hm; [apply (Hs DoCloseGate)|done]. Qed.
Lemma no_session_mono : stopped s → no_session s → no_session s'.
Proof using Hm. intros Hs. apply Hm, (Hs DoStartShutdown). Qed.

Hypothesis Ht : sv_trigger s' = sv_trigger s.

Lemma triggered_mono : triggered s → triggered s'.
Proof using Hm Ht. unfold triggered. rewrite Ht. destruct (sv_trigger s); [apply Hm|done]. Qed.
Lemma joined_mono todo acc : joined s todo acc → joined s' todo acc.
Proof using Hm Ht.
  intros (l & E & Hl & Ea). exists l. rewrite Ht. split_and!; [done| |done]. eapply Forall_impl; [exact Hl|]. intros x. apply Hm.
Qed.

Lemma sup_ok_mono : sv_sup s' = sv_sup s → sup_ok s → sup_ok s'.
Proof using Hm Ht.
  intros Es. unfold sup_ok. rewrite Es. pose proof triggered_mono. pose proof joined_mono. pose proof stopped_mono.
  pose proof no_auth_mono. pose proof no_session_mono. pose proof did_mono. destruct (sv_sup s); naive_solver.
Qed.
End Stable.

Lemma stop_step_did a s s' : stop_step a s = (s', true) → did a s'.
Proof.
  destruct a; cbn [stop_step did]; try done; try (by intros [= <-]).
  intros [= <-]. unfold refusing, sessions_of. cbn [sv_log manage]. rewrite sys_run_snoc.
  by destruct (sys_run session_queue_size (sv_log s)).
Qed.

Lemma stop_step_sup a s : sv_sup (stop_step a s).1 = sv_sup s ∧ sv_trigger (stop_step a s).1 = sv_trigger s.
Proof. destruct a; try done. cbn [stop_step]. by destruct (sy_sends _). Qed.

(** Where the supervisor goes next. *)
Lemma stop_step_ok s a todo :
  sup_ok s → sv_sup s = Stopping (a :: todo) →
  sup_ok (let '(s', over) := stop_step a s in if (over : bool) then put_sup (Stopping todo) s' else s').
Proof.
  intros Hi Es. pose proof (stop_step_mono a s) as Hm. pose proof (stop_step_sup a s) as [E1 E2].
  pose proof (stop_step_did a s) as Hd. destruct (stop_step a s) as [s1 over]. cbn [fst] in *.
  destruct over; [|by apply (sup_ok_mono s)]. specialize (Hd s1 eq_refl).
  unfold sup_ok in *. rewrite Es in Hi. destruct Hi as [Ht Hdid]. cbn [sv_sup put_sup]. split.
  - by apply (triggered_mono s (put_sup (Stopping todo) s1) (mono_put_sup _ _ _ Hm)).
  - intros a' Ha'. enough (did a' s1) by (by destruct a'). destruct (decide (a' = a)) as [->|Hne]; [done|].
    apply (did_mono s); [done|]. apply Hdid. set_solver.
Qed.

Lemma srv_step_ok s s' : sup_ok s → srv_step s s' → sup_ok s'.
Proof.
  intros Hi H. pose proof (step_mono s s' H) as Hm.
  destruct H as [s w r Hw|s|s n|s n|s n Hn|s n Hn|s n Hn|s n c ip tx|s o|s w r Es Ew|s Es Ec|s a todo Es|s Es|s w todo acc r Es Ew
    |s acc Es|s acc Es Hw|s acc Es Hc Ht|s];
    try (by apply (sup_ok_mono s)).
  - split; [done|]. intros a Ha. exfalso. apply Ha. cbn. destruct a; set_solver.
  - split; [done|]. intros a Ha. destruct a; try (exfalso; apply Ha; cbn; set_solver). done.
  - by apply stop_step_ok.
  - unfold sup_ok in *. rewrite Es in Hi. destruct Hi as [Ht Hd]. cbn [sv_sup put_sup]. split_and!; [done| |].
    + intros a. apply (did_mono s _ Hm), Hd. set_solver.
    + by exists [].
  - unfold sup_ok in *. rewrite Es in Hi. destruct Hi as (Ht & Hs & l & El & Hl & ->). cbn [sv_sup put_sup].
    split_and!; [done|by apply (stopped_mono s)|]. exists (l ++ [(w, r)]).
    rewrite fmap_app, <- app_assoc, foldl_app. split_and!; [done| |done]. apply Forall_app. split; [done|by repeat constructor].
  - unfold sup_ok in *. rewrite Es in Hi. done.
  - unfold sup_ok in *. rewrite Es in Hi. cbn [sv_sup put_sup]. destruct Hi as (? & ? & ?). split_and!; try done.
    intros n (pc & E & _). destruct Hw as [_ Hw]. cbn in E. by rewrite Hw, lookup_empty in E.
  - unfold sup_ok in *. rewrite Es in Hi. cbn [sv_sup put_sup]. destruct Hi as (? & ? & ? & ?). by split_and!.
  - done.
Qed.

Lemma reachable_ok s : rtc srv_step Server_new s → sup_ok s.
Proof.
  intros H. assert (sup_ok Server_new) as Hi by done. revert Hi. induction H as [|x y z Hxy _ IH]; [done|].
  intros Hi. apply IH. by apply (srv_step_ok x).
Qed.

Lemma returned_stays s s' r : sv_sup s = Returned r → srv_step s s' → sv_sup s' = Returned r.
Proof. intros E H. destruct H; cbn in *; try congruence; by rewrite E in *. Qed.

(** ** The result *)

(** The errors of these workers, in this order. *)
Definition errors (s : Server) (ws : list worker) : list IoError :=
  omap (λ w, r ← sv_ended s w; match classify_task_result r with inr e => Some e | inl _ => None end) ws.
Definition first_error (l : list IoError) : io_result unit := match l with e :: _ => inr e | [] => inl tt end.

Lemma join_errors s t acc (l : list (worker * join_result)) :
  Forall (λ x, sv_ended s x.1 = Some x.2) l → t ≠ TrigCancelled →
  foldl (λ acc x, join_one t acc x.2) acc l = match acc with inr e => inr e | inl _ => first_error (errors s l.*1) end.
Proof.
  intros Hl Ht. destruct t as [w0 r0|]; [clear Ht|done]. revert acc. induction Hl as [|[w r] l Hw Hl IH]; intros acc; [by destruct acc as [ []|]|].
  cbn [foldl]. rewrite IH. cbn [join_one snd]. unfold merge_task_result. destruct acc as [u|e]; [|done].
  rewrite fmap_cons. unfold errors. cbn [omap list_omap fst] in *. cbn [snd] in Hw. rewrite Hw. cbn.
  destruct (classify_task_result r) as [ []|e]; done.
Qed.
End Supervisor.

(** ** Theorem *)


(** ** Witness: the UDP worker fails while a connection is being claimed, the
    others end when they are cancelled. *)
Section ShutdownWitness.

(** The supervisor's way through a shutdown after the failure of a worker. *)
Lemma shutdown_run q s :
  sv_sup s = Selecting → sv_ended s WUdp = Some (inl (inr TimedOut)) → sv_log s = [] → tr_tasks (sv_auth s) = ∅ →
  (∀ w, w ≠ WUdp → sv_ended s w = Some (inl (inl tt))) →
  ∃ s', rtc (srv_step q) s s' ∧ sv_sup s' = Returned (inr TimedOut).
Proof.
  destruct s as [sup trig ended can claimed [acc closed tasks] lg sc]. cbn. intros -> Hu -> -> Hw.
  eexists. split.
  - eapply rtc_l; [by eapply SFailed|]. cbn.
    do 6 (eapply rtc_l; [by eapply SStop|]; cbn).
    eapply rtc_l; [by eapply SStopped|]. cbn.
    do 4 (eapply rtc_l; [eapply SJoin; [done|by apply Hw]|]; cbn).
    eapply rtc_l; [by eapply SJoined|]. cbn. eapply rtc_l; [by eapply SAuthDone|]. cbn.
    eapply rtc_l; [by eapply SSessionsDone|]. cbn. apply rtc_refl.
  - done.
Qed.

Definition all_ended : Server :=
  end_worker WTcp (inl (inl tt)) (end_worker WTunReader (inl (inl tt)) (end_worker WTunWriter (inl (inl tt))
    (end_worker WMetrics (inl (inl tt)) (end_worker WUdp (inl (inr TimedOut)) (put_claimed ({[ 7 ]} ∪ ∅) Server_new))))).

Lemma all_ended_reachable q : rtc (srv_step q) Server_new all_ended.
Proof.
  eapply rtc_l; [by apply (SClaim q Server_new 7)|]. do 5 (eapply rtc_r; [|by apply SWorkerEnds]). apply rtc_refl.
Qed.

End ShutdownWitness.
