(* ===== verification/Auth.v ===== *)
(** * Authentication: what is signed and what is accepted

    ([slt-core/src/proto/auth.rs], [slt-server/src/auth/authenticator.rs])

    The client signs its identifier, its address, the MTU and a challenge that
    both ends export from the TLS connection; the server looks the client up in
    its configuration and checks all four values and the signature.  Ed25519 is
    the class [Ed25519]. *)

From Stdlib Require Import Ascii String.
From stdpp Require Import base tactics option list numbers gmap sets.
From Stdlib Require Import ZArith Lia.
From S2P Require Import Prelude Framing Payloads Config.

(** What TLS delivers to either side. *)
Definition read_ok (r : io_result bytes) : Prop := match r with inl b => bytes_ok b | inr _ => True end.
Definition delivered (reads : list (io_result bytes)) : bytes :=
  concat (omap (λ r, match r with inl b => Some b | inr _ => None end) reads).

(** ** ed25519-dalek *)
Class Ed25519 := {
  (** the verifying key of a signing key, as bytes *)
  ed_public : bytes → bytes;
  (** [SigningKey::sign] *)
  ed_sign : bytes → bytes → bytes;
  (** whether [VerifyingKey::from_bytes] succeeds *)
  ed_key_ok : bytes → bool;
  (** [verify_strict] of a context and a signature *)
  ed_verify_strict : bytes → bytes → bytes → bool;
}.

(** What its documentation promises. *)
Class Ed25519Laws (E : Ed25519) := {
  ed_sign_array : ∀ sk m, array_ok 32 sk → bytes_ok m → array_ok AUTH_SIGNATURE_LEN (ed_sign sk m);
  ed_public_ok : ∀ sk, array_ok 32 sk → ed_key_ok (ed_public sk) = true;
  ed_sign_verifies : ∀ sk m, array_ok 32 sk → bytes_ok m → ed_verify_strict (ed_public sk) m (ed_sign sk m) = true;
}.

(** ** proto/auth.rs *)
Definition auth_signature_context (client_id : bytes) (assigned_ipv4 : bytes) (tun_mtu : Z) (challenge : bytes) : bytes :=
  bytes_of_string "slt-auth-v2"%string ++ client_id ++ assigned_ipv4 ++ to_be 2 tun_mtu ++ challenge.

Section Auth.
Context `{E : Ed25519}.

Definition build_auth_payload (config : ClientConfig) (challenge : bytes) : AuthPayload :=
  let identity := cc_identity config in
  let tun_mtu := tun_mtu (cc_tun config) in
  let context := auth_signature_context (client_id identity) (assigned_ipv4 identity) tun_mtu challenge in
  let signature := ed_sign (privkey_ed25519 identity) context in
  mkAuth (client_id identity) (assigned_ipv4 identity) tun_mtu challenge signature.

(** ** authenticator.rs *)
Record Authenticator := mkAuthenticator {
  clients_config : gmap bytes ServerClient;
  at_tun_mtu : Z;
}.

(** [collect] into a map: a later entry replaces an earlier one. *)
Definition Authenticator_from_config (config : ServerConfig) : Authenticator :=
  mkAuthenticator (foldl (λ m c, <[sc_client_id c := c]> m) ∅ (sv_clients config)) (tun_mtu (sv_tun config)).

Definition Authenticator_get (a : Authenticator) (client_id : bytes) : option ServerClient :=
  clients_config a !! client_id.

Definition verify_auth_payload (authenticator : Authenticator) (payload : AuthPayload) (challenge : bytes)
    : res AuthFailCode bytes :=
  client ← ok_or (Authenticator_get authenticator (auth_client_id payload)) AFUnknownClient;
  if negb (sc_enabled client) then Err AFDisabled else
  if negb (bool_decide (sc_assigned_ipv4 client = auth_assigned_ipv4 payload)) then Err AFIpMismatch else
  if negb (at_tun_mtu authenticator =? auth_tun_mtu payload) then Err AFMtuMismatch else
  if negb (bool_decide (auth_challenge payload = challenge)) then Err AFChallengeInvalid else
  let context := auth_signature_context (auth_client_id payload) (auth_assigned_ipv4 payload) (auth_tun_mtu payload)
                   challenge in
  if negb (ed_key_ok (sc_pubkey_ed25519 client)) then Err AFBadSignature else
  if negb (ed_verify_strict (sc_pubkey_ed25519 client) context (auth_signature payload)) then Err AFBadSignature else
  Ok (sc_assigned_ipv4 client).

(** ** What verifies *)
Lemma clients_lookup (clients : list ServerClient) (m0 : gmap bytes ServerClient) id c :
  NoDup (map sc_client_id clients) →
  foldl (λ m c, <[sc_client_id c := c]> m) m0 clients !! id = Some c ↔
  (c ∈ clients ∧ sc_client_id c = id) ∨ (m0 !! id = Some c ∧ id ∉ map sc_client_id clients).
Proof.
  revert m0. induction clients as [|x clients IH]; intros m0; cbn [foldl map].
  { intros _. rewrite elem_of_nil. split; [intros H; right; split; [done|apply not_elem_of_nil]|].
    intros [ [? _]|[? _] ]; done. }
  rewrite NoDup_cons. intros [Hx Hnd]. rewrite IH by done. rewrite lookup_insert_Some, !elem_of_cons. split.
  - intros [ [? ?]|[ [ [<- <-]|[? ?] ] ?] ]; [left; auto|left; auto|right]. split; [done|]. by intros [?|?].
  - intros [ [ [->|?] <-]|[? Hn] ]; [right|left; auto|right].
    + split; [by left|done].
    + split; [right; split; [|done]; intros <-; apply Hn; by left|]. intros ?. apply Hn. by right.
Qed.

Lemma get_configured config id c :
  ServerConfig_validate config = Ok tt →
  Authenticator_get (Authenticator_from_config config) id = Some c ↔ c ∈ sv_clients config ∧ sc_client_id c = id.
Proof.
  unfold ServerConfig_validate. rewrite !checked_bind, validate_clients_ok. intros (_ & _ & (_ & [Hnd _] & _) & _).
  unfold Authenticator_get, Authenticator_from_config. cbn [clients_config]. rewrite (clients_lookup _ ∅ id c Hnd), lookup_empty.
  naive_solver.
Qed.

(** The signed bytes determine what they were made of. *)
Lemma context_inj id ip mtu ch id' ip' mtu' ch' :
  zlen id = zlen id' → zlen ip = zlen ip' → u16_ok mtu → u16_ok mtu' →
  auth_signature_context id ip mtu ch = auth_signature_context id' ip' mtu' ch' →
  id = id' ∧ ip = ip' ∧ mtu = mtu' ∧ ch = ch'.
Proof.
  intros Hid Hip Hm Hm' H. unfold auth_signature_context in H. apply app_inv_head in H.
  apply app_inj_1 in H as [-> H]; [|unfold zlen in *; lia]. apply app_inj_1 in H as [-> H]; [|unfold zlen in *; lia].
  apply app_inj_1 in H as [Em ->]; [|pose proof (zlen_to_be 2 mtu); pose proof (zlen_to_be 2 mtu'); unfold zlen in *; lia]. split_and!; try done.
  rewrite <- (from_be_to_be2 mtu Hm), <- (from_be_to_be2 mtu' Hm'). by rewrite Em.
Qed.

(** C16: Who is authenticated.  With an accepted configuration the server
    accepts an AUTH payload exactly when it names an enabled client of the
    configuration, with the address configured for it and the server's MTU,
    carries the challenge of this TLS connection, and its signature verifies
    with the key configured for the client; the result is the configured
    address.  The signed bytes stand for one identifier, address, MTU and
    challenge only. *)
Theorem auth_accepts_iff config payload challenge ip :
  ServerConfig_validate config = Ok tt →
  (verify_auth_payload (Authenticator_from_config config) payload challenge = Ok ip ↔
   ∃ client, client ∈ sv_clients config ∧ sc_client_id client = auth_client_id payload ∧ sc_enabled client = true ∧
     sc_assigned_ipv4 client = ip ∧ auth_assigned_ipv4 payload = ip ∧ auth_tun_mtu payload = tun_mtu (sv_tun config) ∧
     auth_challenge payload = challenge ∧ ed_key_ok (sc_pubkey_ed25519 client) = true ∧
     ed_verify_strict (sc_pubkey_ed25519 client)
       (auth_signature_context (auth_client_id payload) ip (tun_mtu (sv_tun config)) challenge)
       (auth_signature payload) = true) ∧
  ∀ id' ip' mtu' challenge',
    zlen id' = zlen (auth_client_id payload) → zlen ip' = zlen (auth_assigned_ipv4 payload) →
    u16_ok mtu' → u16_ok (auth_tun_mtu payload) →
    auth_signature_context id' ip' mtu' challenge' =
      auth_signature_context (auth_client_id payload) (auth_assigned_ipv4 payload) (auth_tun_mtu payload) challenge →
    id' = auth_client_id payload ∧ ip' = auth_assigned_ipv4 payload ∧ mtu' = auth_tun_mtu payload ∧ challenge' = challenge.
Proof.
  intros Hv. split; [|intros; by apply context_inj]. unfold verify_auth_payload. rewrite bind_ok. split.
  - intros (client & Hget & H). destruct (Authenticator_get _ _) as [c|] eqn:Eg; [|done]. apply (inj Ok) in Hget as ->.
    apply (get_configured config _ _ Hv) in Eg as [Hin Hid]. exists client. cbn [at_tun_mtu Authenticator_from_config] in H.
    destruct (sc_enabled client); [|done]. cbn [negb] in H. case_bool_decide as Hip; [|done]. cbn [negb] in H.
    destruct (Z.eqb_spec (tun_mtu (sv_tun config)) (auth_tun_mtu payload)) as [Hm|]; [|done]. cbn [negb] in H.
    case_bool_decide as Hc; [|done]. cbn [negb] in H. destruct (ed_key_ok _); [|done]. cbn [negb] in H.
    destruct (ed_verify_strict _ _ _) eqn:Ev; [|done]. apply (inj Ok) in H as <-. rewrite <- Hm in Ev.
    split_and!; try done. by rewrite Hip.
  - intros (client & Hin & Hid & Hen & Hip & Hip' & Hm & Hc & Hk & Hs). exists client.
    assert (Authenticator_get (Authenticator_from_config config) (auth_client_id payload) = Some client) as ->.
    { by apply get_configured. }
    split; [done|]. cbn [at_tun_mtu Authenticator_from_config]. rewrite Hen, Hip, Hip', Hm, Hc, Hk, Hs, Z.eqb_refl.
    by rewrite !bool_decide_true.
Qed.

(** ** A client that the server knows *)

(** The ranges of the types of a client's configuration. *)
Definition client_types_ok (c : ClientConfig) : Prop :=
  array_ok 16 (client_id (cc_identity c)) ∧ array_ok 4 (assigned_ipv4 (cc_identity c)) ∧
  array_ok 32 (privkey_ed25519 (cc_identity c)) ∧ u16_ok (tun_mtu (cc_tun c)).

Definition knows (server : ServerConfig) (client : ClientConfig) : Prop :=
  ∃ c, c ∈ sv_clients server ∧ sc_client_id c = client_id (cc_identity client) ∧ sc_enabled c = true ∧
    sc_assigned_ipv4 c = assigned_ipv4 (cc_identity client) ∧
    sc_pubkey_ed25519 c = ed_public (privkey_ed25519 (cc_identity client)) ∧
    tun_mtu (sv_tun server) = tun_mtu (cc_tun client).

Context {L : Ed25519Laws E}.

Lemma context_bytes_ok id ip mtu ch :
  bytes_ok id → bytes_ok ip → bytes_ok ch → bytes_ok (auth_signature_context id ip mtu ch).
Proof. intros. unfold auth_signature_context. rewrite !bytes_ok_app. split_and!; auto with slt. decided. Qed.

Lemma build_auth_payload_wf config challenge :
  client_types_ok config → array_ok AUTH_CHALLENGE_LEN challenge → pc_wf (build_auth_payload config challenge).
Proof.
  intros (Hid & Hip & Hk & Hm) Hc. split_and!; try done. apply ed_sign_array; [done|].
  apply context_bytes_ok; [apply Hid|apply Hip|apply Hc].
Qed.

Lemma build_verifies server client challenge :
  ServerConfig_validate server = Ok tt → client_types_ok client → array_ok AUTH_CHALLENGE_LEN challenge → knows server client →
  verify_auth_payload (Authenticator_from_config server) (build_auth_payload client challenge) challenge =
    Ok (assigned_ipv4 (cc_identity client)).
Proof.
  intros Hv (Hid & Hip & Hk & Hm) Hc (c & Hin & Eid & Hen & Eip & Epk & Emtu). unfold verify_auth_payload, build_auth_payload.
  cbn [auth_client_id auth_assigned_ipv4 auth_tun_mtu auth_challenge auth_signature at_tun_mtu Authenticator_from_config].
  assert (Authenticator_get (Authenticator_from_config server) (client_id (cc_identity client)) = Some c) as ->.
  { by apply get_configured. }
  cbn [ok_or]. res_simpl. rewrite Hen, Eip, Emtu, Epk, Z.eqb_refl, !bool_decide_true by done. cbn [negb].
  rewrite ed_public_ok by done. cbn [negb]. rewrite ed_sign_verifies; [done|done|].
  apply context_bytes_ok; [apply Hid|apply Hip|apply Hc].
Qed.
End Auth.

(** ** Witness: signatures that are a checksum *)
Module ToyEd25519.
Definition tag (sk m : bytes) : bytes := sk ++ replicate 32 (foldr Z.add 0 m mod 256).

#[export] Instance toy : Ed25519 := {|
  ed_public sk := sk;
  ed_sign := tag;
  ed_key_ok _ := true;
  ed_verify_strict key m signature := bool_decide (signature = tag key m);
|}.

#[export] Instance toy_laws : Ed25519Laws toy.
Proof.
  split; [|done|].
  - intros sk m [Hl Hb] _. cbn [ed_sign toy]. unfold tag. split; [rewrite length_app, length_replicate; unfold AUTH_SIGNATURE_LEN; lia|].
    apply bytes_ok_app. split; [done|]. apply Forall_replicate. apply Z.mod_pos_bound. lia.
  - intros sk m _ _. cbn. by rewrite bool_decide_true.
Qed.

Definition key : bytes := replicate 32 3.
Definition id : bytes := replicate 16 7.
Definition ip : bytes := [10; 10; 0; 2].
Definition server : ServerConfig :=
  mkServerConfig [] (mkServerNetwork 443 443 8443 8443) (mkTunConfig (bytes_of_string "tun0"%string) 1186 [10; 10; 0; 1] 24)
    ServerTimingConfig_default [SAes128Gcm; SChaCha20Poly1305] 1024 1024 128 512 [mkServerClient id key ip true].
Definition client : ClientConfig :=
  mkClientConfig (mkClientNetwork (bytes_of_string "vpn"%string) 443 None) (mkIdentity id [] ip key)
    (mkTunConfig (bytes_of_string "tun0"%string) 1186 ip 24) CAuto true false ClientTimingConfig_default.
Definition challenge : bytes := replicate 32 9.
End ToyEd25519.

Section Witnesses.
Import ToyEd25519.

Lemma auth_accepts_iff_witness :
  verify_auth_payload (Authenticator_from_config ToyEd25519.server)
    (build_auth_payload ToyEd25519.client ToyEd25519.challenge) ToyEd25519.challenge = Ok ToyEd25519.ip.
Proof.
  apply (auth_accepts_iff ToyEd25519.server (build_auth_payload ToyEd25519.client ToyEd25519.challenge)
    ToyEd25519.challenge ToyEd25519.ip eq_refl).
  exists (mkServerClient ToyEd25519.id ToyEd25519.key ToyEd25519.ip true). split_and!; try reflexivity. by left.
Defined.
End Witnesses.
