(* ===== verification/ServerAuth.v ===== *)
(** * Authentication on the server ([slt-server/src/auth/])

    [AuthHandlerBase::handle]: the TLS handshake, the exchange of messages up
    to the deadline, and the hand-over of the TCP channel to a new session.
    Written in the monad of [Effects]; the environment answers how each write
    went and what other tasks did to the session manager and the registry in
    between.  Of the counters only those of the handler itself are kept. *)

From stdpp Require Import base tactics option list numbers gmap sets.
From Stdlib Require Import ZArith Lia.
From S2P Require Import Prelude Effects Framing TcpChannel Payloads Admissibility Config Registry SessionManager Auth.

(** ** types.rs *)
Inductive AuthPhaseResult := Authenticated | Completed | Rejected (code : AuthFailCode).
Inductive AuthStep := AuthContinue | AuthDone (result : AuthPhaseResult).

Definition AuthPhaseResult_is_failure (r : AuthPhaseResult) : bool := match r with Rejected _ => true | _ => false end.
Definition AuthPhaseResult_is_authenticated (r : AuthPhaseResult) : bool :=
  match r with Authenticated => true | _ => false end.

(** ** error.rs; the sources that only the log shows are left out *)
Inductive AuthError :=
  | TlsHandshake
  | TlsHandshakeTimeout
  | ChallengeExport
  | AuthTimeout
  | ConnectionClosed
  | AuthConnection (source : IoError)
  | AuthProtocolViolation (message_type : MessageType)
  | AuthFrame (e : FrameError)
  | AuthMessage (e : MessageError)
  | AuthPayloadError (e : PayloadError).

Definition requires_protocol_close (e : AuthError) : bool :=
  match e with AuthProtocolViolation _ | AuthMessage _ | AuthPayloadError _ => true | _ => false end.

Definition io_kind (e : AuthError) : IoError :=
  match e with
  | TlsHandshake | ChallengeExport => OtherIo 0
  | TlsHandshakeTimeout | AuthTimeout => TimedOut
  | ConnectionClosed => ConnectionReset
  | AuthConnection source => source
  | AuthProtocolViolation _ | AuthFrame _ | AuthMessage _ | AuthPayloadError _ => InvalidData
  end.

Definition AuthError_from_validation (e : MessageValidationError) : AuthError :=
  match e with
  | InvalidPayload _ source => AuthPayloadError source
  | InvalidDirection _ _ | InvalidPhase _ _ | InvalidTransport _ _ =>
      AuthProtocolViolation (MessageValidationError_message_type e)
  end.

(** ** The state of one connection *)
Inductive auth_action :=
  | HRecv (m : Message)
  | HSent (m : Message)
  (** a session that took over the channel *)
  | HSession (client_id assigned_ip : bytes) (session_id : Z) (tcp : TcpChannel)
  | HAuthSuccess | HAuthFailure | HAuthRejection | HAuthLimitDrop.

Record AuthState := mkAuthState {
  au_tcp : option TcpChannel;
  au_state : SessionManagerState;
  au_registry : Registry;
  au_permits : Z;
  au_tick : nat;
  au_trace : list auth_action;
}.

Record AuthEnv := mkAuthEnv {
  (** what [SSL_key_update] returns, and the write *)
  ae_tcp : nat → Z * TcpProgress;
  (** what the other tasks did since the last question *)
  ae_others : nat → SessionManagerState * Registry → SessionManagerState * Registry;
  (** the event channel of a new session *)
  ae_tx : nat → Z;
}.

Inductive Handshake := HandshakeDone | HandshakeFailed | HandshakeTimedOut.

Abbreviation M := (eff AuthState AuthError).

Definition put_tcp (tcp : option TcpChannel) (s : AuthState) : AuthState :=
  mkAuthState tcp (au_state s) (au_registry s) (au_permits s) (au_tick s) (au_trace s).
Definition hlog (a : auth_action) (s : AuthState) : AuthState :=
  mkAuthState (au_tcp s) (au_state s) (au_registry s) (au_permits s) (au_tick s) (a :: au_trace s).
Definition put_permits (n : Z) (s : AuthState) : AuthState :=
  mkAuthState (au_tcp s) (au_state s) (au_registry s) n (au_tick s) (au_trace s).
Definition put_sessions (st : SessionManagerState) (r : Registry) (s : AuthState) : AuthState :=
  mkAuthState (au_tcp s) st r (au_permits s) (au_tick s) (au_trace s).
Definition put_tick (n : nat) (s : AuthState) : AuthState :=
  mkAuthState (au_tcp s) (au_state s) (au_registry s) (au_permits s) n (au_trace s).

Definition ask {A} (f : nat → A) : M A := λ s, (put_tick (S (au_tick s)) s, ORet (f (au_tick s))).

(** ** handler.rs *)
Definition as_tcp_channel : M TcpChannel :=
  s ← get;
  match au_tcp s with Some channel => mret channel | None => fail (AuthConnection (OtherIo 0)) end.

Section Handler.
Context `{E : Ed25519} (env : AuthEnv) (authenticator : Authenticator) (limits : MessageLimits) (session_queue_size : Z).

Definition send_message (m : Message) : M unit :=
  tcp ← as_tcp_channel;
  '(rc, progress) ← ask (ae_tcp env);
  let w := match progress with Finished w => w | TimedOutAfter n | DroppedAfter n => WriteFailed n TimedOut end in
  let '(r, channel) := write_message tcp m rc w in
  _ ← modify (put_tcp (Some channel));
  match r with
  | Ok _ => modify (hlog (HSent m))
  | Err (TWFrame frame) => fail (AuthFrame frame)
  | Err (TWIo source) =>
      match progress with
      | DroppedAfter _ => if bool_decide (source = TimedOut) then dropped else fail (AuthConnection source)
      | _ => fail (AuthConnection source)
      end
  | Panic => panic
  end.

Definition send_auth_fail (code : AuthFailCode) : M unit :=
  send_message (MAuthFail (AuthFailPayload_encode (mkAuthFail code) [])).

Definition send_close (code : CloseCode) : M unit := send_message (MClose (ClosePayload_encode (mkClose code) [])).

Definition send_protocol_error_close_best_effort : M unit :=
  _ ← result (send_close CCProtocolError);
  mret tt.

(** The closure [create_session] of [handle_stream]. *)
Definition create_session_for (client_id assigned_ip : bytes) : M unit :=
  others ← ask (ae_others env);
  tx ← ask (ae_tx env);
  s ← get;
  let '(st, r) := others (au_state s, au_registry s) in
  let '(st, r, created) :=
    create_session session_queue_size st r client_id assigned_ip tx (bool_decide (is_Some (au_tcp s))) in
  _ ← modify (put_sessions st r);
  _ ← (if session_queue_size =? 0 then mret tt else modify (put_tcp None));
  match created, au_tcp s with
  | Ok (handle, _), Some tcp => modify (hlog (HSession client_id assigned_ip (sh_session_id handle) tcp))
  | Err source, _ => fail (AuthConnection source)
  | _, _ => panic
  end.

Definition handle_auth (payload challenge : bytes) : M AuthStep :=
  auth ← try AuthPayloadError (AuthPayload_decode payload);
  match verify_auth_payload authenticator auth challenge with
  | Ok assigned_ip =>
      _ ← send_message (MAuthOk (AuthOkPayload_encode mkAuthOk []));
      _ ← create_session_for (auth_client_id auth) assigned_ip;
      mret (AuthDone Authenticated)
  | Err code =>
      _ ← send_auth_fail code;
      mret (AuthDone (Rejected code))
  | Panic => panic
  end.

Definition handle_ping (payload : bytes) : M AuthStep :=
  ping_in ← try AuthPayloadError (PingPayload_decode payload);
  _ ← send_message (MPong (PongPayload_encode (mkPong (ping_nonce ping_in)) []));
  mret AuthContinue.

Definition handle_auth_message (message : Message) (challenge : bytes) : M AuthStep :=
  _ ← modify (hlog (HRecv message));
  _ ← try AuthError_from_validation (validate_message message (mkContext SClient Authentication Tcp));
  match message with
  | MAuth payload => handle_auth payload challenge
  | MPing payload => handle_ping payload
  | MPong payload =>
      _ ← try AuthPayloadError (PongPayload_decode payload);
      mret AuthContinue
  | MClose payload =>
      _ ← try AuthPayloadError (ClosePayload_decode payload);
      mret (AuthDone Completed)
  | MAuthOk _ | MAuthFail _ | MRegisterCid _ | MRegisterOk _ | MRegisterFail _ | MData _ | MUpgradeProbe _
  | MUpgradeProbeAck _ | MUdpReady _ | MSwitchToUdp _ | MSwitchAck _ | MFallbackToTcp _ | MFallbackOk _
  | MSwitchOk _ => panic
  end.

(** The inner loop of [run_auth_loop]: the outcome, or nothing when the
    buffer holds no more message.  Every message takes a header out of the
    buffer. *)
Fixpoint auth_messages (fuel : nat) (challenge : bytes) : M (option AuthPhaseResult) :=
  match fuel with
  | O => panic
  | S fuel =>
      tcp ← as_tcp_channel;
      let '(popped, channel) := try_pop_message tcp limits in
      _ ← modify (put_tcp (Some channel));
      match popped with
      | Ok None => mret None
      | Err err =>
          _ ← send_protocol_error_close_best_effort;
          fail (AuthMessage err)
      | Panic => panic
      | Ok (Some msg_buf) =>
          message ← try AuthFrame (OwnedMessageBuf_message msg_buf);
          r ← result (handle_auth_message message challenge);
          match r with
          | Ok AuthContinue => auth_messages fuel challenge
          | Ok (AuthDone outcome) => mret (Some outcome)
          | Err err =>
              _ ← (if requires_protocol_close err then send_protocol_error_close_best_effort else mret tt);
              fail err
          | Panic => panic
          end
      end
  end.

(** [run_auth_loop] on what TLS delivers; after that it waits until the
    deadline. *)
Fixpoint run_auth_loop (challenge : bytes) (reads : list (io_result bytes)) : M AuthPhaseResult :=
  match reads with
  | [] => dropped
  | read :: reads =>
      tcp ← as_tcp_channel;
      chunk ← try AuthConnection (of_io read);
      let tcp := read_more tcp chunk in
      _ ← modify (put_tcp (Some tcp));
      if zlen chunk =? 0 then fail ConnectionClosed else
      outcome ← auth_messages (S (length (chan_read_buf tcp))) challenge;
      match outcome with
      | Some outcome => mret outcome
      | None => run_auth_loop challenge reads
      end
  end.

(** [challenge]: what [export_auth_challenge] returns. *)
Definition run_auth_flow (challenge : option bytes) (reads : list (io_result bytes)) : M AuthPhaseResult :=
  _ ← as_tcp_channel;
  match challenge with
  | None => fail ChallengeExport
  | Some challenge =>
      r ← timeout (run_auth_loop challenge reads);
      match r with
      | Some r => try id r
      | None => fail AuthTimeout
      end
  end.

Definition handle_stream (updater : IntervalKeyUpdater) (handshake : Handshake) (challenge : option bytes)
    (reads : list (io_result bytes)) : M AuthPhaseResult :=
  match handshake with
  | HandshakeFailed => fail TlsHandshake
  | HandshakeTimedOut => fail TlsHandshakeTimeout
  | HandshakeDone =>
      _ ← modify (put_tcp (Some (TcpChannel_with_state updater [])));
      run_auth_flow challenge reads
  end.

Definition record_result (r : res AuthError AuthPhaseResult) : M unit :=
  match r with
  | Ok outcome =>
      _ ← (if AuthPhaseResult_is_authenticated outcome then modify (hlog HAuthSuccess) else mret tt);
      if AuthPhaseResult_is_failure outcome then
        _ ← modify (hlog HAuthFailure);
        modify (hlog HAuthRejection)
      else mret tt
  | _ => modify (hlog HAuthFailure)
  end.

(** [handle]: the permit is given back at the end. *)
Definition handle (updater : IntervalKeyUpdater) (handshake : Handshake) (challenge : option bytes)
    (reads : list (io_result bytes)) : M (res IoError unit) :=
  s ← get;
  if au_permits s =? 0 then
    _ ← modify (hlog HAuthLimitDrop);
    mret (Err ConnectionRefused)
  else
    _ ← modify (put_permits (au_permits s - 1));
    r ← result (handle_stream updater handshake challenge reads);
    _ ← record_result r;
    _ ← modify (λ s, put_permits (au_permits s + 1) s);
    mret (match r with Ok _ => Ok tt | Err err => Err (io_kind err) | Panic => Panic end).

(** ** The exchange *)

(** Pings that were answered, and pongs. *)
Inductive chat : list auth_action → Prop :=
  | chat_nil : chat []
  | chat_ping n t : chat t → chat (HSent (MPong (to_be 8 n)) :: HRecv (MPing (to_be 8 n)) :: t)
  | chat_pong p t : chat t → chat (HRecv (MPong p) :: t).

(** The messages sent and received, oldest first. *)
Definition sent (t : list auth_action) : list Message :=
  rev (omap (λ a, match a with HSent m => Some m | _ => None end) t).
Definition received (t : list auth_action) : list Message :=
  rev (omap (λ a, match a with HRecv m => Some m | _ => None end) t).

(** The bytes of the channel and the messages of the trace agree. *)
Definition agrees (t : list auth_action) (input : bytes) (tcp : TcpChannel) : Prop :=
  chan_sent tcp = wire_stream (sent t) ∧ input = wire_stream (received t) ++ chan_read_buf tcp.

Definition shared (s : AuthState) := (au_state s, au_registry s).

(** How the exchange of messages on [challenge] ended: with a session for the
    client of the last message, ... *)
Definition session_created (challenge : bytes) (s0 : AuthState) (input : bytes) (t : list auth_action) (s : AuthState)
    : Prop :=
  ∃ p payload ip sid tcp t' k tx told handle,
    t = HSession (auth_client_id payload) ip sid tcp :: HSent (MAuthOk []) :: HRecv (MAuth p) :: t' ∧ chat t' ∧
    AuthPayload_decode p = Ok payload ∧ verify_auth_payload authenticator payload challenge = Ok ip ∧
    agrees t input tcp ∧ au_tcp s = None ∧ sh_session_id handle = sid ∧
    (let '(st, r) := ae_others env k (shared s0) in
     create_session session_queue_size st r (auth_client_id payload) ip tx true =
       (au_state s, au_registry s, Ok (handle, told))).

(** ... with a refusal, ... *)
Definition refused (challenge : bytes) (s0 : AuthState) (code : AuthFailCode) (t : list auth_action) (s : AuthState)
    : Prop :=
  ∃ p payload t', t = HSent (MAuthFail [AuthFailCode_to_u8 code]) :: HRecv (MAuth p) :: t' ∧ chat t' ∧
    AuthPayload_decode p = Ok payload ∧ verify_auth_payload authenticator payload challenge = Err code ∧
    shared s = shared s0.

(** ... with the CLOSE of the client, ... *)
Definition closed (s0 : AuthState) (t : list auth_action) (s : AuthState) : Prop :=
  ∃ p t', t = HRecv (MClose p) :: t' ∧ chat t' ∧ shared s = shared s0.

(** ... or with an error or at the deadline, and without a session. *)
Definition no_session (t : list auth_action) : Prop := ∀ id ip sid tcp, HSession id ip sid tcp ∉ t.
Definition failed (s0 : AuthState) (t : list auth_action) (s : AuthState) : Prop :=
  no_session t ∧ (shared s = shared s0 ∨ ∃ k, shared s = ae_others env k (shared s0)).

Definition ended (challenge : bytes) (s0 : AuthState) (input : bytes) (outcome : AuthPhaseResult)
    (t : list auth_action) (s : AuthState) : Prop :=
  match outcome with
  | Authenticated => session_created challenge s0 input t s
  | Completed => closed s0 t s
  | Rejected code => refused challenge s0 code t s
  end.

(** Since [s0] the trace grew by [t] with [P t]. *)
Definition grew (s0 s : AuthState) (P : list auth_action → AuthState → Prop) : Prop :=
  ∃ t, au_trace s = t ++ au_trace s0 ∧ au_permits s = au_permits s0 ∧ P t s.

(** The state between two messages. *)
Definition talking (s0 : AuthState) (input : bytes) (s : AuthState) : Prop :=
  grew s0 s (λ t s, chat t ∧ shared s = shared s0 ∧ ∃ tcp, au_tcp s = Some tcp ∧ agrees t input tcp ∧ bytes_ok input).
End Handler.

(** ** One message *)
Lemma create_session_cases size st r id ip tx :
  match create_session size st r id ip tx true with
  | (_, _, Ok _) => size ≠ 0 ∧ accepting_sessions st = true
  | (st', r', Err _) => st' = st ∧ r' = r
  | (_, _, Panic) => False
  end.
Proof.
  unfold create_session, ensure_queue_size, spawn_session_with_channel. destruct (Z.eqb_spec size 0); [done|].
  destruct (accepting_sessions st); [|done]. cbn [negb]. by destruct (register_session _ _ _ _).
Qed.

Lemma verify_auth_no_panic `{E : Ed25519} authenticator payload challenge :
  verify_auth_payload authenticator payload challenge ≠ Panic.
Proof. unfold verify_auth_payload. apply bind_not_panic; [by destruct (Authenticator_get _ _)|]. intros client _. no_panic. Qed.

Section Exchange.
Context `{E : Ed25519} (env : AuthEnv) (authenticator : Authenticator) (limits : MessageLimits) (session_queue_size : Z).
Context (challenge : bytes) (s0 : AuthState).

Abbreviation failed_since := (λ s, grew s0 s (failed env s0)).
Abbreviation ok m Q s := (wp m Q (λ _, failed_since) failed_since s).

Lemma wp_ask_tick {A} (f : nat → A) (Q : A → AuthState → Prop) X C s :
  (∀ k n, Q (f k) (put_tick n s)) → wp (ask f) Q X C s.
Proof. intros H. apply H. Qed.

Lemma sent_cons m t : sent (HSent m :: t) = sent t ++ [m].
Proof. done. Qed.
Lemma received_cons m t : received (HRecv m :: t) = received t ++ [m].
Proof. done. Qed.

Lemma chat_no_session t : chat t → no_session t.
Proof.
  intros H id ip sid tcp. induction H as [|n t H IH|p t H IH]; [apply not_elem_of_nil|..]; rewrite !elem_of_cons; naive_solver.
Qed.

Lemma no_session_cons a t : (∀ id ip sid tcp, a ≠ HSession id ip sid tcp) → no_session t → no_session (a :: t).
Proof. intros Ha Ht id ip sid tcp [?|?]%elem_of_cons; [by eapply Ha|by eapply Ht]. Qed.

Lemma send_message_ok m s tcp (Q : unit → AuthState → Prop) (X : AuthError → AuthState → Prop) (C : AuthState → Prop) :
  au_tcp s = Some tcp → short m →
  (∀ c n, chan_sent c = chan_sent tcp ++ wire_message m → chan_read_buf c = chan_read_buf tcp →
     Q tt (hlog (HSent m) (put_tcp (Some c) (put_tick n s)))) →
  (∀ c n e, X e (put_tcp (Some c) (put_tick n s))) → (∀ c n, C (put_tcp (Some c) (put_tick n s))) →
  wp (send_message env m) Q X C s.
Proof.
  intros Et [_ Hm] HQ HX HC. unfold send_message, as_tcp_channel. apply wp_bind, wp_bind, wp_get. rewrite Et.
  apply wp_ret, wp_bind, wp_ask_tick. intros k n. destruct (ae_tcp env k) as [rc progress]. set (w := match progress with Finished w => w | _ => _ end).
  pose proof (write_message_cases tcp m rc w) as Hw. destruct (write_message tcp m rc w) as [r c]. destruct Hw as [Eb Hr]; [lia|].
  apply wp_bind, wp_modify. destruct r as [ []|[frame|source]|]; [apply wp_modify; by apply HQ|apply HX| |done].
  destruct progress; try apply HX. case_bool_decide; [apply HC|apply HX].
Qed.

Lemma close_best_effort s : failed_since s → ok (send_protocol_error_close_best_effort env) (λ _, failed_since) s.
Proof.
  intros Hf. unfold send_protocol_error_close_best_effort, send_close. apply wp_bind, wp_result.
  assert (∀ c n, failed_since (put_tcp (Some c) (put_tick n s))) as Hp by (intros; exact Hf).
  destruct (au_tcp s) as [tcp|] eqn:Et.
  - eapply send_message_ok; [done|split; decided|..]; [|intros; by apply Hp..].
    intros c n _ _. apply wp_ret. destruct Hf as (t & Ht & Hpm & Hn & Hs). exists (HSent (MClose [CloseCode_to_u8 CCProtocolError]) :: t).
    split_and!; [by cbn; rewrite Ht|done|]. split; [by apply no_session_cons|done].
  - unfold send_message, as_tcp_channel. apply wp_bind, wp_bind, wp_get. by rewrite Et.
Qed.

(** A message was taken out of the buffer. *)
Definition got (m : Message) (input : bytes) (s : AuthState) : Prop :=
  grew s0 s (λ t s, chat t ∧ shared s = shared s0 ∧ ∃ tcp, au_tcp s = Some tcp ∧ chan_sent tcp = wire_stream (sent t) ∧
    input = wire_stream (received t) ++ wire_message m ++ chan_read_buf tcp ∧ bytes_ok input).

Definition buffer (s : AuthState) : bytes := match au_tcp s with Some tcp => chan_read_buf tcp | None => [] end.

(** What handling a message leaves. *)
Definition stepped (input : bytes) (s : AuthState) (step : AuthStep) (s' : AuthState) : Prop :=
  match step with
  | AuthContinue => talking s0 input s' ∧ buffer s' = buffer s
  | AuthDone outcome => grew s0 s' (ended env authenticator session_queue_size challenge s0 input outcome)
  end.

Lemma got_fails m input s : got m input s → failed_since (hlog (HRecv m) s).
Proof.
  intros (t & Ht & Hp & Hc & Hs & _). exists (HRecv m :: t). split_and!; [by cbn; rewrite Ht|done|].
  split; [apply no_session_cons; [done|by apply chat_no_session]|by left].
Qed.

Lemma handle_ping_ok p n input s :
  got (MPing p) input s → p = to_be 8 n → PingPayload_decode p = Ok (mkPing n) →
  ok (handle_ping env p) (stepped input s) (hlog (HRecv (MPing p)) s).
Proof.
  intros Hg Ep Ed. pose proof (got_fails _ _ _ Hg) as Hf. unfold handle_ping. apply wp_bind. rewrite Ed. apply wp_ret.
  destruct Hg as (t & Ht & Hp & Hc & Hs & tcp & Etcp & Es & Ei & Hb).
  apply wp_bind. eapply send_message_ok; [exact Etcp|by apply (short_u64 _ n)| |intros; exact Hf..].
  intros c k Ec Er. apply wp_ret. split; [|cbn; unfold buffer; by rewrite Etcp].
  exists (HSent (MPong (to_be 8 n)) :: HRecv (MPing p) :: t).
  split_and!; [by cbn; rewrite Ht|done|rewrite Ep; by constructor|done|]. exists c. split; [done|]. split; [|done]. split.
  - rewrite sent_cons. change (sent (HRecv _ :: t)) with (sent t). rewrite wire_stream_app, wire_stream_one, <- Es. exact Ec.
  - change (received (HSent _ :: _)) with (received (HRecv (MPing p) :: t)).
    by rewrite received_cons, wire_stream_app, wire_stream_one, Er, <- app_assoc.
Qed.

Lemma refuse_ok p payload code input s :
  got (MAuth p) input s → AuthPayload_decode p = Ok payload →
  verify_auth_payload authenticator payload challenge = Err code →
  ok (send_auth_fail env code) (λ _ s', grew s0 s' (refused authenticator challenge s0 code)) (hlog (HRecv (MAuth p)) s).
Proof.
  intros Hg Ed Ev. pose proof (got_fails _ _ _ Hg) as Hf.
  destruct Hg as (t & Ht & Hp & Hc & Hs & tcp & Etcp & _).
  eapply send_message_ok; [exact Etcp|split; destruct code; decided| |intros; exact Hf..].
  intros c k _ _. exists (HSent (MAuthFail [AuthFailCode_to_u8 code]) :: HRecv (MAuth p) :: t).
  split_and!; [by cbn; rewrite Ht|done|]. by exists p, payload, t.
Qed.

Lemma create_session_for_ok p payload ip t tcp input s :
  AuthPayload_decode p = Ok payload → verify_auth_payload authenticator payload challenge = Ok ip → chat t →
  au_trace s = HSent (MAuthOk []) :: HRecv (MAuth p) :: t ++ au_trace s0 → au_permits s = au_permits s0 →
  shared s = shared s0 → au_tcp s = Some tcp → agrees (HSent (MAuthOk []) :: HRecv (MAuth p) :: t) input tcp →
  ok (create_session_for env session_queue_size (auth_client_id payload) ip)
    (λ _ s', grew s0 s' (session_created env authenticator session_queue_size challenge s0 input)) s.
Proof.
  intros Ed Ev Hc Ht Hp Hs Etcp Ha. unfold create_session_for. apply wp_bind, wp_ask_tick. intros k n.
  apply wp_bind, wp_ask_tick. intros k' n'. apply wp_bind, wp_get. cbn [au_state au_registry au_tcp put_tick].
  change (au_state s, au_registry s) with (shared s). rewrite Hs, Etcp, bool_decide_true by done.
  destruct (ae_others env k (shared s0)) as [st r] eqn:Eo.
  pose proof (create_session_cases session_queue_size st r (auth_client_id payload) ip (ae_tx env k')) as Hcase.
  destruct (create_session _ _ _ _ _ _ _) as [ [st' r'] created] eqn:Ec. apply wp_bind, wp_modify, wp_bind.
  destruct created as [ [handle told]|e|]; [|destruct Hcase as [-> ->]|done].
  - destruct (Z.eqb_spec session_queue_size 0); [by destruct Hcase|]. apply wp_modify, wp_modify.
    exists (HSession (auth_client_id payload) ip (sh_session_id handle) tcp :: HSent (MAuthOk []) :: HRecv (MAuth p) :: t).
    split_and!; [by cbn; rewrite Ht|done|].
    exists p, payload, ip, (sh_session_id handle), tcp, t, k, (ae_tx env k'), told, handle. by rewrite Eo.
  - assert (∀ tcp', failed_since (put_tcp tcp' (put_sessions st r (put_tick n' (put_tick n s))))) as Hf.
    { intros tcp'. exists (HSent (MAuthOk []) :: HRecv (MAuth p) :: t). split_and!; [done|done|].
      split; [do 2 (apply no_session_cons; [done|]); by apply chat_no_session|]. right. exists k. by rewrite Eo. }
    destruct (session_queue_size =? 0); [apply wp_ret|apply wp_modify]; [apply (Hf (au_tcp s))|apply Hf].
Qed.

Lemma handle_auth_ok p payload input s :
  got (MAuth p) input s → AuthPayload_decode p = Ok payload →
  ok (handle_auth env authenticator session_queue_size p challenge) (stepped input s) (hlog (HRecv (MAuth p)) s).
Proof.
  intros Hg Ed. pose proof (got_fails _ _ _ Hg) as Hf. unfold handle_auth. apply wp_bind. rewrite Ed. apply wp_ret.
  pose proof (verify_auth_no_panic authenticator payload challenge) as Hnp.
  destruct (verify_auth_payload authenticator payload challenge) as [ip|code|] eqn:Ev; [| |done]; apply wp_bind.
  - destruct Hg as (t & Ht & Hp & Hc & Hs & tcp & Etcp & Es & Ei & Hb).
    eapply send_message_ok; [exact Etcp|split; decided| |intros; exact Hf..]. intros c k Ec Er. apply wp_bind.
    eapply wp_mono; [eapply (create_session_for_ok p payload ip t c input)|]; try done; [by cbn; rewrite Ht|].
    split.
    + rewrite sent_cons. change (sent (HRecv _ :: t)) with (sent t). by rewrite wire_stream_app, wire_stream_one, <- Es.
    + change (received (HSent _ :: _)) with (received (HRecv (MAuth p) :: t)).
      by rewrite received_cons, wire_stream_app, wire_stream_one, Er, <- app_assoc.
  - eapply wp_mono; [by eapply refuse_ok|]. by intros.
Qed.

Lemma handle_auth_message_ok m input s :
  got m input s → bytes_ok (Message_payload m) →
  ok (handle_auth_message env authenticator session_queue_size m challenge) (stepped input s) s.
Proof.
  intros Hg Hm. pose proof (got_fails _ _ _ Hg) as Hf. unfold handle_auth_message. apply wp_bind, wp_modify, wp_bind.
  apply wp_try; [by apply validate_message_no_panic| |intros; exact Hf].
  intros [] [ (Hd & Hph & Htr) Hcan]%validate_message_ok; [|done]. clear Hm.
  destruct m as [p|p|p|p|p|p|p|p|p|p|p|p|p|p|p|p|p|p]; cbn [Message_ty canonical_payload] in *; try discriminate.
  - apply encodes_decodes in Hcan as (a & Ed & _). by apply (handle_auth_ok _ a).
  - apply encodes_decodes in Hcan as ([n] & Ed & _ & He). apply (inj Ok) in He. by apply (handle_ping_ok _ n).
  - apply encodes_decodes in Hcan as (a & Ed & _). apply wp_bind. change (PongPayload_decode p = Ok a) in Ed. rewrite Ed.
    apply wp_ret, wp_ret. destruct Hg as (t & Ht & Hp & Hc & Hs & tcp & Etcp & Es & Ei & Hb). split; [|done].
    exists (HRecv (MPong p) :: t). split_and!; [by cbn; rewrite Ht|done|by constructor|done|]. exists tcp.
    split; [done|]. split; [|done]. split; [done|]. by rewrite received_cons, wire_stream_app, wire_stream_one, <- app_assoc.
  - apply encodes_decodes in Hcan as (a & Ed & _). apply wp_bind. change (ClosePayload_decode p = Ok a) in Ed. rewrite Ed.
    apply wp_ret, wp_ret. destruct Hg as (t & Ht & Hp & Hc & Hs & _). exists (HRecv (MClose p) :: t).
    split_and!; [by cbn; rewrite Ht|done|]. by exists p, t.
Qed.

(** ** The loop *)
Lemma talking_idle input s : talking s0 input s → failed_since s.
Proof. intros (t & Ht & Hp & Hc & Hs & _). exists t. split_and!; [done|done|]. split; [by apply chat_no_session|by left]. Qed.

Lemma auth_messages_ok fuel input s :
  talking s0 input s → (length (buffer s) < fuel)%nat →
  ok (auth_messages env authenticator limits session_queue_size fuel challenge)
    (λ r s', match r with
             | Some outcome => grew s0 s' (ended env authenticator session_queue_size challenge s0 input outcome)
             | None => talking s0 input s'
             end) s.
Proof.
  revert s. induction fuel as [|fuel IH]; intros s Ht Hl; [lia|]. pose proof (talking_idle _ _ Ht) as Hf.
  cbn [auth_messages]. pose proof Ht as (t & Et & Hp & Hc & Hs & tcp & Etcp & [Es Ei] & Hb).
  unfold as_tcp_channel. apply wp_bind, wp_bind, wp_get. rewrite Etcp. apply wp_ret. unfold try_pop_message.
  unfold buffer in Hl. rewrite Etcp in Hl. rewrite Ei, bytes_ok_app in Hb.
  pose proof (pop_message_buf_cases (chan_read_buf tcp) limits (proj2 Hb)) as Hpop. rewrite <- bytes_ok_app, <- Ei in Hb.
  destruct (pop_message_buf (chan_read_buf tcp) limits) as [r rest]. apply wp_bind, wp_modify.
  destruct r as [ [o|]|err|]; [| | |done].
  - destruct Hpop as (m & Em & _ & Er). apply wp_bind. rewrite Em. apply wp_ret, wp_bind, wp_result.
    match goal with |- wp _ _ _ _ ?x => set (s1 := x) end.
    assert (got m input s1) as Hg.
    { exists t. split_and!; [done|done|done|done|]. eexists. split; [done|]. cbn [chan_sent chan_read_buf]. by rewrite <- Er. }
    eapply wp_weaken; [apply (handle_auth_message_ok m input s1 Hg)| | |by intros].
    + rewrite Ei, Er, !bytes_ok_app in Hb. destruct Hb as (_ & Hb & _). unfold wire_message in Hb. rewrite !bytes_ok_app in Hb. apply Hb.
    + cbv beta. intros [|outcome] s' Hst; [|by apply wp_ret]. destruct Hst as [Ht' Eb]. apply IH; [done|].
      rewrite Eb. unfold buffer. cbn. rewrite Er, length_app in Hl.
      pose proof (zlen_wire_message m). pose proof (zlen_nonneg (Message_payload m)). unfold zlen, HEADER_LEN in *. lia.
    + cbv beta. intros e s' Hf'. apply wp_bind. destruct (requires_protocol_close e); [|by apply wp_ret].
      eapply wp_mono; [by apply close_best_effort|]. by intros.
  - apply wp_ret. exists t. split_and!; [done|done|done|done|]. eexists. split; [done|]. subst rest. by split.
  - apply wp_bind. eapply wp_mono; [apply close_best_effort; exact Hf|]. by intros.
Qed.

Lemma run_auth_loop_ok reads input s :
  talking s0 input s → Forall read_ok reads →
  ok (run_auth_loop env authenticator limits session_queue_size challenge reads)
    (λ outcome s', ∃ input', input' `prefix_of` input ++ delivered reads ∧
       grew s0 s' (ended env authenticator session_queue_size challenge s0 input' outcome)) s.
Proof.
  revert input s. induction reads as [|read reads IH]; intros input s Ht Hr; [by apply (talking_idle input)|].
  apply Forall_cons_1 in Hr as [Hread Hr]. pose proof (talking_idle _ _ Ht) as Hf. cbn [run_auth_loop].
  destruct Ht as (t & Et & Hp & Hc & Hs & tcp & Etcp & [Es Ei] & Hb).
  unfold as_tcp_channel. apply wp_bind, wp_bind, wp_get. rewrite Etcp. apply wp_ret, wp_bind.
  destruct read as [chunk|e]; [|exact Hf]. apply wp_ret, wp_bind, wp_modify.
  destruct (zlen chunk =? 0); [exact Hf|]. apply wp_bind.
  assert (delivered (inl chunk :: reads) = chunk ++ delivered reads) as Ed by done.
  eapply wp_mono; [apply (auth_messages_ok _ (input ++ chunk))|].
  - exists t. split_and!; [done|done|done|done|]. eexists. split; [done|]. split; [split; [done|]|by apply bytes_ok_app].
    cbn [chan_read_buf read_more]. by rewrite Ei, app_assoc.
  - unfold buffer. cbn. lia.
  - cbv beta. intros [outcome|] s' Hout.
    + apply wp_ret. exists (input ++ chunk). split; [|done]. rewrite Ed, app_assoc. by apply prefix_app_r.
    + eapply wp_mono; [by apply (IH (input ++ chunk))|]. cbv beta. intros outcome s'' (input' & Hin & Hg). exists input'.
      by rewrite Ed, app_assoc.
Qed.
End Exchange.

(** ** The connection *)
Section Connection.
Context `{E : Ed25519} (env : AuthEnv) (authenticator : Authenticator) (limits : MessageLimits) (session_queue_size : Z).

Lemma handle_stream_ok updater handshake challenge reads s :
  Forall read_ok reads →
  wp (handle_stream env authenticator limits session_queue_size updater handshake challenge reads)
    (λ outcome s', handshake = HandshakeDone ∧ ∃ ch input, challenge = Some ch ∧ input `prefix_of` delivered reads ∧
       grew s s' (ended env authenticator session_queue_size ch s input outcome))
    (λ _ s', grew s s' (failed env s)) (λ _, False) s.
Proof.
  intros Hr.
  assert (∀ tcp, grew s (put_tcp tcp s) (failed env s)) as Hf.
  { intros tcp. exists []. split_and!; [done|done|]. split; [intros ? ? ? ?; apply not_elem_of_nil|by left]. }
  unfold handle_stream. destruct handshake; [|apply (Hf (au_tcp s))..].
  apply wp_bind, wp_modify. unfold run_auth_flow, as_tcp_channel. apply wp_bind, wp_bind, wp_get. cbn [au_tcp put_tcp].
  apply wp_ret. destruct challenge as [ch|]; [|apply Hf]. apply wp_bind, wp_timeout.
  eapply wp_weaken; [apply (run_auth_loop_ok env authenticator limits session_queue_size ch s reads [])|..]; [|done|..].
  - exists []. split_and!; [done|done|constructor|done|]. eexists. split; [reflexivity|]. split; [by split|constructor].
  - cbv beta. intros outcome s' (input & Hin & Hg). apply wp_ret. split; [done|]. by exists ch, input.
  - cbv beta. intros e s' Hg. exact Hg.
  - cbv beta. intros s' Hg. exact Hg.
Qed.

(** C12: What a connection comes to.  Whatever the client sends in whatever
    pieces, however the writes go and whatever other connections do meanwhile,
    the handler ends without panicking, gives its permit back and counts the
    attempt once.  A session exists afterwards only if the last message the
    server read is an AUTH whose payload verifies against the challenge of this
    connection; then AUTH_OK went out before the session was created, under
    the identifier and address that were verified, and the session takes over
    the channel with all input that was not yet read.  A refusal tells the
    client the code, changes nothing and counts as a rejection; an error or the
    deadline leaves no session. *)
Theorem server_auth_spec updater handshake challenge reads s :
  Forall read_ok reads →
  ∃ s' r t,
    handle env authenticator limits session_queue_size updater handshake challenge reads s = (s', ORet r) ∧
    au_permits s' = au_permits s ∧ au_trace s' = t ++ au_trace s ∧
    ((au_permits s = 0 ∧ r = Err ConnectionRefused ∧ t = [HAuthLimitDrop] ∧ shared s' = shared s) ∨
     (handshake = HandshakeDone ∧ r = Ok tt ∧ ∃ ch input t', challenge = Some ch ∧ input `prefix_of` delivered reads ∧
       ((t = HAuthSuccess :: t' ∧ session_created env authenticator session_queue_size ch s input t' s') ∨
        (t = t' ∧ closed s t' s') ∨
        (∃ code, t = HAuthRejection :: HAuthFailure :: t' ∧ refused authenticator ch s code t' s'))) ∨
     (∃ e t', r = Err e ∧ t = HAuthFailure :: t' ∧ failed env s t' s')).
Proof.
  intros Hr. unfold handle. unfold mbind, M_bind, get. cbn. destruct (Z.eqb_spec (au_permits s) 0) as [E0|_].
  { do 2 eexists. exists [HAuthLimitDrop]. split_and!; [reflexivity|done|done|]. left. by split_and!. }
  pose proof (handle_stream_ok updater handshake challenge reads (put_permits (au_permits s - 1) s) Hr) as H. unfold wp in H.
  unfold mbind, M_bind, modify, result, mret, M_ret.
  destruct (handle_stream _ _ _ _ _ _ _ _ _) as [s1 [outcome|e| |] ]; [| |done|done].
  - destruct H as (-> & ch & input & -> & Hin & t & Et & Hp & Hend). cbn in Et, Hp. destruct outcome as [| |code]; cbn; do 2 eexists.
    + exists (HAuthSuccess :: t). split_and!; [reflexivity|cbn; lia|cbn; by rewrite Et|]. right. left. split_and!; [done|done|].
      exists ch, input, t. split_and!; [done|done|]. by left.
    + exists t. split_and!; [reflexivity|cbn; lia|exact Et|]. right. left. split_and!; [done|done|].
      exists ch, input, t. split_and!; [done|done|]. right. by left.
    + exists (HAuthRejection :: HAuthFailure :: t). split_and!; [reflexivity|cbn; lia|cbn; by rewrite Et|]. right. left.
      split_and!; [done|done|]. exists ch, input, t. split_and!; [done|done|]. right. right. by exists code.
  - destruct H as (t & Et & Hp & Hf). cbn in Et, Hp |- *. do 2 eexists. exists (HAuthFailure :: t).
    split_and!; [reflexivity|cbn; lia|cbn; by rewrite Et|]. right. right. by do 2 eexists.
Qed.
End Connection.
