(* ===== verification/ClientAuth.v ===== *)
(** * Connecting and authenticating on the client

    ([slt-client/src/error.rs], [transport/tcp.rs], [auth.rs])

    The errors of the connect sequence with their retry policy, the connect
    sequence itself, and the exchange of messages up to AUTH_OK, in the monad
    of [Effects].  The resolver, the sockets and the TLS library are answers of
    the environment; of a TLS failure the parts that decide the policy are
    kept. *)

From stdpp Require Import base tactics option list numbers.
From Stdlib Require Import ZArith Lia.
From S2P Require Import Prelude Effects Framing TcpChannel Payloads Admissibility Config Auth.

(** ** error.rs *)
Inductive Stage := StConfig | StTcpSocketCreate | StSocketProtect | StTcpConnect | StTlsHandshake | StAuth | StCancelled.

(** boring's [ErrorCode] *)
Inductive SslErrorCode := SslSSL | SslSYSCALL | SslZERO_RETURN | SslOther (code : Z).
#[global] Instance SslErrorCode_eq_dec : EqDecision SslErrorCode.
Proof. solve_decision. Defined.

Inductive TlsError :=
  | TlsSetup
  | TlsHandshakeError (code : SslErrorCode) (verify_error : option Z) (io_error_kind : option IoError).

Definition is_transient_io (e : TlsError) : bool :=
  match e with
  | TlsSetup => false
  | TlsHandshakeError code verify_error io_error_kind =>
      if bool_decide (is_Some verify_error) then false else
      bool_decide (is_Some io_error_kind) || bool_decide (code = SslSYSCALL) || bool_decide (code = SslZERO_RETURN)
  end.

(** The address of the server: an IPv4 or IPv6 address and a port. *)
Definition Peer : Type := bytes * Z.

Inductive ConnectError :=
  | CeCancelled
  | CeEmptyHostname
  | CeTcpSocketCreate (peer : Peer) (source : IoError)
  | CeSocketProtect (peer : Peer) (source : IoError)
  | CeTcpConnectTimeout (peer : Peer)
  | CeTcpConnect (peer : Peer) (source : IoError)
  | CeTlsHandshakeTimeout
  | CeTlsHandshake (source : TlsError)
  | CeAuthRejected (code : AuthFailCode) (client_id assigned_ipv4 : bytes)
  | CeAuthTimeout
  | CeAuthDisconnected
  | CeAuthProtocolError
  | CeAuthUnexpectedMessage
  | CeAuthTlsExport
  | CeDnsResolution (source : IoError)
  | CeIo (e : IoError)
  | CeFrame (e : FrameError)
  | CeMessage (e : MessageError)
  | CePayload (e : PayloadError).

Definition ConnectError_from_tcp_write (err : TcpWriteError) : ConnectError :=
  match err with TWFrame frame => CeFrame frame | TWIo io => CeIo io end.

Definition ConnectError_from_validation (err : MessageValidationError) : ConnectError :=
  match err with
  | InvalidPayload _ source => CePayload source
  | InvalidDirection _ _ | InvalidPhase _ _ | InvalidTransport _ _ => CeAuthUnexpectedMessage
  end.

Definition stage (e : ConnectError) : Stage :=
  match e with
  | CeCancelled => StCancelled
  | CeEmptyHostname | CeDnsResolution _ => StConfig
  | CeTcpSocketCreate _ _ => StTcpSocketCreate
  | CeSocketProtect _ _ => StSocketProtect
  | CeTcpConnectTimeout _ | CeTcpConnect _ _ | CeIo _ => StTcpConnect
  | CeTlsHandshakeTimeout | CeTlsHandshake _ => StTlsHandshake
  | CeAuthRejected _ _ _ | CeAuthTimeout | CeAuthDisconnected | CeAuthProtocolError | CeAuthUnexpectedMessage
  | CeAuthTlsExport | CeFrame _ | CeMessage _ | CePayload _ => StAuth
  end.

Definition is_retriable (e : ConnectError) : bool :=
  match e with
  | CeCancelled => false
  | CeEmptyHostname | CeTcpSocketCreate _ _ | CeAuthRejected _ _ _ | CeAuthProtocolError | CeAuthUnexpectedMessage
  | CeAuthTlsExport | CeFrame _ | CeMessage _ | CePayload _ => false
  | CeTcpConnectTimeout _ | CeAuthTimeout | CeAuthDisconnected | CeTlsHandshakeTimeout | CeDnsResolution _ => true
  | CeSocketProtect _ source => match source with NotConnected | NetworkUnreachable => true | _ => false end
  | CeTcpConnect _ source => negb (bool_decide (source = PermissionDenied))
  | CeTlsHandshake source => is_transient_io source
  | CeIo source => negb (bool_decide (source = PermissionDenied))
  end.

(** ** transport/tcp.rs: the connect sequence *)
Inductive ConnMetric :=
  | MTcpConnections | MTcpHandshakeFailures | MTcpHandshakeSuccesses | MAuthSuccesses | MAuthFailures | MConnKeyUpdate.

(** What the network and the TLS library do in one attempt.  [net_tls_setup]
    tells which of the six calls that set up TLS succeed; of a handshake error
    there are the code, the result of the verification and the I/O error. *)
Record Network := mkNetwork {
  net_resolve : bytes → Z → io_result (list Peer);
  net_socket : Peer → io_result unit;
  net_protect : Peer → io_result unit;
  net_connect : Peer → io_result unit;
  net_timed_out : bool;
  net_tls_setup : nat → bool;
  net_handshake : option (unit + option SslErrorCode * option Z * option IoError);
}.

Section Connect.
Context (net : Network) (config : ClientConfig).

Definition connect_addr (addr : Peer) : res ConnectError Peer :=
  _ ← map_err (CeTcpSocketCreate addr) (of_io (net_socket net addr));
  _ ← map_err (CeSocketProtect addr) (of_io (net_protect net addr));
  _ ← map_err (CeTcpConnect addr) (of_io (net_connect net addr));
  Ok addr.

(** The loop of [connect_stream] over the addresses. *)
Fixpoint connect_first (addrs : list Peer) (last_err : option ConnectError) : res ConnectError Peer :=
  match addrs with
  | [] => Err (default (CeDnsResolution (OtherIo 0)) last_err)
  | addr :: addrs =>
      match connect_addr addr with
      | Ok stream => Ok stream
      | Err err => connect_first addrs (Some err)
      | Panic => Panic
      end
  end.

Definition connect_stream : res ConnectError Peer :=
  match ip_override (cc_network config) with
  | Some ip => connect_addr (ip, port (cc_network config))
  | None =>
      addrs ← map_err CeDnsResolution (of_io (net_resolve net (hostname (cc_network config)) (port (cc_network config))));
      connect_first addrs None
  end.

Definition tls_handshake_error (code : option SslErrorCode) (verify_error : option Z) (io_error : option IoError)
    : ConnectError :=
  CeTlsHandshake (TlsHandshakeError (default SslSSL code) verify_error io_error).

(** [connect]: the counters, and the peer of the TLS stream or the error. *)
Definition connect : list ConnMetric * res ConnectError Peer :=
  if bool_decide (hostname (cc_network config) = []) then ([MTcpConnections; MTcpHandshakeFailures], Err CeEmptyHostname) else
  if net_timed_out net then
    ([MTcpConnections; MTcpHandshakeFailures],
     Err (CeTcpConnectTimeout (match ip_override (cc_network config) with
                               | Some ip => (ip, port (cc_network config))
                               | None => (zeros 4, 0)
                               end)))
  else
  match connect_stream with
  | Err e => ([MTcpConnections], Err e)
  | Panic => ([MTcpConnections], Panic)
  | Ok peer =>
      if negb (forallb (net_tls_setup net) (seq 0 6)) then
        ([MTcpConnections; MTcpHandshakeFailures], Err (CeTlsHandshake TlsSetup))
      else
      match net_handshake net with
      | None => ([MTcpConnections; MTcpHandshakeFailures], Err CeTlsHandshakeTimeout)
      | Some (inr (code, verify_error, io_error)) =>
          ([MTcpConnections; MTcpHandshakeFailures], Err (tls_handshake_error code verify_error io_error))
      | Some (inl _) => ([MTcpConnections; MTcpHandshakeSuccesses], Ok peer)
      end
  end.
End Connect.

(** ** auth.rs *)
Inductive conn_action := CRecv (m : Message) | CSent (m : Message) | CCount (m : ConnMetric).

Record Conn := mkConn { cn_tcp : TcpChannel; cn_tick : nat; cn_trace : list conn_action }.

Abbreviation M := (eff Conn ConnectError).

Definition put_channel (tcp : TcpChannel) (c : Conn) : Conn := mkConn tcp (cn_tick c) (cn_trace c).
Definition clog (a : conn_action) (c : Conn) : Conn := mkConn (cn_tcp c) (cn_tick c) (a :: cn_trace c).
Definition tick_conn (n : nat) (c : Conn) : Conn := mkConn (cn_tcp c) n (cn_trace c).
Definition conn_ask {A} (f : nat → A) : M A := λ c, (tick_conn (S (cn_tick c)) c, ORet (f (cn_tick c))).

Inductive AuthResult := ArContinue | ArAccepted | ArDisconnected.

Definition AUTH_MAX_FRAME : Z := 16 * 1024.

Definition map_auth_write_error (err : TcpWriteError) : ConnectError :=
  match err with
  | TWIo TimedOut => CeAuthTimeout
  | other => ConnectError_from_tcp_write other
  end.

(** How the wait ends when the server says nothing: the deadline, or the
    cancellation of the connect sequence. *)
Inductive AuthStop := StopDeadline | StopCancelled.

Section ClientAuth.
Context `{E : Ed25519} (writes : nat → Z * TcpProgress) (config : ClientConfig).

(** The counter of [ClientKeyUpdater::maybe_request_key_update]. *)
Definition count_update (k : IntervalKeyUpdater) (rc : Z) (c : Conn) : Conn :=
  if ku_until_update k =? 1 then
    match (maybe_request_key_update k rc).1.1 with
    | Ok _ => clog (CCount MConnKeyUpdate) c
    | _ => c
    end
  else c.

(** [write_message_with_timeout(..).map_err(map_auth_write_error)?] *)
Definition write_message_with_timeout (m : Message) : M unit :=
  c ← get;
  '(rc, progress) ← conn_ask writes;
  let w := match progress with Finished w => w | TimedOutAfter n | DroppedAfter n => WriteFailed n TimedOut end in
  let '(r, channel) := write_message (cn_tcp c) m rc w in
  _ ← modify (λ c', count_update (chan_key_updater (cn_tcp c)) rc (put_channel channel c'));
  match r with
  | Ok _ => modify (clog (CSent m))
  | Err (TWIo TimedOut) =>
      match progress with DroppedAfter _ => dropped | _ => fail (map_auth_write_error (TWIo TimedOut)) end
  | Err e => fail (map_auth_write_error e)
  | Panic => panic
  end.

Definition send_auth (payload : AuthPayload) : M unit :=
  write_message_with_timeout (MAuth (AuthPayload_encode payload [])).

Definition client_handle_auth_message (message : Message) : M AuthResult :=
  _ ← modify (clog (CRecv message));
  _ ← try ConnectError_from_validation (validate_message message (mkContext SServer Authentication Tcp));
  match message with
  | MAuthOk payload =>
      _ ← try CePayload (AuthOkPayload_decode payload);
      mret ArAccepted
  | MAuthFail payload =>
      rejected ← try CePayload (AuthFailPayload_decode payload);
      fail (CeAuthRejected (af_code rejected) (client_id (cc_identity config)) (assigned_ipv4 (cc_identity config)))
  | MPing payload =>
      ping ← try CePayload (PingPayload_decode payload);
      _ ← write_message_with_timeout (MPong (PongPayload_encode (mkPong (ping_nonce ping)) []));
      mret ArContinue
  | MPong payload =>
      _ ← try CePayload (PongPayload_decode payload);
      mret ArContinue
  | MClose payload =>
      close ← try CePayload (ClosePayload_decode payload);
      if bool_decide (close_code close = CCProtocolError) then fail CeAuthProtocolError else mret ArDisconnected
  | MAuth _ | MRegisterCid _ | MRegisterOk _ | MRegisterFail _ | MData _ | MUpgradeProbe _ | MUpgradeProbeAck _
  | MUdpReady _ | MSwitchToUdp _ | MSwitchAck _ | MFallbackToTcp _ | MFallbackOk _ | MSwitchOk _ => panic
  end.

Definition auth_limits : MessageLimits := mkLimits AUTH_MAX_FRAME AUTH_MAX_FRAME.

(** The inner loop of [run_auth_flow]: whether AUTH_OK came.  Every message
    takes a header out of the buffer. *)
Fixpoint answer_messages (fuel : nat) : M bool :=
  match fuel with
  | O => panic
  | S fuel =>
      c ← get;
      let '(popped, channel) := try_pop_message (cn_tcp c) auth_limits in
      _ ← modify (put_channel channel);
      popped ← try CeMessage popped;
      match popped with
      | None => mret false
      | Some msg_buf =>
          message ← try CeFrame (OwnedMessageBuf_message msg_buf);
          r ← result (client_handle_auth_message message);
          match r with
          | Ok ArContinue => answer_messages fuel
          | Ok ArAccepted =>
              _ ← modify (clog (CCount MAuthSuccesses));
              mret true
          | Ok ArDisconnected => fail CeAuthDisconnected
          | Err (CeAuthRejected code id ip) =>
              _ ← modify (clog (CCount MAuthFailures));
              fail (CeAuthRejected code id ip)
          | Err other => fail other
          | Panic => panic
          end
      end
  end.

(** The outer loop on what TLS delivers; after that it waits. *)
Fixpoint await_auth (reads : list (io_result bytes)) : M unit :=
  match reads with
  | [] => dropped
  | read :: reads =>
      chunk ← try CeIo (of_io read);
      _ ← modify (λ c, put_channel (read_more (cn_tcp c) chunk) c);
      if zlen chunk =? 0 then fail CeAuthDisconnected else
      c ← get;
      accepted ← answer_messages (S (length (chan_read_buf (cn_tcp c))));
      if (accepted : bool) then mret tt else await_auth reads
  end.

(** [challenge]: what [export_auth_challenge] returns. *)
Definition client_run_auth_flow (challenge : option bytes) (reads : list (io_result bytes)) : M unit :=
  challenge ← try (λ _ : unit, CeAuthTlsExport) (ok_or challenge tt);
  let payload := build_auth_payload config challenge in
  _ ← send_auth payload;
  await_auth reads.

Definition authenticate (stop : AuthStop) (challenge : option bytes) (reads : list (io_result bytes)) : M unit :=
  r ← timeout (client_run_auth_flow challenge reads);
  match r, stop with
  | Some r, _ => try id r
  | None, StopDeadline => fail CeAuthTimeout
  | None, StopCancelled => dropped
  end.
End ClientAuth.

(** ** The exchange *)

(** The messages among the actions, newest first. *)
Definition talk (t : list conn_action) : list conn_action :=
  List.filter (λ a, match a with CCount _ => false | _ => true end) t.

(** Pings that were answered, and pongs. *)
Inductive small_talk : list conn_action → Prop :=
  | small_nil : small_talk []
  | small_ping n t : small_talk t → small_talk (CSent (MPong (to_be 8 n)) :: CRecv (MPing (to_be 8 n)) :: t)
  | small_pong p t : small_talk t → small_talk (CRecv (MPong p) :: t).

(** The messages sent and received, oldest first. *)
Definition said (t : list conn_action) : list Message :=
  rev (omap (λ a, match a with CSent m => Some m | _ => None end) t).
Definition heard (t : list conn_action) : list Message :=
  rev (omap (λ a, match a with CRecv m => Some m | _ => None end) t).

(** The bytes of the channel and the messages of the trace agree. *)
Definition in_step (c0 : Conn) (t : list conn_action) (input : bytes) (c : Conn) : Prop :=
  chan_sent (cn_tcp c) = chan_sent (cn_tcp c0) ++ wire_stream (said t) ∧
  input = wire_stream (heard t) ++ chan_read_buf (cn_tcp c).

Definition auth_message `{E : Ed25519} (config : ClientConfig) (challenge : bytes) : Message :=
  MAuth (AuthPayload_encode (build_auth_payload config challenge) []).

(** Only the counter of key updates was incremented. *)
Definition quiet (t : list conn_action) : Prop := CCount MAuthSuccesses ∉ t ∧ CCount MAuthFailures ∉ t.

Section ClientExchange.
Context `{E : Ed25519} {L : Ed25519Laws E} (writes : nat → Z * TcpProgress) (config : ClientConfig).
Context (challenge : bytes) (c0 : Conn).

(** The state between two messages of the server. *)
Definition waiting (input : bytes) (c : Conn) : Prop :=
  ∃ t t', cn_trace c = t ++ cn_trace c0 ∧ talk t = t' ++ [CSent (auth_message config challenge)] ∧ small_talk t' ∧
    quiet t ∧ in_step c0 t input c ∧ bytes_ok input.

(** AUTH_OK was the last message. *)
Definition accepted (input : bytes) (c : Conn) : Prop :=
  ∃ t t', cn_trace c = CCount MAuthSuccesses :: CRecv (MAuthOk []) :: t ++ cn_trace c0 ∧
    talk t = t' ++ [CSent (auth_message config challenge)] ∧ small_talk t' ∧ quiet t ∧
    in_step c0 (CRecv (MAuthOk []) :: t) input c.

(** A refusal ends with the code the server sent last; other errors and the
    end of the wait leave both counters alone. *)
Definition not_accepted (c : Conn) : Prop := ∃ t, cn_trace c = t ++ cn_trace c0 ∧ quiet t.
Definition failed_with (e : ConnectError) (c : Conn) : Prop :=
  match e with
  | CeAuthRejected code id ip =>
      id = client_id (cc_identity config) ∧ ip = assigned_ipv4 (cc_identity config) ∧
      ∃ t, cn_trace c = CCount MAuthFailures :: CRecv (MAuthFail [AuthFailCode_to_u8 code]) :: t ++ cn_trace c0 ∧ quiet t
  | _ => not_accepted c
  end.

(** A message of the server was taken out of the buffer. *)
Definition taken (m : Message) (input : bytes) (c : Conn) : Prop :=
  ∃ t t', cn_trace c = t ++ cn_trace c0 ∧ talk t = t' ++ [CSent (auth_message config challenge)] ∧ small_talk t' ∧
    quiet t ∧ chan_sent (cn_tcp c) = chan_sent (cn_tcp c0) ++ wire_stream (said t) ∧
    input = wire_stream (heard t) ++ wire_message m ++ chan_read_buf (cn_tcp c) ∧ bytes_ok input.

Lemma quiet_cons a t : a ≠ CCount MAuthSuccesses → a ≠ CCount MAuthFailures → quiet t → quiet (a :: t).
Proof. intros H1 H2 [? ?]. split; rewrite elem_of_cons; naive_solver. Qed.

Lemma conn_wp_ask {A} (f : nat → A) (Q : A → Conn → Prop) X C c :
  (∀ k n, Q (f k) (tick_conn n c)) → wp (conn_ask f) Q X C c.
Proof. intros H. apply H. Qed.

(** Key updates that were counted. *)
Definition updates_only (ku : list conn_action) : Prop := Forall (λ a, a = CCount MConnKeyUpdate) ku.

Lemma count_update_log k rc c :
  ∃ ku, updates_only ku ∧ cn_trace (count_update k rc c) = ku ++ cn_trace c ∧ cn_tcp (count_update k rc c) = cn_tcp c.
Proof.
  unfold count_update. destruct (_ =? _); [|by exists []; split_and!; [constructor|..]].
  destruct (maybe_request_key_update k rc).1.1; [|by exists []; split_and!; [constructor|..]..].
  exists [CCount MConnKeyUpdate]. split_and!; [by repeat constructor|done|done].
Qed.

Lemma updates_quiet ku t : updates_only ku → quiet t → quiet (ku ++ t).
Proof. intros H Hq. induction H as [|a ku -> _ IH]; [done|]. by apply quiet_cons. Qed.

Lemma updates_talk ku t : updates_only ku → talk (ku ++ t) = talk t ∧ said (ku ++ t) = said t ∧ heard (ku ++ t) = heard t.
Proof. intros H. induction H as [|a ku -> _ IH]; [done|]. exact IH. Qed.

Lemma write_message_with_timeout_ok m c (Q : unit → Conn → Prop) (X : ConnectError → Conn → Prop) (C : Conn → Prop) :
  short m →
  (∀ c' ku, updates_only ku → cn_trace c' = CSent m :: ku ++ cn_trace c →
     chan_sent (cn_tcp c') = chan_sent (cn_tcp c) ++ wire_message m →
     chan_read_buf (cn_tcp c') = chan_read_buf (cn_tcp c) → Q tt c') →
  (∀ c' ku e, updates_only ku → cn_trace c' = ku ++ cn_trace c → (∀ code id ip, e ≠ CeAuthRejected code id ip) → X e c') →
  (∀ c' ku, updates_only ku → cn_trace c' = ku ++ cn_trace c → C c') →
  wp (write_message_with_timeout writes m) Q X C c.
Proof.
  intros [_ Hm] HQ HX HC. unfold write_message_with_timeout. apply wp_bind, wp_get, wp_bind, conn_wp_ask. intros k n.
  destruct (writes k) as [rc progress]. set (w := match progress with Finished w => w | _ => _ end).
  pose proof (write_message_cases (cn_tcp c) m rc w) as Hw. destruct (write_message (cn_tcp c) m rc w) as [r tcp].
  destruct Hw as [Eb Hr]; [lia|]. apply wp_bind, wp_modify.
  destruct (count_update_log (chan_key_updater (cn_tcp c)) rc (put_channel tcp (tick_conn n c))) as (ku & Hku & Et & Etcp).
  cbn [cn_trace cn_tcp put_channel tick_conn] in Et, Etcp.
  destruct r as [ []|[frame|source]|]; [|by eapply HX| |done].
  - apply wp_modify. apply (HQ _ ku); [done|by cbn; rewrite Et|by cbn; rewrite Etcp, Hr|by cbn; rewrite Etcp].
  - destruct source; try (by eapply HX). destruct progress; [by eapply HX..|by eapply HC].
Qed.

Lemma taken_fails m input c e :
  (∀ code id ip, e ≠ CeAuthRejected code id ip) → taken m input c → failed_with e (clog (CRecv m) c) ∧ not_accepted (clog (CRecv m) c).
Proof.
  intros He (t & t' & Et & _ & _ & Hq & _). assert (not_accepted (clog (CRecv m) c)) as Hn.
  { exists (CRecv m :: t). split; [by cbn; rewrite Et|by apply quiet_cons]. }
  split; [|done]. destruct e; try done. by destruct (He code client_id assigned_ipv4).
Qed.

Lemma not_accepted_updates c c' ku : updates_only ku → cn_trace c' = ku ++ cn_trace c → not_accepted c → not_accepted c'.
Proof.
  intros Hku Et' (t & Et & Hq). exists (ku ++ t). split; [by rewrite Et', Et, app_assoc|by apply updates_quiet].
Qed.

Lemma failed_not_rejected e c : (∀ code id ip, e ≠ CeAuthRejected code id ip) → not_accepted c → failed_with e c.
Proof. intros He Hn. destruct e; try done. by destruct (He code client_id assigned_ipv4). Qed.

(** What handling a message leaves; the refusal is counted by the caller. *)
Definition answered (m : Message) (input : bytes) (c : Conn) (r : AuthResult) (c' : Conn) : Prop :=
  match r with
  | ArContinue => waiting input c' ∧ chan_read_buf (cn_tcp c') = chan_read_buf (cn_tcp c)
  | ArAccepted => m = MAuthOk [] ∧ c' = clog (CRecv m) c
  | ArDisconnected => not_accepted c'
  end.
Definition rejected (m : Message) (c : Conn) (e : ConnectError) (c' : Conn) : Prop :=
  match e with
  | CeAuthRejected code id ip =>
      id = client_id (cc_identity config) ∧ ip = assigned_ipv4 (cc_identity config) ∧
      m = MAuthFail [AuthFailCode_to_u8 code] ∧ c' = clog (CRecv m) c
  | _ => not_accepted c'
  end.

Lemma rejected_other m c e c' : (∀ code id ip, e ≠ CeAuthRejected code id ip) → not_accepted c' → rejected m c e c'.
Proof. intros He Hn. destruct e; try done. by destruct (He code client_id assigned_ipv4). Qed.

Lemma answer_ping_ok p n input c :
  taken (MPing p) input c → p = to_be 8 n →
  wp (_ ← write_message_with_timeout writes (MPong (PongPayload_encode (mkPong n) [])); mret ArContinue)
    (answered (MPing p) input c) (rejected (MPing p) c) not_accepted (clog (CRecv (MPing p)) c).
Proof.
  intros Ht Ep. destruct (taken_fails _ _ _ CeCancelled (λ _ _ _, ltac:(done)) Ht) as [_ Hn].
  destruct Ht as (t & t' & Et & Etalk & Hst & Hq & Es & Ei & Hb). apply wp_bind, write_message_with_timeout_ok.
  - by apply (short_u64 _ n).
  - intros c' ku Hku Et' Es' Eb'. apply wp_ret. split; [|done].
    assert (quiet (CSent (MPong (to_be 8 n)) :: ku ++ CRecv (MPing p) :: t)) as Hq'.
    { apply quiet_cons; [done..|]. apply updates_quiet; [done|]. by apply quiet_cons. }
    destruct (updates_talk ku (CRecv (MPing p) :: t) Hku) as (Etk & Esd & Ehd).
    exists (CSent (MPong (to_be 8 n)) :: ku ++ CRecv (MPing p) :: t), (CSent (MPong (to_be 8 n)) :: CRecv (MPing p) :: t').
    split_and!; [rewrite Et'; cbn; rewrite Et, <- app_assoc; done| |rewrite Ep; by constructor|done| |done].
    + cbn [talk List.filter]. change (List.filter _ (ku ++ _)) with (talk (ku ++ CRecv (MPing p) :: t)).
      rewrite Etk. cbn [talk List.filter]. change (List.filter _ t) with (talk t). by rewrite Etalk.
    + split.
      * change (said (CSent ?m :: ?t)) with (said t ++ [m]). rewrite Esd. change (said (CRecv _ :: t)) with (said t).
        rewrite Es'. cbn [cn_tcp clog]. by rewrite Es, wire_stream_app, wire_stream_one, <- app_assoc.
      * change (heard (CSent _ :: ?t)) with (heard t). rewrite Ehd. change (heard (CRecv ?m :: t)) with (heard t ++ [m]).
        rewrite Eb'. cbn [cn_tcp clog]. by rewrite wire_stream_app, wire_stream_one, <- app_assoc.
  - intros c' ku e Hku Et' He. apply rejected_other; [done|]. by apply (not_accepted_updates _ _ ku Hku Et').
  - intros c' ku Hku Et'. by apply (not_accepted_updates _ _ ku Hku Et').
Qed.

Lemma client_handle_auth_message_ok m input c :
  taken m input c → bytes_ok (Message_payload m) →
  wp (client_handle_auth_message writes config m) (answered m input c) (rejected m c) not_accepted c.
Proof.
  intros Ht Hm. destruct (taken_fails _ _ _ CeCancelled (λ _ _ _, ltac:(done)) Ht) as [_ Hn].
  unfold client_handle_auth_message. apply wp_bind, wp_modify, wp_bind.
  apply wp_try; [by apply validate_message_no_panic| |intros [] _; by apply rejected_other].
  intros [] [ (Hd & Hph & Htr) Hcan]%validate_message_ok; [|done]. clear Hm.
  destruct m as [p|p|p|p|p|p|p|p|p|p|p|p|p|p|p|p|p|p]; cbn [Message_ty canonical_payload] in *; try discriminate.
  - apply encodes_decodes in Hcan as ([] & Ed & _ & He). apply (inj Ok) in He as <-. apply wp_bind, wp_ret, wp_ret. done.
  - apply encodes_decodes in Hcan as ([code] & Ed & _ & He). change (AuthFailPayload_decode p = Ok (mkAuthFail code)) in Ed.
    apply wp_bind. rewrite Ed. apply wp_ret. apply (inj Ok) in He as <-. by split_and!.
  - apply encodes_decodes in Hcan as ([n] & Ed & _ & He). change (PingPayload_decode p = Ok (mkPing n)) in Ed.
    apply wp_bind. rewrite Ed. apply wp_ret. apply (inj Ok) in He. by apply answer_ping_ok.
  - apply encodes_decodes in Hcan as (a & Ed & _). change (PongPayload_decode p = Ok a) in Ed. apply wp_bind. rewrite Ed.
    apply wp_ret, wp_ret. destruct Ht as (t & t' & Et & Etalk & Hst & Hq & Es & Ei & Hb). split; [|done].
    exists (CRecv (MPong p) :: t), (CRecv (MPong p) :: t'). split_and!; [by cbn; rewrite Et|cbn; by rewrite <- Etalk|by constructor|by apply quiet_cons| |done].
    split; [done|]. change (heard (CRecv ?m :: t)) with (heard t ++ [m]). by rewrite wire_stream_app, wire_stream_one, <- app_assoc.
  - apply encodes_decodes in Hcan as (a & Ed & _). change (ClosePayload_decode p = Ok a) in Ed. apply wp_bind. rewrite Ed.
    apply wp_ret. case_bool_decide; [by apply rejected_other|by apply wp_ret].
Qed.

Lemma waiting_idle input c : waiting input c → not_accepted c.
Proof. intros (t & t' & Et & _ & _ & Hq & _). by exists t. Qed.

Lemma answer_messages_ok fuel input c :
  waiting input c → (length (chan_read_buf (cn_tcp c)) < fuel)%nat →
  wp (answer_messages writes config fuel)
    (λ ok c', if ok then accepted input c' else waiting input c') failed_with not_accepted c.
Proof.
  revert c. induction fuel as [|fuel IH]; intros c Hw Hl; [lia|]. pose proof (waiting_idle _ _ Hw) as Hn.
  cbn [answer_messages]. apply wp_bind, wp_get. unfold try_pop_message.
  pose proof Hw as (t & t' & Et & Etalk & Hst & Hq & [Es Ei] & Hb). pose proof Hb as Hb'. rewrite Ei, bytes_ok_app in Hb'.
  pose proof (pop_message_buf_cases (chan_read_buf (cn_tcp c)) auth_limits (proj2 Hb')) as Hpop.
  destruct (pop_message_buf (chan_read_buf (cn_tcp c)) auth_limits) as [r rest]. apply wp_bind, wp_modify, wp_bind.
  destruct r as [ [o|]|err|]; [| |exact Hn|done].
  2: { apply wp_ret, wp_ret. exists t, t'. subst rest. by split_and!. }
  destruct Hpop as (m & Em & _ & Er). apply wp_ret, wp_bind. rewrite Em. apply wp_ret, wp_bind, wp_result.
  match goal with |- wp _ _ _ _ ?x => set (c1 := x) end.
  assert (taken m input c1) as Ht.
  { exists t, t'. split_and!; try done. cbn [c1 cn_tcp put_channel chan_read_buf]. by rewrite <- Er. }
  rewrite Er, !bytes_ok_app in Hb'. destruct Hb' as (_ & Hbm & _). unfold wire_message in Hbm. rewrite !bytes_ok_app in Hbm.
  eapply wp_weaken; [apply (client_handle_auth_message_ok m input c1 Ht)|..]; [apply Hbm| | |by intros].
  - cbv beta. intros [] c2 Hans.
    + destruct Hans as [Hw2 Eb2]. apply IH; [done|]. rewrite Eb2. cbn. rewrite Er, length_app in Hl.
      pose proof (zlen_wire_message m). pose proof (zlen_nonneg (Message_payload m)). unfold zlen, HEADER_LEN in *. lia.
    + destruct Hans as [-> ->]. apply wp_bind, wp_modify, wp_ret. exists t, t'. split_and!; [by cbn; rewrite Et|done..|].
      split; [done|]. change (heard (CRecv ?m :: t)) with (heard t ++ [m]). rewrite wire_stream_app, wire_stream_one, <- app_assoc.
      cbn [cn_tcp clog c1 put_channel chan_read_buf]. by rewrite <- Er.
    + exact Hans.
  - cbv beta. intros e c2 Hrej. destruct e; try exact Hrej. destruct Hrej as (-> & -> & -> & ->). apply wp_bind, wp_modify.
    split_and!; [done|done|]. exists t. by split; [cbn; rewrite Et|].
Qed.

Lemma await_auth_ok reads input c :
  waiting input c → Forall read_ok reads →
  wp (await_auth writes config reads)
    (λ _ c', ∃ input', input' `prefix_of` input ++ delivered reads ∧ accepted input' c') failed_with not_accepted c.
Proof.
  revert input c. induction reads as [|read reads IH]; intros input c Hw Hr; [by apply (waiting_idle input)|].
  apply Forall_cons_1 in Hr as [Hread Hr]. pose proof (waiting_idle _ _ Hw) as Hn. cbn [await_auth]. apply wp_bind.
  destruct read as [chunk|e]; [|exact Hn]. apply wp_ret, wp_bind, wp_modify.
  destruct (zlen chunk =? 0); [exact Hn|]. apply wp_bind, wp_get, wp_bind.
  assert (delivered (inl chunk :: reads) = chunk ++ delivered reads) as Ed by done.
  destruct Hw as (t & t' & Et & Etalk & Hst & Hq & [Es Ei] & Hb).
  eapply wp_mono; [apply (answer_messages_ok _ (input ++ chunk))|].
  - exists t, t'. split_and!; try done; [|by apply bytes_ok_app]. split; [done|]. cbn [cn_tcp put_channel chan_read_buf read_more].
    by rewrite Ei, app_assoc.
  - lia.
  - cbv beta. intros [] c' Hc'.
    + apply wp_ret. exists (input ++ chunk). split; [|done]. rewrite Ed, app_assoc. by apply prefix_app_r.
    + eapply wp_mono; [by apply (IH (input ++ chunk))|]. cbv beta. intros _ c'' (input' & Hin & Hacc). exists input'.
      by rewrite Ed, app_assoc.
Qed.
End ClientExchange.

Section ClientAuthentication.
Context `{E : Ed25519} {L : Ed25519Laws E} (writes : nat → Z * TcpProgress) (config : ClientConfig).

Lemma auth_message_len challenge :
  client_types_ok config → array_ok AUTH_CHALLENGE_LEN challenge → zlen (Message_payload (auth_message config challenge)) = 118.
Proof.
  intros Ht Hc. destruct (build_auth_payload_wf config challenge Ht Hc) as ([Hl1 _] & [Hl2 _] & _ & [Hl3 _] & [Hl4 _]).
  unfold auth_message, AuthPayload_encode, zlen. cbn [Message_payload app]. rewrite !length_app.
  pose proof (zlen_to_be 2 (auth_tun_mtu (build_auth_payload config challenge))).
  unfold zlen, AUTH_CHALLENGE_LEN, AUTH_SIGNATURE_LEN in *. lia.
Qed.

Lemma auth_message_short challenge :
  client_types_ok config → array_ok AUTH_CHALLENGE_LEN challenge → short (auth_message config challenge).
Proof.
  intros Ht Hc. destruct (build_auth_payload_wf config challenge Ht Hc) as ([_ ?] & [_ ?] & _ & [_ ?] & [_ ?]).
  split; [|rewrite auth_message_len by done; lia]. unfold auth_message, AuthPayload_encode. cbn [Message_payload app].
  rewrite !bytes_ok_app. auto with slt.
Qed.

Lemma client_run_auth_flow_ok challenge reads c :
  client_types_ok config → array_ok AUTH_CHALLENGE_LEN challenge → Forall read_ok reads → chan_read_buf (cn_tcp c) = [] →
  wp (client_run_auth_flow writes config (Some challenge) reads)
    (λ _ c', ∃ input, input `prefix_of` delivered reads ∧ accepted config challenge c input c')
    (failed_with config c) (not_accepted c) c.
Proof.
  intros Ht Hc Hr Eb. unfold client_run_auth_flow. apply wp_bind, wp_ret, wp_bind, write_message_with_timeout_ok.
  - by apply auth_message_short.
  - intros c' ku Hku Et Es Eb'. destruct (updates_talk ku [] Hku) as (Etk & Esd & Ehd). rewrite !app_nil_r in *.
    eapply wp_mono; [apply (await_auth_ok writes config challenge c reads [])|by intros]; [|done].
    exists (CSent (auth_message config challenge) :: ku), []. split_and!; [done|change (talk (CSent ?m :: ku)) with (CSent m :: talk ku); by rewrite Etk|constructor| | |constructor].
    + apply quiet_cons; [done..|]. rewrite <- (app_nil_r ku). apply updates_quiet; [done|]. split; apply not_elem_of_nil.
    + split; [|by change (heard (CSent _ :: ku)) with (heard ku); rewrite Ehd, Eb', Eb].
      change (said (CSent ?m :: ku)) with (said ku ++ [m]). rewrite Esd, Es. change (said [] ++ ?l) with l. by rewrite wire_stream_one.
  - intros c' ku e Hku Et He. apply failed_not_rejected; [done|]. apply (not_accepted_updates c c c' ku); [done|done|].
    exists []. split; [done|]. split; apply not_elem_of_nil.
  - intros c' ku Hku Et. apply (not_accepted_updates c c c' ku); [done|done|]. exists []. split; [done|]. split; apply not_elem_of_nil.
Qed.

Lemma authenticate_ok stop challenge reads c :
  client_types_ok config → (∀ ch, challenge = Some ch → array_ok AUTH_CHALLENGE_LEN ch) → Forall read_ok reads →
  chan_read_buf (cn_tcp c) = [] →
  wp (authenticate writes config stop challenge reads)
    (λ _ c', ∃ ch input, challenge = Some ch ∧ input `prefix_of` delivered reads ∧ accepted config ch c input c')
    (failed_with config c) (λ c', stop = StopCancelled ∧ not_accepted c c') c.
Proof.
  intros Ht Hc Hr Eb. unfold authenticate. apply wp_bind, wp_timeout. destruct challenge as [ch|].
  - eapply wp_weaken; [apply (client_run_auth_flow_ok ch reads c); auto|..]; cbv beta.
    + intros [] c' (input & ? & ?). apply wp_ret. by exists ch, input.
    + by intros.
    + intros c' Hn. by destruct stop.
  - exists []. split; [done|]. split; apply not_elem_of_nil.
Qed.

(** C17: Authentication on the client.  Whatever the server sends in whatever
    pieces and however the writes go, the exchange ends without a panic: it
    succeeds only when the client sent its signed AUTH first, answered every
    PING since, and the last message it read is AUTH_OK, and the channel then
    holds all input behind that message; it reports a refusal only with the
    code of an AUTH_FAIL that it just read, which is counted once; every other
    end leaves both counters alone, and only the cancellation ends without a
    result. *)
Theorem client_auth_spec stop challenge reads c :
  client_types_ok config → (∀ ch, challenge = Some ch → array_ok AUTH_CHALLENGE_LEN ch) → Forall read_ok reads →
  chan_read_buf (cn_tcp c) = [] →
  match authenticate writes config stop challenge reads c with
  | (c', ORet _) => ∃ ch input, challenge = Some ch ∧ input `prefix_of` delivered reads ∧ accepted config ch c input c'
  | (c', OErr e) => failed_with config c e c'
  | (c', OCancel) => stop = StopCancelled ∧ not_accepted c c'
  | (_, OPanic) => False
  end.
Proof.
  intros Ht Hc Hr Eb. pose proof (authenticate_ok stop challenge reads c Ht Hc Hr Eb) as H. unfold wp in H.
  by destruct (authenticate _ _ _ _ _ c) as [c' [u|e| |] ].
Qed.
End ClientAuthentication.
