(* ===== verification/AddClient.v ===== *)
(** * Adding a client ([slt-cli/src/add_client.rs],
      [slt-cli/src/client_config.rs], [slt-cli/src/config_io.rs])

    The command reads the server's configuration file under a lock, appends a
    client with fresh keys, writes the file back in place, and then writes the
    configuration of the client to a file of its own, by renaming a temporary
    one; when that fails it writes the old server configuration back.

    The state is the two files and all that they held before, since the command
    may be stopped anywhere.  TOML ([toml] and [serde]) is a class with the law
    that what is printed is read back; random bytes, the certificate and the
    outcomes of file operations are answers of an environment. *)

From Stdlib Require Import Ascii String.
From stdpp Require Import base tactics option list numbers gmap sets.
From Stdlib Require Import ZArith Lia.
From S2P Require Import Prelude Effects Payloads IpPacket Config Auth.

(** ** TOML *)
Class Toml := {
  server_to_toml : ServerConfig → option bytes;
  server_from_toml : bytes → option ServerConfig;
  client_to_toml : ClientConfig → option bytes;
  client_from_toml : bytes → option ClientConfig;
}.
Class TomlLaws (T : Toml) := {
  server_read_back c t : server_to_toml c = Some t → server_from_toml t = Some c;
  client_read_back c t : client_to_toml c = Some t → client_from_toml t = Some c;
  (** a [u16] *)
  server_mtu_type t c : server_from_toml t = Some c → u16_ok (tun_mtu (sv_tun c));
}.

Section Load.
Context `{T : Toml}.

(** [from_toml_str] of both configurations. *)
Definition ServerConfig_from_toml_str (raw : bytes) : option ServerConfig :=
  config ← server_from_toml raw;
  match ServerConfig_validate config with Ok _ => Some config | _ => None end.
Definition ClientConfig_from_toml_str (raw : bytes) : option ClientConfig :=
  config ← client_from_toml raw;
  match ClientConfig_validate config with Ok _ => Some config | _ => None end.
End Load.

(** ** [Ipv4Addr::from_str] *)

(** One to three decimal digits without a leading zero, up to 255. *)
Definition parse_octet (s : bytes) : option Z :=
  let number := foldl (λ n c, 10 * n + (c - 48)) 0 s in
  if (1 <=? zlen s) && (zlen s <=? 3) && forallb (λ c, (48 <=? c) && (c <=? 57)) s &&
     ((zlen s =? 1) || negb (nth 0 s 0 =? 48)) && (number <=? 255)
  then Some number else None.

Fixpoint split_dots (s part : bytes) : list bytes :=
  match s with
  | [] => [reverse part]
  | c :: s => if c =? 46 then reverse part :: split_dots s [] else split_dots s (c :: part)
  end.

Definition parse_ipv4 (s : bytes) : option Ipv4Addr :=
  match split_dots s [] with
  | [a; b; c; d] => x ← parse_octet a; y ← parse_octet b; z ← parse_octet c; w ← parse_octet d; Some [x; y; z; w]
  | _ => None
  end.

(** ** [build_client_config] *)
Definition build_client_config (server_secret client_id privkey : bytes) (assigned_ipv4 : Ipv4Addr)
    (network : ClientNetworkConfig) (tun_config : TunConfig) : ClientConfig :=
  mkClientConfig network (mkIdentity client_id server_secret assigned_ipv4 privkey)
    (mkTunConfig (tun_name tun_config) (tun_mtu tun_config) assigned_ipv4 (tun_prefix tun_config))
    CAuto true false ClientTimingConfig_default.

(** ** The command *)
Inductive AddError :=
  | OpenFailed | ReadFailed | ParseFailed | InvalidIp | IpInUse | IpReserved | IpOutside | CertFailed | DomainFailed
  | ClientIdCollision | MkdirFailed | SerializeFailed | SaveFailed | ClientSaveFailed | RollbackFailed.

(** How far a [save] of the locked file gets: it restricts the permissions,
    seeks, truncates, writes and flushes. *)
Inductive save_plan := SaveOk | PermFails | SeekFails | TruncateFails | WriteFails (n : nat) | FlushFails.

(** The files, and what they held before, the newest first. *)
Record Files := mkFiles {
  fi_server : bytes;
  fi_client : option bytes;
  fi_past : list (bytes * option bytes);
}.

(** [ad_domain] and [ad_ip] are the arguments; the rest are answers. *)
Record AddEnv := mkAddEnv {
  ad_domain : option bytes;
  ad_ip : bytes;
  ad_open : bool;
  ad_read : bool;
  ad_cert : bool;
  ad_cert_domain : option bytes;
  ad_client_id : bytes;
  ad_key : bytes;
  ad_mkdir : bool;
  ad_save : save_plan;
  ad_client_save : bool;
  ad_restore : save_plan;
}.

Section AddClient.
Context `{E : Ed25519} `{T : Toml} (env : AddEnv).
Abbreviation M := (eff Files AddError).

Definition put_server (text : bytes) : M unit :=
  modify (λ s, mkFiles text (fi_client s) ((fi_server s, fi_client s) :: fi_past s)).
Definition put_client (text : bytes) : M unit :=
  modify (λ s, mkFiles (fi_server s) (Some text) ((fi_server s, fi_client s) :: fi_past s)).

(** [LockedServerConfigFile::save]: a write that fails leaves what it wrote. *)
Definition save (plan : save_plan) (config : ServerConfig) : M unit :=
  match server_to_toml config with
  | None => fail SerializeFailed
  | Some contents =>
      match plan with
      | PermFails | SeekFails | TruncateFails => fail SaveFailed
      | WriteFails n => _ ← put_server []; _ ← put_server (take n contents); fail SaveFailed
      | FlushFails => _ ← put_server []; _ ← put_server contents; fail SaveFailed
      | SaveOk => _ ← put_server []; put_server contents
      end
  end.

(** [save_client_config], which replaces the file as a whole or not at all. *)
Definition save_client_config (ok : bool) (config : ClientConfig) : M unit :=
  match client_to_toml config with
  | None => fail SerializeFailed
  | Some contents => if ok then put_client contents else fail ClientSaveFailed
  end.

Definition with_clients (config : ServerConfig) (clients : list ServerClient) : ServerConfig :=
  mkServerConfig (sv_server_secret config) (sv_network config) (sv_tun config) (sv_timing config) (sv_allowed_ciphers config)
    (sv_udp_nat_max_entries config) (sv_session_queue_size config) (sv_max_auth_inflight config) (sv_tcp_connection_cap config)
    clients.

Definition guard_err (b : bool) (e : AddError) : M unit := if b then mret tt else fail e.

Definition load : M ServerConfig :=
  _ ← guard_err (ad_read env) ReadFailed;
  s ← get;
  match ServerConfig_from_toml_str (fi_server s) with Some config => mret config | None => fail ParseFailed end.

(** The checks of the address. *)
Definition check_ip (config : ServerConfig) : M Ipv4Addr :=
  match parse_ipv4 (ad_ip env) with
  | None => fail InvalidIp
  | Some assigned_ipv4 =>
      _ ← guard_err (negb (existsb (λ c, bool_decide (sc_assigned_ipv4 c = assigned_ipv4)) (sv_clients config))) IpInUse;
      _ ← guard_err (negb (bool_decide (assigned_ipv4 = tun_ipv4 (sv_tun config)))) IpReserved;
      _ ← guard_err (contains_ipv4 (sv_tun config) assigned_ipv4) IpOutside;
      mret assigned_ipv4
  end.

(** The old configuration is written back. *)
Definition roll_back (config : ServerConfig) : M unit :=
  restored ← result (save (ad_restore env) config);
  match restored with
  | Ok _ => fail ClientSaveFailed
  | _ => fail RollbackFailed
  end.

(** Writing both files. *)
Definition persist (config : ServerConfig) (server_client : ServerClient) (client_config : ClientConfig) : M unit :=
  _ ← save (ad_save env) (with_clients config (sv_clients config ++ [server_client]));
  r ← result (save_client_config (ad_client_save env) client_config);
  match r with
  | Ok _ => mret tt
  | _ => roll_back config
  end.

(** The checks, and the client with its configuration. *)
Definition plan_client (config : ServerConfig) : M (ServerClient * ClientConfig) :=
  assigned_ipv4 ← check_ip config;
  _ ← guard_err (ad_cert env) CertFailed;
  domain ← (match ad_domain env with
            | Some d => mret d
            | None => match ad_cert_domain env with Some d => mret d | None => fail DomainFailed end
            end);
  let client_id := ad_client_id env in
  _ ← guard_err (negb (existsb (λ c, bool_decide (sc_client_id c = client_id)) (sv_clients config))) ClientIdCollision;
  let privkey := ad_key env in
  let client_config := build_client_config (sv_server_secret config) client_id privkey assigned_ipv4
                         (mkClientNetwork domain (listen_tcp_port (sv_network config)) None) (sv_tun config) in
  _ ← guard_err (ad_mkdir env) MkdirFailed;
  mret (mkServerClient client_id (ed_public privkey) assigned_ipv4 true, client_config).

Definition add_client : M unit :=
  _ ← guard_err (ad_open env) OpenFailed;
  config ← load;
  '(server_client, client_config) ← plan_client config;
  persist config server_client client_config.
End AddClient.

(** ** What is accepted *)

Lemma parse_octet_u8 s n : parse_octet s = Some n → u8_ok n.
Proof.
  unfold parse_octet. destruct (forallb _ s) eqn:Ef; [|by rewrite andb_false_r]. rewrite andb_true_r.
  destruct (Z.leb_spec (foldl (λ n c, 10 * n + (c - 48)) 0 s) 255) as [Hle|]; [|by rewrite andb_false_r].
  destruct (_ && _); [|done]. intros [= <-]. split; [|lia].
  assert (∀ a, 0 ≤ a → 0 ≤ foldl (λ n c, 10 * n + (c - 48)) a s) as H; [|by apply H].
  clear Hle. revert Ef. induction s as [|c s IH]; cbn; [done|]. intros [Hc Hs]%andb_true_iff a Ha.
  apply andb_true_iff in Hc as [Hc%Z.leb_le _]. apply IH; [done|lia].
Qed.

Lemma parse_ipv4_ok s ip : parse_ipv4 s = Some ip → array_ok 4 ip.
Proof.
  unfold parse_ipv4. destruct (split_dots s []) as [|a [|b [|c [|d [|] ] ] ] ]; try done.
  destruct (parse_octet a) as [x|] eqn:Ea; [|done]. destruct (parse_octet b) as [y|] eqn:Eb; [|done].
  destruct (parse_octet c) as [z|] eqn:Ec; [|done]. destruct (parse_octet d) as [w|] eqn:Ed; [|done].
  cbn. intros [= <-]. split; [done|]. repeat constructor; by eapply parse_octet_u8.
Qed.

Lemma existsb_decide {A B} `{EqDecision B} (f : A → B) (x : B) (l : list A) :
  existsb (λ a, bool_decide (f a = x)) l = false → ∀ a, a ∈ l → f a ≠ x.
Proof.
  intros H a Ha Ef. apply not_true_iff_false in H. apply H, existsb_exists. exists a. apply list_elem_of_In in Ha.
  split; [done|]. by apply bool_decide_eq_true.
Qed.

(** A configuration stays valid with a client that has a fresh identifier and
    a fresh address of the subnet. *)
Lemma with_client_valid c k :
  ServerConfig_validate c = Ok tt → client_ok (sv_tun c) k →
  (∀ x, x ∈ sv_clients c → sc_client_id x ≠ sc_client_id k) → (∀ x, x ∈ sv_clients c → sc_assigned_ipv4 x ≠ sc_assigned_ipv4 k) →
  ServerConfig_validate (with_clients c (sv_clients c ++ [k])) = Ok tt.
Proof.
  unfold ServerConfig_validate. cbn [with_clients sv_network sv_tun sv_clients sv_timing sv_allowed_ciphers sv_session_queue_size
    sv_max_auth_inflight sv_tcp_connection_cap sv_udp_nat_max_entries].
  rewrite !checked_bind, !validate_clients_ok. intros (H1 & H2 & (Hc & [Hid _] & [Hip _]) & H3) Hk Hfid Hfip.
  split_and!; try done; try (by destruct H3 as (?&?&?&?&?&?)).
  - apply Forall_app. split; [done|]. by apply Forall_singleton.
  - rewrite map_app. apply NoDup_app. split_and!; [done| |apply NoDup_singleton].
    intros x Hx Hin. cbn in Hin. apply list_elem_of_singleton in Hin as ->. apply list_elem_of_fmap in Hx as (y & E & Hy). by eapply Hfid.
  - apply Forall_true. set_solver.
  - rewrite map_app. apply NoDup_app. split_and!; [done| |apply NoDup_singleton].
    intros x Hx Hin. cbn in Hin. apply list_elem_of_singleton in Hin as ->. apply list_elem_of_fmap in Hx as (y & E & Hy). by eapply Hfip.
  - apply Forall_true. set_solver.
Qed.

Section Spec.
Context `{E : Ed25519} {EL : Ed25519Laws E} `{T : Toml} {TL : TomlLaws T} (env : AddEnv).

(** [cfg] is the configuration of a client that was added to [c], which gives
    [c']: it is usable and authenticates. *)
Record enrolled (c c' : ServerConfig) (cfg : ClientConfig) : Prop := mkEnrolled {
  en_added : ∃ k, c' = with_clients c (sv_clients c ++ [k]);
  en_valid : ServerConfig_validate c' = Ok tt;
  en_client_valid : hostname (cc_network cfg) ≠ [] → ClientConfig_validate cfg = Ok tt;
  en_accepted : ∀ challenge, array_ok AUTH_CHALLENGE_LEN challenge →
    verify_auth_payload (Authenticator_from_config c') (build_auth_payload cfg challenge) challenge =
      Ok (assigned_ipv4 (cc_identity cfg));
}.

Lemma build_enrolled c ip domain :
  array_ok 16 (ad_client_id env) → array_ok 32 (ad_key env) → array_ok 4 ip → u16_ok (tun_mtu (sv_tun c)) →
  ServerConfig_validate c = Ok tt → client_ok (sv_tun c) (mkServerClient (ad_client_id env) (ed_public (ad_key env)) ip true) →
  (∀ x, x ∈ sv_clients c → sc_client_id x ≠ ad_client_id env) → (∀ x, x ∈ sv_clients c → sc_assigned_ipv4 x ≠ ip) →
  enrolled c (with_clients c (sv_clients c ++ [mkServerClient (ad_client_id env) (ed_public (ad_key env)) ip true]))
    (build_client_config (sv_server_secret c) (ad_client_id env) (ad_key env) ip
       (mkClientNetwork domain (listen_tcp_port (sv_network c)) None) (sv_tun c)).
Proof using EL.
  intros Hid Hkey Hip Hmtu Hv Hk Hfid Hfip. pose proof (with_client_valid c _ Hv Hk Hfid Hfip) as Hv'. split; [by eexists|done| |].
  - intros Hd. revert Hv. unfold ServerConfig_validate. rewrite !checked_bind, network_validate_ok. intros (Hp & Ht & _).
    apply Forall_cons_1 in Hp as [Hp _].
    unfold ClientConfig_validate, ClientNetworkConfig_validate, build_client_config.
    cbn [cc_network hostname port cc_tun cc_identity assigned_ipv4 tun_ipv4 cc_timing cc_require_udp] in *.
    rewrite !checked_bind, !reject_if_ok, Z.eqb_neq, bool_decide_eq_false, bool_decide_eq_true_2 by done.
    by split_and!.
  - intros challenge Hc. apply build_verifies; [done| |done|].
    + by split_and!.
    + eexists. split; [apply elem_of_app; right; by left|]. by split_and!.
Qed.

(** *** Running the command *)

(** The files [server] and [client] as they were, or a server file with the
    client whose configuration the client file has. *)
Definition files_ok (server0 : bytes) (client0 : option bytes) (server : bytes) (client : option bytes) : Prop :=
  client = client0 ∨
  ∃ c c' cfg text, ServerConfig_from_toml_str server0 = Some c ∧ enrolled c c' cfg ∧
    ServerConfig_from_toml_str server = Some c' ∧ client = Some text ∧ client_from_toml text = Some cfg.

(** What a command that fails may leave of the server file. *)
Definition server_left (server0 server : bytes) : Prop :=
  server = server0 ∨
  ∃ c c' cfg, ServerConfig_from_toml_str server0 = Some c ∧ enrolled c c' cfg ∧
    (ServerConfig_from_toml_str server = Some c ∨ ServerConfig_from_toml_str server = Some c' ∨
     ∃ n text, (ad_save env = WriteFails n ∧ server_to_toml c' = Some text ∨
                ad_restore env = WriteFails n ∧ server_to_toml c = Some text) ∧ server = take n text).

Lemma load_saved c text :
  ServerConfig_validate c = Ok tt → server_to_toml c = Some text → ServerConfig_from_toml_str text = Some c.
Proof using TL. intros Hv Ht. unfold ServerConfig_from_toml_str. rewrite (server_read_back c text Ht). cbn. by rewrite Hv. Qed.

(** A save writes the whole text, or fails and leaves what was there, the whole
    text, or what was written of it; nothing of the client's file changes. *)
Definition saved (plan : save_plan) (c : ServerConfig) (s : Files) (ok : bool) (s' : Files) : Prop :=
  fi_client s' = fi_client s ∧ (∃ new, fi_past s' = new ++ fi_past s ∧ Forall (λ p, p.2 = fi_client s) new) ∧
  if ok then server_to_toml c = Some (fi_server s')
  else fi_server s' = fi_server s ∨ server_to_toml c = Some (fi_server s') ∨
       ∃ n text, plan = WriteFails n ∧ server_to_toml c = Some text ∧ fi_server s' = take n text.

Lemma wp_save plan c s : wp (save plan c) (λ _ s', saved plan c s true s') (λ _ s', saved plan c s false s') (λ _, False) s.
Proof.
  unfold save. destruct (server_to_toml c) as [text|] eqn:Et.
  2: { unfold wp. cbn. split_and!; [done| |by left]. by exists []. }
  assert (∃ new, [([], fi_client s); (fi_server s, fi_client s)] ++ fi_past s = new ++ fi_past s ∧ Forall (λ p, p.2 = fi_client s) new) as Hp.
  { eexists. split; [done|]. by repeat constructor. }
  destruct plan; unfold wp; cbn; unfold saved; cbn [fi_client fi_server fi_past]; rewrite ?Et;
    try (split_and!; [done|by exists []|by left]); (split_and!; [done|exact Hp|]); [done| |].
  - right. right. exists n, text. done.
  - by right; left.
Qed.

Lemma load_valid raw c : ServerConfig_from_toml_str raw = Some c → ServerConfig_validate c = Ok tt ∧ u16_ok (tun_mtu (sv_tun c)).
Proof using TL.
  unfold ServerConfig_from_toml_str. destruct (server_from_toml raw) as [x|] eqn:Ex; [|done]. cbn.
  destruct (ServerConfig_validate x) as [ []| |] eqn:Ev; [|done..]. intros [= <-]. split; [done|]. by eapply server_mtu_type.
Qed.

Section Persist.
Variables (server0 : bytes) (client0 : option bytes) (c : ServerConfig) (k : ServerClient) (cfg : ClientConfig).
Abbreviation c' := (with_clients c (sv_clients c ++ [k])).
Hypothesis Hload : ServerConfig_from_toml_str server0 = Some c.
Hypothesis Hen : enrolled c c' cfg.

(** So far the client's file is as it was. *)
Definition untouched (s : Files) : Prop := fi_client s = client0 ∧ Forall (λ p, p.2 = client0) (fi_past s).

Lemma saved_untouched plan x s ok s' : untouched s → saved plan x s ok s' → untouched s'.
Proof. intros [H1 H2] (E1 & (new & E2 & H3) & _). split; [congruence|]. rewrite E2, <- H1. apply Forall_app. by rewrite H1 in *. Qed.

Definition finished (s : Files) : Prop :=
  Forall (λ p, p.2 = client0) (fi_past s) ∧ ServerConfig_from_toml_str (fi_server s) = Some c' ∧
  ∃ text, fi_client s = Some text ∧ client_from_toml text = Some cfg.
Definition gave_up (s : Files) : Prop := untouched s ∧ server_left server0 (fi_server s).

Lemma left_of_save s s' plan :
  plan = ad_save env → fi_server s = server0 → saved plan c' s false s' → server_left server0 (fi_server s').
Proof using TL Hload Hen.
  intros -> E0 (_ & _ & [E1|[E1|(n & text & ? & ? & ?)] ]); [left; congruence|right|right]; exists c, c', cfg; split_and!; try done.
  - right. left. by apply load_saved; [apply Hen|].
  - right. right. exists n, text. split; [by left|done].
Qed.

Lemma left_of_restore s s' ok plan :
  plan = ad_restore env → ServerConfig_from_toml_str (fi_server s) = Some c' → saved plan c s ok s' →
  server_left server0 (fi_server s').
Proof using TL Hload Hen.
  intros -> E0 (_ & _ & H). right. exists c, c', cfg. split_and!; try done.
  destruct ok; [left; apply load_saved; [by eapply load_valid|done]|].
  destruct H as [->|[E1|(n & text & ? & ? & ?)] ]; [auto|left; apply load_saved; [by eapply load_valid|done]|].
  right. right. exists n, text. split; [by right|done].
Qed.

Lemma wp_persist s :
  untouched s → fi_server s = server0 →
  wp (persist env c k cfg) (λ _ s', finished s') (λ _ s', gave_up s') (λ _, False) s.
Proof using TL Hload Hen.
  intros Hu E0. unfold persist. apply wp_bind. eapply wp_weaken; [apply wp_save|..]; [|intros e s1 H1|done].
  2: { split; [exact (saved_untouched _ _ _ _ _ Hu H1)|by eapply left_of_save]. }
  intros [] s1 H1. pose proof (saved_untouched _ _ _ _ _ Hu H1) as Hu1. destruct H1 as (_ & _ & Ht).
  assert (ServerConfig_from_toml_str (fi_server s1) = Some c') as Hl by (by apply load_saved; [apply Hen|]).
  apply wp_bind, wp_result.
  assert (wp (roll_back env c) (λ _ s', finished s') (λ _ s', gave_up s') (λ _, False) s1) as Hback.
  { unfold roll_back. apply wp_bind, wp_result. eapply wp_weaken; [apply wp_save|..]; [intros [] s2 H2|intros e s2 H2|done];
      (split; [exact (saved_untouched _ _ _ _ _ Hu1 H2)|exact (left_of_restore s1 s2 _ _ eq_refl Hl H2)]). }
  unfold save_client_config. destruct (client_to_toml cfg) as [text|] eqn:Ec; [|exact Hback].
  destruct (ad_client_save env); [|exact Hback]. unfold put_client. apply wp_modify, wp_ret.
  split_and!; cbn [fi_past fi_server fi_client]; [|done|].
  - constructor; [apply Hu1|apply Hu1].
  - exists text. split; [done|]. by apply client_read_back.
Qed.
End Persist.

Lemma wp_guard b e (Q : unit → Files → Prop) X C s : (b = true → Q tt s) → X e s → wp (guard_err b e) Q X C s.
Proof. intros HQ HX. unfold guard_err. destruct b; [by apply HQ|done]. Qed.

(** The checks of the address, up to what they establish. *)
Lemma wp_check_ip c Q X C s :
  (∀ ip, array_ok 4 ip → (∀ x, x ∈ sv_clients c → sc_assigned_ipv4 x ≠ ip) → ip ≠ tun_ipv4 (sv_tun c) →
     contains_ipv4 (sv_tun c) ip = true → Q ip s) → (∀ e, X e s) → wp (check_ip env c) Q X C s.
Proof.
  intros HQ HX. unfold check_ip. destruct (parse_ipv4 (ad_ip env)) as [ip|] eqn:Ei; [|apply HX].
  apply wp_bind, wp_guard; [|done]. intros H1%negb_true_iff. apply wp_bind, wp_guard; [|done]. intros H2%negb_true_iff%bool_decide_eq_false.
  apply wp_bind, wp_guard; [|done]. intros H3. apply wp_ret, HQ; [by eapply parse_ipv4_ok| |done|done].
  by apply existsb_decide.
Qed.

(** A client that is planned can be enrolled, and is not known yet. *)
Lemma wp_plan_client c Q X C s :
  array_ok 16 (ad_client_id env) → array_ok 32 (ad_key env) → ServerConfig_validate c = Ok tt → u16_ok (tun_mtu (sv_tun c)) →
  (∀ k cfg, enrolled c (with_clients c (sv_clients c ++ [k])) cfg → (∀ x, x ∈ sv_clients c → sc_client_id x ≠ sc_client_id k) →
     sc_client_id k = ad_client_id env → Q (k, cfg) s) →
  (∀ e, X e s) → wp (plan_client env c) Q X C s.
Proof using EL.
  intros Hid Hkey Hv Hmtu HQ HX. unfold plan_client. apply wp_bind, wp_check_ip; [|done]. intros ip Hip Hfip Hres Hsub.
  apply wp_bind, wp_guard; [intros _|done]. apply wp_bind.
  assert (∀ domain, wp
    (_ ← guard_err (negb (existsb (λ x, bool_decide (sc_client_id x = ad_client_id env)) (sv_clients c))) ClientIdCollision;
     _ ← guard_err (ad_mkdir env) MkdirFailed;
     mret (mkServerClient (ad_client_id env) (ed_public (ad_key env)) ip true,
       build_client_config (sv_server_secret c) (ad_client_id env) (ad_key env) ip
          (mkClientNetwork domain (listen_tcp_port (sv_network c)) None) (sv_tun c))) Q X C s) as Hgo.
  { intros domain. apply wp_bind, wp_guard; [|done]. intros Hf%negb_true_iff. apply wp_bind, wp_guard; [intros _|done].
    pose proof (existsb_decide _ _ _ Hf) as Hfid. apply wp_ret, HQ; [by apply build_enrolled|done|done]. }
  destruct (ad_domain env) as [d|]; [apply wp_ret, Hgo|]. destruct (ad_cert_domain env) as [d|]; [apply wp_ret, Hgo|apply HX].
Qed.

Lemma wp_add_client server0 client0 :
  array_ok 16 (ad_client_id env) → array_ok 32 (ad_key env) →
  wp (add_client env)
    (λ _ s, Forall (λ p, p.2 = client0) (fi_past s) ∧ ∃ c c' cfg text, ServerConfig_from_toml_str server0 = Some c ∧ enrolled c c' cfg ∧
       ServerConfig_from_toml_str (fi_server s) = Some c' ∧ fi_client s = Some text ∧ client_from_toml text = Some cfg)
    (λ _ s, untouched client0 s ∧ server_left server0 (fi_server s)) (λ _, False) (mkFiles server0 client0 []).
Proof using TL EL.
  intros Hid Hkey. set (s0 := mkFiles server0 client0 []).
  assert (untouched client0 s0 ∧ server_left server0 (fi_server s0)) as H0 by (split; [done|by left]).
  unfold add_client. apply wp_bind, wp_guard; [intros _|done]. apply wp_bind. unfold load. apply wp_bind, wp_guard; [intros _|done].
  apply wp_bind, wp_get. destruct (ServerConfig_from_toml_str (fi_server s0)) as [c|] eqn:Ec; [|done]. apply wp_ret.
  destruct (load_valid _ c Ec) as [Hv Hmtu]. apply wp_bind, wp_plan_client; [done..| |done]. intros k cfg Hen _ _.
  eapply wp_weaken; [by apply (wp_persist server0 client0 c _ _ Ec Hen)|..]; [|done|done].
  intros [] s (H1 & H2 & text & H3 & H4). split; [done|]. eexists c, _, _, text. split_and!; [exact Ec|exact Hen|done..].
Qed.
End Spec.

(** ** Theorem *)

(** C29: Adding a client is safe against failures.  Wherever the command
    fails or is stopped, the client's file is as it was, or the server file is
    complete and accepted and lets exactly this client in.  If the command
    succeeds, the new client's configuration is accepted, given a host name,
    and the server authenticates it for every challenge.  If it fails, the
    client's file is as it was, and the server file is as it was, or has the
    same configuration, or that with the new client, unless a write to it
    failed half way, which leaves the part that was written. *)
Theorem add_client_safe `{E : Ed25519} {EL : Ed25519Laws E} `{T : Toml} {TL : TomlLaws T} env server0 client0 :
  array_ok 16 (ad_client_id env) → array_ok 32 (ad_key env) →
  let '(s, r) := add_client env (mkFiles server0 client0 []) in
  Forall (λ p, files_ok server0 client0 p.1 p.2) ((fi_server s, fi_client s) :: fi_past s) ∧
  match r with
  | ORet _ => ∃ c c' cfg text, ServerConfig_from_toml_str server0 = Some c ∧ enrolled c c' cfg ∧
      ServerConfig_from_toml_str (fi_server s) = Some c' ∧ fi_client s = Some text ∧ client_from_toml text = Some cfg
  | OErr _ => fi_client s = client0 ∧ server_left env server0 (fi_server s)
  | _ => False
  end.
Proof.
  intros Hid Hkey. pose proof (wp_add_client env server0 client0 Hid Hkey) as H. unfold wp in H.
  assert (∀ l, Forall (λ p : bytes * option bytes, p.2 = client0) l → Forall (λ p, files_ok server0 client0 p.1 p.2) l) as Hpast.
  { intros l Hl. eapply Forall_impl; [exact Hl|]. intros p Hp. by left. }
  destruct (add_client env _) as [s [ []|e| |] ]; try done.
  - destruct H as [Hp (c & c' & cfg & text & H1 & H2 & H3 & H4 & H5)]. split; [|by exists c, c', cfg, text].
    constructor; [right; by exists c, c', cfg, text|by apply Hpast].
  - destruct H as [ [Hc Hp] Hs]. split; [|done]. constructor; [by left|by apply Hpast].
Qed.

(** ** Witness: a format with two texts *)
Module AddDemo.
Import ToyEd25519.

Definition id2 : bytes := replicate 16 8.
Definition key2 : bytes := replicate 32 4.
Definition server2 : ServerConfig := with_clients server [mkServerClient id key ip true; mkServerClient id2 key2 [10; 10; 0; 3] true].
Definition client2 : ClientConfig :=
  build_client_config [] id2 key2 [10; 10; 0; 3] (mkClientNetwork [118] 443 None) (sv_tun server).

#[export] Instance : EqDecision TunConfig. Proof. solve_decision. Defined.
#[export] Instance : EqDecision ServerNetworkConfig. Proof. solve_decision. Defined.
#[export] Instance : EqDecision ServerTimingConfig. Proof. solve_decision. Defined.
#[export] Instance : EqDecision ServerUdpQspCipher. Proof. solve_decision. Defined.
#[export] Instance : EqDecision ServerClient. Proof. solve_decision. Defined.
#[export] Instance : EqDecision ServerConfig. Proof. solve_decision. Defined.
#[export] Instance : EqDecision ClientNetworkConfig. Proof. solve_decision. Defined.
#[export] Instance : EqDecision ClientIdentity. Proof. solve_decision. Defined.
#[export] Instance : EqDecision ClientTimingConfig. Proof. solve_decision. Defined.
#[export] Instance : EqDecision ClientConfig. Proof. solve_decision. Defined.

(** Only these configurations have a text. *)
#[export] Instance numbered : Toml := {|
  server_to_toml c := if decide (c = server) then Some [1] else if decide (c = server2) then Some [2] else None;
  server_from_toml t := if decide (t = [1]) then Some server else if decide (t = [2]) then Some server2 else None;
  client_to_toml c := if decide (c = client2) then Some [3] else None;
  client_from_toml t := if decide (t = [3]) then Some client2 else None;
|}.
#[export] Instance numbered_laws : TomlLaws numbered.
Proof.
  split; cbn.
  - intros c t. case_decide as H1; [intros [= <-]; by rewrite H1|]. case_decide as H2; [intros [= <-]; by rewrite H2|done].
  - intros c t. case_decide as H1; [intros [= <-]; by rewrite H1|done].
  - intros t c. case_decide; [intros [= <-]; decided|]. case_decide; [intros [= <-]; decided|done].
Qed.

(** The file of the client cannot be written, and then neither that of the
    server. *)
Definition failing : AddEnv :=
  mkAddEnv (Some [118]) (bytes_of_string "10.10.0.3"%string) true true true None id2 key2 true SaveOk false (WriteFails 0).
Definition working : AddEnv :=
  mkAddEnv (Some [118]) (bytes_of_string "10.10.0.3"%string) true true true None id2 key2 true SaveOk true SaveOk.
End AddDemo.

Section AddWitness.
Import ToyEd25519 AddDemo.

Lemma add_client_safe_witness :
  ((add_client working (mkFiles [1] None [])).1 = mkFiles [2] (Some [3]) [([2], None); ([], None); ([1], None)] ∧
   files_ok [1] None [2] (Some [3])) ∧
  ((add_client failing (mkFiles [1] None [])).1 = mkFiles [] None [([], None); ([2], None); ([], None); ([1], None)] ∧
   server_left failing [1] []).
Proof.
  split.
  - pose proof (add_client_safe working [1] None ltac:(decided) ltac:(decided)) as H.
    assert (add_client working (mkFiles [1] None []) =
      (mkFiles [2] (Some [3]) [([2], None); ([], None); ([1], None)], ORet tt)) as E by (vm_compute; reflexivity).
    rewrite E in H |- *. destruct H as [H _]. exact (conj eq_refl (Forall_inv H)).
  - pose proof (add_client_safe failing [1] None ltac:(decided) ltac:(decided)) as H.
    assert (add_client failing (mkFiles [1] None []) =
      (mkFiles [] None [([], None); ([2], None); ([], None); ([1], None)], OErr RollbackFailed)) as E by (vm_compute; reflexivity).
    rewrite E in H |- *. destruct H as (_ & _ & H). exact (conj eq_refl H).
Defined.
End AddWitness.
