(* ===== verification/AuthExchange.v ===== *)
(** * The authentication exchange between client and server

    Both sides of [ServerAuth] and [ClientAuth] over one TLS connection: the
    challenge is what both export from it, and each side reads the bytes that
    the other wrote, cut into pieces in any way. *)

From stdpp Require Import base tactics option list numbers gmap.
From Stdlib Require Import ZArith Lia.
From S2P Require Import Prelude Effects Framing TcpChannel Payloads Admissibility Config Registry SessionManager Auth ServerAuth ClientAuth.

(** Where a message ends in a stream that begins with it. *)
Lemma stream_cut (m : Message) (buf rest later : bytes) :
  buf ++ rest = wire_message m ++ later →
  (∃ q, wire_message m = buf ++ q ∧ q ≠ [] ∧ rest = q ++ later) ∨
  (∃ extra, buf = wire_message m ++ extra ∧ later = extra ++ rest).
Proof.
  intros H. apply app_eq_app in H as (k & [ [E1 E2]|[E1 E2] ]).
  - right. by exists k.
  - destruct k as [|x k]; [|left; by exists (x :: k)]. right. exists []. rewrite app_nil_r in *. by subst.
Qed.

Lemma app_prefix {A} (k l : list A) : k `prefix_of` k ++ l.
Proof. by exists l. Qed.

(** ** The server *)
Section Server.
Context `{E : Ed25519} (env : AuthEnv) (authenticator : Authenticator) (limits : MessageLimits) (session_queue_size : Z).
Context (challenge p : bytes) (payload : AuthPayload) (ip : bytes).
(** Writes succeed and the server takes new sessions. *)
Context (Hwrites : ∀ k, ae_tcp env k = (1, Finished WroteAll)).
Context (Haccepting : ∀ k shared, accepting_sessions (ae_others env k shared).1 = true).
Context (Hqueue : session_queue_size ≠ 0).
(** The AUTH message of the client verifies. *)
Context (Hp : bytes_ok p) (Hfits : message_fits limits (MAuth p)) (Hwf : pc_wf payload) (Hpayload : pc_encode payload [] = Ok p).
Context (Hverify : verify_auth_payload authenticator payload challenge = Ok ip).

Lemma send_message_done m s tcp (Q : unit → AuthState → Prop) X C :
  au_tcp s = Some tcp → zlen (Message_payload m) ≤ 4294967295 →
  (∀ c n, chan_sent c = chan_sent tcp ++ wire_message m → chan_read_buf c = chan_read_buf tcp →
     Q tt (hlog (HSent m) (put_tcp (Some c) (put_tick n s)))) →
  wp (send_message env m) Q X C s.
Proof.
  intros Et Hm HQ. unfold send_message, as_tcp_channel. apply wp_bind, wp_bind, wp_get. rewrite Et.
  apply wp_ret, wp_bind, wp_ask_tick. intros k n. rewrite Hwrites.
  destruct (write_message_ok tcp m Hm) as (c & -> & Es & Eb). apply wp_bind, wp_modify, wp_modify. by apply HQ.
Qed.

(** The session that takes over the channel. *)
Definition admitted (sent_before later : bytes) (s0 s : AuthState) : Prop :=
  ∃ sid tcp, au_trace s = HSession (auth_client_id payload) ip sid tcp :: HSent (MAuthOk []) :: HRecv (MAuth p) :: au_trace s0 ∧
    chan_sent tcp = sent_before ++ wire_message (MAuthOk []) ∧ chan_read_buf tcp `prefix_of` later ∧
    au_permits s = au_permits s0.

Lemma create_session_done s tcp (Q : unit → AuthState → Prop) X C id :
  au_tcp s = Some tcp →
  (∀ s' sid, au_trace s' = HSession id ip sid tcp :: au_trace s → au_permits s' = au_permits s → Q tt s') →
  wp (create_session_for env session_queue_size id ip) Q X C s.
Proof.
  intros Et HQ. unfold create_session_for. apply wp_bind, wp_ask_tick. intros k n. apply wp_bind, wp_ask_tick. intros k' n'.
  apply wp_bind, wp_get. cbn [au_state au_registry au_tcp put_tick]. rewrite Et, bool_decide_true by done.
  pose proof (Haccepting k (au_state s, au_registry s)) as Hacc. destruct (ae_others env k _) as [st r]. cbn [fst] in Hacc.
  unfold create_session, ensure_queue_size, spawn_session_with_channel. rewrite Hacc.
  destruct (Z.eqb_spec session_queue_size 0); [done|]. cbn [negb].
  destruct (register_session _ _ _ _) as [r' handle]. destruct (replace_session _ _ _) as [st' replaced].
  apply wp_bind, wp_modify, wp_bind, wp_modify, wp_modify. by eapply HQ.
Qed.

Lemma handle_auth_done s tcp X C :
  au_tcp s = Some tcp →
  wp (handle_auth_message env authenticator session_queue_size (MAuth p) challenge)
    (λ step s', step = AuthDone Authenticated ∧ admitted (chan_sent tcp) (chan_read_buf tcp) s s') X C s.
Proof.
  intros Et. unfold handle_auth_message. apply wp_bind, wp_modify, wp_bind.
  assert (validate_message (MAuth p) (mkContext SClient Authentication Tcp) = Ok tt) as ->.
  { apply validate_message_ok; [done|]. split; [done|]. by exists payload. }
  apply wp_ret. unfold handle_auth. apply wp_bind. pose proof (pc_roundtrip payload p Hwf Hpayload) as Hd.
  change (AuthPayload_decode p = Ok payload) in Hd. rewrite Hd. apply wp_ret. rewrite Hverify. apply wp_bind.
  eapply send_message_done; [exact Et|done|]. intros c n Es Eb. apply wp_bind. eapply create_session_done; [done|].
  intros s' sid Ht Hpm. apply wp_ret. split; [done|]. exists sid, c. split_and!; [done|done|by rewrite Eb|done].
Qed.

Lemma auth_messages_done fuel s tcp extra X C :
  au_tcp s = Some tcp → chan_read_buf tcp = wire_message (MAuth p) ++ extra →
  wp (auth_messages env authenticator limits session_queue_size (S fuel) challenge)
    (λ r s', r = Some Authenticated ∧ admitted (chan_sent tcp) extra s s') X C s.
Proof.
  intros Et Eb. cbn [auth_messages]. unfold as_tcp_channel. apply wp_bind, wp_bind, wp_get. rewrite Et. apply wp_ret.
  unfold try_pop_message. rewrite Eb, pop_wire by done. apply wp_bind, wp_modify, wp_bind.
  rewrite (owned_wire (MAuth p)). apply wp_ret, wp_bind, wp_result.
  eapply wp_weaken; [eapply (handle_auth_done _ _ (λ _ _, False) (λ _, False)); reflexivity|..]; [|by intros..].
  cbv beta. intros step s' [-> Ha]. by apply wp_ret.
Qed.

Lemma run_auth_loop_done chunks s tcp later X C :
  au_tcp s = Some tcp → Forall (λ c, c ≠ []) chunks → chan_read_buf tcp ++ concat chunks = wire_message (MAuth p) ++ later →
  (∃ q, wire_message (MAuth p) = chan_read_buf tcp ++ q ∧ q ≠ []) →
  wp (run_auth_loop env authenticator limits session_queue_size challenge (map inl chunks))
    (λ outcome s', outcome = Authenticated ∧ admitted (chan_sent tcp) later s s') X C s.
Proof.
  revert s tcp. induction chunks as [|chunk chunks IH]; intros s tcp Et Hne Heq (q & Eq & Hq).
  { cbn [concat] in Heq. rewrite app_nil_r, Eq, <- app_assoc in Heq. apply (f_equal length) in Heq. rewrite !length_app in Heq.
    destruct q; [done|]. cbn in Heq. lia. }
  apply Forall_cons_1 in Hne as [Hc Hne]. cbn [map run_auth_loop]. unfold as_tcp_channel.
  apply wp_bind, wp_bind, wp_get. rewrite Et. apply wp_ret, wp_bind, wp_ret, wp_bind, wp_modify.
  assert ((zlen chunk =? 0) = false) as ->. { apply Z.eqb_neq. unfold zlen. destruct chunk; [done|]. cbn. lia. }
  cbn [concat] in Heq. rewrite app_assoc in Heq. apply wp_bind.
  destruct (stream_cut _ _ _ _ Heq) as [(q' & Eq' & Hq' & Er)|(extra & Ebuf & El)].
  - cbn [auth_messages]. unfold as_tcp_channel. apply wp_bind, wp_bind, wp_get, wp_ret. unfold try_pop_message. cbn [chan_read_buf read_more].
    rewrite (pop_strict_prefix (MAuth p) _ q') by done. apply wp_bind, wp_modify, wp_ret.
    eapply wp_mono; [apply (IH _ (mkChannel (chan_sent tcp) (chan_key_updater tcp) (chan_read_buf tcp ++ chunk) (chan_write_buf tcp)));
      [done|done|exact Heq|by exists q']|].
    intros outcome s' [-> Ha]. split; [done|]. exact Ha.
  - eapply wp_mono; [eapply auth_messages_done; [reflexivity|exact Ebuf]|]. cbv beta. intros r s' (-> & sid & tcp' & Ht & Es & Hpre & Hpm).
    apply wp_ret. split; [done|]. exists sid, tcp'. split_and!; [done|done| |done]. rewrite El. by apply prefix_app_r.
Qed.
End Server.

(** ** The client *)
Section Client.
Context `{E : Ed25519} (writes : nat → Z * TcpProgress) (config : ClientConfig).
Context (Hwrites : ∀ k, writes k = (1, Finished WroteAll)).

Definition ok_frame : Message := MAuthOk [].

Lemma ok_fits : message_fits auth_limits ok_frame.
Proof. decided. Qed.

Lemma answer_messages_done fuel c extra X C :
  chan_read_buf (cn_tcp c) = wire_message ok_frame ++ extra →
  wp (answer_messages writes config (S fuel))
    (λ ok c', ok = true ∧ chan_sent (cn_tcp c') = chan_sent (cn_tcp c) ∧ chan_read_buf (cn_tcp c') = extra) X C c.
Proof.
  intros Eb. cbn [answer_messages]. apply wp_bind, wp_get. unfold try_pop_message. rewrite Eb, pop_wire by apply ok_fits.
  apply wp_bind, wp_modify, wp_bind, wp_ret, wp_bind. rewrite owned_wire. apply wp_ret, wp_bind, wp_result.
  apply wp_bind, wp_modify, wp_bind, wp_ret, wp_bind, wp_ret, wp_ret, wp_bind, wp_modify, wp_ret. done.
Qed.

Lemma await_auth_done chunks c later X C :
  Forall (λ c, c ≠ []) chunks → chan_read_buf (cn_tcp c) ++ concat chunks = wire_message ok_frame ++ later →
  (∃ q, wire_message ok_frame = chan_read_buf (cn_tcp c) ++ q ∧ q ≠ []) →
  wp (await_auth writes config (map inl chunks))
    (λ _ c', chan_sent (cn_tcp c') = chan_sent (cn_tcp c) ∧ chan_read_buf (cn_tcp c') `prefix_of` later) X C c.
Proof.
  revert c. induction chunks as [|chunk chunks IH]; intros c Hne Heq (q & Eq & Hq).
  { cbn [concat] in Heq. rewrite app_nil_r, Eq, <- app_assoc in Heq. apply (f_equal length) in Heq. rewrite !length_app in Heq.
    destruct q; [done|]. cbn in Heq. lia. }
  apply Forall_cons_1 in Hne as [Hc Hne]. cbn [map await_auth]. apply wp_bind, wp_ret, wp_bind, wp_modify.
  assert ((zlen chunk =? 0) = false) as ->. { apply Z.eqb_neq. unfold zlen. destruct chunk; [done|]. cbn. lia. }
  cbn [concat] in Heq. rewrite app_assoc in Heq. apply wp_bind, wp_get, wp_bind.
  destruct (stream_cut _ _ _ _ Heq) as [(q' & Eq' & Hq' & Er)|(extra & Ebuf & El)].
  - cbn [answer_messages]. apply wp_bind, wp_get. unfold try_pop_message. cbn [chan_read_buf read_more cn_tcp put_channel].
    rewrite (pop_strict_prefix ok_frame _ q') by (done || apply ok_fits). apply wp_bind, wp_modify, wp_bind, wp_ret, wp_ret.
    eapply wp_mono; [apply IH; [done|exact Heq|by exists q']|]. by intros.
  - eapply wp_mono; [apply answer_messages_done; exact Ebuf|]. cbv beta. intros ok c' (-> & Es & Eb). apply wp_ret.
    split; [done|]. rewrite Eb, El. by apply prefix_app_r.
Qed.

Lemma write_done m c (Q : unit → Conn → Prop) X C :
  zlen (Message_payload m) ≤ 4294967295 →
  (∀ c', chan_sent (cn_tcp c') = chan_sent (cn_tcp c) ++ wire_message m →
     chan_read_buf (cn_tcp c') = chan_read_buf (cn_tcp c) → Q tt c') →
  wp (write_message_with_timeout writes m) Q X C c.
Proof.
  intros Hm HQ. unfold write_message_with_timeout. apply wp_bind, wp_get, wp_bind, conn_wp_ask. intros k n. rewrite Hwrites.
  destruct (write_message_ok (cn_tcp c) m Hm) as (tcp & -> & Es & Eb). apply wp_bind, wp_modify, wp_modify.
  destruct (count_update_log (chan_key_updater (cn_tcp c)) 1 (put_channel tcp (tick_conn n c))) as (ku & _ & _ & Etcp).
  apply HQ; cbn; by rewrite Etcp.
Qed.
End Client.

Lemma wire_message_cut m : ∃ q, wire_message m = [] ++ q ∧ q ≠ [].
Proof. exists (wire_message m). done. Qed.

(** ** Together *)
Section Exchange.
Context `{E : Ed25519} {L : Ed25519Laws E} (env : AuthEnv) (writes : nat → Z * TcpProgress).
Context (server : ServerConfig) (client : ClientConfig) (session_queue_size : Z).

Lemma server_admits updater s challenge chunks later :
  ServerConfig_validate server = Ok tt → client_types_ok client → array_ok AUTH_CHALLENGE_LEN challenge → knows server client →
  (∀ k, ae_tcp env k = (1, Finished WroteAll)) → (∀ k shared, accepting_sessions (ae_others env k shared).1 = true) →
  session_queue_size ≠ 0 → Forall (λ c, c ≠ []) chunks →
  concat chunks = wire_message (auth_message client challenge) ++ later →
  wp (handle_stream env (Authenticator_from_config server) (MessageLimits_from_mtu (tun_mtu (sv_tun server))) session_queue_size
        updater HandshakeDone (Some challenge) (map inl chunks))
    (λ outcome s', outcome = Authenticated ∧
       admitted (AuthPayload_encode (build_auth_payload client challenge) []) (build_auth_payload client challenge)
         (assigned_ipv4 (cc_identity client)) [] later s s') (λ _ _, False) (λ _, False) s.
Proof.
  intros Hv Ht Hc Hk Hw Hacc Hq Hne Heq.
  pose proof (build_auth_payload_wf client challenge Ht Hc) as Hwf.
  destruct (auth_message_short client challenge Ht Hc) as [Hb _].
  pose proof (build_verifies server client challenge Hv Ht Hc Hk) as Hver.
  assert (message_fits (MessageLimits_from_mtu (tun_mtu (sv_tun server))) (auth_message client challenge)) as Hfits.
  { unfold message_fits. rewrite auth_message_len by done. unfold MessageLimits_from_mtu. cbn [max_frame_len].
    assert (MAX_CONTROL_FRAME_LEN = 124) by done. split_and!; [lia|lia|done]. }
  apply wp_bind, wp_modify. unfold run_auth_flow, as_tcp_channel. apply wp_bind, wp_bind, wp_get, wp_ret, wp_bind, wp_timeout.
  eapply wp_weaken; [eapply (run_auth_loop_done env _ _ session_queue_size challenge
    (AuthPayload_encode (build_auth_payload client challenge) []) (build_auth_payload client challenge)
    (assigned_ipv4 (cc_identity client)) Hw Hacc Hq Hb Hfits Hwf eq_refl Hver chunks _ _ later (λ _ _, False) (λ _, False));
    [reflexivity|done|exact Heq|apply wire_message_cut]|..]; [|by intros..].
  cbv beta. intros outcome s' [-> Ha]. by apply wp_ret.
Qed.

Lemma client_accepts c stop challenge chunks later :
  client_types_ok client → array_ok AUTH_CHALLENGE_LEN challenge → (∀ k, writes k = (1, Finished WroteAll)) →
  chan_read_buf (cn_tcp c) = [] → Forall (λ c, c ≠ []) chunks → concat chunks = wire_message ok_frame ++ later →
  wp (authenticate writes client stop (Some challenge) (map inl chunks))
    (λ _ c', chan_sent (cn_tcp c') = chan_sent (cn_tcp c) ++ wire_message (auth_message client challenge) ∧
       chan_read_buf (cn_tcp c') `prefix_of` later) (λ _ _, False) (λ _, False) c.
Proof.
  intros Ht Hc Hw Eb Hne Heq. apply wp_bind, wp_timeout. unfold client_run_auth_flow. apply wp_bind, wp_ret, wp_bind.
  apply write_done; [done|pose proof (auth_message_len client challenge Ht Hc) as Hl; unfold auth_message in Hl; lia|]. intros c1 Es1 Eb1. rewrite Eb in Eb1.
  eapply wp_weaken; [apply (await_auth_done writes client chunks c1 later (λ _ _, False) (λ _, False));
    [done|by rewrite Eb1|rewrite Eb1; apply wire_message_cut]|..]; [|by intros..].
  cbv beta. intros [] c' [Es Ep]. apply wp_ret. by rewrite Es, Es1.
Qed.

End Exchange.

(** ** Witnesses *)
Module AuthDemo.
Import ToyEd25519.

Definition env : AuthEnv := mkAuthEnv (λ _, (1, Finished WroteAll)) (λ _ shared, shared) (λ _, 5).
Definition quiet_env : AuthEnv := mkAuthEnv (λ _, (1, Finished WroteAll)) (λ _ _, (SessionManagerState_new, SessionRegistry_new)) (λ _, 5).
Definition start : AuthState := mkAuthState None SessionManagerState_new SessionRegistry_new 1 0 [].
Definition stream : bytes := wire_message (MPing (to_be 8 3)) ++ wire_message (auth_message client challenge) ++ [1; 2].
Definition cut : list (io_result bytes) := [inl (take 9 stream); inl (drop 9 stream)].
Definition conn : Conn := mkConn (TcpChannel_with_state (IntervalKeyUpdater_new 1) []) 0 [].
Definition chunks : list bytes :=
  let w := wire_message (auth_message client challenge) in [take 7 w; drop 7 w ++ [1; 2]].
Definition limits : MessageLimits := MessageLimits_from_mtu 1186.

(** A PING first, in the middle of a read, then AUTH. *)
Lemma demo_authenticates :
  handle env (Authenticator_from_config server) limits 8 (IntervalKeyUpdater_new 1) HandshakeDone (Some challenge) cut start =
  (fst (handle env (Authenticator_from_config server) limits 8 (IntervalKeyUpdater_new 1) HandshakeDone (Some challenge) cut start),
   ORet (Ok tt)).
Proof. vm_compute. reflexivity. Qed.
End AuthDemo.

Section AuthWitnesses.
Import ToyEd25519.

Lemma server_auth_spec_witness :
  ∃ t, au_trace (fst (handle AuthDemo.env (Authenticator_from_config ToyEd25519.server) AuthDemo.limits 8 (IntervalKeyUpdater_new 1)
    HandshakeDone (Some ToyEd25519.challenge) AuthDemo.cut AuthDemo.start)) = t ++ [] ∧ head t = Some HAuthSuccess.
Proof.
  destruct (server_auth_spec AuthDemo.env (Authenticator_from_config ToyEd25519.server) AuthDemo.limits 8 (IntervalKeyUpdater_new 1)
    HandshakeDone (Some ToyEd25519.challenge) AuthDemo.cut AuthDemo.start) as (s' & r & t & E & _ & Ht & _); [repeat constructor; decided|].
  apply (f_equal fst) in E. cbn [fst] in E. exists t. rewrite E. split; [exact Ht|].
  rewrite <- (app_nil_r t). change [] with (au_trace AuthDemo.start). rewrite <- Ht, <- E. vm_compute. reflexivity.
Defined.

Lemma client_auth_spec_witness :
  match authenticate (λ _, (1, Finished WroteAll)) ToyEd25519.client StopDeadline (Some ToyEd25519.challenge)
    [inl (wire_message (MAuthFail [1]))] AuthDemo.conn with
  | (c', OErr e) => failed_with ToyEd25519.client AuthDemo.conn e c'
  | _ => False
  end.
Proof.
  pose proof (client_auth_spec (λ _, (1, Finished WroteAll)) ToyEd25519.client StopDeadline (Some ToyEd25519.challenge)
    [inl (wire_message (MAuthFail [1]))] AuthDemo.conn) as H.
  destruct (authenticate _ _ _ _ _ _) as [c' o] eqn:E.
  assert (o = OErr (CeAuthRejected AFUnknownClient ToyEd25519.id ToyEd25519.ip)) as ->.
  { apply (f_equal snd) in E. vm_compute in E. by rewrite <- E. }
  apply H; [decided| |repeat constructor; decided|reflexivity]. intros ch [= <-]. decided.
Defined.

End AuthWitnesses.
