(* ===== verification/ClientState.v ===== *)
(** * The state of a client session ([slt-client/src/runtime/session/],
    [slt-client/src/transport/udp_qsp.rs])

    The data of a session: errors, exits, events, the state machines of the
    UDP path and of the upgrade, the UDP transport.  The handlers are in
    [ClientSession], written in the monad of [Effects].

    As for the server, an [Env] answers the questions of the session one after
    the other: clock, random generators, TLS stream, UDP socket, the queue of
    the TUN writer, new sockets, and what arrives while a path is refreshed.
    Durations and instants are nanoseconds. *)

From stdpp Require Import base tactics option list numbers.
From Stdlib Require Import ZArith Lia.
From S2P Require Import Prelude Effects Cid Framing TcpChannel Payloads Admissibility PacketHeader Keys QspSession UdpIo Config Backoff.

(** ** transport/udp_qsp.rs: errors *)
Inductive UdpQspError :=
  | UIo (e : IoError)
  | USendIo (source : IoError)
  | UQsp (e : QspSessionError)
  | UFrame (e : FrameError)
  | UMessage (e : MessageError)
  | IncompleteMessage.

Definition transient (e : IoError) : bool :=
  match e with WouldBlock | TimedOut | ConnectionRefused | ConnectionReset => true | _ => false end.

Definition is_recoverable (e : UdpQspError) : bool :=
  match e with
  | USendIo _ => false
  | UIo source | UQsp (QIo source) => transient source
  | UQsp (QCrypto _) => true
  | UQsp QReplay => true
  | UQsp QTooOld => true
  | UQsp PacketNumberOverflow => false
  | UFrame _ | UMessage _ | IncompleteMessage => false
  end.

(** ** error.rs *)
Inductive SessionError :=
  | ProtocolViolation
  | SPermissionDenied (source : IoError)
  | SUdpUpgradeRequired
  | Connection (source : IoError)
  | SIo (e : IoError)
  | SUdpQsp (e : UdpQspError)
  | SCrypto
  | SUdpQspKeys (e : QspCryptoError)
  | SFrame (e : FrameError)
  | SMessage (e : MessageError)
  | SPayload (e : PayloadError).

Definition SessionError_from_tcp_write (err : TcpWriteError) : SessionError :=
  match err with TWFrame frame => SFrame frame | TWIo io => SIo io end.

Definition SessionError_from_validation (err : MessageValidationError) : SessionError :=
  match err with
  | InvalidPayload _ source => SPayload source
  | InvalidDirection _ _ | InvalidPhase _ _ | InvalidTransport _ _ => ProtocolViolation
  end.

Definition SessionError_from_udp (err : UdpQspError) : SessionError :=
  match err with
  | UFrame source => SFrame source
  | UMessage source => SMessage source
  | IncompleteMessage => ProtocolViolation
  | transport => SUdpQsp transport
  end.

(** ** event.rs *)
Inductive TunTask := Reader | Writer.

Inductive SessionExit :=
  | Shutdown
  | TcpClosed
  | TunClosed (task : TunTask)
  | TunFault
  | IdleTimeout
  | RemoteClose (code : CloseCode)
  | ProtocolError
  | ExitPermissionDenied
  | ConnectionError
  | NetworkChanged
  | UdpUpgradeRequired.

Definition SessionError_exit (e : SessionError) : SessionExit :=
  match e with
  | ProtocolViolation | SFrame _ | SMessage _ | SPayload _ | SCrypto | SUdpQspKeys _ => ProtocolError
  | SPermissionDenied _ => ExitPermissionDenied
  | SUdpUpgradeRequired => UdpUpgradeRequired
  | Connection PermissionDenied | SIo PermissionDenied => ExitPermissionDenied
  | Connection _ | SIo _ | SUdpQsp _ => ConnectionError
  end.

Definition is_udp_qsp_recoverable (e : SessionError) : bool :=
  match e with SUdpQsp err => is_recoverable err | _ => false end.

Definition is_udp_path_transport_error (e : SessionError) : bool :=
  match e with SUdpQsp _ | SIo _ => true | _ => false end.

Inductive ClientCommand := CmdNetworkChanged | CmdStop.

(** The socket of the discovery is used through the backend made for it. *)
Record QuicIds := mkQuicIds { ids_dcid : Cid; ids_scid : Cid; ids_peer : SocketAddr }.

Inductive SessionEvent :=
  | EShutdown
  | ETcpRead (n : Z)
  | ETunPacket (packet : option bytes)
  | EUdpResult (r : res UdpQspError OwnedMessageBuf)
  | EUdpFlushReady
  | EPingTick
  | EIdleTimeout
  | EUdpLivenessTimeout
  | EUdpReconnectTick
  | ERegisterTimeout
  | EDiscoveryResult (ids : option QuicIds)
  | EUdpUpgradeTick
  | EControl (command : ClientCommand).

Inductive SessionControl := Continue | Close (exit : SessionExit).

(** ** state.rs *)
Inductive ActiveTransport := ActiveTcp | ActiveUdpQsp.

#[global] Instance ActiveTransport_eq_dec : EqDecision ActiveTransport.
Proof. solve_decision. Defined.

Inductive UdpUpgradeState :=
  | UpgradeDisabled
  | UpgradeIdle
  | Upgrading (upgrade_id deadline attempts next_probe_at probe_nonce : Z) (probe_acked ready_sent : bool)
      (probe_backoff : ReconnectBackoff)
  | AwaitingSwitchOk (upgrade_id deadline : Z)
  | TcpOnlyBlockedUdp (retry_at : Z).

Definition UdpUpgradeState_timer_at (u : UdpUpgradeState) : option Z :=
  match u with
  | UpgradeDisabled | UpgradeIdle => None
  | Upgrading _ deadline _ next_probe_at _ probe_acked _ _ =>
      Some (if probe_acked then deadline else Z.min next_probe_at deadline)
  | AwaitingSwitchOk _ deadline => Some deadline
  | TcpOnlyBlockedUdp retry_at => Some retry_at
  end.

(** ** What the session reports: counters and observer events *)
Inductive Metric :=
  | MTransportTcpToUdp | MTransportUdpToTcp | MTransportUdpToTcpServer
  | MDisconnectShutdown | MDisconnectClose | MDisconnectIdleTimeout | MDisconnectError
  | MTlsKeyUpdate | MTunPacketsDroppedOversized | MUdpRegisterFailure | MUdpDiscoveryFailure
  | MTxKeyPhaseTransition | MRxKeyPhaseTransition
  | MDecryptFailReplay | MDecryptFailTooOld | MDecryptFailCrypto | MDecryptFailOther.

Inductive TransportChangeReason := UdpLivenessTimeout | UdpErrorReason | ServerInitiated | UpgradeCommitted.

Inductive ClientEventKind :=
  | UdpDiscoveryStarted | UdpDiscoveryFailed | UdpRegisterStarted | UdpRegistered | UdpRegisterFailed
  | UdpUpgradeStarted (upgrade_id : Z) | UdpPathValidated (upgrade_id : Z) | UdpSwitchCommitted (upgrade_id : Z)
  | TransportChanged (from to : ActiveTransport) (reason : TransportChangeReason)
  | UdpPathRefreshStarted | UdpPathRefreshSucceeded | UdpPathRefreshFailed | NetworkChangedEvent.

(** What a session takes in and gives out, for the theorems; nothing in the
    program reads it. *)
Inductive action :=
  | ACount (m : Metric)
  | AEmit (e : ClientEventKind)
  | ATcpRecv (m : Message)
  | AUdpRecv (m : Message)
  | ATcpSent (m : Message)
  | AUdpSent (m : Message)
  | ATun (buf : OwnedMessageBuf)
  | ARegistered
  | ASwitched (t : ActiveTransport).

(** ** The environment *)

(** What the socket delivers until the session looks again: batches of
    datagrams, then possibly an error. *)
Record UdpInput := mkUdpInput { in_batches : list (list (RecvMeta * bytes)); in_error : option IoError }.

(** Queueing for the TUN writer: queued, the queue is closed, the shutdown
    came first, or the future was dropped. *)
Inductive TunAnswer := TunQueued | TunQueueClosed | TunCancelled | TunPending.

(** How the wait of a path refresh ends when nothing matched. *)
Inductive RefreshEnd := RefreshTimedOut | RefreshCancelled | RefreshDropped.

Record Env := mkEnv {
  env_now : nat → Z;
  env_random : nat → Z;
  (** [RAND_bytes] of 32 bytes; [None]: it failed *)
  env_rand_bytes : nat → option bytes;
  (** what [SSL_key_update] returns, and the write *)
  env_tcp : nat → Z * TcpProgress;
  (** the socket; [WouldBlock]: it was still blocked when the future that
      waits for it was dropped *)
  env_udp : nat → Transmit → option IoError;
  env_tun : nat → TunAnswer;
  (** [client_udp_qsp_io]: [max_gso_segments] of the backend *)
  env_io : nat → io_result Z;
  (** [bind_protected_udp_socket] *)
  env_bind : nat → io_result unit;
  env_refresh : nat → list UdpInput * RefreshEnd;
  env_aes_gcm_accelerated : bool;
}.

Section State.
Context `{B : Boring}.

(** ** transport/udp_qsp.rs: the transport

    The session owns its backend; the buffers of the source carry nothing from
    one call to the next. *)
Record ClientTransport := mkTransport { ut_session : QuicQspSession; ut_io : UdpQspIo }.

Definition has_pending_flush (t : ClientTransport) : bool := io_has_pending_flush (ut_io t).
Definition transport_discard_pending_send (t : ClientTransport) : ClientTransport :=
  mkTransport (ut_session t) (discard_pending_send (ut_io t)).1.

Definition PACKET_BUF_LEN : Z := 2048.

(** The counter of [note_recv_error]. *)
Definition note_recv_error (e : QspSessionError) : option Metric :=
  match e with
  | QReplay => Some MDecryptFailReplay
  | QTooOld => Some MDecryptFailTooOld
  | QCrypto _ => Some MDecryptFailCrypto
  | QIo _ => None
  | PacketNumberOverflow => Some MDecryptFailOther
  end.

(** What [read_next_message] makes of a received datagram: transport, counters
    and result. *)
Definition open_datagram (t : ClientTransport) (datagram : bytes) (limits : MessageLimits)
    : ClientTransport * list Metric * res UdpQspError OwnedMessageBuf :=
  let rx_phase_before := qs_rx_key_phase (ut_session t) in
  let '(session, r) := open_packet (ut_session t) datagram in
  let t := mkTransport session (ut_io t) in
  match r with
  | Panic => (t, [], Panic)
  | Err err => (t, option_list (note_recv_error err), Err (UQsp err))
  | Ok opened =>
      let counters := if eqb (qs_rx_key_phase session) rx_phase_before then [] else [MRxKeyPhaseTransition] in
      (t, counters,
       match decode_padded_message (op_payload opened) limits with
       | Ok (Some (message, frame_bytes)) => Ok (mkOwned (Message_ty message) frame_bytes)
       | Ok None => Err IncompleteMessage
       | Err err => Err (UMessage err)
       | Panic => Panic
       end)
  end.

(** [read_next_message] on what the socket delivers; [None]: it waits. *)
Definition read_next_message (t : ClientTransport) (input : UdpInput) (limits : MessageLimits)
    : option (ClientTransport * list Metric * res UdpQspError OwnedMessageBuf) :=
  let '(io, r, _) := recv_packet (ut_io t) PACKET_BUF_LEN (in_batches input) in
  let t := mkTransport (ut_session t) io in
  match r with
  | Ok (Some datagram) => Some (open_datagram t datagram limits)
  | Ok None =>
      match in_error input with
      | None => None
      | Some e => Some (t, option_list (note_recv_error (QIo e)), Err (UQsp (QIo e)))
      end
  | Err e => Some (t, option_list (note_recv_error (QIo e)), Err (UQsp (QIo e)))
  | Panic => Some (t, [], Panic)
  end.

(** ** register.rs: a prepared registration *)
Record PreparedUdpQspRegistration := mkPrepared {
  pr_payload_buf : bytes;
  pr_session : option ClientTransport;
  pr_cipher : CipherSuite;
}.

(** ** state.rs: the UDP path *)
Record PendingUdpQspRegistration := mkPending { pd_prepared : PreparedUdpQspRegistration; pd_deadline : Z }.

Inductive UdpState :=
  | Disabled
  | NeedDiscovery (backoff : ReconnectBackoff) (reconnect_at : Z)
  | Pending (quic_ids : QuicIds) (backoff : ReconnectBackoff) (reconnect_at : Z)
      (registration : option PendingUdpQspRegistration)
  | Active (transport : ClientTransport).

Definition is_waiting (u : UdpState) : bool :=
  match u with
  | NeedDiscovery _ _ => true
  | Pending _ _ _ registration => match registration with None => true | Some _ => false end
  | Disabled | Active _ => false
  end.

Definition reconnect_at (u : UdpState) : option Z :=
  match u with
  | NeedDiscovery _ at_ => Some at_
  | Pending _ _ at_ registration => match registration with None => Some at_ | Some _ => None end
  | _ => None
  end.

Definition register_deadline (u : UdpState) : option Z :=
  match u with Pending _ _ _ (Some registration) => Some (pd_deadline registration) | _ => None end.

Definition as_active (u : UdpState) : option ClientTransport :=
  match u with Active transport => Some transport | _ => None end.

(** ** mod.rs: the session

    Fields that [new] sets once are in the configuration.  [cs_discovery_task]
    and [cs_control_rx] say whether there is a task, and a channel;
    [cs_cancelled] is the cancellation token.  [cs_tick] counts the questions
    asked, [cs_trace] has the actions, newest first. *)
Record Session := mkSess {
  cs_tcp : TcpChannel;
  cs_active_transport : ActiveTransport;
  cs_last_activity : Z;
  cs_last_authenticated_udp_activity : option Z;
  cs_udp_state : UdpState;
  cs_retained_udp_transport : option ClientTransport;
  cs_udp_upgrade : UdpUpgradeState;
  cs_udp_upgrade_backoff : ReconnectBackoff;
  cs_udp_cipher_policy : ClientUdpQspCipher;
  cs_discovery_task : bool;
  cs_tcp_alive : bool;
  cs_pending_tcp_fallback : option Z;
  cs_last_peer_fallback_id : option Z;
  cs_control_rx : bool;
  cs_cancelled : bool;
  cs_tick : nat;
  cs_trace : list action;
}.

(** Field updates. *)
Definition with_tcp (x : TcpChannel) (s : Session) : Session :=
  mkSess x (cs_active_transport s) (cs_last_activity s) (cs_last_authenticated_udp_activity s) (cs_udp_state s)
    (cs_retained_udp_transport s) (cs_udp_upgrade s) (cs_udp_upgrade_backoff s) (cs_udp_cipher_policy s)
    (cs_discovery_task s) (cs_tcp_alive s) (cs_pending_tcp_fallback s) (cs_last_peer_fallback_id s)
    (cs_control_rx s) (cs_cancelled s) (cs_tick s) (cs_trace s).
Definition with_active_transport (x : ActiveTransport) (s : Session) : Session :=
  mkSess (cs_tcp s) x (cs_last_activity s) (cs_last_authenticated_udp_activity s) (cs_udp_state s)
    (cs_retained_udp_transport s) (cs_udp_upgrade s) (cs_udp_upgrade_backoff s) (cs_udp_cipher_policy s)
    (cs_discovery_task s) (cs_tcp_alive s) (cs_pending_tcp_fallback s) (cs_last_peer_fallback_id s)
    (cs_control_rx s) (cs_cancelled s) (cs_tick s) (cs_trace s).
Definition with_last_activity (x : Z) (s : Session) : Session :=
  mkSess (cs_tcp s) (cs_active_transport s) x (cs_last_authenticated_udp_activity s) (cs_udp_state s)
    (cs_retained_udp_transport s) (cs_udp_upgrade s) (cs_udp_upgrade_backoff s) (cs_udp_cipher_policy s)
    (cs_discovery_task s) (cs_tcp_alive s) (cs_pending_tcp_fallback s) (cs_last_peer_fallback_id s)
    (cs_control_rx s) (cs_cancelled s) (cs_tick s) (cs_trace s).
Definition with_last_authenticated_udp_activity (x : option Z) (s : Session) : Session :=
  mkSess (cs_tcp s) (cs_active_transport s) (cs_last_activity s) x (cs_udp_state s)
    (cs_retained_udp_transport s) (cs_udp_upgrade s) (cs_udp_upgrade_backoff s) (cs_udp_cipher_policy s)
    (cs_discovery_task s) (cs_tcp_alive s) (cs_pending_tcp_fallback s) (cs_last_peer_fallback_id s)
    (cs_control_rx s) (cs_cancelled s) (cs_tick s) (cs_trace s).
Definition with_udp_state (x : UdpState) (s : Session) : Session :=
  mkSess (cs_tcp s) (cs_active_transport s) (cs_last_activity s) (cs_last_authenticated_udp_activity s) x
    (cs_retained_udp_transport s) (cs_udp_upgrade s) (cs_udp_upgrade_backoff s) (cs_udp_cipher_policy s)
    (cs_discovery_task s) (cs_tcp_alive s) (cs_pending_tcp_fallback s) (cs_last_peer_fallback_id s)
    (cs_control_rx s) (cs_cancelled s) (cs_tick s) (cs_trace s).
Definition with_retained_udp_transport (x : option ClientTransport) (s : Session) : Session :=
  mkSess (cs_tcp s) (cs_active_transport s) (cs_last_activity s) (cs_last_authenticated_udp_activity s)
    (cs_udp_state s) x (cs_udp_upgrade s) (cs_udp_upgrade_backoff s) (cs_udp_cipher_policy s)
    (cs_discovery_task s) (cs_tcp_alive s) (cs_pending_tcp_fallback s) (cs_last_peer_fallback_id s)
    (cs_control_rx s) (cs_cancelled s) (cs_tick s) (cs_trace s).
Definition with_udp_upgrade (x : UdpUpgradeState) (s : Session) : Session :=
  mkSess (cs_tcp s) (cs_active_transport s) (cs_last_activity s) (cs_last_authenticated_udp_activity s)
    (cs_udp_state s) (cs_retained_udp_transport s) x (cs_udp_upgrade_backoff s) (cs_udp_cipher_policy s)
    (cs_discovery_task s) (cs_tcp_alive s) (cs_pending_tcp_fallback s) (cs_last_peer_fallback_id s)
    (cs_control_rx s) (cs_cancelled s) (cs_tick s) (cs_trace s).
Definition with_udp_upgrade_backoff (x : ReconnectBackoff) (s : Session) : Session :=
  mkSess (cs_tcp s) (cs_active_transport s) (cs_last_activity s) (cs_last_authenticated_udp_activity s)
    (cs_udp_state s) (cs_retained_udp_transport s) (cs_udp_upgrade s) x (cs_udp_cipher_policy s)
    (cs_discovery_task s) (cs_tcp_alive s) (cs_pending_tcp_fallback s) (cs_last_peer_fallback_id s)
    (cs_control_rx s) (cs_cancelled s) (cs_tick s) (cs_trace s).
Definition with_udp_cipher_policy (x : ClientUdpQspCipher) (s : Session) : Session :=
  mkSess (cs_tcp s) (cs_active_transport s) (cs_last_activity s) (cs_last_authenticated_udp_activity s)
    (cs_udp_state s) (cs_retained_udp_transport s) (cs_udp_upgrade s) (cs_udp_upgrade_backoff s) x
    (cs_discovery_task s) (cs_tcp_alive s) (cs_pending_tcp_fallback s) (cs_last_peer_fallback_id s)
    (cs_control_rx s) (cs_cancelled s) (cs_tick s) (cs_trace s).
Definition with_discovery_task (x : bool) (s : Session) : Session :=
  mkSess (cs_tcp s) (cs_active_transport s) (cs_last_activity s) (cs_last_authenticated_udp_activity s)
    (cs_udp_state s) (cs_retained_udp_transport s) (cs_udp_upgrade s) (cs_udp_upgrade_backoff s)
    (cs_udp_cipher_policy s) x (cs_tcp_alive s) (cs_pending_tcp_fallback s) (cs_last_peer_fallback_id s)
    (cs_control_rx s) (cs_cancelled s) (cs_tick s) (cs_trace s).
Definition with_tcp_alive (x : bool) (s : Session) : Session :=
  mkSess (cs_tcp s) (cs_active_transport s) (cs_last_activity s) (cs_last_authenticated_udp_activity s)
    (cs_udp_state s) (cs_retained_udp_transport s) (cs_udp_upgrade s) (cs_udp_upgrade_backoff s)
    (cs_udp_cipher_policy s) (cs_discovery_task s) x (cs_pending_tcp_fallback s) (cs_last_peer_fallback_id s)
    (cs_control_rx s) (cs_cancelled s) (cs_tick s) (cs_trace s).
Definition with_pending_tcp_fallback (x : option Z) (s : Session) : Session :=
  mkSess (cs_tcp s) (cs_active_transport s) (cs_last_activity s) (cs_last_authenticated_udp_activity s)
    (cs_udp_state s) (cs_retained_udp_transport s) (cs_udp_upgrade s) (cs_udp_upgrade_backoff s)
    (cs_udp_cipher_policy s) (cs_discovery_task s) (cs_tcp_alive s) x (cs_last_peer_fallback_id s)
    (cs_control_rx s) (cs_cancelled s) (cs_tick s) (cs_trace s).
Definition with_last_peer_fallback_id (x : option Z) (s : Session) : Session :=
  mkSess (cs_tcp s) (cs_active_transport s) (cs_last_activity s) (cs_last_authenticated_udp_activity s)
    (cs_udp_state s) (cs_retained_udp_transport s) (cs_udp_upgrade s) (cs_udp_upgrade_backoff s)
    (cs_udp_cipher_policy s) (cs_discovery_task s) (cs_tcp_alive s) (cs_pending_tcp_fallback s) x
    (cs_control_rx s) (cs_cancelled s) (cs_tick s) (cs_trace s).
Definition with_control_rx (x : bool) (s : Session) : Session :=
  mkSess (cs_tcp s) (cs_active_transport s) (cs_last_activity s) (cs_last_authenticated_udp_activity s)
    (cs_udp_state s) (cs_retained_udp_transport s) (cs_udp_upgrade s) (cs_udp_upgrade_backoff s)
    (cs_udp_cipher_policy s) (cs_discovery_task s) (cs_tcp_alive s) (cs_pending_tcp_fallback s)
    (cs_last_peer_fallback_id s) x (cs_cancelled s) (cs_tick s) (cs_trace s).
Definition with_cancelled (x : bool) (s : Session) : Session :=
  mkSess (cs_tcp s) (cs_active_transport s) (cs_last_activity s) (cs_last_authenticated_udp_activity s)
    (cs_udp_state s) (cs_retained_udp_transport s) (cs_udp_upgrade s) (cs_udp_upgrade_backoff s)
    (cs_udp_cipher_policy s) (cs_discovery_task s) (cs_tcp_alive s) (cs_pending_tcp_fallback s)
    (cs_last_peer_fallback_id s) (cs_control_rx s) x (cs_tick s) (cs_trace s).
Definition with_tick (x : nat) (s : Session) : Session :=
  mkSess (cs_tcp s) (cs_active_transport s) (cs_last_activity s) (cs_last_authenticated_udp_activity s)
    (cs_udp_state s) (cs_retained_udp_transport s) (cs_udp_upgrade s) (cs_udp_upgrade_backoff s)
    (cs_udp_cipher_policy s) (cs_discovery_task s) (cs_tcp_alive s) (cs_pending_tcp_fallback s)
    (cs_last_peer_fallback_id s) (cs_control_rx s) (cs_cancelled s) x (cs_trace s).
Definition with_trace (x : list action) (s : Session) : Session :=
  mkSess (cs_tcp s) (cs_active_transport s) (cs_last_activity s) (cs_last_authenticated_udp_activity s)
    (cs_udp_state s) (cs_retained_udp_transport s) (cs_udp_upgrade s) (cs_udp_upgrade_backoff s)
    (cs_udp_cipher_policy s) (cs_discovery_task s) (cs_tcp_alive s) (cs_pending_tcp_fallback s)
    (cs_last_peer_fallback_id s) (cs_control_rx s) (cs_cancelled s) (cs_tick s) x.

Definition log (a : action) (s : Session) : Session := with_trace (a :: cs_trace s) s.

(** What [new] is given: the configuration and the authenticated channel. *)
Definition upgrade_enabled (config : ClientConfig) : bool := cc_enable_upgrade config || cc_require_udp config.

Definition session_limits (config : ClientConfig) : MessageLimits := MessageLimits_from_mtu (tun_mtu (cc_tun config)).

Definition config_backoff (config : ClientConfig) : ReconnectBackoff :=
  ReconnectBackoff_new (ct_reconnect_min (cc_timing config)) (ct_reconnect_max (cc_timing config)).

Definition ClientSession_new (config : ClientConfig) (tcp : TcpChannel) (control_rx : bool) (now : Z) : Session :=
  let udp_state := if upgrade_enabled config then NeedDiscovery (config_backoff config) now else Disabled in
  let udp_upgrade := if upgrade_enabled config then UpgradeIdle else UpgradeDisabled in
  mkSess tcp ActiveTcp now None udp_state None udp_upgrade (config_backoff config) (cc_cipher config) false true
    None None control_rx false 0 [].

Definition udp_receive_transport (s : Session) : option ClientTransport :=
  match as_active (cs_udp_state s) with
  | Some transport => Some transport
  | None => cs_retained_udp_transport s
  end.

(** Changes through [udp_receive_transport_mut] and [as_active_mut] go where
    the transport was borrowed from. *)
Definition put_transport (t : ClientTransport) (s : Session) : Session :=
  match cs_udp_state s with
  | Active _ => with_udp_state (Active t) s
  | _ => with_retained_udp_transport (Some t) s
  end.

(** ** The monad *)
Abbreviation M := (eff Session SessionError).

(** The next answer of the environment. *)
Definition ask {A} (f : nat → A) : M A := λ s, (with_tick (S (cs_tick s)) s, ORet (f (cs_tick s))).

Definition count (m : Metric) : M unit := modify (log (ACount m)).
Definition emit (e : ClientEventKind) : M unit := modify (log (AEmit e)).
End State.

Abbreviation M := (eff Session SessionError).
