(* ===== verification/ClientSession.v ===== *)
(** * The client side of a session ([slt-client/src/runtime/session/])

    The handlers of a client session, its event loop and its end: writing
    ([lifecycle.rs], [transport/udp_qsp.rs], [transport/tcp.rs]), registration
    ([register.rs]), discovery and upgrade ([upgrade.rs]), messages over TCP
    ([tcp.rs]) and UDP ([udp.rs]), events and the loop ([driver.rs]).
    [ClientState] has the state, [ClientSafety] the invariants. *)

From stdpp Require Import base tactics option list numbers.
From Stdlib Require Import ZArith Lia.
From S2P Require Import Prelude Effects Cid Framing TcpChannel Payloads Admissibility PacketHeader Keys QspSession UdpIo Config Backoff ClientState.

Section Session.
Context `{B : Boring} (env : Env) (config : ClientConfig).
Abbreviation timing := (cc_timing config).
Abbreviation limits := (session_limits config).

(** ** Writing to TCP *)

(** The counter of [ClientKeyUpdater::maybe_request_key_update]. *)
Definition count_key_update (k : IntervalKeyUpdater) (rc : Z) (s : Session) : Session :=
  if ku_until_update k =? 1 then
    match (maybe_request_key_update k rc).1.1 with
    | Ok _ => log (ACount MTlsKeyUpdate) s
    | _ => s
    end
  else s.

(** [write_message_with_timeout], or [write_message] without a limit of its
    own, which only the caller's limit can cut off. *)
Definition write_tcp (limited : bool) (m : Message) : M unit :=
  s ← get;
  '(rc, progress) ← ask (env_tcp env);
  let w := match progress with Finished w => w | TimedOutAfter n | DroppedAfter n => WriteFailed n TimedOut end in
  let '(r, channel) := write_message (cs_tcp s) m rc w in
  _ ← modify (λ s', count_key_update (chan_key_updater (cs_tcp s)) rc (with_tcp channel s'));
  match r with
  | Ok _ => modify (log (ATcpSent m))
  | Err (TWIo TimedOut) =>
      match progress with
      | Finished _ => fail (SIo TimedOut)
      | TimedOutAfter _ => if limited then fail (SIo TimedOut) else dropped
      | DroppedAfter _ => dropped
      end
  | Err e => fail (SessionError_from_tcp_write e)
  | Panic => panic
  end.

Definition write_tcp_message (m : Message) : M unit := write_tcp true m.
Definition write_tcp_message_best_effort (m : Message) : M unit := write_tcp false m.

(** ** The UDP transport *)
Definition count_all (counters : list Metric) : M unit :=
  modify (λ s, foldl (λ s m, log (ACount m) s) s counters).

Definition transport_flush (t : ClientTransport) : M (res IoError unit) :=
  socket ← ask (env_udp env);
  let '(io, r) := flush_pending (ut_io t) socket in
  _ ← modify (put_transport (mkTransport (ut_session t) io));
  match r with
  | Err WouldBlock => dropped
  | Panic => panic
  | r => mret r
  end.

(** The errors of [write_message] on the transport. *)
Definition send_error (e : QspSessionError) : UdpQspError :=
  match e with QIo source => USendIo source | other => UQsp other end.

Definition transport_write_message (t : ClientTransport) (m : Message)
    : M (res UdpQspError unit) :=
  match encode_message m [] with
  | Err e => mret (Err (UFrame e))
  | Panic => panic
  | Ok buf =>
      let tx_phase_before := qs_tx_key_phase (ut_session t) in
      match send (ut_session t) buf (λ _, None) with
      | (session, Err e) =>
          _ ← modify (put_transport (mkTransport session (ut_io t)));
          mret (Err (send_error e))
      | (session, Panic) => panic
      | (session, Ok packet) =>
          socket ← ask (env_udp env);
          let '(io, r) := send_packet (ut_io t) packet socket in
          _ ← modify (put_transport (mkTransport session io));
          match r with
          | Ok _ =>
              _ ← modify (log (AUdpSent m));
              _ ← (if eqb (qs_tx_key_phase session) tx_phase_before then mret tt
                   else count MTxKeyPhaseTransition);
              mret (Ok tt)
          | Err WouldBlock => dropped
          | Err e => mret (Err (send_error (QIo e)))
          | Panic => panic
          end
      end
  end.

(** [replace_io]: best-effort flush of the old backend, then the new one. *)
Definition transport_replace_io (t : ClientTransport) (io : UdpQspIo) : M unit :=
  _ ← (if has_pending_flush t then _ ← transport_flush t; mret tt else mret tt);
  s ← get;
  match as_active (cs_udp_state s) with
  | Some t => modify (put_transport (mkTransport (ut_session t) io))
  | None => mret tt
  end.

(** ** lifecycle.rs *)
Definition send_to_tun_or_shutdown (msg_buf : OwnedMessageBuf) : M SessionControl :=
  answer ← ask (env_tun env);
  match answer with
  | TunCancelled => _ ← modify (with_cancelled true); _ ← count MDisconnectShutdown; mret (Close Shutdown)
  | TunQueueClosed => mret (Close (TunClosed Writer))
  | TunQueued => _ ← modify (log (ATun msg_buf)); mret Continue
  | TunPending => dropped
  end.

Definition write_active_message (m : Message) : M unit :=
  s ← get;
  match cs_active_transport s with
  | ActiveTcp => write_tcp_message m
  | ActiveUdpQsp =>
      match as_active (cs_udp_state s) with
      | None => fail ProtocolViolation
      | Some udp => r ← transport_write_message udp m; try SessionError_from_udp r
      end
  end.

Definition write_udp_message_and_flush (m : Message) : M unit :=
  s ← get;
  match udp_receive_transport s with
  | None => fail ProtocolViolation
  | Some udp =>
      r ← transport_write_message udp m;
      _ ← try SessionError_from_udp r;
      s ← get;
      match udp_receive_transport s with
      | None => fail ProtocolViolation
      | Some udp => r ← transport_flush udp; try SIo r
      end
  end.

Definition flush_udp_transport : M unit :=
  s ← get;
  match as_active (cs_udp_state s) with
  | None => fail ProtocolViolation
  | Some udp => r ← transport_flush udp; try SIo r
  end.

Definition flush_pending_udp_transport_best_effort : M unit :=
  s ← get;
  match cs_active_transport s, as_active (cs_udp_state s) with
  | ActiveUdpQsp, Some udp =>
      if has_pending_flush udp then _ ← timeout (transport_flush udp); mret tt else mret tt
  | _, _ => mret tt
  end.

Definition shutdown_background_tasks : M unit := modify (with_discovery_task false).

(** [min_ms + jitter_ms], in nanoseconds. *)
Definition schedule_next_ping : M Z :=
  let min_ms := millis_u64 (ct_ping_min timing) in
  let max_ms := millis_u64 (ct_ping_max timing) in
  jitter_ms ← (if max_ms >? min_ms then r ← ask (env_random env); mret (r mod (max_ms - min_ms + 1)) else mret 0);
  now ← ask (env_now env);
  mret (now + from_millis (min_ms + jitter_ms)).

Definition note_activity (received_at : Z) : M unit := modify (with_last_activity received_at).
Definition note_authenticated_udp_activity (received_at : Z) : M unit :=
  modify (λ s, with_last_authenticated_udp_activity (Some received_at) (with_last_activity received_at s)).

(** [backoff.next_delay()] *)
Definition draw_delay (b : ReconnectBackoff) : M (ReconnectBackoff * Z) :=
  random ← (if millis_u64 (bo_current b) / 2 >? 0 then ask (env_random env) else mret 0);
  mret (next_delay b random).

Definition note_transport_change (from to : ActiveTransport) (reason : TransportChangeReason) : M unit :=
  emit (TransportChanged from to reason).

(** [self.active_transport = t] *)
Definition set_active_transport (t : ActiveTransport) : M unit :=
  modify (λ s, log (ASwitched t) (with_active_transport t s)).

(** ** upgrade.rs: scheduling *)

(** The UDP path is given up for good. *)
Definition disable_udp (s : Session) : Session :=
  with_last_authenticated_udp_activity None
    (with_udp_upgrade UpgradeDisabled (with_udp_state Disabled (with_retained_udp_transport None s))).

Definition schedule_discovery_retry_with_receive_path (preserve_receive_path : bool) : M unit :=
  if negb (upgrade_enabled config) then modify disable_udp else
  _ ← modify (with_udp_upgrade UpgradeIdle);
  s ← get;
  _ ← (if preserve_receive_path && bool_decide (cs_retained_udp_transport s = None) then
         match cs_udp_state s with
         | Active transport =>
             modify (λ s, with_retained_udp_transport (Some transport) (with_udp_state Disabled s))
         | _ => mret tt
         end
       else if negb preserve_receive_path then
         modify (λ s, with_last_authenticated_udp_activity None (with_retained_udp_transport None s))
       else mret tt);
  s ← get;
  '(backoff, delay) ← draw_delay (match cs_udp_state s with
                                  | NeedDiscovery backoff _ => backoff
                                  | _ => config_backoff config
                                  end);
  now ← ask (env_now env);
  modify (with_udp_state (NeedDiscovery backoff (now + delay))).

Definition schedule_discovery_retry : M unit := schedule_discovery_retry_with_receive_path true.
Definition schedule_discovery_retry_after_udp_failure : M unit := schedule_discovery_retry_with_receive_path false.

Definition schedule_discovery_now : M unit :=
  if negb (upgrade_enabled config) then modify disable_udp else
  now ← ask (env_now env);
  modify (λ s, with_udp_state (NeedDiscovery (config_backoff config) now)
    (with_udp_upgrade UpgradeIdle (with_last_authenticated_udp_activity None (with_retained_udp_transport None s)))).

Definition schedule_registration_retry : M unit :=
  s ← get;
  match cs_udp_state s with
  | Pending quic_ids backoff _ _ =>
      '(backoff, delay) ← draw_delay backoff;
      now ← ask (env_now env);
      modify (with_udp_state (Pending quic_ids backoff (now + delay) None))
  | _ => mret tt
  end.

(** ** tcp.rs: fallback *)
Definition discard_pending_udp_send_for_fallback : M unit :=
  modify (λ s, match udp_receive_transport s with
               | None => s
               | Some udp => put_transport (transport_discard_pending_send udp) s
               end).

Definition request_tcp_fallback (reason : TransportChangeReason) : M unit :=
  s ← get;
  if negb (cs_tcp_alive s) then fail (Connection NotConnected) else
  _ ← match cs_pending_tcp_fallback s with
      | Some _ => mret tt
      | None =>
          fallback_id ← ask (env_random env);
          _ ← write_tcp_message (MFallbackToTcp (FallbackToTcpPayload_encode (mkFallbackToTcp fallback_id) []));
          modify (with_pending_tcp_fallback (Some fallback_id))
      end;
  _ ← discard_pending_udp_send_for_fallback;
  s ← get;
  match cs_active_transport s with
  | ActiveUdpQsp =>
      _ ← count MTransportUdpToTcp;
      _ ← set_active_transport ActiveTcp;
      note_transport_change ActiveUdpQsp ActiveTcp reason
  | ActiveTcp => mret tt
  end.

Definition handle_fallback_to_tcp (payload : bytes) : M SessionControl :=
  request ← try SPayload (FallbackToTcpPayload_decode payload);
  let id := ftt_fallback_id request in
  s ← get;
  _ ← (if bool_decide (cs_last_peer_fallback_id s = Some id) then mret tt else
       _ ← discard_pending_udp_send_for_fallback;
       _ ← match cs_active_transport s with
           | ActiveUdpQsp =>
               _ ← count MTransportUdpToTcpServer;
               _ ← set_active_transport ActiveTcp;
               note_transport_change ActiveUdpQsp ActiveTcp ServerInitiated
           | ActiveTcp => mret tt
           end;
       _ ← schedule_discovery_retry;
       modify (with_last_peer_fallback_id (Some id)));
  _ ← write_tcp_message (MFallbackOk (FallbackOkPayload_encode (mkFallbackOk id) []));
  mret Continue.

Definition handle_fallback_ok (payload : bytes) : M SessionControl :=
  ok ← try SPayload (FallbackOkPayload_decode payload);
  s ← get;
  _ ← (if bool_decide (cs_pending_tcp_fallback s = Some (fok_fallback_id ok))
       then modify (with_pending_tcp_fallback None) else mret tt);
  mret Continue.

(** ** udp.rs: failures of the UDP path *)

(** [true]: the session can go on. *)
Definition handle_udp_error (err : SessionError) : M bool :=
  if is_udp_qsp_recoverable err then mret true else
  s ← get;
  match cs_udp_state s, cs_retained_udp_transport s with
  | NeedDiscovery _ _, Some _ | Pending _ _ _ _, Some _ =>
      _ ← modify (λ s, with_last_authenticated_udp_activity None (with_retained_udp_transport None s));
      mret true
  | _, _ =>
      if negb (cs_tcp_alive s) then mret false else
      _ ← request_tcp_fallback UdpErrorReason;
      _ ← schedule_discovery_retry_after_udp_failure;
      mret true
  end.

Definition handle_udp_event_error (err : SessionError) : M SessionControl :=
  continues ← handle_udp_error err;
  if (continues : bool) then mret Continue else
  _ ← count MDisconnectError;
  mret (Close ConnectionError).

(** A message for the preferred transport: a failure of the UDP path falls
    back to TCP and repeats the message there.  The source writes this out in
    [handle_tun_packet], [handle_ping_tick] and [send_close]. *)
Definition send_with_fallback (first : M unit) (retry : M unit) : M unit :=
  s ← get;
  r ← result first;
  match r with
  | Ok _ => mret tt
  | Panic => panic
  | Err err =>
      if negb (bool_decide (cs_active_transport s = ActiveUdpQsp)) then fail err else
      if is_udp_path_transport_error err then
        continues ← handle_udp_error err;
        if (continues : bool) then retry else fail (Connection NotConnected)
      else fail err
  end.

(** ** lifecycle.rs: pings and CLOSE *)
Definition write_preferred_and_flush (m : Message) (on_tcp : Message → M unit) : M unit :=
  s ← get;
  match cs_active_transport s with
  | ActiveUdpQsp => write_udp_message_and_flush m
  | ActiveTcp => on_tcp m
  end.

Definition handle_ping_tick : M unit :=
  nonce ← ask (env_random env);
  let ping := MPing (PingPayload_encode (mkPing nonce) []) in
  send_with_fallback (write_preferred_and_flush ping write_tcp_message) (write_tcp_message ping).

Definition send_close (code : CloseCode) : M unit :=
  let close := MClose (ClosePayload_encode (mkClose code) []) in
  send_with_fallback (write_preferred_and_flush close write_tcp_message_best_effort)
    (write_tcp_message_best_effort close).

Definition send_close_best_effort (code : CloseCode) : M unit :=
  _ ← timeout (send_close code);
  mret tt.

(** ** driver.rs: packets from the TUN device *)
Definition handle_tun_packet (packet : bytes) : M SessionControl :=
  if bool_decide (packet = []) then mret Continue else
  if zlen packet >? max_data_len limits then _ ← count MTunPacketsDroppedOversized; mret Continue else
  _ ← send_with_fallback (write_active_message (MData packet)) (write_tcp_message (MData packet));
  mret Continue.

(** ** register.rs *)
Definition random_array : M bytes :=
  r ← ask (env_rand_bytes env);
  match r with Some secret => mret secret | None => fail SCrypto end.

(** [u64::from(fastrand::u32(..))] *)
Definition random_u32 : M Z :=
  r ← ask (env_random env);
  mret (r mod 2 ^ 32).

Definition prepare_udp_qsp_registration (ids : QuicIds) (cipher : CipherSuite) : M PreparedUdpQspRegistration :=
  secret_c2s ← random_array;
  secret_s2c ← random_array;
  pn_start_s2c ← random_u32;
  pn_start_c2s ← random_u32;
  let key_phase := false in
  let payload := mkRegister (ids_dcid ids) (ids_scid ids) cipher secret_s2c secret_c2s pn_start_s2c pn_start_c2s key_phase in
  payload_buf ← try SPayload (RegisterCidPayload_encode payload []);
  keys ← try SUdpQspKeys (UdpQspKeys_new cipher (reg_secret_rx payload) (reg_secret_tx payload));
  created ← ask (env_io env);
  max_gso ← try SIo (of_io created);
  let io := UdpQspIo_new max_gso (ids_peer ids) in
  let session := QuicQspSession_new (ids_scid ids) (ids_dcid ids) keys pn_start_c2s pn_start_s2c key_phase in
  mret (mkPrepared payload_buf (Some (mkTransport session io)) cipher).

Definition select_udp_qsp_cipher (policy : ClientUdpQspCipher) : CipherSuite :=
  ClientUdpQspCipher_select policy (env_aes_gcm_accelerated env).

Definition other_explicit_policy (tried : CipherSuite) : ClientUdpQspCipher :=
  match tried with Aes128Gcm => CChaCha20Poly1305 | ChaCha20Poly1305 => CAes128Gcm end.

Definition auto_fallback_policy : ClientUdpQspCipher := other_explicit_policy (select_udp_qsp_cipher CAuto).

(** ** upgrade.rs *)
Definition MAX_UPGRADE_PROBES : Z := 8.

Definition handle_registration_setup_failure : M SessionControl :=
  if cc_require_udp config then mret (Close UdpUpgradeRequired) else
  _ ← emit UdpRegisterFailed;
  _ ← schedule_registration_retry;
  mret Continue.

Definition set_registration (registration : option PendingUdpQspRegistration) (s : Session) : Session :=
  match cs_udp_state s with
  | Pending quic_ids backoff at_ _ => with_udp_state (Pending quic_ids backoff at_ registration) s
  | _ => s
  end.

Definition attempt_udp_registration : M SessionControl :=
  s ← get;
  match cs_udp_state s with
  | Pending quic_ids _ _ None =>
      let cipher := select_udp_qsp_cipher (cs_udp_cipher_policy s) in
      r ← result (prepare_udp_qsp_registration quic_ids cipher);
      match r with
      | Panic => panic
      | Err _ => handle_registration_setup_failure
      | Ok prepared =>
          _ ← write_tcp_message (MRegisterCid (pr_payload_buf prepared));
          now ← ask (env_now env);
          _ ← modify (set_registration (Some (mkPending prepared (now + ct_register_timeout timing))));
          _ ← emit UdpRegisterStarted;
          mret Continue
      end
  | _ => mret Continue
  end.

Definition start_udp_upgrade_attempt (now : Z) : M unit :=
  s ← get;
  match cs_udp_upgrade s with
  | UpgradeDisabled => mret tt
  | _ =>
      match cs_udp_state s with
      | Active _ =>
          match cs_active_transport s with
          | ActiveUdpQsp => mret tt
          | ActiveTcp =>
              upgrade_id ← ask (env_random env);
              probe_nonce ← ask (env_random env);
              _ ← modify (with_udp_upgrade (Upgrading upgrade_id (now + ct_register_timeout timing) 0 now probe_nonce
                                              false false (config_backoff config)));
              emit (UdpUpgradeStarted upgrade_id)
          end
      | _ => modify (with_udp_upgrade UpgradeIdle)
      end
  end.

Definition handle_register_ok (payload : bytes) : M SessionControl :=
  s ← get;
  match cs_udp_state s with
  | Pending quic_ids _ _ (Some in_flight) =>
      ok ← try SPayload (RegisterOkPayload_decode payload);
      if negb (bool_decide (rok_client_to_server_cid ok = ids_dcid quic_ids)) then fail ProtocolViolation else
      match pr_session (pd_prepared in_flight) with
      | None => fail ProtocolViolation
      | Some session =>
          _ ← modify (λ s, log ARegistered (with_last_authenticated_udp_activity None
                (with_retained_udp_transport None (with_udp_state (Active session) s))));
          _ ← emit UdpRegistered;
          now ← ask (env_now env);
          _ ← start_udp_upgrade_attempt now;
          mret Continue
      end
  | _ => mret Continue
  end.

Definition handle_register_fail (payload : bytes) : M SessionControl :=
  s ← get;
  match cs_udp_state s with
  | Pending _ _ _ (Some _) =>
      failed ← try SPayload (RegisterFailPayload_decode payload);
      _ ← count MUdpRegisterFailure;
      let flip := bool_decide (rf_code failed = RFInvalidCipher) && bool_decide (cc_cipher config = CAuto)
                  && bool_decide (cs_udp_cipher_policy s = CAuto) in
      _ ← (if flip then modify (with_udp_cipher_policy auto_fallback_policy) else mret tt);
      if negb flip && cc_require_udp config then mret (Close UdpUpgradeRequired) else
      _ ← emit UdpRegisterFailed;
      _ ← schedule_registration_retry;
      mret Continue
  | _ => mret Continue
  end.

Definition handle_registration_timeout : M SessionControl :=
  s ← get;
  match cs_udp_state s with
  | Pending _ _ _ (Some _) =>
      if cc_require_udp config then mret (Close UdpUpgradeRequired) else
      _ ← emit UdpRegisterFailed;
      _ ← schedule_registration_retry;
      mret Continue
  | _ => mret Continue
  end.

Definition handle_discovery_result (maybe_ids : option QuicIds) : M SessionControl :=
  match maybe_ids with
  | Some ids =>
      now ← ask (env_now env);
      _ ← modify (with_udp_state (Pending ids (config_backoff config) now None));
      mret Continue
  | None =>
      _ ← count MUdpDiscoveryFailure;
      _ ← emit UdpDiscoveryFailed;
      if cc_require_udp config then mret (Close UdpUpgradeRequired) else
      _ ← schedule_discovery_retry;
      mret Continue
  end.

Definition handle_udp_upgrade_timeout : M SessionControl :=
  if cc_require_udp config then mret (Close UdpUpgradeRequired) else
  s ← get;
  '(backoff, delay) ← draw_delay (cs_udp_upgrade_backoff s);
  now ← ask (env_now env);
  _ ← modify (λ s, with_udp_upgrade (TcpOnlyBlockedUdp (now + delay)) (with_udp_upgrade_backoff backoff s));
  mret Continue.

Definition send_upgrade_probe (now : Z) : M unit :=
  s ← get;
  match cs_udp_upgrade s with
  | Upgrading upgrade_id deadline attempts next_probe_at nonce probe_acked ready_sent probe_backoff =>
      if probe_acked || (attempts >=? MAX_UPGRADE_PROBES) then mret tt else
      '(probe_backoff, delay) ← draw_delay probe_backoff;
      _ ← modify (with_udp_upgrade (Upgrading upgrade_id deadline (Z.min (attempts + 1) (2 ^ 32 - 1)) (now + delay) nonce
                                      probe_acked ready_sent probe_backoff));
      r ← result (write_udp_message_and_flush (MUpgradeProbe (UpgradeProbePayload_encode (mkProbe upgrade_id nonce) [])));
      match r with
      | Ok _ => mret tt
      | Panic => panic
      | Err err =>
          if is_udp_path_transport_error err then
            continues ← handle_udp_error err;
            if (continues : bool) then mret tt else fail (Connection NotConnected)
          else fail err
      end
  | _ => mret tt
  end.

Definition handle_udp_upgrade_tick : M SessionControl :=
  now ← ask (env_now env);
  s ← get;
  match cs_udp_upgrade s with
  | UpgradeDisabled | UpgradeIdle => mret Continue
  | AwaitingSwitchOk _ deadline =>
      if now <? deadline then mret Continue else
      _ ← (if cc_require_udp config then mret tt else request_tcp_fallback UdpErrorReason);
      handle_udp_upgrade_timeout
  | TcpOnlyBlockedUdp retry_at =>
      if now <? retry_at then mret Continue else
      _ ← start_udp_upgrade_attempt now;
      mret Continue
  | Upgrading _ deadline attempts next_probe_at _ probe_acked _ _ =>
      if deadline <=? now then handle_udp_upgrade_timeout else
      if probe_acked || (now <? next_probe_at) then mret Continue else
      if attempts >=? MAX_UPGRADE_PROBES then handle_udp_upgrade_timeout else
      _ ← send_upgrade_probe now;
      mret Continue
  end.

Definition set_probe_acked (s : Session) : Session :=
  match cs_udp_upgrade s with
  | Upgrading upgrade_id deadline attempts next_probe_at nonce _ ready_sent probe_backoff =>
      with_udp_upgrade (Upgrading upgrade_id deadline attempts next_probe_at nonce true ready_sent probe_backoff) s
  | _ => s
  end.
Definition set_ready_sent (s : Session) : Session :=
  match cs_udp_upgrade s with
  | Upgrading upgrade_id deadline attempts next_probe_at nonce probe_acked _ probe_backoff =>
      with_udp_upgrade (Upgrading upgrade_id deadline attempts next_probe_at nonce probe_acked true probe_backoff) s
  | _ => s
  end.

Definition handle_upgrade_probe_ack (payload : bytes) : M SessionControl :=
  ack ← try SPayload (UpgradeProbeAckPayload_decode payload);
  s ← get;
  match cs_udp_upgrade s with
  | Upgrading upgrade_id _ _ _ probe_nonce _ ready_sent _ =>
      if negb (ack_upgrade_id ack =? upgrade_id) then mret Continue else
      if negb (ack_nonce ack =? probe_nonce) then mret Continue else
      _ ← modify set_probe_acked;
      if ready_sent then mret Continue else
      _ ← write_tcp_message (MUdpReady (UdpReadyPayload_encode (mkUdpReady (ack_upgrade_id ack)) []));
      _ ← modify set_ready_sent;
      _ ← emit (UdpPathValidated (ack_upgrade_id ack));
      mret Continue
  | _ => mret Continue
  end.

Definition handle_switch_to_udp (payload : bytes) : M SessionControl :=
  switch ← try SPayload (SwitchToUdpPayload_decode payload);
  let id := switch_upgrade_id switch in
  s ← get;
  match cs_udp_upgrade s with
  | Upgrading upgrade_id _ _ _ _ probe_acked ready_sent _ =>
      if negb (id =? upgrade_id) then mret Continue else
      if negb probe_acked || negb ready_sent then mret Continue else
      _ ← write_tcp_message (MSwitchAck (SwitchAckPayload_encode (mkSwitchAck id) []));
      now ← ask (env_now env);
      _ ← modify (with_udp_upgrade (AwaitingSwitchOk id (now + ct_register_timeout timing)));
      mret Continue
  | _ => mret Continue
  end.

Definition handle_switch_ok (payload : bytes) : M SessionControl :=
  ok ← try SPayload (SwitchOkPayload_decode payload);
  s ← get;
  match cs_udp_upgrade s with
  | AwaitingSwitchOk upgrade_id _ =>
      if negb (switch_ok_upgrade_id ok =? upgrade_id) then mret Continue else
      _ ← match cs_active_transport s with
          | ActiveUdpQsp => mret tt
          | ActiveTcp =>
              _ ← count MTransportTcpToUdp;
              _ ← set_active_transport ActiveUdpQsp;
              note_transport_change ActiveTcp ActiveUdpQsp UpgradeCommitted
          end;
      _ ← modify (λ s, with_pending_tcp_fallback None
            (with_udp_upgrade_backoff (ReconnectBackoff_reset (cs_udp_upgrade_backoff s))
              (with_udp_upgrade UpgradeIdle s)));
      _ ← emit (UdpSwitchCommitted upgrade_id);
      mret Continue
  | _ => mret Continue
  end.

(** ** udp.rs *)
Definition tcp_context : MessageContext := mkContext SServer Established Tcp.
Definition udp_context : MessageContext := mkContext SServer Established UdpQsp.

Definition handle_udp_message (msg_buf : OwnedMessageBuf) : M SessionControl :=
  message ← try SFrame (OwnedMessageBuf_message msg_buf);
  _ ← modify (log (AUdpRecv message));
  _ ← try SessionError_from_validation (validate_message message udp_context);
  match message with
  | MData _ => send_to_tun_or_shutdown msg_buf
  | MPing payload =>
      ping_in ← try SPayload (PingPayload_decode payload);
      _ ← write_udp_message_and_flush (MPong (to_be 8 (ping_nonce ping_in)));
      mret Continue
  | MPong payload =>
      _ ← try SPayload (PongPayload_decode payload);
      mret Continue
  | MClose payload =>
      close ← try SPayload (ClosePayload_decode payload);
      _ ← count MDisconnectClose;
      mret (Close (RemoteClose (close_code close)))
  | MUpgradeProbeAck payload => handle_upgrade_probe_ack payload
  | MAuth _ | MAuthOk _ | MAuthFail _ | MRegisterCid _ | MRegisterOk _ | MRegisterFail _ | MUpgradeProbe _
  | MUdpReady _ | MSwitchToUdp _ | MSwitchAck _ | MSwitchOk _ | MFallbackToTcp _ | MFallbackOk _ => panic
  end.

Definition is_matching_pong (msg_buf : OwnedMessageBuf) (nonce : Z) : M bool :=
  message ← try SFrame (OwnedMessageBuf_message msg_buf);
  match message with
  | MPong payload => pong ← try SPayload (PongPayload_decode payload); mret (pong_nonce pong =? nonce)
  | _ => mret false
  end.

(** The loop of [refresh_udp_path] on what the socket delivers until the
    deadline or the shutdown. *)
Fixpoint refresh_loop (nonce : Z) (inputs : list UdpInput) (stop : RefreshEnd) : M SessionControl :=
  s ← get;
  match as_active (cs_udp_state s) with
  | None => fail ProtocolViolation
  | Some udp =>
      match inputs with
      | [] =>
          match stop with
          | RefreshTimedOut => fail (SIo TimedOut)
          | RefreshCancelled => _ ← modify (with_cancelled true); mret (Close Shutdown)
          | RefreshDropped => dropped
          end
      | input :: inputs =>
          match read_next_message udp input limits with
          | None => refresh_loop nonce inputs stop
          | Some (udp, counters, r) =>
              _ ← modify (put_transport udp);
              _ ← count_all counters;
              match r with
              | Panic => panic
              | Err err =>
                  let err := SessionError_from_udp err in
                  if is_udp_qsp_recoverable err then refresh_loop nonce inputs stop else fail err
              | Ok msg_buf =>
                  received_at ← ask (env_now env);
                  matching ← result (is_matching_pong msg_buf nonce);
                  match matching with
                  | Ok true => _ ← note_authenticated_udp_activity received_at; mret Continue
                  | Ok false =>
                      r ← result (handle_udp_message msg_buf);
                      match r with
                      | Ok control =>
                          _ ← note_authenticated_udp_activity received_at;
                          match control with
                          | Continue => refresh_loop nonce inputs stop
                          | Close exit => mret (Close exit)
                          end
                      | Err err => if is_udp_qsp_recoverable err then refresh_loop nonce inputs stop else fail err
                      | Panic => panic
                      end
                  | Err err => if is_udp_qsp_recoverable err then refresh_loop nonce inputs stop else fail err
                  | Panic => panic
                  end
              end
          end
      end
  end.

Definition refresh_udp_path : M SessionControl :=
  nonce ← ask (env_random env);
  _ ← write_udp_message_and_flush (MPing (PingPayload_encode (mkPing nonce) []));
  '(inputs, stop) ← ask (env_refresh env);
  refresh_loop nonce inputs stop.

Definition recreate_udp_io : M unit :=
  s ← get;
  match as_active (cs_udp_state s) with
  | None => fail ProtocolViolation
  | Some udp =>
      let peer := io_peer (ut_io udp) in
      socket ← ask (env_bind env);
      _ ← try SIo (of_io socket);
      created ← ask (env_io env);
      max_gso ← try SIo (of_io created);
      transport_replace_io udp (UdpQspIo_new max_gso peer)
  end.

Definition refresh_udp_path_with_replacement_fallback : M SessionControl :=
  r ← result refresh_udp_path;
  match r with
  | Ok control => mret control
  | Panic => panic
  | Err err =>
      if is_udp_path_transport_error err then
        _ ← recreate_udp_io;
        refresh_udp_path
      else fail err
  end.

Definition handle_network_changed : M SessionControl :=
  s ← get;
  match cs_active_transport s, as_active (cs_udp_state s) with
  | ActiveUdpQsp, Some _ =>
      _ ← emit UdpPathRefreshStarted;
      r ← result refresh_udp_path_with_replacement_fallback;
      match r with
      | Ok Continue => _ ← emit UdpPathRefreshSucceeded; mret Continue
      | Ok (Close exit) => mret (Close exit)
      | Panic => panic
      | Err err =>
          _ ← emit UdpPathRefreshFailed;
          if negb (is_udp_path_transport_error err) then fail err else
          s ← get;
          if negb (cs_tcp_alive s) then
            _ ← emit NetworkChangedEvent;
            mret (Close NetworkChanged)
          else
            _ ← request_tcp_fallback UdpErrorReason;
            _ ← schedule_discovery_now;
            mret Continue
      end
  | _, _ =>
      _ ← emit NetworkChangedEvent;
      mret (Close NetworkChanged)
  end.

(** ** tcp.rs *)
Definition handle_tcp_message (msg_buf : OwnedMessageBuf) : M SessionControl :=
  message ← try SFrame (OwnedMessageBuf_message msg_buf);
  _ ← modify (log (ATcpRecv message));
  _ ← try SessionError_from_validation (validate_message message tcp_context);
  match message with
  | MData _ => send_to_tun_or_shutdown msg_buf
  | MRegisterOk payload => handle_register_ok payload
  | MRegisterFail payload => handle_register_fail payload
  | MPing payload =>
      ping_in ← try SPayload (PingPayload_decode payload);
      _ ← write_tcp_message (MPong (PongPayload_encode (mkPong (ping_nonce ping_in)) []));
      mret Continue
  | MPong payload =>
      _ ← try SPayload (PongPayload_decode payload);
      mret Continue
  | MClose payload =>
      close ← try SPayload (ClosePayload_decode payload);
      _ ← count MDisconnectClose;
      mret (Close (RemoteClose (close_code close)))
  | MSwitchToUdp payload => handle_switch_to_udp payload
  | MSwitchOk payload => handle_switch_ok payload
  | MFallbackToTcp payload => handle_fallback_to_tcp payload
  | MFallbackOk payload => handle_fallback_ok payload
  | MRegisterCid _ | MAuth _ | MAuthOk _ | MAuthFail _ | MUpgradeProbe _ | MUpgradeProbeAck _ | MUdpReady _
  | MSwitchAck _ => panic
  end.

(** The loop of [handle_tcp_read].  Every message takes a header out of the
    read buffer, which nothing fills in the meantime. *)
Fixpoint read_messages (fuel : nat) : M SessionControl :=
  match fuel with
  | O => panic
  | S fuel =>
      s ← get;
      let '(popped, channel) := try_pop_message (cs_tcp s) limits in
      _ ← modify (with_tcp channel);
      msg_buf ← try SMessage popped;
      match msg_buf with
      | None => mret Continue
      | Some msg_buf =>
          received_at ← ask (env_now env);
          control ← handle_tcp_message msg_buf;
          _ ← note_activity received_at;
          match control with
          | Close exit => mret (Close exit)
          | Continue => read_messages fuel
          end
      end
  end.

Definition handle_tcp_read : M SessionControl :=
  s ← get;
  read_messages (S (length (chan_read_buf (cs_tcp s)))).

(** ** driver.rs *)
Inductive SessionTimer := TPing | TIdle | TUdpLiveness | TUdpReconnect | TRegister | TUdpUpgrade.

Definition SessionTimer_into_event (t : SessionTimer) : SessionEvent :=
  match t with
  | TPing => EPingTick
  | TIdle => EIdleTimeout
  | TUdpLiveness => EUdpLivenessTimeout
  | TUdpReconnect => EUdpReconnectTick
  | TRegister => ERegisterTimeout
  | TUdpUpgrade => EUdpUpgradeTick
  end.

Inductive TunScheduling := UdpFlush | BatchablePacket | NonBatchingTun | Unchanged.

Definition defer_tun (t : TunScheduling) (was_deferred flush_was_pending flush_is_pending : bool) : bool :=
  match t with
  | UdpFlush | BatchablePacket => false
  | NonBatchingTun => flush_was_pending && flush_is_pending
  | Unchanged => was_deferred && flush_is_pending
  end.

Definition has_pending_udp_flush (s : Session) : bool :=
  bool_decide (cs_active_transport s = ActiveUdpQsp) &&
  match as_active (cs_udp_state s) with Some udp => has_pending_flush udp | None => false end.

Definition tun_scheduling (s : Session) (event : SessionEvent) : TunScheduling :=
  match event with
  | EUdpFlushReady => UdpFlush
  | ETunPacket (Some packet) =>
      if bool_decide (cs_active_transport s = ActiveUdpQsp) && negb (bool_decide (packet = []))
         && (zlen packet <=? max_data_len limits)
      then BatchablePacket else NonBatchingTun
  | ETunPacket None => NonBatchingTun
  | _ => Unchanged
  end.

Definition update_earliest_timer (t : Z * SessionTimer) (candidate_at : option Z) (candidate : SessionTimer)
    : Z * SessionTimer :=
  match candidate_at with
  | Some candidate_at => if candidate_at <? t.1 then (candidate_at, candidate) else t
  | None => t
  end.

(** The first part of [poll_event]. *)
Definition earliest_timer (s : Session) (next_ping_at : Z) : Z * SessionTimer :=
  let t := (cs_last_activity s + ct_idle_timeout timing, TIdle) in
  let t := update_earliest_timer t (Some next_ping_at) TPing in
  let t := if bool_decide (cs_active_transport s = ActiveUdpQsp) && cs_tcp_alive s then
             match cs_last_authenticated_udp_activity s with
             | Some last_authenticated =>
                 update_earliest_timer t (Some (last_authenticated + ct_udp_liveness_timeout timing)) TUdpLiveness
             | None => t
             end
           else t in
  let t := if is_waiting (cs_udp_state s) && negb (cs_discovery_task s)
           then update_earliest_timer t (reconnect_at (cs_udp_state s)) TUdpReconnect else t in
  let t := update_earliest_timer t (register_deadline (cs_udp_state s)) TRegister in
  update_earliest_timer t (UdpUpgradeState_timer_at (cs_udp_upgrade s)) TUdpUpgrade.

(** What is ready when the loop waits: the loop is dropped because the outer
    [select!] ended, the token was cancelled in between, or the sources offer
    something.  [of_first] is where the unbiased [select!] starts. *)
Record Offer := mkOffer {
  of_control : option (option ClientCommand);
  of_discovery : option (option QuicIds);
  of_tcp : option (io_result bytes);
  of_tun : option (option bytes);
  of_udp : UdpInput;
  of_first : nat;
}.

Inductive Ready := RDropped | RCancelled | ROffer (o : Offer).

Definition tcp_arm (s : Session) (o : Offer) : option (M SessionEvent) :=
  match (if cs_tcp_alive s then of_tcp o else None) with
  | Some (inl chunk) => Some (_ ← modify (λ s, with_tcp (read_more (cs_tcp s) chunk) s); mret (ETcpRead (zlen chunk)))
  | Some (inr e) => Some (fail (SIo e))
  | None => None
  end.

Definition tun_arm (s : Session) (can_receive_tun : bool) (o : Offer) : option (M SessionEvent) :=
  match (if can_receive_tun then of_tun o else None) with
  | Some maybe => Some (mret (ETunPacket maybe))
  | None => if has_pending_udp_flush s then Some (mret EUdpFlushReady) else None
  end.

Definition udp_arm (s : Session) (o : Offer) : option (M SessionEvent) :=
  match udp_receive_transport s with
  | None => None
  | Some udp =>
      match read_next_message udp (of_udp o) limits with
      | None => None
      | Some (udp, counters, r) =>
          Some (_ ← modify (put_transport udp);
                _ ← count_all counters;
                match r with Panic => panic | r => mret (EUdpResult r) end)
      end
  end.

Fixpoint first_ready {A} (arms : list (option A)) : option A :=
  match arms with
  | [] => None
  | Some a :: _ => Some a
  | None :: arms => first_ready arms
  end.

Definition packet_work (s : Session) (can_receive_tun : bool) (o : Offer) : option (M SessionEvent) :=
  let arms := [tcp_arm s o; tun_arm s can_receive_tun o; udp_arm s o] in
  first_ready (drop (of_first o) arms ++ take (of_first o) arms).

Definition poll_event (next_ping_at : Z) (can_receive_tun : bool) (ready : Ready) : M SessionEvent :=
  s ← get;
  let '(timer_at, timer) := earliest_timer s next_ping_at in
  now ← ask (env_now env);
  match ready with
  | RDropped => dropped
  | RCancelled => _ ← modify (with_cancelled true); mret EShutdown
  | ROffer o =>
      match (if cs_control_rx s then of_control o else None) with
      | Some (Some command) => mret (EControl command)
      | Some None => _ ← modify (with_control_rx false); mret EShutdown
      | None =>
          if timer_at <=? now then mret (SessionTimer_into_event timer) else
          match (if cs_discovery_task s then of_discovery o else None) with
          | Some result => mret (EDiscoveryResult result)
          | None =>
              match packet_work s can_receive_tun o with
              | Some work => work
              | None => mret (SessionTimer_into_event timer)
              end
          end
      end
  end.

(** The result carries the time of the next ping. *)
Definition handle_event (event : SessionEvent) (next_ping_at : Z) : M (SessionControl * Z) :=
  let stay (m : M SessionControl) : M (SessionControl * Z) := control ← m; mret (control, next_ping_at) in
  match event with
  | EShutdown => stay (_ ← count MDisconnectShutdown; mret (Close Shutdown))
  | EControl CmdStop => stay (_ ← modify (with_cancelled true); _ ← count MDisconnectShutdown; mret (Close Shutdown))
  | EControl CmdNetworkChanged => stay handle_network_changed
  | ETcpRead n => stay (
      if n =? 0 then
        s ← get;
        match cs_active_transport s with
        | ActiveUdpQsp => _ ← modify (with_tcp_alive false); mret Continue
        | ActiveTcp => _ ← count MDisconnectClose; mret (Close TcpClosed)
        end
      else handle_tcp_read)
  | ETunPacket None => stay (mret (Close (TunClosed Reader)))
  | ETunPacket (Some packet) => stay (handle_tun_packet packet)
  | EUdpResult (Ok msg_buf) => stay (
      received_at ← ask (env_now env);
      r ← result (handle_udp_message msg_buf);
      match r with
      | Ok control => _ ← note_authenticated_udp_activity received_at; mret control
      | Err err => if is_udp_path_transport_error err then handle_udp_event_error err else fail err
      | Panic => panic
      end)
  | EUdpResult (Err err) => stay (
      let err := SessionError_from_udp err in
      if is_udp_path_transport_error err then handle_udp_event_error err else fail err)
  | EUdpResult Panic => panic
  | EPingTick =>
      _ ← handle_ping_tick;
      next_ping_at ← schedule_next_ping;
      mret (Continue, next_ping_at)
  | EIdleTimeout => stay (
      _ ← count MDisconnectIdleTimeout;
      _ ← send_close_best_effort CCIdleTimeout;
      mret (Close IdleTimeout))
  | EUdpLivenessTimeout => stay (
      s ← get;
      if negb (bool_decide (cs_active_transport s = ActiveUdpQsp)) || negb (cs_tcp_alive s) then mret Continue else
      _ ← request_tcp_fallback UdpLivenessTimeout;
      _ ← schedule_discovery_retry;
      mret Continue)
  | EUdpReconnectTick => stay (
      s ← get;
      match cs_udp_state s with
      | NeedDiscovery _ _ =>
          _ ← emit UdpDiscoveryStarted;
          _ ← modify (with_discovery_task true);
          mret Continue
      | Pending _ _ _ _ => attempt_udp_registration
      | _ => mret Continue
      end)
  | ERegisterTimeout => stay handle_registration_timeout
  | EDiscoveryResult maybe_ids => stay (
      _ ← modify (with_discovery_task false);
      handle_discovery_result maybe_ids)
  | EUdpUpgradeTick => stay handle_udp_upgrade_tick
  | EUdpFlushReady => stay (
      r ← result flush_udp_transport;
      match r with
      | Err err => if is_udp_path_transport_error err then handle_udp_event_error err else mret Continue
      | Ok _ => mret Continue
      | Panic => panic
      end)
  end.

(** The locals of [run_event_loop]. *)
Record LoopState := mkLoop { next_ping_at : Z; defer_tun_until_flush : bool }.

(** One iteration: the exit, or the new locals. *)
Definition iteration (l : LoopState) (ready : Ready) : M (SessionExit + LoopState) :=
  s ← get;
  control ← (if cs_tcp_alive s && has_buffered_input (cs_tcp s) then handle_tcp_read else mret Continue);
  match control with
  | Close exit => mret (inl exit)
  | Continue =>
      s ← get;
      let flush_was_pending := has_pending_udp_flush s in
      let deferred := defer_tun_until_flush l && flush_was_pending in
      event ← poll_event (next_ping_at l) (negb deferred) ready;
      s ← get;
      let scheduling := tun_scheduling s event in
      '(control, next) ← handle_event event (next_ping_at l);
      match control with
      | Close exit => mret (inl exit)
      | Continue =>
          s ← get;
          mret (inr (mkLoop next (defer_tun scheduling deferred flush_was_pending (has_pending_udp_flush s))))
      end
  end.

(** [run_event_loop] on what is ready in each iteration; after the last one
    the loop is dropped. *)
Fixpoint run_loop (l : LoopState) (readies : list Ready) : M SessionExit :=
  match readies with
  | [] => dropped
  | ready :: readies =>
      next ← iteration l ready;
      match next with
      | inl exit => mret exit
      | inr l => run_loop l readies
      end
  end.

Definition run_event_loop (readies : list Ready) : M SessionExit :=
  next_ping_at ← schedule_next_ping;
  run_loop (mkLoop next_ping_at false) readies.

(** ** mod.rs, driver.rs: the end of a session *)
Record SessionOutcome := mkOutcome { out_exit : SessionExit; out_error : option SessionError }.

Definition SessionOutcome_from_error (err : SessionError) : SessionOutcome :=
  mkOutcome (SessionError_exit err) (Some err).
Definition SessionOutcome_from_exit (exit : SessionExit) : SessionOutcome := mkOutcome exit None.

Definition run_inner (readies : list Ready) : M SessionOutcome :=
  r ← result (run_event_loop readies);
  match r with
  | Ok exit => mret (SessionOutcome_from_exit exit)
  | Err err => _ ← count MDisconnectError; mret (SessionOutcome_from_error err)
  | Panic => panic
  end.

(** The signal that ends [run_inner] when nothing else does. *)
Inductive RunSignal := SigTunFault | SigCancel.

Definition run_until_signal (signal : RunSignal) (readies : list Ready) : M SessionOutcome :=
  completed ← timeout (run_inner readies);
  match completed, signal with
  | Some r, _ => try id r
  | None, SigTunFault => mret (SessionOutcome_from_exit TunFault)
  | None, SigCancel =>
      _ ← modify (with_cancelled true);
      _ ← count MDisconnectShutdown;
      mret (SessionOutcome_from_exit Shutdown)
  end.

Definition run (signal : RunSignal) (readies : list Ready) : M SessionOutcome :=
  outcome ← run_until_signal signal readies;
  _ ← match out_exit outcome with
      | Shutdown => send_close_best_effort CCNormal
      | TunClosed _ | TunFault => send_close_best_effort CCNormal
      | ProtocolError => send_close_best_effort CCProtocolError
      | _ => mret tt
      end;
  _ ← flush_pending_udp_transport_best_effort;
  _ ← shutdown_background_tasks;
  mret outcome.
End Session.
