(* ===== verification/ClientSafety.v ===== *)
(** * Safety of client sessions ([slt-client/src/runtime/session/])

    An invariant that ties the UDP path, the upgrade handshake, the preferred
    transport and the trace of a client session together.  Every handler keeps
    it, and it holds wherever the session can fail or be dropped, whatever the
    server sends and however TLS, sockets, discovery and the TUN queue behave. *)

From stdpp Require Import base tactics option list numbers.
From Stdlib Require Import ZArith Lia.
From S2P Require Import Prelude Effects Cid Framing TcpChannel Payloads Admissibility PacketNumber ReplayWindow PacketHeader Keys QspSession QspSafety UdpIo Config Backoff ClientState ClientSession.

(** ** Traces *)

(** The actions since the last registration, newest first. *)
Fixpoint since (tr : list action) : list action :=
  match tr with
  | [] => []
  | ARegistered :: _ => []
  | a :: tr => a :: since tr
  end.

(** The actions [ps], the newest first, happened in this order. *)
Fixpoint happened (ps : list (action → Prop)) (tr : list action) {struct tr} : Prop :=
  match ps, tr with
  | [], _ => True
  | _, [] => False
  | p :: ps', a :: tr' => p a ∧ happened ps' tr' ∨ happened ps tr'
  end.

(** The transport that is preferred after [tr]. *)
Fixpoint preferred (tr : list action) : ActiveTransport :=
  match tr with
  | [] => ActiveTcp
  | ASwitched t :: _ => t
  | _ :: tr => preferred tr
  end.

(** The messages of the upgrade handshake of attempt [id]. *)
Definition got_probe_ack (id : Z) (a : action) : Prop :=
  ∃ p ack, a = AUdpRecv (MUpgradeProbeAck p) ∧ UpgradeProbeAckPayload_decode p = Ok ack ∧ ack_upgrade_id ack = id.
Definition sent_ready (id : Z) (a : action) : Prop :=
  a = ATcpSent (MUdpReady (UdpReadyPayload_encode (mkUdpReady id) [])).
Definition got_switch (id : Z) (a : action) : Prop :=
  ∃ p m, a = ATcpRecv (MSwitchToUdp p) ∧ SwitchToUdpPayload_decode p = Ok m ∧ switch_upgrade_id m = id.
Definition sent_switch_ack (id : Z) (a : action) : Prop :=
  a = ATcpSent (MSwitchAck (SwitchAckPayload_encode (mkSwitchAck id) [])).
Definition got_switch_ok (id : Z) (a : action) : Prop :=
  ∃ p m, a = ATcpRecv (MSwitchOk p) ∧ SwitchOkPayload_decode p = Ok m ∧ switch_ok_upgrade_id m = id.

(** The client's side of the handshake, as far as the switch acknowledgement. *)
Definition acknowledged (id : Z) : list (action → Prop) :=
  [sent_switch_ack id; got_switch id; sent_ready id; got_probe_ack id].

(** The whole handshake of one attempt on the current registration. *)
Definition committed (tr : list action) : Prop :=
  ∃ id, happened (got_switch_ok id :: acknowledged id) (since tr).

(** Actions that change neither the registration nor the preferred transport
    and carry no DATA over UDP or to the tunnel. *)
Definition quiet (a : action) : Prop :=
  match a with ARegistered | ASwitched _ | AUdpSent (MData _) | ATun _ => False | _ => True end.

(** The newest action is the receipt of the DATA message that [buf] holds. *)
Definition just_received (buf : OwnedMessageBuf) (tr : list action) : Prop :=
  ∃ p older, OwnedMessageBuf_message buf = Ok (MData p) ∧
    (tr = ATcpRecv (MData p) :: older ∨ tr = AUdpRecv (MData p) :: older).

Lemma happened_nil tr : happened [] tr.
Proof. by destruct tr. Qed.

Lemma happened_cons ps a tr : happened ps tr → happened ps (a :: tr).
Proof. destruct ps; [done|]. intros H. by right. Qed.

Lemma client_since_cons a tr : a ≠ ARegistered → since (a :: tr) = a :: since tr.
Proof. by destruct a. Qed.

Lemma happened_since ps a tr : a ≠ ARegistered → happened ps (since tr) → happened ps (since (a :: tr)).
Proof. intros Ha H. rewrite client_since_cons by done. by apply happened_cons. Qed.

Lemma happened_now p ps a tr : a ≠ ARegistered → p a → happened ps (since tr) → happened (p :: ps) (since (a :: tr)).
Proof. intros Ha Hp H. rewrite client_since_cons by done. by left. Qed.

Lemma preferred_quiet a tr : quiet a → preferred (a :: tr) = preferred tr.
Proof. by destruct a. Qed.

Lemma preferred_udp tr :
  preferred tr = ActiveUdpQsp →
  ∃ later earlier, tr = later ++ ASwitched ActiveUdpQsp :: earlier ∧ ASwitched ActiveTcp ∉ later.
Proof.
  induction tr as [|a tr IH]; [done|].
  assert ((∃ t, a = ASwitched t) ∨ preferred (a :: tr) = preferred tr ∧ a ≠ ASwitched ActiveTcp) as [ [t ->]|[-> Ha] ].
  { destruct a; eauto. }
  - cbn. intros ->. exists [], tr. split; [done|]. apply not_elem_of_nil.
  - intros Hp. destruct (IH Hp) as (later & earlier & -> & Hl). exists (a :: later), earlier. split; [done|].
    rewrite elem_of_cons. intros [?|?]; [congruence|done].
Qed.

#[global] Arguments since : simpl never.
#[global] Arguments happened : simpl never.
#[global] Arguments preferred : simpl never.

Record trace_ok (tr : list action) : Prop := mkTraceOk {
  to_switch : ∀ newer older, tr = newer ++ ASwitched ActiveUdpQsp :: older → committed older;
  to_data : ∀ newer older p, tr = newer ++ AUdpSent (MData p) :: older → preferred older = ActiveUdpQsp;
  to_tun : ∀ newer older buf, tr = newer ++ ATun buf :: older → just_received buf older;
}.

Lemma trace_cons a tr :
  trace_ok tr → (a = ASwitched ActiveUdpQsp → committed tr) →
  (∀ p, a = AUdpSent (MData p) → preferred tr = ActiveUdpQsp) →
  (∀ buf, a = ATun buf → just_received buf tr) → trace_ok (a :: tr).
Proof.
  intros [Hs Hd Ht] Ha Hp Hb. constructor.
  - intros [|x newer] older E; simplify_eq/=; [by apply Ha|by eapply Hs].
  - intros [|x newer] older p E; simplify_eq/=; [by eapply Hp|by eapply Hd].
  - intros [|x newer] older buf E; simplify_eq/=; [by eapply Hb|by eapply Ht].
Qed.

Lemma trace_quiet a tr : quiet a → trace_ok tr → trace_ok (a :: tr).
Proof. intros Ha H. apply trace_cons; [done|by intros ->|by intros p ->|by intros b ->]. Qed.

(** ** Input *)
Definition batch_entry_ok (e : RecvMeta * bytes) : Prop := 0 ≤ meta_len e.1 ≤ zlen e.2 ∧ bytes_ok e.2.
Definition input_ok (i : UdpInput) : Prop := Forall (Forall batch_entry_ok) (in_batches i).
Definition ids_ok (ids : QuicIds) : Prop := Cid_ok (ids_dcid ids) ∧ Cid_ok (ids_scid ids).

(** What the environment is trusted with: secrets of 32 bytes, and buffers that
    are as long as their metadata say. *)
Record env_ok (env : Env) : Prop := mkEnvOk {
  eo_rand : ∀ n b, env_rand_bytes env n = Some b → array_ok 32 b;
  eo_refresh : ∀ n, Forall input_ok (env_refresh env n).1;
}.

Section Invariant.
Context `{B : Boring} {L : BoringLaws B} {T : BoringTotal B} (env : Env) (config : ClientConfig).

Lemma client_wp_ask {A} (f : nat → A) (Q : A → Session → Prop) E C s :
  (∀ n, Q (f n) (with_tick (S (cs_tick s)) s)) → wp (ask f) Q E C s.
Proof. intros H. apply H. Qed.

(** ** The invariant *)
Definition transport_ok (t : ClientTransport) : Prop :=
  (∃ sp, session_ok sp (ut_session t)) ∧ Forall bytes_ok (io_recv_queue (ut_io t)).

Definition registration_ok (r : PendingUdpQspRegistration) : Prop :=
  ∃ t, pr_session (pd_prepared r) = Some t ∧ transport_ok t.

Definition udp_ok (u : UdpState) : Prop :=
  match u with
  | Disabled | NeedDiscovery _ _ => True
  | Pending ids _ _ registration => ids_ok ids ∧ ∀ r, registration = Some r → registration_ok r
  | Active t => transport_ok t
  end.

(** The upgrade is in progress. *)
Definition in_flight (u : UdpUpgradeState) : Prop :=
  match u with Upgrading _ _ _ _ _ _ _ _ | AwaitingSwitchOk _ _ => True | _ => False end.

(** The upgrade state records what was received and sent. *)
Definition upgrade_ok (u : UdpUpgradeState) (tr : list action) : Prop :=
  match u with
  | Upgrading id _ _ _ _ acked ready _ =>
      (acked = true → happened [got_probe_ack id] (since tr)) ∧
      (ready = true → acked = true ∧ happened [sent_ready id; got_probe_ack id] (since tr))
  | AwaitingSwitchOk id _ => happened (acknowledged id) (since tr)
  | _ => True
  end.

(** The shape of a UDP state, without its contents. *)
Inductive kind := KDisabled | KNeedDiscovery | KPending | KActive.
Definition kind_of (u : UdpState) : kind :=
  match u with
  | Disabled => KDisabled | NeedDiscovery _ _ => KNeedDiscovery | Pending _ _ _ _ => KPending | Active _ => KActive
  end.

Record inv (buf : bytes) (act : ActiveTransport) (udp : UdpState) (ret : option ClientTransport)
    (upg : UdpUpgradeState) (disc alive : bool) (tr : list action) : Prop := mkInv {
  in_buf : bytes_ok buf;
  in_udp : udp_ok udp;
  in_ret : ∀ t, ret = Some t → transport_ok t ∧ (kind_of udp = KNeedDiscovery ∨ kind_of udp = KPending);
  in_active : act = ActiveUdpQsp → kind_of udp = KActive;
  in_flight_ok : in_flight upg → kind_of udp = KActive ∧ act = ActiveTcp;
  in_disc : disc = true → kind_of udp = KNeedDiscovery;
  in_alive : alive = false → act = ActiveUdpQsp;
  in_enabled : upgrade_enabled config = false → kind_of udp = KDisabled ∧ ret = None ∧ upg = UpgradeDisabled;
  in_upgrade : upgrade_ok upg tr;
  in_trace : trace_ok tr;
  in_preferred : preferred tr = act;
}.

(** The invariant looks at these fields only, so that it does not notice
    changes of the others. *)
Definition good (s : Session) : Prop :=
  inv (chan_read_buf (cs_tcp s)) (cs_active_transport s) (cs_udp_state s) (cs_retained_udp_transport s)
    (cs_udp_upgrade s) (cs_discovery_task s) (cs_tcp_alive s) (cs_trace s).

(** What the loop over the TCP messages depends on. *)
Definition tcp_input (s : Session) : bytes * bool := (chan_read_buf (cs_tcp s), cs_tcp_alive s).

Definition keeps (s s' : Session) : Prop := good s' ∧ tcp_input s' = tcp_input s.

(** Errors and dropped futures leave the invariant. *)
Abbreviation ok m Q s := (wp m Q (λ _, good) good s).

(** [s'] came from [s] by reading, writing and counting. *)
Record frame (s s' : Session) : Prop := mkFrame {
  fr_active : cs_active_transport s' = cs_active_transport s;
  fr_upgrade : cs_udp_upgrade s' = cs_udp_upgrade s;
  fr_disc : cs_discovery_task s' = cs_discovery_task s;
  fr_alive : cs_tcp_alive s' = cs_tcp_alive s;
  fr_buf : chan_read_buf (cs_tcp s') = chan_read_buf (cs_tcp s);
  fr_kind : kind_of (cs_udp_state s') = kind_of (cs_udp_state s);
  fr_ret : is_Some (cs_retained_udp_transport s) → is_Some (cs_retained_udp_transport s');
}.

Lemma frame_refl s : frame s s.
Proof. by constructor. Qed.

Lemma frame_trans s1 s2 s3 : frame s1 s2 → frame s2 s3 → frame s1 s3.
Proof. intros [] []. constructor; try congruence. auto. Qed.

Lemma client_keeps_refl s : good s → keeps s s.
Proof. by split. Qed.

Lemma client_keeps_trans s1 s2 s3 : keeps s1 s2 → keeps s2 s3 → keeps s1 s3.
Proof. intros [_ E1] [Hg E2]. split; [done|congruence]. Qed.

Lemma frame_input s s' : frame s s' → tcp_input s' = tcp_input s.
Proof. intros []. unfold tcp_input. congruence. Qed.

Lemma frame_keeps s s' : good s' → frame s s' → keeps s s'.
Proof. intros Hg Hf. split; [done|by apply frame_input]. Qed.

(** *** Logging *)
Lemma upgrade_cons u a tr : a ≠ ARegistered → upgrade_ok u tr → upgrade_ok u (a :: tr).
Proof.
  intros Ha. destruct u; try done; cbn [upgrade_ok].
  - intros [H1 H2]. split; intros E.
    + by apply happened_since, H1.
    + destruct (H2 E) as [? ?]. split; [done|by apply happened_since].
  - by apply happened_since.
Qed.

Lemma client_good_log a s : quiet a → good s → good (log a s).
Proof.
  intros Ha []. constructor; try done.
  - apply upgrade_cons; [by intros ->|done].
  - by apply trace_quiet.
  - etransitivity; [by apply preferred_quiet|done].
Qed.

Lemma frame_log a s : frame s (log a s).
Proof. by constructor. Qed.

Lemma log_counters ms s :
  ∃ new, Forall (λ a, ∃ m, a = ACount m) new ∧
    foldl (λ s m, log (ACount m) s) s ms = with_trace (new ++ cs_trace s) s.
Proof.
  revert s. induction ms as [|m ms IH]; intros s; cbn [foldl]; [exists []; split; [constructor|by destruct s]|].
  destruct (IH (log (ACount m) s)) as (new & Hn & ->). exists (new ++ [ACount m]). split.
  - apply Forall_app. split; [done|]. repeat constructor. by eexists.
  - cbn. by rewrite <- app_assoc.
Qed.

Lemma good_counted new s : Forall (λ a, ∃ m, a = ACount m) new → good s → good (with_trace (new ++ cs_trace s) s).
Proof.
  intros Hn Hs. induction Hn as [|a new [m ->] _ IH]; [by destruct s|]. exact (client_good_log (ACount m) _ I IH).
Qed.

Lemma count_ok m (Q : unit → Session → Prop) s : Q tt (log (ACount m) s) → ok (count m) Q s.
Proof. done. Qed.

(** *** Writing to TCP *)

(** [s'] is [s] after the message went out. *)
Record wrote (m : Message) (s s' : Session) : Prop := mkWrote {
  wr_frame : frame s s';
  wr_udp : cs_udp_state s' = cs_udp_state s;
  wr_ret : cs_retained_udp_transport s' = cs_retained_udp_transport s;
  wr_trace : ∃ new, Forall (λ a, ∃ c, a = ACount c) new ∧ cs_trace s' = ATcpSent m :: new ++ cs_trace s;
}.

Lemma client_count_key_update k rc s :
  ∃ new, Forall (λ a, ∃ m, a = ACount m) new ∧ count_key_update k rc s = with_trace (new ++ cs_trace s) s.
Proof.
  unfold count_key_update. destruct (_ =? 1); [destruct (maybe_request_key_update k rc).1.1|];
    first [exists [ACount MTlsKeyUpdate]; split; [repeat constructor; by eexists|done]|exists []; split; [constructor|by destruct s] ].
Qed.

Lemma write_tcp_ok limited m (Q : unit → Session → Prop) s :
  good s → short m → (∀ s', good s' → wrote m s s' → Q tt s') → ok (write_tcp env limited m) Q s.
Proof.
  intros Hg [_ Hm] HQ. unfold write_tcp. apply wp_bind, wp_get, wp_bind, client_wp_ask. intros n.
  destruct (env_tcp env n) as [rc progress]. set (w := match progress with Finished w => w | _ => _ end).
  pose proof (write_message_cases (cs_tcp s) m rc w ltac:(lia)) as Hw.
  destruct (write_message (cs_tcp s) m rc w) as [r c']. destruct Hw as [Eb Hr]. apply wp_bind, wp_modify.
  match goal with |- context [count_key_update ?k rc ?s0] =>
    destruct (client_count_key_update k rc s0) as (new & Hn & ->) end.
  match goal with |- wp _ _ _ _ ?x => set (s1 := x) end.
  assert (good s1) as Hg1.
  { apply (good_counted new (with_tcp c' (with_tick (S (cs_tick s)) s)) Hn). unfold good. cbn. rewrite Eb. exact Hg. }
  destruct r as [u|e|]; [| |done].
  - apply wp_modify, HQ; [by apply client_good_log|]. constructor; [by constructor|done|done|].
    by exists new.
  - destruct e as [frame|[]]; try exact Hg1. destruct progress, limited; exact Hg1.
Qed.

Lemma write_tcp_message_ok m (Q : unit → Session → Prop) s :
  good s → short m → (∀ s', good s' → wrote m s s' → Q tt s') → ok (write_tcp_message env m) Q s.
Proof. apply write_tcp_ok. Qed.

(** *** The UDP transport *)
Lemma put_good t0 t s :
  good s → udp_receive_transport s = Some t0 → transport_ok t →
  good (put_transport t s) ∧ frame s (put_transport t s) ∧ udp_receive_transport (put_transport t s) = Some t ∧
  cs_trace (put_transport t s) = cs_trace s.
Proof.
  intros Hg Et Ht. unfold put_transport, udp_receive_transport in *.
  destruct (cs_udp_state s) eqn:Eu; cbn [as_active] in Et; pose proof Hg as [? Hu Hr ? ? ? ? He ? ? ?]; rewrite Eu in *.
  1-3: destruct (Hr t0 Et) as [_ Hk]; destruct Hk; try done; cbn; rewrite Eu; (split_and!; [|by constructor|done|done]).
  - split; cbn; rewrite ?Eu; try done; [|intros Hen; by destruct (He Hen) as [? _] ]. intros ? [= <-]. auto.
  - split; cbn; rewrite ?Eu; try done; [|intros Hen; by destruct (He Hen) as [? _] ]. intros ? [= <-]. auto.
  - cbn. split_and!; [by constructor|by constructor; cbn; rewrite ?Eu|done|done].
Qed.

Lemma receive_ok t s : good s → udp_receive_transport s = Some t → transport_ok t.
Proof.
  intros [? Hu Hr ? ? ? ? ? ? ? ?]. unfold udp_receive_transport. destruct (cs_udp_state s); cbn [as_active].
  1-3: intros E; by apply Hr. by intros [= <-].
Qed.

Lemma active_receive t s : as_active (cs_udp_state s) = Some t → udp_receive_transport s = Some t.
Proof. intros E. unfold udp_receive_transport. by rewrite E. Qed.

(** The backend's receive queue does not change on sending. *)
Lemma flush_pending_queue io socket : io_recv_queue (flush_pending io socket).1 = io_recv_queue io.
Proof. unfold flush_pending. by repeat case_match. Qed.

Lemma send_packet_queue io packet socket : io_recv_queue (send_packet io packet socket).1 = io_recv_queue io.
Proof.
  unfold send_packet. do 2 (case_match; [done|]).
  match goal with |- context [if ?b then flush_pending io socket else _] => set (flush := b) end.
  assert (io_recv_queue (if flush then flush_pending io socket else (io, Ok tt)).1 = io_recv_queue io) as E.
  { destruct flush; [apply flush_pending_queue|done]. }
  destruct (if flush then _ else _) as [io1 r]. cbn [fst] in E. destruct r; [|done|done].
  case_match; [rewrite flush_pending_queue|]; done.
Qed.

Lemma transport_flush_ok t (Q : res IoError unit → Session → Prop) s :
  good s → udp_receive_transport s = Some t →
  (∀ r s', r ≠ Panic → good s' → frame s s' → is_Some (udp_receive_transport s') → Q r s') →
  ok (transport_flush env t) Q s.
Proof.
  intros Hg Et HQ. unfold transport_flush. apply wp_bind, client_wp_ask. intros n.
  pose proof (receive_ok _ _ Hg Et) as [Hs Hq].
  destruct (flush_pending_step (ut_io t) (env_udp env n)) as (_ & Hp & _).
  pose proof (flush_pending_queue (ut_io t) (env_udp env n)) as Eq.
  destruct (flush_pending (ut_io t) (env_udp env n)) as [io r]. cbn [fst snd] in *. apply wp_bind, wp_modify.
  destruct (put_good t (mkTransport (ut_session t) io) (with_tick (S (cs_tick s)) s) Hg Et) as (Hg' & Hf & Er & _).
  { split; [done|]. cbn. by rewrite Eq. }
  assert (∀ r, r ≠ Panic → Q r (put_transport (mkTransport (ut_session t) io) (with_tick (S (cs_tick s)) s))) as H.
  { intros r' Hr'. apply HQ; [done|done|by destruct Hf; constructor|by rewrite Er]. }
  destruct r as [?|[]|]; try done; by apply H.
Qed.

(** DATA goes out over UDP only while UDP is preferred. *)
Definition may_send (m : Message) (s : Session) : Prop :=
  quiet (AUdpSent m) ∨ cs_active_transport s = ActiveUdpQsp.

Lemma good_udp_sent m s : may_send m s → good s → good (log (AUdpSent m) s).
Proof.
  intros [Hm|Ha] Hg; [by apply client_good_log|]. destruct Hg. constructor; try done.
  - by apply upgrade_cons.
  - apply trace_cons; [done|done| |done]. intros p _. congruence.
Qed.

Lemma transport_write_ok t m (Q : res UdpQspError unit → Session → Prop) s :
  good s → udp_receive_transport s = Some t → short m → may_send m s →
  (∀ r s', r ≠ Panic → good s' → frame s s' → is_Some (udp_receive_transport s') → Q r s') →
  ok (transport_write_message env t m) Q s.
Proof.
  intros Hg Et [Hb Hl] Hm HQ. unfold transport_write_message. rewrite encode_message_wire by lia. cbn [app].
  pose proof (receive_ok _ _ Hg Et) as [ [sp Hs] Hq].
  assert (zlen (wire_message m) < 2 ^ 31) as Hl' by (rewrite zlen_wire_message; unfold HEADER_LEN; lia).
  destruct (send_ok sp (ut_session t) (wire_message m) (λ _, None) Hs (wire_message_ok m Hb) Hl') as [Hs' Hr].
  destruct (send (ut_session t) (wire_message m) (λ _, None)) as [q' r]. cbn [fst snd] in *.
  assert (r ≠ Panic) as Hrp by (destruct Hr as [(_ & _ & ->)|(_ & _ & _ & ? & _ & ->)]; done). clear Hr.
  destruct r as [packet|e|]; [| |done].
  - apply wp_bind, client_wp_ask. intros n. destruct (send_packet_step (ut_io t) packet (env_udp env n)) as [_ Hp].
    pose proof (send_packet_queue (ut_io t) packet (env_udp env n)) as Eq.
    destruct (send_packet (ut_io t) packet (env_udp env n)) as [io r]. cbn [fst snd] in *. apply wp_bind, wp_modify.
    destruct (put_good t (mkTransport q' io) (with_tick (S (cs_tick s)) s) Hg Et) as (Hg' & Hf & Er & _).
    { split; [by exists sp|]. cbn. by rewrite Eq. }
    match goal with |- wp _ _ _ _ ?x => set (s1 := x) in * end.
    assert (frame s s1) as Hf1 by (by destruct Hf; constructor).
    assert (∀ r, r ≠ Panic → Q r s1) as H by (intros r' Hr'; apply HQ; [done|done|done|by rewrite Er]).
    destruct r as [?|e|]; [| |done].
    + apply wp_bind, wp_modify. assert (good (log (AUdpSent m) s1)) as Hg2.
      { apply good_udp_sent; [|done]. destruct Hm as [?|Ha]; [by left|right]. by rewrite (fr_active _ _ Hf1). }
      pose proof (frame_trans _ _ _ Hf1 (frame_log (AUdpSent m) s1)) as Hf2.
      apply wp_bind. destruct (eqb _ _); [apply wp_ret|apply wp_modify]; apply wp_ret.
      * apply HQ; [done|done|done|by exists (mkTransport q' io)].
      * apply HQ; [done|by apply client_good_log|by eapply frame_trans; [|apply frame_log]|by exists (mkTransport q' io)].
    + destruct e; first [exact Hg'|by apply H].
  - apply wp_bind, wp_modify.
    destruct (put_good t (mkTransport q' (ut_io t)) s Hg Et) as (Hg' & Hf & Er & _); [by split; [exists sp|] |].
    apply wp_ret, HQ; [done|done|done|by rewrite Er].
Qed.

(** What writing and flushing leave behind. *)
Definition steps (s s' : Session) : Prop := good s' ∧ frame s s'.

Lemma write_udp_and_flush_ok m s :
  good s → short m → may_send m s → ok (write_udp_message_and_flush env m) (λ _ s', steps s s') s.
Proof.
  intros Hg Hs Hm. unfold write_udp_message_and_flush. apply wp_bind, wp_get.
  destruct (udp_receive_transport s) as [t|] eqn:Et; [|exact Hg]. apply wp_bind, transport_write_ok; try done.
  intros r s1 Hr Hg1 Hf1 [t1 Et1]. apply wp_bind, wp_try; [done| |intros; exact Hg1]. intros _ _.
  apply wp_bind, wp_get. rewrite Et1. apply wp_bind, (transport_flush_ok t1); [done|done|].
  intros r' s2 Hr' Hg2 Hf2 _. apply wp_try; [done| |intros; exact Hg2]. intros _ _. split; [done|by eapply frame_trans].
Qed.

Lemma flush_udp_transport_ok s : good s → ok (flush_udp_transport env) (λ _ s', steps s s') s.
Proof.
  intros Hg. unfold flush_udp_transport. apply wp_bind, wp_get.
  destruct (as_active (cs_udp_state s)) as [t|] eqn:Et; [|exact Hg]. apply active_receive in Et.
  apply wp_bind, (transport_flush_ok t); [done|done|]. intros r s1 Hr Hg1 Hf1 _.
  apply wp_try; [done|by split|intros; exact Hg1].
Qed.

Lemma wrote_steps m s s' : good s' → wrote m s s' → steps s s'.
Proof. intros Hg []. by split. Qed.

Lemma write_active_ok m s : good s → short m → ok (write_active_message env m) (λ _ s', steps s s') s.
Proof.
  intros Hg Hs. unfold write_active_message. apply wp_bind, wp_get. destruct (cs_active_transport s) eqn:Ea.
  - apply write_tcp_message_ok; [done|done|]. intros s'. apply wrote_steps.
  - destruct (as_active (cs_udp_state s)) as [t|] eqn:Et; [|exact Hg]. apply active_receive in Et.
    apply wp_bind, transport_write_ok; try done; [by right|]. intros r s1 Hr Hg1 Hf1 _.
    apply wp_try; [done|by split|intros; exact Hg1].
Qed.

Lemma client_flush_best_effort_ok (E : SessionError → Session → Prop) (C : Session → Prop) s :
  good s → wp (flush_pending_udp_transport_best_effort env) (λ _ s', good s') E C s.
Proof.
  intros Hg. unfold flush_pending_udp_transport_best_effort. apply wp_bind, wp_get.
  destruct (cs_active_transport s); [exact Hg|].
  destruct (as_active (cs_udp_state s)) as [t|] eqn:Et; [|exact Hg]. destruct (has_pending_flush t); [|exact Hg].
  apply active_receive in Et. apply wp_bind, wp_timeout.
  eapply wp_weaken; [apply (transport_flush_ok t (λ _ s', good s')); by try done|..]; cbv beta; by intros.
Qed.

(** *** Scheduling *)
Lemma draw_delay_ok b (Q : ReconnectBackoff * Z → Session → Prop) E C s :
  (∀ r t, Q r (with_tick t s)) → wp (draw_delay env b) Q E C s.
Proof.
  intros HQ. unfold draw_delay. apply wp_bind. destruct (_ >? 0).
  - apply client_wp_ask. intros n. apply wp_ret, HQ.
  - apply wp_ret, wp_ret. specialize (HQ (next_delay b 0) (cs_tick s)). by destruct s.
Qed.

(** [s'] is [s] with another UDP path. *)
Record repathed (s s' : Session) : Prop := mkRepathed {
  re_active : cs_active_transport s' = cs_active_transport s;
  re_disc : cs_discovery_task s' = cs_discovery_task s;
  re_alive : cs_tcp_alive s' = cs_tcp_alive s;
  re_buf : chan_read_buf (cs_tcp s') = chan_read_buf (cs_tcp s);
  re_trace : cs_trace s' = cs_trace s;
}.

Lemma good_need_discovery s s' b at_ :
  good s → upgrade_enabled config = true → cs_active_transport s = ActiveTcp → repathed s s' →
  cs_udp_state s' = NeedDiscovery b at_ → cs_udp_upgrade s' = UpgradeIdle →
  (∀ t, cs_retained_udp_transport s' = Some t → transport_ok t) → good s'.
Proof.
  intros [] En Ea [Ea' Ed El Eb Et] Eu Eg Hr. constructor; rewrite ?Ea', ?Ed, ?El, ?Eb, ?Et, ?Eu, ?Eg; try done; try congruence.
  intros t E. split; [by apply Hr|by left].
Qed.

Lemma good_disabled s :
  good s → upgrade_enabled config = false → good (disable_udp s) ∧ repathed s (disable_udp s).
Proof.
  intros [] En. split; [|by constructor]. destruct (in_enabled0 En) as (Ek & _ & _).
  constructor; try done; cbn.
  - intros E. rewrite Ek in in_active0. by apply in_active0 in E.
  - intros E. rewrite Ek in in_disc0. by apply in_disc0 in E.
Qed.

Lemma schedule_retry_ok preserve (Q : unit → Session → Prop) s :
  good s → cs_active_transport s = ActiveTcp → (∀ s', good s' → repathed s s' → Q tt s') →
  ok (schedule_discovery_retry_with_receive_path env config preserve) Q s.
Proof.
  intros Hg Ha HQ. unfold schedule_discovery_retry_with_receive_path.
  destruct (upgrade_enabled config) eqn:En; cbn [negb]; [|destruct (good_disabled s Hg En); by apply wp_modify, HQ].
  apply wp_bind, wp_modify, wp_bind, wp_get, wp_bind.
  set (s1 := with_udp_upgrade UpgradeIdle s). change (cs_retained_udp_transport s1) with (cs_retained_udp_transport s).
  change (cs_udp_state s1) with (cs_udp_state s).
  apply (wp_mono _ (λ _ s2, repathed s s2 ∧ cs_udp_upgrade s2 = UpgradeIdle ∧
    ∀ t, cs_retained_udp_transport s2 = Some t → transport_ok t)).
  - pose proof (in_udp _ _ _ _ _ _ _ _ Hg) as Hu. pose proof (λ t E, proj1 (in_ret _ _ _ _ _ _ _ _ Hg t E)) as Hr.
    destruct (preserve && _) eqn:Ep.
    + destruct (cs_udp_state s) eqn:Eu; try (apply wp_ret; by split_and!; [constructor|..] ).
      apply wp_modify. split_and!; [by constructor|done|]. by intros ? [= <-].
    + destruct preserve; cbn [negb]; [apply wp_ret|apply wp_modify]; (split_and!; [by constructor|done|done]).
  - cbv beta. intros _ s2 (Hp & Eg & Hr). apply wp_bind, wp_get, wp_bind, draw_delay_ok. intros [b d] t.
    apply wp_bind, client_wp_ask. intros n. apply wp_modify.
    apply HQ; [|by destruct Hp; constructor].
    by eapply (good_need_discovery s _ b (env_now env n + d) Hg En Ha); [destruct Hp; constructor|..].
Qed.

Lemma schedule_now_ok (Q : unit → Session → Prop) s :
  good s → cs_active_transport s = ActiveTcp → (∀ s', good s' → repathed s s' → Q tt s') →
  ok (schedule_discovery_now env config) Q s.
Proof.
  intros Hg Ha HQ. unfold schedule_discovery_now.
  destruct (upgrade_enabled config) eqn:En; cbn [negb]; [|destruct (good_disabled s Hg En); by apply wp_modify, HQ].
  apply wp_bind, client_wp_ask. intros n. apply wp_modify. apply HQ; [|by constructor].
  by eapply (good_need_discovery s _ (config_backoff config) (env_now env n) Hg En Ha); [constructor|..].
Qed.

Lemma repathed_keeps s s' : good s' → repathed s s' → keeps s s'.
Proof. intros Hg []. split; [done|]. unfold tcp_input. congruence. Qed.

Lemma schedule_registration_ok s : good s → ok (schedule_registration_retry env) (λ _ s', keeps s s') s.
Proof.
  intros Hg. unfold schedule_registration_retry. apply wp_bind, wp_get.
  destruct (cs_udp_state s) as [|?|ids b at_ r|?] eqn:Eu; try (by apply wp_ret, client_keeps_refl).
  apply wp_bind, draw_delay_ok. intros [b' d] t. apply wp_bind, client_wp_ask. intros n. apply wp_modify.
  split; [|done]. destruct Hg. rewrite Eu in *. constructor; try done. split; [by apply in_udp0|done].
Qed.

(** *** Falling back to TCP *)
Lemma discard_ok (Q : unit → Session → Prop) s :
  good s → (∀ s', steps s s' → Q tt s') → ok discard_pending_udp_send_for_fallback Q s.
Proof.
  intros Hg HQ. apply wp_modify, HQ. destruct (udp_receive_transport s) as [t|] eqn:Et; [|by split; [|apply frame_refl] ].
  destruct (put_good t (transport_discard_pending_send t) s Hg Et) as (? & ? & _); [|by split].
  exact (receive_ok _ _ Hg Et).
Qed.

(** TCP becomes the preferred transport. *)
Lemma good_to_tcp s : good s → cs_tcp_alive s = true → good (log (ASwitched ActiveTcp) (with_active_transport ActiveTcp s)).
Proof.
  intros [] Hal. constructor; try done.
  - intros H. by destruct (in_flight_ok0 H).
  - cbn. congruence.
  - by apply upgrade_cons.
  - by apply trace_cons.
Qed.

(** What a switch to TCP leaves. *)
Record on_tcp (s s' : Session) : Prop := mkOnTcp {
  ot_good : good s';
  ot_active : cs_active_transport s' = ActiveTcp;
  ot_buf : chan_read_buf (cs_tcp s') = chan_read_buf (cs_tcp s);
  ot_kind : kind_of (cs_udp_state s') = kind_of (cs_udp_state s);
  ot_alive : cs_tcp_alive s' = cs_tcp_alive s;
}.

Lemma on_tcp_keeps s s' : on_tcp s s' → keeps s s'.
Proof. intros []. split; [done|]. unfold tcp_input. congruence. Qed.

Lemma to_tcp_ok c reason (Q : unit → Session → Prop) s :
  good s → cs_tcp_alive s = true → (∀ s', on_tcp s s' → Q tt s') →
  ok (match cs_active_transport s with
      | ActiveUdpQsp =>
          _ ← count c;
          _ ← set_active_transport ActiveTcp;
          note_transport_change ActiveUdpQsp ActiveTcp reason
      | ActiveTcp => mret tt
      end) Q s.
Proof.
  intros Hg Hal HQ. destruct (cs_active_transport s) eqn:Ea; [by apply wp_ret, HQ|].
  apply wp_bind, wp_modify, wp_bind, wp_modify, wp_modify, HQ. constructor; try done.
  apply client_good_log; [done|]. apply (good_to_tcp (log (ACount c) s)); [by apply client_good_log|done].
Qed.

Lemma request_fallback_ok reason (Q : unit → Session → Prop) s :
  good s → (∀ s', on_tcp s s' → Q tt s') → ok (request_tcp_fallback env reason) Q s.
Proof.
  intros Hg HQ. unfold request_tcp_fallback. apply wp_bind, wp_get.
  destruct (cs_tcp_alive s) eqn:Hal; cbn [negb]; [|exact Hg]. apply wp_bind.
  apply (wp_mono _ (λ _ s', steps s s')).
  - destruct (cs_pending_tcp_fallback s); [apply wp_ret; by split; [|apply frame_refl] |].
    apply wp_bind, client_wp_ask. intros n. apply wp_bind, write_tcp_message_ok; [exact Hg|by eapply short_u64|].
    intros s1 Hg1 Hw. apply wp_modify. destruct (wr_frame _ _ _ Hw). by split; [|constructor].
  - cbv beta. intros _ s1 [Hg1 Hf1]. apply wp_bind, discard_ok; [done|]. intros s2 [Hg2 Hf2].
    pose proof (frame_trans _ _ _ Hf1 Hf2) as [Ea _ _ El Eb Ek _]. apply wp_bind, wp_get.
    apply to_tcp_ok; [done|congruence|]. intros s3 []. apply HQ. constructor; try done; congruence.
Qed.

Lemma handle_udp_error_ok e s :
  good s → ok (handle_udp_error env config e) (λ _ s', keeps s s') s.
Proof.
  intros Hg. unfold handle_udp_error. destruct (is_udp_qsp_recoverable e); [by apply wp_ret, client_keeps_refl|].
  apply wp_bind, wp_get.
  assert (good (with_last_authenticated_udp_activity None (with_retained_udp_transport None s))) as Hg'.
  { destruct Hg. constructor; try done. intros En. by destruct (in_enabled0 En) as (? & _ & ?). }
  assert (ok (if negb (cs_tcp_alive s) then mret false else
              _ ← request_tcp_fallback env UdpErrorReason;
              _ ← schedule_discovery_retry_after_udp_failure env config;
              mret true) (λ _ s', keeps s s') s) as Hrest.
  { destruct (cs_tcp_alive s); cbn [negb]; [|by apply wp_ret, client_keeps_refl].
    apply wp_bind, request_fallback_ok; [done|]. intros s1 Ht1. pose proof Ht1 as [Hg1 Ha1 _ _ _].
    apply wp_bind, schedule_retry_ok; [done|done|]. intros s2 Hg2 Hr2. apply wp_ret.
    eapply client_keeps_trans; [by apply on_tcp_keeps|by apply repathed_keeps]. }
  destruct (cs_udp_state s), (cs_retained_udp_transport s); try exact Hrest;
    (apply wp_bind, wp_modify, wp_ret; by split).
Qed.

Lemma handle_udp_event_error_ok e s :
  good s → ok (handle_udp_event_error env config e) (λ _ s', keeps s s') s.
Proof.
  intros Hg. apply wp_bind. eapply wp_mono; [by apply handle_udp_error_ok|]. cbv beta. intros [] s1 [Hg1 Eb1].
  - by apply wp_ret.
  - apply wp_bind, wp_modify, wp_ret. split; [by apply client_good_log|done].
Qed.

(** Failures of the first attempt lead to the second. *)
Lemma send_with_fallback_ok (first retry : M unit) s :
  good s → ok first (λ _ s', good s') s → (∀ s', good s' → ok retry (λ _ s', good s') s') →
  ok (send_with_fallback env config first retry) (λ _ s', good s') s.
Proof.
  intros Hg Hf Hr. unfold send_with_fallback. apply wp_bind, wp_get, wp_bind, wp_result.
  eapply wp_weaken; [exact Hf|..|done]; cbv beta; [by intros|]. intros e s1 Hg1.
  destruct (negb _); [exact Hg1|]. destruct (is_udp_path_transport_error e); [|exact Hg1]. apply wp_bind.
  eapply wp_mono; [by apply handle_udp_error_ok|]. cbv beta. intros [] s2 [Hg2 _]; [by apply Hr|exact Hg2].
Qed.

Lemma preferred_and_flush_ok m limited s :
  good s → short m → quiet (AUdpSent m) →
  ok (write_preferred_and_flush env m (write_tcp env limited)) (λ _ s', good s') s.
Proof.
  intros Hg Hs Hm. apply wp_bind, wp_get. destruct (cs_active_transport s).
  - apply write_tcp_ok; [done|done|]. by intros.
  - eapply wp_mono; [apply write_udp_and_flush_ok; [done|done|by left] |]. by intros _ s' [? _].
Qed.

Lemma client_ping_tick_ok s : good s → ok (handle_ping_tick env config) (λ _ s', good s') s.
Proof.
  intros Hg. apply wp_bind, client_wp_ask. intros n.
  assert (short (MPing (PingPayload_encode (mkPing (env_random env n)) []))) as Hs by (by eapply short_u64).
  apply send_with_fallback_ok; [exact Hg|by apply preferred_and_flush_ok|].
  intros s' Hg'. apply write_tcp_message_ok; [done|done|]. by intros.
Qed.

Lemma client_short_close code : short (MClose (ClosePayload_encode (mkClose code) [])).
Proof. split; [|done]. cbn. constructor; [apply to_u8_ok|constructor]. Qed.

Lemma client_send_close_ok code s : good s → ok (send_close env config code) (λ _ s', good s') s.
Proof.
  intros Hg. apply send_with_fallback_ok; [done|apply preferred_and_flush_ok; [done|apply client_short_close|done] |].
  intros s' Hg'. apply write_tcp_ok; [done|apply client_short_close|]. by intros.
Qed.

(** A CLOSE that may fail or take too long. *)
Lemma client_close_best_effort_ok code (E : SessionError → Session → Prop) (C : Session → Prop) s :
  good s → wp (send_close_best_effort env config code) (λ _ s', good s') E C s.
Proof.
  intros Hg. apply wp_bind, wp_timeout. eapply wp_weaken; [by apply client_send_close_ok|..]; cbv beta; by intros.
Qed.

(** *** Packets for the tunnel and from it *)
Definition limits_ok : Prop := max_data_len (session_limits config) ≤ 2 ^ 30.

Lemma client_tun_packet_ok packet s :
  limits_ok → good s → bytes_ok packet → ok (handle_tun_packet env config packet) (λ _ s', good s') s.
Proof.
  intros Hl Hg Hb. unfold handle_tun_packet. case_bool_decide; [by apply wp_ret|]. rewrite Z.gtb_ltb.
  destruct (Z.ltb_spec (max_data_len (session_limits config)) (zlen packet)).
  { apply wp_bind, wp_modify, wp_ret. by apply client_good_log. }
  assert (short (MData packet)) as Hs by (split; [done|cbn; unfold limits_ok in Hl; lia]).
  apply wp_bind. eapply wp_mono; [apply send_with_fallback_ok; [done|..]|by intros].
  - eapply wp_mono; [by apply write_active_ok|]. by intros _ s' [? _].
  - intros s' Hg'. apply write_tcp_message_ok; [done|done|]. by intros.
Qed.

Lemma send_to_tun_ok buf s :
  good s → just_received buf (cs_trace s) → ok (send_to_tun_or_shutdown env buf) (λ _ s', keeps s s') s.
Proof.
  intros Hg Hj. apply wp_bind, client_wp_ask. intros n. destruct (env_tun env n).
  - apply wp_bind, wp_modify, wp_ret. split; [|done]. destruct Hg. constructor; try done.
    + by apply upgrade_cons.
    + apply trace_cons; [done|done|done|]. by intros ? [= <-].
  - apply wp_ret. by split.
  - apply wp_bind, wp_modify, wp_bind, wp_modify, wp_ret. split; [|done].
    by apply (client_good_log (ACount MDisconnectShutdown)) in Hg.
  - exact Hg.
Qed.

(** *** Fallback messages *)
Lemma client_fallback_to_tcp_ok payload s :
  good s → cs_tcp_alive s = true → bytes_ok payload →
  ok (handle_fallback_to_tcp env config payload) (λ _ s', keeps s s') s.
Proof.
  intros Hg Hal Hb. unfold handle_fallback_to_tcp. apply wp_bind, wp_try.
  { exact (pc_no_panic (A := FallbackToTcpPayload) _ Hb). }
  2: { intros; exact Hg. }
  intros request _. apply wp_bind, wp_get, wp_bind. apply (wp_mono _ (λ _ s', keeps s s')).
  - case_bool_decide; [by apply wp_ret, client_keeps_refl|].
    apply wp_bind, discard_ok; [done|]. intros s1 [Hg1 Hf1]. apply wp_bind.
    rewrite <- (fr_active _ _ Hf1). apply to_tcp_ok; [done|by rewrite (fr_alive _ _ Hf1)|].
    intros s2 Ht2. pose proof Ht2 as [Hg2 Ha2 _ _ _]. apply wp_bind, schedule_retry_ok; [done|done|]. intros s3 Hg3 Hr3.
    apply wp_modify. apply (client_keeps_trans s s1); [by apply frame_keeps|].
    apply (client_keeps_trans s1 s2); [by apply on_tcp_keeps|by apply (repathed_keeps s2 s3)].
  - cbv beta. intros _ s1 Hk1. apply wp_bind, write_tcp_message_ok; [apply Hk1|by eapply short_u64|].
    intros s2 Hg2 Hw2. apply wp_ret. eapply client_keeps_trans; [done|]. apply frame_keeps; [done|apply Hw2].
Qed.

Lemma client_fallback_ok_ok payload s :
  good s → bytes_ok payload → ok (handle_fallback_ok payload) (λ _ s', keeps s s') s.
Proof.
  intros Hg Hb. unfold handle_fallback_ok. apply wp_bind, wp_try.
  { exact (pc_no_panic (A := FallbackOkPayload) _ Hb). }
  2: { intros; exact Hg. }
  intros fok _. apply wp_bind, wp_get, wp_bind. case_bool_decide; [apply wp_modify|]; apply wp_ret; by split.
Qed.

(** *** Registration *)
Context (EO : env_ok env).

Lemma random_array_ok (Q : bytes → Session → Prop) (E : SessionError → Session → Prop) C s :
  (∀ e t, E e (with_tick t s)) → (∀ b t, array_ok 32 b → Q b (with_tick t s)) → wp (random_array env) Q E C s.
Proof.
  intros HE HQ. apply wp_bind, client_wp_ask. intros n. destruct (env_rand_bytes env n) as [b|] eqn:Er; [|apply HE].
  apply wp_ret, HQ. by apply (eo_rand _ EO n).
Qed.

Lemma random_u32_ok (Q : Z → Session → Prop) (E : SessionError → Session → Prop) C s :
  (∀ x t, 0 ≤ x < 2 ^ 32 → Q x (with_tick t s)) → wp (random_u32 env) Q E C s.
Proof. intros HQ. apply wp_bind, client_wp_ask. intros n. apply wp_ret, HQ. by apply Z.mod_pos_bound. Qed.

(** A prepared registration carries a session with the reversed directions,
    and its payload is the encoding of what the session was made from. *)
Definition prepared_ok (p : PreparedUdpQspRegistration) : Prop :=
  (∃ t, pr_session p = Some t ∧ transport_ok t) ∧ bytes_ok (pr_payload_buf p) ∧ zlen (pr_payload_buf p) ≤ 2 ^ 30.

(** What a preparation makes: the payload tells the server the secrets and the
    first packet numbers, with the directions as the server sees them; the
    client's session has them reversed. *)
Definition prepared_from (ids : QuicIds) (cipher : CipherSuite) (payload : RegisterCidPayload)
    (p : PreparedUdpQspRegistration) : Prop :=
  RegisterCid_wf payload ∧ pr_payload_buf p = register_wire payload ∧
  reg_client_to_server_cid payload = ids_dcid ids ∧ reg_server_to_client_cid payload = ids_scid ids ∧
  reg_cipher payload = cipher ∧ reg_key_phase payload = false ∧ reg_pn_start payload < 2 ^ 32 ∧ reg_pn_start_rx payload < 2 ^ 32 ∧
  ∃ keys max_gso, UdpQspKeys_new cipher (reg_secret_rx payload) (reg_secret_tx payload) = Ok keys ∧
    pr_session p = Some (mkTransport
      (QuicQspSession_new (ids_scid ids) (ids_dcid ids) keys (reg_pn_start_rx payload) (reg_pn_start payload) false)
      (UdpQspIo_new max_gso (ids_peer ids))).

Lemma prepared_from_ok ids cipher payload p : ids_ok ids → prepared_from ids cipher payload p → prepared_ok p.
Proof.
  intros [Hd Hs] (Hw & Eb & _ & _ & _ & _ & _ & _ & keys & g & Hk & Es). split_and!.
  - eexists. split; [exact Es|]. split; [|constructor]. eexists.
    destruct Hw as (_ & _ & _ & _ & _ & ? & ?). by eapply session_ok_new.
  - rewrite Eb. by apply register_wire_bytes.
  - rewrite Eb. destruct (register_wire_shape _ Hw) as (E & ? & _). rewrite E. lia.
Qed.

Lemma prepare_ok ids cipher (Q : PreparedUdpQspRegistration → Session → Prop) (E : SessionError → Session → Prop) C s :
  ids_ok ids → (∀ e t, E e (with_tick t s)) →
  (∀ payload p t, prepared_from ids cipher payload p → Q p (with_tick t s)) →
  wp (prepare_udp_qsp_registration env ids cipher) Q E C s.
Proof.
  intros [Hd Hs] HE HQ. unfold prepare_udp_qsp_registration.
  apply wp_bind, random_array_ok; [done|]. intros c2s t1 Hc. apply wp_bind, random_array_ok; [intros; apply HE|]. intros s2c t2 H2.
  apply wp_bind, random_u32_ok. intros p1 t3 Hp1. apply wp_bind, random_u32_ok. intros p2 t4 Hp2.
  set (payload := mkRegister _ _ _ _ _ _ _ _). cbv zeta.
  apply wp_bind. destruct (Z.eq_dec (cid_len (ids_dcid ids)) MAX_DCID_LEN) as [El|El].
  2: { unfold RegisterCidPayload_encode. cbn [reg_client_to_server_cid payload].
       rewrite (proj2 (Z.eqb_neq _ _) El). apply HE. }
  assert (RegisterCid_wf payload) as Hw by (split_and!; try done; cbn; unfold u64_ok; lia).
  rewrite RegisterCid_encode_wire by done. apply wp_ret. cbn [app].
  destruct (UdpQspKeys_new_total cipher c2s s2c (proj1 Hc) (proj1 H2)) as [keys Hk]. cbn [reg_secret_rx reg_secret_tx payload].
  rewrite Hk. apply wp_bind, wp_ret, wp_bind, client_wp_ask. intros n. apply wp_bind.
  destruct (env_io env n) as [g|e]; [|apply HE]. apply wp_ret, wp_ret. apply (HQ payload).
  split_and!; try done; [cbn; lia..|]. by exists keys, g.
Qed.

Lemma registration_failed_ok s :
  good s → ok (handle_registration_setup_failure env config) (λ _ s', keeps s s') s.
Proof.
  intros Hg. unfold handle_registration_setup_failure. destruct (cc_require_udp config); [by apply wp_ret, client_keeps_refl|].
  apply wp_bind, wp_modify, wp_bind. eapply wp_mono; [apply schedule_registration_ok; by apply client_good_log|].
  cbv beta. intros _ s1 Hk. by apply wp_ret.
Qed.

Lemma attempt_registration_ok s : good s → ok (attempt_udp_registration env config) (λ _ s', good s') s.
Proof.
  intros Hg. unfold attempt_udp_registration. apply wp_bind, wp_get.
  destruct (cs_udp_state s) as [|?|ids b at_ [r|]|?] eqn:Eu; try exact Hg.
  pose proof (in_udp _ _ _ _ _ _ _ _ Hg) as Hu. rewrite Eu in Hu. destruct Hu as [Hids _].
  apply wp_bind, wp_result.
  eapply wp_weaken; [apply (prepare_ok ids _ (λ p s', prepared_ok p ∧ ∃ t, s' = with_tick t s) (λ _, good) good); [done|by intros|] |..|done].
  - intros payload p t Hp. split; [by eapply prepared_from_ok|by exists t].
  - cbv beta. intros p s1 ((Ht & Hb & Hl) & t & ->). apply wp_bind, write_tcp_message_ok; [exact Hg|by split|].
    intros s2 Hg2 [Hf2 Eu2 Er2 _]. apply wp_bind, client_wp_ask. intros n. apply wp_bind, wp_modify.
    apply wp_bind, wp_modify, wp_ret. apply client_good_log; [done|].
    unfold set_registration. cbn [cs_udp_state with_tick] in *. rewrite Eu2, Eu. destruct Hg2. rewrite Eu2, Eu in *.
    constructor; try done. cbn. split; [done|]. by intros ? [= <-].
  - cbv beta. intros e s1 Hg1. eapply wp_mono; [by apply registration_failed_ok|]. by intros ? ? [? _].
Qed.

(** *** The upgrade *)
Lemma upgrade_on s : good s → cs_udp_upgrade s ≠ UpgradeDisabled → upgrade_enabled config = true.
Proof. intros [] H. destruct (upgrade_enabled config); [done|]. by destruct (in_enabled0 eq_refl) as (_ & _ & ?). Qed.

Lemma client_good_upgrade u s :
  good s → upgrade_enabled config = true →
  (in_flight u → kind_of (cs_udp_state s) = KActive ∧ cs_active_transport s = ActiveTcp) →
  upgrade_ok u (cs_trace s) → good (with_udp_upgrade u s).
Proof. intros Hg Hen Hf Hu. destruct Hg. constructor; try done. congruence. Qed.

Lemma start_attempt_ok now s : good s → ok (start_udp_upgrade_attempt env config now) (λ _ s', keeps s s') s.
Proof.
  intros Hg. unfold start_udp_upgrade_attempt. apply wp_bind, wp_get.
  assert ((kind_of (cs_udp_state s) = KActive ∧ cs_active_transport s = ActiveTcp) ∨
          ¬ (kind_of (cs_udp_state s) = KActive ∧ cs_active_transport s = ActiveTcp)) as [ [Hk Ha]|Hno].
  { destruct (cs_udp_state s), (cs_active_transport s); cbn; (by left) || (right; by intros [? ?]). }
  - destruct (cs_udp_state s) as [|?|?|t] eqn:Eu; try done. rewrite Ha.
    assert (ok (upgrade_id ← ask (env_random env);
                probe_nonce ← ask (env_random env);
                _ ← modify (with_udp_upgrade (Upgrading upgrade_id (now + ct_register_timeout (cc_timing config)) 0 now
                              probe_nonce false false (config_backoff config)));
                emit (UdpUpgradeStarted upgrade_id)) (λ _ s', cs_udp_upgrade s ≠ UpgradeDisabled → keeps s s') s) as H.
    { apply wp_bind, client_wp_ask. intros n. apply wp_bind, client_wp_ask. intros n'. apply wp_bind, wp_modify, wp_modify.
      intros Hne. split; [|done]. apply client_good_log; [done|].
      by apply (client_good_upgrade (Upgrading _ _ _ _ _ _ _ _) s Hg (upgrade_on _ Hg Hne)); rewrite ?Eu. }
    destruct (cs_udp_upgrade s) eqn:Eg; [by apply wp_ret, client_keeps_refl|..];
      (eapply wp_mono; [exact H|]; cbv beta; intros ? ? Hs; by apply Hs).
  - assert (cs_udp_upgrade s ≠ UpgradeDisabled → good (with_udp_upgrade UpgradeIdle s)) as Hi
      by (intros; apply client_good_upgrade; [done|by eapply upgrade_on|done|done]).
    destruct (cs_udp_upgrade s); [by apply wp_ret, client_keeps_refl|..];
      (destruct (cs_udp_state s); [apply wp_modify; split; [by apply Hi|done]..|];
       destruct (cs_active_transport s); [by destruct Hno|by apply wp_ret, client_keeps_refl]).
Qed.

Lemma handle_register_ok_ok payload s :
  good s → bytes_ok payload → ok (handle_register_ok env config payload) (λ _ s', keeps s s') s.
Proof.
  intros Hg Hb. unfold handle_register_ok. apply wp_bind, wp_get.
  destruct (cs_udp_state s) as [|?|ids b at_ [r|]|?] eqn:Eu; try (by apply wp_ret, client_keeps_refl).
  apply wp_bind, wp_try; [exact (pc_no_panic (A := RegisterOkPayload) _ Hb)| |intros; exact Hg]. intros rok _.
  case_bool_decide; cbn [negb]; [|exact Hg]. pose proof (in_udp _ _ _ _ _ _ _ _ Hg) as Hu. rewrite Eu in Hu.
  destruct (proj2 Hu r eq_refl) as (t & Et & Ht). rewrite Et. apply wp_bind, wp_modify, wp_bind, wp_modify.
  apply wp_bind, client_wp_ask. intros n. apply wp_bind. eapply wp_mono; [apply start_attempt_ok|].
  - apply (client_good_log (AEmit UdpRegistered)); [done|]. destruct Hg. rewrite Eu in *. constructor; try done.
    + intros E. by destruct (in_flight_ok0 E).
    + intros E. by apply in_disc0 in E.
    + intros En. by destruct (in_enabled0 En) as (? & _).
    + cbn. destruct (cs_udp_upgrade s) eqn:Eg; try done; by destruct (in_flight_ok0 I).
    + by apply trace_cons.
  - cbv beta. intros _ s1 Hk. by apply wp_ret.
Qed.

Lemma handle_register_fail_ok payload s :
  good s → bytes_ok payload → ok (handle_register_fail env config payload) (λ _ s', keeps s s') s.
Proof.
  intros Hg Hb. unfold handle_register_fail. apply wp_bind, wp_get.
  destruct (cs_udp_state s) as [|?|ids b at_ [r|]|?] eqn:Eu; try (by apply wp_ret, client_keeps_refl).
  apply wp_bind, wp_try; [exact (pc_no_panic (A := RegisterFailPayload) _ Hb)| |intros; exact Hg]. intros failed _.
  apply wp_bind, wp_modify, wp_bind. apply (client_good_log (ACount MUdpRegisterFailure)) in Hg; [|done].
  set (flip := _ && _). apply (wp_mono _ (λ _ s', keeps s s')).
  - destruct flip; [apply wp_modify|apply wp_ret]; by split.
  - cbv beta. intros _ s1 [Hg1 Eb1]. destruct (negb flip && cc_require_udp config); [by apply wp_ret|].
    apply wp_bind, wp_modify, wp_bind. eapply wp_mono; [apply schedule_registration_ok; by apply client_good_log|].
    cbv beta. intros _ s2 [Hg2 Eb2]. apply wp_ret. split; [done|]. exact (eq_trans Eb2 Eb1).
Qed.

Lemma registration_timeout_ok s : good s → ok (handle_registration_timeout env config) (λ _ s', good s') s.
Proof.
  intros Hg. unfold handle_registration_timeout. apply wp_bind, wp_get.
  destruct (cs_udp_state s) as [|?|ids b at_ [r|]|?] eqn:Eu; try exact Hg.
  destruct (cc_require_udp config); [exact Hg|]. apply wp_bind, wp_modify, wp_bind.
  eapply wp_mono; [apply schedule_registration_ok; by apply client_good_log|]. by intros _ s1 [? _].
Qed.

(** The result of a discovery that was in progress. *)
Lemma discovery_result_ok ids s :
  good s → cs_discovery_task s = true → (∀ i, ids = Some i → ids_ok i) →
  ok (handle_discovery_result env config ids) (λ _ s', good s') (with_discovery_task false s).
Proof.
  intros Hg Hd Hi. pose proof (in_disc _ _ _ _ _ _ _ _ Hg Hd) as Hk.
  assert (cs_active_transport s = ActiveTcp) as Ha.
  { destruct (cs_active_transport s) eqn:E; [done|]. pose proof (in_active _ _ _ _ _ _ _ _ Hg E). congruence. }
  assert (good (with_discovery_task false s)) as Hg' by (destruct Hg; by constructor).
  destruct ids as [ids|]; cbn [handle_discovery_result].
  - apply wp_bind, client_wp_ask. intros n. apply wp_bind, wp_modify, wp_ret.
    destruct Hg. constructor; try done.
    + split; [by apply Hi|done].
    + intros t E. split; [by apply in_ret0|by right].
    + cbn. congruence.
    + intros E. destruct (in_flight_ok0 E). congruence.
    + intros En. destruct (in_enabled0 En). congruence.
  - apply wp_bind, wp_modify, wp_bind, wp_modify. apply (client_good_log (ACount MUdpDiscoveryFailure)) in Hg'; [|done].
    apply (client_good_log (AEmit UdpDiscoveryFailed)) in Hg'; [|done]. destruct (cc_require_udp config); [exact Hg'|].
    apply wp_bind, schedule_retry_ok; [done|done|]. by intros.
Qed.

Lemma upgrade_timeout_ok s :
  good s → upgrade_enabled config = true → ok (handle_udp_upgrade_timeout env config) (λ _ s', good s') s.
Proof.
  intros Hg Hen. unfold handle_udp_upgrade_timeout. destruct (cc_require_udp config); [exact Hg|].
  apply wp_bind, wp_get, wp_bind, draw_delay_ok. intros [b d] t. apply wp_bind, client_wp_ask. intros n.
  apply wp_bind, wp_modify, wp_ret. exact (client_good_upgrade (TcpOnlyBlockedUdp (env_now env n + d)) s Hg Hen ltac:(done) I).
Qed.

Lemma short_probe p : short (MUpgradeProbe (UpgradeProbePayload_encode p [])).
Proof.
  split; cbn [Message_payload UpgradeProbePayload_encode app]; [apply Forall_app; split; apply bytes_ok_to_be|].
  rewrite zlen_app, !zlen_to_be. lia.
Qed.

Lemma send_probe_ok now s : good s → ok (send_upgrade_probe env config now) (λ _ s', good s') s.
Proof.
  intros Hg. unfold send_upgrade_probe. apply wp_bind, wp_get.
  destruct (cs_udp_upgrade s) as [| |id d a np nn acked ready b| |] eqn:Eg; try exact Hg. destruct (acked || _); [exact Hg|].
  apply wp_bind, draw_delay_ok. intros [b' delay] t. apply wp_bind, wp_modify.
  match goal with |- wp _ _ _ _ ?x => assert (good x) as Hg1 end.
  { pose proof (upgrade_on s Hg ltac:(by rewrite Eg)) as Hen. pose proof Hg as [].
    apply (client_good_upgrade (Upgrading _ _ _ _ _ _ _ _) s Hg Hen); rewrite Eg in *; [by intros; apply in_flight_ok0|done]. }
  apply wp_bind, wp_result. eapply wp_weaken; [apply write_udp_and_flush_ok; [exact Hg1| |by left] |..|done].
  - apply short_probe.
  - cbv beta. intros _ s1 [? _]. by apply wp_ret.
  - cbv beta. intros e s1 Hg2. destruct (is_udp_path_transport_error e); [|exact Hg2]. apply wp_bind.
    eapply wp_mono; [by apply handle_udp_error_ok|]. cbv beta. intros [] s2 [Hg3 _]; exact Hg3.
Qed.

Lemma upgrade_tick_ok s : good s → ok (handle_udp_upgrade_tick env config) (λ _ s', good s') s.
Proof.
  intros Hg. unfold handle_udp_upgrade_tick. apply wp_bind, client_wp_ask. intros n. apply wp_bind, wp_get.
  change (cs_udp_upgrade (with_tick (S (cs_tick s)) s)) with (cs_udp_upgrade s).
  assert (good (with_tick (S (cs_tick s)) s)) as Hg' by exact Hg.
  set (s1 := with_tick _ _) in *. pose proof (upgrade_on s Hg) as Hen.
  destruct (cs_udp_upgrade s); [exact Hg..| | |]; (assert (upgrade_enabled config = true) as He by (by apply Hen)).
  - destruct (_ <=? _); [by apply upgrade_timeout_ok|]. destruct (_ || _); [exact Hg|].
    destruct (_ >=? _); [by apply upgrade_timeout_ok|]. apply wp_bind. eapply wp_mono; [by apply send_probe_ok|]. done.
  - destruct (_ <? _); [exact Hg|]. apply wp_bind.
    apply (wp_mono _ (λ _ s', good s')).
    + destruct (cc_require_udp config); [by apply wp_ret|]. apply request_fallback_ok; [done|]. by intros s2 [].
    + cbv beta. intros _ s2 Hg2. by apply upgrade_timeout_ok.
  - destruct (_ <? _); [exact Hg|]. apply wp_bind. eapply wp_mono; [by apply start_attempt_ok|]. by intros _ s2 [].
Qed.

(** *** The handshake *)
Lemma happened_counted ps new tr :
  Forall (λ a, ∃ c, a = ACount c) new → happened ps (since tr) → happened ps (since (new ++ tr)).
Proof. intros Hn H. induction Hn as [|a new [c ->] _ IH]; [done|]. by apply (happened_since ps (ACount c) (new ++ tr)). Qed.

(** A message written after others happened. *)
Lemma happened_wrote p ps m s s' :
  wrote m s s' → p (ATcpSent m) → happened ps (since (cs_trace s)) → happened (p :: ps) (since (cs_trace s')).
Proof. intros [_ _ _ (new & Hn & ->)] Hp H. apply happened_now; [done|done|]. by apply happened_counted. Qed.

(** The newest action is the receipt of the message. *)
Definition just (a : action) (s : Session) : Prop := ∃ tr, cs_trace s = a :: tr.

Lemma probe_ack_ok payload s :
  good s → bytes_ok payload → just (AUdpRecv (MUpgradeProbeAck payload)) s →
  ok (handle_upgrade_probe_ack env payload) (λ _ s', keeps s s') s.
Proof.
  intros Hg Hb [tr Htr]. unfold handle_upgrade_probe_ack. apply wp_bind, wp_try.
  { exact (pc_no_panic (A := UpgradeProbeAckPayload) _ Hb). }
  2: { intros; exact Hg. }
  intros ack Hack. apply wp_bind, wp_get.
  destruct (cs_udp_upgrade s) as [| |id d a np nn acked ready b| |] eqn:Eg; try (by apply wp_ret, client_keeps_refl).
  destruct (Z.eqb_spec (ack_upgrade_id ack) id) as [E|]; cbn [negb]; [|by apply wp_ret, client_keeps_refl].
  destruct (_ =? nn); cbn [negb]; [|by apply wp_ret, client_keeps_refl]. apply wp_bind, wp_modify.
  assert (set_probe_acked s = with_udp_upgrade (Upgrading id d a np nn true ready b) s) as -> by (unfold set_probe_acked; by rewrite Eg).
  pose proof (upgrade_on s Hg ltac:(by rewrite Eg)) as Hen. pose proof (in_flight_ok _ _ _ _ _ _ _ _ Hg) as Hfl.
  pose proof (in_upgrade _ _ _ _ _ _ _ _ Hg) as Hup. rewrite Eg in Hfl, Hup.
  assert (happened [got_probe_ack id] (since (cs_trace s))) as Hacked.
  { rewrite Htr. apply happened_now; [done| |apply happened_nil]. by exists payload, ack. }
  assert (good (with_udp_upgrade (Upgrading id d a np nn true ready b) s)) as Hg1.
  { apply client_good_upgrade; [done|done|by intros _; apply Hfl|]. split; [done|]. intros ->. by destruct (proj2 Hup eq_refl). }
  destruct ready; [by apply wp_ret|]. rewrite E.
  apply wp_bind, write_tcp_message_ok; [done|by eapply short_u64|]. intros s2 Hg2 Hw. apply wp_bind, wp_modify, wp_bind, wp_modify, wp_ret.
  pose proof (wr_frame _ _ _ Hw) as [Ea Eu _ _ Eb Ek _]. cbn in Ea, Eu, Eb, Ek.
  unfold set_ready_sent. rewrite Eu. split; [|exact (frame_input _ _ (wr_frame _ _ _ Hw))]. apply client_good_log; [done|].
  apply client_good_upgrade; [done|done|by rewrite Ea, Ek; intros _; apply Hfl|].
  assert (happened [sent_ready id; got_probe_ack id] (since (cs_trace s2))) as Hr by (by eapply happened_wrote; [exact Hw|..]).
  split; [|by intros _; split]. intros _. pose proof (in_upgrade _ _ _ _ _ _ _ _ Hg2) as H2. rewrite Eu in H2. by apply H2.
Qed.

Lemma switch_to_udp_ok payload s :
  good s → bytes_ok payload → just (ATcpRecv (MSwitchToUdp payload)) s →
  ok (handle_switch_to_udp env config payload) (λ _ s', keeps s s') s.
Proof.
  intros Hg Hb [tr Htr]. unfold handle_switch_to_udp. apply wp_bind, wp_try.
  { exact (pc_no_panic (A := SwitchToUdpPayload) _ Hb). }
  2: { intros; exact Hg. }
  intros m Hm. apply wp_bind, wp_get.
  destruct (cs_udp_upgrade s) as [| |id d a np nn acked ready b| |] eqn:Eg; try (by apply wp_ret, client_keeps_refl).
  destruct (Z.eqb_spec (switch_upgrade_id m) id) as [E|]; cbn [negb]; [|by apply wp_ret, client_keeps_refl].
  destruct acked, ready; cbn [negb orb]; try (by apply wp_ret, client_keeps_refl).
  pose proof (upgrade_on s Hg ltac:(by rewrite Eg)) as Hen. pose proof (in_flight_ok _ _ _ _ _ _ _ _ Hg) as Hfl.
  pose proof (in_upgrade _ _ _ _ _ _ _ _ Hg) as Hup. rewrite Eg, Htr in *. destruct (proj2 Hup eq_refl) as [_ Hr].
  rewrite E. apply wp_bind, write_tcp_message_ok; [done|by eapply short_u64|]. intros s2 Hg2 Hw.
  apply wp_bind, client_wp_ask. intros n. apply wp_bind, wp_modify, wp_ret.
  pose proof (wr_frame _ _ _ Hw) as [Ea Eu _ _ Eb Ek _]. split; [|exact (frame_input _ _ (wr_frame _ _ _ Hw))].
  apply (client_good_upgrade (AwaitingSwitchOk _ _) s2); [done|done|by rewrite Ea, Ek; intros _; apply Hfl|].
  eapply happened_wrote; [exact Hw|done|]. rewrite Htr. apply happened_now; [done|by exists payload, m|].
  rewrite client_since_cons in Hr by done. destruct Hr as [ [? _]|Hr]; [done|exact Hr].
Qed.

Lemma switch_ok_ok payload s :
  good s → bytes_ok payload → just (ATcpRecv (MSwitchOk payload)) s →
  ok (handle_switch_ok payload) (λ _ s', keeps s s') s.
Proof.
  intros Hg Hb [tr Htr]. unfold handle_switch_ok. apply wp_bind, wp_try.
  { exact (pc_no_panic (A := SwitchOkPayload) _ Hb). }
  2: { intros; exact Hg. }
  intros m Hm. apply wp_bind, wp_get.
  destruct (cs_udp_upgrade s) as [| |?|id d|] eqn:Eg; try (by apply wp_ret, client_keeps_refl).
  destruct (Z.eqb_spec (switch_ok_upgrade_id m) id) as [E|]; cbn [negb]; [|by apply wp_ret, client_keeps_refl].
  pose proof (upgrade_on s Hg ltac:(by rewrite Eg)) as Hen. pose proof (in_flight_ok _ _ _ _ _ _ _ _ Hg) as Hfl.
  pose proof (in_upgrade _ _ _ _ _ _ _ _ Hg) as Hup. rewrite Eg in Hfl, Hup. destruct (Hfl I) as [Hk Ha]. rewrite Ha.
  assert (committed (cs_trace s)) as Hc.
  { exists id. cbn [upgrade_ok] in Hup. rewrite Htr in *. apply happened_now; [done|by exists payload, m|].
    rewrite client_since_cons in Hup by done. destruct Hup as [ [? _]|Hup]; [done|exact Hup]. }
  apply wp_bind, wp_bind, wp_modify, wp_bind, wp_modify, wp_modify, wp_bind, wp_modify, wp_bind, wp_modify, wp_ret.
  split; [|done]. apply client_good_log; [done|].
  assert (good (log (ASwitched ActiveUdpQsp) (with_active_transport ActiveUdpQsp (with_udp_upgrade UpgradeIdle (log (ACount MTransportTcpToUdp) s))))) as Hg1.
  { assert (good (with_udp_upgrade UpgradeIdle (log (ACount MTransportTcpToUdp) s))) as [].
    { apply client_good_upgrade; [by apply client_good_log|done|done|done]. }
    constructor; try done. apply trace_cons; [done| |done|done]. intros _. destruct Hc as [i Hc]. exists i. by apply happened_since. }
  by apply (client_good_log (AEmit (TransportChanged ActiveTcp ActiveUdpQsp UpgradeCommitted))) in Hg1.
Qed.

(** *** Receiving over UDP *)

(** A buffer that holds a message. *)
Definition holds_message (o : OwnedMessageBuf) : Prop :=
  ∃ m, OwnedMessageBuf_message o = Ok m ∧ bytes_ok (Message_payload m).

Lemma queued_bytes peer batch :
  Forall batch_entry_ok batch → ∃ ds, queue_peer_datagrams peer batch = Ok ds ∧ Forall bytes_ok ds.
Proof.
  induction 1 as [|[meta buf] batch [Hm Hb] _ (ds & Hds & Hok)]; [by exists []|]. cbn [queue_peer_datagrams fst snd] in *.
  rewrite Hds. destruct (_ =? peer); [|by exists ds].
  rewrite queue_ranges_ok.
  2: { pose proof (ranges_within (meta_len meta) (meta_stride meta) ltac:(lia)) as Hr.
       eapply Forall_impl; [|exact Hr]. intros [? ?]. cbn. lia. }
  eexists. split; [reflexivity|]. apply Forall_app. split; [|done]. apply Forall_fmap, Forall_true. intros r. by apply bytes_ok_sub.
Qed.

Lemma recv_packet_ok batches io room :
  Forall (Forall batch_entry_ok) batches → Forall bytes_ok (io_recv_queue io) →
  Forall bytes_ok (io_recv_queue (recv_packet io room batches).1.1) ∧
  (recv_packet io room batches).1.2 ≠ Panic ∧
  ∀ d, (recv_packet io room batches).1.2 = Ok (Some d) → bytes_ok d.
Proof.
  revert io. induction batches as [|batch batches IH]; intros io Hb Hq; cbn [recv_packet].
  - destruct (io_recv_queue io) as [|d q] eqn:Eq; [cbn; by rewrite Eq|]. apply Forall_cons_1 in Hq as [? ?].
    destruct (_ >? room); cbn; (split_and!; [done|done|]); [done|by intros ? [= <-] ].
  - destruct (io_recv_queue io) as [|d q] eqn:Eq.
    + apply Forall_cons_1 in Hb as [Hb Hbs]. destruct (queued_bytes (io_peer io) batch Hb) as (ds & -> & Hds). by apply IH.
    + apply Forall_cons_1 in Hq as [? ?].
      destruct (_ >? room); cbn; (split_and!; [done|done|]); [done|by intros ? [= <-] ].
Qed.

Lemma open_datagram_ok t d :
  transport_ok t → bytes_ok d →
  transport_ok (open_datagram t d (session_limits config)).1.1 ∧
  match (open_datagram t d (session_limits config)).2 with Ok buf => holds_message buf | Err _ => True | Panic => False end.
Proof.
  intros [ [sp Hs] Hq] Hd. unfold open_datagram. pose proof (open_packet_received sp (ut_session t) d Hs Hd) as [_ Hr].
  destruct (open_packet (ut_session t) d) as [q' r]. cbn [fst snd] in *. destruct r as [o|e|]; cbn [fst snd]; [| |done].
  - destruct Hr as ([_ Ho] & sp' & _ & Hs'). split; [by split; [exists sp'|] |].
    destruct (decode_padded_cases (op_payload o) (session_limits config) Ho) as [Hp Hm].
    destruct (decode_padded_message _ _) as [ [ [m b]|]|e|] eqn:E; try done.
    rewrite (decode_padded_frame _ _ _ _ Ho E). exists m. split; [apply owned_wire|by eapply Hm].
  - split; [by split; [exists sp|]|done].
Qed.

Lemma read_next_ok t input t' counters r :
  transport_ok t → input_ok input → read_next_message t input (session_limits config) = Some (t', counters, r) →
  transport_ok t' ∧ match r with Ok buf => holds_message buf | Err _ => True | Panic => False end.
Proof.
  intros [Hs Hq] Hi. unfold read_next_message.
  destruct (recv_packet_ok (in_batches input) (ut_io t) PACKET_BUF_LEN Hi Hq) as (Hq' & Hp & Hd).
  destruct (recv_packet _ _ _) as [ [io r0] ?]. cbn [fst snd] in *.
  assert (transport_ok (mkTransport (ut_session t) io)) as Ht by (by split).
  destruct r0 as [ [d|]|e|]; [| | |done].
  - intros [= E]. pose proof (open_datagram_ok _ d Ht (Hd _ eq_refl)) as H. by rewrite E in H.
  - destruct (in_error input); [|done]. by intros [= <- <- <-].
  - by intros [= <- <- <-].
Qed.

Lemma count_all_ok ms (Q : unit → Session → Prop) s :
  good s → (∀ s', good s' → frame s s' → Q tt s') → ok (count_all ms) Q s.
Proof.
  intros Hg HQ. apply wp_modify. destruct (log_counters ms s) as (new & Hn & ->).
  apply HQ; [by apply good_counted|by constructor].
Qed.

(** *** Messages over UDP *)
Lemma ping_received_ok payload (write : bytes → M unit) s :
  good s → bytes_ok payload →
  (∀ x, ok (write (to_be 8 x)) (λ _ s', keeps s s') s) →
  ok (ping_in ← try SPayload (PingPayload_decode payload); _ ← write (to_be 8 (ping_nonce ping_in)); mret Continue)
    (λ _ s', keeps s s') s.
Proof.
  intros Hg Hb Hw. apply wp_bind, wp_try; [exact (pc_no_panic (A := PingPayload) _ Hb)| |by intros].
  intros ping _. apply wp_bind. eapply wp_mono; [apply Hw|]. cbv beta. intros _ s' Hk. by apply wp_ret.
Qed.

Lemma pong_close_ok {A} `{PayloadCodec A} payload (k : A → M SessionControl) s :
  good s → bytes_ok payload → (∀ p, ok (k p) (λ _ s', keeps s s') s) →
  ok (p ← try SPayload (pc_decode payload); k p) (λ _ s', keeps s s') s.
Proof.
  intros Hg Hb Hk. apply wp_bind, wp_try; [by apply pc_no_panic| |by intros]. intros p _. apply Hk.
Qed.

Lemma client_udp_message_ok buf s :
  good s → holds_message buf → ok (handle_udp_message env buf) (λ _ s', keeps s s') s.
Proof.
  intros Hg (m & Em & Hb). unfold handle_udp_message. rewrite Em. apply wp_bind, wp_ret, wp_bind, wp_modify.
  apply (client_good_log (AUdpRecv m)) in Hg; [|done].
  apply wp_bind, wp_try; [by apply validate_message_no_panic| |intros; exact Hg].
  intros [] Hv. apply validate_message_ok in Hv as [(Hd & Hp & Ht) _]; [|done].
  destruct m as [p|p|p|p|p|p|p|p|p|p|p|p|p|p|p|p|p|p]; try done; cbn [Message_payload] in Hb.
  - apply (ping_received_ok p (λ x, write_udp_message_and_flush env (MPong x)) (log _ s)); [exact Hg|done|].
    intros x. eapply wp_mono; [apply write_udp_and_flush_ok; [exact Hg|by eapply short_u64|by left] |].
    cbv beta. intros _ s' [? ?]. by apply frame_keeps.
  - refine (pong_close_ok (A := PongPayload) p _ (log (AUdpRecv _) s) Hg Hb _). intros. apply wp_ret. by split.
  - refine (pong_close_ok (A := ClosePayload) p _ (log (AUdpRecv _) s) Hg Hb _). intros. apply wp_bind, wp_modify, wp_ret.
    split; [by apply client_good_log|done].
  - apply (send_to_tun_ok _ (log _ s) Hg). eexists p, _. auto.
  - apply (probe_ack_ok p (log _ s) Hg Hb). by eexists.
Qed.

Lemma matching_pong_ok buf nonce (Q : bool → Session → Prop) s :
  good s → holds_message buf → (∀ b, Q b s) → ok (is_matching_pong buf nonce) Q s.
Proof.
  intros Hg (m & Em & Hb) HQ. unfold is_matching_pong. rewrite Em. apply wp_bind, wp_ret.
  destruct m; try apply HQ. apply wp_bind, wp_try; [exact (pc_no_panic (A := PongPayload) _ Hb)| |by intros]. intros. apply HQ.
Qed.

(** *** Refreshing the UDP path *)

Lemma refresh_loop_ok nonce inputs stop s :
  good s → Forall input_ok inputs → ok (refresh_loop env config nonce inputs stop) (λ _ s', good s') s.
Proof.
  revert s. induction inputs as [|input inputs IH]; intros s Hg Hi; cbn [refresh_loop]; apply wp_bind, wp_get;
    (destruct (as_active (cs_udp_state s)) as [t|] eqn:Et; [|exact Hg]).
  { destruct stop; exact Hg. }
  apply Forall_cons_1 in Hi as [Hin Hi]. apply active_receive in Et.
  destruct (read_next_message t input (session_limits config)) as [ [ [t' counters] r]|] eqn:Er; [|by apply IH].
  destruct (read_next_ok _ _ _ _ _ (receive_ok _ _ Hg Et) Hin Er) as [Ht' Hr].
  destruct (put_good t t' s Hg Et Ht') as (Hg1 & _). apply wp_bind, wp_modify, wp_bind, count_all_ok; [done|]. intros s2 Hg2 _.
  destruct r as [buf|e|]; [| |done].
  2: { destruct (is_udp_qsp_recoverable _); [by apply IH|exact Hg2]. }
  apply wp_bind, client_wp_ask. intros n. apply wp_bind, wp_result.
  eapply wp_weaken; [apply (matching_pong_ok buf nonce (λ _ s', s' = with_tick (S (cs_tick s2)) s2)); [exact Hg2|done|done]|..|done];
    cbv beta; [|intros e s3 Hg3; destruct (is_udp_qsp_recoverable e); [by apply IH|exact Hg3] ].
  intros [] ? ->; [exact Hg2|]. apply wp_bind, wp_result.
  eapply wp_weaken; [by apply (client_udp_message_ok buf)|..|done]; cbv beta;
    [|intros e s3 Hg3; destruct (is_udp_qsp_recoverable e); [by apply IH|exact Hg3] ].
  intros control s3 [Hg3 _]. apply wp_bind, wp_modify. destruct control; [by apply IH|exact Hg3].
Qed.

Lemma refresh_ok s : good s → ok (refresh_udp_path env config) (λ _ s', good s') s.
Proof.
  intros Hg. apply wp_bind, client_wp_ask. intros n. apply wp_bind.
  eapply wp_mono; [apply write_udp_and_flush_ok; [exact Hg|by eapply short_u64|by left] |]. cbv beta. intros _ s1 [Hg1 _].
  apply wp_bind, client_wp_ask. intros k. pose proof (eo_refresh _ EO k) as Hk. destruct (env_refresh env k) as [inputs stop].
  by apply refresh_loop_ok.
Qed.

Lemma recreate_ok s : good s → ok (recreate_udp_io env) (λ _ s', good s') s.
Proof.
  intros Hg. unfold recreate_udp_io. apply wp_bind, wp_get.
  destruct (as_active (cs_udp_state s)) as [t|] eqn:Et; [|exact Hg]. apply wp_bind, client_wp_ask. intros n.
  apply wp_bind, wp_try; [by destruct (env_bind env n)| |intros; exact Hg]. intros _ _. apply wp_bind, client_wp_ask. intros k.
  apply wp_bind, wp_try; [by destruct (env_io env k)| |intros; exact Hg]. intros g _.
  apply wp_bind, (wp_mono _ (λ _ s', good s')).
  - destruct (has_pending_flush t); [|exact Hg]. apply wp_bind.
    apply (transport_flush_ok t (λ _ s', good s')); [exact Hg|by apply active_receive|]. by intros.
  - cbv beta. intros _ s1 Hg1. apply wp_bind, wp_get. destruct (as_active (cs_udp_state s1)) as [t1|] eqn:Et1; [|exact Hg1].
    apply wp_modify. apply active_receive in Et1. apply (put_good t1 _ s1 Hg1 Et1).
    destruct (receive_ok _ _ Hg1 Et1) as [? _]. by split; [|constructor].
Qed.

Lemma network_changed_ok s : good s → ok (handle_network_changed env config) (λ _ s', good s') s.
Proof.
  intros Hg. unfold handle_network_changed. apply wp_bind, wp_get.
  assert (∀ s, good s → ok (_ ← emit NetworkChangedEvent; mret (Close NetworkChanged)) (λ _ s', good s') s) as Hchanged.
  { intros s0 Hg0. apply wp_bind, wp_modify, wp_ret. by apply client_good_log. }
  destruct (cs_active_transport s); [by apply Hchanged|]. destruct (as_active (cs_udp_state s)); [|by apply Hchanged].
  apply wp_bind, wp_modify, wp_bind, wp_result.
  eapply (wp_weaken _ (λ _ s', good s') _ (λ _ s', good s')); [..|done].
  - apply wp_bind, wp_result. eapply wp_weaken; [apply refresh_ok; by apply client_good_log|..|done]; cbv beta; [done|].
    intros e s1 Hg1. destruct (is_udp_path_transport_error e); [|exact Hg1]. apply wp_bind.
    eapply wp_mono; [by apply recreate_ok|]. cbv beta. intros _ s2 Hg2. by apply refresh_ok.
  - cbv beta. intros [|exit] s1 Hg1; [|exact Hg1]. apply wp_bind, wp_modify, wp_ret. by apply client_good_log.
  - cbv beta. intros e s1 Hg1. apply wp_bind, wp_modify. apply (client_good_log (AEmit UdpPathRefreshFailed)) in Hg1; [|done].
    destruct (is_udp_path_transport_error e); cbn [negb]; [|exact Hg1]. apply wp_bind, wp_get.
    destruct (negb _); [by apply Hchanged|]. apply wp_bind, request_fallback_ok; [done|]. intros s2 [Hg2 Ha2 _ _ _].
    apply wp_bind, schedule_now_ok; [done|done|]. intros s3 Hg3 _. exact Hg3.
Qed.

(** *** Messages over TCP *)
Lemma client_tcp_message_ok buf s :
  good s → cs_tcp_alive s = true → holds_message buf → ok (handle_tcp_message env config buf) (λ _ s', keeps s s') s.
Proof.
  intros Hg Hal (m & Em & Hb). unfold handle_tcp_message. rewrite Em. apply wp_bind, wp_ret, wp_bind, wp_modify.
  apply (client_good_log (ATcpRecv m)) in Hg; [|done].
  apply wp_bind, wp_try; [by apply validate_message_no_panic| |intros; exact Hg].
  intros [] Hv. apply validate_message_ok in Hv as [(Hd & Hp & Ht) _]; [|done].
  destruct m as [p|p|p|p|p|p|p|p|p|p|p|p|p|p|p|p|p|p]; try done; cbn [Message_payload] in Hb.
  - exact (handle_register_ok_ok _ _ Hg Hb).
  - exact (handle_register_fail_ok _ _ Hg Hb).
  - apply (ping_received_ok p (λ x, write_tcp_message env (MPong x)) (log _ s)); [exact Hg|done|].
    intros x. apply write_tcp_message_ok; [exact Hg|by eapply short_u64|]. intros s' Hg' Hw. apply frame_keeps; [done|apply Hw].
  - refine (pong_close_ok (A := PongPayload) p _ (log (ATcpRecv _) s) Hg Hb _). intros. apply wp_ret. by split.
  - refine (pong_close_ok (A := ClosePayload) p _ (log (ATcpRecv _) s) Hg Hb _). intros. apply wp_bind, wp_modify, wp_ret.
    split; [by apply client_good_log|done].
  - apply (send_to_tun_ok _ (log _ s) Hg). eexists p, _. auto.
  - apply (switch_to_udp_ok p (log _ s) Hg Hb). by eexists.
  - exact (client_fallback_to_tcp_ok _ _ Hg Hal Hb).
  - exact (client_fallback_ok_ok _ _ Hg Hb).
  - apply (switch_ok_ok p (log _ s) Hg Hb). by eexists.
Qed.

Lemma client_good_buffer c s : good s → bytes_ok (chan_read_buf c) → good (with_tcp c s).
Proof. intros [] Hb. by constructor. Qed.

Lemma client_read_messages_ok fuel s :
  good s → cs_tcp_alive s = true → (length (chan_read_buf (cs_tcp s)) < fuel)%nat →
  ok (read_messages env config fuel) (λ _ s', good s') s.
Proof.
  revert s. induction fuel as [|fuel IH]; intros s Hg Hal Hl; [lia|]. cbn [read_messages].
  apply wp_bind, wp_get. unfold try_pop_message. pose proof (in_buf _ _ _ _ _ _ _ _ Hg) as Hb.
  pose proof (pop_message_buf_cases (chan_read_buf (cs_tcp s)) (session_limits config) Hb) as Hpop.
  destruct (pop_message_buf (chan_read_buf (cs_tcp s)) (session_limits config)) as [r rest].
  apply wp_bind, wp_modify. match goal with |- wp _ _ _ _ ?x => set (s1 := x) end.
  assert (bytes_ok rest) as Hbr.
  { destruct r as [ [o|]|e|]; [|by subst rest..|done]. destruct Hpop as (m & _ & _ & E). rewrite E in Hb.
    by apply bytes_ok_app in Hb as [_ ?]. }
  assert (good s1) as Hg1 by (by apply client_good_buffer).
  destruct r as [ [o|]|e|]; [| |exact Hg1|done]; apply wp_bind, wp_ret; [|by apply wp_ret].
  destruct Hpop as (m & Em & _ & E). apply wp_bind, client_wp_ask. intros n. apply wp_bind.
  rewrite E in Hb, Hl. apply bytes_ok_app in Hb as [Hbm _].
  eapply wp_mono.
  - apply client_tcp_message_ok; [exact Hg1|exact Hal|]. exists m. split; [done|].
    unfold wire_message in Hbm. rewrite !bytes_ok_app in Hbm. apply Hbm.
  - cbv beta. intros control s2 [Hg2 [= Eb2 Eal2] ]. apply wp_bind, wp_modify. destruct control; [|exact Hg2].
    apply IH; [exact Hg2|cbn in *; congruence|]. cbn in *. rewrite Eb2. rewrite length_app in Hl.
    pose proof (zlen_wire_message m) as Hw. pose proof (zlen_nonneg (Message_payload m)).
    unfold zlen, HEADER_LEN in *. lia.
Qed.

Lemma client_tcp_read_ok s :
  good s → cs_tcp_alive s = true → ok (handle_tcp_read env config) (λ _ s', good s') s.
Proof. intros Hg Hal. apply wp_bind, wp_get, client_read_messages_ok; [done|done|lia]. Qed.

(** ** The event loop *)

(** What the sources offer. *)
Record offer_ok (o : Offer) : Prop := mkOfferOk {
  oo_discovery : ∀ ids, of_discovery o = Some (Some ids) → ids_ok ids;
  oo_tcp : ∀ chunk, of_tcp o = Some (inl chunk) → bytes_ok chunk;
  oo_tun : ∀ packet, of_tun o = Some (Some packet) → bytes_ok packet;
  oo_udp : input_ok (of_udp o);
}.

Definition ready_ok (r : Ready) : Prop := match r with ROffer o => offer_ok o | _ => True end.

(** What an event brings. *)
Definition event_ok (e : SessionEvent) (s : Session) : Prop :=
  match e with
  | ETcpRead _ => cs_tcp_alive s = true
  | ETunPacket (Some packet) => bytes_ok packet
  | EUdpResult (Ok buf) => holds_message buf
  | EUdpResult Panic => False
  | EDiscoveryResult ids => cs_discovery_task s = true ∧ ∀ i, ids = Some i → ids_ok i
  | _ => True
  end.

Definition brings (e : SessionEvent) (s : Session) : Prop := good s ∧ event_ok e s.

Lemma timer_brings t s : good s → brings (SessionTimer_into_event t) s.
Proof. intros Hg. by destruct t. Qed.

Lemma first_ready_in {A} (arms : list (option A)) a : first_ready arms = Some a → Some a ∈ arms.
Proof. induction arms as [|[x|] arms IH]; cbn; [done|intros [= ->]; by left|]. intros E. right. auto. Qed.

Lemma packet_work_ok can_receive o s work :
  good s → offer_ok o → packet_work config s can_receive o = Some work → ok work brings s.
Proof.
  intros Hg [_ Ht Hn Hu] Hw. apply first_ready_in in Hw.
  assert (Some work ∈ [tcp_arm s o; tun_arm s can_receive o; udp_arm config s o]) as Hin.
  { rewrite <- (take_drop (of_first o) [_; _; _]). rewrite elem_of_app in *. tauto. }
  clear Hw. rewrite !elem_of_cons in Hin. destruct Hin as [E|[E|[E|E] ] ]; [..|by apply not_elem_of_nil in E].
  - unfold tcp_arm in E. destruct (cs_tcp_alive s) eqn:Hal; [|done]. destruct (of_tcp o) as [ [chunk|e]|]; [| |done].
    + injection E as ->. apply wp_bind, wp_modify, wp_ret. split; [|exact Hal]. apply client_good_buffer; [done|].
      apply bytes_ok_app. split; [by apply Hg|by apply Ht].
    + injection E as ->. exact Hg.
  - unfold tun_arm in E. destruct can_receive; [|by destruct (has_pending_udp_flush s); [injection E as ->; split|] ].
    destruct (of_tun o) as [ [packet|]|]; [..|by destruct (has_pending_udp_flush s); [injection E as ->; split|] ];
      injection E as ->; apply wp_ret; (split; [done|]); [by apply Hn|done].
  - unfold udp_arm in E. destruct (udp_receive_transport s) as [t|] eqn:Et; [|done].
    destruct (read_next_message t (of_udp o) (session_limits config)) as [ [ [t' counters] r]|] eqn:Er; [|done]. injection E as ->.
    destruct (read_next_ok _ _ _ _ _ (receive_ok _ _ Hg Et) Hu Er) as [Ht' Hr].
    destruct (put_good t t' s Hg Et Ht') as (Hg1 & _). apply wp_bind, wp_modify, wp_bind, count_all_ok; [done|].
    intros s2 Hg2 _. destruct r; [by split..|done].
Qed.

Lemma poll_event_ok next can_receive ready s :
  good s → ready_ok ready → ok (poll_event env config next can_receive ready) brings s.
Proof.
  intros Hg Hr. unfold poll_event. apply wp_bind, wp_get. destruct (earliest_timer config s next) as [at_ timer].
  apply wp_bind, client_wp_ask. intros n. destruct ready as [| |o]; [exact Hg|by split|].
  destruct (if cs_control_rx s then of_control o else None) as [ [c|]|]; [by split..|].
  destruct (_ <=? _); [by apply wp_ret, timer_brings|].
  destruct (if cs_discovery_task s then of_discovery o else None) as [ids|] eqn:Ed.
  - apply wp_ret. split; [exact Hg|]. destruct (cs_discovery_task s) eqn:E; [|done]. split; [done|]. intros i ->. by apply Hr.
  - destruct (packet_work config s can_receive o) as [work|] eqn:Ew; [|by apply wp_ret, timer_brings].
    by apply (packet_work_ok can_receive o (with_tick (S (cs_tick s)) s)).
Qed.

Lemma schedule_ping_ok (Q : Z → Session → Prop) E C s :
  (∀ at_ t, Q at_ (with_tick t s)) → wp (schedule_next_ping env config) Q E C s.
Proof.
  intros HQ. unfold schedule_next_ping. apply wp_bind. destruct (_ >? _).
  - apply wp_bind, client_wp_ask. intros n. apply wp_ret, wp_bind, client_wp_ask. intros k. apply wp_ret, HQ.
  - apply wp_ret, wp_bind, client_wp_ask. intros n. apply wp_ret, HQ.
Qed.

(** Errors on the UDP path that an event handler caught. *)
Lemma udp_path_error_ok e s :
  good s → ok (if is_udp_path_transport_error e then handle_udp_event_error env config e else fail e) (λ _ s', good s') s.
Proof.
  intros Hg. destruct (is_udp_path_transport_error e); [|exact Hg].
  eapply wp_mono; [by apply handle_udp_event_error_ok|]. by intros ? ? [? _].
Qed.

Lemma stay_ok (m : M SessionControl) (next : Z) s :
  ok m (λ _ s', good s') s → ok (control ← m; mret (control, next)) (λ _ s', good s') s.
Proof. intros H. apply wp_bind. eapply wp_mono; [exact H|]. by intros. Qed.

Context (LO : limits_ok).

Lemma tcp_end_ok s :
  good s →
  ok (s ← get;
      match cs_active_transport s with
      | ActiveUdpQsp => _ ← modify (with_tcp_alive false); mret Continue
      | ActiveTcp => _ ← count MDisconnectClose; mret (Close TcpClosed)
      end) (λ _ s', good s') s.
Proof.
  intros Hg. apply wp_bind, wp_get. destruct (cs_active_transport s) eqn:Ea; apply wp_bind, wp_modify, wp_ret.
  - by apply client_good_log.
  - destruct Hg. by constructor.
Qed.

Lemma liveness_timeout_ok s :
  good s →
  ok (_ ← request_tcp_fallback env UdpLivenessTimeout; _ ← schedule_discovery_retry env config; mret Continue)
    (λ _ s', good s') s.
Proof.
  intros Hg. apply wp_bind, request_fallback_ok; [done|]. intros s1 [Hg1 Ha1 _ _ _].
  apply wp_bind, schedule_retry_ok; [done|done|]. intros s2 Hg2 _. exact Hg2.
Qed.

Lemma good_discovering s :
  good s → kind_of (cs_udp_state s) = KNeedDiscovery → good (with_discovery_task true s).
Proof. intros [] Hk. by constructor. Qed.

Lemma client_event_ok event next s : brings event s → ok (handle_event env config event next) (λ _ s', good s') s.
Proof.
  intros [Hg He]. destruct event as [|n|[packet|]|[buf|e|]| | | | | | |ids| |[|] ]; cbn [handle_event]; try apply stay_ok.
  - apply wp_bind, wp_modify, wp_ret. by apply client_good_log.
  - destruct (n =? 0); [by apply tcp_end_ok|by apply client_tcp_read_ok].
  - by apply client_tun_packet_ok.
  - exact Hg.
  - apply wp_bind, client_wp_ask. intros n. apply wp_bind, wp_result.
    eapply wp_weaken; [apply (client_udp_message_ok buf); [exact Hg|done]|..|done]; cbv beta; [by intros ? ? [? _]|].
    intros e s1 Hg1. by apply udp_path_error_ok.
  - by apply udp_path_error_ok.
  - done.
  - apply wp_bind, wp_result. eapply wp_weaken; [by apply flush_udp_transport_ok|..|done]; cbv beta; [by intros _ ? [? _]|].
    intros e s1 Hg1. pose proof (udp_path_error_ok e s1 Hg1) as H. destruct (is_udp_path_transport_error e); [exact H|exact Hg1].
  - apply wp_bind. eapply wp_mono; [by apply client_ping_tick_ok|]. cbv beta. intros _ s1 Hg1.
    apply wp_bind, schedule_ping_ok. intros. exact Hg1.
  - apply wp_bind, wp_modify, wp_bind.
    eapply wp_mono; [apply client_close_best_effort_ok; by apply client_good_log|]. by intros.
  - apply wp_bind, wp_get. destruct (_ || _); [exact Hg|by apply liveness_timeout_ok].
  - apply wp_bind, wp_get. destruct (cs_udp_state s) eqn:Eu; [exact Hg| |by apply attempt_registration_ok|exact Hg].
    apply wp_bind, wp_modify, wp_bind, wp_modify, wp_ret. apply good_discovering; [by apply client_good_log|].
    cbn. by rewrite Eu.
  - by apply registration_timeout_ok.
  - apply wp_bind, wp_modify. by apply discovery_result_ok; [|apply He..].
  - by apply upgrade_tick_ok.
  - by apply network_changed_ok.
  - apply wp_bind, wp_modify, wp_bind, wp_modify, wp_ret. by apply (client_good_log (ACount MDisconnectShutdown)) in Hg.
Qed.

Lemma client_iteration_ok l ready s : good s → ready_ok ready → ok (iteration env config l ready) (λ _ s', good s') s.
Proof.
  intros Hg Hr. unfold iteration. apply wp_bind, wp_get, wp_bind, (wp_mono _ (λ _ s', good s')).
  - destruct (cs_tcp_alive s) eqn:Hal; cbn [andb]; [|exact Hg].
    destruct (has_buffered_input _); [by apply client_tcp_read_ok|exact Hg].
  - cbv beta. intros [|exit] s1 Hg1; [|exact Hg1]. apply wp_bind, wp_get, wp_bind.
    eapply wp_mono; [by apply poll_event_ok|]. cbv beta. intros event s2 Hb2. apply wp_bind, wp_get, wp_bind.
    eapply wp_mono; [by apply client_event_ok|]. cbv beta. intros [ [|exit] next] s3 Hg3; [|exact Hg3].
    apply wp_bind, wp_get, wp_ret. exact Hg3.
Qed.

Lemma client_run_loop_ok l readies s : good s → Forall ready_ok readies → ok (run_loop env config l readies) (λ _ s', good s') s.
Proof.
  intros Hg Hr. revert l s Hg. induction Hr as [|ready readies H _ IH]; intros l s Hg; [exact Hg|]. cbn [run_loop].
  apply wp_bind. eapply wp_mono; [by apply client_iteration_ok|]. cbv beta. intros [exit|l'] s1 Hg1; [exact Hg1|by apply IH].
Qed.

(** ** The whole session *)

(** An outcome with an error names the exit of that error. *)
Definition outcome_ok (o : SessionOutcome) : Prop := ∀ e, out_error o = Some e → out_exit o = SessionError_exit e.

Lemma client_run_inner_ok readies s :
  good s → Forall ready_ok readies →
  wp (run_inner env config readies) (λ o s', outcome_ok o ∧ good s') (λ _ _, False) good s.
Proof.
  intros Hg Hr. unfold run_inner. apply wp_bind, wp_result.
  eapply (wp_weaken _ (λ _ s', good s') _ (λ _ s', good s')); [..|done].
  - apply wp_bind, schedule_ping_ok. intros. by apply client_run_loop_ok.
  - cbv beta. intros exit s1 Hg1. by apply wp_ret.
  - cbv beta. intros e s1 Hg1. apply wp_bind, wp_modify, wp_ret. split; [by intros ? [= <-]|by apply client_good_log].
Qed.

Lemma run_until_signal_ok signal readies (E : SessionError → Session → Prop) (C : Session → Prop) s :
  good s → Forall ready_ok readies →
  wp (run_until_signal env config signal readies) (λ o s', outcome_ok o ∧ good s') E C s.
Proof.
  intros Hg Hr. unfold run_until_signal. apply wp_bind, wp_timeout.
  eapply wp_weaken; [by apply client_run_inner_ok|..]; cbv beta; [done|done|].
  intros s1 Hg1. destruct signal; [by apply wp_ret|]. apply wp_bind, wp_modify, wp_bind, wp_modify, wp_ret.
  split; [done|]. by apply (client_good_log (ACount MDisconnectShutdown)) in Hg1.
Qed.

Lemma client_run_ok signal readies (E : SessionError → Session → Prop) (C : Session → Prop) s :
  good s → Forall ready_ok readies →
  wp (run env config signal readies)
    (λ o s', outcome_ok o ∧ cs_discovery_task s' = false ∧ trace_ok (cs_trace s')) E C s.
Proof.
  intros Hg Hr. unfold run. apply wp_bind. eapply wp_mono; [by apply run_until_signal_ok|]. cbv beta. intros o s1 [Ho Hg1].
  apply wp_bind, (wp_mono _ (λ _ s', good s')).
  - destruct (out_exit o); first [exact Hg1|by apply client_close_best_effort_ok].
  - cbv beta. intros _ s2 Hg2. apply wp_bind. eapply wp_mono; [by apply client_flush_best_effort_ok|]. cbv beta.
    intros _ s3 Hg3. apply wp_bind, wp_modify, wp_ret. split_and!; [done|done|by apply Hg3].
Qed.

Lemma trace_nil : trace_ok [].
Proof. split; intros [|? ?]; done. Qed.

Lemma client_session_new_good tcp control now :
  bytes_ok (chan_read_buf tcp) → good (ClientSession_new config tcp control now).
Proof.
  intros Hb. unfold good, ClientSession_new. cbn. destruct (upgrade_enabled config) eqn:E; constructor; try done;
    first [apply trace_nil|congruence].
Qed.
End Invariant.
