(* ===== verification/ClientRun.v ===== *)
(** * Runs of a client session ([run_inner], [ClientSession::run] of slt-client)

    What holds of every run of a session with a configuration that passes
    [validate], whatever the server sends on TCP and UDP and however TLS, the
    sockets, the TUN device and the discovery behave. *)

From stdpp Require Import base tactics option list numbers gmap sets.
From Stdlib Require Import ZArith Lia.
From S2P Require Import Prelude Effects Cid Framing TcpChannel Payloads Admissibility Keys QspSession QspSafety UdpIo Config Backoff ClientState ClientSession ClientSafety.

Section Runs.
Context `{B : Boring} {L : BoringLaws B} {T : BoringTotal B} (env : Env) (config : ClientConfig).

(** A session on an authenticated stream, with what the server already sent
    after that in [read_buf]. *)
Definition client_start (updater : IntervalKeyUpdater) (read_buf : bytes) (control : bool) (now : Z) : Session :=
  ClientSession_new config (TcpChannel_with_state updater read_buf) control now.

(** What every run may assume: a configuration that was validated, secrets of
    32 bytes from the random generator, and bytes for input. *)
Definition client_assumptions (read_buf : bytes) (readies : list Ready) : Prop :=
  ClientConfig_validate config = Ok tt ∧ env_ok env ∧ bytes_ok read_buf ∧ Forall ready_ok readies.

(** The MTU of a validated configuration keeps DATA frames short. *)
Lemma valid_limits : ClientConfig_validate config = Ok tt → limits_ok config.
Proof. intros ([_ ?] & _)%ClientConfig_validate_ok. unfold limits_ok. cbn. unfold MAX_TUN_MTU, ETHERNET_IP_MTU in *. lia. Qed.

Lemma client_run_end signal updater read_buf control now readies :
  client_assumptions read_buf readies →
  ∃ s o, run env config signal readies (client_start updater read_buf control now) = (s, ORet o) ∧
    outcome_ok o ∧ cs_discovery_task s = false ∧ trace_ok (cs_trace s).
Proof.
  intros (Hv & Ho & Hb & Hr).
  pose proof (client_run_ok env config Ho (valid_limits Hv) signal readies (λ _ _, False) (λ _, False)
    (client_start updater read_buf control now)) as H.
  unfold wp in H. destruct (run _ _ _ _ _) as [s [o|e| |] ]; [|exfalso; apply H; [by apply client_session_new_good|done]..].
  exists s, o. split; [done|]. apply H; [by apply client_session_new_good|done].
Qed.

(** C8: Every run of a client session returns an outcome and never panics,
    whatever arrives on TCP, UDP and TUN and however writes fail, time out or
    are cut off by the shutdown.  An outcome with an error has the exit of
    that error, and no discovery task is left running. *)
Theorem client_session_returns signal updater read_buf control now readies :
  client_assumptions read_buf readies →
  ∃ s o, run env config signal readies (client_start updater read_buf control now) = (s, ORet o) ∧
    cs_discovery_task s = false ∧ ∀ e, out_error o = Some e → out_exit o = SessionError_exit e.
Proof.
  intros H. destruct (client_run_end signal updater read_buf control now readies H) as (s & o & E & Ho & Hd & _).
  by exists s, o.
Qed.

(** C9: The client's side of the upgrade.  When the client switches to UDP,
    then, since the registration that is in use was confirmed and for one
    upgrade identifier, it received a probe acknowledgement over UDP, sent
    UDP_READY, received SWITCH_TO_UDP, sent SWITCH_ACK and received SWITCH_OK,
    in this order. *)
Theorem client_upgrade_handshake signal updater read_buf control now readies newer older :
  client_assumptions read_buf readies →
  cs_trace (fst (run env config signal readies (client_start updater read_buf control now))) =
    newer ++ ASwitched ActiveUdpQsp :: older →
  committed older.
Proof.
  intros H E. destruct (client_run_end signal updater read_buf control now readies H) as (s & o & Er & _ & _ & Ht).
  rewrite Er in E. by eapply to_switch.
Qed.

(** Tunnel packets take the transport of the last switch: a packet goes
    out over UDP only if the client last switched to UDP, after a complete
    upgrade handshake, and has not fallen back to TCP since. *)
Theorem client_data_path signal updater read_buf control now readies newer older packet :
  client_assumptions read_buf readies →
  cs_trace (fst (run env config signal readies (client_start updater read_buf control now))) =
    newer ++ AUdpSent (MData packet) :: older →
  ∃ later earlier, older = later ++ ASwitched ActiveUdpQsp :: earlier ∧ committed earlier ∧
    ASwitched ActiveTcp ∉ later.
Proof.
  intros H E. destruct (client_run_end signal updater read_buf control now readies H) as (s & o & Er & _ & _ & Ht).
  rewrite Er in E. cbn [fst] in E. pose proof (to_data _ Ht _ _ _ E) as Hp. destruct (preferred_udp _ Hp) as (later & earlier & -> & Hl).
  exists later, earlier. split_and!; [done| |done].
  apply (to_switch _ Ht (newer ++ AUdpSent (MData packet) :: later)). by rewrite E, <- app_assoc.
Qed.

(** What the client hands to the TUN device is a DATA message that it has
    just received, over TCP or authenticated over UDP, and nothing else. *)
Theorem client_tun_source signal updater read_buf control now readies newer older buf :
  client_assumptions read_buf readies →
  cs_trace (fst (run env config signal readies (client_start updater read_buf control now))) =
    newer ++ ATun buf :: older →
  ∃ packet earlier, OwnedMessageBuf_message buf = Ok (MData packet) ∧
    (older = ATcpRecv (MData packet) :: earlier ∨ older = AUdpRecv (MData packet) :: earlier).
Proof.
  intros H E. destruct (client_run_end signal updater read_buf control now readies H) as (s & o & Er & _ & _ & Ht).
  rewrite Er in E. by eapply to_tun.
Qed.
End Runs.

(** ** Witness: discovery, registration, upgrade, data both ways, shutdown *)
Module ClientDemo.
Import Checksum.

Definition ip : bytes := [10; 0; 0; 2].
Definition config : ClientConfig :=
  mkClientConfig (mkClientNetwork [118; 112; 110] 443 None) (mkIdentity [7] [] ip []) (mkTunConfig [116] 1280 ip 24)
    CAes128Gcm true false ClientTimingConfig_default.
(** Every write succeeds, a nanosecond passes with every question. *)
Definition env : Env :=
  mkEnv Z.of_nat (λ _, 9) (λ n, Some (secret (2 - Z.of_nat n mod 2))) (λ _, (1, Finished WroteAll)) (λ _ _, None)
    (λ _, TunQueued) (λ _, inl 1) (λ _, inl tt) (λ _, ([], RefreshTimedOut)) true.
Definition full_cid : Cid := mkCid 20 (replicate 20 6).
Definition ids : QuicIds := mkQuicIds full_cid demo_cid 5.
Definition packet_in : bytes := [0x45] ++ zeros 11 ++ [10; 0; 0; 1] ++ ip.
Definition packet_out : bytes := [0x45] ++ zeros 11 ++ ip ++ [10; 0; 0; 1].

(** What the server protects: the answer to the probe and a packet. *)
Definition server_packets : list bytes.
Proof.
  let r := eval vm_compute in
    (omap (λ r, match r with Ok p => Some p | _ => None end)
      (snd (send_all (QuicQspSession_new full_cid demo_cid keys_ab 9 9 false)
        [wire_message (MUpgradeProbeAck (UpgradeProbeAckPayload_encode (mkProbeAck 9 9) [])); wire_message (MData packet_in)]
        (λ _, None)))) in
  exact r.
Defined.

Definition nothing : Offer := mkOffer None None None None (mkUdpInput [] None) 0.
Definition idle : Ready := ROffer nothing.
Definition found : Ready := ROffer (mkOffer None (Some (Some ids)) None None (mkUdpInput [] None) 0).
Definition tcp_in (m : Message) : Ready :=
  ROffer (mkOffer None None (Some (inl (wire_message m))) None (mkUdpInput [] None) 0).
Definition tun_in (p : bytes) : Ready := ROffer (mkOffer None None None (Some (Some p)) (mkUdpInput [] None) 1).
Definition udp_in (p : bytes) : Ready :=
  ROffer (mkOffer None None None None (mkUdpInput [[(mkMeta 5 (zlen p) 2000, p)]] None) 2).
Definition start : Session := client_start config (IntervalKeyUpdater_new 100) [] true 0.
Definition readies : list Ready :=
  [idle; found; idle; tcp_in (MRegisterOk (20 :: replicate 20 6)); idle;
   udp_in (server_packets !!! 0%nat); tcp_in (MSwitchToUdp (to_be 8 9)); tcp_in (MSwitchOk (to_be 8 9));
   tun_in packet_out; udp_in (server_packets !!! 1%nat)].
Definition trace : list action.
Proof. let r := eval vm_compute in (cs_trace (fst (run env config SigCancel readies start))) in exact r. Defined.

Lemma client_trace_run : cs_trace (fst (run env config SigCancel readies start)) = trace.
Proof. vm_cast_no_check (eq_refl trace). Qed.

Lemma demo_env_ok : env_ok env.
Proof.
  split; [|constructor]. intros n b [= <-]. split; [done|]. apply Forall_replicate. unfold u8_ok.
  pose proof (Z.mod_pos_bound (Z.of_nat n) 2). lia.
Qed.

(** An offer without a discovery result. *)
Lemma offer_in tcp tun udp first :
  (∀ chunk, tcp = Some (inl chunk) → bytes_ok chunk) → (∀ packet, tun = Some (Some packet) → bytes_ok packet) →
  input_ok udp → ready_ok (ROffer (mkOffer None None tcp tun udp first)).
Proof. by constructor. Qed.

Lemma input_one p : bytes_ok p → input_ok (mkUdpInput [[(mkMeta 5 (zlen p) 2000, p)]] None).
Proof. intros Hp. pose proof (zlen_nonneg p). repeat constructor; cbn; try done; lia. Qed.

Lemma input_none : input_ok (mkUdpInput [] None).
Proof. constructor. Qed.

Lemma client_demo_assumptions : client_assumptions env config [] readies.
Proof.
  split; [vm_compute; reflexivity|]. split; [apply demo_env_ok|]. split; [decided|].
  constructor; [apply offer_in; [done|done|apply input_none] |].
  constructor; [constructor; [intros ? [= <-]; split; decided|done|done|apply input_none] |].
  repeat (constructor;
    [apply offer_in; [try done; intros ? [= <-]; decided|try done; intros ? [= <-]; decided|
       first [apply input_none|apply input_one; decided] ] |]).
  constructor.
Qed.
End ClientDemo.

Section Witnesses.
Import Checksum.

Lemma client_session_returns_witness :
  ∃ s o, run ClientDemo.env ClientDemo.config SigCancel ClientDemo.readies ClientDemo.start = (s, ORet o) ∧
    cs_discovery_task s = false ∧ ∀ e, out_error o = Some e → out_exit o = SessionError_exit e.
Proof.
  exact (client_session_returns ClientDemo.env ClientDemo.config SigCancel (IntervalKeyUpdater_new 100) [] true 0
    ClientDemo.readies ClientDemo.client_demo_assumptions).
Defined.

Lemma client_upgrade_handshake_witness : committed (drop 8 ClientDemo.trace).
Proof.
  exact (client_upgrade_handshake ClientDemo.env ClientDemo.config SigCancel (IntervalKeyUpdater_new 100) [] true 0
    ClientDemo.readies (take 7 ClientDemo.trace) (drop 8 ClientDemo.trace) ClientDemo.client_demo_assumptions
    ClientDemo.client_trace_run).
Defined.

Lemma client_data_path_witness :
  AUdpSent (MData ClientDemo.packet_out) ∈ ClientDemo.trace ∧
  ∃ later earlier, drop 5 ClientDemo.trace = later ++ ASwitched ActiveUdpQsp :: earlier ∧ committed earlier ∧
    ASwitched ActiveTcp ∉ later.
Proof.
  split; [by do 4 right; left|].
  exact (client_data_path ClientDemo.env ClientDemo.config SigCancel (IntervalKeyUpdater_new 100) [] true 0
    ClientDemo.readies (take 4 ClientDemo.trace) (drop 5 ClientDemo.trace) ClientDemo.packet_out
    ClientDemo.client_demo_assumptions ClientDemo.client_trace_run).
Defined.

End Witnesses.
