(* ===== verification/ClientRuntime.v ===== *)
(** * The client runtime ([slt-client/src/runtime/mod.rs], [tun/mod.rs])

    [run_client]: connect, authenticate, run a session, and decide whether to
    connect again, under the supervision of the two TUN tasks.  An execution
    is driven by a list of attempts, each with what the network, the server,
    the host and the TUN tasks do during it; after the last one the runtime is
    still running. *)

From stdpp Require Import base tactics option list numbers.
From Stdlib Require Import ZArith Lia.
From S2P Require Import Prelude Effects Framing TcpChannel Payloads Keys Config Backoff Auth ClientAuth ClientState ClientSession ClientSafety ClientRun.

(** ** tun/mod.rs *)

(** How a task ended: its result, a panic, or an abort. *)
Inductive TaskEnd := Returned (r : io_result unit) | Panicked | Aborted.

Inductive TunTaskError :=
  | TtIo (task : TunTask) (source : IoError)
  | TtPanic (task : TunTask)
  | TtCancelled (task : TunTask)
  | TtUnexpectedExit (task : TunTask)
  | TtChannelClosed (task : TunTask)
  | TtFaultSignalled.

Definition classify_task_exit (task : TunTask) (result : TaskEnd) : TunTaskError :=
  match result with
  | Returned (inl _) => TtUnexpectedExit task
  | Returned (inr source) => TtIo task source
  | Panicked => TtPanic task
  | Aborted => TtCancelled task
  end.

(** Whether the handle is still there. *)
Record TunHandles := mkHandles { th_reader : bool; th_writer : bool }.
Definition handle_of (h : TunHandles) (task : TunTask) : bool := match task with Reader => th_reader h | Writer => th_writer h end.
Definition take_handle (h : TunHandles) (task : TunTask) : TunHandles :=
  match task with Reader => mkHandles false (th_writer h) | Writer => mkHandles (th_reader h) false end.

(** ** Errors and actions *)
Inductive RuntimeError := REConnect (e : ConnectError) | RESession (e : SessionError) | RETun (e : TunTaskError).

Definition is_restart_retriable (e : RuntimeError) : bool :=
  match e with
  | REConnect err => is_retriable err
  | RESession err =>
      match SessionError_exit err with
      | TcpClosed | IdleTimeout | RemoteClose _ | ConnectionError | NetworkChanged => true
      | _ => false
      end
  | RETun _ => false
  end.

(** The events of the observer that the runtime emits, the counters, and the
    sessions it ran. *)
Inductive runtime_action :=
  | RStarting | RTunReady | RStopping | RStopped | RError (retryable : bool)
  | RConnecting (attempt : Z) | RConnectedTcp (peer : Peer) | RAuthenticating | RAuthenticated
  | RReconnectScheduled (attempt delay_ms : Z) | RReconnectFailed (attempt : Z) | RNetworkChanged
  | RCount (m : ConnMetric) | RDisconnectError | RSession (outcome : SessionOutcome).

Inductive ConnectOutcome :=
  | Connected (tcp : TcpChannel) | CoReconnect | FatalError (e : ConnectError) | CoShutdown | CoTunFault.

Inductive SessionAction :=
  | Break | Fatal (e : SessionError) | TunChannelClosed (task : TunTask) | SaTunFault | SaReconnect | ReconnectNow.

(** ** The state

    [rt_cancelled] and [rt_tun_fault] are the two tokens, [rt_control_rx]
    tells whether there is a command channel.  [rt_tun_exit] has what
    [wait_for_exit] returned, and whether the runtime was cancelled then. *)
Record Runtime := mkRuntime {
  rt_backoff : ReconnectBackoff;
  rt_attempt : Z;
  rt_control_rx : bool;
  rt_cancelled : bool;
  rt_tun_fault : bool;
  rt_handles : TunHandles;
  rt_tun_exit : option (TunTaskError * bool);
  rt_trace : list runtime_action;
}.

Definition set_backoff (x : ReconnectBackoff) (s : Runtime) : Runtime :=
  mkRuntime x (rt_attempt s) (rt_control_rx s) (rt_cancelled s) (rt_tun_fault s) (rt_handles s) (rt_tun_exit s) (rt_trace s).
Definition set_attempt (x : Z) (s : Runtime) : Runtime :=
  mkRuntime (rt_backoff s) x (rt_control_rx s) (rt_cancelled s) (rt_tun_fault s) (rt_handles s) (rt_tun_exit s) (rt_trace s).
Definition set_control_rx (x : bool) (s : Runtime) : Runtime :=
  mkRuntime (rt_backoff s) (rt_attempt s) x (rt_cancelled s) (rt_tun_fault s) (rt_handles s) (rt_tun_exit s) (rt_trace s).
Definition set_cancelled (x : bool) (s : Runtime) : Runtime :=
  mkRuntime (rt_backoff s) (rt_attempt s) (rt_control_rx s) x (rt_tun_fault s) (rt_handles s) (rt_tun_exit s) (rt_trace s).
Definition set_tun (fault : bool) (h : TunHandles) (exit : option (TunTaskError * bool)) (s : Runtime) : Runtime :=
  mkRuntime (rt_backoff s) (rt_attempt s) (rt_control_rx s) (rt_cancelled s) fault h exit (rt_trace s).
Definition rlog (a : runtime_action) (s : Runtime) : Runtime :=
  mkRuntime (rt_backoff s) (rt_attempt s) (rt_control_rx s) (rt_cancelled s) (rt_tun_fault s) (rt_handles s) (rt_tun_exit s)
    (a :: rt_trace s).

Abbreviation MR := (eff Runtime RuntimeError).

(** ** The world *)

(** What happens outside: the host cancels the runtime, a TUN task ends. *)
Inductive Outside := HostCancels | TunTaskEnds (task : TunTask) (result : TaskEnd).

(** What ends a connect that does not end by itself. *)
Inductive RaceEnd := ByToken | ByFault (task : TunTask) (result : TaskEnd) | ByCommand (command : option ClientCommand).

(** Where it was then; in [connect] it may not have been polled at all. *)
Inductive Interrupt := NoInterrupt | InConnect (polled : bool) | InAuth.

(** How the wait before a reconnect ends. *)
Inductive WaitEnd := WaitFault (task : TunTask) (result : TaskEnd) | WaitShutdown | WaitElapsed | WaitCommand (command : option ClientCommand).

Record Attempt := mkAttempt {
  at_before : list Outside;
  at_race : RaceEnd;
  at_interrupt : Interrupt;
  at_network : Network;
  at_writes : nat → Z * TcpProgress;
  at_challenge : option bytes;
  at_reads : list (io_result bytes);
  at_after : list Outside;
  at_env : Env;
  at_now : Z;
  at_signal : RunSignal;
  at_readies : list Ready;
  at_ended : list Outside;
  at_random : Z;
  at_wait : WaitEnd;
}.

(** [wait_for_exit] in the select of [run_client_with_metrics]: it ends once. *)
Definition tun_task_ends (task : TunTask) (result : TaskEnd) (s : Runtime) : Runtime :=
  match rt_tun_exit s with
  | Some _ => s
  | None =>
      set_tun (negb (rt_cancelled s)) (take_handle (rt_handles s) task) (Some (classify_task_exit task result, rt_cancelled s)) s
  end.

(** What happened until the runtime looks again. *)
Definition outside (os : list Outside) (s : Runtime) : Runtime :=
  foldl (λ s o, match o with HostCancels => set_cancelled true s | TunTaskEnds task result => tun_task_ends task result s end)
    s os.

Section Runtime.
Context `{B : Boring} `{E : Ed25519} (config : ClientConfig).

(** ** mod.rs *)
Definition emit {X} (a : runtime_action) : eff Runtime X unit := modify (rlog a).

(** The result of a future, or [None] when it was dropped. *)
Definition completed {A} (m : eff Runtime ConnectError A) : MR (option (res ConnectError A)) := λ s,
  match m s with
  | (s, ORet a) => (s, ORet (Some (Ok a)))
  | (s, OErr e) => (s, ORet (Some (Err e)))
  | (s, OPanic) => (s, OPanic)
  | (s, OCancel) => (s, ORet None)
  end.

(** A wait for the fault token ends only when the token is set. *)
Definition await_fault {X} (task : TunTask) (result : TaskEnd) : eff Runtime X unit :=
  _ ← modify (tun_task_ends task result);
  s ← get;
  if rt_tun_fault s then mret tt else dropped.

Definition recv_control {X} (command : option ClientCommand) : eff Runtime X (option ClientCommand) :=
  s ← get;
  if rt_control_rx s then
    _ ← modify (set_control_rx (bool_decide (is_Some command)));
    mret command
  else dropped.

Definition interrupted {X A} (race : RaceEnd) (cancelled : X) : eff Runtime X A :=
  match race with
  | ByToken =>
      _ ← modify (set_cancelled true);
      fail cancelled
  | ByFault _ _ | ByCommand _ => dropped
  end.

(** [connect_authenticated] when it is not interrupted before the connection
    is there; [stop]: what ends a wait for the server. *)
Definition authenticate_connection (a : Attempt) (stop : AuthStop) : eff Runtime ConnectError TcpChannel :=
  let '(counters, r) := connect (at_network a) config in
  _ ← modify (λ s, foldl (λ s m, rlog (RCount m) s) s counters);
  peer ← try id r;
  _ ← emit (RConnectedTcp peer);
  _ ← emit RAuthenticating;
  let '(c, o) := authenticate (at_writes a) config stop (at_challenge a) (at_reads a)
                   (mkConn (TcpChannel_with_state default_interval_key_updater []) 0 []) in
  _ ← modify (λ s, foldr (λ x s, match x with CCount m => rlog (RCount m) s | _ => s end) s (cn_trace c));
  match o with
  | ORet _ =>
      _ ← emit RAuthenticated;
      mret (cn_tcp c)
  | OErr e => fail e
  | OPanic => panic
  | OCancel => interrupted (at_race a) CeCancelled
  end.

Definition connect_authenticated (a : Attempt) : eff Runtime ConnectError TcpChannel :=
  match at_interrupt a with
  | InConnect polled =>
      _ ← (if polled then emit (RCount MTcpConnections) else mret tt);
      interrupted (at_race a) CeCancelled
  | InAuth => authenticate_connection a StopCancelled
  | NoInterrupt => authenticate_connection a StopDeadline
  end.

Definition handle_connect_command (command : option ClientCommand) : MR ConnectOutcome :=
  match command with
  | Some CmdNetworkChanged =>
      _ ← emit RNetworkChanged;
      mret CoReconnect
  | Some CmdStop | None =>
      _ ← modify (set_cancelled true);
      mret CoShutdown
  end.

Definition schedule_reconnect (next_attempt : Z) (a : Attempt) : MR unit :=
  s ← get;
  let '(backoff, delay) := next_delay (rt_backoff s) (at_random a) in
  _ ← modify (set_backoff backoff);
  _ ← emit (RReconnectScheduled next_attempt (millis_u64 delay));
  s ← get;
  if rt_tun_fault s then mret tt else
  if rt_cancelled s then mret tt else
  match at_wait a with
  | WaitFault task result => await_fault task result
  | WaitShutdown => modify (set_cancelled true)
  | WaitElapsed => mret tt
  | WaitCommand command =>
      command ← recv_control command;
      match command with
      | Some CmdNetworkChanged => emit RNetworkChanged
      | Some CmdStop | None => modify (set_cancelled true)
      end
  end.

(** [*attempt + 1] *)
Definition next_attempt (attempt : Z) : res RuntimeError Z := if attempt =? u64_max then Panic else Ok (attempt + 1).

Definition try_connect (a : Attempt) : MR ConnectOutcome :=
  _ ← modify (outside (at_before a));
  s ← get;
  if rt_tun_fault s then mret CoTunFault else
  if rt_cancelled s then mret CoShutdown else
  _ ← modify (set_attempt (saturating_add64 (rt_attempt s) 1));
  s ← get;
  _ ← emit (RConnecting (rt_attempt s));
  connected ← completed (connect_authenticated a);
  match connected with
  | None =>
      match at_race a with
      | ByFault task result =>
          _ ← await_fault task result;
          mret CoTunFault
      | ByCommand command =>
          command ← recv_control command;
          handle_connect_command command
      | ByToken => dropped
      end
  | Some (Ok tcp) => mret (Connected tcp)
  | Some (Err err) =>
      _ ← modify (outside (at_after a));
      s ← get;
      if rt_tun_fault s then mret CoTunFault else
      if rt_cancelled s then mret CoShutdown else
      if negb (is_retriable err) then mret (FatalError err) else
      _ ← emit (RReconnectFailed (rt_attempt s));
      next ← try id (next_attempt (rt_attempt s));
      _ ← schedule_reconnect next a;
      mret CoReconnect
  | Some Panic => panic
  end.

Definition handle_session_exit (outcome : SessionOutcome) (cancelled : bool) : SessionAction :=
  if cancelled then Break else
  match out_exit outcome with
  | Shutdown => Break
  | TunClosed task => TunChannelClosed task
  | TunFault => SaTunFault
  | ProtocolError => Fatal (default ProtocolViolation (out_error outcome))
  | ExitPermissionDenied => Fatal (default (SPermissionDenied (OtherIo 0)) (out_error outcome))
  | UdpUpgradeRequired => Fatal (default SUdpUpgradeRequired (out_error outcome))
  | TcpClosed | IdleTimeout | RemoteClose _ | ConnectionError => SaReconnect
  | NetworkChanged => ReconnectNow
  end.

(** [ClientSession::new] and [run]: the session shares the tokens and the
    command channel. *)
Definition run_session (tcp : TcpChannel) (a : Attempt) : MR SessionOutcome :=
  s ← get;
  let '(session, o) := ClientSession.run (at_env a) config (at_signal a) (at_readies a)
                         (ClientSession_new config tcp (rt_control_rx s) (at_now a)) in
  _ ← modify (set_control_rx (cs_control_rx session));
  _ ← modify (set_cancelled (rt_cancelled s || cs_cancelled session));
  match o with
  | ORet outcome =>
      _ ← modify (outside (at_ended a));
      s ← get;
      match out_exit outcome, rt_tun_fault s with
      | TunFault, false => dropped
      | _, _ => _ ← emit (RSession outcome); mret outcome
      end
  | OErr _ | OPanic => panic
  | OCancel => dropped
  end.

(** One round of [run_sessions]: [inl] when it is over. *)
Definition round (a : Attempt) : MR (unit + unit) :=
  outcome ← try_connect a;
  match outcome with
  | Connected tcp =>
      _ ← modify (λ s, set_backoff (ReconnectBackoff_reset (rt_backoff s)) s);
      outcome ← run_session tcp a;
      s ← get;
      match handle_session_exit outcome (rt_cancelled s) with
      | Break => mret (inl tt)
      | Fatal err => fail (RESession err)
      | TunChannelClosed task => fail (RETun (TtChannelClosed task))
      | SaTunFault => fail (RETun TtFaultSignalled)
      | SaReconnect =>
          next ← try id (next_attempt (rt_attempt s));
          _ ← schedule_reconnect next a;
          mret (inr tt)
      | ReconnectNow => mret (inr tt)
      end
  | CoReconnect => mret (inr tt)
  | FatalError err => fail (REConnect err)
  | CoShutdown => mret (inl tt)
  | CoTunFault => fail (RETun TtFaultSignalled)
  end.

Fixpoint sessions_loop (attempts : list Attempt) : MR unit :=
  match attempts with
  | [] => dropped
  | a :: attempts =>
      next ← round a;
      match next with
      | inl _ => mret tt
      | inr _ => sessions_loop attempts
      end
  end.

Definition run_sessions (attempts : list Attempt) : MR unit :=
  _ ← modify (set_backoff (ReconnectBackoff_new (ct_reconnect_min (cc_timing config)) (ct_reconnect_max (cc_timing config))));
  _ ← modify (set_attempt 0);
  sessions_loop attempts.

(** [wait_for_task]; [result]: how the task ends. *)
Definition wait_for_task (task : TunTask) (result : TaskEnd) : MR TunTaskError :=
  s ← get;
  if handle_of (rt_handles s) task then
    _ ← modify (set_tun (rt_tun_fault s) (take_handle (rt_handles s) task) (rt_tun_exit s));
    mret (classify_task_exit task result)
  else panic.

Definition resolve_tun_channel_failure (r : res RuntimeError unit) (ends : TunTask → TaskEnd) : MR (res RuntimeError unit) :=
  match r with
  | Err (RETun (TtChannelClosed task)) =>
      task_error ← wait_for_task task (ends task);
      mret (Err (RETun task_error))
  | _ => mret r
  end.

(** [tun_handles.shutdown()] waits for the tasks that are left. *)
Definition shutdown_handles (s : Runtime) : Runtime := set_tun (rt_tun_fault s) (mkHandles false false) (rt_tun_exit s) s.

(** The result of the sessions, corrected by the supervision. *)
Definition supervised (s : Runtime) (r : res RuntimeError unit) : res RuntimeError unit :=
  match rt_tun_exit s with
  | Some (err, false) => Err (RETun err)
  | Some (_, true) | None => r
  end.

(** The end of [run_client_with_metrics]. *)
Definition finish_client (r : res RuntimeError unit) (ends : TunTask → TaskEnd) : MR (res RuntimeError unit) :=
  s ← get;
  r ← resolve_tun_channel_failure (supervised s r) ends;
  _ ← (match r with Err (RETun _) => emit RDisconnectError | _ => mret tt end);
  _ ← modify (set_cancelled true);
  _ ← modify shutdown_handles;
  _ ← match r with
      | Ok _ => _ ← emit RStopping; emit RStopped
      | Err err => emit (RError (is_restart_retriable err))
      | Panic => panic
      end;
  mret r.

Definition run_client_with_metrics (attempts : list Attempt) (ends : TunTask → TaskEnd) : MR (res RuntimeError unit) :=
  _ ← emit RStarting;
  _ ← emit RTunReady;
  r ← result (run_sessions attempts);
  finish_client r ends.

(** The error of an invalid configuration is that of [validate]. *)
Definition run_client (attempts : list Attempt) (ends : TunTask → TaskEnd) : MR (res (ConfigError + RuntimeError) unit) :=
  match ClientConfig_validate config with
  | Err err =>
      _ ← modify (set_cancelled true);
      _ ← modify shutdown_handles;
      mret (Err (inl err))
  | Panic => panic
  | Ok _ =>
      r ← run_client_with_metrics attempts ends;
      mret (map_err inr r)
  end.
End Runtime.

Definition Runtime_start (control : bool) : Runtime :=
  mkRuntime (mkBackoff 0 0 0) 0 control false false (mkHandles true true) None [].

(** ** What the trace shows *)

(** The number of the last attempt, and the delays since the last time the
    client was authenticated. *)
Fixpoint last_attempt (t : list runtime_action) : Z :=
  match t with
  | [] => 0
  | RConnecting n :: _ => n
  | _ :: t => last_attempt t
  end.
Fixpoint waits (t : list runtime_action) : nat :=
  match t with
  | [] => 0
  | RAuthenticated :: _ => 0
  | RReconnectScheduled _ _ :: t => S (waits t)
  | _ :: t => waits t
  end.

(** The events that end a session for its host, and traces without one. *)
Definition terminal_event (a : runtime_action) : bool := match a with RStopped | RError _ => true | _ => false end.
Definition running (t : list runtime_action) : Prop := Forall (λ a, terminal_event a = false) t.

Lemma running_cons a t : terminal_event a = false → running t → running (a :: t).
Proof. by constructor. Qed.

Section Policy.
Context `{B : Boring} {L : BoringLaws B} {T : BoringTotal B} `{E : Ed25519} {EL : Ed25519Laws E} (config : ClientConfig).

Abbreviation base := (ct_reconnect_min (cc_timing config)).
Abbreviation max := (ct_reconnect_max (cc_timing config)).

(** Attempts are numbered one by one; a reconnect is announced for the next
    number, with a delay between half and all of the cap for the number of
    delays since the last authentication; a session follows its
    authentication; a terminal error is never a retriable one. *)
Definition event_ok (a : runtime_action) (older : list runtime_action) : Prop :=
  match a with
  | RConnecting n => n = last_attempt older + 1
  | RReconnectFailed n => n = last_attempt older
  | RReconnectScheduled n delay_ms =>
      let cap_ms := millis_u64 (cap_at base max (waits older)) in
      n = last_attempt older + 1 ∧ cap_ms - cap_ms / 2 ≤ delay_ms ≤ cap_ms
  | RSession outcome => head older = Some RAuthenticated ∧ outcome_ok outcome
  | RError retryable => retryable = false
  | _ => True
  end.

Fixpoint events_ok (t : list runtime_action) : Prop :=
  match t with
  | [] => True
  | a :: t => event_ok a t ∧ events_ok t
  end.

Record attempt_ok (a : Attempt) : Prop := mkAttemptOk {
  ao_env : env_ok (at_env a);
  ao_readies : Forall ready_ok (at_readies a);
  ao_challenge : ∀ ch, at_challenge a = Some ch → array_ok AUTH_CHALLENGE_LEN ch;
  ao_reads : Forall read_ok (at_reads a);
}.

(** The TUN tasks: the handles are there until one task ended; an end before
    the cancellation sets the fault token, a later one does not. *)
Definition tun_state_ok (s : Runtime) : Prop :=
  match rt_tun_exit s with
  | None => rt_handles s = mkHandles true true ∧ rt_tun_fault s = false
  | Some (e, true) => rt_cancelled s = true ∧ rt_tun_fault s = false
  | Some (e, false) => rt_tun_fault s = true ∧ ∀ task, e ≠ TtChannelClosed task
  end.

Record rt_ok (n : Z) (s : Runtime) : Prop := mkRtOk {
  ro_tun : tun_state_ok s;
  ro_attempt : rt_attempt s = last_attempt (rt_trace s);
  ro_bound : 0 ≤ rt_attempt s ≤ n;
  ro_backoff : rt_backoff s = mkBackoff base max (cap_at base max (waits (rt_trace s)));
  ro_events : events_ok (rt_trace s);
  ro_running : running (rt_trace s);
}.

(** Actions that neither number anything, nor touch the backoff, nor end the
    session. *)
Definition neutral (a : runtime_action) : Prop :=
  match a with
  | RConnecting _ | RReconnectScheduled _ _ | RAuthenticated | RStopped | RError _ => False
  | _ => True
  end.

Lemma neutral_same a t : neutral a → last_attempt (a :: t) = last_attempt t ∧ waits (a :: t) = waits t.
Proof. by destruct a. Qed.

Lemma rlog_ok n a s : rt_ok n s → neutral a → event_ok a (rt_trace s) → rt_ok n (rlog a s).
Proof.
  intros [Ht Ha Hb Hbo He Hr] Hn Hev. destruct (neutral_same a (rt_trace s) Hn) as [El Ew].
  constructor; cbn [rlog rt_tun_exit rt_attempt rt_trace rt_backoff]; [done|by rewrite El|done|by rewrite Ew|by split|].
  constructor; [by destruct a|done].
Qed.

Lemma tun_task_ends_ok n task result s : rt_ok n s → rt_ok n (tun_task_ends task result s).
Proof.
  intros [Ht Ha Hb Hbo He Hr]. unfold tun_task_ends. destruct (rt_tun_exit s) eqn:Ee; [by constructor|].
  constructor; try done. unfold tun_state_ok in *. cbn. destruct (rt_cancelled s) eqn:Ec; [done|]. split; [done|].
  by destruct result as [ [?|?]| |].
Qed.

Lemma set_cancelled_ok n s : rt_ok n s → rt_ok n (set_cancelled true s).
Proof.
  intros [Ht Ha Hb Hbo He Hr]. constructor; try done. unfold tun_state_ok in *. cbn.
  destruct (rt_tun_exit s) as [ [e []]|]; naive_solver.
Qed.

Lemma set_control_rx_ok n x s : rt_ok n s → rt_ok n (set_control_rx x s).
Proof. intros []. by constructor. Qed.

Lemma outside_ok n os s : rt_ok n s → rt_ok n (outside os s).
Proof.
  revert s. induction os as [|o os IH]; intros s Hs; [done|]. apply IH. destruct o; [by apply set_cancelled_ok|by apply tun_task_ends_ok].
Qed.

(** ** Connecting *)
Lemma connect_addr_no_panic net addr : connect_addr net addr ≠ Panic.
Proof. unfold connect_addr. by destruct (net_socket net addr), (net_protect net addr), (net_connect net addr). Qed.

Lemma connect_first_no_panic net addrs last : connect_first net addrs last ≠ Panic.
Proof.
  revert last. induction addrs as [|addr addrs IH]; intros last; [done|]. cbn [connect_first].
  pose proof (connect_addr_no_panic net addr). by destruct (connect_addr net addr).
Qed.

Lemma connect_no_panic net : (connect net config).2 ≠ Panic.
Proof.
  assert (connect_stream net config ≠ Panic) as Hs.
  { unfold connect_stream. destruct (ip_override _); [apply connect_addr_no_panic|].
    destruct (net_resolve _ _ _); [apply connect_first_no_panic|done]. }
  unfold connect. case_bool_decide; [done|]. destruct (net_timed_out net); [done|].
  destruct (connect_stream net config); [|done|done]. destruct (negb _); [done|].
  by destruct (net_handshake net) as [ [?|[ [? ?] ?] ]|].
Qed.

Lemma counters_ok n counters s : rt_ok n s → rt_ok n (foldl (λ s m, rlog (RCount m) s) s counters).
Proof. revert s. induction counters as [|m ms IH]; intros s Hs; [done|]. apply IH. by apply rlog_ok. Qed.

Lemma auth_counters_ok n t s :
  rt_ok n s → rt_ok n (foldr (λ x s, match x with CCount m => rlog (RCount m) s | _ => s end) s t).
Proof. intros Hs. induction t as [|x t IH]; [done|]. cbn. destruct x; [done..|]. by apply rlog_ok. Qed.

(** The backoff is about to be reset. *)
Definition connected (n : Z) (s : Runtime) : Prop :=
  rt_ok n (set_backoff (ReconnectBackoff_reset (rt_backoff s)) s) ∧ head (rt_trace s) = Some RAuthenticated.

Lemma authenticated_ok n s : base ≤ max → rt_ok n s → connected n (rlog RAuthenticated s).
Proof.
  intros Hm [Ht Ha Hb Hbo He Hr]. split; [|done]. constructor; cbn; try done; [|by apply running_cons]. rewrite Hbo. unfold ReconnectBackoff_reset. cbn [bo_base bo_max].
  f_equal. unfold cap_at. cbn. lia.
Qed.

Lemma interrupted_ok {A} n race (e : ConnectError) (Q : A → Runtime → Prop) s :
  rt_ok n s → wp (interrupted race e) Q (λ _, rt_ok n) (rt_ok n) s.
Proof. intros Hs. destruct race; [|done..]. apply wp_bind, wp_modify. by apply set_cancelled_ok. Qed.

Lemma delivered_ok reads : Forall read_ok reads → bytes_ok (delivered reads).
Proof.
  intros Hr. unfold delivered. induction Hr as [|r reads Hrd _ IH]; [constructor|]. destruct r as [b|e]; [|exact IH]. by apply bytes_ok_app.
Qed.

Lemma accepted_bytes ch c0 input reads c :
  Forall read_ok reads → input `prefix_of` delivered reads → accepted config ch c0 input c → bytes_ok (chan_read_buf (cn_tcp c)).
Proof.
  intros Hr [rest Er] (t & t' & _ & _ & _ & _ & _ & Ei).
  pose proof (delivered_ok reads Hr) as Hd.
  rewrite Er, Ei, !bytes_ok_app in Hd. naive_solver.
Qed.

Context (Hvalid : ClientConfig_validate config = Ok tt) (Htypes : client_types_ok config) (Hdur : max ≤ DURATION_MAX).

Lemma reconnect_range : interval_ok base ∧ base ≤ max.
Proof. by destruct (ClientConfig_validate_ok _ Hvalid) as (_ & [_ ? _] & _). Qed.

Lemma authenticate_connection_ok n a stop s :
  rt_ok n s → attempt_ok a →
  wp (authenticate_connection config a stop) (λ tcp s', connected n s' ∧ bytes_ok (chan_read_buf tcp))
    (λ _, rt_ok n) (rt_ok n) s.
Proof.
  intros Hs Ha. unfold authenticate_connection. pose proof (connect_no_panic (at_network a)) as Hnp.
  destruct (connect _ config) as [counters r]. cbn [snd] in Hnp.
  apply (counters_ok n counters) in Hs. apply wp_bind, wp_modify, wp_bind. destruct r as [peer|e|]; [|done|done].
  apply wp_ret, wp_bind, wp_modify, wp_bind, wp_modify.
  apply (rlog_ok n (RConnectedTcp peer) _) in Hs; [|done..]. apply (rlog_ok n RAuthenticating _) in Hs; [|done..].
  pose proof (authenticate_ok (at_writes a) config stop (at_challenge a) (at_reads a)
    (mkConn (TcpChannel_with_state default_interval_key_updater []) 0 []) Htypes (ao_challenge a Ha) (ao_reads a Ha) eq_refl) as Hauth.
  unfold wp in Hauth. destruct (authenticate _ _ _ _ _ _) as [c o].
  apply (auth_counters_ok n (cn_trace c)) in Hs. apply wp_bind, wp_modify. destruct o as [u|e| |]; [|done|done|by apply interrupted_ok].
  apply wp_bind, wp_modify, wp_ret. destruct Hauth as (ch & input & _ & Hpre & Hacc). split; [|by eapply accepted_bytes; [apply Ha|..] ].
  apply authenticated_ok; [apply reconnect_range|done].
Qed.

Lemma connect_authenticated_ok n a s :
  rt_ok n s → attempt_ok a →
  wp (connect_authenticated config a) (λ tcp s', connected n s' ∧ bytes_ok (chan_read_buf tcp)) (λ _, rt_ok n) (rt_ok n) s.
Proof.
  intros Hs Ha. unfold connect_authenticated. destruct (at_interrupt a) as [|polled|]; [by apply authenticate_connection_ok| |by apply authenticate_connection_ok].
  apply wp_bind. destruct polled; [apply wp_modify|apply wp_ret]; apply interrupted_ok; [by apply rlog_ok|done].
Qed.

(** ** Waiting *)
Lemma cap_nonneg k : 0 ≤ cap_at base max k.
Proof. destruct reconnect_range as [Hi Hm]. unfold interval_ok, MIN_INTERVAL, from_millis, cap_at in *. lia. Qed.

Lemma delay_millis k random :
  let cap_ms := millis_u64 (cap_at base max k) in
  let '(b, d) := next_delay (mkBackoff base max (cap_at base max k)) random in
  b = mkBackoff base max (cap_at base max (S k)) ∧ cap_ms - cap_ms / 2 ≤ millis_u64 d ≤ cap_ms.
Proof.
  intros cap_ms. destruct reconnect_range as [Hi Hm]. pose proof (cap_nonneg k) as Hk.
  pose proof (next_delay_bounds (mkBackoff base max (cap_at base max k)) random Hk) as Hd.
  pose proof (next_delay_current (mkBackoff base max (cap_at base max k)) random Hk Hdur) as Hc.
  destruct (next_delay _ random) as [b d]. cbn [fst snd bo_base bo_max bo_current] in *. fold cap_ms in Hd. split.
  - rewrite Hc, cap_at_S; [done|unfold interval_ok, MIN_INTERVAL, from_millis in Hi; lia|done].
  - assert (cap_ms ≤ u64_max) by (unfold cap_ms, millis_u64; lia). unfold millis_u64, as_millis, from_millis in *.
    pose proof (Z.div_le_lower_bound d 1000000 (cap_ms - cap_ms / 2)). pose proof (Z.div_le_upper_bound d 1000000 cap_ms). lia.
Qed.

Lemma wait_fault_ok {X} n task result (Q : unit → Runtime → Prop) (P : X → Runtime → Prop) s :
  rt_ok n s → (∀ s', rt_ok n s' → rt_tun_fault s' = true → Q tt s') → wp (await_fault task result) Q P (rt_ok n) s.
Proof.
  intros Hs HQ. apply wp_bind, wp_modify, wp_bind, wp_get. apply (tun_task_ends_ok n task result) in Hs.
  destruct (rt_tun_fault _) eqn:Ef; [|exact Hs]. apply wp_ret. by apply HQ.
Qed.

Lemma recv_control_ok {X} n command (Q : option ClientCommand → Runtime → Prop) (P : X → Runtime → Prop) s :
  rt_ok n s → (∀ s', rt_ok n s' → Q command s') → wp (recv_control command) Q P (rt_ok n) s.
Proof.
  intros Hs HQ. apply wp_bind, wp_get. destruct (rt_control_rx s); [|exact Hs]. apply wp_bind, wp_modify, wp_ret, HQ.
  by apply set_control_rx_ok.
Qed.

Lemma scheduled_ok n next b d s :
  rt_ok n s → next = last_attempt (rt_trace s) + 1 → ∀ random, next_delay (rt_backoff s) random = (b, d) →
  rt_ok n (rlog (RReconnectScheduled next (millis_u64 d)) (set_backoff b s)).
Proof.
  intros [Ht Ha Hb Hbo He Hr] -> random Hd. pose proof (delay_millis (waits (rt_trace s)) random) as H. rewrite <- Hbo, Hd in H.
  destruct H as [-> Hd']. constructor; cbn; try done. by apply running_cons.
Qed.

Lemma schedule_reconnect_ok n next a (P : RuntimeError → Runtime → Prop) s :
  rt_ok n s → next = last_attempt (rt_trace s) + 1 → wp (schedule_reconnect next a) (λ _, rt_ok n) P (rt_ok n) s.
Proof.
  intros Hs Hn. apply wp_bind, wp_get. destruct (next_delay (rt_backoff s) (at_random a)) as [b d] eqn:Ed.
  apply (scheduled_ok n next b d s Hs Hn) in Ed. apply wp_bind, wp_modify, wp_bind, wp_modify, wp_bind, wp_get.
  destruct (rt_tun_fault _); [by apply wp_ret|]. destruct (rt_cancelled _); [by apply wp_ret|].
  destruct (at_wait a) as [task r| | |command].
  - by apply wait_fault_ok.
  - apply wp_modify. by apply set_cancelled_ok.
  - by apply wp_ret.
  - apply wp_bind, recv_control_ok; [done|]. intros s' Hs'.
    destruct command as [ []|]; apply wp_modify; [by apply rlog_ok|by apply set_cancelled_ok..].
Qed.

(** ** Attempts *)
Lemma rt_ok_mono n n' s : n ≤ n' → rt_ok n s → rt_ok n' s.
Proof. intros Hn [Ht Ha Hb Hbo He Hr]. constructor; try done. lia. Qed.

(** What [try_connect] leaves. *)
Definition tried (n : Z) (outcome : ConnectOutcome) (s : Runtime) : Prop :=
  match outcome with
  | Connected tcp => connected n s ∧ bytes_ok (chan_read_buf tcp)
  | FatalError e => rt_ok n s ∧ is_retriable e = false
  | CoTunFault => rt_ok n s ∧ rt_tun_fault s = true
  | CoShutdown => rt_ok n s ∧ rt_cancelled s = true
  | CoReconnect => rt_ok n s
  end.

Lemma wp_completed {A} (m : eff Runtime ConnectError A) (Q : option (res ConnectError A) → Runtime → Prop) P C s :
  wp m (λ a s', Q (Some (Ok a)) s') (λ e s', Q (Some (Err e)) s') (λ s', Q None s') s → wp (completed m) Q P C s.
Proof. unfold wp, completed. by destruct (m s) as [s' [a|e| |] ]. Qed.

Lemma connecting_ok n s :
  rt_ok n s → n < u64_max →
  rt_ok (n + 1) (rlog (RConnecting (saturating_add64 (rt_attempt s) 1)) (set_attempt (saturating_add64 (rt_attempt s) 1) s)).
Proof.
  intros [Ht Ha Hb Hbo He Hr] Hn. unfold saturating_add64. constructor; cbn; try done; [lia| |by apply running_cons]. split; [|done]. lia.
Qed.

Lemma next_attempt_ok n s (Q : Z → Runtime → Prop) (P : RuntimeError → Runtime → Prop) C :
  rt_ok n s → n < u64_max → Q (rt_attempt s + 1) s → wp (try id (next_attempt (rt_attempt s))) Q P C s.
Proof.
  intros Hs Hn HQ. pose proof (ro_bound n s Hs). unfold next_attempt. destruct (Z.eqb_spec (rt_attempt s) u64_max); [lia|]. done.
Qed.

Lemma connect_failed_ok n a err (P : RuntimeError → Runtime → Prop) s :
  rt_ok n s → n < u64_max →
  wp (_ ← modify (outside (at_after a));
      s ← get;
      if rt_tun_fault s then mret CoTunFault else
      if rt_cancelled s then mret CoShutdown else
      if negb (is_retriable err) then mret (FatalError err) else
      _ ← emit (RReconnectFailed (rt_attempt s));
      next ← try id (next_attempt (rt_attempt s));
      _ ← schedule_reconnect next a;
      mret CoReconnect) (tried n) P (rt_ok n) s.
Proof.
  intros Hs Hn. apply wp_bind, wp_modify, wp_bind, wp_get. apply (outside_ok n (at_after a)) in Hs.
  match goal with |- wp _ _ _ _ ?x => set (s1 := x) in * end.
  destruct (rt_tun_fault s1) eqn:Ef; [by apply wp_ret|]. destruct (rt_cancelled s1) eqn:Ec; [by apply wp_ret|].
  destruct (is_retriable err) eqn:Er; [|by apply wp_ret]. cbn [negb].
  pose proof (ro_attempt n s1 Hs) as Ea. apply wp_bind, wp_modify, wp_bind.
  apply (rlog_ok n (RReconnectFailed (rt_attempt s1))) in Hs; [|done..].
  apply (next_attempt_ok n _ _ _ _ Hs Hn). apply wp_bind. eapply wp_mono; [apply schedule_reconnect_ok; [exact Hs|cbn; lia]|].
  cbv beta. intros _ s' Hs'. by apply wp_ret.
Qed.

Lemma try_connect_ok n a (P : RuntimeError → Runtime → Prop) s :
  rt_ok n s → n + 1 < u64_max → attempt_ok a → wp (try_connect config a) (tried (n + 1)) P (rt_ok (n + 1)) s.
Proof.
  intros Hs Hn Ha. apply wp_bind, wp_modify, wp_bind, wp_get. apply (outside_ok n (at_before a)) in Hs.
  match goal with |- wp _ _ _ _ ?x => set (s1 := x) in * end. pose proof (rt_ok_mono n (n + 1) s1 ltac:(lia) Hs) as Hs1.
  destruct (rt_tun_fault s1) eqn:Ef; [by apply wp_ret|]. destruct (rt_cancelled s1) eqn:Ec; [by apply wp_ret|].
  apply wp_bind, wp_modify, wp_bind, wp_get, wp_bind, wp_modify. apply connecting_ok in Hs; [|lia]. cbn [rt_attempt set_attempt].
  apply wp_bind, wp_completed. eapply wp_weaken; [by apply (connect_authenticated_ok (n + 1) a)|..]; cbv beta.
  - intros tcp s' Hc. by apply wp_ret.
  - intros e s' Hs'. by apply connect_failed_ok.
  - intros s' Hs'. destruct (at_race a) as [|task r|command]; [exact Hs'| |].
    + apply wp_bind, wait_fault_ok; [done|]. intros s'' Hs'' Hf. by apply wp_ret.
    + apply wp_bind, recv_control_ok; [done|]. intros s'' Hs''.
      destruct command as [ []|]; apply wp_bind, wp_modify, wp_ret; [by apply rlog_ok|split; [by apply set_cancelled_ok|done]..].
Qed.

(** ** Sessions *)
Lemma outside_trace os s : rt_trace (outside os s) = rt_trace s.
Proof.
  revert s. induction os as [|o os IH]; intros s; [done|]. cbn [outside foldl]. etrans; [apply IH|]. destruct o; [done|].
  unfold tun_task_ends. by destruct (rt_tun_exit s).
Qed.

Lemma set_cancelled_up n x s : (rt_cancelled s = true → x = true) → rt_ok n s → rt_ok n (set_cancelled x s).
Proof.
  intros Hx [Ht Ha Hb Hbo He Hr]. constructor; try done. unfold tun_state_ok in *. cbn.
  destruct (rt_tun_exit s) as [ [e []]|]; naive_solver.
Qed.

Lemma run_session_ok n tcp a (P : RuntimeError → Runtime → Prop) s :
  rt_ok n s → head (rt_trace s) = Some RAuthenticated → bytes_ok (chan_read_buf tcp) → attempt_ok a →
  wp (run_session config tcp a) (λ o s', rt_ok n s' ∧ outcome_ok o ∧ head (rt_trace s') = Some (RSession o)) P (rt_ok n) s.
Proof.
  intros Hs Hh Hb Ha. apply wp_bind, wp_get.
  pose proof (client_run_ok (at_env a) config (ao_env a Ha) (valid_limits config Hvalid) (at_signal a) (at_readies a) (λ _ _, False) (λ _, False)
    (ClientSession_new config tcp (rt_control_rx s) (at_now a)) (client_session_new_good config tcp _ _ Hb) (ao_readies a Ha)) as Hrun.
  unfold wp in Hrun. destruct (ClientSession.run _ _ _ _ _) as [session o]. destruct o as [outcome| | |]; [|done..].
  destruct Hrun as [Ho _]. apply wp_bind, wp_modify, wp_bind, wp_modify.
  apply (set_control_rx_ok n (cs_control_rx session)) in Hs.
  apply (set_cancelled_up n (rt_cancelled s || cs_cancelled session)) in Hs; [|intros Hc; cbn in Hc; by rewrite Hc].
  apply wp_bind, wp_modify, wp_bind, wp_get. apply (outside_ok n (at_ended a)) in Hs.
  match goal with |- wp _ _ _ _ ?x => set (s1 := x) in * end.
  assert (rt_trace s1 = rt_trace s) as Et by (unfold s1; by rewrite outside_trace).
  assert (wp (_ ← emit (RSession outcome); mret outcome) (λ o s', rt_ok n s' ∧ outcome_ok o ∧ head (rt_trace s') = Some (RSession o))
    P (rt_ok n) s1) as Hlog.
  { apply wp_bind, wp_modify, wp_ret. split; [|done]. apply rlog_ok; [done|done|]. split; [by rewrite Et|done]. }
  destruct (out_exit outcome); try exact Hlog. by destruct (rt_tun_fault s1).
Qed.

(** An error that ends the runtime. *)
Definition terminal (n : Z) (err : RuntimeError) (s : Runtime) : Prop :=
  rt_ok n s ∧ is_restart_retriable err = false ∧ ∀ task, err = RETun (TtChannelClosed task) → rt_cancelled s = false.

Lemma session_fatal outcome cancelled err :
  outcome_ok outcome → handle_session_exit outcome cancelled = Fatal err → is_restart_retriable (RESession err) = false.
Proof.
  intros Ho. unfold handle_session_exit. destruct cancelled; [done|]. specialize (Ho err). unfold is_restart_retriable.
  destruct (out_exit outcome); try done; destruct (out_error outcome) as [e|]; cbn [default]; intros [= <-]; try done;
    by rewrite <- Ho.
Qed.

Lemma session_closed outcome cancelled task :
  handle_session_exit outcome cancelled = TunChannelClosed task → cancelled = false.
Proof. unfold handle_session_exit. by destruct cancelled. Qed.

(** Why the runtime stops without an error. *)
Definition stopping (s : Runtime) : Prop :=
  rt_cancelled s = true ∨ ∃ o, head (rt_trace s) = Some (RSession o) ∧ out_exit o = Shutdown.

Lemma session_break outcome cancelled :
  handle_session_exit outcome cancelled = Break → cancelled = true ∨ out_exit outcome = Shutdown.
Proof. unfold handle_session_exit. destruct cancelled; [by left|]. destruct (out_exit outcome); try done. by right. Qed.

Lemma round_ok n a s :
  rt_ok n s → n + 1 < u64_max → attempt_ok a →
  wp (round config a) (λ r s', rt_ok (n + 1) s' ∧ (r = inl tt → stopping s')) (terminal (n + 1)) (rt_ok (n + 1)) s.
Proof.
  intros Hs Hn Ha. apply wp_bind. eapply wp_mono; [by apply try_connect_ok|]. cbv beta. intros outcome s1 Ht.
  destruct outcome as [tcp| |e| |]; cbn [tried] in Ht; [|by apply wp_ret| |destruct Ht; apply wp_ret; split; [done|by left]|].
  - destruct Ht as [ [Hc Hh] Hb]. apply wp_bind, wp_modify, wp_bind.
    eapply wp_mono; [by apply run_session_ok|]. cbv beta. intros o s2 (Hs2 & Ho & Hh2). apply wp_bind, wp_get.
    destruct (handle_session_exit o (rt_cancelled s2)) as [|e|task| | |] eqn:Eh.
    + apply wp_ret. split; [done|]. intros _. apply session_break in Eh as [?|?]; [by left|right; by exists o].
    + split_and!; [done|by eapply session_fatal|done].
    + split_and!; [done|done|]. intros _ _. by eapply session_closed.
    + by split_and!.
    + apply wp_bind. eapply next_attempt_ok; [done|lia|]. apply wp_bind.
      eapply wp_mono; [apply schedule_reconnect_ok; [done|by rewrite (ro_attempt _ _ Hs2)]|]. cbv beta. intros _ s3 Hs3. by apply wp_ret.
    + by apply wp_ret.
  - destruct Ht as [Hs1 He]. by split_and!.
  - destruct Ht as [Hs1 _]. by split_and!.
Qed.

Lemma sessions_loop_ok attempts n m s :
  rt_ok n s → n + zlen attempts ≤ m → m < u64_max → Forall attempt_ok attempts →
  wp (sessions_loop config attempts) (λ _ s', rt_ok m s' ∧ stopping s') (terminal m) (rt_ok m) s.
Proof.
  revert n s. induction attempts as [|a attempts IH]; intros n s Hs Hm Hmax Hall.
  { apply (rt_ok_mono n); [unfold zlen in *; cbn in *; lia|done]. }
  apply Forall_cons_1 in Hall as [Ha Hall]. cbn [sessions_loop]. unfold zlen in *. cbn [length] in Hm.
  apply wp_bind. eapply wp_weaken; [apply (round_ok n a s Hs); [lia|done]|..]; cbv beta.
  - intros [ []|[] ] s' [Hs' Hst]; [apply wp_ret; split; [apply (rt_ok_mono (n + 1)); [lia|done]|auto]|]. apply (IH (n + 1)); [done|lia|done|done].
  - intros e s' (Hs' & ? & ?). split_and!; [apply (rt_ok_mono (n + 1)); [lia|done]|done|done].
  - intros s' Hs'. apply (rt_ok_mono (n + 1)); [lia|done].
Qed.

(** ** The runtime *)
Lemma run_sessions_ok attempts m s :
  tun_state_ok s → rt_trace s = [RTunReady; RStarting] → zlen attempts ≤ m → m < u64_max → Forall attempt_ok attempts →
  wp (run_sessions config attempts) (λ _ s', rt_ok m s' ∧ stopping s') (terminal m) (rt_ok m) s.
Proof.
  intros Ht Etr Hm Hmax Hall. apply wp_bind, wp_modify, wp_bind, wp_modify. apply (sessions_loop_ok attempts 0); [|lia|done|done].
  destruct reconnect_range. constructor; cbn; rewrite ?Etr; try done; [|by repeat constructor]. unfold ReconnectBackoff_new, cap_at. f_equal. cbn. lia.
Qed.

Lemma resolve_ok n r ends (P : RuntimeError → Runtime → Prop) C s :
  rt_ok n s → match r with Ok _ => stopping s | Err err => terminal n err s | Panic => False end →
  wp (resolve_tun_channel_failure (supervised s r) ends)
    (λ r' s', events_ok (rt_trace s') ∧ running (rt_trace s') ∧ rt_tun_exit s' = rt_tun_exit s ∧
       match r' with
       | Ok _ => stopping s
       | Err err => is_restart_retriable err = false ∧ ∀ e, rt_tun_exit s = Some (e, false) → err = RETun e
       | Panic => False
       end) P C s.
Proof.
  intros Hs Hr. pose proof (ro_tun n s Hs) as Ht. pose proof (ro_events n s Hs) as He. pose proof (ro_running n s Hs) as Hrun. unfold tun_state_ok in Ht. unfold supervised.
  destruct (rt_tun_exit s) as [ [e []]|] eqn:Ee.
  - destruct r as [u|err|]; [by apply wp_ret| |done]. destruct Hr as (_ & Hr & Hc).
    destruct err as [?|?|e']; [by apply wp_ret..|]. destruct e'; try by apply wp_ret. destruct Ht as [Ht _]. by rewrite (Hc _ eq_refl) in Ht.
  - destruct Ht as [_ Ht]. destruct e; try (apply wp_ret; by split_and!; [..|intros ? [= <-] ]). by destruct (Ht task).
  - destruct r as [u|err|]; [by apply wp_ret| |done]. destruct Hr as (_ & Hr & Hc).
    destruct err as [?|?|e']; [by apply wp_ret..|]. destruct e'; try by apply wp_ret. apply wp_bind, wp_bind, wp_get.
    destruct Ht as [-> _]. destruct task; cbn [handle_of th_reader th_writer]; apply wp_bind, wp_modify, wp_ret, wp_ret; done.
Qed.

(** How [run_client] ended, if it did. *)
Definition runtime_ended (s : Runtime) (r : res (ConfigError + RuntimeError) unit) : Prop :=
  rt_cancelled s = true ∧ rt_handles s = mkHandles false false ∧
  match r with
  | Ok _ => ∃ t, running t ∧ rt_trace s = RStopped :: RStopping :: t
  | Err (inr err) =>
      is_restart_retriable err = false ∧ (∃ t, running t ∧ rt_trace s = RError false :: t) ∧
      ∀ e, rt_tun_exit s = Some (e, false) → err = RETun e
  | Err (inl _) | Panic => False
  end.

Lemma finish_client_ok n r ends s :
  rt_ok n s → match r with Ok _ => stopping s | Err err => terminal n err s | Panic => False end →
  wp (finish_client r ends) (λ r s, events_ok (rt_trace s) ∧ runtime_ended s (map_err inr r)) (λ _ _, False) (λ _, False) s.
Proof.
  intros Hs Hr. apply wp_bind, wp_get, wp_bind. eapply wp_mono; [by apply (resolve_ok n)|]. cbv beta.
  intros r' s' (He & Hrun & Ee & Hr'). destruct r' as [u|err|]; [| |done].
  - apply wp_bind, wp_ret, wp_bind, wp_modify, wp_bind, wp_modify, wp_bind, wp_bind, wp_modify, wp_modify, wp_ret.
    split; [done|]. unfold runtime_ended. cbn [map_err]. split_and!; [done|done|]. by exists (rt_trace s').
  - destruct Hr' as [Hre Hex]. apply wp_bind.
    destruct err as [err|err|err]; (first [apply wp_ret|apply wp_modify]);
      apply wp_bind, wp_modify, wp_bind, wp_modify, wp_bind, wp_modify, wp_ret; rewrite Hre;
      (split; [done|]; unfold runtime_ended; cbn [map_err]; split_and!; [done|done|done|eexists; split; [|done]; by repeat (apply running_cons; [done|])|]; cbn; rewrite Ee; done).
Qed.

Lemma run_client_ok control attempts ends :
  Forall attempt_ok attempts → zlen attempts < u64_max →
  wp (run_client config attempts ends) (λ r s, events_ok (rt_trace s) ∧ runtime_ended s r) (λ _ _, False)
    (λ s, events_ok (rt_trace s) ∧ running (rt_trace s)) (Runtime_start control).
Proof.
  intros Hall Hlen. unfold run_client. rewrite Hvalid. unfold run_client_with_metrics.
  apply wp_bind, wp_bind, wp_modify, wp_bind, wp_modify, wp_bind, wp_result.
  eapply wp_weaken; [apply (run_sessions_ok attempts (zlen attempts)); [done|done|lia|lia|done]|..]; cbv beta.
  - intros [] s' [Hs' Hst]. eapply wp_weaken; [by apply (finish_client_ok (zlen attempts))|..]; [|done..]. cbv beta. intros r s'' Hr. by apply wp_ret.
  - intros e s' Ht. eapply wp_weaken; [apply (finish_client_ok (zlen attempts)); [apply Ht|exact Ht]|..]; [|done..]. cbv beta. intros r s'' Hr. by apply wp_ret.
  - intros s' Hs'. split; apply Hs'.
Qed.


(** The schedule of the attempts.  In every run the attempts to connect are
    numbered 1, 2, 3 and so on; each announced reconnect is for the next
    number, with a delay between half and all of [reconnect_min] doubled for
    every delay since the last authentication and cut to [reconnect_max]; every
    session follows its own authentication. *)
Theorem client_reconnect_schedule control attempts ends newer a older :
  Forall attempt_ok attempts → zlen attempts < u64_max →
  rt_trace (fst (run_client config attempts ends (Runtime_start control))) = newer ++ a :: older →
  event_ok a older.
Proof.
  intros Hall Hlen Et. pose proof (run_client_ok control attempts ends Hall Hlen) as H. unfold wp in H.
  assert (events_ok (newer ++ a :: older)) as He.
  { rewrite <- Et. destruct (run_client _ _ _ _) as [s [r|e| |] ]; [apply H|done|done|apply H]. }
  clear Et. induction newer as [|b newer IH]; [apply He|]. by apply IH, He.
Qed.
End Policy.

(** ** Witness: a refused connection, a session that the server closes, then a
    refusal of the client *)
Module RuntimeDemo.
Import Checksum ToyEd25519.

Definition net (up : bool) : Network :=
  mkNetwork (λ _ _, inl [([192; 0; 2; 1], 443)]) (λ _, inl tt) (λ _, inl tt)
    (λ _, if up then inl tt else inr ConnectionRefused) false (λ _, true) (Some (inl tt)).
Definition attempt (up : bool) (reads : list (io_result bytes)) (readies : list Ready) : Attempt :=
  mkAttempt [] ByToken NoInterrupt (net up) (λ _, (1, Finished WroteAll)) (Some challenge) reads [] ClientDemo.env 0 SigCancel
    readies [] 0 WaitElapsed.
Definition attempts : list Attempt :=
  [attempt false [] [];
   attempt true [inl (wire_message (MAuthOk []))] [ClientDemo.idle; ClientDemo.tcp_in (MClose [0])];
   attempt true [inl (wire_message (MAuthFail [1]))] []].
Definition ends : TunTask → TaskEnd := λ _, Returned (inl tt).

Lemma demo_attempt_ok up reads readies :
  Forall ready_ok readies → Forall read_ok reads → attempt_ok (attempt up reads readies).
Proof. intros. constructor; [apply ClientDemo.demo_env_ok|done|intros ch [= <-]; decided|done]. Qed.

Lemma attempts_ok : Forall attempt_ok attempts.
Proof.
  assert (∀ m, bytes_ok (wire_message m) → Forall read_ok [inl (wire_message m)]) as Hr by (by constructor).
  constructor; [by apply demo_attempt_ok|]. constructor; [apply demo_attempt_ok; [|apply Hr; decided]|].
  - constructor; [apply ClientDemo.offer_in; [done|done|apply ClientDemo.input_none]|]. constructor; [|constructor].
    apply ClientDemo.offer_in; [intros ? [= <-]; decided|done|apply ClientDemo.input_none].
  - constructor; [|constructor]. apply demo_attempt_ok; [constructor|apply Hr; decided].
Qed.

Definition trace : list runtime_action.
Proof. let r := eval vm_compute in (rt_trace (fst (run_client client attempts ends (Runtime_start true)))) in exact r. Defined.

Lemma runtime_trace_run : rt_trace (fst (run_client client attempts ends (Runtime_start true))) = trace.
Proof. vm_cast_no_check (eq_refl trace). Qed.
End RuntimeDemo.

Section RuntimeWitnesses.
Import Checksum ToyEd25519.


End RuntimeWitnesses.
