(* ===== verification/Pairing.v ===== *)
(** * Registration: the client's and the server's UDP-QSP sessions

    The client draws the secrets and the first packet numbers
    ([register.rs] of slt-client), tells the server over TCP, and the server
    makes its session from the payload ([register.rs] of slt-server).  The two
    sessions carry payloads in both directions. *)

From stdpp Require Import base tactics option list numbers gmap sets.
From Stdlib Require Import ZArith Lia.
From S2P Require Import Prelude Effects Cid Framing TcpChannel Payloads PacketNumber ReplayWindow PacketHeader Keys QspSession QspDelivery UdpIo Config Backoff ClientState ClientSession ClientSafety ClientRun Registry ServerState ServerSession ServerSafety ServerRun ServerLiveness.

Section Pairing.
Context `{B : Boring} {L : BoringLaws B} {T : BoringTotal B}.
Context (cenv : ClientState.Env) (env : Env) (cfg : SessionConfig).

(** The server refused a registration with [code]. *)
Definition refused (code : RegisterFailCode) (s s' : Session) : Prop :=
  just_sent (MRegisterFail (RegisterFailPayload_encode (mkRegisterFail code) [])) s' ∧
  ss_udp_session s' = ss_udp_session s.

(** The server confirmed the registration and made its session from it. *)
Definition accepted (register : RegisterCidPayload) (s' : Session) : Prop :=
  ∃ keys io ok_buf, UdpQspKeys_from_register register = Ok keys ∧
    ss_udp_session s' = Some (QuicQspSession_new (reg_client_to_server_cid register) (reg_server_to_client_cid register)
      keys (reg_pn_start register) (reg_pn_start_rx register) (reg_key_phase register), io) ∧
    just_sent (MRegisterOk ok_buf) s' ∧
    RegisterOkPayload_decode ok_buf = Ok (mkRegisterOk (reg_client_to_server_cid register)).

Definition connection_lost (e : SessionError) (_ : Session) : Prop := ∃ source, e = Connection source.

Lemma send_tcp_done m (Q : unit → Session → Prop) s :
  short m → (∀ s', just_sent m s' → ss_udp_session s' = ss_udp_session s → Q tt s') →
  wp (send_tcp_message env m) Q connection_lost (λ _, True) s.
Proof.
  intros Hm HQ. eapply wp_weaken; [by apply (send_tcp_sent env true m s)|..]; cbv beta.
  - intros [] s' (? & _ & ?). by apply HQ.
  - intros e s' [?|?]; [done|congruence].
  - done.
Qed.

Lemma reject_done code s :
  wp (reject_registration env code) (λ c s', c = Continue ∧ refused code s s') connection_lost (λ _, True) s.
Proof.
  apply wp_bind, send_tcp_done; [apply short_register_fail|]. intros s' Hj Eu. apply wp_ret. by split.
Qed.

Lemma install_done register keys prefix s :
  RegisterCid_wf register → UdpQspKeys_from_register register = Ok keys →
  wp (install_udp_session env cfg register keys prefix) (λ c s', c = Continue ∧ accepted register s')
    connection_lost (λ _, True) s.
Proof.
  intros (Hc & Hcl & _) Hk. unfold install_udp_session.
  apply wp_bind, wp_ask. intros others. apply wp_bind, wp_modify, wp_bind, wp_ask. intros created. apply wp_bind.
  destruct created as [max_gso|e]; [|by eexists]. apply wp_try; [done| |done]. intros ? [= <-]. do 4 apply wp_bind, wp_modify.
  destruct (register_ok_encoded (reg_client_to_server_cid register) Hc Hcl) as (b & Eb & Hb). rewrite Eb.
  apply wp_bind, wp_try; [done| |done]. intros ? [= <-]. apply wp_bind, send_tcp_done; [done|]. intros s' Hj Eu.
  apply wp_ret. split; [done|]. eexists keys, _, b. split_and!; [done|exact Eu|done|].
  exact (pc_roundtrip (A := RegisterOkPayload) (mkRegisterOk _) b (conj Hc Hcl) Eb).
Qed.

(** The server's answer to a registration payload of the client. *)
Lemma register_done register s :
  RegisterCid_wf register →
  wp (handle_register_cid env cfg (register_wire register))
    (λ c s', c = Continue ∧
      (refused RFInvalidCipher s s' ∧ allows cfg (reg_cipher register) = false ∨ refused RFInvalidCid s s' ∨
       accepted register s'))
    connection_lost (λ _, True) s.
Proof.
  intros Hw. unfold handle_register_cid. rewrite RegisterCid_decode_wire by done.
  pose proof Hw as (Hc & Hl & _ & [Ht _] & [Hr _] & _).
  destruct (allows cfg (reg_cipher register)) eqn:Ea; cbn [negb].
  2: { eapply wp_mono; [apply reject_done|]. cbv beta. intros c s' [-> ?]. auto. }
  destruct (UdpQspKeys_new_total (reg_cipher register) (reg_secret_tx register) (reg_secret_rx register) Ht Hr) as [keys Hk].
  change (UdpQspKeys_from_register register = Ok keys) in Hk. rewrite Hk, Cid_prefix_ok by done.
  apply wp_bind, wp_ask. intros others. apply wp_bind, wp_get.
  match goal with |- context [insert_cid ?a ?b ?c ?d ?e] =>
    pose proof (insert_cid_no_panic a b c d e) as Hi; destruct (insert_cid a b c d e) as [r inserted] end.
  apply wp_bind, wp_modify.
  destruct inserted as [?|e|]; [| |done].
  - eapply wp_mono; [by apply install_done|]. cbv beta. intros c s' [-> ?]. auto.
  - destruct e; (eapply wp_mono; [apply reject_done|]; cbv beta; intros c s' [-> ?]; auto).
Qed.

End Pairing.

(** ** Witness: the demonstration client and server *)
Section Witnesses.
Import Checksum.

End Witnesses.
