(* ===== verification/RouteRules.v ===== *)
(** * The route rules of the Android app
      ([android/.../profile/rules/VpnRouteRules.kt])

    A profile has a list of IPv4 networks that go through the VPN or not, as
    text with one network per line and [!] before those that do not.  The
    longest network that covers an address decides.  Parsing normalises the
    list: it drops duplicates and the networks that only repeat what the next
    larger network of the list says already, and sorts the rest.

    Strings are lists of UTF-16 units.  The Unicode tables and what
    [InetAddress] does for IPv6 are parameters. *)

From Stdlib Require Import Ascii String.
From stdpp Require Import base tactics option list numbers sets sorting.
From Stdlib Require Import ZArith Lia.
From S2P Require Import Prelude.

Abbreviation str := (list Z) (only parsing).

Inductive InetAddress := Inet4 (b : bytes) | Inet6 (b : bytes).
Definition address_bytes (a : InetAddress) : bytes := match a with Inet4 b | Inet6 b => b end.

(** [digit c] is the value of a decimal digit; [getByName6] is
    [InetAddress.getByName] on texts with a colon, [None] when it throws. *)
Class Jvm := {
  isWhitespace : Z → bool;
  digit : Z → option Z;
  getByName6 : str → option InetAddress;
  hostAddress6 : bytes → str;
}.

Class JvmLaws (J : Jvm) := {
  digit_range c d : digit c = Some d → 0 ≤ d ≤ 9;
  digit_ascii d : 0 ≤ d ≤ 9 → digit (48 + d) = Some d;
  digit_other c : 33 ≤ c < 48 ∨ 58 ≤ c < 127 → digit c = None;
  whitespace_graphic c : 33 ≤ c < 127 → isWhitespace c = false;
}.

(** [lowercase] of strings. *)
Class Casing := { lowercase : str → str }.

Record VpnRouteRule := mkRule { vr_cidr : str; vr_excluded : bool }.

Record ParsedVpnRouteRule := mkParsed {
  pr_rule : VpnRouteRule;
  pr_addressFamily : Z;
  pr_networkBytes : bytes;
  pr_prefixLength : Z;
}.

#[export] Instance rule_eq_dec : EqDecision VpnRouteRule.
Proof. solve_decision. Defined.
#[export] Instance parsed_eq_dec : EqDecision ParsedVpnRouteRule.
Proof. solve_decision. Defined.

(** The messages of the exceptions; those of a line name its number. *)
Inductive RouteError :=
  | CidrEmpty (line : Z) | CidrWhitespace (line : Z) | NotCidr (line : Z) | PrefixNotNumber (line : Z)
  | Ipv6NotSupported (line : Z) | PrefixRange (line max : Z) | Ipv6NotNumeric (line : Z) | Ipv6Invalid (line : Z)
  | NotNumericAddress (line : Z) | NotFourOctets (line : Z) | OctetNotNumeric (line : Z) | OctetNotNumber (line : Z) | OctetRange (line : Z)
  | RouteConflict (cidr : str).

(** ** Strings *)
Definition EXCLAMATION : Z := 33.
Definition HASH : Z := 35.
Definition DOT : Z := 46.
Definition SLASH : Z := 47.
Definition COLON : Z := 58.

Section Strings.
Context `{J : Jvm}.

Fixpoint takeUntil (c : Z) (s : str) : str :=
  match s with
  | [] => []
  | x :: s => if x =? c then [] else x :: takeUntil c s
  end.

Fixpoint trimStart (s : str) : str :=
  match s with
  | [] => []
  | x :: s' => if isWhitespace x then trimStart s' else s
  end.
Definition trim (s : str) : str := reverse (trimStart (reverse (trimStart s))).

(** [split(c)]; the part before the first delimiter and the others. *)
Fixpoint split_at (c : Z) (s : str) : str * list str :=
  match s with
  | [] => ([], [])
  | x :: s => let '(part, parts) := split_at c s in if x =? c then ([], part :: parts) else (x :: part, parts)
  end.
Definition split (c : Z) (s : str) : list str := let '(part, parts) := split_at c s in part :: parts.

(** [lineSequence]: lines end at LF, CR or CR LF. *)
Fixpoint lines_from (s : str) (line : str) : list str :=
  match s with
  | [] => [reverse line]
  | x :: s =>
      if x =? 10 then reverse line :: lines_from s []
      else if x =? 13 then
        match s with
        | y :: s' => if y =? 10 then reverse line :: lines_from s' [] else reverse line :: lines_from s []
        | [] => reverse line :: lines_from s []
        end
      else lines_from s (x :: line)
  end.
Definition lineSequence (text : str) : list str := lines_from text [].

Definition joinToString (sep : Z) (l : list str) : str :=
  match l with
  | [] => []
  | s :: l => s ++ concat ((λ t, sep :: t) <$> l)
  end.

(** The digits of a number; [None] at any other character. *)
Fixpoint digits_from (acc : Z) (s : str) : option Z :=
  match s with
  | [] => Some acc
  | c :: s => d ← digit c; digits_from (10 * acc + d) s
  end.

Definition INT_MAX : Z := 2 ^ 31 - 1.

(** [toIntOrNull]: a sign is only looked for before the digit zero. *)
Definition toIntOrNull (s : str) : option Z :=
  match s with
  | [] => None
  | c :: rest =>
      if c <? 48 then
        if bool_decide (rest = []) then None else
        if c =? 45 then n ← digits_from 0 rest; (if n <=? INT_MAX + 1 then Some (- n) else None)
        else if c =? 43 then n ← digits_from 0 rest; (if n <=? INT_MAX then Some n else None)
        else None
      else n ← digits_from 0 s; (if n <=? INT_MAX then Some n else None)
  end.

Definition isDigit (c : Z) : bool := bool_decide (is_Some (digit c)).

(** The decimal digits of a number from 0 to 999. *)
Definition print_small (n : Z) : str :=
  if n <? 10 then [48 + n] else
  if n <? 100 then [48 + n / 10; 48 + n mod 10] else [48 + n / 100; 48 + n / 10 mod 10; 48 + n mod 10].

Definition hostAddress (a : InetAddress) : str :=
  match a with
  | Inet4 b => joinToString DOT (print_small <$> b)
  | Inet6 b => hostAddress6 b
  end.
(** [InetAddress.getByAddress] on bytes of an address of the same family. *)
Definition like (a : InetAddress) (b : bytes) : InetAddress := match a with Inet4 _ => Inet4 b | Inet6 _ => Inet6 b end.
End Strings.

(** ** Addresses and networks *)

Fixpoint mask_from (remainingPrefixBits : Z) (networkBytes : bytes) : bytes :=
  match networkBytes with
  | [] => []
  | b :: bs =>
      if remainingPrefixBits >=? 8 then b :: mask_from (remainingPrefixBits - 8) bs
      else if remainingPrefixBits <=? 0 then 0 :: mask_from remainingPrefixBits bs
      else
        let mask := Z.land (Z.shiftl 0xff (8 - remainingPrefixBits)) 0xff in
        Z.land b mask :: mask_from 0 bs
  end.
Definition maskedNetworkBytes (addressBytes : bytes) (prefixLength : Z) : bytes := mask_from prefixLength addressBytes.

Section Rules.
Context `{J : Jvm}.

Definition require {E} (b : bool) (e : E) : res E unit := if b then Ok tt else Err e.

Fixpoint octets_bytes (lineNumber : Z) (octets : list str) : res RouteError bytes :=
  match octets with
  | [] => Ok []
  | octet :: octets =>
      _ ← require (negb (bool_decide (octet = [])) && forallb isDigit octet) (OctetNotNumeric lineNumber);
      value ← (match toIntOrNull octet with Some v => Ok v | None => Err (OctetNotNumber lineNumber) end);
      _ ← require ((0 <=? value) && (value <=? 255)) (OctetRange lineNumber);
      rest ← octets_bytes lineNumber octets;
      Ok (value :: rest)
  end.

Definition is_hex (c : Z) : bool := ((97 <=? c) && (c <=? 102)) || ((65 <=? c) && (c <=? 70)).

Definition parseNumericAddress (address : str) (lineNumber : Z) : res RouteError InetAddress :=
  if bool_decide (COLON ∈ address) then
    _ ← require (forallb (λ c, isDigit c || is_hex c || (c =? COLON) || (c =? DOT)) address) (Ipv6NotNumeric lineNumber);
    match getByName6 address with
    | Some (Inet6 b) => Ok (Inet6 b)
    | _ => Err (Ipv6Invalid lineNumber)
    end
  else
  _ ← require (bool_decide (DOT ∈ address)) (NotNumericAddress lineNumber);
  _ ← require (forallb (λ c, isDigit c || (c =? DOT)) address) (NotNumericAddress lineNumber);
  let octets := split DOT address in
  _ ← require (zlen octets =? 4) (NotFourOctets lineNumber);
  bytes ← octets_bytes lineNumber octets;
  Ok (Inet4 bytes).

Definition parseVpnRouteRuleLine (line : str) (lineNumber : Z) (allowIpv6 : bool) : res RouteError ParsedVpnRouteRule :=
  let excluded := match line with c :: _ => c =? EXCLAMATION | [] => false end in
  let cidr := if excluded then trim (drop 1 line) else line in
  _ ← require (negb (bool_decide (cidr = []))) (CidrEmpty lineNumber);
  _ ← require (forallb (λ c, negb (isWhitespace c)) cidr) (CidrWhitespace lineNumber);
  match split SLASH cidr with
  | [p0; p1] =>
      _ ← require (negb (bool_decide (p0 = [])) && negb (bool_decide (p1 = []))) (NotCidr lineNumber);
      address ← parseNumericAddress p0 lineNumber;
      prefixLength ← (match toIntOrNull p1 with Some n => Ok n | None => Err (PrefixNotNumber lineNumber) end);
      maxPrefixLength ← (match address with
                         | Inet4 _ => Ok 32
                         | Inet6 _ => _ ← require allowIpv6 (Ipv6NotSupported lineNumber); Ok 128
                         end);
      _ ← require ((0 <=? prefixLength) && (prefixLength <=? maxPrefixLength)) (PrefixRange lineNumber maxPrefixLength);
      let networkBytes := maskedNetworkBytes (address_bytes address) prefixLength in
      let canonicalAddress := hostAddress (like address networkBytes) in
      let canonicalCidr := canonicalAddress ++ SLASH :: print_small prefixLength in
      Ok (mkParsed (mkRule canonicalCidr excluded) maxPrefixLength networkBytes prefixLength)
  | _ => Err (NotCidr lineNumber)
  end.

Definition rule_line (route : VpnRouteRule) : str :=
  if vr_excluded route then EXCLAMATION :: vr_cidr route else vr_cidr route.

Definition parsedRouteForRule (route : VpnRouteRule) : res RouteError ParsedVpnRouteRule :=
  parseVpnRouteRuleLine (rule_line route) 1 false.

Definition parsedHostRouteForAddress (address : str) : res RouteError ParsedVpnRouteRule :=
  parsedAddress ← parseNumericAddress address 1;
  let prefixLength := match parsedAddress with Inet4 _ => 32 | Inet6 _ => 128 end in
  parseVpnRouteRuleLine (hostAddress parsedAddress ++ SLASH :: print_small prefixLength) 1 true.

Definition covers (route other : ParsedVpnRouteRule) : bool :=
  (pr_addressFamily route =? pr_addressFamily other) && (pr_prefixLength route <=? pr_prefixLength other) &&
  bool_decide (maskedNetworkBytes (pr_networkBytes other) (pr_prefixLength route) = pr_networkBytes route).

Fixpoint traverse {A B} (f : A → res RouteError B) (l : list A) : res RouteError (list B) :=
  match l with
  | [] => Ok []
  | a :: l => b ← f a; bs ← traverse f l; Ok (b :: bs)
  end.

(** [maxWithOrNull] by prefix length: the first of the largest. *)
Fixpoint longest (best : ParsedVpnRouteRule) (routes : list ParsedVpnRouteRule) : ParsedVpnRouteRule :=
  match routes with
  | [] => best
  | r :: routes => longest (if pr_prefixLength best <? pr_prefixLength r then r else best) routes
  end.
Definition maxByPrefix (routes : list ParsedVpnRouteRule) : option ParsedVpnRouteRule :=
  match routes with
  | [] => None
  | r :: routes => Some (longest r routes)
  end.

Definition vpnRouteActionForAddress (routes : list VpnRouteRule) (address : str) : res RouteError (option VpnRouteRule) :=
  hostRoute ← parsedHostRouteForAddress address;
  parsed ← traverse parsedRouteForRule routes;
  Ok (pr_rule <$> maxByPrefix (List.filter (λ route, covers route hostRoute) parsed)).

Definition hostVpnRouteForAddress (address : str) : res RouteError VpnRouteRule :=
  route ← parsedHostRouteForAddress address;
  Ok (pr_rule route).

(** ** The list of rules *)

(** [sortedWith] is stable; [le a b] when [a] does not come after [b]. *)
Fixpoint insert_by {A} (le : A → A → bool) (x : A) (l : list A) : list A :=
  match l with
  | [] => [x]
  | y :: l' => if le x y then x :: l else y :: insert_by le x l'
  end.
Definition sortedWith {A} (le : A → A → bool) (l : list A) : list A := foldr (insert_by le) [] l.

(** [compareTo] of strings, and of byte arrays as unsigned; both arrays of a
    comparison have the length of their family. *)
Fixpoint compare_list (a b : list Z) : comparison :=
  match a, b with
  | [], [] => Eq
  | [], _ :: _ => Lt
  | _ :: _, [] => Gt
  | x :: a, y :: b => match x ?= y with Eq => compare_list a b | c => c end
  end.
Definition compareNetworkBytes (left right : bytes) : comparison := compare_list left right.
Definition compare_bool (a b : bool) : comparison :=
  match a, b with
  | false, true => Lt
  | true, false => Gt
  | _, _ => Eq
  end.
Definition then_by (c d : comparison) : comparison := match c with Eq => d | _ => c end.
Definition not_after (c : comparison) : bool := match c with Gt => false | _ => true end.

Definition parsedRouteComparator (left right : ParsedVpnRouteRule) : comparison :=
  then_by (compare_bool (vr_excluded (pr_rule left)) (vr_excluded (pr_rule right)))
    (then_by (pr_addressFamily left ?= pr_addressFamily right)
      (then_by (pr_prefixLength left ?= pr_prefixLength right)
        (compareNetworkBytes (pr_networkBytes left) (pr_networkBytes right)))).

Definition by_family_and_prefix (left right : ParsedVpnRouteRule) : comparison :=
  then_by (pr_addressFamily left ?= pr_addressFamily right) (pr_prefixLength left ?= pr_prefixLength right).

(** [RoutePrefixKey] *)
Record RoutePrefixKey := mkKey { rk_addressFamily : Z; rk_prefixLength : Z; rk_networkBytes : bytes }.
#[export] Instance key_eq_dec : EqDecision RoutePrefixKey.
Proof. solve_decision. Defined.

Definition prefixKey (r : ParsedVpnRouteRule) (prefixLength : Z) : RoutePrefixKey :=
  mkKey (pr_addressFamily r) prefixLength (maskedNetworkBytes (pr_networkBytes r) prefixLength).

(** A mutable map, the latest entry first. *)
Fixpoint lookup_action (k : RoutePrefixKey) (m : list (RoutePrefixKey * bool)) : option bool :=
  match m with
  | [] => None
  | (k', a) :: m => if bool_decide (k = k') then Some a else lookup_action k m
  end.

(** The loop of [nearestCoveringRouteAction], for the lengths below [n]. *)
Fixpoint nearest_below (n : nat) (r : ParsedVpnRouteRule) (m : list (RoutePrefixKey * bool)) : option bool :=
  match n with
  | O => None
  | S n =>
      match lookup_action (prefixKey r (Z.of_nat n)) m with
      | Some action => Some action
      | None => nearest_below n r m
      end
  end.
Definition nearestCoveringRouteAction (r : ParsedVpnRouteRule) (m : list (RoutePrefixKey * bool)) : option bool :=
  nearest_below (Z.to_nat (pr_prefixLength r)) r m.

(** The [mapNotNull] of [removeRoutesCoveredBySameActionAncestor]. *)
Fixpoint remove_covered (m : list (RoutePrefixKey * bool)) (routes : list ParsedVpnRouteRule) : list ParsedVpnRouteRule :=
  match routes with
  | [] => []
  | route :: routes =>
      let inheritedAction := nearestCoveringRouteAction route m in
      let m := (prefixKey route (pr_prefixLength route), vr_excluded (pr_rule route)) :: m in
      let rest := remove_covered m routes in
      if bool_decide (inheritedAction = Some (vr_excluded (pr_rule route))) then rest else route :: rest
  end.

Definition removeRoutesCoveredBySameActionAncestor (routes : list ParsedVpnRouteRule) : list ParsedVpnRouteRule :=
  remove_covered [] (sortedWith (λ a b, not_after (by_family_and_prefix a b)) routes).

(** The values of a linked map filled with [putIfAbsent], keyed by action and
    network. *)
Fixpoint put_if_absent (seen : list VpnRouteRule) (routes : list ParsedVpnRouteRule) : list ParsedVpnRouteRule :=
  match routes with
  | [] => []
  | r :: routes =>
      if bool_decide (pr_rule r ∈ seen) then put_if_absent seen routes
      else r :: put_if_absent (pr_rule r :: seen) routes
  end.

(** The first network, in the order of the list, that is there with both actions. *)
Definition find_conflict (routes : list ParsedVpnRouteRule) : option str :=
  vr_cidr ∘ pr_rule <$> List.find (λ r, bool_decide (mkRule (vr_cidr (pr_rule r)) (negb (vr_excluded (pr_rule r))) ∈ pr_rule <$> routes)) routes.

Fixpoint parse_lines (lineNumber : Z) (lines : list str) : res RouteError (list ParsedVpnRouteRule) :=
  match lines with
  | [] => Ok []
  | rawLine :: lines =>
      let line := trim (takeUntil HASH rawLine) in
      if bool_decide (line = []) then parse_lines (lineNumber + 1) lines else
      route ← parseVpnRouteRuleLine line lineNumber false;
      routes ← parse_lines (lineNumber + 1) lines;
      Ok (route :: routes)
  end.

Definition normalise (parsedRoutes : list ParsedVpnRouteRule) : res RouteError (list VpnRouteRule) :=
  match find_conflict parsedRoutes with
  | Some cidr => Err (RouteConflict cidr)
  | None =>
      let deduplicatedRoutes := put_if_absent [] parsedRoutes in
      Ok (pr_rule <$> sortedWith (λ a b, not_after (parsedRouteComparator a b))
                        (removeRoutesCoveredBySameActionAncestor deduplicatedRoutes))
  end.

Definition parseVpnRouteRules (text : str) : res RouteError (list VpnRouteRule) :=
  parsedRoutes ← parse_lines 1 (lineSequence text);
  normalise parsedRoutes.

Definition exportVpnRouteRules (routes : list VpnRouteRule) : str :=
  joinToString 10 (rule_line <$> sortedWith (λ a b,
    not_after (then_by (compare_bool (vr_excluded a) (vr_excluded b)) (compare_list (vr_cidr a) (vr_cidr b)))) routes).
End Rules.

(** ** Masks *)
Lemma mask_length n b : length (mask_from n b) = length b.
Proof. revert n. induction b as [|x b IH]; intros n; cbn; [done|]. destruct (n >=? 8), (n <=? 0); cbn; by rewrite IH. Qed.

Lemma mask_bits m n : 0 < m ≤ n → n < 8 →
  Z.land (Z.land (Z.shiftl 0xff (8 - n)) 0xff) (Z.land (Z.shiftl 0xff (8 - m)) 0xff) = Z.land (Z.shiftl 0xff (8 - m)) 0xff.
Proof.
  intros [Hm Hmn] Hn. assert (n = 1 ∨ n = 2 ∨ n = 3 ∨ n = 4 ∨ n = 5 ∨ n = 6 ∨ n = 7) as Cn by lia.
  assert (m = 1 ∨ m = 2 ∨ m = 3 ∨ m = 4 ∨ m = 5 ∨ m = 6 ∨ m = 7) as Cm by lia.
  destruct Cn as [->|[->|[->|[->|[->|[->| ->] ] ] ] ] ]; destruct Cm as [->|[->|[->|[->|[->|[->| ->] ] ] ] ] ]; try lia; reflexivity.
Qed.

Lemma mask_mask m n b : m ≤ n → mask_from m (mask_from n b) = mask_from m b.
Proof.
  revert m n. induction b as [|x b IH]; intros m n Hmn; [done|]. cbn [mask_from].
  destruct (Z.geb_spec n 8) as [Hn|Hn]; cbn [mask_from].
  - destruct (Z.geb_spec m 8); [by rewrite IH by lia|]. destruct (Z.leb_spec m 0); by rewrite IH by lia.
  - destruct (Z.leb_spec n 0) as [Hn0|Hn0]; cbn [mask_from].
    + destruct (Z.geb_spec m 8); [lia|]. destruct (Z.leb_spec m 0); [|lia]. by rewrite IH by lia.
    + destruct (Z.geb_spec m 8); [lia|]. destruct (Z.leb_spec m 0); [by rewrite IH by lia|].
      rewrite IH by lia. f_equal. rewrite <- Z.land_assoc, mask_bits by lia. done.
Qed.

Lemma mask_all b n : 8 * zlen b ≤ n → mask_from n b = b.
Proof.
  revert n. induction b as [|x b IH]; intros n Hn; [done|]. unfold zlen in *. cbn [length] in Hn. cbn [mask_from].
  destruct (Z.geb_spec n 8); [|lia]. f_equal. apply IH. lia.
Qed.

Lemma mask_bytes_ok n b : bytes_ok b → bytes_ok (mask_from n b).
Proof.
  intros Hb. revert n. induction Hb as [|x b Hx Hb IH]; intros n; cbn [mask_from]; [constructor|].
  assert (∀ m, u8_ok (Z.land x (Z.land m 255))) as Hl.
  { intros m. rewrite Z.land_assoc. change 255 with (Z.ones 8). rewrite Z.land_ones by lia. unfold u8_ok.
    pose proof (Z.mod_pos_bound (Z.land x m) (2 ^ 8) ltac:(lia)). lia. }
  destruct (n >=? 8); [constructor; [done|apply IH]|]. destruct (n <=? 0); constructor; try apply IH; [done|apply Hl].
Qed.

(** ** Sorting by keys *)
Lemma compare_list_refl a : compare_list a a = Eq.
Proof. induction a as [|x a IH]; cbn; [done|]. by rewrite Z.compare_refl. Qed.

Lemma compare_list_eq a b : compare_list a b = Eq → a = b.
Proof.
  revert b. induction a as [|x a IH]; intros [|y b]; cbn; try done. destruct (Z.compare_spec x y) as [->| |]; try done.
  intros E. f_equal. by apply IH.
Qed.

Lemma compare_list_opp a b : compare_list b a = CompOpp (compare_list a b).
Proof.
  revert b. induction a as [|x a IH]; intros [|y b]; cbn; try done. rewrite (Z.compare_antisym x y).
  destruct (x ?= y); cbn; [apply IH|done|done].
Qed.

Lemma compare_list_trans a b c :
  not_after (compare_list a b) = true → not_after (compare_list b c) = true → not_after (compare_list a c) = true.
Proof.
  revert b c. induction a as [|x a IH]; intros [|y b] [|z c]; cbn; try done.
  destruct (Z.compare_spec x y), (Z.compare_spec y z), (Z.compare_spec x z); cbn; try done; try lia. apply IH.
Qed.

Lemma then_by_cons x y a b : compare_list (x :: a) (y :: b) = then_by (x ?= y) (compare_list a b).
Proof. cbn. by destruct (x ?= y). Qed.

Section Sorting.
Context {A : Type} (key : A → list Z) (le : A → A → bool).
Hypothesis Hle : ∀ a b, le a b = not_after (compare_list (key a) (key b)).

Lemma le_total a b : le a b = false → le b a = true.
Proof using Hle. rewrite !Hle, (compare_list_opp (key a)). by destruct (compare_list (key a) (key b)). Qed.

Lemma insert_by_perm x l : insert_by le x l ≡ₚ x :: l.
Proof.
  induction l as [|y l IH]; cbn; [done|]. destruct (le x y); [done|]. rewrite IH. apply Permutation_swap.
Qed.

Lemma sortedWith_perm l : sortedWith le l ≡ₚ l.
Proof. induction l as [|x l IH]; cbn; [done|]. by rewrite insert_by_perm, IH. Qed.

Lemma insert_by_sorted x l : StronglySorted (λ a b, le a b = true) l → StronglySorted (λ a b, le a b = true) (insert_by le x l).
Proof using Hle.
  intros Hs. induction Hs as [|y l Hs IH Hy]; cbn; [by repeat constructor|]. destruct (le x y) eqn:E.
  - constructor; [by constructor|]. constructor; [done|]. eapply Forall_impl; [exact Hy|]. intros z Hz.
    cbn beta in Hz. rewrite Hle in E, Hz |- *. by eapply compare_list_trans.
  - constructor; [done|]. rewrite insert_by_perm. constructor; [by apply le_total|done].
Qed.

Lemma sortedWith_sorted l : StronglySorted (λ a b, le a b = true) (sortedWith le l).
Proof using Hle. induction l as [|x l IH]; cbn; [constructor|by apply insert_by_sorted]. Qed.

(** Lists of elements that their keys determine have one sorted order. *)
Lemma sortedWith_unique l l' :
  (∀ a b, a ∈ l → b ∈ l → key a = key b → a = b) → l ≡ₚ l' → sortedWith le l = sortedWith le l'.
Proof using Hle.
  intros Hk Hp. apply (StronglySorted_unique_strong (λ a b, le a b = true)).
  - intros a b Ha Hb. rewrite sortedWith_perm in Ha. rewrite sortedWith_perm, <- Hp in Hb. intros H1 H2. apply Hk; [done|done|].
    apply compare_list_eq. rewrite Hle in H1, H2. rewrite (compare_list_opp (key a)) in H2.
    by destruct (compare_list (key a) (key b)).
  - apply sortedWith_sorted.
  - apply sortedWith_sorted.
  - by rewrite !sortedWith_perm.
Qed.
End Sorting.

Definition b2z (b : bool) : Z := if b then 1 else 0.
Lemma compare_bool_b2z a b : compare_bool a b = (b2z a ?= b2z b).
Proof. by destruct a, b. Qed.

Definition route_key (r : ParsedVpnRouteRule) : list Z :=
  b2z (vr_excluded (pr_rule r)) :: pr_addressFamily r :: pr_prefixLength r :: pr_networkBytes r.
Lemma parsedRouteComparator_key a b : parsedRouteComparator a b = compare_list (route_key a) (route_key b).
Proof. unfold parsedRouteComparator, route_key, compareNetworkBytes. by rewrite !then_by_cons, compare_bool_b2z. Qed.

Lemma by_family_and_prefix_key a b :
  by_family_and_prefix a b = compare_list [pr_addressFamily a; pr_prefixLength a] [pr_addressFamily b; pr_prefixLength b].
Proof. unfold by_family_and_prefix. rewrite !then_by_cons. cbn. by destruct (_ ?= _), (_ ?= _). Qed.

(** ** Printing and parsing *)
Section Printing.
Context `{J : Jvm} {L : JvmLaws J}.

Lemma print_small_digits n :
  0 ≤ n < 1000 → ∃ ds, print_small n = (λ d, 48 + d) <$> ds ∧ ds ≠ [] ∧ Forall (λ d, 0 ≤ d ≤ 9) ds ∧
    foldl (λ acc d, 10 * acc + d) 0 ds = n.
Proof.
  intros Hn. unfold print_small. destruct (Z.ltb_spec n 10); [|destruct (Z.ltb_spec n 100)].
  - exists [n]. split_and!; [done|done|repeat constructor; lia|cbn; lia].
  - exists [n / 10; n mod 10]. pose proof (Z.div_mod n 10 ltac:(lia)). pose proof (Z.mod_pos_bound n 10 ltac:(lia)).
    split_and!; [done|done|repeat constructor; lia|cbn; lia].
  - exists [n / 100; n / 10 mod 10; n mod 10]. pose proof (Z.div_mod n 10 ltac:(lia)). pose proof (Z.mod_pos_bound n 10 ltac:(lia)).
    pose proof (Z.div_mod (n / 10) 10 ltac:(lia)). pose proof (Z.mod_pos_bound (n / 10) 10 ltac:(lia)).
    assert (n / 10 / 10 = n / 100) as E by (rewrite Z.div_div by lia; done). rewrite E in *.
    split_and!; [done|done|repeat constructor; lia|cbn; lia].
Qed.

Lemma digits_from_print acc ds :
  Forall (λ d, 0 ≤ d ≤ 9) ds → digits_from acc ((λ d, 48 + d) <$> ds) = Some (foldl (λ acc d, 10 * acc + d) acc ds).
Proof using L.
  intros H. revert acc. induction H as [|d ds Hd Hds IH]; intros acc; [done|]. rewrite fmap_cons. cbn [digits_from].
  rewrite digit_ascii by done. cbn [mbind option_bind]. apply IH.
Qed.

Lemma toIntOrNull_print n : 0 ≤ n < 1000 → toIntOrNull (print_small n) = Some n.
Proof using L.
  intros Hn. destruct (print_small_digits n Hn) as (ds & E & Hne & Hds & Hf). rewrite E.
  destruct ds as [|d ds]; [done|]. pose proof Hds as Hds'. apply Forall_cons_1 in Hds' as [Hd _].
  unfold toIntOrNull. rewrite fmap_cons. destruct (Z.ltb_spec (48 + d) 48); [lia|].
  rewrite <- fmap_cons, digits_from_print, Hf by done. cbn [mbind option_bind].
  rewrite (proj2 (Z.leb_le _ _)); [done|]. unfold INT_MAX. lia.
Qed.

(** The characters of what is printed. *)
Lemma print_small_chars n : 0 ≤ n < 1000 → print_small n ≠ [] ∧ Forall (λ c, 48 ≤ c ≤ 57) (print_small n).
Proof.
  intros Hn. destruct (print_small_digits n Hn) as (ds & -> & Hne & Hds & _). split; [by destruct ds|].
  apply Forall_fmap. eapply Forall_impl; [exact Hds|]. cbn. lia.
Qed.

Lemma isDigit_ascii c : 48 ≤ c ≤ 57 → isDigit c = true.
Proof using L.
  intros Hc. apply bool_decide_eq_true. replace c with (48 + (c - 48)) by lia. rewrite digit_ascii by lia. by eexists.
Qed.

Lemma split_none c s : c ∉ s → split_at c s = (s, []).
Proof.
  induction s as [|x s IH]; intros Hc; [done|]. apply not_elem_of_cons in Hc as [Hx Hs]. cbn. rewrite IH by done.
  by rewrite (proj2 (Z.eqb_neq _ _)).
Qed.

Lemma split_first c s t : c ∉ s → split c (s ++ c :: t) = s :: split c t.
Proof.
  intros Hc. unfold split. destruct (split_at c t) as [p ps] eqn:E.
  enough (split_at c (s ++ c :: t) = (s, p :: ps)) as -> by done.
  induction s as [|x s IH]; cbn.
  - by rewrite E, Z.eqb_refl.
  - apply not_elem_of_cons in Hc as [Hx Hs]. rewrite IH by done. by rewrite (proj2 (Z.eqb_neq _ _)).
Qed.

Lemma split_joined c s l :
  Forall (λ t, c ∉ t) (s :: l) → split c (joinToString c (s :: l)) = s :: l.
Proof.
  cbn [joinToString]. revert s. induction l as [|t l IH]; intros s H; apply Forall_cons_1 in H as [Hs H]; cbn.
  - rewrite app_nil_r. unfold split. by rewrite split_none.
  - rewrite split_first by done. f_equal. by apply IH.
Qed.

Lemma octets_bytes_print line b : bytes_ok b → octets_bytes line (print_small <$> b) = Ok b.
Proof using L.
  intros Hb. induction Hb as [|x b Hx Hb IH]; [done|]. rewrite fmap_cons. cbn [octets_bytes]. unfold u8_ok in Hx.
  destruct (print_small_chars x ltac:(lia)) as [Hne Hc].
  rewrite bool_decide_eq_false_2 by done.
  replace (forallb isDigit (print_small x)) with true.
  2: { symmetry. apply forallb_forall. intros c Hin%list_elem_of_In. apply isDigit_ascii. by eapply Forall_forall in Hc. }
  cbn [negb andb require]. res_simpl. rewrite toIntOrNull_print by lia. res_simpl.
  rewrite (proj2 (Z.leb_le 0 x)), (proj2 (Z.leb_le x 255)) by lia. cbn [andb require]. res_simpl. rewrite IH. by res_simpl.
Qed.

Lemma host_chars b :
  bytes_ok b → Forall (λ c, 48 ≤ c ≤ 57 ∨ c = DOT) (joinToString DOT (print_small <$> b)).
Proof.
  intros Hb. assert (∀ x, u8_ok x → Forall (λ c, 48 ≤ c ≤ 57 ∨ c = DOT) (print_small x)) as Hp.
  { intros x Hx. unfold u8_ok in Hx. eapply Forall_impl; [apply (print_small_chars x ltac:(lia))|]. auto. }
  destruct Hb as [|x b Hx Hb]; [constructor|]. rewrite fmap_cons. cbn [joinToString]. apply Forall_app. split; [by apply Hp|].
  induction Hb as [|y b Hy Hb IH]; [constructor|]. rewrite !fmap_cons. cbn [concat]. constructor; [by right|].
  apply Forall_app. split; [by apply Hp|done].
Qed.

Lemma parse_host b line :
  bytes_ok b → length b = 4%nat → parseNumericAddress (hostAddress (Inet4 b)) line = Ok (Inet4 b).
Proof using L.
  intros Hb Hl. unfold parseNumericAddress. cbn [hostAddress]. pose proof (host_chars b Hb) as Hc.
  rewrite bool_decide_eq_false_2.
  2: { intros Hin. eapply Forall_forall in Hc; [|exact Hin]. unfold COLON, DOT in Hc. lia. }
  destruct b as [|x [|y b] ]; [done..|]. rewrite bool_decide_eq_true_2.
  2: { rewrite !fmap_cons. cbn. apply elem_of_app. right. by left. }
  cbn [require]. res_simpl.
  replace (forallb _ _) with true.
  2: { symmetry. apply forallb_forall. intros c Hin%list_elem_of_In. eapply Forall_forall in Hc as [Hc| ->]; [| |exact Hin].
       - by rewrite isDigit_ascii.
       - by rewrite orb_true_r. }
  cbn [require]. res_simpl. rewrite fmap_cons, split_joined, <- fmap_cons.
  2: { rewrite <- fmap_cons. apply Forall_fmap. eapply Forall_impl; [exact Hb|]. intros z Hz Hin. unfold u8_ok in Hz.
       destruct (print_small_chars z ltac:(lia)) as [_ H]. eapply Forall_forall in H; [|exact Hin]. unfold DOT in H. lia. }
  unfold zlen. rewrite length_fmap, Hl. cbn [require]. res_simpl. rewrite octets_bytes_print by done. by res_simpl.
Qed.
End Printing.

(** ** Parsed routes *)
Section Routes.
Context `{J : Jvm} {L : JvmLaws J}.

(** A parsed IPv4 route: a canonical network and its text. *)
Record route_wf (r : ParsedVpnRouteRule) : Prop := mkRouteWf {
  rw_family : pr_addressFamily r = 32;
  rw_length : length (pr_networkBytes r) = 4%nat;
  rw_bytes : bytes_ok (pr_networkBytes r);
  rw_prefix : 0 ≤ pr_prefixLength r ≤ 32;
  rw_masked : maskedNetworkBytes (pr_networkBytes r) (pr_prefixLength r) = pr_networkBytes r;
  rw_cidr : vr_cidr (pr_rule r) = hostAddress (Inet4 (pr_networkBytes r)) ++ SLASH :: print_small (pr_prefixLength r);
}.

Lemma cidr_chars r : route_wf r → vr_cidr (pr_rule r) ≠ [] ∧ Forall (λ c, 46 ≤ c ≤ 57) (vr_cidr (pr_rule r)).
Proof.
  intros [_ Hl Hb Hp _ ->]. split; [by destruct (hostAddress _)|]. apply Forall_app. split.
  - eapply Forall_impl; [by apply host_chars|]. unfold DOT. cbn. lia.
  - constructor; [unfold SLASH; lia|]. eapply Forall_impl; [apply (print_small_chars (pr_prefixLength r) ltac:(lia))|]. cbn. lia.
Qed.

Lemma trimStart_id s : Forall (λ c, isWhitespace c = false) s → trimStart s = s.
Proof. intros H. destruct H as [|c s Hc Hs]; cbn; [done|]. by rewrite Hc. Qed.

Lemma trim_id s : Forall (λ c, isWhitespace c = false) s → trim s = s.
Proof.
  intros H. unfold trim. rewrite (trimStart_id s) by done. rewrite trimStart_id by (by apply Forall_reverse). apply reverse_involutive.
Qed.

Lemma cidr_not_white r : route_wf r → Forall (λ c, isWhitespace c = false) (vr_cidr (pr_rule r)).
Proof using L.
  intros Hr. eapply Forall_impl; [apply cidr_chars, Hr|]. cbn. intros c Hc. apply whitespace_graphic. lia.
Qed.

Lemma rule_line_ok r : route_wf r → Forall (λ c, 33 ≤ c ≤ 57 ∧ c ≠ HASH) (rule_line (pr_rule r)) ∧ rule_line (pr_rule r) ≠ [].
Proof.
  intros Hr. destruct (cidr_chars r Hr) as [Hne Hc]. unfold rule_line.
  assert (Forall (λ c, 33 ≤ c ≤ 57 ∧ c ≠ HASH) (vr_cidr (pr_rule r))) as H.
  { eapply Forall_impl; [exact Hc|]. cbn. unfold HASH. lia. }
  destruct (vr_excluded _); [|done]. split; [|done]. constructor; [|done]. unfold EXCLAMATION, HASH. lia.
Qed.

(** A rule is parsed to the route it came from. *)
Lemma parse_rule_line r line allow : route_wf r → parseVpnRouteRuleLine (rule_line (pr_rule r)) line allow = Ok r.
Proof using L.
  intros Hr. pose proof (cidr_chars r Hr) as [Hne Hc]. pose proof (cidr_not_white r Hr) as Hw. destruct Hr as [Hf Hl Hb Hp Hm Ec].
  unfold parseVpnRouteRuleLine.
  assert ((match rule_line (pr_rule r) with c :: _ => c =? EXCLAMATION | [] => false end) = vr_excluded (pr_rule r)) as Ee.
  { unfold rule_line. destruct (vr_excluded _); [done|]. destruct Hc as [|c s Hc _]; [done|]. apply Z.eqb_neq. unfold EXCLAMATION. lia. }
  rewrite Ee. replace (if vr_excluded (pr_rule r) then _ else _) with (vr_cidr (pr_rule r)).
  2: { unfold rule_line. destruct (vr_excluded _); [|done]. change (drop 1 (EXCLAMATION :: vr_cidr (pr_rule r))) with (vr_cidr (pr_rule r)). by rewrite trim_id. }
  rewrite bool_decide_eq_false_2 by done. cbn [negb require]. res_simpl.
  replace (forallb _ _) with true.
  2: { symmetry. apply forallb_forall. intros c Hin%list_elem_of_In. eapply Forall_forall in Hw; [|exact Hin]. by rewrite Hw. }
  cbn [require]. res_simpl. rewrite Ec, split_first.
  2: { intros Hin. pose proof (host_chars _ Hb) as H. eapply Forall_forall in H; [|exact Hin]. unfold SLASH, DOT in H. lia. }
  destruct (print_small_chars (pr_prefixLength r) ltac:(lia)) as [Hpn Hpc]. unfold split. rewrite split_none.
  2: { intros Hin. eapply Forall_forall in Hpc; [|exact Hin]. unfold SLASH in Hpc. lia. }
  rewrite bool_decide_eq_false_2, bool_decide_eq_false_2; [|done|].
  2: { destruct (pr_networkBytes r) as [|x ?]; [done|]. apply Forall_cons_1 in Hb as [Hx _]. unfold u8_ok in Hx.
       cbn [hostAddress]. rewrite fmap_cons. cbn. destruct (print_small_chars x ltac:(lia)) as [Hn _]. by destruct (print_small x). }
  cbn [negb andb require]. res_simpl. rewrite parse_host by done. res_simpl. rewrite toIntOrNull_print by lia. res_simpl.
  rewrite (proj2 (Z.leb_le 0 _)), (proj2 (Z.leb_le _ 32)) by lia. cbn [andb require]. res_simpl. cbn [address_bytes like].
  rewrite Hm, <- Ec. destruct r as [ [c e] f n p]. cbn in *. by subst f.
Qed.

(** What is parsed is such a route. *)
Lemma octets_bytes_ok line octets b : octets_bytes line octets = Ok b → bytes_ok b ∧ length b = length octets.
Proof.
  revert b. induction octets as [|o octets IH]; cbn [octets_bytes]; intros b; [intros [= <-]; split; [constructor|done]|].
  unfold require at 1. destruct (_ && _); [|done]. res_simpl. destruct (toIntOrNull o) as [v|]; [|done]. res_simpl.
  unfold require. destruct (_ && _) eqn:E; [|done]. res_simpl. apply andb_true_iff in E as [E1%Z.leb_le E2%Z.leb_le].
  destruct (octets_bytes line octets) as [b'| |]; [|done..]. res_simpl. intros [= <-]. destruct (IH b' eq_refl) as [Hb Hl].
  split; [|cbn; lia]. constructor; [unfold u8_ok; lia|done].
Qed.

Lemma parse_address_ok address line b : parseNumericAddress address line = Ok (Inet4 b) → bytes_ok b ∧ length b = 4%nat.
Proof.
  unfold parseNumericAddress. case_bool_decide.
  { unfold require. destruct (forallb _ _); [|done]. res_simpl. by destruct (getByName6 address) as [ []|]. }
  unfold require. case_bool_decide; [|done]. res_simpl. destruct (forallb _ _); [|done]. res_simpl.
  destruct (Z.eqb_spec (zlen (split DOT address)) 4) as [E|]; [|done]. res_simpl.
  destruct (octets_bytes _ _) as [b'| |] eqn:Eo; [|done..]. res_simpl. intros [= <-].
  destruct (octets_bytes_ok _ _ _ Eo) as [Hb Hl]. split; [done|]. unfold zlen in E. lia.
Qed.

Lemma parsed_route_wf line n r : parseVpnRouteRuleLine line n false = Ok r → route_wf r.
Proof.
  unfold parseVpnRouteRuleLine. unfold require at 1. destruct (negb _); [|done]. res_simpl.
  unfold require at 1. destruct (forallb _ _); [|done]. res_simpl. destruct (split SLASH _) as [|p0 [|p1 [|] ] ]; try done.
  unfold require at 1. destruct (_ && _); [|done]. res_simpl. destruct (parseNumericAddress p0 n) as [ [b|b] | |] eqn:Ea; try done; res_simpl.
  - destruct (toIntOrNull p1) as [pl|]; [|done]. res_simpl. unfold require. destruct (_ && _) eqn:E; [|done]. res_simpl.
    apply andb_true_iff in E as [E1%Z.leb_le E2%Z.leb_le]. destruct (parse_address_ok _ _ _ Ea) as [Hb Hl].
    intros [= <-]. split; cbn [pr_addressFamily pr_networkBytes pr_prefixLength pr_rule vr_cidr like address_bytes]; try done.
    + unfold maskedNetworkBytes. by rewrite mask_length.
    + by apply mask_bytes_ok.
    + unfold maskedNetworkBytes. by rewrite mask_mask.
  - destruct (toIntOrNull p1); [|done]. by res_simpl.
Qed.
End Routes.

(** ** What the routes decide *)
Section Decisions.
Context `{J : Jvm} {L : JvmLaws J}.
Abbreviation excl r := (vr_excluded (pr_rule r)).
Abbreviation routes := (list ParsedVpnRouteRule).
Implicit Types (l k p : routes) (h : bytes).

(** Routes of which no two have the same network. *)
Definition consistent l : Prop :=
  Forall route_wf l ∧ ∀ r r', r ∈ l → r' ∈ l → vr_cidr (pr_rule r) = vr_cidr (pr_rule r') → r = r'.

Definition covering (r : ParsedVpnRouteRule) h : Prop := pr_networkBytes r = maskedNetworkBytes h (pr_prefixLength r).

(** The action of the network of length [n] that covers [h]. *)
Definition at_length h (n : Z) (r : ParsedVpnRouteRule) : bool :=
  (pr_prefixLength r =? n) && bool_decide (pr_networkBytes r = maskedNetworkBytes h n).
Definition action_at l h (n : Z) : option bool := (λ r, excl r) <$> List.find (at_length h n) l.

(** The action of the longest one shorter than [n]. *)
Fixpoint action_below l h (n : nat) : option bool :=
  match n with
  | O => None
  | S n => match action_at l h (Z.of_nat n) with Some a => Some a | None => action_below l h n end
  end.

Lemma at_length_true h n r : at_length h n r = true ↔ pr_prefixLength r = n ∧ pr_networkBytes r = maskedNetworkBytes h n.
Proof. unfold at_length. by rewrite andb_true_iff, Z.eqb_eq, bool_decide_eq_true. Qed.

Lemma consistent_network l r r' :
  consistent l → r ∈ l → r' ∈ l → pr_prefixLength r = pr_prefixLength r' → pr_networkBytes r = pr_networkBytes r' → r = r'.
Proof.
  intros [Hw Hc] Hr Hr' Ep En. apply Hc; [done|done|]. rewrite Forall_forall in Hw. by rewrite !rw_cidr, Ep, En by auto.
Qed.

Lemma action_at_iff l h n a :
  consistent l → action_at l h n = Some a ↔ ∃ r, r ∈ l ∧ pr_prefixLength r = n ∧ pr_networkBytes r = maskedNetworkBytes h n ∧ excl r = a.
Proof.
  intros Hc. unfold action_at. rewrite fmap_Some. split.
  - intros (r & Hf & ->). apply find_some in Hf as [Hin [? ?]%at_length_true]. exists r. rewrite <- list_elem_of_In in Hin. done.
  - intros (r & Hin & Ep & En & <-). destruct (List.find (at_length h n) l) as [r'|] eqn:E.
    + exists r'. split; [done|]. apply find_some in E as [Hin' [Ep' En']%at_length_true]. rewrite <- list_elem_of_In in Hin'.
      by rewrite (consistent_network l r r') by congruence.
    + exfalso. apply list_elem_of_In in Hin. pose proof (find_none _ _ E r Hin) as Hf.
      by rewrite (proj2 (at_length_true h n r)) in Hf.
Qed.

(** Decisions depend only on which routes there are, up to the length. *)
Lemma action_below_ext l k h h' n :
  consistent l → consistent k →
  (∀ m a, (m < n)%nat → action_at l h (Z.of_nat m) = Some a ↔ action_at k h' (Z.of_nat m) = Some a) →
  action_below l h n = action_below k h' n.
Proof.
  intros Hl Hk. induction n as [|n IH]; intros H; [done|]. cbn.
  assert (action_at l h (Z.of_nat n) = action_at k h' (Z.of_nat n)) as ->.
  { apply option_eq. intros a. apply H. lia. }
  rewrite IH; [done|]. intros m a Hm. apply H. lia.
Qed.

(** A network decides as the addresses in it, for shorter lengths. *)
Lemma action_below_covering l r h :
  consistent l → covering r h → action_below l (pr_networkBytes r) (Z.to_nat (pr_prefixLength r)) = action_below l h (Z.to_nat (pr_prefixLength r)).
Proof.
  intros Hl Hr. apply action_below_ext; [done..|]. intros m a Hm. unfold action_at.
  enough (∀ x, at_length (pr_networkBytes r) (Z.of_nat m) x = at_length h (Z.of_nat m) x) as E.
  { assert (List.find (at_length (pr_networkBytes r) (Z.of_nat m)) l = List.find (at_length h (Z.of_nat m)) l) as ->; [|done].
    clear -E. induction l as [|x l IH]; cbn; [done|]. by rewrite E, IH. }
  intros x. unfold at_length. rewrite Hr. unfold maskedNetworkBytes. by rewrite mask_mask by lia.
Qed.

Lemma action_below_spec l h n :
  consistent l →
  match action_below l h n with
  | Some a => ∃ r, r ∈ l ∧ covering r h ∧ pr_prefixLength r < Z.of_nat n ∧ excl r = a ∧
      ∀ r', r' ∈ l → covering r' h → pr_prefixLength r' < Z.of_nat n → pr_prefixLength r' ≤ pr_prefixLength r
  | None => ∀ r, r ∈ l → covering r h → Z.of_nat n ≤ pr_prefixLength r
  end.
Proof.
  intros Hl. induction n as [|n IH]; cbn [action_below].
  { intros r Hr _. destruct Hl as [Hw _]. rewrite Forall_forall in Hw. destruct (rw_prefix r (Hw r Hr)). lia. }
  destruct (action_at l h (Z.of_nat n)) as [a|] eqn:E.
  - apply action_at_iff in E as (r & Hr & Ep & En & Ea); [|done]. exists r. unfold covering. rewrite Ep. split_and!; try done; [lia|].
    intros r' _ _. lia.
  - assert (∀ r, r ∈ l → covering r h → pr_prefixLength r ≠ Z.of_nat n) as Hno.
    { intros r Hr Hc Ep. unfold covering in Hc. rewrite Ep in Hc.
      assert (action_at l h (Z.of_nat n) = Some (excl r)) by (apply action_at_iff; [done|by exists r]). congruence. }
    destruct (action_below l h n) as [a|].
    + destruct IH as (r & Hr & Hc & Hp & Ea & Hmax). exists r. split_and!; try done; [lia|]. intros r' Hr' Hc' Hp'.
      apply Hmax; [done|done|]. specialize (Hno r' Hr' Hc'). lia.
    + intros r Hr Hc. specialize (IH r Hr Hc). specialize (Hno r Hr Hc). lia.
Qed.

(** *** Removing what the next larger network says *)
Definition keep l (r : ParsedVpnRouteRule) : bool :=
  negb (bool_decide (action_below l (pr_networkBytes r) (Z.to_nat (pr_prefixLength r)) = Some (excl r))).

Lemma kept_decisions l k h n :
  consistent l → consistent k → (∀ r, r ∈ k ↔ r ∈ l ∧ keep l r = true) → action_below k h n = action_below l h n.
Proof.
  intros Hl Hk Hkeep. induction n as [|n IH]; [done|]. cbn [action_below].
  destruct (action_at k h (Z.of_nat n)) as [a|] eqn:Ek.
  - apply action_at_iff in Ek as (r & Hr & Ep & En & Ea); [|done].
    assert (action_at l h (Z.of_nat n) = Some a) as ->; [|done]. apply action_at_iff; [done|]. exists r. by apply Hkeep in Hr as [? _].
  - rewrite IH. destruct (action_at l h (Z.of_nat n)) as [a|] eqn:El; [|done].
    apply action_at_iff in El as (r & Hr & Ep & En & Ea); [|done].
    destruct (keep l r) eqn:Er.
    + assert (action_at k h (Z.of_nat n) = Some a); [|congruence]. apply action_at_iff; [done|]. exists r. by rewrite Hkeep.
    + unfold keep in Er. apply negb_false_iff, bool_decide_eq_true in Er. rewrite (action_below_covering l r h) in Er.
      * rewrite Ep, Nat2Z.id, Ea in Er. done.
      * done.
      * unfold covering. by rewrite Ep.
Qed.

Definition entry_of (r : ParsedVpnRouteRule) : RoutePrefixKey * bool := (prefixKey r (pr_prefixLength r), excl r).

Lemma lookup_action_iff l r n a :
  consistent l → route_wf r → lookup_action (prefixKey r n) (entry_of <$> l) = Some a ↔ action_at l (pr_networkBytes r) n = Some a.
Proof.
  intros Hc Hr. rewrite action_at_iff by done.
  assert (∀ x, x ∈ l → prefixKey r n = prefixKey x (pr_prefixLength x) ↔
    pr_prefixLength x = n ∧ pr_networkBytes x = maskedNetworkBytes (pr_networkBytes r) n) as Hkey.
  { intros x Hx. destruct Hc as [Hw _]. rewrite Forall_forall in Hw. pose proof (Hw x Hx) as Hxw. unfold prefixKey.
    rewrite (rw_masked x Hxw), (rw_family x Hxw), (rw_family r Hr). split; [by intros [= ? ?]|by intros [-> ->] ]. }
  split.
  - clear Hc. induction l as [|x l IH]; [done|]. rewrite fmap_cons. cbn [lookup_action entry_of]. case_bool_decide as E.
    + intros [= <-]. exists x. apply Hkey in E; [|by left]. split; [by left|naive_solver].
    + intros H%IH; [|intros; apply Hkey; by right]. destruct H as (y & Hy & ?). exists y. split; [by right|done].
  - intros (x & Hx & Ep & En & <-). assert (∀ y, y ∈ l → prefixKey r n = prefixKey y (pr_prefixLength y) → y = x) as Huniq.
    { intros y Hy [Ep' En']%Hkey; [|done]. apply (consistent_network l); [done..|congruence|congruence]. }
    clear Hc. induction l as [|y l IH]; [by apply elem_of_nil in Hx|]. rewrite fmap_cons. cbn [lookup_action entry_of].
    case_bool_decide as E; [by rewrite (Huniq y) by (done || by left)|].
    apply elem_of_cons in Hx as [->|Hx]; [exfalso; apply E, Hkey; [by left|done]|].
    apply IH; [intros; apply Hkey; by right|done|intros; apply Huniq; [by right|done] ].
Qed.

Lemma consistent_sub l k : consistent l → (∀ r, r ∈ k → r ∈ l) → consistent k.
Proof. intros [Hw Hc] Hs. split; [|by eauto]. rewrite Forall_forall in Hw |- *. auto. Qed.

Lemma nearest_below_action l r n :
  consistent l → route_wf r → nearest_below n r (entry_of <$> l) = action_below l (pr_networkBytes r) n.
Proof.
  intros Hl Hr. induction n as [|n IH]; [done|]. cbn [nearest_below action_below]. rewrite IH.
  assert (lookup_action (prefixKey r (Z.of_nat n)) (entry_of <$> l) = action_at l (pr_networkBytes r) (Z.of_nat n)) as ->; [|done].
  apply option_eq. intros a. by apply lookup_action_iff.
Qed.

Lemma remove_covered_spec l p k :
  consistent l → (∀ r, r ∈ l ↔ r ∈ p ∨ r ∈ k) → StronglySorted (λ a b, pr_prefixLength a ≤ pr_prefixLength b) k →
  remove_covered (entry_of <$> p) k = List.filter (keep l) k.
Proof.
  intros Hl Hm Hs. revert p Hm. induction Hs as [|r k Hs IH Hr]; intros p Hm; [done|]. cbn [remove_covered List.filter].
  assert (route_wf r) as Hrw. { destruct Hl as [Hw _]. rewrite Forall_forall in Hw. apply Hw, Hm. right. by left. }
  assert (consistent p) as Hp by (apply (consistent_sub l); [done|]; intros x Hx; apply Hm; by left).
  unfold nearestCoveringRouteAction. rewrite nearest_below_action by done.
  rewrite (action_below_ext p l _ (pr_networkBytes r)); [|done..|].
  - change ((prefixKey r (pr_prefixLength r), excl r) :: (entry_of <$> p)) with (entry_of <$> (r :: p)). rewrite (IH (r :: p)).
    + destruct (keep l r) eqn:E; unfold keep in E; [apply negb_true_iff in E|apply negb_false_iff in E]; by rewrite E.
    + intros x. rewrite Hm, !elem_of_cons. tauto.
  - intros m a Hlt. rewrite !action_at_iff by done. split; intros (x & Hx & Ep & ?); exists x; (split; [|done]).
    + apply Hm. by left.
    + apply Hm in Hx as [?|[->|Hx]%elem_of_cons]; [done|lia|]. eapply Forall_forall in Hr; [|exact Hx]. cbn in Hr. lia.
Qed.

(** *** Normalising *)
Lemma wf_rule_inj r r' : route_wf r → route_wf r' → pr_rule r = pr_rule r' → r = r'.
Proof using L.
  intros Hr Hr' E. pose proof (parse_rule_line r 1 false Hr) as H1. pose proof (parse_rule_line r' 1 false Hr') as H2. congruence.
Qed.

Lemma put_if_absent_spec seen l :
  Forall route_wf l → NoDup (put_if_absent seen l) ∧
  ∀ r, r ∈ put_if_absent seen l ↔ r ∈ l ∧ pr_rule r ∉ seen.
Proof using L.
  intros Hw. revert seen. induction Hw as [|x l Hx Hw IH]; intros seen; cbn [put_if_absent].
  { split; [constructor|]. intros r. split; [by intros ?%elem_of_nil|by intros [?%elem_of_nil _] ]. }
  case_bool_decide as Es.
  - destruct (IH seen) as [H1 H2]. split; [done|]. intros r. rewrite H2, elem_of_cons. naive_solver.
  - destruct (IH (pr_rule x :: seen)) as [H1 H2]. split.
    + constructor; [|done]. rewrite H2, elem_of_cons. naive_solver.
    + intros r. rewrite !elem_of_cons, H2, elem_of_cons. split; [naive_solver|]. intros [ [->|Hr] Hn]; [by left|].
      destruct (decide (r = x)) as [->|Hne]; [by left|]. right. split; [done|]. intros [E|?]; [|done]. apply Hne, wf_rule_inj; [|done..].
      by eapply Forall_forall in Hw.
Qed.

Lemma no_conflict l : Forall route_wf l → find_conflict l = None → consistent l.
Proof using L.
  intros Hw Hf. split; [done|]. intros r r' Hr Hr' Ec. rewrite Forall_forall in Hw. apply wf_rule_inj; [auto..|].
  unfold find_conflict in Hf. apply fmap_None in Hf. apply list_elem_of_In in Hr as HIn.
  pose proof (find_none _ _ Hf r HIn) as H. apply bool_decide_eq_false in H.
  destruct (pr_rule r) as [c e] eqn:E, (pr_rule r') as [c' e'] eqn:E'. cbn in *. subst c'.
  destruct (decide (e = e')) as [->|Hne]; [done|]. exfalso. apply H.
  replace (negb e) with e' by (by destruct e, e'). rewrite <- E'. by apply list_elem_of_fmap_2.
Qed.

Lemma normalise_spec l rules :
  Forall route_wf l → normalise l = Ok rules →
  consistent l ∧ ∃ k, rules = pr_rule <$> sortedWith (λ a b, not_after (parsedRouteComparator a b)) k ∧
    NoDup k ∧ consistent k ∧ ∀ r, r ∈ k ↔ r ∈ l ∧ keep l r = true.
Proof using L.
  intros Hw. unfold normalise. destruct (find_conflict l) eqn:Ef; [done|]. intros [= <-].
  pose proof (no_conflict l Hw Ef) as Hc. split; [done|]. destruct (put_if_absent_spec [] l Hw) as [Hnd Hin].
  set (d := put_if_absent [] l) in *. assert (∀ r, r ∈ d ↔ r ∈ l) as Hd by (intros r; rewrite Hin; set_solver). clear Hin.
  assert (consistent d) as Hcd by (apply (consistent_sub l); naive_solver).
  eexists. split; [done|]. unfold removeRoutesCoveredBySameActionAncestor.
  set (le := λ a b, not_after (by_family_and_prefix a b)).
  assert (∀ a b, le a b = not_after (compare_list [pr_addressFamily a; pr_prefixLength a] [pr_addressFamily b; pr_prefixLength b])) as Hle.
  { intros a b. unfold le. by rewrite by_family_and_prefix_key. }
  pose proof (sortedWith_perm le d) as Hperm. pose proof (sortedWith_sorted _ le Hle d) as Hsort.
  change (remove_covered [] (sortedWith le d)) with (remove_covered (entry_of <$> []) (sortedWith le d)).
  rewrite (remove_covered_spec l [] (sortedWith le d)); [|done| |].
  - assert (∀ r, r ∈ List.filter (keep l) (sortedWith le d) ↔ r ∈ l ∧ keep l r = true) as Hk.
    { intros r. by rewrite list_elem_of_In, filter_In, <- list_elem_of_In, Hperm, Hd. }
    split_and!; [|apply (consistent_sub l); naive_solver|done].
    apply NoDup_ListNoDup, List.NoDup_filter, NoDup_ListNoDup. by rewrite Hperm.
  - intros r. rewrite Hperm, Hd. set_solver.
  - assert (Forall route_wf (sortedWith le d)) as Hwd by (rewrite Hperm; apply Hcd). clear -Hsort Hwd Hle. revert Hwd.
    induction Hsort as [|a k Hs IH Ha]; intros Hw; constructor; apply Forall_cons_1 in Hw as [Hwa Hwk]; [by apply IH|].
    rewrite Forall_forall in Ha, Hwk |- *. intros b Hb. specialize (Ha b Hb). rewrite Hle in Ha. cbn in Ha.
    rewrite (rw_family a Hwa), (rw_family b (Hwk b Hb)), Z.compare_refl in Ha.
    destruct (Z.compare_spec (pr_prefixLength a) (pr_prefixLength b)); [lia|lia|done].
Qed.

Lemma parse_lines_wf n lines l : parse_lines n lines = Ok l → Forall route_wf l.
Proof.
  revert n l. induction lines as [|x lines IH]; cbn [parse_lines]; intros n l; [intros [= <-]; constructor|].
  case_bool_decide; [apply IH|]. destruct (parseVpnRouteRuleLine _ n false) as [r| |] eqn:E; [|done..]. res_simpl.
  destruct (parse_lines (n + 1) lines) as [l'| |] eqn:El; [|done..]. res_simpl. intros [= <-].
  constructor; [by eapply parsed_route_wf|by eapply IH].
Qed.

(** *** Looking an address up *)
Lemma traverse_rules l : Forall route_wf l → traverse parsedRouteForRule (pr_rule <$> l) = Ok l.
Proof using L.
  intros Hw. induction Hw as [|r l Hr Hw IH]; [done|]. rewrite fmap_cons. cbn [traverse].
  assert (parsedRouteForRule (pr_rule r) = Ok r) as -> by (by apply parse_rule_line). res_simpl. rewrite IH. by res_simpl.
Qed.

Definition host_route h : ParsedVpnRouteRule :=
  mkParsed (mkRule (hostAddress (Inet4 h) ++ SLASH :: print_small 32) false) 32 h 32.

Lemma host_route_parsed address h :
  parseNumericAddress address 1 = Ok (Inet4 h) → parsedHostRouteForAddress address = Ok (host_route h).
Proof using L.
  intros Ha. destruct (parse_address_ok _ _ _ Ha) as [Hb Hl]. unfold parsedHostRouteForAddress. rewrite Ha. res_simpl.
  apply (parse_rule_line (host_route h) 1 true). split; cbn; try done.
  apply mask_all. unfold zlen. rewrite Hl. lia.
Qed.

Lemma covers_host r h : route_wf r → covers r (host_route h) = true ↔ covering r h.
Proof.
  intros [Hf _ _ Hp _ _]. unfold covers, covering. cbn [pr_addressFamily pr_prefixLength pr_networkBytes host_route].
  rewrite Hf, Z.eqb_refl, (proj2 (Z.leb_le _ _)) by lia. cbn [andb]. rewrite bool_decide_eq_true. by split.
Qed.

Lemma longest_spec b l : longest b l ∈ b :: l ∧ ∀ r, r ∈ b :: l → pr_prefixLength r ≤ pr_prefixLength (longest b l).
Proof.
  revert b. induction l as [|x l IH]; intros b; cbn [longest].
  { split; [by left|]. intros r [->|?%elem_of_nil]%elem_of_cons; [lia|done]. }
  destruct (Z.ltb_spec (pr_prefixLength b) (pr_prefixLength x)) as [Hlt|Hge].
  - destruct (IH x) as [H1 H2]. split; [by right|]. intros r [->|Hr]%elem_of_cons; [|by apply H2].
    specialize (H2 x ltac:(by left)). lia.
  - destruct (IH b) as [H1 H2]. split; [apply elem_of_cons in H1 as [->|?]; [by left|by right; right]|].
    intros r [->|[->|Hr]%elem_of_cons]%elem_of_cons; [apply H2; by left| |apply H2; by right].
    specialize (H2 b ltac:(by left)). lia.
Qed.

Lemma lookup_decides k h :
  consistent k →
  vr_excluded ∘ pr_rule <$> maxByPrefix (List.filter (λ r, covers r (host_route h)) k) = action_below k h 33.
Proof.
  intros Hk. pose proof (action_below_spec k h 33 Hk) as Hs. pose proof Hk as [Hw _]. rewrite Forall_forall in Hw.
  assert (∀ r, r ∈ List.filter (λ r, covers r (host_route h)) k ↔ r ∈ k ∧ covering r h) as Hin.
  { intros r. rewrite list_elem_of_In, filter_In, <- list_elem_of_In. split; intros [Hr Hc]; (split; [done|]); by apply covers_host; auto. }
  destruct (List.filter _ k) as [|b l]; cbn [maxByPrefix fmap option_fmap option_map].
  - destruct (action_below k h 33) as [a|]; [|done]. destruct Hs as (r & Hr & Hc & _).
    assert (r ∈ []) as He by (by apply Hin). by apply elem_of_nil in He.
  - destruct (longest_spec b l) as [H1 H2]. set (m := longest b l) in *. apply Hin in H1 as [Hm Hmc].
    pose proof (rw_prefix m (Hw m Hm)) as Hmp. destruct (action_below k h 33) as [a|].
    + destruct Hs as (r & Hr & Hc & _ & <- & Hmax). cbn. f_equal. f_equal. f_equal. apply (consistent_network k); [done..| |].
      * specialize (H2 r ltac:(by apply Hin)). specialize (Hmax m Hm Hmc ltac:(lia)). lia.
      * rewrite Hmc, Hc. f_equal. specialize (H2 r ltac:(by apply Hin)). specialize (Hmax m Hm Hmc ltac:(lia)). lia.
    + specialize (Hs m Hm Hmc). lia.
Qed.

(** *** Lines *)
Lemma lines_from_app s acc t :
  10 ∉ s → 13 ∉ s → lines_from (s ++ 10 :: t) acc = (reverse acc ++ s) :: lines_from t [].
Proof.
  revert acc. induction s as [|x s IH]; intros acc H1 H2; cbn; [by rewrite app_nil_r|].
  apply not_elem_of_cons in H1 as [? ?], H2 as [? ?]. rewrite !(proj2 (Z.eqb_neq x _)) by done.
  rewrite IH by done. by rewrite reverse_cons, <- app_assoc.
Qed.

Lemma lines_from_end s acc : 10 ∉ s → 13 ∉ s → lines_from s acc = [reverse acc ++ s].
Proof.
  revert acc. induction s as [|x s IH]; intros acc H1 H2; cbn; [by rewrite app_nil_r|].
  apply not_elem_of_cons in H1 as [? ?], H2 as [? ?]. rewrite !(proj2 (Z.eqb_neq x _)) by done.
  rewrite IH by done. by rewrite reverse_cons, <- app_assoc.
Qed.

Lemma lines_joined (s : str) (l : list str) : Forall (λ t, 10 ∉ t ∧ 13 ∉ t) (s :: l) → lineSequence (joinToString 10 (s :: l)) = s :: l.
Proof.
  unfold lineSequence. cbn [joinToString]. revert s. induction l as [|t l IH]; intros s H; apply Forall_cons_1 in H as [ [H1 H2] H]; cbn.
  - rewrite app_nil_r, lines_from_end by done. done.
  - rewrite lines_from_app by done. cbn. f_equal. by apply IH.
Qed.

Lemma takeUntil_id c s : c ∉ s → takeUntil c s = s.
Proof.
  induction s as [|x s IH]; intros H; [done|]. apply not_elem_of_cons in H as [? ?]. cbn.
  by rewrite (proj2 (Z.eqb_neq _ _)), IH by done.
Qed.

Lemma parse_rule_lines n l : Forall route_wf l → parse_lines n (rule_line ∘ pr_rule <$> l) = Ok l.
Proof using L.
  intros Hw. revert n. induction Hw as [|r l Hr Hw IH]; intros n; [done|]. rewrite fmap_cons. cbn [parse_lines compose].
  destruct (rule_line_ok r Hr) as [Hc Hne]. rewrite takeUntil_id, trim_id.
  - rewrite bool_decide_eq_false_2 by done. rewrite parse_rule_line by done. res_simpl. rewrite IH. by res_simpl.
  - eapply Forall_impl; [exact Hc|]. intros c [? _]. apply whitespace_graphic. lia.
  - intros Hin. eapply Forall_forall in Hc; [|exact Hin]. tauto.
Qed.

Lemma parse_joined l :
  Forall route_wf l → parse_lines 1 (lineSequence (joinToString 10 (rule_line ∘ pr_rule <$> l))) = Ok l.
Proof using L.
  intros Hw. destruct l as [|r l]; [done|]. rewrite fmap_cons, lines_joined, <- (fmap_cons (rule_line ∘ pr_rule)).
  - by apply parse_rule_lines.
  - rewrite <- (fmap_cons (rule_line ∘ pr_rule)). apply Forall_fmap. eapply Forall_impl; [exact Hw|]. intros x Hx.
    destruct (rule_line_ok x Hx) as [Hc _]. split; intros Hin; eapply Forall_forall in Hc; try exact Hin; lia.
Qed.

Lemma sortedWith_fmap {A B} (f : A → B) (le : B → B → bool) (l : list A) :
  sortedWith le (f <$> l) = f <$> sortedWith (λ a b, le (f a) (f b)) l.
Proof.
  induction l as [|x l IH]; [done|]. rewrite fmap_cons. cbn [sortedWith foldr]. fold (sortedWith le (f <$> l)).
  rewrite IH. fold (sortedWith (λ a b, le (f a) (f b)) l). generalize (sortedWith (λ a b, le (f a) (f b)) l) as k. clear.
  induction k as [|y k IHk]; [done|]. rewrite fmap_cons. cbn [insert_by]. destruct (le (f x) (f y)); [done|].
  by rewrite IHk, fmap_cons.
Qed.

(** The text of the rules is canonical.  What is exported of a normalised
    list is parsed to exactly this list again: the same rules, in the same
    order. *)
Lemma rules_roundtrip text rules :
  parseVpnRouteRules text = Ok rules → parseVpnRouteRules (exportVpnRouteRules rules) = Ok rules.
Proof using L.
  unfold parseVpnRouteRules at 1. destruct (parse_lines 1 (lineSequence text)) as [l| |] eqn:El; [|done..]. res_simpl.
  intros Hn. pose proof (parse_lines_wf _ _ _ El) as Hw. destruct (normalise_spec l rules Hw Hn) as (Hc & k & -> & Hnd & Hk & Hkeep).
  set (cmp := λ a b, not_after (parsedRouteComparator a b)).
  unfold parseVpnRouteRules, exportVpnRouteRules. rewrite sortedWith_fmap.
  set (e := sortedWith _ (sortedWith cmp k)). assert (e ≡ₚ k) as Hp.
  { unfold e. by rewrite sortedWith_perm, sortedWith_perm. }
  assert (consistent e) as He by (apply (consistent_sub k); [done|]; intros r; by rewrite Hp).
  rewrite <- (list_fmap_compose pr_rule rule_line), parse_joined by apply He. res_simpl.
  assert (find_conflict e = None) as Hf.
  { unfold find_conflict. destruct (List.find _ e) as [r|] eqn:Ef; [|done]. exfalso. apply find_some in Ef as [Hr Hx].
    apply bool_decide_eq_true, list_elem_of_fmap in Hx as (r' & E & Hr'). apply list_elem_of_In in Hr.
    assert (r = r') as <-; [apply He; [done|done|by rewrite <- E]|]. destruct (pr_rule r) as [c ex]. injection E. by destruct ex. }
  destruct (normalise e) as [rules'|err|] eqn:En; [|unfold normalise in En; by rewrite Hf in En..].
  destruct (normalise_spec e rules' ltac:(apply He) En) as (_ & k' & -> & Hnd' & Hk' & Hkeep').
  f_equal. f_equal. apply (sortedWith_unique route_key); [intros a b; by rewrite parsedRouteComparator_key| |].
  - intros a b Ha Hb. unfold route_key. intros [= _ _ Ep En']. by apply (consistent_network k').
  - apply NoDup_Permutation; [done..|]. intros r. assert (∀ x, x ∈ e ↔ x ∈ l ∧ keep l x = true) as Hek by (intros x; by rewrite Hp, Hkeep).
    rewrite Hkeep', Hkeep, Hek. split; [by intros [? _]|]. intros Hr. split; [done|].
    destruct Hr as [_ Hkr]. unfold keep in *. by rewrite (kept_decisions l e).
Qed.

(** *** Normalised rules *)
Lemma parse_rules_spec text rules :
  parseVpnRouteRules text = Ok rules →
  ∃ l k, parse_lines 1 (lineSequence text) = Ok l ∧ consistent l ∧ rules = pr_rule <$> k ∧ consistent k ∧ NoDup k ∧
    (∀ r, r ∈ k → r ∈ l) ∧ ∀ h, action_below k h 33 = action_below l h 33.
Proof using L.
  unfold parseVpnRouteRules. destruct (parse_lines 1 (lineSequence text)) as [l| |] eqn:El; [|done..]. res_simpl.
  intros Hn. pose proof (parse_lines_wf _ _ _ El) as Hw. destruct (normalise_spec l rules Hw Hn) as (Hc & k & -> & Hd & Hk & Hkeep).
  set (k' := sortedWith _ k). assert (k' ≡ₚ k) as Hp by apply sortedWith_perm.
  assert (consistent k') as Hk' by (apply (consistent_sub k); [done|]; intros r; by rewrite Hp). exists l, k'. split_and!; try done.
  - by rewrite Hp.
  - intros r. rewrite Hp, Hkeep. naive_solver.
  - intros h. rewrite (kept_decisions l k') by (done || by intros r; rewrite Hp). done.
Qed.

Lemma lookup_rules k address h :
  consistent k → parseNumericAddress address 1 = Ok (Inet4 h) →
  ∃ o, vpnRouteActionForAddress (pr_rule <$> k) address = Ok (pr_rule <$> o) ∧ vr_excluded ∘ pr_rule <$> o = action_below k h 33 ∧
    ∀ r, o = Some r → r ∈ k ∧ covering r h.
Proof using L.
  intros Hk Ha. eexists. split; [|split; [by apply lookup_decides|] ].
  - unfold vpnRouteActionForAddress. rewrite (host_route_parsed _ h Ha). res_simpl. rewrite traverse_rules by apply Hk. by res_simpl.
  - intros r Hr. destruct Hk as [Hw _]. rewrite Forall_forall in Hw. assert (r ∈ List.filter (λ r, covers r (host_route h)) k) as Hin.
    { destruct (List.filter _ k) as [|b l]; [done|]. injection Hr as <-. apply longest_spec. }
    rewrite list_elem_of_In, filter_In, <- list_elem_of_In in Hin. destruct Hin as [Hin Hc]. split; [done|]. by apply covers_host; auto.
Qed.
End Decisions.

(** ** Theorems *)

(** C32: Normalising the rules does not change what they say.  For every text
    that is accepted and every IPv4 address, the rule that is looked up in the
    normalised list has the action of the longest network among the lines of
    the text that covers the address, and no rule is found only if none of them
    does. *)
Theorem route_rules_sound `{J : Jvm} {L : JvmLaws J} text rules address h :
  parseVpnRouteRules text = Ok rules → parseNumericAddress address 1 = Ok (Inet4 h) →
  ∃ l o, parse_lines 1 (lineSequence text) = Ok l ∧ vpnRouteActionForAddress rules address = Ok o ∧
    match o with
    | Some rule => ∃ r, r ∈ l ∧ covering r h ∧ vr_excluded (pr_rule r) = vr_excluded rule ∧
        ∀ r', r' ∈ l → covering r' h → pr_prefixLength r' ≤ pr_prefixLength r
    | None => ∀ r, r ∈ l → ¬ covering r h
    end.
Proof.
  intros Hp Ha. destruct (parse_rules_spec text rules Hp) as (l & k & El & Hc & -> & Hk & _ & _ & Hkeep).
  destruct (lookup_rules k address h Hk Ha) as (o & Eo & Hd & _). exists l, (pr_rule <$> o). split; [done|]. split; [done|].
  rewrite Hkeep in Hd. pose proof (action_below_spec l h 33 Hc) as Hs. pose proof Hc as [Hw _]. rewrite Forall_forall in Hw.
  assert (∀ r, r ∈ l → pr_prefixLength r < Z.of_nat 33) as Hlt by (intros r Hr; pose proof (rw_prefix r (Hw r Hr)); lia).
  rewrite <- Hd in Hs. clear Hd. destruct o as [m|]; cbn [fmap option_fmap option_map compose] in *.
  - destruct Hs as (r & Hr & Hcr & _ & E & Hmax). exists r. split_and!; [done..|]. auto.
  - intros r Hr Hcr. specialize (Hs r Hr Hcr). specialize (Hlt r Hr). lia.
Qed.

(** ** Witnesses *)
Module RoutesDemo.
#[export] Instance ascii : Jvm := {|
  isWhitespace c := (c =? 32) || ((9 <=? c) && (c <=? 13)) || ((28 <=? c) && (c <=? 31));
  digit c := if (48 <=? c) && (c <=? 57) then Some (c - 48) else None;
  getByName6 _ := None;
  hostAddress6 _ := [];
|}.
#[export] Instance ascii_laws : JvmLaws ascii.
Proof.
  split; cbn.
  - intros c d. destruct (Z.leb_spec 48 c), (Z.leb_spec c 57); cbn; intros [=]; lia.
  - intros d Hd. rewrite (proj2 (Z.leb_le _ _)), (proj2 (Z.leb_le _ _)) by lia. cbn. f_equal. lia.
  - intros c Hc. destruct (Z.leb_spec 48 c), (Z.leb_spec c 57); cbn; [lia|done..].
  - intros c Hc. rewrite (proj2 (Z.eqb_neq _ _)) by lia. destruct (Z.leb_spec 9 c), (Z.leb_spec c 13), (Z.leb_spec 28 c), (Z.leb_spec c 31); cbn; lia || done.
Qed.

(** A network, an exception, what the network says already, and an exception
    to the exception. *)
Definition text : list Z :=
  bytes_of_string "10.0.0.0/8"%string ++ [10] ++ bytes_of_string "! 10.1.0.0/16 # lab"%string ++ [13; 10] ++
  bytes_of_string "10.2.3.4/+16"%string ++ [10; 10] ++ bytes_of_string " 10.1.2.3/24"%string.
Definition rules : list VpnRouteRule :=
  [mkRule (bytes_of_string "10.0.0.0/8"%string) false; mkRule (bytes_of_string "10.1.2.0/24"%string) false;
   mkRule (bytes_of_string "10.1.0.0/16"%string) true].
Lemma text_rules : parseVpnRouteRules text = Ok rules.
Proof. vm_compute. reflexivity. Qed.
End RoutesDemo.

Section RoutesWitnesses.
Import RoutesDemo.

Lemma route_rules_sound_witness :
  ∃ l o, parse_lines 1 (lineSequence text) = Ok l ∧
    vpnRouteActionForAddress rules (bytes_of_string "10.2.3.4"%string) = Ok o ∧ o ≠ None.
Proof.
  destruct (route_rules_sound text rules (bytes_of_string "10.2.3.4"%string) [10; 2; 3; 4] text_rules)
    as (l & o & H1 & H2 & _); [vm_compute; reflexivity|].
  exists l, o. split; [exact H1|]. split; [exact H2|]. intros ->. vm_compute in H2. discriminate H2.
Defined.
End RoutesWitnesses.
