(* ===== verification/NetworkWatcher.v ===== *)
(** * The network watcher of the Android app
      ([android/.../vpn/NetworkChangeWatcher.kt])

    Android tells the watcher which network it has selected below the VPN.  For
    the first second the selections are passed on at once, then the last one
    is what the native client starts with; later a new selection is reported
    when it has stayed for two seconds and differs from what the native client
    uses.  Everything runs on the main looper: calls, the callbacks of the
    connectivity manager, and timers, whose queue is part of the state.

    Times are milliseconds. *)

From stdpp Require Import base tactics option list numbers sets sorting.
From Stdlib Require Import ZArith Lia.
From S2P Require Import Prelude.

Section Watcher.
Context {K : Type} `{EqDecision K}.

(** ** [applyUnderlyingNetworkEvent] *)
Inductive UnderlyingNetworkEvent :=
  | Selected (network : K)
  | Lost (network : K)
  | PrimingComplete.

Record UnderlyingNetworkState := mkUnderlying {
  un_current : option K;
  un_reconnectBaseline : option K;
  un_primed : bool;
}.

Record UnderlyingNetworkTransition := mkTransition {
  ut_state : UnderlyingNetworkState;
  ut_networkChanged : bool;
  ut_publishImmediately : bool;
  ut_reconnect : bool;
}.

Definition is_priming (event : UnderlyingNetworkEvent) : bool :=
  match event with PrimingComplete => true | _ => false end.

(** The selection after [event]. *)
Definition selection (event : UnderlyingNetworkEvent) (current : option K) : option K :=
  match event with
  | Selected network => Some network
  | Lost network => if decide (Some network = current) then None else current
  | PrimingComplete => current
  end.

Definition applyUnderlyingNetworkEvent (event : UnderlyingNetworkEvent) (state : UnderlyingNetworkState)
    : UnderlyingNetworkTransition :=
  let current := selection event (un_current state) in
  let changed := bool_decide (current ≠ un_current state) in
  if negb (un_primed state) then
    mkTransition (mkUnderlying current current (is_priming event)) changed changed false
  else if is_priming event || negb changed then mkTransition state false false false
  else mkTransition (mkUnderlying current (un_reconnectBaseline state) (un_primed state)) true false
         (bool_decide (current ≠ un_reconnectBaseline state)).

(** ** [NetworkChangeWatcher] *)
Definition RECONNECT_DEBOUNCE_MS : Z := 2000.
Definition INITIAL_CALLBACK_SETTLE_MS : Z := 1000.

(** What the watcher calls: [onInitialUnderlyingNetworkChanged],
    [onInitialSelectionReady] and [onReconnect]. *)
Inductive watcher_call :=
  | InitialChanged (network : option K)
  | SelectionReady (network : option K)
  | Reconnect (network : option K).

(** What the handler runs later: [primingCompleteRunnable], the posted
    [onInitialSelectionReady(initialNetwork)], and [fireReconnect] of a
    generation. *)
Inductive runnable := RPriming | RReady | RFire (generation : Z).
#[export] Instance runnable_eq_dec : EqDecision runnable.
Proof. solve_decision. Defined.

(** [w_queue] is the handler's queue by due time; a runnable of
    [fireReconnect] is known by its generation.  [w_told] is the network the
    watcher last gave as ready or for a reconnect and [w_changed] the time
    when the selection last changed, for the theorems. *)
Record Watcher := mkWatcher {
  w_initialNetwork : option K;
  w_registered : bool;
  w_pendingReconnect : option Z;
  w_reconnectGeneration : Z;
  w_state : UnderlyingNetworkState;
  w_queue : list (Z * runnable);
  w_now : Z;
  w_told : option (option K);
  w_changed : Z;
}.
Implicit Type w : Watcher.

Definition Watcher_new (initialNetwork : option K) : Watcher :=
  mkWatcher initialNetwork false None 0 (mkUnderlying initialNetwork initialNetwork false) [] 0 None 0.

Definition put_registered b w : Watcher :=
  mkWatcher (w_initialNetwork w) b (w_pendingReconnect w) (w_reconnectGeneration w) (w_state w) (w_queue w) (w_now w) (w_told w) (w_changed w).
Definition put_pending p w : Watcher :=
  mkWatcher (w_initialNetwork w) (w_registered w) p (w_reconnectGeneration w) (w_state w) (w_queue w) (w_now w) (w_told w) (w_changed w).
Definition put_generation g w : Watcher :=
  mkWatcher (w_initialNetwork w) (w_registered w) (w_pendingReconnect w) g (w_state w) (w_queue w) (w_now w) (w_told w) (w_changed w).
Definition put_state st w : Watcher :=
  mkWatcher (w_initialNetwork w) (w_registered w) (w_pendingReconnect w) (w_reconnectGeneration w) st (w_queue w) (w_now w) (w_told w) (w_changed w).
Definition put_queue q w : Watcher :=
  mkWatcher (w_initialNetwork w) (w_registered w) (w_pendingReconnect w) (w_reconnectGeneration w) (w_state w) q (w_now w) (w_told w) (w_changed w).
Definition put_now t w : Watcher :=
  mkWatcher (w_initialNetwork w) (w_registered w) (w_pendingReconnect w) (w_reconnectGeneration w) (w_state w) (w_queue w) t (w_told w) (w_changed w).
Definition put_told n w : Watcher :=
  mkWatcher (w_initialNetwork w) (w_registered w) (w_pendingReconnect w) (w_reconnectGeneration w) (w_state w) (w_queue w) (w_now w) n (w_changed w).
Definition put_changed t w : Watcher :=
  mkWatcher (w_initialNetwork w) (w_registered w) (w_pendingReconnect w) (w_reconnectGeneration w) (w_state w) (w_queue w) (w_now w) (w_told w) t.

(** A [Long] is incremented. *)
Definition long_succ (n : Z) : Z := if n =? 2 ^ 63 - 1 then - 2 ^ 63 else n + 1.
Definition next_generation w : Watcher := put_generation (long_succ (w_reconnectGeneration w)) w.

(** [Handler.postDelayed] and [Handler.removeCallbacks] *)
Fixpoint enqueue (due : Z) (r : runnable) (q : list (Z * runnable)) : list (Z * runnable) :=
  match q with
  | [] => [(due, r)]
  | (d, x) :: q' => if d <=? due then (d, x) :: enqueue due r q' else (due, r) :: q
  end.
Definition postDelayed (r : runnable) (delay : Z) w : Watcher := put_queue (enqueue (w_now w + delay) r (w_queue w)) w.
Definition removeCallbacks (r : runnable) w : Watcher := put_queue (filter (λ x, x.2 ≠ r) (w_queue w)) w.
Definition remove_pending (p : option Z) w : Watcher :=
  match p with Some g => removeCallbacks (RFire g) w | None => w end.

(** What [registerBestMatchingNetworkCallback] does; there may be no manager. *)
Inductive registration := NoManager | Registers | RegisterThrows.

Definition watcher_start (answer : registration) w : Watcher :=
  if w_registered w then w else
  let w := put_state (mkUnderlying (w_initialNetwork w) (w_initialNetwork w) false) w in
  let w := next_generation (put_pending None w) in
  match answer with
  | NoManager | RegisterThrows => postDelayed RReady 0 w
  | Registers => postDelayed RPriming INITIAL_CALLBACK_SETTLE_MS (removeCallbacks RPriming (put_registered true w))
  end.

Definition watcher_stop w : Watcher :=
  let w := removeCallbacks RPriming (remove_pending (w_pendingReconnect w) w) in
  let w := put_state (mkUnderlying None None false) (next_generation (put_pending None w)) in
  if w_registered w then put_registered false w else w.

Definition cancelReconnect (generation : Z) w : Watcher :=
  if generation =? w_reconnectGeneration w then remove_pending (w_pendingReconnect w) (put_pending None w) else w.

Definition scheduleReconnect (generation : Z) w : Watcher :=
  if w_registered w && (generation =? w_reconnectGeneration w) then
    postDelayed (RFire generation) RECONNECT_DEBOUNCE_MS
      (remove_pending (w_pendingReconnect w) (put_pending (Some generation) w))
  else w.

Definition handleEvent (event : UnderlyingNetworkEvent) w : Watcher * list watcher_call :=
  let result := applyUnderlyingNetworkEvent event (w_state w) in
  let w := put_state (ut_state result) (if ut_networkChanged result then put_changed (w_now w) w else w) in
  let debounce := ut_networkChanged result && un_primed (ut_state result) in
  let w := if debounce then next_generation w else w in
  let w := if debounce
           then (if ut_reconnect result then scheduleReconnect else cancelReconnect) (w_reconnectGeneration w) w
           else w in
  (w, if ut_publishImmediately result then [InitialChanged (un_current (ut_state result))] else []).

Definition fireReconnect (generation : Z) w : Watcher * list watcher_call :=
  if w_registered w && (generation =? w_reconnectGeneration w) then
    let w := put_pending None w in
    let current := un_current (w_state w) in
    if decide (current ≠ un_reconnectBaseline (w_state w)) then
      (put_told (Some current) (put_state (mkUnderlying current current (un_primed (w_state w))) w), [Reconnect current])
    else (w, [])
  else (w, []).

Definition run_runnable (r : runnable) w : Watcher * list watcher_call :=
  match r with
  | RPriming =>
      let '(w, calls) := handleEvent PrimingComplete w in
      let selectedNetwork := un_current (w_state w) in
      (put_told (Some selectedNetwork) w, calls ++ [SelectionReady selectedNetwork])
  | RReady => (put_told (Some (w_initialNetwork w)) w, [SelectionReady (w_initialNetwork w)])
  | RFire generation => fireReconnect generation w
  end.

(** The main looper: a call of the service, a callback of the connectivity
    manager, which calls registered watchers only, or the next timer, if it is
    due. *)
Inductive watcher_input :=
  | WStart (answer : registration)
  | WStop
  | WAvailable (network : K)
  | WLost (network : K)
  | WTimer.

Definition watch_now (i : watcher_input) w : Watcher * list watcher_call :=
  match i with
  | WStart answer => (watcher_start answer w, [])
  | WStop => (watcher_stop w, [])
  | WAvailable network => if w_registered w then handleEvent (Selected network) w else (w, [])
  | WLost network => if w_registered w then handleEvent (Lost network) w else (w, [])
  | WTimer =>
      match w_queue w with
      | (due, r) :: q => if due <=? w_now w then run_runnable r (put_queue q w) else (w, [])
      | [] => (w, [])
      end
  end.

(** An input [fst x] milliseconds later. *)
Definition watch (x : nat * watcher_input) w : Watcher * list watcher_call :=
  watch_now x.2 (put_now (w_now w + Z.of_nat x.1) w).
Definition watch_all (l : list (nat * watcher_input)) w : Watcher := foldl (λ w x, (watch x w).1) w l.
End Watcher.
Arguments UnderlyingNetworkEvent : clear implicits.
Arguments UnderlyingNetworkState : clear implicits.
Arguments UnderlyingNetworkTransition : clear implicits.
Arguments watcher_call : clear implicits.
Arguments watcher_input : clear implicits.
Arguments Watcher : clear implicits.

(** ** The queue *)
Definition fires (q : list (Z * runnable)) : list (Z * Z) :=
  omap (λ x, match x.2 with RFire g => Some (x.1, g) | _ => None end) q.
Definition primings (q : list (Z * runnable)) : list Z :=
  omap (λ x, match x.2 with RPriming => Some x.1 | _ => None end) q.
Definition readies (q : list (Z * runnable)) : list Z :=
  omap (λ x, match x.2 with RReady => Some x.1 | _ => None end) q.

Arguments fires : simpl never.
Arguments primings : simpl never.
Arguments readies : simpl never.

Lemma enqueue_split d r q :
  ∃ q1 q2, q = q1 ++ q2 ∧ enqueue d r q = q1 ++ (d, r) :: q2 ∧ Forall (λ x, x.1 ≤ d) q1 ∧
    (StronglySorted (λ x y, x.1 ≤ y.1) q → Forall (λ x, d ≤ x.1) q2).
Proof.
  induction q as [|[d' x] q IH]; cbn; [by exists [], []|]. destruct (Z.leb_spec d' d) as [Hle|Hlt].
  - destruct IH as (q1 & q2 & -> & -> & H1 & H2). exists ((d', x) :: q1), q2. split_and!; [done|done|by constructor|].
    intros [Hs _]%StronglySorted_inv. by apply H2.
  - exists [], ((d', x) :: q). split_and!; [done|done|done|]. intros [_ Hs]%StronglySorted_inv.
    constructor; [cbn; lia|]. eapply Forall_impl; [exact Hs|]. cbn. lia.
Qed.

Lemma enqueue_sorted d r q :
  StronglySorted (λ x y : Z * runnable, x.1 ≤ y.1) q → StronglySorted (λ x y : Z * runnable, x.1 ≤ y.1) (enqueue d r q).
Proof.
  intros Hs. induction Hs as [|[d' x] q Hs IH Hx]; cbn; [by repeat constructor|]. destruct (Z.leb_spec d' d) as [Hle|Hlt].
  - constructor; [done|]. destruct (enqueue_split d r q) as (q1 & q2 & -> & -> & _ & _).
    apply Forall_app in Hx as [H1 H2]. apply Forall_app. split; [done|]. by constructor.
  - constructor; [by constructor|]. constructor; [cbn; lia|]. eapply Forall_impl; [exact Hx|]. cbn. lia.
Qed.

Lemma filter_sorted (P : Z * runnable → Prop) `{∀ x, Decision (P x)} (q : list (Z * runnable)) :
  StronglySorted (λ x y : Z * runnable, x.1 ≤ y.1) q → StronglySorted (λ x y : Z * runnable, x.1 ≤ y.1) (filter P q).
Proof.
  intros Hs. induction Hs as [|x q Hs IH Hx]; [constructor|]. rewrite filter_cons. case_decide; [|done].
  constructor; [done|]. rewrite Forall_forall in Hx |- *. intros y [_ Hy]%list_elem_of_filter. by apply Hx.
Qed.

Lemma enqueue_forall (P : Z * runnable → Prop) d r q : Forall P q → P (d, r) → Forall P (enqueue d r q).
Proof.
  destruct (enqueue_split d r q) as (q1 & q2 & -> & -> & _). rewrite !Forall_app. intros [? ?] ?. split; [done|by constructor].
Qed.

Lemma elem_of_enqueue x d r q : x ∈ enqueue d r q ↔ x = (d, r) ∨ x ∈ q.
Proof. destruct (enqueue_split d r q) as (q1 & q2 & -> & -> & _). rewrite !elem_of_app, elem_of_cons. tauto. Qed.

Lemma omap_enqueue_none {A} (f : Z * runnable → option A) d r q : f (d, r) = None → omap f (enqueue d r q) = omap f q.
Proof.
  intros Hf. destruct (enqueue_split d r q) as (q1 & q2 & -> & -> & _). rewrite !omap_app. cbn. by rewrite Hf.
Qed.

Lemma omap_enqueue_some {A} (f : Z * runnable → option A) d r q a :
  f (d, r) = Some a → omap f q = [] → omap f (enqueue d r q) = [a].
Proof.
  intros Hf. destruct (enqueue_split d r q) as (q1 & q2 & -> & -> & _). rewrite !omap_app. cbn. rewrite Hf.
  by intros [-> ->]%app_eq_nil.
Qed.

Lemma omap_removed {A} (f : Z * runnable → option A) r (q : list (Z * runnable)) :
  (∀ d, f (d, r) = None) → omap f (filter (λ x, x.2 ≠ r) q) = omap f q.
Proof.
  intros Hf. induction q as [|[d x] q IH]; [done|]. rewrite filter_cons. case_decide as Hx; cbn; rewrite IH; [done|].
  cbn in Hx. subst x. by rewrite Hf.
Qed.

Lemma omap_filter_none {A} (f : Z * runnable → option A) (P : Z * runnable → Prop) `{∀ x, Decision (P x)} (q : list (Z * runnable)) :
  (∀ x, x ∈ q → P x → f x = None) → omap f (filter P q) = [].
Proof.
  induction q as [|x q IH]; [done|]. intros Hf. rewrite filter_cons. case_decide as Hx; cbn.
  - rewrite Hf by (done || left). apply IH. intros y Hy. apply Hf. by right.
  - apply IH. intros y Hy. apply Hf. by right.
Qed.

Lemma elem_of_readies d q : d ∈ readies q ↔ (d, RReady) ∈ q.
Proof.
  unfold readies. rewrite list_elem_of_omap. split.
  - intros ([d' []] & Hin & [= <-]). done.
  - intros Hin. by exists (d, RReady).
Qed.
Lemma elem_of_primings d q : d ∈ primings q ↔ (d, RPriming) ∈ q.
Proof.
  unfold primings. rewrite list_elem_of_omap. split.
  - intros ([d' []] & Hin & [= <-]). done.
  - intros Hin. by exists (d, RPriming).
Qed.
Lemma elem_of_fires d g q : (d, g) ∈ fires q ↔ (d, RFire g) ∈ q.
Proof.
  unfold fires. rewrite list_elem_of_omap. split.
  - intros ([d' []] & Hin & [= <- <-]). done.
  - intros Hin. by exists (d, RFire g).
Qed.

(** ** The invariant *)
Section Invariant.
Context {K : Type} `{EqDecision K}.
Implicit Type w : Watcher K.

Record watcher_inv w : Prop := mkWatcherInv {
  wi_sorted : StronglySorted (λ x y, x.1 ≤ y.1) (w_queue w);
  wi_due : Forall (λ x, x.1 ≤ w_now w + RECONNECT_DEBOUNCE_MS) (w_queue w);
  wi_pending :
    match w_pendingReconnect w with
    | Some g => g = w_reconnectGeneration w ∧ un_primed (w_state w) = true ∧
        un_current (w_state w) ≠ un_reconnectBaseline (w_state w) ∧
        fires (w_queue w) = [(w_changed w + RECONNECT_DEBOUNCE_MS, g)]
    | None => fires (w_queue w) = [] ∧ (un_primed (w_state w) = true → un_current (w_state w) = un_reconnectBaseline (w_state w))
    end;
  wi_priming : if w_registered w && negb (un_primed (w_state w)) then ∃ d, primings (w_queue w) = [d] else primings (w_queue w) = [];
  wi_primed : un_primed (w_state w) = true →
    w_registered w = true ∧ w_told w = Some (un_reconnectBaseline (w_state w)) ∧ readies (w_queue w) = [];
  wi_ready : ∀ d, d ∈ readies (w_queue w) → d ≤ w_now w ∧ ∀ d', d' ∈ primings (w_queue w) → d < d';
}.

Lemma watcher_new_inv n : watcher_inv (Watcher_new n).
Proof. split; cbn; try done; [constructor|by intros d ?%elem_of_nil]. Qed.

Lemma long_succ_ne n : long_succ n ≠ n.
Proof. unfold long_succ. destruct (Z.eqb_spec n (2 ^ 63 - 1)); lia. Qed.

Lemma tick_inv w (dt : nat) : watcher_inv w → watcher_inv (put_now (w_now w + Z.of_nat dt) w).
Proof.
  intros [H1 H2 H3 H4 H5 H6]. split; cbn; try done.
  - eapply Forall_impl; [exact H2|]. cbn. lia.
  - intros d [Hd Hp]%H6. split; [lia|done].
Qed.

(** The pending reconnect is taken out of the queue. *)
Lemma remove_pending_fires w :
  watcher_inv w →
  let q := w_queue (remove_pending (w_pendingReconnect w) w) in
  fires q = [] ∧ primings q = primings (w_queue w) ∧ readies q = readies (w_queue w) ∧
  StronglySorted (λ x y, x.1 ≤ y.1) q ∧ Forall (λ x, x.1 ≤ w_now w + RECONNECT_DEBOUNCE_MS) q.
Proof.
  intros [H1 H2 H3 _ _ _]. destruct (w_pendingReconnect w) as [g|]; cbn; [|destruct H3 as [H3 _]; by split_and!]. split_and!.
  - apply omap_filter_none. intros [d r] Hin Hne. destruct r as [| |g']; [done..|]. cbn in Hne.
    apply elem_of_fires in Hin. destruct H3 as (_ & _ & _ & Hf). rewrite Hf in Hin. apply list_elem_of_singleton in Hin. congruence.
  - by apply omap_removed.
  - by apply omap_removed.
  - by apply filter_sorted.
  - rewrite Forall_forall in H2 |- *. intros y [_ Hy]%list_elem_of_filter. by apply H2.
Qed.

Lemma remove_pending_fields p w :
  let w' := remove_pending p w in
  w_registered w' = w_registered w ∧ w_pendingReconnect w' = w_pendingReconnect w ∧ w_state w' = w_state w ∧ w_now w' = w_now w ∧
  w_reconnectGeneration w' = w_reconnectGeneration w ∧ w_initialNetwork w' = w_initialNetwork w ∧
  w_told w' = w_told w ∧ w_changed w' = w_changed w.
Proof. by destruct p. Qed.

Lemma start_inv a w : watcher_inv w → watcher_inv (watcher_start a w).
Proof.
  intros Hi. unfold watcher_start. destruct (w_registered w) eqn:Er; [done|]. destruct Hi as [H1 H2 H3 H4 H5 H6].
  rewrite Er in H4, H5. cbn in H4.
  assert (un_primed (w_state w) = false) as Ep by (destruct (un_primed (w_state w)); [by destruct (H5 eq_refl)|done]).
  rewrite Ep in H3. assert (fires (w_queue w) = []) as Hf by (destruct (w_pendingReconnect w); [by destruct H3 as (_ & ? & _)|apply H3]).
  assert (∀ w', w_queue w' = w_queue w → w_now w' = w_now w → w_registered w' = false → w_pendingReconnect w' = None →
    un_primed (w_state w') = false → watcher_inv (postDelayed RReady 0 w')) as Hready.
  { intros w' Eq En Er' Epd Ep'. unfold postDelayed. rewrite Eq, En. split; cbn; rewrite ?Er', ?Ep', ?Epd; try done.
    - by apply enqueue_sorted.
    - rewrite En. apply enqueue_forall; [done|]. unfold RECONNECT_DEBOUNCE_MS. cbn. lia.
    - unfold fires. by rewrite omap_enqueue_none.
    - unfold primings. by rewrite omap_enqueue_none.
    - intros d Hd. unfold primings. rewrite omap_enqueue_none by done. change (omap _ (w_queue w)) with (primings (w_queue w)).
      rewrite H4. split; [|by intros d' ?%elem_of_nil]. rewrite En.
      apply elem_of_readies, elem_of_enqueue in Hd as [ [= ->]|Hd]; [lia|]. by apply H6, elem_of_readies. }
  destruct a; [by apply Hready| |by apply Hready].
  unfold postDelayed, removeCallbacks. cbn. set (q := filter _ (w_queue w)).
  assert (fires q = [] ∧ primings q = [] ∧ readies q = readies (w_queue w)) as (Hq1 & Hq2 & Hq3).
  { split_and!; [rewrite <- Hf; by apply omap_removed|apply omap_filter_none; by intros [d [] ]|by apply omap_removed]. }
  split; cbn; try done.
  - by apply enqueue_sorted, filter_sorted.
  - apply enqueue_forall; [|unfold INITIAL_CALLBACK_SETTLE_MS, RECONNECT_DEBOUNCE_MS; cbn; lia].
    rewrite Forall_forall in H2 |- *. intros y [_ Hy]%list_elem_of_filter. by apply H2.
  - unfold fires. by rewrite omap_enqueue_none.
  - eexists. by apply omap_enqueue_some.
  - intros d Hd. unfold readies in Hd. rewrite omap_enqueue_none in Hd by done. fold (readies q) in Hd. rewrite Hq3 in Hd.
    apply H6 in Hd as [Hd _]. split; [done|]. intros d' Hd'. unfold primings in Hd'.
    rewrite (omap_enqueue_some _ _ _ _ (w_now w + INITIAL_CALLBACK_SETTLE_MS)) in Hd' by done.
    apply list_elem_of_singleton in Hd'. unfold INITIAL_CALLBACK_SETTLE_MS in Hd'. lia.
Qed.

Lemma stop_inv w : watcher_inv w → watcher_inv (watcher_stop w).
Proof.
  intros Hi. destruct (remove_pending_fires w Hi) as (Hf & Hp & Hr & Hs & Hd).
  destruct (remove_pending_fields (w_pendingReconnect w) w) as (_ & _ & _ & En & _). unfold watcher_stop. cbn zeta.
  set (w1 := remove_pending (w_pendingReconnect w) w) in *. cbn zeta in *.
  set (w2 := put_state _ _). assert (watcher_inv (put_registered false w2)) as Hend.
  { split; cbn; try done.
    - by apply filter_sorted.
    - rewrite En. rewrite Forall_forall in Hd |- *. intros y [_ Hy]%list_elem_of_filter. by apply Hd.
    - split; [|done]. unfold fires. by rewrite omap_removed.
    - apply omap_filter_none. by intros [d [] ].
    - intros d. unfold readies. rewrite omap_removed by done. fold (readies (w_queue w1)). rewrite Hr, En. intros [Hd1 _]%(wi_ready _ Hi).
      split; [done|]. unfold primings. rewrite omap_filter_none; [by intros d' ?%elem_of_nil|]. by intros [d' [] ]. }
  destruct (w_registered w2) eqn:E; [done|]. by destruct w2; cbn in *; subst.
Qed.

(** Another network is selected, or none: the reconnect is scheduled anew or
    cancelled. *)
Lemma reselect_inv w current :
  watcher_inv w → un_primed (w_state w) = true →
  let w1 := next_generation (put_state (mkUnderlying current (un_reconnectBaseline (w_state w)) true) (put_changed (w_now w) w)) in
  let w2 := (if bool_decide (current ≠ un_reconnectBaseline (w_state w)) then scheduleReconnect else cancelReconnect)
              (w_reconnectGeneration w1) w1 in
  watcher_inv w2 ∧ w_state w2 = mkUnderlying current (un_reconnectBaseline (w_state w)) true ∧ w_told w2 = w_told w.
Proof.
  intros Hi Hp w1. destruct (remove_pending_fires w Hi) as (Hf & Hpr & Hr & Hs & Hd). destruct Hi as [_ _ _ H4 H5 H6].
  destruct (H5 Hp) as (Hreg & Ht & Hrd). rewrite Hreg, Hp in H4. cbn in H4. rewrite Hrd in Hr. rewrite H4 in Hpr.
  set (w' := remove_pending (w_pendingReconnect w) w) in *. cbn zeta in *.
  assert (∀ p, w_queue (remove_pending (w_pendingReconnect w1) (put_pending p w1)) = w_queue w') as Eq'
    by (intros p; subst w1 w'; cbn; by destruct (w_pendingReconnect w)).
  case_bool_decide as Hc; cbn zeta.
  - unfold scheduleReconnect. replace (w_registered w1) with true by done. rewrite Z.eqb_refl. cbn [andb]. unfold postDelayed.
    rewrite Eq'. pose proof (remove_pending_fields (w_pendingReconnect w1) (put_pending (Some (w_reconnectGeneration w1)) w1)) as F.
    cbv zeta in F. revert F. generalize (remove_pending (w_pendingReconnect w1) (put_pending (Some (w_reconnectGeneration w1)) w1)) as w2.
    intros w2 (F1 & F2 & F3 & F4 & F5 & F6 & F7 & F8). split_and!; [|cbn; by rewrite F3|cbn; by rewrite F7].
    split; cbn; rewrite ?F1, ?F2, ?F3, ?F4, ?F5, ?F7, ?F8; cbn; rewrite ?Hreg; try done.
    + by apply enqueue_sorted.
    + apply enqueue_forall; [done|cbn; lia].
    + split_and!; [done..|]. by apply omap_enqueue_some.
    + unfold primings. by rewrite omap_enqueue_none.
    + intros _. split_and!; [done..|]. unfold readies. by rewrite omap_enqueue_none.
    + intros d. unfold readies. rewrite omap_enqueue_none by done. fold (readies (w_queue w')). rewrite Hr. by intros ?%elem_of_nil.
  - unfold cancelReconnect. rewrite Z.eqb_refl.
    pose proof (remove_pending_fields (w_pendingReconnect w1) (put_pending None w1)) as F. cbv zeta in F. revert F. pose proof (Eq' None) as Eq. revert Eq.
    generalize (remove_pending (w_pendingReconnect w1) (put_pending None w1)) as w2.
    intros w2 Eq (F1 & F2 & F3 & F4 & F5 & F6 & F7 & F8). split_and!; [|by rewrite F3|by rewrite F7].
    split; rewrite ?Eq, ?F1, ?F2, ?F3, ?F4, ?F5, ?F7, ?F8; cbn; rewrite ?Hreg; try done.
    intros d. rewrite Hr. by intros ?%elem_of_nil.
Qed.

Lemma event_inv e w :
  watcher_inv w → w_registered w = true → is_priming e = false →
  watcher_inv (handleEvent e w).1 ∧ w_told (handleEvent e w).1 = w_told w ∧
  un_current (w_state (handleEvent e w).1) = selection e (un_current (w_state w)) ∧ (∀ n, Reconnect n ∉ (handleEvent e w).2).
Proof.
  intros Hi Hreg He. unfold handleEvent, applyUnderlyingNetworkEvent. rewrite He. cbn [orb].
  set (current := selection e (un_current (w_state w))).
  destruct (un_primed (w_state w)) eqn:Ep; cbn [negb].
  - case_bool_decide as Hc; cbn [negb ut_state ut_networkChanged ut_publishImmediately ut_reconnect un_primed andb fst snd].
    + destruct (reselect_inv w current Hi Ep) as (H1 & H2 & H3). split_and!; [done|done| |by intros n ?%elem_of_nil].
      cbn [fst snd] in *. by rewrite H2.
    + split_and!; [|done|cbn; by rewrite Hc|by intros n ?%elem_of_nil]. by destruct w.
  - cbn [ut_state ut_networkChanged ut_publishImmediately ut_reconnect un_primed andb fst snd]. rewrite andb_false_r. cbn [fst snd].
    split_and!; [|by case_bool_decide|by case_bool_decide|by case_bool_decide; intros n; rewrite ?elem_of_cons, elem_of_nil; intros; naive_solver].
    destruct Hi as [H1 H2 H3 H4 H5 H6]. rewrite Ep in *.
    assert (w_pendingReconnect w = None ∧ fires (w_queue w) = []) as [Hn Hf]
      by (destruct (w_pendingReconnect w); [by destruct H3 as (_ & ? & _)|split; [done|apply H3] ]).
    case_bool_decide; split; cbn; rewrite ?Hreg, ?Hn in *; done.
Qed.

(** The next timer of the queue. *)
Lemma timer_inv w due r q :
  watcher_inv w → w_queue w = (due, r) :: q → due ≤ w_now w →
  let '(w', calls) := run_runnable r (put_queue q w) in
  watcher_inv w' ∧ (w_queue w' = q ∧ w_now w' = w_now w ∧ w_registered w' = w_registered w) ∧
  un_current (w_state w') = un_current (w_state w) ∧
  ∀ n, Reconnect n ∈ calls → n = un_current (w_state w) ∧ w_told w = Some (un_reconnectBaseline (w_state w)) ∧
    n ≠ un_reconnectBaseline (w_state w) ∧ w_told w' = Some n ∧ w_changed w + RECONNECT_DEBOUNCE_MS = due.
Proof.
  intros [H1 H2 H3 H4 H5 H6] Eq Hdue. rewrite Eq in *. apply StronglySorted_inv in H1 as [Hs Hq]. apply Forall_cons_1 in H2 as [_ H2].
  destruct r as [| |g]; cbn [run_runnable].
  - change (primings ((due, RPriming) :: q)) with (due :: primings q) in *.
    change (fires ((due, RPriming) :: q)) with (fires q) in *. change (readies ((due, RPriming) :: q)) with (readies q) in *.
    destruct (w_registered w) eqn:Er; [|done]. destruct (un_primed (w_state w)) eqn:Ep; [done|]. cbn in H4. destruct H4 as [d [= -> H4] ].
    assert (readies q = []) as Hr.
    { destruct (readies q) as [|d' l] eqn:E; [done|]. exfalso. assert (d' ∈ readies q) as Hd' by (rewrite E; left).
      destruct (H6 d' ltac:(by left)) as [_ Hlt]. specialize (Hlt d ltac:(by left)). apply elem_of_readies in Hd'.
      rewrite Forall_forall in Hq. specialize (Hq _ Hd'). cbn in Hq. lia. }
    assert (w_pendingReconnect w = None ∧ fires q = []) as [Hn Hf]
      by (destruct (w_pendingReconnect w); [by destruct H3 as (_ & ? & _)|split; [done|apply H3] ]).
    unfold handleEvent, applyUnderlyingNetworkEvent. cbn. rewrite Ep. cbn. rewrite bool_decide_false by tauto. cbn. split_and!; [|done..|].
    + split; cbn; rewrite ?Er, ?Hn, ?Hr; try done. by intros d' ?%elem_of_nil.
    + intros n [? | []%elem_of_nil]%elem_of_cons. done.
  - change (primings ((due, RReady) :: q)) with (primings q) in *.
    change (fires ((due, RReady) :: q)) with (fires q) in *. change (readies ((due, RReady) :: q)) with (due :: readies q) in *.
    destruct (un_primed (w_state w)) eqn:Ep; [by destruct (H5 eq_refl) as (_ & _ & ?)|]. split_and!; [|done..|].
    + split; cbn; rewrite ?Ep; try done. intros d Hd. apply H6. by right.
    + intros n [? | []%elem_of_nil]%elem_of_cons. done.
  - change (primings ((due, RFire g) :: q)) with (primings q) in *.
    change (fires ((due, RFire g) :: q)) with ((due, g) :: fires q) in *. change (readies ((due, RFire g) :: q)) with (readies q) in *.
    destruct (w_pendingReconnect w) as [g'|] eqn:Epd; [|by destruct H3]. destruct H3 as (-> & Hp & Hne & [= -> -> Hf]).
    destruct (H5 Hp) as (Hreg & Ht & Hr). unfold fireReconnect. cbn. rewrite Hreg, Z.eqb_refl. cbn. rewrite decide_True by done.
    split_and!; [|done..|].
    + split; cbn; rewrite ?Hp, ?Hreg, ?Hr in *; done.
    + intros n [ [= ->] | []%elem_of_nil]%elem_of_cons. done.
Qed.

Lemma watch_inv x w : watcher_inv w → watcher_inv (watch x w).1.
Proof.
  intros Hi%(tick_inv _ x.1). unfold watch. set (w1 := put_now _ w) in *. destruct x.2; cbn [watch_now fst].
  - by apply start_inv.
  - by apply stop_inv.
  - destruct (w_registered w1) eqn:E; [|done]. by apply event_inv.
  - destruct (w_registered w1) eqn:E; [|done]. by apply event_inv.
  - destruct (w_queue w1) as [|[due r] q] eqn:E; [done|]. destruct (Z.leb_spec due (w_now w1)); [|done].
    pose proof (timer_inv w1 due r q Hi E ltac:(done)) as Ht. destruct (run_runnable _ _). apply Ht.
Qed.

Lemma watch_all_inv l w : watcher_inv w → watcher_inv (watch_all l w).
Proof. revert w. induction l as [|x l IH]; intros w Hi; [done|]. by apply IH, watch_inv. Qed.

(** The timers that are due are run. *)
Lemma timers_run m w :
  watcher_inv w → Forall (λ x, x.1 ≤ w_now w) (w_queue w) → (length (w_queue w) ≤ m)%nat →
  let w' := watch_all (replicate m (0%nat, WTimer)) w in
  watcher_inv w' ∧ w_queue w' = [] ∧ w_registered w' = w_registered w ∧ un_current (w_state w') = un_current (w_state w).
Proof.
  revert w. induction m as [|m IH]; intros w Hi Hd Hm; [destruct (w_queue w) eqn:E; cbn in *; [by rewrite E|lia]|].
  assert (watch (0%nat, WTimer) w = watch_now WTimer w) as Ew.
  { unfold watch. cbn [fst snd]. f_equal. destruct w. unfold put_now. cbn. f_equal. lia. }
  change (watch_all (replicate (S m) (0%nat, WTimer)) w) with (watch_all (replicate m (0%nat, WTimer)) (watch (0%nat, WTimer) w).1).
  rewrite Ew. cbn [watch_now].
  destruct (w_queue w) as [|[due r] q] eqn:E; [apply IH; [done|by rewrite E|by rewrite E; cbn; lia]|].
  apply Forall_cons_1 in Hd as [Hdue Hd]. cbn [fst] in Hdue. rewrite (proj2 (Z.leb_le _ _) Hdue).
  pose proof (timer_inv w due r q Hi E Hdue) as Ht. destruct (run_runnable r _) as [w1 calls]. destruct Ht as (H1 & (H2 & H3 & H4) & H5 & _).
  cbn [fst]. rewrite <- H4, <- H5. apply IH; [done|by rewrite H2, H3|]. rewrite H2. cbn in Hm. lia.
Qed.
End Invariant.

(** ** Theorem *)

(** C39: The watcher reports network changes once they have settled.  Whatever
    Android selects and loses, and whenever the watcher is started and
    stopped: a reconnect is reported only for the network that is selected,
    only if the native client was last told another, and only when the
    selection has not changed for two seconds.  If then for two seconds
    nothing changes and the timers run, the native client has been told the
    network that is selected. *)
Theorem network_watcher_settles {K} `{EqDecision K} (initial : option K) inputs :
  let w := watch_all inputs (Watcher_new initial) in
  (∀ x w' calls n, watch x w = (w', calls) → Reconnect n ∈ calls →
     n = un_current (w_state w) ∧ (∃ m, w_told w = Some m ∧ m ≠ n) ∧ w_told w' = Some n ∧
     w_changed w + RECONNECT_DEBOUNCE_MS ≤ w_now w') ∧
  (w_registered w = true → ∀ dt m, RECONNECT_DEBOUNCE_MS ≤ Z.of_nat dt → (length (w_queue w) ≤ m)%nat →
     let w' := watch_all ((dt, WTimer) :: replicate m (0%nat, WTimer)) w in
     un_current (w_state w') = un_current (w_state w) ∧ w_told w' = Some (un_current (w_state w))).
Proof.
  intros w. pose proof (watch_all_inv inputs _ (watcher_new_inv initial)) as Hi. fold w in Hi. clearbody w. split.
  - intros x w' calls n E Hin. unfold watch in E. pose proof (tick_inv w x.1 Hi) as Ht. set (w1 := put_now _ w) in *.
    destruct x.2 as [a| |k|k|]; cbn [watch_now] in E.
    + injection E as <- <-. by apply elem_of_nil in Hin.
    + injection E as <- <-. by apply elem_of_nil in Hin.
    + destruct (w_registered w1) eqn:Er; [|injection E as <- <-; by apply elem_of_nil in Hin].
      destruct (event_inv (Selected k) w1 Ht Er eq_refl) as (_ & _ & _ & Hn). rewrite E in Hn. by apply Hn in Hin.
    + destruct (w_registered w1) eqn:Er; [|injection E as <- <-; by apply elem_of_nil in Hin].
      destruct (event_inv (Lost k) w1 Ht Er eq_refl) as (_ & _ & _ & Hn). rewrite E in Hn. by apply Hn in Hin.
    + destruct (w_queue w1) as [|[due r] q] eqn:Eq; [injection E as <- <-; by apply elem_of_nil in Hin|].
      destruct (Z.leb_spec due (w_now w1)) as [Hdue|]; [|injection E as <- <-; by apply elem_of_nil in Hin].
      pose proof (timer_inv w1 due r q Ht Eq Hdue) as Hr. rewrite E in Hr. destruct Hr as (_ & (_ & Hnow & _) & _ & Hr).
      destruct (Hr n Hin) as (-> & H1 & H2 & H3 & H4). split_and!; [done|by eexists|done|]. change (w_changed w1) with (w_changed w) in H4. lia.
  - intros Hreg dt m Hdt Hm w'. set (w1 := put_now (w_now w + Z.of_nat dt) w).
    assert (w' = watch_all (replicate (S m) (0%nat, WTimer)) w1) as ->.
    { subst w'. cbn [replicate watch_all foldl]. f_equal. unfold watch. cbn [fst snd w1 put_now w_now].
      by replace (w_now w + Z.of_nat dt + Z.of_nat 0) with (w_now w + Z.of_nat dt) by lia. }
    destruct (timers_run (S m) w1) as ([_ _ Hp Hpr Hpd _] & Hq & Hr & Hc); [by apply tick_inv| |cbn; lia|].
    { eapply Forall_impl; [exact (wi_due _ Hi)|]. cbn. lia. }
    set (w2 := watch_all _ w1) in *. rewrite Hq, Hr in *. change (w_registered w1) with (w_registered w) in *. rewrite Hreg in *.
    change (un_current (w_state w1)) with (un_current (w_state w)) in Hc. split; [done|].
    destruct (un_primed (w_state w2)); cbn in Hpr; [|by destruct Hpr]. destruct (Hpd eq_refl) as (_ & -> & _). rewrite <- Hc.
    destruct (w_pendingReconnect w2); [by destruct Hp as (_ & _ & _ & ?)|]. f_equal. symmetry. by apply Hp.
Qed.
