(* ===== verification/VpnStatus.v ===== *)
(** * The status of the VPN in the Android app
      ([android/.../vpn/VpnStatus.kt])

    Events of the native client ([slt-client/src/runtime/observer.rs]) and
    calls of the platform are reduced to one state for the user interface.  A
    stopped or failed VPN stays so until the next start, whatever events are
    still on their way; the other states follow the events. *)

From stdpp Require Import base tactics option list numbers.
From Stdlib Require Import ZArith Lia.
From S2P Require Import Prelude.

(** ** Events ([ClientEvent], [ClientEventKind])

    The sequence number of an event and the reason of a change of transport
    are left out; nothing reads them. *)
Inductive Transport := TrTcp | TrUdpQsp.

Inductive ClientEventKind :=
  | EkStarting
  | EkTunReady
  | EkStopping
  | EkStopped
  | EkError (detail : bytes) (retryable : bool)
  | EkConnecting (attempt : Z)
  | EkConnectedTcp (peer : option bytes)
  | EkAuthenticating
  | EkAuthenticated
  | EkReconnectScheduled (attempt delay_ms : Z)
  | EkReconnectFailed (attempt : Z) (detail : bytes)
  | EkUdpDiscoveryStarted
  | EkUdpDiscoveryFailed (detail : bytes)
  | EkUdpRegisterStarted
  | EkUdpRegistered
  | EkUdpRegisterFailed (detail : bytes)
  | EkUdpUpgradeStarted (upgrade_id : Z)
  | EkUdpPathValidated (upgrade_id : Z)
  | EkUdpSwitchCommitted (upgrade_id : Z)
  | EkTransportChanged (from to : Transport)
  | EkNetworkChanged (detail : bytes)
  | EkUdpPathRefreshStarted
  | EkUdpPathRefreshSucceeded
  | EkUdpPathRefreshFailed (detail : bytes).

Record ClientEvent := mkEvent { ev_handle : Z; ev_transport : option Transport; ev_kind : ClientEventKind }.

(** ** State *)
Inductive VpnStatus :=
  | VsIdle | VsPermissionRequired | VsStarting | VsRunning | VsReconnecting | VsHandoff | VsStopped | VsError.
#[export] Instance VpnStatus_eq_dec : EqDecision VpnStatus.
Proof. solve_decision. Defined.

Inductive VpnPhase :=
  | VpIdle | VpStarting | VpConnectingTcp | VpAuthenticating | VpConnected | VpUdpDiscovering | VpUdpRegistering
  | VpUdpUpgrading | VpReconnecting | VpNetworkHandoff | VpStopping | VpStopped | VpError.
#[export] Instance VpnPhase_eq_dec : EqDecision VpnPhase.
Proof. solve_decision. Defined.

Record VpnUiState := mkUi {
  ui_status : VpnStatus;
  ui_phase : VpnPhase;
  ui_transport : option Transport;
  ui_reconnectAttempt : option Z;
  ui_reconnectDelayMs : option Z;
  ui_lastError : option bytes;
}.

(** The defaults of [VpnUiState]. *)
Definition ui (status : VpnStatus) (phase : VpnPhase) (lastError : option bytes) : VpnUiState :=
  mkUi status phase None None None lastError.

Inductive NativeTerminal := TNone | TStopped | TErrored (retryable : bool).

(** ** Copies with changed fields *)
Definition with_status st (s : VpnUiState) : VpnUiState :=
  mkUi st (ui_phase s) (ui_transport s) (ui_reconnectAttempt s) (ui_reconnectDelayMs s) (ui_lastError s).
Definition with_phase ph (s : VpnUiState) : VpnUiState :=
  mkUi (ui_status s) ph (ui_transport s) (ui_reconnectAttempt s) (ui_reconnectDelayMs s) (ui_lastError s).
Definition with_transport t (s : VpnUiState) : VpnUiState :=
  mkUi (ui_status s) (ui_phase s) t (ui_reconnectAttempt s) (ui_reconnectDelayMs s) (ui_lastError s).
Definition with_attempt a (s : VpnUiState) : VpnUiState :=
  mkUi (ui_status s) (ui_phase s) (ui_transport s) a (ui_reconnectDelayMs s) (ui_lastError s).
Definition with_delay d (s : VpnUiState) : VpnUiState :=
  mkUi (ui_status s) (ui_phase s) (ui_transport s) (ui_reconnectAttempt s) d (ui_lastError s).
Definition with_error e (s : VpnUiState) : VpnUiState :=
  mkUi (ui_status s) (ui_phase s) (ui_transport s) (ui_reconnectAttempt s) (ui_reconnectDelayMs s) e.

Definition withStatusHeld (s : VpnUiState) : VpnUiState := if decide (ui_status s = VsIdle) then with_status VsStarting s else s.
Definition recoveredStatus (s : VpnUiState) : VpnStatus := if decide (ui_status s = VsHandoff) then VsRunning else ui_status s.
Definition recovered (s : VpnUiState) : VpnUiState := with_status (recoveredStatus s) s.

(** ** [SltVpnStatusBus] *)
Definition is_terminal (st : VpnStatus) : bool := match st with VsStopped | VsError => true | _ => false end.

Definition reduce (event : ClientEvent) (current : VpnUiState) : VpnUiState :=
  match ev_kind event with
  | EkStarting => ui VsStarting VpStarting None
  | EkTunReady => with_phase VpStarting (withStatusHeld current)
  | EkConnecting _ => with_delay None (with_phase VpConnectingTcp (withStatusHeld current))
  | EkConnectedTcp _ => with_phase VpConnectingTcp (withStatusHeld current)
  | EkAuthenticating => with_phase VpAuthenticating (withStatusHeld current)
  | EkAuthenticated =>
      with_delay None (with_attempt None (with_transport (ev_transport event) (with_phase VpConnected (with_status VsRunning current))))
  | EkReconnectScheduled attempt delay_ms =>
      with_delay (Some delay_ms) (with_attempt (Some attempt) (with_phase VpReconnecting (with_status VsReconnecting current)))
  | EkReconnectFailed attempt detail =>
      with_error (Some detail) (with_attempt (Some attempt) (with_phase VpReconnecting (with_status VsReconnecting current)))
  | EkTransportChanged _ _ => with_transport (ev_transport event) (recovered current)
  | EkNetworkChanged _ => with_phase VpNetworkHandoff (with_status VsHandoff current)
  | EkUdpDiscoveryStarted => with_phase VpUdpDiscovering (recovered current)
  | EkUdpDiscoveryFailed detail => with_error (Some detail) (with_phase VpConnected (recovered current))
  | EkUdpRegisterStarted => with_phase VpUdpRegistering (recovered current)
  | EkUdpRegistered => with_phase VpUdpUpgrading (recovered current)
  | EkUdpRegisterFailed detail => with_error (Some detail) (with_phase VpConnected (recovered current))
  | EkUdpUpgradeStarted _ => with_phase VpUdpUpgrading (recovered current)
  | EkUdpPathValidated _ => with_phase VpUdpUpgrading (recovered current)
  | EkUdpSwitchCommitted _ => with_transport (ev_transport event) (with_phase VpConnected (recovered current))
  | EkUdpPathRefreshStarted => with_phase VpNetworkHandoff (with_status VsHandoff current)
  | EkUdpPathRefreshSucceeded => with_phase VpConnected (with_status VsRunning current)
  | EkUdpPathRefreshFailed detail => with_error (Some detail) (with_phase VpNetworkHandoff (with_status VsHandoff current))
  | EkStopping => with_phase VpStopping current
  | EkStopped => ui VsStopped VpStopped None
  | EkError detail true => with_error (Some detail) (with_phase VpReconnecting (with_status VsReconnecting current))
  | EkError detail false => with_error (Some detail) (with_phase VpError (with_status VsError current))
  end.

Definition applyEvent (event : ClientEvent) (current : VpnUiState) : VpnUiState * NativeTerminal :=
  if is_terminal (ui_status current) then (current, TNone) else
  (reduce event current,
   match ev_kind event with
   | EkStopped => TStopped
   | EkError _ retryable => TErrored retryable
   | _ => TNone
   end).

Definition markStarting : VpnUiState := ui VsStarting VpStarting None.
Definition markRunningForeground (current : VpnUiState) : VpnUiState :=
  if decide (ui_phase current = VpIdle ∨ ui_phase current = VpConnected)
  then with_phase VpConnected (with_status VsRunning current) else with_status VsRunning current.
Definition markStopped (detail : bytes) : VpnUiState := ui VsStopped VpStopped (Some detail).
Definition markError (detail : bytes) : VpnUiState := ui VsError VpError (Some detail).
Definition markNativeRestartScheduled (detail : bytes) (attempt delayMs : Z) (current : VpnUiState) : VpnUiState :=
  with_error (Some detail) (with_delay (Some delayMs) (with_attempt (Some attempt)
    (with_phase VpReconnecting (with_status VsReconnecting current)))).
Definition markPermissionRequired (detail : option bytes) : VpnUiState := ui VsPermissionRequired VpIdle detail.

(** ** Terminal states *)

(** An event leaves a terminal state alone; otherwise the state becomes
    terminal exactly when the event is reported as the end of the native
    client, apart from errors that are reported as retryable. *)
Lemma applyEvent_terminal event current :
  let '(next, terminal) := applyEvent event current in
  if is_terminal (ui_status current) then next = current ∧ terminal = TNone
  else is_terminal (ui_status next) = match terminal with TNone | TErrored true => false | _ => true end.
Proof.
  unfold applyEvent. destruct (is_terminal (ui_status current)) eqn:E; [done|]. unfold reduce, recovered, recoveredStatus, withStatusHeld.
  destruct event as [h t [] ]; try done; cbn; repeat case_decide; cbn; try done; by destruct retryable.
Qed.

Lemma applyEvent_stopped event current next :
  applyEvent event current = (next, TStopped) → ev_kind event = EkStopped.
Proof. unfold applyEvent. destruct (is_terminal _); [done|]. by destruct (ev_kind event). Qed.
