(* ===== verification/VpnService.v ===== *)
(** * The VPN service of the Android app
      ([android/.../vpn/SltVpnService.kt], [NativeSessionSupervisor.kt],
      [slt-client/src/android/session.rs])

    The service owns the TUN device, the supervisor the native client that
    serves it.  Once the native client has authenticated, its failures must
    not take the device down, or packets would leave the phone beside the VPN:
    the supervisor starts the client again, later and later.

    All of this runs on the main thread, one callback after the other; native
    clients and their threads post events to it.  An execution is a sequence
    of labels: calls of the platform, resumptions of the coroutine that starts
    the VPN, posted events, timers and network changes, and what other threads
    do to the shared state.  How the calls to the platform end is part of a
    label.  Notifications and the publication of networks to Android are left
    out. *)

From Stdlib Require Import Ascii String.
From stdpp Require Import base tactics option list numbers gmap sets.
From Stdlib Require Import ZArith Lia.
From S2P Require Import Prelude Effects Config AddClient NetworkWatcher VpnStatus.

(** ** Native sessions ([slt-client/src/android/session.rs]) *)
Record NativeSessionConfig := mkNativeConfig { nc_clientToml : bytes; nc_tunFd : Z; nc_tunMtu : Z }.

(** [NEXT_HANDLE], and the sessions that have been started with whether they
    have been told to stop. *)
Record Native := mkNative { nt_next_handle : Z; nt_sessions : gmap Z bool }.
Definition Native_new : Native := mkNative 1 ∅.

Definition validate_android_mtu (mtu config_mtu : Z) : bool :=
  if negb ((0 <=? mtu) && (mtu <? 2 ^ 16)) then false else
  if mtu =? 0 then false else mtu =? config_mtu.

(** Whether the Tokio runtime and the thread could be created. *)
Record StartAnswer := mkStart { sa_runtime : bool; sa_thread : bool }.

Inductive SltInteropError := InvalidArgument | InvalidConfig | SessionStart.

Section Start.
Context `{T : Toml}.

Definition start_session (answer : StartAnswer) (c : NativeSessionConfig) (n : Native) : Native * res SltInteropError Z :=
  if nc_tunFd c <? 0 then (n, Err InvalidArgument) else
  match ClientConfig_from_toml_str (nc_clientToml c) with
  | None => (n, Err InvalidConfig)
  | Some config =>
      if negb (validate_android_mtu (nc_tunMtu c) (tun_mtu (cc_tun config))) then (n, Err InvalidArgument) else
      if negb (sa_runtime answer) then (n, Err SessionStart) else
      let handle := nt_next_handle n in
      let n := mkNative ((handle + 1) mod 2 ^ 64) (nt_sessions n) in
      if handle =? 0 then (n, Err SessionStart) else
      if negb (sa_thread answer) then (n, Err SessionStart) else
      (mkNative (nt_next_handle n) (<[handle := false]> (nt_sessions n)), Ok handle)
  end.
End Start.

(** [NativeSession::handle], and [ULong.toLong] of the handle of an event *)
Definition exported_handle (handle : Z) : Z := if handle <? 2 ^ 63 then handle else 2 ^ 63 - 1.
Definition to_long (handle : Z) : Z := if handle <? 2 ^ 63 then handle else handle - 2 ^ 64.

(** ** State *)
Record Supervisor := mkSupervisor {
  su_nativeSession : option Z;
  su_nativeHandle : Z;
  su_restartConfig : option NativeSessionConfig;
  su_nativeRestartAttempt : Z;
  su_failClosedArmed : bool;
}.
Definition Supervisor_new : Supervisor := mkSupervisor None 0 None 0 false.

Inductive SocketKind := SkTcp | SkUdp.
#[export] Instance SocketKind_eq_dec : EqDecision SocketKind.
Proof. solve_decision. Defined.

Definition Network := Z.

(** [map + (kind to network)], in the order of insertion. *)
Fixpoint map_plus (kind : SocketKind) (network : Network) (m : list (SocketKind * Network)) : list (SocketKind * Network) :=
  match m with
  | [] => [(kind, network)]
  | (k, n) :: m => if decide (k = kind) then (k, network) :: m else (k, n) :: map_plus kind network m
  end.

Record ActiveTunnel := mkTunnel {
  at_fd : Z;
  at_clientToml : bytes;
  at_tunMtu : Z;
  at_underlyingNetwork : option Network;
  at_boundUnderlyingNetworks : list (SocketKind * Network);
}.

(** Where [startVpnAsync] is suspended: not yet dispatched, in
    [loadActiveProfile], or in [initialSelection.await], with what it was
    completed with. *)
Inductive start_job :=
  | JDispatched
  | JLoading
  | JSelecting (config : NativeSessionConfig) (selection : option (option Network)).

(** [sv_restarts] are the delays of the posted [nativeRestartRunnable]s and
    [sv_events] the posted events.  [sv_notices] are the sessions that were told
    of a network change, [sv_fds] the TUN descriptors that are open, and
    [sv_alive] is whether the service exists, for the theorems. *)
Record Svc := mkSvc {
  sv_sup : Supervisor;
  sv_native : Native;
  sv_bus : VpnUiState;
  sv_events : list ClientEvent;
  sv_restarts : list Z;
  sv_tunnel : option ActiveTunnel;
  sv_tornDown : bool;
  sv_terminalStatusReported : bool;
  sv_job : option start_job;
  sv_watcher : option (Watcher Network);
  sv_notices : list Z;
  sv_fds : gset Z;
  sv_alive : bool;
}.
Implicit Type s : Svc.

Definition Svc_new : Svc :=
  mkSvc Supervisor_new Native_new (ui VsIdle VpIdle None) [] [] None false false None None [] ∅ true.

Definition put_sup (x : Supervisor) s : Svc :=
  mkSvc x (sv_native s) (sv_bus s) (sv_events s) (sv_restarts s) (sv_tunnel s) (sv_tornDown s) (sv_terminalStatusReported s) (sv_job s) (sv_watcher s) (sv_notices s) (sv_fds s) (sv_alive s).
Definition put_native (x : Native) s : Svc :=
  mkSvc (sv_sup s) x (sv_bus s) (sv_events s) (sv_restarts s) (sv_tunnel s) (sv_tornDown s) (sv_terminalStatusReported s) (sv_job s) (sv_watcher s) (sv_notices s) (sv_fds s) (sv_alive s).
Definition put_bus (x : VpnUiState) s : Svc :=
  mkSvc (sv_sup s) (sv_native s) x (sv_events s) (sv_restarts s) (sv_tunnel s) (sv_tornDown s) (sv_terminalStatusReported s) (sv_job s) (sv_watcher s) (sv_notices s) (sv_fds s) (sv_alive s).
Definition put_events (x : list ClientEvent) s : Svc :=
  mkSvc (sv_sup s) (sv_native s) (sv_bus s) x (sv_restarts s) (sv_tunnel s) (sv_tornDown s) (sv_terminalStatusReported s) (sv_job s) (sv_watcher s) (sv_notices s) (sv_fds s) (sv_alive s).
Definition put_restarts (x : list Z) s : Svc :=
  mkSvc (sv_sup s) (sv_native s) (sv_bus s) (sv_events s) x (sv_tunnel s) (sv_tornDown s) (sv_terminalStatusReported s) (sv_job s) (sv_watcher s) (sv_notices s) (sv_fds s) (sv_alive s).
Definition put_tunnel (x : option ActiveTunnel) s : Svc :=
  mkSvc (sv_sup s) (sv_native s) (sv_bus s) (sv_events s) (sv_restarts s) x (sv_tornDown s) (sv_terminalStatusReported s) (sv_job s) (sv_watcher s) (sv_notices s) (sv_fds s) (sv_alive s).
Definition put_tornDown (x : bool) s : Svc :=
  mkSvc (sv_sup s) (sv_native s) (sv_bus s) (sv_events s) (sv_restarts s) (sv_tunnel s) x (sv_terminalStatusReported s) (sv_job s) (sv_watcher s) (sv_notices s) (sv_fds s) (sv_alive s).
Definition put_terminalStatusReported (x : bool) s : Svc :=
  mkSvc (sv_sup s) (sv_native s) (sv_bus s) (sv_events s) (sv_restarts s) (sv_tunnel s) (sv_tornDown s) x (sv_job s) (sv_watcher s) (sv_notices s) (sv_fds s) (sv_alive s).
Definition put_job (x : option start_job) s : Svc :=
  mkSvc (sv_sup s) (sv_native s) (sv_bus s) (sv_events s) (sv_restarts s) (sv_tunnel s) (sv_tornDown s) (sv_terminalStatusReported s) x (sv_watcher s) (sv_notices s) (sv_fds s) (sv_alive s).
Definition put_watcher (x : option (Watcher Network)) s : Svc :=
  mkSvc (sv_sup s) (sv_native s) (sv_bus s) (sv_events s) (sv_restarts s) (sv_tunnel s) (sv_tornDown s) (sv_terminalStatusReported s) (sv_job s) x (sv_notices s) (sv_fds s) (sv_alive s).
Definition put_notices (x : list Z) s : Svc :=
  mkSvc (sv_sup s) (sv_native s) (sv_bus s) (sv_events s) (sv_restarts s) (sv_tunnel s) (sv_tornDown s) (sv_terminalStatusReported s) (sv_job s) (sv_watcher s) x (sv_fds s) (sv_alive s).
Definition put_fds (x : gset Z) s : Svc :=
  mkSvc (sv_sup s) (sv_native s) (sv_bus s) (sv_events s) (sv_restarts s) (sv_tunnel s) (sv_tornDown s) (sv_terminalStatusReported s) (sv_job s) (sv_watcher s) (sv_notices s) x (sv_alive s).
Definition put_alive (x : bool) s : Svc :=
  mkSvc (sv_sup s) (sv_native s) (sv_bus s) (sv_events s) (sv_restarts s) (sv_tunnel s) (sv_tornDown s) (sv_terminalStatusReported s) (sv_job s) (sv_watcher s) (sv_notices s) (sv_fds s) x.

Definition put_session (session : option Z) (handle : Z) s : Svc :=
  let u := sv_sup s in
  put_sup (mkSupervisor session handle (su_restartConfig u) (su_nativeRestartAttempt u) (su_failClosedArmed u)) s.
Definition put_restartConfig (c : option NativeSessionConfig) s : Svc :=
  let u := sv_sup s in
  put_sup (mkSupervisor (su_nativeSession u) (su_nativeHandle u) c (su_nativeRestartAttempt u) (su_failClosedArmed u)) s.
Definition put_attempt (n : Z) s : Svc :=
  let u := sv_sup s in
  put_sup (mkSupervisor (su_nativeSession u) (su_nativeHandle u) (su_restartConfig u) n (su_failClosedArmed u)) s.
Definition put_armed (b : bool) s : Svc :=
  let u := sv_sup s in
  put_sup (mkSupervisor (su_nativeSession u) (su_nativeHandle u) (su_restartConfig u) (su_nativeRestartAttempt u) b) s.

(** [Int] arithmetic *)
Definition int_wrap (n : Z) : Z := (n + 2 ^ 31) mod 2 ^ 32 - 2 ^ 31.
Definition int_to_ulong (n : Z) : Z := if n <? 0 then n + 2 ^ 64 else n.

(** ** [NativeSessionSupervisor] *)
Definition INITIAL_NATIVE_RESTART_DELAY_MS : Z := 1000.
Definition MAX_NATIVE_RESTART_DELAY_MS : Z := 60000.
Definition MAX_NATIVE_RESTART_SHIFT : Z := 6.

Definition nativeRestartDelayMs (attempt : Z) : Z :=
  let shift := Z.max 0 (Z.min (int_wrap (attempt - 1)) MAX_NATIVE_RESTART_SHIFT) in
  Z.min (INITIAL_NATIVE_RESTART_DELAY_MS * 2 ^ shift) MAX_NATIVE_RESTART_DELAY_MS.

Inductive NativeTerminalAction := RestartKeepingTunnel | TearDownTunnel.
Definition nativeTerminalAction (retryable failClosedArmed : bool) : NativeTerminalAction :=
  if retryable || failClosedArmed then RestartKeepingTunnel else TearDownTunnel.

Section Service.
Context `{T : Toml}.
(** Whether stopping a native session throws, and the message of an error. *)
Variable stop_throws : Z → bool.
Variable error_message : SltInteropError → bytes.

Definition stopNativeClient s : Svc :=
  let session := su_nativeSession (sv_sup s) in
  let s := put_session None 0 s in
  match session with
  | None => s
  | Some h =>
      if stop_throws h then s
      else put_native (mkNative (nt_next_handle (sv_native s)) (<[h := true]> (nt_sessions (sv_native s)))) s
  end.

Definition cancelRestart s : Svc := put_attempt 0 (put_restarts [] s).

(** [startSession]; what it throws is returned. *)
Definition startSession (answer : StartAnswer) (c : NativeSessionConfig) s : Svc * option SltInteropError :=
  match start_session answer c (sv_native s) with
  | (n, Ok h) => (put_session (Some h) (exported_handle h) (put_native n s), None)
  | (n, Err e) => (put_native n s, Some e)
  | (n, Panic) => (put_native n s, Some SessionStart)
  end.

Definition supervisor_start (answer : StartAnswer) (c : NativeSessionConfig) s : Svc * option SltInteropError :=
  startSession answer c (put_restartConfig (Some c) (put_armed false (cancelRestart s))).

Definition supervisor_stop s : Svc := stopNativeClient (put_restartConfig None (put_armed false (cancelRestart s))).

(** ** [SltVpnService]: the end of a tunnel *)
(** [ParcelFileDescriptor.close] is taken to succeed. *)
Definition closeTunFd s : Svc :=
  match sv_tunnel s with
  | None => s
  | Some t => put_fds (sv_fds s ∖ {[at_fd t]}) (put_tunnel None s)
  end.

Definition teardown s : Svc :=
  if sv_tornDown s then s else closeTunFd (supervisor_stop (put_watcher None (put_tornDown true s))).

Definition teardownAndStopSelf s : Svc := put_terminalStatusReported true (teardown s).

Definition failVpn (message : bytes) s : Svc := teardownAndStopSelf (put_bus (markError message) s).

Definition stopVpn (detail : bytes) s : Svc :=
  put_terminalStatusReported true (teardown (put_bus (markStopped detail) (put_job None s))).

(** The [Callbacks] of the supervisor *)
Definition onStopped s : Svc := teardownAndStopSelf s.
Definition onFatalError (detail : bytes) s : Svc :=
  teardownAndStopSelf (if decide (ui_status (sv_bus s) ≠ VsError) then put_bus (markError detail) s else s).
Definition onRetryScheduled (detail : bytes) (attempt delayMs : Z) s : Svc :=
  put_bus (markNativeRestartScheduled detail (int_to_ulong attempt) delayMs (sv_bus s)) s.

(** ** [NativeSessionSupervisor]: events and restarts *)
Definition error_detail (kind : ClientEventKind) : bytes :=
  match kind with EkError detail _ => detail | _ => bytes_of_string "Native client error" end.

Definition scheduleNativeRestartAfterError (event : ClientEvent) s : Svc :=
  let detail := error_detail (ev_kind event) in
  let s := stopNativeClient s in
  match su_restartConfig (sv_sup s) with
  | None => onFatalError (bytes_of_string "VPN tunnel unavailable after native error: " ++ detail) s
  | Some _ =>
      let s := put_attempt (int_wrap (su_nativeRestartAttempt (sv_sup s) + 1)) s in
      let delayMs := nativeRestartDelayMs (su_nativeRestartAttempt (sv_sup s)) in
      let s := onRetryScheduled detail (su_nativeRestartAttempt (sv_sup s)) delayMs s in
      let s := put_restarts [] s in
      put_restarts (sv_restarts s ++ [delayMs]) s
  end.

Definition is_authenticated (kind : ClientEventKind) : bool := match kind with EkAuthenticated => true | _ => false end.

Definition handleNativeEvent (event : ClientEvent) s : Svc :=
  let '(bus, terminal) := applyEvent event (sv_bus s) in
  let s := put_bus bus s in
  let s := match terminal with
           | TNone => s
           | TStopped => onStopped s
           | TErrored retryable =>
               match nativeTerminalAction retryable (su_failClosedArmed (sv_sup s)) with
               | RestartKeepingTunnel => scheduleNativeRestartAfterError event s
               | TearDownTunnel => onFatalError (error_detail (ev_kind event)) s
               end
           end in
  if is_authenticated (ev_kind event) then put_attempt 0 (put_armed true s) else s.

(** What [onEvent] posts. *)
Definition onEvent (event : ClientEvent) s : Svc :=
  if negb (to_long (ev_handle event) =? su_nativeHandle (sv_sup s)) then s else handleNativeEvent event s.

Definition restartNativeSessionAfterTerminalError (answer : StartAnswer) s : Svc :=
  match su_nativeSession (sv_sup s), su_restartConfig (sv_sup s) with
  | Some _, _ => s
  | None, None => onFatalError (bytes_of_string "VPN tunnel unavailable before native restart") s
  | None, Some config =>
      match startSession answer config s with
      | (s, None) => s
      | (s, Some e) => onFatalError (error_message e) s
      end
  end.

(** ** [SltVpnService]: the start of a tunnel *)
Definition publishUnderlyingNetworkIfActive (network : option Network) s : Svc * bool :=
  match sv_tunnel s with
  | Some t =>
      if sv_tornDown s then (s, false)
      else (put_tunnel (Some (mkTunnel (at_fd t) (at_clientToml t) (at_tunMtu t) network (at_boundUnderlyingNetworks t))) s, true)
  | None => (s, false)
  end.

Definition recordSocketBinding (kind : SocketKind) (network : Network) s : Svc :=
  match sv_tunnel s with
  | Some t =>
      if sv_tornDown s then s
      else put_tunnel (Some (mkTunnel (at_fd t) (at_clientToml t) (at_tunMtu t) (at_underlyingNetwork t)
             (map_plus kind network (at_boundUnderlyingNetworks t)))) s
  | None => s
  end.

Definition notifyNetworkChanged (network : option Network) s : Svc :=
  let '(s, published) := publishUnderlyingNetworkIfActive network s in
  if published then
    match su_nativeSession (sv_sup s) with
    | None => s
    | Some h => put_notices (h :: sv_notices s) s
    end
  else s.

Definition keeps_status (st : VpnStatus) : bool := match st with VsReconnecting | VsStarting | VsHandoff => true | _ => false end.

(** [throws]: what [startForeground] throws. *)
Definition startVpn (throws : option bytes) s : Svc :=
  let s := put_terminalStatusReported false s in
  match sv_tunnel s, sv_job s with
  | None, None =>
      let s := put_bus markStarting (put_tornDown false s) in
      match throws with None => put_job (Some JDispatched) s | Some message => failVpn message s end
  | _, _ => if keeps_status (ui_status (sv_bus s)) then s else put_bus (markRunningForeground (sv_bus s)) s
  end.

(** What [startVpnAsync] meets from the profile to the watcher: something
    throws (there is no profile, it is not valid, the builder fails), Android
    returns no descriptor, there is no network, or all goes well. *)
Inductive Established :=
  | EsThrows (message : bytes)
  | EsNoFd
  | EsNoNetwork
  | EsTunnel (fd : Z) (clientToml : bytes) (tunMtu : Z) (network : Network) (watching : registration).

Definition no_network : bytes := bytes_of_string "No non-VPN network available; stop the other VPN and try again".

Definition job_establish (e : Established) s : Svc :=
  match e with
  | EsThrows message => put_job None (failVpn message s)
  | EsNoFd => put_job None (failVpn (bytes_of_string "Android did not return a TUN fd") s)
  | EsNoNetwork => put_job None (failVpn no_network s)
  | EsTunnel fd clientToml tunMtu network watching =>
      let s := put_fds (sv_fds s ∪ {[fd]}) s in
      let s := put_tunnel (Some (mkTunnel fd clientToml tunMtu (Some network) [])) s in
      let s := put_watcher (Some (watcher_start watching (Watcher_new (Some network)))) s in
      put_job (Some (JSelecting (mkNativeConfig clientToml fd tunMtu) None)) s
  end.

(** After [initialSelection.await]. *)
Definition job_selected (answer : StartAnswer) (config : NativeSessionConfig) (selected : option Network) s : Svc :=
  put_job None
    match selected with
    | None => failVpn no_network s
    | Some network =>
        let s := (publishUnderlyingNetworkIfActive (Some network) s).1 in
        match supervisor_start answer config s with
        | (s, None) => s
        | (s, Some e) => failVpn (error_message e) s
        end
    end.

(** A call of the watcher. *)
Definition watcher_called (c : watcher_call Network) s : Svc :=
  match c with
  | InitialChanged network => (publishUnderlyingNetworkIfActive network s).1
  | SelectionReady network =>
      match sv_job s with
      | Some (JSelecting config None) => put_job (Some (JSelecting config (Some network))) s
      | _ => s
      end
  | Reconnect network => notifyNetworkChanged network s
  end.

Definition onDestroy s : Svc :=
  let s := if sv_terminalStatusReported s then teardown s else stopVpn (bytes_of_string "Service destroyed") s in
  put_alive false (put_job None s).

(** A new service object; the status is global, and so are the native sessions
    and the queue of the main looper. *)
Definition onCreate s : Svc :=
  mkSvc Supervisor_new (sv_native s) (sv_bus s) (sv_events s) [] None false false None None (sv_notices s) (sv_fds s) true.

(** ** Executions *)
Inductive label :=
  | LCreate
  | LStart (throws : option bytes)
  | LStop
  | LRevoke
  | LDestroy
  | LJobRun
  | LJobEstablish (e : Established)
  | LJobSelected (answer : StartAnswer)
  | LNativeEvent (handle : Z) (transport : option Transport) (kind : ClientEventKind)
  | LEvent
  | LRestart (answer : StartAnswer)
  | LNetwork (delay : nat) (input : watcher_input Network)
  | LBound (kind : SocketKind) (network : Network)
  | LResolved (network : option Network)
  | LPermission (detail : option bytes).

Definition from_outside (i : watcher_input Network) : bool := match i with WStart _ | WStop => false | _ => true end.

(** One label; [None] when it cannot happen. *)
Definition svc_do (l : label) s : option Svc :=
  match l with
  | LCreate => if sv_alive s then None else Some (onCreate s)
  | LStart throws => if sv_alive s then Some (startVpn throws s) else None
  | LStop => if sv_alive s then Some (stopVpn (bytes_of_string "Stopped") s) else None
  | LRevoke => if sv_alive s then Some (stopVpn (bytes_of_string "Permission revoked") s) else None
  | LDestroy => if sv_alive s then Some (onDestroy s) else None
  | LJobRun => match sv_job s with Some JDispatched => Some (put_job (Some JLoading) s) | _ => None end
  | LJobEstablish e => match sv_job s with Some JLoading => Some (job_establish e s) | _ => None end
  | LJobSelected answer =>
      match sv_job s with Some (JSelecting config (Some selected)) => Some (job_selected answer config selected s) | _ => None end
  | LNativeEvent h transport kind =>
      match nt_sessions (sv_native s) !! h with
      | Some _ => Some (put_events (sv_events s ++ [mkEvent h transport kind]) s)
      | None => None
      end
  | LEvent => match sv_events s with event :: events => Some (onEvent event (put_events events s)) | [] => None end
  | LRestart answer =>
      match sv_restarts s with
      | _ :: restarts => Some (restartNativeSessionAfterTerminalError answer (put_restarts restarts s))
      | [] => None
      end
  | LNetwork delay input =>
      match sv_watcher s with
      | Some w =>
          if from_outside input then
            let '(w, calls) := watch (delay, input) w in
            Some (foldl (λ s c, watcher_called c s) (put_watcher (Some w) s) calls)
          else None
      | None => None
      end
  | LBound kind network => Some (recordSocketBinding kind network s)
  | LResolved network => Some (publishUnderlyingNetworkIfActive network s).1
  | LPermission detail => Some (put_bus (markPermissionRequired detail) s)
  end.

Fixpoint svc_run (ls : list label) s : option Svc :=
  match ls with
  | [] => Some s
  | l :: ls => match svc_do l s with Some s => svc_run ls s | None => None end
  end.
End Service.

(** ** The invariant *)
Section Invariant.
Context `{T : Toml} (stop_throws : Z → bool) (error_message : SltInteropError → bytes).
Implicit Type t : ActiveTunnel.

(** The native sessions after the supervisor has stopped its own. *)
Definition stopped_native s : Native :=
  match su_nativeSession (sv_sup s) with
  | None => sv_native s
  | Some h =>
      if stop_throws h then sv_native s
      else mkNative (nt_next_handle (sv_native s)) (<[h := true]> (nt_sessions (sv_native s)))
  end.

Lemma stopNativeClient_eq s :
  stopNativeClient stop_throws s = put_native (stopped_native s) (put_session None 0 s).
Proof. unfold stopNativeClient, stopped_native. cbn. destruct (su_nativeSession _) as [h|]; [|done]. by destruct (stop_throws h). Qed.

Lemma teardown_eq s :
  sv_tornDown s = false →
  teardown stop_throws s =
    mkSvc Supervisor_new (stopped_native s) (sv_bus s) (sv_events s) [] None true (sv_terminalStatusReported s) (sv_job s) None
      (sv_notices s) (match sv_tunnel s with Some t => sv_fds s ∖ {[at_fd t]} | None => sv_fds s end) (sv_alive s).
Proof.
  destruct s as [ [session handle rc att armed] native bus events restarts [t|] torn rep job w nots fds al]; cbn [sv_tornDown]; intros ->;
    destruct session as [h|]; unfold teardown, supervisor_stop, stopNativeClient, stopped_native; cbn; try done; by destruct (stop_throws h).
Qed.

(** The configuration has been accepted by [start_session]. *)
Definition config_valid (c : NativeSessionConfig) : Prop :=
  ∀ n, nt_next_handle n ≠ 0 → ∃ h, (start_session (mkStart true true) c n).2 = Ok h.

(** What serves the tunnel [t]. *)
Inductive served s t : Prop :=
  | BySelection c sel :
      sv_job s = Some (JSelecting c sel) → nc_tunFd c = at_fd t → su_nativeSession (sv_sup s) = None → sv_restarts s = [] →
      su_failClosedArmed (sv_sup s) = false → served s t
  | BySession c h :
      sv_job s = None → su_restartConfig (sv_sup s) = Some c → nc_tunFd c = at_fd t → config_valid c →
      su_nativeSession (sv_sup s) = Some h → sv_restarts s = [] → served s t
  | ByRestart c :
      sv_job s = None → su_restartConfig (sv_sup s) = Some c → nc_tunFd c = at_fd t → config_valid c →
      su_nativeSession (sv_sup s) = None → sv_restarts s = [nativeRestartDelayMs (su_nativeRestartAttempt (sv_sup s))] → served s t.

Definition down_status (st : VpnStatus) : Prop := st = VsIdle ∨ st = VsPermissionRequired ∨ st = VsStopped ∨ st = VsError.

Record down s : Prop := mkDown {
  dn_session : su_nativeSession (sv_sup s) = None;
  dn_restarts : sv_restarts s = [];
  dn_armed : su_failClosedArmed (sv_sup s) = false;
  dn_watcher : sv_watcher s = None;
  dn_fds : sv_fds s = ∅;
}.

Definition mode s : Prop :=
  match sv_tunnel s with
  | Some t => served s t ∧ sv_fds s = {[at_fd t]} ∧ sv_alive s = true ∧ sv_tornDown s = false ∧
      is_terminal (ui_status (sv_bus s)) = false
  | None => down s ∧
      match sv_job s with
      | None => down_status (ui_status (sv_bus s)) ∧ (sv_alive s = false → sv_tornDown s = true)
      | Some (JSelecting _ _) => False
      | Some _ => sv_alive s = true ∧ sv_tornDown s = false ∧ is_terminal (ui_status (sv_bus s)) = false
      end
  end.

Record native_inv (n : Z) s : Prop := mkNativeInv {
  ni_handle :
    match su_nativeSession (sv_sup s) with
    | Some h => su_nativeHandle (sv_sup s) = exported_handle h ∧ nt_sessions (sv_native s) !! h = Some false
    | None => su_nativeHandle (sv_sup s) = 0
    end;
  ni_handles : ∀ h b, nt_sessions (sv_native s) !! h = Some b → 0 < h < nt_next_handle (sv_native s);
  ni_next : 0 < nt_next_handle (sv_native s) ≤ 1 + n;
  ni_live : ∀ h, nt_sessions (sv_native s) !! h = Some false → su_nativeSession (sv_sup s) = Some h ∨ stop_throws h = true;
  ni_events : Forall (λ e, is_Some (nt_sessions (sv_native s) !! ev_handle e)) (sv_events s);
}.

Definition svc_inv (n : Z) s : Prop := mode s ∧ native_inv n s.

Lemma svc_new_inv : svc_inv 0 Svc_new.
Proof. split; [split; [done|split; [by left|done] ]|]. split; cbn; try done; intros h; by rewrite lookup_empty. Qed.

(** Parts of the state that the native invariant does not read. *)
Lemma native_inv_eq n s s' :
  su_nativeSession (sv_sup s') = su_nativeSession (sv_sup s) → su_nativeHandle (sv_sup s') = su_nativeHandle (sv_sup s) →
  sv_native s' = sv_native s → sv_events s' = sv_events s → native_inv n s → native_inv n s'.
Proof. intros E0 E1 E2 E3 [H1 H2 H3 H4 H5]. split; rewrite ?E0, ?E1, ?E2, ?E3; done. Qed.

Lemma native_inv_weaken n m s : n ≤ m → native_inv n s → native_inv m s.
Proof. intros Hle [H1 H2 H3 H4 H5]. split; try done. lia. Qed.

(** Stopping the native client. *)
Lemma stopped_inv n s s' :
  su_nativeSession (sv_sup s') = None → su_nativeHandle (sv_sup s') = 0 → sv_native s' = stopped_native s → sv_events s' = sv_events s →
  native_inv n s → native_inv n s'.
Proof.
  intros E1 E2 E3 E4 [H1 H2 H3 H4 H5]. unfold stopped_native in E3.
  destruct (su_nativeSession (sv_sup s)) as [h|] eqn:Es; [destruct (stop_throws h) eqn:Et|].
  - split; rewrite ?E1, ?E2, ?E3, ?E4; try done. intros h' [ [= ->]|Hh]%H4; by right.
  - destruct H1 as [_ H1]. split; rewrite ?E1, ?E2, ?E3, ?E4; cbn; try done.
    + intros h' b. destruct (decide (h' = h)) as [->|]; [|rewrite lookup_insert_ne by done; apply H2]. intros _. by apply (H2 h false).
    + intros h'. destruct (decide (h' = h)) as [->|]; [by rewrite lookup_insert_eq|]. rewrite lookup_insert_ne by done.
      intros [ [= ->]|?]%H4; [done|by right].
    + eapply Forall_impl; [exact H5|]. cbn. intros e He. destruct (decide (ev_handle e = h)) as [->|]; [by rewrite lookup_insert_eq|].
      by rewrite lookup_insert_ne.
  - split; rewrite ?E1, ?E2, ?E3, ?E4; done.
Qed.

(** After a teardown nothing is left. *)
Lemma teardown_ended n s :
  native_inv n s → sv_tornDown s = false → sv_job s = None → sv_fds s = match sv_tunnel s with Some t => {[at_fd t]} | None => ∅ end →
  down_status (ui_status (sv_bus s)) → svc_inv n (teardown stop_throws s) ∧ sv_tunnel (teardown stop_throws s) = None.
Proof.
  intros Hn Et Ej Ef Hst. rewrite teardown_eq by done. split; [|done]. split.
  - cbn. rewrite Ej. split; [|done]. split; cbn; try done. rewrite Ef. destruct (sv_tunnel s); set_solver.
  - by apply (stopped_inv n s).
Qed.

Lemma mode_fds s : mode s → sv_fds s = match sv_tunnel s with Some t => {[at_fd t]} | None => ∅ end.
Proof. unfold mode. destruct (sv_tunnel s); [by intros (_ & ? & _)|by intros [ [] _] ]. Qed.

Lemma mode_torn s : mode s → sv_tornDown s = true → sv_tunnel s = None ∧ sv_job s = None ∧ down s.
Proof.
  unfold mode. destruct (sv_tunnel s); [intros (_ & _ & _ & ? & _); congruence|]. intros [Hd Hj] Et.
  destruct (sv_job s) as [ [] |]; [destruct Hj as (_ & ? & _); congruence..|done|done].
Qed.

(** The tunnel is taken down and the coroutine is cancelled. *)
Lemma teardown_inv n s b :
  svc_inv n s → down_status (ui_status b) →
  svc_inv n (teardown stop_throws (put_bus b (put_job None s))) ∧ sv_tunnel (teardown stop_throws (put_bus b (put_job None s))) = None.
Proof.
  intros [Hm Hn] Hb. destruct (sv_tornDown s) eqn:Et.
  - destruct (mode_torn s Hm Et) as (E1 & E2 & Hd). unfold teardown. cbn [sv_tornDown put_bus put_job]. rewrite Et. split; [|done].
    split; [|by apply (native_inv_eq n s)]. unfold mode. cbn. rewrite E1. split; [|done]. by destruct Hd; split.
  - apply teardown_ended; [by apply (native_inv_eq n s)|done|done| |done]. cbn. by apply mode_fds.
Qed.

Lemma served_eq s s' t t' :
  sv_job s' = sv_job s → sv_sup s' = sv_sup s → sv_restarts s' = sv_restarts s → at_fd t' = at_fd t → served s t → served s' t'.
Proof.
  intros E1 E2 E3 E4 []; [eapply BySelection|eapply BySession|eapply ByRestart]; rewrite ?E1, ?E2, ?E3, ?E4; done.
Qed.

Lemma mode_eq s s' :
  sv_sup s' = sv_sup s → sv_restarts s' = sv_restarts s → sv_bus s' = sv_bus s → sv_tunnel s' = sv_tunnel s → sv_job s' = sv_job s →
  sv_watcher s' = sv_watcher s → sv_fds s' = sv_fds s → sv_alive s' = sv_alive s → sv_tornDown s' = sv_tornDown s → mode s → mode s'.
Proof.
  intros E1 E2 E3 E4 E5 E6 E7 E8 E9. unfold mode. rewrite E3, E4, E5, E7, E8, E9. destruct (sv_tunnel s) as [t|].
  - intros (Hs & ?). split; [|done]. by apply (served_eq s _ t).
  - intros [ [D1 D2 D3 D4 D5] ?]. split; [|done]. split; rewrite ?E1, ?E2, ?E6, ?E7; done.
Qed.

Lemma reported_inv n s b : svc_inv n s → svc_inv n (put_terminalStatusReported b s).
Proof. intros [Hm Hn]. split; [by apply (mode_eq s)|by apply (native_inv_eq n s)]. Qed.

Lemma put_job_teardown s : put_job None (teardown stop_throws s) = teardown stop_throws (put_job None s).
Proof.
  destruct (sv_tornDown s) eqn:E; [unfold teardown; cbn; by rewrite E|].
  by rewrite (teardown_eq s), (teardown_eq (put_job None s)) by done.
Qed.

Lemma failVpn_inv n s message :
  svc_inv n s → svc_inv n (put_job None (failVpn stop_throws message s)) ∧ sv_tunnel (failVpn stop_throws message s) = None.
Proof.
  intros Hi. destruct (teardown_inv n s (markError message) Hi) as [H1 H2]; [by repeat right|]. unfold failVpn, teardownAndStopSelf.
  change (put_bus (markError message) (put_job None s)) with (put_job None (put_bus (markError message) s)) in H1, H2.
  rewrite <- put_job_teardown in H1, H2. split; [|done]. by apply (reported_inv n _ true) in H1.
Qed.

(** The status changes to one that is neither terminal nor down, or to one
    that says no more than that there is no permission. *)
Lemma bus_inv n s b :
  svc_inv n s → is_terminal (ui_status b) = false → (sv_tunnel s = None → sv_job s = None → down_status (ui_status b)) →
  svc_inv n (put_bus b s).
Proof.
  intros [Hm Hn] H1 H2. split; [|by apply (native_inv_eq n s)]. unfold mode in *. cbn. destruct (sv_tunnel s) as [t|].
  - destruct Hm as (Hs & ? & ? & ? & _). split_and!; try done. by apply (served_eq s _ t).
  - destruct Hm as [ [] Hj]. split; [by split|]. destruct (sv_job s) as [ [] |]; [naive_solver..|done|]. split; [by apply H2|apply Hj].
Qed.

Lemma publish_inv n s network : svc_inv n s → svc_inv n (publishUnderlyingNetworkIfActive network s).1.
Proof.
  intros [Hm Hn]. unfold publishUnderlyingNetworkIfActive. destruct (sv_tunnel s) as [t|] eqn:Et; [|done].
  destruct (sv_tornDown s) eqn:Eo; [done|]. split; [|by apply (native_inv_eq n s)]. unfold mode in *. rewrite Et in Hm. cbn.
  destruct Hm as (Hs & ?). split; [|done]. by apply (served_eq s _ t).
Qed.

Lemma bound_inv n s kind network : svc_inv n s → svc_inv n (recordSocketBinding kind network s).
Proof.
  intros [Hm Hn]. unfold recordSocketBinding. destruct (sv_tunnel s) as [t|] eqn:Et; [|done].
  destruct (sv_tornDown s) eqn:Eo; [done|]. split; [|by apply (native_inv_eq n s)]. unfold mode in *. rewrite Et in Hm. cbn.
  destruct Hm as (Hs & ?). split; [|done]. by apply (served_eq s _ t).
Qed.

Lemma called_inv n s c : svc_inv n s → svc_inv n (watcher_called c s).
Proof.
  intros Hi. destruct c as [network|network|network]; cbn [watcher_called]; [by apply publish_inv| |].
  - destruct (sv_job s) as [ [| |c [sel|] ]|] eqn:Ej; try done. destruct Hi as [Hm Hn]. split; [|by apply (native_inv_eq n s)].
    unfold mode in *. rewrite Ej in Hm. cbn. destruct (sv_tunnel s) as [t|]; [|by destruct Hm]. destruct Hm as (Hs & ?). split; [|done].
    destruct Hs; [|congruence..]. eapply BySelection; try done. cbn. congruence.
  - unfold notifyNetworkChanged. pose proof (publish_inv n s network Hi) as Hp. destruct (publishUnderlyingNetworkIfActive network s) as [s1 b].
    cbn [fst] in Hp. destruct b; [|done]. destruct (su_nativeSession (sv_sup s1)) as [h|]; [|done]. destruct Hp as [Hm Hn].
    split; [by apply (mode_eq s1)|by apply (native_inv_eq n s1)].
Qed.

Lemma calls_inv n s calls : svc_inv n s → svc_inv n (foldl (λ s c, watcher_called c s) s calls).
Proof. revert s. induction calls as [|c calls IH]; intros s Hi; [done|]. by apply IH, called_inv. Qed.

(** Starting a native session. *)
Lemma start_session_spec answer c n :
  0 < nt_next_handle n < 2 ^ 63 →
  match start_session answer c n with
  | (n', Ok h) => config_valid c ∧ h = nt_next_handle n ∧ n' = mkNative (h + 1) (<[h := false]> (nt_sessions n))
  | (n', Err _) => (config_valid c → sa_runtime answer = false ∨ sa_thread answer = false) ∧
      nt_sessions n' = nt_sessions n ∧ nt_next_handle n ≤ nt_next_handle n' ≤ nt_next_handle n + 1
  | (_, Panic) => False
  end.
Proof.
  intros Hn. unfold config_valid, start_session. destruct (nc_tunFd c <? 0).
  { cbn. split; [|split; [done|lia] ]. intros Hv. by destruct (Hv n ltac:(lia)) as [h ?]. }
  destruct (ClientConfig_from_toml_str (nc_clientToml c)) as [config|].
  2: { cbn. split; [|split; [done|lia] ]. intros Hv. by destruct (Hv n ltac:(lia)) as [h ?]. }
  destruct (negb (validate_android_mtu _ _)).
  { cbn. split; [|split; [done|lia] ]. intros Hv. by destruct (Hv n ltac:(lia)) as [h ?]. }
  rewrite (proj2 (Z.eqb_neq (nt_next_handle n) 0)) by lia. rewrite (Z.mod_small (nt_next_handle n + 1)) by lia.
  destruct answer as [ [] [] ]; cbn; (split; [|split; [done|lia || done] ]); try (intros _; auto; fail).
  intros n' Hn'. rewrite (proj2 (Z.eqb_neq (nt_next_handle n') 0)) by done. by eexists.
Qed.

Lemma startSession_inv n s answer c :
  native_inv n s → su_nativeSession (sv_sup s) = None → n < 2 ^ 63 - 1 →
  match startSession answer c s with
  | (s', None) => config_valid c ∧ native_inv (n + 1) s' ∧
      ∃ h nat, s' = put_session (Some h) (exported_handle h) (put_native nat s)
  | (s', Some _) => (config_valid c → sa_runtime answer = false ∨ sa_thread answer = false) ∧ native_inv (n + 1) s' ∧
      ∃ nat, s' = put_native nat s
  end.
Proof.
  intros [H1 H2 H3 H4 H5] Es Hb. rewrite Es in *. unfold startSession. pose proof (start_session_spec answer c (sv_native s) ltac:(lia)) as Hs.
  destruct (start_session answer c (sv_native s)) as [nat [h|e|] ]; [|..|done].
  - destruct Hs as (Hv & -> & ->). set (h := nt_next_handle (sv_native s)) in *. split_and!; [done| |by eexists _, _]. split; cbn.
    + split; [done|]. by rewrite lookup_insert_eq.
    + intros h' b. destruct (decide (h' = h)) as [->|]; [lia|]. rewrite lookup_insert_ne by done. intros ?%H2. lia.
    + lia.
    + intros h'. destruct (decide (h' = h)) as [->|]; [by left|]. rewrite lookup_insert_ne by done. intros [?|?]%H4; [done|by right].
    + eapply Forall_impl; [exact H5|]. cbn. intros e He. destruct (decide (ev_handle e = h)) as [->|]; [by rewrite lookup_insert_eq|].
      by rewrite lookup_insert_ne.
  - destruct Hs as (Hv & E1 & E2). split_and!; [done| |by eexists]. split; cbn; rewrite ?Es, ?E1; try done.
    + intros h b ?%H2. lia.
    + lia.
Qed.

Lemma job_selected_inv n s answer c sel :
  svc_inv n s → sv_job s = Some (JSelecting c (Some sel)) → n < 2 ^ 63 - 1 →
  svc_inv (n + 1) (job_selected stop_throws error_message answer c sel s).
Proof.
  intros Hi Ej Hb. unfold job_selected. destruct sel as [network|].
  2: { destruct (failVpn_inv n s no_network Hi) as [ [H1 H2] _]. split; [done|]. by apply (native_inv_weaken n); [lia|]. }
  pose proof (publish_inv n s (Some network) Hi) as Hp.
  assert (sv_job (publishUnderlyingNetworkIfActive (Some network) s).1 = sv_job s) as Ej'.
  { unfold publishUnderlyingNetworkIfActive. destruct (sv_tunnel s); [|done]. by destruct (sv_tornDown s). }
  destruct (publishUnderlyingNetworkIfActive (Some network) s) as [s1 b]. cbn [fst] in *. rewrite Ej in Ej'. clear s Hi Ej b.
  destruct Hp as [Hm Hn]. unfold mode in Hm. rewrite Ej' in Hm. destruct (sv_tunnel s1) as [t|] eqn:Et; [|by destruct Hm].
  destruct Hm as (Hs & Hf & Ha & Ho & Hst). destruct Hs as [c' sel' E1 E2 E3 E4 E5| |]; [|congruence..].
  assert (c' = c) as -> by congruence. unfold supervisor_start.
  set (s2 := put_restartConfig (Some c) (put_armed false (cancelRestart s1))).
  pose proof (startSession_inv n s2 answer c ltac:(by apply (native_inv_eq n s1)) ltac:(done) Hb) as Hst'.
  destruct (startSession answer c s2) as [s3 [e|] ].
  - destruct Hst' as (_ & Hn3 & nat & ->). apply failVpn_inv. split; [|done]. unfold mode. cbn. rewrite Et. split_and!; try done.
    by eapply BySelection.
  - destruct Hst' as (Hv & Hn3 & h & nat & ->). split; [|refine (native_inv_eq _ _ _ _ _ _ _ Hn3); done].
    unfold mode. cbn. rewrite Et. split_and!; try done. by eapply BySession.
Qed.

Lemma restart_inv n s answer d restarts :
  svc_inv n s → sv_restarts s = d :: restarts → n < 2 ^ 63 - 1 →
  let s' := restartNativeSessionAfterTerminalError stop_throws error_message answer (put_restarts restarts s) in
  svc_inv (n + 1) s' ∧ ∃ t, sv_tunnel s = Some t ∧
    ((sv_tunnel s' = Some t ∧ su_failClosedArmed (sv_sup s') = su_failClosedArmed (sv_sup s)) ∨
     (sa_runtime answer = false ∨ sa_thread answer = false)).
Proof.
  intros [Hm Hn] Er Hb. unfold mode in Hm. destruct (sv_tunnel s) as [t|] eqn:Et; [|destruct Hm as [ [] _]; congruence].
  destruct Hm as (Hs & Hf & Ha & Ho & Hst). destruct Hs as [| |c E1 E2 E3 E4 E5 E6]; [congruence..|].
  rewrite E6 in Er. injection Er as <- <-. unfold restartNativeSessionAfterTerminalError.
  set (s1 := put_restarts [] s). replace (su_nativeSession (sv_sup s1)) with (@None Z) by done.
  replace (su_restartConfig (sv_sup s1)) with (Some c) by done.
  pose proof (startSession_inv n s1 answer c ltac:(by apply (native_inv_eq n s)) ltac:(done) Hb) as Hst'.
  destruct (startSession answer c s1) as [s2 [e|] ].
  - destruct Hst' as (Hv & Hn2 & nat & ->). split; [|exists t; split; [done|right; by apply Hv] ].
    unfold onFatalError. rewrite decide_True by (cbn; intros E; by rewrite E in Hst). apply reported_inv, teardown_ended; try done.
    + refine (native_inv_eq _ _ _ _ _ _ _ Hn2); done.
    + cbn. by rewrite Et.
    + by repeat right.
  - destruct Hst' as (_ & Hn2 & h & nat & ->). split; [|exists t; by auto]. split; [|done]. unfold mode. cbn. rewrite Et.
    split_and!; try done. by eapply BySession.
Qed.

(** An event that is not rejected comes from the session the supervisor
    serves the tunnel with. *)
Lemma current_event n s event :
  svc_inv n s → is_Some (nt_sessions (sv_native s) !! ev_handle event) → n < 2 ^ 63 - 1 →
  to_long (ev_handle event) = su_nativeHandle (sv_sup s) →
  su_nativeSession (sv_sup s) = Some (ev_handle event) ∧
  ∃ t c, sv_tunnel s = Some t ∧ sv_job s = None ∧ su_restartConfig (sv_sup s) = Some c ∧ nc_tunFd c = at_fd t ∧ config_valid c ∧
    sv_restarts s = [] ∧ sv_fds s = {[at_fd t]} ∧ sv_alive s = true ∧ sv_tornDown s = false ∧ is_terminal (ui_status (sv_bus s)) = false.
Proof.
  intros [Hm [H1 H2 H3 _ _] ] [b Hb] Hn E. pose proof (H2 _ _ Hb) as Hr. unfold to_long in E. rewrite (proj2 (Z.ltb_lt _ _)) in E by lia.
  destruct (su_nativeSession (sv_sup s)) as [h|] eqn:Es; [|lia]. destruct H1 as [H1 Hh]. pose proof (H2 _ _ Hh).
  unfold exported_handle in H1. rewrite (proj2 (Z.ltb_lt _ _)) in H1 by lia. split; [congruence|].
  unfold mode in Hm. destruct (sv_tunnel s) as [t|] eqn:Et; [|destruct Hm as [ [] _]; congruence].
  destruct Hm as (Hs & Hf & Ha & Ho & Hst). destruct Hs as [|c h' E1 E2 E3 E4 E5 E6|]; [congruence| |congruence]. by exists t, c.
Qed.

(** The end of the tunnel by an event. *)
Lemma event_ends n s b :
  svc_inv n s → sv_job s = None → is_terminal (ui_status b) = true →
  svc_inv n (teardownAndStopSelf stop_throws (put_bus b s)).
Proof.
  intros Hi Ej Hb. assert (down_status (ui_status b)) as Hd by (destruct (ui_status b); unfold down_status; naive_solver).
  apply reported_inv. destruct (teardown_inv n s b Hi Hd) as [H _]. by replace (put_job None s) with s in H by (destruct s; cbn in *; by subst).
Qed.

Lemma schedule_inv n s event b :
  svc_inv n s → is_Some (nt_sessions (sv_native s) !! ev_handle event) → n < 2 ^ 63 - 1 →
  to_long (ev_handle event) = su_nativeHandle (sv_sup s) →
  let s' := scheduleNativeRestartAfterError stop_throws event (put_bus b s) in
  svc_inv n s' ∧ sv_tunnel s' = sv_tunnel s ∧ su_failClosedArmed (sv_sup s') = su_failClosedArmed (sv_sup s).
Proof.
  intros Hi Hh Hb E. destruct (current_event n s event Hi Hh Hb E) as (Es & t & c & Et & Ej & Ec & Efd & Hv & Er & Hf & Ha & Ho & Hst).
  unfold scheduleNativeRestartAfterError. rewrite stopNativeClient_eq. cbn. rewrite Ec. split; [|done]. split.
  - unfold mode. cbn. rewrite Et. split_and!; try done. by eapply ByRestart.
  - apply (stopped_inv n s); try done. apply Hi.
Qed.

Lemma onEvent_inv n s event :
  svc_inv n s → is_Some (nt_sessions (sv_native s) !! ev_handle event) → n < 2 ^ 63 - 1 →
  svc_inv n (onEvent stop_throws event s) ∧
  (su_failClosedArmed (sv_sup s) = true →
     (sv_tunnel (onEvent stop_throws event s) = sv_tunnel s ∧ su_failClosedArmed (sv_sup (onEvent stop_throws event s)) = true) ∨
     (ev_kind event = EkStopped ∧ su_nativeSession (sv_sup s) = Some (ev_handle event))).
Proof.
  intros Hi Hh Hb. unfold onEvent. destruct (Z.eqb_spec (to_long (ev_handle event)) (su_nativeHandle (sv_sup s))) as [E|]; cbn [negb]; [|by auto].
  destruct (current_event n s event Hi Hh Hb E) as (Es & t & c & Et & Ej & Ec & Efd & Hv & Er & Hf & Ha & Ho & Hst).
  unfold handleNativeEvent. pose proof (applyEvent_terminal event (sv_bus s)) as Ht. rewrite Hst in Ht.
  destruct (applyEvent event (sv_bus s)) as [b terminal] eqn:Ea. destruct terminal as [| |retryable].
  - assert (svc_inv n (put_bus b s)) as Hb' by (apply bus_inv; [done|done|congruence]).
    destruct (is_authenticated (ev_kind event)); [|by auto]. split; [|by auto]. destruct Hb' as [Hm Hn].
    split; [|refine (native_inv_eq _ _ _ _ _ _ _ Hn); done]. unfold mode in *. cbn in *. rewrite Et in *. destruct Hm as (_ & ?).
    split; [|done]. by eapply BySession.
  - apply applyEvent_stopped in Ea as Ek. rewrite Ek. cbn [is_authenticated]. split; [by apply event_ends|by auto].
  - assert (∃ d, ev_kind event = EkError d retryable) as [d Ek].
    { unfold applyEvent in Ea. rewrite Hst in Ea. destruct (ev_kind event); try done. injection Ea as _ <-. by eexists. }
    rewrite Ek. cbn [is_authenticated]. destruct (schedule_inv n s event b Hi Hh Hb E) as (H1 & H2 & H3).
    unfold nativeTerminalAction. cbn [sv_sup put_bus]. destruct (su_failClosedArmed (sv_sup s)) eqn:Earm; [rewrite orb_true_r; rewrite H3; by auto|].
    destruct retryable; cbn [orb]; [by auto|]. split; [|done]. unfold onFatalError. case_decide; [|by apply event_ends].
    by apply (event_ends n s (markError _)).
Qed.

Lemma svc_inv_weaken n s : svc_inv n s → svc_inv (n + 1) s.
Proof. intros [Hm Hn]. split; [done|]. apply (native_inv_weaken n); [lia|done]. Qed.

Lemma startVpn_inv n s throws : svc_inv n s → sv_alive s = true → svc_inv n (startVpn stop_throws throws s).
Proof.
  intros Hi Ha. apply (reported_inv n s false) in Hi as Hr. unfold startVpn. set (s1 := put_terminalStatusReported false s) in *.
  assert (svc_inv n (if keeps_status (ui_status (sv_bus s1)) then s1 else put_bus (markRunningForeground (sv_bus s1)) s1) ∨
    (sv_tunnel s1 = None ∧ sv_job s1 = None)) as Hkeep.
  { destruct (sv_tunnel s1) eqn:Et, (sv_job s1) eqn:Ej; [left..|by right];
      (destruct (keeps_status _); [done|]; apply bus_inv; [done|unfold markRunningForeground; by case_decide|congruence]). }
  destruct (sv_tunnel s1) as [t|] eqn:Et; [by destruct Hkeep as [?|[? ?] ]|]. destruct (sv_job s1) as [j|] eqn:Ej; [by destruct Hkeep as [?|[? ?] ]|].
  destruct Hr as [Hm Hn]. unfold mode in Hm. rewrite Et, Ej in Hm. destruct Hm as [ [] _]. destruct throws as [message|].
  - unfold failVpn, teardownAndStopSelf. apply reported_inv, teardown_ended; try done.
    + by apply (native_inv_eq n s1).
    + cbn in *. by rewrite Et.
    + by repeat right.
  - split; [|by apply (native_inv_eq n s1)]. unfold mode. cbn in *. rewrite Et. by split; [split|].
Qed.

Lemma establish_inv n s e : svc_inv n s → sv_job s = Some JLoading → svc_inv n (job_establish stop_throws e s).
Proof.
  intros Hi Ej. destruct e as [m| | |fd toml mtu network watching]; cbn [job_establish]; [by apply failVpn_inv..|].
  destruct Hi as [Hm Hn]. split; [|by apply (native_inv_eq n s)]. unfold mode in *. rewrite Ej in Hm. cbn.
  destruct (sv_tunnel s) as [t|]; [destruct Hm as ( [] & _); congruence|]. destruct Hm as [ [D1 D2 D3 D4 D5] (Ha & Ho & Hst)].
  split_and!; try done; [by eapply BySelection|]. rewrite D5. set_solver.
Qed.

(** The terminal status is reported only when the tunnel is torn down. *)
Definition flags_ok s : Prop := sv_terminalStatusReported s = true → sv_tornDown s = true.

Lemma teardown_torn s : sv_tornDown (teardown stop_throws s) = true.
Proof. destruct (sv_tornDown s) eqn:E; [unfold teardown; by rewrite E|by rewrite teardown_eq]. Qed.

Lemma ended_flags s : flags_ok (teardownAndStopSelf stop_throws s).
Proof. intros _. apply teardown_torn. Qed.

Lemma publish_flags network s : flags_ok s → flags_ok (publishUnderlyingNetworkIfActive network s).1.
Proof. unfold publishUnderlyingNetworkIfActive. destruct (sv_tunnel s); [|done]. by destruct (sv_tornDown s) eqn:E. Qed.

Lemma startSession_flags answer c s : flags_ok s → flags_ok (startSession answer c s).1.
Proof. unfold startSession. by destruct (start_session answer c (sv_native s)) as [? [] ]. Qed.

Lemma onEvent_flags event s : flags_ok s → flags_ok (onEvent stop_throws event s).
Proof.
  intros Hf. unfold onEvent. destruct (negb _); [done|]. unfold handleNativeEvent. destruct (applyEvent event (sv_bus s)) as [b terminal].
  assert (∀ s', flags_ok s' → flags_ok (if is_authenticated (ev_kind event) then put_attempt 0 (put_armed true s') else s')) as Hauth
    by (intros s'; by destruct (is_authenticated _)).
  apply Hauth. destruct terminal as [| |r]; [done|apply ended_flags|]. destruct (nativeTerminalAction _ _); [|apply ended_flags].
  unfold scheduleNativeRestartAfterError. rewrite stopNativeClient_eq. cbn. destruct (su_restartConfig _); [done|apply ended_flags].
Qed.

Lemma called_flags c s : flags_ok s → flags_ok (watcher_called c s).
Proof.
  intros Hf. destruct c as [network|network|network]; cbn [watcher_called]; [by apply publish_flags| |].
  - by destruct (sv_job s) as [ [| |c [sel|] ]|].
  - unfold notifyNetworkChanged. pose proof (publish_flags network s Hf) as Hp. destruct (publishUnderlyingNetworkIfActive network s) as [s1 []]; [|done].
    by destruct (su_nativeSession (sv_sup s1)).
Qed.

Lemma svc_do_flags l s s' : flags_ok s → svc_do stop_throws error_message l s = Some s' → flags_ok s'.
Proof.
  intros Hf. destruct l as [|throws| | | | |e|answer|h tr k| |answer|dt i|k network|network|d]; cbn [svc_do].
  - destruct (sv_alive s); [done|]. by intros [= <-].
  - destruct (sv_alive s); [|done]. intros [= <-]. unfold startVpn. cbn. destruct (sv_tunnel s), (sv_job s); cbn; try (destruct (keeps_status _); done).
    destruct throws; [apply ended_flags|done].
  - destruct (sv_alive s); [|done]. intros [= <-]. apply ended_flags.
  - destruct (sv_alive s); [|done]. intros [= <-]. apply ended_flags.
  - destruct (sv_alive s); [|done]. intros [= <-]. unfold onDestroy. intros _. cbn. destruct (sv_terminalStatusReported s); apply teardown_torn.
  - destruct (sv_job s) as [ [] |]; try done. by intros [= <-].
  - destruct (sv_job s) as [ [] |]; try done. intros [= <-]. destruct e; cbn [job_establish]; try apply ended_flags. done.
  - destruct (sv_job s) as [ [| |c [sel|] ]|]; try done. intros [= <-]. unfold job_selected. destruct sel as [network|]; [|apply ended_flags].
    pose proof (publish_flags (Some network) s Hf) as Hp. destruct (publishUnderlyingNetworkIfActive (Some network) s) as [s1 b]. cbn [fst] in *.
    unfold supervisor_start. pose proof (startSession_flags answer c (put_restartConfig (Some c) (put_armed false (cancelRestart s1))) Hp) as Hs.
    destruct (startSession answer c _) as [s2 [err|] ]; [apply ended_flags|done].
  - destruct (nt_sessions (sv_native s) !! h); [|done]. by intros [= <-].
  - destruct (sv_events s) as [|e es]; [done|]. intros [= <-]. by apply onEvent_flags.
  - destruct (sv_restarts s) as [|d ds]; [done|]. intros [= <-]. unfold restartNativeSessionAfterTerminalError. cbn.
    destruct (su_nativeSession (sv_sup s)); [done|]. destruct (su_restartConfig (sv_sup s)) as [c|]; [|apply ended_flags].
    pose proof (startSession_flags answer c (put_restarts ds s) Hf) as Hs. destruct (startSession answer c _) as [s1 [err|] ]; [apply ended_flags|done].
  - destruct (sv_watcher s) as [w|]; [|done]. destruct (from_outside i); [|done]. destruct (watch (dt, i) w) as [w' calls]. intros [= <-].
    assert (flags_ok (put_watcher (Some w') s)) as Hw by done. revert Hw. generalize (put_watcher (Some w') s) as s1.
    induction calls as [|c calls IH]; intros s1 Hs; [done|]. by apply IH, called_flags.
  - intros [= <-]. unfold recordSocketBinding. destruct (sv_tunnel s); [|done]. by destruct (sv_tornDown s) eqn:E.
  - intros [= <-]. by apply publish_flags.
  - by intros [= <-].
Qed.

Lemma destroy_inv n s : svc_inv n s → flags_ok s → svc_inv n (onDestroy stop_throws s) ∧ sv_tunnel (onDestroy stop_throws s) = None.
Proof.
  intros Hi Hfl. assert (∀ s', svc_inv n s' → sv_tunnel s' = None → sv_job s' = None → sv_tornDown s' = true →
    svc_inv n (put_alive false (put_job None s'))) as Hend.
  { intros s' [Hm Hn] Et Ej Eo. split; [|by apply (native_inv_eq n s')]. unfold mode in *. rewrite Et, Ej in Hm. cbn. rewrite Et.
    destruct Hm as [ [] [? _] ]. split; [by split|by split]. }
  unfold onDestroy. destruct (sv_terminalStatusReported s) eqn:Er.
  - specialize (Hfl Er). destruct (mode_torn s (proj1 Hi) Hfl) as (Et & Ej & _). unfold teardown. rewrite Hfl. split; [by apply Hend|done].
  - unfold stopVpn. destruct (teardown_inv n s (markStopped (bytes_of_string "Service destroyed")) Hi) as [H1 H2]; [right; right; by left|].
    pose proof (teardown_torn (put_bus (markStopped (bytes_of_string "Service destroyed")) (put_job None s))) as Ho.
    split; [|done]. destruct (mode_torn _ (proj1 H1) Ho) as (_ & Ej & _). apply (reported_inv n _ true) in H1. by apply Hend in H1.
Qed.

Lemma svc_do_inv n l s s' :
  svc_inv n s → flags_ok s → n < 2 ^ 63 - 1 → svc_do stop_throws error_message l s = Some s' → svc_inv (n + 1) s'.
Proof.
  intros Hi Hfl Hb. destruct l as [|throws| | | | |e|answer|h tr k| |answer|dt i|k network|network|d]; cbn [svc_do].
  - destruct (sv_alive s) eqn:Ea; [done|]. intros [= <-]. apply svc_inv_weaken. destruct Hi as [Hm Hn]. unfold mode in Hm. rewrite Ea in Hm.
    destruct (sv_tunnel s); [by destruct Hm as (_ & _ & ? & _)|]. destruct Hm as [ [D1 D2 D3 D4 D5] Hj].
    destruct (sv_job s) as [ [] |]; [naive_solver..|done|]. split; [by split; [split|by destruct Hj]|].
    destruct Hn as [N1 N2 N3 N4 N5]. rewrite D1 in *. by split.
  - destruct (sv_alive s) eqn:Ea; [|done]. intros [= <-]. by apply svc_inv_weaken, startVpn_inv.
  - destruct (sv_alive s); [|done]. intros [= <-]. apply svc_inv_weaken, reported_inv, teardown_inv; [done|right; right; by left].
  - destruct (sv_alive s); [|done]. intros [= <-]. apply svc_inv_weaken, reported_inv, teardown_inv; [done|right; right; by left].
  - destruct (sv_alive s); [|done]. intros [= <-]. by apply svc_inv_weaken, destroy_inv.
  - destruct (sv_job s) as [ [] |] eqn:Ej; try done. intros [= <-]. apply svc_inv_weaken. destruct Hi as [Hm Hn].
    split; [|by apply (native_inv_eq n s)]. unfold mode in *. rewrite Ej in Hm. cbn.
    destruct (sv_tunnel s) as [t|]; [destruct Hm as ( [] & _); congruence|]. destruct Hm as [ [] ?]. by split; [split|].
  - destruct (sv_job s) as [ [] |] eqn:Ej; try done. intros [= <-]. by apply svc_inv_weaken, establish_inv.
  - destruct (sv_job s) as [ [| |c [sel|] ]|] eqn:Ej; try done. intros [= <-]. by apply job_selected_inv.
  - destruct (nt_sessions (sv_native s) !! h) as [b|] eqn:Eh; [|done]. intros [= <-]. apply svc_inv_weaken. destruct Hi as [Hm [N1 N2 N3 N4 N5] ].
    split; [by apply (mode_eq s)|]. split; cbn; try done. apply Forall_app. split; [done|]. by repeat constructor.
  - destruct (sv_events s) as [|e es] eqn:Ee; [done|]. intros [= <-]. apply svc_inv_weaken. destruct Hi as [Hm [N1 N2 N3 N4 N5] ].
    rewrite Ee in N5. apply Forall_cons_1 in N5 as [He Hes]. apply onEvent_inv; [|done|done].
    split; [by apply (mode_eq s)|by split].
  - destruct (sv_restarts s) as [|d ds] eqn:Er; [done|]. intros [= <-]. by apply (restart_inv n s answer d ds).
  - destruct (sv_watcher s) as [w|] eqn:Ew; [|done]. destruct (from_outside i); [|done]. destruct (watch (dt, i) w) as [w' calls]. intros [= <-].
    apply svc_inv_weaken, calls_inv. destruct Hi as [Hm Hn]. split; [|by apply (native_inv_eq n s)]. unfold mode in *. cbn.
    destruct (sv_tunnel s) as [t|]; [|destruct Hm as [ [] _]; congruence]. destruct Hm as (Hs & ?). split; [|done]. by apply (served_eq s _ t).
  - intros [= <-]. by apply svc_inv_weaken, bound_inv.
  - intros [= <-]. by apply svc_inv_weaken, publish_inv.
  - intros [= <-]. apply svc_inv_weaken, bus_inv; [done|done|]. intros _ _. by right; left.
Qed.

Lemma svc_run_inv ls n s s' :
  svc_inv n s → flags_ok s → n + Z.of_nat (length ls) < 2 ^ 63 → svc_run stop_throws error_message ls s = Some s' →
  svc_inv (n + Z.of_nat (length ls)) s' ∧ flags_ok s'.
Proof.
  revert n s. induction ls as [|l ls IH]; intros n s Hi Hf Hb; cbn [svc_run length].
  { intros [= <-]. by rewrite Z.add_0_r. }
  destruct (svc_do stop_throws error_message l s) as [s1|] eqn:E; [|done]. intros Hr. cbn [length] in Hb.
  replace (n + Z.of_nat (S (length ls))) with (n + 1 + Z.of_nat (length ls)) by lia.
  apply (IH (n + 1) s1); [eapply svc_do_inv; [done|done|lia|done]|by eapply svc_do_flags|lia|done].
Qed.

(** The armed tunnel under what is not its end. *)
Definition kept s s' : Prop :=
  (at_fd <$> sv_tunnel s') = (at_fd <$> sv_tunnel s) ∧ su_failClosedArmed (sv_sup s') = su_failClosedArmed (sv_sup s).

Lemma publish_kept network s : kept s (publishUnderlyingNetworkIfActive network s).1.
Proof.
  unfold publishUnderlyingNetworkIfActive. destruct (sv_tunnel s) as [t|] eqn:Et; [|done]. destruct (sv_tornDown s); [done|].
  split; [cbn; by rewrite Et|done].
Qed.

Lemma calls_kept calls s : kept s (foldl (λ s c, watcher_called c s) s calls).
Proof.
  revert s. induction calls as [|c calls IH]; intros s; [done|]. cbn [foldl].
  assert (kept s (watcher_called c s)) as [H1 H2].
  { destruct c as [network|network|network]; cbn [watcher_called]; [apply publish_kept|by destruct (sv_job s) as [ [| |c [sel|] ]|]|].
    unfold notifyNetworkChanged. pose proof (publish_kept network s) as Hp. destruct (publishUnderlyingNetworkIfActive network s) as [s1 [] ]; [|done].
    by destruct (su_nativeSession (sv_sup s1)). }
  destruct (IH (watcher_called c s)) as [H3 H4]. split; congruence.
Qed.

(** What may end an armed tunnel. *)
Definition ends_tunnel (l : label) s : Prop :=
  match l with
  | LStop | LRevoke | LDestroy => True
  | LEvent => ∃ e es, sv_events s = e :: es ∧ ev_kind e = EkStopped ∧ su_nativeSession (sv_sup s) = Some (ev_handle e)
  | LRestart answer => sa_runtime answer = false ∨ sa_thread answer = false
  | _ => False
  end.

Lemma armed_step n l s s' :
  svc_inv n s → n < 2 ^ 63 - 1 → su_failClosedArmed (sv_sup s) = true → svc_do stop_throws error_message l s = Some s' →
  kept s s' ∨ ends_tunnel l s.
Proof.
  intros Hi Hb Ha. assert (∃ t, sv_tunnel s = Some t ∧ sv_job s = None ∧ sv_alive s = true) as (t & Et & Ej & El).
  { destruct Hi as [Hm _]. unfold mode in Hm. destruct (sv_tunnel s) as [t|]; [|destruct Hm as [ [] _]; congruence].
    destruct Hm as ( [] & _ & ? & _); [congruence|by exists t..]. }
  destruct l as [|throws| | | | |e|answer|h tr k| |answer|dt i|k network|network|d]; cbn [svc_do ends_tunnel]; rewrite ?El, ?Ej; try by auto.
  - intros [= <-]. left. unfold startVpn. cbn. rewrite Et. by destruct (keeps_status _).
  - destruct (nt_sessions (sv_native s) !! h); [|done]. intros [= <-]. by left.
  - destruct (sv_events s) as [|e es] eqn:Ee; [done|]. intros [= <-]. destruct Hi as [Hm [N1 N2 N3 N4 N5] ].
    rewrite Ee in N5. apply Forall_cons_1 in N5 as [He Hes].
    destruct (onEvent_inv n (put_events es s) e) as [_ Hk]; [split; [by apply (mode_eq s)|by split]|done|done|].
    destruct (Hk Ha) as [ [H1 H2]|[H1 H2] ]; [|right; by exists e, es]. left. split; [by rewrite H1|by rewrite H2, Ha].
  - destruct (sv_restarts s) as [|d ds] eqn:Er; [done|]. intros [= <-].
    destruct (restart_inv n s answer d ds Hi Er Hb) as (_ & t' & Et' & [ [H1 H2]|H1]); [|by right]. left. split; [by rewrite H1, Et'|done].
  - destruct (sv_watcher s) as [w|]; [|done]. destruct (from_outside i); [|done]. destruct (watch (dt, i) w) as [w' calls]. intros [= <-].
    left. apply (calls_kept calls (put_watcher (Some w') s)).
  - intros [= <-]. left. unfold recordSocketBinding. rewrite Et. destruct (sv_tornDown s); [done|]. split; [cbn; by rewrite Et|done].
  - intros [= <-]. left. apply publish_kept.
  - intros [= <-]. by left.
Qed.
End Invariant.

(** ** Theorems *)

Lemma restart_delay_range attempt :
  INITIAL_NATIVE_RESTART_DELAY_MS ≤ nativeRestartDelayMs attempt ≤ MAX_NATIVE_RESTART_DELAY_MS.
Proof.
  unfold nativeRestartDelayMs, INITIAL_NATIVE_RESTART_DELAY_MS, MAX_NATIVE_RESTART_DELAY_MS, MAX_NATIVE_RESTART_SHIFT.
  set (k := Z.max 0 _). pose proof (Z.pow_pos_nonneg 2 k ltac:(lia) ltac:(lia)). lia.
Qed.


(** C20: The VPN service leaves nothing behind and says what is true.  In every
    execution the TUN descriptors that are open are that of the tunnel; every
    native client but the current one has been told to stop, unless that
    failed; a tunnel is waiting for its first network, served by a native
    client, or waiting for a new one.  When the status is stopped or failed, or
    the service is gone, there is no tunnel, no native client, no restart and
    no start under way; when there is no tunnel and no start under way, the
    status does not claim otherwise. *)
Theorem vpn_service_consistent `{T : Toml} stop_throws error_message ls s :
  svc_run stop_throws error_message ls Svc_new = Some s → Z.of_nat (length ls) < 2 ^ 63 - 1 →
  sv_fds s = match sv_tunnel s with Some t => {[at_fd t]} | None => ∅ end ∧
  (∀ h, nt_sessions (sv_native s) !! h = Some false → su_nativeSession (sv_sup s) = Some h ∨ stop_throws h = true) ∧
  (∀ t, sv_tunnel s = Some t → served s t) ∧
  (is_terminal (ui_status (sv_bus s)) = true ∨ sv_alive s = false →
     sv_tunnel s = None ∧ su_nativeSession (sv_sup s) = None ∧ sv_restarts s = [] ∧ sv_job s = None) ∧
  (sv_tunnel s = None → sv_job s = None → down_status (ui_status (sv_bus s))).
Proof.
  intros Hr Hb. destruct (svc_run_inv _ _ ls 0 _ s (svc_new_inv stop_throws) ltac:(done) ltac:(lia) Hr) as [ [Hm Hn] _].
  split_and!; [by apply mode_fds|apply (ni_live _ _ _ Hn)|..]; unfold mode in Hm.
  - intros t Et. rewrite Et in Hm. apply Hm.
  - intros Hx. destruct (sv_tunnel s) as [t|]; [destruct Hm as (_ & _ & ? & _ & ?); destruct Hx; congruence|].
    destruct Hm as [ [D1 D2 _ _ _] Hj]. destruct (sv_job s) as [ [] |]; [destruct Hj as (? & _ & ?); destruct Hx; congruence..|done|done].
  - intros Et Ej. rewrite Et, Ej in Hm. apply Hm.
Qed.

(** ** Witnesses *)
Section VpnWitnesses.
Import AddDemo.

(** The VPN is started and authenticates, then its client fails. *)
Definition vpn_demo : list label :=
  [LStart None; LJobRun; LJobEstablish (EsTunnel 5 [3] (tun_mtu (cc_tun client2)) 7 Registers); LNetwork 1000 WTimer;
   LJobSelected (mkStart true true); LNativeEvent 1 (Some TrTcp) EkAuthenticated; LEvent;
   LNativeEvent 1 (Some TrTcp) (EkError [] false); LEvent].
Definition vpn_demo_end : Svc :=
  Eval vm_compute in (match svc_run (λ _, false) (λ _, []) vpn_demo Svc_new with Some s => s | None => Svc_new end).
Lemma vpn_demo_run : svc_run (λ _, false) (λ _, []) vpn_demo Svc_new = Some vpn_demo_end.
Proof. vm_compute. reflexivity. Qed.


Lemma vpn_service_consistent_witness : ∃ t, sv_tunnel vpn_demo_end = Some t ∧ served vpn_demo_end t.
Proof.
  destruct (vpn_service_consistent (λ _, false) (λ _, []) vpn_demo vpn_demo_end vpn_demo_run) as (_ & _ & H & _); [cbn; lia|].
  eexists. split; [reflexivity|]. apply H. reflexivity.
Defined.
End VpnWitnesses.
