(* ===== verification/NativeSession.v ===== *)
(** * The native client of the Android app
      ([slt-client/src/android/session.rs], [slt-client/src/tun/android.rs])

    Kotlin starts a session with the descriptor of the VPN's TUN device and
    keeps that descriptor.  The worker thread of the session duplicates it,
    starts a task that reads packets from the duplicate and one that writes
    packets to it, and runs the client on top ([ClientRuntime.v]).  Kotlin
    decides on restarts from the events alone ([VpnService.v]), so every worker
    has to report its end, and to report it once.

    The kernel and [tun-rs] are answers: how a call on the device ends and which
    packet a read finds.  [tun-rs] takes over the descriptor that it is given,
    so the descriptor is closed when wrapping it fails and when the device is
    dropped. *)

From Stdlib Require Import Ascii String.
From stdpp Require Import base tactics option list numbers gmap sets.
From Stdlib Require Import ZArith Lia.
From S2P Require Import Prelude Effects Framing IpPacket TcpChannel Config Keys Backoff Auth AddClient TunPath ClientState ClientRun ClientSession ClientSafety ClientRuntime VpnService.

(** ** The reader of the TUN device ([run_tun_reader]) *)

(** [send_to_session_queue]: the select polls the cancellation first; [sent] is
    how [Sender::send] ends if it is polled. *)
Inductive TunQueueSend := Sent | QClosed | QCancelled.
#[export] Instance TunQueueSend_eq_dec : EqDecision TunQueueSend.
Proof. solve_decision. Defined.

Record SendRace := mkSendRace { sr_cancelled : bool; sr_sent : bool }.
Definition send_to_session_queue (race : SendRace) : TunQueueSend :=
  if sr_cancelled race then QCancelled else if sr_sent race then Sent else QClosed.

(** What a turn of the loop meets: the cancellation, or a read with the packet
    that the device had and the race of the queue. *)
Inductive ReadTurn := ReadCancelled | ReadDone (r : io_result bytes) (race : SendRace).

(** [read(2)] on a TUN device: one packet, cut to the buffer. *)
Definition recv (p buf : bytes) : bytes * Z :=
  let n := Z.min (zlen p) (zlen buf) in
  (take (Z.to_nat n) p ++ drop (Z.to_nat n) buf, n).

(** The loop: the packets put into the queue, and the result of the task;
    [None] while it runs. *)
Fixpoint reader_loop (assigned_ipv4 : Ipv4Addr) (turns : list ReadTurn) (buf : bytes) : res unit (list bytes * option (io_result unit)) :=
  match turns with
  | [] => Ok ([], None)
  | ReadCancelled :: _ => Ok ([], Some (inl tt))
  | ReadDone (inr e) _ :: _ => Ok ([], Some (inr e))
  | ReadDone (inl p) race :: turns =>
      let '(buf, len) := recv p buf in
      if len =? 0 then reader_loop assigned_ipv4 turns buf else
      packet ← slice buf 0 len;
      src ← extract_src_ipv4 packet;
      match src with
      | None => reader_loop assigned_ipv4 turns buf
      | Some src_ip =>
          if negb (bool_decide (src_ip = assigned_ipv4)) then reader_loop assigned_ipv4 turns buf else
          match send_to_session_queue race with
          | Sent => '(queue, r) ← reader_loop assigned_ipv4 turns buf; Ok (packet :: queue, r)
          | QClosed | QCancelled => Ok ([], Some (inl tt))
          end
      end
  end.

Definition run_tun_reader (assigned_ipv4 : Ipv4Addr) (mtu : Z) (turns : list ReadTurn) : res unit (list bytes * option (io_result unit)) :=
  reader_loop assigned_ipv4 turns (zeros mtu).

(** ** The writer ([run_tun_writer]) *)

(** A turn of the loop: the cancellation, the closed queue, or a frame with the
    end of the write: the cancellation, an error, or the bytes written. *)
Inductive WriteEnd := WriteCancelled | WriteFailed (e : IoError) | Wrote (n : Z).
Inductive WriteTurn := WCancelled | WQueueClosed | WFrame (m : Message) (w : WriteEnd).

(** The writes the device accepted, and the result of the task. *)
Fixpoint run_tun_writer (turns : list WriteTurn) : list bytes * option (io_result unit) :=
  match turns with
  | [] => ([], None)
  | (WCancelled | WQueueClosed) :: _ => ([], Some (inl tt))
  | WFrame m w :: turns =>
      match m with
      | MData packet =>
          if zlen packet =? 0 then run_tun_writer turns else
          match w with
          | WriteCancelled => ([], Some (inl tt))
          | WriteFailed e => ([], Some (inr e))
          | Wrote written =>
              let accepted := take (Z.to_nat written) packet in
              if negb (written =? zlen packet) then ([accepted], Some (inr InvalidData)) else
              let '(rest, r) := run_tun_writer turns in
              (accepted :: rest, r)
          end
      | _ => run_tun_writer turns
      end
  end.

(** ** The worker *)

(** The open descriptors of the process, the one the session's TUN device
    holds, and the events of the session, the newest first. *)
Record Worker := mkWorker { wk_fds : gset Z; wk_tun : option Z; wk_events : list runtime_action }.

Definition open_fd (fd : Z) (s : Worker) : Worker := mkWorker ({[fd]} ∪ wk_fds s) (wk_tun s) (wk_events s).
Definition close_fd (fd : Z) (s : Worker) : Worker := mkWorker (wk_fds s ∖ {[fd]}) (wk_tun s) (wk_events s).
Definition hold (fd : option Z) (s : Worker) : Worker := mkWorker (wk_fds s) fd (wk_events s).
Definition report (t : list runtime_action) (s : Worker) : Worker := mkWorker (wk_fds s) (wk_tun s) (t ++ wk_events s).

(** The device is dropped. *)
Definition drop_tun (s : Worker) : Worker :=
  match wk_tun s with Some fd => hold None (close_fd fd s) | None => s end.

(** The lowest descriptor that is not open. *)
Definition lowest_fd (fds : gset Z) : option Z :=
  head (filter (λ fd, fd ∉ fds) (seqZ 0 (Z.of_nat (size fds) + 1))).

(** How the calls of the set-up end, and what the client meets. *)
Record WorkerEnv := mkWorkerEnv {
  we_dup : option IoError;
  we_from_fd : res IoError unit;
  we_attempts : list Attempt;
  we_ends : TunTask → TaskEnd;
}.

Section Worker.
Context `{B : Boring} `{E : Ed25519} (env : WorkerEnv).
Abbreviation M := (eff Worker IoError).

Definition EBADF : IoError := OtherKind.

Definition duplicate_fd (fd : Z) : M Z :=
  s ← get;
  match we_dup env with
  | Some e => fail e
  | None =>
      if negb (bool_decide (fd ∈ wk_fds s)) then fail EBADF else
      match lowest_fd (wk_fds s) with
      | Some duplicate => _ ← modify (open_fd duplicate); mret duplicate
      | None => fail OtherKind
      end
  end.

(** [AsyncDevice::from_fd] *)
Definition from_fd (fd : Z) : M unit :=
  match we_from_fd env with
  | Ok _ => modify (hold (Some fd))
  | Err e => _ ← modify (close_fd fd); fail e
  | Panic => _ ← modify (close_fd fd); panic
  end.

(** [spawn_from_fd] and [spawn_tasks]; the tasks hold the device. *)
Definition spawn_from_fd (config : ClientConfig) (tun_fd : Z) : M unit :=
  if tun_fd <? 0 then fail InvalidInput else
  let mtu := tun_mtu (cc_tun config) in
  duplicate ← duplicate_fd tun_fd;
  _ ← from_fd duplicate;
  match tun_mtu_to_usize mtu with
  | Ok _ => mret tt
  | Err e => _ ← modify drop_tun; fail e
  | Panic => panic
  end.

(** [run_client] on the tasks: its events are the session's, its result is only
    logged. *)
Definition client (config : ClientConfig) : M unit := λ s,
  match run_client config (we_attempts env) (we_ends env) (Runtime_start true) with
  | (rt, o) =>
      let s := report (rt_trace rt) s in
      match o with
      | ORet _ | OErr _ => (s, ORet tt)
      | OPanic => (s, OPanic)
      | OCancel => (s, OCancel)
      end
  end.

(** [run_native_client]; leaving the Tokio runtime, by [shutdown_timeout] or by
    unwinding, drops the tasks that are left. *)
Definition run_native_client (config : ClientConfig) (tun_fd : Z) : M unit := λ s,
  match (_ ← spawn_from_fd config tun_fd; client config) s with
  | (s, OCancel) => (s, OCancel)
  | (s, o) => (drop_tun s, o)
  end.

Definition run_native_session (config : ClientConfig) (tun_fd : Z) : M unit := λ s,
  match run_native_client config tun_fd s with
  | (s, OErr _) => (report [RError false] s, ORet tt)
  | (s, o) => (s, o)
  end.

(** The closure of the thread: [run_native_session] under [catch_unwind]. *)
Definition run_worker (config : ClientConfig) (tun_fd : Z) : M unit := λ s,
  match run_native_session config tun_fd s with
  | (s, OPanic) => (report [RError true] s, ORet tt)
  | (s, o) => (s, o)
  end.
End Worker.

(** ** The TUN device *)

(** The packets of the device that the server accepts from this client, and
    those of the frames that the device can take. *)
Definition own (assigned_ipv4 : Ipv4Addr) (p : bytes) : Prop := validate_packet_src assigned_ipv4 p = Ok true.
#[export] Instance own_decision assigned_ipv4 p : Decision (own assigned_ipv4 p).
Proof. unfold own. solve_decision. Defined.

Definition read_packet (mtu : Z) (t : ReadTurn) : option bytes :=
  match t with ReadDone (inl p) _ => Some (take (Z.to_nat mtu) p) | _ => None end.
Definition written_packet (t : WriteTurn) : option bytes :=
  match t with WFrame (MData p) _ => if zlen p =? 0 then None else Some p | _ => None end.

(** What ends the reader, and with which result. *)
Definition reader_ends (assigned_ipv4 : Ipv4Addr) (mtu : Z) (t : ReadTurn) (r : io_result unit) : Prop :=
  match t with
  | ReadCancelled => r = inl tt
  | ReadDone (inr e) _ => r = inr e
  | ReadDone (inl p) race => own assigned_ipv4 (take (Z.to_nat mtu) p) ∧ send_to_session_queue race ≠ Sent ∧ r = inl tt
  end.
Definition writer_ends (t : WriteTurn) (part : list bytes) (r : io_result unit) : Prop :=
  match t with
  | WCancelled | WQueueClosed => part = [] ∧ r = inl tt
  | WFrame (MData p) WriteCancelled => part = [] ∧ r = inl tt
  | WFrame (MData p) (WriteFailed e) => part = [] ∧ r = inr e
  | WFrame (MData p) (Wrote n) => n ≠ zlen p ∧ part = [take (Z.to_nat n) p] ∧ r = inr InvalidData
  | _ => False
  end.

Lemma zlen_recv p buf : zlen (recv p buf).1 = zlen buf.
Proof. unfold recv, zlen. cbn. rewrite length_app, length_take, length_drop. lia. Qed.

Lemma recv_len p buf : (recv p buf).2 = zlen (take (Z.to_nat (zlen buf)) p).
Proof. unfold recv, zlen. cbn. rewrite length_take. lia. Qed.

Lemma recv_packet {E} p buf : slice (E := E) (recv p buf).1 0 (recv p buf).2 = Ok (take (Z.to_nat (zlen buf)) p).
Proof.
  assert (0 ≤ (recv p buf).2 ≤ zlen (recv p buf).1) as Hr by (rewrite zlen_recv; unfold recv, zlen; cbn; lia).
  rewrite slice_ok by lia. f_equal. unfold sub. rewrite Z.sub_0_r. change (Z.to_nat 0) with 0%nat. rewrite drop_0.
  unfold recv, zlen. cbn [fst snd].
  rewrite take_app_le by (rewrite length_take; lia). rewrite take_take, Nat.min_id.
  destruct (decide (length p ≤ length buf)%nat).
  - rewrite !take_ge by lia. done.
  - f_equal. lia.
Qed.

(** A packet without a readable source is not this client's. *)
Lemma own_source_iff assigned_ipv4 p :
  bytes_ok p →
  ∃ src, extract_src_ipv4 p = Ok src ∧ (own assigned_ipv4 p ↔ src = Some assigned_ipv4).
Proof.
  intros Hb. unfold own, validate_packet_src, extract_src_ipv4, validate_src_ipv4, IPV4_SRC_ADDR_OFFSET.
  destruct (extract_addr_spec p 12 Hb ltac:(lia)) as [ [_ ->]|[_ ->] ]; res_simpl; eexists; (split; [done|]); [|done].
  split; [intros [= H%bool_decide_eq_true]; by rewrite H|intros [= ->]; by rewrite bool_decide_eq_true_2].
Qed.

Lemma not_own_nil assigned_ipv4 : ¬ own assigned_ipv4 [].
Proof. by unfold own. Qed.

Section Reader.
Context (assigned_ipv4 : Ipv4Addr).

(** The part of the turns that was read, and the turn that ended the task. *)
Definition reader_did (mtu : Z) (turns : list ReadTurn) (queue : list bytes) (r : option (io_result unit)) : Prop :=
  ∃ read rest, turns = read ++ rest ∧ Forall (λ t, is_Some (read_packet mtu t)) read ∧
    queue = filter (own assigned_ipv4) (omap (read_packet mtu) read) ∧
    match r with
    | None => rest = []
    | Some e => ∃ t later, rest = t :: later ∧ reader_ends assigned_ipv4 mtu t e
    end.

Lemma reader_stops mtu t turns e : reader_ends assigned_ipv4 mtu t e → reader_did mtu (t :: turns) [] (Some e).
Proof. intros He. exists [], (t :: turns). by split_and!; [..|by eexists _, _]. Qed.

Lemma reader_skips mtu p race turns queue r :
  ¬ own assigned_ipv4 (take (Z.to_nat mtu) p) → reader_did mtu turns queue r → reader_did mtu (ReadDone (inl p) race :: turns) queue r.
Proof.
  intros Hp (read & rest & -> & Hall & -> & Hr). exists (ReadDone (inl p) race :: read), rest.
  split_and!; [done|by constructor| |done]. cbn [omap list_omap read_packet]. by rewrite filter_cons_False.
Qed.

Lemma reader_hands mtu p race turns queue r :
  own assigned_ipv4 (take (Z.to_nat mtu) p) → reader_did mtu turns queue r →
  reader_did mtu (ReadDone (inl p) race :: turns) (take (Z.to_nat mtu) p :: queue) r.
Proof.
  intros Hp (read & rest & -> & Hall & -> & Hr). exists (ReadDone (inl p) race :: read), rest.
  split_and!; [done|by constructor| |done]. cbn [omap list_omap read_packet]. by rewrite filter_cons_True.
Qed.

Lemma reader_loop_spec turns buf :
  (∀ p race, ReadDone (inl p) race ∈ turns → bytes_ok p) →
  ∃ queue r, reader_loop assigned_ipv4 turns buf = Ok (queue, r) ∧ reader_did (zlen buf) turns queue r.
Proof.
  revert buf. induction turns as [|t turns IH]; intros buf Hb.
  { exists [], None. split; [done|]. by exists [], []. }
  destruct t as [|[p|e] race]; [eexists _, _; split; [done|by apply reader_stops]| |eexists _, _; split; [done|by apply reader_stops] ].
  cbn [reader_loop]. pose proof (zlen_recv p buf) as El. pose proof (recv_len p buf) as En. pose proof (recv_packet (E := unit) p buf) as Ep.
  destruct (recv p buf) as [buf' len]. cbn [fst snd] in *.
  assert (bytes_ok p) as Hp by (eapply Hb; apply elem_of_cons; by left).
  destruct (IH buf') as (queue & r & El' & Hd); [intros p' race' Hin; eapply Hb; apply elem_of_cons; by right|]. rewrite El in Hd.
  destruct (own_source_iff assigned_ipv4 (take (Z.to_nat (zlen buf)) p)) as (src & Esrc & Hown); [by apply Forall_take|].
  rewrite Ep, El'. destruct (Z.eqb_spec len 0) as [H0|H0].
  { exists queue, r. split; [done|]. apply reader_skips; [|done]. rewrite (nil_length_inv (take (Z.to_nat (zlen buf)) p)); [apply not_own_nil|].
    unfold zlen in *. lia. }
  res_simpl. rewrite Esrc. res_simpl. destruct src as [src_ip|]; [|exists queue, r; split; [done|]; apply reader_skips; naive_solver].
  case_bool_decide as Ha; cbn [negb]; [|exists queue, r; split; [done|]; apply reader_skips; naive_solver].
  subst src_ip. destruct (send_to_session_queue race) eqn:Er.
  - res_simpl. eexists _, _. split; [done|]. apply reader_hands; [by apply Hown|done].
  - eexists _, _. split; [done|]. apply reader_stops. split; [by apply Hown|]. by rewrite Er.
  - eexists _, _. split; [done|]. apply reader_stops. split; [by apply Hown|]. by rewrite Er.
Qed.
End Reader.

Lemma run_tun_writer_spec turns :
  ∃ done rest part, turns = done ++ rest ∧
    (run_tun_writer turns).1 = omap written_packet done ++ part ∧
    match (run_tun_writer turns).2 with
    | None => rest = [] ∧ part = []
    | Some e => ∃ t later, rest = t :: later ∧ writer_ends t part e
    end.
Proof.
  induction turns as [|t turns (w & rest & part & E & Hw & Hr)]; [by exists [], [], []|].
  assert ((run_tun_writer (t :: turns)).1 = omap written_packet [t] ++ (run_tun_writer turns).1 ∧
      (run_tun_writer (t :: turns)).2 = (run_tun_writer turns).2 ∨
    ∃ part e, run_tun_writer (t :: turns) = (part, Some e) ∧ writer_ends t part e) as [ [E1 E2]|(part' & e & E1 & He)].
  3: { exists [], (t :: turns), part'. rewrite E1. split_and!; [done|done|by eexists _, _]. }
  - destruct t as [| |m w']; [right; by eexists _, _..|]. cbn [run_tun_writer]. destruct m; try (left; done).
    cbn [omap list_omap written_packet]. destruct (zlen packet =? 0); [by left|].
    destruct w' as [|e|n]; [right; by eexists _, _..|]. destruct (Z.eqb_spec n (zlen packet)) as [->|Hn]; cbn [negb].
    + left. destruct (run_tun_writer turns). cbn. unfold zlen. by rewrite Nat2Z.id, firstn_all.
    + right. by eexists _, _.
  - exists (t :: w), rest, part. rewrite E1, E2, Hw. split_and!; [by rewrite E| |done]. rewrite app_assoc. by rewrite <- omap_app.
Qed.

(** ** The worker *)

(** The types of the fields of a configuration that was read. *)
Class TomlTypes (T : Toml) := {
  client_fields t c : client_from_toml t = Some c → client_types_ok c ∧ ct_reconnect_max (cc_timing c) ≤ DURATION_MAX;
}.

Lemma from_toml_valid `{T : Toml} {TT : TomlTypes T} text config :
  ClientConfig_from_toml_str text = Some config →
  ClientConfig_validate config = Ok tt ∧ client_types_ok config ∧ ct_reconnect_max (cc_timing config) ≤ DURATION_MAX.
Proof.
  unfold ClientConfig_from_toml_str. intros (c & Hc & Hv)%bind_Some.
  destruct (ClientConfig_validate c) as [ []| |] eqn:Ec; simplify_eq. split; [done|]. by eapply client_fields.
Qed.

Lemma started_config `{T : Toml} answer c n n' h :
  start_session answer c n = (n', Ok h) → ∃ config, ClientConfig_from_toml_str (nc_clientToml c) = Some config.
Proof. unfold start_session. destruct (nc_tunFd c <? 0); [done|]. destruct (ClientConfig_from_toml_str _) as [config|]; [by exists config|done]. Qed.

Lemma lowest_fd_fresh fds fd : lowest_fd fds = Some fd → fd ∉ fds.
Proof. intros H%head_Some_elem_of. apply list_elem_of_filter in H as [? _]. done. Qed.

Section WorkerSpec.
Context `{B : Boring} {L : BoringLaws B} {T : BoringTotal B} `{E : Ed25519} {EL : Ed25519Laws E}.
Context (env : WorkerEnv) (config : ClientConfig) (tun_fd : Z) (fds : gset Z).

(** Nothing reported yet and the device not held, or held by a new descriptor. *)
Definition quiet (s : Worker) : Prop := wk_fds s = fds ∧ wk_tun s = None ∧ wk_events s = [].
Definition spawned (s : Worker) : Prop :=
  ∃ fd, fd ∉ fds ∧ wk_fds s = {[fd]} ∪ fds ∧ wk_tun s = Some fd ∧ wk_events s = [].

Lemma duplicate_fd_ok s :
  quiet s →
  wp (duplicate_fd env tun_fd) (λ fd s', fd ∉ fds ∧ wk_fds s' = {[fd]} ∪ fds ∧ wk_tun s' = None ∧ wk_events s' = []) (λ _, quiet) (λ _, False) s.
Proof.
  intros Hs. apply wp_bind, wp_get. destruct (we_dup env); [done|]. destruct (negb _); [done|].
  destruct (lowest_fd (wk_fds s)) as [fd|] eqn:Efd; [|done]. apply wp_bind, wp_modify, wp_ret.
  apply lowest_fd_fresh in Efd. destruct Hs as (Ef & Et & Ee). cbn. rewrite Ef in *. done.
Qed.

Lemma drop_spawned s fd : fd ∉ fds → wk_fds s = {[fd]} ∪ fds → wk_tun s = Some fd → wk_fds (drop_tun s) = fds ∧ wk_tun (drop_tun s) = None.
Proof. intros Hn Ef Et. unfold drop_tun. rewrite Et. cbn. split; [|done]. rewrite Ef. set_solver. Qed.

Lemma drop_quiet s : wk_tun s = None → drop_tun s = s.
Proof. intros Et. unfold drop_tun. by rewrite Et. Qed.

Lemma drop_events s : wk_events (drop_tun s) = wk_events s.
Proof. unfold drop_tun. by destruct (wk_tun s). Qed.

Lemma spawn_from_fd_ok s :
  quiet s →
  match spawn_from_fd env config tun_fd s with
  | (s', ORet _) => spawned s'
  | (s', OErr _) => quiet s'
  | (s', OPanic) => quiet s' ∧ we_from_fd env = Panic
  | (_, OCancel) => False
  end.
Proof.
  intros Hs. unfold spawn_from_fd. destruct (tun_fd <? 0); [done|]. pose proof (duplicate_fd_ok s Hs) as H. unfold wp in H.
  unfold mbind, M_bind. destruct (duplicate_fd env tun_fd s) as [s1 [fd|e| |] ]; [|done..].
  destruct H as (Hn & Ef & Et & Ee). unfold from_fd. destruct (we_from_fd env) as [u|e|].
  - cbn. assert (wk_fds (drop_tun (hold (Some fd) s1)) = fds ∧ wk_tun (drop_tun (hold (Some fd) s1)) = None) as [Hd1 Hd2]
      by (by apply (drop_spawned _ fd)).
    unfold tun_mtu_to_usize. destruct (tun_mtu (cc_tun config) =? 0).
    + split_and!; [exact Hd1|exact Hd2|]. by rewrite drop_events.
    + by exists fd.
  - split_and!; [|done|done]. cbn. rewrite Ef. set_solver.
  - split; [|done]. split_and!; [|done|done]. cbn. rewrite Ef. set_solver.
Qed.

Context (Hvalid : ClientConfig_validate config = Ok tt) (Htypes : client_types_ok config).
Context (Hdur : ct_reconnect_max (cc_timing config) ≤ DURATION_MAX).
Context (Hattempts : Forall attempt_ok (we_attempts env)) (Hlen : zlen (we_attempts env) < u64_max).

(** How a session ends for its host, and what it may hold before. *)
Definition ended_once (s : Worker) : Prop :=
  wk_fds s = fds ∧
  ∃ a t, wk_events s = a :: t ∧ terminal_event a = true ∧ running t ∧ (a = RError true → we_from_fd env = Panic).
Definition still_running (s : Worker) : Prop :=
  running (wk_events s) ∧ ∃ fd, fd ∉ fds ∧ wk_fds s = {[fd]} ∪ fds ∧ wk_tun s = Some fd.

Lemma client_ok s :
  spawned s → wp (client env config) (λ _ s', ended_once (drop_tun s')) (λ _ _, False) still_running s.
Proof.
  intros (fd & Hn & Ef & Et & Ee). pose proof (run_client_ok config Hvalid Htypes Hdur true (we_attempts env) (we_ends env) Hattempts Hlen) as H.
  unfold wp, client in *. destruct (run_client _ _ _ _) as [rt [r|e| |] ]; [|done|done|].
  - destruct H as (_ & _ & _ & H). split; [by apply (drop_spawned _ fd)|]. rewrite drop_events. cbn. rewrite Ee, app_nil_r.
    destruct r as [u|[?|err]|]; [|done| |done].
    + destruct H as (t & Ht & ->). exists RStopped, (RStopping :: t). split_and!; [done|done|by apply running_cons|done].
    + destruct H as (_ & (t & Ht & ->) & _). by exists (RError false), t.
  - split; [|by exists fd]. cbn. rewrite Ee, app_nil_r. apply H.
Qed.

Lemma run_worker_ok s :
  quiet s → wp (run_worker env config tun_fd) (λ _, ended_once) (λ _ _, False) still_running s.
Proof.
  intros Hs. pose proof (spawn_from_fd_ok s Hs) as H. unfold wp, run_worker, run_native_session, run_native_client, mbind, M_bind.
  destruct (spawn_from_fd env config tun_fd s) as [s1 [u|e| |] ]; [| | |done].
  - apply client_ok in H. unfold wp in H. by destruct (client env config s1) as [s2 [?|?| |] ].
  - destruct H as (Ef & Et & Ee). rewrite drop_quiet by done. split; [done|]. cbn. rewrite Ee. exists (RError false), []. by split_and!; [..|constructor|].
  - destruct H as [(Ef & Et & Ee) Hp]. rewrite drop_quiet by done. split; [done|]. cbn. rewrite Ee. exists (RError true), []. by split_and!; [..|constructor|].
Qed.
End WorkerSpec.

(** ** Theorems *)

(** The Android TUN tasks neither lose, cut nor add packets.  Whatever the
    device holds, the reader does not panic, and puts into the session's queue,
    in order, exactly the packets whose source is the assigned address (the
    ones that pass the server's check), up to the turn that ends it; the writer
    gives the device, in order, exactly the packets of the DATA frames, each in
    one write.  Either ends only on a cancellation, a closed queue or an error
    of the device, and the writer also after a short write, whose rest it does
    not write. *)
Theorem android_tun_exact assigned_ipv4 mtu reads writes :
  0 ≤ mtu → (∀ p race, ReadDone (inl p) race ∈ reads → bytes_ok p) →
  (∃ queue r, run_tun_reader assigned_ipv4 mtu reads = Ok (queue, r) ∧ reader_did assigned_ipv4 mtu reads queue r) ∧
  (∃ taken rest part, writes = taken ++ rest ∧
    (run_tun_writer writes).1 = omap written_packet taken ++ part ∧
    match (run_tun_writer writes).2 with
    | None => rest = [] ∧ part = []
    | Some e => ∃ t later, rest = t :: later ∧ writer_ends t part e
    end).
Proof.
  intros Hm Hb. split; [|apply run_tun_writer_spec]. unfold run_tun_reader.
  destruct (reader_loop_spec assigned_ipv4 reads (zeros mtu) Hb) as (queue & r & E & Hd). rewrite zlen_zeros in Hd by done. eauto.
Qed.

(** C21: A native session reports its end once.  For a session that
    [start_session] started, however the descriptor and the TUN device behave,
    the worker never panics for its host; while it runs it has reported no
    terminal event, and holds one descriptor of its own besides those that were
    open; once it has ended, its last event, and no other, is Stopped or Error,
    and exactly the descriptors are open that were open before, Kotlin's among
    them.  A restart is asked for only when the set-up of the device
    panicked. *)
Theorem native_session_reports_end `{B : Boring} {L : BoringLaws B} {BT : BoringTotal B} `{E : Ed25519} {EL : Ed25519Laws E}
    `{T : Toml} {TT : TomlTypes T} env answer c n n' h fds :
  start_session answer c n = (n', Ok h) → Forall attempt_ok (we_attempts env) → zlen (we_attempts env) < u64_max →
  ∃ config, ClientConfig_from_toml_str (nc_clientToml c) = Some config ∧
    match run_worker env config (nc_tunFd c) (mkWorker fds None []) with
    | (s, ORet _) => ended_once env fds s
    | (s, OCancel) => still_running fds s
    | (_, OErr _) | (_, OPanic) => False
    end.
Proof.
  intros (config & Hc)%started_config Ha Hl. exists config. split; [done|]. destruct (from_toml_valid _ _ Hc) as (Hv & Ht & Hd).
  pose proof (run_worker_ok env config (nc_tunFd c) fds Hv Ht Hd Ha Hl (mkWorker fds None []) ltac:(by split)) as H.
  unfold wp in H. by destruct (run_worker _ _ _ _) as [s [?|?| |] ].
Qed.

(** ** Witnesses *)
Module NativeDemo.
Import Checksum ToyEd25519 AddDemo.

#[export] Instance numbered_types : TomlTypes numbered.
Proof. split. cbn. intros t c. case_decide; [intros [= <-]; split; decided|done]. Qed.

Definition session : NativeSessionConfig := mkNativeConfig [3] 5 1186.
Definition refused : WorkerEnv := mkWorkerEnv None (Ok tt) RuntimeDemo.attempts RuntimeDemo.ends.
Definition packet : bytes := [0x45] ++ zeros 11 ++ [10; 10; 0; 3] ++ [10; 10; 0; 2].
Definition reads : list ReadTurn :=
  [ReadDone (inl packet) (mkSendRace false true); ReadDone (inl [1; 2]) (mkSendRace false true); ReadDone (inr BrokenPipe) (mkSendRace false true)].
Definition writes : list WriteTurn := [WFrame (MData packet) (Wrote 20); WFrame (MPing []) WriteCancelled; WFrame (MData packet) (Wrote 7)].
End NativeDemo.

Section NativeWitnesses.
Import Checksum ToyEd25519 AddDemo NativeDemo.

Lemma android_tun_exact_witness :
  run_tun_reader [10; 10; 0; 3] 1186 reads = Ok ([packet], Some (inr BrokenPipe)) ∧
  (run_tun_writer writes).1 = [packet; take 7 packet] ∧
  ∃ queue r, run_tun_reader [10; 10; 0; 3] 1186 reads = Ok (queue, r) ∧ reader_did [10; 10; 0; 3] 1186 reads queue r.
Proof.
  split; [by vm_compute|]. split; [done|]. apply (android_tun_exact [10; 10; 0; 3] 1186 reads writes); [done|].
  intros p race Hin. unfold reads in Hin. repeat (apply elem_of_cons in Hin as [Hin|Hin]; [simplify_eq; decided|]).
  exfalso. exact (not_elem_of_nil _ Hin).
Defined.

Lemma native_session_reports_end_witness :
  ∃ config, ClientConfig_from_toml_str (nc_clientToml session) = Some config ∧
    match run_worker refused config 5 (mkWorker {[0; 5]} None []) with
    | (s, ORet _) => ended_once refused {[0; 5]} s
    | (s, OCancel) => still_running {[0; 5]} s
    | (_, OErr _) | (_, OPanic) => False
    end.
Proof.
  apply (native_session_reports_end (T := numbered) refused (mkStart true true) session Native_new (mkNative 2 {[1 := false]}) 1 {[0; 5]});
    [vm_compute; reflexivity|apply RuntimeDemo.attempts_ok|done].
Defined.
End NativeWitnesses.
