(* ===== verification/Discovery.v ===== *)
(** * QUIC discovery on the client ([slt-client/src/transport/quic_discovery.rs])

    Before the client can register for UDP it needs a connection ID that the
    server's QUIC stack recognises.  It makes a QUIC connection to each address
    of the server until one succeeds, takes the identifiers of the connection
    and closes it.  The identifiers are what a client session assumes of the
    result of its discovery.

    The QUIC library (quiche) is the class [Quiche]; resolver, socket, clock,
    random numbers and the arm that each [select!] takes are answers of an
    environment.  A turn of the loop that has not ended yet is an [OCancel] of
    [Effects]. *)

From stdpp Require Import base tactics option list numbers.
From Stdlib Require Import ZArith Lia.
From S2P Require Import Prelude Effects Cid UdpIo Config ClientState ClientSafety.

(** A connection; [qc_send] gives the next packet with its destination, until
    there is none, and [qc_left] counts those that are left. *)
Class Quiche := {
  Conn : Type;
  qc_connect : bytes → SocketAddr → SocketAddr → option Conn;
  qc_send : Conn → Conn * option (bytes * SocketAddr);
  qc_recv : Conn → bytes → Conn;
  qc_on_timeout : Conn → Conn;
  qc_close : Conn → Conn;
  qc_is_established : Conn → bool;
  qc_is_closed : Conn → bool;
  qc_destination_id : Conn → bytes;
  qc_source_id : Conn → bytes;
  qc_left : Conn → nat;
}.
Class QuicheLaws (Q : Quiche) := {
  send_ends : ∀ c c' p, qc_send c = (c', Some p) → (qc_left c' < qc_left c)%nat;
  destination_id_bytes : ∀ c, bytes_ok (qc_destination_id c);
  source_id_bytes : ∀ c, bytes_ok (qc_source_id c);
}.

Definition QUIC_HANDSHAKE_TIMEOUT : Z := 5 * 10 ^ 9.

Inductive QuicDiscoveryError :=
  | DeQuiche
  | DeQuicConfig
  | DeCid (e : CidError)
  | DeIo (e : IoError)
  | DeTimeout
  | DeConnectionClosed
  | DeCancelled
  | DeNoPeers
  | DeEmptyHostname.

Definition into_io (e : QuicDiscoveryError) : IoError :=
  match e with
  | DeIo err => err
  | DeTimeout => TimedOut
  | DeConnectionClosed => ConnectionAborted
  | DeCancelled => Interrupted
  | DeNoPeers => NotFound
  | DeEmptyHostname => InvalidInput
  | DeQuiche | DeQuicConfig | DeCid _ => InvalidData
  end.

(** The arm that a [select!] takes. *)
Inductive Selected :=
  | SelCancelled
  | SelRecv (r : io_result (bytes * SocketAddr))
  | SelTimer.

(** [de_addr] is [SocketAddr::new]; the others are the answers to the
    questions by their number. *)
Record DiscoveryEnv := mkDiscoveryEnv {
  de_addr : bytes → Z → SocketAddr;
  de_resolve : bytes → Z → io_result (list SocketAddr);
  de_bind : Z → io_result unit;
  de_protect : Z → io_result unit;
  de_convert : Z → io_result unit;
  de_local : Z → io_result SocketAddr;
  de_config : Z → bool;
  de_send : Z → io_result unit;
  de_now : Z → Z;
  de_select : Z → Selected;
  de_random : Z → Z;
}.

(** What happens to the sockets, the newest first, for the theorems:
    [DFed peer from] is a datagram from [from] that the connection to [peer]
    has got. *)
Inductive discovery_action :=
  | DBound (peer : SocketAddr)
  | DProtected
  | DSent (data : bytes) (to : SocketAddr)
  | DFed (peer from : SocketAddr)
  | DEstablished (peer : SocketAddr).

Record Discovery := mkDiscovery { di_tick : Z; di_trace : list discovery_action }.

Section Discover.
Context `{Q : Quiche} (env : DiscoveryEnv) (config : ClientConfig).
Abbreviation M := (eff Discovery QuicDiscoveryError).

(** A question. *)
Definition ask {A} (f : Z → A) : M A := λ s, (mkDiscovery (di_tick s + 1) (di_trace s), ORet (f (di_tick s))).
Definition dlog (a : discovery_action) : M unit := modify (λ s, mkDiscovery (di_tick s) (a :: di_trace s)).
Definition ask_io {A} (f : Z → io_result A) : M A := r ← ask f; try DeIo (of_io r).

Definition bind_protected_udp_socket (peer : SocketAddr) : M unit :=
  _ ← ask_io (de_bind env);
  _ ← dlog (DBound peer);
  _ ← ask_io (de_protect env);
  _ ← dlog DProtected;
  ask_io (de_convert env).

(** [fill_random] on [n] bytes, in chunks of at most eight. *)
Fixpoint random_chunks (k : nat) (n : Z) : M bytes :=
  match k with
  | O => mret []
  | S k =>
      chunk ← ask (de_random env);
      rest ← random_chunks k (n - 8);
      mret (take (Z.to_nat n) (to_be 8 chunk) ++ rest)
  end.
Definition fill_random (n : Z) : M bytes := random_chunks (Z.to_nat ((n + 7) / 8)) n.

(** [while let Ok(..) = conn.send(..)] *)
Fixpoint send_all (fuel : nat) (conn : Conn) : M Conn :=
  match fuel with
  | O => dropped
  | S fuel =>
      match qc_send conn with
      | (conn, None) => mret conn
      | (conn, Some (data, to)) =>
          _ ← dlog (DSent data to);
          _ ← ask_io (de_send env);
          send_all fuel conn
      end
  end.

(** The identifiers of a connection that is established. *)
Definition discover_ids (peer : SocketAddr) (conn : Conn) : M (Conn * QuicIds) :=
  _ ← dlog (DEstablished peer);
  let dcid_bytes := qc_destination_id conn in
  dcid ← (if zlen dcid_bytes <? MAX_DCID_LEN then
            rest ← fill_random (MAX_DCID_LEN - zlen dcid_bytes);
            try DeCid (Cid_new (dcid_bytes ++ rest))
          else try DeCid (Cid_new dcid_bytes));
  scid ← try DeCid (Cid_new (qc_source_id conn));
  mret (qc_close conn, mkQuicIds dcid scid peer).

(** The loop of [discover_quic_ids_for_peer]. *)
Fixpoint discovery_loop (fuel : nat) (peer : SocketAddr) (deadline : Z) (conn : Conn) (discovered_ids : option QuicIds) : M QuicIds :=
  match fuel with
  | O => dropped
  | S fuel =>
      conn ← send_all (S (qc_left conn)) conn;
      r ← (match discovered_ids with
           | None => if qc_is_established conn then r ← discover_ids peer conn; mret (r.1, Some r.2) else mret (conn, None)
           | Some _ => mret (conn, discovered_ids)
           end);
      let conn := r.1 in
      let discovered_ids := r.2 in
      if qc_is_closed conn then match discovered_ids with Some ids => mret ids | None => fail DeConnectionClosed end else
      now ← ask (de_now env);
      if deadline <=? now then fail DeTimeout else
      selected ← ask (de_select env);
      match selected with
      | SelCancelled => fail DeCancelled
      | SelRecv (inr e) => fail (DeIo e)
      | SelRecv (inl (data, from)) =>
          if negb (from =? peer) then discovery_loop fuel peer deadline conn discovered_ids
          else _ ← dlog (DFed peer from); discovery_loop fuel peer deadline (qc_recv conn data) discovered_ids
      | SelTimer => discovery_loop fuel peer deadline (qc_on_timeout conn) discovered_ids
      end
  end.

Definition discover_quic_ids_for_peer (fuel : nat) (peer : SocketAddr) : M QuicIds :=
  _ ← bind_protected_udp_socket peer;
  local ← ask_io (de_local env);
  configured ← ask (de_config env);
  if negb configured then fail DeQuicConfig else
  match qc_connect (hostname (cc_network config)) local peer with
  | None => fail DeQuiche
  | Some conn =>
      now ← ask (de_now env);
      discovery_loop fuel peer (now + QUIC_HANDSHAKE_TIMEOUT) conn None
  end.

(** The loop over the addresses. *)
Fixpoint discover_first (fuel : nat) (peers : list SocketAddr) (last_err : option QuicDiscoveryError) : M QuicIds :=
  match peers with
  | [] => fail (default DeNoPeers last_err)
  | peer :: peers =>
      r ← result (discover_quic_ids_for_peer fuel peer);
      match r with
      | Ok ids => mret ids
      | Err err => discover_first fuel peers (Some err)
      | Panic => panic
      end
  end.

Definition resolve_peers (peer_override : option SocketAddr) : io_result (list SocketAddr) :=
  match peer_override with
  | Some peer => inl [peer]
  | None =>
      match ip_override (cc_network config) with
      | Some ip => inl [de_addr env ip (port (cc_network config))]
      | None => de_resolve env (hostname (cc_network config)) (port (cc_network config))
      end
  end.

Definition discover_quic_ids (fuel : nat) (peer_override : option SocketAddr) (s : Discovery) : Discovery * outcome IoError QuicIds :=
  if bool_decide (hostname (cc_network config) = []) then (s, OErr (into_io DeEmptyHostname)) else
  match resolve_peers peer_override with
  | inr e => (s, OErr e)
  | inl peers =>
      match discover_first fuel peers None s with
      | (s, ORet ids) => (s, ORet ids)
      | (s, OErr e) => (s, OErr (into_io e))
      | (s, OPanic) => (s, OPanic)
      | (s, OCancel) => (s, OCancel)
      end
  end.
End Discover.

(** ** What holds of the trace *)
Fixpoint protected (l : list discovery_action) : bool :=
  match l with
  | DProtected :: _ => true
  | DBound _ :: _ => false
  | _ :: l => protected l
  | [] => false
  end.
Fixpoint bound (l : list discovery_action) : option SocketAddr :=
  match l with
  | DBound peer :: _ => Some peer
  | _ :: l => bound l
  | [] => None
  end.

(** Packets leave protected sockets only, and a connection gets the datagrams
    of its peer only. *)
Fixpoint trace_ok (l : list discovery_action) : Prop :=
  match l with
  | [] => True
  | a :: l => trace_ok l ∧
      match a with
      | DSent _ _ => protected l = true
      | DFed peer from => from = peer ∧ bound l = Some peer
      | DEstablished peer => bound l = Some peer
      | _ => True
      end
  end.

Section Spec.
Context `{Q : Quiche} {L : QuicheLaws Q} (env : DiscoveryEnv) (config : ClientConfig).
Hypothesis clock_advances : ∀ i j, i < j → de_now env i < de_now env j.
Implicit Type s : Discovery.

Definition on (peer : SocketAddr) s : Prop :=
  trace_ok (di_trace s) ∧ protected (di_trace s) = true ∧ bound (di_trace s) = Some peer.

Record ids_good (peer : SocketAddr) (ids : QuicIds) s : Prop := mkIdsGood {
  ig_ok : ids_ok ids;
  ig_len : cid_len (ids_dcid ids) = MAX_DCID_LEN;
  ig_peer : ids_peer ids = peer;
  ig_established : DEstablished peer ∈ di_trace s;
}.

(** A part of a discovery that ends with [Qd], or with an error. *)
Definition runs {A} (m : eff Discovery QuicDiscoveryError A) (Qd : A → Discovery → Prop) s : Prop :=
  wp m (λ a s', di_tick s ≤ di_tick s' ∧ di_trace s `suffix_of` di_trace s' ∧ Qd a s')
    (λ _ s', di_tick s ≤ di_tick s' ∧ di_trace s `suffix_of` di_trace s' ∧ trace_ok (di_trace s')) (λ _, False) s.

Lemma runs_bind {A B} (m : eff Discovery QuicDiscoveryError A) (k : A → eff Discovery QuicDiscoveryError B) Q1 Q2 s :
  runs m Q1 s → (∀ a s', di_tick s ≤ di_tick s' → di_trace s `suffix_of` di_trace s' → Q1 a s' → runs (k a) Q2 s') → runs (m ≫= k) Q2 s.
Proof.
  intros Hm Hk. apply wp_bind. eapply wp_mono; [exact Hm|]. intros a s' (Ht & Hx & Ha).
  eapply wp_weaken; [exact (Hk a s' Ht Hx Ha)|..]; [|intros e s'' (Ht' & Hx' & Hb); split_and!; [lia|by etrans|done]|done].
  intros b s'' (Ht' & Hx' & Hb). split_and!; [lia| |done]. by etrans.
Qed.

Lemma runs_ret {A} (a : A) (Qd : A → Discovery → Prop) s : Qd a s → runs (mret a) Qd s.
Proof. intros Ha. split_and!; [lia|done|done]. Qed.
Lemma runs_fail {A} e (Qd : A → Discovery → Prop) s : trace_ok (di_trace s) → runs (fail e) Qd s.
Proof. intros Hs. split_and!; [lia|done|done]. Qed.
Lemma runs_ask {A} (f : Z → A) (Qd : A → Discovery → Prop) s :
  Qd (f (di_tick s)) (mkDiscovery (di_tick s + 1) (di_trace s)) → runs (ask f) Qd s.
Proof. intros Ha. split_and!; [cbn; lia|done|done]. Qed.
Lemma runs_log a (Qd : unit → Discovery → Prop) s : Qd tt (mkDiscovery (di_tick s) (a :: di_trace s)) → runs (dlog a) Qd s.
Proof. intros Ha. split_and!; [cbn; lia|by apply suffix_cons_r|done]. Qed.
Lemma runs_try {X A} (f : X → QuicDiscoveryError) (r : res X A) (Qd : A → Discovery → Prop) s :
  trace_ok (di_trace s) → r ≠ Panic → (∀ a, r = Ok a → Qd a s) → runs (try f r) Qd s.
Proof. intros Hs Hr Ha. apply wp_try; [done| |intros; split_and!; [lia|done|done] ]. intros a E. split_and!; [lia|done|by apply Ha]. Qed.
Lemma runs_ask_io {A} (f : Z → io_result A) (Qd : A → Discovery → Prop) s :
  trace_ok (di_trace s) → (∀ a, Qd a (mkDiscovery (di_tick s + 1) (di_trace s))) → runs (ask_io f) Qd s.
Proof.
  intros Hs Ha. eapply runs_bind; [by apply (runs_ask f (λ r s', r = f (di_tick s) ∧ s' = mkDiscovery (di_tick s + 1) (di_trace s)))|].
  intros r s' _ _ [_ ->]. apply runs_try; [done|by destruct r|]. intros a _. apply Ha.
Qed.

Lemma bind_protected_ok peer s : trace_ok (di_trace s) → runs (bind_protected_udp_socket env peer) (λ _ s', on peer s') s.
Proof.
  intros Hs. unfold bind_protected_udp_socket.
  eapply runs_bind; [by apply (runs_ask_io _ (λ _ s', trace_ok (di_trace s')))|]. intros [] s1 _ _ H1.
  eapply runs_bind; [by apply (runs_log _ (λ _ s', trace_ok (di_trace s') ∧ bound (di_trace s') = Some peer))|]. intros [] s2 _ _ [H2 E2].
  eapply runs_bind; [by apply (runs_ask_io _ (λ _ s', trace_ok (di_trace s') ∧ bound (di_trace s') = Some peer))|]. intros [] s3 _ _ [H3 E3].
  eapply runs_bind; [by apply (runs_log _ (λ _ s', on peer s'))|]. intros [] s4 _ _ H4. apply runs_ask_io; [apply H4|done].
Qed.

Lemma random_ok k n peer s :
  on peer s → 8 * (Z.of_nat k - 1) < n ≤ 8 * Z.of_nat k →
  runs (random_chunks env k n) (λ r s', on peer s' ∧ bytes_ok r ∧ zlen r = Z.max 0 n) s.
Proof.
  revert n s. induction k as [|k IH]; intros n s Hs Hn; cbn [random_chunks].
  { apply runs_ret. split_and!; [done|constructor|change (zlen []) with 0; lia]. }
  eapply runs_bind; [by apply (runs_ask _ (λ _ s', on peer s'))|]. intros chunk s1 _ _ H1.
  destruct (decide (0 < n - 8)) as [Hp|Hp].
  - eapply runs_bind; [by apply (IH (n - 8)); [|lia]|]. intros rest s2 _ _ (H2 & Hb & Hl). apply runs_ret. split_and!; [done| |].
    + apply bytes_ok_app. split; [|done]. apply Forall_take, bytes_ok_to_be.
    + rewrite zlen_app, Hl. pose proof (zlen_to_be 8 chunk) as Hz. unfold zlen in *. rewrite length_take. lia.
  - assert (k = O) as -> by lia. cbn [random_chunks]. eapply runs_bind; [by apply (runs_ret [] (λ r s', r = [] ∧ on peer s'))|].
    intros rest s2 _ _ [-> H2]. apply runs_ret. rewrite app_nil_r. split_and!; [done|apply Forall_take, bytes_ok_to_be|].
    pose proof (zlen_to_be 8 chunk) as Hz. unfold zlen in *. rewrite length_take. lia.
Qed.

Lemma send_all_ok fuel conn peer s :
  on peer s → (qc_left conn < fuel)%nat → runs (send_all env fuel conn) (λ _ s', on peer s') s.
Proof using L.
  revert conn s. induction fuel as [|fuel IH]; intros conn s Hs Hf; [lia|]. cbn [send_all].
  destruct (qc_send conn) as [conn' [ [data to]|] ] eqn:E; [|by apply runs_ret]. apply send_ends in E.
  eapply runs_bind; [apply (runs_log _ (λ _ s', on peer s')); by destruct Hs as (H1 & H2 & H3)|]. intros [] s1 _ _ H1.
  eapply runs_bind; [apply (runs_ask_io _ (λ _ s', on peer s')); [apply H1|done]|]. intros [] s2 _ _ H2. apply IH; [done|lia].
Qed.

Lemma cid_new_runs b peer s :
  on peer s → bytes_ok b → runs (try DeCid (Cid_new b)) (λ c s', on peer s' ∧ Cid_ok c ∧ cid_len c = zlen b) s.
Proof.
  intros Hs Hb. destruct (Z.le_gt_cases (zlen b) MAX_DCID_LEN) as [Hl|Hl].
  - destruct (Cid_new_ok b Hb Hl) as (c & -> & Hc & Hlen & _). apply runs_try; [apply Hs|done|]. by intros a [= <-].
  - apply runs_try; [apply Hs|..]; unfold Cid_new; rewrite Z.gtb_ltb, (proj2 (Z.ltb_lt _ _)) by lia; done.
Qed.

Lemma discover_ids_ok peer conn s :
  on peer s → runs (discover_ids env peer conn) (λ r s', on peer s' ∧ ids_good peer r.2 s') s.
Proof using L.
  intros Hs. unfold discover_ids.
  eapply runs_bind; [apply (runs_log _ (λ _ s', on peer s' ∧ DEstablished peer ∈ di_trace s')); cbn; destruct Hs as (?&?&?); split; [done|left]|].
  intros [] s1 _ _ [H1 He]. pose proof (destination_id_bytes conn) as Hd.
  eapply (runs_bind _ _ (λ c s', on peer s' ∧ Cid_ok c ∧ cid_len c = MAX_DCID_LEN)).
  - destruct (Z.ltb_spec (zlen (qc_destination_id conn)) MAX_DCID_LEN) as [Hl|Hl].
    + unfold fill_random. pose proof (zlen_nonneg (qc_destination_id conn)).
      eapply runs_bind; [apply (random_ok _ _ peer); [done|]; unfold MAX_DCID_LEN in *; rewrite Z2Nat.id; Z.to_euclidean_division_equations; lia|].
      intros rest s2 _ _ (H2 & Hb & Hr). eapply wp_mono; [apply (cid_new_runs _ peer); [done|by apply bytes_ok_app]|].
      intros c s3 (Ht & Hx & H3 & Hc & Hlen). split_and!; try done. rewrite Hlen, zlen_app, Hr. unfold MAX_DCID_LEN in *. lia.
    + destruct (Z.eq_dec (zlen (qc_destination_id conn)) MAX_DCID_LEN) as [E|E].
      * rewrite <- E. by apply cid_new_runs.
      * apply runs_try; [apply H1|..]; unfold Cid_new; rewrite Z.gtb_ltb, (proj2 (Z.ltb_lt _ _)) by lia; done.
  - intros dcid s2 _ Hx2 (H2 & Hc & Hlen).
    eapply runs_bind; [by apply (cid_new_runs _ peer); [|apply source_id_bytes]|]. intros scid s3 _ Hx3 (H3 & Hc' & _).
    apply runs_ret. split; [done|]. split; try done. destruct Hx2 as [l2 E2], Hx3 as [l3 E3]. cbn [snd] in *.
    rewrite E3, E2, !elem_of_app. auto.
Qed.

Lemma ids_good_mono peer ids s s' : di_trace s `suffix_of` di_trace s' → ids_good peer ids s → ids_good peer ids s'.
Proof. intros [l E] []. split; try done. rewrite E, elem_of_app. auto. Qed.

Definition maybe_good (peer : SocketAddr) (o : option QuicIds) s : Prop := ∀ ids, o = Some ids → ids_good peer ids s.

Lemma clock_mono i j : i ≤ j → de_now env i ≤ de_now env j.
Proof using clock_advances. intros Hij. destruct (Z.eq_dec i j) as [->|]; [lia|]. pose proof (clock_advances i j ltac:(lia)). lia. Qed.

Lemma loop_ok fuel peer deadline conn o s :
  on peer s → maybe_good peer o s → (0 < fuel)%nat → deadline < de_now env (di_tick s) + Z.of_nat fuel →
  runs (discovery_loop env fuel peer deadline conn o) (λ ids s', on peer s' ∧ ids_good peer ids s') s.
Proof using L clock_advances.
  revert conn o s. induction fuel as [|fuel IH]; intros conn o s Hs Ho Hf Hd; [lia|]. cbn [discovery_loop].
  eapply runs_bind; [apply (send_all_ok _ _ peer); [done|lia]|]. intros conn1 s1 Ht1 Hx1 H1.
  eapply (runs_bind _ _ (λ r s', on peer s' ∧ maybe_good peer r.2 s')).
  { destruct o as [ids|]; [apply runs_ret; split; [done|]; intros i [= <-]; by apply (ids_good_mono _ _ s), Ho|].
    destruct (qc_is_established conn1); [|by apply runs_ret].
    eapply runs_bind; [by apply discover_ids_ok|]. intros r s2 _ _ [H2 Hg]. apply runs_ret. split; [done|]. by intros i [= <-]. }
  intros [conn2 o2] s2 Ht2 Hx2 [H2 Ho2]. cbn [fst snd] in *. destruct (qc_is_closed conn2).
  { destruct o2 as [ids|]; [apply runs_ret; by auto|apply runs_fail, H2]. }
  eapply runs_bind; [by apply (runs_ask _ (λ now s', now = de_now env (di_tick s2) ∧ di_tick s' = di_tick s2 + 1 ∧ di_trace s' = di_trace s2))|].
  intros now s3 _ Hx3 (-> & Et3 & E3).
  assert (on peer s3) as H3 by (unfold on; by rewrite E3).
  destruct (Z.leb_spec deadline (de_now env (di_tick s2))) as [|Hlt]; [apply runs_fail, H3|].
  eapply runs_bind; [by apply (runs_ask _ (λ _ s', on peer s' ∧ di_tick s' = di_tick s3 + 1))|]. intros sel s5 _ Hx5 [H5 Et5].
  pose proof (clock_mono (di_tick s) (di_tick s2) ltac:(lia)). 
  assert (∀ s6, di_tick s5 ≤ di_tick s6 → di_trace s5 `suffix_of` di_trace s6 → on peer s6 → ∀ c,
    runs (discovery_loop env fuel peer deadline c o2) (λ ids s', on peer s' ∧ ids_good peer ids s') s6) as Hnext.
  { intros s6 Ht6 Hx6 H6 c. apply IH; [done| |lia|pose proof (clock_advances (di_tick s2) (di_tick s6) ltac:(lia)); lia].
    intros i Hi. apply (ids_good_mono _ _ s2); [|by apply Ho2]. by do 2 (etrans; [eassumption|]). }
  destruct sel as [|[ [data from]|e]|]; [apply runs_fail, H5| |apply runs_fail, H5|by apply Hnext].
  destruct (Z.eqb_spec from peer) as [->|]; cbn [negb]; [|by apply Hnext].
  eapply runs_bind; [apply (runs_log _ (λ _ s', on peer s')); by destruct H5 as (?&?&?)|]. intros [] s6 Ht6 Hx6 H6. by apply Hnext.
Qed.

Lemma for_peer_ok fuel peer s :
  trace_ok (di_trace s) → QUIC_HANDSHAKE_TIMEOUT < Z.of_nat fuel →
  runs (discover_quic_ids_for_peer env config fuel peer) (λ ids s', on peer s' ∧ ids_good peer ids s') s.
Proof using L clock_advances.
  intros Hs Hf. unfold discover_quic_ids_for_peer. eapply runs_bind; [by apply bind_protected_ok|]. intros [] s1 _ _ H1.
  eapply runs_bind; [apply (runs_ask_io _ (λ _ s', on peer s')); [apply H1|done]|]. intros local s2 _ _ H2.
  eapply runs_bind; [by apply (runs_ask _ (λ _ s', on peer s'))|]. intros configured s3 _ _ H3.
  destruct (negb configured); [apply runs_fail, H3|]. destruct (qc_connect _ _ _) as [conn|]; [|apply runs_fail, H3].
  eapply runs_bind; [by apply (runs_ask _ (λ now s', now = de_now env (di_tick s3) ∧ di_tick s' = di_tick s3 + 1 ∧ on peer s'))|].
  intros now s4 _ _ (-> & Et & H4). unfold QUIC_HANDSHAKE_TIMEOUT in *. apply loop_ok; [done|done|lia|].
  pose proof (clock_mono (di_tick s3) (di_tick s4) ltac:(lia)). lia.
Qed.

Lemma first_ok fuel peers e s :
  trace_ok (di_trace s) → QUIC_HANDSHAKE_TIMEOUT < Z.of_nat fuel →
  runs (discover_first env config fuel peers e) (λ ids s', trace_ok (di_trace s') ∧ ∃ peer, peer ∈ peers ∧ ids_good peer ids s') s.
Proof using L clock_advances.
  intros Hs Hf. revert e s Hs. induction peers as [|peer peers IH]; intros e s Hs; cbn [discover_first]; [by apply runs_fail|].
  apply wp_bind, wp_result. eapply wp_weaken; [by apply (for_peer_ok fuel peer)|..]; [| |done].
  - cbn. intros ids s' (Ht & Hx & [H1 _] & Hg). split_and!; [done..|]. exists peer. split; [left|done].
  - cbn. intros err s' (Ht & Hx & Hs'). eapply wp_weaken; [apply (IH (Some err) s' Hs')|..]; [| |done].
    + intros ids s'' (Ht' & Hx' & Hs'' & p & Hp & Hg). split_and!; [lia|by etrans|done|]. exists p. split; [by right|done].
    + intros e' s'' (Ht' & Hx' & Hs''). split_and!; [lia|by etrans|done].
Qed.
End Spec.

(** ** Theorem *)


(** ** Witness: the connection is established when it has got a datagram *)
Module DiscoveryDemo.
(** How much has been sent and received, and whether it is closed. *)
#[export] Instance handshake : Quiche := {|
  Conn := bool * bool * bool;
  qc_connect _ _ _ := Some (false, false, false);
  qc_send '(sent, got, closed) := if sent then ((sent, got, closed), None) else ((true, got, closed), Some ([7], 9));
  qc_recv '(sent, got, closed) _ := (sent, true, closed);
  qc_on_timeout c := c;
  qc_close '(sent, got, _) := (sent, got, true);
  qc_is_established '(_, got, _) := got;
  qc_is_closed '(_, _, closed) := closed;
  qc_destination_id _ := [1; 2; 3];
  qc_source_id _ := [];
  qc_left '(sent, _, _) := if (sent : bool) then 0%nat else 1%nat;
|}.
#[export] Instance handshake_laws : QuicheLaws handshake.
Proof.
  split; cbn.
  - intros [ [ [] ?] ?] [ [? ?] ?] p; cbn; [done|]. intros [= <- <- <- _]. lia.
  - intros _. repeat constructor; decided.
  - intros _. constructor.
Qed.

(** A datagram of somebody else is ignored. *)
Definition env : DiscoveryEnv :=
  mkDiscoveryEnv (λ _ p, p) (λ _ _, inl [4; 9]) (λ t, if t <? 1 then inr PermissionDenied else inl tt) (λ _, inl tt) (λ _, inl tt)
    (λ _, inl 1) (λ _, true) (λ _, inl tt) (λ t, t) (λ t, SelRecv (inl ([8], if t <? 9 then 5 else 9))) (λ _, 77).
Definition config : ClientConfig :=
  mkClientConfig (mkClientNetwork [118] 443 None) (mkIdentity [] [] [] []) (mkTunConfig [] 1280 [10; 0; 0; 2] 24) CAuto true false
    ClientTimingConfig_default.
Definition fuel (n : nat) : nat := 8 + n.
Definition finished : Discovery * outcome IoError QuicIds :=
  Eval vm_compute in discover_quic_ids env config (fuel 0) None (mkDiscovery 0 []).

Lemma finishes n : discover_quic_ids env config (fuel n) None (mkDiscovery 0 []) = finished.
Proof. vm_compute. reflexivity. Qed.
End DiscoveryDemo.

