(* ===== verification/Programs.v ===== *)
(** * Programs of calls

    Code that runs beside other code, on a file system or a store they share,
    is a tree: each node is one call of the operating system, with what the
    code does for each answer.  Whoever runs such programs decides which of
    them makes the next call and what the answer is. *)

From stdpp Require Import base tactics option list numbers gmap relations.
From S2P Require Import Prelude.

(** A program whose calls are [Op], with its errors; [Op B] is a call that is
    answered with a [B]. *)
Inductive prog (Op : Set → Set) (Err A : Type) :=
  | PRet (a : A)
  | PThrow (e : Err)
  | PDo (B : Set) (o : Op B) (k : B → prog Op Err A).
Arguments PRet {Op Err A} a.
Arguments PThrow {Op Err A} e.
Arguments PDo {Op Err A B} o k.

Section Programs.
Context {Op : Set → Set} {Err : Type}.
Abbreviation P := (prog Op Err).

#[export] Instance prog_ret : MRet P := λ A, PRet.
#[export] Instance prog_bind : MBind P := λ A B f, fix go p :=
  match p with
  | PRet a => f a
  | PThrow e => PThrow e
  | PDo o k => PDo o (λ b, go (k b))
  end.
Definition call {B : Set} (o : Op B) : P B := PDo o PRet.

(** An exception is handled. *)
Fixpoint catch {A} (p : P A) (h : Err → P A) : P A :=
  match p with
  | PRet a => PRet a
  | PThrow e => h e
  | PDo o k => PDo o (λ b, catch (k b) h)
  end.

(** The value of a program, errors included. *)
Definition outcome_of {A} (p : P A) : P (A + Err) := catch (a ← p; PRet (inl a)) (λ e, PRet (inr e)).
End Programs.

(** ** Weakest preconditions

    [T] tells what a call may do: [T o v Φ] when [Φ] holds of every answer and
    of the knowledge [V] the program then has. *)
Section Logic.
Context {Op : Set → Set} {Err V : Type} (T : ∀ B, Op B → V → (B → V → Prop) → Prop).

Fixpoint pwp {A} (Q : A → V → Prop) (X : Err → V → Prop) (v : V) (p : prog Op Err A) : Prop :=
  match p with
  | PRet a => Q a v
  | PThrow e => X e v
  | PDo o k => T _ o v (λ b v, pwp Q X v (k b))
  end.

Context (T_mono : ∀ B (o : Op B) v (Φ Ψ : B → V → Prop), (∀ b v, Φ b v → Ψ b v) → T B o v Φ → T B o v Ψ).

Lemma pwp_mono {A} (Q Q' : A → V → Prop) (X X' : Err → V → Prop) v p :
  (∀ a v, Q a v → Q' a v) → (∀ e v, X e v → X' e v) → pwp Q X v p → pwp Q' X' v p.
Proof using T_mono.
  intros HQ HX. revert v. induction p as [a|e|B o k IH]; intros v; cbn; [auto..|]. apply T_mono. intros b v'. apply IH.
Qed.
Lemma pwp_bind {A B} (Q : B → V → Prop) X v (p : prog Op Err A) (f : A → prog Op Err B) :
  pwp (λ a v, pwp Q X v (f a)) X v p → pwp Q X v (p ≫= f).
Proof using T_mono.
  revert v. induction p as [a|e|C o k IH]; intros v; cbn; [done..|]. apply T_mono. intros b v'. apply IH.
Qed.
Lemma pwp_catch {A} (Q : A → V → Prop) X v (p : prog Op Err A) h :
  pwp Q (λ e v, pwp Q X v (h e)) v p → pwp Q X v (catch p h).
Proof using T_mono.
  revert v. induction p as [a|e|C o k IH]; intros v; cbn; [done..|]. apply T_mono. intros b v'. apply IH.
Qed.
End Logic.

(** ** A program that runs alone

    The device answers its calls, with the decisions [chs]; [run_for] stops
    after a number of calls, or when a call waits. *)
Section Alone.
Context {Op : Set → Set} {Err D Ch : Type} (op_step : ∀ B, Ch → nat → Op B → D → option (B * D)).

Fixpoint run_for {A} (fuel : nat) (chs : nat → Ch) (p : prog Op Err A) (d : D) {struct p} : D * option (A + Err) :=
  match p with
  | PRet a => (d, Some (inl a))
  | PThrow e => (d, Some (inr e))
  | PDo o k =>
      match fuel with
      | O => (d, None)
      | S fuel =>
          match op_step _ (chs O) O o d with
          | Some (b, d') => run_for fuel (λ n, chs (S n)) (k b) d'
          | None => (d, None)
          end
      end
  end.

(** Calls that are answered, where every state between them satisfies [Inv]. *)
Context (fair : Ch → Prop) (Inv : D → Prop).
Definition answered B (o : Op B) (d : D) (Φ : B → D → Prop) : Prop :=
  ∀ ch, fair ch → match op_step B ch O o d with Some (b, d') => Inv d' ∧ Φ b d' | None => False end.
Lemma answered_mono B (o : Op B) d (Φ Ψ : B → D → Prop) : (∀ b d, Φ b d → Ψ b d) → answered B o d Φ → answered B o d Ψ.
Proof. intros H Ha ch Hf. specialize (Ha ch Hf). destruct (op_step B ch O o d) as [ [b d']|]; [|done]. destruct Ha. auto. Qed.

Lemma pwp_T_mono {A V} (T T' : ∀ B, Op B → V → (B → V → Prop) → Prop) (Q : A → V → Prop) (X : Err → V → Prop) v (p : prog Op Err A) :
  (∀ B (o : Op B) v (Φ Ψ : B → V → Prop), (∀ b v, Φ b v → Ψ b v) → T B o v Φ → T' B o v Ψ) → pwp T Q X v p → pwp T' Q X v p.
Proof. intros H. revert v. induction p as [a|e|B o k IH]; intros v; cbn; [done..|]. apply H. intros b v'. apply IH. Qed.

Lemma run_spec {A} (Q : A → D → Prop) (X : Err → D → Prop) p d chs fuel :
  pwp answered Q X d p → Inv d → (∀ n, fair (chs n)) →
  let '(d', r) := run_for fuel chs p d in
  match r with Some (inl a) => Q a d' | Some (inr e) => X e d' | None => Inv d' end.
Proof.
  revert d chs fuel. induction p as [a|e|B o k IH]; intros d chs fuel Hp Hd Hc; cbn; [done..|]. destruct fuel as [|fuel]; [done|].
  specialize (Hp (chs O) (Hc O)). destruct (op_step B (chs O) O o d) as [ [b d']|]; [|done]. destruct Hp as [Hd' Hp]. by apply IH.
Qed.
Lemma run_ends {A} (Q : A → D → Prop) (X : Err → D → Prop) p d chs :
  pwp answered Q X d p → (∀ n, fair (chs n)) → ∃ fuel, (run_for fuel chs p d).2 ≠ None.
Proof.
  revert d chs. induction p as [a|e|B o k IH]; intros d chs Hp Hc; [by exists O..|].
  specialize (Hp (chs O) (Hc O)). destruct (op_step B (chs O) O o d) as [ [b d']|] eqn:E; [|done]. destruct Hp as [_ Hp].
  destruct (IH b d' (λ n, chs (S n)) Hp) as [fuel Hf]; [done|]. exists (S fuel). cbn. by rewrite E.
Qed.
(** More calls do not change the end. *)
Lemma run_more {A} (p : prog Op Err A) d chs fuel fuel' d' r :
  run_for fuel chs p d = (d', Some r) → (fuel ≤ fuel')%nat → run_for fuel' chs p d = (d', Some r).
Proof.
  revert d chs fuel fuel'. induction p as [a|e|B o k IH]; intros d chs fuel fuel' E Hle; cbn in *; [done..|].
  destruct fuel as [|fuel]; [done|]. destruct fuel' as [|fuel']; [lia|]. destruct (op_step B (chs O) O o d) as [ [b d1]|]; [|done].
  apply (IH b d1 _ fuel fuel' E). lia.
Qed.
End Alone.

(** ** Programs beside each other

    A device of type [D] answers the calls of the programs that run, by their
    numbers; [Ch] is what the device decides at a call, and a call that is not
    answered waits.  [ended i] is what the end of a program does to the device,
    and [other] are the events that no program causes. *)
Section Threads.
Context {Op : Set → Set} {Err Cmd Res D Ch : Type}.
Context (op_step : ∀ B, Ch → nat → Op B → D → option (B * D)) (start : Cmd → prog Op Err Res) (ended : nat → D → D).
Abbreviation running := (gmap nat (Cmd * prog Op Err Res)).

Record Threads := mkThreads {
  th_device : D;
  th_running : running;
  th_done : list (Cmd * (Res + Err));
}.

(** The next call of a program, or its end. *)
Definition thread_step (ch : Ch) (i : nat) (s : Threads) : option Threads :=
  match th_running s !! i : option (Cmd * prog Op Err Res) with
  | None => None
  | Some (c, PRet r) => Some (mkThreads (ended i (th_device s)) (delete i (th_running s)) (th_done s ++ [(c, inl r)]))
  | Some (c, PThrow e) => Some (mkThreads (ended i (th_device s)) (delete i (th_running s)) (th_done s ++ [(c, inr e)]))
  | Some (c, PDo o k) =>
      match op_step _ ch i o (th_device s) with
      | None => None
      | Some (b, d) => Some (mkThreads d (<[i := (c, k b)]> (th_running s)) (th_done s))
      end
  end.

(** Commands in [cmds] are started at any time; [fair] are the decisions of the
    device that are considered. *)
Definition fair_step (fair : ∀ B, Op B → Ch → Prop) (ch : Ch) (i : nat) (s : Threads) : Prop :=
  match th_running s !! i : option (Cmd * prog Op Err Res) with Some (_, PDo o _) => fair _ o ch | _ => True end.
Inductive threads_step (cmds : Cmd → Prop) (fair : ∀ B, Op B → Ch → Prop) (other : Threads → Threads → Prop) (s : Threads) : Threads → Prop :=
  | step_start c i : cmds c → th_running s !! i = None →
      threads_step cmds fair other s (mkThreads (th_device s) (<[i := (c, start c)]> (th_running s)) (th_done s))
  | step_thread ch i s' : fair_step fair ch i s → thread_step ch i s = Some s' → threads_step cmds fair other s s'
  | step_other s' : other s s' → threads_step cmds fair other s s'.

(** Steps one after the other, each of a program with a decision. *)
Fixpoint schedule (l : list (Ch * nat)) (s : Threads) : option Threads :=
  match l with
  | [] => Some s
  | (ch, i) :: l => match thread_step ch i s with Some s => schedule l s | None => None end
  end.
Lemma schedule_reachable cmds fair other l s s' :
  schedule l s = Some s' → (∀ B (o : Op B) ch, ch ∈ l.*1 → fair B o ch) → rtc (threads_step cmds fair other) s s'.
Proof.
  revert s. induction l as [|[ch i] l IH]; intros s; cbn; [by intros [= <-]|]. destruct (thread_step ch i s) as [s1|] eqn:E; [|done].
  intros Hs Hf. apply (rtc_l _ _ s1); [|apply IH; [done|]; intros B o ch' Hc; apply Hf; by right].
  apply (step_thread _ _ _ _ ch i); [|done]. unfold fair_step. destruct (th_running s !! i) as [ [c []]|]; try done. apply Hf. left.
Qed.

(** *** Invariants

    Every program has a knowledge of its own, [out] before it starts and after
    its end; [I] relates the device, the results and all knowledge. *)
Context {V : Type} (T : ∀ B, Op B → V → (B → V → Prop) → Prop) (out : V).
Context (cmds : Cmd → Prop) (fair : ∀ B, Op B → Ch → Prop) (other : Threads → Threads → Prop).
Context (Q : Cmd → Res → V → Prop) (X : Cmd → Err → V → Prop) (I : D → list (Cmd * (Res + Err)) → (nat → V) → Prop).

Definition upd (vs : nat → V) (i : nat) (v : V) : nat → V := λ j, if decide (j = i) then v else vs j.
Lemma upd_eq vs i v : upd vs i v i = v.
Proof. unfold upd. by rewrite decide_True. Qed.
Lemma upd_ne vs i j v : j ≠ i → upd vs i v j = vs j.
Proof. intros H. unfold upd. by rewrite decide_False. Qed.

Definition threads_inv (s : Threads) : Prop := ∃ vs,
  I (th_device s) (th_done s) vs ∧ (∀ i, th_running s !! i = None → vs i = out) ∧
  ∀ i c p, th_running s !! i = Some (c, p) → cmds c ∧ pwp T (Q c) (X c) (vs i) p.

Context (start_ok : ∀ c, cmds c → pwp T (Q c) (X c) out (start c)).
Context (call_ok : ∀ B ch i (o : Op B) Φ d l vs b d',
  I d l vs → T B o (vs i) Φ → fair B o ch → op_step B ch i o d = Some (b, d') → ∃ v, Φ b v ∧ I d' l (upd vs i v)).
Context (ret_ok : ∀ i c r d l vs, cmds c → I d l vs → Q c r (vs i) → I (ended i d) (l ++ [(c, inl r)]) (upd vs i out)).
Context (throw_ok : ∀ i c e d l vs, cmds c → I d l vs → X c e (vs i) → I (ended i d) (l ++ [(c, inr e)]) (upd vs i out)).
Context (other_ok : ∀ s s', other s s' → threads_inv s → threads_inv s').

Lemma inv_start s c i : threads_inv s → cmds c → th_running s !! i = None →
  threads_inv (mkThreads (th_device s) (<[i := (c, start c)]> (th_running s)) (th_done s)).
Proof using start_ok.
  intros (vs & HI & Hout & Hrun) Hc Hi. exists vs. split; [done|]. cbn. split.
  - intros j. destruct (decide (j = i)) as [->|Hn]; [by rewrite lookup_insert_eq|]. rewrite lookup_insert_ne by done. apply Hout.
  - intros j c' p. destruct (decide (j = i)) as [->|Hn]; [|rewrite lookup_insert_ne by done; apply Hrun].
    rewrite lookup_insert_eq. intros [= <- <-]. rewrite (Hout i Hi). auto.
Qed.

Lemma inv_end s i r d vs : (∀ i, th_running s !! i = None → vs i = out) →
  (∀ j c p, th_running s !! j = Some (c, p) → cmds c ∧ pwp T (Q c) (X c) (vs j) p) →
  I d (th_done s ++ [r]) (upd vs i out) → threads_inv (mkThreads d (delete i (th_running s)) (th_done s ++ [r])).
Proof.
  intros Hout Hrun HI. exists (upd vs i out). split; [done|]. cbn. split.
  - intros j. destruct (decide (j = i)) as [->|Hn]; [by rewrite upd_eq|]. rewrite lookup_delete_ne, upd_ne by done. apply Hout.
  - intros j c' p. destruct (decide (j = i)) as [->|Hn]; [by rewrite lookup_delete_eq|]. rewrite lookup_delete_ne, upd_ne by done. apply Hrun.
Qed.

Lemma inv_thread s s' ch i : threads_inv s → fair_step fair ch i s → thread_step ch i s = Some s' → threads_inv s'.
Proof using call_ok ret_ok throw_ok.
  intros (vs & HI & Hout & Hrun) Hf E. unfold thread_step in E. unfold fair_step in Hf. destruct (th_running s !! i) as [ [c p]|] eqn:Hi; [|done].
  destruct (Hrun i c p Hi) as [Hc Hp]. destruct p as [r|e|B o k]; cbn in Hp.
  - injection E as <-. apply (inv_end s i (c, inl r) _ vs); auto.
  - injection E as <-. apply (inv_end s i (c, inr e) _ vs); auto.
  - destruct (op_step B ch i o (th_device s)) as [ [b d]|] eqn:Eo; [|done]. injection E as <-.
    destruct (call_ok _ _ _ _ _ _ _ _ _ _ HI Hp Hf Eo) as (v & HΦ & HI'). exists (upd vs i v). split; [done|]. cbn. split.
    + intros j. destruct (decide (j = i)) as [->|Hn]; [by rewrite lookup_insert_eq|]. rewrite lookup_insert_ne, upd_ne by done. apply Hout.
    + intros j c' p. destruct (decide (j = i)) as [->|Hn]; [|rewrite lookup_insert_ne, upd_ne by done; apply Hrun].
      rewrite lookup_insert_eq, upd_eq. by intros [= <- <-].
Qed.

(** What holds at first holds at all times. *)
Lemma threads_inv_reachable s0 s : threads_inv s0 → rtc (threads_step cmds fair other) s0 s → threads_inv s.
Proof using start_ok call_ok ret_ok throw_ok other_ok.
  intros H0 H. induction H as [|s s1 s2 Hstep _ IH]; [done|]. apply IH.
  destruct Hstep as [c i Hc Hi|ch i s' Hf E|s' Ho]; [by apply inv_start|by eapply inv_thread|by eapply other_ok].
Qed.
End Threads.
