(* ===== verification/ConfigTools.v ===== *)
(** * Commands on the server's configuration
      ([slt-cli/src/config_io.rs], [slt-cli/src/remove_client.rs],
      [slt-cli/src/add_client.rs])

    Several commands may change [server.toml] at a time.  Adding a client
    locks the file and writes it in place; removing one reads the file and
    replaces it by a temporary file beside it, without the lock.  The file
    system is at the level of paths and nodes: a path names a node, a node has
    the text, the permissions and the lock, and an open file is a node,
    whatever its path names later.  Every call of the file system is a step
    that may fail, commands are interleaved in any way and may be killed. *)

From Stdlib Require Import Ascii String.
From stdpp Require Import base tactics option list numbers gmap sets relations.
From Stdlib Require Import ZArith Lia.
From S2P Require Import Prelude Effects Config Auth AddClient Programs.

(** ** The file system *)

(** The text of a file, and whether only its owner can read it. *)
Record Node := mkNode { nd_text : bytes; nd_private : bool }.
(** Paths, nodes, and for each locked node the command that has the lock. *)
Record Disk := mkDisk { dk_paths : gmap bytes nat; dk_nodes : gmap nat Node; dk_locks : gmap nat nat }.

(** The calls; [None] and [false] are errors. *)
Inductive fop : Set → Set :=
  | FOpen (path : bytes) : fop (option nat)
  | FLock (node : nat) : fop bool
  | FRead (node : nat) : fop (option bytes)
  | FReadPath (path : bytes) : fop (option bytes)
  | FExists (path : bytes) : fop bool
  | FCreate (path : bytes) (private : bool) : fop (option nat)
  | FSetPermissions (path : bytes) : fop bool
  | FSeek (node : nat) : fop bool
  | FSetLen0 (node : nat) : fop bool
  | FWriteAll (node : nat) (contents : bytes) : fop bool
  | FFlush (node : nat) : fop bool
  | FRename (from to : bytes) : fop bool
  | FRemoveFile (path : bytes) : fop bool.

(** Whether a call fails, and how much a failed write writes. *)
Record fchoice := mkFChoice { fc_fail : bool; fc_count : nat }.

Definition set_node (n : nat) (x : Node) (d : Disk) : Disk := mkDisk (dk_paths d) (<[n := x]> (dk_nodes d)) (dk_locks d).
Definition node_at (d : Disk) (n : nat) : Node := default (mkNode [] true) (dk_nodes d !! n).
(** What is written at the start of a file covers what was there. *)
Definition overwrite (old new : bytes) : bytes := new ++ drop (length new) old.
Definition write_node (n : nat) (t : bytes) (d : Disk) : Disk :=
  set_node n (mkNode (overwrite (nd_text (node_at d n)) t) (nd_private (node_at d n))) d.

(** A call of the command [i]; [None] while another command has the lock. *)
Definition fs_step (B : Set) (ch : fchoice) (i : nat) (o : fop B) (d : Disk) : option (B * Disk) :=
  match o in fop B return option (B * Disk) with
  | FOpen path => Some (if fc_fail ch then None else dk_paths d !! path, d)
  | FLock n =>
      if fc_fail ch then Some (false, d) else
      match dk_locks d !! n with
      | Some j => if decide (i = j) then Some (true, d) else None
      | None => Some (true, mkDisk (dk_paths d) (dk_nodes d) (<[n := i]> (dk_locks d)))
      end
  | FRead n => Some (if fc_fail ch then None else Some (nd_text (node_at d n)), d)
  | FReadPath path => Some (if fc_fail ch then None else (λ n, nd_text (node_at d n)) <$> dk_paths d !! path, d)
  | FExists path => Some (bool_decide (is_Some (dk_paths d !! path)), d)
  | FCreate path private =>
      if fc_fail ch then Some (None, d) else
      match dk_paths d !! path with
      | Some n => Some (Some n, set_node n (mkNode [] (nd_private (node_at d n))) d)
      | None =>
          let n := fresh (dom (dk_nodes d)) in
          Some (Some n, mkDisk (<[path := n]> (dk_paths d)) (<[n := mkNode [] private]> (dk_nodes d)) (dk_locks d))
      end
  | FSetPermissions path =>
      match dk_paths d !! path with
      | Some n => if fc_fail ch then Some (false, d) else Some (true, set_node n (mkNode (nd_text (node_at d n)) true) d)
      | None => Some (false, d)
      end
  | FSeek n => Some (negb (fc_fail ch), d)
  | FSetLen0 n => if fc_fail ch then Some (false, d) else Some (true, set_node n (mkNode [] (nd_private (node_at d n))) d)
  | FWriteAll n contents =>
      if fc_fail ch then Some (false, write_node n (take (fc_count ch) contents) d) else Some (true, write_node n contents d)
  | FFlush n => Some (negb (fc_fail ch), d)
  | FRename from to =>
      match dk_paths d !! from with
      | Some n => if fc_fail ch then Some (false, d) else Some (true, mkDisk (<[to := n]> (delete from (dk_paths d))) (dk_nodes d) (dk_locks d))
      | None => Some (false, d)
      end
  | FRemoveFile path =>
      match dk_paths d !! path with
      | Some _ => if fc_fail ch then Some (false, d) else Some (true, mkDisk (delete path (dk_paths d)) (dk_nodes d) (dk_locks d))
      | None => Some (false, d)
      end
  end.

(** The locks of a command end with it. *)
Definition unlock_all (i : nat) (d : Disk) : Disk := mkDisk (dk_paths d) (dk_nodes d) (filter (λ nj, nj.2 ≠ i) (dk_locks d)).

(** ** Programs *)
Inductive ToolError :=
  | ToolRead | ToolParse | ToolSerialize | ToolWrite | ToolLock
  | ToolInvalidId | ToolNotFound
  | ToolAdd (e : AddError).

(** [parse_client_id]: [hex::decode] after an optional [0x]. *)
Definition hex_digit (c : Z) : option Z :=
  if (48 <=? c) && (c <=? 57) then Some (c - 48)
  else if (97 <=? c) && (c <=? 102) then Some (c - 87)
  else if (65 <=? c) && (c <=? 70) then Some (c - 55) else None.
Fixpoint hex_decode (s : bytes) : option bytes :=
  match s with
  | [] => Some []
  | a :: b :: s => x ← hex_digit a; y ← hex_digit b; l ← hex_decode s; Some (16 * x + y :: l)
  | [_] => None
  end.
Definition strip_0x (s : bytes) : bytes := match s with 48 :: 120 :: s => s | _ => s end.
Definition parse_client_id (s : bytes) : option bytes :=
  l ← hex_decode (strip_0x s);
  if zlen l =? 16 then Some l else None.

Section Tools.
Context `{E : Ed25519} `{T : Toml}.
Abbreviation P := (prog fop ToolError).
Definition require (b : bool) (e : ToolError) : P unit := if b then PRet tt else PThrow e.

Definition load_server_config (path : bytes) : P ServerConfig :=
  contents ← call (FReadPath path);
  match contents with
  | None => PThrow ToolRead
  | Some contents => match ServerConfig_from_toml_str contents with Some config => PRet config | None => PThrow ToolParse end
  end.

(** *** A file is replaced as a whole *)
Definition tmp_path_for (path : bytes) : bytes := path ++ bytes_of_string ".tmp".
Definition write_temp_and_rename (tmp_path final_path contents : bytes) : P unit :=
  file ← call (FCreate tmp_path true);
  match file with
  | None => PThrow ToolWrite
  | Some file =>
      restricted ← call (FSetPermissions tmp_path);
      _ ← require restricted ToolWrite;
      written ← call (FWriteAll file contents);
      _ ← require written ToolWrite;
      renamed ← call (FRename tmp_path final_path);
      require renamed ToolWrite
  end.
Definition write_restricted (path contents : bytes) : P unit :=
  let tmp_path := tmp_path_for path in
  catch (write_temp_and_rename tmp_path path contents)
    (λ e, _ ← call (FRemoveFile tmp_path); PThrow e).
Definition save_server_config (path : bytes) (config : ServerConfig) : P unit :=
  match server_to_toml config with Some contents => write_restricted path contents | None => PThrow ToolSerialize end.
Definition write_client_config (path : bytes) (config : ClientConfig) : P unit :=
  match client_to_toml config with Some contents => write_restricted path contents | None => PThrow ToolSerialize end.

(** *** Removing a client *)
Definition remove_client (config_path client_id : bytes) : P unit :=
  config ← load_server_config config_path;
  match parse_client_id client_id with
  | None => PThrow ToolInvalidId
  | Some target_id =>
      let clients := List.filter (λ c, negb (bool_decide (sc_client_id c = target_id))) (sv_clients config) in
      if decide (length clients = length (sv_clients config)) then PThrow ToolNotFound
      else save_server_config config_path (with_clients config clients)
  end.

(** *** Adding a client under the lock ([LockedServerConfigFile]) *)
Definition locked_open (path : bytes) : P nat :=
  file ← call (FOpen path);
  match file with
  | None => PThrow (ToolAdd OpenFailed)
  | Some n => locked ← call (FLock n); _ ← require locked ToolLock; PRet n
  end.
Definition locked_load (n : nat) : P ServerConfig :=
  sought ← call (FSeek n);
  _ ← require sought (ToolAdd ReadFailed);
  contents ← call (FRead n);
  match contents with
  | None => PThrow (ToolAdd ReadFailed)
  | Some contents => match ServerConfig_from_toml_str contents with Some config => PRet config | None => PThrow (ToolAdd ParseFailed) end
  end.
Definition locked_save (path : bytes) (n : nat) (config : ServerConfig) : P unit :=
  match server_to_toml config with
  | None => PThrow (ToolAdd SerializeFailed)
  | Some contents =>
      restricted ← call (FSetPermissions path);
      _ ← require restricted (ToolAdd SaveFailed);
      sought ← call (FSeek n);
      _ ← require sought (ToolAdd SaveFailed);
      truncated ← call (FSetLen0 n);
      _ ← require truncated (ToolAdd SaveFailed);
      written ← call (FWriteAll n contents);
      _ ← require written (ToolAdd SaveFailed);
      flushed ← call (FFlush n);
      require flushed (ToolAdd SaveFailed)
  end.

(** What [add_client] decides from the configuration; it does not look at the
    files. *)
Definition planned (env : AddEnv) (config : ServerConfig) : P (ServerClient * ClientConfig) :=
  match (plan_client env config (mkFiles [] None [])).2 with
  | ORet p => PRet p
  | OErr e => PThrow (ToolAdd e)
  | OPanic | OCancel => PThrow ToolRead
  end.

Definition add_client_to (config_path client_path : bytes) (env : AddEnv) : P unit :=
  n ← locked_open config_path;
  config ← locked_load n;
  '(server_client, client_config) ← planned env config;
  _ ← locked_save config_path n (with_clients config (sv_clients config ++ [server_client]));
  r ← outcome_of (write_client_config client_path client_config);
  match r with
  | inl _ => PRet tt
  | inr _ =>
      restored ← outcome_of (locked_save config_path n config);
      match restored with
      | inl _ => PThrow (ToolAdd ClientSaveFailed)
      | inr _ => PThrow (ToolAdd RollbackFailed)
      end
  end.

(** ** Commands beside each other *)
Inductive tool := TAdd (client_path : bytes) (env : AddEnv) | TRemove (client_id : bytes).
Definition tool_prog (config_path : bytes) (t : tool) : P unit :=
  match t with
  | TAdd client_path env => add_client_to config_path client_path env
  | TRemove client_id => remove_client config_path client_id
  end.
Abbreviation Tools := (Threads (Op := fop) (Err := ToolError) (Cmd := tool) (Res := unit) (D := Disk)).
Definition tool_step : fchoice → nat → Tools → option Tools := thread_step fs_step unlock_all.
(** A command is killed. *)
Definition killed (s s' : Tools) : Prop :=
  ∃ i, s' = mkThreads (unlock_all i (th_device s)) (delete i (th_running s)) (th_done s).
End Tools.

(** ** Removing a client, alone *)

Lemma filter_all_length {A} (f : A → bool) (l : list A) : length (List.filter f l) = length l → ∀ x, x ∈ l → f x = true.
Proof.
  intros H. assert (∀ l : list A, (length (List.filter f l) ≤ length l)%nat) as Hle.
  { clear. induction l as [|a l IH]; cbn; [done|]. destruct (f a); cbn; lia. }
  induction l as [|a l IH]; [by intros x ?%elem_of_nil|]. cbn in H. specialize (Hle l). destruct (f a) eqn:Ea; cbn in H; [|lia].
  intros x [->|Hx]%elem_of_cons; [done|]. apply IH; [lia|done].
Qed.
Lemma filter_id {A} (f : A → bool) (l : list A) : (∀ x, x ∈ l → f x = true) → List.filter f l = l.
Proof. induction l as [|a l IH]; cbn; [done|]. intros H. rewrite (H a) by left. f_equal. apply IH. intros x Hx. apply H. by right. Qed.
Lemma map_filter_sublist {A B} (g : A → B) (f : A → bool) (l : list A) : sublist (map g (List.filter f l)) (map g l).
Proof. induction l as [|a l IH]; cbn; [constructor|]. destruct (f a); by constructor. Qed.
Lemma Forall_List_filter {A} (Q : A → Prop) (f : A → bool) (l : list A) : Forall Q l → Forall Q (List.filter f l).
Proof. induction 1 as [|a l Ha Hl IH]; cbn; [constructor|]. destruct (f a); by repeat constructor. Qed.

(** A configuration stays valid without some of its clients. *)
Lemma without_clients_valid c f :
  ServerConfig_validate c = Ok tt → ServerConfig_validate (with_clients c (List.filter f (sv_clients c))) = Ok tt.
Proof.
  unfold ServerConfig_validate. cbn [with_clients sv_network sv_tun sv_clients sv_timing sv_allowed_ciphers sv_session_queue_size
    sv_max_auth_inflight sv_tcp_connection_cap sv_udp_nat_max_entries].
  rewrite !checked_bind, !validate_clients_ok. intros (H1 & H2 & (Hc & [Hid _] & [Hip _]) & H3).
  split_and!; try done; try (by destruct H3 as (?&?&?&?&?&?)).
  - by apply Forall_List_filter.
  - eapply sublist_NoDup; [exact Hid|apply map_filter_sublist].
  - apply Forall_true. set_solver.
  - eapply sublist_NoDup; [exact Hip|apply map_filter_sublist].
  - apply Forall_true. set_solver.
Qed.

Section RemoveSpec.
Context `{T : Toml} {TL : TomlLaws T}.

Definition text_at (d : Disk) (path : bytes) : option bytes := (λ n, nd_text (node_at d n)) <$> dk_paths d !! path.

Lemma tmp_path_other path : tmp_path_for path ≠ path.
Proof. intros E. apply (f_equal length) in E. unfold tmp_path_for in E. rewrite length_app in E. cbn in E. lia. Qed.

Lemma node_set_eq n x d : node_at (set_node n x d) n = x.
Proof. unfold node_at. cbn. by rewrite lookup_insert_eq. Qed.
Lemma node_set_ne n m x d : m ≠ n → node_at (set_node n x d) m = node_at d m.
Proof. intros H. unfold node_at. cbn. by rewrite lookup_insert_ne. Qed.

(** The file [path] is a node of its own with the text [t], or is not there. *)
Definition holds (path : bytes) (t : option bytes) (d : Disk) : Prop :=
  match dk_paths d !! path with
  | Some n => is_Some (dk_nodes d !! n) ∧ Some (nd_text (node_at d n)) = t ∧ dk_paths d !! tmp_path_for path ≠ Some n
  | None => t = None
  end.

(** The temporary file is [n], private once it is restricted, and holds [u]. *)
Definition staged (path : bytes) (t : option bytes) (n : nat) (private : bool) (u : bytes) (d : Disk) : Prop :=
  holds path t d ∧ dk_paths d !! tmp_path_for path = Some n ∧ nd_text (node_at d n) = u ∧ (private = true → nd_private (node_at d n) = true).

(** The file was replaced by [t], which only the owner can read. *)
Definition replaced (path t : bytes) (d : Disk) : Prop :=
  text_at d path = Some t ∧ ∃ n, dk_paths d !! path = Some n ∧ nd_private (node_at d n) = true.

Lemma holds_text path t d : holds path t d → text_at d path = t.
Proof. unfold holds, text_at. destruct (dk_paths d !! path) as [n|]; [by intros (_ & ? & _)|done]. Qed.

Lemma create_spec path t d ch :
  holds path t d → match fs_step _ ch 0 (FCreate (tmp_path_for path) true) d with
  | Some (Some n, d') => staged path t n false [] d'
  | Some (None, d') => d' = d
  | None => False
  end.
Proof.
  intros Hh. pose proof (tmp_path_other path) as Hp. cbn [fs_step]. destruct (fc_fail ch); [done|].
  destruct (dk_paths d !! tmp_path_for path) as [m|] eqn:Em.
  - split_and!; [|done|by rewrite node_set_eq|done]. unfold holds in *. cbn [dk_paths set_node]. destruct (dk_paths d !! path) as [n|]; [|done].
    destruct Hh as (Hx & Ht & Hne). assert (n ≠ m) as Hnm by congruence.
    split_and!; [cbn; by rewrite lookup_insert_ne|by rewrite node_set_ne|congruence].
  - set (m := fresh (dom (dk_nodes d))).
    split_and!; [|cbn; by rewrite lookup_insert_eq|unfold node_at; cbn; by rewrite lookup_insert_eq|done].
    unfold holds in *. cbn. rewrite lookup_insert_ne, lookup_insert_eq by done. destruct (dk_paths d !! path) as [n|]; [|done].
    destruct Hh as (Hx & Ht & Hne). assert (n ≠ m) as Hnm.
    { intros ->. apply (is_fresh (dom (dk_nodes d))). by apply elem_of_dom. }
    unfold node_at. cbn. rewrite lookup_insert_ne by done. split_and!; [done..|congruence].
Qed.

(** A call on the temporary file leaves the file alone. *)
Lemma staged_set path t n private u x private' d :
  staged path t n private u d → (private' = true → nd_private x = true) → staged path t n private' (nd_text x) (set_node n x d).
Proof.
  intros (Hh & Hn & _ & _) Hp. split_and!; [|done|by rewrite node_set_eq|by rewrite node_set_eq].
  unfold holds in *. cbn [dk_paths set_node]. destruct (dk_paths d !! path) as [m|]; [|done]. destruct Hh as (Hx & Ht & Hne).
  assert (m ≠ n) as Hmn by congruence. split_and!; [cbn; by rewrite lookup_insert_ne|by rewrite node_set_ne|done].
Qed.

Lemma staged_write path t n u d : staged path t n true [] d → staged path t n true u (write_node n u d).
Proof.
  intros H. pose proof H as (_ & _ & Ht & Hp). unfold write_node. rewrite Ht.
  replace u with (nd_text (mkNode (overwrite [] u) (nd_private (node_at d n)))) at 1.
  - eapply staged_set; [exact H|]. cbn. auto.
  - cbn. unfold overwrite. by rewrite drop_nil, app_nil_r.
Qed.

Lemma staged_rename path t n u d :
  staged path t n true u d → replaced path u (mkDisk (<[path := n]> (delete (tmp_path_for path) (dk_paths d))) (dk_nodes d) (dk_locks d)).
Proof.
  intros (_ & _ & Ht & Hp). unfold replaced, text_at. cbn. rewrite lookup_insert_eq. cbn. unfold node_at in *. cbn.
  split; [by rewrite Ht|]. exists n. auto.
Qed.

Lemma staged_remove path t n private u d :
  staged path t n private u d → holds path t (mkDisk (delete (tmp_path_for path) (dk_paths d)) (dk_nodes d) (dk_locks d)).
Proof.
  intros (Hh & _). pose proof (tmp_path_other path). unfold holds in *. cbn. rewrite lookup_delete_ne, lookup_delete_eq by done.
  destruct (dk_paths d !! path) as [m|]; [|done]. by destruct Hh as (? & ? & ?).
Qed.

Section Alone.
Context (fair : fchoice → Prop) (path : bytes) (t : option bytes) (u : bytes).
Definition may_fail : Prop := ∃ ch, fair ch ∧ fc_fail ch = true.
(** At all times the old text is there, or the new one. *)
Definition old_or_new (d : Disk) : Prop := text_at d path = t ∨ replaced path u d.
Abbreviation spec Q X := (pwp (answered fs_step fair old_or_new) Q X).
Abbreviation kept := (λ (e : ToolError) (d : Disk), e = ToolWrite ∧ may_fail ∧ holds path t d).

Lemma spec_bind {A B} (Q : B → Disk → Prop) (X : ToolError → Disk → Prop) d (p : prog fop ToolError A) (f : A → prog fop ToolError B) :
  spec (λ a d, spec Q X d (f a)) X d p → spec Q X d (p ≫= f).
Proof. apply pwp_bind, answered_mono. Qed.
Lemma old_ok d : holds path t d → old_or_new d.
Proof. intros H. left. by apply holds_text. Qed.

Lemma rename_spec n d : staged path t n true u d →
  spec (λ _ d, replaced path u d) kept d (renamed ← call (FRename (tmp_path_for path) path); require renamed ToolWrite).
Proof.
  intros H. apply spec_bind. intros ch Hf. pose proof H as (Hh & Hn & _). cbn [fs_step]. rewrite Hn. destruct (fc_fail ch) eqn:Ef; cbn.
  - split; [by apply old_ok|]. split_and!; [done|by exists ch|done].
  - pose proof (staged_rename path t n u d H) as Hr. split; [by right|done].
Qed.

Lemma write_spec n d : staged path t n true [] d →
  spec (λ _ d, replaced path u d) kept d (
    written ← call (FWriteAll n u); _ ← require written ToolWrite;
    renamed ← call (FRename (tmp_path_for path) path); require renamed ToolWrite).
Proof.
  intros H. apply spec_bind. intros ch Hf. cbn [fs_step]. destruct (fc_fail ch) eqn:Ef.
  - pose proof (staged_write path t n (take (fc_count ch) u) d H) as (Hh & _). split; [by apply old_ok|]. cbn. split_and!; [done|by exists ch|done].
  - pose proof (staged_write path t n u d H) as Hs. split; [apply old_ok, Hs|]. apply (rename_spec n _ Hs).
Qed.

Lemma write_restricted_spec d : holds path t d → spec (λ _ d, replaced path u d) kept d (write_restricted path u).
Proof.
  intros H. unfold write_restricted. apply (pwp_catch _ (answered_mono _ _ _)).
  apply (pwp_mono _ (answered_mono _ _ _) (λ _ d, replaced path u d) _ (λ e d, e = ToolWrite ∧ may_fail ∧ ((∃ n private v, staged path t n private v d) ∨ holds path t d))); [done| |].
  { intros e d' (-> & Hm & Hor). apply spec_bind. intros ch Hf. cbn [fs_step]. assert (holds path t d') as Hh by (destruct Hor as [(n & pr & v & Hs & _)|]; done).
    destruct (dk_paths d' !! tmp_path_for path) as [m|] eqn:Em; [|split; [by apply old_ok|done] ]. destruct (fc_fail ch); [split; [by apply old_ok|done]|].
    assert (staged path t m false (nd_text (node_at d' m)) d') as Hs by done.
    pose proof (staged_remove _ _ _ _ _ _ Hs) as Hr. split; [by apply old_ok|done]. }
  unfold write_temp_and_rename. apply spec_bind. intros ch Hf. pose proof (create_spec path t d ch H) as Hc.
  destruct (fs_step _ ch 0 (FCreate (tmp_path_for path) true) d) as [ [ [n|] d1]|] eqn:Ecall; [| |done].
  - split; [apply old_ok, Hc|]. cbn [pwp]. apply spec_bind. intros ch1 Hf1. cbn [fs_step]. pose proof Hc as (Hh & Hn & Ht & _). rewrite Hn.
    destruct (fc_fail ch1) eqn:Ef1.
    + split; [by apply old_ok|]. cbn. split_and!; [done|by exists ch1|by right].
    + rewrite Ht. assert (staged path t n true [] (set_node n (mkNode [] true) d1)) as Hs by by apply (staged_set path t n false [] (mkNode [] true)).
      split; [apply old_ok, Hs|].
      refine (pwp_mono _ (answered_mono _ _ _) _ _ kept _ _ _ _ _ (write_spec n _ Hs)); [done|]. intros e d' (? & ? & ?). auto.
  - subst d1. split; [by apply old_ok|]. cbn. cbn [fs_step] in Ecall. destruct (fc_fail ch) eqn:Ef; [by split_and!; [|exists ch|right]|].
    destruct (dk_paths d !! tmp_path_for path); done.
Qed.
End Alone.

(** The configuration without the client [target], which has some. *)
Definition remaining (c : ServerConfig) (target : bytes) : ServerConfig :=
  with_clients c (List.filter (λ k, negb (bool_decide (sc_client_id k = target))) (sv_clients c)).
Definition client_removed (client_id t t' : bytes) : Prop :=
  ∃ c target, ServerConfig_from_toml_str t = Some c ∧ parse_client_id client_id = Some target ∧
    (∃ k, k ∈ sv_clients c ∧ sc_client_id k = target) ∧ ServerConfig_from_toml_str t' = Some (remaining c target).

(** Why the command fails when no call does. *)
Definition remove_refused (client_id t : bytes) (e : ToolError) : Prop :=
  match e with
  | ToolParse => ServerConfig_from_toml_str t = None
  | ToolInvalidId => parse_client_id client_id = None
  | ToolNotFound => ∀ c target, ServerConfig_from_toml_str t = Some c → parse_client_id client_id = Some target →
      ∀ k, k ∈ sv_clients c → sc_client_id k ≠ target
  | ToolSerialize => ∃ c target, ServerConfig_from_toml_str t = Some c ∧ parse_client_id client_id = Some target ∧
      server_to_toml (remaining c target) = None
  | _ => False
  end.

Lemma remove_client_spec fair path client_id t d :
  holds path (Some t) d →
  ∃ u, (∀ d', replaced path u d' → text_at d' path = Some t ∨ client_removed client_id t u) ∧
  pwp (answered fs_step fair (old_or_new path (Some t) u))
    (λ _ d', replaced path u d' ∧ client_removed client_id t u)
    (λ e d', holds path (Some t) d' ∧ (may_fail fair ∨ remove_refused client_id t e)) d (remove_client path client_id).
Proof using TL.
  intros H. pose proof (holds_text path (Some t) d H) as Ht.
  set (saves u := ∃ c target, ServerConfig_from_toml_str t = Some c ∧ parse_client_id client_id = Some target ∧
    length (sv_clients (remaining c target)) ≠ length (sv_clients c) ∧ server_to_toml (remaining c target) = Some u).
  assert (∀ u, saves u → client_removed client_id t u) as Hsaves.
  { intros u (c & target & Hc & Hp & Hlen & Hu). exists c, target. split_and!; [done..| |].
    - destruct (decide (Exists (λ k, sc_client_id k = target) (sv_clients c))) as [He|He]; [by apply Exists_exists in He|].
      exfalso. apply Hlen. cbn [remaining with_clients sv_clients]. rewrite filter_id; [done|]. intros k Hk. apply negb_true_iff, bool_decide_false.
      intros Ek. apply He, Exists_exists. by exists k.
    - eapply load_saved; [|done]. apply without_clients_valid. eapply load_valid. exact Hc. }
  assert (∀ (u : bytes) (Q : unit → Disk → Prop) (X : ToolError → Disk → Prop),
    (match ServerConfig_from_toml_str t with
     | Some config => pwp (answered fs_step fair (old_or_new path (Some t) u)) Q X d (
         match parse_client_id client_id with
         | None => PThrow ToolInvalidId
         | Some target_id => if decide (length (sv_clients (remaining config target_id)) = length (sv_clients config)) then PThrow ToolNotFound
             else save_server_config path (remaining config target_id) end)
     | None => X ToolParse d end) → (may_fail fair → X ToolRead d) →
    pwp (answered fs_step fair (old_or_new path (Some t) u)) Q X d (remove_client path client_id)) as Hload.
  { intros u Q X Hgo HX. unfold remove_client, load_server_config. apply (pwp_bind _ (answered_mono _ _ _)), (pwp_bind _ (answered_mono _ _ _)).
    intros ch Hf. cbn [fs_step]. split; [by apply old_ok|]. cbn [pwp]. fold (text_at d path). rewrite Ht.
    destruct (fc_fail ch) eqn:Ef; [apply HX; by exists ch|]. destruct (ServerConfig_from_toml_str t) as [c|]; [exact Hgo|exact Hgo]. }
  assert (∀ e, remove_refused client_id t e → (∀ d', holds path (Some t) d' → True) → holds path (Some t) d ∧ (may_fail fair ∨ remove_refused client_id t e)) as Hno by auto.
  destruct (ServerConfig_from_toml_str t) as [c|] eqn:Hc.
  2: { exists t. split; [intros d' [? _]; by left|]. apply Hload; [|by auto]. apply Hno; [exact Hc|done]. }
  destruct (parse_client_id client_id) as [target|] eqn:Hp.
  2: { exists t. split; [intros d' [? _]; by left|]. apply Hload; [|by auto]. apply Hno; [exact Hp|done]. }
  destruct (decide (length (sv_clients (remaining c target)) = length (sv_clients c))) as [Hlen|Hlen].
  { exists t. split; [intros d' [? _]; by left|]. apply Hload; [|by auto]. apply Hno; [|done]. intros c' target' E1 E2 k Hk Heq.
    rewrite Hc in E1. rewrite Hp in E2. injection E1 as <-. injection E2 as <-.
    pose proof (filter_all_length _ _ Hlen k Hk) as Hf. cbn in Hf. rewrite bool_decide_true in Hf by done. done. }
  destruct (server_to_toml (remaining c target)) as [u|] eqn:Hu.
  2: { exists t. split; [intros d' [? _]; by left|]. apply Hload; [|by auto]. unfold save_server_config. rewrite Hu. apply Hno; [|done]. by exists c, target. }
  assert (client_removed client_id t u) as Hr by (apply Hsaves; by exists c, target).
  exists u. split; [by right|]. apply Hload; [|by auto]. unfold save_server_config. rewrite Hu.
  refine (pwp_mono _ (answered_mono _ _ _) _ _ _ _ _ _ _ _ (write_restricted_spec fair path (Some t) u d H)); [by split|]. intros e d' (-> & Hm & Hh). auto.
Qed.
End RemoveSpec.

(** ** Theorem on removing a client *)

(** C31: Removing a client replaces the configuration as a whole.  Wherever the
    command stops, whether a call fails or it is killed, the file holds the text
    it had, or the text of a valid configuration with the clients other than
    the one to be removed, readable by its owner only.  It ends; when it
    succeeds the client was there and is gone; when it fails the file has its
    old text, and if no call of the file system failed, the configuration could
    not be parsed, or the identifier is not one, or no client has it, or the
    result could not be printed. *)
Theorem remove_client_atomic `{T : Toml} {TL : TomlLaws T} path client_id t d chs fuel :
  holds path (Some t) d →
  (∃ n, (run_for fs_step n chs (remove_client path client_id) d).2 ≠ None) ∧
  let '(d', r) := run_for fs_step fuel chs (remove_client path client_id) d in
  match r with
  | Some (inl _) => ∃ t', replaced path t' d' ∧ client_removed client_id t t'
  | Some (inr e) => text_at d' path = Some t ∧ ((∀ n, fc_fail (chs n) = false) → remove_refused client_id t e)
  | None => text_at d' path = Some t ∨ ∃ t', replaced path t' d' ∧ client_removed client_id t t'
  end.
Proof.
  intros H. destruct (remove_client_spec (λ ch, ∃ n, ch = chs n) path client_id t d H) as (u & Hu & Hspec).
  assert (∀ n, ∃ m, chs n = chs m) as Hall by (intros n; by exists n).
  split; [by eapply run_ends|].
  pose proof (run_spec fs_step _ _ _ _ _ d chs fuel Hspec (old_ok _ _ _ d H)) as Hrun.
  destruct (run_for fs_step fuel chs _ d) as [d' r]. specialize (Hrun Hall). destruct r as [ [x|e]|].
  - exists u. exact Hrun.
  - destruct Hrun as [Hh Hor]. split; [by apply holds_text|]. intros Hnf. destruct Hor as [(ch & [n ->] & Hf)|]; [|done]. by rewrite Hnf in Hf.
  - destruct Hrun as [|Hr]; [by left|]. destruct (Hu d' Hr); [by left|right; by exists u].
Qed.

(** ** Clients are added one after the other *)
Section Adds.
Context `{E : Ed25519} {EL : Ed25519Laws E} `{T : Toml} {TL : TomlLaws T}.
Context (path : bytes) (n0 : nat) (clients0 : list ServerClient).

(** What a command knows: nothing; or it has the lock, the configuration was
    [base] when it got it, and the file holds [cur], or is being written. *)
Inductive lock_view := NoLock | Whole (base cur : ServerConfig) | Dirty (base : ServerConfig).

(** The path of the client's configuration is another one. *)
Definition add_ok (t : tool) : Prop :=
  match t with
  | TAdd client_path env => client_path ≠ path ∧ tmp_path_for client_path ≠ path ∧ array_ok 16 (ad_client_id env) ∧ array_ok 32 (ad_key env)
  | TRemove _ => False
  end.
(** Writes do not fail. *)
Definition writes_ok (B : Set) (o : fop B) (ch : fchoice) : Prop :=
  match o with FWriteAll _ _ => fc_fail ch = false | _ => True end.

Definition add_safe (B : Set) (o : fop B) (v : lock_view) : (B → lock_view → Prop) → Prop :=
  match o in fop B return (B → lock_view → Prop) → Prop with
  | FOpen p => λ Φ, p = path ∧ Φ None v ∧ Φ (Some n0) v
  | FLock n => λ Φ, n = n0 ∧ v = NoLock ∧ (∀ c, Φ true (Whole c c)) ∧ Φ false NoLock
  | FRead n => λ Φ, n = n0 ∧ ∃ base cur, v = Whole base cur ∧ Φ None v ∧ ∀ t, ServerConfig_from_toml_str t = Some cur → Φ (Some t) v
  | FSeek n | FFlush n => λ Φ, n = n0 ∧ v ≠ NoLock ∧ ∀ b, Φ b v
  | FSetLen0 n => λ Φ, n = n0 ∧ ∃ base cur, v = Whole base cur ∧ Φ false v ∧ Φ true (Dirty base)
  | FWriteAll n t => λ Φ,
      (n = n0 ∧ ∃ base cur, v = Dirty base ∧ ServerConfig_from_toml_str t = Some cur ∧ sv_clients base ⊆ sv_clients cur ∧ Φ true (Whole base cur)) ∨
      (n ≠ n0 ∧ Φ true v)
  | FExists _ => λ Φ, ∀ b, Φ b v
  | FCreate p _ => λ Φ, p ≠ path ∧ Φ None v ∧ ∀ n, n ≠ n0 → Φ (Some n) v
  | FSetPermissions _ => λ Φ, ∀ b, Φ b v
  | FRemoveFile p => λ Φ, p ≠ path ∧ ∀ b, Φ b v
  | FRename p q => λ Φ, p ≠ path ∧ q ≠ path ∧ ∀ b, Φ b v
  | FReadPath _ => λ Φ, False
  end.
Lemma add_safe_mono B (o : fop B) v (Φ Ψ : B → lock_view → Prop) : (∀ b v, Φ b v → Ψ b v) → add_safe B o v Φ → add_safe B o v Ψ.
Proof. intros H. destruct o; cbn; naive_solver. Qed.
Abbreviation safely Q X := (pwp add_safe Q X).
Lemma safely_bind {A B} (Q : B → lock_view → Prop) (X : ToolError → lock_view → Prop) v (p : prog fop ToolError A) (f : A → prog fop ToolError B) :
  safely (λ a v, safely Q X v (f a)) X v p → safely Q X v (p ≫= f).
Proof. apply pwp_bind, add_safe_mono. Qed.

(** A program that does not concern the file. *)
Lemma write_restricted_safely p t v (Q : unit → lock_view → Prop) (X : ToolError → lock_view → Prop) :
  p ≠ path → tmp_path_for p ≠ path → Q tt v → (∀ e, X e v) → safely Q X v (write_restricted p t).
Proof.
  intros Hp Ht HQ HX. unfold write_restricted. apply (pwp_catch _ add_safe_mono).
  apply (pwp_mono _ add_safe_mono (λ _ v', v' = v) _ (λ _ v', v' = v)).
  - by intros [] v' ->.
  - intros e v' ->. apply safely_bind. split; [done|]. intros b. apply HX.
  - unfold write_temp_and_rename. apply safely_bind. split; [done|]. split; [done|]. intros n Hn. cbn [pwp]. apply safely_bind.
    intros [|]; [|done]. apply safely_bind. right. split; [done|]. apply safely_bind. split_and!; [done|done|]. by intros [].
Qed.

Lemma locked_save_safely base cur c v (Q : unit → lock_view → Prop) (X : ToolError → lock_view → Prop) :
  v = Whole base cur → ServerConfig_validate c = Ok tt → sv_clients base ⊆ sv_clients c →
  Q tt (Whole base c) → (∀ e, X e (Whole base c)) → (∀ e, X e (Whole base cur)) → safely Q X v (locked_save path n0 c).
Proof using TL.
  intros -> Hv Hsub HQ HX1 HX2. unfold locked_save. destruct (server_to_toml c) as [t|] eqn:Et; [|apply HX2].
  pose proof (load_saved c t Hv Et) as Hload. apply safely_bind. intros [|]; [|apply HX2].
  apply safely_bind. split_and!; [done..|]. intros [|]; [|apply HX2].
  apply safely_bind. split; [done|]. exists base, cur. split_and!; [done|apply HX2|]. apply safely_bind. left. split; [done|].
  exists base, c. split_and!; [done..|]. apply safely_bind. split_and!; [done..|]. intros [|]; [apply HQ|apply HX1].
Qed.

(** An end of the command with the lock: the file is whole. *)
Definition add_done (t : tool) (v : lock_view) : Prop :=
  match t, v with
  | TAdd _ env, Whole base cur => sv_clients base ⊆ sv_clients cur ∧ ∃ k, k ∈ sv_clients cur ∧ sc_client_id k = ad_client_id env
  | _, _ => False
  end.
Definition add_failed (v : lock_view) : Prop :=
  match v with NoLock => True | Whole base cur => sv_clients base ⊆ sv_clients cur | Dirty _ => False end.

Lemma add_client_safely t : add_ok t → safely (λ _ v, add_done t v) (λ _ v, add_failed v) NoLock (tool_prog path t).
Proof using TL EL.
  destruct t as [client_path env|]; [|done]. intros (Hp & Htp & Hid & Hkey).
  assert (∀ c, add_failed (Whole c c)) as Hrefl by (intros c; cbn; set_solver). cbn [tool_prog]. unfold add_client_to, locked_open.
  apply safely_bind, safely_bind. split_and!; [done..|]. cbn [pwp]. apply safely_bind. split_and!; [done|done| |done]. intros c0. cbn [pwp].
  apply safely_bind. unfold locked_load. apply safely_bind. split_and!; [done..|]. intros [|]; [|apply Hrefl].
  apply safely_bind. split; [done|]. exists c0, c0. split_and!; [done|apply Hrefl|]. intros t Ht. cbn [pwp mbind prog_bind]. rewrite Ht. cbn [pwp].
  destruct (load_valid t c0 Ht) as [Hv Hmtu]. apply safely_bind. unfold planned.
  assert (wp (plan_client env c0) (λ p _, enrolled c0 (with_clients c0 (sv_clients c0 ++ [p.1])) p.2 ∧ sc_client_id p.1 = ad_client_id env)
    (λ _ _, True) (λ _, False) (mkFiles [] None [])) as Hplan by (by apply wp_plan_client).
  unfold wp in Hplan. destruct (plan_client env c0 _) as [s [ [k cfg]|e| |] ]; cbn [snd]; [|apply Hrefl|done|done]. destruct Hplan as [Hen Hkid].
  assert (sv_clients c0 ⊆ sv_clients c0 ++ [k]) as Hsub by set_solver.
  apply safely_bind, (locked_save_safely c0 c0); [done|apply Hen|done| |done|by intros; apply Hrefl].
  apply safely_bind. unfold outcome_of. apply (pwp_catch _ add_safe_mono), safely_bind.
  assert (∀ (Q : unit → lock_view → Prop) (X : ToolError → lock_view → Prop) v, Q tt v → (∀ e, X e v) → safely Q X v (write_client_config client_path cfg)) as Hwc.
  { intros Q X v HQ HX. unfold write_client_config. destruct (client_to_toml cfg); [by apply write_restricted_safely|apply HX]. }
  apply Hwc; cbn [pwp].
  - split; [done|]. exists k. split; [cbn; set_solver|done].
  - intros e. apply safely_bind. unfold outcome_of. apply (pwp_catch _ add_safe_mono), safely_bind.
    eapply locked_save_safely; [done|done|done|..]; cbn; done.
Qed.

(** Clients that are in for good: those of the start, and those of the commands
    that reported success. *)
Definition all_added (done : list (tool * (unit + ToolError))) (clients : list ServerClient) : Prop :=
  clients0 ⊆ clients ∧ ∀ client_path env, (TAdd client_path env, inl tt) ∈ done → ∃ k, k ∈ clients ∧ sc_client_id k = ad_client_id env.

(** What a view says of the text of the file. *)
Definition view_ok (done : list (tool * (unit + ToolError))) (text : bytes) (v : lock_view) : Prop :=
  match v with
  | NoLock => ∃ c, ServerConfig_from_toml_str text = Some c ∧ all_added done (sv_clients c)
  | Whole base cur => ServerConfig_from_toml_str text = Some cur ∧ all_added done (sv_clients base) ∧ sv_clients base ⊆ sv_clients cur
  | Dirty base => text = [] ∧ all_added done (sv_clients base)
  end.

Definition adds_inv (d : Disk) (done : list (tool * (unit + ToolError))) (vs : nat → lock_view) : Prop :=
  dk_paths d !! path = Some n0 ∧ (∀ p, dk_paths d !! p = Some n0 → p = path) ∧ is_Some (dk_nodes d !! n0) ∧
  match dk_locks d !! n0 with
  | None => (∀ i, vs i = NoLock) ∧ view_ok done (nd_text (node_at d n0)) NoLock
  | Some j => (∀ i, i ≠ j → vs i = NoLock) ∧ vs j ≠ NoLock ∧ view_ok done (nd_text (node_at d n0)) (vs j)
  end.

(** The lock does not change. *)
Lemma adds_keep d done vs i v d' :
  adds_inv d done vs → dk_paths d' !! path = Some n0 → (∀ p, dk_paths d' !! p = Some n0 → p = path) → is_Some (dk_nodes d' !! n0) →
  dk_locks d' !! n0 = dk_locks d !! n0 → (vs i = NoLock → v = NoLock ∧ nd_text (node_at d' n0) = nd_text (node_at d n0)) →
  (vs i ≠ NoLock → v ≠ NoLock ∧ (view_ok done (nd_text (node_at d n0)) (vs i) → view_ok done (nd_text (node_at d' n0)) v)) →
  adds_inv d' done (upd vs i v).
Proof.
  intros (_ & _ & _ & Hl) H1 H2 H3 Hlock Hout Hin. split_and!; [done..|]. rewrite Hlock. destruct (dk_locks d !! n0) as [j|].
  - destruct Hl as (Hothers & Hj & Hv). destruct (decide (j = i)) as [->|Hji].
    + destruct (Hin Hj) as [Hv1 Hv2]. rewrite upd_eq. split_and!; [|done|auto]. intros k Hk. rewrite upd_ne by done. auto.
    + destruct (Hout (Hothers i ltac:(done))) as [-> ->]. rewrite upd_ne by done. split_and!; [|done..]. intros k Hk.
      destruct (decide (k = i)) as [->|Hki]; [by rewrite upd_eq|]. rewrite upd_ne by done. auto.
  - destruct Hl as (Hall & Hv). destruct (Hout (Hall i)) as [-> ->]. split; [|done]. intros k.
    destruct (decide (k = i)) as [->|Hki]; [by rewrite upd_eq|]. by rewrite upd_ne.
Qed.

(** Nothing the invariant speaks of changes. *)
Lemma adds_same d done vs i d' :
  adds_inv d done vs → dk_paths d' !! path = Some n0 → (∀ p, dk_paths d' !! p = Some n0 → p = path) → is_Some (dk_nodes d' !! n0) →
  dk_locks d' = dk_locks d → nd_text (node_at d' n0) = nd_text (node_at d n0) → adds_inv d' done (upd vs i (vs i)).
Proof. intros HI H1 H2 H3 Hl Ht. apply (adds_keep d); [done..|by rewrite Hl|done|]. intros Hv. by rewrite Ht. Qed.

Lemma adds_step B ch i (o : fop B) (Φ : B → lock_view → Prop) d done vs b d' :
  adds_inv d done vs → add_safe B o (vs i) Φ → writes_ok B o ch → fs_step B ch i o d = Some (b, d') → ∃ v, Φ b v ∧ adds_inv d' done (upd vs i v).
Proof.
  intros HI HΦ Hw Es. pose proof HI as (Hp & Huniq & Hn0 & Hl).
  assert (adds_inv d done (upd vs i (vs i))) as Hsame by (by apply (adds_same d)).
  destruct o as [p|n|n|p|p|p pr|p|n|n|n t|n|p q|p]; cbn [add_safe fs_step writes_ok] in *.
  - injection Es as <- <-. destruct HΦ as (-> & H1 & H2). exists (vs i). split; [|done]. destruct (fc_fail ch); [done|]. by rewrite Hp.
  - destruct HΦ as (-> & Hv & H1 & H2). destruct (fc_fail ch); [injection Es as <- <-; exists (vs i); split; [by rewrite Hv|done]|].
    destruct (dk_locks d !! n0) as [j|] eqn:Ej.
    + case_decide as Eij; [|done]. subst j. by destruct Hl as (_ & Hj & _).
    + injection Es as <- <-. destruct Hl as (Hall & c & Hc & Hadd). exists (Whole c c). split; [done|]. split_and!; [done..|]. cbn. rewrite lookup_insert_eq.
      rewrite upd_eq. split_and!; [|done|]; [intros k Hk; rewrite upd_ne by done; apply Hall|]. split_and!; [done..|set_solver].
  - injection Es as <- <-. destruct HΦ as (-> & base & cur & Hv & H1 & H2). exists (vs i). split; [|done]. destruct (fc_fail ch); [done|]. apply H2.
    destruct (dk_locks d !! n0) as [j|]; [|destruct Hl as [Hall _]; congruence]. destruct Hl as (Hothers & _ & Hvj).
    destruct (decide (i = j)) as [->|Hij]; [|rewrite (Hothers i Hij) in Hv; done]. rewrite Hv in Hvj. apply Hvj.
  - done.
  - injection Es as <- <-. by exists (vs i).
  - destruct HΦ as (Hne & H1 & H2). destruct (fc_fail ch); [injection Es as <- <-; by exists (vs i)|].
    destruct (dk_paths d !! p) as [m|] eqn:Em; injection Es as <- <-.
    + assert (m ≠ n0) as Hm by (intros ->; by apply Hne, Huniq). exists (vs i). split; [by apply H2|].
      apply (adds_same d); [done..|cbn; by rewrite lookup_insert_ne|done|by rewrite node_set_ne].
    + set (m := fresh (dom (dk_nodes d))). assert (m ≠ n0) as Hm by (intros E'; apply (is_fresh (dom (dk_nodes d))); fold m; rewrite E'; by apply elem_of_dom).
      exists (vs i). split; [by apply H2|]. apply (adds_same d); cbn; [done|by rewrite lookup_insert_ne| |by rewrite lookup_insert_ne|done|].
      * intros q. destruct (decide (q = p)) as [->|Hq]; [rewrite lookup_insert_eq; congruence|]. rewrite lookup_insert_ne by done. apply Huniq.
      * unfold node_at. cbn. by rewrite lookup_insert_ne.
  - destruct (dk_paths d !! p) as [m|] eqn:Em; [|injection Es as <- <-; by exists (vs i)].
    destruct (fc_fail ch); injection Es as <- <-; [by exists (vs i)|]. exists (vs i). split; [done|].
    apply (adds_same d); [done..| |done|]; [cbn; by apply lookup_insert_is_Some'; right|].
    destruct (decide (m = n0)) as [->|Hm]; [by rewrite node_set_eq|by rewrite node_set_ne].
  - injection Es as <- <-. destruct HΦ as (-> & Hv & H1). by exists (vs i).
  - destruct HΦ as (-> & base & cur & Hv & H1 & H2). destruct (fc_fail ch); injection Es as <- <-; [by exists (vs i)|].
    exists (Dirty base). split; [done|]. apply (adds_keep d); [done..|cbn; by rewrite lookup_insert_eq|done|congruence|].
    intros _. split; [done|]. rewrite Hv, node_set_eq. by intros (_ & ? & _).
  - rewrite Hw in Es. injection Es as <- <-. destruct HΦ as [(-> & base & cur & Hv & Ht & Hsub & H1)|(Hn & H1)].
    + exists (Whole base cur). split; [done|].
      apply (adds_keep d); [done..|cbn; by rewrite lookup_insert_eq|done|congruence|]. intros _. split; [done|]. rewrite Hv. intros [He Hadd].
      split_and!; [|done..]. unfold write_node. rewrite node_set_eq, He. cbn. unfold overwrite. by rewrite drop_nil, app_nil_r.
    + exists (vs i). split; [done|]. apply (adds_same d); [done..|cbn; by rewrite lookup_insert_ne|done|]. unfold write_node. by rewrite node_set_ne.
  - injection Es as <- <-. destruct HΦ as (-> & Hv & H1). by exists (vs i).
  - destruct HΦ as (Hne & Hne' & H1). destruct (dk_paths d !! p) as [m|] eqn:Em; [|injection Es as <- <-; by exists (vs i)].
    destruct (fc_fail ch); injection Es as <- <-; [by exists (vs i)|]. assert (m ≠ n0) as Hm by (intros ->; by apply Hne, Huniq).
    exists (vs i). split; [done|]. apply (adds_same d); cbn; [done|by rewrite lookup_insert_ne, lookup_delete_ne| |done..].
    intros r. destruct (decide (r = q)) as [->|Hr]; [rewrite lookup_insert_eq; congruence|]. rewrite lookup_insert_ne by done.
    intros [_ Hr']%lookup_delete_Some. by apply Huniq.
  - destruct HΦ as (Hne & H1). destruct (dk_paths d !! p) as [m|] eqn:Em; [|injection Es as <- <-; by exists (vs i)].
    destruct (fc_fail ch); injection Es as <- <-; [by exists (vs i)|].
    exists (vs i). split; [done|]. apply (adds_same d); cbn; [done|by rewrite lookup_delete_ne| |done..].
    intros r [_ Hr']%lookup_delete_Some. by apply Huniq.
Qed.

Lemma all_added_mono done l l' : all_added done l → l ⊆ l' → all_added done l'.
Proof. intros [H1 H2] Hs. split; [set_solver|]. intros p env (k & Hk & E')%H2. exists k. auto. Qed.

(** The end of a command, which gives the lock back. *)
Lemma adds_ended i t r d done vs :
  adds_inv d done vs → (r = inl tt → add_done t (vs i)) → add_failed (vs i) → adds_inv (unlock_all i d) (done ++ [(t, r)]) (upd vs i NoLock).
Proof.
  intros (Hp & Huniq & Hn0 & Hl) Hret Hfail. split_and!; [done..|]. cbn [unlock_all dk_locks dk_nodes].
  change (node_at (unlock_all i d) n0) with (node_at d n0).
  assert (∀ l, all_added done l → (r = inl tt → ∃ p env k, t = TAdd p env ∧ k ∈ l ∧ sc_client_id k = ad_client_id env) → all_added (done ++ [(t, r)]) l) as Hadd.
  { intros l [H1 H2] H3. split; [done|]. intros p env [Hin|Hin]%elem_of_app; [by eapply H2|]. apply list_elem_of_singleton in Hin. injection Hin as <- <-.
    destruct (H3 eq_refl) as (p' & env' & k & [= <- <-] & Hk & Ek). by exists k. }
  assert (∀ k, k ≠ i → upd vs i NoLock k = vs k) as Hoth by (intros; by apply upd_ne).
  destruct (dk_locks d !! n0) as [j|] eqn:Ej.
  - destruct Hl as (Hothers & Hj & Hv). destruct (decide (j = i)) as [->|Hji].
    + assert (filter (λ nj, nj.2 ≠ i) (dk_locks d) !! n0 = None) as ->.
      { apply map_lookup_filter_None. right. intros x Hx. rewrite Ej in Hx. injection Hx as <-. naive_solver. }
      split; [intros k; destruct (decide (k = i)) as [->|Hk]; [by rewrite upd_eq|by rewrite Hoth; auto]|].
      destruct (vs i) as [|base cur|base] eqn:Ev; [done| |done]. destruct Hv as (Ht & Ha & Hsub). exists cur. split; [done|].
      apply Hadd; [by eapply all_added_mono|]. intros Er. specialize (Hret Er). destruct t as [p env|]; [|done]. destruct Hret as (_ & k & Hk & Ek). by exists p, env, k.
    + assert (filter (λ nj, nj.2 ≠ i) (dk_locks d) !! n0 = Some j) as ->.
      { by apply map_lookup_filter_Some. }
      rewrite (Hothers i) in Hret by done. rewrite Hoth by done. split_and!; [|done|].
      * intros k Hk. destruct (decide (k = i)) as [->|Hki]; [by rewrite upd_eq|by rewrite Hoth; auto].
      * assert (r ≠ inl tt) as Hr by (intros Er; by destruct t; apply Hret in Er).
        destruct (vs j) as [|base cur|base]; cbn in *; [done| |].
        -- destruct Hv as (? & ? & ?). split_and!; [done| |done]. by apply Hadd.
        -- destruct Hv as (? & ?). split; [done|]. by apply Hadd.
  - destruct Hl as (Hall & c & Hc & Ha).
    assert (filter (λ nj, nj.2 ≠ i) (dk_locks d) !! n0 = None) as -> by (apply map_lookup_filter_None; by left).
    split; [intros k; destruct (decide (k = i)) as [->|Hk]; [by rewrite upd_eq|by rewrite Hoth]|]. exists c. split; [done|]. apply Hadd; [done|].
    intros Er. specialize (Hret Er). rewrite Hall in Hret. by destruct t.
Qed.

(** Adding clients, and nothing else. *)
Definition adds_reachable (d : Disk) : Threads → Prop :=
  rtc (threads_step fs_step (tool_prog path) unlock_all add_ok writes_ok (λ _ _, False)) (mkThreads d ∅ []).

Lemma adds_reachable_inv d c s :
  dk_paths d !! path = Some n0 → (∀ p, dk_paths d !! p = Some n0 → p = path) → is_Some (dk_nodes d !! n0) → dk_locks d = ∅ →
  ServerConfig_from_toml_str (nd_text (node_at d n0)) = Some c → clients0 = sv_clients c → adds_reachable d s →
  threads_inv add_safe NoLock add_ok (λ t _ v, add_done t v) (λ _ _ v, add_failed v) adds_inv s.
Proof using TL EL.
  intros H1 H2 H3 H4 H5 H6. apply threads_inv_reachable.
  - intros t Ht. by apply add_client_safely.
  - exact adds_step.
  - intros i t [] d' l vs _ HI Hq. apply adds_ended; [done..|]. destruct t, (vs i); try done. by destruct Hq.
  - intros i t e d' l vs _ HI Hx. by apply adds_ended.
  - done.
  - exists (λ _, NoLock). split; [|split; [done|] ].
    + split_and!; [done..|]. cbn. rewrite H4, lookup_empty. split; [done|]. exists c. split; [done|]. split; [by rewrite H6|]. by intros p env ?%elem_of_nil.
    + intros i t p. cbn. by rewrite lookup_empty.
Qed.
End Adds.

(** ** Theorem on adding clients *)

(** C30: Clients that are added at the same time are all added.  Whenever no
    command has the lock on the configuration, it is valid, every client of the
    start is in it and so is the client of every command that has reported
    success, whatever the order of their steps and whichever calls fail, except
    for the writes; a command that still runs can go on. *)
Theorem adds_serialised `{E : Ed25519} {EL : Ed25519Laws E} `{T : Toml} {TL : TomlLaws T} path n0 d c s :
  dk_paths d !! path = Some n0 → (∀ p, dk_paths d !! p = Some n0 → p = path) → is_Some (dk_nodes d !! n0) → dk_locks d = ∅ →
  ServerConfig_from_toml_str (nd_text (node_at d n0)) = Some c → adds_reachable path d s →
  (dk_locks (th_device s) !! n0 = None → ∃ t c', text_at (th_device s) path = Some t ∧ ServerConfig_from_toml_str t = Some c' ∧
     sv_clients c ⊆ sv_clients c' ∧ ∀ client_path env, (TAdd client_path env, inl tt) ∈ th_done s →
       ∃ k, k ∈ sv_clients c' ∧ sc_client_id k = ad_client_id env) ∧
  (th_running s ≠ ∅ → ∀ ch, ∃ i s', tool_step ch i s = Some s').
Proof.
  intros H1 H2 H3 H4 H5 Hs. destruct (adds_reachable_inv path n0 (sv_clients c) d c s H1 H2 H3 H4 H5 eq_refl Hs) as (vs & HI & Hout & Hrun).
  destruct HI as (Hp & _ & _ & Hl). split.
  - intros Hfree. rewrite Hfree in Hl. destruct Hl as (_ & c' & Hc & [Ha1 Ha2]). eexists _, c'. unfold text_at. rewrite Hp. split_and!; [done..|]. exact Ha2.
  - intros Hne ch.
    assert (∃ i t p, th_running s !! i = Some (t, p) ∧ (∀ j, dk_locks (th_device s) !! n0 = Some j → j = i)) as (i & t & p & Hi & Hlock).
    { destruct (dk_locks (th_device s) !! n0) as [j|] eqn:Ej.
      - destruct Hl as (_ & Hj & _). destruct (th_running s !! j) as [ [t p]|] eqn:Er; [|by apply Hout in Er]. exists j, t, p. split; [done|]. by intros j' [= ->].
      - apply map_choose in Hne as (i & [t p] & Hi). by exists i, t, p. }
    exists i. unfold tool_step, thread_step. rewrite Hi. destruct p as [a|e|B o k]; [by eexists..|].
    destruct (fs_step B ch i o (th_device s)) as [ [b d']|] eqn:Es; [by eexists|]. exfalso. destruct (Hrun i t _ Hi) as [_ Hsafe].
    destruct o as [p|n|n|p|p|p pr|p|n|n|n x|n|p q|p]; cbn in Es, Hsafe; try done; try (by repeat (case_match; try done)).
    destruct Hsafe as (-> & _). destruct (fc_fail ch); [done|]. destruct (dk_locks (th_device s) !! n0) as [j|] eqn:Ej; [|done].
    rewrite (Hlock j eq_refl), decide_True in Es; done.
Qed.

(** ** Commands that are not serialised *)
Module ToolsDemo.
Import ToyEd25519 AddDemo.

Definition path : bytes := bytes_of_string "server.toml".
Definition client_path : bytes := bytes_of_string "client.toml".
Definition hex_of (b : Z) : bytes := concat (replicate 16 [48; 48 + b]).
Definition empty : ServerConfig := with_clients server [].
Definition second : ServerConfig := with_clients server [mkServerClient id2 key2 [10; 10; 0; 3] true].

(** The texts of four configurations. *)
Definition table : list (ServerConfig * bytes) := [(server, [1]); (server2, [2]); (empty, [4]); (second, [5])].
Definition row (f : ServerConfig * bytes → bool) : option (ServerConfig * bytes) := List.find f table.
#[export] Instance tabled : Toml := {|
  server_to_toml c := snd <$> row (λ r, bool_decide (r.1 = c));
  server_from_toml t := fst <$> row (λ r, bool_decide (r.2 = t));
  client_to_toml c := if decide (c = client2) then Some [3] else None;
  client_from_toml t := if decide (t = [3]) then Some client2 else None;
|}.
Lemma row_found f r : row f = Some r → r ∈ table ∧ f r = true.
Proof. intros H. apply List.find_some in H as [Hin Hf]. split; [by apply list_elem_of_In|done]. Qed.
#[export] Instance tabled_laws : TomlLaws tabled.
Proof.
  split; cbn [tabled server_to_toml server_from_toml client_to_toml client_from_toml].
  - intros c t Hr. apply fmap_Some in Hr as (r & Hr & ->). apply row_found in Hr as [Hin Hc]. apply bool_decide_eq_true in Hc as <-.
    unfold table in Hin. repeat (apply elem_of_cons in Hin as [->|Hin]; [vm_compute; reflexivity|]). by apply elem_of_nil in Hin.
  - intros c t. case_decide as H1; [intros [= <-]; by rewrite H1|done].
  - intros t c Hr. apply fmap_Some in Hr as (r & Hr & ->). apply row_found in Hr as [Hin _].
    unfold table in Hin. repeat (apply elem_of_cons in Hin as [->|Hin]; [decided|]). by apply elem_of_nil in Hin.
Qed.

Definition disk (text : bytes) : Disk := mkDisk {[ path := 0%nat ]} {[ 0%nat := mkNode text true ]} ∅.
Definition start (text : bytes) (a b : tool) : Threads (Op := fop) (Err := ToolError) :=
  mkThreads (disk text) (<[0%nat := (a, tool_prog path a)]> (<[1%nat := (b, tool_prog path b)]> ∅)) [].
Definition turns (l : list nat) : list (fchoice * nat) := pair (mkFChoice false 0) <$> l.
Definition ran (text : bytes) (a b : tool) (l : list nat) : option (Threads (Op := fop) (Err := ToolError) (Res := unit)) :=
  schedule fs_step unlock_all (turns l) (start text a b).

(** Two commands are started, and no call fails. *)
Definition tools_reachable (other : Threads → Threads → Prop) (text : bytes) : Threads (Res := unit) → Prop :=
  rtc (threads_step fs_step (tool_prog path) unlock_all (λ _, True) (λ (B : Set) (_ : fop B) ch, fc_fail ch = false) other) (mkThreads (disk text) ∅ []).
Lemma ran_reachable other text a b l s : ran text a b l = Some s → tools_reachable other text s.
Proof.
  intros E. eapply rtc_l; [by apply (step_start _ _ _ _ _ _ (mkThreads (disk text) ∅ []) b 1)|].
  eapply rtc_l; [by apply (step_start _ _ _ _ _ _ (mkThreads (disk text) (<[1%nat := (b, tool_prog path b)]> ∅) []) a 0)|].
  eapply schedule_reachable; [exact E|]. intros B o ch Hc. unfold turns in Hc. rewrite <- list_fmap_compose in Hc.
  by apply list_elem_of_fmap in Hc as (? & -> & _).
Qed.
Definition no_kill (s s' : Threads (Op := fop) (Err := ToolError) (Cmd := tool) (Res := unit) (D := Disk)) : Prop := False.
End ToolsDemo.

(** A client that was added can be missing.  Removing a client replaces the
    file that the command which adds another has locked: the two commands run at
    the same time, no call fails and both report success, the configuration of
    the new client is written, and the server's configuration does not have it. *)
Theorem addition_lost :
  ∃ s, ToolsDemo.tools_reachable ToolsDemo.no_kill [1] s ∧ th_running s = ∅ ∧
    th_done s = [(TRemove (ToolsDemo.hex_of 7), inl tt); (TAdd ToolsDemo.client_path AddDemo.working, inl tt)] ∧
    (∃ t cfg, text_at (th_device s) ToolsDemo.client_path = Some t ∧ client_from_toml (Toml := ToolsDemo.tabled) t = Some cfg ∧
       client_id (cc_identity cfg) = ad_client_id AddDemo.working) ∧
    ∃ t c, text_at (th_device s) ToolsDemo.path = Some t ∧ ServerConfig_from_toml_str (T := ToolsDemo.tabled) t = Some c ∧
      ∀ k, k ∈ sv_clients c → sc_client_id k ≠ ad_client_id AddDemo.working.
Proof.
  destruct (ToolsDemo.ran [1] (TAdd ToolsDemo.client_path AddDemo.working) (TRemove (ToolsDemo.hex_of 7))
    (replicate 4 0 ++ replicate 6 1 ++ replicate 10 0)%nat) as [s|] eqn:Es.
  2: { apply (f_equal (λ o, match o with Some _ => true | None => false end)) in Es. vm_compute in Es. discriminate Es. }
  exists s. split; [by eapply ToolsDemo.ran_reachable|].
  assert (∀ {A} (f : Threads → A) x, f <$> ToolsDemo.ran [1] (TAdd ToolsDemo.client_path AddDemo.working) (TRemove (ToolsDemo.hex_of 7))
    (replicate 4 0 ++ replicate 6 1 ++ replicate 10 0)%nat = Some x → f s = x) as Hget by (intros A f x; rewrite Es; by intros [= <-]).
  split; [apply (Hget _ th_running); vm_compute; reflexivity|].
  split; [apply (Hget _ th_done); vm_compute; reflexivity|]. split.
  - eexists _, _. split; [apply (Hget _ (λ s, text_at (th_device s) ToolsDemo.client_path)); vm_compute; reflexivity|].
    split; [vm_compute; reflexivity|reflexivity].
  - exists [4], ToolsDemo.empty. split; [apply (Hget _ (λ s, text_at (th_device s) ToolsDemo.path)); vm_compute; reflexivity|].
    split; [vm_compute; reflexivity|]. intros k Hk. exfalso. exact (not_elem_of_nil k Hk).
Qed.

(** A configuration can be cut off.  Two commands that remove clients at the
    same time use the same temporary file: the second empties it while the first
    is about to rename it.  The first reports success, and if the second is
    killed then the configuration is empty; no call fails. *)
Theorem shared_temporary_file :
  ∃ s, ToolsDemo.tools_reachable killed [2] s ∧ th_running s = ∅ ∧ th_done s = [(TRemove (ToolsDemo.hex_of 7), inl tt)] ∧
    text_at (th_device s) ToolsDemo.path = Some [] ∧ ServerConfig_from_toml_str (T := ToolsDemo.tabled) [] = None.
Proof.
  set (run := ToolsDemo.ran [2] (TRemove (ToolsDemo.hex_of 7)) (TRemove (ToolsDemo.hex_of 8)) (replicate 4 0 ++ replicate 2 1 ++ replicate 2 0)%nat).
  destruct run as [s|] eqn:Es.
  2: { apply (f_equal (λ o, match o with Some _ => true | None => false end)) in Es. vm_compute in Es. discriminate Es. }
  assert (∀ {A} (f : Threads → A) x, f <$> run = Some x → f s = x) as Hget by (intros A f x; rewrite Es; by intros [= <-]).
  exists (mkThreads (unlock_all 1 (th_device s)) (delete 1%nat (th_running s)) (th_done s)). split.
  { eapply rtc_r; [by eapply ToolsDemo.ran_reachable|]. apply step_other. by exists 1%nat. }
  cbn [th_running th_done th_device]. split.
  - assert (dom (th_running s) = {[1%nat]}) as Hd by (apply (Hget _ (λ s, dom (th_running s))); vm_compute; reflexivity).
    apply dom_empty_inv_L. rewrite dom_delete_L, Hd. set_solver.
  - split; [apply (Hget _ th_done); vm_compute; reflexivity|].
    split; [apply (Hget _ (λ s, text_at (unlock_all 1 (th_device s)) ToolsDemo.path)); vm_compute; reflexivity|vm_compute; reflexivity].
Qed.

Lemma remove_client_atomic_witness :
  ∃ d' t', run_for fs_step 6 (λ _, mkFChoice false 0) (remove_client (T := ToolsDemo.tabled) ToolsDemo.path (ToolsDemo.hex_of 7)) (ToolsDemo.disk [1]) =
      (d', Some (inl tt)) ∧ replaced ToolsDemo.path t' d' ∧ text_at d' ToolsDemo.path = Some [4].
Proof.
  destruct (remove_client_atomic (TL := ToolsDemo.tabled_laws) ToolsDemo.path (ToolsDemo.hex_of 7) [1] (ToolsDemo.disk [1]) (λ _, mkFChoice false 0) 6) as [_ H].
  { split; [eexists; reflexivity|]. split; [reflexivity|]. vm_compute. discriminate. }
  destruct (run_for fs_step 6 _ _ _) as [d' r] eqn:E. assert (r = Some (inl tt)) as -> by (apply (f_equal snd) in E; vm_compute in E; symmetry; exact E).
  destruct H as (t' & Hr & _). exists d', t'. split; [reflexivity|]. split; [exact Hr|].
  apply (f_equal (λ x, text_at x.1 ToolsDemo.path)) in E. vm_compute in E. symmetry. exact E.
Defined.

Lemma adds_serialised_witness :
  ∃ s t c', adds_reachable (E := ToyEd25519.toy) (T := ToolsDemo.tabled) ToolsDemo.path (ToolsDemo.disk [1]) s ∧
    text_at (th_device s) ToolsDemo.path = Some t ∧ ServerConfig_from_toml_str (T := ToolsDemo.tabled) t = Some c' ∧
    ∃ k, k ∈ sv_clients c' ∧ sc_client_id k = AddDemo.id2.
Proof.
  set (start := mkThreads (ToolsDemo.disk [1]) (<[0%nat := (TAdd ToolsDemo.client_path AddDemo.working,
    tool_prog (E := ToyEd25519.toy) (T := ToolsDemo.tabled) ToolsDemo.path (TAdd ToolsDemo.client_path AddDemo.working))]> ∅) []).
  set (run := schedule fs_step unlock_all (ToolsDemo.turns (replicate 14 0%nat)) start).
  destruct run as [s|] eqn:Es.
  2: { apply (f_equal (λ o, match o with Some _ => true | None => false end)) in Es. vm_compute in Es. discriminate Es. }
  assert (adds_reachable (E := ToyEd25519.toy) (T := ToolsDemo.tabled) ToolsDemo.path (ToolsDemo.disk [1]) s) as Hs.
  { apply (rtc_l _ _ start).
    - apply (step_start _ _ _ _ _ _ (mkThreads (ToolsDemo.disk [1]) ∅ [])); [|reflexivity]. split; [discriminate|]. split; [discriminate|]. split; decided.
    - eapply schedule_reachable; [exact Es|]. intros B o ch Hc. unfold ToolsDemo.turns in Hc. rewrite <- list_fmap_compose in Hc.
      apply list_elem_of_fmap in Hc as (? & -> & _). by destruct o. }
  destruct (adds_serialised (EL := ToyEd25519.toy_laws) (TL := ToolsDemo.tabled_laws) ToolsDemo.path 0 (ToolsDemo.disk [1]) ToyEd25519.server s) as [H _].
  - reflexivity.
  - intros p Hp. cbn [ToolsDemo.disk dk_paths] in Hp. apply lookup_singleton_Some in Hp as [<- _]. reflexivity.
  - eexists. reflexivity.
  - reflexivity.
  - vm_compute. reflexivity.
  - exact Hs.
  - destruct H as (t & c' & Ht & Hc & _ & Hadd).
    { apply (f_equal (λ o, o ≫= λ s, dk_locks (th_device s) !! 0%nat)) in Es. vm_compute in Es. symmetry. exact Es. }
    exists s, t, c'. split; [exact Hs|]. split; [exact Ht|]. split; [exact Hc|]. apply (Hadd ToolsDemo.client_path AddDemo.working).
    assert (th_done s = [(TAdd ToolsDemo.client_path AddDemo.working, inl tt)]) as ->; [|left].
    apply (f_equal (λ o, match o with Some s => th_done s | None => [] end)) in Es. vm_compute in Es. symmetry. exact Es.
Defined.
