(* ===== verification/InitServer.v ===== *)
(** * Setting up a server
      ([slt-cli/src/init.rs], [slt-cli/src/generate_certs.rs])

    The command makes the certificates of a server and a configuration with
    default values.  It refuses to overwrite what is there, unless it is forced
    to, since a new secret and a new authority cut off every client.

    The files are those of [ConfigTools]; the certificates come from a library
    and are an answer of the environment, as are the random secret and the
    number of processors. *)

From Stdlib Require Import Ascii String.
From stdpp Require Import base tactics option list numbers gmap sets relations.
From Stdlib Require Import ZArith Lia.
From S2P Require Import Prelude Effects Config Auth AddClient Programs ConfigTools.

Definition DEFAULT_LISTEN_PORT : Z := 443.
Definition DEFAULT_NGINX_PORT : Z := 8080.

(** Whether the directory is there or can be made; the certificate of the
    authority, that of the server and its key; the secret; the processors. *)
Record InitEnv := mkInitEnv {
  in_directory : bool;
  in_chain : option (bytes * bytes * bytes);
  in_secret : bytes;
  in_parallelism : option Z;
}.
Inductive InitError := InitDirectory | InitExists | InitCertsExist | InitChain | InitWrite | InitRead | InitInvalid | InitSave (e : ToolError).

Section Init.
Context `{T : Toml} (dir : bytes) (force inline_certs : bool) (env : InitEnv).
Abbreviation P := (prog fop InitError).

Definition join (name : String.string) : bytes := dir ++ bytes_of_string "/" ++ bytes_of_string name.
Definition config_path : bytes := join "server.toml".
Definition ca_path : bytes := join "ca.pem".
Definition server_path : bytes := join "server.pem".
Definition key_path : bytes := join "server-key.pem".

Definition ensure (b : bool) (e : InitError) : P unit := if b then PRet tt else PThrow e.
(** The errors of another command. *)
Fixpoint lift {A} (p : prog fop ToolError A) : P A :=
  match p with
  | PRet a => PRet a
  | PThrow e => PThrow (InitSave e)
  | PDo o k => PDo o (λ b, lift (k b))
  end.

(** [fs::write], or with [private] a file for the owner only. *)
Definition write_file (path contents : bytes) (private : bool) : P unit :=
  file ← call (FCreate path private);
  match file with
  | None => PThrow InitWrite
  | Some n => written ← call (FWriteAll n contents); ensure written InitWrite
  end.

Definition generate_certs : P unit :=
  _ ← ensure (in_directory env) InitDirectory;
  _ ← (if force then PRet tt else
       ca ← call (FExists ca_path);
       server ← call (FExists server_path);
       key ← call (FExists key_path);
       ensure (negb (ca || server || key)) InitCertsExist);
  match in_chain env with
  | None => PThrow InitChain
  | Some (ca_cert_pem, server_cert_pem, server_key_pem) =>
      _ ← write_file ca_path ca_cert_pem false;
      _ ← write_file server_path server_cert_pem false;
      _ ← write_file key_path server_key_pem true;
      restricted ← call (FSetPermissions key_path);
      ensure restricted InitWrite
  end.

Definition init_config : ServerConfig :=
  mkServerConfig (in_secret env) (mkServerNetwork DEFAULT_LISTEN_PORT DEFAULT_LISTEN_PORT DEFAULT_NGINX_PORT DEFAULT_NGINX_PORT)
    (mkTunConfig (bytes_of_string "tun0") DEFAULT_TUN_MTU [10; 10; 0; 1] 24) ServerTimingConfig_default [SAes128Gcm; SChaCha20Poly1305]
    DEFAULT_UDP_NAT_MAX_ENTRIES DEFAULT_SESSION_QUEUE_SIZE DEFAULT_MAX_AUTH_INFLIGHT (default_tcp_connection_cap (in_parallelism env)) [].

Definition init : P unit :=
  _ ← ensure (in_directory env) InitDirectory;
  exists_ ← call (FExists config_path);
  _ ← ensure (negb exists_ || force) InitExists;
  _ ← generate_certs;
  _ ← (if inline_certs then
         cert ← call (FReadPath server_path);
         _ ← ensure (bool_decide (is_Some cert)) InitRead;
         key ← call (FReadPath key_path);
         ensure (bool_decide (is_Some key)) InitRead
       else PRet tt);
  match ServerConfig_validate init_config with
  | Ok _ => lift (save_server_config config_path init_config)
  | _ => PThrow InitInvalid
  end.
End Init.

Section InitSpec.
Context `{T : Toml} {TL : TomlLaws T} (dir : bytes) (force inline_certs : bool) (env : InitEnv).
Abbreviation cp := (config_path dir).

Lemma join_inj (a b : String.string) : join dir a = join dir b → bytes_of_string a = bytes_of_string b.
Proof. unfold join. intros H%app_inv_head. by apply app_inv_head in H. Qed.
Lemma paths_differ : ca_path dir ≠ cp ∧ server_path dir ≠ cp ∧ key_path dir ≠ cp.
Proof. split_and!; intros H%join_inj; discriminate H. Qed.

Lemma pwp_lift {A} (W : ∀ B, fop B → Disk → (B → Disk → Prop) → Prop) (W_mono : ∀ B (o : fop B) d (Φ Ψ : B → Disk → Prop), (∀ b d, Φ b d → Ψ b d) → W B o d Φ → W B o d Ψ)
    (Q : A → Disk → Prop) (X : InitError → Disk → Prop) d p :
  pwp W Q (λ e, X (InitSave e)) d p → pwp W Q X d (lift p).
Proof. revert d. induction p as [a|e|B o k IH]; intros d; cbn; [done..|]. apply W_mono. intros b d'. apply IH. Qed.

Section Generic.
Context (Inv : Disk → Prop) (fair : fchoice → Prop).
Abbreviation spec Q X := (pwp (answered fs_step fair Inv) Q X).
Lemma init_bind {A B} (Q : B → Disk → Prop) (X : InitError → Disk → Prop) d (p : prog fop InitError A) (f : A → prog fop InitError B) :
  spec (λ a d, spec Q X d (f a)) X d p → spec Q X d (p ≫= f).
Proof. apply pwp_bind, answered_mono. Qed.
Lemma exists_spec p d (Q : bool → Disk → Prop) (X : InitError → Disk → Prop) :
  Inv d → Q (bool_decide (is_Some (dk_paths d !! p))) d → spec Q X d (call (FExists p)).
Proof. intros HI HQ ch _. by split. Qed.
Lemma ensure_spec b e d (Q : unit → Disk → Prop) (X : InitError → Disk → Prop) : (b = true → Q tt d) → (b = false → X e d) → spec Q X d (ensure b e).
Proof. destruct b; cbn; auto. Qed.
End Generic.

(** ** What is there is not touched *)
Lemma init_refuses d fair : force = false → (∃ p, p ∈ [cp; ca_path dir; server_path dir; key_path dir] ∧ is_Some (dk_paths d !! p)) →
  pwp (answered fs_step fair (eq d)) (λ _ _, False) (λ _, eq d) d (init dir force inline_certs env).
Proof.
  intros -> (p & Hp & Hs). unfold init. apply init_bind, ensure_spec; [intros _|done]. apply init_bind, exists_spec; [done|].
  apply init_bind, ensure_spec; [|done]. rewrite orb_false_r. intros Hn%negb_true_iff%bool_decide_eq_false.
  apply init_bind. unfold generate_certs. apply init_bind, ensure_spec; [intros _|done]. apply init_bind.
  apply init_bind, exists_spec; [done|]. apply init_bind, exists_spec; [done|]. apply init_bind, exists_spec; [done|]. apply ensure_spec; [|done].
  intros [ [Hca%bool_decide_eq_false Hse%bool_decide_eq_false]%orb_false_iff Hk%bool_decide_eq_false]%negb_true_iff%orb_false_iff. exfalso.
  repeat (apply elem_of_cons in Hp as [->|Hp]; [done|]). by apply elem_of_nil in Hp.
Qed.

(** ** The configuration is replaced at the end *)

(** No other path names the configuration. *)
Definition alone_at (d : Disk) : Prop := ∀ p n, p ≠ cp → dk_paths d !! p = Some n → dk_paths d !! cp ≠ Some n.
Definition owned (t : option bytes) (d : Disk) : Prop := text_at d cp = t ∧ alone_at d ∧ ∀ n, dk_paths d !! cp = Some n → is_Some (dk_nodes d !! n).
Lemma owned_holds t d : owned t d → holds cp t d.
Proof.
  intros (Ht & Ha & Hn). unfold holds, text_at in *. destruct (dk_paths d !! cp) as [n|] eqn:E; [|done]. split_and!; [by apply Hn|done|].
  intros H. apply (Ha _ n) in H; [done|]. apply tmp_path_other.
Qed.

(** A call on another file. *)
Lemma owned_set t d p n x : owned t d → p ≠ cp → dk_paths d !! p = Some n → owned t (set_node n x d).
Proof.
  intros (Ht & Ha & Hn) Hp Hpn. pose proof (Ha p n Hp Hpn) as Hne. split_and!; [|done|].
  - unfold text_at in *. cbn [dk_paths set_node]. destruct (dk_paths d !! cp) as [m|] eqn:E; [|done]. cbn in *. rewrite node_set_ne by congruence. done.
  - intros m Hm. cbn. rewrite lookup_insert_ne by (intros ->; done). by apply Hn.
Qed.
Lemma owned_new t d p x : owned t d → p ≠ cp → dk_paths d !! p = None →
  let n := fresh (dom (dk_nodes d)) in owned t (mkDisk (<[p := n]> (dk_paths d)) (<[n := x]> (dk_nodes d)) (dk_locks d)).
Proof.
  intros (Ht & Ha & Hn) Hp Hnone n. assert (∀ m, dk_paths d !! cp = Some m → m ≠ n) as Hfresh.
  { intros m Hm ->. apply (is_fresh (dom (dk_nodes d))). by apply elem_of_dom, Hn. }
  split_and!.
  - unfold text_at, node_at in *. cbn. rewrite lookup_insert_ne by done. destruct (dk_paths d !! cp) as [m|] eqn:E; [|done]. cbn in *.
    rewrite lookup_insert_ne by (by apply not_eq_sym, Hfresh). done.
  - intros q m Hq. cbn. rewrite (lookup_insert_ne _ p cp) by done. destruct (decide (q = p)) as [->|Hqp].
    + rewrite lookup_insert_eq. intros [= <-] E. by apply (Hfresh _ E).
    + rewrite lookup_insert_ne by done. by apply Ha.
  - intros m. cbn. rewrite lookup_insert_ne by done. intros Hm. rewrite lookup_insert_ne by (by apply not_eq_sym, Hfresh). by apply Hn.
Qed.

Section Replaces.
Context (fair : fchoice → Prop) (t : option bytes).
(** At all times the old text is there, or that of the new configuration. *)
Definition old_or_fresh (d : Disk) : Prop :=
  text_at d cp = t ∨ ∃ u, server_to_toml (init_config env) = Some u ∧ ServerConfig_validate (init_config env) = Ok tt ∧ replaced cp u d.
Abbreviation spec Q X := (pwp (answered fs_step fair old_or_fresh) Q X).
Abbreviation kept := (λ (_ : InitError) (d : Disk), owned t d).
Lemma owned_ok d : owned t d → old_or_fresh d.
Proof. intros (? & _). by left. Qed.

Lemma write_file_spec p contents private d (Q : unit → Disk → Prop) :
  owned t d → p ≠ cp → (∀ d', owned t d' → Q tt d') → spec Q kept d (write_file p contents private).
Proof.
  intros Ho Hp HQ. unfold write_file. apply init_bind. intros ch _. cbn [fs_step]. destruct (fc_fail ch); [split; [by apply owned_ok|done]|].
  assert (∀ n d1, owned t d1 → dk_paths d1 !! p = Some n →
    spec Q kept d1 (written ← call (FWriteAll n contents); ensure written InitWrite)) as Hwrite.
  { intros n d1 Ho1 Hn. apply init_bind. intros ch1 _. cbn [fs_step]. destruct (fc_fail ch1); (split; [by apply owned_ok, (owned_set t d1 p)|]).
    - by apply (owned_set t d1 p).
    - by apply HQ, (owned_set t d1 p). }
  destruct (dk_paths d !! p) as [n|] eqn:En.
  - assert (owned t (set_node n (mkNode [] (nd_private (node_at d n))) d)) as Ho1 by (by apply (owned_set t d p)).
    split; [by apply owned_ok|]. by apply Hwrite.
  - pose proof (owned_new t d p (mkNode [] private) Ho Hp En) as Ho1. split; [by apply owned_ok|]. apply Hwrite; [done|]. cbn. by rewrite lookup_insert_eq.
Qed.

Lemma generate_certs_spec d (Q : unit → Disk → Prop) :
  owned t d → (∀ d', owned t d' → Q tt d') → spec Q kept d (generate_certs dir force env).
Proof.
  intros Ho HQ. destruct paths_differ as (H1 & H2 & H3). unfold generate_certs. apply init_bind, ensure_spec; [intros _|done]. apply init_bind.
  assert (spec Q kept d (match in_chain env with
    | None => PThrow InitChain
    | Some (ca_cert_pem, server_cert_pem, server_key_pem) =>
      _ ← write_file (ca_path dir) ca_cert_pem false; _ ← write_file (server_path dir) server_cert_pem false;
      _ ← write_file (key_path dir) server_key_pem true; restricted ← call (FSetPermissions (key_path dir)); ensure restricted InitWrite end)) as Hchain.
  { destruct (in_chain env) as [ [ [ca cert] key]|]; [|done].
    apply init_bind, write_file_spec; [done..|]. intros d1 Ho1. apply init_bind, write_file_spec; [done..|]. intros d2 Ho2.
    apply init_bind, write_file_spec; [done..|]. intros d3 Ho3. apply init_bind. intros ch _. cbn [fs_step].
    destruct (dk_paths d3 !! key_path dir) as [n|] eqn:En; [destruct (fc_fail ch)|]; (split; [try by apply owned_ok|try done]).
    - by apply owned_ok, (owned_set t d3 (key_path dir)).
    - by apply HQ, (owned_set t d3 (key_path dir)). }
  destruct force; [exact Hchain|]. apply init_bind, exists_spec; [by apply owned_ok|]. apply init_bind, exists_spec; [by apply owned_ok|].
  apply init_bind, exists_spec; [by apply owned_ok|]. apply ensure_spec; [by intros _|done].
Qed.

Lemma init_spec d :
  owned t d →
  spec (λ _ d', ∃ u, server_to_toml (init_config env) = Some u ∧ ServerConfig_validate (init_config env) = Ok tt ∧ replaced cp u d')
    (λ _ d', text_at d' cp = t) d (init dir force inline_certs env).
Proof.
  intros Ho. unfold init. assert (∀ d, owned t d → text_at d cp = t) as Hold by (by intros ? [? _]).
  apply init_bind, ensure_spec; [intros _|by auto]. apply init_bind, exists_spec; [by apply owned_ok|]. apply init_bind, ensure_spec; [intros _|by auto].
  apply init_bind. eapply (pwp_mono _ (answered_mono _ _ _)); [| |apply (generate_certs_spec d (λ _ d', owned t d')); [done|done] ]; [|by auto].
  intros [] d1 Ho1. apply init_bind.
  assert (spec (λ _ d', ∃ u, server_to_toml (init_config env) = Some u ∧ ServerConfig_validate (init_config env) = Ok tt ∧ replaced cp u d')
    (λ _ d', text_at d' cp = t) d1 (match ServerConfig_validate (init_config env) with
    | Ok _ => lift (save_server_config cp (init_config env)) | _ => PThrow InitInvalid end)) as Hsave.
  { destruct (ServerConfig_validate (init_config env)) as [ []| |] eqn:Ev; [|by apply Hold..]. apply (pwp_lift _ (answered_mono _ _ _)). unfold save_server_config.
    destruct (server_to_toml (init_config env)) as [u|] eqn:Eu; [|by apply Hold].
    apply (pwp_T_mono (answered fs_step fair (old_or_new cp t u))).
    - intros B o d0 Φ Ψ HΦ Ha ch Hf. specialize (Ha ch Hf). destruct (fs_step B ch 0 o d0) as [ [b d2]|]; [|done].
      destruct Ha as [Hinv Hb]. split; [|auto]. destruct Hinv; [by left|right; by exists u].
    - eapply (pwp_mono _ (answered_mono _ _ _)); [| |apply (write_restricted_spec fair cp t u d1 (owned_holds t d1 Ho1))]; [by eauto|].
      intros e d2 (_ & _ & Hh). by apply holds_text. }
  destruct inline_certs; [|exact Hsave]. apply init_bind. intros ch _. cbn [fs_step]. split; [by apply owned_ok|]. cbn [pwp].
  apply init_bind, ensure_spec; [intros _|by auto]. apply init_bind. intros ch1 _. cbn [fs_step]. split; [by apply owned_ok|]. cbn [pwp].
  apply ensure_spec; [intros _; exact Hsave|by auto].
Qed.
End Replaces.
End InitSpec.

(** The default values are valid. *)
Lemma init_config_valid env : (∀ p, in_parallelism env = Some p → 1 ≤ p) → ServerConfig_validate (init_config env) = Ok tt.
Proof.
  intros Hp. unfold ServerConfig_validate. rewrite !checked_bind. split_and!; try reflexivity. cbn. apply reject_if_ok, Z.eqb_neq.
  unfold default_tcp_connection_cap, DEFAULT_TCP_CONNECTIONS_PER_WORKER, u64_max. destruct (in_parallelism env) as [p|]; cbn; [specialize (Hp p eq_refl)|]; lia.
Qed.

(** ** Theorem *)

(** A server is not set up over another one by accident.  Unless it is
    forced, the command fails if the configuration, one of the certificates or
    the key is there, and changes nothing at all.  In any case the configuration
    has its old text or, as a whole, that of a valid configuration with default
    values, the new secret and no clients, wherever the command stops; it is
    the new one if the command succeeds and the old one if it fails, and the
    command ends. *)
Theorem init_safe `{T : Toml} {TL : TomlLaws T} dir force inline_certs env t d chs fuel :
  owned dir t d →
  let fresh_at d' := ∃ u, replaced (config_path dir) u d' ∧ ServerConfig_from_toml_str u = Some (init_config env) in
  (∃ n, (run_for fs_step n chs (init dir force inline_certs env) d).2 ≠ None) ∧
  let '(d', r) := run_for fs_step fuel chs (init dir force inline_certs env) d in
  (force = false → (∃ p, p ∈ [config_path dir; ca_path dir; server_path dir; key_path dir] ∧ is_Some (dk_paths d !! p)) →
     d' = d ∧ r ≠ Some (inl tt)) ∧
  match r with
  | Some (inl _) => fresh_at d'
  | Some (inr _) => text_at d' (config_path dir) = t
  | None => text_at d' (config_path dir) = t ∨ fresh_at d'
  end.
Proof.
  intros Ho fresh_at.
  pose proof (init_spec dir force inline_certs env (λ _, True) t d Ho) as Hspec. split; [by eapply run_ends|].
  pose proof (run_spec fs_step _ _ _ _ _ d chs fuel Hspec (owned_ok dir env t d Ho)) as Hrun.
  pose proof (λ Hf He, run_spec fs_step _ _ _ _ _ d chs fuel (init_refuses dir force inline_certs env d (λ _, True) Hf He) eq_refl) as Href.
  destruct (run_for fs_step fuel chs _ d) as [d' r]. specialize (Hrun ltac:(done)). split.
  - intros Hf He. specialize (Href Hf He ltac:(done)). destruct r as [ [ []|e]|]; [done|by rewrite Href|by rewrite Href].
  - assert ((∃ u, server_to_toml (init_config env) = Some u ∧ ServerConfig_validate (init_config env) = Ok tt ∧ replaced (config_path dir) u d') → fresh_at d') as Hfresh.
    { intros (u & Ht & Hv & Hr). exists u. split; [done|]. by apply load_saved. }
    destruct r as [ [ []|e]|]; [auto|done|]. destruct Hrun as [|Hr]; auto.
Qed.

(** ** Witness: a format with one text *)
Module InitDemo.
Import AddDemo.
Definition env : InitEnv := mkInitEnv true (Some ([1], [2], [3])) [7] (Some 2).
#[export] Instance single : Toml := {|
  server_to_toml c := if decide (c = init_config env) then Some [9] else None;
  server_from_toml t := if decide (t = [9]) then Some (init_config env) else None;
  client_to_toml _ := None;
  client_from_toml _ := None;
|}.
#[export] Instance single_laws : TomlLaws single.
Proof.
  split; cbn [single server_to_toml server_from_toml client_to_toml client_from_toml]; [| done |].
  - intros c t. case_decide as H1; [intros [= <-]; by rewrite H1|done].
  - intros t c. case_decide; [intros [= <-]; decided|done].
Qed.
Definition dir : bytes := bytes_of_string "etc".
Definition disk : Disk := mkDisk ∅ ∅ ∅.
End InitDemo.

Lemma init_safe_witness :
  (∃ d', run_for fs_step 20 (λ _, mkFChoice false 0) (init (T := InitDemo.single) InitDemo.dir false true InitDemo.env) InitDemo.disk = (d', Some (inl tt)) ∧
    text_at d' (config_path InitDemo.dir) = Some [9] ∧ ∃ u, replaced (config_path InitDemo.dir) u d') ∧
  (run_for fs_step 20 (λ _, mkFChoice false 0) (init (T := InitDemo.single) InitDemo.dir false true InitDemo.env)
      (mkDisk {[ ca_path InitDemo.dir := 0%nat ]} {[ 0%nat := mkNode [5] false ]} ∅)).1 = mkDisk {[ ca_path InitDemo.dir := 0%nat ]} {[ 0%nat := mkNode [5] false ]} ∅.
Proof.
  split.
  - destruct (init_safe (TL := InitDemo.single_laws) InitDemo.dir false true InitDemo.env None InitDemo.disk (λ _, mkFChoice false 0) 20) as [_ H].
    { split; [reflexivity|]. split; [intros p n _ Hp; discriminate Hp|intros n Hn; discriminate Hn]. }
    destruct (run_for fs_step 20 _ _ _) as [d' r] eqn:E. assert (r = Some (inl tt)) as -> by (apply (f_equal snd) in E; vm_compute in E; symmetry; exact E).
    destruct H as (_ & u & Hr & _). exists d'. split; [reflexivity|]. split; [|exists u; exact Hr].
    apply (f_equal (λ x, text_at x.1 (config_path InitDemo.dir))) in E. vm_compute in E. symmetry. exact E.
  - set (d := mkDisk {[ ca_path InitDemo.dir := 0%nat ]} {[ 0%nat := mkNode [5] false ]} ∅).
    destruct (init_safe (TL := InitDemo.single_laws) InitDemo.dir false true InitDemo.env None d (λ _, mkFChoice false 0) 20) as [_ H].
    { split; [vm_compute; reflexivity|]. split; [intros p n _ Hp Hc|intros n Hn]; [vm_compute in Hc; discriminate Hc|vm_compute in Hn; discriminate Hn]. }
    destruct (run_for fs_step 20 _ _ d) as [d1 r]. destruct H as [H _]. cbn. apply H; [reflexivity|].
    exists (ca_path InitDemo.dir). split; [right; left|]. eexists. reflexivity.
Defined.
