(* ===== verification/VpnPlan.v ===== *)
(** * What the VPN of the Android app routes
      ([android/.../vpn/VpnBuilderPlan.kt], [.../vpn/VpnProfileApplier.kt],
      [.../profile/rules/DnsSettingsRules.kt],
      [.../ui/profile/EditorListOperations.kt])

    Before Android makes the TUN device, the app tells the builder of the VPN
    which networks go through it, which DNS servers to use and which apps are
    concerned.  Networks and servers come from the profile and are validated
    again; a DNS server that the networks would leave outside gets a route of
    its own.  The builder is the list of the calls it gets.

    The editor adds networks and servers to the text of a profile; it leaves
    the text alone unless the result is valid and says something new. *)

From Stdlib Require Import Ascii String.
From stdpp Require Import base tactics option list numbers sets sorting.
From Stdlib Require Import ZArith Lia.
From S2P Require Import Prelude RouteRules.

(** ** The profile ([ProfileModels.kt]) *)
Inductive DnsMode := DnsSystem | DnsCustom.
Record DnsSettings := mkDns { dn_mode : DnsMode; dn_servers : list str }.
Inductive AppVpnMode := AppsAll | Allowlist | Blocklist.
Record AppVpnRules := mkAppRules { ar_mode : AppVpnMode; ar_packageNames : list str }.
Record ProfileMetadata := mkMetadata {
  pm_name : str;
  pm_routes : list VpnRouteRule;
  pm_dns : DnsSettings;
  pm_testUrls : list str;
  pm_appRules : AppVpnRules;
}.

#[export] Instance DnsMode_eq_dec : EqDecision DnsMode.
Proof. solve_decision. Defined.
#[export] Instance AppVpnMode_eq_dec : EqDecision AppVpnMode.
Proof. solve_decision. Defined.

(** [distinct]: the first of equal elements stays. *)
Fixpoint distinct_from {A} `{EqDecision A} (seen l : list A) : list A :=
  match l with
  | [] => []
  | x :: l => if bool_decide (x ∈ seen) then distinct_from seen l else x :: distinct_from (x :: seen) l
  end.
Definition distinct {A} `{EqDecision A} (l : list A) : list A := distinct_from [] l.

Lemma distinct_from_spec {A} `{EqDecision A} (seen l : list A) :
  NoDup (distinct_from seen l) ∧ ∀ x, x ∈ distinct_from seen l ↔ x ∈ l ∧ x ∉ seen.
Proof.
  revert seen. induction l as [|a l IH]; intros seen; cbn [distinct_from].
  { split; [constructor|]. intros x. set_solver. }
  case_bool_decide as Ha.
  - destruct (IH seen) as [Hd Hin]. split; [done|]. intros x. rewrite Hin. set_solver.
  - destruct (IH (a :: seen)) as [Hd Hin]. split.
    + constructor; [|done]. rewrite Hin. set_solver.
    + intros x. rewrite elem_of_cons, Hin. destruct (decide (x = a)) as [->|]; set_solver.
Qed.
Lemma distinct_spec {A} `{EqDecision A} (l : list A) : NoDup (distinct l) ∧ ∀ x, x ∈ distinct l ↔ x ∈ l.
Proof. destruct (distinct_from_spec [] l) as [Hd Hin]. split; [done|]. intros x. rewrite Hin. set_solver. Qed.

(** ** DNS servers ([DnsSettingsRules.kt]) *)
Inductive DnsError :=
  | DnsMissing
  | DnsNotNumeric (line : Z) | DnsIpv6Invalid (line : Z) | DnsIpv6NotSupported (line : Z)
  | DnsNotFourOctets (line : Z) | DnsOctetNotNumeric (line : Z) | DnsOctetNotNumber (line : Z) | DnsOctetRange (line : Z).

Section Dns.
Context `{J : Jvm}.

(** The regular expression [[,\s]+]; empty parts are dropped afterwards, so it
    is enough to split at each separator. *)
Definition is_separator (c : Z) : bool := (c =? 44) || (c =? 32) || ((9 <=? c) && (c <=? 13)).
Fixpoint split_where (p : Z → bool) (s : str) : str * list str :=
  match s with
  | [] => ([], [])
  | x :: s => let '(part, parts) := split_where p s in if p x then ([], part :: parts) else (x :: part, parts)
  end.
Definition dns_words (rawLine : str) : list str :=
  let '(part, parts) := split_where is_separator (trim (takeUntil HASH rawLine)) in
  List.filter (λ w, negb (bool_decide (w = []))) (part :: parts).

Fixpoint dns_octets (lineNumber : Z) (octets : list str) : res DnsError bytes :=
  match octets with
  | [] => Ok []
  | octet :: octets =>
      _ ← require (negb (bool_decide (octet = [])) && forallb isDigit octet) (DnsOctetNotNumeric lineNumber);
      value ← (match toIntOrNull octet with Some v => Ok v | None => Err (DnsOctetNotNumber lineNumber) end);
      _ ← require ((0 <=? value) && (value <=? 255)) (DnsOctetRange lineNumber);
      rest ← dns_octets lineNumber octets;
      Ok (value :: rest)
  end.

Definition parseNumericDnsServer (server : str) (lineNumber : Z) : res DnsError str :=
  if bool_decide (COLON ∈ server) then
    _ ← require (forallb (λ c, isDigit c || is_hex c || (c =? COLON) || (c =? DOT)) server) (DnsNotNumeric lineNumber);
    match getByName6 server with
    | Some (Inet6 _) => Err (DnsIpv6NotSupported lineNumber)
    | _ => Err (DnsIpv6Invalid lineNumber)
    end
  else
  _ ← require (bool_decide (DOT ∈ server)) (DnsNotNumeric lineNumber);
  _ ← require (forallb (λ c, isDigit c || (c =? DOT)) server) (DnsNotNumeric lineNumber);
  let octets := split DOT server in
  _ ← require (zlen octets =? 4) (DnsNotFourOctets lineNumber);
  bytes ← dns_octets lineNumber octets;
  Ok (hostAddress (Inet4 bytes)).

(** [add] of a linked set. *)
Definition set_add (servers : list str) (server : str) : list str :=
  if bool_decide (server ∈ servers) then servers else servers ++ [server].

Fixpoint add_servers (lineNumber : Z) (words servers : list str) : res DnsError (list str) :=
  match words with
  | [] => Ok servers
  | w :: words =>
      server ← parseNumericDnsServer w lineNumber;
      add_servers lineNumber words (set_add servers server)
  end.
Fixpoint parse_dns_lines (lineNumber : Z) (lines servers : list str) : res DnsError (list str) :=
  match lines with
  | [] => Ok servers
  | rawLine :: lines =>
      servers ← add_servers lineNumber (dns_words rawLine) servers;
      parse_dns_lines (lineNumber + 1) lines servers
  end.
Definition parseDnsServers (text : str) : res DnsError (list str) := parse_dns_lines 1 (lineSequence text) [].

Definition parseDnsSettings (mode : DnsMode) (text : str) : res DnsError DnsSettings :=
  match mode with
  | DnsSystem => Ok (mkDns DnsSystem [])
  | DnsCustom =>
      servers ← parseDnsServers text;
      _ ← require (negb (bool_decide (servers = []))) DnsMissing;
      Ok (mkDns DnsCustom servers)
  end.

Definition exportDnsServers (servers : list str) : str := joinToString 10 servers.

(** The servers for which [f] does not say that a route includes them. *)
Fixpoint filter_servers (f : str → res RouteError bool) (servers : list str) : res RouteError (list str) :=
  match servers with
  | [] => Ok []
  | s :: servers =>
      keep ← f s;
      rest ← filter_servers f servers;
      Ok (if (keep : bool) then s :: rest else rest)
  end.

Definition dnsHostRoutesToAdd (routes : list VpnRouteRule) (dns : DnsSettings) : res RouteError (list VpnRouteRule) :=
  match dn_mode dns with
  | DnsSystem => Ok []
  | DnsCustom =>
      servers ← filter_servers (λ server,
        action ← vpnRouteActionForAddress routes server;
        Ok (match action with Some route => vr_excluded route | None => true end)) (dn_servers dns);
      hosts ← traverse hostVpnRouteForAddress servers;
      Ok (distinct hosts)
  end.

Definition excluded_warning (server cidr : str) : str :=
  bytes_of_string "DNS server " ++ server ++ bytes_of_string " is excluded by " ++ cidr ++
  bytes_of_string "; a DNS route will still be added".

Fixpoint excluded_warnings (routes : list VpnRouteRule) (servers : list str) : res RouteError (list str) :=
  match servers with
  | [] => Ok []
  | server :: servers =>
      route ← vpnRouteActionForAddress routes server;
      rest ← excluded_warnings routes servers;
      Ok (match route with
          | Some r => if vr_excluded r then excluded_warning server (vr_cidr r) :: rest else rest
          | None => rest
          end)
  end.
Definition dnsExcludedRouteWarnings (routes : list VpnRouteRule) (dns : DnsSettings) : res RouteError (list str) :=
  match dn_mode dns with
  | DnsSystem => Ok []
  | DnsCustom => excluded_warnings routes (dn_servers dns)
  end.
End Dns.

(** ** The plan ([VpnBuilderPlan.kt]) *)
Inductive VpnRouteAction := RouteAdd | RouteExclude.
Record VpnRouteOperation := mkOperation { op_action : VpnRouteAction; op_cidr : str }.
Record VpnBuilderPlan := mkPlan {
  pl_profileRouteOperations : list VpnRouteOperation;
  pl_dnsRouteOperations : list VpnRouteOperation;
  pl_dnsServers : list str;
  pl_warnings : list str;
}.

(** What is thrown: the first three by the checks of the plan, [RouteThrown] by
    a look at the rules, and the others by the applier. *)
Inductive PlanError :=
  | InvalidRoutes (e : RouteError)
  | InvalidDns (e : DnsError)
  | NoRoutes
  | RouteThrown (e : RouteError)
  | NotCidrRoute (cidr : str)
  | UnknownHost (name : str)
  | BadPrefixLength (cidr : str)
  | BadIpPrefix.

Section Plan.
Context `{J : Jvm}.

Definition toOperation (r : VpnRouteRule) : VpnRouteOperation :=
  mkOperation (if vr_excluded r then RouteExclude else RouteAdd) (vr_cidr r).

Definition validateRoutes (routes : list VpnRouteRule) : res PlanError (list VpnRouteRule) :=
  map_err InvalidRoutes (parseVpnRouteRules (exportVpnRouteRules routes)).
Definition validateDns (dns : DnsSettings) : res PlanError DnsSettings :=
  map_err InvalidDns (parseDnsSettings (dn_mode dns) (exportDnsServers (dn_servers dns))).

Definition createVpnBuilderPlan (routes : list VpnRouteRule) (dns : DnsSettings) : res PlanError VpnBuilderPlan :=
  validatedRoutes ← validateRoutes routes;
  validatedDns ← validateDns dns;
  _ ← require (negb (bool_decide (validatedRoutes = []))) NoRoutes;
  hosts ← map_err RouteThrown (dnsHostRoutesToAdd validatedRoutes validatedDns);
  warnings ← map_err RouteThrown (dnsExcludedRouteWarnings validatedRoutes validatedDns);
  Ok (mkPlan (toOperation <$> validatedRoutes) (toOperation <$> hosts)
        (match dn_mode validatedDns with DnsCustom => dn_servers validatedDns | DnsSystem => [] end) warnings).
End Plan.

(** ** The builder ([VpnProfileApplier.kt]) *)

(** [getByName] is [InetAddress.getByName], [None] when it throws; a literal
    address is read as it is printed. *)
Class Android := {
  getByName : str → option InetAddress;
  installed : str → bool;
}.
Class AndroidLaws `{J : Jvm} (A : Android) := {
  literal_address b : bytes_ok b → length b = 4%nat → getByName (hostAddress (Inet4 b)) = Some (Inet4 b);
}.

Inductive builder_call :=
  | AddRoute (address : InetAddress) (prefixLength : Z)
  | ExcludeRoute (address : InetAddress) (prefixLength : Z)
  | AddDnsServer (address : InetAddress)
  | AddAllowedApplication (package : str)
  | AddDisallowedApplication (package : str).

Section Applier.
Context `{J : Jvm} `{A : Android} (ownPackageName : str).

(** [split('/', limit = 2)] *)
Definition split_once (c : Z) (s : str) : option (str * str) :=
  let p := takeUntil c s in
  match drop (length p) s with
  | [] => None
  | _ :: rest => Some (p, rest)
  end.

(** [IpPrefix] masks the address and rejects other lengths. *)
Definition IpPrefix (a : InetAddress) (prefixLength : Z) : res PlanError (InetAddress * Z) :=
  if (0 <=? prefixLength) && (prefixLength <=? 8 * zlen (address_bytes a)) then
    Ok (like a (maskedNetworkBytes (address_bytes a) prefixLength), prefixLength)
  else Err BadIpPrefix.

Definition toIpPrefix (cidr : str) : res PlanError (InetAddress * Z) :=
  match split_once SLASH cidr with
  | None => Err (NotCidrRoute cidr)
  | Some (p0, p1) =>
      address ← (match getByName p0 with Some a => Ok a | None => Err (UnknownHost p0) end);
      prefixLength ← (match toIntOrNull p1 with Some n => Ok n | None => Err (BadPrefixLength cidr) end);
      IpPrefix address prefixLength
  end.

Fixpoint applyRouteOperations (operations : list VpnRouteOperation) : res PlanError (list builder_call) :=
  match operations with
  | [] => Ok []
  | o :: operations =>
      prefix ← toIpPrefix (op_cidr o);
      rest ← applyRouteOperations operations;
      Ok ((match op_action o with RouteAdd => AddRoute | RouteExclude => ExcludeRoute end) prefix.1 prefix.2 :: rest)
  end.

Fixpoint add_dns_servers (servers : list str) : res PlanError (list builder_call) :=
  match servers with
  | [] => Ok []
  | server :: servers =>
      address ← (match getByName server with Some a => Ok a | None => Err (UnknownHost server) end);
      rest ← add_dns_servers servers;
      Ok (AddDnsServer address :: rest)
  end.

Definition applyAppRules (appRules : AppVpnRules) : list builder_call :=
  match ar_mode appRules with
  | AppsAll => []
  | Allowlist => AddAllowedApplication <$> List.filter installed (distinct (ar_packageNames appRules ++ [ownPackageName]))
  | Blocklist =>
      AddDisallowedApplication <$>
        List.filter installed (distinct (List.filter (λ p, negb (bool_decide (p = ownPackageName))) (ar_packageNames appRules)))
  end.

Definition apply (profile : ProfileMetadata) : res PlanError (list builder_call) :=
  plan ← createVpnBuilderPlan (pm_routes profile) (pm_dns profile);
  routes ← applyRouteOperations (pl_profileRouteOperations plan);
  hosts ← applyRouteOperations (pl_dnsRouteOperations plan);
  servers ← add_dns_servers (pl_dnsServers plan);
  Ok (routes ++ hosts ++ servers ++ applyAppRules (pm_appRules profile)).
End Applier.

(** ** Adding to a text in the editor ([EditorListOperations.kt]) *)
Inductive EditorMessage :=
  | CidrRequired | RoutesInvalid (e : RouteError) | RouteInvalid (e : RouteError)
  | RouteExists | RouteCovered (excluded : bool) | RouteAdded
  | DnsRequired | DnsInvalid (e : DnsError) | DnsExists | DnsAdded.
Record EditorTextOperationResult := mkEdit { ed_text : str; ed_message : option EditorMessage; ed_changed : bool }.

Section Editor.
Context `{J : Jvm}.

Definition isBlank (s : str) : bool := forallb isWhitespace s.

Definition addVpnRouteFromForm (routeText cidrText : str) (excluded : bool) : EditorTextOperationResult :=
  let unchanged message := mkEdit routeText (Some message) false in
  let cidr := trim cidrText in
  if bool_decide (cidr = []) then unchanged CidrRequired else
  let line := (if excluded then [EXCLAMATION] else []) ++ cidr in
  match parseVpnRouteRules routeText with
  | Ok existingRoutes =>
      match parseVpnRouteRules line with
      | Ok newRoutes =>
          let candidateText := joinToString 10 (List.filter (λ t, negb (isBlank t)) [exportVpnRouteRules existingRoutes; line]) in
          match parseVpnRouteRules candidateText with
          | Ok routes =>
              if bool_decide (routes = existingRoutes) then
                unchanged (if existsb (λ r, bool_decide (r ∈ existingRoutes)) newRoutes then RouteExists else RouteCovered excluded)
              else mkEdit (exportVpnRouteRules routes) (Some RouteAdded) true
          | Err e => unchanged (RouteInvalid e)
          | Panic => unchanged RouteExists
          end
      | Err e => unchanged (RouteInvalid e)
      | Panic => unchanged RouteExists
      end
  | Err e => unchanged (RoutesInvalid e)
  | Panic => unchanged RouteExists
  end.

(** [filterIndexed] that leaves one index out. *)
Definition without {X} (index : nat) (l : list X) : list X := take index l ++ drop (S index) l.

Definition removeVpnRouteAt (routeText : str) (index : nat) : EditorTextOperationResult :=
  match parseVpnRouteRules routeText with
  | Ok routes => mkEdit (exportVpnRouteRules (without index routes)) None true
  | Err e => mkEdit routeText (Some (RoutesInvalid e)) false
  | Panic => mkEdit routeText None false
  end.

Definition displayedDnsServers (dnsText : str) : list str :=
  match parseDnsSettings DnsCustom dnsText with Ok dns => dn_servers dns | _ => [] end.

Definition addDnsServerFromForm (currentServers : list str) (serverText : str) : EditorTextOperationResult :=
  let unchanged message := mkEdit (exportDnsServers currentServers) (Some message) false in
  let candidate := trim serverText in
  if bool_decide (candidate = []) then unchanged DnsRequired else
  match parseDnsSettings DnsCustom (joinToString 10 (currentServers ++ [candidate])) with
  | Ok dns =>
      if bool_decide (dn_servers dns = currentServers) then unchanged DnsExists
      else mkEdit (exportDnsServers (dn_servers dns)) (Some DnsAdded) true
  | Err e => unchanged (DnsInvalid e)
  | Panic => unchanged DnsExists
  end.

Definition removeDnsServerAt (currentServers : list str) (index : nat) : EditorTextOperationResult :=
  mkEdit (exportDnsServers (without index currentServers)) None true.
End Editor.

(** ** Servers are canonical addresses *)
Lemma distinct_id {A} `{EqDecision A} (l : list A) : NoDup l → distinct l = l.
Proof.
  unfold distinct. assert (∀ seen, (∀ x, x ∈ l → x ∉ seen) → NoDup l → distinct_from seen l = l) as H; [|by apply H; set_solver].
  induction l as [|a l IH]; intros seen Hs Hd; cbn [distinct_from]; [done|]. apply NoDup_cons in Hd as [Ha Hd].
  rewrite bool_decide_eq_false_2 by (apply Hs; left). f_equal. apply IH; [|done]. set_solver.
Qed.

Section Servers.
Context `{J : Jvm} {L : JvmLaws J}.

Definition ip4 (b : bytes) : Prop := bytes_ok b ∧ length b = 4%nat.
Definition host_text (b : bytes) : str := hostAddress (Inet4 b).

Lemma host_text_parsed b line : ip4 b → parseNumericAddress (host_text b) line = Ok (Inet4 b).
Proof using L. intros [Hb Hl]. by apply parse_host. Qed.

Lemma host_text_inj b b' : ip4 b → ip4 b' → host_text b = host_text b' → b = b'.
Proof using L.
  intros Hb Hb' E. pose proof (host_text_parsed b 1 Hb) as H. rewrite E, (host_text_parsed b' 1 Hb') in H. by injection H.
Qed.

Lemma dns_octets_bytes n m octets b : dns_octets n octets = Ok b → octets_bytes m octets = Ok b.
Proof.
  revert b. induction octets as [|o octets IH]; intros b; cbn [dns_octets octets_bytes]; [by intros [= <-]|].
  unfold require at 1 3. destruct (_ && _); [|done]. res_simpl. destruct (toIntOrNull o); [|done]. res_simpl.
  unfold require. destruct (_ && _); [|done]. res_simpl. destruct (dns_octets n octets) as [b'| |]; [|done..]. res_simpl.
  intros [= <-]. by rewrite (IH b' eq_refl).
Qed.

Lemma parse_server_ok s n r : parseNumericDnsServer s n = Ok r → ∃ b, ip4 b ∧ r = host_text b.
Proof.
  intros H. assert (∃ b, parseNumericAddress s n = Ok (Inet4 b) ∧ r = host_text b) as (b & Ha & ->).
  { revert H. unfold parseNumericDnsServer, parseNumericAddress. case_bool_decide.
    { unfold require. destruct (forallb _ _); [|done]. res_simpl. by destruct (getByName6 s) as [ []|]. }
    unfold require. case_bool_decide; [|done]. res_simpl. destruct (forallb _ _); [|done]. res_simpl.
    destruct (_ =? 4); [|done]. res_simpl. destruct (dns_octets n _) as [b| |] eqn:E; [|done..]. res_simpl. intros [= <-].
    rewrite (dns_octets_bytes _ n _ _ E). res_simpl. by exists b. }
  exists b. split; [|done]. by apply parse_address_ok in Ha.
Qed.

(** A list of such texts without duplicates. *)
Definition servers_ok (servers : list str) : Prop := ∃ bs, servers = host_text <$> bs ∧ Forall ip4 bs ∧ NoDup bs.

Lemma set_add_ok servers b : servers_ok servers → ip4 b → servers_ok (set_add servers (host_text b)).
Proof.
  intros (bs & -> & Hb & Hd) Hi. unfold set_add. case_bool_decide as Hin; [by exists bs|].
  exists (bs ++ [b]). split_and!; [by rewrite fmap_app|by apply Forall_app; split; [|constructor]|].
  apply NoDup_app. split_and!; [done| |apply NoDup_singleton]. intros x Hx ->%list_elem_of_singleton. by apply Hin, list_elem_of_fmap_2.
Qed.

Lemma add_servers_ok n words servers r : servers_ok servers → add_servers n words servers = Ok r → servers_ok r.
Proof.
  revert servers. induction words as [|w words IH]; intros servers Hs; cbn [add_servers]; [by intros [= <-]|].
  destruct (parseNumericDnsServer w n) as [s| |] eqn:E; [|done..]. res_simpl. apply parse_server_ok in E as (b & Hb & ->).
  apply IH. by apply set_add_ok.
Qed.

Lemma parse_dns_lines_ok n lines servers r : servers_ok servers → parse_dns_lines n lines servers = Ok r → servers_ok r.
Proof.
  revert n servers. induction lines as [|x lines IH]; intros n servers Hs; cbn [parse_dns_lines]; [by intros [= <-]|].
  destruct (add_servers n _ servers) as [s| |] eqn:E; [|done..]. res_simpl. apply IH. by eapply add_servers_ok.
Qed.

Lemma parse_servers_ok text servers : parseDnsServers text = Ok servers → servers_ok servers.
Proof. apply parse_dns_lines_ok. exists []. split_and!; [done|constructor|constructor]. Qed.

Lemma parse_settings_ok mode text dns :
  parseDnsSettings mode text = Ok dns →
  dn_mode dns = mode ∧ servers_ok (dn_servers dns) ∧ (dn_servers dns = [] ↔ mode = DnsSystem).
Proof.
  unfold parseDnsSettings. destruct mode.
  { intros [= <-]. split_and!; [done| |done]. exists []. split_and!; [done|constructor|constructor]. }
  destruct (parseDnsServers text) as [servers| |] eqn:E; [|done..]. res_simpl. unfold require. case_bool_decide as He; [done|]. cbn [negb].
  res_simpl. intros [= <-]. split_and!; [done|by eapply parse_servers_ok|done].
Qed.

(** Nothing here panics. *)
Ltac no_panic_rules :=
  repeat first
    [ no_panic_step
    | match goal with
      | |- require _ _ ≠ Panic => unfold require
      | |- (match ?x with _ => _ end) ≠ Panic => destruct x eqn:?
      | |- (let '(_, _) := ?x in _) ≠ Panic => destruct x eqn:?
      end ];
  try done.

Lemma dns_octets_no_panic n octets : dns_octets n octets ≠ Panic.
Proof. induction octets; cbn [dns_octets]; no_panic_rules. Qed.
Lemma octets_bytes_no_panic n octets : octets_bytes n octets ≠ Panic.
Proof. induction octets; cbn [octets_bytes]; no_panic_rules. Qed.
Lemma parse_server_no_panic s n : parseNumericDnsServer s n ≠ Panic.
Proof. unfold parseNumericDnsServer. no_panic_rules. apply dns_octets_no_panic. Qed.
Lemma add_servers_no_panic n words servers : add_servers n words servers ≠ Panic.
Proof. revert servers. induction words; intros servers; cbn [add_servers]; no_panic_rules; auto using parse_server_no_panic. Qed.
Lemma parse_dns_lines_no_panic n lines servers : parse_dns_lines n lines servers ≠ Panic.
Proof. revert n servers. induction lines; intros n servers; cbn [parse_dns_lines]; no_panic_rules; auto using add_servers_no_panic. Qed.
Lemma parse_settings_no_panic mode text : parseDnsSettings mode text ≠ Panic.
Proof. unfold parseDnsSettings, parseDnsServers. no_panic_rules. apply parse_dns_lines_no_panic. Qed.

Lemma parse_address_no_panic s n : parseNumericAddress s n ≠ Panic.
Proof. unfold parseNumericAddress. no_panic_rules. apply octets_bytes_no_panic. Qed.
Lemma parse_line_no_panic line n allow : parseVpnRouteRuleLine line n allow ≠ Panic.
Proof. unfold parseVpnRouteRuleLine. no_panic_rules. apply parse_address_no_panic. Qed.
Lemma parse_lines_no_panic n lines : parse_lines n lines ≠ Panic.
Proof. revert n. induction lines; intros n; cbn [parse_lines]; no_panic_rules; auto using parse_line_no_panic. Qed.
Lemma parse_rules_no_panic text : parseVpnRouteRules text ≠ Panic.
Proof. unfold parseVpnRouteRules, normalise. no_panic_rules. apply parse_lines_no_panic. Qed.
End Servers.

(** ** What the builder is told *)
Section Applied.
Context `{J : Jvm} {L : JvmLaws J} `{A : Android} {LA : AndroidLaws A}.
Implicit Types (k : list ParsedVpnRouteRule) (h : bytes).

Definition route_call (r : ParsedVpnRouteRule) : builder_call :=
  (if vr_excluded (pr_rule r) then ExcludeRoute else AddRoute) (Inet4 (pr_networkBytes r)) (pr_prefixLength r).
Definition host_call (b : bytes) : builder_call := AddRoute (Inet4 b) 32.

(** The longest network that covers an address goes through the VPN. *)
Definition goes_through k h : Prop :=
  ∃ r, r ∈ k ∧ covering r h ∧ vr_excluded (pr_rule r) = false ∧
    ∀ r', r' ∈ k → covering r' h → pr_prefixLength r' ≤ pr_prefixLength r.

Lemma goes_through_iff k h : consistent k → goes_through k h ↔ action_below k h 33 = Some false.
Proof.
  intros Hk. pose proof (action_below_spec k h 33 Hk) as Hs. pose proof Hk as [Hw _]. rewrite Forall_forall in Hw.
  assert (∀ r, r ∈ k → pr_prefixLength r < Z.of_nat 33) as Hlt by (intros r Hr; pose proof (rw_prefix r (Hw r Hr)); lia).
  split.
  - intros (r & Hr & Hc & He & Hmax). destruct (action_below k h 33) as [a|]; [|specialize (Hs r Hr Hc); specialize (Hlt r Hr); lia].
    destruct Hs as (r' & Hr' & Hc' & _ & <- & Hmax'). f_equal.
    assert (pr_prefixLength r = pr_prefixLength r') as El.
    { specialize (Hmax r' Hr' Hc'). specialize (Hmax' r Hr Hc (Hlt r Hr)). lia. }
    rewrite <- He. f_equal. f_equal. symmetry. apply (consistent_network k); [done..|]. unfold covering in *. by rewrite Hc, Hc', El.
  - intros E. rewrite E in Hs. destruct Hs as (r & Hr & Hc & _ & He & Hmax). exists r. split_and!; [done..|]. auto.
Qed.

#[local] Instance not_included_dec k h : Decision (action_below k h 33 ≠ Some false) := _.
Definition outside k (bs : list bytes) : list bytes := filter (λ h, action_below k h 33 ≠ Some false) bs.

Lemma outside_ip4 k bs : Forall ip4 bs → Forall ip4 (outside k bs).
Proof. rewrite !Forall_forall. intros H b [_ Hb]%list_elem_of_filter. auto. Qed.

Lemma filter_servers_ok k bs :
  consistent k → Forall ip4 bs →
  filter_servers (λ server, action ← vpnRouteActionForAddress (pr_rule <$> k) server;
    Ok (match action with Some route => vr_excluded route | None => true end)) (host_text <$> bs) = Ok (host_text <$> outside k bs).
Proof using L.
  intros Hk Hb. induction Hb as [|b bs Hb _ IH]; [done|]. rewrite fmap_cons. cbn [filter_servers].
  destruct (lookup_rules k (host_text b) b Hk) as (o & -> & Hd & _); [by apply host_text_parsed|]. res_simpl.
  rewrite IH. res_simpl. f_equal. unfold outside. rewrite filter_cons.
  destruct o as [r|]; cbn [fmap option_fmap option_map compose] in *.
  - destruct (vr_excluded (pr_rule r)); [by rewrite decide_True by congruence|rewrite decide_False by congruence; done].
  - by rewrite decide_True by congruence.
Qed.

Lemma warnings_ok k bs : consistent k → Forall ip4 bs → ∃ w, excluded_warnings (pr_rule <$> k) (host_text <$> bs) = Ok w.
Proof using L.
  intros Hk Hb. induction Hb as [|b bs Hb _ [w IH] ]; [by eexists|]. rewrite fmap_cons. cbn [excluded_warnings].
  destruct (lookup_rules k (host_text b) b Hk) as (o & -> & _); [by apply host_text_parsed|]. res_simpl. rewrite IH. res_simpl. by eexists.
Qed.

Lemma host_rules bs : Forall ip4 bs → traverse hostVpnRouteForAddress (host_text <$> bs) = Ok (pr_rule ∘ host_route <$> bs).
Proof using L.
  intros Hb. induction Hb as [|b bs Hb _ IH]; [done|]. rewrite !fmap_cons. cbn [traverse].
  assert (hostVpnRouteForAddress (host_text b) = Ok (pr_rule (host_route b))) as ->.
  { unfold hostVpnRouteForAddress. by rewrite (host_route_parsed _ b) by (by apply host_text_parsed). }
  res_simpl. rewrite IH. by res_simpl.
Qed.

Lemma host_rules_distinct bs : Forall ip4 bs → NoDup bs → distinct (pr_rule ∘ host_route <$> bs) = pr_rule ∘ host_route <$> bs.
Proof using L.
  intros Hb Hd. apply distinct_id. apply NoDup_fmap_2_strong; [|done]. intros x y Hx Hy E. rewrite Forall_forall in Hb.
  apply host_text_inj; [auto..|]. unfold compose, host_route in E. cbn in E. injection E as E. by apply app_inv_tail in E.
Qed.

Lemma host_route_wf b : ip4 b → route_wf (host_route b).
Proof. intros [Hb Hl]. split; cbn; try done. apply mask_all. unfold zlen. rewrite Hl. lia. Qed.

Lemma split_once_at c s t : c ∉ s → split_once c (s ++ c :: t) = Some (s, t).
Proof.
  intros Hc. unfold split_once. replace (takeUntil c (s ++ c :: t)) with s; [by rewrite drop_app_length|].
  induction s as [|x s IH]; cbn; [by rewrite Z.eqb_refl|]. apply not_elem_of_cons in Hc as [? ?].
  rewrite (proj2 (Z.eqb_neq _ _)) by done. f_equal. by apply IH.
Qed.

Lemma toIpPrefix_route r : route_wf r → toIpPrefix (vr_cidr (pr_rule r)) = Ok (Inet4 (pr_networkBytes r), pr_prefixLength r).
Proof using L LA.
  intros [_ Hl Hb Hp Hm Ec]. unfold toIpPrefix. rewrite Ec, split_once_at.
  2: { intros Hin. pose proof (host_chars _ Hb) as H. eapply Forall_forall in H; [|exact Hin]. unfold SLASH, DOT in H. lia. }
  rewrite literal_address by done. res_simpl. rewrite toIntOrNull_print by lia. res_simpl. unfold IpPrefix. cbn [address_bytes like].
  unfold zlen. rewrite Hl, (proj2 (Z.leb_le 0 _)), (proj2 (Z.leb_le _ (8 * Z.of_nat 4))) by lia. cbn [andb]. by rewrite Hm.
Qed.

Lemma operations_applied k :
  Forall route_wf k → applyRouteOperations (toOperation ∘ pr_rule <$> k) = Ok (route_call <$> k).
Proof using L LA.
  intros Hw. induction Hw as [|r k Hr _ IH]; [done|]. rewrite !fmap_cons. cbn [applyRouteOperations]. rewrite IH.
  change (op_cidr ((toOperation ∘ pr_rule) r)) with (vr_cidr (pr_rule r)). rewrite toIpPrefix_route by done. res_simpl.
  unfold route_call. cbn [compose toOperation op_action fst snd]. by destruct (vr_excluded _).
Qed.

Lemma servers_applied bs : Forall ip4 bs → add_dns_servers (host_text <$> bs) = Ok ((λ b, AddDnsServer (Inet4 b)) <$> bs).
Proof using LA.
  intros Hb. induction Hb as [|b bs [Hb Hl] _ IH]; [done|]. rewrite !fmap_cons. cbn [add_dns_servers].
  assert (getByName (host_text b) = Some (Inet4 b)) as -> by (by apply literal_address). res_simpl. rewrite IH. by res_simpl.
Qed.

Definition apps_ok (own : str) (rules : AppVpnRules) (apps : list builder_call) : Prop :=
  match ar_mode rules with
  | AppsAll => apps = []
  | Allowlist => ∃ ps, apps = AddAllowedApplication <$> ps ∧ NoDup ps ∧
      ∀ p, p ∈ ps ↔ installed p = true ∧ (p ∈ ar_packageNames rules ∨ p = own)
  | Blocklist => ∃ ps, apps = AddDisallowedApplication <$> ps ∧ NoDup ps ∧
      ∀ p, p ∈ ps ↔ installed p = true ∧ p ∈ ar_packageNames rules ∧ p ≠ own
  end.

Lemma apps_applied own rules : apps_ok own rules (applyAppRules own rules).
Proof.
  assert (∀ l : list str, NoDup (List.filter installed (distinct l)) ∧
    ∀ p, p ∈ List.filter installed (distinct l) ↔ installed p = true ∧ p ∈ l) as H.
  { intros l. destruct (distinct_spec l) as [Hd Hin]. split; [by apply NoDup_ListNoDup, List.NoDup_filter, NoDup_ListNoDup|].
    intros p. rewrite elem_of_List_filter, Hin. tauto. }
  unfold apps_ok, applyAppRules. destruct (ar_mode rules); [done|..]; (eexists; split; [done|]).
  - destruct (H (ar_packageNames rules ++ [own])) as [Hd Hin]. split; [done|]. intros p. rewrite Hin, elem_of_app, list_elem_of_singleton. tauto.
  - destruct (H (List.filter (λ p, negb (bool_decide (p = own))) (ar_packageNames rules))) as [Hd Hin]. split; [done|]. intros p.
    rewrite Hin, elem_of_List_filter, negb_true_iff, bool_decide_eq_false. tauto.
Qed.
End Applied.

(** ** Texts of several lines *)
Section Text.
Context `{J : Jvm} {L : JvmLaws J}.

Lemma lines_joined_snoc (ls : list str) t :
  Forall (λ s, 10 ∉ s ∧ 13 ∉ s) ls → lineSequence (joinToString 10 (ls ++ [t])) = ls ++ lineSequence t.
Proof.
  unfold lineSequence. induction ls as [|s ls IH]; intros H; [cbn; by rewrite app_nil_r|].
  apply Forall_cons_1 in H as [ [H1 H2] H]. specialize (IH H). rewrite <- app_comm_cons. cbn [joinToString].
  assert (concat ((λ t, 10 :: t) <$> (ls ++ [t])) = 10 :: joinToString 10 (ls ++ [t])) as ->.
  { destruct ls; cbn; done. }
  rewrite lines_from_app by done. by rewrite IH.
Qed.

Lemma parse_lines_shift n m lines l : parse_lines n lines = Ok l → parse_lines m lines = Ok l.
Proof.
  assert (∀ line n m r, parseVpnRouteRuleLine line n false = Ok r → parseVpnRouteRuleLine line m false = Ok r) as Hline.
  { clear. intros line n m r. assert (∀ o b, octets_bytes n o = Ok b → octets_bytes m o = Ok b) as Ho.
    { induction o as [|x o IH]; intros b; cbn [octets_bytes]; [done|]. unfold require. destruct (_ && _); [|done]. res_simpl.
      destruct (toIntOrNull x); [|done]. res_simpl. destruct (_ && _); [|done]. res_simpl. destruct (octets_bytes n o) as [b'| |]; [|done..].
      res_simpl. intros [= <-]. by rewrite (IH b' eq_refl). }
    assert (∀ s a, parseNumericAddress s n = Ok a → parseNumericAddress s m = Ok a) as Ha.
    { intros s a. unfold parseNumericAddress, require. case_bool_decide.
      - destruct (forallb _ s); [|done]. res_simpl. by destruct (getByName6 s) as [ []|].
      - case_bool_decide; [|done]. res_simpl. destruct (forallb _ s); [|done]. res_simpl. destruct (_ =? 4); [|done]. res_simpl.
        destruct (octets_bytes n _) as [b| |] eqn:E; [|done..]. by rewrite (Ho _ _ E). }
    unfold parseVpnRouteRuleLine, require. destruct (negb _); [|done]. res_simpl. destruct (forallb _ _); [|done]. res_simpl.
    destruct (split SLASH _) as [|p0 [|p1 [|] ] ]; try done. destruct (_ && _); [|done]. res_simpl.
    destruct (parseNumericAddress p0 n) as [a| |] eqn:E; [|done..]. rewrite (Ha _ _ E). res_simpl.
    destruct (toIntOrNull p1); [|done]. res_simpl. destruct a; res_simpl; [|done]. by destruct (_ && _). }
  revert n m l. induction lines as [|x lines IH]; intros n m l; cbn [parse_lines]; [done|]. case_bool_decide; [apply IH|].
  destruct (parseVpnRouteRuleLine _ n false) as [r| |] eqn:E; [|done..]. rewrite (Hline _ _ m _ E). res_simpl.
  destruct (parse_lines (n + 1) lines) as [l'| |] eqn:El; [|done..]. rewrite (IH _ (m + 1) _ El). by res_simpl.
Qed.

Lemma parse_lines_app n ls ls' l l' : parse_lines n ls = Ok l → parse_lines 1 ls' = Ok l' → parse_lines n (ls ++ ls') = Ok (l ++ l').
Proof.
  revert n l. induction ls as [|x ls IH]; intros n l; cbn [parse_lines app].
  { intros [= <-] H. by eapply parse_lines_shift. }
  case_bool_decide; [apply IH|]. destruct (parseVpnRouteRuleLine _ n false) as [r| |]; [|done..]. res_simpl.
  destruct (parse_lines (n + 1) ls) as [l1| |] eqn:E; [|done..]. res_simpl. intros [= <-] H'. rewrite (IH _ _ E H'). by res_simpl.
Qed.

Lemma trimStart_head s : trimStart s = [] ∨ ∃ c t, trimStart s = c :: t ∧ isWhitespace c = false.
Proof. induction s as [|c s IH]; cbn; [by left|]. destruct (isWhitespace c) eqn:E; [done|]. right. by exists c, s. Qed.

Lemma trim_not_blank s : trim s ≠ [] → isBlank (trim s) = false.
Proof.
  unfold trim. destruct (trimStart_head (reverse (trimStart s))) as [->|(c & t & -> & Hc)]; [done|]. intros _.
  unfold isBlank. rewrite reverse_cons, forallb_app. cbn. by rewrite Hc, andb_false_r.
Qed.

Lemma export_lines k :
  ∃ e, e ≡ₚ k ∧ exportVpnRouteRules (pr_rule <$> k) = joinToString 10 (rule_line ∘ pr_rule <$> e).
Proof.
  unfold exportVpnRouteRules. rewrite sortedWith_fmap. eexists. split; [|by rewrite <- list_fmap_compose]. apply sortedWith_perm.
Qed.

Lemma export_blank e : Forall route_wf e → e ≠ [] → isBlank (joinToString 10 (rule_line ∘ pr_rule <$> e)) = false.
Proof using L.
  intros Hw Hne. destruct Hw as [|r e Hr _]; [done|]. rewrite fmap_cons. cbn [joinToString]. unfold isBlank. rewrite forallb_app.
  destruct (rule_line_ok r Hr) as [Hc Hn]. unfold compose at 1. destruct Hc as [|c t [Hc _] _]; [done|]. cbn.
  by rewrite whitespace_graphic by lia.
Qed.

(** The lines of the text with a route added. *)
Lemma parse_candidate k line l' :
  consistent k → isBlank line = false → parse_lines 1 (lineSequence line) = Ok l' →
  ∃ e, e ≡ₚ k ∧ parse_lines 1 (lineSequence (joinToString 10 (List.filter (λ t, negb (isBlank t))
    [exportVpnRouteRules (pr_rule <$> k); line]))) = Ok (e ++ l').
Proof using L.
  intros [Hw _] Hb Hl. destruct (export_lines k) as (e & He & ->). exists e. split; [done|]. cbn [List.filter]. rewrite Hb. cbn [negb].
  assert (Forall route_wf e) as Hwe by (by rewrite He). destruct (decide (e = [])) as [->|Hne].
  { cbn. by rewrite app_nil_r. }
  rewrite (export_blank e) by done. cbn [negb].
  assert (joinToString 10 [joinToString 10 (rule_line ∘ pr_rule <$> e); line] = joinToString 10 ((rule_line ∘ pr_rule <$> e) ++ [line])) as ->.
  { destruct e as [|r e]; [done|]. rewrite fmap_cons. cbn [joinToString app]. rewrite fmap_app, concat_app. by rewrite <- app_assoc. }
  rewrite lines_joined_snoc.
  - apply parse_lines_app; [by apply parse_rule_lines|done].
  - apply Forall_fmap. eapply Forall_impl; [exact Hwe|]. intros x Hx.
    destruct (rule_line_ok x Hx) as [Hc _]. split; intros Hin; eapply Forall_forall in Hc; try exact Hin; lia.
Qed.

Lemma action_below_perm l l' h n : consistent l → l ≡ₚ l' → action_below l h n = action_below l' h n.
Proof.
  intros Hl Hp. assert (consistent l') as Hl' by (apply (consistent_sub l); [done|]; intros r; by rewrite Hp).
  assert (∀ m a, action_at l h m = Some a ↔ action_at l' h m = Some a) as H.
  { intros m a. rewrite !action_at_iff by done. by setoid_rewrite Hp. }
  induction n as [|n IH]; cbn [action_below]; [done|]. rewrite IH.
  replace (action_at l' h (Z.of_nat n)) with (action_at l h (Z.of_nat n)); [done|]. apply option_eq. apply H.
Qed.
End Text.

(** Why a profile is rejected. *)
Definition rejected `{J : Jvm} (profile : ProfileMetadata) (e : PlanError) : Prop :=
  (∃ r, e = InvalidRoutes r ∧ parseVpnRouteRules (exportVpnRouteRules (pm_routes profile)) = Err r) ∨
  (∃ d, e = InvalidDns d ∧ parseDnsSettings (dn_mode (pm_dns profile)) (exportDnsServers (dn_servers (pm_dns profile))) = Err d) ∨
  (e = NoRoutes ∧ parseVpnRouteRules (exportVpnRouteRules (pm_routes profile)) = Ok []).

Lemma apply_spec `{J : Jvm} {L : JvmLaws J} `{A : Android} {LA : AndroidLaws A} own profile :
  match apply own profile with
  | Ok calls => ∃ k bs hs apps,
      parseVpnRouteRules (exportVpnRouteRules (pm_routes profile)) = Ok (pr_rule <$> k) ∧ consistent k ∧ k ≠ [] ∧
      parseDnsSettings (dn_mode (pm_dns profile)) (exportDnsServers (dn_servers (pm_dns profile)))
        = Ok (mkDns (dn_mode (pm_dns profile)) (host_text <$> bs)) ∧ NoDup bs ∧ (bs = [] ↔ dn_mode (pm_dns profile) = DnsSystem) ∧
      NoDup hs ∧ (∀ h, h ∈ hs ↔ h ∈ bs ∧ ¬ goes_through k h) ∧ apps_ok own (pm_appRules profile) apps ∧
      calls = (route_call <$> k) ++ (host_call <$> hs) ++ ((λ b, AddDnsServer (Inet4 b)) <$> bs) ++ apps
  | Err e => rejected profile e
  | Panic => False
  end.
Proof.
  unfold apply, createVpnBuilderPlan, validateRoutes, validateDns. set (mode := dn_mode (pm_dns profile)).
  set (text := exportDnsServers _). pose proof (parse_rules_no_panic (exportVpnRouteRules (pm_routes profile))) as Hnr.
  destruct (parseVpnRouteRules _) as [rules| |] eqn:Er; res_simpl; [|left; by eexists|done].
  pose proof (parse_settings_no_panic mode text) as Hnd.
  destruct (parseDnsSettings mode text) as [dns| |] eqn:Ed; res_simpl; [|right; left; by eexists|done].
  unfold require. case_bool_decide as Hne; cbn [negb]; res_simpl; [right; right; by subst|].
  destruct (parse_rules_spec _ _ Er) as (_ & k & _ & _ & -> & Hk & _ & _ & _).
  destruct (parse_settings_ok _ _ _ Ed) as (Em & (bs & Es & Hb & Hd) & Hempty). destruct dns as [m servers]. cbn in Em, Es, Hempty. subst m servers.
  assert (∃ w, dnsExcludedRouteWarnings (pr_rule <$> k) (mkDns mode (host_text <$> bs)) = Ok w) as [w Hw].
  { unfold dnsExcludedRouteWarnings. cbn. destruct mode; [by eexists|]. by apply warnings_ok. }
  assert (dnsHostRoutesToAdd (pr_rule <$> k) (mkDns mode (host_text <$> bs)) = Ok (pr_rule ∘ host_route <$> outside k bs)) as Hh.
  { unfold dnsHostRoutesToAdd. cbn [dn_mode dn_servers]. destruct mode eqn:E.
    - assert (bs = []) as -> by (by apply (fmap_nil_inv host_text), Hempty). done.
    - rewrite filter_servers_ok by done. res_simpl. rewrite host_rules by (by apply outside_ip4). res_simpl.
      rewrite host_rules_distinct; [done|by apply outside_ip4|by apply NoDup_filter]. }
  rewrite Hh, Hw. res_simpl. cbn [pl_profileRouteOperations pl_dnsRouteOperations pl_dnsServers dn_mode dn_servers].
  rewrite <- (list_fmap_compose pr_rule toOperation), operations_applied by apply Hk. res_simpl.
  assert (toOperation <$> (pr_rule ∘ host_route <$> outside k bs) = toOperation ∘ pr_rule <$> (host_route <$> outside k bs)) as ->.
  { by rewrite <- !list_fmap_compose. }
  rewrite operations_applied.
  2: { apply Forall_fmap. eapply Forall_impl; [by apply outside_ip4|]. intros b. apply host_route_wf. }
  res_simpl. assert ((match mode with DnsSystem => [] | DnsCustom => host_text <$> bs end) = host_text <$> bs) as ->.
  { destruct mode; [|done]. symmetry. by apply Hempty. }
  rewrite servers_applied by done. res_simpl. exists k, bs, (outside k bs), (applyAppRules own (pm_appRules profile)).
  split_and!; try done; try (by intros ->).
  - rewrite <- Hempty. by destruct bs.
  - by apply NoDup_filter.
  - intros h. unfold outside. rewrite list_elem_of_filter, goes_through_iff by done. tauto.
  - apply apps_applied.
  - by rewrite <- list_fmap_compose.
Qed.

(** ** Theorems *)


(** Adding a route in the editor means what it says.  The text changes only if
    the old text, the new route and both together are valid; then every address
    is treated as the longest network among the old and the new ones says. *)
Theorem route_form_adds `{J : Jvm} {L : JvmLaws J} routeText cidrText excluded :
  let r := addVpnRouteFromForm routeText cidrText excluded in
  if ed_changed r then
    ∃ k l k', parseVpnRouteRules routeText = Ok (pr_rule <$> k) ∧
      parse_lines 1 (lineSequence ((if excluded then [EXCLAMATION] else []) ++ trim cidrText)) = Ok l ∧
      parseVpnRouteRules (ed_text r) = Ok (pr_rule <$> k') ∧ k' ≠ k ∧
      ∀ h, action_below k' h 33 = action_below (k ++ l) h 33
  else ed_text r = routeText.
Proof.
  unfold addVpnRouteFromForm. case_bool_decide as Hc; [done|]. set (line := (if excluded then [EXCLAMATION] else []) ++ trim cidrText).
  destruct (parseVpnRouteRules routeText) as [existing| |] eqn:E1; try done.
  destruct (parseVpnRouteRules line) as [new| |] eqn:E2; try done.
  destruct (parse_rules_spec _ _ E1) as (_ & k & _ & _ & -> & Hk & _).
  destruct (parse_rules_spec _ _ E2) as (l & _ & Hl & _).
  assert (isBlank line = false) as Hb.
  { unfold line, isBlank. rewrite forallb_app. apply andb_false_intro2. by apply trim_not_blank. }
  destruct (parse_candidate k line l Hk Hb Hl) as (e & He & Hcand). set (text := joinToString 10 _) in *.
  destruct (parseVpnRouteRules text) as [routes| |] eqn:E3; try done. case_bool_decide as Hsame; [done|]. cbn [ed_changed ed_text].
  destruct (parse_rules_spec _ _ E3) as (l' & k' & Hl' & Hcl & -> & Hk' & _ & _ & Hact). rewrite Hcand in Hl'. injection Hl' as <-.
  exists k, l, k'. split_and!; [done|done|by apply (rules_roundtrip text)|by intros ->|].
  intros h. rewrite Hact. apply action_below_perm; [done|]. by rewrite He.
Qed.

(** ** Witness: three DNS servers, of which two would be outside *)
Module PlanDemo.
Import RoutesDemo.
(** Literal addresses only. *)
#[export] Instance android : Android := {|
  getByName s := match parseNumericAddress s 1 with Ok a => Some a | _ => None end;
  installed p := negb (bool_decide (p = bytes_of_string "gone"%string));
|}.
#[export] Instance android_laws : AndroidLaws android.
Proof. split. intros b Hb Hl. cbn. by rewrite (parse_host b 1) by done. Qed.
Definition own : list Z := bytes_of_string "dev.slt.android"%string.
Definition profile : ProfileMetadata :=
  mkMetadata (bytes_of_string "home"%string) rules
    (mkDns DnsCustom [bytes_of_string "10.2.0.1"%string; bytes_of_string "10.1.0.1, 9.9.9.9"%string; bytes_of_string "10.2.0.01"%string]) []
    (mkAppRules Allowlist [bytes_of_string "org.app"%string; bytes_of_string "gone"%string]).
Definition calls : list builder_call := Eval vm_compute in match apply own profile with Ok c => c | _ => [] end.
End PlanDemo.

