(* ===== verification/PlatformServices.v ===== *)
(** * What the Android app does for the native client
      ([android/.../vpn/VpnRuntimePlatformServices.kt],
      [.../vpn/UnderlyingNetworkSelector.kt],
      [.../vpn/UnderlyingNetworkPublication.kt],
      [.../vpn/UnderlyingNetworkDnsResolver.kt],
      [.../vpn/DnsResolutionCache.kt], and
      [slt-client/src/android/session.rs])

    The sockets of the native client must not go through the VPN that it
    serves, and neither may its DNS questions.  Before a socket is used, the
    app asks Android to protect it and binds it to a network below the VPN;
    names are resolved on such a network, with a cache on disk for times when
    DNS does not answer.

    The answers of Android are those of an environment, by the number of the
    question.  The state has the service of [VpnService], of which the tunnel
    is shared with it, and the preferences with the cache. *)

From Stdlib Require Import Ascii String.
From stdpp Require Import base tactics option list numbers gmap sets.
From Stdlib Require Import ZArith Lia.
From S2P Require Import Prelude Effects UdpIo RouteRules VpnPlan VpnService.

(** ** Networks ([UnderlyingNetworkSelector.kt]) *)
Record UnderlyingNetworkCandidate := mkCandidate {
  cd_network : Network;
  cd_isDefault : bool;
  cd_hasInternet : option bool;
  cd_isVpn : option bool;
}.

Definition canCarryVpnSocket (c : UnderlyingNetworkCandidate) : bool :=
  negb (bool_decide (cd_hasInternet c = Some false)) && negb (bool_decide (cd_isVpn c = Some true)).

Definition selectUnderlyingNetworks (candidates : list UnderlyingNetworkCandidate) : list Network :=
  let default := cd_network <$> List.find (λ c, cd_isDefault c && canCarryVpnSocket c) candidates in
  let fallback := cd_network <$> List.filter (λ c, canCarryVpnSocket c && negb (bool_decide (Some (cd_network c) = default))) candidates in
  option_list default ++ fallback.

(** [NetworkCapabilities]: internet, transport of a VPN, not a VPN. *)
Record Capabilities := mkCaps { cp_internet : bool; cp_vpnTransport : bool; cp_notVpn : bool }.
Definition isVpnNetwork (c : option Capabilities) : option bool := (λ c, cp_vpnTransport c || negb (cp_notVpn c)) <$> c.

(** What the connectivity manager says, if there is one; capabilities are
    missing when it has none or throws. *)
Record Snapshot := mkSnapshot {
  sn_manager : bool;
  sn_active : option Network;
  sn_all : list Network;
  sn_capabilities : Network → option Capabilities;
}.

Definition findUnderlyingNetworks (sn : Snapshot) : list Network :=
  if negb (sn_manager sn) then [] else
  selectUnderlyingNetworks ((λ n, mkCandidate n (bool_decide (Some n = sn_active sn)) (cp_internet <$> sn_capabilities sn n)
                                    (isVpnNetwork (sn_capabilities sn n)))
                              <$> distinct (sn_all sn ++ option_list (sn_active sn))).

(** ** Publication ([UnderlyingNetworkPublication.kt]) *)
Definition liveUnderlyingNetworks (selectedNetwork : option Network) (boundNetworks : list (SocketKind * Network)) : list Network :=
  let actualNetworks := distinct (snd <$> boundNetworks) in
  if bool_decide (actualNetworks = []) then option_list selectedNetwork else
  let selectedActualNetwork := n ← selectedNetwork; if bool_decide (n ∈ actualNetworks) then Some n else None in
  option_list selectedActualNetwork ++ List.filter (λ n, negb (bool_decide (Some n = selectedActualNetwork))) actualNetworks.

(** ** State and environment *)
Inductive pref := PrefString (s : str) | PrefLong (n : Z).

(** What happens, for the theorems: the answer of [protect], whether a network
    took a socket, a question to the DNS of a network, what is put into the
    cache, and what is published. *)
Inductive platform_action :=
  | PProtect (fd : Z) (answer : option bool)
  | PBind (fd : Z) (network : Network) (bound : bool)
  | PLookup (network : Network) (hostname : str) (answer : option (list str))
  | PCached (key : str) (now : Z) (addresses : list str)
  | PPublished (networks : list Network).

Record Platform := mkPlatform {
  pf_tick : Z;
  pf_svc : Svc;
  pf_prefs : gmap (list Z) pref;
  pf_trace : list platform_action;
}.

(** Binding a duplicate of a socket, which is then closed; either may throw. *)
Inductive bind_answer := BindOk | BindThrows | CloseThrows.

(** [None] and [false] when the call throws. *)
Record PlatformEnv := mkPlatformEnv {
  pe_protect : Z → option bool;
  pe_dup : Z → bool;
  pe_bind : Z → bind_answer;
  pe_networks : Z → option Snapshot;
  pe_lookup : Z → option (list str);
  pe_now : Z → Z;
}.

Inductive PlatformError := NetworksThrow | NoNetworkForDns | NotResolved (networks : list Network) | WrongPreference.

(** ** Sockets ([VpnRuntimePlatformServices.kt]) *)
Inductive SocketProtectionResult := Protected | ProtectRejected | NoUnderlyingNetwork | BindFailed | PlatformFailure.

Section Sockets.
Context (env : PlatformEnv).
Abbreviation M := (eff Platform PlatformError).

Definition pask {A} (f : Z → A) : M A := λ s, (mkPlatform (pf_tick s + 1) (pf_svc s) (pf_prefs s) (pf_trace s), ORet (f (pf_tick s))).
Definition plog (a : platform_action) : M unit := modify (λ s, mkPlatform (pf_tick s) (pf_svc s) (pf_prefs s) (a :: pf_trace s)).
Definition with_svc (f : Svc → Svc) : M unit := modify (λ s, mkPlatform (pf_tick s) (f (pf_svc s)) (pf_prefs s) (pf_trace s)).

(** [currentUnderlyingNetworks] of the service. *)
Definition currentUnderlyingNetworks : M (list Network) :=
  s ← get;
  if sv_tornDown (pf_svc s) then mret [] else
  let tunnelNetwork := t ← sv_tunnel (pf_svc s); at_underlyingNetwork t in
  snapshot ← pask (pe_networks env);
  match snapshot with
  | None => fail NetworksThrow
  | Some sn => mret (distinct (option_list tunnelNetwork ++ findUnderlyingNetworks sn))
  end.

(** The second half of [updateUnderlyingNetworkPublication]. *)
Definition publish : M unit :=
  s ← get;
  match sv_tunnel (pf_svc s) with
  | Some t =>
      if sv_tornDown (pf_svc s) then mret tt
      else plog (PPublished (liveUnderlyingNetworks (at_underlyingNetwork t) (at_boundUnderlyingNetworks t)))
  | None => mret tt
  end.
Definition onSocketBound (kind : SocketKind) (network : Network) : M unit :=
  _ ← with_svc (recordSocketBinding kind network); publish.

Definition bindSocket (fd : Z) (network : Network) : M SocketProtectionResult :=
  duplicated ← pask (pe_dup env);
  if negb duplicated then mret PlatformFailure else
  answer ← pask (pe_bind env);
  match answer with
  | BindOk => _ ← plog (PBind fd network true); mret Protected
  | CloseThrows => _ ← plog (PBind fd network true); mret BindFailed
  | BindThrows => _ ← plog (PBind fd network false); mret BindFailed
  end.

Fixpoint bind_first (fd : Z) (kind : SocketKind) (networks : list Network) : M SocketProtectionResult :=
  match networks with
  | [] => mret BindFailed
  | network :: networks =>
      r ← bindSocket fd network;
      match r with
      | Protected => _ ← onSocketBound kind network; mret Protected
      | BindFailed => bind_first fd kind networks
      | _ => mret r
      end
  end.

Definition bindProtectedSocket (protected : bool) (fd : Z) (kind : SocketKind) : M SocketProtectionResult :=
  if negb protected then mret ProtectRejected else
  networks ← currentUnderlyingNetworks;
  if bool_decide (networks = []) then mret NoUnderlyingNetwork else
  bind_first fd kind networks.

Definition protectAndBindSocket (fd : Z) (kind : SocketKind) : M SocketProtectionResult :=
  answer ← pask (pe_protect env);
  _ ← plog (PProtect fd answer);
  match answer with
  | None => mret PlatformFailure
  | Some protected =>
      r ← result (bindProtectedSocket protected fd kind);
      match r with
      | Ok x => mret x
      | Err _ => mret PlatformFailure
      | Panic => panic
      end
  end.

(** [SocketProtectionResult::into_io_result] *)
Definition into_io_result (r : SocketProtectionResult) : io_result unit :=
  match r with
  | Protected => inl tt
  | ProtectRejected => inr PermissionDenied
  | NoUnderlyingNetwork => inr NotConnected
  | BindFailed => inr NetworkUnreachable
  | PlatformFailure => inr OtherKind
  end.

(** [AndroidSocketProtector::protect] *)
Definition protect (fd : Z) (kind : SocketKind) : M (io_result unit) :=
  r ← protectAndBindSocket fd kind;
  mret (into_io_result r).
End Sockets.

(** ** The DNS cache ([DnsResolutionCache.kt]) *)

(** An array of strings as JSON, and what is read back, [None] when it is
    malformed. *)
Class JsonArray := {
  json_print : list str → str;
  json_read : str → option (list str);
}.
Class JsonArrayLaws (JA : JsonArray) := {
  json_read_print l : json_read (json_print l) = Some l;
}.

Definition DEFAULT_MAX_AGE_MS : Z := 24 * 60 * 60 * 1000.
(** A [Long] wraps. *)
Definition long_wrap (n : Z) : Z := (n + 2 ^ 63) mod 2 ^ 64 - 2 ^ 63.

Section Cache.
Context `{J : Jvm} `{K : Casing} `{JA : JsonArray} (env : PlatformEnv).
Abbreviation M := (eff Platform PlatformError).

Definition normalizedCacheHostname (hostname : str) : str := lowercase (trim hostname).
Definition addressesKey (hostname : str) : str := bytes_of_string "addresses:" ++ normalizedCacheHostname hostname.
Definition timestampKey (hostname : str) : str := bytes_of_string "timestamp:" ++ normalizedCacheHostname hostname.

Definition edit_prefs (f : gmap (list Z) pref → gmap (list Z) pref) : M unit :=
  modify (λ s, mkPlatform (pf_tick s) (pf_svc s) (f (pf_prefs s)) (pf_trace s)).

Definition cache_save (hostname : str) (addresses : list str) : M unit :=
  let filtered := List.filter (λ a, negb (isBlank a)) addresses in
  if bool_decide (filtered = []) then mret tt else
  now ← pask (pe_now env);
  _ ← plog (PCached (normalizedCacheHostname hostname) now filtered);
  edit_prefs (λ p, <[timestampKey hostname := PrefLong now]> (<[addressesKey hostname := PrefString (json_print filtered)]> p)).

Definition cache_remove (hostname : str) : M unit :=
  edit_prefs (λ p, delete (timestampKey hostname) (delete (addressesKey hostname) p)).

(** A preference of another type throws. *)
Definition cache_load (hostname : str) : M (list str) :=
  s ← get;
  match pf_prefs s !! timestampKey hostname with
  | Some (PrefString _) => fail WrongPreference
  | p =>
      let timestamp := match p with Some (PrefLong n) => n | _ => 0 end in
      expired ← (if timestamp =? 0 then mret true
                 else now ← pask (pe_now env); mret (long_wrap (now - timestamp) >? DEFAULT_MAX_AGE_MS));
      if (expired : bool) then _ ← cache_remove hostname; mret [] else
      match pf_prefs s !! addressesKey hostname with
      | None => mret []
      | Some (PrefLong _) => fail WrongPreference
      | Some (PrefString raw) =>
          match json_read raw with
          | Some payload => mret (List.filter (λ a, negb (isBlank a)) payload)
          | None => _ ← cache_remove hostname; mret []
          end
      end
  end.

(** ** The resolver ([UnderlyingNetworkDnsResolver.kt]) *)
Fixpoint resolveHostOnNetworks (hostname : str) (networks : list Network) : M (option (Network * list str)) :=
  match networks with
  | [] => mret None
  | network :: networks =>
      answer ← pask (pe_lookup env);
      _ ← plog (PLookup network hostname answer);
      match answer with
      | Some ((_ :: _) as addresses) => mret (Some (network, addresses))
      | _ => resolveHostOnNetworks hostname networks
      end
  end.

Definition publishUnderlyingNetwork (network : option Network) : M unit :=
  _ ← with_svc (λ svc, (publishUnderlyingNetworkIfActive network svc).1); publish.

Definition resolveHost (hostname : str) : M (list str) :=
  networks ← currentUnderlyingNetworks env;
  if bool_decide (networks = []) then fail NoNetworkForDns else
  resolved ← resolveHostOnNetworks hostname networks;
  match resolved with
  | Some (network, addresses) =>
      _ ← publishUnderlyingNetwork (Some network);
      _ ← cache_save hostname addresses;
      mret addresses
  | None =>
      cached ← cache_load hostname;
      if negb (bool_decide (cached = [])) then mret cached else fail (NotResolved networks)
  end.

(** [warm], whose exceptions are logged. *)
Definition warm (hostname : str) : M unit :=
  networks ← currentUnderlyingNetworks env;
  resolved ← resolveHostOnNetworks hostname networks;
  match resolved with
  | Some (_, addresses) => cache_save hostname addresses
  | None => mret tt
  end.

(** [resolve_host] of the native client: every address must be numeric.
    [parse_ip] and [socket_addr] are [IpAddr::from_str] and [SocketAddr::new]. *)
Context (parse_ip : str → option Z) (socket_addr : Z → Z → SocketAddr).

Fixpoint to_socket_addrs (port : Z) (addresses : list str) : option (list SocketAddr) :=
  match addresses with
  | [] => Some []
  | a :: addresses => ip ← parse_ip a; rest ← to_socket_addrs port addresses; Some (socket_addr ip port :: rest)
  end.

Definition ensure_non_empty (addrs : list SocketAddr) : io_result (list SocketAddr) :=
  if bool_decide (addrs = []) then inr NotFound else inl addrs.

Definition resolve_host (hostname : str) (port : Z) : M (io_result (list SocketAddr)) :=
  r ← result (resolveHost hostname);
  match r with
  | Ok resolved => mret (match to_socket_addrs port resolved with Some addrs => ensure_non_empty addrs | None => inr InvalidData end)
  | Err _ => mret (inr NotFound)
  | Panic => panic
  end.
End Cache.

(** ** Networks below the VPN *)

(** A network that is not known to be a VPN or to have no internet. *)
Definition below (sn : Snapshot) (n : Network) : Prop :=
  sn_manager sn = true ∧ (n ∈ sn_all sn ∨ sn_active sn = Some n) ∧
  ∀ c, sn_capabilities sn n = Some c → cp_internet c = true ∧ cp_vpnTransport c = false ∧ cp_notVpn c = true.

Lemma elem_of_option_list {A} (o : option A) x : x ∈ option_list o ↔ o = Some x.
Proof. destruct o as [y|]; cbn; [rewrite list_elem_of_singleton; naive_solver|]. split; [by intros ?%elem_of_nil|done]. Qed.

Lemma select_iff candidates n :
  n ∈ selectUnderlyingNetworks candidates ↔ ∃ c, c ∈ candidates ∧ canCarryVpnSocket c = true ∧ cd_network c = n.
Proof.
  unfold selectUnderlyingNetworks. set (default := cd_network <$> _). rewrite elem_of_app, elem_of_option_list, list_elem_of_fmap.
  setoid_rewrite elem_of_List_filter. split.
  - intros [E|(c & -> & Hc & Hf)].
    + unfold default in E. apply fmap_Some in E as (c & Ec & ->). apply find_some in Ec as [Hin Hc%andb_true_iff]. exists c.
      apply list_elem_of_In in Hin. tauto.
    + exists c. apply andb_true_iff in Hf as [Hf _]. tauto.
  - intros (c & Hc & Hf & <-). destruct (decide (Some (cd_network c) = default)) as [E|E]; [by left; symmetry|]. right. exists c. split; [done|].
    split; [done|]. by rewrite Hf, bool_decide_eq_false_2.
Qed.

Lemma find_iff sn n : n ∈ findUnderlyingNetworks sn ↔ below sn n.
Proof.
  unfold findUnderlyingNetworks, below. destruct (sn_manager sn); cbn [negb]; [|split; [by intros ?%elem_of_nil|by intros [? _] ] ].
  rewrite select_iff. setoid_rewrite list_elem_of_fmap. setoid_rewrite (proj2 (distinct_spec _)). setoid_rewrite elem_of_app.
  setoid_rewrite elem_of_option_list. unfold canCarryVpnSocket, isVpnNetwork.
  split.
  - intros (c & (m & -> & Hm) & Hc & <-). cbn in *. split; [done|]. split; [done|]. intros x E. rewrite E in Hc. cbn in Hc.
    destruct (cp_internet x), (cp_vpnTransport x), (cp_notVpn x); done.
  - intros (_ & Hm & Hc). eexists. split; [by exists n|]. cbn. split; [|done]. destruct (sn_capabilities sn n) as [x|]; [|done].
    destruct (Hc x eq_refl) as (H1 & H2 & H3). cbn. by rewrite H1, H2, H3.
Qed.

Lemma map_plus_in k n m : (k, n) ∈ map_plus k n m.
Proof. induction m as [|[k' n'] m IH]; cbn; [left|]. destruct (decide (k' = k)) as [->|]; [left|by right]. Qed.

Lemma live_bound selected bound k n : (k, n) ∈ bound → n ∈ liveUnderlyingNetworks selected bound.
Proof.
  intros Hin. unfold liveUnderlyingNetworks. set (actual := distinct _).
  assert (n ∈ actual) as Hn by (apply distinct_spec; exact (list_elem_of_fmap_2 snd _ _ Hin)).
  rewrite bool_decide_eq_false_2 by (intros E; rewrite E in Hn; by apply elem_of_nil in Hn).
  set (sel := _ ≫= _). rewrite elem_of_app, elem_of_option_list, elem_of_List_filter.
  destruct (decide (Some n = sel)) as [E|E]; [by left; symmetry|right]. by rewrite bool_decide_eq_false_2.
Qed.

(** ** Binding a socket *)
Section SocketSpec.
Context (env : PlatformEnv).
Implicit Type s : Platform.

(** The attempts to bind a socket to these networks, the newest first. *)
Definition attempts (fd : Z) (networks : list Network) (l : list platform_action) : Prop :=
  Forall2 (λ n a, ∃ b, a = PBind fd n b) networks (reverse l).

Lemma attempts_cons fd n networks b l :
  attempts fd networks l → attempts fd (n :: networks) (l ++ [PBind fd n b]).
Proof. unfold attempts. rewrite reverse_snoc. constructor; [by eexists|done]. Qed.

Lemma attempts_all fd networks l n : attempts fd networks l → n ∈ networks → ∃ b, PBind fd n b ∈ l.
Proof.
  intros H Hn. apply list_elem_of_lookup in Hn as [i Hi]. destruct (Forall2_lookup_l _ _ _ _ _ H Hi) as (a & Ha & b & ->).
  exists b. apply list_elem_of_lookup_2 in Ha. by rewrite elem_of_reverse in Ha.
Qed.

Lemma publish_eq s :
  publish s = (mkPlatform (pf_tick s) (pf_svc s) (pf_prefs s)
    (match sv_tunnel (pf_svc s) with
     | Some t => if sv_tornDown (pf_svc s) then [] else [PPublished (liveUnderlyingNetworks (at_underlyingNetwork t) (at_boundUnderlyingNetworks t))]
     | None => []
     end ++ pf_trace s), ORet tt).
Proof. unfold publish, mbind, M_bind, get. destruct s as [t svc p l]. cbn. destruct (sv_tunnel svc); [|done]. by destruct (sv_tornDown svc). Qed.

(** What is published once a socket is bound to [n]. *)
Definition bound_published (svc : Svc) (n : Network) (l : list platform_action) : Prop :=
  match sv_tunnel svc with
  | Some _ => if sv_tornDown svc then l = [] else ∃ ns, l = [PPublished ns] ∧ n ∈ ns
  | None => l = []
  end.

Lemma onSocketBound_spec kind n s :
  ∃ l, onSocketBound kind n s = (mkPlatform (pf_tick s) (recordSocketBinding kind n (pf_svc s)) (pf_prefs s) (l ++ pf_trace s), ORet tt) ∧
    bound_published (pf_svc s) n l.
Proof.
  unfold onSocketBound, mbind, M_bind, with_svc, modify. rewrite publish_eq. cbn [pf_tick pf_svc pf_prefs pf_trace]. eexists. split; [done|].
  unfold bound_published, recordSocketBinding. destruct (sv_tunnel (pf_svc s)) as [t|] eqn:Et; [|by rewrite Et].
  destruct (sv_tornDown (pf_svc s)) eqn:Ed; [by rewrite Et, Ed|]. cbn [sv_tunnel put_tunnel sv_tornDown]. rewrite Ed. eexists. split; [done|].
  cbn [at_underlyingNetwork at_boundUnderlyingNetworks]. eapply live_bound, map_plus_in.
Qed.

Lemma bindSocket_eq fd n s :
  bindSocket env fd n s =
    if pe_dup env (pf_tick s) then
      (mkPlatform (pf_tick s + 1 + 1) (pf_svc s) (pf_prefs s)
         (PBind fd n (match pe_bind env (pf_tick s + 1) with BindThrows => false | _ => true end) :: pf_trace s),
       ORet (match pe_bind env (pf_tick s + 1) with BindOk => Protected | _ => BindFailed end))
    else (mkPlatform (pf_tick s + 1) (pf_svc s) (pf_prefs s) (pf_trace s), ORet PlatformFailure).
Proof.
  unfold bindSocket, pask, plog, modify, mbind, M_bind, mret, M_ret. cbn. destruct (pe_dup env (pf_tick s)); [|done]. cbn.
  by destruct (pe_bind env (pf_tick s + 1)).
Qed.

(** Binding to the first of the networks that takes the socket. *)
Definition bind_result fd kind networks s : Prop :=
  ∃ s' r l, bind_first env fd kind networks s = (s', ORet r) ∧ pf_prefs s' = pf_prefs s ∧ pf_trace s' = l ++ pf_trace s ∧
    match r with
    | Protected => ∃ n l1 l2, l = l1 ++ PBind fd n true :: l2 ∧ n ∈ networks ∧
        pf_svc s' = recordSocketBinding kind n (pf_svc s) ∧ bound_published (pf_svc s) n l1
    | BindFailed => pf_svc s' = pf_svc s ∧ attempts fd networks l
    | PlatformFailure => pf_svc s' = pf_svc s
    | _ => False
    end.

Lemma bind_next fd kind n networks b s1 s :
  bind_result fd kind networks s1 → pf_svc s1 = pf_svc s → pf_prefs s1 = pf_prefs s → pf_trace s1 = PBind fd n b :: pf_trace s →
  ∃ s' r l, bind_first env fd kind networks s1 = (s', ORet r) ∧ pf_prefs s' = pf_prefs s ∧ pf_trace s' = l ++ pf_trace s ∧
    match r with
    | Protected => ∃ n' l1 l2, l = l1 ++ PBind fd n' true :: l2 ∧ n' ∈ n :: networks ∧
        pf_svc s' = recordSocketBinding kind n' (pf_svc s) ∧ bound_published (pf_svc s) n' l1
    | BindFailed => pf_svc s' = pf_svc s ∧ attempts fd (n :: networks) l
    | PlatformFailure => pf_svc s' = pf_svc s
    | _ => False
    end.
Proof.
  intros (s' & r & l & E & Hp & Ht & Hr) E1 E2 E3. rewrite E1 in Hr. rewrite E2 in Hp. rewrite E3 in Ht.
  exists s', r, (l ++ [PBind fd n b]). split; [done|]. split; [done|]. split; [by rewrite Ht, <- app_assoc|]. destruct r; try done.
  - destruct Hr as (m & l1 & l2 & -> & Hm & Hs & Hb). exists m, l1, (l2 ++ [PBind fd n b]).
    split; [by rewrite <- app_assoc|]. split; [by right|done].
  - destruct Hr as [Hs Ha]. split; [done|]. by apply attempts_cons.
Qed.

Lemma bind_first_spec fd kind networks s : bind_result fd kind networks s.
Proof.
  revert s. induction networks as [|n networks IH]; intros s; unfold bind_result; cbn [bind_first].
  { exists s, BindFailed, []. split_and!; try done. apply Forall2_nil_2. }
  unfold mbind, M_bind. rewrite bindSocket_eq. destruct (pe_dup env (pf_tick s)); [|by eexists _, PlatformFailure, []].
  set (s1 := mkPlatform _ _ _ _). destruct (pe_bind env (pf_tick s + 1)); cbv beta iota.
  - destruct (onSocketBound_spec kind n s1) as (l & -> & Hl).
    eexists _, Protected, (l ++ [PBind fd n true]). split; [done|]. cbn [pf_prefs pf_trace pf_svc]. split; [done|].
    split; [by rewrite <- app_assoc|]. exists n, l, []. split_and!; [done|left|done|done].
  - by apply (bind_next fd kind n networks false s1 s (IH s1)).
  - by apply (bind_next fd kind n networks true s1 s (IH s1)).
Qed.

(** The network of the tunnel, or one below the VPN. *)
Definition usable (svc : Svc) (n : Network) : Prop :=
  (∃ t, sv_tunnel svc = Some t ∧ at_underlyingNetwork t = Some n) ∨ ∃ i sn, pe_networks env i = Some sn ∧ below sn n.

Lemma current_spec s :
  ∃ s' r, currentUnderlyingNetworks env s = (s', r) ∧ pf_svc s' = pf_svc s ∧ pf_prefs s' = pf_prefs s ∧ pf_trace s' = pf_trace s ∧
    match r with
    | ORet networks => Forall (usable (pf_svc s)) networks ∧ NoDup networks ∧
        (networks = [] ∨ sv_tornDown (pf_svc s) = false) ∧
        (networks = [] → sv_tornDown (pf_svc s) = true ∨
           (¬ ∃ t n, sv_tunnel (pf_svc s) = Some t ∧ at_underlyingNetwork t = Some n) ∧
           ∃ i sn, pe_networks env i = Some sn ∧ ∀ n, ¬ below sn n)
    | OErr e => e = NetworksThrow ∧ ∃ i, pe_networks env i = None
    | _ => False
    end.
Proof.
  unfold currentUnderlyingNetworks, pask, get, mbind, M_bind, mret, M_ret. destruct (sv_tornDown (pf_svc s)) eqn:Ed.
  { eexists s, (ORet []). split_and!; try done; [by apply NoDup_nil|by left|by left]. }
  destruct (pe_networks env (pf_tick s)) as [sn|] eqn:Es; [|by eexists _, (OErr NetworksThrow); repeat (split; [done|]); exists (pf_tick s)].
  eexists _, _. split; [done|]. split; [done|]. split; [done|]. split; [done|]. match goal with |- context [option_list ?x ++ _] => set (o := x) end.
  destruct (distinct_spec (option_list o ++ findUnderlyingNetworks sn)) as [Hd Hin].
  assert (∀ n, o = Some n ↔ ∃ t, sv_tunnel (pf_svc s) = Some t ∧ at_underlyingNetwork t = Some n) as Ho.
  { intros n. unfold o. destruct (sv_tunnel (pf_svc s)) as [t|]; cbn; naive_solver. }
  setoid_rewrite elem_of_app in Hin. setoid_rewrite elem_of_option_list in Hin. setoid_rewrite find_iff in Hin.
  split_and!; [|done|by right|].
  - apply Forall_forall. intros n [E|Hb]%Hin; [left; by apply Ho|right; by eexists _, sn].
  - intros E. right. rewrite E in Hin. split.
    + intros (t & n & Ht). assert (n ∈ []) as []%elem_of_nil. apply Hin. left. apply Ho. by exists t.
    + eexists _, sn. split; [done|]. intros n Hb. assert (n ∈ []) as []%elem_of_nil. apply Hin. by right.
Qed.
End SocketSpec.

(** ** Theorem on sockets *)


(** The cache is not touched. *)
Lemma protect_frame env fd kind s :
  ∃ l, pf_prefs (protect env fd kind s).1 = pf_prefs s ∧ pf_trace (protect env fd kind s).1 = l ++ pf_trace s.
Proof.
  unfold protect, protectAndBindSocket, bindProtectedSocket, pask, plog, modify, mbind, M_bind, mret, M_ret. cbn.
  set (a := pe_protect env (pf_tick s)). destruct a as [ []|] eqn:Ea; cbn; [|by eexists [_]..].
  unfold result. set (s1 := mkPlatform _ _ _ _). destruct (current_spec env s1) as (s2 & r & -> & E1 & E2 & E3 & Hr).
  destruct r as [networks|e| |]; cbn; [|by eexists [_]; rewrite E2, E3|done|done]. case_bool_decide as Hn; cbn; [by eexists [_]; rewrite E2, E3|].
  destruct (bind_first_spec env fd kind networks s2) as (s3 & r & l & -> & Hp & Ht & _). cbn. rewrite Hp, Ht, E2, E3.
  exists (l ++ [PProtect fd (Some true)]). by rewrite <- app_assoc.
Qed.

(** ** The cache is a map *)
Section CacheSpec.
Context `{J : Jvm} `{K : Casing} `{JA : JsonArray} {JL : JsonArrayLaws JA} (env : PlatformEnv).
Implicit Types (s : Platform) (m : gmap (list Z) (Z * list (list Z))).

Definition nonblank (l : list str) : list str := List.filter (λ a, negb (isBlank a)) l.
Lemma nonblank_idemp l : nonblank (nonblank l) = nonblank l.
Proof.
  unfold nonblank. induction l as [|a l IH]; cbn; [done|]. destruct (isBlank a) eqn:E; cbn; [done|]. by rewrite E, IH.
Qed.

Definition akey (h : str) : str := bytes_of_string "addresses:" ++ h.
Definition tkey (h : str) : str := bytes_of_string "timestamp:" ++ h.
Lemma akey_tkey h h' : akey h ≠ tkey h'.
Proof. done. Qed.
Lemma akey_inj h h' : akey h = akey h' → h = h'.
Proof. apply app_inv_head. Qed.
Lemma tkey_inj h h' : tkey h = tkey h' → h = h'.
Proof. apply app_inv_head. Qed.

(** The preferences hold these addresses with the time they were saved at. *)
Definition cache_holds (p : gmap (list Z) pref) m : Prop := ∀ h,
  match m !! h with
  | Some (t, l) => p !! akey h = Some (PrefString (json_print l)) ∧ p !! tkey h = Some (PrefLong t) ∧ l ≠ [] ∧ nonblank l = l
  | None => p !! akey h = None ∧ p !! tkey h = None
  end.

Lemma cache_holds_insert p m h t l :
  cache_holds p m → l ≠ [] → nonblank l = l →
  cache_holds (<[tkey h := PrefLong t]> (<[akey h := PrefString (json_print l)]> p)) (<[h := (t, l)]> m).
Proof.
  intros Hm Hne Hl h'. destruct (decide (h' = h)) as [->|Hn].
  - rewrite lookup_insert_eq, lookup_insert_eq, lookup_insert_ne, lookup_insert_eq; [done|]. apply not_eq_sym, akey_tkey.
  - rewrite (lookup_insert_ne m) by done. specialize (Hm h'). rewrite (lookup_insert_ne _ (tkey h) (akey h')) by (apply not_eq_sym, akey_tkey).
    rewrite (lookup_insert_ne _ (akey h) (akey h')) by (intros E; by apply Hn, eq_sym, akey_inj).
    rewrite (lookup_insert_ne _ (tkey h) (tkey h')) by (intros E; by apply Hn, eq_sym, tkey_inj).
    rewrite (lookup_insert_ne _ (akey h) (tkey h')) by apply akey_tkey. done.
Qed.

Lemma cache_holds_delete p m h : cache_holds p m → cache_holds (delete (tkey h) (delete (akey h) p)) (delete h m).
Proof.
  intros Hm h'. destruct (decide (h' = h)) as [->|Hn].
  - rewrite lookup_delete_eq, lookup_delete_eq, lookup_delete_ne, lookup_delete_eq; [done|]. apply not_eq_sym, akey_tkey.
  - rewrite (lookup_delete_ne m) by done. specialize (Hm h'). rewrite (lookup_delete_ne _ (tkey h) (akey h')) by (apply not_eq_sym, akey_tkey).
    rewrite (lookup_delete_ne _ (akey h) (akey h')) by (intros E; by apply Hn, eq_sym, akey_inj).
    rewrite (lookup_delete_ne _ (tkey h) (tkey h')) by (intros E; by apply Hn, eq_sym, tkey_inj).
    rewrite (lookup_delete_ne _ (akey h) (tkey h')) by apply akey_tkey. done.
Qed.

Abbreviation norm := normalizedCacheHostname.

Lemma cache_save_spec hostname addresses s m :
  cache_holds (pf_prefs s) m →
  ∃ s' l m', cache_save env hostname addresses s = (s', ORet tt) ∧ pf_svc s' = pf_svc s ∧ pf_trace s' = l ++ pf_trace s ∧
    cache_holds (pf_prefs s') m' ∧
    ((nonblank addresses = [] ∧ l = [] ∧ m' = m) ∨
     ∃ t, l = [PCached (norm hostname) t (nonblank addresses)] ∧ m' = <[norm hostname := (t, nonblank addresses)]> m).
Proof.
  intros Hm. unfold cache_save. fold (nonblank addresses). case_bool_decide as He.
  { exists s, [], m. split_and!; try done. by left. }
  eexists _, [PCached (norm hostname) (pe_now env (pf_tick s)) (nonblank addresses)], _. split; [done|]. split; [done|]. split; [done|].
  split; [|right; by eexists].
  apply cache_holds_insert; [done|done|apply nonblank_idemp].
Qed.

(** The map with the entry removed when it has expired. *)
Lemma cache_load_spec hostname s m :
  cache_holds (pf_prefs s) m →
  ∃ s' addresses m', cache_load env hostname s = (s', ORet addresses) ∧ pf_svc s' = pf_svc s ∧ pf_trace s' = pf_trace s ∧
    cache_holds (pf_prefs s') m' ∧ (m' = m ∨ m' = delete (norm hostname) m) ∧
    (addresses ≠ [] → ∃ t i, m !! norm hostname = Some (t, addresses) ∧ long_wrap (pe_now env i - t) ≤ DEFAULT_MAX_AGE_MS).
Proof using JL.
  intros Hm. unfold cache_load, mbind, M_bind, get. pose proof (Hm (norm hostname)) as Hh.
  change (timestampKey hostname) with (tkey (norm hostname)). change (addressesKey hostname) with (akey (norm hostname)).
  destruct (m !! norm hostname) as [ [t l]|] eqn:Em.
  - destruct Hh as (Ha & Ht & Hne & Hl). rewrite Ht, Ha. destruct (Z.eqb_spec t 0) as [->|Hz]; cbn.
    { eexists _, [], (delete (norm hostname) m). split; [done|]. split_and!; try done; [by apply cache_holds_delete|by right]. }
    rewrite Z.gtb_ltb. destruct (Z.ltb_spec DEFAULT_MAX_AGE_MS (long_wrap (pe_now env (pf_tick s) - t))) as [Hx|Hx].
    { eexists _, [], (delete (norm hostname) m). split; [done|]. split_and!; try done; [by apply cache_holds_delete|by right]. }
    rewrite json_read_print. eexists _, _, m. split; [done|]. split_and!; try done; [by left|]. intros _. exists t, (pf_tick s).
    fold (nonblank l). by rewrite Hl.
  - destruct Hh as [Ha Ht]. rewrite Ht. cbn. eexists _, [], (delete (norm hostname) m).
    split; [done|]. split_and!; try done; [by apply cache_holds_delete|by right].
Qed.

(** ** Answers *)

(** What the cache holds was answered by a network. *)
Definition genuine s : Prop := ∃ m, cache_holds (pf_prefs s) m ∧ ∀ h t l, m !! h = Some (t, l) →
  PCached h t l ∈ pf_trace s ∧ ∃ n hostname answer, PLookup n hostname (Some answer) ∈ pf_trace s ∧ norm hostname = h ∧ l = nonblank answer.

Lemma genuine_mono s s' l : pf_prefs s' = pf_prefs s → pf_trace s' = l ++ pf_trace s → genuine s → genuine s'.
Proof.
  intros Ep Et (m & Hm & Hg). exists m. rewrite Ep, Et. split; [done|]. intros h t a (Hc & n & host & answer & Hl & E)%Hg.
  split; [by rewrite elem_of_app; right|]. exists n, host, answer. split; [by rewrite elem_of_app; right|done].
Qed.

Lemma resolve_on_spec hostname networks s :
  ∃ s' r l, resolveHostOnNetworks env hostname networks s = (s', ORet r) ∧ pf_svc s' = pf_svc s ∧ pf_prefs s' = pf_prefs s ∧
    pf_trace s' = l ++ pf_trace s ∧
    match r with
    | Some (n, addresses) => addresses ≠ [] ∧ n ∈ networks ∧ PLookup n hostname (Some addresses) ∈ l
    | None => ∀ n, n ∈ networks → PLookup n hostname None ∈ l ∨ PLookup n hostname (Some []) ∈ l
    end.
Proof.
  revert s. induction networks as [|n networks IH]; intros s; cbn [resolveHostOnNetworks].
  { exists s, None, []. split_and!; try done. by intros n ?%elem_of_nil. }
  unfold mbind, M_bind, pask, plog, modify. cbn [pf_tick pf_svc pf_prefs pf_trace].
  set (answer := pe_lookup env (pf_tick s)). set (s1 := mkPlatform _ _ _ _).
  assert (∀ a, answer = a → a = None ∨ a = Some [] →
    ∃ s' r l, resolveHostOnNetworks env hostname networks s1 = (s', ORet r) ∧ pf_svc s' = pf_svc s ∧ pf_prefs s' = pf_prefs s ∧
    pf_trace s' = l ++ pf_trace s ∧
    match r with
    | Some (n', addresses) => addresses ≠ [] ∧ n' ∈ n :: networks ∧ PLookup n' hostname (Some addresses) ∈ l
    | None => ∀ n', n' ∈ n :: networks → PLookup n' hostname None ∈ l ∨ PLookup n' hostname (Some []) ∈ l
    end) as Hnext.
  { intros a Ea Ha. destruct (IH s1) as (s' & r & l & E & E1 & E2 & E3 & Hr). exists s', r, (l ++ [PLookup n hostname answer]).
    split_and!; [done..|by rewrite E3, <- app_assoc|]. destruct r as [ [n' addresses]|].
    - destruct Hr as (H1 & H2 & H3). split_and!; [done|by right|]. rewrite elem_of_app. by left.
    - intros n' [->|Hn]%elem_of_cons.
      + rewrite !elem_of_app, !list_elem_of_singleton, Ea. destruct Ha as [->| ->]; auto.
      + rewrite !elem_of_app. destruct (Hr n' Hn); auto. }
  destruct answer as [ [|x addresses]|] eqn:Ea; [by apply (Hnext (Some [])); auto| |by apply (Hnext None); auto].
  exists s1, (Some (n, x :: addresses)), [PLookup n hostname (Some (x :: addresses))].
  split_and!; [done|done|done|done|done|left|by apply list_elem_of_singleton].
Qed.

Lemma publishUnderlyingNetwork_spec network s :
  ∃ l, publishUnderlyingNetwork network s =
    (mkPlatform (pf_tick s) (publishUnderlyingNetworkIfActive network (pf_svc s)).1 (pf_prefs s) (l ++ pf_trace s), ORet tt).
Proof. unfold publishUnderlyingNetwork, mbind, M_bind, with_svc, modify. rewrite publish_eq. cbn. by eexists. Qed.

(** Saving an answer that a network has just given. *)
Lemma save_genuine hostname n addresses s :
  genuine s → PLookup n hostname (Some addresses) ∈ pf_trace s →
  ∃ s' l, cache_save env hostname addresses s = (s', ORet tt) ∧ pf_svc s' = pf_svc s ∧ pf_trace s' = l ++ pf_trace s ∧ genuine s'.
Proof.
  intros (m & Hm & Hg) Hl. destruct (cache_save_spec hostname addresses s m Hm) as (s' & l & m' & E & E1 & E2 & Hm' & Hor).
  exists s', l. split_and!; [done..|]. exists m'. split; [done|]. rewrite E2.
  assert (∀ h t a, m !! h = Some (t, a) → PCached h t a ∈ l ++ pf_trace s ∧
    ∃ n host answer, PLookup n host (Some answer) ∈ l ++ pf_trace s ∧ norm host = h ∧ a = nonblank answer) as Hold.
  { intros h t a (Hc & n' & host & answer & Hl' & E')%Hg. split; [by rewrite elem_of_app; right|].
    exists n', host, answer. split; [by rewrite elem_of_app; right|done]. }
  destruct Hor as [(_ & _ & ->)|(t & -> & ->)]; [done|]. intros h t' a. destruct (decide (h = norm hostname)) as [->|Hn].
  - rewrite lookup_insert_eq. intros [= <- <-]. split; [left|]. exists n, hostname, addresses. split; [by right|done].
  - rewrite lookup_insert_ne by done. apply Hold.
Qed.

Lemma load_genuine hostname s :
  genuine s →
  ∃ s' addresses, cache_load env hostname s = (s', ORet addresses) ∧ pf_svc s' = pf_svc s ∧ pf_trace s' = pf_trace s ∧ genuine s' ∧
    (addresses ≠ [] → ∃ t i n host answer, PCached (norm hostname) t addresses ∈ pf_trace s ∧
       long_wrap (pe_now env i - t) ≤ DEFAULT_MAX_AGE_MS ∧
       PLookup n host (Some answer) ∈ pf_trace s ∧ norm host = norm hostname ∧ addresses = nonblank answer).
Proof using JL.
  intros (m & Hm & Hg). destruct (cache_load_spec hostname s m Hm) as (s' & a & m' & E & E1 & E2 & Hm' & Hor & Ha).
  exists s', a. split_and!; [done..| |].
  - exists m'. split; [done|]. rewrite E2. intros h t l Hh. apply Hg. destruct Hor as [->| ->]; [done|].
    apply lookup_delete_Some in Hh as [_ ?]. done.
  - intros Hne. destruct (Ha Hne) as (t & i & Hl & Hi). destruct (Hg _ _ _ Hl) as (Hc & n & host & answer & H1 & H2 & H3).
    by exists t, i, n, host, answer.
Qed.

(** What [resolveHost] does, given a cache whose entries are genuine. *)
Definition dns_answer hostname s s' (r : outcome PlatformError (list str)) : Prop :=
  match r with
  | ORet addresses => addresses ≠ [] ∧ ∃ n host answer, PLookup n host (Some answer) ∈ pf_trace s' ∧ norm host = norm hostname ∧
      ((host = hostname ∧ answer = addresses ∧ usable env (pf_svc s) n ∧
        pf_svc s' = (publishUnderlyingNetworkIfActive (Some n) (pf_svc s)).1) ∨
       (addresses = nonblank answer ∧ pf_svc s' = pf_svc s ∧ ∃ t i, PCached (norm hostname) t addresses ∈ pf_trace s' ∧
        long_wrap (pe_now env i - t) ≤ DEFAULT_MAX_AGE_MS))
  | OErr e => pf_svc s' = pf_svc s ∧
      match e with
      | NetworksThrow => ∃ i, pe_networks env i = None
      | NoNetworkForDns => pf_trace s' = pf_trace s
      | NotResolved networks => networks ≠ [] ∧ Forall (usable env (pf_svc s)) networks ∧
          ∀ n, n ∈ networks → PLookup n hostname None ∈ pf_trace s' ∨ PLookup n hostname (Some []) ∈ pf_trace s'
      | WrongPreference => False
      end
  | OPanic | OCancel => False
  end.

Lemma resolveHost_spec hostname s :
  genuine s → ∃ s' r l, resolveHost env hostname s = (s', r) ∧ pf_trace s' = l ++ pf_trace s ∧ genuine s' ∧ dns_answer hostname s s' r.
Proof using JL.
  intros Hg. unfold resolveHost, mbind, M_bind. destruct (current_spec env s) as (s1 & r & -> & E1 & E2 & E3 & Hr).
  pose proof (genuine_mono s s1 [] E2 E3 Hg) as Hg1.
  destruct r as [networks|e| |]; [|by destruct Hr as [-> Hr]; exists s1, (OErr NetworksThrow), []|done|done].
  destruct Hr as (Hu & _). case_bool_decide as Hn; [by exists s1, (OErr NoNetworkForDns), []|].
  destruct (resolve_on_spec hostname networks s1) as (s2 & r & l & -> & F1 & F2 & F3 & Hr).
  pose proof (genuine_mono s1 s2 l F2 F3 Hg1) as Hg2. rewrite E3 in F3. destruct r as [ [n addresses]|].
  - destruct Hr as (Ha & Hin & Hl). destruct (publishUnderlyingNetwork_spec (Some n) s2) as (l2 & ->). set (s3 := mkPlatform _ _ _ _).
    assert (pf_trace s3 = l2 ++ l ++ pf_trace s) as G3 by (cbn; by rewrite F3).
    destruct (save_genuine hostname n addresses s3) as (s4 & l3 & -> & H1 & H2 & Hg4); [by apply (genuine_mono s2 s3 l2)| |].
    { rewrite G3, !elem_of_app. auto. }
    exists s4, (ORet addresses), (l3 ++ l2 ++ l). rewrite H2, G3, <- !app_assoc. split_and!; [done..|]. split; [done|].
    exists n, hostname, addresses. rewrite H2, G3, !elem_of_app. split; [auto|]. split; [done|]. left.
    split_and!; [done|done|by eapply Forall_forall|]. rewrite H1. cbn. by rewrite F1, E1.
  - destruct (load_genuine hostname s2 Hg2) as (s3 & a & -> & H1 & H2 & Hg3 & Ha). case_bool_decide as Hne; cbn.
    + eexists s3, _, l. split; [done|]. rewrite H2, F3. split; [done|]. split; [done|]. split; [congruence|]. split_and!; [done|done|].
      intros n Hin. rewrite H2, F3, !elem_of_app. destruct (Hr n Hin); auto.
    + destruct (Ha Hne) as (t & i & n & host & answer & Hc & Hi & Hl & Hh & He).
      exists s3, (ORet a), l. rewrite H2, F3. split_and!; [done..|]. split; [done|]. exists n, host, answer. rewrite H2. split_and!; [done..|].
      right. split_and!; [done|congruence|]. by exists t, i.
Qed.

Lemma warm_spec hostname s : genuine s → ∃ l, pf_trace (warm env hostname s).1 = l ++ pf_trace s ∧ genuine (warm env hostname s).1.
Proof.
  intros Hg. unfold warm, mbind, M_bind. destruct (current_spec env s) as (s1 & r & -> & E1 & E2 & E3 & Hr).
  pose proof (genuine_mono s s1 [] E2 E3 Hg) as Hg1. destruct r as [networks|e| |]; [|by exists []|done|done].
  destruct (resolve_on_spec hostname networks s1) as (s2 & r & l & -> & F1 & F2 & F3 & Hr').
  pose proof (genuine_mono s1 s2 l F2 F3 Hg1) as Hg2. rewrite E3 in F3. destruct r as [ [n addresses]|]; [|by exists l].
  destruct Hr' as (Ha & Hin & Hl).
  destruct (save_genuine hostname n addresses s2) as (s4 & l3 & -> & H1 & H2 & Hg4); [done|by rewrite F3, elem_of_app; left|].
  exists (l3 ++ l). cbn. by rewrite H2, F3, <- app_assoc.
Qed.

(** The calls the native client, the service and Android make, in any order;
    the service may change its state between them in any way. *)
Inductive platform_call :=
  | CallProtect (fd : Z) (kind : SocketKind)
  | CallResolve (hostname : str)
  | CallWarm (hostname : str)
  | CallService (f : Svc → Svc).
Definition platform_step s (c : platform_call) : Platform :=
  match c with
  | CallProtect fd kind => (protect env fd kind s).1
  | CallResolve hostname => (resolveHost env hostname s).1
  | CallWarm hostname => (warm env hostname s).1
  | CallService f => mkPlatform (pf_tick s) (f (pf_svc s)) (pf_prefs s) (pf_trace s)
  end.
Definition platform_run (calls : list platform_call) s : Platform := foldl platform_step s calls.

Lemma run_genuine calls s : genuine s → genuine (platform_run calls s).
Proof using JL.
  revert s. induction calls as [|c calls IH]; intros s Hg; [done|]. apply IH. destruct c as [fd kind|h|h|f]; cbn [platform_step].
  - destruct (protect_frame env fd kind s) as (l & E1 & E2). by apply (genuine_mono s _ l).
  - by destruct (resolveHost_spec h s Hg) as (s' & r & l & -> & _ & ? & _).
  - by destruct (warm_spec h s Hg) as (l & _ & ?).
  - by apply (genuine_mono s _ []).
Qed.
End CacheSpec.

(** ** Theorem on addresses *)


Module PlatformDemo.
Import RoutesDemo.
(** A print that can be read back. *)
#[export] Instance array : JsonArray := {|
  json_print l := [Zpos (encode l)];
  json_read t := match t with [Zpos p] => decode p | _ => None end;
|}.
#[export] Instance casing : Casing := {| lowercase := id |}.
#[export] Instance array_laws : JsonArrayLaws array.
Proof. split. intros l. cbn. apply decode_encode. Qed.

(** The mobile network answers, then no network does; the VPN itself is in the
    list of networks. *)
Definition caps (n : Network) : option Capabilities := Some (mkCaps true (n =? 9) true).
Definition env : PlatformEnv :=
  mkPlatformEnv (λ _, Some true) (λ _, true) (λ _, BindOk) (λ _, Some (mkSnapshot true (Some 9) [9; 1; 2] caps))
    (λ i, if i =? 2 then Some [bytes_of_string "192.0.2.1"; []] else None) (λ i, 1000 + i).
Definition host : str := bytes_of_string "vpn.example".
End PlatformDemo.

