(* ===== verification/ProfileStore.v ===== *)
(** * The profiles of the Android app
      ([android/.../profile/store/ProfileRepository.kt], [ProfileJson.kt])

    A profile is a directory with two files, the configuration of the client
    and the metadata of the app as JSON; which profile is active is kept in a
    preference.  Operations run on several threads at a time: saves one after
    the other, under a mutex, but loads, deletions and the choice of the active
    profile at any moment.  Every call of the file system is one step that may
    fail, a write may fail in the middle, and the process may die between any
    two steps.

    An operation is a program: a tree of calls of the file system and of the
    preference, with what the operation does for each answer.  Each thread has
    such a program; a step of the system makes one call of one thread. *)

From Stdlib Require Import Ascii String.
From stdpp Require Import base tactics option list numbers gmap countable sorting.
From Stdlib Require Import ZArith Lia.
From S2P Require Import Prelude Programs RouteRules VpnPlan.

Record SltProfile := mkProfile { sp_id : str; sp_clientToml : str; sp_metadata : ProfileMetadata }.
Record ProfileListItem := mkItem { li_id : str; li_name : str; li_isActive : bool }.
Record ProfileStoreState := mkStoreState { ss_profiles : list ProfileListItem; ss_activeProfile : option SltProfile }.

(** ** Metadata as JSON ([ProfileJson.kt]) *)

(** [JReal] is a number that is not an integer, as it is written. *)
Unset Elimination Schemes.
Inductive json :=
  | JNull
  | JBool (b : bool)
  | JInt (n : Z)
  | JReal (s : str)
  | JString (s : str)
  | JArray (l : list json)
  | JObject (l : list (str * json)).
Set Elimination Schemes.

(** Surrogates come in pairs. *)
Fixpoint well_formed (s : str) : bool :=
  match s with
  | [] => true
  | c :: s =>
      if (55296 <=? c) && (c <=? 56319)
      then match s with d :: s => (56320 <=? d) && (d <=? 57343) && well_formed s | [] => false end
      else negb ((56320 <=? c) && (c <=? 57343)) && well_formed s
  end.

(** What can be written and read again. *)
Fixpoint json_ok (j : json) : bool :=
  match j with
  | JNull | JBool _ | JInt _ => true
  | JReal _ => false
  | JString s => well_formed s
  | JArray l => forallb json_ok l
  | JObject l => forallb (λ kv, well_formed kv.1 && json_ok kv.2) l && bool_decide (NoDup (map fst l))
  end.

(** [toString(2)] and the constructor of [JSONObject], which throws ([None])
    unless the text is an object; [String.valueOf] of values other than
    strings; the UTF-8 of files. *)
Class ProfileText := {
  json_text : json → str;
  json_parse : str → option (list (str * json));
  json_valueOf : json → str;
  equalsIgnoreCase : str → str → bool;
  utf8 : str → bytes;
  utf8_read : bytes → str;
}.
Class ProfileTextLaws (T : ProfileText) := {
  json_parse_text l : json_ok (JObject l) = true → json_parse (json_text (JObject l)) = Some l;
  json_text_well_formed j : json_ok j = true → well_formed (json_text j) = true;
  utf8_round_trip s : well_formed s = true → utf8_read (utf8 s) = s;
}.

Definition PROFILE_METADATA_VERSION : Z := 1.
Definition DNS_MODE_SYSTEM : str := bytes_of_string "system".
Definition DNS_MODE_CUSTOM : str := bytes_of_string "custom".
Definition APP_VPN_MODE_ALL : str := bytes_of_string "all".
Definition APP_VPN_MODE_ALLOWLIST : str := bytes_of_string "allowlist".
Definition APP_VPN_MODE_BLOCKLIST : str := bytes_of_string "blocklist".

Definition dns_toWireName (m : DnsMode) : str :=
  match m with DnsSystem => DNS_MODE_SYSTEM | DnsCustom => DNS_MODE_CUSTOM end.
Definition dnsModeFromWireName (wireName : str) : DnsMode :=
  if decide (wireName = DNS_MODE_CUSTOM) then DnsCustom else DnsSystem.
Definition app_toWireName (m : AppVpnMode) : str :=
  match m with AppsAll => APP_VPN_MODE_ALL | Allowlist => APP_VPN_MODE_ALLOWLIST | Blocklist => APP_VPN_MODE_BLOCKLIST end.
Definition appVpnModeFromWireName (wireName : str) : AppVpnMode :=
  if decide (wireName = APP_VPN_MODE_ALLOWLIST) then Allowlist
  else if decide (wireName = APP_VPN_MODE_BLOCKLIST) then Blocklist else AppsAll.

Definition toProfileJson (m : ProfileMetadata) : list (str * json) :=
  [(bytes_of_string "version", JInt PROFILE_METADATA_VERSION);
   (bytes_of_string "name", JString (pm_name m));
   (bytes_of_string "routes",
     JArray (map (λ r, JObject [(bytes_of_string "cidr", JString (vr_cidr r)); (bytes_of_string "excluded", JBool (vr_excluded r))]) (pm_routes m)));
   (bytes_of_string "dns",
     JObject [(bytes_of_string "mode", JString (dns_toWireName (dn_mode (pm_dns m))));
              (bytes_of_string "servers", JArray (map JString (dn_servers (pm_dns m))))]);
   (bytes_of_string "testUrls", JArray (map JString (pm_testUrls m)));
   (bytes_of_string "appRules",
     JObject [(bytes_of_string "mode", JString (app_toWireName (ar_mode (pm_appRules m))));
              (bytes_of_string "packageNames", JArray (map JString (ar_packageNames (pm_appRules m))))])].

Section ReadJson.
Context `{T : ProfileText}.

Fixpoint obj_get (l : list (str * json)) (k : str) : option json :=
  match l with
  | [] => None
  | (k', j) :: l => if decide (k' = k) then Some j else obj_get l k
  end.
Definition json_toString (j : json) : str := match j with JString s => s | _ => json_valueOf j end.
Definition getString (l : list (str * json)) (k : str) : option str := json_toString <$> obj_get l k.
Definition optString (l : list (str * json)) (k fallback : str) : str := default fallback (getString l k).
Definition optBoolean (l : list (str * json)) (k : str) (fallback : bool) : bool :=
  match obj_get l k with
  | Some (JBool b) => b
  | Some (JString s) =>
      if equalsIgnoreCase (bytes_of_string "true") s then true
      else if equalsIgnoreCase (bytes_of_string "false") s then false else fallback
  | _ => fallback
  end.
Definition optJSONArray (l : list (str * json)) (k : str) : option (list json) :=
  match obj_get l k with Some (JArray a) => Some a | _ => None end.
Definition optJSONObject (l : list (str * json)) (k : str) : option (list (str * json)) :=
  match obj_get l k with Some (JObject o) => Some o | _ => None end.

Fixpoint route_rules_of (a : list json) : option (list VpnRouteRule) :=
  match a with
  | [] => Some []
  | JObject route :: a =>
      cidr ← getString route (bytes_of_string "cidr");
      rules ← route_rules_of a;
      Some (mkRule cidr (optBoolean route (bytes_of_string "excluded") false) :: rules)
  | _ :: _ => None
  end.
Definition toVpnRouteRules (a : option (list json)) : option (list VpnRouteRule) := route_rules_of (default [] a).
Definition toStringList (a : option (list json)) : list str := map json_toString (default [] a).
Definition toDnsSettings (o : option (list (str * json))) : DnsSettings :=
  match o with
  | None => mkDns DnsSystem []
  | Some o => mkDns (dnsModeFromWireName (optString o (bytes_of_string "mode") DNS_MODE_SYSTEM))
                    (toStringList (optJSONArray o (bytes_of_string "servers")))
  end.
Definition toAppVpnRules (o : option (list (str * json))) : AppVpnRules :=
  match o with
  | None => mkAppRules AppsAll []
  | Some o => mkAppRules (appVpnModeFromWireName (optString o (bytes_of_string "mode") APP_VPN_MODE_ALL))
                         (toStringList (optJSONArray o (bytes_of_string "packageNames")))
  end.

(** [None]: an exception. *)
Definition profileMetadataFromJson (l : list (str * json)) : option ProfileMetadata :=
  name ← getString l (bytes_of_string "name");
  routes ← toVpnRouteRules (optJSONArray l (bytes_of_string "routes"));
  Some (mkMetadata name routes (toDnsSettings (optJSONObject l (bytes_of_string "dns")))
          (toStringList (optJSONArray l (bytes_of_string "testUrls")))
          (toAppVpnRules (optJSONObject l (bytes_of_string "appRules")))).
End ReadJson.

(** ** Programs *)

(** The exceptions that leave the repository. *)
Inductive store_error :=
  | InvalidProfileId
  | CouldNotCreate
  | CouldNotCommit
  | CouldNotDelete
  | IoException
  | JsonException
  | PreferenceException
  | Cancelled.

(** The calls that operations make.  The files are those of the directory of a
    profile; [None] and [false] are exceptions, except that [IoMkdirs],
    [IoRenameTo] and [IoDelete] return [false].  [IoDelete] and
    [IoDeleteDirectory] tell whether the file is gone. *)
Inductive io : Set → Set :=
  | IoRandomUUID : io str
  | IoLock : io bool
  | IoUnlock : io unit
  | IoExists (id : str) : io bool
  | IoMkdirs (id : str) : io bool
  | IoCreateTempFile (id prefix : str) : io (option str)
  | IoWriteText (id name text : str) : io bool
  | IoRenameTo (id name target : str) : io bool
  | IoDelete (id name : str) : io bool
  | IoIsFile (id name : str) : io bool
  | IoReadText (id name : str) : io (option str)
  | IoListDirectories : io (list str)
  | IoListFiles (id : str) : io (list str)
  | IoDeleteDirectory (id : str) : io bool
  | IoGetActive : io (option (option str))
  | IoSetActive (id : option str) : io bool.

Abbreviation program := (prog io store_error).

(** [try { p } finally { unlock() }] *)
Fixpoint finally_unlock {A} (p : program A) : program A :=
  match p with
  | PRet a => _ ← call IoUnlock; PRet a
  | PThrow e => _ ← call IoUnlock; PThrow e
  | PDo o k => PDo o (λ b, finally_unlock (k b))
  end.
Definition withLock {A} (p : program A) : program A :=
  locked ← call IoLock;
  if locked : bool then finally_unlock p else PThrow Cancelled.

(** ** The repository ([ProfileRepository.kt]) *)
Inductive ProfileLoadResult := PlrLoaded (p : SltProfile) | PlrMissing | PlrCorrupt (id : str) (e : store_error).

Section Repository.
Context `{K : Casing} `{T : ProfileText}.

(** The directory of a profile is named by its id. *)
Definition profileDir (id : str) : program str :=
  if existsb (λ c, (c =? 47) || (c =? 92)) id then PThrow InvalidProfileId else PRet id.
Definition client_toml : str := bytes_of_string "client.toml".
Definition metadata_json : str := bytes_of_string "metadata.json".
Definition temp_suffix : str := bytes_of_string ".tmp".

Definition writeTextAtomic (dir target text : str) : program unit :=
  created ← call (IoCreateTempFile dir (target ++ bytes_of_string "."));
  match created with
  | None => PThrow IoException
  | Some tmp =>
      written ← call (IoWriteText dir tmp text);
      if negb written then PThrow IoException else
      renamed ← call (IoRenameTo dir tmp target);
      if renamed : bool then PRet tt else
      _ ← call (IoDelete dir tmp);
      PThrow CouldNotCommit
  end.

Definition readText (dir name : str) : program str :=
  text ← call (IoReadText dir name);
  match text with Some t => PRet t | None => PThrow IoException end.

Definition load_from (id dir : str) : program ProfileLoadResult :=
  toml ← call (IoIsFile dir client_toml);
  if negb toml then PRet PlrMissing else
  metadata ← call (IoIsFile dir metadata_json);
  if negb metadata then PRet PlrMissing else
  clientToml ← readText dir client_toml;
  text ← readText dir metadata_json;
  match json_parse text ≫= profileMetadataFromJson with
  | Some metadata => PRet (PlrLoaded (mkProfile id clientToml metadata))
  | None => PThrow JsonException
  end.

Definition loadProfileResult (id : str) : program ProfileLoadResult :=
  catch (dir ← profileDir id; load_from id dir) (λ e, PRet (PlrCorrupt id e)).

(** A corrupt profile is logged. *)
Definition loadProfileInternal (id : str) : program (option SltProfile) :=
  result ← loadProfileResult id;
  PRet (match result with PlrLoaded p => Some p | PlrMissing => None | PlrCorrupt _ _ => None end).

(** [compareTo] of strings is not positive. *)
Fixpoint str_le (a b : str) : bool :=
  match a, b with
  | [], _ => true
  | _ :: _, [] => false
  | x :: a, y :: b => if x =? y then str_le a b else x <? y
  end.
Definition item_le (a b : ProfileListItem) : bool :=
  match li_isActive a, li_isActive b with
  | true, false => true
  | false, true => false
  | _, _ => str_le (lowercase (li_name a)) (lowercase (li_name b))
  end.
(** [sortedWith], which is stable. *)
Fixpoint item_insert (a : ProfileListItem) (l : list ProfileListItem) : list ProfileListItem :=
  match l with
  | [] => [a]
  | b :: l => if item_le a b then a :: b :: l else b :: item_insert a l
  end.
Definition sort_items (l : list ProfileListItem) : list ProfileListItem := foldr item_insert [] l.

Fixpoint load_items (activeProfileId : option str) (dirs : list str) : program (list ProfileListItem) :=
  match dirs with
  | [] => PRet []
  | dir :: dirs =>
      result ← loadProfileResult dir;
      items ← load_items activeProfileId dirs;
      PRet (match result with
            | PlrLoaded p => mkItem (sp_id p) (pm_name (sp_metadata p)) (bool_decide (Some (sp_id p) = activeProfileId)) :: items
            | PlrMissing | PlrCorrupt _ _ => items
            end)
  end.
Definition listProfiles (activeProfileId : option str) : program (list ProfileListItem) :=
  dirs ← call IoListDirectories;
  items ← load_items activeProfileId dirs;
  PRet (sort_items items).

Definition activeProfileId : program (option str) :=
  answer ← call IoGetActive;
  match answer with Some id => PRet id | None => PThrow PreferenceException end.
Definition setActiveProfileId (id : option str) : program unit :=
  ok ← call (IoSetActive id);
  if ok : bool then PRet tt else PThrow PreferenceException.

Definition loadActiveProfile : program (option SltProfile) :=
  id ← activeProfileId;
  match id with Some id => loadProfileInternal id | None => PRet None end.
Definition loadState : program ProfileStoreState :=
  activeProfileId ← activeProfileId;
  profiles ← listProfiles activeProfileId;
  activeProfile ← (match activeProfileId with Some id => loadProfileInternal id | None => PRet None end);
  PRet (mkStoreState profiles activeProfile).
Definition loadProfile (id : str) : program (option SltProfile) := loadProfileInternal id.

(** [copy(name = name)] and the metadata of a new profile. *)
Definition named (name : str) (m : ProfileMetadata) : ProfileMetadata :=
  mkMetadata name (pm_routes m) (pm_dns m) (pm_testUrls m) (pm_appRules m).
Definition default_metadata (name : str) : ProfileMetadata :=
  mkMetadata name [] (mkDns DnsSystem []) [] (mkAppRules AppsAll []).

Definition saveProfile (id : option str) (name clientToml : str) (metadata : option ProfileMetadata) : program SltProfile :=
  withLock (
    profileId ← (match id with Some id => PRet id | None => call IoRandomUUID end);
    let profileMetadata := named name (default (default_metadata name) metadata) in
    dir ← profileDir profileId;
    exists_ ← call (IoExists dir);
    made ← (if exists_ : bool then PRet true else call (IoMkdirs dir));
    if negb made then PThrow CouldNotCreate else
    _ ← writeTextAtomic dir client_toml clientToml;
    _ ← writeTextAtomic dir metadata_json (json_text (JObject (toProfileJson profileMetadata)));
    active ← activeProfileId;
    _ ← (if decide (active = None) then setActiveProfileId (Some profileId) else PRet tt);
    PRet (mkProfile profileId clientToml profileMetadata)).

Definition copy_name (name : str) : str := name ++ bytes_of_string " Copy".
Definition duplicateProfile (id : str) : program (option SltProfile) :=
  source ← loadProfileInternal id;
  match source with
  | None => PRet None
  | Some source =>
      let copyName := copy_name (pm_name (sp_metadata source)) in
      p ← saveProfile None copyName (sp_clientToml source) (Some (named copyName (sp_metadata source)));
      PRet (Some p)
  end.

(** [deleteRecursively]: the files, then the directory; whether all are gone. *)
Fixpoint delete_files (dir : str) (names : list str) : program bool :=
  match names with
  | [] => PRet true
  | name :: names =>
      gone ← call (IoDelete dir name);
      res ← delete_files dir names;
      PRet (gone && res)
  end.
Definition deleteRecursively (dir : str) : program bool :=
  names ← call (IoListFiles dir);
  files ← delete_files dir names;
  gone ← call (IoDeleteDirectory dir);
  PRet (gone && files).

Definition deleteProfile (id : str) : program unit :=
  dir ← profileDir id;
  deleted ← deleteRecursively dir;
  if negb deleted then PThrow CouldNotDelete else
  active ← activeProfileId;
  if decide (active = Some id) then setActiveProfileId None else PRet tt.
End Repository.

(** ** The device *)

(** The files of the profiles and the preference.  An id is the name of a
    directory: not empty and neither [.] nor [..]. *)
Record Store := mkStore { st_dirs : gmap str (gmap str bytes); st_active : option str }.
Definition Store_new : Store := mkStore ∅ None.
Definition plain_id (id : str) : bool :=
  negb (bool_decide (id = [])) && negb (bool_decide (id = [46])) && negb (bool_decide (id = [46; 46])).

(** What the device decides at a call: whether it fails, how much a failed
    write writes, random text, and the order of a listing. *)
Record choice := mkChoice { ch_fail : bool; ch_count : nat; ch_text : str; ch_order : list str }.

Section Device.
Context `{T : ProfileText}.

Definition put_dirs (dirs : gmap str (gmap str bytes)) (st : Store) : Store := mkStore dirs (st_active st).

(** The order is any order. *)
Definition listing {V} (ch : choice) (m : gmap str V) : list str :=
  if decide (NoDup (ch_order ch) ∧ list_to_set (ch_order ch) = dom m) then ch_order ch else elements (dom m).

(** The generator of names goes on until the name is new. *)
Definition longest {V} (m : gmap str V) : nat := foldr Nat.max O (length <$> elements (dom m)).
Definition temp_name (ch : choice) (d : gmap str bytes) (prefix : str) : str :=
  let name := prefix ++ ch_text ch ++ temp_suffix in
  match d !! name with
  | None => name
  | Some _ => prefix ++ replicate (longest d) 48 ++ temp_suffix
  end.

(** A file is there. *)
Definition file_at (st : Store) (id name : str) : option bytes := st_dirs st !! id ≫= lookup name.
Definition put_file (id name : str) (c : bytes) (st : Store) : Store :=
  put_dirs (alter (insert name c) id (st_dirs st)) st.
Definition remove_file (id name : str) (st : Store) : Store := put_dirs (alter (delete name) id (st_dirs st)) st.

(** A call, with the mutex; [None] when it waits for the mutex. *)
Definition io_step {B} (ch : choice) (o : io B) (st : Store) (mutex : bool) : option (B * Store * bool) :=
  match o in io B return option (B * Store * bool) with
  | IoRandomUUID => Some (ch_text ch, st, mutex)
  | IoLock => if ch_fail ch then Some (false, st, mutex) else if mutex then None else Some (true, st, true)
  | IoUnlock => Some (tt, st, false)
  | IoExists id => Some (bool_decide (is_Some (st_dirs st !! id)), st, mutex)
  | IoMkdirs id =>
      if ch_fail ch || bool_decide (is_Some (st_dirs st !! id)) then Some (false, st, mutex)
      else Some (true, put_dirs (<[id := ∅]> (st_dirs st)) st, mutex)
  | IoCreateTempFile id prefix =>
      match st_dirs st !! id with
      | Some d => if ch_fail ch then Some (None, st, mutex) else
          let name := temp_name ch d prefix in
          Some (Some name, put_file id name [] st, mutex)
      | None => Some (None, st, mutex)
      end
  | IoWriteText id name text =>
      match st_dirs st !! id with
      | Some _ =>
          if ch_fail ch then Some (false, put_file id name (take (ch_count ch) (utf8 text)) st, mutex)
          else Some (true, put_file id name (utf8 text) st, mutex)
      | None => Some (false, st, mutex)
      end
  | IoRenameTo id name target =>
      match file_at st id name with
      | Some c => if ch_fail ch then Some (false, st, mutex) else Some (true, put_file id target c (remove_file id name st), mutex)
      | None => Some (false, st, mutex)
      end
  | IoDelete id name =>
      match file_at st id name with
      | Some _ => if ch_fail ch then Some (false, st, mutex) else Some (true, remove_file id name st, mutex)
      | None => Some (true, st, mutex)
      end
  | IoIsFile id name => Some (bool_decide (is_Some (file_at st id name)), st, mutex)
  | IoReadText id name =>
      Some (if ch_fail ch then None else utf8_read <$> file_at st id name, st, mutex)
  | IoListDirectories => Some (listing ch (st_dirs st), st, mutex)
  | IoListFiles id => Some (match st_dirs st !! id with Some d => listing ch d | None => [] end, st, mutex)
  | IoDeleteDirectory id =>
      match st_dirs st !! id with
      | Some d => if ch_fail ch || negb (bool_decide (d = ∅)) then Some (false, st, mutex)
                  else Some (true, put_dirs (delete id (st_dirs st)) st, mutex)
      | None => Some (true, st, mutex)
      end
  | IoGetActive => Some (if ch_fail ch then None else Some (st_active st), st, mutex)
  | IoSetActive id => if ch_fail ch then Some (false, st, mutex) else Some (true, mkStore (st_dirs st) id, mutex)
  end.

(** A program that runs alone, with the choices for its calls. *)
Fixpoint run_alone {A} (chs : nat → choice) (p : program A) (st : Store) (mutex : bool) : option (Store * bool * (A + store_error)) :=
  match p with
  | PRet a => Some (st, mutex, inl a)
  | PThrow e => Some (st, mutex, inr e)
  | PDo o k =>
      match io_step (chs O) o st mutex with
      | Some (b, st, mutex) => run_alone (λ n, chs (S n)) (k b) st mutex
      | None => None
      end
  end.
End Device.

(** ** All operations together *)
Inductive store_call :=
  | CLoadState
  | CLoadActiveProfile
  | CLoadProfile (id : str)
  | CSaveProfile (id : option str) (name clientToml : str) (metadata : option ProfileMetadata)
  | CDuplicateProfile (id : str)
  | CDeleteProfile (id : str)
  | CSetActiveProfileId (id : option str).
Inductive call_result :=
  | RState (s : ProfileStoreState)
  | RProfile (p : option SltProfile)
  | RSaved (p : SltProfile)
  | RUnit.

Abbreviation Sys := (Threads (Op := io) (Err := store_error) (Cmd := store_call) (Res := call_result) (D := Store * bool)).

Section System.
Context `{K : Casing} `{T : ProfileText}.

Definition call_prog (c : store_call) : program call_result :=
  match c with
  | CLoadState => s ← loadState; PRet (RState s)
  | CLoadActiveProfile => p ← loadActiveProfile; PRet (RProfile p)
  | CLoadProfile id => p ← loadProfile id; PRet (RProfile p)
  | CSaveProfile id name clientToml metadata => p ← saveProfile id name clientToml metadata; PRet (RSaved p)
  | CDuplicateProfile id => p ← duplicateProfile id; PRet (RProfile p)
  | CDeleteProfile id => _ ← deleteProfile id; PRet RUnit
  | CSetActiveProfileId id => _ ← setActiveProfileId id; PRet RUnit
  end.

(** The device is the store with the mutex. *)
Definition device_step B (ch : choice) (i : nat) (o : io B) (d : Store * bool) : option (B * (Store * bool)) :=
  match io_step ch o d.1 d.2 with
  | Some (b, st, mutex) => Some (b, (st, mutex))
  | None => None
  end.
Definition sy_store (s : Sys) : Store := (th_device s).1.
Definition Sys_new : Sys := mkThreads (Store_new, false) ∅ [].
Definition store_thread_step : choice → nat → Sys → option Sys := thread_step device_step (λ _ d, d).

(** The steps of the app that makes the calls [calls], in any order and any
    number of times; the process may die. *)
Definition sys_crash (s s' : Sys) : Prop := s' = mkThreads (sy_store s, false) ∅ (th_done s).
Definition sys_reachable (calls : list store_call) : Sys → Prop :=
  rtc (threads_step device_step call_prog (λ _ d, d) (.∈ calls) (λ _ _ _, True) sys_crash) Sys_new.
End System.

(** ** Where texts come from *)
Section Origin.
Context `{K : Casing} `{T : ProfileText} {L : ProfileTextLaws T}.
Context (calls : list store_call).

(** A new id may be any. *)
Definition saves_to (id' : option str) (id : str) : Prop := ∀ x, id' = Some x → x = id.

(** The configuration was saved for the profile, or copied from one. *)
Inductive toml_from : str → str → Prop :=
  | toml_saved id' name clientToml metadata id :
      CSaveProfile id' name clientToml metadata ∈ calls → saves_to id' id → toml_from id clientToml
  | toml_copied source id clientToml :
      CDuplicateProfile source ∈ calls → toml_from source clientToml → toml_from id clientToml.
Inductive metadata_from : str → ProfileMetadata → Prop :=
  | metadata_saved id' name clientToml metadata id :
      CSaveProfile id' name clientToml metadata ∈ calls → saves_to id' id →
      metadata_from id (named name (default (default_metadata name) metadata))
  | metadata_copied source id m :
      CDuplicateProfile source ∈ calls → metadata_from source m → metadata_from id (named (copy_name (pm_name m)) m).

(** The texts of a call can be written and its id names a directory. *)
Definition metadata_ok (m : ProfileMetadata) : bool :=
  forallb well_formed (pm_name m :: map vr_cidr (pm_routes m) ++ dn_servers (pm_dns m) ++ pm_testUrls m ++ ar_packageNames (pm_appRules m)).
Definition call_ok (c : store_call) : bool :=
  match c with
  | CLoadState | CLoadActiveProfile | CSetActiveProfileId _ => true
  | CLoadProfile id | CDuplicateProfile id | CDeleteProfile id => plain_id id
  | CSaveProfile id name clientToml metadata =>
      forallb plain_id (option_list id) && well_formed clientToml && metadata_ok (named name (default (default_metadata name) metadata))
  end.

Lemma well_formed_app a b : well_formed a = true → well_formed b = true → well_formed (a ++ b) = true.
Proof.
  remember (length a) as n eqn:En. revert a En. induction (lt_wf n) as [n _ IH]. intros [|c a] En Ha Hb; cbn in *; [done|].
  destruct ((55296 <=? c) && (c <=? 56319)).
  - destruct a as [|d a]; [done|]. cbn in *. apply andb_true_iff in Ha as [-> Ha]. cbn. eapply IH; [|done|done|done]. lia.
  - apply andb_true_iff in Ha as [-> Ha]. cbn. eapply IH; [|done|done|done]. lia.
Qed.

Lemma metadata_ok_named name m : metadata_ok m = true → well_formed name = true → metadata_ok (named name m) = true.
Proof. unfold metadata_ok. cbn [forallb]. intros [_ H]%andb_true_iff Hn. apply andb_true_iff. by split. Qed.
Lemma metadata_ok_name m : metadata_ok m = true → well_formed (pm_name m) = true.
Proof. unfold metadata_ok. cbn [forallb]. by intros [? _]%andb_true_iff. Qed.

Lemma object_ok l : Forall (λ kv, well_formed kv.1 = true ∧ json_ok kv.2 = true) l → NoDup (map fst l) → json_ok (JObject l) = true.
Proof.
  intros Hl Hd. cbn [json_ok]. apply andb_true_iff. split; [|by apply bool_decide_true]. apply forallb_forall. intros kv Hin.
  apply andb_true_iff. rewrite Forall_forall in Hl. by apply Hl, list_elem_of_In.
Qed.
Lemma strings_ok l : forallb well_formed l = true → json_ok (JArray (map JString l)) = true.
Proof. cbn. induction l as [|s l IH]; [done|]. cbn. intros [-> H]%andb_true_iff. auto. Qed.
Ltac fields_ok := apply object_ok; [repeat first [apply Forall_nil_2 | apply Forall_cons_2; [split; [reflexivity|]; cbn [snd]|] ]
  |cbn [map fst]; apply (bool_decide_unpack _); vm_compute; exact I].
Lemma metadata_json_ok m : metadata_ok m = true → json_ok (JObject (toProfileJson m)) = true.
Proof.
  unfold metadata_ok, toProfileJson. cbn [forallb]. rewrite !forallb_app, !andb_true_iff. intros (Hn & Hr & Hs & Hu & Hp).
  fields_ok; [done|done| | | |].
  - induction (pm_routes m) as [|r l IH]; [done|]. cbn [map forallb] in Hr. apply andb_true_iff in Hr as [Hc Hr].
    apply (proj2 (andb_true_iff (json_ok _) (forallb json_ok _))). split; [by fields_ok|by apply IH].
  - fields_ok; [by destruct (dn_mode (pm_dns m))|by apply strings_ok].
  - by apply strings_ok.
  - fields_ok; [by destruct (ar_mode (pm_appRules m))|by apply strings_ok].
Qed.

Lemma toml_from_ok id t : Forall (λ c, call_ok c = true) calls → toml_from id t → well_formed t = true.
Proof.
  intros Hc. rewrite Forall_forall in Hc. induction 1 as [id' name t md id Hin _|? ? ? ? ? IH]; [|done].
  specialize (Hc _ Hin). cbn [call_ok] in Hc. by apply andb_true_iff in Hc as [ [_ ?]%andb_true_iff _].
Qed.
Lemma metadata_from_ok id m : Forall (λ c, call_ok c = true) calls → metadata_from id m → metadata_ok m = true.
Proof.
  intros Hc. rewrite Forall_forall in Hc. induction 1 as [id' name t md id Hin _|? ? m ? ? IH].
  - specialize (Hc _ Hin). cbn [call_ok] in Hc. by apply andb_true_iff in Hc as [_ ?].
  - apply metadata_ok_named; [done|]. apply well_formed_app; [by apply metadata_ok_name|done].
Qed.

(** Metadata is read back. *)
Lemma strings_back l : toStringList (Some (map JString l)) = l.
Proof. unfold toStringList. cbn. rewrite map_map. apply map_id. Qed.
Lemma routes_back l :
  route_rules_of (map (λ r, JObject [(bytes_of_string "cidr", JString (vr_cidr r)); (bytes_of_string "excluded", JBool (vr_excluded r))]) l) = Some l.
Proof. induction l as [|[c e] l IH]; [done|]. cbn in *. by rewrite IH. Qed.
Lemma metadata_back m : profileMetadataFromJson (toProfileJson m) = Some m.
Proof.
  destruct m as [name routes [mode servers] urls [amode packages] ]. unfold profileMetadataFromJson.
  change (toVpnRouteRules (optJSONArray (toProfileJson (mkMetadata name routes (mkDns mode servers) urls (mkAppRules amode packages))) (bytes_of_string "routes")))
    with (route_rules_of (map (λ r, JObject [(bytes_of_string "cidr", JString (vr_cidr r)); (bytes_of_string "excluded", JBool (vr_excluded r))]) routes)).
  rewrite routes_back.
  transitivity (Some (mkMetadata name routes
    (mkDns (dnsModeFromWireName (dns_toWireName mode)) (toStringList (Some (map JString servers)))) (toStringList (Some (map JString urls)))
    (mkAppRules (appVpnModeFromWireName (app_toWireName amode)) (toStringList (Some (map JString packages)))))); [reflexivity|].
  rewrite !strings_back. by destruct mode, amode.
Qed.
Lemma metadata_text_back m : metadata_ok m = true → json_parse (json_text (JObject (toProfileJson m))) ≫= profileMetadataFromJson = Some m.
Proof using L. intros Hm. rewrite json_parse_text by (by apply metadata_json_ok). apply metadata_back. Qed.

(** What a file of a profile may hold. *)
Definition whole (id name : str) (c : bytes) : Prop :=
  (name = client_toml → ∃ t, toml_from id t ∧ c = utf8 t) ∧
  (name = metadata_json → ∃ m, metadata_from id m ∧ c = utf8 (json_text (JObject (toProfileJson m)))).
Definition is_temp (name : str) : Prop := ∃ target x, target ∈ [client_toml; metadata_json] ∧ name = (target ++ bytes_of_string ".") ++ x ++ temp_suffix.
Lemma temp_whole id name c : is_temp name → whole id name c.
Proof.
  intros (target & x & Ht & ->).
  split; intros E; exfalso; repeat (apply elem_of_cons in Ht as [->|Ht]; [try discriminate E; apply (f_equal length) in E;
    rewrite !length_app in E; cbn in E; lia|]); by apply elem_of_nil in Ht.
Qed.
End Origin.

(** ** A logic for the programs *)

(** What a thread knows: whether it holds the mutex and, if it does, the
    temporary file it made and the text it has written there. *)
Inductive view := Outside | Inside (temp : option (str * str * option str)).
#[export] Instance view_eq_dec : EqDecision view.
Proof. solve_decision. Defined.

Section Logic.
Context `{K : Casing} `{T : ProfileText} {L : ProfileTextLaws T}.
Context (calls : list store_call).
Implicit Types (v : view).

(** A thread may make the call and then [Φ] holds of the answer. *)
Definition io_safe {B} (o : io B) v : (B → view → Prop) → Prop :=
  match o in io B return (B → view → Prop) → Prop with
  | IoLock => λ Φ, v = Outside ∧ Φ true (Inside None) ∧ Φ false Outside
  | IoUnlock => λ Φ, v ≠ Outside ∧ Φ tt Outside
  | IoCreateTempFile id prefix => λ Φ, v ≠ Outside ∧ (∃ target, target ∈ [client_toml; metadata_json] ∧ prefix = target ++ bytes_of_string ".") ∧
      (∀ name, is_temp name → Φ (Some name) (Inside (Some (id, name, None)))) ∧ Φ None (Inside None)
  | IoWriteText id name text => λ Φ, (∃ ot, v = Inside (Some (id, name, ot))) ∧
      Φ true (Inside (Some (id, name, Some text))) ∧ Φ false (Inside (Some (id, name, None)))
  | IoRenameTo id name target => λ Φ, ∃ text, v = Inside (Some (id, name, Some text)) ∧ whole calls id target (utf8 text) ∧
      Φ true (Inside None) ∧ Φ false v
  | IoReadText id name => λ Φ, ∀ b, (∀ t, b = Some t → ∃ c, whole calls id name c ∧ t = utf8_read c) → Φ b v
  | _ => λ Φ, ∀ b, Φ b v
  end.

Abbreviation safe Q X := (pwp (@io_safe) Q (λ _ : store_error, X)).

Lemma io_safe_mono B (o : io B) v (Φ Ψ : B → view → Prop) : (∀ b v, Φ b v → Ψ b v) → io_safe o v Φ → io_safe o v Ψ.
Proof. intros H. destruct o; cbn; naive_solver. Qed.
Lemma safe_bind {A B} (Q : B → view → Prop) (X : view → Prop) v (p : program A) (f : A → program B) :
  safe (λ a v, safe Q X v (f a)) X v p → safe Q X v (p ≫= f).
Proof. apply pwp_bind, io_safe_mono. Qed.
Lemma safe_catch {A} (Q : A → view → Prop) (X : view → Prop) v (p : program A) h :
  safe Q (λ v, ∀ e, safe Q X v (h e)) v p → safe Q X v (catch p h).
Proof.
  intros H. apply (pwp_catch _ io_safe_mono). revert H. apply (pwp_mono _ io_safe_mono); [done|]. intros e v' H. apply H.
Qed.
Lemma safe_withLock {A} (Q : A → view → Prop) (X : view → Prop) (p : program A) :
  safe (λ a v, v ≠ Outside ∧ Q a Outside) (λ v, v ≠ Outside ∧ X Outside) (Inside None) p → X Outside → safe Q X Outside (withLock p).
Proof.
  intros Hp HX. cbn. split; [done|]. split; [|done]. revert Hp. generalize (Inside None) as v.
  induction p as [a|e|C o k IH]; intros v; cbn; [tauto..|]. apply io_safe_mono. intros b v'. apply IH.
Qed.

(** The loads. *)
Definition profile_from (id : str) (p : SltProfile) : Prop :=
  sp_id p = id ∧ toml_from calls id (sp_clientToml p) ∧ metadata_from calls id (sp_metadata p).

Context (Hcalls : Forall (λ c, call_ok c = true) calls).

Lemma load_from_safe id v (Q : ProfileLoadResult → view → Prop) (X : view → Prop) :
  (∀ p, profile_from id p → Q (PlrLoaded p) v) → Q PlrMissing v → X v → safe Q X v (load_from id id).
Proof using L Hcalls.
  intros HQ HM HX. cbn. intros [] ; cbn; [|done]. intros []; cbn; [|done]. intros [t|] Ht; cbn; [|done]. intros [m|] Hm; cbn; [|done].
  destruct (Ht t eq_refl) as (c & [Hc _] & ->). destruct (Hc eq_refl) as (toml & Htoml & ->).
  destruct (Hm m eq_refl) as (c & [_ Hc'] & ->). destruct (Hc' eq_refl) as (meta & Hmeta & ->).
  pose proof (metadata_from_ok calls id meta Hcalls Hmeta) as Hok.
  rewrite (utf8_round_trip toml) by (by eapply toml_from_ok). rewrite utf8_round_trip by (by apply json_text_well_formed, metadata_json_ok).
  rewrite (metadata_text_back meta Hok). by apply HQ.
Qed.

Lemma loadProfileResult_safe id v (Q : ProfileLoadResult → view → Prop) X :
  (∀ r, (∀ p, r = PlrLoaded p → profile_from id p) → Q r v) → safe Q X v (loadProfileResult id).
Proof using L Hcalls.
  intros HQ. unfold loadProfileResult. apply safe_catch, safe_bind. unfold profileDir.
  destruct (existsb _ _); cbn [pwp]; [intros e; apply HQ; congruence|]. apply load_from_safe; [| |intros e]; intros; apply HQ; naive_solver.
Qed.

Lemma loadProfileInternal_safe id v (Q : option SltProfile → view → Prop) X :
  (∀ p, profile_from id p → Q (Some p) v) → Q None v → safe Q X v (loadProfileInternal id).
Proof using L Hcalls.
  intros HQ HN. apply safe_bind, loadProfileResult_safe. intros [] Hr; cbn; auto.
Qed.

Definition item_from (i : ProfileListItem) : Prop := ∃ m, metadata_from calls (li_id i) m ∧ li_name i = pm_name m.

Lemma sort_items_from l : Forall item_from l → Forall item_from (sort_items l).
Proof.
  induction 1 as [|i l Hi Hl IH]; [apply Forall_nil_2|]. unfold sort_items in *. cbn [foldr]. revert IH. generalize (foldr item_insert [] l) as l'.
  induction 1 as [|j l' Hj Hl' IH']; cbn; [by apply Forall_singleton|]. destruct (item_le i j); repeat (apply Forall_cons; split); auto.
Qed.

Lemma load_items_safe a dirs v (Q : list ProfileListItem → view → Prop) X :
  (∀ l, Forall item_from l → Q l v) → safe Q X v (load_items a dirs).
Proof using L Hcalls.
  revert Q. induction dirs as [|d dirs IH]; intros Q HQ; [by apply HQ|]. cbn [load_items]. apply safe_bind, loadProfileResult_safe.
  intros r Hr. apply safe_bind, IH. intros l Hl. cbn. apply HQ. destruct r as [p| |]; [|done..].
  destruct (Hr p eq_refl) as (E & _ & Hm). constructor; [|done]. exists (sp_metadata p). cbn. by rewrite E.
Qed.

Lemma listProfiles_safe a v (Q : list ProfileListItem → view → Prop) X :
  (∀ l, Forall item_from l → Q l v) → safe Q X v (listProfiles a).
Proof using L Hcalls.
  intros HQ. unfold listProfiles. apply safe_bind. intros dirs. apply safe_bind, load_items_safe. intros l Hl. by apply HQ, sort_items_from.
Qed.
Lemma activeProfileId_safe v (Q : option str → view → Prop) (X : view → Prop) : (∀ a, Q a v) → X v → safe Q X v activeProfileId.
Proof. intros HQ HX. unfold activeProfileId. apply safe_bind. intros [a|]; [apply HQ|apply HX]. Qed.
Lemma setActiveProfileId_safe a v (Q : unit → view → Prop) (X : view → Prop) : Q tt v → X v → safe Q X v (setActiveProfileId a).
Proof. intros HQ HX. unfold setActiveProfileId. apply safe_bind. by intros []. Qed.

(** A file that replaces another holds a whole text. *)
Lemma writeTextAtomic_safe id target text v (Q : unit → view → Prop) (X : view → Prop) :
  v ≠ Outside → target ∈ [client_toml; metadata_json] → whole calls id target (utf8 text) →
  (∀ v, v ≠ Outside → Q tt v) → (∀ v, v ≠ Outside → X v) → safe Q X v (writeTextAtomic id target text).
Proof.
  intros Hv Ht Hw HQ HX. cbn. split; [done|]. split; [by eexists|]. split; [|by apply HX]. intros name Hn. cbn.
  split; [by eexists|]. split; [|by apply HX]. cbn. exists text. split; [done|]. split; [done|]. split; [by apply HQ|].
  cbn. intros _. by apply HX.
Qed.

Lemma saveProfile_safe id name clientToml metadata (Q : SltProfile → view → Prop) (X : view → Prop) :
  let m := named name (default (default_metadata name) metadata) in
  (∀ i, saves_to id i → toml_from calls i clientToml ∧ metadata_from calls i m ∧ Q (mkProfile i clientToml m) Outside) →
  X Outside → safe Q X Outside (saveProfile id name clientToml metadata).
Proof.
  intros m Hfrom HX. apply safe_withLock; [|done]. apply safe_bind.
  assert (∀ i, saves_to id i → ∀ v, v ≠ Outside → safe (λ a v, v ≠ Outside ∧ Q a Outside) (λ v, v ≠ Outside ∧ X Outside) v (
    dir ← profileDir i;
    exists_ ← call (IoExists dir);
    made ← (if exists_ : bool then PRet true else call (IoMkdirs dir));
    if negb made then PThrow CouldNotCreate else
    _ ← writeTextAtomic dir client_toml clientToml;
    _ ← writeTextAtomic dir metadata_json (json_text (JObject (toProfileJson m)));
    active ← activeProfileId;
    _ ← (if decide (active = None) then setActiveProfileId (Some i) else PRet tt);
    PRet (mkProfile i clientToml m))) as H.
  { intros i (Ht & Hm & HQ)%Hfrom v Hv. apply safe_bind. unfold profileDir. destruct (existsb _ i); cbn [pwp]; [done|].
    cbn [mbind prog_bind call pwp io_safe]. intros e. apply safe_bind.
    assert (∀ made : bool, safe (λ a v, v ≠ Outside ∧ Q a Outside) (λ v, v ≠ Outside ∧ X Outside) v (
      if negb made then PThrow CouldNotCreate else
      _ ← writeTextAtomic i client_toml clientToml;
      _ ← writeTextAtomic i metadata_json (json_text (JObject (toProfileJson m)));
      active ← activeProfileId;
      _ ← (if decide (active = None) then setActiveProfileId (Some i) else PRet tt);
      PRet (mkProfile i clientToml m))) as H'.
    { intros []; [|done]. apply safe_bind, writeTextAtomic_safe; [done|by left|split; [by eauto|done]| |done]. intros v1 Hv1.
      apply safe_bind, writeTextAtomic_safe; [done|by right; left|split; [done|by eauto]| |done]. intros v2 Hv2.
      apply safe_bind, activeProfileId_safe; [|done]. intros a. apply safe_bind. destruct (decide (a = None)); [by apply setActiveProfileId_safe|done]. }
    destruct e; cbn [pwp call io_safe]; [apply (H' true)|exact H']. }
  destruct id as [i|]; cbn.
  - by apply (H i); [intros x [= <-]|].
  - intros i. by apply (H i).
Qed.

Lemma delete_files_safe dir names v (Q : bool → view → Prop) X : (∀ b, Q b v) → safe Q X v (delete_files dir names).
Proof.
  revert Q. induction names as [|n names IH]; intros Q HQ; [apply HQ|]. cbn. intros b. apply safe_bind, IH. intros r. apply HQ.
Qed.

(** What a call may return. *)
Definition result_from (c : store_call) (r : call_result) : Prop :=
  match c, r with
  | CLoadState, RState s => Forall item_from (ss_profiles s) ∧ ∀ p, ss_activeProfile s = Some p → profile_from (sp_id p) p
  | CLoadActiveProfile, RProfile o => ∀ p, o = Some p → profile_from (sp_id p) p
  | CLoadProfile id, RProfile o => ∀ p, o = Some p → profile_from id p
  | CSaveProfile id name clientToml metadata, RSaved p =>
      saves_to id (sp_id p) ∧ sp_clientToml p = clientToml ∧ sp_metadata p = named name (default (default_metadata name) metadata)
  | CDuplicateProfile source, RProfile o => ∀ p, o = Some p →
      toml_from calls source (sp_clientToml p) ∧ ∃ m, metadata_from calls source m ∧ sp_metadata p = named (copy_name (pm_name m)) m
  | CDeleteProfile _, RUnit | CSetActiveProfileId _, RUnit => True
  | _, _ => False
  end.

Lemma call_safe c : c ∈ calls → safe (λ r v, v = Outside ∧ result_from c r) (λ v, v = Outside) Outside (call_prog c).
Proof using L Hcalls.
  intros Hc. destruct c as [| |id|id name toml md|id|id|id]; cbn [call_prog]; apply safe_bind.
  - unfold loadState. apply safe_bind, activeProfileId_safe; [|done]. intros a. apply safe_bind, listProfiles_safe. intros l Hl. apply safe_bind.
    destruct a as [a|]; [apply loadProfileInternal_safe|]; cbn; [|done..]. intros p Hp. split; [done|]. split; [done|]. intros p' [= <-]. by destruct Hp as [<- ?].
  - unfold loadActiveProfile. apply safe_bind, activeProfileId_safe; [|done]. intros [a|]; [|done]. apply loadProfileInternal_safe; [|done].
    intros p Hp. cbn. split; [done|]. intros p' [= <-]. by destruct Hp as [<- ?].
  - apply loadProfileInternal_safe; cbn; [|done]. intros p Hp. split; [done|]. by intros p' [= <-].
  - apply saveProfile_safe; [|done]. intros i Hi. split; [by econstructor|]. split; [by econstructor|]. done.
  - apply safe_bind, loadProfileInternal_safe; [|done]. intros p (E & Ht & Hm). apply safe_bind, saveProfile_safe; [|done].
    intros i Hi. split; [by eapply toml_copied|]. split; [by apply (metadata_copied calls id i (sp_metadata p))|]. cbn. split; [done|]. intros p' [= <-]. cbn. eauto.
  - unfold deleteProfile. apply safe_bind. unfold profileDir. destruct (existsb _ _); cbn [pwp]; [done|]. apply safe_bind. unfold deleteRecursively.
    apply safe_bind. intros names. apply safe_bind, delete_files_safe. intros b. apply safe_bind. intros b'. cbn [pwp].
    destruct (b' && b); [|done]. apply safe_bind, activeProfileId_safe; [|done]. intros a.
    cbn [negb]. destruct (decide _); [by apply setActiveProfileId_safe|done].
  - by apply setActiveProfileId_safe.
Qed.
End Logic.

(** ** The invariant *)
Section Invariant.
Context `{K : Casing} `{T : ProfileText} {L : ProfileTextLaws T}.
Context (calls : list store_call).
Implicit Types (v : view) (st : Store).

Definition store_whole st : Prop := ∀ id name c, file_at st id name = Some c → whole calls id name c.
Definition view_fact st v : Prop :=
  match v with
  | Inside (Some (id, name, ot)) => is_temp name ∧ ∀ text c, ot = Some text → file_at st id name = Some c → c = utf8 text
  | _ => True
  end.

Lemma file_put id name c st id' name' :
  file_at (put_file id name c st) id' name' =
    if decide (id' = id ∧ name' = name ∧ is_Some (st_dirs st !! id)) then Some c else file_at st id' name'.
Proof.
  unfold file_at, put_file. cbn. destruct (decide (id' = id)) as [->|Hn].
  - rewrite lookup_alter_eq. destruct (st_dirs st !! id) as [d|] eqn:E; cbn.
    + destruct (decide (name' = name)) as [->|Hn]; [rewrite lookup_insert_eq, decide_True by eauto|
        rewrite lookup_insert_ne by done; rewrite decide_False by naive_solver]; done.
    + rewrite decide_False; [done|]. intros (_ & _ & [x Hx]). done.
  - rewrite lookup_alter_ne by done. rewrite decide_False by naive_solver. done.
Qed.
Lemma file_remove id name st id' name' :
  file_at (remove_file id name st) id' name' = if decide (id' = id ∧ name' = name) then None else file_at st id' name'.
Proof.
  unfold file_at, remove_file. cbn. destruct (decide (id' = id)) as [->|Hn].
  - rewrite lookup_alter_eq. destruct (st_dirs st !! id) as [d|] eqn:E; cbn; [|by case_decide].
    destruct (decide (name' = name)) as [->|Hn]; [rewrite lookup_delete_eq, decide_True by eauto|
        rewrite lookup_delete_ne by done; rewrite decide_False by naive_solver]; done.
  - rewrite lookup_alter_ne by done. rewrite decide_False by naive_solver. done.
Qed.

(** Files are removed. *)
Definition fewer st st' : Prop := ∀ id name c, file_at st' id name = Some c → file_at st id name = Some c.
Lemma fewer_refl st : fewer st st.
Proof. by intros id name c. Qed.
Lemma fewer_whole st st' : fewer st st' → store_whole st → store_whole st'.
Proof. intros H Hs id name c Hf. by apply Hs, H. Qed.
Lemma fewer_fact st st' v : fewer st st' → view_fact st v → view_fact st' v.
Proof. destruct v as [|[ [ [id name] ot]|] ]; cbn; [done| |done]. intros H [Ht Hf]. split; [done|]. intros t c E Hc. eauto. Qed.
Lemma fewer_active a st : fewer st (mkStore (st_dirs st) a).
Proof. by intros id name c. Qed.
Lemma fewer_remove id name st : fewer st (remove_file id name st).
Proof. intros i n c. rewrite file_remove. by case_decide. Qed.
Lemma fewer_mkdir id st : st_dirs st !! id = None → fewer st (put_dirs (<[id := ∅]> (st_dirs st)) st).
Proof.
  intros E i n c. unfold file_at. cbn. destruct (decide (i = id)) as [->|Hn]; [by rewrite lookup_insert_eq|by rewrite lookup_insert_ne].
Qed.
Lemma fewer_rmdir id st : fewer st (put_dirs (delete id (st_dirs st)) st).
Proof.
  intros i n c. unfold file_at. cbn. destruct (decide (i = id)) as [->|Hn]; [by rewrite lookup_delete_eq|by rewrite lookup_delete_ne].
Qed.
Lemma put_whole id name c st : whole calls id name c → store_whole st → store_whole (put_file id name c st).
Proof. intros Hw Hs i n c'. rewrite file_put. case_decide as E; [|apply Hs]. destruct E as (-> & -> & _). by intros [= <-]. Qed.

Lemma temp_name_temp ch d target : target ∈ [client_toml; metadata_json] → is_temp (temp_name ch d (target ++ bytes_of_string ".")).
Proof. intros Ht. unfold temp_name. destruct (d !! _); by eexists target, _. Qed.

(** A thread inside the mutex stays inside, or the mutex changes with it. *)
Definition mutex_moves v v' (mutex mutex' : bool) : Prop :=
  (v ≠ Outside ∧ v' ≠ Outside ∧ mutex' = mutex) ∨ (v = Outside ∧ v' = Outside ∧ mutex' = mutex) ∨
  (v = Outside ∧ v' ≠ Outside ∧ mutex = false ∧ mutex' = true) ∨ (v ≠ Outside ∧ v' = Outside ∧ mutex' = false).
Lemma mutex_same v mutex : mutex_moves v v mutex mutex.
Proof. unfold mutex_moves. destruct v; naive_solver. Qed.

(** One call: the thread goes on, files stay whole, and a thread outside the
    mutex only removes files. *)
Definition call_keeps {B} v (Φ : B → view → Prop) st (mutex : bool) (x : B * Store * bool) : Prop :=
  let '(b, st', mutex') := x in
  ∃ v', Φ b v' ∧ store_whole st' ∧ view_fact st' v' ∧ mutex_moves v v' mutex mutex' ∧ (v = Outside → fewer st st').
Lemma keeps_fewer {B} v (Φ : B → view → Prop) st mutex b st' :
  store_whole st → view_fact st v → Φ b v → fewer st st' → call_keeps v Φ st mutex (b, st', mutex).
Proof. intros Hs Hv HΦ Hf. exists v. split_and!; eauto using fewer_whole, fewer_fact, mutex_same. Qed.
Lemma keeps_inside {B} v v' (Φ : B → view → Prop) st mutex b st' :
  Φ b v' → v ≠ Outside → v' ≠ Outside → store_whole st' → view_fact st' v' → call_keeps v Φ st mutex (b, st', mutex).
Proof. intros HΦ Hv Hv' Hs Hf. exists v'. split_and!; [done..| |done]. by left. Qed.

Lemma io_step_safe {B} ch (o : io B) v (Φ : B → view → Prop) st mutex x :
  io_safe calls o v Φ → store_whole st → view_fact st v → io_step ch o st mutex = Some x → call_keeps v Φ st mutex x.
Proof.
  intros HΦ Hs Hv. destruct o as [| | |id|id|id prefix|id name text|id name target|id name|id name|id name| |id|id| |id]; cbn [io_safe io_step] in *.
  - intros [= <-]. apply keeps_fewer; auto using fewer_refl.
  - destruct HΦ as (-> & H1 & H2). destruct (ch_fail ch); [intros [= <-]; apply keeps_fewer; auto using fewer_refl|].
    destruct mutex; [done|]. intros [= <-]. exists (Inside None). split_and!; [done..| |intros _; apply fewer_refl]. unfold mutex_moves. naive_solver.
  - destruct HΦ as [Hn HΦ]. intros [= <-]. exists Outside. split_and!; [done..| |done]. unfold mutex_moves. naive_solver.
  - intros [= <-]. apply keeps_fewer; auto using fewer_refl.
  - destruct (st_dirs st !! id) as [d|] eqn:Ed.
    + rewrite bool_decide_true, orb_true_r by done. intros [= <-]. apply keeps_fewer; auto using fewer_refl.
    + rewrite bool_decide_false, orb_false_r by (by intros [? ?]). destruct (ch_fail ch); intros [= <-]; apply keeps_fewer; auto using fewer_refl, fewer_mkdir.
  - destruct HΦ as (Hn & (target & Ht & ->) & H1 & H2).
    destruct (st_dirs st !! id) as [d|] eqn:Ed; [destruct (ch_fail ch)|]; intros [= <-]; [by apply (keeps_inside v (Inside None))| |by apply (keeps_inside v (Inside None))].
    pose proof (temp_name_temp ch d target Ht) as Htemp.
    apply (keeps_inside v (Inside (Some (id, temp_name ch d (target ++ bytes_of_string "."), None)))); [by apply H1|done|done| |by split; [|intros ? ? [=] ] ].
    by apply put_whole; [apply temp_whole|].
  - destruct HΦ as ([ot ->] & H1 & H2). destruct Hv as [Ht _].
    assert (∀ c ot', store_whole (put_file id name c st) ∧ (ot' = None ∨ ot' = Some text ∧ c = utf8 text →
        view_fact (put_file id name c st) (Inside (Some (id, name, ot'))))) as Hput.
    { intros c ot'. split; [by apply put_whole; [apply temp_whole|]|]. intros Hot. split; [done|]. intros t c' ->.
      rewrite file_put. destruct Hot as [?|[ [= ->] ->] ]; [done|]. case_decide as E; [congruence|]. intros Hf. exfalso. apply E.
      split_and!; [done..|]. unfold file_at in Hf. by destruct (st_dirs st !! id). }
    destruct (st_dirs st !! id) as [d|] eqn:Ed; [destruct (ch_fail ch)|]; intros [= <-].
    + destruct (Hput (take (ch_count ch) (utf8 text)) None) as [P1 P2]. eapply keeps_inside; [exact H2|done|done|done|auto].
    + destruct (Hput (utf8 text) (Some text)) as [P1 P2]. eapply keeps_inside; [exact H1|done|done|done|auto].
    + eapply keeps_inside; [exact H2|done|done|done|by split; [|intros ? ? [=] ] ].
  - destruct HΦ as (text & -> & Hw & H1 & H2). destruct Hv as [Ht Hf].
    destruct (file_at st id name) as [c|] eqn:Ec; [destruct (ch_fail ch)|]; intros [= <-].
    + eapply keeps_inside; [exact H2|done|done|done|]. split; [done|]. intros t c' [= <-] Hc. apply Hf; [done|]. congruence.
    + rewrite (Hf text c eq_refl eq_refl). eapply keeps_inside; [exact H1|done|done| |done].
      apply put_whole; [done|]. eapply fewer_whole; [apply fewer_remove|done].
    + eapply keeps_inside; [exact H2|done|done|done|]. split; [done|]. intros t c' [= <-] Hc. congruence.
  - destruct (file_at st id name); [destruct (ch_fail ch)|]; intros [= <-]; apply keeps_fewer; auto using fewer_refl, fewer_remove.
  - intros [= <-]. apply keeps_fewer; auto using fewer_refl.
  - intros [= <-]. apply keeps_fewer; [done|done| |apply fewer_refl]. apply HΦ. intros t Hr. destruct (ch_fail ch); [done|].
    apply fmap_Some in Hr as (c & Hc & ->). exists c. split; [by apply Hs|done].
  - intros [= <-]. apply keeps_fewer; auto using fewer_refl.
  - intros [= <-]. apply keeps_fewer; auto using fewer_refl.
  - destruct (st_dirs st !! id) as [d|]; [destruct (ch_fail ch || _)|]; intros [= <-]; apply keeps_fewer; auto using fewer_refl, fewer_rmdir.
  - intros [= <-]. apply keeps_fewer; auto using fewer_refl.
  - destruct (ch_fail ch); intros [= <-]; apply keeps_fewer; auto using fewer_refl, fewer_active.
Qed.

Context (Hcalls : Forall (λ c, call_ok c = true) calls).

(** At most one thread is inside the mutex, and what it knows is true. *)
Definition sys_inv (d : Store * bool) (done : list (store_call * (call_result + store_error))) (vs : nat → view) : Prop :=
  store_whole d.1 ∧ (∀ c r, (c, inl r) ∈ done → result_from calls c r) ∧ ∃ owner : option nat, (d.2 = true ↔ is_Some owner) ∧
    ∀ i, view_fact d.1 (vs i) ∧ (vs i ≠ Outside ↔ owner = Some i).
Abbreviation result_ok := (λ c r v, v = Outside ∧ result_from calls c r).
Abbreviation system_inv := (threads_inv (@io_safe _ calls) Outside (.∈ calls) result_ok (λ _ _ v, v = Outside) sys_inv).

Lemma inv_call B ch i (o : io B) (Φ : B → view → Prop) d l vs b d' :
  sys_inv d l vs → io_safe calls o (vs i) Φ → True → device_step B ch i o d = Some (b, d') → ∃ v, Φ b v ∧ sys_inv d' l (upd vs i v).
Proof.
  intros (Hw & Hd & owner & Hm & Hv) Hsafe _ E. unfold device_step in E. destruct (io_step ch o d.1 d.2) as [ [ [b' st] mutex]|] eqn:Es; [|done].
  injection E as <- <-. destruct (Hv i) as [Hf Ho].
  destruct (io_step_safe ch o _ _ _ _ _ Hsafe Hw Hf Es) as (v' & HΦ & Hw' & Hf' & Hmoves & Hfewer). exists v'. split; [done|].
  split; [done|]. split; [done|]. cbn [fst snd].
  assert (∀ j, j ≠ i → view_fact st (vs j)) as Hother.
  { intros j Hj. destruct (decide (vs i = Outside)) as [E|E]; [by apply (fewer_fact d.1), Hv; apply Hfewer|].
    destruct (decide (vs j = Outside)) as [->|E']; [done|]. apply Hv in E, E'. congruence. }
  assert (∀ owner', (mutex = true ↔ is_Some owner') → (v' ≠ Outside ↔ owner' = Some i) → (∀ j, j ≠ i → owner' = Some j ↔ owner = Some j) →
    ∃ owner, (mutex = true ↔ is_Some owner) ∧ ∀ j, view_fact st (upd vs i v' j) ∧ (upd vs i v' j ≠ Outside ↔ owner = Some j)) as Hgo.
  { intros owner' H1 H2 H3. exists owner'. split; [done|]. intros j. destruct (decide (j = i)) as [->|Hj]; [by rewrite upd_eq|].
    rewrite upd_ne by done. split; [by apply Hother|]. rewrite H3 by done. apply Hv. }
  destruct Hmoves as [(Hi & Hi' & ->)|[(Hi & Hi' & ->)|[(Hi & Hi' & Hfree & ->)|(Hi & Hi' & ->)] ] ].
  - apply (Hgo owner); [done| |done]. tauto.
  - apply (Hgo owner); [done| |done]. tauto.
  - assert (owner = None) as -> by (destruct owner; [|done]; assert (d.2 = true) by (apply Hm; by eexists); congruence).
    apply (Hgo (Some i)); [done|done|]. intros j Hj. split; congruence.
  - apply Ho in Hi as ->. apply (Hgo None); [split; [done|by intros [? ?] ]|split; [done|congruence]|]. intros j Hj. split; congruence.
Qed.

Lemma inv_ended i c r d l vs :
  sys_inv d l vs → vs i = Outside → (∀ a, r = inl a → result_from calls c a) → sys_inv d (l ++ [(c, r)]) (upd vs i Outside).
Proof.
  intros (Hw & Hd & owner & Hm & Hv) Hi Hr. split; [done|]. split.
  - intros c' r' [Hin|Hin]%elem_of_app; [by apply Hd|]. apply list_elem_of_singleton in Hin. injection Hin as -> <-. by apply Hr.
  - exists owner. split; [done|]. intros j. pose proof (Hv j) as Hj.
    destruct (decide (j = i)) as [->|Hn]; [by rewrite upd_eq; rewrite Hi in Hj|by rewrite upd_ne].
Qed.

Lemma inv_crash s s' : sys_crash s s' → system_inv s → system_inv s'.
Proof.
  intros -> (vs & (Hw & Hd & _) & _ & _). exists (λ _, Outside). split; [|split; [done|]].
  - split; [done|]. split; [done|]. exists None. split; [split; [done|by intros [? ?] ]|]. intros i. split; [done|]. split; [done|congruence].
  - intros i c p. cbn. by rewrite lookup_empty.
Qed.

Lemma inv_reachable s : sys_reachable calls s → system_inv s.
Proof using L Hcalls.
  intros H. refine (threads_inv_reachable _ _ _ _ _ _ _ _ _ _ _ _ inv_call _ _ inv_crash _ _ _ H).
  - intros c Hc. by apply call_safe.
  - intros i c r d l vs _ HI [Hi Hr]. apply inv_ended; [done..|]. by intros a [= <-].
  - intros i c e d l vs _ HI Hi. by apply inv_ended.
  - exists (λ _, Outside). split; [|split; [done|] ].
    + split; [intros id name c; by unfold file_at; cbn; rewrite lookup_empty|]. split; [by intros c r ?%elem_of_nil|].
      exists None. split; [split; [done|by intros [? ?] ]|]. intros i. split; [done|]. split; [done|congruence].
    + intros i c p. cbn. by rewrite lookup_empty.
Qed.

(** Only the mutex makes a call wait. *)
Lemma io_step_goes {B} ch (o : io B) st mutex : io_step ch o st mutex = None → mutex = true ∧ ∀ v Φ, io_safe calls o v Φ → v = Outside.
Proof.
  destruct o as [| | |id|id|id prefix|id name text|id name target|id name|id name|id name| |id|id| |id]; cbn; try done;
    [destruct (ch_fail ch); [done|]; destruct mutex; [|done]; intros _; split; [done|]; by intros v Φ [-> _]|..];
    repeat (case_match; try done).
Qed.

(** Some thread goes on. *)
Lemma inv_progress s ch : system_inv s → th_running s ≠ ∅ → ∃ i s', store_thread_step ch i s = Some s'.
Proof.
  intros (vs & (_ & _ & owner & Hm & Hv) & Hout & Hrun) Hne.
  assert (∃ i c p, th_running s !! i = Some (c, p) ∧ ((th_device s).2 = true → vs i ≠ Outside)) as (i & c & p & Hi & Hin).
  { destruct owner as [i|].
    - destruct (th_running s !! i) as [ [c p]|] eqn:Hi.
      + exists i, c, p. split; [done|]. intros _. by apply Hv.
      + apply Hout in Hi. exfalso. by apply (proj2 (Hv i)).
    - apply map_choose in Hne as (i & [c p] & Hi). exists i, c, p. split; [done|]. intros [? ?]%Hm. done. }
  exists i. unfold store_thread_step, thread_step. rewrite Hi. destruct p as [a|e|B o k]; [by eexists..|].
  unfold device_step. destruct (io_step ch o _ _) as [ [ [b st] m]|] eqn:Eio; [by eexists|]. apply io_step_goes in Eio as [Hmu Hout'].
  exfalso. apply (Hin Hmu). eapply Hout'. exact (proj2 (Hrun i c _ Hi)).
Qed.
End Invariant.

(** ** An operation that runs alone *)
Section Alone.
Context `{K : Casing} `{T : ProfileText} {L : ProfileTextLaws T}.
Implicit Types (st : Store) (mutex : bool).

(** Nothing fails, and new ids are names. *)
Definition invalid_id (id : str) : bool := existsb (λ c, (c =? 47) || (c =? 92)) id.
Definition favourable (ch : choice) : Prop := ch_fail ch = false ∧ invalid_id (ch_text ch) = false.

(** The program returns, and what it returns satisfies [Q]. *)
Fixpoint goes {A} (Q : A → Store → bool → Prop) (p : program A) st mutex : Prop :=
  match p with
  | PRet a => Q a st mutex
  | PThrow _ => False
  | PDo o k => ∀ ch, favourable ch →
      match io_step ch o st mutex with Some (b, st', mutex') => goes Q (k b) st' mutex' | None => False end
  end.

Lemma goes_run {A} (Q : A → Store → bool → Prop) p st mutex chs :
  goes Q p st mutex → (∀ n, favourable (chs n)) → ∃ a st' mutex', run_alone chs p st mutex = Some (st', mutex', inl a) ∧ Q a st' mutex'.
Proof.
  revert st mutex chs. induction p as [a|e|B o k IH]; intros st mutex chs Hp Hc; cbn in *; [by eauto|done|].
  specialize (Hp (chs O) (Hc O)). destruct (io_step (chs O) o st mutex) as [ [ [b st'] m']|]; [|done]. by apply (IH b).
Qed.
Lemma goes_bind {A B} (Q : B → Store → bool → Prop) (p : program A) (f : A → program B) st mutex :
  goes (λ a st mutex, goes Q (f a) st mutex) p st mutex → goes Q (p ≫= f) st mutex.
Proof.
  revert st mutex. induction p as [a|e|C o k IH]; intros st mutex; cbn; [done..|]. intros Hp ch Hc. specialize (Hp ch Hc).
  destruct (io_step ch o st mutex) as [ [ [b st'] m']|]; [|done]. by apply IH.
Qed.
Lemma goes_mono {A} (Q Q' : A → Store → bool → Prop) p st mutex :
  (∀ a st mutex, Q a st mutex → Q' a st mutex) → goes Q p st mutex → goes Q' p st mutex.
Proof.
  intros HQ. revert st mutex. induction p as [a|e|C o k IH]; intros st mutex; cbn; [auto|done|]. intros Hp ch Hc. specialize (Hp ch Hc).
  destruct (io_step ch o st mutex) as [ [ [b st'] m']|]; [|done]. by apply IH.
Qed.
Lemma goes_catch {A} (Q : A → Store → bool → Prop) p h st mutex : goes Q p st mutex → goes Q (catch p h) st mutex.
Proof.
  revert st mutex. induction p as [a|e|C o k IH]; intros st mutex; cbn; [done..|]. intros Hp ch Hc. specialize (Hp ch Hc).
  destruct (io_step ch o st mutex) as [ [ [b st'] m']|]; [|done]. by apply IH.
Qed.
Lemma goes_withLock {A} (Q : A → Store → bool → Prop) (p : program A) st :
  goes (λ a st mutex, Q a st false) p st true → goes Q (withLock p) st false.
Proof.
  intros Hp. unfold withLock. apply goes_bind. intros ch [Hf _]. cbn. rewrite Hf. revert st Hp. generalize true.
  induction p as [a|e|C o k IH]; intros mutex st; cbn; [auto|done|]. intros Hp ch' Hc. specialize (Hp ch' Hc).
  destruct (io_step ch' o st mutex) as [ [ [b st'] m']|]; [|done]. by apply IH.
Qed.

Lemma longest_le {V} (m : gmap str V) n x : m !! n = Some x → (length n ≤ longest m)%nat.
Proof.
  intros Hn. unfold longest. assert (n ∈ elements (dom m)) as Hin by (apply elem_of_elements; by apply elem_of_dom_2 in Hn).
  induction (elements (dom m)) as [|y l IH]; [by apply elem_of_nil in Hin|]. cbn. apply elem_of_cons in Hin as [->|Hin]; [lia|]. specialize (IH Hin). lia.
Qed.
Lemma temp_name_new ch d prefix : d !! temp_name ch d prefix = None.
Proof.
  unfold temp_name. destruct (d !! (prefix ++ ch_text ch ++ temp_suffix)) eqn:E; [|done].
  destruct (d !! (prefix ++ replicate (longest d) 48 ++ temp_suffix)) eqn:E'; [|done].
  apply longest_le in E'. rewrite !length_app, length_replicate in E'. cbn in E'. lia.
Qed.
Lemma write_effect id target name c d st :
  st_dirs st !! id = Some d → d !! name = None →
  put_file id target c (remove_file id name (put_file id name c (put_file id name [] st))) = put_file id target c st.
Proof.
  intros Hd Hn. destruct st as [dirs a]. unfold put_file, remove_file, put_dirs. cbn in *. f_equal.
  apply map_eq. intros i. destruct (decide (i = id)) as [->|Hi]; [|by rewrite !lookup_alter_ne].
  rewrite !lookup_alter_eq, Hd. cbn. f_equal. rewrite insert_insert_eq. f_equal. by rewrite delete_insert_id.
Qed.

Lemma writeTextAtomic_goes id target text d st mutex (Q : unit → Store → bool → Prop) :
  st_dirs st !! id = Some d → Q tt (put_file id target (utf8 text) st) mutex → goes Q (writeTextAtomic id target text) st mutex.
Proof.
  intros Hd HQ. unfold writeTextAtomic. apply goes_bind. intros ch [Hf _]. cbn [io_step]. rewrite Hd, Hf. cbn [goes].
  set (tmp := temp_name ch d _). assert (d !! tmp = None) as Hn by apply temp_name_new.
  assert (∀ c st', st_dirs st' !! id = Some c → is_Some (st_dirs (put_file id tmp [] st') !! id)) as Hdir.
  { intros c st' E. cbn. rewrite lookup_alter_eq, E. by eexists. }
  apply goes_bind. intros ch' [Hf' _]. cbn [io_step]. destruct (Hdir d st Hd) as [d' Hd']. rewrite Hd', Hf'. cbn [goes negb].
  apply goes_bind. intros ch2 [Hf2 _]. cbn [io_step]. rewrite file_put, decide_True by (rewrite Hd'; by eauto). rewrite Hf2. cbn [goes].
  by rewrite (write_effect _ _ _ _ d).
Qed.

Lemma loadProfile_goes id toml m st mutex :
  invalid_id id = false → well_formed toml = true → metadata_ok m = true →
  file_at st id client_toml = Some (utf8 toml) → file_at st id metadata_json = Some (utf8 (json_text (JObject (toProfileJson m)))) →
  goes (λ r st' mutex', r = Some (mkProfile id toml m) ∧ st' = st ∧ mutex' = mutex) (loadProfile id) st mutex.
Proof using L.
  intros Hi Ht Hm Htoml Hmeta. unfold loadProfile, loadProfileInternal, loadProfileResult. apply goes_bind, goes_catch, goes_bind.
  unfold profileDir. fold (invalid_id id). rewrite Hi. unfold load_from. cbn [goes].
  apply goes_bind. intros ch [Hf _]. cbn [io_step goes]. rewrite Htoml, bool_decide_true by done. cbn [negb].
  apply goes_bind. intros ch1 [Hf1 _]. cbn [io_step goes]. rewrite Hmeta, bool_decide_true by done. cbn [negb].
  unfold readText. do 2 apply goes_bind. intros ch2 [Hf2 _]. cbn [io_step goes]. rewrite Htoml, Hf2. cbn [fmap option_fmap option_map goes].
  do 2 apply goes_bind. intros ch3 [Hf3 _]. cbn [io_step goes]. rewrite Hmeta, Hf3. cbn [fmap option_fmap option_map goes].
  rewrite !utf8_round_trip by auto using json_text_well_formed, metadata_json_ok. by rewrite (metadata_text_back m Hm).
Qed.

Definition saved_store (id toml : str) m st : Store :=
  mkStore (<[id := <[metadata_json := utf8 (json_text (JObject (toProfileJson m)))]> (<[client_toml := utf8 toml]> (default ∅ (st_dirs st !! id)))]> (st_dirs st))
    (Some (default id (st_active st))).

Lemma saved_files id toml m st :
  file_at (saved_store id toml m st) id client_toml = Some (utf8 toml) ∧
  file_at (saved_store id toml m st) id metadata_json = Some (utf8 (json_text (JObject (toProfileJson m)))).
Proof.
  unfold file_at. cbn [saved_store st_dirs]. rewrite lookup_insert_eq. cbn [mbind option_bind].
  split; [rewrite lookup_insert_ne by (by vm_compute); by rewrite lookup_insert_eq|by rewrite lookup_insert_eq].
Qed.

Lemma put_files id a b d st : st_dirs st !! id = Some d →
  put_file id metadata_json b (put_file id client_toml a st) = mkStore (<[id := <[metadata_json := b]> (<[client_toml := a]> d)]> (st_dirs st)) (st_active st).
Proof.
  intros Hd. unfold put_file, put_dirs. cbn. f_equal. apply map_eq. intros i. destruct (decide (i = id)) as [->|Hi].
  - by rewrite !lookup_alter_eq, Hd, lookup_insert_eq.
  - by rewrite !lookup_alter_ne, lookup_insert_ne.
Qed.

Lemma save_in_goes id clientToml m st :
  invalid_id id = false →
  goes (λ p st' _, p = mkProfile id clientToml m ∧ st' = saved_store id clientToml m st) (
    dir ← profileDir id;
    exists_ ← call (IoExists dir);
    made ← (if exists_ : bool then PRet true else call (IoMkdirs dir));
    if negb made then PThrow CouldNotCreate else
    _ ← writeTextAtomic dir client_toml clientToml;
    _ ← writeTextAtomic dir metadata_json (json_text (JObject (toProfileJson m)));
    active ← activeProfileId;
    _ ← (if decide (active = None) then setActiveProfileId (Some id) else PRet tt);
    PRet (mkProfile id clientToml m)) st true.
Proof.
  intros Hi. apply goes_bind. unfold profileDir. fold (invalid_id id). rewrite Hi. cbn [goes]. apply goes_bind. intros ch _. cbn [io_step goes].
  set (st1 := match st_dirs st !! id with Some _ => st | None => put_dirs (<[id := ∅]> (st_dirs st)) st end).
  assert (st_dirs st1 !! id = Some (default ∅ (st_dirs st !! id)) ∧ st_active st1 = st_active st ∧
    ∀ d, <[id := d]> (st_dirs st1) = <[id := d]> (st_dirs st)) as (Hd & Ha & Hins).
  { unfold st1. destruct (st_dirs st !! id) as [d|] eqn:E; [done|]. cbn. rewrite lookup_insert_eq. split_and!; [done..|].
    intros d. by rewrite insert_insert_eq. }
  apply goes_bind. apply (goes_mono (λ made st' mutex', made = true ∧ st' = st1 ∧ mutex' = true)).
  2: { unfold st1. destruct (st_dirs st !! id) as [d|] eqn:E; [by rewrite bool_decide_true|]. rewrite bool_decide_false by (by intros [? ?]).
       intros ch1 [Hf1 _]. cbn [io_step]. rewrite Hf1, E. by rewrite bool_decide_false by (by intros [? ?]). }
  intros made st' mutex' (-> & -> & ->). cbn [negb]. apply goes_bind. eapply writeTextAtomic_goes; [done|].
  apply goes_bind. eapply writeTextAtomic_goes; [cbn; by rewrite lookup_alter_eq, Hd|]. rewrite (put_files id _ _ _ st1 Hd).
  unfold activeProfileId. do 2 apply goes_bind. intros ch2 [Hf2 _]. cbn [io_step goes]. rewrite Hf2. cbn [goes st_active]. apply goes_bind.
  unfold saved_store. rewrite Hins, Ha. destruct (st_active st) as [a|]; cbn [default].
  - rewrite decide_False by done. done.
  - rewrite decide_True by done. apply goes_bind. intros ch3 [Hf3 _]. cbn [io_step]. by rewrite Hf3.
Qed.

Lemma saveProfile_goes id name clientToml metadata st :
  invalid_id (default [] id) = false →
  goes (λ p st' mutex', ∃ i, saves_to id i ∧ invalid_id i = false ∧ p = mkProfile i clientToml (named name (default (default_metadata name) metadata)) ∧
      st' = saved_store i clientToml (named name (default (default_metadata name) metadata)) st ∧ mutex' = false)
    (saveProfile id name clientToml metadata) st false.
Proof.
  intros Hi. apply goes_withLock, goes_bind. destruct id as [i|].
  - cbn [goes]. eapply goes_mono; [|by apply save_in_goes]. intros p st' _ [-> ->]. exists i. split_and!; try done. by intros x [= ->].
  - intros ch [_ Ht]. cbn [io_step goes]. eapply goes_mono; [|by apply save_in_goes]. intros p st' _ [-> ->]. by exists (ch_text ch).
Qed.

(** [st'] is [st] with the directory [d]. *)
Definition with_dir (id : str) (d : gmap str bytes) st st' : Prop := st_dirs st' = <[id := d]> (st_dirs st) ∧ st_active st' = st_active st.

Lemma delete_goes id n d st mutex (Q : bool → Store → bool → Prop) :
  st_dirs st !! id = Some d → (∀ st', with_dir id (delete n d) st st' → Q true st' mutex) → goes Q (call (IoDelete id n)) st mutex.
Proof.
  intros Hd HQ ch [Hf _]. cbn [io_step]. unfold file_at. rewrite Hd. cbn. destruct (d !! n) as [c|] eqn:En; [rewrite Hf|]; cbn; apply HQ; split; try done.
  - cbn. apply map_eq. intros i. destruct (decide (i = id)) as [->|Hi]; [by rewrite lookup_alter_eq, Hd, lookup_insert_eq|].
    by rewrite lookup_alter_ne, lookup_insert_ne.
  - by rewrite delete_id, insert_id.
Qed.

Lemma delete_files_goes id names d st mutex (Q : bool → Store → bool → Prop) :
  st_dirs st !! id = Some d →
  (∀ st' d', with_dir id d' st st' → (∀ n, d' !! n = if decide (n ∈ names) then None else d !! n) → Q true st' mutex) →
  goes Q (delete_files id names) st mutex.
Proof.
  revert d st Q. induction names as [|n names IH]; intros d st Q Hd HQ; cbn [delete_files].
  { cbn. apply (HQ st d); [by split; [rewrite insert_id|]|]. intros n. by rewrite decide_False by apply not_elem_of_nil. }
  apply goes_bind, (delete_goes id n d); [done|]. intros st1 [E1 A1]. apply goes_bind, (IH (delete n d)); [by rewrite E1, lookup_insert_eq|].
  intros st2 d2 [E2 A2] Hd2. cbn. apply (HQ st2 d2).
  - split; [by rewrite E2, E1, insert_insert_eq|congruence].
  - intros m. rewrite Hd2. destruct (decide (m = n)) as [->|Hm].
    + rewrite lookup_delete_eq, (decide_True (P := n ∈ n :: names)) by left. by destruct (decide _).
    + rewrite lookup_delete_ne by done. destruct (decide (m ∈ names)); [rewrite decide_True by (by right)|rewrite decide_False by (by intros [|]%elem_of_cons)]; done.
Qed.

Definition deleted_store (id : str) st : Store :=
  mkStore (delete id (st_dirs st)) (if decide (st_active st = Some id) then None else st_active st).

Lemma deleteProfile_goes id st mutex :
  invalid_id id = false → goes (λ _ st' mutex', st' = deleted_store id st ∧ mutex' = mutex) (deleteProfile id) st mutex.
Proof.
  intros Hi. unfold deleteProfile. apply goes_bind. unfold profileDir. fold (invalid_id id). rewrite Hi. cbn [goes]. apply goes_bind.
  apply (goes_mono (λ r st' mutex', r = true ∧ st' = mkStore (delete id (st_dirs st)) (st_active st) ∧ mutex' = mutex)).
  - intros r st' mutex' (-> & -> & ->). cbn [negb]. unfold activeProfileId. do 2 apply goes_bind. intros ch [Hf _]. cbn [io_step goes]. rewrite Hf. cbn [goes st_active].
    unfold deleted_store. destruct (decide (st_active st = Some id)); [|done]. unfold setActiveProfileId. apply goes_bind. intros ch1 [Hf1 _]. cbn [io_step]. by rewrite Hf1.
  - unfold deleteRecursively. apply goes_bind. intros ch [Hf _]. cbn [io_step goes]. apply goes_bind.
    destruct (st_dirs st !! id) as [d|] eqn:Hd.
    + apply (delete_files_goes id _ d); [done|]. intros st' d' [E A] Hd'. apply goes_bind. intros ch1 [Hf1 _]. cbn [io_step].
      rewrite E, lookup_insert_eq, Hf1, bool_decide_true; [|apply map_empty; intros n; rewrite Hd'].
      * cbn. unfold put_dirs. split; [done|]. rewrite A. split; [f_equal; apply delete_insert_eq|done].
      * destruct (decide _) as [|Hn]; [done|]. destruct (d !! n) eqn:En; [|done]. exfalso. apply Hn. apply elem_of_dom_2 in En.
        unfold listing. destruct (decide _) as [ [_ Hs]|_]; [|by apply elem_of_elements]. rewrite <- Hs in En. by apply elem_of_list_to_set in En.
    + cbn. intros ch1 _. rewrite Hd. cbn. rewrite delete_id by done. by destruct st.
Qed.
End Alone.

(** ** Theorems *)

(** C37: Profiles are never torn.  Whatever operations run at a time, whichever
    of their calls fail and whenever the process dies, the configuration and
    the metadata of a profile are each a whole text that was saved for that
    profile, or copied to it from one that was; metadata can be read.  What an
    operation returns comes from such texts, a saved profile is the one given,
    and while operations run one of them can go on. *)
Theorem profile_store_whole `{K : Casing} `{T : ProfileText} {L : ProfileTextLaws T} calls s :
  Forall (λ c, call_ok c = true) calls → sys_reachable calls s →
  (∀ id c, file_at (sy_store s) id client_toml = Some c → ∃ t, toml_from calls id t ∧ c = utf8 t ∧ utf8_read c = t) ∧
  (∀ id c, file_at (sy_store s) id metadata_json = Some c →
     ∃ m, metadata_from calls id m ∧ json_parse (utf8_read c) ≫= profileMetadataFromJson = Some m) ∧
  (∀ c r, (c, inl r) ∈ th_done s → result_from calls c r) ∧
  (th_running s ≠ ∅ → ∀ ch, ∃ i s', store_thread_step ch i s = Some s').
Proof.
  intros Hc Hs. pose proof (inv_reachable calls Hc s Hs) as Hinv. destruct (Hinv) as (vs & (Hw & Hd & _) & _). split_and!; [| |done|by intros; apply (inv_progress calls)].
  - intros id c Hf. destruct (Hw _ _ _ Hf) as [H _]. destruct (H eq_refl) as (t & Ht & ->). exists t. split_and!; [done..|].
    by eapply utf8_round_trip, toml_from_ok.
  - intros id c Hf. destruct (Hw _ _ _ Hf) as [_ H]. destruct (H eq_refl) as (m & Hm & ->). exists m. split; [done|].
    pose proof (metadata_from_ok calls id m Hc Hm) as Hok. rewrite utf8_round_trip by (by apply json_text_well_formed, metadata_json_ok).
    by apply metadata_text_back.
Qed.

(** What is saved is loaded.  An operation that runs alone, on a device
    that does not fail, ends: a save returns the profile, which a load then
    gives back with all its metadata, leaves every other profile as it was and
    makes the profile active if none was; a deletion undoes the profile, and
    then no profile is active if it was. *)
Theorem profile_round_trip `{T : ProfileText} {L : ProfileTextLaws T} id name clientToml metadata st chs chs1 chs2 :
  let m := named name (default (default_metadata name) metadata) in
  invalid_id (default [] id) = false → well_formed clientToml = true → metadata_ok m = true →
  (∀ n, favourable (chs n) ∧ favourable (chs1 n) ∧ favourable (chs2 n)) →
  ∃ i st1 st2, saves_to id i ∧ let p := mkProfile i clientToml m in
    run_alone chs (saveProfile id name clientToml metadata) st false = Some (st1, false, inl p) ∧
    run_alone chs1 (loadProfile i) st1 false = Some (st1, false, inl (Some p)) ∧
    (∀ i', i' ≠ i → st_dirs st1 !! i' = st_dirs st !! i') ∧ st_active st1 = Some (default i (st_active st)) ∧
    run_alone chs2 (deleteProfile i) st1 false = Some (st2, false, inl tt) ∧
    st_dirs st2 = delete i (st_dirs st) ∧ st_active st2 = (if decide (default i (st_active st) = i) then None else st_active st).
Proof.
  intros m Hi Ht Hm Hc. destruct (goes_run _ _ st false chs (saveProfile_goes id name clientToml metadata st Hi)) as (p & st1 & mutex & E & i & Hto & Hi' & -> & -> & ->); [apply Hc|].
  destruct (saved_files i clientToml m st) as [F1 F2].
  destruct (goes_run _ _ _ _ chs1 (loadProfile_goes i clientToml m _ false Hi' Ht Hm F1 F2)) as (r & st1 & mu & E1 & -> & -> & ->); [apply Hc|].
  destruct (goes_run _ _ _ _ chs2 (deleteProfile_goes i (saved_store i clientToml m st) false Hi')) as ([] & st2 & mu & E2 & -> & ->); [apply Hc|].
  eexists i, _, _. split; [done|]. cbv zeta. split; [exact E|]. split; [exact E1|]. split; [intros i' Hn; cbn; by rewrite lookup_insert_ne|]. split; [done|].
  split; [exact E2|]. cbn. split; [apply delete_insert_eq|]. destruct (st_active st) as [a|]; cbn; repeat case_decide; congruence.
Qed.

Module StoreDemo.
(** A text from which JSON can be read back: the digits of its number. *)
Fixpoint to_tree (j : json) : gen_tree (Z + str) :=
  match j with
  | JNull => GenNode 0 []
  | JBool b => GenNode (if b then 1 else 2) []
  | JInt n => GenLeaf (inl n)
  | JReal s => GenNode 3 [GenLeaf (inr s)]
  | JString s => GenLeaf (inr s)
  | JArray l => GenNode 4 (map to_tree l)
  | JObject l => GenNode 5 (map (λ kv, GenNode 6 [GenLeaf (inr kv.1); to_tree kv.2]) l)
  end.
Fixpoint of_tree (t : gen_tree (Z + str)) : json :=
  match t with
  | GenLeaf (inl n) => JInt n
  | GenLeaf (inr s) => JString s
  | GenNode 1 _ => JBool true
  | GenNode 2 _ => JBool false
  | GenNode 3 [GenLeaf (inr s)] => JReal s
  | GenNode 4 l => JArray (map of_tree l)
  | GenNode 5 l => JObject (map (λ t, match t with GenNode 6 [GenLeaf (inr k); v] => (k, of_tree v) | _ => ([], JNull) end) l)
  | _ => JNull
  end.
Fixpoint of_to_tree (j : json) : of_tree (to_tree j) = j.
Proof.
  destruct j as [|[]|n|s|s|l|l]; try reflexivity; cbn; f_equal.
  - induction l as [|x l IH]; [reflexivity|]. cbn. f_equal; [apply of_to_tree|exact IH].
  - induction l as [|[k v] l IH]; [reflexivity|]. cbn. f_equal; [f_equal; apply of_to_tree|exact IH].
Qed.
Fixpoint digits (p : positive) : str := match p with xH => [] | xI p => 49 :: digits p | xO p => 48 :: digits p end.
Fixpoint undigits (s : str) : positive := match s with [] => xH | c :: s => if c =? 49 then xI (undigits s) else xO (undigits s) end.
Lemma undigits_digits p : undigits (digits p) = p.
Proof. induction p as [p IH|p IH|]; cbn; by rewrite ?IH. Qed.
Lemma digits_well_formed p : well_formed (digits p) = true.
Proof. induction p as [p IH|p IH|]; done. Qed.

#[export] Instance text : ProfileText := {|
  json_text j := digits (encode (to_tree j));
  json_parse t := match of_tree <$> decode (undigits t) with Some (JObject l) => Some l | _ => None end;
  json_valueOf _ := [];
  equalsIgnoreCase a b := bool_decide (a = b);
  utf8 := id;
  utf8_read := id;
|}.
#[export] Instance text_laws : ProfileTextLaws text.
Proof.
  split; [|intros; apply digits_well_formed|done].
  intros l _. unfold json_parse, json_text, text. rewrite undigits_digits, decode_encode. cbn [fmap option_fmap option_map]. by rewrite of_to_tree.
Qed.
#[export] Instance casing : Casing := {| lowercase := id |}.

Definition id0 : str := bytes_of_string "0".
Definition toml : str := bytes_of_string "[server]".
Definition metadata : ProfileMetadata := mkMetadata [] [mkRule (bytes_of_string "10.0.0.0/8") true] (mkDns DnsCustom [bytes_of_string "9.9.9.9"]) [] (mkAppRules Allowlist [bytes_of_string "a.b"]).
Definition calls : list store_call := [CSaveProfile (Some id0) (bytes_of_string "Home") toml (Some metadata); CDeleteProfile id0].

(** A save, and a deletion that begins. *)
Definition started : Sys := mkThreads (Store_new, false) (<[1%nat := (CDeleteProfile id0, call_prog (CDeleteProfile id0))]> (<[0%nat := (CSaveProfile (Some id0) (bytes_of_string "Home") toml (Some metadata), call_prog (CSaveProfile (Some id0) (bytes_of_string "Home") toml (Some metadata)))]> ∅)) [].
Lemma started_reachable : sys_reachable calls started.
Proof.
  unfold started. eapply rtc_r; [apply rtc_once, (step_start _ _ _ _ _ _ Sys_new (CSaveProfile (Some id0) (bytes_of_string "Home") toml (Some metadata)) 0); [left|reflexivity]|].
  apply (step_start _ _ _ _ _ _ (mkThreads (Store_new, false) _ []) (CDeleteProfile id0) 1); [right; left|reflexivity].
Qed.
(** The configuration is there, the metadata is not yet. *)
Definition steps : list (choice * nat) := pair (mkChoice false 0 (bytes_of_string "7") []) <$> [0; 0; 1; 0; 0; 0; 0; 0]%nat.
Definition run : option Sys := schedule device_step (λ _ d, d) steps started.
End StoreDemo.

Lemma profile_store_whole_witness :
  ∃ s, sys_reachable (K := StoreDemo.casing) (T := StoreDemo.text) StoreDemo.calls s ∧
    file_at (sy_store s) StoreDemo.id0 client_toml = Some StoreDemo.toml ∧ file_at (sy_store s) StoreDemo.id0 metadata_json = None ∧
    (∃ t, toml_from StoreDemo.calls StoreDemo.id0 t ∧ t = StoreDemo.toml) ∧
    ∀ ch, ∃ i s', store_thread_step (T := StoreDemo.text) ch i s = Some s'.
Proof.
  destruct StoreDemo.run as [s|] eqn:E; [|exfalso; apply (f_equal (λ o, match o with Some _ => true | None => false end)) in E; vm_compute in E; discriminate E].
  assert (sys_reachable (K := StoreDemo.casing) (T := StoreDemo.text) StoreDemo.calls s) as Hs.
  { unfold sys_reachable. etransitivity; [exact StoreDemo.started_reachable|]. by eapply schedule_reachable. }
  destruct (profile_store_whole (K := StoreDemo.casing) (L := StoreDemo.text_laws) StoreDemo.calls s) as (H1 & _ & _ & H4); [|exact Hs|].
  { apply Forall_cons_2; [vm_compute; reflexivity|]. apply Forall_cons_2; [vm_compute; reflexivity|]. apply Forall_nil_2. }
  assert (file_at (sy_store s) StoreDemo.id0 client_toml = Some StoreDemo.toml) as Hf.
  { apply (f_equal (λ o, o ≫= λ s, file_at (sy_store s) StoreDemo.id0 client_toml)) in E. vm_compute in E. symmetry. exact E. }
  exists s. split; [exact Hs|]. split; [exact Hf|]. split; [|split].
  - apply (f_equal (λ o, o ≫= λ s, file_at (sy_store s) StoreDemo.id0 metadata_json)) in E. vm_compute in E. symmetry. exact E.
  - destruct (H1 _ _ Hf) as (t & Ht & E' & _). exists t. split; [exact Ht|]. symmetry. exact E'.
  - apply H4. intros Hempty. assert (fst <$> th_running s !! 1%nat = Some (CDeleteProfile StoreDemo.id0)) as Ht.
    { apply (f_equal (λ o, o ≫= λ s, fst <$> th_running s !! 1%nat)) in E. vm_compute in E. symmetry. exact E. }
    rewrite Hempty in Ht. vm_compute in Ht. discriminate Ht.
Defined.

Lemma profile_round_trip_witness :
  ∃ i st1, run_alone (T := StoreDemo.text) (λ _, mkChoice false 0 (bytes_of_string "7") [])
      (saveProfile (T := StoreDemo.text) None (bytes_of_string "Home") StoreDemo.toml (Some StoreDemo.metadata)) Store_new false =
      Some (st1, false, inl (mkProfile i StoreDemo.toml (named (bytes_of_string "Home") StoreDemo.metadata))) ∧
    i = bytes_of_string "7" ∧ st_active st1 = Some i.
Proof.
  destruct (profile_round_trip (L := StoreDemo.text_laws) None (bytes_of_string "Home") StoreDemo.toml (Some StoreDemo.metadata) Store_new
    (λ _, mkChoice false 0 (bytes_of_string "7") []) (λ _, mkChoice false 0 (bytes_of_string "7") []) (λ _, mkChoice false 0 (bytes_of_string "7") []))
    as (i & st1 & st2 & _ & E & _ & _ & Ha & _); [reflexivity|reflexivity|reflexivity|intros n; repeat split; reflexivity|].
  exists i, st1. split; [exact E|]. split; [|rewrite Ha; reflexivity].
  apply (f_equal (λ o, match o with Some (_, _, inl p) => sp_id p | _ => [] end)) in E. vm_compute in E. symmetry. exact E.
Defined.
