(* ===== verification/ProfileEditor.v ===== *)
(** * Saving a profile in the Android app
      ([android/.../ui/profile/ProfileEditorActions.kt],
      [.../ui/profile/ProfileEditorState.kt], [.../profile/rules/TestUrlRules.kt],
      [.../profile/rules/AppVpnRulesRules.kt], [.../SltNative.kt],
      [slt-client/src/android/uniffi_api.rs])

    The editor of a profile is a form of texts.  Before it is saved, each text
    is parsed and replaced by its canonical form, and the client configuration
    is validated by the native library; the first problem blocks the save and
    is shown.  The VPN service reads the profile later, without the editor, and
    parses it again ([VpnPlan.v], [VpnService.v]).

    Letters, lower case and [java.net.URI] are parameters.  The text of a
    message that comes from an exception is the exception. *)

From Stdlib Require Import Ascii String.
From stdpp Require Import base tactics option list numbers sets sorting.
From Stdlib Require Import ZArith Lia.
From S2P Require Import Prelude IpPacket Config Auth AddClient VpnService NativeSession RouteRules VpnPlan ProfileStore.

(** ** Parameters *)
Class JavaChars := { isLetter : Z → bool; isLetterOrDigit : Z → bool }.

(** What [URI(text)] gives, [None] when it throws; [uri_port] is [-1] when
    there is none. *)
Record UriParts := mkUri {
  uri_scheme : option str;
  uri_host : option str;
  uri_rawUserInfo : option str;
  uri_port : Z;
  uri_path : option str;
  uri_query : option str;
  uri_fragment : option str;
}.

(** [build_uri] is [toASCIIString] of the constructor with seven arguments. *)
Class JavaUri := {
  parse_uri : str → option UriParts;
  build_uri (scheme host : str) (port : Z) (path query fragment : option str) : option str;
}.

(** ** Apps ([AppVpnRulesRules.kt]) *)
Inductive AppError :=
  | AppEmpty (ordinal : Z) | AppTooLong (name : str) | AppNoDot (name : str) | AppEmptySegment (name : str)
  | AppBadStart (name : str) | AppBadCharacter (name : str).

Section Apps.
Context `{J : Jvm} `{C : JavaChars}.

Definition android_package : str := bytes_of_string "android".

Fixpoint check_segments (name : str) (segments : list str) : res AppError unit :=
  match segments with
  | [] => Ok tt
  | segment :: segments =>
      _ ← require (negb (bool_decide (segment = []))) (AppEmptySegment name);
      _ ← require (match head segment with Some c => isLetter c | None => false end) (AppBadStart name);
      _ ← require (forallb (λ c, isLetterOrDigit c || (c =? 95)) segment) (AppBadCharacter name);
      check_segments name segments
  end.

Definition normalizePackageName (packageName : str) (ordinal : Z) : res AppError str :=
  let trimmed := trim packageName in
  _ ← require (negb (bool_decide (trimmed = []))) (AppEmpty ordinal);
  _ ← require (zlen trimmed <=? 255) (AppTooLong trimmed);
  if bool_decide (trimmed = android_package) then Ok trimmed else
  let segments := split DOT trimmed in
  _ ← require (2 <=? zlen segments) (AppNoDot trimmed);
  _ ← check_segments trimmed segments;
  Ok trimmed.

(** [mapIndexed] from [ordinal]. *)
Fixpoint normalize_packages (ordinal : Z) (packageNames : list str) : res AppError (list str) :=
  match packageNames with
  | [] => Ok []
  | packageName :: packageNames =>
      p ← normalizePackageName packageName ordinal;
      rest ← normalize_packages (ordinal + 1) packageNames;
      Ok (p :: rest)
  end.

Definition normalizeAppVpnRules (mode : AppVpnMode) (packageNames : list str) (ownPackageName : str) : res AppError AppVpnRules :=
  if bool_decide (mode = AppsAll) then Ok (mkAppRules AppsAll []) else
  packages ← normalize_packages 1 packageNames;
  let normalizedPackages := List.filter (λ p, negb (bool_decide (p = ownPackageName))) (distinct packages) in
  Ok (match mode with
      | AppsAll => mkAppRules AppsAll []
      | Allowlist => mkAppRules Allowlist normalizedPackages
      | Blocklist => mkAppRules Blocklist normalizedPackages
      end).
End Apps.

(** ** Test URLs ([TestUrlRules.kt]) *)
Inductive UrlError := UrlNotValid (line : Z) | UrlScheme (line : Z) | UrlNoHost (line : Z) | UrlCredentials (line : Z).

Section Urls.
Context `{J : Jvm} `{K : Casing} `{U : JavaUri}.

Definition http : str := bytes_of_string "http".
Definition https : str := bytes_of_string "https".

Definition isNullOrBlank (s : option str) : bool := match s with Some s => isBlank s | None => true end.
Definition ifEmpty_null (s : option str) : option str := match s with Some [] | None => None | Some s => Some s end.

(** The default port of a scheme is left out. *)
Definition url_port (scheme : option str) (port : Z) : Z :=
  if bool_decide (scheme = Some http) && (port =? 80) then -1
  else if bool_decide (scheme = Some https) && (port =? 443) then -1
  else port.

(** The exception of the constructor at the end is not an
    [IllegalArgumentException], and nothing catches it. *)
Definition normalizeTestUrl (url : str) (lineNumber : Z) : res UrlError str :=
  match parse_uri url with
  | None => Err (UrlNotValid lineNumber)
  | Some uri =>
      let scheme := lowercase <$> uri_scheme uri in
      _ ← require (bool_decide (scheme = Some http) || bool_decide (scheme = Some https)) (UrlScheme lineNumber);
      _ ← require (negb (isNullOrBlank (uri_host uri))) (UrlNoHost lineNumber);
      _ ← require (bool_decide (uri_rawUserInfo uri = None)) (UrlCredentials lineNumber);
      let port := url_port scheme (uri_port uri) in
      match build_uri (default [] scheme) (lowercase (default [] (uri_host uri))) port (ifEmpty_null (uri_path uri))
              (uri_query uri) (uri_fragment uri) with
      | Some text => Ok text
      | None => Panic
      end
  end.

Fixpoint parse_url_lines (lineNumber : Z) (lines urls : list str) : res UrlError (list str) :=
  match lines with
  | [] => Ok urls
  | rawLine :: lines =>
      let line := trim rawLine in
      if bool_decide (line = []) then parse_url_lines (lineNumber + 1) lines urls else
      url ← normalizeTestUrl line lineNumber;
      parse_url_lines (lineNumber + 1) lines (set_add urls url)
  end.
Definition parseTestUrls (text : str) : res UrlError (list str) := parse_url_lines 1 (lineSequence text) [].
Definition exportTestUrls (urls : list str) : str := joinToString 10 urls.
End Urls.

(** ** Messages ([UiMessages.kt]) and the form ([ProfileEditorState.kt]) *)
Inductive message_text :=
  | TText (s : str) | TRoutesReady (n : Z) | TDnsReady (n : Z) | TUrlsReady (n : Z) | TAppsReady (rules : AppVpnRules)
  | TRouteError (e : RouteError) | TDnsError (e : DnsError) | TAppError (e : AppError) | TUrlError (e : UrlError).
Inductive UiMessageSeverity := Info | Warning | Error.
Record UiMessage := mkMessage { um_text : message_text; um_severity : UiMessageSeverity }.
Definition info (t : message_text) : UiMessage := mkMessage t Info.
Definition warning (t : message_text) : UiMessage := mkMessage t Warning.
Definition error (t : message_text) : UiMessage := mkMessage t Error.
Definition text (s : String.string) : message_text := TText (bytes_of_string s).

(** The address and the client's identifier are not printed. *)
Record ClientConfigSummary := mkSummary {
  cs_assigned_ipv4 : Ipv4Addr;
  cs_tun_mtu : Z;
  cs_server_host : bytes;
  cs_server_port : Z;
  cs_client_id : bytes;
}.
Inductive ConfigValidationResult := Valid (summary : ClientConfigSummary) | Invalid (message : str).

Inductive ProfileEditorNestedScreen := TomlScreen | RoutesScreen | DnsScreen | AppsScreen | TestUrlsScreen.
Record ProfileEditorState := mkForm {
  es_sourceMetadata : option ProfileMetadata;
  es_name : str;
  es_toml : str;
  es_routeText : str;
  es_routeMessage : option UiMessage;
  es_dnsMode : DnsMode;
  es_dnsText : str;
  es_dnsMessage : option UiMessage;
  es_appMode : AppVpnMode;
  es_selectedPackageNames : list str;
  es_appMessage : option UiMessage;
  es_testUrlsText : str;
  es_testUrlsMessage : option UiMessage;
  es_validation : option ConfigValidationResult;
  es_message : option UiMessage;
  es_activeNestedScreen : option ProfileEditorNestedScreen;
}.
Definition ProfileEditorState_new : ProfileEditorState :=
  mkForm None [] [] [] None DnsSystem [] None AppsAll [] None [] None None None None.

(** [copy] of one field. *)
Definition with_name (x : str) (f : ProfileEditorState) : ProfileEditorState :=
  mkForm (es_sourceMetadata f) x (es_toml f) (es_routeText f) (es_routeMessage f) (es_dnsMode f) (es_dnsText f)
    (es_dnsMessage f) (es_appMode f) (es_selectedPackageNames f) (es_appMessage f) (es_testUrlsText f)
    (es_testUrlsMessage f) (es_validation f) (es_message f) (es_activeNestedScreen f).
Definition with_toml (x : str) (f : ProfileEditorState) : ProfileEditorState :=
  mkForm (es_sourceMetadata f) (es_name f) x (es_routeText f) (es_routeMessage f) (es_dnsMode f) (es_dnsText f)
    (es_dnsMessage f) (es_appMode f) (es_selectedPackageNames f) (es_appMessage f) (es_testUrlsText f)
    (es_testUrlsMessage f) (es_validation f) (es_message f) (es_activeNestedScreen f).
Definition with_routeText (x : str) (f : ProfileEditorState) : ProfileEditorState :=
  mkForm (es_sourceMetadata f) (es_name f) (es_toml f) x (es_routeMessage f) (es_dnsMode f) (es_dnsText f)
    (es_dnsMessage f) (es_appMode f) (es_selectedPackageNames f) (es_appMessage f) (es_testUrlsText f)
    (es_testUrlsMessage f) (es_validation f) (es_message f) (es_activeNestedScreen f).
Definition with_routeMessage (x : option UiMessage) (f : ProfileEditorState) : ProfileEditorState :=
  mkForm (es_sourceMetadata f) (es_name f) (es_toml f) (es_routeText f) x (es_dnsMode f) (es_dnsText f)
    (es_dnsMessage f) (es_appMode f) (es_selectedPackageNames f) (es_appMessage f) (es_testUrlsText f)
    (es_testUrlsMessage f) (es_validation f) (es_message f) (es_activeNestedScreen f).
Definition with_dnsMode (x : DnsMode) (f : ProfileEditorState) : ProfileEditorState :=
  mkForm (es_sourceMetadata f) (es_name f) (es_toml f) (es_routeText f) (es_routeMessage f) x (es_dnsText f)
    (es_dnsMessage f) (es_appMode f) (es_selectedPackageNames f) (es_appMessage f) (es_testUrlsText f)
    (es_testUrlsMessage f) (es_validation f) (es_message f) (es_activeNestedScreen f).
Definition with_dnsText (x : str) (f : ProfileEditorState) : ProfileEditorState :=
  mkForm (es_sourceMetadata f) (es_name f) (es_toml f) (es_routeText f) (es_routeMessage f) (es_dnsMode f) x
    (es_dnsMessage f) (es_appMode f) (es_selectedPackageNames f) (es_appMessage f) (es_testUrlsText f)
    (es_testUrlsMessage f) (es_validation f) (es_message f) (es_activeNestedScreen f).
Definition with_dnsMessage (x : option UiMessage) (f : ProfileEditorState) : ProfileEditorState :=
  mkForm (es_sourceMetadata f) (es_name f) (es_toml f) (es_routeText f) (es_routeMessage f) (es_dnsMode f)
    (es_dnsText f) x (es_appMode f) (es_selectedPackageNames f) (es_appMessage f) (es_testUrlsText f)
    (es_testUrlsMessage f) (es_validation f) (es_message f) (es_activeNestedScreen f).
Definition with_appMode (x : AppVpnMode) (f : ProfileEditorState) : ProfileEditorState :=
  mkForm (es_sourceMetadata f) (es_name f) (es_toml f) (es_routeText f) (es_routeMessage f) (es_dnsMode f)
    (es_dnsText f) (es_dnsMessage f) x (es_selectedPackageNames f) (es_appMessage f) (es_testUrlsText f)
    (es_testUrlsMessage f) (es_validation f) (es_message f) (es_activeNestedScreen f).
Definition with_selectedPackageNames (x : list str) (f : ProfileEditorState) : ProfileEditorState :=
  mkForm (es_sourceMetadata f) (es_name f) (es_toml f) (es_routeText f) (es_routeMessage f) (es_dnsMode f)
    (es_dnsText f) (es_dnsMessage f) (es_appMode f) x (es_appMessage f) (es_testUrlsText f) (es_testUrlsMessage f)
    (es_validation f) (es_message f) (es_activeNestedScreen f).
Definition with_appMessage (x : option UiMessage) (f : ProfileEditorState) : ProfileEditorState :=
  mkForm (es_sourceMetadata f) (es_name f) (es_toml f) (es_routeText f) (es_routeMessage f) (es_dnsMode f)
    (es_dnsText f) (es_dnsMessage f) (es_appMode f) (es_selectedPackageNames f) x (es_testUrlsText f)
    (es_testUrlsMessage f) (es_validation f) (es_message f) (es_activeNestedScreen f).
Definition with_testUrlsText (x : str) (f : ProfileEditorState) : ProfileEditorState :=
  mkForm (es_sourceMetadata f) (es_name f) (es_toml f) (es_routeText f) (es_routeMessage f) (es_dnsMode f)
    (es_dnsText f) (es_dnsMessage f) (es_appMode f) (es_selectedPackageNames f) (es_appMessage f) x
    (es_testUrlsMessage f) (es_validation f) (es_message f) (es_activeNestedScreen f).
Definition with_testUrlsMessage (x : option UiMessage) (f : ProfileEditorState) : ProfileEditorState :=
  mkForm (es_sourceMetadata f) (es_name f) (es_toml f) (es_routeText f) (es_routeMessage f) (es_dnsMode f)
    (es_dnsText f) (es_dnsMessage f) (es_appMode f) (es_selectedPackageNames f) (es_appMessage f) (es_testUrlsText f)
    x (es_validation f) (es_message f) (es_activeNestedScreen f).
Definition with_validation (x : option ConfigValidationResult) (f : ProfileEditorState) : ProfileEditorState :=
  mkForm (es_sourceMetadata f) (es_name f) (es_toml f) (es_routeText f) (es_routeMessage f) (es_dnsMode f)
    (es_dnsText f) (es_dnsMessage f) (es_appMode f) (es_selectedPackageNames f) (es_appMessage f) (es_testUrlsText f)
    (es_testUrlsMessage f) x (es_message f) (es_activeNestedScreen f).
Definition with_message (x : option UiMessage) (f : ProfileEditorState) : ProfileEditorState :=
  mkForm (es_sourceMetadata f) (es_name f) (es_toml f) (es_routeText f) (es_routeMessage f) (es_dnsMode f)
    (es_dnsText f) (es_dnsMessage f) (es_appMode f) (es_selectedPackageNames f) (es_appMessage f) (es_testUrlsText f)
    (es_testUrlsMessage f) (es_validation f) x (es_activeNestedScreen f).
Definition with_activeNestedScreen (x : option ProfileEditorNestedScreen) (f : ProfileEditorState) : ProfileEditorState :=
  mkForm (es_sourceMetadata f) (es_name f) (es_toml f) (es_routeText f) (es_routeMessage f) (es_dnsMode f)
    (es_dnsText f) (es_dnsMessage f) (es_appMode f) (es_selectedPackageNames f) (es_appMessage f) (es_testUrlsText f)
    (es_testUrlsMessage f) (es_validation f) (es_message f) x.

Definition withClosedNestedScreen (f : ProfileEditorState) : ProfileEditorState := with_message None (with_activeNestedScreen None f).

(** ** Validation of the configuration ([SltNative.validateClientConfig],
       [validate_client_config]) *)

(** [ffi_string] encodes a string for the native library. *)
Class Ffi := { ffi_string : str → bytes; config_error : bytes → str }.

Section Validate.
Context `{T : Toml} `{N : Ffi}.

Definition ClientConfigSummary_try_from (config : ClientConfig) : ClientConfigSummary :=
  mkSummary (assigned_ipv4 (cc_identity config)) (tun_mtu (cc_tun config)) (hostname (cc_network config)) (port (cc_network config))
    (client_id (cc_identity config)).

Definition validate_client_config (config_toml : bytes) : option ClientConfigSummary :=
  ClientConfigSummary_try_from <$> ClientConfig_from_toml_str config_toml.

(** [config_error] is the detail of the error, or the default for a blank one. *)
Definition validateClientConfig (configToml : str) : ConfigValidationResult :=
  match validate_client_config (ffi_string configToml) with
  | Some summary => Valid summary
  | None => Invalid (config_error (ffi_string configToml))
  end.
End Validate.

(** ** Saving ([ProfileEditorActions.kt]) *)
Inductive ProfileEditorActionResult (X : Type) :=
  | ASuccess (state : ProfileEditorState) (value : X)
  | AFailure (state : ProfileEditorState).
Arguments ASuccess {X}.
Arguments AFailure {X}.

Inductive ProfileEditorSaveResult :=
  | Ready (state : ProfileEditorState) (name clientToml : str) (metadata : ProfileMetadata)
  | Blocked (state : ProfileEditorState).

Section Save.
Context `{J : Jvm} `{C : JavaChars} `{K : Casing} `{U : JavaUri} `{T : Toml} `{N : Ffi}.
Abbreviation M := (res unit).

Definition validateProfileEditorToml (state : ProfileEditorState) : ProfileEditorState * ConfigValidationResult :=
  let result := validateClientConfig (es_toml state) in
  (with_message (Some (match result with
                       | Valid _ => info (text "Config is valid")
                       | Invalid message => error (TText message)
                       end)) (with_validation (Some result) state), result).

(** [Panic] is an exception that is not caught. *)
Definition parseProfileEditorRoutesForSave (state : ProfileEditorState) : M (ProfileEditorActionResult (list VpnRouteRule)) :=
  let failure message := AFailure (with_message (Some message) (with_routeMessage (Some message) state)) in
  match parseVpnRouteRules (es_routeText state) with
  | Ok routes =>
      Ok (if bool_decide (routes = []) then failure (error (text "At least one VPN route is required"))
          else ASuccess (with_routeMessage (Some (info (TRoutesReady (zlen routes))))
                           (with_routeText (exportVpnRouteRules routes) state)) routes)
  | Err e => Ok (failure (error (TRouteError e)))
  | Panic => Panic
  end.

Definition parseProfileEditorDnsForSave (state : ProfileEditorState) (routes : option (list VpnRouteRule))
    : M (ProfileEditorActionResult DnsSettings) :=
  let failure message := AFailure (with_message (Some message) (with_dnsMessage (Some message) state)) in
  match parseDnsSettings (es_dnsMode state) (es_dnsText state) with
  | Ok dns =>
      match (match routes with Some routes => dnsExcludedRouteWarnings routes dns | None => Ok [] end) with
      | Ok warnings =>
          let dnsMessage :=
            match head warnings with
            | Some w => warning (TText w)
            | None => info (match dn_mode dns with DnsSystem => text "System DNS ready" | DnsCustom => TDnsReady (zlen (dn_servers dns)) end)
            end in
          Ok (ASuccess (with_dnsMessage (Some dnsMessage) (with_dnsText (exportDnsServers (dn_servers dns)) state)) dns)
      | Err e => Ok (failure (error (TRouteError e)))
      | Panic => Panic
      end
  | Err e => Ok (failure (error (TDnsError e)))
  | Panic => Panic
  end.

Definition normalizeProfileEditorAppsForSave (state : ProfileEditorState) (ownPackageName : str)
    : M (ProfileEditorActionResult AppVpnRules) :=
  match normalizeAppVpnRules (es_appMode state) (es_selectedPackageNames state) ownPackageName with
  | Ok rules =>
      Ok (ASuccess (with_appMessage (Some (info (TAppsReady rules)))
                      (with_selectedPackageNames (ar_packageNames rules) (with_appMode (ar_mode rules) state))) rules)
  | Err e => Ok (AFailure (with_message (Some (error (TAppError e))) (with_appMessage (Some (error (TAppError e))) state)))
  | Panic => Panic
  end.

Definition parseProfileEditorTestUrlsForSave (state : ProfileEditorState) : M (ProfileEditorActionResult (list str)) :=
  match parseTestUrls (es_testUrlsText state) with
  | Ok urls =>
      let message := if bool_decide (urls = []) then text "No test URLs configured" else TUrlsReady (zlen urls) in
      Ok (ASuccess (with_testUrlsMessage (Some (info message)) (with_testUrlsText (exportTestUrls urls) state)) urls)
  | Err e => Ok (AFailure (with_message (Some (error (TUrlError e))) (with_testUrlsMessage (Some (error (TUrlError e))) state)))
  | Panic => Panic
  end.

(** [when (val result = ...)] with an early return. *)
Definition proceed {X} (r : M (ProfileEditorActionResult X)) (k : ProfileEditorState → X → M ProfileEditorSaveResult) : M ProfileEditorSaveResult :=
  result ← r;
  match result with
  | ASuccess state value => k state value
  | AFailure state => Ok (Blocked state)
  end.

Definition prepareProfileEditorSave (state : ProfileEditorState) (ownPackageName : str) : M ProfileEditorSaveResult :=
  let trimmedName := trim (es_name state) in
  if bool_decide (trimmedName = []) then Ok (Blocked (with_message (Some (error (text "Profile name is required"))) state)) else
  let '(currentState, validation) := validateProfileEditorToml state in
  match validation with
  | Invalid _ => Ok (Blocked currentState)
  | Valid _ =>
      proceed (parseProfileEditorRoutesForSave currentState) (λ currentState routes,
      proceed (parseProfileEditorDnsForSave currentState (Some routes)) (λ currentState dns,
      proceed (normalizeProfileEditorAppsForSave currentState ownPackageName) (λ currentState appRules,
      proceed (parseProfileEditorTestUrlsForSave currentState) (λ currentState testUrls,
      Ok (Ready currentState trimmedName (es_toml state) (mkMetadata trimmedName routes dns testUrls appRules))))))
  end.

Definition profileEditorStateFrom (profile : SltProfile) : ProfileEditorState :=
  let m := sp_metadata profile in
  mkForm (Some m) (pm_name m) (sp_clientToml profile) (exportVpnRouteRules (pm_routes m)) None
    (dn_mode (pm_dns m)) (exportDnsServers (dn_servers (pm_dns m))) None
    (ar_mode (pm_appRules m)) (ar_packageNames (pm_appRules m)) None (exportTestUrls (pm_testUrls m)) None None None None.
End Save.

(** ** Canonical texts *)
Section Canonical.
Context `{J : Jvm} {L : JvmLaws J}.

Lemma trimStart_suffix s : ∃ p, s = p ++ trimStart s.
Proof.
  induction s as [|c s [p IH] ]; [by exists []|]. cbn. destruct (isWhitespace c); [|by exists []]. exists (c :: p). cbn. by rewrite <- IH.
Qed.

Lemma trimStart_twice s : trimStart (trimStart s) = trimStart s.
Proof. induction s as [|c s IH]; [done|]. cbn. destruct (isWhitespace c) eqn:E; [done|]. cbn. by rewrite E. Qed.

Lemma trim_twice s : trim (trim s) = trim s.
Proof.
  unfold trim. set (a := trimStart s). assert (trimStart (reverse (trimStart (reverse a))) = reverse (trimStart (reverse a))) as ->.
  { destruct (trimStart_suffix (reverse a)) as [p Hp]. destruct (reverse (trimStart (reverse a))) as [|c t] eqn:Et; [done|].
    assert (a = (c :: t) ++ reverse p) as Ea by (rewrite <- Et, <- reverse_app, <- Hp; by rewrite reverse_involutive).
    cbn. destruct (trimStart_head s) as [E0|(c' & t' & E0 & Hc)]; fold a in E0; rewrite E0 in Ea; [done|].
    injection Ea as -> ->. by rewrite Hc. }
  by rewrite reverse_involutive, trimStart_twice.
Qed.

(** *** DNS servers *)
Lemma dns_octets_eq n m octets b : octets_bytes n octets = Ok b → dns_octets m octets = Ok b.
Proof.
  revert b. induction octets as [|o octets IH]; intros b; cbn [dns_octets octets_bytes]; [by intros [= <-]|].
  unfold require at 1 3. destruct (_ && _); [|done]. res_simpl. destruct (toIntOrNull o); [|done]. res_simpl.
  unfold require. destruct (_ && _); [|done]. res_simpl. destruct (octets_bytes n octets) as [b'| |]; [|done..]. res_simpl.
  intros [= <-]. by rewrite (IH b' eq_refl).
Qed.

Lemma host_text_chars b : ip4 b → host_text b ≠ [] ∧ Forall (λ c, 46 ≤ c ≤ 57) (host_text b).
Proof.
  intros [Hb Hl]. split.
  - destruct b as [|x [|y b] ]; [done..|]. unfold host_text. cbn. intros [_ ?]%app_eq_nil. done.
  - eapply Forall_impl; [by apply host_chars|]. intros c. unfold DOT. cbn. lia.
Qed.

Lemma parse_host_server b n : ip4 b → parseNumericDnsServer (host_text b) n = Ok (host_text b).
Proof using L.
  intros Hb. pose proof (host_text_parsed b n Hb) as H. destruct (host_text_chars b Hb) as [_ Hc].
  assert (bool_decide (COLON ∈ host_text b) = false) as Ec.
  { apply bool_decide_eq_false_2. intros Hin. eapply Forall_forall in Hc; [|exact Hin]. unfold COLON in Hc. lia. }
  revert H. unfold parseNumericAddress, parseNumericDnsServer. rewrite Ec.
  unfold require. destruct (bool_decide (DOT ∈ host_text b)); res_simpl; [|done].
  destruct (forallb _ _); res_simpl; [|done]. destruct (_ =? 4); res_simpl; [|done].
  destruct (octets_bytes n _) as [b'| |] eqn:E; res_simpl; [|done..]. intros [= ->]. rewrite (dns_octets_eq _ n _ _ E). by res_simpl.
Qed.

Lemma split_where_none p s : Forall (λ c, p c = false) s → split_where p s = (s, []).
Proof. induction 1 as [|c s Hc _ IH]; [done|]. cbn. by rewrite IH, Hc. Qed.

Lemma dns_words_host b : ip4 b → dns_words (host_text b) = [host_text b].
Proof using L.
  intros Hb. destruct (host_text_chars b Hb) as [Hne Hc]. unfold dns_words. rewrite takeUntil_id, trim_id.
  - rewrite split_where_none; [cbn; by rewrite bool_decide_eq_false_2|]. eapply Forall_impl; [exact Hc|]. intros c Hr. cbn in Hr. unfold is_separator.
    rewrite !(proj2 (Z.eqb_neq c _)), (proj2 (Z.leb_gt c 13)) by lia. by rewrite andb_false_r.
  - eapply Forall_impl; [exact Hc|]. intros c ?. apply whitespace_graphic. cbn in *. lia.
  - intros Hin. eapply Forall_forall in Hc; [|exact Hin]. unfold HASH in Hc. lia.
Qed.

Lemma parse_host_lines n bs before :
  Forall ip4 (before ++ bs) → NoDup (before ++ bs) →
  parse_dns_lines n (host_text <$> bs) (host_text <$> before) = Ok (host_text <$> before ++ bs).
Proof using L.
  revert n before. induction bs as [|b bs IH]; intros n before Hb Hd; [by rewrite app_nil_r|].
  rewrite fmap_cons. cbn [parse_dns_lines]. pose proof Hb as Hb'. apply Forall_app in Hb' as [Hbefore [Hi _]%Forall_cons_1].
  rewrite dns_words_host by done. cbn [add_servers]. rewrite parse_host_server by done. res_simpl. unfold set_add.
  rewrite bool_decide_eq_false_2.
  - replace (_ ++ [host_text b]) with (host_text <$> before ++ [b]) by (by rewrite fmap_app).
    rewrite IH; by rewrite <- app_assoc.
  - intros (x & E & Hx)%list_elem_of_fmap. apply host_text_inj in E as ->; [|done|by rewrite Forall_forall in Hbefore; apply Hbefore].
    apply NoDup_app in Hd as (_ & Hd & _). apply (Hd x Hx). by left.
Qed.

Lemma dns_roundtrip mode t dns :
  parseDnsSettings mode t = Ok dns → parseDnsSettings (dn_mode dns) (exportDnsServers (dn_servers dns)) = Ok dns.
Proof using L.
  intros H. destruct (parse_settings_ok _ _ _ H) as (Em & (bs & Es & Hb & Hd) & Hempty). destruct dns as [m servers]. cbn in *. subst m servers.
  unfold parseDnsSettings. destruct mode; [by rewrite (proj2 Hempty eq_refl)|].
  destruct bs as [|b bs]; [by destruct Hempty as [He _]; specialize (He eq_refl)|]. unfold parseDnsServers, exportDnsServers. rewrite fmap_cons, lines_joined, <- fmap_cons.
  - pose proof (parse_host_lines 1 (b :: bs) [] Hb Hd) as E. cbn [app fmap list_fmap] in E |- *. rewrite E. res_simpl. by rewrite bool_decide_eq_false_2.
  - rewrite <- fmap_cons. apply Forall_fmap. eapply Forall_impl; [exact Hb|]. intros x Hx. destruct (host_text_chars x Hx) as [_ Hc].
    split; intros Hin; eapply Forall_forall in Hc; try exact Hin; lia.
Qed.
End Canonical.

(** *** Apps *)
Section CanonicalApps.
Context `{J : Jvm} `{C : JavaChars}.

Lemma package_canonical p n q m : normalizePackageName p n = Ok q → normalizePackageName q m = Ok q.
Proof.
  unfold normalizePackageName, require. destruct (negb _) eqn:E1; res_simpl; [|done].
  destruct (zlen _ <=? 255) eqn:E2; res_simpl; [|done]. destruct (bool_decide (trim p = android_package)) eqn:E3.
  { intros [= <-]. rewrite trim_twice, E1, E2. res_simpl. by rewrite E3. }
  destruct (2 <=? _) eqn:E4; res_simpl; [|done]. destruct (check_segments _ _) as [ []| |] eqn:E5; res_simpl; [|done..].
  intros [= <-]. rewrite trim_twice, E1, E2. res_simpl. rewrite E3, E4. res_simpl. rewrite E5. by res_simpl.
Qed.

Definition package_ok (q : str) : Prop := ∀ m, normalizePackageName q m = Ok q.

Lemma packages_canonical n ps qs : normalize_packages n ps = Ok qs → Forall package_ok qs.
Proof.
  revert n qs. induction ps as [|p ps IH]; intros n qs; cbn [normalize_packages]; [intros [= <-]; constructor|].
  destruct (normalizePackageName p n) as [q| |] eqn:E; res_simpl; [|done..].
  destruct (normalize_packages (n + 1) ps) as [qs'| |] eqn:Es; res_simpl; [|done..]. intros [= <-].
  constructor; [|by eapply IH]. intros m. by eapply package_canonical.
Qed.

Lemma packages_same n qs : Forall package_ok qs → normalize_packages n qs = Ok qs.
Proof.
  intros H. revert n. induction H as [|q qs Hq _ IH]; intros n; [done|]. cbn [normalize_packages].
  rewrite Hq. res_simpl. rewrite IH. by res_simpl.
Qed.

Lemma filter_twice {X} (f : X → bool) (l : list X) : List.filter f (List.filter f l) = List.filter f l.
Proof. induction l as [|x l IH]; [done|]. cbn. destruct (f x) eqn:E; [|done]. cbn. rewrite E. by f_equal. Qed.

Lemma apps_roundtrip mode ps own rules :
  normalizeAppVpnRules mode ps own = Ok rules → normalizeAppVpnRules (ar_mode rules) (ar_packageNames rules) own = Ok rules.
Proof.
  unfold normalizeAppVpnRules. case_bool_decide as Hm; [by intros [= <-]|].
  destruct (normalize_packages 1 ps) as [qs| |] eqn:E; res_simpl; [|done..]. apply packages_canonical in E.
  set (l := List.filter _ (distinct qs)). assert (Forall package_ok l) as Hl.
  { apply Forall_forall. intros q [Hq _]%elem_of_List_filter. apply (proj2 (distinct_spec qs)) in Hq. rewrite Forall_forall in E. by apply E. }
  assert (List.filter (λ p, negb (bool_decide (p = own))) (distinct l) = l) as Hd.
  { rewrite distinct_id; [apply filter_twice|]. apply NoDup_ListNoDup, List.NoDup_filter, NoDup_ListNoDup, distinct_spec. }
  destruct mode; [done|..]; intros [= <-]; cbn [ar_mode ar_packageNames]; rewrite bool_decide_eq_false_2 by done;
    rewrite packages_same by done; res_simpl; by rewrite Hd.
Qed.
End CanonicalApps.

(** *** Test URLs

    The identities of [java.net.URI]: the text built from parts has only
    printable ASCII characters, and parsing it gives the parts back, those that
    are encoded up to encoding them again. *)
Class CasingLaws `{J : Jvm} (K : Casing) := {
  lowercase_twice s : lowercase (lowercase s) = lowercase s;
  lowercase_blank s : isBlank (lowercase s) = isBlank s;
}.
Class JavaUriLaws (U : JavaUri) := {
  built_chars scheme host port path query fragment t :
    build_uri scheme host port path query fragment = Some t → t ≠ [] ∧ Forall (λ c, 33 ≤ c < 127) t;
  built_parses scheme host port path query fragment t :
    build_uri scheme host port path query fragment = Some t →
    ∃ path' query' fragment', parse_uri t = Some (mkUri (Some scheme) (Some host) None port path' query' fragment') ∧
      build_uri scheme host port (ifEmpty_null path') query' fragment' = Some t;
}.

Section CanonicalUrls.
Context `{J : Jvm} {L : JvmLaws J} `{K : Casing} {KL : CasingLaws K} `{U : JavaUri} {UL : JavaUriLaws U}.

Definition url_ok (t : str) : Prop :=
  t ≠ [] ∧ Forall (λ c, 33 ≤ c < 127) t ∧ ∀ m, normalizeTestUrl t m = Ok t.

Lemma url_port_twice scheme port : url_port scheme (url_port scheme port) = url_port scheme port.
Proof.
  unfold url_port. destruct (bool_decide (scheme = Some http)), (bool_decide (scheme = Some https)), (port =? 80) eqn:E1, (port =? 443) eqn:E2;
    cbn; rewrite ?E1, ?E2; done.
Qed.

Lemma url_canonical url n t : normalizeTestUrl url n = Ok t → url_ok t.
Proof using KL UL.
  unfold normalizeTestUrl at 1. destruct (parse_uri url) as [u|]; [|done]. unfold require.
  destruct (uri_scheme u) as [sch|]; cbn [fmap option_fmap option_map]; [|done].
  destruct (bool_decide (Some (lowercase sch) = Some http) || _) eqn:Es; res_simpl; [|done].
  destruct (uri_host u) as [host|]; cbn [isNullOrBlank default]; [|done]. destruct (isBlank host) eqn:Eh; cbn [negb]; res_simpl; [done|].
  destruct (bool_decide (uri_rawUserInfo u = None)); res_simpl; [|done].
  destruct (build_uri _ _ _ _ _ _) as [t'|] eqn:Eb; [|done]. intros [= ->]. destruct (built_chars _ _ _ _ _ _ _ Eb) as [Hne Hc].
  split_and!; [done|done|]. intros m. destruct (built_parses _ _ _ _ _ _ _ Eb) as (path' & query' & fragment' & Hp & Hb).
  unfold normalizeTestUrl. rewrite Hp. unfold require. cbn [uri_scheme uri_host uri_rawUserInfo uri_port uri_path uri_query uri_fragment
    fmap option_fmap option_map isNullOrBlank default from_option id] in *.
  rewrite !lowercase_twice, Es, lowercase_blank, Eh. cbn [negb]. res_simpl.
  rewrite bool_decide_eq_true_2 by done. res_simpl.
  by rewrite url_port_twice, Hb.
Qed.

Lemma url_lines_canonical n lines urls r : Forall url_ok urls → parse_url_lines n lines urls = Ok r → Forall url_ok r ∧ (NoDup urls → NoDup r).
Proof using KL UL.
  revert n urls. induction lines as [|l lines IH]; intros n urls Hu; cbn [parse_url_lines]; [by intros [= <-]|].
  case_bool_decide; [by apply IH|]. destruct (normalizeTestUrl _ n) as [t| |] eqn:E; res_simpl; [|done..]. apply url_canonical in E.
  intros Hr. apply IH in Hr as [Hr Hd].
  - split; [done|]. intros Hn. apply Hd. unfold set_add. case_bool_decide as Hin; [done|].
    apply NoDup_app. split_and!; [done| |apply NoDup_singleton]. intros x Hx ->%list_elem_of_singleton. done.
  - unfold set_add. case_bool_decide; [done|]. apply Forall_app. split; [done|]. by constructor.
Qed.

Lemma url_lines_same n urls before :
  Forall url_ok urls → NoDup (before ++ urls) → parse_url_lines n urls before = Ok (before ++ urls).
Proof using L.
  intros Hu. revert n before. induction Hu as [|t urls (Hne & Hc & Ht) _ IH]; intros n before Hd; [by rewrite app_nil_r|].
  cbn [parse_url_lines]. rewrite trim_id by (eapply Forall_impl; [exact Hc|]; intros c ?; by apply whitespace_graphic).
  rewrite bool_decide_eq_false_2, Ht by done. res_simpl. unfold set_add. rewrite bool_decide_eq_false_2.
  - rewrite IH; by rewrite <- app_assoc.
  - apply NoDup_app in Hd as (_ & Hd & _). intros Hin. apply (Hd t Hin). by left.
Qed.

Lemma urls_roundtrip t urls : parseTestUrls t = Ok urls → parseTestUrls (exportTestUrls urls) = Ok urls.
Proof using L KL UL.
  intros H. destruct (url_lines_canonical _ _ _ _ (Forall_nil_2 _) H) as [Hu Hd]. specialize (Hd (NoDup_nil_2)).
  unfold parseTestUrls, exportTestUrls. destruct urls as [|u urls]; [done|]. rewrite lines_joined; [by apply (url_lines_same 1 _ [])|].
  eapply Forall_impl; [exact Hu|]. intros x (_ & Hc & _). split; intros Hin; eapply Forall_forall in Hc; try exact Hin; lia.
Qed.
End CanonicalUrls.

(** ** What is saved *)
Section Saved.
Context `{J : Jvm} `{C : JavaChars} `{K : Casing} `{U : JavaUri} `{T : Toml} `{N : Ffi}.

Record saves (state : ProfileEditorState) (own name toml : str) (m : ProfileMetadata) : Prop := mkSaves {
  sa_name : name = trim (es_name state) ∧ name ≠ [] ∧ pm_name m = name;
  sa_toml : toml = es_toml state ∧ ∃ summary, validateClientConfig toml = Valid summary;
  sa_routes : parseVpnRouteRules (es_routeText state) = Ok (pm_routes m) ∧ pm_routes m ≠ [];
  sa_dns : parseDnsSettings (es_dnsMode state) (es_dnsText state) = Ok (pm_dns m);
  sa_warnings : ∃ ws, dnsExcludedRouteWarnings (pm_routes m) (pm_dns m) = Ok ws;
  sa_apps : normalizeAppVpnRules (es_appMode state) (es_selectedPackageNames state) own = Ok (pm_appRules m);
  sa_urls : parseTestUrls (es_testUrlsText state) = Ok (pm_testUrls m);
}.

Lemma proceed_ready {X} (r : res unit (ProfileEditorActionResult X)) k st name toml m :
  proceed r k = Ok (Ready st name toml m) ↔ ∃ s v, r = Ok (ASuccess s v) ∧ k s v = Ok (Ready st name toml m).
Proof. unfold proceed. destruct r as [ [s v|s]| |]; res_simpl; naive_solver. Qed.

Lemma routes_ready s s' routes :
  parseProfileEditorRoutesForSave s = Ok (ASuccess s' routes) ↔
  parseVpnRouteRules (es_routeText s) = Ok routes ∧ routes ≠ [] ∧
  s' = with_routeMessage (Some (info (TRoutesReady (zlen routes)))) (with_routeText (exportVpnRouteRules routes) s).
Proof.
  unfold parseProfileEditorRoutesForSave. destruct (parseVpnRouteRules _) as [rs| |]; [|naive_solver..]. case_bool_decide; naive_solver.
Qed.

Lemma dns_ready s s' routes dns :
  parseProfileEditorDnsForSave s (Some routes) = Ok (ASuccess s' dns) ↔
  parseDnsSettings (es_dnsMode s) (es_dnsText s) = Ok dns ∧ ∃ ws message, dnsExcludedRouteWarnings routes dns = Ok ws ∧
  s' = with_dnsMessage (Some message) (with_dnsText (exportDnsServers (dn_servers dns)) s) ∧
  message = match head ws with
            | Some w => warning (TText w)
            | None => info (match dn_mode dns with DnsSystem => text "System DNS ready" | DnsCustom => TDnsReady (zlen (dn_servers dns)) end)
            end.
Proof.
  unfold parseProfileEditorDnsForSave. destruct (parseDnsSettings _ _) as [d| |]; [|naive_solver..].
  destruct (dnsExcludedRouteWarnings routes d) as [ws| |] eqn:E;
    (split; [|intros ([= <-] & ws' & message & E' & -> & ->); rewrite E in E'; by simplify_eq]); [|done..].
  intros [= <- <-]. split; [done|]. by eexists _, _.
Qed.

Lemma apps_ready s s' own rules :
  normalizeProfileEditorAppsForSave s own = Ok (ASuccess s' rules) ↔
  normalizeAppVpnRules (es_appMode s) (es_selectedPackageNames s) own = Ok rules ∧
  s' = with_appMessage (Some (info (TAppsReady rules))) (with_selectedPackageNames (ar_packageNames rules) (with_appMode (ar_mode rules) s)).
Proof. unfold normalizeProfileEditorAppsForSave. destruct (normalizeAppVpnRules _ _ _) as [r| |]; naive_solver. Qed.

Lemma urls_ready s s' urls :
  parseProfileEditorTestUrlsForSave s = Ok (ASuccess s' urls) ↔
  parseTestUrls (es_testUrlsText s) = Ok urls ∧
  s' = with_testUrlsMessage (Some (info (if bool_decide (urls = []) then text "No test URLs configured" else TUrlsReady (zlen urls))))
         (with_testUrlsText (exportTestUrls urls) s).
Proof. unfold parseProfileEditorTestUrlsForSave. destruct (parseTestUrls _) as [r| |]; naive_solver. Qed.

Lemma prepare_iff state own name toml m :
  (∃ st, prepareProfileEditorSave state own = Ok (Ready st name toml m)) ↔ saves state own name toml m.
Proof.
  unfold prepareProfileEditorSave. split.
  - intros [st H]. case_bool_decide as Hn; [done|]. cbn [validateProfileEditorToml] in H.
    destruct (validateClientConfig (es_toml state)) as [summary|] eqn:Ev; [|done].
    apply proceed_ready in H as (s1 & routes & (Hr & Hne & ->)%routes_ready & H).
    apply proceed_ready in H as (s2 & dns & (Hd & ws & message & Hw & -> & _)%dns_ready & H).
    apply proceed_ready in H as (s3 & rules & (Ha & ->)%apps_ready & H).
    apply proceed_ready in H as (s4 & urls & (Hu & ->)%urls_ready & [= <- <- <- <-]). by constructor; eauto.
  - intros [ (-> & Hn & Em) [-> [summary Ev] ] [Hr Hne] Hd [ws Hw] Ha Hu]. destruct m as [mn routes dns urls rules].
    cbn [pm_name pm_routes pm_dns pm_testUrls pm_appRules] in *. subst mn. rewrite bool_decide_eq_false_2 by done. cbn [validateProfileEditorToml].
    rewrite Ev. eexists. apply proceed_ready. eexists _, _. split; [by apply routes_ready|]. apply proceed_ready.
    eexists _, _. split; [apply dns_ready; split; [exact Hd|]; by eexists _, _|]. apply proceed_ready. eexists _, _. split; [by apply apps_ready|].
    apply proceed_ready. eexists _, _. by split; [apply urls_ready|].
Qed.
End Saved.

Section Start.
Context `{J : Jvm} {L : JvmLaws J} `{C : JavaChars} `{K : Casing} `{U : JavaUri} `{T : Toml} {TT : TomlTypes T} `{N : Ffi}.

Lemma validated_config toml summary :
  validateClientConfig toml = Valid summary →
  ∃ config, ClientConfig_from_toml_str (ffi_string toml) = Some config ∧ summary = ClientConfigSummary_try_from config.
Proof.
  unfold validateClientConfig, validate_client_config. destruct (ClientConfig_from_toml_str _) as [config|]; [|done]. cbn. intros [= <-]. eauto.
Qed.

(** A session is started with the MTU of the summary. *)
Lemma start_session_accepts answer toml config fd n :
  ClientConfig_from_toml_str toml = Some config → 0 ≤ fd →
  match (start_session answer (mkNativeConfig toml fd (tun_mtu (cc_tun config))) n).2 with
  | Ok _ => True
  | Err e => e = SessionStart
  | Panic => False
  end.
Proof using TT.
  intros Hc Hf. destruct (from_toml_valid _ _ Hc) as (Hv & (_ & _ & _ & Hm) & _). unfold start_session. cbn [nc_tunFd nc_clientToml nc_tunMtu].
  destruct (Z.ltb_spec fd 0); [lia|]. rewrite Hc.
  assert (tun_mtu (cc_tun config) ≠ 0) as H0.
  { intros E. revert Hv. unfold ClientConfig_validate. destruct (ClientNetworkConfig_validate _) as [ []| |]; res_simpl; [|done..].
    unfold TunConfig_validate. rewrite E. by destruct (bool_decide (tun_name _ = [])). }
  unfold u16_ok in Hm. unfold validate_android_mtu.
  rewrite (proj2 (Z.leb_le 0 _)), (proj2 (Z.ltb_lt _ (2 ^ 16))), (proj2 (Z.eqb_neq _ 0)), Z.eqb_refl by lia. cbn [negb andb].
  destruct (negb (sa_runtime answer)); [done|]. destruct (_ =? 0); [done|]. by destruct (negb (sa_thread answer)).
Qed.

Lemma saved_applies `{A : Android} {LA : AndroidLaws A} state own name toml m :
  saves state own name toml m → ∃ calls, apply own m = Ok calls.
Proof using L.
  intros [_ _ [Hr Hne] Hd _ _ _]. apply rules_roundtrip in Hr. apply dns_roundtrip in Hd.
  pose proof (apply_spec own m) as H. destruct (apply own m) as [calls|e|]; [by exists calls| |done].
  exfalso. destruct H as [(r & _ & H)|[(d & _ & H)|[_ H] ] ]; congruence.
Qed.
End Start.

(** ** Theorems *)


(** Opening a saved profile and saving it again changes nothing.  The form
    that the editor makes from a saved profile is accepted, and gives the same
    name, configuration and metadata, whatever texts the user typed in at
    first. *)
Theorem saved_profile_reopens `{J : Jvm} {L : JvmLaws J} `{C : JavaChars} `{K : Casing} {KL : CasingLaws K} `{U : JavaUri} {UL : JavaUriLaws U}
    `{T : Toml} `{N : Ffi} state own st name toml m id :
  prepareProfileEditorSave state own = Ok (Ready st name toml m) →
  ∃ st', prepareProfileEditorSave (profileEditorStateFrom (mkProfile id toml m)) own = Ok (Ready st' name toml m).
Proof.
  intros H. assert (saves state own name toml m) as [ (-> & Hne & Em) [-> Hv] [Hr Hr0] Hd Hw Ha Hu] by (apply prepare_iff; by exists st).
  apply prepare_iff. constructor; cbn [profileEditorStateFrom sp_metadata sp_clientToml es_name es_toml es_routeText es_dnsMode es_dnsText es_appMode
    es_selectedPackageNames es_testUrlsText].
  - by rewrite Em, trim_twice.
  - done.
  - split; [by eapply rules_roundtrip|done].
  - by eapply dns_roundtrip.
  - done.
  - by eapply apps_roundtrip.
  - by eapply urls_roundtrip.
Qed.

(** ** Witnesses: a form with three routes, two DNS servers, an app and a test
    URL in unusual spellings *)
Module EditorDemo.
Import RoutesDemo PlanDemo AddDemo NativeDemo.

Definition lower (c : Z) : Z := if (65 <=? c) && (c <=? 90) then c + 32 else c.
#[export] Instance ascii_casing : Casing := {| lowercase s := lower <$> s |}.
#[export] Instance ascii_casing_laws : CasingLaws ascii_casing.
Proof.
  split; intros s; cbn.
  - rewrite <- list_fmap_compose. apply list_fmap_ext. intros _ c _. unfold compose, lower.
    destruct ((65 <=? c) && (c <=? 90)) eqn:E; [|by rewrite E]. apply andb_true_iff in E as [?%Z.leb_le ?%Z.leb_le].
    rewrite (proj2 (Z.leb_gt (c + 32) 90)) by lia. by rewrite andb_false_r.
  - unfold isBlank. induction s as [|c s IH]; [done|]. rewrite fmap_cons. cbn [forallb]. rewrite IH. f_equal. unfold lower.
    destruct ((65 <=? c) && (c <=? 90)) eqn:E; [|done]. apply andb_true_iff in E as [?%Z.leb_le ?%Z.leb_le].
    transitivity false; [|symmetry]; apply (whitespace_graphic (JvmLaws := ascii_laws)); lia.
Qed.

#[export] Instance chars : JavaChars :=
  {| isLetter c := (97 <=? lower c) && (lower c <=? 122); isLetterOrDigit c := ((97 <=? lower c) && (lower c <=? 122)) || ((48 <=? c) && (c <=? 57)) |}.

(** One address, in two spellings. *)
Definition plain : list Z := bytes_of_string "http://h"%string.
Definition h : list Z := bytes_of_string "h"%string.
#[export] Instance one_uri : JavaUri := {|
  parse_uri t :=
    if decide (t = plain) then Some (mkUri (Some http) (Some h) None (-1) (Some []) None None)
    else if decide (t = bytes_of_string "HTTP://H:80"%string) then
      Some (mkUri (Some (bytes_of_string "HTTP"%string)) (Some (bytes_of_string "H"%string)) None 80 (Some []) None None)
    else None;
  build_uri scheme host port path query fragment :=
    if decide ((scheme, host, port, path, query, fragment) = (http, h, -1, None, None, None)) then Some plain else None;
|}.
#[export] Instance one_uri_laws : JavaUriLaws one_uri.
Proof.
  split; intros scheme host port path query fragment t; cbn; (case_decide as E; [|done]); intros [= <-].
  - split; [done|decided].
  - simplify_eq. exists (Some []), None, None. rewrite decide_True by done. split; [done|]. by rewrite decide_True.
Qed.

#[export] Instance plain_text : Ffi := {| ffi_string := id; config_error _ := bytes_of_string "Invalid config"%string |}.

Definition form : ProfileEditorState :=
  with_name (bytes_of_string "  home "%string) (with_toml [3] (with_routeText RoutesDemo.text
    (with_dnsMode DnsCustom (with_dnsText (bytes_of_string "010.2.0.1, 9.9.9.9 # dns"%string)
    (with_appMode Blocklist (with_selectedPackageNames [bytes_of_string " org.app "%string; PlanDemo.own; bytes_of_string "org.app"%string]
    (with_testUrlsText (bytes_of_string " HTTP://H:80"%string) ProfileEditorState_new))))))).
Definition saved : ProfileMetadata :=
  mkMetadata (bytes_of_string "home"%string) RoutesDemo.rules
    (mkDns DnsCustom [bytes_of_string "10.2.0.1"%string; bytes_of_string "9.9.9.9"%string]) [plain]
    (mkAppRules Blocklist [bytes_of_string "org.app"%string]).
Definition after : ProfileEditorState.
Proof.
  let r := eval vm_compute in (prepareProfileEditorSave form PlanDemo.own) in
  match r with Ok (Ready ?s _ _ _) => exact s end.
Defined.

Lemma form_ready : prepareProfileEditorSave form PlanDemo.own = Ok (Ready after (bytes_of_string "home"%string) [3] saved).
Proof. vm_compute. reflexivity. Qed.
End EditorDemo.

Section EditorWitnesses.
Import RoutesDemo PlanDemo AddDemo NativeDemo EditorDemo.


Lemma saved_profile_reopens_witness :
  ∃ st', prepareProfileEditorSave (profileEditorStateFrom (mkProfile [1] [3] saved)) PlanDemo.own
    = Ok (Ready st' (bytes_of_string "home"%string) [3] saved).
Proof. apply (saved_profile_reopens form PlanDemo.own after _ [3] saved [1] form_ready). Defined.
End EditorWitnesses.
