(* ===== verification/ProfileController.v ===== *)
(** * Managing profiles in the Android app
      ([android/.../ui/profile/ProfileController.kt],
      [.../ui/profile/ProfileUiState.kt], [.../ui/ProfileStoreActions.kt])

    The screens show one state: the list of the profiles and the profile that
    is edited.  Their calls are coroutines of the main thread.  A coroutine runs
    until it waits for the mutex of the controller or for the store, which works
    on other threads; then any other call can run, be it a coroutine that goes
    on, a new one, or a plain call of a screen.  A coroutine can also be
    cancelled where it waits; the store has then finished what it was doing, in
    some way.

    So a coroutine is the point where it waits, and a step is what the main
    thread does from there to the next such point.  The content of the store is
    of any type; a call of the store that fails may have changed it, except that
    selecting a profile is a transaction. *)

From Stdlib Require Import Ascii String.
From stdpp Require Import base tactics option list numbers gmap fin_maps.
From Stdlib Require Import ZArith Lia.
From S2P Require Import Prelude Config AddClient RouteRules VpnPlan ProfileStore ProfileEditor.

(** ** State ([ProfileUiState.kt]) *)
Inductive ProfilesUiState :=
  | ProfilesLoading
  | ProfilesReady (value : ProfileStoreState)
  | ProfilesUnavailable (message : UiMessage).
Inductive ProfileEditorUiState :=
  | EditorLoading (profileId : str) (requestId : Z)
  | EditorEditing (profileId : option str) (saveProfileId : str) (form : ProfileEditorState) (saving : bool)
  | EditorLoadFailed (profileId : str) (message : UiMessage).
Record ProfileManagementUiState := mkManagement {
  mu_profiles : ProfilesUiState;
  mu_editor : option ProfileEditorUiState;
  mu_message : option UiMessage;
}.
Definition ProfileManagementUiState_new : ProfileManagementUiState := mkManagement ProfilesLoading None None.

Implicit Types (u : ProfileManagementUiState).

Definition with_profiles (x : ProfilesUiState) u := mkManagement x (mu_editor u) (mu_message u).
Definition with_editor (x : option ProfileEditorUiState) u := mkManagement (mu_profiles u) x (mu_message u).
Definition with_shown (x : option UiMessage) u := mkManagement (mu_profiles u) (mu_editor u) x.

Definition is_ready u : bool := match mu_profiles u with ProfilesReady _ => true | _ => false end.

(** ** Calls of the store ([ProfileStoreActions.kt]) *)
Inductive StoreOperationResult (X : Type) := OpSuccess (value : X) | OpFailure.
Arguments OpSuccess {X}.
Arguments OpFailure {X}.
Inductive ProfileStoreActionResult (X : Type) :=
  | ArSuccess (value : X) (message : option UiMessage)
  | ArFailure (message : UiMessage)
  | ArUnavailable (message : UiMessage).
Arguments ArSuccess {X}.
Arguments ArFailure {X}.
Arguments ArUnavailable {X}.

Definition perform {X} (failureMessage : String.string) (r : StoreOperationResult X) : ProfileStoreActionResult X :=
  match r with OpSuccess v => ArSuccess v None | OpFailure => ArFailure (error (text failureMessage)) end.

(** The calls that change the store, and what is done after one: a look at the
    new state, or nothing. *)
Inductive mutation :=
  | MSelect (id : str)
  | MDuplicate (id : str)
  | MDelete (id : str)
  | MSave (id name clientToml : str) (metadata : ProfileMetadata).
Inductive refresh :=
  | RefreshAfterMutation (successMessage : UiMessage) (refreshFailureMessage : String.string)
  | RefreshAfterMissing.

(** [atomicMutationAndRefresh], [ambiguousMutationAndRefresh] and
    [duplicateProfile] up to the refresh; the value is the copy. *)
Definition after_mutation (m : mutation) (r : StoreOperationResult (option SltProfile)) : refresh + ProfileStoreActionResult ProfileStoreState :=
  match m, r with
  | MSelect _, OpSuccess _ =>
      inl (RefreshAfterMutation (info (text "Active profile changed")) "Active profile changed, but profiles could not be refreshed")
  | MSelect _, OpFailure => inr (ArFailure (error (text "Could not change active profile")))
  | MDuplicate _, OpSuccess (Some profile) =>
      inl (RefreshAfterMutation (info (TText (bytes_of_string "Duplicated " ++ pm_name (sp_metadata profile))))
             "Profile duplicated, but profiles could not be refreshed")
  | MDuplicate _, OpSuccess None => inl RefreshAfterMissing
  | MDuplicate _, OpFailure =>
      inr (ArUnavailable (error (text "Could not confirm whether the profile was duplicated. Reload profiles before retrying")))
  | MDelete _, OpSuccess _ =>
      inl (RefreshAfterMutation (info (text "Profile deleted")) "Profile deleted, but profiles could not be refreshed")
  | MDelete _, OpFailure =>
      inr (ArUnavailable (error (text "Could not confirm whether the profile was deleted. Reload profiles before retrying")))
  | MSave _ _ _ _, OpSuccess _ =>
      inl (RefreshAfterMutation (info (text "Profile saved")) "Profile saved, but profiles could not be refreshed")
  | MSave _ _ _ _, OpFailure =>
      inr (ArUnavailable (error (text "Could not confirm whether the profile was saved. Your edits were kept; retry saving")))
  end.

(** [refreshAfterMutation] and [refreshAfterMissingProfile] *)
Definition after_refresh (f : refresh) (r : StoreOperationResult ProfileStoreState) : ProfileStoreActionResult ProfileStoreState :=
  match f, r with
  | RefreshAfterMutation successMessage _, OpSuccess v => ArSuccess v (Some successMessage)
  | RefreshAfterMutation _ refreshFailureMessage, OpFailure => ArUnavailable (error (text refreshFailureMessage))
  | RefreshAfterMissing, OpSuccess v => ArSuccess v (Some (error (text "Profile not found")))
  | RefreshAfterMissing, OpFailure => ArUnavailable (error (text "Profile was not found, and profiles could not be refreshed"))
  end.

(** ** The controller ([ProfileController.kt]) *)

(** A coroutine waits for the mutex, or with the mutex for the store. *)
Inductive suspended :=
  | LoadProfilesLock | LoadProfilesStore
  | ActionLock (m : mutation) | ActionMutating (m : mutation) | ActionRefreshing (f : refresh)
  | SaveLock (m : mutation) | SaveMutating (m : mutation) | SaveRefreshing (f : refresh)
  | EditorLock (profileId : str) (requestId : Z) | EditorStore (profileId : str) (requestId : Z)
  | MissingLock (profileId : str) (requestId : Z) | MissingStore (profileId : str) (requestId : Z).

Definition hasRequestId (e : option ProfileEditorUiState) (requestId : Z) : bool :=
  match e with Some (EditorLoading _ r) => r =? requestId | _ => false end.

Definition applyProfilesResult (r : ProfileStoreActionResult ProfileStoreState) u : ProfileManagementUiState :=
  match r with
  | ArSuccess value message => with_shown message (with_profiles (ProfilesReady value) u)
  | ArFailure message => with_shown (Some message) (if is_ready u then u else with_profiles (ProfilesUnavailable message) u)
  | ArUnavailable message => with_shown (Some message) (with_profiles (ProfilesUnavailable message) u)
  end.

(** The editor, if a profile is edited. *)
Definition update_editing (f : option str → str → ProfileEditorState → bool → ProfileEditorUiState) u : ProfileManagementUiState :=
  match mu_editor u with
  | Some (EditorEditing profileId saveProfileId form saving) => with_editor (Some (f profileId saveProfileId form saving)) u
  | _ => u
  end.
Definition failed_save (message : UiMessage) : ProfileManagementUiState → ProfileManagementUiState :=
  update_editing (λ p i form _, EditorEditing p i (with_message (Some message) form) false).

(** The rest of [saveEditor], with its [finally]; whether it was saved. *)
Definition not_saving : ProfileManagementUiState → ProfileManagementUiState := update_editing (λ p i form _, EditorEditing p i form false).
Definition saved_result (r : ProfileStoreActionResult ProfileStoreState) u : ProfileManagementUiState :=
  not_saving
    match r with
    | ArSuccess value message => with_shown message (with_profiles (ProfilesReady value) u)
    | ArFailure message => failed_save message u
    | ArUnavailable message => with_shown (Some message) (with_profiles (ProfilesUnavailable message) (failed_save message u))
    end.

Definition finishMissingEditorLoad (profileId : str) (requestId : Z) (profiles : ProfilesUiState) (message : UiMessage) u : ProfileManagementUiState :=
  if hasRequestId (mu_editor u) requestId then
    mkManagement profiles (Some (EditorLoadFailed profileId message)) (Some message)
  else u.
Definition missingMessage : UiMessage := error (text "Profile could not be loaded").

Section Editor.
Context `{J : Jvm} `{U : JavaUri} `{T : Toml} `{N : Ffi}.

(** [loadEditor] once the profile is loaded; whether [reconcileMissingEditorProfile]
    goes on to load the list. *)
Definition editor_form (profile : SltProfile) : ProfileEditorState :=
  let base := profileEditorStateFrom profile in
  if isBlank (es_toml base) then base else with_validation (Some (validateClientConfig (es_toml base))) base.
Definition editor_loaded (profileId : str) (requestId : Z) (r : ProfileStoreActionResult (option SltProfile)) u : ProfileManagementUiState * bool :=
  if negb (hasRequestId (mu_editor u) requestId) then (u, false) else
  match r with
  | ArSuccess (Some profile) _ => (with_editor (Some (EditorEditing (Some profileId) profileId (editor_form profile) false)) u, false)
  | ArSuccess None _ => (with_shown (Some missingMessage) (with_profiles (ProfilesUnavailable missingMessage) u), true)
  | ArFailure message => (with_editor (Some (EditorLoadFailed profileId message)) u, false)
  | ArUnavailable message => (mkManagement (ProfilesUnavailable message) (Some (EditorLoadFailed profileId message)) (Some message), false)
  end.
End Editor.

(** [reconcileMissingEditorProfile] once the list is loaded. *)
Definition missing_loaded (profileId : str) (requestId : Z) (r : ProfileStoreActionResult ProfileStoreState) u : ProfileManagementUiState :=
  if negb (hasRequestId (mu_editor u) requestId) then u else
  match r with
  | ArSuccess value _ => finishMissingEditorLoad profileId requestId (ProfilesReady value) missingMessage u
  | ArFailure message | ArUnavailable message => finishMissingEditorLoad profileId requestId (ProfilesUnavailable message) message u
  end.

(** ** Steps *)

(** How a call that only reads ends. *)
Inductive load_end := Loaded | LoadFails | LoadCancelled.

(** What the screens call, and the events at the points where coroutines wait. *)
Inductive label (Content : Type) :=
  | LBeginNew (newProfileId : str)
  | LBeginExisting (profileId : str)
  | LRetry
  | LUpdate (transform : ProfileEditorState → ProfileEditorState)
  | LClose
  | LSetMessage (message : option UiMessage)
  | LLoadProfiles (i : nat)
  | LAction (i : nat) (m : mutation)
  | LLoadEditor (i : nat) (requestId : Z)
  | LSave (i : nat) (state : ProfileEditorState) (name clientToml : str) (metadata : ProfileMetadata)
  | LLocked (i : nat)
  | LLockCancelled (i : nat)
  | LLoaded (i : nat) (r : load_end)
  | LMutated (i : nat) (r : StoreOperationResult (option SltProfile)) (content : Content)
  | LMutationCancelled (i : nat) (content : Content)
  | LRefreshed (i : nat) (r : load_end).
Arguments LBeginNew {Content}. Arguments LBeginExisting {Content}. Arguments LRetry {Content}. Arguments LUpdate {Content}.
Arguments LClose {Content}. Arguments LSetMessage {Content}. Arguments LLoadProfiles {Content}. Arguments LAction {Content}.
Arguments LLoadEditor {Content}. Arguments LSave {Content}. Arguments LLocked {Content}. Arguments LLockCancelled {Content}.
Arguments LLoaded {Content}. Arguments LMutated {Content}. Arguments LMutationCancelled {Content}. Arguments LRefreshed {Content}.

(** [ct_mutex] is the coroutine that holds the mutex. *)
Record Ctl (Content : Type) := mkCtl {
  ct_ui : ProfileManagementUiState;
  ct_nextEditorRequestId : Z;
  ct_mutex : option nat;
  ct_running : gmap nat suspended;
  ct_content : Content;
}.
Arguments mkCtl {Content}.
Arguments ct_ui {Content}. Arguments ct_nextEditorRequestId {Content}. Arguments ct_mutex {Content}.
Arguments ct_running {Content}. Arguments ct_content {Content}.

Section Controller.
Context `{J : Jvm} `{U : JavaUri} `{T : Toml} `{N : Ffi}.

(** What the store shows of its content. *)
Context {Content : Type} (view : Content → ProfileStoreState) (find : Content → str → option SltProfile).
Implicit Types (s : Ctl Content) (c : Content).

Definition Ctl_new c : Ctl Content := mkCtl ProfileManagementUiState_new 0 None ∅ c.

Definition put_ui u s : Ctl Content := mkCtl u (ct_nextEditorRequestId s) (ct_mutex s) (ct_running s) (ct_content s).
Definition put_content c s : Ctl Content := mkCtl (ct_ui s) (ct_nextEditorRequestId s) (ct_mutex s) (ct_running s) c.
(** A coroutine waits at its next point with the mutex, without it, or ends;
    [withLock] gives the mutex back on every way out. *)
Definition waits_store (i : nat) (p : suspended) s : Ctl Content :=
  mkCtl (ct_ui s) (ct_nextEditorRequestId s) (Some i) (<[i := p]> (ct_running s)) (ct_content s).
Definition waits_lock (i : nat) (p : suspended) s : Ctl Content :=
  mkCtl (ct_ui s) (ct_nextEditorRequestId s) (ct_mutex s) (<[i := p]> (ct_running s)) (ct_content s).
Definition unlock s : Ctl Content := mkCtl (ct_ui s) (ct_nextEditorRequestId s) None (ct_running s) (ct_content s).
Definition ends (i : nat) s : Ctl Content :=
  mkCtl (ct_ui s) (ct_nextEditorRequestId s) (ct_mutex s) (delete i (ct_running s)) (ct_content s).

(** [newEditorLoadingState]; the counter does not get near its limit. *)
Definition newEditorLoadingState (profileId : str) s : Ctl Content :=
  let requestId := ct_nextEditorRequestId s + 1 in
  mkCtl (with_editor (Some (EditorLoading profileId requestId)) (ct_ui s)) requestId (ct_mutex s) (ct_running s) (ct_content s).

Definition beginNewEditor (newProfileId : str) s : Ctl Content :=
  if negb (is_ready (ct_ui s)) then s else
  put_ui (mkManagement (mu_profiles (ct_ui s)) (Some (EditorEditing None newProfileId ProfileEditorState_new false)) None) s.
Definition beginExistingEditor (profileId : str) s : Ctl Content :=
  if negb (is_ready (ct_ui s)) then s else
  let s := newEditorLoadingState profileId s in put_ui (with_shown None (ct_ui s)) s.
Definition retryEditorLoad s : Ctl Content :=
  match mu_editor (ct_ui s) with Some (EditorLoadFailed profileId _) => newEditorLoadingState profileId s | _ => s end.
Definition updateEditor (transform : ProfileEditorState → ProfileEditorState) s : Ctl Content :=
  put_ui (update_editing (λ p i form saving, EditorEditing p i (if saving then form else transform form) saving) (ct_ui s)) s.
Definition is_saving u : bool := match mu_editor u with Some (EditorEditing _ _ _ saving) => saving | _ => false end.
Definition closeEditor s : Ctl Content * bool :=
  if is_saving (ct_ui s) then (s, false) else (put_ui (with_editor None (ct_ui s)) s, true).

(** The calls up to the mutex. *)
Definition loadEditor (i : nat) (requestId : Z) s : Ctl Content :=
  match mu_editor (ct_ui s) with
  | Some (EditorLoading profileId r) => if negb (r =? requestId) then s else waits_lock i (EditorLock profileId r) s
  | _ => s
  end.
Definition saveEditor (i : nat) (state : ProfileEditorState) (name clientToml : str) (metadata : ProfileMetadata) s : Ctl Content :=
  match mu_editor (ct_ui s) with
  | Some (EditorEditing profileId saveProfileId form saving) =>
      if saving then s else
      waits_lock i (SaveLock (MSave saveProfileId name clientToml metadata))
        (put_ui (with_editor (Some (EditorEditing profileId saveProfileId state true)) (ct_ui s)) s)
  | _ => s
  end.

(** A coroutine got the mutex. *)
Definition locked (i : nat) (p : suspended) s : option (Ctl Content) :=
  match p with
  | LoadProfilesLock =>
      Some (waits_store i LoadProfilesStore (put_ui (with_shown None (with_profiles ProfilesLoading (ct_ui s))) s))
  | ActionLock m => Some (if is_ready (ct_ui s) then waits_store i (ActionMutating m) s else ends i s)
  | SaveLock m => Some (waits_store i (SaveMutating m) s)
  | EditorLock id r => Some (waits_store i (EditorStore id r) s)
  | MissingLock id r => Some (waits_store i (MissingStore id r) s)
  | _ => None
  end.
(** It was cancelled before. *)
Definition lock_cancelled (i : nat) (p : suspended) s : option (Ctl Content) :=
  match p with
  | LoadProfilesLock | ActionLock _ | EditorLock _ _ | MissingLock _ _ => Some (ends i s)
  | SaveLock _ => Some (ends i (put_ui (not_saving (ct_ui s)) s))
  | _ => None
  end.

Definition load_result {X} (x : X) (r : load_end) : option (StoreOperationResult X) :=
  match r with Loaded => Some (OpSuccess x) | LoadFails => Some OpFailure | LoadCancelled => None end.

(** The list or a profile was loaded. *)
Definition loaded (i : nat) (p : suspended) (r : load_end) s : option (Ctl Content) :=
  match p with
  | LoadProfilesStore =>
      Some (ends i (unlock (match load_result (view (ct_content s)) r with
                            | Some r => put_ui (applyProfilesResult (perform "Could not load profiles" r) (ct_ui s)) s
                            | None => s
                            end)))
  | EditorStore id requestId =>
      Some (match load_result (find (ct_content s) id) r with
            | Some r =>
                let '(u, missing) := editor_loaded id requestId (perform "Could not load profile" r) (ct_ui s) in
                let s := unlock (put_ui u s) in
                if missing : bool then waits_lock i (MissingLock id requestId) s else ends i s
            | None => ends i (unlock s)
            end)
  | MissingStore id requestId =>
      Some (ends i (unlock (match load_result (view (ct_content s)) r with
                            | Some r => put_ui (missing_loaded id requestId (perform "Could not load profiles" r) (ct_ui s)) s
                            | None => s
                            end)))
  | _ => None
  end.

(** The store was changed; a transaction that fails does not change it. *)
Definition mutated (i : nat) (p : suspended) (r : StoreOperationResult (option SltProfile)) c s : option (Ctl Content) :=
  let s' := put_content (match p, r with (ActionMutating (MSelect _) | SaveMutating (MSelect _)), OpFailure => ct_content s | _, _ => c end) s in
  match p with
  | ActionMutating m =>
      Some (match after_mutation m r with
            | inl f => waits_store i (ActionRefreshing f) s'
            | inr r => ends i (unlock (put_ui (applyProfilesResult r (ct_ui s')) s'))
            end)
  | SaveMutating m =>
      Some (match after_mutation m r with
            | inl f => waits_store i (SaveRefreshing f) s'
            | inr r => ends i (unlock (put_ui (saved_result r (ct_ui s')) s'))
            end)
  | _ => None
  end.
Definition mutation_cancelled (i : nat) (p : suspended) c s : option (Ctl Content) :=
  match p with
  | ActionMutating _ => Some (ends i (unlock (put_content c s)))
  | SaveMutating _ => Some (ends i (unlock (put_ui (not_saving (ct_ui s)) (put_content c s))))
  | _ => None
  end.
Definition refreshed (i : nat) (p : suspended) (r : load_end) s : option (Ctl Content) :=
  match p with
  | ActionRefreshing f =>
      Some (ends i (unlock (match load_result (view (ct_content s)) r with
                            | Some r => put_ui (applyProfilesResult (after_refresh f r) (ct_ui s)) s
                            | None => s
                            end)))
  | SaveRefreshing f =>
      Some (ends i (unlock (match load_result (view (ct_content s)) r with
                            | Some r => put_ui (saved_result (after_refresh f r) (ct_ui s)) s
                            | None => put_ui (not_saving (ct_ui s)) s
                            end)))
  | _ => None
  end.

(** A new coroutine, and one that goes on. *)
Definition launch (i : nat) (f : Ctl Content → Ctl Content) s : option (Ctl Content) :=
  match ct_running s !! i with None => Some (f s) | Some _ => None end.
Definition resume (i : nat) (f : suspended → option (Ctl Content)) s : option (Ctl Content) := ct_running s !! i ≫= f.

Definition is_save (m : mutation) : bool := match m with MSave _ _ _ _ => true | _ => false end.

Definition ctl_step (l : label Content) s : option (Ctl Content) :=
  match l with
  | LBeginNew id => Some (beginNewEditor id s)
  | LBeginExisting id => Some (beginExistingEditor id s)
  | LRetry => Some (retryEditorLoad s)
  | LUpdate transform => Some (updateEditor transform s)
  | LClose => Some (closeEditor s).1
  | LSetMessage message => Some (put_ui (with_shown message (ct_ui s)) s)
  | LLoadProfiles i => launch i (waits_lock i LoadProfilesLock) s
  | LAction i m => if is_save m then None else launch i (waits_lock i (ActionLock m)) s
  | LLoadEditor i requestId => launch i (loadEditor i requestId) s
  | LSave i state name clientToml metadata => launch i (saveEditor i state name clientToml metadata) s
  | LLocked i => match ct_mutex s with None => resume i (λ p, locked i p s) s | Some _ => None end
  | LLockCancelled i => resume i (λ p, lock_cancelled i p s) s
  | LLoaded i r => resume i (λ p, loaded i p r s) s
  | LMutated i r c => resume i (λ p, mutated i p r c s) s
  | LMutationCancelled i c => resume i (λ p, mutation_cancelled i p c s) s
  | LRefreshed i r => resume i (λ p, refreshed i p r s) s
  end.
Fixpoint ctl_run (ls : list (label Content)) s : option (Ctl Content) :=
  match ls with
  | [] => Some s
  | l :: ls => ctl_step l s ≫= ctl_run ls
  end.
End Controller.

(** ** Invariants *)
Definition holds (p : suspended) : bool :=
  match p with
  | LoadProfilesStore | ActionMutating _ | ActionRefreshing _ | SaveMutating _ | SaveRefreshing _ | EditorStore _ _ | MissingStore _ _ => true
  | _ => false
  end.
Definition saving_point (p : suspended) : bool := match p with SaveLock _ | SaveMutating _ | SaveRefreshing _ => true | _ => false end.
Definition refreshing (p : suspended) : bool := match p with ActionRefreshing _ | SaveRefreshing _ => true | _ => false end.
Definition save_of (p : suspended) : option mutation := match p with SaveLock m | SaveMutating m => Some m | _ => None end.
Definition request_of (p : suspended) : option (str * Z) :=
  match p with EditorLock id r | EditorStore id r | MissingLock id r | MissingStore id r => Some (id, r) | _ => None end.

Section Invariant.
Context `{J : Jvm} `{U : JavaUri} `{T : Toml} `{N : Ffi}.
Context {Content : Type} (view : Content → ProfileStoreState) (find : Content → str → option SltProfile).
Implicit Types (s : Ctl Content) (c : Content).

Record ctl_inv s : Prop := mkCtlInv {
  ci_holder : ∀ i p, ct_running s !! i = Some p → holds p = true → ct_mutex s = Some i;
  ci_held : ∀ i, ct_mutex s = Some i → ∃ p, ct_running s !! i = Some p ∧ holds p = true;
  ci_saving : is_saving (ct_ui s) = true → ∃ i p, ct_running s !! i = Some p ∧ saving_point p = true;
  ci_save : ∀ i p m, ct_running s !! i = Some p → save_of p = Some m → is_save m = true;
  ci_request : ∀ i p id r, ct_running s !! i = Some p → request_of p = Some (id, r) →
    r ≤ ct_nextEditorRequestId s ∧ ∀ id', mu_editor (ct_ui s) = Some (EditorLoading id' r) → id' = id;
  ci_next : ∀ id r, mu_editor (ct_ui s) = Some (EditorLoading id r) → r ≤ ct_nextEditorRequestId s;
}.

(** The list that is shown is that of the store, unless it is being loaded
    after a change. *)
Definition current s : Prop :=
  ∀ v, mu_profiles (ct_ui s) = ProfilesReady v → (∀ i p, ct_running s !! i = Some p → refreshing p = false) → v = view (ct_content s).

Definition at_point (f : suspended → bool) (q : option suspended) : bool := match q with Some p => f p | None => false end.

(** A coroutine moves to [q]; the editor only ever stays or leaves its
    loading. *)
Lemma inv_move s i q u mx c :
  ctl_inv s →
  (if at_point holds q then mx = Some i ∧ (ct_mutex s = None ∨ ct_mutex s = Some i)
   else mx = (if decide (ct_mutex s = Some i) then None else ct_mutex s)) →
  (∀ id r, mu_editor u = Some (EditorLoading id r) → mu_editor (ct_ui s) = Some (EditorLoading id r)) →
  (is_saving u = true → at_point saving_point q = true ∨ (is_saving (ct_ui s) = true ∧ at_point saving_point (ct_running s !! i) = false)) →
  (∀ m, q ≫= save_of = Some m → is_save m = true) →
  (∀ id r, q ≫= request_of = Some (id, r) → r ≤ ct_nextEditorRequestId s ∧ ∀ id', mu_editor u = Some (EditorLoading id' r) → id' = id) →
  ctl_inv (mkCtl u (ct_nextEditorRequestId s) mx (partial_alter (λ _, q) i (ct_running s)) c).
Proof.
  intros [H1 H2 H3 H4 H5 H6] Hmx He Hs Hm Hr.
  assert (∀ j p, partial_alter (λ _, q) i (ct_running s) !! j = Some p → (j = i ∧ q = Some p) ∨ (j ≠ i ∧ ct_running s !! j = Some p)) as Hl.
  { intros j p. destruct (decide (j = i)) as [->|Hn]; [rewrite lookup_partial_alter_eq; auto|rewrite lookup_partial_alter_ne by done; auto]. }
  constructor; cbn.
  - intros j p [ [-> ->]|[Hn Hp] ]%Hl Hh; [cbn in Hmx; rewrite Hh in Hmx; apply Hmx|]. specialize (H1 j p Hp Hh).
    destruct (at_point holds q); [destruct Hmx as [_ [E|E] ]; congruence|]. rewrite Hmx, decide_False by congruence. done.
  - intros j Hj. destruct (decide (j = i)) as [->|Hn].
    + destruct q as [p|]; cbn in Hmx; [destruct (holds p) eqn:Eh|]; [exists p; by rewrite lookup_partial_alter_eq| |];
        rewrite Hmx in Hj; case_decide; congruence.
    + rewrite lookup_partial_alter_ne by done. apply H2. destruct (at_point holds q); [destruct Hmx; congruence|].
      rewrite Hmx in Hj. case_decide; congruence.
  - intros Hu. destruct (Hs Hu) as [Hq|[Hu' Hq] ].
    + destruct q as [p|]; [|done]. exists i, p. by rewrite lookup_partial_alter_eq.
    + destruct (H3 Hu') as (j & p & Hp & Hsp). exists j, p. split; [|done]. rewrite lookup_partial_alter_ne; [done|]. intros <-. by rewrite Hp in Hq; cbn in Hq; congruence.
  - intros j p m [ [-> ->]|[Hn Hp] ]%Hl E; [by apply Hm|by eapply H4].
  - intros j p id r [ [-> ->]|[Hn Hp] ]%Hl E; [by apply Hr|]. destruct (H5 _ _ _ _ Hp E) as [? H]. split; [done|]. intros id' Hid. by apply H, He.
  - intros id r Hid. by eapply H6, He.
Qed.

(** No coroutine moves. *)
Lemma inv_ui s u :
  ctl_inv s → (∀ id r, mu_editor u = Some (EditorLoading id r) → mu_editor (ct_ui s) = Some (EditorLoading id r)) →
  (is_saving u = true → is_saving (ct_ui s) = true) → ctl_inv (put_ui u s).
Proof.
  intros [H1 H2 H3 H4 H5 H6] He Hs. constructor; cbn; [done|done|auto|done| |].
  - intros j p id r Hp E. destruct (H5 _ _ _ _ Hp E) as [? H]. split; [done|]. intros id' Hid. by apply H, He.
  - intros id r Hid. by eapply H6, He.
Qed.

Lemma inv_loading s id : ctl_inv s → ctl_inv (newEditorLoadingState id s).
Proof.
  intros [H1 H2 H3 H4 H5 H6]. constructor; cbn; [done|done|done|done| |].
  - intros j p id' r Hp E. destruct (H5 _ _ _ _ Hp E) as [? _]. split; [lia|]. intros id'' [= _ Er]. lia.
  - intros id' r [= _ <-]. lia.
Qed.

(** What the ends of the calls do to the editor: it stays, or is neither
    loading nor saving. *)
Definition calmer u u' : Prop :=
  mu_editor u' = mu_editor u ∨ (is_saving u' = false ∧ ∀ id r, mu_editor u' ≠ Some (EditorLoading id r)).

Lemma calmer_loading u u' id r : calmer u u' → mu_editor u' = Some (EditorLoading id r) → mu_editor u = Some (EditorLoading id r).
Proof. intros [<-|[_ H] ] E; [done|by destruct (H id r)]. Qed.
Lemma calmer_saving u u' : calmer u u' → is_saving u' = true → is_saving u = true.
Proof. unfold is_saving. intros [->|[H _] ] E; [done|]. unfold is_saving in H. congruence. Qed.

Lemma apply_calmer r u : calmer u (applyProfilesResult r u).
Proof. left. destruct r; [done| |done]. cbn. by destruct (is_ready u). Qed.
Lemma not_saving_calmer u u' : calmer u u' → calmer u (not_saving u').
Proof.
  intros H. unfold not_saving, update_editing. destruct (mu_editor u') as [ []|] eqn:E; [done| |done..]. right. by split.
Qed.
Lemma not_saving_false u : is_saving (not_saving u) = false.
Proof. unfold is_saving, not_saving, update_editing. destruct (mu_editor u) as [ []|] eqn:E; cbn; by rewrite ?E. Qed.
Lemma saved_calmer r u : calmer u (saved_result r u).
Proof.
  apply not_saving_calmer. destruct r; [by left|..]; unfold calmer, failed_save, update_editing, is_saving;
    destruct (mu_editor u) as [ []|] eqn:E; cbn; rewrite ?E; auto; right; split; done.
Qed.
Lemma missing_calmer id r res u : calmer u (missing_loaded id r res u).
Proof.
  unfold missing_loaded, finishMissingEditorLoad. destruct (hasRequestId _ _) eqn:E; cbn [negb]; [|by left]. right. by destruct res.
Qed.
Lemma editor_calmer id r res u : calmer u (editor_loaded id r res u).1.
Proof.
  unfold editor_loaded. destruct (hasRequestId _ _); cbn [negb]; [|by left]. destruct res as [ [p|] m|m|m]; [by right|by left|by right..].
Qed.
(** A missing profile leaves the editor loading it. *)
Lemma editor_missing id r res u : (editor_loaded id r res u).2 = true → hasRequestId (mu_editor u) r = true.
Proof. unfold editor_loaded. by destruct (hasRequestId _ _); [|done]. Qed.

(** A coroutine ends that has the mutex, or that waits for it. *)
Lemma ctl_inv_release s i p u c :
  ctl_inv s → ct_running s !! i = Some p → holds p = true → calmer (ct_ui s) u → (saving_point p = true → is_saving u = false) →
  ctl_inv (mkCtl u (ct_nextEditorRequestId s) None (delete i (ct_running s)) c).
Proof.
  intros Hi Hp Hh Hc Hs. apply (inv_move s i None u None c Hi); [| | |done|done].
  - cbn. by rewrite decide_True by (by eapply ci_holder).
  - intros id r. by apply calmer_loading.
  - intros Hu. right. rewrite Hp. split; [by eapply calmer_saving|]. cbn. destruct (saving_point p); [|done]. by rewrite Hs in Hu.
Qed.
Lemma inv_leave s i p u :
  ctl_inv s → ct_running s !! i = Some p → holds p = false → calmer (ct_ui s) u → (saving_point p = true → is_saving u = false) →
  ctl_inv (mkCtl u (ct_nextEditorRequestId s) (ct_mutex s) (delete i (ct_running s)) (ct_content s)).
Proof.
  intros Hi Hp Hh Hc Hs. apply (inv_move s i None u (ct_mutex s) _ Hi); [| | |done|done].
  - cbn. rewrite decide_False; [done|]. intros E. destruct (ci_held s Hi i E) as (p' & Hp' & ?). rewrite Hp in Hp'. simplify_eq. congruence.
  - intros id r. by apply calmer_loading.
  - intros Hu. right. rewrite Hp. split; [by eapply calmer_saving|]. cbn. destruct (saving_point p); [|done]. by rewrite Hs in Hu.
Qed.

(** It waits for the store, with the mutex, from a point [p]. *)
Lemma inv_proceed s i p q u c :
  ctl_inv s → ct_running s !! i = Some p → (ct_mutex s = None ∨ ct_mutex s = Some i) → holds q = true → calmer (ct_ui s) u →
  saving_point q = saving_point p → (∀ m, save_of q = Some m → save_of p = Some m) → (∀ x, request_of q = Some x → request_of p = Some x) →
  ctl_inv (mkCtl u (ct_nextEditorRequestId s) (Some i) (<[i := q]> (ct_running s)) c).
Proof.
  intros Hi Hp Hm Hh Hc Hs Hsv Hr. apply (inv_move s i (Some q) u (Some i) c Hi).
  - cbn. by rewrite Hh.
  - intros id r. by apply calmer_loading.
  - intros Hu. rewrite Hp. cbn. rewrite Hs. destruct (saving_point p); [by left|]. right. split; [by eapply calmer_saving|done].
  - intros m E. cbn in E. by eapply ci_save, Hsv.
  - intros id r E. cbn in E. destruct (ci_request s Hi i p id r Hp) as [? H]; [by apply Hr|]. split; [done|]. intros id' Hid. by eapply H, calmer_loading.
Qed.

Lemma locked_inv s s' i p : ctl_inv s → ct_running s !! i = Some p → ct_mutex s = None → locked i p s = Some s' → ctl_inv s'.
Proof.
  intros Hi Hp Hm. destruct p; intros [= <-]; try (by apply (inv_proceed s i _ _ _ _ Hi Hp); auto; left).
  destruct (is_ready (ct_ui s)); [by apply (inv_proceed s i _ _ _ _ Hi Hp); auto; left|by apply (inv_leave s i _ _ Hi Hp); [|left|] ].
Qed.

Lemma lock_cancelled_inv s s' i p : ctl_inv s → ct_running s !! i = Some p → lock_cancelled i p s = Some s' → ctl_inv s'.
Proof.
  intros Hi Hp. destruct p; intros [= <-]; try (by apply (inv_leave s i _ _ Hi Hp); [|left|]).
  apply (inv_leave s i _ _ Hi Hp); [done|by apply not_saving_calmer; left|by intros; apply not_saving_false].
Qed.

Lemma loaded_inv s s' i p r : ctl_inv s → ct_running s !! i = Some p → loaded view find i p r s = Some s' → ctl_inv s'.
Proof.
  intros Hi Hp. destruct p as [| | | | | | | | |id n| |id n]; intros [= <-].
  - destruct (load_result _ r); apply (ctl_inv_release s i _ _ _ Hi Hp); try done; [apply apply_calmer|by left].
  - destruct (load_result _ r) as [res|]; [|by apply (ctl_inv_release s i _ _ _ Hi Hp); [|left|] ].
    pose proof (editor_calmer id n (perform "Could not load profile" res) (ct_ui s)) as Hc.
    pose proof (editor_missing id n (perform "Could not load profile" res) (ct_ui s)) as Hmiss.
    destruct (editor_loaded _ _ _ _) as [u missing]. cbn [fst snd] in *. destruct missing; [|by apply (ctl_inv_release s i _ _ _ Hi Hp)].
    apply (inv_move s i (Some (MissingLock id n)) u None _ Hi); [| | |done|].
    + cbn. by rewrite decide_True by (by eapply ci_holder).
    + intros id' r'. by apply calmer_loading.
    + intros Hu. right. rewrite Hp. split; [by eapply calmer_saving|done].
    + intros id' r' [= <- <-]. destruct (ci_request s Hi i _ id n Hp eq_refl) as [? H]. split; [done|]. intros id' Hid. by eapply H, calmer_loading.
  - destruct (load_result _ r); apply (ctl_inv_release s i _ _ _ Hi Hp); try done; [apply missing_calmer|by left].
Qed.

Lemma mutated_inv s s' i p r c : ctl_inv s → ct_running s !! i = Some p → mutated i p r c s = Some s' → ctl_inv s'.
Proof.
  intros Hi Hp. destruct p as [| | |m| | |m| | | | |]; intros [= <-]; destruct (after_mutation m r) as [f|res].
  - apply (inv_proceed s i _ _ _ _ Hi Hp); try done; [right; by eapply ci_holder|by left].
  - apply (ctl_inv_release s i _ _ _ Hi Hp); [done|apply apply_calmer|done].
  - apply (inv_proceed s i _ _ _ _ Hi Hp); try done; [right; by eapply ci_holder|by left].
  - apply (ctl_inv_release s i _ _ _ Hi Hp); [done|apply saved_calmer|by intros; apply not_saving_false].
Qed.

Lemma mutation_cancelled_inv s s' i p c : ctl_inv s → ct_running s !! i = Some p → mutation_cancelled i p c s = Some s' → ctl_inv s'.
Proof.
  intros Hi Hp. destruct p; intros [= <-]; [by apply (ctl_inv_release s i _ _ _ Hi Hp); [|left|]|].
  apply (ctl_inv_release s i _ _ _ Hi Hp); [done|by apply not_saving_calmer; left|by intros; apply not_saving_false].
Qed.

Lemma refreshed_inv s s' i p r : ctl_inv s → ct_running s !! i = Some p → refreshed view i p r s = Some s' → ctl_inv s'.
Proof.
  intros Hi Hp. destruct p; intros [= <-]; destruct (load_result _ r); apply (ctl_inv_release s i _ _ _ Hi Hp); try done.
  - apply apply_calmer.
  - by left.
  - apply saved_calmer.
  - intros _. apply not_saving_false.
  - apply not_saving_calmer. by left.
  - intros _. apply not_saving_false.
Qed.

Lemma launch_inv s i q u :
  ctl_inv s → ct_running s !! i = None → holds q = false → (∀ id r, mu_editor u = Some (EditorLoading id r) → mu_editor (ct_ui s) = Some (EditorLoading id r)) →
  (is_saving u = true → saving_point q = true ∨ is_saving (ct_ui s) = true) → (∀ m, save_of q = Some m → is_save m = true) →
  (∀ id r, request_of q = Some (id, r) → mu_editor (ct_ui s) = Some (EditorLoading id r)) →
  ctl_inv (mkCtl u (ct_nextEditorRequestId s) (ct_mutex s) (<[i := q]> (ct_running s)) (ct_content s)).
Proof.
  intros Hi Hn Hh He Hs Hm Hr. apply (inv_move s i (Some q) u (ct_mutex s) _ Hi); [|done| |done|].
  - cbn. rewrite Hh, decide_False; [done|]. intros E. destruct (ci_held s Hi i E) as (p & Hp & _). congruence.
  - intros Hu. rewrite Hn. destruct (Hs Hu); [by left|by right].
  - intros id r E. specialize (Hr id r E). split; [by eapply ci_next|]. intros id' Hid. apply He in Hid. congruence.
Qed.

Lemma step_inv l s s' : ctl_inv s → ctl_step view find l s = Some s' → ctl_inv s'.
Proof.
  intros Hi. destruct l as [id|id| |f| |m|i|i m|i r|i st name toml md|i|i|i r|i r c|i c|i r]; cbn [ctl_step].
  - intros [= <-]. unfold beginNewEditor. destruct (is_ready _); [|done]. by apply inv_ui.
  - intros [= <-]. unfold beginExistingEditor. destruct (is_ready _); [|done]. apply inv_ui; [by apply inv_loading|done|done].
  - intros [= <-]. unfold retryEditorLoad. destruct (mu_editor _) as [ []|]; try done. by apply inv_loading.
  - intros [= <-]. apply inv_ui; [done| |].
    + intros id r. unfold update_editing. by destruct (mu_editor (ct_ui s)) as [ []|] eqn:E; cbn; rewrite ?E.
    + unfold update_editing, is_saving. by destruct (mu_editor (ct_ui s)) as [ []|] eqn:E; cbn; rewrite ?E.
  - intros [= <-]. unfold closeEditor. destruct (is_saving _); [done|]. by apply inv_ui.
  - intros [= <-]. by apply inv_ui.
  - unfold launch. destruct (ct_running s !! i) eqn:Hn; [done|]. intros [= <-]. apply launch_inv; auto; done.
  - destruct (is_save m) eqn:Em; [done|]. unfold launch. destruct (ct_running s !! i) eqn:Hn; [done|]. intros [= <-]. apply launch_inv; auto; done.
  - unfold launch. destruct (ct_running s !! i) eqn:Hn; [done|]. intros [= <-]. unfold loadEditor. destruct (mu_editor _) as [ []|] eqn:E; try done.
    destruct (_ =? r); [|done]. apply launch_inv; auto; try done. by intros id r' [= <- <-].
  - unfold launch. destruct (ct_running s !! i) eqn:Hn; [done|]. intros [= <-]. unfold saveEditor. destruct (mu_editor _) as [ []|] eqn:E; try done.
    destruct saving; [done|]. apply (launch_inv s i); auto; try done. by intros m [= <-].
  - destruct (ct_mutex s) eqn:Em; [done|]. unfold resume. destruct (ct_running s !! i) as [p|] eqn:Hp; [|done]. by apply locked_inv.
  - unfold resume. destruct (ct_running s !! i) as [p|] eqn:Hp; [|done]. by apply lock_cancelled_inv.
  - unfold resume. destruct (ct_running s !! i) as [p|] eqn:Hp; [|done]. by apply loaded_inv.
  - unfold resume. destruct (ct_running s !! i) as [p|] eqn:Hp; [|done]. by apply mutated_inv.
  - unfold resume. destruct (ct_running s !! i) as [p|] eqn:Hp; [|done]. by apply mutation_cancelled_inv.
  - unfold resume. destruct (ct_running s !! i) as [p|] eqn:Hp; [|done]. by apply refreshed_inv.
Qed.

Lemma new_inv c : ctl_inv (Ctl_new c).
Proof. by constructor. Qed.

(** ** The list *)

(** Calls that change the store are not cancelled once they have the mutex. *)
Definition uncancelled (l : label Content) : bool :=
  match l with LMutationCancelled _ _ | LRefreshed _ LoadCancelled => false | _ => true end.

Lemma current_move s i q u n mx c :
  current s →
  (∀ v, mu_profiles u = ProfilesReady v →
     at_point refreshing q = true ∨ v = view c ∨
     (mu_profiles (ct_ui s) = ProfilesReady v ∧ c = ct_content s ∧ at_point refreshing (ct_running s !! i) = false)) →
  current (mkCtl u n mx (partial_alter (λ _, q) i (ct_running s)) c).
Proof.
  intros Hs Hv v Hu Hr. cbn in Hu, Hr |- *. destruct (Hv v Hu) as [Hq|[->|(Hu' & -> & Hp)] ]; [|done|].
  - destruct q as [p|]; [|done]. specialize (Hr i p). rewrite lookup_partial_alter_eq in Hr. cbn in Hq. rewrite Hr in Hq by done. done.
  - apply Hs; [done|]. intros j p Hj. destruct (decide (j = i)) as [->|Hn]; [by rewrite Hj in Hp|].
    apply (Hr j). by rewrite lookup_partial_alter_ne.
Qed.

Lemma current_ui s u n : current s → mu_profiles u = mu_profiles (ct_ui s) → current (mkCtl u n (ct_mutex s) (ct_running s) (ct_content s)).
Proof. intros Hs Hu v. cbn. rewrite Hu. apply Hs. Qed.

Lemma apply_profiles r u v :
  mu_profiles (applyProfilesResult r u) = ProfilesReady v → (∃ m, r = ArSuccess v m) ∨ (mu_profiles u = ProfilesReady v ∧ ∃ m, r = ArFailure m).
Proof.
  destruct r as [v' m|m|m]; cbn; [intros [= ->]; eauto| |done]. unfold is_ready. destruct (mu_profiles u) eqn:E; cbn; rewrite ?E; [done| |done]. eauto.
Qed.
Lemma not_saving_profiles u : mu_profiles (not_saving u) = mu_profiles u.
Proof. unfold not_saving, update_editing. by destruct (mu_editor u) as [ []|]. Qed.
Lemma failed_profiles m u : mu_profiles (failed_save m u) = mu_profiles u.
Proof. unfold failed_save, update_editing. by destruct (mu_editor u) as [ []|]. Qed.
Lemma saved_profiles r u v :
  mu_profiles (saved_result r u) = ProfilesReady v → (∃ m, r = ArSuccess v m) ∨ (mu_profiles u = ProfilesReady v ∧ ∃ m, r = ArFailure m).
Proof.
  unfold saved_result. rewrite not_saving_profiles. destruct r as [v' m|m|m]; cbn; [intros [= ->]; eauto| |done]. rewrite failed_profiles. eauto.
Qed.
Lemma missing_profiles id n r u v :
  mu_profiles (missing_loaded id n r u) = ProfilesReady v → (∃ m, r = ArSuccess v m) ∨ mu_profiles u = ProfilesReady v.
Proof.
  unfold missing_loaded, finishMissingEditorLoad. destruct (hasRequestId _ _); cbn [negb]; [|by right].
  destruct r as [v' m|m|m]; cbn; [intros [= ->]; eauto|done|done].
Qed.
Lemma editor_profiles id n r u v :
  mu_profiles (editor_loaded id n r u).1 = ProfilesReady v → mu_profiles u = ProfilesReady v.
Proof. unfold editor_loaded. destruct (hasRequestId _ _); cbn [negb]; [|done]. by destruct r as [ [p|] m|m|m]. Qed.

(** Only a transaction reports that it changed nothing. *)
Lemma after_mutation_failure m r x : after_mutation m r = inr x →
  (∃ message, x = ArUnavailable message) ∨ (∃ id message, m = MSelect id ∧ r = OpFailure ∧ x = ArFailure message).
Proof. destruct m, r as [ [v|]|]; intros [= <-]; eauto 6. Qed.
Lemma after_mutation_success m r x v message : after_mutation m r = inr x → x ≠ ArSuccess v message.
Proof. by destruct m, r as [ [v'|]|]; intros [= <-]. Qed.

Lemma loaded_view {X} (x : X) r res v m message : load_result x r = Some res → perform message res = ArSuccess v m → v = x.
Proof. by destruct r; intros [= <-]; intros [= <- _]. Qed.
Lemma refreshed_view r res f v m : load_result (view f) r = Some res → ∀ g, after_refresh g res = ArSuccess v m → v = view f.
Proof. destruct r; intros [= <-] [|]; intros [= <- _]; done. Qed.

Lemma loaded_current s s' i p r : ct_running s !! i = Some p → current s → loaded view find i p r s = Some s' → current s'.
Proof.
  intros Hp Hs. destruct p as [| | | | | | | | |id n| |id n]; intros [= <-].
  - destruct (load_result (view (ct_content s)) r) as [res|] eqn:E; apply (current_move s i None); try done; intros v Hv.
    + apply apply_profiles in Hv as [ [m Hm]|[Hu _] ]; right; [left; by eapply loaded_view|right; by rewrite Hp].
    + right. right. by rewrite Hp.
  - destruct (load_result (find (ct_content s) id) r) as [res|]; [|apply (current_move s i None); [done|]; intros v Hv; right; right; by rewrite Hp].
    pose proof (editor_profiles id n (perform "Could not load profile" res) (ct_ui s)) as He.
    destruct (editor_loaded _ _ _ _) as [u missing]. cbn in He. destruct missing.
    + apply (current_move s i (Some (MissingLock id n))); [done|]. intros v Hv. right. right. rewrite Hp. by split; [apply He|].
    + apply (current_move s i None); [done|]. intros v Hv. right. right. rewrite Hp. by split; [apply He|].
  - destruct (load_result (view (ct_content s)) r) as [res|] eqn:E; apply (current_move s i None); try done; intros v Hv.
    + apply missing_profiles in Hv as [ [m Hm]|Hu]; right; [left; by eapply loaded_view|right; by rewrite Hp].
    + right. right. by rewrite Hp.
Qed.

Lemma mutated_current s s' i p r c : ctl_inv s → ct_running s !! i = Some p → current s → mutated i p r c s = Some s' → current s'.
Proof.
  intros Hi Hp Hs. destruct p as [| | |m| | |m| | | | |]; intros [= <-]; destruct (after_mutation m r) as [f|res] eqn:Ea.
  - apply (current_move s i (Some (ActionRefreshing f))); [done|]. by left.
  - apply (current_move s i None); [done|]. intros v Hv. apply apply_profiles in Hv as [ [m' ->]|[Hu [m' ->] ] ]; [by eapply after_mutation_success in Ea|].
    apply after_mutation_failure in Ea as [ [? ?]|(id & message & -> & -> & _)]; [done|]. right. right. by rewrite Hp.
  - apply (current_move s i (Some (SaveRefreshing f))); [done|]. by left.
  - apply (current_move s i None); [done|]. intros v Hv. apply saved_profiles in Hv as [ [m' ->]|[Hu [m' ->] ] ]; [by eapply after_mutation_success in Ea|].
    apply after_mutation_failure in Ea as [ [? ?]|(id & message & -> & -> & _)]; [done|]. by pose proof (ci_save s Hi i _ _ Hp eq_refl).
Qed.

Lemma refreshed_current s s' i p r : uncancelled (LRefreshed i r) = true → current s → refreshed view i p r s = Some s' → current s'.
Proof.
  intros Hr Hs. assert (is_Some (load_result (view (ct_content s)) r)) as [res E] by (destruct r; [by eexists..|done]).
  destruct p; intros [= <-]; rewrite E; apply (current_move s i None); try done; intros v Hv; right; left.
  - apply apply_profiles in Hv as [ [m Hm]|[_ [m Hm] ] ]; [exact (refreshed_view r res (ct_content s) v m E f Hm)|]. by destruct f, res.
  - apply saved_profiles in Hv as [ [m Hm]|[_ [m Hm] ] ]; [exact (refreshed_view r res (ct_content s) v m E f Hm)|]. by destruct f, res.
Qed.

Lemma step_current l s s' : uncancelled l = true → ctl_inv s → current s → ctl_step view find l s = Some s' → current s'.
Proof.
  intros Hl Hi Hs. destruct l as [id|id| |f| |m|i|i m|i r|i st name toml md|i|i|i r|i r c|i c|i r]; cbn [ctl_step].
  - intros [= <-]. unfold beginNewEditor. by destruct (is_ready _).
  - intros [= <-]. unfold beginExistingEditor. by destruct (is_ready _).
  - intros [= <-]. unfold retryEditorLoad. by destruct (mu_editor _) as [ []|].
  - intros [= <-]. apply current_ui; [done|]. unfold update_editing. by destruct (mu_editor _) as [ []|].
  - intros [= <-]. unfold closeEditor. by destruct (is_saving _).
  - by intros [= <-].
  - unfold launch. destruct (ct_running s !! i) eqn:Hn; [done|]. intros [= <-]. apply (current_move s i (Some _)); [done|]. rewrite Hn. auto.
  - destruct (is_save m); [done|]. unfold launch. destruct (ct_running s !! i) eqn:Hn; [done|]. intros [= <-].
    apply (current_move s i (Some _)); [done|]. rewrite Hn. auto.
  - unfold launch. destruct (ct_running s !! i) eqn:Hn; [done|]. intros [= <-]. unfold loadEditor. destruct (mu_editor _) as [ []|]; try done.
    destruct (_ =? r); [|done]. apply (current_move s i (Some _)); [done|]. rewrite Hn. auto.
  - unfold launch. destruct (ct_running s !! i) eqn:Hn; [done|]. intros [= <-]. unfold saveEditor. destruct (mu_editor _) as [ []|]; try done.
    destruct saving; [done|]. apply (current_move s i (Some _)); [done|]. rewrite Hn. auto.
  - destruct (ct_mutex s) eqn:Em; [done|]. unfold resume. destruct (ct_running s !! i) as [p|] eqn:Hp; [|done]. cbn. destruct p; intros [= <-];
      try destruct (is_ready _); first [apply (current_move s i (Some _)); [done|]|apply (current_move s i None); [done|] ]; rewrite Hp; auto; done.
  - unfold resume. destruct (ct_running s !! i) as [p|] eqn:Hp; [|done]. cbn. destruct p; intros [= <-]; apply (current_move s i None); try done;
      cbn; rewrite ?not_saving_profiles, Hp; auto.
  - unfold resume. destruct (ct_running s !! i) as [p|] eqn:Hp; [|done]. by apply loaded_current.
  - unfold resume. destruct (ct_running s !! i) as [p|] eqn:Hp; [|done]. by apply mutated_current.
  - done.
  - unfold resume. destruct (ct_running s !! i) as [p|] eqn:Hp; [|done]. by apply refreshed_current.
Qed.

(** ** The calls end *)

(** How many more steps a coroutine makes at most. *)
Definition steps_left (p : suspended) : nat :=
  match p with
  | EditorLock _ _ => 4
  | EditorStore _ _ | ActionLock _ | SaveLock _ => 3
  | MissingLock _ _ | ActionMutating _ | SaveMutating _ | LoadProfilesLock => 2
  | MissingStore _ _ | ActionRefreshing _ | SaveRefreshing _ | LoadProfilesStore => 1
  end.
Definition all_steps_left (m : gmap nat suspended) : nat := map_fold (λ _ p n, (steps_left p + n)%nat) O m.

Lemma steps_left_at m i p : m !! i = Some p → all_steps_left m = (steps_left p + all_steps_left (delete i m))%nat.
Proof.
  intros Hi. unfold all_steps_left. apply (map_fold_delete_L (λ _ p n, (steps_left p + n)%nat)); [|done]. intros. lia.
Qed.
Lemma steps_left_insert m i p q : m !! i = Some p → all_steps_left (<[i := q]> m) = (steps_left q + all_steps_left (delete i m))%nat.
Proof. intros Hi. rewrite (steps_left_at _ i q) by apply lookup_insert_eq. by rewrite delete_insert_eq. Qed.

(** The steps that coroutines make. *)
Definition resumes (l : label Content) : bool :=
  match l with
  | LLocked _ | LLockCancelled _ | LLoaded _ _ | LMutated _ _ _ | LMutationCancelled _ _ | LRefreshed _ _ => true
  | _ => false
  end.

Lemma resume_decreases l s s' :
  resumes l = true → ctl_step view find l s = Some s' → (all_steps_left (ct_running s') < all_steps_left (ct_running s))%nat.
Proof.
  assert (∀ i p (s' : Ctl Content), ct_running s !! i = Some p →
    (ct_running s' = delete i (ct_running s) ∨ ∃ q, ct_running s' = <[i := q]> (ct_running s) ∧ (steps_left q < steps_left p)%nat) →
    (all_steps_left (ct_running s') < all_steps_left (ct_running s))%nat) as H.
  { intros i p s1 Hp [->|(q & -> & Hq)]; rewrite (steps_left_at _ _ _ Hp); [destruct p; cbn; lia|]. rewrite (steps_left_insert _ _ _ q Hp). lia. }
  intros Hl. destruct l as [| | | | | | | | | |i|i|i r|i r c|i c|i r]; try done; cbn [ctl_step]; unfold resume;
    try (destruct (ct_mutex s); [done|]); destruct (ct_running s !! i) as [p|] eqn:Hp; try done; cbn; intros E; apply (H i p s' Hp).
  - destruct p; try done; injection E as <-; try (right; eexists; split; [reflexivity|cbn; lia]).
    destruct (is_ready _); [right; eexists; split; [reflexivity|cbn; lia]|by left].
  - destruct p; try done; injection E as <-; by left.
  - destruct p as [| | | | | | | | |id n| |id n]; try done; injection E as <-; [left; by destruct (load_result _ r)| |left; by destruct (load_result _ r)].
    destruct (load_result _ r); [|by left]. destruct (editor_loaded _ _ _ _) as [u []]; [right; eexists; split; [reflexivity|cbn; lia]|by left].
  - destruct p as [| | |m| | |m| | | | |]; try done; injection E as <-; destruct (after_mutation m r); try (by left);
      right; eexists; (split; [reflexivity|cbn; lia]).
  - destruct p; try done; injection E as <-; by left.
  - destruct p; try done; injection E as <-; left; by destruct (load_result _ r).
Qed.

(** One of them can always be made. *)
Lemma resume_possible s : ctl_inv s → ct_running s ≠ ∅ → ∃ l s', resumes l = true ∧ uncancelled l = true ∧ ctl_step view find l s = Some s'.
Proof.
  intros Hi Hne. destruct (ct_mutex s) as [i|] eqn:Em.
  - destruct (ci_held s Hi i Em) as (p & Hp & Hh).
    assert (∃ l, resumes l = true ∧ uncancelled l = true ∧ is_Some (ctl_step view find l s)) as (l & H1 & H2 & s' & H3); [|by exists l, s'].
    destruct p; try done; [exists (LLoaded i Loaded)|exists (LMutated i OpFailure (ct_content s))|exists (LRefreshed i Loaded)|
      exists (LMutated i OpFailure (ct_content s))|exists (LRefreshed i Loaded)|exists (LLoaded i Loaded)|exists (LLoaded i Loaded)];
      cbn [ctl_step]; unfold resume; rewrite Hp; by split_and!; [..|eexists].
  - apply map_choose in Hne as (i & p & Hp). assert (holds p = false) as Hh.
    { destruct (holds p) eqn:E; [|done]. pose proof (ci_holder s Hi i p Hp E). congruence. }
    exists (LLocked i). cbn [ctl_step]. rewrite Em. unfold resume. rewrite Hp. cbn. destruct p; try done; by eexists.
Qed.

(** ** Opening a profile *)
Definition edits (e : option ProfileEditorUiState) (id sid : str) : Prop := ∃ form b, e = Some (EditorEditing (Some id) sid form b).
Definition opened s id sid (form : ProfileEditorState) : Prop :=
  sid = id ∧ ∃ r p, mu_editor (ct_ui s) = Some (EditorLoading id r) ∧ find (ct_content s) id = Some p ∧ form = editor_form p.

Lemma update_editing_edits f u id sid form b :
  (∀ p i form b, ∃ form' b', f p i form b = EditorEditing p i form' b') →
  mu_editor (update_editing f u) = Some (EditorEditing (Some id) sid form b) → edits (mu_editor u) id sid.
Proof.
  intros Hf. unfold update_editing. destruct (mu_editor u) as [ []|] eqn:E; cbn; rewrite ?E; try done; [|intros [= -> -> -> ->]; by eexists _, _..].
  edestruct Hf as (form' & b' & ->). intros [= -> -> -> ->]. by eexists _, _.
Qed.
Lemma saved_edits r u id sid form b : mu_editor (saved_result r u) = Some (EditorEditing (Some id) sid form b) → edits (mu_editor u) id sid.
Proof.
  intros H. apply update_editing_edits in H as (form' & b' & H); [|intros; by eexists _, _]. destruct r; [by eexists _, _|..];
    (eapply update_editing_edits; [|exact H]; intros; by eexists _, _).
Qed.

Lemma loaded_opened s s' i p r id sid form b :
  ctl_inv s → ct_running s !! i = Some p → loaded view find i p r s = Some s' →
  mu_editor (ct_ui s') = Some (EditorEditing (Some id) sid form b) → edits (mu_editor (ct_ui s)) id sid ∨ opened s id sid form.
Proof.
  intros Hi Hp. assert (mu_editor (ct_ui s) = Some (EditorEditing (Some id) sid form b) → edits (mu_editor (ct_ui s)) id sid) as Hsame.
  { intros ->. by eexists _, _. }
  destruct p as [| | | | | | | | |id' n| |id' n]; intros [= <-].
  - left. destruct (load_result _ r) as [res|]; cbn in *; [|auto].
    destruct (apply_calmer (perform "Could not load profiles" res) (ct_ui s)) as [E|[E1 E2] ]; [by rewrite E in *; auto|]. revert H. destruct res; cbn; [auto|]. by destruct (is_ready _); auto.
  - destruct (load_result _ r) as [res|] eqn:Er; [|auto]. unfold editor_loaded. destruct (hasRequestId _ _) eqn:Eh; cbn [negb]; [|auto].
    destruct (mu_editor (ct_ui s)) as [ [id'' n'| |]|] eqn:Ee; try done. cbn in Eh. apply Z.eqb_eq in Eh as ->.
    destruct (ci_request s Hi i _ id' n Hp eq_refl) as [_ Hid]. specialize (Hid _ Ee) as ->.
    destruct res as [ [profile|] |]; cbn; rewrite ?Ee; try done. intros [= <- <- <- <-]. right. split; [done|]. exists n, profile.
    split_and!; [done| |done]. destruct r; cbn in Er; congruence.
  - left. destruct (load_result _ r) as [res|]; cbn in *; [|auto]. revert H. unfold missing_loaded, finishMissingEditorLoad.
    destruct (hasRequestId _ _) eqn:Eh; cbn [negb]; [|auto]. destruct res; done.
Qed.

Lemma step_opened l s s' id sid form b :
  ctl_inv s → ctl_step view find l s = Some s' →
  mu_editor (ct_ui s') = Some (EditorEditing (Some id) sid form b) → edits (mu_editor (ct_ui s)) id sid ∨ opened s id sid form.
Proof.
  intros Hi. assert (mu_editor (ct_ui s) = Some (EditorEditing (Some id) sid form b) → edits (mu_editor (ct_ui s)) id sid) as Hsame.
  { intros ->. by eexists _, _. }
  destruct l as [id'|id'| |f| |m|i|i m|i r|i st name toml md|i|i|i r|i r c|i c|i r]; cbn [ctl_step].
  - intros [= <-]. unfold beginNewEditor. destruct (is_ready _); cbn; auto. done.
  - intros [= <-]. unfold beginExistingEditor. destruct (is_ready _); cbn; auto. done.
  - intros [= <-]. unfold retryEditorLoad. destruct (mu_editor (ct_ui s)) as [ []|] eqn:E; cbn; rewrite ?E; auto. done.
  - intros [= <-] H. left. eapply update_editing_edits; [|exact H]. intros. by eexists _, _.
  - intros [= <-]. unfold closeEditor. destruct (is_saving _); cbn; auto. done.
  - intros [= <-]. cbn. auto.
  - unfold launch. destruct (ct_running s !! i); [done|]. intros [= <-]. cbn. auto.
  - destruct (is_save m); [done|]. unfold launch. destruct (ct_running s !! i); [done|]. intros [= <-]. cbn. auto.
  - unfold launch. destruct (ct_running s !! i); [done|]. intros [= <-]. unfold loadEditor.
    destruct (mu_editor (ct_ui s)) as [ []|] eqn:E; rewrite ?E; auto. destruct (_ =? r); cbn; rewrite E; auto.
  - unfold launch. destruct (ct_running s !! i); [done|]. intros [= <-]. unfold saveEditor.
    destruct (mu_editor (ct_ui s)) as [ []|] eqn:E; rewrite ?E; auto. destruct saving; cbn; [rewrite E; auto|]. intros [= -> -> _ _]. left. by eexists _, _.
  - destruct (ct_mutex s); [done|]. unfold resume. destruct (ct_running s !! i) as [p|]; [|done]. cbn.
    destruct p; intros [= <-]; cbn; auto. destruct (is_ready _); cbn; auto.
  - unfold resume. destruct (ct_running s !! i) as [p|]; [|done]. cbn. destruct p; intros [= <-]; cbn; auto.
    intros H. left. eapply update_editing_edits; [|exact H]. intros. by eexists _, _.
  - unfold resume. destruct (ct_running s !! i) as [p|] eqn:Hp; [|done]. by apply loaded_opened.
  - unfold resume. destruct (ct_running s !! i) as [p|]; [|done]. cbn.
    destruct p as [| | |m| | |m| | | | |]; intros [= <-]; destruct (after_mutation m r) as [f|res]; cbn; auto.
    + destruct res; cbn; auto. destruct (is_ready _); auto.
    + intros H. left. by eapply saved_edits.
  - unfold resume. destruct (ct_running s !! i) as [p|]; [|done]. cbn. destruct p; intros [= <-]; cbn; auto.
    intros H. left. eapply update_editing_edits; [|exact H]. intros. by eexists _, _.
  - unfold resume. destruct (ct_running s !! i) as [p|]; [|done]. cbn. destruct p; intros [= <-]; destruct (load_result _ r) as [res|]; cbn; auto.
    + destruct (after_refresh f res); cbn; auto. destruct (is_ready _); auto.
    + intros H. left. by eapply saved_edits.
    + intros H. left. eapply update_editing_edits; [|exact H]. intros. by eexists _, _.
Qed.

Lemma run_inv ls s s' : ctl_inv s → ctl_run view find ls s = Some s' → ctl_inv s' ∧ (forallb uncancelled ls = true → current s → current s').
Proof.
  revert s. induction ls as [|l ls IH]; intros s Hi; cbn; [by intros [= <-]|]. destruct (ctl_step view find l s) as [s1|] eqn:E; [|done]. cbn.
  intros H. destruct (IH s1 (step_inv _ _ _ Hi E) H) as [Hi' Hc]. split; [done|]. intros [Hl Hls]%andb_true_iff Hs. apply Hc; [done|].
  exact (step_current l s s1 Hl Hi Hs E).
Qed.
End Invariant.

(** ** Theorem *)

(** C38: Managing profiles stays consistent.  Whatever the screens call, however
    the coroutines interleave, and whichever calls of the store fail: at most
    one coroutine uses the store at a time; a list that is shown while the mutex
    is free is the one in the store, unless a call that changes the store was
    cancelled; the editor is marked as saving only while a save is on its way.
    As long as there are coroutines one of them can go on, and they all end
    after a bounded number of steps.  The editor opens a profile only with what
    the store has under the id that was asked for last. *)
Theorem profile_controller_consistent `{J : Jvm} `{U : JavaUri} `{T : Toml} `{N : Ffi} {Content} (view : Content → ProfileStoreState)
    (find : Content → str → option SltProfile) ls c s :
  ctl_run view find ls (Ctl_new c) = Some s →
  (∀ i j p q, ct_running s !! i = Some p → ct_running s !! j = Some q → holds p = true → holds q = true → i = j) ∧
  (forallb uncancelled ls = true → ct_mutex s = None → ∀ v, mu_profiles (ct_ui s) = ProfilesReady v → v = view (ct_content s)) ∧
  (is_saving (ct_ui s) = true → ∃ i p, ct_running s !! i = Some p ∧ saving_point p = true) ∧
  (ct_running s ≠ ∅ → ∃ l s', resumes l = true ∧ ctl_step view find l s = Some s') ∧
  (∀ l s', resumes l = true → ctl_step view find l s = Some s' → (all_steps_left (ct_running s') < all_steps_left (ct_running s))%nat) ∧
  (∀ l s' id sid form b, ctl_step view find l s = Some s' → mu_editor (ct_ui s') = Some (EditorEditing (Some id) sid form b) →
     edits (mu_editor (ct_ui s)) id sid ∨ opened find s id sid form).
Proof.
  intros Hr. destruct (run_inv view find ls _ s (new_inv c) Hr) as [Hi Hc]. split_and!.
  - intros i j p q Hp Hq Hhp Hhq. pose proof (ci_holder s Hi i p Hp Hhp). pose proof (ci_holder s Hi j q Hq Hhq). congruence.
  - intros Hl Hm v Hv. apply (Hc Hl); [done|done|]. intros i p Hp. destruct (refreshing p) eqn:E; [|done].
    assert (ct_mutex s = Some i); [|congruence]. eapply ci_holder; [done|done|]. by destruct p.
  - apply (ci_saving s Hi).
  - intros Hne. destruct (resume_possible view find s Hi Hne) as (l & s' & ? & _ & ?). by exists l, s'.
  - intros l s'. apply resume_decreases.
  - intros l s' id sid form b. by apply step_opened.
Qed.

(** ** Witness: a failing deletion while a profile is edited and saved *)
Module ControllerDemo.
Import RoutesDemo AddDemo EditorDemo.

(** The store has the profiles of a list. *)
Abbreviation Content := (list SltProfile).
Definition list_view (c : Content) : ProfileStoreState :=
  mkStoreState ((λ p, mkItem (sp_id p) (pm_name (sp_metadata p)) false) <$> c) None.
Definition list_find (c : Content) (id : list Z) : option SltProfile := List.find (λ p, bool_decide (sp_id p = id)) c.
Definition before : SltProfile := mkProfile [1] [3] (mkMetadata [97] [] (mkDns DnsSystem []) [] (mkAppRules AppsAll [])).
Definition after : SltProfile := mkProfile [1] [3] saved.
Definition calls : list (label Content) :=
  [LLoadProfiles 0; LLocked 0; LLoaded 0 Loaded; LBeginExisting [1]; LLoadEditor 1 1; LAction 2 (MDelete [1]); LLocked 1; LLoaded 1 Loaded;
   LLocked 2; LSave 3 form [97] [3] saved; LMutated 2 OpFailure [before]; LClose; LLocked 3; LMutated 3 (OpSuccess (Some after)) [after];
   LRefreshed 3 Loaded].
Definition last : Ctl Content.
Proof. let r := eval vm_compute in (ctl_run list_view list_find calls (Ctl_new [before])) in match r with Some ?s => exact s end. Defined.
End ControllerDemo.

Lemma profile_controller_consistent_witness :
  let s := ControllerDemo.last in
  ct_mutex s = None ∧ ∀ v, mu_profiles (ct_ui s) = ProfilesReady v → v = ControllerDemo.list_view [ControllerDemo.after].
Proof.
  split; [done|].
  apply (profile_controller_consistent (J := RoutesDemo.ascii) (U := EditorDemo.one_uri) (T := AddDemo.numbered) (N := EditorDemo.plain_text)
    ControllerDemo.list_view ControllerDemo.list_find ControllerDemo.calls [ControllerDemo.before] ControllerDemo.last); [|done|done].
  vm_compute. reflexivity.
Defined.
