(* ===== verification/Logs.v ===== *)
(** * The logs of the Android app
      ([android/.../log/LogStore.kt], [.../log/LogTailer.kt] and the state of
      [.../log/LogsScreen.kt])

    The native library appends the lines of its log to one file per process.
    The app names that file, removes old ones, and shows a file while it grows:
    it reads what is new since the last time and keeps the part of a line that
    is not complete.

    Names are compared by their UTF-16 units.  What another thread does to a
    file while it is read is in the answers of the file system. *)

From Stdlib Require Import Ascii String.
From stdpp Require Import base tactics option list numbers gmap sets sorting.
From Stdlib Require Import ZArith Lia.
From S2P Require Import Prelude RouteRules.

(** [String(bytes, UTF_8)].  A line feed stands for itself and is never part of
    another character, in malformed texts too. *)
Class Utf8Text := { utf8_decode : bytes → str }.
Class Utf8TextLaws (U : Utf8Text) := {
  decode_nil : utf8_decode [] = [];
  decode_newline a b : utf8_decode (a ++ 10 :: b) = utf8_decode a ++ 10 :: utf8_decode b;
  decode_line a : 10 ∉ a → 10 ∉ utf8_decode a;
}.

(** ** The directory ([LogStore.kt]) *)
Definition PREFIX : str := bytes_of_string "slt-".
Definition SUFFIX : str := bytes_of_string ".log".
Definition KEEP_INACTIVE : nat := 5.
Definition MAX_READ_CHUNK : Z := 512 * 1024.

(** The entries of the directory, [None] for those that are not plain files,
    and [activePath]. *)
Record LogDir := mkLogDir { ld_entries : gmap str (option bytes); ld_activePath : option str }.

Fixpoint name_le (a b : str) : bool :=
  match a, b with
  | [], _ => true
  | _ :: _, [] => false
  | x :: a, y :: b => (x <? y) || ((x =? y) && name_le a b)
  end.
Definition name_before (a b : str) : Prop := name_le a b = true.
#[export] Instance name_before_dec a b : Decision (name_before a b).
Proof. unfold name_before. apply _. Defined.

Definition is_log_name (name : str) : bool :=
  bool_decide (PREFIX `prefix_of` name) && bool_decide (SUFFIX `suffix_of` name).
Definition is_file (d : LogDir) (name : str) : bool :=
  match ld_entries d !! name with Some (Some _) => true | _ => false end.
Definition content (d : LogDir) (name : str) : bytes :=
  match ld_entries d !! name with Some (Some c) => c | _ => [] end.

Definition newFilePath (stamp pid : str) (d : LogDir) : LogDir * str :=
  let path := PREFIX ++ stamp ++ bytes_of_string "Z-" ++ pid ++ SUFFIX in
  (mkLogDir (ld_entries d) (Some path), path).

Definition files (d : LogDir) : list str :=
  merge_sort name_before (List.filter (λ n, is_file d n && is_log_name n) (elements (dom (ld_entries d)))).

Definition activeFile (d : LogDir) : option str :=
  match ld_activePath d with
  | Some path => if is_file d path then Some path else last (files d)
  | None => last (files d)
  end.

Definition remove (name : str) (d : LogDir) : LogDir := mkLogDir (delete name (ld_entries d)) (ld_activePath d).
(** [file.delete()] for the files that [unwanted] names; [deletes] tells whether
    the system does it. *)
Fixpoint delete_files (deletes unwanted : str → bool) (names : list str) (d : LogDir) : LogDir :=
  match names with
  | [] => d
  | name :: names => delete_files deletes unwanted names (if unwanted name && deletes name then remove name d else d)
  end.

Definition kept (d : LogDir) (active : str) : list str :=
  active :: take KEEP_INACTIVE
    (merge_sort (λ a b, name_before b a)
      (List.filter (λ n, 0 <? zlen (content d n)) (List.filter (λ n, negb (bool_decide (n = active))) (files d)))).

Definition sweep (deletes : str → bool) (d : LogDir) : LogDir :=
  match activeFile d with
  | None => d
  | Some active => delete_files deletes (λ n, negb (bool_decide (n ∈ kept d active))) (files d) d
  end.

(** [truncates] tells whether the file can be opened and cut; otherwise an
    exception leaves the call. *)
Definition clear (deletes : str → bool) (truncates : bool) (d : LogDir) : res unit LogDir :=
  let active := activeFile d in
  let d := delete_files deletes (λ n, negb (bool_decide (Some n = active))) (files d) d in
  match active with
  | None => Ok d
  | Some name => if truncates then Ok (mkLogDir (<[name := Some []]> (ld_entries d)) (ld_activePath d)) else Err tt
  end.

(** What a read of a file meets: its length, and its content when it is opened
    afterwards, [None] if that fails. *)
Record Read := mkRead { rd_length : Z; rd_opened : option bytes }.

Definition readSince (r : Read) (offset : Z) : bytes * Z :=
  let length := rd_length r in
  if length <? offset then ([], 0) else
  if length =? offset then ([], offset) else
  let toRead := Z.min (length - offset) MAX_READ_CHUNK in
  match rd_opened r with
  | None => ([], 0)
  | Some c => if offset + toRead <=? zlen c then (sub c offset (offset + toRead), offset + toRead) else ([], 0)
  end.

(** ** Following a file ([LogTailer.kt]) *)
Record Tailer := mkTailer { tl_offset : Z; tl_pending : bytes; tl_activeName : option str }.
Inductive PollResult := PollNothing | PollUpdated (clearFirst : bool) (lines : list str).

Definition Tailer_new : Tailer := mkTailer 0 [] None.
Definition reset (t : Tailer) : Tailer := Tailer_new.

(** [indexOfLast]: what is up to and with the last line feed, and the rest. *)
Fixpoint after_newline (b : bytes) : option (bytes * bytes) :=
  match b with
  | [] => None
  | x :: b =>
      match after_newline b with
      | Some (complete, rest) => Some (x :: complete, rest)
      | None => if x =? 10 then Some ([x], b) else None
      end
  end.

Definition dropLast {A} (l : list A) : list A := take (length l - 1) l.

Section Tail.
Context `{U : Utf8Text}.

Definition poll (r : Read) (name : str) (t : Tailer) : Tailer * PollResult :=
  let switched := negb (bool_decide (Some name = tl_activeName t)) in
  let t := if switched then mkTailer 0 [] (Some name) else t in
  let '(new, newOffset) := readSince r (tl_offset t) in
  if bool_decide (new = []) && negb switched then (mkTailer newOffset (tl_pending t) (tl_activeName t), PollNothing) else
  let combined := tl_pending t ++ new in
  let '(lines, pending) :=
    match after_newline combined with
    | Some (complete, rest) => (dropLast (split 10 (utf8_decode complete)), rest)
    | None => ([], combined)
    end in
  (mkTailer newOffset pending (tl_activeName t), PollUpdated switched lines).

(** ** The view ([LogsScreen.kt]) *)
Record Viewer := mkViewer { vw_selected : option str; vw_lines : list str; vw_loaded : bool; vw_tailer : Tailer }.

(** The start of [pollSelectedFile], which another selection starts again. *)
Definition select (name : option str) (v : Viewer) : Viewer :=
  if bool_decide (name = vw_selected v) then v else mkViewer name [] false (reset (vw_tailer v)).
Definition selectFile (name : str) (v : Viewer) : Viewer := select (Some name) v.

Definition updateFromPollResult (result : PollResult) (v : Viewer) : Viewer :=
  match result with
  | PollNothing => v
  | PollUpdated clearFirst lines =>
      mkViewer (vw_selected v) ((if clearFirst then [] else vw_lines v) ++ lines) true (vw_tailer v)
  end.

(** One turn of [pollSelectedFile]; [None] when no file has the selected
    name. *)
Definition poll_selected (r : option Read) (v : Viewer) : Viewer :=
  match vw_selected v, r with
  | Some name, Some r =>
      let '(t, result) := poll r name (vw_tailer v) in
      updateFromPollResult result (mkViewer (vw_selected v) (vw_lines v) (vw_loaded v) t)
  | _, _ => mkViewer (vw_selected v) (vw_lines v) true (vw_tailer v)
  end.

Definition viewer_clear (deletes : str → bool) (truncates : bool) (d : LogDir) (v : Viewer) : res unit (LogDir * Viewer) :=
  d ← clear deletes truncates d;
  Ok (d, select (activeFile d) (mkViewer (vw_selected v) [] (vw_loaded v) (reset (vw_tailer v)))).
End Tail.

(** ** Lines *)
Definition complete_lines (b : bytes) : list bytes := dropLast (split 10 b).
Definition partial_line (b : bytes) : bytes := default [] (last (split 10 b)).

Lemma dropLast_snoc {A} (l : list A) x : dropLast (l ++ [x]) = l.
Proof. unfold dropLast. rewrite length_app. cbn. rewrite Nat.add_sub. by rewrite take_app_length. Qed.
Lemma dropLast_app {A} (l k : list A) : k ≠ [] → dropLast (l ++ k) = l ++ dropLast k.
Proof. intros Hk. destruct k as [|y k] using rev_ind; [done|]. rewrite app_assoc, !dropLast_snoc. done. Qed.

Lemma split_newline c a b : split c (a ++ c :: b) = split c a ++ split c b.
Proof.
  unfold split. destruct (split_at c b) as [q qs] eqn:Eb. induction a as [|x a IH]; cbn.
  - by rewrite Eb, Z.eqb_refl.
  - destruct (split_at c (a ++ c :: b)) as [p ps] eqn:Ea. destruct (split_at c a) as [p' ps'] eqn:Ea'.
    injection IH as -> ->. by destruct (x =? c).
Qed.
Lemma split_whole c a : c ∉ a → split c a = [a].
Proof. intros H. unfold split. by rewrite split_none. Qed.
Lemma split_not_nil c a : split c a ≠ [].
Proof. unfold split. by destruct (split_at c a). Qed.

Lemma after_newline_spec b :
  match after_newline b with
  | Some (complete, rest) => ∃ a, complete = a ++ [10] ∧ b = a ++ 10 :: rest ∧ 10 ∉ rest
  | None => 10 ∉ b
  end.
Proof.
  induction b as [|x b IH]; cbn; [apply not_elem_of_nil|]. destruct (after_newline b) as [ [complete rest]|].
  - destruct IH as (a & -> & -> & H). by exists (x :: a).
  - destruct (Z.eqb_spec x 10) as [->|Hx]; [by exists []|]. apply not_elem_of_cons. by split.
Qed.

Lemma lines_at_newline a rest : 10 ∉ rest → complete_lines (a ++ 10 :: rest) = split 10 a ∧ partial_line (a ++ 10 :: rest) = rest.
Proof. intros H. unfold complete_lines, partial_line. rewrite split_newline, (split_whole 10 rest) by done. by rewrite dropLast_snoc, last_snoc. Qed.
Lemma lines_none a : 10 ∉ a → complete_lines a = [] ∧ partial_line a = a.
Proof. intros H. unfold complete_lines, partial_line. by rewrite split_whole. Qed.

(** Lines of a text that grows. *)
Lemma lines_app a b :
  complete_lines (a ++ b) = complete_lines a ++ complete_lines (partial_line a ++ b) ∧
  partial_line (a ++ b) = partial_line (partial_line a ++ b).
Proof.
  pose proof (after_newline_spec a) as H. destruct (after_newline a) as [ [complete rest]|].
  - destruct H as (a' & _ & -> & Hr). destruct (lines_at_newline a' rest Hr) as [-> ->]. rewrite <- app_assoc, <- app_comm_cons.
    unfold complete_lines, partial_line. rewrite split_newline, dropLast_app by apply split_not_nil. split; [done|].
    rewrite last_app. by destruct (last (split 10 (rest ++ b))) eqn:E; [|apply last_None, split_not_nil in E].
  - by destruct (lines_none a H) as [-> ->].
Qed.

Section TailSpec.
Context `{U : Utf8Text} {UL : Utf8TextLaws U}.

Lemma decode_split a : split 10 (utf8_decode a) = utf8_decode <$> split 10 a.
Proof using UL.
  induction a as [a IH] using (induction_ltof1 _ length). unfold ltof in IH.
  pose proof (after_newline_spec a) as H. destruct (after_newline a) as [ [complete rest]|].
  - destruct H as (a' & _ & -> & Hr). rewrite decode_newline, !split_newline, fmap_app, (split_whole 10 rest) by done.
    rewrite (split_whole 10 (utf8_decode rest)) by (by apply decode_line). rewrite IH; [done|]. rewrite length_app. cbn. lia.
  - by rewrite !split_whole by (done || by apply decode_line).
Qed.

(** *** A turn on a file that only grows *)

(** The file has been read up to [c]. *)
Definition read_up_to (name : str) (c : bytes) (t : Tailer) : Prop :=
  t = mkTailer (zlen c) (partial_line c) (Some name).

Lemma poll_lines combined :
  match after_newline combined with
  | Some (complete, rest) => (dropLast (split 10 (utf8_decode complete)), rest)
  | None => ([], combined)
  end = (utf8_decode <$> complete_lines combined, partial_line combined).
Proof using UL.
  pose proof (after_newline_spec combined) as H. destruct (after_newline combined) as [ [complete rest]|].
  - destruct H as (a & -> & -> & Hr). destruct (lines_at_newline a rest Hr) as [-> ->].
    rewrite decode_newline, split_newline, decode_nil. change (split 10 []) with [@nil Z]. by rewrite dropLast_snoc, decode_split.
  - by destruct (lines_none combined H) as [-> ->].
Qed.

(** What a read from [c] on of a file that starts with [c] gives. *)
Lemma readSince_grown c rest n :
  zlen c ≤ n → n ≤ zlen (c ++ rest) →
  ∃ new, new `prefix_of` rest ∧ readSince (mkRead n (Some (c ++ rest))) (zlen c) = (new, zlen (c ++ new)) ∧
    zlen new = Z.min (n - zlen c) MAX_READ_CHUNK.
Proof.
  intros Hn Hl. pose proof (zlen_nonneg c). unfold readSince, MAX_READ_CHUNK. cbn [rd_length rd_opened].
  rewrite (proj2 (Z.ltb_ge _ _)) by done. destruct (Z.eqb_spec n (zlen c)) as [->|Hne].
  { exists []. split; [by exists rest|]. rewrite app_nil_r. split; [done|]. change (zlen (@nil Z)) with 0. lia. }
  rewrite zlen_app in Hl. rewrite (proj2 (Z.leb_le _ _)) by (rewrite zlen_app; lia). set (k := Z.min _ _).
  rewrite sub_app_r by lia. replace (zlen c - zlen c) with 0 by lia. replace (zlen c + k - zlen c) with k by lia.
  exists (sub rest 0 k). rewrite zlen_app, zlen_sub by lia. split_and!; [|f_equal; lia|lia].
  unfold sub. rewrite drop_0. apply prefix_take.
Qed.

(** The view shows the lines of the part [c] of the file. *)
Definition shows (name : str) (c : bytes) (v : Viewer) : Prop :=
  vw_selected v = Some name ∧ vw_lines v = utf8_decode <$> complete_lines c ∧
  (read_up_to name c (vw_tailer v) ∨ (c = [] ∧ vw_tailer v = Tailer_new)).

Lemma poll_first name lines loaded r new offset :
  readSince r 0 = (new, offset) →
  poll_selected (Some r) (mkViewer (Some name) lines loaded Tailer_new) =
    mkViewer (Some name) (utf8_decode <$> complete_lines new) true (mkTailer offset (partial_line new) (Some name)).
Proof using UL.
  intros Hr. unfold poll_selected, poll. cbn [vw_selected vw_tailer tl_activeName Tailer_new]. rewrite bool_decide_false by done.
  cbn [negb tl_offset tl_pending tl_activeName]. by rewrite Hr, andb_false_r, poll_lines.
Qed.
Lemma poll_next name lines loaded pending r o new offset :
  readSince r o = (new, offset) →
  poll_selected (Some r) (mkViewer (Some name) lines loaded (mkTailer o pending (Some name))) =
    if bool_decide (new = []) then mkViewer (Some name) lines loaded (mkTailer offset pending (Some name))
    else mkViewer (Some name) (lines ++ (utf8_decode <$> complete_lines (pending ++ new))) true (mkTailer offset (partial_line (pending ++ new)) (Some name)).
Proof using UL.
  intros Hr. unfold poll_selected, poll. cbn [vw_selected vw_tailer tl_activeName]. rewrite bool_decide_true by done.
  cbn [negb tl_offset tl_pending tl_activeName]. rewrite Hr, andb_true_r, poll_lines. by destruct (bool_decide (new = [])).
Qed.

Lemma shows_turn name c rest n v :
  shows name c v → zlen c ≤ n → n ≤ zlen (c ++ rest) →
  ∃ new, new `prefix_of` rest ∧ zlen new = Z.min (n - zlen c) MAX_READ_CHUNK ∧
    shows name (c ++ new) (poll_selected (Some (mkRead n (Some (c ++ rest)))) v).
Proof using UL.
  intros (Hs & Hl & Ht) Hn Hn'. destruct (readSince_grown c rest n Hn Hn') as (new & Hp & Hr & Hz). exists new. split_and!; [done..|].
  destruct (lines_app c new) as [Hc Hq]. destruct v as [selected lines loaded t]. cbn in Hs, Hl, Ht. subst selected lines. destruct Ht as [->|[-> ->] ].
  - rewrite (poll_next _ _ _ _ _ _ _ _ Hr). destruct (bool_decide (new = [])) eqn:En.
    + apply bool_decide_eq_true in En as ->. rewrite app_nil_r. by split_and!; [..|left].
    + split_and!; [done| |left; cbn; unfold read_up_to; by rewrite Hq]. cbn [vw_lines]. by rewrite Hc, fmap_app.
  - rewrite (poll_first _ _ _ _ _ _ Hr). by split_and!; [..|left].
Qed.

Definition polls (reads : list Read) (v : Viewer) : Viewer := foldl (λ v r, poll_selected (Some r) v) v reads.

(** A file that had the content [c] and only grows, and its last content. *)
Fixpoint growing (c : bytes) (reads : list Read) : Prop :=
  match reads with
  | [] => True
  | r :: reads => ∃ c', rd_opened r = Some c' ∧ c `prefix_of` c' ∧ zlen c ≤ rd_length r ≤ zlen c' ∧ growing c' reads
  end.
Definition last_content (c : bytes) (reads : list Read) : bytes := foldl (λ c r, default c (rd_opened r)) c reads.

Lemma polls_shows name seen c reads v :
  shows name seen v → seen `prefix_of` c → growing c reads →
  ∃ seen', seen' `prefix_of` last_content c reads ∧ shows name seen' (polls reads v).
Proof using UL.
  revert seen c v. induction reads as [|r reads IH]; intros seen c v Hv Hp Hg; [by exists seen|].
  destruct Hg as (c' & Hr & Hc & Hn & Hg). destruct r as [n opened]. cbn in Hr, Hn. subst opened.
  assert (seen `prefix_of` c') as [rest ->] by (by etrans).
  assert (zlen seen ≤ zlen c) by (destruct Hp as [? ->]; rewrite zlen_app; pose proof (zlen_nonneg x); lia).
  destruct (shows_turn name seen rest n v Hv) as (new & Hnew & _ & Hv'); [lia|lia|].
  cbn. apply (IH (seen ++ new)); [done|by apply prefix_app|done].
Qed.

Lemma polls_finish name seen c k v :
  shows name seen v → seen `prefix_of` c → zlen c ≤ zlen seen + Z.of_nat k * MAX_READ_CHUNK →
  shows name c (polls (replicate k (mkRead (zlen c) (Some c))) v).
Proof using UL.
  revert seen v. induction k as [|k IH]; intros seen v Hv [rest ->] Hk.
  - rewrite zlen_app in Hk. destruct rest; [by rewrite app_nil_r|]. zl in Hk. pose proof (zlen_nonneg rest). lia.
  - destruct (shows_turn name seen rest (zlen (seen ++ rest)) v Hv) as (new & Hnew & Hz & Hv'); [rewrite zlen_app; pose proof (zlen_nonneg rest); lia|lia|].
    cbn [replicate polls foldl]. apply (IH (seen ++ new)); [done|by apply prefix_app|]. unfold MAX_READ_CHUNK in *.
    rewrite !zlen_app in *. lia.
Qed.
End TailSpec.

(** ** The files that stay *)
Lemma name_le_refl a : name_le a a = true.
Proof. induction a as [|x a IH]; [done|]. cbn. by rewrite Z.eqb_refl, IH, orb_true_r. Qed.
#[export] Instance name_before_total : Total name_before.
Proof.
  intros a. unfold name_before. induction a as [|x a IH]; intros b; [by left|]. destruct b as [|y b]; [by right|]. cbn.
  destruct (Z.ltb_spec x y), (Z.ltb_spec y x), (Z.eqb_spec x y), (Z.eqb_spec y x); cbn; try lia; auto.
Qed.
#[export] Instance name_before_trans : Transitive name_before.
Proof.
  intros a. unfold name_before. induction a as [|x a IH]; intros b c; [done|]. destruct b as [|y b]; [done|]. destruct c as [|z c]; [done|]. cbn.
  intros [Hxy|[Hxy%Z.eqb_eq Hab]%andb_true_iff]%orb_true_iff [Hyz|[Hyz%Z.eqb_eq Hbc]%andb_true_iff]%orb_true_iff; apply orb_true_iff.
  - left. lia.
  - left. lia.
  - left. lia.
  - right. apply andb_true_iff. split; [lia|by eapply IH].
Qed.
#[export] Instance name_after_total : Total (λ a b, name_before b a).
Proof. intros a b. destruct (total name_before a b); auto. Qed.
#[export] Instance name_after_trans : Transitive (λ a b, name_before b a).
Proof. intros a b c H1 H2. by apply (name_before_trans c b a). Qed.
Lemma name_before_anti a b : name_before a b → name_before b a → a = b.
Proof.
  unfold name_before. revert b. induction a as [|x a IH]; intros [|y b]; cbn; try done.
  intros [Hxy|[Hxy%Z.eqb_eq Hab]%andb_true_iff]%orb_true_iff [Hyx|[Hyx%Z.eqb_eq Hba]%andb_true_iff]%orb_true_iff; try lia. subst. f_equal. by apply IH.
Qed.

(** In a sorted list an element is among the first [k] if fewer than [k] come
    before it. *)
Lemma take_sorted {A} `{EqDecision A} (R : A → A → Prop) `{∀ x y, Decision (R x y)} (l : list A) x k :
  (∀ x y, R x y → R y x → x = y) → StronglySorted R l → NoDup l →
  x ∈ take k l ↔ x ∈ l ∧ (length (List.filter (λ y, negb (bool_decide (y = x)) && bool_decide (R y x)) l) < k)%nat.
Proof.
  intros Hanti Hs. revert k. induction Hs as [|a l Hs IH Hall]; intros k Hd; [rewrite take_nil; set_solver|].
  apply NoDup_cons in Hd as [Ha Hd]. rewrite Forall_forall in Hall. destruct k as [|k]; [cbn; set_solver by lia|]. cbn [take List.filter].
  rewrite elem_of_cons, (IH k Hd), elem_of_cons. destruct (decide (x = a)) as [->|Hx].
  - split; [|by left]. intros _. split; [by left|]. rewrite (bool_decide_true (a = a)) by done. cbn [negb andb].
    destruct (List.filter _ l) as [|y l'] eqn:E; [cbn; lia|]. exfalso.
    assert (y ∈ List.filter (λ y, negb (bool_decide (y = a)) && bool_decide (R y a)) l) as Hy by (rewrite E; by left).
    apply elem_of_List_filter in Hy as [Hy [_ Hya%bool_decide_eq_true]%andb_true_iff]. apply Ha. by rewrite (Hanti a y (Hall y Hy) Hya).
  - rewrite (bool_decide_false (a = x)) by congruence. cbn [negb andb]. split.
    + intros [?|[Hin Hlt] ]; [done|]. split; [by right|]. rewrite bool_decide_true by (by apply Hall). cbn. lia.
    + intros [ [?|Hin] Hlt]; [done|]. right. rewrite bool_decide_true in Hlt by (by apply Hall). cbn in Hlt. split; [done|lia].
Qed.

Lemma elem_of_files d n : n ∈ files d ↔ is_file d n = true ∧ is_log_name n = true.
Proof.
  unfold files. rewrite merge_sort_Permutation, elem_of_List_filter, elem_of_elements, elem_of_dom, andb_true_iff. split; [tauto|].
  intros [H1 H2]. split; [|done]. unfold is_file in H1. by destruct (ld_entries d !! n).
Qed.
Lemma NoDup_files d : NoDup (files d).
Proof. unfold files. rewrite merge_sort_Permutation. apply NoDup_ListNoDup, List.NoDup_filter, NoDup_ListNoDup, NoDup_elements. Qed.
Lemma files_sorted d : StronglySorted name_before (files d).
Proof. apply (StronglySorted_merge_sort _). Qed.

Lemma last_greatest l x : StronglySorted name_before l → x ∈ l → (∀ y, y ∈ l → name_before y x) → last l = Some x.
Proof.
  intros Hs Hx Hall. destruct l as [|z l _] using rev_ind; [by apply elem_of_nil in Hx|]. rewrite last_snoc. f_equal.
  apply name_before_anti; [apply Hall; set_solver|]. apply elem_of_app in Hx as [Hx| ->%list_elem_of_singleton]; [|by apply name_le_refl].
  eapply StronglySorted_app_1_elem_of; [done..|by left].
Qed.

Lemma delete_files_lookup deletes unwanted names d n :
  ld_entries (delete_files deletes unwanted names d) !! n =
    (if bool_decide (n ∈ names) && unwanted n && deletes n then None else ld_entries d !! n) ∧
  ld_activePath (delete_files deletes unwanted names d) = ld_activePath d.
Proof.
  revert d. induction names as [|m names IH]; intros d; cbn [delete_files]; [done|]. destruct (IH (if unwanted m && deletes m then remove m d else d)) as [-> ->].
  destruct (decide (n = m)) as [->|Hn].
  - rewrite (bool_decide_true (m ∈ m :: names)) by (by left). cbn [andb]. destruct (unwanted m), (deletes m); cbn [andb]; rewrite ?andb_false_r; [|done..].
    split; [|done]. cbn. rewrite lookup_delete_eq. by destruct (bool_decide _).
  - rewrite (bool_decide_ext (n ∈ m :: names) (n ∈ names)) by set_solver. destruct (unwanted m && deletes m); [|done].
    cbn. by rewrite lookup_delete_ne.
Qed.

(** The other logs with content that are newer than [n]. *)
Definition newer (d : LogDir) (active n : str) : list str :=
  List.filter (λ m, negb (bool_decide (m = n)) && name_le n m)
    (List.filter (λ m, 0 <? zlen (content d m)) (List.filter (λ m, negb (bool_decide (m = active))) (files d))).

Lemma filter_count {A} (f g : A → bool) (l k : list A) :
  (∀ x, f x = g x) → l ≡ₚ k → length (List.filter f l) = length (List.filter g k).
Proof.
  intros Hfg. induction 1 as [|x l k _ IH|x y l|l k k' _ IH1 _ IH2]; cbn.
  - done.
  - rewrite Hfg. destruct (g x); cbn; by rewrite IH.
  - rewrite (List.filter_ext f g Hfg), !Hfg. by destruct (g x), (g y).
  - rewrite IH1, <- IH2. by rewrite (List.filter_ext f g Hfg).
Qed.

Lemma elem_of_kept d active n :
  n ∈ kept d active ↔ n = active ∨ (n ∈ files d ∧ content d n ≠ [] ∧ n ≠ active ∧ (length (newer d active n) < KEEP_INACTIVE)%nat).
Proof.
  unfold kept. rewrite elem_of_cons. set (l := List.filter _ (List.filter _ _)).
  assert (NoDup l) as Hd by (unfold l; rewrite !NoDup_ListNoDup; do 2 apply List.NoDup_filter; rewrite <- NoDup_ListNoDup; apply NoDup_files).
  rewrite (take_sorted (λ a b, name_before b a)).
  - unfold newer. fold l. assert (∀ x, negb (bool_decide (x = n)) && bool_decide (name_before n x) = negb (bool_decide (x = n)) && name_le n x) as Hf.
    { intros x. f_equal. destruct (name_le n x) eqn:E; [by apply bool_decide_true|apply bool_decide_false; unfold name_before; congruence]. }
    rewrite (filter_count _ _ _ _ Hf (merge_sort_Permutation _ l)), merge_sort_Permutation. unfold l.
    rewrite !elem_of_List_filter, negb_true_iff, bool_decide_eq_false, Z.ltb_lt.
    assert (0 < zlen (content d n) ↔ content d n ≠ []) as -> by (destruct (content d n); cbn; [done|split; [done|intros _; unfold zlen; cbn; lia] ]). tauto.
  - intros x y Hx Hy. by apply name_before_anti.
  - apply (StronglySorted_merge_sort _).
  - by rewrite merge_sort_Permutation.
Qed.

(** The logs that a sweep is to remove. *)
Definition outdated (d : LogDir) (active n : str) : Prop :=
  n ∈ files d ∧ n ≠ active ∧ (content d n = [] ∨ (KEEP_INACTIVE ≤ length (newer d active n))%nat).

Section Sweep.
Context (deletes : str → bool) (d : LogDir) (active : str) (Ha : activeFile d = Some active).

Lemma sweep_lookup n :
  (outdated d active n → deletes n = true → ld_entries (sweep deletes d) !! n = None) ∧
  (¬ outdated d active n ∨ deletes n = false → ld_entries (sweep deletes d) !! n = ld_entries d !! n).
Proof using Ha.
  unfold sweep. rewrite Ha.
  destruct (delete_files_lookup deletes (λ n, negb (bool_decide (n ∈ kept d active))) (files d) d n) as [-> _].
  pose proof (elem_of_kept d active n) as Hk. unfold outdated. destruct (bool_decide (n ∈ files d)) eqn:Ef; cbn [andb].
  2: { apply bool_decide_eq_false in Ef. tauto. }
  apply bool_decide_eq_true in Ef. destruct (bool_decide (n ∈ kept d active)) eqn:Ek; cbn [negb andb].
  - apply bool_decide_eq_true in Ek. split; [|done]. intros (_ & H1 & H2) _. apply Hk in Ek as [?|(_ & ? & _ & ?)]; [done|].
    destruct H2 as [?|?]; [done|lia].
  - apply bool_decide_eq_false in Ek. rewrite Hk in Ek. destruct (deletes n); [|done]. split; [done|]. intros [Hn|?]; [|done]. exfalso. apply Hn.
    split; [done|]. destruct (decide (n = active)), (decide (content d n = [])), (decide (length (newer d active n) < KEEP_INACTIVE)%nat);
      try tauto; split_and!; auto; right; lia.
Qed.

Lemma swept_file n : is_file (sweep deletes d) n = true → is_file d n = true ∧ (outdated d active n → deletes n = false).
Proof using Ha.
  destruct (sweep_lookup n) as [H1 H2]. unfold is_file. intros H. destruct (deletes n) eqn:Ed.
  - destruct (ld_entries (sweep deletes d) !! n) eqn:E; [|done].
    assert (¬ outdated d active n) as Hn by (intros Hn; by specialize (H1 Hn eq_refl)). rewrite <- H2 by (by left). split; [done|]. by intros ?%Hn.
  - rewrite H2 in H by (by right). by rewrite H.
Qed.

Lemma sweep_active_file : is_file (sweep deletes d) active = true ∧ (active ∈ files d → active ∈ files (sweep deletes d)).
Proof using Ha.
  assert (is_file d active = true) as Hf.
  { unfold activeFile in Ha. destruct (ld_activePath d) as [p|]; [destruct (is_file d p) eqn:E; [congruence|] |];
      by apply last_Some_elem_of, elem_of_files in Ha as [? _]. }
  assert (is_file (sweep deletes d) active = true) as Hf'.
  { destruct (sweep_lookup active) as [_ H]. unfold is_file in *. rewrite H; [done|]. left. by intros (_ & ? & _). }
  split; [done|]. rewrite !elem_of_files. tauto.
Qed.

Lemma sweep_active : activeFile (sweep deletes d) = Some active.
Proof using Ha.
  destruct sweep_active_file as [Hf Hin].
  assert (ld_activePath (sweep deletes d) = ld_activePath d) as Hp.
  { unfold sweep. rewrite Ha. by destruct (delete_files_lookup deletes (λ n, negb (bool_decide (n ∈ kept d active))) (files d) d []). }
  assert (last (files d) = Some active → last (files (sweep deletes d)) = Some active) as Hlast.
  { intros Hl. pose proof (files_sorted d) as Hs. apply last_greatest; [apply files_sorted|by apply Hin, last_Some_elem_of|].
    intros y [ [Hy _]%swept_file Hy']%elem_of_files. assert (y ∈ files d) as Hyd by (by apply elem_of_files).
    apply last_Some in Hl as [l El]. rewrite El in *. apply elem_of_app in Hyd as [Hyd| ->%list_elem_of_singleton]; [|by apply name_le_refl].
    eapply StronglySorted_app_1_elem_of; [done..|by left]. }
  pose proof Ha as Ha'. unfold activeFile in Ha' |- *. rewrite Hp. destruct (ld_activePath d) as [p|]; [|auto]. destruct (is_file d p) eqn:E.
  - injection Ha' as ->. by rewrite Hf.
  - destruct (is_file (sweep deletes d) p) eqn:E'; [|auto]. apply swept_file in E' as [? _]. congruence.
Qed.

Lemma sweep_count : (∀ n, deletes n = true) → (length (files (sweep deletes d)) ≤ S KEEP_INACTIVE)%nat.
Proof using Ha.
  intros Hd. etrans; [apply (submseteq_length _ (kept d active))|unfold kept; cbn [length]; rewrite length_take; lia].
  apply NoDup_submseteq; [apply NoDup_files|]. intros n [ [Hf Ho]%swept_file Hl]%elem_of_files. apply elem_of_kept.
  destruct (decide (n = active)) as [|Hn]; [by left|right]. assert (n ∈ files d) by (by apply elem_of_files).
  rewrite Hd in Ho. split_and!; [done| |done|].
  - intros Hc. enough (true = false) by done. apply Ho. split_and!; auto.
  - destruct (decide (length (newer d active n) < KEEP_INACTIVE)%nat) as [|Hlt]; [done|]. enough (true = false) by done. apply Ho. split_and!; [done..|right; lia].
Qed.
End Sweep.

(** ** Theorems *)

(** Removing old logs.  The file that is written to stays, and so does
    everything that is not a log.  Another log goes, if the system lets it,
    exactly when it is empty or there are five newer ones that are not.  If
    nothing hinders the removal, six logs are left at most. *)
Theorem log_sweep_exact deletes d :
  match activeFile d with
  | None => sweep deletes d = d ∧ files d = []
  | Some active =>
      (∀ n, outdated d active n → deletes n = true → ld_entries (sweep deletes d) !! n = None) ∧
      (∀ n, ¬ outdated d active n ∨ deletes n = false → ld_entries (sweep deletes d) !! n = ld_entries d !! n) ∧
      activeFile (sweep deletes d) = Some active ∧
      ((∀ n, deletes n = true) → (length (files (sweep deletes d)) ≤ 6)%nat)
  end.
Proof.
  destruct (activeFile d) as [active|] eqn:Ea.
  - split_and!; [intros n; by apply sweep_lookup..|by apply sweep_active|by eapply sweep_count].
  - unfold sweep. rewrite Ea. split; [done|]. apply last_None. unfold activeFile in Ea. destruct (ld_activePath d); [|done]. by destruct (is_file d _).
Qed.

(** The view shows the file.  From the selection of a file on, while the file
    only grows, the lines shown are those of a part of the file from its start:
    every complete line once, in order and decoded as a whole, however the reads
    cut the lines and characters.  Once the file no longer grows, as many turns
    as it has chunks show all of it. *)
Theorem log_view_exact `{U : Utf8Text} {UL : Utf8TextLaws U} name v reads :
  vw_selected v ≠ Some name → growing [] reads →
  let c := last_content [] reads in
  let v' := polls reads (selectFile name v) in
  (∃ seen, seen `prefix_of` c ∧ vw_lines v' = utf8_decode <$> complete_lines seen) ∧
  ∀ k, zlen c ≤ Z.of_nat k * MAX_READ_CHUNK →
    vw_lines (polls (replicate k (mkRead (zlen c) (Some c))) v') = utf8_decode <$> complete_lines c.
Proof.
  intros Hs Hg c v'. assert (shows name [] (selectFile name v)) as H0.
  { unfold selectFile, select. rewrite bool_decide_false by done. split_and!; [done|done|by right]. }
  destruct (polls_shows name [] [] reads _ H0) as (seen & Hp & Hv); [done..|]. fold c v' in Hp, Hv. split.
  - exists seen. split; [done|]. apply Hv.
  - intros k Hk. apply (polls_finish name seen); [done..|]. pose proof (zlen_nonneg seen). lia.
Qed.

(** A read that fails shows lines twice.  A file with one complete line is
    shown, it grows, a read fails after the length was asked for, and the next
    one succeeds: the first line is shown again, behind the part [b] of the next
    line that had been read. *)
Theorem log_read_failure_repeats `{U : Utf8Text} {UL : Utf8TextLaws U} name v a b c :
  vw_selected v ≠ Some name → 10 ∉ a → 10 ∉ b → 10 ∉ c → zlen a + zlen b + zlen c + 2 ≤ MAX_READ_CHUNK →
  let text := a ++ 10 :: b in
  let grown := text ++ c ++ [10] in
  vw_lines (polls [mkRead (zlen text) (Some text); mkRead (zlen grown) None; mkRead (zlen grown) (Some grown)] (selectFile name v)) =
    utf8_decode <$> [a; b ++ a; b ++ c].
Proof.
  intros Hs Ha Hb Hc Hz text grown. pose proof (zlen_nonneg c). pose proof (zlen_nonneg a). pose proof (zlen_nonneg b).
  assert (zlen text = zlen a + 1 + zlen b) as Ht by (unfold text; zl; lia). assert (zlen grown = zlen text + zlen c + 1) as Hg by (unfold grown; zl; lia).
  unfold selectFile, select. rewrite bool_decide_false by done. unfold polls. cbn [foldl].
  assert (∀ t, t ≠ [] → zlen t ≤ MAX_READ_CHUNK → readSince (mkRead (zlen t) (Some t)) 0 = (t, zlen t)) as Hall.
  { intros t Hne Hl. destruct (readSince_grown [] t (zlen t)) as (new & [rest Et] & E & Hn); [apply zlen_nonneg|done|].
    change (readSince (mkRead (zlen t) (Some t)) 0 = ([] ++ new, zlen ([] ++ new))) in E. change (zlen (@nil Z)) with 0 in Hn.
    rewrite Et, zlen_app in Hl, Hn. assert (zlen rest = 0) as Hr by lia. destruct rest; [|unfold zlen in Hr; cbn in Hr; lia].
    rewrite app_nil_r in Et. by rewrite E, Et. }
  rewrite (poll_first _ _ _ _ _ _ (Hall text ltac:(unfold text; by destruct a) ltac:(lia))).
  destruct (lines_at_newline a b Hb) as [Hl1 Hl2]. fold text in Hl1, Hl2. rewrite Hl1, Hl2, split_whole by done.
  erewrite poll_next. 2: { unfold readSince. cbn [rd_length rd_opened]. rewrite (proj2 (Z.ltb_ge _ _)), (proj2 (Z.eqb_neq _ _)) by lia. done. }
  rewrite bool_decide_true by done. erewrite poll_next by (apply Hall; [unfold grown, text; by destruct a|lia]).
  rewrite bool_decide_false by (unfold grown, text; by destruct a). cbn [vw_lines].
  assert (b ++ grown = (b ++ a ++ 10 :: b ++ c) ++ 10 :: []) as -> by (unfold grown, text; rewrite <- !app_assoc; cbn; by rewrite <- app_assoc).
  destruct (lines_at_newline (b ++ a ++ 10 :: b ++ c) []) as [-> _]; [apply not_elem_of_nil|].
  by rewrite app_assoc, split_newline, !split_whole by set_solver.
Qed.

(** ** Witness *)
Module LogsDemo.
#[export] Instance latin : Utf8Text := {| utf8_decode b := b |}.
#[export] Instance latin_laws : Utf8TextLaws latin.
Proof. by split. Qed.
Definition file_name : list Z := bytes_of_string "slt-1.log"%string.
Definition viewer : Viewer := mkViewer None [] false Tailer_new.
Definition first : bytes := [65; 10; 66].
Definition second : bytes := [65; 10; 66; 67; 10; 68].
Definition reads : list Read := [mkRead 2 (Some first); mkRead 3 (Some second); mkRead 6 (Some second)].
End LogsDemo.
Import LogsDemo.

Lemma log_view_exact_witness :
  vw_lines (polls LogsDemo.reads (selectFile LogsDemo.file_name LogsDemo.viewer)) = [[65]; [66; 67]] ∧
  ∃ seen, seen `prefix_of` LogsDemo.second ∧
    vw_lines (polls LogsDemo.reads (selectFile LogsDemo.file_name LogsDemo.viewer)) = utf8_decode <$> complete_lines seen.
Proof.
  split; [vm_compute; reflexivity|].
  apply (log_view_exact (UL := LogsDemo.latin_laws) LogsDemo.file_name LogsDemo.viewer LogsDemo.reads); [discriminate|].
  exists LogsDemo.first. split; [reflexivity|]. split; [apply prefix_nil|]. split; [split; vm_compute; discriminate|].
  exists LogsDemo.second. split; [reflexivity|]. split; [exists [67; 10; 68]; reflexivity|]. split; [split; vm_compute; discriminate|].
  exists LogsDemo.second. split; [reflexivity|]. split; [reflexivity|]. split; [split; vm_compute; discriminate|exact I].
Defined.
