(* ===== verification/ConnectionTest.v ===== *)
(** * Connection tests of the Android app
      ([android/.../connection/ConnectionTestRunner.kt],
      [.../ui/main/MainScreenActions.kt], [.../ui/main/MainScreenState.kt])

    The app requests the test URLs of the active profile at the same time, and
    shows for each the addresses of its host, the path that the routes give
    them, and how the request ended.  With custom DNS servers it asks them
    itself, over UDP: it builds the query and reads the answer byte by byte.

    Sockets, random numbers and the HTTP library are answers of an environment.
    An exception that is not an [IOException] is a panic of the parser or
    leaves the test. *)

From Stdlib Require Import Ascii String.
From stdpp Require Import base tactics option list numbers sets.
From Stdlib Require Import ZArith Lia.
From S2P Require Import Prelude Effects RouteRules VpnPlan VpnStatus ProfileStore NativeSession ProfileEditor.

(** [IDN.toASCII], [None] when it throws. *)
Class Idn := { idn_toASCII : str → option str }.

(** The messages of the [IOException]s. *)
Inductive DnsIoError :=
  | ShortResponse | MismatchedId | NoResponseFlag | TruncatedResponse | ResponseCode (code : Z) | TruncatedAnswer
  | TruncatedName | TruncatedPointer | PointerOutOfBounds | UnsupportedLabel | TruncatedData
  | InvalidLabel | NameTooLong | EmptyHostname | InvalidDnsName | NoDnsServers | SocketFailed
  | NotResolvedBy (failures : list (InetAddress * Z * DnsIoError)).

Inductive DnsQueryType := A | AAAA.
Definition type_code (t : DnsQueryType) : Z := match t with A => 1 | AAAA => 28 end.
Definition addressLength (t : DnsQueryType) : Z := match t with A => 4 | AAAA => 16 end.

Definition DNS_MAX_UDP_PACKET_SIZE : Z := 512.
Definition DNS_HEADER_LENGTH : Z := 12.
Definition DNS_QUESTION_TRAILER_LENGTH : Z := 4.
Definition DNS_ANSWER_FIXED_LENGTH : Z := 10.
Definition DNS_CLASS_IN : Z := 1.
Definition DNS_RECURSION_DESIRED_FLAG : Z := 0x0100.
Definition DNS_RESPONSE_FLAG : Z := 0x8000.
Definition DNS_TRUNCATED_FLAG : Z := 0x0200.
Definition DNS_RESPONSE_CODE_MASK : Z := 0x000f.
Definition DNS_LABEL_POINTER_MASK : Z := 0xc0.
Definition DNS_LABEL_POINTER_VALUE_MASK : Z := 0x3f.
Definition DNS_MAX_LABEL_LENGTH : Z := 63.
Definition DNS_MAX_ENCODED_NAME_LENGTH : Z := 255.

Abbreviation R := (res DnsIoError).

(** ** Bytes *)
Definition readUnsignedShort (bs : bytes) (offset : Z) : R Z :=
  if offset + 2 >? zlen bs then Err TruncatedData else
  hi ← index bs offset;
  lo ← index bs (offset + 1);
  Ok (Z.lor (Z.shiftl hi 8) lo).

Definition set_byte (bs : bytes) (offset value : Z) : R bytes :=
  if (0 <=? offset) && (offset <? zlen bs) then Ok (<[Z.to_nat offset := value mod 256]> bs) else Panic.
Definition writeUnsignedShort (bs : bytes) (offset value : Z) : R bytes :=
  bs ← set_byte bs offset (Z.shiftr value 8);
  set_byte bs (offset + 1) value.
(** [copyInto] *)
Definition copyInto (src dst : bytes) (offset : Z) : R bytes :=
  if (0 <=? offset) && (offset + zlen src <=? zlen dst) then Ok (sub dst 0 offset ++ src ++ sub dst (offset + zlen src) (zlen dst)) else Panic.

Definition checkedAdvance (offset length limit : Z) : R Z :=
  let nextOffset := offset + length in
  if nextOffset >? limit then Err TruncatedData else Ok nextOffset.

(** [encodeToByteArray]; a lone surrogate becomes a question mark. *)
Fixpoint encodeToByteArray (s : str) : bytes :=
  match s with
  | [] => []
  | c :: s =>
      if c <? 0x80 then c :: encodeToByteArray s
      else if c <? 0x800 then 0xc0 + c / 64 :: 0x80 + c mod 64 :: encodeToByteArray s
      else if (0xd800 <=? c) && (c <? 0xdc00) then
        match s with
        | d :: s' =>
            if (0xdc00 <=? d) && (d <? 0xe000) then
              let u := 0x10000 + (c - 0xd800) * 0x400 + (d - 0xdc00) in
              0xf0 + u / 0x40000 :: 0x80 + u / 0x1000 mod 64 :: 0x80 + u / 64 mod 64 :: 0x80 + u mod 64 :: encodeToByteArray s'
            else 63 :: encodeToByteArray s
        | [] => [63]
        end
      else if (0xdc00 <=? c) && (c <? 0xe000) then 63 :: encodeToByteArray s
      else 0xe0 + c / 0x1000 :: 0x80 + c / 64 mod 64 :: 0x80 + c mod 64 :: encodeToByteArray s
  end.

(** ** The query *)
Fixpoint encode_labels (labels : list str) : R bytes :=
  match labels with
  | [] => Ok []
  | label :: labels =>
      let labelBytes := encodeToByteArray label in
      if bool_decide (labelBytes = []) || (zlen labelBytes >? DNS_MAX_LABEL_LENGTH) then Err InvalidLabel else
      output ← encode_labels labels;
      Ok (zlen labelBytes :: labelBytes ++ output)
  end.

Definition encodeDnsName (hostname : str) : R bytes :=
  output ← encode_labels (split DOT hostname);
  let encoded := output ++ [0] in
  if zlen encoded >? DNS_MAX_ENCODED_NAME_LENGTH then Err NameTooLong else Ok encoded.

Definition buildDnsQuery (queryId : Z) (hostname : str) (queryType : DnsQueryType) : R bytes :=
  encodedName ← encodeDnsName hostname;
  let query := zeros (DNS_HEADER_LENGTH + zlen encodedName + DNS_QUESTION_TRAILER_LENGTH) in
  query ← writeUnsignedShort query 0 queryId;
  query ← writeUnsignedShort query 2 DNS_RECURSION_DESIRED_FLAG;
  query ← writeUnsignedShort query 4 1;
  query ← copyInto encodedName query DNS_HEADER_LENGTH;
  let questionOffset := DNS_HEADER_LENGTH + zlen encodedName in
  query ← writeUnsignedShort query questionOffset (type_code queryType);
  writeUnsignedShort query (questionOffset + 2) DNS_CLASS_IN.

(** ** The response *)
Fixpoint skip_from (fuel : nat) (message : bytes) (offset : Z) : R Z :=
  match fuel with
  | O => Panic
  | S fuel =>
      if offset >=? zlen message then Err TruncatedName else
      length ← index message offset;
      let kind := Z.land length DNS_LABEL_POINTER_MASK in
      if kind =? DNS_LABEL_POINTER_MASK then
        if offset + 1 >=? zlen message then Err TruncatedPointer else
        next ← index message (offset + 1);
        let pointer := Z.lor (Z.shiftl (Z.land length DNS_LABEL_POINTER_VALUE_MASK) 8) next in
        if pointer >=? zlen message then Err PointerOutOfBounds else Ok (offset + 2)
      else if kind =? 0 then
        let offset := offset + 1 in
        if length =? 0 then Ok offset else
        offset ← checkedAdvance offset length (zlen message);
        skip_from fuel message offset
      else Err UnsupportedLabel
  end.
(** Every turn goes forward in the message. *)
Definition skipDnsName (message : bytes) (startOffset : Z) : R Z := skip_from (S (length message)) message startOffset.

Fixpoint skip_questions (n : nat) (response : bytes) (offset : Z) : R Z :=
  match n with
  | O => Ok offset
  | S n =>
      offset ← skipDnsName response offset;
      offset ← checkedAdvance offset DNS_QUESTION_TRAILER_LENGTH (zlen response);
      skip_questions n response offset
  end.

(** [InetAddress.getByAddress]; an address that maps IPv4 is one. *)
Definition mapped_prefix : bytes := zeros 10 ++ [255; 255].
Definition getByAddress (b : bytes) : R InetAddress :=
  if zlen b =? 4 then Ok (Inet4 b)
  else if zlen b =? 16 then Ok (if bool_decide (sub b 0 12 = mapped_prefix) then Inet4 (sub b 12 16) else Inet6 b)
  else Err InvalidDnsName.

Fixpoint read_answers (n : nat) (response : bytes) (queryType : DnsQueryType) (offset : Z) : R (list InetAddress) :=
  match n with
  | O => Ok []
  | S n =>
      offset ← skipDnsName response offset;
      if offset + DNS_ANSWER_FIXED_LENGTH >? zlen response then Err TruncatedAnswer else
      answerType ← readUnsignedShort response offset;
      answerClass ← readUnsignedShort response (offset + 2);
      dataLength ← readUnsignedShort response (offset + 8);
      let offset := offset + DNS_ANSWER_FIXED_LENGTH in
      dataEnd ← checkedAdvance offset dataLength (zlen response);
      addresses ← (if (answerClass =? DNS_CLASS_IN) && (answerType =? type_code queryType) && (dataLength =? addressLength queryType)
                   then data ← slice response offset dataEnd; address ← getByAddress data; Ok [address]
                   else Ok []);
      rest ← read_answers n response queryType dataEnd;
      Ok (addresses ++ rest)
  end.

Definition parseDnsResponse (response : bytes) (expectedQueryId : Z) (queryType : DnsQueryType) : R (list InetAddress) :=
  if zlen response <? DNS_HEADER_LENGTH then Err ShortResponse else
  queryId ← readUnsignedShort response 0;
  if negb (queryId =? expectedQueryId) then Err MismatchedId else
  flags ← readUnsignedShort response 2;
  if Z.land flags DNS_RESPONSE_FLAG =? 0 then Err NoResponseFlag else
  if negb (Z.land flags DNS_TRUNCATED_FLAG =? 0) then Err TruncatedResponse else
  let responseCode := Z.land flags DNS_RESPONSE_CODE_MASK in
  if negb (responseCode =? 0) then Err (ResponseCode responseCode) else
  questionCount ← readUnsignedShort response 4;
  answerCount ← readUnsignedShort response 6;
  offset ← skip_questions (Z.to_nat questionCount) response DNS_HEADER_LENGTH;
  read_answers (Z.to_nat answerCount) response queryType offset.

(** ** Custom servers ([CustomServerDns]) *)

(** The random numbers, and what the socket receives, [None] if it throws. *)
Record DnsEnv := mkDnsEnv { de_id : Z → Z; de_receive : Z → option bytes }.
(** The number of queries, and what was asked: where, the number, and what came
    back. *)
Record Asked := mkAsked { as_server : InetAddress; as_query : bytes; as_reply : option bytes }.
Record DnsState := mkDnsState { dt_tick : Z; dt_asked : list Asked }.

Section Lookup.
Context `{J : Jvm} `{I : Idn} (env : DnsEnv).
Abbreviation M := (eff DnsState DnsIoError).

Definition is_digit (c : Z) : bool := bool_decide (is_Some (digit c)).
Fixpoint parse_octets (parts : list str) : option bytes :=
  match parts with
  | [] => Some []
  | part :: parts =>
      if bool_decide (part = []) || (zlen part >? 3) || negb (forallb is_digit part) then None else
      match digits_from 0 part with
      | None => None
      | Some value => if value <=? 255 then cons value <$> parse_octets parts else None
      end
  end.
Definition parseIpv4Address (address : str) : option InetAddress :=
  let parts := split DOT address in
  if negb (zlen parts =? 4) then None else Inet4 <$> parse_octets parts.

Fixpoint trim_dots (s : str) : str := match s with c :: s' => if c =? DOT then trim_dots s' else s | [] => [] end.
Definition asciiDnsName (hostname : str) : R str :=
  let trimmed := reverse (trim_dots (reverse hostname)) in
  if isBlank trimmed then Err EmptyHostname else
  match idn_toASCII trimmed with Some ascii => Ok ascii | None => Err InvalidDnsName end.

Definition next_id : M Z := λ s, (mkDnsState (dt_tick s + 1) (dt_asked s), ORet (de_id env (dt_tick s))).
Definition exchange (server : InetAddress) (query : bytes) : M (option bytes) := λ s,
  let reply := de_receive env (dt_tick s) in
  (mkDnsState (dt_tick s + 1) (mkAsked server query reply :: dt_asked s), ORet reply).

Definition queryServer (server : InetAddress) (hostname : str) (queryType : DnsQueryType) : M (list InetAddress) :=
  queryId ← next_id;
  query ← try id (buildDnsQuery queryId hostname queryType);
  reply ← exchange server query;
  match reply with
  | None => fail SocketFailed
  | Some datagram => try id (parseDnsResponse (take (Z.to_nat DNS_MAX_UDP_PACKET_SIZE) datagram) queryId queryType)
  end.

Definition failure := (InetAddress * Z * DnsIoError)%type.
(** The first server that answers; with the failures of those before. *)
Fixpoint lookupType (servers : list InetAddress) (hostname : str) (queryType : DnsQueryType) : M (list InetAddress * list failure) :=
  match servers with
  | [] => mret ([], [])
  | server :: servers =>
      r ← result (queryServer server hostname queryType);
      match r with
      | Ok addresses => mret (addresses, [])
      | Err e =>
          '(addresses, failures) ← lookupType servers hostname queryType;
          mret (addresses, (server, type_code queryType, e) :: failures)
      | Panic => panic
      end
  end.

(** [distinctBy { hostAddress }] *)
Fixpoint distinct_hosts (seen : list str) (l : list InetAddress) : list InetAddress :=
  match l with
  | [] => []
  | a :: l => if bool_decide (hostAddress a ∈ seen) then distinct_hosts seen l else a :: distinct_hosts (hostAddress a :: seen) l
  end.

Definition custom_lookup (servers : list str) (hostname : str) : M (list InetAddress) :=
  let serverAddresses := omap parseIpv4Address servers in
  if bool_decide (serverAddresses = []) then fail NoDnsServers else
  asciiHostname ← try id (asciiDnsName hostname);
  '(a4, f4) ← lookupType serverAddresses asciiHostname A;
  '(a6, f6) ← lookupType serverAddresses asciiHostname AAAA;
  let addresses := distinct_hosts [] (a4 ++ a6) in
  if negb (bool_decide (addresses = [])) then mret addresses else fail (NotResolvedBy (f4 ++ f6)).

(** The resolver of a profile, where a lookup of the platform's is given. *)
Definition dnsFor (system : str → R (list InetAddress)) (dns : DnsSettings) (hostname : str) : R (list InetAddress) :=
  match dn_mode dns with
  | DnsSystem => system hostname
  | DnsCustom =>
      match (custom_lookup (dn_servers dns) hostname (mkDnsState 0 [])).2 with
      | ORet addresses => Ok addresses
      | OErr e => Err e
      | OPanic | OCancel => Panic
      end
  end.
End Lookup.

(** ** One test ([runOne]) *)
Inductive ConnectionTestPhase := Resolving | Checking | Done.
Inductive ExpectedNetworkPath := PathVpn | PathDirect | PathMixed.
Inductive test_failure := UrlHasNoHost | DnsFailed (e : DnsIoError) | GetFailed | GetReturned (code : Z).
Inductive ConnectionTestOutcome := TestSuccess (statusCode : Z) | TestFailure (message : test_failure).
Record ConnectionTestEntry := mkEntry {
  te_url : str;
  te_phase : ConnectionTestPhase;
  te_resolvedAddresses : list str;
  te_expectedPath : ExpectedNetworkPath;
  te_outcome : option ConnectionTestOutcome;
}.

#[export] Instance path_eq_dec : EqDecision ExpectedNetworkPath.
Proof. solve_decision. Defined.

Section Runner.
Context `{J : Jvm} `{U : JavaUri}.

Definition expectedPathForAddress (routes : list VpnRouteRule) (address : str) : res RouteError ExpectedNetworkPath :=
  route ← vpnRouteActionForAddress routes address;
  Ok (match route with
      | Some route => if negb (vr_excluded route) then PathVpn else PathDirect
      | None => PathDirect
      end).

Definition expectedPathForAddresses (routes : list VpnRouteRule) (addresses : list InetAddress) : res RouteError ExpectedNetworkPath :=
  paths ← traverse (λ address, expectedPathForAddress routes (hostAddress address)) addresses;
  Ok (match distinct paths with
      | [] => PathDirect
      | [path] => path
      | _ => PathMixed
      end).

(** [OkHttpTestHttpClient.get]: the code of the response, [None] when the call
    throws an [IOException]. *)
Definition http_outcome (code : option Z) : ConnectionTestOutcome :=
  match code with
  | None => TestFailure GetFailed
  | Some code => if (200 <=? code) && (code <=? 399) then TestSuccess code else TestFailure (GetReturned code)
  end.
(** [PinnedHostDns.lookup] *)
Definition pinned_lookup (same_host : str → str → bool) (host : str) (addresses : list InetAddress)
    (fallback : str → res DnsIoError (list InetAddress)) (hostname : str) : res DnsIoError (list InetAddress) :=
  if same_host hostname host then Ok addresses else fallback hostname.

(** What the test of one URL meets: the resolver, and the HTTP library, which
    asks a resolver for the hosts of its connections. *)
Record TestEnv := mkTestEnv {
  tv_lookup : str → res DnsIoError (list InetAddress);
  tv_same_host : str → str → bool;
  tv_http : (str → res DnsIoError (list InetAddress)) → str → option Z;
}.

(** The entries that are emitted, and whether an exception leaves the test. *)
Definition runOne (env : TestEnv) (url : str) (routes : list VpnRouteRule) : list ConnectionTestEntry * bool :=
  match parse_uri url with
  | None => ([], true)
  | Some uri =>
      match uri_host uri with
      | None => ([mkEntry url Done [] PathDirect (Some (TestFailure UrlHasNoHost))], false)
      | Some host =>
          let resolving := mkEntry url Resolving [] PathDirect None in
          match tv_lookup env host with
          | Panic => ([resolving], true)
          | Err e => ([resolving; mkEntry url Done [] PathDirect (Some (TestFailure (DnsFailed e)))], false)
          | Ok addresses =>
              match expectedPathForAddresses routes addresses with
              | Err _ | Panic => ([resolving], true)
              | Ok expectedPath =>
                  let numeric := hostAddress <$> addresses in
                  let outcome := http_outcome (tv_http env (pinned_lookup (tv_same_host env) host addresses (tv_lookup env)) url) in
                  ([resolving; mkEntry url Checking numeric expectedPath None; mkEntry url Done numeric expectedPath (Some outcome)], false)
              end
          end
      end
  end.
End Runner.

(** ** The screen ([MainScreenActions.kt], [MainScreenState.kt]) *)
Record ConnectionTestUiState := mkTests { tu_inProgress : bool; tu_entries : list ConnectionTestEntry }.
Inductive ConnectionTestStartResult :=
  | TestsReady (state : ConnectionTestUiState) (profile : SltProfile)
  | TestsBlocked (state : ConnectionTestUiState) (message : UiMessage).

Definition prepareConnectionTestStart (state : ConnectionTestUiState) (vpnStatus : VpnStatus) (activeProfile : option SltProfile) : ConnectionTestStartResult :=
  let cleared := mkTests (tu_inProgress state) [] in
  match activeProfile with
  | None => TestsBlocked cleared (error (text "No active profile"))
  | Some profile =>
      if negb (bool_decide (vpnStatus = VsRunning)) then TestsBlocked cleared (warning (text "Connect the VPN before running tests")) else
      if bool_decide (pm_testUrls (sp_metadata profile) = []) then TestsBlocked cleared (warning (text "Active profile has no test URLs")) else
      if tu_inProgress state then TestsBlocked state (info (text "Connection tests already running")) else
      TestsReady (mkTests true ((λ url, mkEntry url Resolving [] PathDirect None) <$> pm_testUrls (sp_metadata profile))) profile
  end.

Fixpoint replace_entry (entry : ConnectionTestEntry) (entries : list ConnectionTestEntry) : option (list ConnectionTestEntry) :=
  match entries with
  | [] => None
  | e :: entries => if bool_decide (te_url e = te_url entry) then Some (entry :: entries) else cons e <$> replace_entry entry entries
  end.
Definition withEntry (state : ConnectionTestUiState) (entry : ConnectionTestEntry) : ConnectionTestUiState :=
  mkTests (tu_inProgress state) (match replace_entry entry (tu_entries state) with Some l => l | None => tu_entries state ++ [entry] end).

(** The tests of all URLs at the same time: the entries arrive in the order of
    each, in any order among them.  The screen is no longer in progress when
    all have ended, or when an exception left one, which cancels the others. *)
Inductive merged {X} : list (list X) → list X → Prop :=
  | merged_done (ls : list (list X)) : Forall (λ l, l = []) ls → merged ls []
  | merged_next ls1 x l ls2 rest : merged (ls1 ++ l :: ls2) rest → merged (ls1 ++ (x :: l) :: ls2) (x :: rest).
Definition collect (state : ConnectionTestUiState) (entries : list ConnectionTestEntry) : ConnectionTestUiState :=
  let state := foldl withEntry state entries in
  mkTests false (tu_entries state).

(** ** The parser is total *)
Lemma read_short_ok bs o : bytes_ok bs → 0 ≤ o → o + 2 ≤ zlen bs → readUnsignedShort bs o = Ok (from_be (sub bs o (o + 2))).
Proof.
  intros Hb Ho Hl. unfold readUnsignedShort. rewrite Z.gtb_ltb, (proj2 (Z.ltb_ge _ _)) by lia. rewrite !index_ok by lia. res_simpl. f_equal.
  pose proof (bytes_ok_nth bs (Z.to_nat o) Hb) as H1. pose proof (bytes_ok_nth bs (Z.to_nat (o + 1)) Hb) as H2. unfold u8_ok in *.
  rewrite Z.shiftl_mul_pow2, (lor_aligned _ _ 8) by (lia || apply Z.mod_mul; lia). change (2 ^ 8) with 256.
  rewrite (sub_cons bs o), (sub_cons bs (o + 1)) by lia. replace (o + 1 + 1) with (o + 2) by lia. rewrite sub_nil. unfold from_be. cbn [foldl]. lia.
Qed.
Lemma read_short_cases bs o : bytes_ok bs → 0 ≤ o →
  (readUnsignedShort bs o = Err TruncatedData ∧ zlen bs < o + 2) ∨
  (o + 2 ≤ zlen bs ∧ readUnsignedShort bs o = Ok (from_be (sub bs o (o + 2))) ∧ u16_ok (from_be (sub bs o (o + 2)))).
Proof.
  intros Hb Ho. destruct (decide (o + 2 ≤ zlen bs)) as [Hl|Hl].
  - right. rewrite read_short_ok by done. split_and!; [done..|]. pose proof (from_be_bound (sub bs o (o + 2)) (bytes_ok_sub _ _ _ Hb)) as H.
    rewrite zlen_sub in H by lia. replace (o + 2 - o) with 2 in H by lia. done.
  - left. split; [|lia]. unfold readUnsignedShort. by rewrite Z.gtb_ltb, (proj2 (Z.ltb_lt _ _)) by lia.
Qed.

Lemma advance_cases o n limit :
  (checkedAdvance o n limit = Err TruncatedData ∧ limit < o + n) ∨ (checkedAdvance o n limit = Ok (o + n) ∧ o + n ≤ limit).
Proof. unfold checkedAdvance. destruct (Z.gtb_spec (o + n) limit); [left|right]; done. Qed.

Lemma skip_from_total fuel m o :
  bytes_ok m → 0 ≤ o → zlen m - o < Z.of_nat fuel → (0 < fuel)%nat →
  match skip_from fuel m o with Ok o' => o < o' ≤ zlen m | Err _ => True | Panic => False end.
Proof.
  intros Hm. revert o. induction fuel as [|fuel IH]; intros o Ho Hf Hpos; [lia|]. cbn [skip_from].
  destruct (Z.geb_spec o (zlen m)) as [|Hlt]; [done|].
  rewrite (index_ok m o) by lia. res_simpl. set (len := nth _ m 0).
  assert (u8_ok len) as Hlen by (by apply bytes_ok_nth). unfold u8_ok in Hlen.
  destruct (Z.land len DNS_LABEL_POINTER_MASK =? _).
  - destruct (Z.geb_spec (o + 1) (zlen m)); [done|]. rewrite index_ok by lia. res_simpl. destruct (_ >=? _); [done|lia].
  - destruct (_ =? 0); [|done]. destruct (Z.eqb_spec len 0); [lia|].
    destruct (advance_cases (o + 1) len (zlen m)) as [ [-> _]|[-> Hl] ]; [done|]. res_simpl. specialize (IH (o + 1 + len) ltac:(lia) ltac:(lia) ltac:(lia)).
    destruct (skip_from fuel m (o + 1 + len)); [lia|done|done].
Qed.
Lemma skip_total m o :
  bytes_ok m → 0 ≤ o → match skipDnsName m o with Ok o' => o < o' ≤ zlen m | Err _ => True | Panic => False end.
Proof. intros Hm Ho. apply skip_from_total; [done..|unfold zlen; lia|lia]. Qed.

Lemma questions_total n m o :
  bytes_ok m → 0 ≤ o ≤ zlen m → match skip_questions n m o with Ok o' => o ≤ o' ≤ zlen m | Err _ => True | Panic => False end.
Proof.
  intros Hm. revert o. induction n as [|n IH]; intros o Ho; cbn [skip_questions]; [lia|].
  pose proof (skip_total m o Hm ltac:(lia)) as H. destruct (skipDnsName m o) as [o1| |]; [|done|done]. res_simpl.
  destruct (advance_cases o1 DNS_QUESTION_TRAILER_LENGTH (zlen m)) as [ [-> _]|[-> Hl] ]; [done|]. res_simpl. unfold DNS_QUESTION_TRAILER_LENGTH in *.
  specialize (IH (o1 + 4) ltac:(lia)). destruct (skip_questions n m (o1 + 4)); [lia|done|done].
Qed.

(** *** What the addresses are *)

(** The data of a record of the right type, class and length. *)
Definition record_at (m : bytes) (t : DnsQueryType) (a : InetAddress) (o : Z) : Prop :=
  10 ≤ o ∧ o + addressLength t ≤ zlen m ∧
  from_be (sub m (o - 10) (o - 8)) = type_code t ∧ from_be (sub m (o - 8) (o - 6)) = DNS_CLASS_IN ∧
  from_be (sub m (o - 2) o) = addressLength t ∧ getByAddress (sub m o (o + addressLength t)) = Ok a.

Lemma addressLength_range t : 0 ≤ addressLength t ≤ 16.
Proof. by destruct t. Qed.
Lemma getByAddress_ok t b : zlen b = addressLength t → ∃ a, getByAddress b = Ok a.
Proof. intros H. unfold getByAddress. rewrite H. destruct t; cbn; eauto. Qed.

Lemma answers_sound n m t o :
  bytes_ok m → 0 ≤ o ≤ zlen m →
  match read_answers n m t o with Ok l => Forall (λ a, ∃ o, record_at m t a o) l | Err _ => True | Panic => False end.
Proof.
  intros Hm. revert o. induction n as [|n IH]; intros o Ho; cbn [read_answers]; [constructor|].
  pose proof (skip_total m o Hm ltac:(lia)) as H. destruct (skipDnsName m o) as [o1| |]; [|done|done]. res_simpl. unfold DNS_ANSWER_FIXED_LENGTH.
  destruct (Z.gtb_spec (o1 + 10) (zlen m)); [done|]. rewrite !read_short_ok by (done || lia). res_simpl.
  set (len := from_be (sub m (o1 + 8) (o1 + 8 + 2))).
  assert (u16_ok len) as Hlen by (destruct (read_short_cases m (o1 + 8) Hm) as [ [_ ?]|(_ & _ & ?)]; [lia|lia|done]). unfold u16_ok in Hlen.
  destruct (advance_cases (o1 + 10) len (zlen m)) as [ [-> _]|[-> Hl] ]; [done|]. res_simpl.
  specialize (IH (o1 + 10 + len) ltac:(lia)).
  destruct ((_ =? DNS_CLASS_IN) && (_ =? type_code t) && (len =? addressLength t)) eqn:E; res_simpl.
  - apply andb_true_iff in E as [ [E1%Z.eqb_eq E2%Z.eqb_eq]%andb_true_iff E3%Z.eqb_eq]. rewrite slice_ok by lia. res_simpl.
    destruct (getByAddress_ok t (sub m (o1 + 10) (o1 + 10 + len))) as [a Ea]; [rewrite zlen_sub by lia; lia|]. rewrite Ea. res_simpl.
    destruct (read_answers n m t (o1 + 10 + len)) as [l| |]; [|done|done]. res_simpl. constructor; [|done]. exists (o1 + 10).
    rewrite E3 in *. split_and!; [lia|lia| | | |done].
    + rewrite <- E2. do 2 f_equal; lia.
    + rewrite <- E1. do 2 f_equal; lia.
    + rewrite <- E3. unfold len. do 2 f_equal; lia.
  - destruct (read_answers n m t (o1 + 10 + len)) as [l| |]; [|done|done]. by res_simpl.
Qed.

Lemma response_sound m id t :
  bytes_ok m →
  match parseDnsResponse m id t with
  | Ok l => from_be (sub m 0 2) = id ∧ Forall (λ a, ∃ o, record_at m t a o) l
  | Err _ => True
  | Panic => False
  end.
Proof.
  intros Hm. unfold parseDnsResponse. unfold DNS_HEADER_LENGTH. destruct (Z.ltb_spec (zlen m) 12); [done|]. rewrite !read_short_ok by (done || lia). res_simpl.
  destruct (Z.eqb_spec (from_be (sub m 0 (0 + 2))) id) as [Hid|]; cbn [negb]; [|done]. destruct (_ =? 0); [done|]. destruct (negb _); [done|]. destruct (negb _); [done|].
  pose proof (questions_total (Z.to_nat (from_be (sub m 4 (4 + 2)))) m 12 Hm ltac:(lia)) as Hq.
  destruct (skip_questions _ m 12) as [o| |]; [|done|done]. res_simpl. pose proof (answers_sound (Z.to_nat (from_be (sub m 6 (6 + 2)))) m t o Hm ltac:(lia)) as Ha.
  destruct (read_answers _ m t o); [|done|done]. by split.
Qed.

(** ** Answers to a query *)

(** A name on the wire: labels and then the root or a pointer into a message of
    the given size. *)
Inductive wire_name (size : Z) : bytes → Prop :=
  | wire_root : wire_name size [0]
  | wire_pointer hi lo : 192 ≤ hi < 256 → u8_ok lo → (hi - 192) * 256 + lo < size → wire_name size [hi; lo]
  | wire_label label rest : 1 ≤ zlen label ≤ 63 → wire_name size rest → wire_name size (zlen label :: label ++ rest).

Record DnsRecord := mkRecord { rc_name : bytes; rc_type : Z; rc_class : Z; rc_ttl : bytes; rc_data : bytes }.
Definition record_bytes (r : DnsRecord) : bytes :=
  rc_name r ++ to_be 2 (rc_type r) ++ to_be 2 (rc_class r) ++ rc_ttl r ++ to_be 2 (zlen (rc_data r)) ++ rc_data r.
Definition record_ok (size : Z) (r : DnsRecord) : Prop :=
  wire_name size (rc_name r) ∧ u16_ok (rc_type r) ∧ u16_ok (rc_class r) ∧ zlen (rc_ttl r) = 4 ∧ u16_ok (zlen (rc_data r)).
(** The address that a record gives to a query. *)
Definition record_address (t : DnsQueryType) (r : DnsRecord) : option InetAddress :=
  if (rc_class r =? DNS_CLASS_IN) && (rc_type r =? type_code t) && (zlen (rc_data r) =? addressLength t)
  then match getByAddress (rc_data r) with Ok a => Some a | _ => None end else None.

(** The reply of a server: the number, the question and the answers, with the
    numbers of the other records and those records. *)
Definition reply (id flags : Z) (question : bytes) (counts : bytes) (answers : list DnsRecord) (others : bytes) : bytes :=
  to_be 2 id ++ to_be 2 flags ++ to_be 2 1 ++ to_be 2 (zlen answers) ++ counts ++ question ++ concat (record_bytes <$> answers) ++ others.

Lemma index_at {E} (pre post : bytes) x : @index E (pre ++ x :: post) (zlen pre) = Ok x.
Proof.
  rewrite index_ok; [|apply zlen_nonneg|zl; pose proof (zlen_nonneg post); lia]. f_equal. unfold zlen. rewrite Nat2Z.id. by rewrite nth_middle.
Qed.

Lemma label_kind n : 0 ≤ n < 64 → Z.land n DNS_LABEL_POINTER_MASK = 0.
Proof.
  intros Hn. assert (Forall (λ n, Z.land n 192 = 0) (seqZ 0 64)) as H by decided.
  rewrite Forall_forall in H. apply H, elem_of_seqZ. lia.
Qed.
Lemma pointer_kind n : 192 ≤ n < 256 → Z.land n DNS_LABEL_POINTER_MASK = 192 ∧ Z.land n DNS_LABEL_POINTER_VALUE_MASK = n - 192.
Proof.
  intros Hn. assert (Forall (λ n, Z.land n 192 = 192 ∧ Z.land n 63 = n - 192) (seqZ 192 64)) as H by decided.
  rewrite Forall_forall in H. apply H, elem_of_seqZ. lia.
Qed.

Lemma skip_wire size fuel pre name post :
  wire_name size name → size = zlen (pre ++ name ++ post) → (length name ≤ fuel)%nat →
  skip_from fuel (pre ++ name ++ post) (zlen pre) = Ok (zlen pre + zlen name).
Proof.
  intros Hn. revert fuel pre. induction Hn as [|hi lo Hhi Hlo Hp|label rest Hl Hr IH]; intros fuel pre Hs Hf.
  - destruct fuel; [cbn in Hf; lia|]. cbn [skip_from app]. rewrite index_at. res_simpl. change (Z.land 0 _) with 0.
    zl. pose proof (zlen_nonneg post). destruct (Z.geb_spec (zlen pre) (zlen pre + (1 + zlen post))); [lia|]. done.
  - destruct fuel; [cbn in Hf; lia|]. cbn [skip_from app] in *. rewrite index_at. res_simpl. destruct (pointer_kind hi Hhi) as [-> ->].
    rewrite Z.eqb_refl. rewrite <- Hs. pose proof (zlen_nonneg post). zl in Hs. destruct (Z.geb_spec (zlen pre) size); [lia|].
    destruct (Z.geb_spec (zlen pre + 1) size); [lia|].
    pose proof (@index_at DnsIoError (pre ++ [hi]) post lo) as Hi. zl in Hi. rewrite <- app_assoc in Hi. cbn in Hi.
    replace (zlen pre + (1 + 0)) with (zlen pre + 1) in Hi by lia. rewrite Hi. res_simpl. unfold u8_ok in Hlo.
    rewrite Z.shiftl_mul_pow2, (lor_aligned _ _ 8) by (lia || apply Z.mod_mul; lia). change (2 ^ 8) with 256.
    by destruct (Z.geb_spec ((hi - 192) * 256 + lo) size); [lia|].
  - destruct fuel; [cbn in Hf; lia|]. cbn [skip_from app]. rewrite index_at. res_simpl. rewrite label_kind by lia.
    change (0 =? DNS_LABEL_POINTER_MASK) with false. cbn iota. rewrite Z.eqb_refl. rewrite <- app_assoc in *. cbn [app] in Hs.
    pose proof (zlen_nonneg post). pose proof (zlen_nonneg rest).
    assert (size = zlen pre + 1 + zlen label + zlen rest + zlen post) as Hs' by (rewrite Hs, <- app_assoc; zl; lia).
    rewrite <- app_assoc in Hs. rewrite <- Hs. destruct (Z.geb_spec (zlen pre) size); [lia|]. destruct (Z.eqb_spec (zlen label) 0); [lia|].
    destruct (advance_cases (zlen pre + 1) (zlen label) size) as [ [-> ?]|[-> _] ]; [lia|]. res_simpl.
    specialize (IH fuel (pre ++ zlen label :: label)). rewrite <- app_assoc in IH. cbn [app] in IH.
    assert (zlen (pre ++ zlen label :: label) = zlen pre + 1 + zlen label) as E by (zl; lia). rewrite E in IH. rewrite IH.
    + f_equal. zl. lia.
    + rewrite Hs. done.
    + cbn in Hf. rewrite length_app in Hf. lia.
Qed.

Lemma skip_name_at m pre name post :
  m = pre ++ name ++ post → wire_name (zlen m) name → skipDnsName m (zlen pre) = Ok (zlen pre + zlen name).
Proof. intros -> Hn. apply (skip_wire _ _ _ _ _ Hn eq_refl). rewrite !length_app. lia. Qed.

Lemma read_short_at m pre x post o : m = pre ++ to_be 2 x ++ post → o = zlen pre → u16_ok x → readUnsignedShort m o = Ok x.
Proof.
  intros -> -> Hx. unfold readUnsignedShort, u16_ok in *. pose proof (zlen_nonneg post).
  destruct (Z.gtb_spec (zlen pre + 2) (zlen (pre ++ to_be 2 x ++ post))) as [H'|_]; [zl in H'; lia|].
  change (to_be 2 x) with [x / 256 mod 256; x mod 256]. cbn [app]. rewrite index_at. res_simpl.
  pose proof (@index_at DnsIoError (pre ++ [x / 256 mod 256]) post (x mod 256)) as Hi. rewrite <- app_assoc in Hi. cbn [app] in Hi.
  rewrite zlen_app, zlen_one in Hi. rewrite Hi. res_simpl. f_equal.
  pose proof (Z.mod_pos_bound x 256). rewrite Z.shiftl_mul_pow2, (lor_aligned _ _ 8) by (lia || (change (2 ^ 8) with 256; lia) || (apply Z.mod_mul; lia)).
  change (2 ^ 8) with 256. rewrite (Z.mod_small (x / 256)) by (split; [apply Z.div_pos|apply Z.div_lt_upper_bound]; lia). pose proof (Z.div_mod x 256). lia.
Qed.

Lemma questions_read m pre question post :
  m = pre ++ question ++ post → (∃ name rest, question = name ++ rest ∧ wire_name (zlen m) name ∧ zlen rest = 4) →
  skip_questions 1 m (zlen pre) = Ok (zlen (pre ++ question)).
Proof.
  intros Em (name & rest & -> & Hn & Hr). cbn [skip_questions]. pose proof (zlen_nonneg post).
  rewrite (skip_name_at m pre name (rest ++ post)) by (done || by rewrite Em, <- app_assoc). res_simpl. unfold DNS_QUESTION_TRAILER_LENGTH.
  assert (zlen m = zlen pre + zlen name + 4 + zlen post) as Hm by (rewrite Em; zl; lia).
  destruct (advance_cases (zlen pre + zlen name) 4 (zlen m)) as [ [_ ?]|[-> _] ]; [lia|]. res_simpl. f_equal. zl. lia.
Qed.

Lemma answers_read t m pre rs post :
  m = pre ++ concat (record_bytes <$> rs) ++ post → Forall (record_ok (zlen m)) rs →
  read_answers (length rs) m t (zlen pre) = Ok (omap (record_address t) rs).
Proof.
  intros Em Hrs. revert pre Em. induction Hrs as [|r rs (Hn & Ht & Hc & Httl & Hd) _ IH]; intros pre Em; [done|].
  cbn [length read_answers fmap list_fmap concat omap list_omap] in *.
  rewrite <- app_assoc in Em. set (more := concat (record_bytes <$> rs) ++ post) in *. unfold record_bytes in Em. rewrite <- !app_assoc in Em.
  pose proof (zlen_nonneg more). pose proof (zlen_nonneg (rc_data r)). pose proof (zlen_nonneg pre). pose proof (zlen_nonneg (rc_name r)).
  rewrite (skip_name_at m pre _ _ Em Hn). res_simpl. unfold DNS_ANSWER_FIXED_LENGTH.
  assert (zlen m = zlen pre + zlen (rc_name r) + 10 + zlen (rc_data r) + zlen more) as Hm by (rewrite Em; zl; lia).
  destruct (Z.gtb_spec (zlen pre + zlen (rc_name r) + 10) (zlen m)); [lia|].
  set (o := zlen pre + zlen (rc_name r)) in *.
  erewrite (read_short_at m (pre ++ rc_name r) (rc_type r) _ o); [|by rewrite Em, <- app_assoc|unfold o; by zl|done]. res_simpl.
  erewrite (read_short_at m (pre ++ rc_name r ++ to_be 2 (rc_type r)) (rc_class r) _ (o + 2)); [|by rewrite Em, <- !app_assoc|unfold o; zl; lia|done]. res_simpl.
  erewrite (read_short_at m (pre ++ rc_name r ++ to_be 2 (rc_type r) ++ to_be 2 (rc_class r) ++ rc_ttl r) (zlen (rc_data r)) _ (o + 8));
    [|by rewrite Em, <- !app_assoc|unfold o; zl; lia|done]. res_simpl.
  destruct (advance_cases (o + 10) (zlen (rc_data r)) (zlen m)) as [ [_ ?]|[-> _] ]; [lia|]. res_simpl.
  specialize (IH (pre ++ record_bytes r)). rewrite zlen_app in IH. unfold record_bytes at 2 in IH. zl in IH.
  match type of IH with _ → read_answers _ _ _ ?x = _ => replace x with (o + 10 + zlen (rc_data r)) in IH by (unfold o; lia) end.
  rewrite IH by (rewrite Em; unfold record_bytes, more; by rewrite <- !app_assoc). unfold record_address at 2.
  destruct ((rc_class r =? _) && _ && _) eqn:Eq; res_simpl; [|done].
  apply andb_true_iff in Eq as [_ Eq%Z.eqb_eq]. rewrite slice_ok by (unfold o; lia). res_simpl.
  assert (sub m (o + 10) (o + 10 + zlen (rc_data r)) = rc_data r) as -> by (rewrite Em; unfold o; by fields).
  destruct (getByAddress_ok t _ Eq) as [a ->]. by res_simpl.
Qed.

Lemma set_byte_at pre x post v o : o = zlen pre → set_byte (pre ++ x :: post) o v = Ok (pre ++ v mod 256 :: post).
Proof.
  intros ->. unfold set_byte. pose proof (zlen_nonneg pre). pose proof (zlen_nonneg post).
  rewrite (proj2 (Z.leb_le _ _)), (proj2 (Z.ltb_lt _ _)) by (zl; lia). cbn [andb]. f_equal. unfold zlen. rewrite Nat2Z.id.
  rewrite <- (Nat.add_0_r (length pre)), insert_app_r. done.
Qed.
Lemma write_short_at m pre a b post v o : m = pre ++ a :: b :: post → o = zlen pre → writeUnsignedShort m o v = Ok (pre ++ to_be 2 v ++ post).
Proof.
  intros -> ->. unfold writeUnsignedShort. rewrite set_byte_at by done. res_simpl.
  change (pre ++ Z.shiftr v 8 mod 256 :: b :: post) with (pre ++ [Z.shiftr v 8 mod 256] ++ b :: post). rewrite app_assoc, set_byte_at by (by zl).
  rewrite <- app_assoc. rewrite Z.shiftr_div_pow2 by done. done.
Qed.

(** The bytes of a query. *)
Lemma query_bytes id hostname t name :
  encodeDnsName hostname = Ok name →
  buildDnsQuery id hostname t =
    Ok (to_be 2 id ++ to_be 2 DNS_RECURSION_DESIRED_FLAG ++ to_be 2 1 ++ zeros 6 ++ name ++ to_be 2 (type_code t) ++ to_be 2 DNS_CLASS_IN).
Proof.
  intros Hn. unfold buildDnsQuery. rewrite Hn. res_simpl. unfold DNS_HEADER_LENGTH, DNS_QUESTION_TRAILER_LENGTH. pose proof (zlen_nonneg name).
  assert (zeros (12 + zlen name + 4) = [0; 0; 0; 0; 0; 0; 0; 0; 0; 0; 0; 0] ++ zeros (zlen name) ++ [0; 0; 0; 0]) as ->.
  { unfold zeros. rewrite (Z2Nat.inj_add (12 + zlen name)), (Z2Nat.inj_add 12), !replicate_add, <- app_assoc by lia. done. }
  assert (zlen (zeros (zlen name)) = zlen name) as Hz by (by apply zlen_zeros).
  set (rest := zeros (zlen name) ++ [0; 0; 0; 0]).
  rewrite (write_short_at _ [] 0 0 ([0; 0; 0; 0; 0; 0; 0; 0; 0; 0] ++ rest) id 0) by done. res_simpl.
  rewrite (write_short_at _ (to_be 2 id) 0 0 ([0; 0; 0; 0; 0; 0; 0; 0] ++ rest) _ 2) by done. res_simpl.
  rewrite (write_short_at _ (to_be 2 id ++ to_be 2 DNS_RECURSION_DESIRED_FLAG) 0 0 ([0; 0; 0; 0; 0; 0] ++ rest) _ 4) by done. res_simpl.
  set (header := to_be 2 id ++ to_be 2 DNS_RECURSION_DESIRED_FLAG ++ to_be 2 1 ++ [0; 0; 0; 0; 0; 0]).
  match goal with |- context [copyInto name ?q 12] => change q with (header ++ rest) end.
  assert (zlen header = 12) as Hh by done.
  assert (copyInto name (header ++ rest) 12 = Ok (header ++ name ++ [0; 0; 0; 0])) as ->.
  { unfold copyInto, rest. rewrite (proj2 (Z.leb_le (12 + _) _)) by (zl; lia). change (0 <=? 12) with true. cbn [andb].
    assert (sub (header ++ zeros (zlen name) ++ [0; 0; 0; 0]) 0 12 = header) as -> by (by fields). do 3 f_equal.
    replace (zlen (header ++ zeros (zlen name) ++ [0; 0; 0; 0])) with (12 + zlen name + 4) by (zl; lia). by fields. }
  res_simpl. rewrite (write_short_at _ (header ++ name) 0 0 [0; 0]) by first [by rewrite <- !app_assoc|zl; lia]. res_simpl.
  rewrite (write_short_at _ ((header ++ name) ++ to_be 2 (type_code t)) 0 0 []) by first [by rewrite <- !app_assoc|zl; lia].
  f_equal. unfold header. rewrite <- !app_assoc. done.
Qed.

Lemma labels_wire size labels out : encode_labels labels = Ok out → wire_name size (out ++ [0]).
Proof.
  revert out. induction labels as [|label labels IH]; intros out; cbn [encode_labels]; [intros [= <-]; constructor|].
  destruct (bool_decide (encodeToByteArray label = [])) eqn:En; [done|]. cbn [orb]. apply bool_decide_eq_false in En.
  destruct (Z.gtb_spec (zlen (encodeToByteArray label)) DNS_MAX_LABEL_LENGTH) as [|Hl]; [done|]. unfold DNS_MAX_LABEL_LENGTH in Hl.
  destruct (encode_labels labels) as [out'| |]; res_simpl; [|done|done]. intros [= <-]. cbn [app]. rewrite <- app_assoc.
  constructor; [|by apply IH]. destruct (encodeToByteArray label) as [|c cs]; [done|]. zl in Hl. zl. pose proof (zlen_nonneg cs). lia.
Qed.
Lemma name_wire size hostname name : encodeDnsName hostname = Ok name → wire_name size name.
Proof.
  unfold encodeDnsName. destruct (encode_labels (split DOT hostname)) as [out| |] eqn:E; res_simpl; [|done|done].
  destruct (_ >? _); [done|]. intros [= <-]. by eapply labels_wire.
Qed.

(** The flags of a reply without an error that was not cut off. *)
Definition flags_ok (flags : Z) : Prop :=
  u16_ok flags ∧ Z.land flags DNS_RESPONSE_FLAG ≠ 0 ∧ Z.land flags DNS_TRUNCATED_FLAG = 0 ∧ Z.land flags DNS_RESPONSE_CODE_MASK = 0.

Lemma reply_read id flags hostname t query counts answers others :
  buildDnsQuery id hostname t = Ok query → u16_ok id → flags_ok flags → zlen counts = 4 → u16_ok (zlen answers) →
  let m := reply id flags (drop 12 query) counts answers others in
  Forall (record_ok (zlen m)) answers → parseDnsResponse m id t = Ok (omap (record_address t) answers).
Proof.
  intros Hq Hid (Hf & F1 & F2 & F3) Hc Ha m Hr.
  assert (∃ name, encodeDnsName hostname = Ok name) as [name Hn] by (unfold buildDnsQuery in Hq; destruct (encodeDnsName hostname); res_simpl; eauto; done).
  rewrite (query_bytes _ _ _ _ Hn) in Hq. injection Hq as <-.
  set (question := name ++ to_be 2 (type_code t) ++ to_be 2 DNS_CLASS_IN). change (drop 12 _) with question in m.
  pose proof (zlen_nonneg question). pose proof (zlen_nonneg others). pose proof (zlen_nonneg (concat (record_bytes <$> answers))).
  unfold parseDnsResponse, DNS_HEADER_LENGTH. destruct (Z.ltb_spec (zlen m) 12) as [Hlt|_]; [unfold m, reply in Hlt; zl in Hlt; lia|].
  erewrite (read_short_at m [] id _ 0) by done. res_simpl. rewrite Z.eqb_refl. cbn [negb].
  erewrite (read_short_at m (to_be 2 id) flags _ 2) by done. res_simpl.
  rewrite (proj2 (Z.eqb_neq _ _) F1), F2, F3, Z.eqb_refl. cbn [negb].
  erewrite (read_short_at m (to_be 2 id ++ to_be 2 flags) 1 _ 4) by done. res_simpl.
  erewrite (read_short_at m (to_be 2 id ++ to_be 2 flags ++ to_be 2 1) (zlen answers) _ 6) by done. res_simpl.
  set (header := to_be 2 id ++ to_be 2 flags ++ to_be 2 1 ++ to_be 2 (zlen answers) ++ counts).
  assert (m = header ++ question ++ concat (record_bytes <$> answers) ++ others) as Em by (unfold m, reply, header; by rewrite <- !app_assoc).
  change (Z.to_nat 1) with 1%nat. replace 12 with (zlen header) by (unfold header; zl; lia).
  rewrite (questions_read m header question _ Em). 2: { exists name, (to_be 2 (type_code t) ++ to_be 2 DNS_CLASS_IN). split_and!; [done|by eapply name_wire|done]. }
  res_simpl. unfold zlen at 1. rewrite Nat2Z.id. apply (answers_read t m _ _ others); [|done]. by rewrite Em, <- app_assoc.
Qed.

(** ** Lookups *)
Lemma labels_total labels : encode_labels labels ≠ Panic.
Proof.
  induction labels as [|label labels IH]; cbn [encode_labels]; [done|]. destruct (_ || _); [done|]. by destruct (encode_labels labels).
Qed.
Lemma query_total id hostname t : buildDnsQuery id hostname t ≠ Panic.
Proof.
  destruct (encodeDnsName hostname) as [name|e|] eqn:E.
  - by rewrite (query_bytes _ _ _ _ E).
  - unfold buildDnsQuery. by rewrite E.
  - unfold encodeDnsName in E. pose proof (labels_total (split DOT hostname)). destruct (encode_labels _); res_simpl; [|done|done].
    cbn in E. by destruct (_ >? _).
Qed.

Lemma distinct_hosts_spec `{J : Jvm} seen l :
  NoDup (hostAddress <$> distinct_hosts seen l) ∧ (∀ a, a ∈ distinct_hosts seen l → a ∈ l ∧ hostAddress a ∉ seen) ∧
  (∀ a, a ∈ l → hostAddress a ∉ seen → ∃ b, b ∈ distinct_hosts seen l ∧ hostAddress b = hostAddress a).
Proof.
  revert seen. induction l as [|x l IH]; intros seen; cbn [distinct_hosts]; [split_and!; [constructor|set_solver|set_solver]|].
  case_bool_decide as Hx.
  - destruct (IH seen) as (H1 & H2 & H3). split_and!; [done|set_solver|]. intros a [->|Ha]%elem_of_cons Hs; [done|]. by apply H3.
  - destruct (IH (hostAddress x :: seen)) as (H1 & H2 & H3). split_and!.
    + rewrite fmap_cons. constructor; [|done]. intros (a & Ea & [_ Ha]%H2)%list_elem_of_fmap. apply Ha. rewrite <- Ea. by left.
    + intros a [->|Ha]%elem_of_cons; [set_solver|]. destruct (H2 a Ha). set_solver.
    + intros a Ha Hs. destruct (decide (hostAddress a = hostAddress x)) as [E|E]; [exists x; split; [by left|done]|].
      apply elem_of_cons in Ha as [->|Ha]; [done|]. destruct (H3 a Ha) as (b & Hb & Eb); [set_solver|]. exists b. split; [by right|done].
Qed.

Section LookupSpec.
Context `{J : Jvm} `{I : Idn} (env : DnsEnv).
Context (Henv : ∀ n d, de_receive env n = Some d → bytes_ok d).

(** The datagram as the socket stores it. *)
Definition stored (d : bytes) : bytes := take (Z.to_nat DNS_MAX_UDP_PACKET_SIZE) d.
(** The exchange [q] gave the addresses [l]. *)
Definition gave (hostname : str) (t : DnsQueryType) (l : list InetAddress) (q : Asked) : Prop :=
  ∃ id d, buildDnsQuery id hostname t = Ok (as_query q) ∧ as_reply q = Some d ∧ bytes_ok d ∧ parseDnsResponse (stored d) id t = Ok l.
Definition gave_nothing (hostname : str) (t : DnsQueryType) (q : Asked) : Prop :=
  ∃ id, buildDnsQuery id hostname t = Ok (as_query q) ∧
    match as_reply q with None => True | Some d => ∃ e, parseDnsResponse (stored d) id t = Err e end.

(** One type of record was asked for, with the result [a]. *)
Definition tried (hostname : str) (t : DnsQueryType) (a : list InetAddress) (l : list Asked) : Prop :=
  (a = [] ∧ Forall (gave_nothing hostname t) l) ∨ ∃ q l', l = q :: l' ∧ gave hostname t a q ∧ Forall (gave_nothing hostname t) l'.
(** The address [x] is in one of the replies. *)
Definition found (hostname : str) (l : list Asked) (x : InetAddress) : Prop :=
  ∃ q t id d o, q ∈ l ∧ buildDnsQuery id hostname t = Ok (as_query q) ∧ as_reply q = Some d ∧
    from_be (sub (stored d) 0 2) = id ∧ record_at (stored d) t x o.
Definition fruitless (hostname : str) (q : Asked) : Prop := ∃ t, gave hostname t [] q ∨ gave_nothing hostname t q.

Lemma tried_found hostname t a l x : tried hostname t a l → x ∈ a → found hostname l x.
Proof.
  intros [ [-> _]|(q & l' & -> & (id & d & Hq & Hd & Hb & Hp) & _)] Hx; [by apply elem_of_nil in Hx|].
  pose proof (response_sound (stored d) id t ltac:(by apply Forall_take)) as Hr. rewrite Hp in Hr. destruct Hr as [Hid Hr].
  rewrite Forall_forall in Hr. destruct (Hr x Hx) as [o Ho]. exists q, t, id, d, o. split_and!; [by left|done..].
Qed.
Lemma tried_empty hostname t l : tried hostname t [] l → Forall (fruitless hostname) l.
Proof.
  assert (∀ l, Forall (gave_nothing hostname t) l → Forall (fruitless hostname) l) as H.
  { intros l' Hl. apply (Forall_impl _ _ _ Hl). intros q Hq. exists t. by right. }
  intros [ [_ Hl]|(q & l' & -> & Hg & Hl)]; [by apply H|]. constructor; [exists t; by left|by apply H].
Qed.

Lemma queryServer_spec server hostname t s :
  ∃ s' l o, queryServer env server hostname t s = (s', o) ∧ dt_asked s' = l ++ dt_asked s ∧ Forall (λ q, as_server q = server) l ∧
    match o with
    | ORet a => ∃ q, l = [q] ∧ gave hostname t a q
    | OErr _ => Forall (gave_nothing hostname t) l
    | OPanic | OCancel => False
    end.
Proof using Henv.
  unfold queryServer, next_id, exchange, try, mbind, M_bind, fail. cbn. set (id := de_id env (dt_tick s)).
  pose proof (query_total id hostname t) as Hq. destruct (buildDnsQuery id hostname t) as [query|e|] eqn:Eq; [|by eexists _, [], (OErr e)|done].
  cbn. set (q := mkAsked server query (de_receive env (dt_tick s + 1))). destruct (de_receive env (dt_tick s + 1)) as [d|] eqn:Ed.
  - pose proof (Henv _ _ Ed) as Hd. assert (bytes_ok (stored d)) as Hs by (by apply Forall_take).
    pose proof (response_sound (stored d) id t Hs) as Hr. unfold stored in Hr. destruct (parseDnsResponse (take _ d) id t) as [a|e|] eqn:Ep; [| |done].
    + eexists _, [q], (ORet a). split_and!; [done..|by repeat constructor|]. exists q. split; [done|]. by exists id, d.
    + eexists _, [q], (OErr e). split_and!; [done..|by repeat constructor|]. constructor; [|constructor]. exists id. split; [done|]. unfold q. cbn. by exists e.
  - eexists _, [q], (OErr SocketFailed). split_and!; [done..|by repeat constructor|]. constructor; [|constructor]. exists id. by split.
Qed.

Lemma lookupType_spec servers hostname t s :
  ∃ s' l a f, lookupType env servers hostname t s = (s', ORet (a, f)) ∧ dt_asked s' = l ++ dt_asked s ∧ Forall (λ q, as_server q ∈ servers) l ∧
    tried hostname t a l.
Proof using Henv.
  revert s. induction servers as [|server servers IH]; intros s; cbn [lookupType].
  { eexists _, [], [], []. split_and!; [done..|by left]. }
  destruct (queryServer_spec server hostname t s) as (s1 & l1 & o & E & Ha & Hs & Ho). unfold result, mbind, M_bind, mret, M_ret, panic.
  rewrite E. destruct o as [a|e| |]; [| |done|done].
  - destruct Ho as (q & -> & Hg). eexists _, [q], a, []. split_and!; [done..| |right; exists q, []; by split_and!; [..|constructor] ].
    apply Forall_cons_1 in Hs as [<- _]. constructor; [by left|constructor].
  - destruct (IH s1) as (s2 & l2 & a & f & E2 & Ha2 & Hs2 & Hr). rewrite E2. cbn. eexists _, (l2 ++ l1), a, _. split; [done|]. split; [by rewrite Ha2, Ha, app_assoc|].
    split. { apply Forall_app. split; [apply (Forall_impl _ _ _ Hs2); intros q Hq; by right|apply (Forall_impl _ _ _ Hs); intros q <-; by left]. }
    destruct Hr as [ [-> Hr]|(q & l' & -> & Hg & Hr)]; [left|right].
    + split; [done|]. by apply Forall_app.
    + exists q, (l' ++ l1). split_and!; [done..|]. by apply Forall_app.
Qed.
End LookupSpec.

(** ** Theorems *)

(** A server's reply is understood.  The reply to a query of the app, with the
    number and the question of the query, any answers whose names are labels
    with or without a pointer, and any other records behind them, is parsed to
    the addresses of the answers of the type that was asked for, in order. *)
Theorem dns_reply_understood id flags hostname t query counts answers others :
  buildDnsQuery id hostname t = Ok query → u16_ok id → flags_ok flags → zlen counts = 4 → u16_ok (zlen answers) →
  let m := reply id flags (drop 12 query) counts answers others in
  Forall (record_ok (zlen m)) answers → parseDnsResponse m id t = Ok (omap (record_address t) answers).
Proof. apply reply_read. Qed.

(** A lookup with the servers of a profile.  Whatever is received, it returns
    addresses or throws an [IOException].  Each address is the data of a record
    of the right type in a reply of one of the servers that has the number of
    the query it was sent; no two have the same text.  If it fails although
    there are servers and the name can be asked for, no reply had an address:
    it was missing, was refused by the parser, or was empty. *)
Theorem custom_lookup_genuine `{J : Jvm} `{I : Idn} env servers hostname s :
  (∀ n d, de_receive env n = Some d → bytes_ok d) →
  let '(s', r) := custom_lookup env servers hostname s in
  ∃ l, dt_asked s' = l ++ dt_asked s ∧ Forall (λ q, as_server q ∈ omap parseIpv4Address servers) l ∧
  match r with
  | ORet addresses => addresses ≠ [] ∧ NoDup (hostAddress <$> addresses) ∧ ∃ name, asciiDnsName hostname = Ok name ∧
      Forall (found name l) addresses
  | OErr e =>
      (e = NoDnsServers ∧ omap parseIpv4Address servers = []) ∨ asciiDnsName hostname = Err e ∨
      ∃ failures name, e = NotResolvedBy failures ∧ asciiDnsName hostname = Ok name ∧
        Forall (fruitless name) l
  | OPanic | OCancel => False
  end.
Proof.
  intros Henv. unfold custom_lookup. case_bool_decide as Hs; [exists []; split_and!; [done|constructor|by left; split]|].
  unfold try, mbind, M_bind. destruct (asciiDnsName hostname) as [name|e|] eqn:En.
  2: { exists []. split_and!; [done|constructor|by right; left]. }
  2: { exfalso. unfold asciiDnsName in En. destruct (isBlank _); [done|]. by destruct (idn_toASCII _). }
  set (sv := omap parseIpv4Address servers).
  destruct (lookupType_spec env Henv sv name A s) as (s1 & l1 & a4 & f4 & -> & Ha1 & Hs1 & H1).
  destruct (lookupType_spec env Henv sv name AAAA s1) as (s2 & l2 & a6 & f6 & -> & Ha2 & Hs2 & H2).
  set (addresses := distinct_hosts [] (a4 ++ a6)). destruct (distinct_hosts_spec [] (a4 ++ a6)) as (Hd1 & Hd2 & Hd3). fold addresses in Hd1, Hd2, Hd3.
  assert (dt_asked s2 = (l2 ++ l1) ++ dt_asked s) as Hl1 by (by rewrite Ha2, Ha1, app_assoc).
  assert (Forall (λ q, as_server q ∈ sv) (l2 ++ l1)) as Hl2 by (by apply Forall_app). case_bool_decide as He; cbn [negb].
  - assert (a4 ++ a6 = []) as [-> ->]%app_eq_nil.
    { destruct (a4 ++ a6) as [|x l] eqn:E; [done|]. destruct (Hd3 x) as (b & Hb & _); [by left|by apply not_elem_of_nil|]. rewrite He in Hb. by apply elem_of_nil in Hb. }
    exists (l2 ++ l1). split_and!; [done..|]. right. right. eexists _, name. split_and!; [done..|]. apply Forall_app. split; [exact (tried_empty _ _ _ H2)|exact (tried_empty _ _ _ H1)].
  - exists (l2 ++ l1). split_and!; [done..|]. exists name. split; [done|]. apply Forall_forall. intros x [ [Hx|Hx]%elem_of_app _]%Hd2.
    + destruct (tried_found _ _ _ _ _ H1 Hx) as (q & t & id & d & o & Hq & H). exists q, t, id, d, o. split; [|done]. apply elem_of_app. by right.
    + destruct (tried_found _ _ _ _ _ H2 Hx) as (q & t & id & d & o & Hq & H). exists q, t, id, d, o. split; [|done]. apply elem_of_app. by left.
Qed.
